(* ===== verification/_CoqProject ===== *)
-Q . S2P
Prelude.v
JsMap.v
BinaryIO.v
DeviceFraming.v
Wtf8.v
Json.v
Utf8Text.v
JsonText.v
Vocabulary.v
BinaryCodec.v
CompactValue.v
CompactSize.v
JsonRoundtrip.v
CompactCodec.v
Base64.v
Compression.v
LinkTypes.v
Subscriptions.v
Frame.v
FrameCodec.v
FrameJson.v
Fragments.v
JsonEq.v
Instants.v
Contract.v
ContractFacts.v
SdkValidation.v
StateDelta.v
PatchFacts.v
DeltaFacts.v
Picture.v
PictureFacts.v
PictureProjection.v
SdkSubscriptions.v
JsState.v
ResourceCache.v
ResourceCacheFacts.v
ContentCache.v
Clock.v
TransportState.v
TransportBase.v
TransportOut.v
TransportPump.v
TransportIn.v
Transport.v
TransportSample.v
TransportMoves.v
TransportRefines.v
TransportOutMoves.v
TransportInMoves.v
TransportDelivery.v
TransportInvariants.v
TransportRuns.v
Doubles.v
RetryTiming.v
AssetConfig.v
Vehicle.v
MavCommands.v
TaskEngine.v
TaskEngineMoves.v
TaskEngineKeeps.v
TaskEngineFacts.v
AssetHost.v
AssetController.v
AssetControllerFacts.v
AssetSample.v
JoinWire.v
Membership.v
JoinPolicy.v
JoinGateway.v
JoinGatewayFacts.v
JoinAsset.v
JoinAssetFacts.v
JoinExchange.v
JoinSample.v
Profile.v
Telemetry.v
SyncEngine.v
SyncEngineFacts.v
