(* ===== verification/Prelude.v ===== *)
(** * A verification library for Atlas

    Atlas keeps a shared picture of assets, tasks and objects between a Core, a
    Gateway and field Assets. Its TypeScript is of four kinds: the Meshtastic
    link, which carries messages over a radio that moves some two hundred bytes
    at a time (packages/meshtastic-link); the SDK, which keeps an application's
    view of Core (packages/sdk); the host that flies an Asset (edge/asset); and
    the user interfaces, tools and simulations. This library models the first
    three where their own logic lives, and proves what they promise each other.

    ** The parts, in the order of the files

    Foundations. [Prelude] has errors as values ([result], with the notations
    of [js_scope]), JavaScript strings as lists of UTF-16 code units, integers
    with the safe-integer test written out, and the generic lemmas and tactics.
    [JsMap] is the [Map] of the language: an association list in insertion
    order, for several components rely on that order. [JsState] is the effect
    of a method on its object: a result beside the state it leaves, kept also
    when it throws; and the notation of assignments to fields.

    Bytes and text. [BinaryIO] is binary-io.ts and the varint readers and
    writers of binary-codec.ts, compact-value.ts and frame.ts; [DeviceFraming]
    is device-framing.ts, the serial framing as a function of what it retains;
    [Wtf8] and [Utf8Text] are the two text encodings; [Json], [JsonText],
    [JsonRoundtrip] and [JsonEq] are JSON.parse, JSON.stringify
    and canonical-json.ts on double bit patterns and UTF-16 strings.

    Codecs. [Vocabulary] has the generated word lists; [BinaryCodec] is
    binary-codec.ts; [CompactValue] and [CompactCodec] are compact-value.ts, and
    [CompactSize] bounds what both codecs write; [Base64] and [Compression] are
    compression-methods.ts and message-codec.ts.

    Frames. [LinkTypes] has the node, message and priority types of types.ts;
    [Frame], [FrameCodec] and [FrameJson] are the encodings of frame.ts, and
    [Fragments] its fragmentation and adaptive choice.

    Messages. [Instants] is the RFC 3339 test of contract.ts and the order of
    movement instants of sdk/src/validation.ts; [Contract] and [ContractFacts]
    are contract.ts: what a message may be, its serialization and its class;
    [Subscriptions] is subscriptions.ts: the demand for feeds on either side of
    the link; [StateDelta], [PatchFacts] and [DeltaFacts] are state-delta.ts.

    The picture. [Picture] is the class of picture.ts, every operation;
    [PictureFacts] its invariants and what its clients may rely on.
    [SdkValidation] has the tests of sdk/src/validation.ts that relate a response
    to its query, and [PictureProjection] is picture-projection.ts: what a
    delivered message says about the picture.

    The transport, transport.ts. [Clock] is the virtual clock of clock.ts. [TransportState] has the
    state of LinkTransport, [TransportBase] its books of operations and
    settlements, [TransportOut] the way from a message to the queue and the end
    of an operation, [TransportPump] the queue's service and the radio,
    [TransportIn] the way from a packet to a message handed over and its
    settlement, [Transport] the constructor, the methods by name and the runs;
    [TransportSample] runs two of them on concrete packets. [TransportMoves]
    specifies the object as a transition system of small moves,
    [TransportRefines], [TransportOutMoves],
    [TransportInMoves] and [TransportDelivery] show that every operation is a
    sequence of moves around at most one message handed over,
    [TransportInvariants] what the moves keep, and [TransportRuns] concludes on every run.

    The SDK. [SdkSubscriptions] is sdk/src/subscriptions.ts; [ResourceCache]
    and [ResourceCacheFacts] are the class of that name in sdk/src/cache.ts;
    [ContentCache] is its bounded cache of object contents. [SyncEngine] is
    sync-engine.ts with its lifecycle, recovery and reconnection: the engine that
    keeps the cache in step with Core; [SyncEngineFacts] is what holds in all its
    runs, with some runs evaluated.

    Numbers with a fraction. [Doubles] has the arithmetic of the language on
    binary64 as the Standard Library specifies it, with Math.min, Math.max,
    Math.round, the remainder and the order lemmas the components use;
    [RetryTiming] is retry-timing.ts, the estimator of retry delays.

    The Asset host, edge/asset/src. [AssetConfig] is config.ts; [Vehicle] is
    vehicle.ts and readiness.ts, with what its tracker verifies;
    [MavCommands] is commands.ts. [TaskEngine] is the class of task-engine.ts;
    what it calls outside itself is the class [EngineHost], whose laws are
    [EngineHostLaws]. [TaskEngineMoves] specifies a round of it as a transition
    system of guarded moves, [TaskEngineFacts] proves what rounds and
    runs keep, [TaskEngineKeeps] what they leave alone in their host. [AssetHost] is the process around it: the link of
    mavlink-link.ts, the attachment of core-client.ts, the message handler and
    the shutdown of controller.ts, and the instance of [EngineHost] that cli.ts
    makes, with the proof of its laws. [AssetController] is the rest of
    controller.ts, from start to the main loop, [AssetControllerFacts] what a
    process does and when, and [AssetSample] a flight from start to the loss of
    Core.

    Joining, joining.ts with membership.ts and profile.ts. [JoinWire] has the
    four messages of a join and their wire form, and that they arrive as they
    were said; [Membership] is the Gateway's membership store on what its file
    holds, with every call to the file system able to fail, and the generations
    it hands out; [JoinPolicy] has the two
    authentication policies behind one class with its laws. [JoinGateway] is
    GatewayJoinService and [JoinAsset] AssetJoinService, each cut at its awaits:
    [JoinGatewayFacts] and [JoinAssetFacts] are what holds in all their runs,
    [JoinExchange] composes
    the two ends, and [JoinSample] runs one exchange. [Profile] is the profile
    manager of a radio over its adapter, what is true of a radio it has prepared,
    and one radio prepared. [Telemetry] is telemetry-publisher.ts: samples on a
    grid of times, published one at a time.

    ** How state and operations correspond

    A class is a record of its fields; a method is a function from the record
    and its arguments to the new record, in the source's order of tests and
    assignments, with [result] or [eff] where it may throw. Objects that the
    source compares or mutates by identity (cache entries, deletions in flight)
    carry an identity. A number the source keeps integral is a [Z]; other
    numbers are the bits of a double. Runs are sequences of operations with
    arbitrary arguments, so a theorem on reachable states holds whatever the
    callers do.

    The messages the transport has queued are shared by its queue and tables and
    changed in place: [TransportState] keeps them in a store, and the tables
    hold their numbers. The asynchronous [pump] is cut at its await, so anything
    may happen while the radio sends. A timer is an entry of the clock with the
    name of its callback; a turn of the clock runs the next one that is due. A
    listener is told of an event in the middle of the operation that causes it,
    and may call the transport back there: [react] runs its calls, which tell
    the listeners in turn. [commits] and [deliveries] record what was committed
    and what was handed over; no operation reads them.

    The Asset host is one object as well. Whatever it awaits -- the radio, Core,
    a pause -- takes the next entry of a script: what arrives meanwhile
    (messages, the failure of the stream, a signal), until when it takes and what
    is answered. The clock only moves at an await. The theorems hold for every
    script. [trace] records what the host did outside itself; no operation reads
    it. A shutdown runs in pieces between those of the main loop, each when what
    it awaited has happened. Times and measures are doubles, computed as the
    source computes them.

    A join service is a record of its tables and of the operations that wait,
    each with the rest of what it has to do and the local values it needs. A
    step is a packet, the answer to one of them, a timer, or the end; answers
    come in any order and may be failures. The history a service keeps -- what
    was heard, drawn, proved, judged, enrolled, sent -- is read by no operation.

    In the sync engine and the telemetry publisher a call of an asynchronous
    function is a task with a promise: what it has still to do after an await is
    a frame ([frame] has one constructor per await), which goes on when the
    promise it waits for is settled. A step is a call of the application, an
    answer to a request, an event or the end of a feed, a timer, or one turn of
    any task that can go on; the order of turns is free, so the theorems do not
    depend on the order in which the language runs them. Callbacks of the
    application make calls of its own choice.

    ** What the theorems show

    Nothing is lost on the way: a payload fragmented under any frame encoding is
    restored ([Fragments]), every payload codec and compression method returns
    what it was given, canonical JSON reads back as the same data, and a Link
    message survives its serialization with its class. A delta means the
    publication it replaces, and a receiver keeps the newest two whatever the
    order of arrival ([DeltaFacts]). Nothing hostile is accepted beyond bounds:
    expansion, varints, chunk lists and depth are limited. Demand for feeds is
    tracked exactly and leases end when they should ([Subscriptions]). The
    picture keeps its books within its limits, an applied publication is exactly
    what it then holds, versions never go back, and a client that reads events
    after its snapshot ends with the picture's records ([PictureFacts]). The
    resource cache never shows a stale snapshot, never lowers a version, never
    lets a late response undo a deletion, and takes a feed event exactly
    ([ResourceCacheFacts]).

    In every run of a transport, with listeners that call back, the tables of
    what was received or committed keep their bounds, a message is handed over
    for settlement once in ten minutes, a source never goes back to an earlier
    generation, an operation identity is committed once, and no operation
    outlives its own deadline ([TransportRuns]).
    What an Asset says never speaks for Core ([PictureProjection]).

    In every run of an Asset process its engine only works for a verified
    vehicle and in touch with Core, a return is requested only when it is due,
    and no task is started twice ([AssetControllerFacts]). In every round of the
    engine, over any host with the laws, a command is sent under authority only,
    a hold comes first after a takeover, no outcome is lost, the engine's own task
    is complete only when the aircraft is there ([TaskEngineFacts]), and no task stays active
    beyond its limits either. A launch point is verified on the
    ground only ([Vehicle]), an accepted configuration is within its floors
    ([AssetConfig]), and retry delays stay between their bounds ([RetryTiming]).

    Joining: a message that fits the radio and says something arrives as it was said
    ([JoinWire]); no generation is handed out twice, whatever fails in the
    file system ([Membership]); in every run of a Gateway an acceptance,
    which carries the key of the private channel, goes only to a radio that
    answered its challenge to the policy's satisfaction and was enrolled
    and within bounded tables ([JoinGatewayFacts]); in every
    run of an Asset a membership is installed only from the radio whose
    challenge was verified last, and an Asset that has not joined does not fall silent
    ([JoinAssetFacts]); and one exchange between the two
    ends with the Asset joined ([JoinExchange]). [JoinSample] also has a run in
    which a late verdict undoes a join. A radio that is prepared was asked for
    what differed and read back as the profile asks, in no private channel
    ([Profile]).

    In every run of the sync engine only current work reaches the cache: what an
    older lifecycle, recovery or connection still brings is dropped. One task at
    a time recovers the feed, and an engine that runs has a feed, one on its way
    or a timer for one; what waits meanwhile is bounded. One theorem shows where
    the code falls short: a recovery that was superseded while its connection
    stays current leaves the feed held back, with an engine that calls itself
    healthy if it did before ([SyncEngineFacts]).
    Telemetry goes out one sample at a time, fresh, only while the publisher
    runs, and as long as it runs ([Telemetry]).

    ** Bounds and fuel

    JSON parsing recurses with fuel one more than the length of the text, which
    bounds its depth and the number of its members; the theorems of
    [JsonRoundtrip] show it is enough for every text that [stringify] writes,
    and no theorem assumes that parsing returns. Binary readers recurse on the
    source's own depth limit. Frame and varint loops recurse on the bytes left.
    Decimal printing of doubles searches digits up to seventeen, which the
    theorems of [JsonText] show to be enough. How deep listeners call back is
    a number each input of a run chooses; the theorems hold for all of them. The
    loops of the Asset host run for as many turns as [main] is given; each turn
    awaits, so a number of turns is a prefix of a run, and the theorems hold for
    every number.

    ** Hypotheses

    Code that is not in the repository is a parameter with stated laws: the
    deflate, Brotli and Zstandard codecs of node ([Zlib] with its laws in
    [Compression]: a decompressor inverts its compressor, deflate shrinks by no
    more than its format allows, codecs write bytes) and its digest, of which
    nothing is assumed, the schema tests that the protocol package generates
    ([Validators], of which one law says they do not see member order or the
    sign of zero), the host's collation in the order of snapshots, fresh
    identifiers, the payload limit and pacing of a radio ([Host], of which
    nothing is assumed), and what a listener does. Of the Asset host the TOML
    parser, the enumerations of node-mavlink ([MavLinkDialect]) and the
    trigonometry, powers and hypotenuse of [Math] ([MathFunctions]) are
    parameters of which nothing is assumed. Joining takes node's base64url
    reader ([NodeBuffer]: it reads back what was written) and HMAC ([Hmac]: 32
    bytes; it is not claimed to be unforgeable) as parameters, and a radio's
    configuration adapter ([RadioAdapter]: reading a private channel does not
    change what the others read). Each theorem with such a parameter
    has a witness with concrete functions.

    ** Not modelled

    The composition of the link in a process (gateway.ts, service.ts,
    lifecycle.ts, sdk.ts) is asynchronous glue between the parts above, Core and
    the host, and is left out. Of joining, the file the membership is in is the
    value JSON.parse would read from it, randomness is an argument, and that a
    key stays secret is not modelled; the numbers of a firmware version are
    compared as integers, however long. The transport is modelled with adaptive retry timing off;
    the estimator is modelled on its own. Of the Asset host logging, packet
    decoding, opening ports, reports of progress (which nothing calls) and the
    registration of signals are left out, and a clock reading within a piece of
    code that does not await is that of its start. Radios, serial
    ports, private files, the HTTP client, the command lines and the user
    interfaces are input and output, and so is the real clock of the host. Of
    the sync engine the texts of its errors and the headers and paths of its
    requests are left out, responses arrive validated, and the feed's WebSocket
    (feed-connection.ts) is its environment: it may deliver, fail and close at
    any time. Generated code, tests, benchmarks and simulations, and
    the Go and Python programs are outside. In [Picture] a listener does not
    call the picture back while it is told of an event; in [ResourceCache] a
    stored value is a JSON tree, so that cloning and freezing it change
    nothing. *)

From Stdlib Require Import ZArith Lia String Ascii.
From stdpp Require Export base numbers list option countable decidable.
From stdpp Require Import strings.

Open Scope Z_scope.

(** ** Errors

    The error classes the source throws or tests with [instanceof].  The
    message is kept so that the errors of distinct guards stay distinct. *)

Inductive js_error :=
  | TypeError (msg : string)
  | RangeError (msg : string)
  | SyntaxError (msg : string)
  | PlainError (msg : string).

Inductive result (A : Type) :=
  | Ok (a : A)
  | Throw (e : js_error).
Arguments Ok {A} a.
Arguments Throw {A} e.

Declare Scope js_scope.
Delimit Scope js_scope with js.
Open Scope js_scope.

Definition bind_result {A B} (m : result A) (k : A -> result B) : result B :=
  match m with
  | Ok a => k a
  | Throw e => Throw e
  end.

Notation "'let!' x ':=' m 'in' k" := (bind_result m (fun x => k))
  (at level 10, x pattern, m at level 100, k at level 200) : js_scope.
Notation "'guard!' b 'else' e 'in' k" := (if b then k else Throw e)
  (at level 10, b at level 100, e at level 100, k at level 200) : js_scope.

Definition is_ok {A} (m : result A) : bool :=
  match m with Ok _ => true | Throw _ => false end.

(** [try { Some m } catch { None }] *)
Definition try_result {A} (m : result A) : option A :=
  match m with Ok a => Some a | Throw _ => None end.

(** [x === undefined ? throw e : x] *)
Definition from_option {A} (o : option A) (e : js_error) : result A :=
  match o with Some a => Ok a | None => Throw e end.

Lemma bind_ok {A B} (m : result A) (k : A -> result B) b :
  bind_result m k = Ok b <-> exists a, m = Ok a /\ k a = Ok b.
Proof.
  destruct m as [a | e]; cbn; split.
  - eauto.
  - intros (a' & [= <-] & ?); done.
  - done.
  - intros (? & ? & ?); done.
Qed.

Lemma ok_inj {A} (a b : A) : Ok a = Ok b -> a = b.
Proof. by intros [= ->]. Qed.

Ltac subst_var H :=
  match type of H with
  | ?x = _ => is_var x; subst x
  | _ = ?x => is_var x; subst x
  end.

(** Inverts every success of a bind or of a guard in the context. *)
Ltac inv_result :=
  repeat match goal with
  | p : (_ * _)%type |- _ => destruct p
  | H : bind_result _ _ = Ok _ |- _ =>
      let a := fresh "a" in let E := fresh "E" in
      apply bind_ok in H as (a & E & H)
  | H : Ok _ = Ok _ |- _ => apply ok_inj in H; try (subst_var H)
  | H : (_, _) = (_, _) |- _ =>
      let H1 := fresh H in let H2 := fresh H in
      apply pair_equal_spec in H as [H1 H2]; try (subst_var H1); try (subst_var H2)
  | H : Throw _ = Ok _ |- _ => discriminate H
  | H : Ok _ = Throw _ |- _ => discriminate H
  | H : (if ?b then _ else Throw _) = Ok _ |- _ =>
      let Hb := fresh "Hg" in destruct b eqn:Hb; [| discriminate H]
  | H : (if ?b then Throw _ else _) = Ok _ |- _ =>
      let Hb := fresh "Hg" in destruct b eqn:Hb; [discriminate H |]
  end.

(** Turns boolean tests of the source into propositions. *)
Ltac reflect_tests :=
  repeat match goal with
  | H : _ && _ = true |- _ => apply andb_true_iff in H as [? ?]
  | H : _ && _ = false |- _ => apply andb_false_iff in H
  | H : _ || _ = true |- _ => apply orb_true_iff in H
  | H : _ || _ = false |- _ => apply orb_false_iff in H as [? ?]
  | H : negb _ = true |- _ => apply negb_true_iff in H
  | H : negb _ = false |- _ => apply negb_false_iff in H
  | H : bool_decide _ = true |- _ => apply bool_decide_eq_true in H
  | H : bool_decide _ = false |- _ => apply bool_decide_eq_false in H
  | H : (_ <? _) = true |- _ => apply Z.ltb_lt in H
  | H : (_ <? _) = false |- _ => apply Z.ltb_ge in H
  | H : (_ <=? _) = true |- _ => apply Z.leb_le in H
  | H : (_ <=? _) = false |- _ => apply Z.leb_gt in H
  | H : (_ =? _) = true |- _ => apply Z.eqb_eq in H
  | H : (_ =? _) = false |- _ => apply Z.eqb_neq in H
  end.

(** ** Numbers

    Counters, sizes and times are JavaScript numbers the source keeps
    integral; they are modelled by [Z], with the safe-integer test written out
    wherever the source makes it. *)

Definition MAX_SAFE_INTEGER : Z := 9007199254740991.

Definition isSafeInteger (n : Z) : bool :=
  (- MAX_SAFE_INTEGER <=? n) && (n <=? MAX_SAFE_INTEGER).

Lemma isSafeInteger_spec n :
  isSafeInteger n = true <-> - MAX_SAFE_INTEGER <= n <= MAX_SAFE_INTEGER.
Proof. unfold isSafeInteger. rewrite andb_true_iff, !Z.leb_le. done. Qed.

(** ** Bytes and strings

    A byte is a [Z] below 256.  A JavaScript string is its list of UTF-16 code
    units, so surrogates, paired or not, are representable. *)

Abbreviation byte := Z (only parsing).
Abbreviation bytes := (list Z) (only parsing).
Abbreviation jsstr := (list Z) (only parsing).

Definition is_byte (b : Z) : Prop := 0 <= b < 256.
Definition is_bytes (bs : list Z) : Prop := Forall is_byte bs.
Definition is_unit (u : Z) : Prop := 0 <= u < 65536.
Definition is_jsstr (s : list Z) : Prop := Forall is_unit s.

#[global] Instance is_byte_dec b : Decision (is_byte b).
Proof. unfold is_byte. apply _. Defined.
#[global] Instance is_unit_dec b : Decision (is_unit b).
Proof. unfold is_unit. apply _. Defined.

(** A string literal of the source (ASCII). *)
Fixpoint js (s : string) : list Z :=
  match s with
  | EmptyString => []
  | String c r => Z.of_nat (nat_of_ascii c) :: js r
  end.

Lemma js_units s : is_jsstr (js s).
Proof.
  unfold is_jsstr. induction s as [| c s IH]; cbn [js]; constructor; [| done].
  unfold is_unit. pose proof (Ascii.nat_ascii_bounded c). lia.
Qed.

(** [byteLength], [length] *)
Definition zlen {A} (l : list A) : Z := Z.of_nat (length l).

Lemma zlen_nonneg {A} (l : list A) : 0 <= zlen l.
Proof. unfold zlen. lia. Qed.
Lemma zlen_nil {A} : zlen (@nil A) = 0.
Proof. done. Qed.
Lemma zlen_cons {A} (x : A) l : zlen (x :: l) = 1 + zlen l.
Proof. unfold zlen. cbn [length]. lia. Qed.
Lemma zlen_app {A} (l k : list A) : zlen (l ++ k) = zlen l + zlen k.
Proof. unfold zlen. rewrite length_app. lia. Qed.
Lemma zlen_take {A} n (l : list A) : 0 <= n <= zlen l -> zlen (take (Z.to_nat n) l) = n.
Proof. unfold zlen. rewrite length_take. lia. Qed.
Lemma zlen_drop {A} n (l : list A) : 0 <= n <= zlen l -> zlen (drop (Z.to_nat n) l) = zlen l - n.
Proof. unfold zlen. rewrite length_drop. lia. Qed.
Lemma zlen_perm {A} (l k : list A) : l ≡ₚ k -> zlen l = zlen k.
Proof. unfold zlen. by intros ->. Qed.

Lemma zlen_zero_nil {A} (l : list A) : zlen l = 0 -> l = [].
Proof. destruct l; [done |]. rewrite zlen_cons. pose proof (zlen_nonneg l). lia. Qed.

(** [array[i]] with [undefined] out of range; the bound is tested first, so a
    huge index is not turned into a unary number. *)
Definition nthZ {A} (l : list A) (i : Z) : option A :=
  if (0 <=? i) && (i <? zlen l) then l !! Z.to_nat i else None.

Lemma nthZ_lookup {A} (l : list A) i : nthZ l (Z.of_nat i) = l !! i.
Proof.
  unfold nthZ, zlen. destruct (l !! i) as [x |] eqn:E.
  - apply lookup_lt_Some in E as Hl.
    destruct (Z.leb_spec 0 (Z.of_nat i)), (Z.ltb_spec (Z.of_nat i) (Z.of_nat (length l))); try lia.
    cbn. by rewrite Nat2Z.id.
  - apply lookup_ge_None in E.
    destruct (Z.ltb_spec (Z.of_nat i) (Z.of_nat (length l))); [lia |]. by rewrite andb_false_r.
Qed.

Lemma take_zlen_app {A} (l k : list A) : take (Z.to_nat (zlen l)) (l ++ k) = l.
Proof. unfold zlen. rewrite Nat2Z.id. apply take_app_length. Qed.
Lemma drop_zlen_app {A} (l k : list A) : drop (Z.to_nat (zlen l)) (l ++ k) = k.
Proof. unfold zlen. rewrite Nat2Z.id. apply drop_app_length. Qed.

(** [trim().length > 0] and [trim() === ""]: the white space of ECMAScript
    (WhiteSpace and LineTerminator). *)
Definition is_space (u : Z) : bool :=
  existsb (Z.eqb u)
    [9; 10; 11; 12; 13; 32; 160; 5760; 8192; 8193; 8194; 8195; 8196; 8197;
     8198; 8199; 8200; 8201; 8202; 8232; 8233; 8239; 8287; 12288; 65279].

(** A string is blank when [trim] leaves nothing. *)
Definition blank (s : list Z) : bool := forallb is_space s.

Definition isNonEmptyString (s : list Z) : bool := negb (blank s).

(** The order of [Array.prototype.sort] on strings: code unit by code unit. *)
Fixpoint str_leb (s t : list Z) : bool :=
  match s, t with
  | [], _ => true
  | _ :: _, [] => false
  | a :: s', b :: t' => (a <? b) || ((a =? b) && str_leb s' t')
  end.

Definition str_le (s t : list Z) : Prop := str_leb s t = true.

#[global] Instance str_le_dec s t : Decision (str_le s t).
Proof. unfold str_le. apply _. Defined.

Lemma str_leb_refl s : str_leb s s = true.
Proof. induction s as [| a s IH]; cbn; [done |]. rewrite Z.eqb_refl, IH. apply orb_true_r. Qed.

Lemma str_leb_cons a b s t :
  str_leb (a :: s) (b :: t) = true <-> a < b \/ (a = b /\ str_leb s t = true).
Proof. cbn. rewrite orb_true_iff, andb_true_iff, Z.ltb_lt, Z.eqb_eq. done. Qed.

#[global] Instance str_le_trans : Transitive str_le.
Proof.
  unfold str_le. intros s. induction s as [| a s IH]; intros t u; [done |].
  destruct t as [| b t]; [done |]. destruct u as [| c u]; [done |].
  rewrite !str_leb_cons. intros [? | [-> ?]] [? | [-> ?]]; [left; lia .. |].
  right; split; [done |]. by apply IH with t.
Qed.

#[global] Instance str_le_antisymm : AntiSymm (=) str_le.
Proof.
  unfold str_le. intros s. induction s as [| a s IH]; intros [| b t]; try done.
  rewrite !str_leb_cons. intros [? | [-> ?]] [? | [? ?]]; try lia. f_equal; auto.
Qed.

#[global] Instance str_le_total : Total str_le.
Proof.
  unfold str_le. intros s. induction s as [| a s IH]; intros [| b t]; [by left .. | by right |].
  rewrite !str_leb_cons. destruct (IH t), (Z.lt_trichotomy a b) as [? | [? | ?]]; subst; auto.
Qed.

(** ** Lists *)

Lemma Forall_weaken {A} (P Q : A -> Prop) (l : list A) : Forall P l -> (forall x, P x -> Q x) -> Forall Q l.
Proof. intros H HQ. induction H; constructor; auto. Qed.

Lemma Forall_elem {A} (P : A -> Prop) (l : list A) : Forall P l <-> forall x, x ∈ l -> P x.
Proof.
  split.
  - induction 1 as [| y l Hy _ IH]; intros x Hx; [by apply elem_of_nil in Hx |].
    apply elem_of_cons in Hx as [-> | Hx]; auto.
  - intros H. induction l as [| y l IH]; constructor.
    + apply H. constructor.
    + apply IH. intros x Hx. apply H. by constructor.
Qed.
