(* ===== verification/JsMap.v ===== *)
(** * JavaScript [Map]

    A [Map] iterates in insertion order, and several components rely on it
    (eviction of the oldest key, early [break] in an expiry scan), so a map is
    an association list in that order: [set] on a present key keeps its
    position, on an absent key appends; [delete] then [set] moves to the end. *)

From Stdlib Require Import ZArith Lia.
From stdpp Require Import base list option.
From S2P Require Import Prelude.

Abbreviation jmap K V := (list (K * V)) (only parsing).

Section jmap.
Context {K V : Type} `{EqDecision K}.
Implicit Types (m : list (K * V)) (k : K) (v : V).

(** [m.get(k)] *)
Fixpoint jget k m : option V :=
  match m with
  | [] => None
  | (k', v) :: m' => if decide (k = k') then Some v else jget k m'
  end.

(** [m.has(k)] *)
Definition jhas k m : bool := match jget k m with Some _ => true | None => false end.

(** [m.set(k, v)] *)
Fixpoint jset k v m : list (K * V) :=
  match m with
  | [] => [(k, v)]
  | (k', v') :: m' => if decide (k = k') then (k', v) :: m' else (k', v') :: jset k v m'
  end.

(** [m.delete(k)] *)
Fixpoint jdel k m : list (K * V) :=
  match m with
  | [] => []
  | (k', v') :: m' => if decide (k = k') then m' else (k', v') :: jdel k m'
  end.

(** [m.keys()], [m.values()], [m.size] *)
Definition jkeys m : list K := map fst m.
Definition jvalues m : list V := map snd m.
Definition jsize m : Z := zlen m.

(** [for (const [k, v] of m) if (!keep) m.delete(k)] *)
Definition jretain (keep : K -> V -> bool) m : list (K * V) :=
  List.filter (fun p => keep (fst p) (snd p)) m.

(** [for (const [k, v] of m) m.set(k, f(v))] *)
Definition jmap_values (f : K -> V -> V) m : list (K * V) :=
  map (fun p => (fst p, f (fst p) (snd p))) m.

(** Keys are unique: the invariant every operation preserves. *)
Definition jwf m : Prop := NoDup (jkeys m).

Lemma jget_elem_of k v m : jget k m = Some v -> (k, v) ∈ m.
Proof.
  induction m as [| [k' v'] m IH]; cbn; [done |].
  case_decide as E; [intros [= ->]; subst; apply list_elem_of_here |].
  intros H. apply list_elem_of_further. auto.
Qed.

Lemma jget_None k m : jget k m = None <-> k ∉ jkeys m.
Proof.
  unfold jkeys. induction m as [| [k' v'] m IH]; cbn.
  - split; [intros _; apply not_elem_of_nil | done].
  - rewrite not_elem_of_cons. case_decide as E; [split; [done | tauto] |]. tauto.
Qed.

Lemma jget_key k v m : jget k m = Some v -> k ∈ jkeys m.
Proof.
  intros H. destruct (decide (k ∈ jkeys m)) as [? | Hn]; [done |].
  apply jget_None in Hn. congruence.
Qed.

Lemma elem_of_jkeys k v m : (k, v) ∈ m -> k ∈ jkeys m.
Proof. intros H. unfold jkeys. apply list_elem_of_fmap. by exists (k, v). Qed.

Lemma jget_of_elem k v m : jwf m -> (k, v) ∈ m -> jget k m = Some v.
Proof.
  unfold jwf, jkeys. induction m as [| [k' v'] m IH]; cbn; [by intros _ ?%elem_of_nil |].
  rewrite list.NoDup_cons. intros [Hn Hd] [[= -> ->] | Hin]%elem_of_cons.
  - by case_decide.
  - rewrite decide_False; [by apply IH |]. intros ->. by apply Hn, elem_of_jkeys with v.
Qed.

Lemma jhas_true k m : jhas k m = true <-> exists v, jget k m = Some v.
Proof.
  unfold jhas. destruct (jget k m); split; [by eauto | done | done |].
  by intros [v [=]].
Qed.
Lemma jhas_false k m : jhas k m = false <-> jget k m = None.
Proof. unfold jhas. by destruct (jget k m). Qed.

Lemma jget_jset k v m k' : jget k' (jset k v m) = if decide (k' = k) then Some v else jget k' m.
Proof.
  induction m as [| [k1 v1] m IH]; cbn.
  - done.
  - destruct (decide (k = k1)); cbn; destruct (decide (k' = k1)), (decide (k' = k)); congruence.
Qed.
Lemma jget_jset_eq k v m : jget k (jset k v m) = Some v.
Proof. rewrite jget_jset. by rewrite decide_True. Qed.
Lemma jget_jset_ne k v m k' : k' <> k -> jget k' (jset k v m) = jget k' m.
Proof. intros. rewrite jget_jset. by rewrite decide_False. Qed.

Lemma jkeys_jset_present k v m : k ∈ jkeys m -> jkeys (jset k v m) = jkeys m.
Proof.
  unfold jkeys. induction m as [| [k1 v1] m IH]; cbn; [by intros ?%elem_of_nil |].
  intros [-> | Hin]%elem_of_cons; case_decide; cbn; try done. by rewrite IH.
Qed.
Lemma jset_absent k v m : k ∉ jkeys m -> jset k v m = m ++ [(k, v)].
Proof.
  unfold jkeys. induction m as [| [k1 v1] m IH]; cbn; [done |].
  rewrite not_elem_of_cons. intros [? ?]. rewrite decide_False by done. by rewrite IH.
Qed.

Lemma elem_of_jkeys_jset k v m k' : k' ∈ jkeys (jset k v m) <-> k' = k \/ k' ∈ jkeys m.
Proof.
  destruct (decide (k ∈ jkeys m)) as [Hin | Hn].
  - rewrite jkeys_jset_present by done. split; [by right |]. by intros [-> |].
  - rewrite jset_absent by done. unfold jkeys. rewrite map_app, elem_of_app. cbn.
    rewrite list_elem_of_singleton. tauto.
Qed.

Lemma jset_wf k v m : jwf m -> jwf (jset k v m).
Proof.
  unfold jwf. intros Hw. destruct (decide (k ∈ jkeys m)) as [Hin | Hn].
  - by rewrite jkeys_jset_present.
  - rewrite jset_absent by done. unfold jkeys in *. rewrite map_app. cbn.
    apply list.NoDup_app. split; [done |]. split; [| apply list.NoDup_singleton].
    intros x Hx ->%list_elem_of_singleton. done.
Qed.

Lemma jsize_jset_present k v m : k ∈ jkeys m -> jsize (jset k v m) = jsize m.
Proof.
  intros H. unfold jsize, zlen. rewrite <- !(length_map fst).
  change (map fst ?x) with (jkeys x). by rewrite jkeys_jset_present.
Qed.
Lemma jsize_jset_absent k v m : k ∉ jkeys m -> jsize (jset k v m) = jsize m + 1.
Proof. intros H. rewrite jset_absent by done. unfold jsize. rewrite zlen_app. done. Qed.
Lemma jsize_jset_le k v m : jsize m <= jsize (jset k v m) <= jsize m + 1.
Proof.
  destruct (decide (k ∈ jkeys m));
    [rewrite jsize_jset_present by done | rewrite jsize_jset_absent by done]; lia.
Qed.

Lemma elem_of_jdel_weak p k m : p ∈ jdel k m -> p ∈ m.
Proof.
  induction m as [| [k1 v1] m IH]; cbn; [done |].
  case_decide; [intros; by apply list_elem_of_further |].
  rewrite !elem_of_cons. intros [? | ?]; auto.
Qed.
Lemma jdel_absent k m : k ∉ jkeys m -> jdel k m = m.
Proof.
  unfold jkeys. induction m as [| [k1 v1] m IH]; cbn; [done |].
  rewrite not_elem_of_cons. intros [? ?]. rewrite decide_False by done. by rewrite IH.
Qed.
Lemma elem_of_jkeys_jdel_weak k k' m : k' ∈ jkeys (jdel k m) -> k' ∈ jkeys m.
Proof.
  unfold jkeys. rewrite !list_elem_of_fmap. intros (p & -> & Hp).
  exists p. split; [done |]. by apply elem_of_jdel_weak with k.
Qed.

Lemma jdel_wf k m : jwf m -> jwf (jdel k m).
Proof.
  unfold jwf. induction m as [| [k1 v1] m IH]; cbn; [done |].
  rewrite list.NoDup_cons. intros [Hn Hd]. case_decide; cbn; [done |].
  rewrite list.NoDup_cons. split; [| auto]. intros ?%elem_of_jkeys_jdel_weak. done.
Qed.

Lemma jget_jdel_eq k m : jwf m -> jget k (jdel k m) = None.
Proof.
  unfold jwf, jkeys. induction m as [| [k1 v1] m IH]; cbn; [done |].
  rewrite list.NoDup_cons. intros [Hn Hd]. case_decide; cbn.
  - subst. by apply jget_None.
  - rewrite decide_False by done. auto.
Qed.
Lemma jget_jdel_ne k k' m : k' <> k -> jget k' (jdel k m) = jget k' m.
Proof.
  intros. induction m as [| [k1 v1] m IH]; cbn; [done |].
  destruct (decide (k = k1)); cbn; destruct (decide (k' = k1)); congruence.
Qed.
Lemma jget_jdel k k' m : jwf m -> jget k' (jdel k m) = if decide (k' = k) then None else jget k' m.
Proof.
  intros. case_decide; subst; [by apply jget_jdel_eq | by apply jget_jdel_ne].
Qed.

Lemma jsize_jdel_present k m : k ∈ jkeys m -> jsize (jdel k m) = jsize m - 1.
Proof.
  unfold jsize, jkeys. induction m as [| [k1 v1] m IH]; cbn; [by intros ?%elem_of_nil |].
  intros [-> | Hin]%elem_of_cons; case_decide; rewrite ?zlen_cons; try lia; try done.
  rewrite IH by done. lia.
Qed.
Lemma jsize_jdel_le k m : jsize (jdel k m) <= jsize m.
Proof.
  destruct (decide (k ∈ jkeys m)); [rewrite jsize_jdel_present by done; lia |].
  by rewrite jdel_absent.
Qed.

Lemma elem_of_jretain keep p m : p ∈ jretain keep m <-> p ∈ m /\ keep (fst p) (snd p) = true.
Proof. unfold jretain. rewrite !list_elem_of_In, filter_In. done. Qed.
Lemma jretain_keys keep k m : k ∈ jkeys (jretain keep m) -> k ∈ jkeys m.
Proof.
  unfold jkeys. rewrite !list_elem_of_fmap. intros (p & -> & Hp).
  exists p. split; [done |]. by apply elem_of_jretain in Hp as [? _].
Qed.
Lemma jretain_wf keep m : jwf m -> jwf (jretain keep m).
Proof.
  unfold jwf. induction m as [| [k1 v1] m IH]; cbn; [done |].
  rewrite list.NoDup_cons. intros [Hn Hd]. destruct (keep k1 v1); cbn; [| auto].
  rewrite list.NoDup_cons. split; [| auto]. intros ?%jretain_keys. done.
Qed.
Lemma jget_jretain keep k m :
  jwf m -> jget k (jretain keep m) =
    match jget k m with Some v => if keep k v then Some v else None | None => None end.
Proof.
  unfold jwf, jkeys. induction m as [| [k1 v1] m IH]; cbn; [done |].
  rewrite list.NoDup_cons. intros [Hn Hd]. case_decide as E.
  - subst k1. destruct (keep k v1); cbn; [by rewrite decide_True |].
    fold (jretain keep m). rewrite IH by done. apply jget_None in Hn. by rewrite Hn.
  - destruct (keep k1 v1); cbn; rewrite ?decide_False by done; by apply IH.
Qed.
Lemma jsize_jretain keep m : jsize (jretain keep m) <= jsize m.
Proof.
  unfold jsize. induction m as [| [k1 v1] m IH]; cbn; [done |].
  fold (jretain keep m). destruct (keep k1 v1); rewrite ?zlen_cons; lia.
Qed.
Lemma jretain_all keep m : (forall p, p ∈ m -> keep (fst p) (snd p) = true) -> jretain keep m = m.
Proof.
  induction m as [| [k1 v1] m IH]; cbn; [done |]. intros H.
  pose proof (H (k1, v1) (list_elem_of_here _ _)) as E. cbn in E. rewrite E. f_equal. apply IH.
  intros p Hp. apply H. by apply list_elem_of_further.
Qed.

Lemma jget_jmap_values f k m : jget k (jmap_values f m) = f k <$> jget k m.
Proof.
  unfold jmap_values. induction m as [| [k1 v1] m IH]; cbn; [done |].
  case_decide; subst; done.
Qed.
Lemma jkeys_jmap_values f m : jkeys (jmap_values f m) = jkeys m.
Proof. unfold jkeys, jmap_values. rewrite map_map. done. Qed.

Lemma jget_app k m1 m2 :
  jget k (m1 ++ m2) = match jget k m1 with Some v => Some v | None => jget k m2 end.
Proof. induction m1 as [| [k1 v1] m1 IH]; cbn; [done |]. by case_decide. Qed.

Lemma jwf_nil : jwf [].
Proof. apply base.NoDup_nil_2. Qed.
Lemma jwf_cons k v m : jwf ((k, v) :: m) <-> (k ∉ jkeys m) /\ jwf m.
Proof. unfold jwf, jkeys. cbn. apply list.NoDup_cons. Qed.
Lemma jwf_tail p m : jwf (p :: m) -> jwf m.
Proof. destruct p. rewrite jwf_cons. tauto. Qed.

(** Dropping the oldest entries: [while (m.size > n) m.delete(first key)]. *)
Definition jevict (n : Z) m : list (K * V) := drop (Z.to_nat (jsize m - n)) m.

Lemma jevict_wf n m : jwf m -> jwf (jevict n m).
Proof.
  unfold jwf, jevict, jkeys. intros H.
  generalize (Z.to_nat (jsize m - n)) as i. induction m as [| p m IH]; intros [| i]; try done.
  cbn. apply IH. by apply jwf_tail in H.
Qed.
Lemma jsize_jevict n m : 0 <= n -> jsize (jevict n m) = Z.min n (jsize m).
Proof. unfold jsize, jevict, zlen. rewrite length_drop. unfold jsize, zlen. lia. Qed.
Lemma jevict_noop n m : jsize m <= n -> jevict n m = m.
Proof. intros. unfold jevict. replace (Z.to_nat _) with 0%nat by lia. done. Qed.
Lemma jevict_elem n p m : p ∈ jevict n m -> p ∈ m.
Proof. unfold jevict. apply subseteq_drop. Qed.

Lemma jhas_jset k k' v m : jhas k (jset k' v m) = bool_decide (k = k') || jhas k m.
Proof.
  unfold jhas. rewrite jget_jset. by destruct (decide (k = k')); [rewrite bool_decide_true | rewrite bool_decide_false].
Qed.
Lemma jhas_jdel k k' m : jwf m -> jhas k (jdel k' m) = negb (bool_decide (k = k')) && jhas k m.
Proof.
  intros H. unfold jhas. rewrite jget_jdel by done.
  by destruct (decide (k = k')); [rewrite bool_decide_true | rewrite bool_decide_false].
Qed.
Lemma jhas_cons k k' v m : jhas k ((k', v) :: m) = bool_decide (k = k') || jhas k m.
Proof.
  unfold jhas. cbn [jget]. by destruct (decide (k = k')); [rewrite bool_decide_true | rewrite bool_decide_false].
Qed.
Lemma jhas_jretain (f : K -> bool) k m : jwf m -> jhas k (jretain (fun k _ => f k) m) = f k && jhas k m.
Proof.
  intros H. unfold jhas. rewrite jget_jretain by done.
  destruct (jget k m); [by destruct (f k) | by rewrite andb_false_r].
Qed.
Lemma jhas_elem k m : jhas k m = true <-> k ∈ jkeys m.
Proof.
  rewrite jhas_true. split; [by intros [v H%jget_key] |]. intros H.
  destruct (jget k m) as [v |] eqn:E; [by exists v |]. by apply jget_None in E.
Qed.
Lemma jsize_zero m : jsize m = 0 -> m = [].
Proof. apply zlen_zero_nil. Qed.

Lemma elem_of_jset k v m p : p ∈ jset k v m -> p = (k, v) \/ p ∈ m.
Proof.
  induction m as [| [k' v'] m IH]; cbn; [intros ->%list_elem_of_singleton; by left |].
  case_decide as E; rewrite !elem_of_cons; [subst; tauto |]. intros [-> | H]; [tauto |]. destruct (IH H); tauto.
Qed.

(** A test on the values, with one key apart. *)
Lemma existsb_jset (f : V -> bool) k v m : existsb f (jvalues (jset k v m)) = f v || existsb f (jvalues (jdel k m)).
Proof.
  unfold jvalues. induction m as [| [k' v'] m IH]; cbn; [done |].
  case_decide; cbn; [done |]. rewrite IH. by destruct (f v), (f v').
Qed.
Lemma existsb_jdel (f : V -> bool) k m :
  existsb f (jvalues m) = match jget k m with Some v => f v | None => false end || existsb f (jvalues (jdel k m)).
Proof.
  unfold jvalues. induction m as [| [k' v'] m IH]; cbn; [done |].
  case_decide; cbn; [done |]. rewrite IH. destruct (jget k m) as [v |]; [by destruct (f v), (f v') | done].
Qed.
End jmap.

Create HintDb jsmap.
Create Rewrite HintDb jsmap.
#[export] Hint Resolve jset_wf jdel_wf jretain_wf jevict_wf jwf_nil : jsmap.
#[export] Hint Rewrite @jget_jset_eq @jsize_jset_absent @jsize_jset_present using done : jsmap.
