(* ===== verification/BinaryIO.v ===== *)
(** * Byte-level input and output

    [binary-io.ts] (varints, [concatBytes], [BinaryReader]) and the varint
    routines [frame.ts], [binary-codec.ts] and [compact-value.ts] each carry a
    copy of.  The four writers are one function, the three readers differ in
    what they reject. *)

From Stdlib Require Import ZArith Lia String.
From stdpp Require Import base list option.
From S2P Require Import Prelude.

(** ** Bit-level facts shared by the codecs *)

Lemma land_127 b : Z.land b 127 = b mod 128.
Proof. change 127 with (Z.ones 7). rewrite Z.land_ones by lia. done. Qed.

Lemma land_low b : 0 <= b < 128 -> Z.land b 127 = b.
Proof. intros. rewrite land_127. by apply Z.mod_small. Qed.

Lemma land_cont b : 0 <= b < 128 -> Z.land (b + 128) 127 = b.
Proof.
  intros. rewrite land_127. rewrite <- (Z.mod_small b 128) at 2 by done.
  rewrite <- (Z.mod_add b 1 128) by lia. done.
Qed.

Lemma lor_disjoint a b k :
  0 <= k -> 0 <= b < 2 ^ k -> Z.lor (a * 2 ^ k) b = a * 2 ^ k + b.
Proof.
  intros Hk Hb. rewrite <- Z.add_lor_land.
  enough (Z.land (a * 2 ^ k) b = 0) as -> by lia.
  apply Z.bits_inj'. intros i Hi. rewrite Z.land_spec, Z.bits_0.
  destruct (Z.lt_ge_cases i k) as [Hlt | Hge].
  - rewrite Z.mul_pow2_bits_low by lia. done.
  - rewrite <- (Z.mod_small b (2 ^ k)) by done.
    rewrite Z.mod_pow2_bits_high by lia. apply andb_false_r.
Qed.

Lemma lor_128 b : 0 <= b < 128 -> Z.lor b 128 = b + 128.
Proof.
  intros. rewrite Z.lor_comm. change 128 with (1 * 2 ^ 7) at 1.
  rewrite lor_disjoint; lia.
Qed.

Lemma land_128_zero b : 0 <= b < 256 -> (Z.land b 128 =? 0) = (b <? 128).
Proof.
  intros Hb. assert (E : forallb (fun b => Bool.eqb (Z.land b 128 =? 0) (b <? 128)) (seqZ 0 256) = true)
    by (vm_compute; reflexivity).
  rewrite forallb_forall in E. apply Bool.eqb_prop, E, list_elem_of_In, elem_of_seqZ. lia.
Qed.

(** ** Writers *)

(** [do { byte = value % 128; value = floor(value / 128); push(byte | ...) }
    while (value > 0)].  A safe integer has at most eight base-128 digits. *)
Fixpoint varint_digits (fuel : nat) (value : Z) : list Z :=
  match fuel with
  | O => []
  | S fuel' =>
      let byte := value mod 128 in
      let rest := value / 128 in
      Z.lor byte (if 0 <? rest then 128 else 0) :: (if 0 <? rest then varint_digits fuel' rest else [])
  end.

Definition writeVarint (message : string) (value : Z) : result (list Z) :=
  guard! isSafeInteger value && (0 <=? value) else TypeError message in
  Ok (varint_digits 8 value).

(** The [BigInt] writer of [binary-io.ts]: masks and shifts. *)
Fixpoint bigint_digits (fuel : nat) (remaining : Z) : list Z :=
  match fuel with
  | O => []
  | S fuel' =>
      let byte := Z.land remaining 127 in
      let remaining' := Z.shiftr remaining 7 in
      if remaining' =? 0 then [byte]
      else Z.lor byte 128 :: bigint_digits fuel' remaining'
  end.

Definition encodeUnsignedVarint (value : Z) (errorMessage : string) : result (list Z) :=
  guard! isSafeInteger value && (0 <=? value) else RangeError errorMessage in
  Ok (bigint_digits 8 value).

(** [concatBytes]: allocate the total and copy each part at its offset. *)
Definition setAt (result : list Z) (offset : nat) (part : list Z) : list Z :=
  take offset result ++ part ++ drop (offset + length part) result.

Fixpoint concat_loop (result : list Z) (offset : nat) (parts : list (list Z)) : list Z :=
  match parts with
  | [] => result
  | part :: parts' => concat_loop (setAt result offset part) (offset + length part) parts'
  end.

Definition concatBytes (parts : list (list Z)) : list Z :=
  let total := fold_left (fun sum part => sum + zlen part) parts 0 in
  concat_loop (replicate (Z.to_nat total) 0) 0 parts.

(** ** Readers *)

(** [readVarint] of [binary-codec.ts] and the closures [integer] of
    [frame.ts].  JavaScript accumulates in doubles: every partial value is a
    safe integer, and a sum above [MAX_SAFE_INTEGER] stays above it after
    rounding, so the exact sum decides the same test. *)
Fixpoint readVarint_loop (left : nat) (truncated invalid : string)
    (value multiplier : Z) (raw : list Z) : result (Z * list Z) :=
  match left with
  | O => Throw (TypeError invalid)
  | S left' =>
      match raw with
      | [] => Throw (TypeError truncated)
      | byte :: raw' =>
          let value' := value + Z.land byte 127 * multiplier in
          guard! isSafeInteger value' else TypeError invalid in
          if byte <? 128 then Ok (value', raw')
          else readVarint_loop left' truncated invalid value' (multiplier * 128) raw'
      end
  end.

Definition readVarint (truncated invalid : string) (raw : list Z) : result (Z * list Z) :=
  readVarint_loop 8 truncated invalid 0 1 raw.

(** [Reader.varint] of [compact-value.ts]: bounded, and canonical only. *)
Fixpoint compactVarint_loop (left : nat) (index : Z) (maximum value : Z) (raw : list Z)
    : result (Z * list Z) :=
  match left with
  | O => Throw (TypeError "Invalid compact integer")
  | S left' =>
      match raw with
      | [] => Throw (TypeError "Truncated compact value")
      | byte :: raw' =>
          let chunk := Z.land byte 127 in
          guard! negb ((MAX_SAFE_INTEGER - value) / 128 ^ index <? chunk)
            else TypeError "Invalid compact integer" in
          let value' := value + chunk * 128 ^ index in
          if Z.land byte 128 =? 0 then
            guard! negb ((0 <? index) && (chunk =? 0))
              else TypeError "Non-canonical compact integer" in
            guard! negb (maximum <? value') else RangeError "Compact integer exceeds bound" in
            Ok (value', raw')
          else compactVarint_loop left' (index + 1) maximum value' raw'
      end
  end.

Definition compactVarint (maximum : Z) (raw : list Z) : result (Z * list Z) :=
  compactVarint_loop 8 0 maximum 0 raw.

(** [BinaryReader]: a payload and an offset into it. *)
Record BinaryReader := mkReader { payload : list Z; offset : nat }.

Definition readByte (r : BinaryReader) : option Z * BinaryReader :=
  match payload r !! offset r with
  | None => (None, r)
  | Some b => (Some b, mkReader (payload r) (S (offset r)))
  end.

Fixpoint readUnsignedVarint_loop (left : nat) (index : Z) (value : Z) (r : BinaryReader)
    : option Z * BinaryReader :=
  match left with
  | O => (None, r)
  | S left' =>
      match readByte r with
      | (None, r') => (None, r')
      | (Some byte, r') =>
          let value' := Z.lor value (Z.shiftl (Z.land byte 127) (index * 7)) in
          if Z.land byte 128 =? 0 then
            ((if value' <=? MAX_SAFE_INTEGER then Some value' else None), r')
          else readUnsignedVarint_loop left' (index + 1) value' r'
      end
  end.

Definition readUnsignedVarint (r : BinaryReader) : option Z * BinaryReader :=
  readUnsignedVarint_loop 8 0 0 r.

Definition readBytes (length : Z) (r : BinaryReader) : option (list Z) * BinaryReader :=
  if negb (isSafeInteger length) || (length <? 0) || (zlen (payload r) - Z.of_nat (offset r) <? length)
  then (None, r)
  else (Some (take (Z.to_nat length) (drop (offset r) (payload r))),
        mkReader (payload r) (offset r + Z.to_nat length)).

Definition readLengthPrefixedBytes (r : BinaryReader) : option (list Z) * BinaryReader :=
  match readUnsignedVarint r with
  | (None, r') => (None, r')
  | (Some length, r') => readBytes length r'
  end.

Definition readRemaining (r : BinaryReader) : list Z := drop (offset r) (payload r).

Definition reader_done (r : BinaryReader) : bool := (offset r =? length (payload r))%nat.

(** ** The writers agree *)

Lemma bigint_digits_eq fuel value : 0 <= value -> bigint_digits fuel value = varint_digits fuel value.
Proof.
  revert value. induction fuel as [| fuel IH]; intros value Hv; cbn; [done |].
  rewrite land_127, Z.shiftr_div_pow2 by lia. change (2 ^ 7) with 128.
  pose proof (Z.div_pos value 128 Hv ltac:(lia)).
  destruct (Z.eqb_spec (value / 128) 0) as [-> | Hne]; cbn.
  - by rewrite Z.lor_0_r.
  - destruct (Z.ltb_spec 0 (value / 128)); [| lia]. by rewrite IH.
Qed.

Lemma varint_digits_cons fuel value :
  0 <= value ->
  varint_digits (S fuel) value =
    if value <? 128 then [value]
    else (value mod 128 + 128) :: varint_digits fuel (value / 128).
Proof.
  intros Hv. cbn. pose proof (Z.mod_pos_bound value 128 ltac:(lia)).
  destruct (Z.ltb_spec value 128).
  - rewrite (Z.div_small value 128) by lia. cbn. rewrite Z.lor_0_r, Z.mod_small by lia. done.
  - pose proof (Z.div_le_lower_bound value 128 1 ltac:(lia) ltac:(lia)).
    destruct (Z.ltb_spec 0 (value / 128)); [| lia]. by rewrite lor_128.
Qed.

Lemma varint_digits_bytes fuel value : 0 <= value -> is_bytes (varint_digits fuel value).
Proof.
  revert value. induction fuel as [| fuel IH]; intros value Hv; [by constructor |].
  rewrite varint_digits_cons by done. pose proof (Z.mod_pos_bound value 128 ltac:(lia)).
  destruct (Z.ltb_spec value 128); repeat constructor; unfold is_byte; try lia.
  apply IH. by apply Z.div_pos.
Qed.

Lemma varint_digits_length fuel value :
  0 <= value -> (0 < fuel)%nat -> (1 <= length (varint_digits fuel value) <= fuel)%nat.
Proof.
  revert value. induction fuel as [| fuel IH]; intros value Hv Hf; [lia |].
  rewrite varint_digits_cons by done. destruct (Z.ltb_spec value 128); cbn [length]; [lia |].
  destruct fuel as [| fuel]; [cbn; lia |].
  specialize (IH (value / 128) ltac:(by apply Z.div_pos) ltac:(lia)). lia.
Qed.

(** Splits a varint step of a reader on the shape of the next byte. *)
Ltac varint_step value :=
  rewrite varint_digits_cons by lia;
  pose proof (Z.mod_pos_bound value 128 ltac:(lia));
  pose proof (Z_div_mod_eq_full value 128);
  destruct (Z.ltb_spec value 128); cbn [app].

Lemma readVarint_loop_digits left truncated invalid value acc mult rest :
  (0 < left)%nat -> 0 <= value < 128 ^ Z.of_nat left -> 0 <= acc -> 0 < mult ->
  acc + value * mult <= MAX_SAFE_INTEGER ->
  readVarint_loop left truncated invalid acc mult (varint_digits left value ++ rest)
    = Ok (acc + value * mult, rest).
Proof.
  revert value acc mult. induction left as [| left IH]; intros value acc mult Hl Hv Hacc Hm Hs; [lia |].
  rewrite Nat2Z.inj_succ, Z.pow_succ_r in Hv by lia.
  varint_step value; cbn [readVarint_loop].
  - rewrite land_low by lia.
    rewrite (proj2 (isSafeInteger_spec _)) by nia.
    destruct (Z.ltb_spec value 128); [done | lia].
  - rewrite land_cont by lia.
    assert (0 <= value / 128) by (apply Z.div_pos; lia).
    assert (value mod 128 * mult <= value * mult) by (apply Z.mul_le_mono_nonneg_r; lia).
    assert (0 <= value mod 128 * mult) by (apply Z.mul_nonneg_nonneg; lia).
    rewrite (proj2 (isSafeInteger_spec _)) by (unfold MAX_SAFE_INTEGER in *; lia).
    destruct (Z.ltb_spec (value mod 128 + 128) 128); [lia |].
    assert (value / 128 < 128 ^ Z.of_nat left) by (apply Z.div_lt_upper_bound; lia).
    assert (0 < left)%nat by (destruct left; [| lia]; change (128 ^ Z.of_nat 0) with 1 in *; lia).
    rewrite IH by nia. f_equal. f_equal. nia.
Qed.

Lemma safe_digits value : 0 <= value <= MAX_SAFE_INTEGER -> 0 <= value < 128 ^ Z.of_nat 8.
Proof. unfold MAX_SAFE_INTEGER. lia. Qed.

Lemma readVarint_digits truncated invalid value rest :
  0 <= value <= MAX_SAFE_INTEGER ->
  readVarint truncated invalid (varint_digits 8 value ++ rest) = Ok (value, rest).
Proof.
  intros Hv. unfold readVarint. pose proof (safe_digits _ Hv).
  rewrite readVarint_loop_digits by lia. f_equal. f_equal. lia.
Qed.

Lemma writeVarint_ok message value bs :
  writeVarint message value = Ok bs <->
  0 <= value <= MAX_SAFE_INTEGER /\ bs = varint_digits 8 value.
Proof.
  unfold writeVarint. destruct (isSafeInteger value && (0 <=? value)) eqn:E.
  - apply andb_true_iff in E as [?%isSafeInteger_spec ?%Z.leb_le].
    split; [intros [= <-]; split; [lia | done] | intros [? ->]; done].
  - split; [done |]. intros [? _]. apply andb_false_iff in E as [E | E].
    + rewrite (proj2 (isSafeInteger_spec _)) in E; [done |]. unfold MAX_SAFE_INTEGER in *. lia.
    + apply Z.leb_gt in E. lia.
Qed.

(** ** The compact reader accepts exactly the writer's output *)

Lemma compactVarint_loop_digits left index maximum acc value rest :
  (0 < left)%nat -> 0 <= index -> 0 <= acc -> 0 <= value < 128 ^ Z.of_nat left ->
  (0 < index -> 0 < value) ->
  acc + value * 128 ^ index <= maximum <= MAX_SAFE_INTEGER ->
  compactVarint_loop left index maximum acc (varint_digits left value ++ rest)
    = Ok (acc + value * 128 ^ index, rest).
Proof.
  revert index acc value. induction left as [| left IH]; intros index acc value Hl Hi Ha Hv Hz Hm; [lia |].
  rewrite Nat2Z.inj_succ, Z.pow_succ_r in Hv by lia.
  pose proof (Z.pow_pos_nonneg 128 index ltac:(lia) Hi) as Hpow.
  varint_step value; cbn [compactVarint_loop].
  - rewrite land_low, land_128_zero by lia.
    destruct (Z.ltb_spec ((MAX_SAFE_INTEGER - acc) / 128 ^ index) value) as [Hlt |]; cbn.
    { assert (value <= (MAX_SAFE_INTEGER - acc) / 128 ^ index) by (apply Z.div_le_lower_bound; nia).
      lia. }
    destruct (Z.ltb_spec value 128); [| lia].
    destruct (Z.ltb_spec 0 index), (Z.eqb_spec value 0); cbn; try lia;
      (destruct (Z.ltb_spec maximum (acc + value * 128 ^ index)); [lia | done]).
  - assert (0 < value / 128) by (apply Z.div_str_pos; lia).
    rewrite land_cont, land_128_zero by lia.
    destruct (Z.ltb_spec ((MAX_SAFE_INTEGER - acc) / 128 ^ index) (value mod 128)) as [Hlt |]; cbn.
    { assert (value mod 128 <= (MAX_SAFE_INTEGER - acc) / 128 ^ index)
        by (apply Z.div_le_lower_bound; nia). lia. }
    destruct (Z.ltb_spec (value mod 128 + 128) 128); [lia |].
    assert (value / 128 < 128 ^ Z.of_nat left) by (apply Z.div_lt_upper_bound; lia).
    assert (0 < left)%nat by (destruct left; [| lia]; change (128 ^ Z.of_nat 0) with 1 in *; lia).
    rewrite IH; rewrite ?Z.pow_add_r, ?Z.pow_1_r by lia; try nia.
    f_equal. f_equal. nia.
Qed.

Lemma compactVarint_loop_inv left index maximum acc raw v rest :
  is_bytes raw -> 0 <= index -> 0 <= acc ->
  compactVarint_loop left index maximum acc raw = Ok (v, rest) ->
  exists value, raw = varint_digits left value ++ rest /\ v = acc + value * 128 ^ index /\
    v <= maximum /\ v <= MAX_SAFE_INTEGER /\ 0 <= value /\ (0 < index -> 0 < value).
Proof.
  revert index acc raw. induction left as [| left IH]; intros index acc raw Hb Hi Ha E; [done |].
  destruct raw as [| byte raw']; [done |]. cbn [compactVarint_loop] in E.
  apply list.Forall_cons in Hb as [Hbyte Hb]. unfold is_byte in Hbyte.
  pose proof (Z.pow_pos_nonneg 128 index ltac:(lia) Hi) as Hpow.
  rewrite land_127 in E. pose proof (Z.mod_pos_bound byte 128 ltac:(lia)) as Hm.
  pose proof (Z_div_mod_eq_full byte 128) as Hdm.
  assert (Hq : byte / 128 = if byte <? 128 then 0 else 1).
  { destruct (Z.ltb_spec byte 128); [apply Z.div_small; lia |].
    symmetry. apply Z.div_unique with (byte - 128); lia. }
  destruct (Z.ltb_spec ((MAX_SAFE_INTEGER - acc) / 128 ^ index) (byte mod 128)) as [| Hsafe]; [done |].
  cbn in E. rewrite land_128_zero in E by done.
  assert (acc + byte mod 128 * 128 ^ index <= MAX_SAFE_INTEGER).
  { pose proof (Z.mul_div_le (MAX_SAFE_INTEGER - acc) (128 ^ index) ltac:(lia)). nia. }
  destruct (Z.ltb_spec byte 128).
  - inv_result. reflect_tests. exists byte. rewrite varint_digits_cons by lia.
    destruct (Z.ltb_spec byte 128); [| lia]. cbn.
    assert (byte mod 128 = byte) as Hbm by lia. rewrite Hbm in *.
    repeat split; done || lia.
  - apply IH in E as (value & -> & -> & Hmax & Hsafe' & Hv & Hpos); [| done | lia | nia].
    exists (byte mod 128 + 128 * value). specialize (Hpos ltac:(lia)).
    rewrite varint_digits_cons by nia.
    destruct (Z.ltb_spec (byte mod 128 + 128 * value) 128); [lia |].
    replace (byte mod 128 + 128 * value) with (byte mod 128 + value * 128) by lia.
    rewrite Z.mod_add, Z.mod_mod, Z.div_add, (Z.div_small (byte mod 128)) by lia.
    rewrite Z.pow_add_r, Z.pow_1_r in * by lia.
    repeat split; try nia. cbn. do 2 f_equal. lia.
Qed.

Lemma compactVarint_digits maximum value rest :
  0 <= value <= maximum -> maximum <= MAX_SAFE_INTEGER ->
  compactVarint maximum (varint_digits 8 value ++ rest) = Ok (value, rest).
Proof.
  intros Hv Hm. unfold compactVarint. pose proof (safe_digits value ltac:(lia)).
  rewrite compactVarint_loop_digits by lia. f_equal. f_equal. lia.
Qed.

Lemma compactVarint_inv maximum raw v rest :
  is_bytes raw -> compactVarint maximum raw = Ok (v, rest) ->
  raw = varint_digits 8 v ++ rest /\ 0 <= v <= maximum /\ v <= MAX_SAFE_INTEGER.
Proof.
  intros Hb (value & -> & -> & ? & ? & ? & _)%compactVarint_loop_inv; [| done | lia | lia].
  change (128 ^ 0) with 1 in *.
  replace (0 + value * 1) with value in * by lia. done.
Qed.

(** ** [BinaryReader] as a reader of the unread suffix *)

Lemma readByte_cons r b rest :
  readRemaining r = b :: rest ->
  readByte r = (Some b, mkReader (payload r) (S (offset r))) /\
  readRemaining (mkReader (payload r) (S (offset r))) = rest.
Proof.
  unfold readRemaining, readByte. cbn. intros H.
  assert (payload r !! offset r = Some b) as ->.
  { rewrite <- (Nat.add_0_r (offset r)), <- lookup_drop, H. done. }
  split; [done |]. rewrite <- Nat.add_1_r, <- drop_drop, H. done.
Qed.

Lemma shiftl_pow left index : 0 <= index -> Z.shiftl left (index * 7) = left * 128 ^ index.
Proof.
  intros. rewrite Z.shiftl_mul_pow2 by lia. f_equal.
  rewrite Z.mul_comm, Z.pow_mul_r by lia. done.
Qed.

Lemma readUnsignedVarint_loop_digits left index acc value r rest :
  (0 < left)%nat -> 0 <= index -> 0 <= acc < 128 ^ index -> 0 <= value < 128 ^ Z.of_nat left ->
  acc + value * 128 ^ index <= MAX_SAFE_INTEGER ->
  readRemaining r = varint_digits left value ++ rest ->
  readUnsignedVarint_loop left index acc r =
    (Some (acc + value * 128 ^ index),
     mkReader (payload r) (offset r + length (varint_digits left value))).
Proof.
  revert index acc value r. induction left as [| left IH]; intros index acc value r Hl Hi Ha Hv Hm E;
    [lia |].
  rewrite Nat2Z.inj_succ, Z.pow_succ_r in Hv by lia.
  assert (Hor : forall d, 0 <= d -> Z.lor acc (Z.shiftl d (index * 7)) = acc + d * 128 ^ index).
  { intros d Hd. rewrite shiftl_pow, Z.lor_comm by lia.
    replace (128 ^ index) with (2 ^ (7 * index)) in * by (rewrite Z.pow_mul_r by lia; done).
    rewrite lor_disjoint; lia. }
  rewrite varint_digits_cons in E |- * by lia.
  pose proof (Z.mod_pos_bound value 128 ltac:(lia)). pose proof (Z_div_mod_eq_full value 128).
  cbn [readUnsignedVarint_loop].
  destruct (Z.ltb_spec value 128); cbn [app] in E; apply readByte_cons in E as [-> E].
  - rewrite land_low, land_128_zero, Hor by lia.
    destruct (Z.ltb_spec value 128); [| lia].
    destruct (Z.leb_spec (acc + value * 128 ^ index) MAX_SAFE_INTEGER); [| lia].
    cbn [length]. by rewrite Nat.add_1_r.
  - rewrite land_cont, land_128_zero, Hor by lia.
    destruct (Z.ltb_spec (value mod 128 + 128) 128); [lia |].
    assert (value / 128 < 128 ^ Z.of_nat left) by (apply Z.div_lt_upper_bound; lia).
    assert (0 <= value / 128) by (apply Z.div_pos; lia).
    assert (0 < left)%nat by (destruct left; [| lia]; change (128 ^ Z.of_nat 0) with 1 in *; nia).
    pose proof (Z.pow_pos_nonneg 128 index ltac:(lia) Hi) as Hpow.
    rewrite (IH (index + 1) _ (value / 128)); rewrite ?Z.pow_add_r, ?Z.pow_1_r by lia; try nia; [| done].
    cbn. rewrite <- Nat.add_succ_comm. f_equal. f_equal. nia.
Qed.

Lemma readUnsignedVarint_digits r value rest :
  0 <= value <= MAX_SAFE_INTEGER ->
  readRemaining r = varint_digits 8 value ++ rest ->
  exists r', readUnsignedVarint r = (Some value, r') /\ readRemaining r' = rest /\ payload r' = payload r.
Proof.
  intros Hv E. unfold readUnsignedVarint. pose proof (safe_digits _ Hv).
  rewrite (readUnsignedVarint_loop_digits 8 0 0 value r rest) by (done || lia).
  eexists. split; [f_equal; f_equal; lia |]. split; [| done]. unfold readRemaining in *. cbn.
  rewrite <- drop_drop, E. apply drop_app_length.
Qed.

Lemma readBytes_written r bs rest : zlen bs <= MAX_SAFE_INTEGER -> bs ++ rest <> [] -> readRemaining r = bs ++ rest ->
  exists r', readBytes (zlen bs) r = (Some bs, r') /\ readRemaining r' = rest /\ payload r' = payload r /\
    (rest = [] -> reader_done r' = true).
Proof.
  unfold readRemaining, readBytes, reader_done. intros Hs Hne Hr. pose proof (f_equal length Hr) as Hl.
  rewrite length_drop, length_app in Hl.
  assert (Hroom : (0 < length (bs ++ rest))%nat) by (destruct (bs ++ rest); [done | cbn; lia]). rewrite length_app in Hroom.
  exists (mkReader (payload r) (offset r + length bs)). unfold zlen in *. cbn [payload offset].
  rewrite (proj2 (isSafeInteger_spec _)) by lia.
  destruct (Z.ltb_spec (Z.of_nat (length bs)) 0); [lia |].
  destruct (Z.ltb_spec (Z.of_nat (length (payload r)) - Z.of_nat (offset r)) (Z.of_nat (length bs))); [lia |].
  cbn [negb orb]. rewrite Nat2Z.id, Hr, take_app_length, <- drop_drop, Hr, drop_app_length.
  split; [done |]. split; [done |]. split; [done |]. intros ->. apply Nat.eqb_eq. cbn [length] in *. lia.
Qed.

Lemma readLengthPrefixed_written r bs rest : zlen bs <= MAX_SAFE_INTEGER -> bs ++ rest <> [] ->
  readRemaining r = varint_digits 8 (zlen bs) ++ bs ++ rest ->
  exists r', readLengthPrefixedBytes r = (Some bs, r') /\ readRemaining r' = rest /\ (rest = [] -> reader_done r' = true).
Proof.
  intros Hs Hne Hr. pose proof (zlen_nonneg bs).
  destruct (readUnsignedVarint_digits r (zlen bs) _ ltac:(lia) Hr) as (r1 & E1 & R1 & _).
  destruct (readBytes_written r1 bs rest Hs Hne R1) as (r2 & E2 & R2 & _ & Hd).
  exists r2. unfold readLengthPrefixedBytes. by rewrite E1.
Qed.

(** ** [concatBytes] copies its parts end to end *)

Lemma concat_loop_spec parts pre room :
  (length (concat parts) <= length room)%nat ->
  concat_loop (pre ++ room) (length pre) parts
    = pre ++ concat parts ++ drop (length (concat parts)) room.
Proof.
  revert pre room. induction parts as [| part parts IH]; intros pre room Hl; cbn in *; [done |].
  rewrite length_app in Hl. unfold setAt.
  rewrite take_app_length, drop_app_add' by done.
  replace (length pre + length part)%nat with (length (pre ++ part)) by (by rewrite length_app).
  rewrite app_assoc, IH by (rewrite length_drop; lia).
  rewrite drop_drop, length_app, <- !app_assoc. done.
Qed.

Lemma fold_sum_zlen (parts : list (list Z)) (acc : Z) :
  fold_left (fun sum part => sum + zlen part) parts acc = acc + zlen (concat parts).
Proof.
  revert acc. induction parts as [| part parts IH]; intros acc; cbn.
  - rewrite zlen_nil. lia.
  - rewrite IH, zlen_app. lia.
Qed.

Lemma concatBytes_concat parts : concatBytes parts = concat parts.
Proof.
  unfold concatBytes. rewrite fold_sum_zlen, Z.add_0_l.
  pose proof (concat_loop_spec parts [] (replicate (Z.to_nat (zlen (concat parts))) 0)) as H.
  cbn in H. rewrite H; rewrite ?length_replicate; unfold zlen; rewrite ?Nat2Z.id; [| lia].
  rewrite drop_ge by (rewrite length_replicate; unfold zlen; lia). by rewrite app_nil_r.
Qed.

(** ** Little-endian fields

    [Buffer.writeDoubleLE], [DataView.setFloat32(..., true)] and their
    readers, on the bit pattern of the number. *)

Fixpoint le_bytes (n : nat) (v : Z) : list Z :=
  match n with
  | O => []
  | S n' => v mod 256 :: le_bytes n' (v / 256)
  end.

Fixpoint le_value (bs : list Z) : Z :=
  match bs with
  | [] => 0
  | b :: bs' => b + 256 * le_value bs'
  end.

Lemma le_bytes_length n v : length (le_bytes n v) = n.
Proof. revert v. induction n; intros; cbn; auto. Qed.

Lemma le_bytes_bytes n v : is_bytes (le_bytes n v).
Proof.
  revert v. induction n as [| n IH]; intros v; cbn; constructor; [| apply IH].
  apply Z.mod_pos_bound. lia.
Qed.

Lemma le_value_bytes n v : 0 <= v < 256 ^ Z.of_nat n -> le_value (le_bytes n v) = v.
Proof.
  revert v. induction n as [| n IH]; intros v Hv; cbn.
  - change (256 ^ Z.of_nat 0) with 1 in Hv. lia.
  - rewrite Nat2Z.inj_succ, Z.pow_succ_r in Hv by lia.
    rewrite IH; [pose proof (Z_div_mod_eq_full v 256); lia |].
    split; [apply Z.div_pos; lia | apply Z.div_lt_upper_bound; lia].
Qed.

Lemma le_value_range bs : is_bytes bs -> 0 <= le_value bs < 256 ^ zlen bs.
Proof.
  induction 1 as [| b bs Hb _ IH]; cbn [le_value]; [done |].
  rewrite zlen_cons, Z.add_comm, Z.pow_add_r, Z.pow_1_r by (apply zlen_nonneg || lia).
  unfold is_byte in Hb. lia.
Qed.

Lemma le_bytes_value bs : is_bytes bs -> le_bytes (length bs) (le_value bs) = bs.
Proof.
  induction 1 as [| b bs Hb _ IH]; cbn; [done |]. unfold is_byte in Hb.
  rewrite Z.mul_comm, Z.mod_add, Z.div_add, Z.mod_small, Z.div_small, Z.add_0_l by lia. by rewrite IH.
Qed.

#[global] Arguments le_bytes : simpl never.
#[global] Arguments le_value : simpl never.

(** ** The properties of the byte layer *)

(** Every varint writer and every varint reader of the packages agree on
    the safe integers: the [BigInt] writer of [binary-io.ts] and the arithmetic
    writer of the frame and payload codecs produce the same one to eight
    bytes, and each of the three readers gives the number back, leaving
    exactly what followed. *)
Theorem varint_roundtrip message value rest :
  0 <= value <= MAX_SAFE_INTEGER ->
  exists bs, writeVarint message value = Ok bs /\ encodeUnsignedVarint value message = Ok bs /\
    is_bytes bs /\ 1 <= zlen bs <= 8 /\
    (forall truncated invalid, readVarint truncated invalid (bs ++ rest) = Ok (value, rest)) /\
    compactVarint MAX_SAFE_INTEGER (bs ++ rest) = Ok (value, rest) /\
    exists r', readUnsignedVarint (mkReader (bs ++ rest) 0) = (Some value, r') /\ readRemaining r' = rest.
Proof.
  intros Hv. exists (varint_digits 8 value).
  assert (Hw : writeVarint message value = Ok (varint_digits 8 value)) by (by apply writeVarint_ok).
  split; [done |]. split.
  { unfold encodeUnsignedVarint, writeVarint in *. rewrite bigint_digits_eq by lia.
    by destruct (isSafeInteger value && (0 <=? value)). }
  pose proof (varint_digits_length 8 value ltac:(lia) ltac:(lia)).
  split; [apply varint_digits_bytes; lia |]. split; [unfold zlen; lia |].
  split; [intros; by apply readVarint_digits |].
  split; [apply compactVarint_digits; lia |].
  destruct (readUnsignedVarint_digits (mkReader (varint_digits 8 value ++ rest) 0) value rest)
    as (r' & ? & ? & _); [done | done |]. by exists r'.
Qed.

Lemma varint_roundtrip_witness :
  0 <= 624485 <= MAX_SAFE_INTEGER /\
  exists bs, writeVarint "m" 624485 = Ok bs /\ encodeUnsignedVarint 624485 "m" = Ok bs /\
    is_bytes bs /\ 1 <= zlen bs <= 8 /\
    (forall truncated invalid, readVarint truncated invalid (bs ++ [7]) = Ok (624485, [7])) /\
    compactVarint MAX_SAFE_INTEGER (bs ++ [7]) = Ok (624485, [7]) /\
    exists r', readUnsignedVarint (mkReader (bs ++ [7]) 0) = (Some 624485, r') /\ readRemaining r' = [7].
Proof. split; [unfold MAX_SAFE_INTEGER; lia | apply varint_roundtrip; unfold MAX_SAFE_INTEGER; lia]. Defined.

(** The compact reader is canonical: whatever bytes it accepts are exactly
    the writer's encoding of the number it returns (so a number has one
    encoding), and the number respects the caller's bound. *)
Theorem compactVarint_canonical maximum raw v rest :
  is_bytes raw ->
  compactVarint maximum raw = Ok (v, rest) ->
  v <= maximum /\ exists bs, writeVarint "Invalid compact integer" v = Ok bs /\ raw = bs ++ rest.
Proof.
  intros Hb E. apply compactVarint_inv in E as (-> & ? & ?); [| done].
  split; [lia |]. exists (varint_digits 8 v). split; [| done]. apply writeVarint_ok. split; [lia | done].
Qed.

Lemma compactVarint_canonical_witness :
  (is_bytes [229; 142; 38; 7] /\ compactVarint 1000000 [229; 142; 38; 7] = Ok (624485, [7])) /\
  624485 <= 1000000 /\
  exists bs, writeVarint "Invalid compact integer" 624485 = Ok bs /\ [229; 142; 38; 7] = bs ++ [7].
Proof.
  split; [split; [repeat (constructor; try (unfold is_byte; lia)) | reflexivity] |].
  apply (compactVarint_canonical 1000000); [repeat (constructor; try (unfold is_byte; lia)) | reflexivity].
Defined.
