(* ===== verification/DeviceFraming.v ===== *)
(** * The serial device framing ([device-framing.ts])

    [deviceFrameStream] is a [TransformStream]: its state is the [pending]
    bytes kept between chunks, and each chunk enqueues the packets it
    completes.  A failed transform errors the stream after the packets already
    enqueued, so the outcome carries both. *)

From Stdlib Require Import ZArith Lia String.
From stdpp Require Import base list option.
From S2P Require Import Prelude.

Definition marker0 : Z := 148. (* 0x94 *)
Definition marker1 : Z := 195. (* 0xc3 *)

(** The [while] loop over the unread part of [buffer]: the packets enqueued,
    and the bytes left at [offset] when it stops. *)
Fixpoint frame_loop (fuel : nat) (allowDebug : bool) (buffer : list Z)
    : list (list Z) * result (list Z) :=
  match fuel with
  | O => ([], Ok buffer)
  | S fuel' =>
      match buffer with
      | b0 :: b1 :: _ =>
          let marked := (b0 =? marker0) && (b1 =? marker1) in
          if allowDebug && negb marked then frame_loop fuel' allowDebug (drop 1 buffer)
          else
            match buffer with
            | _ :: _ :: b2 :: b3 :: body =>
                if negb marked then ([], Throw (PlainError "Invalid Meshtastic frame header"))
                else
                  let length := b2 * 256 + b3 in
                  if zlen body <? length then ([], Ok buffer)
                  else
                    let '(packets, out) :=
                      frame_loop fuel' allowDebug (drop (Z.to_nat length) body) in
                    (take (Z.to_nat length) body :: packets, out)
            | _ => ([], Ok buffer)
            end
      | _ => ([], Ok buffer)
      end
  end.

(** Each iteration consumes at least one byte. *)
Definition frames_of (allowDebug : bool) (buffer : list Z) : list (list Z) * result (list Z) :=
  frame_loop (S (length buffer)) allowDebug buffer.

(** [if (allowDebug && pending.length === 1 && pending[0] !== 0x94) pending = []] *)
Definition keep_pending (allowDebug : bool) (rest : list Z) : list Z :=
  match rest with
  | [b] => if allowDebug && negb (b =? marker0) then [] else rest
  | _ => rest
  end.

Definition transform (allowDebug : bool) (pending chunk : list Z) : list (list Z) * result (list Z) :=
  let '(packets, out) := frames_of allowDebug (pending ++ chunk) in
  (packets, let! rest := out in Ok (keep_pending allowDebug rest)).

Definition flush (pending : list Z) : result unit :=
  guard! (match pending with [] => true | _ => false end) else PlainError "Truncated Meshtastic frame" in
  Ok tt.

(** A whole stream: every chunk in order, until one fails. *)
Fixpoint transform_all (allowDebug : bool) (pending : list Z) (chunks : list (list Z))
    : list (list Z) * result (list Z) :=
  match chunks with
  | [] => ([], Ok pending)
  | chunk :: chunks' =>
      let '(packets, out) := transform allowDebug pending chunk in
      match out with
      | Throw e => (packets, Throw e)
      | Ok pending' =>
          let '(packets', out') := transform_all allowDebug pending' chunks' in
          (packets ++ packets', out')
      end
  end.

(** The framing a device writes: marker, big-endian 16-bit length, payload. *)
Definition device_frame (packet : list Z) : list Z :=
  marker0 :: marker1 :: zlen packet / 256 :: zlen packet mod 256 :: packet.

(** ** The loop *)

Lemma frame_loop_fuel fuel fuel' allowDebug buffer :
  (length buffer < fuel)%nat -> (length buffer < fuel')%nat ->
  frame_loop fuel allowDebug buffer = frame_loop fuel' allowDebug buffer.
Proof.
  revert fuel' buffer. induction fuel as [| fuel IH]; intros [| fuel'] buffer H H'; try lia.
  destruct buffer as [| b0 [| b1 tl]]; [done .. |].
  cbn [frame_loop]. destruct (allowDebug && negb _) eqn:Ed.
  - apply IH; cbn in *; lia.
  - destruct tl as [| b2 [| b3 body]]; [done .. |].
    destruct (negb _); [done |]. destruct (zlen body <? _); [done |].
    rewrite (IH fuel'); [done | |]; rewrite length_drop; cbn in *; lia.
Qed.

Lemma frames_of_fuel fuel allowDebug buffer :
  (length buffer < fuel)%nat -> frame_loop fuel allowDebug buffer = frames_of allowDebug buffer.
Proof. intros. apply frame_loop_fuel; lia. Qed.

(** The loop as an equation on the unread bytes. *)
Lemma frames_of_step allowDebug b0 b1 tl :
  frames_of allowDebug (b0 :: b1 :: tl) =
    let marked := (b0 =? marker0) && (b1 =? marker1) in
    if allowDebug && negb marked then frames_of allowDebug (b1 :: tl)
    else match tl with
         | b2 :: b3 :: body =>
             if negb marked then ([], Throw (PlainError "Invalid Meshtastic frame header"))
             else if zlen body <? b2 * 256 + b3 then ([], Ok (b0 :: b1 :: tl))
             else let '(packets, out) := frames_of allowDebug (drop (Z.to_nat (b2 * 256 + b3)) body) in
                  (take (Z.to_nat (b2 * 256 + b3)) body :: packets, out)
         | _ => ([], Ok (b0 :: b1 :: tl))
         end.
Proof.
  unfold frames_of at 1. cbn [frame_loop]. cbn zeta.
  destruct (allowDebug && negb _); [by rewrite frames_of_fuel by (cbn; lia) |].
  destruct tl as [| b2 [| b3 body]]; [done .. |].
  destruct (negb _); [done |]. destruct (zlen body <? _); [done |].
  by rewrite frames_of_fuel by (rewrite length_drop; cbn; lia).
Qed.

Arguments frames_of : simpl never.

(** The outcome of continuing a stopped loop with more bytes. *)
Definition resume (allowDebug : bool) (state : list (list Z) * result (list Z)) (more : list Z) :=
  match state with
  | (packets, Throw e) => (packets, Throw e)
  | (packets, Ok rest) =>
      let '(packets', out') := frames_of allowDebug (rest ++ more) in (packets ++ packets', out')
  end.

(** Bytes after the unread part change nothing before it: the loop on a longer
    buffer enqueues the same packets, then continues from where it stopped. *)
Lemma frames_of_app allowDebug buffer more :
  frames_of allowDebug (buffer ++ more) = resume allowDebug (frames_of allowDebug buffer) more.
Proof.
  remember (length buffer) as n eqn:Hn. revert buffer Hn.
  induction n as [n IH] using lt_wf_ind. intros buffer ->.
  assert (Hstop : forall b, frames_of allowDebug b = ([], Ok b) ->
    frames_of allowDebug (b ++ more) = resume allowDebug (frames_of allowDebug b) more).
  { intros b ->. cbn. by destruct (frames_of allowDebug (b ++ more)). }
  destruct buffer as [| b0 [| b1 tl]]; [by apply Hstop .. |].
  pose proof (frames_of_step allowDebug b0 b1 tl) as Hs. cbn zeta in Hs.
  destruct (allowDebug && negb _) eqn:Ed.
  { rewrite Hs. cbn [app]. rewrite frames_of_step. cbn zeta. rewrite Ed.
    change (b1 :: tl ++ more) with ((b1 :: tl) ++ more). apply (IH (length (b1 :: tl))); cbn; lia. }
  destruct tl as [| b2 [| b3 body]]; [by apply Hstop .. |].
  destruct (negb ((b0 =? marker0) && _)) eqn:Em.
  { rewrite Hs. cbn [app]. rewrite frames_of_step. cbn zeta. by rewrite Em, Ed. }
  destruct (zlen body <? b2 * 256 + b3) eqn:El; [by apply Hstop |].
  rewrite Hs. cbn [app]. rewrite frames_of_step. cbn zeta. rewrite Em, Ed.
  apply Z.ltb_ge in El. destruct (Z.ltb_spec (zlen (body ++ more)) (b2 * 256 + b3)) as [Hl |].
  { rewrite zlen_app in Hl. pose proof (zlen_nonneg more). lia. }
  rewrite drop_app_le, take_app_le by (unfold zlen in *; lia).
  rewrite (IH (length (drop (Z.to_nat (b2 * 256 + b3)) body))); [| rewrite length_drop; cbn; lia | done].
  destruct (frames_of allowDebug (drop _ body)) as [packets [rest | e]]; cbn; [| done].
  by destruct (frames_of allowDebug (rest ++ more)).
Qed.

(** Dropping a lone byte that cannot start a header loses nothing: with debug
    output allowed the loop would skip it as soon as another byte arrived. *)
Lemma keep_pending_resume allowDebug rest more :
  more <> [] ->
  frames_of allowDebug (keep_pending allowDebug rest ++ more) = frames_of allowDebug (rest ++ more).
Proof.
  intros Hm. destruct rest as [| b [| b' rest]]; cbn; [done | | done].
  destruct (allowDebug && negb (b =? marker0)) eqn:E; [| done].
  destruct more as [| c more]; [done |]. cbn. rewrite frames_of_step. cbn zeta.
  apply andb_true_iff in E as [-> E%negb_true_iff]. by rewrite E.
Qed.

Lemma keep_pending_idem allowDebug rest :
  keep_pending allowDebug (keep_pending allowDebug rest) = keep_pending allowDebug rest.
Proof.
  destruct rest as [| b [| b' rest]]; cbn; try done.
  destruct (allowDebug && negb (b =? marker0)) eqn:E; cbn; [done |]. by rewrite E.
Qed.

(** ** Chunking does not matter *)

Lemma transform_app allowDebug pending c1 c2 :
  c2 <> [] ->
  transform allowDebug pending (c1 ++ c2) =
    match transform allowDebug pending c1 with
    | (packets, Throw e) => (packets, Throw e)
    | (packets, Ok pending') =>
        let '(packets', out') := transform allowDebug pending' c2 in (packets ++ packets', out')
    end.
Proof.
  intros Hc. unfold transform. rewrite app_assoc, frames_of_app.
  destruct (frames_of allowDebug (pending ++ c1)) as [packets [rest | e]]; cbn; [| done].
  rewrite keep_pending_resume by done.
  by destruct (frames_of allowDebug (rest ++ c2)) as [packets' [rest' | e]].
Qed.

(** The framing does not depend on how the serial port cuts the stream:
    feeding the non-empty chunks one by one enqueues the same packets, in the
    same order, and ends in the same pending bytes (or the same failure), as
    feeding their concatenation at once; with and without debug output. *)
Theorem transform_chunking allowDebug pending chunks :
  Forall (fun c => c <> []) chunks -> chunks <> [] ->
  transform_all allowDebug pending chunks = transform allowDebug pending (concat chunks).
Proof.
  intros Hc Hne. revert pending. induction Hc as [| c chunks Hc Hcs IH]; intros pending; [done |].
  cbn. destruct chunks as [| c' chunks].
  - cbn. rewrite app_nil_r. destruct (transform allowDebug pending c) as [packets [p | e]]; [| done].
    by rewrite app_nil_r.
  - assert (Hn : concat (c' :: chunks) <> []).
    { cbn. apply list.Forall_cons in Hcs as [Hc' _]. by destruct c'. }
    rewrite (transform_app allowDebug pending c) by done.
    destruct (transform allowDebug pending c) as [packets [p | e]]; [| done]. by rewrite IH.
Qed.

Lemma transform_chunking_witness :
  (Forall (fun c => c <> []) [[148]; [195; 0]; [2; 9; 8; 148]] /\ [[148]; [195; 0]; [2; 9; 8; 148]] <> []) /\
  transform_all true [] [[148]; [195; 0]; [2; 9; 8; 148]] = transform true [] [148; 195; 0; 2; 9; 8; 148].
Proof.
  split; [split; [repeat constructor; done | done] |].
  apply (transform_chunking true [] [[148]; [195; 0]; [2; 9; 8; 148]]); [repeat constructor; done | done].
Defined.

(** ** Whole frames come out as they went in *)

Lemma frames_of_device_frame allowDebug packet rest :
  is_bytes packet -> zlen packet < 65536 ->
  frames_of allowDebug (device_frame packet ++ rest) =
    let '(packets, out) := frames_of allowDebug rest in (packet :: packets, out).
Proof.
  intros _ Hl. unfold device_frame. cbn [app]. rewrite frames_of_step. cbn zeta.
  rewrite !Z.eqb_refl. cbn [andb negb]. rewrite andb_false_r.
  pose proof (Z_div_mod_eq_full (zlen packet) 256).
  replace (zlen packet / 256 * 256 + zlen packet mod 256) with (zlen packet) by lia.
  pose proof (zlen_nonneg rest).
  destruct (Z.ltb_spec (zlen (packet ++ rest)) (zlen packet)) as [Hlt |];
    [rewrite zlen_app in Hlt; lia |].
  by rewrite drop_zlen_app, take_zlen_app.
Qed.

Lemma frames_of_device_frames allowDebug packets :
  Forall (fun p => is_bytes p /\ zlen p < 65536) packets ->
  frames_of allowDebug (concat (map device_frame packets)) = (packets, Ok []).
Proof.
  induction 1 as [| p packets [Hb Hl] _ IH]; [done |].
  cbn [map concat]. by rewrite frames_of_device_frame, IH.
Qed.

(** A stream of well-formed device frames, cut into any non-empty chunks,
    enqueues exactly the packets written, leaves nothing pending, and the
    final [flush] succeeds. *)
Theorem device_frames_delivered allowDebug packets chunks :
  Forall (fun p => is_bytes p /\ zlen p < 65536) packets ->
  Forall (fun c => c <> []) chunks -> chunks <> [] ->
  concat chunks = concat (map device_frame packets) ->
  transform_all allowDebug [] chunks = (packets, Ok []) /\ flush [] = Ok tt.
Proof.
  intros Hp Hc Hne E. rewrite transform_chunking by done. rewrite E. unfold transform. cbn [app].
  by rewrite frames_of_device_frames.
Qed.

Lemma device_frames_delivered_witness :
  (Forall (fun p => is_bytes p /\ zlen p < 65536) [[1; 2]; []] /\
   concat [[148; 195; 0]; [2; 1; 2; 148; 195]; [0; 0]] = concat (map device_frame [[1; 2]; []])) /\
  transform_all false [] [[148; 195; 0]; [2; 1; 2; 148; 195]; [0; 0]] = ([[1; 2]; []], Ok []) /\
  flush [] = Ok tt.
Proof.
  assert (H : Forall (fun p => is_bytes p /\ zlen p < 65536) [[1; 2]; []])
    by (repeat (constructor; try (unfold is_byte; lia)); unfold zlen; cbn; lia).
  split; [split; [exact H | reflexivity] |].
  apply (device_frames_delivered false [[1; 2]; []]);
    [exact H | repeat constructor; done | done | reflexivity].
Defined.

(** A retained partial frame holds at most 65,538 bytes before the chunk that
    completes it (a marker, a length and fewer payload bytes than announced). *)
Lemma frames_of_pending_bound allowDebug buffer packets rest :
  is_bytes buffer -> frames_of allowDebug buffer = (packets, Ok rest) -> zlen rest <= 65538.
Proof.
  remember (length buffer) as n eqn:Hn. revert buffer Hn packets.
  induction n as [n IH] using lt_wf_ind. intros buffer -> packets Hb.
  destruct buffer as [| b0 [| b1 tl]]; [by intros [= _ <-] .. |].
  rewrite frames_of_step. cbn zeta. unfold is_bytes in Hb.
  apply list.Forall_cons in Hb as [_ Hb].
  destruct (allowDebug && negb _) eqn:Ed.
  { apply (IH (length (b1 :: tl))); [cbn; lia | done | done]. }
  apply list.Forall_cons in Hb as [_ Hb].
  destruct tl as [| b2 [| b3 body]]; [by intros [= _ <-] .. |].
  apply list.Forall_cons in Hb as [Hb2 Hb]. apply list.Forall_cons in Hb as [Hb3 Hb].
  unfold is_byte in *. destruct (negb _); [done |].
  destruct (Z.ltb_spec (zlen body) (b2 * 256 + b3)).
  - intros [= _ <-]. rewrite !zlen_cons. lia.
  - destruct (frames_of allowDebug (drop _ body)) as [ps o] eqn:E. intros [= <- ->].
    eapply IH in E; [done | | done | by apply Forall_drop]. rewrite length_drop. cbn. lia.
Qed.
