(* ===== verification/Wtf8.v ===== *)
(** * WTF-8 text ([encodeBinaryUtf8], [decodeBinaryUtf8] of [binary-codec.ts])

    The payload codecs write strings in a UTF-8 that also carries lone
    surrogates (three bytes each), so every JavaScript string survives. *)

From Stdlib Require Import ZArith Lia String.
From stdpp Require Import base list option.
From S2P Require Import Prelude BinaryIO.

Definition is_high (u : Z) : bool := (0xd800 <=? u) && (u <=? 0xdbff).
Definition is_low (u : Z) : bool := (0xdc00 <=? u) && (u <=? 0xdfff).

(** One code point, by its range. *)
Definition encode_codePoint (cp : Z) : list Z :=
  if cp <=? 0x7f then [cp]
  else if cp <=? 0x7ff then
    [Z.lor 0xc0 (Z.shiftr cp 6); Z.lor 0x80 (Z.land cp 0x3f)]
  else if cp <=? 0xffff then
    [Z.lor 0xe0 (Z.shiftr cp 12); Z.lor 0x80 (Z.land (Z.shiftr cp 6) 0x3f); Z.lor 0x80 (Z.land cp 0x3f)]
  else
    [Z.lor 0xf0 (Z.shiftr cp 18); Z.lor 0x80 (Z.land (Z.shiftr cp 12) 0x3f);
     Z.lor 0x80 (Z.land (Z.shiftr cp 6) 0x3f); Z.lor 0x80 (Z.land cp 0x3f)].

Definition surrogate_codePoint (first second : Z) : Z :=
  0x10000 + Z.shiftl (first - 0xd800) 10 + second - 0xdc00.

(** A well-paired surrogate is one code point; past the end of the string
    [charCodeAt] is [NaN] and both tests on [second] fail. *)
Fixpoint encodeBinaryUtf8 (value : list Z) : list Z :=
  match value with
  | [] => []
  | first :: rest =>
      match rest with
      | second :: rest' =>
          if is_high first && is_low second
          then encode_codePoint (surrogate_codePoint first second) ++ encodeBinaryUtf8 rest'
          else encode_codePoint first ++ encodeBinaryUtf8 rest
      | [] => encode_codePoint first
      end
  end.

Definition utf8_error : js_error := TypeError "Invalid binary-v1 UTF-8 string".

Definition continuation (byte : Z) : result Z :=
  guard! Z.land byte 0xc0 =? 0x80 else utf8_error in Ok (Z.land byte 0x3f).

(** [String.fromCodePoint] above the basic plane: two code units. *)
Definition fromCodePoint (cp : Z) : list Z :=
  if cp <? 0x10000 then [cp]
  else [0xd800 + Z.shiftr (cp - 0x10000) 10; 0xdc00 + Z.land (cp - 0x10000) 0x3ff].

Fixpoint decodeBinaryUtf8 (bs : list Z) : result (list Z) :=
  match bs with
  | [] => Ok []
  | first :: r1 =>
      if first <=? 0x7f then
        let! tail := decodeBinaryUtf8 r1 in Ok (first :: tail)
      else if (0xc2 <=? first) && (first <=? 0xdf) then
        match r1 with
        | [] => Throw utf8_error
        | b2 :: r2 =>
            let! second := continuation b2 in
            let! tail := decodeBinaryUtf8 r2 in
            Ok (Z.lor (Z.shiftl (Z.land first 0x1f) 6) second :: tail)
        end
      else if (0xe0 <=? first) && (first <=? 0xef) then
        match r1 with
        | second :: b3 :: r3 =>
            guard! negb (negb (Z.land second 0xc0 =? 0x80) || ((first =? 0xe0) && (second <? 0xa0)))
              else utf8_error in
            let! third := continuation b3 in
            let! tail := decodeBinaryUtf8 r3 in
            Ok (Z.lor (Z.lor (Z.shiftl (Z.land first 0x0f) 12) (Z.shiftl (Z.land second 0x3f) 6)) third :: tail)
        | _ => Throw utf8_error
        end
      else if (0xf0 <=? first) && (first <=? 0xf4) then
        match r1 with
        | second :: b3 :: b4 :: r4 =>
            guard! negb (negb (Z.land second 0xc0 =? 0x80) || ((first =? 0xf0) && (second <? 0x90))
                         || ((first =? 0xf4) && (0x8f <? second)))
              else utf8_error in
            let! third := continuation b3 in
            let! fourth := continuation b4 in
            let! tail := decodeBinaryUtf8 r4 in
            Ok (fromCodePoint
                  (Z.lor (Z.lor (Z.lor (Z.shiftl (Z.land first 0x07) 18) (Z.shiftl (Z.land second 0x3f) 12))
                                (Z.shiftl third 6)) fourth) ++ tail)
        | _ => Throw utf8_error
        end
      else Throw utf8_error
  end.

(** ** Bits of the lead and continuation bytes *)

Lemma lead_2 x : 0 <= x < 32 -> Z.lor 0xc0 x = 192 + x.
Proof. intros. exact (lor_disjoint 6 x 5 ltac:(lia) ltac:(lia)). Qed.
Lemma lead_3 x : 0 <= x < 16 -> Z.lor 0xe0 x = 224 + x.
Proof. intros. exact (lor_disjoint 14 x 4 ltac:(lia) ltac:(lia)). Qed.
Lemma lead_4 x : 0 <= x < 8 -> Z.lor 0xf0 x = 240 + x.
Proof. intros. exact (lor_disjoint 30 x 3 ltac:(lia) ltac:(lia)). Qed.

Lemma shl_lor a k b : 0 <= k -> 0 <= b < 2 ^ k -> Z.lor (Z.shiftl a k) b = a * 2 ^ k + b.
Proof. intros. rewrite Z.shiftl_mul_pow2 by lia. by apply lor_disjoint. Qed.

Lemma pack_2 a b : 0 <= b < 64 -> Z.lor (Z.shiftl a 6) b = a * 64 + b.
Proof. intros. by rewrite shl_lor by lia. Qed.
Lemma pack_3 a b c :
  0 <= b < 64 -> 0 <= c < 64 ->
  Z.lor (Z.lor (Z.shiftl a 12) (Z.shiftl b 6)) c = (a * 64 + b) * 64 + c.
Proof.
  intros. rewrite (Z.shiftl_mul_pow2 b) by lia. rewrite shl_lor by lia.
  replace (a * 2 ^ 12 + b * 2 ^ 6) with ((a * 64 + b) * 2 ^ 6) by lia.
  by rewrite lor_disjoint by lia.
Qed.
Lemma pack_4 a b c d :
  0 <= b < 64 -> 0 <= c < 64 -> 0 <= d < 64 ->
  Z.lor (Z.lor (Z.lor (Z.shiftl a 18) (Z.shiftl b 12)) (Z.shiftl c 6)) d
    = ((a * 64 + b) * 64 + c) * 64 + d.
Proof.
  intros. rewrite (Z.shiftl_mul_pow2 b), (Z.shiftl_mul_pow2 c) by lia. rewrite shl_lor by lia.
  replace (a * 2 ^ 18 + b * 2 ^ 12) with ((a * 64 + b) * 2 ^ 12) by lia.
  rewrite lor_disjoint by lia.
  replace ((a * 64 + b) * 2 ^ 12 + c * 2 ^ 6) with (((a * 64 + b) * 64 + c) * 2 ^ 6) by lia.
  by rewrite lor_disjoint by lia.
Qed.

Lemma land_ones_mod x k : 0 <= k -> Z.land x (2 ^ k - 1) = x mod 2 ^ k.
Proof. intros. rewrite <- Z.land_ones by lia. by rewrite Z.ones_equiv, Z.sub_1_r. Qed.

Lemma land_3f x : Z.land x 0x3f = x mod 64.
Proof. exact (land_ones_mod x 6 ltac:(lia)). Qed.

Lemma shr_div x k : 0 <= k -> Z.shiftr x k = x / 2 ^ k.
Proof. apply Z.shiftr_div_pow2. Qed.

Lemma cont_byte x : 0 <= x < 64 -> Z.lor 0x80 x = 128 + x.
Proof. intros. exact (lor_disjoint 2 x 6 ltac:(lia) ltac:(lia)). Qed.

Lemma cont_mask x : 0 <= x < 64 -> (Z.land (128 + x) 0xc0 =? 0x80) = true.
Proof.
  intros Hx. assert (E : forallb (fun x => Z.land (128 + x) 0xc0 =? 0x80) (seqZ 0 64) = true)
    by (vm_compute; reflexivity).
  rewrite forallb_forall in E. apply E, list_elem_of_In, elem_of_seqZ. lia.
Qed.

Lemma cont_value x : 0 <= x < 64 -> Z.land (128 + x) 0x3f = x.
Proof. intros. rewrite land_3f. replace (128 + x) with (x + 2 * 64) by lia. rewrite Z.mod_add by lia. apply Z.mod_small. lia. Qed.

Lemma continuation_byte x : 0 <= x < 64 -> continuation (128 + x) = Ok x.
Proof. intros. unfold continuation. by rewrite cont_mask, cont_value. Qed.

Lemma land_add_mod base x k m :
  0 <= k -> m = 2 ^ k - 1 -> base mod 2 ^ k = 0 -> 0 <= x < 2 ^ k -> Z.land (base + x) m = x.
Proof.
  intros Hk -> Hb Hx. rewrite land_ones_mod by done.
  rewrite <- Z.add_mod_idemp_l, Hb, Z.add_0_l by lia. by apply Z.mod_small.
Qed.

(** Bounds of the digits of a code point in base 64. *)
Ltac base64 cp :=
  pose proof (Z.mod_pos_bound cp 64 ltac:(lia));
  pose proof (Z.mod_pos_bound (cp / 64) 64 ltac:(lia));
  pose proof (Z.mod_pos_bound (cp / 4096) 64 ltac:(lia));
  pose proof (Z_div_mod_eq_full cp 64);
  pose proof (Z_div_mod_eq_full (cp / 64) 64);
  pose proof (Z_div_mod_eq_full (cp / 4096) 64);
  assert (cp / 4096 = cp / 64 / 64) by (rewrite Z.div_div by lia; done);
  assert (cp / 262144 = cp / 4096 / 64) by (rewrite Z.div_div by lia; done).

Lemma encode_1 cp : 0 <= cp <= 0x7f -> encode_codePoint cp = [cp].
Proof. intros. unfold encode_codePoint. destruct (Z.leb_spec cp 0x7f); [done | lia]. Qed.

Lemma encode_2 cp :
  0x80 <= cp <= 0x7ff -> encode_codePoint cp = [192 + cp / 64; 128 + cp mod 64].
Proof.
  intros. unfold encode_codePoint. destruct (Z.leb_spec cp 0x7f); [lia |].
  destruct (Z.leb_spec cp 0x7ff); [| lia]. base64 cp.
  rewrite shr_div, land_3f, cont_byte by lia. change (2 ^ 6) with 64.
  by rewrite lead_2 by lia.
Qed.

Lemma encode_3 cp :
  0x800 <= cp <= 0xffff ->
  encode_codePoint cp = [224 + cp / 4096; 128 + (cp / 64) mod 64; 128 + cp mod 64].
Proof.
  intros. unfold encode_codePoint. destruct (Z.leb_spec cp 0x7f); [lia |].
  destruct (Z.leb_spec cp 0x7ff); [lia |]. destruct (Z.leb_spec cp 0xffff); [| lia]. base64 cp.
  rewrite !shr_div, !land_3f by lia. change (2 ^ 6) with 64. change (2 ^ 12) with 4096.
  rewrite !cont_byte by lia. by rewrite lead_3 by lia.
Qed.

Lemma encode_4 cp :
  0x10000 <= cp <= 0x10ffff ->
  encode_codePoint cp =
    [240 + cp / 262144; 128 + (cp / 4096) mod 64; 128 + (cp / 64) mod 64; 128 + cp mod 64].
Proof.
  intros. unfold encode_codePoint. destruct (Z.leb_spec cp 0x7f); [lia |].
  destruct (Z.leb_spec cp 0x7ff); [lia |]. destruct (Z.leb_spec cp 0xffff); [lia |]. base64 cp.
  rewrite !shr_div, !land_3f by lia.
  change (2 ^ 6) with 64. change (2 ^ 12) with 4096. change (2 ^ 18) with 262144.
  rewrite !cont_byte by lia. by rewrite lead_4 by lia.
Qed.

(** ** One code point decodes to its code units *)

Lemma decode_1 cp rest :
  0 <= cp <= 0x7f ->
  decodeBinaryUtf8 (encode_codePoint cp ++ rest) = let! tail := decodeBinaryUtf8 rest in Ok (cp :: tail).
Proof. intros. rewrite encode_1 by lia. cbn. destruct (Z.leb_spec cp 127); [done | lia]. Qed.

(** Decides the range tests of the decoder on a known lead byte. *)
Ltac decide_ranges :=
  repeat (match goal with
  | |- context [?a <=? ?b] => destruct (Z.leb_spec a b); try lia
  | |- context [?a <? ?b] => destruct (Z.ltb_spec a b); try lia
  | |- context [?a =? ?b] => destruct (Z.eqb_spec a b); try lia
  end; cbn [andb orb negb]).

Lemma decode_2 cp rest :
  0x80 <= cp <= 0x7ff ->
  decodeBinaryUtf8 (encode_codePoint cp ++ rest) = let! tail := decodeBinaryUtf8 rest in Ok (cp :: tail).
Proof.
  intros. rewrite encode_2 by lia. base64 cp. cbn [app decodeBinaryUtf8]. decide_ranges.
  rewrite continuation_byte by lia. cbn [bind_result].
  rewrite (land_add_mod 192 (cp / 64) 5), pack_2 by (done || lia).
  by replace (cp / 64 * 64 + cp mod 64) with cp by lia.
Qed.

Lemma decode_3 cp rest :
  0x800 <= cp <= 0xffff ->
  decodeBinaryUtf8 (encode_codePoint cp ++ rest) = let! tail := decodeBinaryUtf8 rest in Ok (cp :: tail).
Proof.
  intros. rewrite encode_3 by lia. base64 cp. cbn [app decodeBinaryUtf8].
  rewrite (cont_mask ((cp / 64) mod 64)), (continuation_byte (cp mod 64)),
    (cont_value ((cp / 64) mod 64)) by lia.
  decide_ranges; cbn [bind_result];
    rewrite (land_add_mod 224 (cp / 4096) 4), pack_3 by (done || lia);
    by replace ((cp / 4096 * 64 + (cp / 64) mod 64) * 64 + cp mod 64) with cp by lia.
Qed.

Lemma decode_4 cp rest :
  0x10000 <= cp <= 0x10ffff ->
  decodeBinaryUtf8 (encode_codePoint cp ++ rest) =
    let! tail := decodeBinaryUtf8 rest in Ok (fromCodePoint cp ++ tail).
Proof.
  intros. rewrite encode_4 by lia. base64 cp. cbn [app decodeBinaryUtf8].
  rewrite (cont_mask ((cp / 4096) mod 64)), (continuation_byte ((cp / 64) mod 64)),
    (continuation_byte (cp mod 64)), (cont_value ((cp / 4096) mod 64)) by lia.
  decide_ranges; cbn [bind_result];
    rewrite (land_add_mod 240 (cp / 262144) 3), pack_4 by (done || lia);
    by replace (((cp / 262144 * 64 + (cp / 4096) mod 64) * 64 + (cp / 64) mod 64) * 64 + cp mod 64)
      with cp by lia.
Qed.

Lemma decode_unit u rest :
  is_unit u ->
  decodeBinaryUtf8 (encode_codePoint u ++ rest) = let! tail := decodeBinaryUtf8 rest in Ok (u :: tail).
Proof.
  unfold is_unit. intros. destruct (Z.leb_spec u 0x7f); [apply decode_1; lia |].
  destruct (Z.leb_spec u 0x7ff); [apply decode_2; lia | apply decode_3; lia].
Qed.

Lemma surrogate_range first second :
  is_high first = true -> is_low second = true ->
  0x10000 <= surrogate_codePoint first second <= 0x10ffff.
Proof.
  unfold is_high, is_low, surrogate_codePoint. intros. reflect_tests.
  rewrite Z.shiftl_mul_pow2 by lia. lia.
Qed.

Lemma fromCodePoint_surrogate first second :
  is_high first = true -> is_low second = true ->
  fromCodePoint (surrogate_codePoint first second) = [first; second].
Proof.
  intros Hf Hs. pose proof (surrogate_range _ _ Hf Hs). unfold fromCodePoint.
  destruct (Z.ltb_spec (surrogate_codePoint first second) 0x10000); [lia |].
  unfold is_high, is_low, surrogate_codePoint in *. reflect_tests.
  rewrite Z.shiftl_mul_pow2 by lia. rewrite shr_div by lia.
  replace (0x10000 + (first - 0xd800) * 2 ^ 10 + second - 0xdc00 - 0x10000)
    with ((second - 0xdc00) + (first - 0xd800) * 2 ^ 10) by lia.
  rewrite (land_ones_mod _ 10 ltac:(lia)), Z.mod_add, Z.div_add, Z.mod_small, Z.div_small by lia.
  f_equal; [lia |]. f_equal. lia.
Qed.

Lemma decode_encode_app s rest :
  is_jsstr s ->
  decodeBinaryUtf8 (encodeBinaryUtf8 s ++ rest) = let! tail := decodeBinaryUtf8 rest in Ok (s ++ tail).
Proof.
  remember (length s) as n eqn:Hn. revert s Hn. induction n as [n IH] using lt_wf_ind.
  intros s -> Hs. destruct s as [| first s]; [cbn; by destruct (decodeBinaryUtf8 rest) |].
  apply list.Forall_cons in Hs as [Hf Hs].
  destruct s as [| second s].
  { cbn [encodeBinaryUtf8]. by rewrite decode_unit. }
  cbn [encodeBinaryUtf8]. destruct (is_high first && is_low second) eqn:E.
  - apply andb_true_iff in E as [E1 E2]. rewrite <- app_assoc.
    rewrite decode_4, fromCodePoint_surrogate by (done || by apply surrogate_range).
    apply list.Forall_cons in Hs as [_ Hs].
    rewrite (IH (length s)) by (done || cbn; lia). by destruct (decodeBinaryUtf8 rest).
  - change (decodeBinaryUtf8 ((encode_codePoint first ++ encodeBinaryUtf8 (second :: s)) ++ rest)
      = let! tail := decodeBinaryUtf8 rest in Ok ((first :: second :: s) ++ tail)).
    rewrite <- app_assoc, decode_unit by done.
    rewrite (IH (length (second :: s))) by (done || cbn; lia). by destruct (decodeBinaryUtf8 rest).
Qed.

Lemma encode_codePoint_bytes cp :
  0 <= cp <= 0x10ffff -> is_bytes (encode_codePoint cp) /\ zlen (encode_codePoint cp) <= 4 /\
  (cp <= 0xffff -> zlen (encode_codePoint cp) <= 3).
Proof.
  intros. base64 cp. unfold zlen.
  destruct (Z.leb_spec cp 0x7f); [rewrite encode_1 by lia |
  destruct (Z.leb_spec cp 0x7ff); [rewrite encode_2 by lia |
  destruct (Z.leb_spec cp 0xffff); [rewrite encode_3 by lia | rewrite encode_4 by lia]]];
    (split; [repeat (constructor; try (unfold is_byte; lia)) | cbn; lia]).
Qed.

Lemma encodeBinaryUtf8_bytes s :
  is_jsstr s -> is_bytes (encodeBinaryUtf8 s) /\ zlen (encodeBinaryUtf8 s) <= 3 * zlen s.
Proof.
  remember (length s) as n eqn:Hn. revert s Hn. induction n as [n IH] using lt_wf_ind.
  intros s -> Hs. destruct s as [| first s]; [split; [by constructor | done] |].
  apply list.Forall_cons in Hs as [Hf Hs]. unfold is_unit in Hf.
  pose proof (encode_codePoint_bytes first ltac:(lia)) as (Hb & _ & Hl).
  specialize (Hl ltac:(lia)).
  destruct s as [| second s]; [split; [done |]; rewrite zlen_cons, zlen_nil; cbn [encodeBinaryUtf8]; lia |].
  cbn [encodeBinaryUtf8]. destruct (is_high first && is_low second) eqn:E.
  - apply andb_true_iff in E as [E1 E2]. pose proof (surrogate_range _ _ E1 E2).
    pose proof (encode_codePoint_bytes (surrogate_codePoint first second) ltac:(lia)) as (Hb' & Hl' & _).
    apply list.Forall_cons in Hs as [_ Hs].
    destruct (IH (length s) ltac:(cbn; lia) s eq_refl Hs) as [? ?].
    split; [by apply Forall_app_2 |]. rewrite zlen_app, !zlen_cons. lia.
  - destruct (IH (length (second :: s)) ltac:(cbn; lia) (second :: s) eq_refl Hs) as [? Hl2].
    split; [by apply Forall_app_2 |]. rewrite zlen_app, zlen_cons. cbn [encodeBinaryUtf8] in *. lia.
Qed.

(** *** Decoded text *)

Lemma land_range x k : 0 <= k -> 0 <= Z.land x (2 ^ k - 1) < 2 ^ k.
Proof. intros. rewrite land_ones_mod by done. apply Z.mod_pos_bound. apply Z.pow_pos_nonneg; lia. Qed.

Lemma continuation_range b x : continuation b = Ok x -> 0 <= x < 64.
Proof. unfold continuation. intros H. inv_result. exact (land_range b 6 ltac:(lia)). Qed.

Lemma fromCodePoint_units cp : 0 <= cp < 2 ^ 21 -> is_jsstr (fromCodePoint cp).
Proof.
  intros. unfold fromCodePoint. destruct (Z.ltb_spec cp 0x10000).
  - repeat constructor; unfold is_unit; lia.
  - pose proof (land_range (cp - 0x10000) 10 ltac:(lia)) as Hl. change (2 ^ 10) with 1024 in Hl.
    change (1024 - 1) with 0x3ff in Hl.
    rewrite shr_div by lia. assert (0 <= (cp - 0x10000) / 2 ^ 10 < 2048).
    { split; [apply Z.div_pos; lia | apply Z.div_lt_upper_bound; lia]. }
    repeat constructor; unfold is_unit; lia.
Qed.

Lemma decodeBinaryUtf8_units_fuel n bs : (length bs < n)%nat -> is_bytes bs -> forall text,
  decodeBinaryUtf8 bs = Ok text -> is_jsstr text.
Proof.
  revert bs. induction n as [| n IH]; intros bs Hn Hb text; [lia |].
  destruct bs as [| b1 r1]; [intros [= <-]; constructor |].
  apply list.Forall_cons in Hb as [H1 Hb]. cbn in Hn |- *.
  destruct (Z.leb_spec b1 0x7f).
  { intros H'. inv_result. constructor; [unfold is_unit, is_byte in *; lia |].
    eapply IH; [| exact Hb | exact E]. lia. }
  pose proof (land_range b1 5 ltac:(lia)) as L5. change (2 ^ 5 - 1) with 0x1f in L5.
  pose proof (land_range b1 4 ltac:(lia)) as L4. change (2 ^ 4 - 1) with 0x0f in L4.
  pose proof (land_range b1 3 ltac:(lia)) as L3. change (2 ^ 3 - 1) with 0x07 in L3.
  destruct (_ && _).
  { destruct r1 as [| b2 r2]; [done |]. intros H'. inv_result. apply continuation_range in E.
    apply list.Forall_cons in Hb as [H2 Hb]. cbn in Hn.
    constructor; [rewrite pack_2 by lia; unfold is_unit; lia |].
    eapply IH; [| exact Hb | exact E0]. lia. }
  destruct (_ && _).
  { destruct r1 as [| b2 [| b3 r3]]; try done. intros H'. inv_result. apply continuation_range in E.
    repeat (apply list.Forall_cons in Hb as [? Hb]). cbn in Hn.
    pose proof (land_range b2 6 ltac:(lia)) as M. change (2 ^ 6 - 1) with 0x3f in M.
    constructor; [rewrite pack_3 by lia; unfold is_unit; lia |].
    eapply IH; [| exact Hb | exact E0]. lia. }
  destruct (_ && _); [| done].
  destruct r1 as [| b2 [| b3 [| b4 r4]]]; try done. intros H'. inv_result.
  apply continuation_range in E, E0.
  repeat (apply list.Forall_cons in Hb as [? Hb]). cbn in Hn.
  pose proof (land_range b2 6 ltac:(lia)) as M. change (2 ^ 6 - 1) with 0x3f in M.
  apply Forall_app. split.
  - apply fromCodePoint_units. rewrite pack_4 by lia. lia.
  - eapply IH; [| exact Hb | exact E1]. lia.
Qed.

Lemma decodeBinaryUtf8_units bs text : is_bytes bs -> decodeBinaryUtf8 bs = Ok text -> is_jsstr text.
Proof. intros Hb H. exact (decodeBinaryUtf8_units_fuel (S (length bs)) bs ltac:(lia) Hb text H). Qed.

(** Every JavaScript string, including one with lone surrogates, survives
    the WTF-8 text of the payload codecs: it encodes to bytes (at most three
    per code unit) that decode back to it. *)
Theorem wtf8_roundtrip s :
  is_jsstr s ->
  decodeBinaryUtf8 (encodeBinaryUtf8 s) = Ok s /\
  is_bytes (encodeBinaryUtf8 s) /\ zlen (encodeBinaryUtf8 s) <= 3 * zlen s.
Proof.
  intros Hs. split; [| by apply encodeBinaryUtf8_bytes].
  pose proof (decode_encode_app s [] Hs) as H. cbn in H. by rewrite !app_nil_r in H.
Qed.

Lemma wtf8_roundtrip_witness :
  is_jsstr [65; 233; 8364; 0xd83d; 0xde00; 0xd800; 0xdc00 - 1] /\
  decodeBinaryUtf8 (encodeBinaryUtf8 [65; 233; 8364; 0xd83d; 0xde00; 0xd800; 0xdc00 - 1])
    = Ok [65; 233; 8364; 0xd83d; 0xde00; 0xd800; 0xdc00 - 1] /\
  is_bytes (encodeBinaryUtf8 [65; 233; 8364; 0xd83d; 0xde00; 0xd800; 0xdc00 - 1]) /\
  zlen (encodeBinaryUtf8 [65; 233; 8364; 0xd83d; 0xde00; 0xd800; 0xdc00 - 1])
    <= 3 * zlen [65; 233; 8364; 0xd83d; 0xde00; 0xd800; 0xdc00 - 1].
Proof.
  assert (H : is_jsstr [65; 233; 8364; 0xd83d; 0xde00; 0xd800; 0xdc00 - 1])
    by (repeat (constructor; try (unfold is_unit; lia))).
  split; [exact H | exact (wtf8_roundtrip _ H)].
Defined.
