(* ===== verification/Json.v ===== *)
(** * JSON values and canonical JSON text ([canonical-json.ts])

    [JSON.parse], [JSON.stringify], [TextDecoder], [TextEncoder] and
    [Number::toString] are the language's; the parts the source reaches are
    written out here, so the canonical encoding runs. *)

From Stdlib Require Import ZArith Lia String Sorted.
From stdpp Require Import base list option.
From S2P Require Import Prelude JsMap Wtf8.

#[local] Set Warnings "-register-all".

(** A number is the 64-bit pattern of its double; an object lists its own
    properties in insertion order. *)
Inductive json :=
  | JNull
  | JBool (b : bool)
  | JNumber (bits : Z)
  | JString (s : list Z)
  | JArray (l : list json)
  | JObject (m : list (list Z * json)).

(** The values [JSON.parse] builds and the codecs carry. *)
Inductive wf_json : json -> Prop :=
  | wf_null : wf_json JNull
  | wf_bool b : wf_json (JBool b)
  | wf_number bits : 0 <= bits < 2 ^ 64 -> wf_json (JNumber bits)
  | wf_string s : is_jsstr s -> wf_json (JString s)
  | wf_array l : Forall wf_json l -> wf_json (JArray l)
  | wf_object m : jwf m -> Forall (fun p => is_jsstr (fst p) /\ wf_json (snd p)) m -> wf_json (JObject m).

(** ** Doubles *)

Definition f64_exponent (bits : Z) : Z := (bits / 2 ^ 52) mod 2048.
Definition f64_mantissa (bits : Z) : Z := bits mod 2 ^ 52.
Definition f64_negative (bits : Z) : bool := 2 ^ 63 <=? bits.
Definition f64_infinity : Z := 2047 * 2 ^ 52.

(** [Number.isFinite] *)
Definition f64_isFinite (bits : Z) : bool := negb (f64_exponent bits =? 2047).

(** The magnitude of a finite double is [significand * 2 ^ scale]. *)
Definition f64_significand (bits : Z) : Z :=
  if f64_exponent bits =? 0 then f64_mantissa bits else 2 ^ 52 + f64_mantissa bits.
Definition f64_scale (bits : Z) : Z :=
  if f64_exponent bits =? 0 then -1074 else f64_exponent bits - 1075.

(** The double nearest to the positive rational [num / den], ties to even. *)
Definition f64_round (num den : Z) : Z :=
  let k0 := Z.log2 num - Z.log2 den in
  let k := if num * 2 ^ Z.max 0 (- k0) <? den * 2 ^ Z.max 0 k0 then k0 - 1 else k0 in
  let ex := Z.max (k - 52) (-1074) in
  let n' := num * 2 ^ Z.max 0 (- ex) in
  let d' := den * 2 ^ Z.max 0 ex in
  let q := n' / d' in
  let r := n' mod d' in
  let up := (d' <? 2 * r) || ((2 * r =? d') && Z.odd q) in
  let bits := (ex + 1074) * 2 ^ 52 + (if up then q + 1 else q) in
  Z.min bits f64_infinity.

(** ** [Number::toString] *)

Fixpoint digits_of (fuel : nat) (n : Z) (acc : list Z) : list Z :=
  match fuel with
  | O => acc
  | S fuel' => if n <? 10 then (48 + n) :: acc else digits_of fuel' (n / 10) ((48 + n mod 10) :: acc)
  end.

(** Decimal digits of a natural number below [2 ^ 64]. *)
Definition decimal (n : Z) : list Z := digits_of 20 n [].

(** [v < 10 ^ n] for the positive rational [v = num / den]. *)
Definition below_pow10 (num den n : Z) : bool :=
  num * 10 ^ Z.max 0 (- n) <? den * 10 ^ Z.max 0 n.

(** The least [n >= start] with [v < 10 ^ n]. *)
Fixpoint decimal_point (fuel : nat) (num den start : Z) : Z :=
  match fuel with
  | O => start
  | S fuel' => if below_pow10 num den start then start else decimal_point fuel' num den (start + 1)
  end.

(** The shortest decimal [s * 10 ^ (n - k)] that rounds to the double, the
    closest to it when several have [k] digits; seventeen digits always do. *)
Fixpoint shortest (fuel : nat) (k bits num den n : Z) : Z * Z :=
  let scale := n - k in
  let sn := num * 10 ^ Z.max 0 (- scale) in
  let sd := den * 10 ^ Z.max 0 scale in
  let s0 := sn / sd in
  let rounds s := (0 <? s) &&
    (f64_round (s * 10 ^ Z.max 0 scale) (10 ^ Z.max 0 (- scale)) =? bits) in
  let near_low := 2 * (sn mod sd) <? sd in
  let pick :=
    if rounds s0 && rounds (s0 + 1) then Some (if near_low then s0 else s0 + 1)
    else if rounds s0 then Some s0
    else if rounds (s0 + 1) then Some (s0 + 1)
    else None in
  match pick, fuel with
  | Some s, _ => (s, scale)
  | None, S fuel' => shortest fuel' (k + 1) bits num den n
  | None, O => (s0, scale)
  end.

Fixpoint strip_zeros (fuel : nat) (s scale : Z) : Z * Z :=
  match fuel with
  | O => (s, scale)
  | S fuel' => if (0 <? s) && (s mod 10 =? 0) then strip_zeros fuel' (s / 10) (scale + 1) else (s, scale)
  end.

Definition zeros (n : Z) : list Z := replicate (Z.to_nat n) 48.

Definition exponent_text (e : Z) : list Z :=
  (if 0 <=? e then [101; 43] else [101; 45]) ++ decimal (Z.abs e).

(** The digits of a nonzero finite double, as [s * 10 ^ scale]. *)
Definition number_digits (bits : Z) : Z * Z :=
  let m := f64_significand bits in
  let num := m * 2 ^ Z.max 0 (f64_scale bits) in
  let den := 2 ^ Z.max 0 (- f64_scale bits) in
  let guess := (Z.log2 m + f64_scale bits) * 30103 / 100000 - 1 in
  let n0 := decimal_point 6 num den guess in
  let '(s0, scale0) := shortest 16 1 (bits mod 2 ^ 63) num den n0 in
  strip_zeros 20 s0 scale0.

(** The digits [ds] with the decimal point after the first [n]. *)
Definition number_layout (ds : list Z) (n : Z) : list Z :=
  if (zlen ds <=? n) && (n <=? 21) then ds ++ zeros (n - zlen ds)
  else if (0 <? n) && (n <=? 21) then take (Z.to_nat n) ds ++ [46] ++ drop (Z.to_nat n) ds
  else if (-6 <? n) && (n <=? 0) then [48; 46] ++ zeros (- n) ++ ds
  else match ds with
       | [d] => d :: exponent_text (n - 1)
       | d :: ds' => d :: 46 :: ds' ++ exponent_text (n - 1)
       | [] => []
       end.

Definition number_text (bits : Z) : list Z :=
  if f64_significand bits =? 0 then [48]
  else
    let '(s, scale) := number_digits bits in
    let ds := decimal s in
    let body := number_layout ds (scale + zlen ds) in
    if f64_negative bits then 45 :: body else body.

(** ** Sorting *)

Section sort.
Context {A : Type}.

Fixpoint insert_entry (p : list Z * A) (l : list (list Z * A)) : list (list Z * A) :=
  match l with
  | [] => [p]
  | q :: l' => if str_leb (fst p) (fst q) then p :: l else q :: insert_entry p l'
  end.

(** [Object.keys(value).sort()], each key with its value. *)
Definition sort_entries (m : list (list Z * A)) : list (list Z * A) := foldr insert_entry [] m.

Definition sorted_entries (m : list (list Z * A)) : Prop :=
  StronglySorted (fun p q => str_le (fst p) (fst q)) m.

Lemma insert_entry_perm p l : insert_entry p l ≡ₚ p :: l.
Proof.
  induction l as [| q l IH]; cbn; [done |]. destruct (str_leb _ _); [done |].
  rewrite IH. apply Permutation_swap.
Qed.

Lemma sort_entries_perm m : sort_entries m ≡ₚ m.
Proof. induction m as [| p m IH]; cbn; [done |]. by rewrite insert_entry_perm, IH. Qed.

Lemma insert_entry_sorted p l : sorted_entries l -> sorted_entries (insert_entry p l).
Proof.
  unfold sorted_entries. induction 1 as [| q l Hs IH Hq]; cbn; [repeat constructor |].
  destruct (str_leb (fst p) (fst q)) eqn:E.
  - constructor; [by constructor |]. constructor; [done |].
    apply Forall_elem. intros x Hx. pose proof (proj1 (Forall_elem _ _) Hq x Hx) as Hqx. by transitivity (fst q).
  - constructor; [done |]. apply Forall_elem. intros x Hx.
    rewrite insert_entry_perm in Hx. apply elem_of_cons in Hx as [-> | Hx].
    + destruct (str_le_total (fst p) (fst q)) as [H | H]; [| done]. unfold str_le in H. congruence.
    + by apply (proj1 (Forall_elem _ _) Hq).
Qed.

Lemma sort_entries_sorted m : sorted_entries (sort_entries m).
Proof. induction m; cbn; [constructor | by apply insert_entry_sorted]. Qed.

Lemma sort_entries_id m : sorted_entries m -> sort_entries m = m.
Proof.
  induction 1 as [| p m Hs IH Hp]; [done |]. change (insert_entry p (sort_entries m) = p :: m).
  rewrite IH. destruct m as [| q m]; [done |]. cbn. apply list.Forall_cons in Hp as [Hp _].
  unfold str_le in Hp. by rewrite Hp.
Qed.

Lemma sort_entries_idem m : sort_entries (sort_entries m) = sort_entries m.
Proof. apply sort_entries_id, sort_entries_sorted. Qed.

Lemma jkeys_perm (m1 m2 : list (list Z * A)) : m1 ≡ₚ m2 -> jkeys m1 ≡ₚ jkeys m2.
Proof. unfold jkeys. intros H. by rewrite H. Qed.

Lemma sort_entries_wf m : jwf m -> jwf (sort_entries m).
Proof. unfold jwf. intros. by rewrite (jkeys_perm _ _ (sort_entries_perm m)). Qed.

Lemma jget_perm k (m1 m2 : list (list Z * A)) : jwf m1 -> m1 ≡ₚ m2 -> jget k m1 = jget k m2.
Proof.
  intros Hw Hp. assert (Hw2 : jwf m2) by (unfold jwf in *; by rewrite <- (jkeys_perm _ _ Hp)).
  destruct (jget k m1) as [v |] eqn:E.
  - symmetry. apply jget_of_elem; [done |]. rewrite <- Hp. by apply jget_elem_of.
  - symmetry. apply jget_None. apply jget_None in E. by rewrite <- (jkeys_perm _ _ Hp).
Qed.

Lemma jget_sort_entries k m : jwf m -> jget k (sort_entries m) = jget k m.
Proof. intros. symmetry. apply jget_perm; [done |]. symmetry. apply sort_entries_perm. Qed.
End sort.

Definition map_snd {A B} (f : A -> B) (p : list Z * A) : list Z * B := (fst p, f (snd p)).

Lemma sort_entries_map {A B} (f : A -> B) m :
  sort_entries (map (map_snd f) m) = map (map_snd f) (sort_entries m).
Proof.
  assert (Hi : forall p l, insert_entry (map_snd f p) (map (map_snd f) l) = map (map_snd f) (insert_entry p l)).
  { intros p l. induction l as [| q l IH]; cbn; [done |]. destruct (str_leb _ _); cbn; [done |]. by rewrite IH. }
  induction m as [| p m IH]; [done |].
  change (insert_entry (map_snd f p) (sort_entries (map (map_snd f) m)) =
    map (map_snd f) (insert_entry p (sort_entries m))). by rewrite IH, Hi.
Qed.

(** ** Own properties

    [JSON.stringify] and [Object.keys] enumerate array-index keys first, in
    numeric order, then the others in insertion order. *)

Definition is_digit (c : Z) : bool := (48 <=? c) && (c <=? 57).

(** A canonical array index below [2 ^ 32 - 1]. *)
Definition array_index_key (k : list Z) : option Z :=
  match k with
  | [] => None
  | c :: r =>
      if forallb is_digit k && (negb (c =? 48) || (zlen r =? 0)) && (zlen k <=? 10) then
        let n := fold_left (fun acc d => acc * 10 + (d - 48)) k 0 in
        if n <? 2 ^ 32 - 1 then Some n else None
      else None
  end.

Fixpoint insert_index {A} (n : Z) (p : list Z * A) (l : list (Z * (list Z * A))) :=
  match l with
  | [] => [(n, p)]
  | (n', p') :: l' => if n <=? n' then (n, p) :: l else (n', p') :: insert_index n p l'
  end.

Definition own_properties {A} (m : list (list Z * A)) : list (list Z * A) :=
  let indexed := foldr (fun p acc => match array_index_key (fst p) with
                                     | Some n => insert_index n p acc
                                     | None => acc
                                     end) [] m in
  map snd indexed ++
  List.filter (fun p => match array_index_key (fst p) with Some _ => false | None => true end) m.

(** ** [JSON.stringify] *)

Definition hex_digit (n : Z) : Z := if n <? 10 then 48 + n else 87 + n.
Definition hex4 (u : Z) : list Z :=
  [hex_digit (u / 4096); hex_digit ((u / 256) mod 16); hex_digit ((u / 16) mod 16); hex_digit (u mod 16)].

(** [QuoteJSONString]: short escapes, [\u] for other controls and for
    surrogates without a partner. *)
Fixpoint quote_body (s : list Z) : list Z :=
  match s with
  | [] => []
  | c :: r =>
      if c =? 34 then [92; 34] ++ quote_body r
      else if c =? 92 then [92; 92] ++ quote_body r
      else if c =? 8 then [92; 98] ++ quote_body r
      else if c =? 9 then [92; 116] ++ quote_body r
      else if c =? 10 then [92; 110] ++ quote_body r
      else if c =? 12 then [92; 102] ++ quote_body r
      else if c =? 13 then [92; 114] ++ quote_body r
      else if c <? 32 then [92; 117] ++ hex4 c ++ quote_body r
      else if is_high c then
        match r with
        | d :: r' => if is_low d then c :: d :: quote_body r' else [92; 117] ++ hex4 c ++ quote_body r
        | [] => [92; 117] ++ hex4 c
        end
      else if is_low c then [92; 117] ++ hex4 c ++ quote_body r
      else c :: quote_body r
  end.

Definition quote (s : list Z) : list Z := [34] ++ quote_body s ++ [34].

Fixpoint join_comma (l : list (list Z)) : list Z :=
  match l with
  | [] => []
  | [x] => x
  | x :: l' => x ++ [44] ++ join_comma l'
  end.

Fixpoint stringify (v : json) : list Z :=
  match v with
  | JNull => js "null"
  | JBool true => js "true"
  | JBool false => js "false"
  | JNumber bits => number_text bits
  | JString s => quote s
  | JArray l => [91] ++ join_comma (map stringify l) ++ [93]
  | JObject m =>
      [123] ++ join_comma (map (fun p => quote (fst p) ++ [58] ++ snd p)
                 (own_properties (map (map_snd stringify) m))) ++ [125]
  end.

(** ** Canonical JSON *)

(** [sortJSON] without its test on numbers: what it builds when it does not
    throw. *)
Fixpoint canon (v : json) : json :=
  match v with
  | JArray l => JArray (map canon l)
  | JObject m => JObject (sort_entries (map (map_snd canon) m))
  | _ => v
  end.

(** [sortJSON] throws on the first number that is not finite. *)
Fixpoint finite_json (v : json) : bool :=
  match v with
  | JNumber bits => f64_isFinite bits
  | JArray l => forallb finite_json l
  | JObject m => forallb (fun p => finite_json (snd p)) m
  | _ => true
  end.

Definition sortJSON (v : json) : result json :=
  guard! finite_json v else TypeError "Radio JSON numbers must be finite" in Ok (canon v).

Definition canonicalJSON (v : json) : result (list Z) :=
  let! sorted := sortJSON v in Ok (stringify sorted).

(** [new TextEncoder().encode(...)]: the text of [JSON.stringify] has no lone
    surrogate, where WTF-8 and UTF-8 differ. *)
Definition encodeCanonicalJSON (v : json) : result (list Z) :=
  let! text := canonicalJSON v in Ok (encodeBinaryUtf8 text).

(** ** [JSON.parse] *)

Definition is_json_space (c : Z) : bool := (c =? 32) || (c =? 9) || (c =? 10) || (c =? 13).

Fixpoint skip_space (s : list Z) : list Z :=
  match s with
  | c :: r => if is_json_space c then skip_space r else s
  | [] => []
  end.

Definition hex_value (c : Z) : option Z :=
  if is_digit c then Some (c - 48)
  else if (97 <=? c) && (c <=? 102) then Some (c - 87)
  else if (65 <=? c) && (c <=? 70) then Some (c - 55)
  else None.

Definition simple_escape (c : Z) : option Z :=
  if c =? 34 then Some 34 else if c =? 92 then Some 92 else if c =? 47 then Some 47
  else if c =? 98 then Some 8 else if c =? 102 then Some 12 else if c =? 110 then Some 10
  else if c =? 114 then Some 13 else if c =? 116 then Some 9 else None.

(** The characters after the opening quote. *)
Fixpoint parse_string (s : list Z) : option (list Z * list Z) :=
  match s with
  | [] => None
  | c :: r =>
      if c =? 34 then Some ([], r)
      else if c =? 92 then
        match r with
        | [] => None
        | e :: r1 =>
            if e =? 117 then
              match r1 with
              | h1 :: h2 :: h3 :: h4 :: r2 =>
                  match hex_value h1, hex_value h2, hex_value h3, hex_value h4, parse_string r2 with
                  | Some a, Some b, Some c', Some d, Some (tail, rest) =>
                      Some (a * 4096 + b * 256 + c' * 16 + d :: tail, rest)
                  | _, _, _, _, _ => None
                  end
              | _ => None
              end
            else
              match simple_escape e, parse_string r1 with
              | Some u, Some (tail, rest) => Some (u :: tail, rest)
              | _, _ => None
              end
        end
      else if c <? 32 then None
      else match parse_string r with Some (tail, rest) => Some (c :: tail, rest) | None => None end
  end.

(** A run of digits: its value, its length and what follows. *)
Fixpoint parse_digits (s : list Z) (value count : Z) : Z * Z * list Z :=
  match s with
  | c :: r => if is_digit c then parse_digits r (value * 10 + (c - 48)) (count + 1) else (value, count, s)
  | [] => (value, count, [])
  end.

(** The double of [digits * 10 ^ e], where [digits] has [count] digits. *)
Definition decimal_value (digits count e : Z) : Z :=
  if digits =? 0 then 0
  else if 310 <? count + e then f64_infinity
  else if count + e <? -400 then 0
  else f64_round (digits * 10 ^ Z.max 0 e) (10 ^ Z.max 0 (- e)).

Definition parse_exponent (s : list Z) : option (Z * list Z) :=
  match s with
  | c :: r =>
      if (c =? 101) || (c =? 69) then
        let '(negative, r') := match r with
          | d :: r1 => if d =? 45 then (true, r1) else if d =? 43 then (false, r1) else (false, r)
          | [] => (false, r)
          end in
        let '(e, count, rest) := parse_digits r' 0 0 in
        if count =? 0 then None else Some ((if negative then - e else e), rest)
      else Some (0, s)
  | [] => Some (0, s)
  end.

Definition parse_number (s : list Z) : option (json * list Z) :=
  let '(negative, s1) := match s with
    | c :: r => if c =? 45 then (true, r) else (false, s)
    | [] => (false, s)
    end in
  let '(int, count, s2) := parse_digits s1 0 0 in
  let leading_zero := match s1 with c :: _ => (c =? 48) && (1 <? count) | [] => false end in
  if (count =? 0) || leading_zero then None
  else
    let fraction := match s2 with
      | c :: r =>
          if c =? 46 then
            let '(frac, fcount, s3) := parse_digits r int 0 in
            if fcount =? 0 then None else Some (frac, fcount, s3)
          else Some (int, 0, s2)
      | [] => Some (int, 0, s2)
      end in
    match fraction with
    | None => None
    | Some (digits, fcount, s3) =>
        match parse_exponent s3 with
        | None => None
        | Some (e, rest) =>
            let bits := decimal_value digits (count + fcount) (e - fcount) in
            Some (JNumber (if negative then 2 ^ 63 + bits else bits), rest)
        end
    end.

Fixpoint strip_prefix (p s : list Z) : option (list Z) :=
  match p, s with
  | [], _ => Some s
  | a :: p', b :: s' => if a =? b then strip_prefix p' s' else None
  | _, _ => None
  end.

Section parse_nested.
Context (parse : list Z -> option (json * list Z)).

(** The elements of an array, after its bracket. *)
Fixpoint parse_elements (n : nat) (s : list Z) : option (list json * list Z) :=
  match n with
  | O => None
  | S n' =>
      match parse s with
      | None => None
      | Some (v, r) =>
          match skip_space r with
          | c :: r' =>
              if c =? 93 then Some ([v], r')
              else if c =? 44 then
                match parse_elements n' r' with Some (vs, rest) => Some (v :: vs, rest) | None => None end
              else None
          | [] => None
          end
      end
  end.

(** The members of an object, after its brace; a repeated key keeps its
    place and takes the last value. *)
Fixpoint parse_members (n : nat) (acc : list (list Z * json)) (s : list Z)
    : option (list (list Z * json) * list Z) :=
  match n with
  | O => None
  | S n' =>
      match skip_space s with
      | q :: r =>
          if q =? 34 then
            match parse_string r with
            | None => None
            | Some (key, r1) =>
                match skip_space r1 with
                | colon :: r2 =>
                    if colon =? 58 then
                      match parse r2 with
                      | None => None
                      | Some (v, r3) =>
                          match skip_space r3 with
                          | c :: r4 =>
                              if c =? 125 then Some (jset key v acc, r4)
                              else if c =? 44 then parse_members n' (jset key v acc) r4
                              else None
                          | [] => None
                          end
                      end
                    else None
                | [] => None
                end
            end
          else None
      | [] => None
      end
  end.
End parse_nested.

(** Every nested value starts after at least one character, so a fuel above
    the length of the text never runs out. *)
Fixpoint parse_value (fuel : nat) (s : list Z) : option (json * list Z) :=
  match fuel with
  | O => None
  | S fuel' =>
      match skip_space s with
      | [] => None
      | c :: r =>
          if c =? 34 then
            match parse_string r with Some (str, rest) => Some (JString str, rest) | None => None end
          else if c =? 91 then
            match skip_space r with
            | d :: r' =>
                if d =? 93 then Some (JArray [], r')
                else match parse_elements (parse_value fuel') fuel' r with Some (vs, rest) => Some (JArray vs, rest) | None => None end
            | [] => None
            end
          else if c =? 123 then
            match skip_space r with
            | d :: r' =>
                if d =? 125 then Some (JObject [], r')
                else match parse_members (parse_value fuel') fuel' [] r with Some (m, rest) => Some (JObject m, rest) | None => None end
            | [] => None
            end
          else if (c =? 45) || is_digit c then parse_number (c :: r)
          else
            match strip_prefix (js "null") (c :: r), strip_prefix (js "true") (c :: r),
                  strip_prefix (js "false") (c :: r) with
            | Some rest, _, _ => Some (JNull, rest)
            | _, Some rest, _ => Some (JBool true, rest)
            | _, _, Some rest => Some (JBool false, rest)
            | _, _, _ => None
            end
      end
  end.

Definition JSON_parse (text : list Z) : result json :=
  match parse_value (S (length text)) text with
  | Some (v, rest) =>
      match skip_space rest with
      | [] => Ok v
      | _ => Throw (SyntaxError "JSON.parse")
      end
  | None => Throw (SyntaxError "JSON.parse")
  end.

(** [new TextDecoder("utf-8", { fatal: true }).decode]: a byte-order mark is
    dropped; UTF-8 differs from WTF-8 by refusing encoded surrogates, whose
    lead byte is [0xed] followed by [0xa0] or more. *)
Fixpoint encoded_surrogate (bs : list Z) : bool :=
  match bs with
  | a :: ((b :: _) as r) => ((a =? 0xed) && (0xa0 <=? b)) || encoded_surrogate r
  | _ => false
  end.

Definition strip_bom (bs : list Z) : list Z :=
  match bs with
  | a :: b :: c :: r => if (a =? 0xef) && (b =? 0xbb) && (c =? 0xbf) then r else bs
  | _ => bs
  end.

Definition TextDecoder_decode (bs : list Z) : result (list Z) :=
  let bs' := strip_bom bs in
  guard! negb (encoded_surrogate bs') else TypeError "The encoded data was not valid" in
  decodeBinaryUtf8 bs'.

Definition decodeJSON (bs : list Z) : result json :=
  let! text := TextDecoder_decode bs in JSON_parse text.

(** ** Induction and well-formedness *)

Section json_ind'.
Context (P : json -> Prop).
Context (P_null : P JNull) (P_bool : forall b, P (JBool b)) (P_number : forall bits, P (JNumber bits))
  (P_string : forall s, P (JString s)).
Context (P_array : forall l, Forall P l -> P (JArray l)).
Context (P_object : forall m, Forall (fun p => P (snd p)) m -> P (JObject m)).

Fixpoint json_ind' (v : json) : P v :=
  match v with
  | JNull => P_null
  | JBool b => P_bool b
  | JNumber bits => P_number bits
  | JString s => P_string s
  | JArray l =>
      P_array l ((fix go (l : list json) : Forall P l :=
        match l with
        | [] => @List.Forall_nil _ P
        | x :: l' => @List.Forall_cons _ P x _ (json_ind' x) (go l')
        end) l)
  | JObject m =>
      P_object m ((fix go (m : list (list Z * json)) : Forall (fun p => P (snd p)) m :=
        match m with
        | [] => @List.Forall_nil _ _
        | p :: m' => @List.Forall_cons _ (fun p => P (snd p)) p _ (json_ind' (snd p)) (go m')
        end) m)
  end.
End json_ind'.

Lemma jkeys_map_snd {A B} (f : A -> B) (m : list (list Z * A)) : jkeys (map (map_snd f) m) = jkeys m.
Proof. unfold jkeys. rewrite map_map. done. Qed.

Lemma Forall_sort_entries {A} (P : list Z * A -> Prop) m : Forall P m -> Forall P (sort_entries m).
Proof. intros H. by rewrite (sort_entries_perm m). Qed.

Lemma map_Forall_ext {A B} (f g : A -> B) l : Forall (fun x => f x = g x) l -> map f l = map g l.
Proof. induction 1 as [| x l Hx _ IH]; cbn; [done |]. by rewrite Hx, IH. Qed.

Lemma canon_idem v : canon (canon v) = canon v.
Proof.
  induction v as [| | | | l IH | m IH] using json_ind'; cbn; try done.
  - f_equal. rewrite map_map. by apply map_Forall_ext.
  - f_equal. rewrite <- sort_entries_map, map_map, sort_entries_idem. f_equal.
    apply map_Forall_ext. apply (Forall_weaken _ _ _ IH). intros p Hp.
    unfold map_snd. cbn. by rewrite Hp.
Qed.

Lemma forallb_perm {A} (f : A -> bool) (l k : list A) : l ≡ₚ k -> forallb f l = forallb f k.
Proof.
  induction 1; cbn; [done | by f_equal | | by etransitivity].
  by rewrite !andb_assoc, (andb_comm (f y)).
Qed.

Lemma forallb_map_ext {A B} (f : A -> B) (g : B -> bool) (h : A -> bool) l :
  Forall (fun x => g (f x) = h x) l -> forallb g (map f l) = forallb h l.
Proof. induction 1 as [| x l Hx _ IH]; cbn; [done |]. by rewrite Hx, IH. Qed.

Lemma finite_canon v : finite_json (canon v) = finite_json v.
Proof.
  induction v as [| | | | l IH | m IH] using json_ind'; cbn; try done.
  - by apply forallb_map_ext.
  - rewrite (forallb_perm _ _ _ (sort_entries_perm _)). by apply forallb_map_ext.
Qed.

Lemma wf_canon v : wf_json v -> wf_json (canon v).
Proof.
  induction v as [| | | | l IH | m IH] using json_ind'; cbn; intros Hv; try done; inversion Hv; subst.
  - constructor. rewrite Forall_map.
    match goal with H : Forall wf_json l |- _ => revert H IH end.
    clear. induction l as [| x l IHl]; [constructor |].
    rewrite !list.Forall_cons. intros [? ?] [? ?]. auto.
  - constructor.
    + apply sort_entries_wf. unfold jwf. rewrite jkeys_map_snd. done.
    + apply Forall_sort_entries. rewrite Forall_map.
      match goal with H : Forall (fun p => _ /\ _) m |- _ => revert H IH end.
      clear. induction m as [| x m IHl]; [constructor |].
      rewrite !list.Forall_cons. intros [[? ?] ?] [? ?]. cbn. auto.
Qed.

Lemma encodeCanonicalJSON_canon v : encodeCanonicalJSON (canon v) = encodeCanonicalJSON v.
Proof.
  unfold encodeCanonicalJSON, canonicalJSON, sortJSON. rewrite finite_canon, canon_idem. done.
Qed.

Lemma encodeCanonicalJSON_finite v bs : encodeCanonicalJSON v = Ok bs -> finite_json v = true.
Proof.
  unfold encodeCanonicalJSON, canonicalJSON, sortJSON. intros H. by destruct (finite_json v).
Qed.

(** *** What [JSON.parse] builds is well formed *)

Lemma f64_round_range num den : 0 <= num -> 0 < den -> 0 <= f64_round num den <= f64_infinity.
Proof.
  intros Hn Hd. unfold f64_round.
  set (k := if _ <? _ then _ else _). set (ex := Z.max (k - 52) (-1074)).
  set (n' := num * 2 ^ Z.max 0 (- ex)). set (d' := den * 2 ^ Z.max 0 ex).
  assert (0 < d') by (unfold d'; apply Z.mul_pos_pos; [lia | apply Z.pow_pos_nonneg; lia]).
  assert (0 <= n') by (unfold n'; apply Z.mul_nonneg_nonneg; [lia | apply Z.pow_nonneg; lia]).
  assert (0 <= n' / d') by (apply Z.div_pos; lia).
  assert (0 <= (ex + 1074) * 2 ^ 52) by (apply Z.mul_nonneg_nonneg; unfold ex; lia).
  assert (0 <= f64_infinity) by (unfold f64_infinity; lia).
  destruct (_ || _); lia.
Qed.

Lemma skip_space_units s : is_jsstr s -> is_jsstr (skip_space s).
Proof.
  induction s as [| c s IH]; cbn; [done |]. unfold is_jsstr in *. intros H. pose proof H as H'.
  apply list.Forall_cons in H' as [? ?]. destruct (is_json_space c); auto.
Qed.

Lemma parse_digits_spec s : forall value count v n rest,
  is_jsstr s -> 0 <= value -> 0 <= count -> parse_digits s value count = (v, n, rest) ->
  is_jsstr rest /\ 0 <= v /\ 0 <= n.
Proof.
  induction s as [| c s IH]; cbn; intros value count v n rest Hs Hv Hc E.
  - by injection E as <- <- <-.
  - destruct (is_digit c) eqn:Ed; [| by injection E as <- <- <-].
    apply list.Forall_cons in Hs as [? ?].
    unfold is_digit in Ed. reflect_tests. apply IH in E; [done | done | lia | lia].
Qed.

Lemma decimal_value_range digits count e :
  0 <= digits -> 0 <= decimal_value digits count e <= f64_infinity.
Proof.
  intros. unfold decimal_value.
  assert (0 <= f64_infinity) by (unfold f64_infinity; lia).
  destruct (digits =? 0); [lia |]. destruct (_ <? _); [lia |]. destruct (_ <? _); [lia |].
  apply f64_round_range; [apply Z.mul_nonneg_nonneg; [lia | apply Z.pow_nonneg; lia] |].
  apply Z.pow_pos_nonneg; lia.
Qed.

Lemma parse_exponent_units s e rest :
  is_jsstr s -> parse_exponent s = Some (e, rest) -> is_jsstr rest.
Proof.
  unfold parse_exponent. intros Hs. destruct s as [| c r]; [by intros [= <- <-] |].
  destruct (_ || _); [| by intros [= <- <-]].
  apply list.Forall_cons in Hs as [_ Hr].
  assert (Hs : forall (neg : bool) r', is_jsstr r' ->
    (let '(e, count, rest) := parse_digits r' 0 0 in
     if count =? 0 then None else Some ((if neg then - e else e), rest)) = Some (e, rest) -> is_jsstr rest).
  { intros neg r' Hr'. destruct (parse_digits r' 0 0) as [[e' n] rest'] eqn:E.
    apply parse_digits_spec in E; [| done | lia | lia]. destruct (n =? 0); [done |]. intros [= _ <-]. tauto. }
  destruct r as [| d r1]; [by apply (Hs false) |].
  apply list.Forall_cons in Hr as Hr1. destruct Hr1 as [_ Hr1].
  destruct (d =? 45); [by apply (Hs true) |].
  destruct (d =? 43); [by apply (Hs false) | by apply (Hs false)].
Qed.

Lemma parse_number_spec s v rest :
  is_jsstr s -> parse_number s = Some (v, rest) -> wf_json v /\ is_jsstr rest.
Proof.
  unfold parse_number. intros Hs.
  set (sign := match s with [] => _ | c :: r => _ end).
  assert (Hsign : is_jsstr (snd sign)).
  { unfold sign. destruct s as [| c r]; [done |]. apply list.Forall_cons in Hs as Hs'. by destruct Hs', (c =? 45). }
  destruct sign as [negative s1]. cbn in Hsign.
  destruct (parse_digits s1 0 0) as [[int count] s2] eqn:E1.
  apply parse_digits_spec in E1 as (Hs2 & Hint & Hcount); [| done | lia | lia].
  destruct (_ || _); [done |].
  set (fraction := match s2 with [] => _ | c :: r => _ end).
  assert (Hf : forall d n s3, fraction = Some (d, n, s3) -> is_jsstr s3 /\ 0 <= d).
  { unfold fraction. destruct s2 as [| c r]; [by intros ? ? ? [= <- <- <-] |].
    destruct (c =? 46); [| by intros ? ? ? [= <- <- <-]].
    apply list.Forall_cons in Hs2 as [_ Hr].
    destruct (parse_digits r int 0) as [[frac fcount] s3'] eqn:E.
    apply parse_digits_spec in E as (? & ? & _); [| done | lia | lia].
    destruct (fcount =? 0); [done |]. by intros ? ? ? [= <- <- <-]. }
  destruct fraction as [[[d n] s3] |]; [| done].
  destruct (Hf _ _ _ eq_refl) as [Hs3 Hd].
  destruct (parse_exponent s3) as [[e rest'] |] eqn:Ee; [| done].
  apply parse_exponent_units in Ee; [| done].
  intros [= <- <-]. split; [| done]. constructor.
  pose proof (decimal_value_range d (count + n) (e - n) Hd) as Hr. revert Hr.
  unfold f64_infinity. destruct negative; lia.
Qed.

Lemma hex_value_range c d : hex_value c = Some d -> 0 <= d < 16.
Proof.
  unfold hex_value, is_digit. repeat case_match; intros [= <-]; reflect_tests; lia.
Qed.

Lemma simple_escape_unit c u : simple_escape c = Some u -> is_unit u.
Proof. unfold simple_escape, is_unit. repeat case_match; intros [= <-]; lia. Qed.

Lemma parse_string_units n s : (length s < n)%nat -> is_jsstr s -> forall str rest,
  parse_string s = Some (str, rest) -> is_jsstr str /\ is_jsstr rest.
Proof.
  revert s. induction n as [| n IH]; intros s Hn Hs str rest; [lia |].
  destruct s as [| c r]; [done |]. apply list.Forall_cons in Hs as [Hc Hr]. cbn in Hn |- *.
  destruct (c =? 34); [intros [= <- <-]; split; [constructor | done] |].
  destruct (c =? 92).
  - destruct r as [| e r1]; [done |]. apply list.Forall_cons in Hr as [He Hr]. cbn in Hn.
    destruct (e =? 117).
    + destruct r1 as [| h1 [| h2 [| h3 [| h4 r2]]]]; try done.
      repeat (apply list.Forall_cons in Hr as [? Hr]). cbn in Hn.
      destruct (hex_value h1) eqn:V1, (hex_value h2) eqn:V2, (hex_value h3) eqn:V3, (hex_value h4) eqn:V4;
        try done.
      destruct (parse_string r2) as [[tail rest'] |] eqn:E; [| done].
      apply IH in E as [? ?]; [| lia | done]. intros [= <- <-]. split; [| done].
      constructor; [| done]. apply hex_value_range in V1, V2, V3, V4. unfold is_unit. lia.
    + destruct (simple_escape e) eqn:Ee; [| done].
      destruct (parse_string r1) as [[tail rest'] |] eqn:E; [| done].
      apply IH in E as [? ?]; [| lia | done]. intros [= <- <-]. split; [| done].
      constructor; [by eapply simple_escape_unit | done].
  - destruct (c <? 32); [done |].
    destruct (parse_string r) as [[tail rest'] |] eqn:E; [| done].
    apply IH in E as [? ?]; [| lia | done]. intros [= <- <-]. split; [by constructor | done].
Qed.

Lemma strip_prefix_units p s rest : is_jsstr s -> strip_prefix p s = Some rest -> is_jsstr rest.
Proof.
  revert s. induction p as [| a p IH]; intros s Hs; [by intros [= <-] |].
  destruct s as [| b s]; [done |]. cbn. apply list.Forall_cons in Hs as [_ Hs].
  destruct (a =? b); [by apply IH | done].
Qed.

(** A parser that only builds well-formed values and leaves text. *)
Definition parses_wf (parse : list Z -> option (json * list Z)) : Prop :=
  forall s v rest, is_jsstr s -> parse s = Some (v, rest) -> wf_json v /\ is_jsstr rest.

Lemma skip_space_cons s c r : is_jsstr s -> skip_space s = c :: r -> is_jsstr r.
Proof. intros Hs%skip_space_units E. rewrite E in Hs. apply list.Forall_cons in Hs. apply Hs. Qed.

Lemma wf_jset k v m :
  is_jsstr k -> wf_json v -> wf_json (JObject m) -> wf_json (JObject (jset k v m)).
Proof.
  intros Hk Hv Hm. inversion Hm as [| | | | | ? Hw Hall]; subst. constructor; [by apply jset_wf |].
  clear Hm Hw. induction Hall as [| [k' v'] m [? ?] Hm IH]; cbn; [by repeat constructor |].
  case_decide; subst; constructor; auto.
Qed.

Lemma parse_elements_wf parse n : parses_wf parse -> forall s vs rest,
  is_jsstr s -> parse_elements parse n s = Some (vs, rest) -> Forall wf_json vs /\ is_jsstr rest.
Proof.
  intros Hp. induction n as [| n IH]; cbn; intros s vs rest Hs; [done |].
  destruct (parse s) as [[v r] |] eqn:E; [| done]. apply Hp in E as [Hv Hr]; [| done].
  destruct (skip_space r) as [| c r'] eqn:Er; [done |]. apply skip_space_cons in Er; [| done].
  destruct (c =? 93); [intros [= <- <-]; repeat constructor; done |]. destruct (c =? 44); [| done].
  destruct (parse_elements parse n r') as [[vs' rest'] |] eqn:E'; [| done].
  apply IH in E' as [? ?]; [| done]. intros [= <- <-]. auto.
Qed.

Lemma parse_members_wf parse n : parses_wf parse -> forall acc s m rest,
  is_jsstr s -> wf_json (JObject acc) -> parse_members parse n acc s = Some (m, rest) ->
  wf_json (JObject m) /\ is_jsstr rest.
Proof.
  intros Hp. induction n as [| n IH]; cbn; intros acc s m rest Hs Hacc; [done |].
  destruct (skip_space s) as [| q r] eqn:Eq; [done |]. apply skip_space_cons in Eq; [| done].
  destruct (q =? 34); [| done].
  destruct (parse_string r) as [[key r1] |] eqn:Ek; [| done].
  apply (parse_string_units (S (length r))) in Ek as [Hkey Hr1]; [| lia | done].
  destruct (skip_space r1) as [| colon r2] eqn:Ec; [done |]. apply skip_space_cons in Ec; [| done].
  destruct (colon =? 58); [| done].
  destruct (parse r2) as [[v r3] |] eqn:E; [| done]. apply Hp in E as [Hv Hr3]; [| done].
  destruct (skip_space r3) as [| c r4] eqn:E4; [done |]. apply skip_space_cons in E4; [| done].
  assert (wf_json (JObject (jset key v acc))) by (apply wf_jset; auto).
  destruct (c =? 125); [by intros [= <- <-] |]. destruct (c =? 44); [| done].
  by apply IH.
Qed.

Lemma parse_value_wf fuel : parses_wf (parse_value fuel).
Proof.
  induction fuel as [| fuel IH]; intros s v rest Hs; [done |]. cbn [parse_value].
  destruct (skip_space s) as [| c r] eqn:E; [done |].
  assert (Hcr : is_jsstr (c :: r)) by (rewrite <- E; by apply skip_space_units).
  pose proof (skip_space_cons _ _ _ Hs E) as Hr.
  destruct (c =? 34).
  { destruct (parse_string r) as [[str rest'] |] eqn:Es; [| done].
    apply (parse_string_units (S (length r))) in Es as [? ?]; [| lia | done].
    intros [= <- <-]. split; [by constructor | done]. }
  destruct (c =? 91).
  { destruct (skip_space r) as [| d r'] eqn:Ed; [done |]. apply skip_space_cons in Ed; [| done].
    destruct (d =? 93); [intros [= <- <-]; split; [by repeat constructor | done] |].
    destruct (parse_elements _ _ r) as [[vs rest'] |] eqn:Ee; [| done].
    apply parse_elements_wf in Ee as [? ?]; [| done | done].
    intros [= <- <-]. split; [by constructor | done]. }
  destruct (c =? 123).
  { assert (wf_json (JObject [])) by (repeat constructor).
    destruct (skip_space r) as [| d r'] eqn:Ed; [done |]. apply skip_space_cons in Ed; [| done].
    destruct (d =? 125); [by intros [= <- <-] |].
    destruct (parse_members _ _ [] r) as [[m rest'] |] eqn:Ee; [| done].
    apply parse_members_wf in Ee as [? ?]; [| done | done | done].
    by intros [= <- <-]. }
  destruct (_ || _); [by apply parse_number_spec |].
  destruct (strip_prefix (js "null") (c :: r)) eqn:E1.
  { intros [= <- <-]. split; [constructor | exact (strip_prefix_units _ _ _ Hcr E1)]. }
  destruct (strip_prefix (js "true") (c :: r)) eqn:E2.
  { intros [= <- <-]. split; [constructor | exact (strip_prefix_units _ _ _ Hcr E2)]. }
  destruct (strip_prefix (js "false") (c :: r)) eqn:E3; [| done].
  intros [= <- <-]. split; [constructor | exact (strip_prefix_units _ _ _ Hcr E3)].
Qed.

Lemma JSON_parse_wf text v : is_jsstr text -> JSON_parse text = Ok v -> wf_json v.
Proof.
  unfold JSON_parse. intros Ht.
  destruct (parse_value _ text) as [[v' rest] |] eqn:E; [| done].
  apply parse_value_wf in E as [? _]; [| done]. destruct (skip_space rest); [| done]. by intros [= <-].
Qed.

Lemma decodeJSON_wf bs v : is_bytes bs -> decodeJSON bs = Ok v -> wf_json v.
Proof.
  intros Hb H. unfold decodeJSON, TextDecoder_decode in H. inv_result.
  eapply JSON_parse_wf; [| exact H]. eapply decodeBinaryUtf8_units; [| exact E].
  destruct bs as [| a' [| b [| c r]]]; try done. cbn. destruct (_ && _); [| done].
  do 3 apply list.Forall_cons in Hb as [_ Hb]. done.
Qed.

(** ** Canonicality *)

(** The same JSON value up to the order of object members, at any depth. *)
Inductive json_equiv : json -> json -> Prop :=
  | equiv_refl v : json_equiv v v
  | equiv_array l1 l2 : Forall2 json_equiv l1 l2 -> json_equiv (JArray l1) (JArray l2)
  | equiv_object m1 m m2 :
      Forall2 (fun p q => fst p = fst q /\ json_equiv (snd p) (snd q)) m1 m -> m ≡ₚ m2 ->
      jwf m1 -> json_equiv (JObject m1) (JObject m2).

Lemma sorted_perm_eq {A} (m1 m2 : list (list Z * A)) :
  jwf m1 -> m1 ≡ₚ m2 -> sorted_entries m1 -> sorted_entries m2 -> m1 = m2.
Proof.
  revert m2. induction m1 as [| p m1 IH]; intros m2 Hw Hp H1 H2.
  - by apply Permutation_nil in Hp as ->.
  - destruct m2 as [| q m2]; [by apply Permutation_sym, Permutation_nil in Hp |].
    unfold jwf, jkeys in Hw. cbn in Hw. apply list.NoDup_cons in Hw as [Hn Hw].
    inversion H1 as [| ? ? Hs1 Hf1]; inversion H2 as [| ? ? Hs2 Hf2]; subst.
    assert (p = q) as ->.
    { assert (Hp1 : p ∈ q :: m2) by (rewrite <- Hp; constructor).
      assert (Hq1 : q ∈ p :: m1) by (rewrite Hp; constructor).
      apply elem_of_cons in Hp1 as [-> | Hp1]; [done |].
      apply elem_of_cons in Hq1 as [-> | Hq1]; [done |].
      assert (Hk : fst p = fst q).
      { apply (anti_symm str_le); [apply (proj1 (Forall_elem _ _) Hf1 q Hq1) | apply (proj1 (Forall_elem _ _) Hf2 p Hp1)]. }
      exfalso. apply Hn. rewrite Hk. apply list_elem_of_fmap. by exists q. }
    f_equal. apply IH; [done | by apply Permutation_cons_inv in Hp | done | done].
Qed.

Lemma jwf_perm {A} (m1 m2 : list (list Z * A)) : m1 ≡ₚ m2 -> jwf m1 -> jwf m2.
Proof. unfold jwf. intros Hp. by rewrite (jkeys_perm _ _ Hp). Qed.

Lemma sort_entries_perm_eq {A} (m1 m2 : list (list Z * A)) :
  jwf m1 -> m1 ≡ₚ m2 -> sort_entries m1 = sort_entries m2.
Proof.
  intros Hw Hp. apply sorted_perm_eq; try apply sort_entries_sorted.
  - by apply sort_entries_wf.
  - by rewrite !sort_entries_perm.
Qed.

Lemma canon_equiv v1 : forall v2, json_equiv v1 v2 ->
  canon v1 = canon v2 /\ finite_json v1 = finite_json v2.
Proof.
  induction v1 as [| | | | l IH | m IH] using json_ind'; intros v2 H; inversion H as [| ? l2 Hl | ? m' m2 Hm Hp Hw]; subst; try done.
  - clear H. cut (map canon l = map canon l2 /\ forallb finite_json l = forallb finite_json l2).
    { cbn. by intros [-> ->]. }
    induction Hl as [| x y l l2 Hxy _ IHl]; [done |].
    apply list.Forall_cons in IH as [Hx IH]. destruct (IHl IH) as [E1 E2].
    destruct (Hx _ Hxy) as [E3 E4]. cbn. by rewrite E1, E2, E3, E4.
  - cut (map (map_snd canon) m = map (map_snd canon) m' /\
         forallb (fun p => finite_json (snd p)) m = forallb (fun p => finite_json (snd p)) m').
    { intros [E1 E2]. cbn. rewrite E2, (forallb_perm _ _ _ Hp). split; [| done].
      f_equal. rewrite E1. apply sort_entries_perm_eq; [| by rewrite Hp].
      rewrite <- E1. unfold jwf. by rewrite jkeys_map_snd. }
    clear H Hp Hw. induction Hm as [| x y m m' [Hk Hxy] _ IHl]; [done |].
    apply list.Forall_cons in IH as [Hx IH]. destruct (IHl IH) as [E1 E2].
    destruct (Hx _ Hxy) as [E3 E4]. cbn. unfold map_snd at 1 3. by rewrite E1, E2, E3, E4, Hk.
Qed.

(** The canonical encoding depends on a value only up to the order of its
    object members at any depth, errors included, and encoding the sorted
    value again changes nothing. *)
Theorem canonical_order_irrelevant v1 v2 :
  json_equiv v1 v2 ->
  encodeCanonicalJSON v1 = encodeCanonicalJSON v2 /\
  forall sorted, sortJSON v1 = Ok sorted -> encodeCanonicalJSON sorted = encodeCanonicalJSON v2.
Proof.
  intros [Hc Hf]%canon_equiv.
  assert (E : encodeCanonicalJSON v1 = encodeCanonicalJSON v2).
  { unfold encodeCanonicalJSON, canonicalJSON, sortJSON. by rewrite Hc, Hf. }
  split; [done |]. unfold sortJSON. destruct (finite_json v1); [| done].
  intros sorted [= <-]. by rewrite encodeCanonicalJSON_canon.
Qed.

Lemma canonical_order_irrelevant_witness :
  let v1 := JObject [(js "b", JNull); (js "a", JArray [JString (js "x")])] in
  let v2 := JObject [(js "a", JArray [JString (js "x")]); (js "b", JNull)] in
  encodeCanonicalJSON v1 = encodeCanonicalJSON v2 /\
  forall sorted, sortJSON v1 = Ok sorted -> encodeCanonicalJSON sorted = encodeCanonicalJSON v2.
Proof.
  apply canonical_order_irrelevant.
  apply (equiv_object _ [(js "b", JNull); (js "a", JArray [JString (js "x")])]).
  - repeat constructor.
  - apply Permutation_swap.
  - by apply (bool_decide_unpack _).
Defined.
