(* ===== verification/Utf8Text.v ===== *)
(** * Well-formed text ([Buffer.from], [TextEncoder], [TextDecoder])

    When UTF-8 is read back as written: text without lone surrogates that does
    not begin with U+FEFF. *)

From Stdlib Require Import ZArith Lia String.
From stdpp Require Import base list option.
From S2P Require Import Prelude JsMap BinaryIO Wtf8 Json.

(** [Buffer.from(value)] replaces every lone surrogate by U+FFFD. *)
Fixpoint toWellFormed (value : list Z) : list Z :=
  match value with
  | [] => []
  | c :: rest =>
      if is_high c then
        match rest with
        | d :: rest' => if is_low d then c :: d :: toWellFormed rest' else 0xfffd :: toWellFormed rest
        | [] => [0xfffd]
        end
      else if is_low c then 0xfffd :: toWellFormed rest
      else c :: toWellFormed rest
  end.

Definition Buffer_from (value : list Z) : list Z := encodeBinaryUtf8 (toWellFormed value).

(** [Buffer.from(value).toString("utf8") === value] *)
Definition utf8_round_trips (value : list Z) : bool := bool_decide (toWellFormed value = value).

Definition no_bom (s : list Z) : Prop := match s with c :: _ => c <> 0xfeff | [] => True end.

(** Cuts a well-formed string into its code points. *)
Lemma toWellFormed_inv c s : toWellFormed (c :: s) = c :: s -> is_unit c ->
  (is_high c = false /\ is_low c = false /\ toWellFormed s = s) \/
  (exists d s', s = d :: s' /\ is_high c = true /\ is_low d = true /\ toWellFormed s' = s').
Proof.
  intros H Hc. cbn [toWellFormed] in H. destruct (is_high c) eqn:Eh.
  - right. destruct s as [| d s'].
    + injection H as <-. done.
    + destruct (is_low d) eqn:El.
      * injection H as H. eauto 6.
      * injection H as <- _. done.
  - left. destruct (is_low c) eqn:El.
    + injection H as <- _. done.
    + by injection H as H.
Qed.

Lemma encoded_surrogate_skip a bs : a <> 0xed -> encoded_surrogate (a :: bs) = encoded_surrogate bs.
Proof.
  intros Ha. destruct bs as [| b bs]; [done |]. cbn [encoded_surrogate].
  destruct (Z.eqb_spec a 0xed); [done |]. done.
Qed.

Lemma encoded_surrogate_low a b bs : b < 0xa0 -> encoded_surrogate (a :: b :: bs) = encoded_surrogate (b :: bs).
Proof.
  intros Hb. cbn [encoded_surrogate]. destruct (Z.leb_spec 0xa0 b); [lia |]. by rewrite andb_false_r.
Qed.

Lemma encode_codePoint_no_surrogate cp bs :
  0 <= cp <= 0x10ffff -> is_high cp = false -> is_low cp = false ->
  encoded_surrogate (encode_codePoint cp ++ bs) = encoded_surrogate bs.
Proof.
  intros Hcp Hh Hl. unfold is_high, is_low in *.
  destruct (Z.leb_spec cp 0x7f); [| destruct (Z.leb_spec cp 0x7ff); [| destruct (Z.leb_spec cp 0xffff)]].
  - rewrite encode_1 by lia. apply encoded_surrogate_skip. lia.
  - rewrite encode_2 by lia. base64 cp. cbn [app]. rewrite !encoded_surrogate_skip by lia. done.
  - rewrite encode_3 by lia. base64 cp. cbn [app].
    assert (Hsur : cp < 0xd800 \/ 0xe000 <= cp).
    { destruct (Z.leb_spec 0xd800 cp), (Z.leb_spec cp 0xdbff), (Z.leb_spec 0xdc00 cp), (Z.leb_spec cp 0xdfff); try done; lia. }
    destruct (Z.eq_dec (224 + cp / 4096) 0xed).
    + rewrite encoded_surrogate_low by lia. rewrite !encoded_surrogate_skip by lia. done.
    + rewrite !encoded_surrogate_skip by lia. done.
  - rewrite encode_4 by lia. base64 cp. cbn [app]. rewrite !encoded_surrogate_skip by lia. done.
Qed.

Lemma well_formed_no_surrogate s : is_jsstr s -> toWellFormed s = s -> encoded_surrogate (encodeBinaryUtf8 s) = false.
Proof.
  remember (length s) as n eqn:Hn. revert s Hn. induction n as [n IH] using lt_wf_ind. intros s -> Hs Hw.
  destruct s as [| c s]; [done |]. apply list.Forall_cons in Hs as [Hc Hs].
  apply toWellFormed_inv in Hw as [(Hh & Hl & Hw) | (d & s' & -> & Hh & Hl & Hw)]; [| | done].
  - assert (encodeBinaryUtf8 (c :: s) = encode_codePoint c ++ encodeBinaryUtf8 s) as ->.
    { destruct s as [| d s]; [cbn; by rewrite app_nil_r |]. cbn [encodeBinaryUtf8]. by rewrite Hh. }
    unfold is_unit in Hc. rewrite encode_codePoint_no_surrogate by (done || lia).
    by apply (IH (length s) ltac:(cbn; lia) s eq_refl).
  - apply list.Forall_cons in Hs as [Hd Hs]. pose proof (surrogate_range _ _ Hh Hl) as Hr.
    cbn [encodeBinaryUtf8]. rewrite Hh, Hl. cbn [andb].
    assert (is_high (surrogate_codePoint c d) = false /\ is_low (surrogate_codePoint c d) = false) as [E1 E2].
    { unfold is_high, is_low.
      destruct (Z.leb_spec (surrogate_codePoint c d) 0xdbff); [lia |].
      destruct (Z.leb_spec (surrogate_codePoint c d) 0xdfff); [lia |]. by rewrite !andb_false_r. }
    rewrite encode_codePoint_no_surrogate by (done || lia).
    by apply (IH (length s') ltac:(cbn; lia) s' eq_refl).
Qed.

Lemma strip_bom_text s : is_jsstr s -> no_bom s -> strip_bom (encodeBinaryUtf8 s) = encodeBinaryUtf8 s.
Proof.
  intros Hs Hb. destruct s as [| c s]; [done |]. apply list.Forall_cons in Hs as [Hc Hs]. cbn in Hb.
  assert (Hhead : exists cp tail, encodeBinaryUtf8 (c :: s) = encode_codePoint cp ++ tail /\
    0 <= cp <= 0x10ffff /\ (cp = c \/ 0xffff < cp)).
  { unfold is_unit in Hc. destruct s as [| d s].
    - exists c, []. cbn. rewrite app_nil_r. split; [done | lia].
    - cbn [encodeBinaryUtf8]. destruct (is_high c && is_low d) eqn:E.
      + apply andb_true_iff in E as [E1 E2]. pose proof (surrogate_range _ _ E1 E2).
        eexists _, _. split; [done | lia].
      + eexists _, _. split; [done | lia]. }
  destruct Hhead as (cp & tail & -> & Hcp & Hne).
  assert (Hfirst : forall a bs, a <> 0xef -> strip_bom (a :: bs) = a :: bs).
  { intros a bs Ha. unfold strip_bom. destruct bs as [| b [| b' bs]]; try done.
    by destruct (Z.eqb_spec a 0xef). }
  destruct (Z.leb_spec cp 0x7f); [| destruct (Z.leb_spec cp 0x7ff); [| destruct (Z.leb_spec cp 0xffff)]].
  - rewrite encode_1 by lia. apply Hfirst. lia.
  - rewrite encode_2 by lia. base64 cp. apply Hfirst. lia.
  - rewrite encode_3 by lia. base64 cp. cbn [app strip_bom].
    destruct (Z.eqb_spec (224 + cp / 4096) 0xef); [| done].
    destruct (Z.eqb_spec (128 + (cp / 64) mod 64) 0xbb); [| done].
    destruct (Z.eqb_spec (128 + cp mod 64) 0xbf); [| done]. exfalso. lia.
  - rewrite encode_4 by lia. base64 cp. apply Hfirst. lia.
Qed.

Lemma TextDecoder_Buffer s :
  is_jsstr s -> utf8_round_trips s = true -> no_bom s -> TextDecoder_decode (Buffer_from s) = Ok s.
Proof.
  unfold utf8_round_trips, Buffer_from. intros Hs Hw%bool_decide_eq_true Hb. rewrite Hw.
  unfold TextDecoder_decode. rewrite strip_bom_text, well_formed_no_surrogate by done. cbn [negb].
  rewrite <- (app_nil_r (encodeBinaryUtf8 s)), decode_encode_app by done. cbn. by rewrite app_nil_r.
Qed.

Lemma toWellFormed_units s : is_jsstr s -> is_jsstr (toWellFormed s).
Proof.
  remember (length s) as n eqn:Hn. revert s Hn. induction n as [n IH] using lt_wf_ind. intros s -> Hs.
  destruct s as [| c s]; [done |]. apply list.Forall_cons in Hs as [Hc Hs].
  assert (Hrep : is_unit 0xfffd) by (unfold is_unit; lia).
  pose proof (IH (length s) ltac:(cbn; lia) s eq_refl Hs) as Hrec. cbn [toWellFormed].
  destruct (is_high c); [| destruct (is_low c); by constructor].
  destruct s as [| d s']; [by repeat constructor |].
  destruct (is_low d); [| by constructor]. apply list.Forall_cons in Hs as [Hd Hs].
  constructor; [done |]. constructor; [done |]. by apply (IH (length s') ltac:(cbn; lia) s' eq_refl).
Qed.

(** *** Text without lone surrogates *)

Definition well_formed_text (s : list Z) : Prop := is_jsstr s /\ toWellFormed s = s.

Lemma well_formed_nil : well_formed_text [].
Proof. split; [constructor | done]. Qed.

Lemma well_formed_app s t : well_formed_text s -> well_formed_text t -> well_formed_text (s ++ t).
Proof.
  intros [Hs Ws] [Ht Wt]. split; [by apply Forall_app |].
  remember (length s) as n eqn:Hn. revert s Hn Hs Ws. induction n as [n IH] using lt_wf_ind. intros s -> Hs Ws.
  destruct s as [| c s]; [done |]. apply list.Forall_cons in Hs as [Hc Hs].
  apply toWellFormed_inv in Ws as [(Hh & Hl & Ws) | (d & s' & -> & Hh & Hl & Ws)]; [| | done]; cbn [app toWellFormed]; rewrite Hh.
  - rewrite Hl. f_equal. by apply (IH (length s) ltac:(cbn; lia)).
  - rewrite Hl. apply list.Forall_cons in Hs as [_ Hs]. do 2 f_equal. by apply (IH (length s') ltac:(cbn; lia)).
Qed.

Lemma well_formed_cons c s : 0 <= c < 0xd800 -> well_formed_text s -> well_formed_text (c :: s).
Proof.
  intros Hc [Hs Ws]. split; [constructor; [unfold is_unit; lia | done] |]. cbn [toWellFormed].
  assert (is_high c = false) as -> by (unfold is_high; destruct (Z.leb_spec 0xd800 c); [lia | done]).
  assert (is_low c = false) as -> by (unfold is_low; destruct (Z.leb_spec 0xdc00 c); [lia | done]). by rewrite Ws.
Qed.

Lemma well_formed_ascii s : Forall (fun c => 0 <= c < 128) s -> well_formed_text s.
Proof. induction 1 as [| c s Hc _ IH]; [apply well_formed_nil |]. apply well_formed_cons; [lia | done]. Qed.

(** What [TextEncoder] writes of such text, [TextDecoder] reads. *)
Lemma TextDecoder_encode s : well_formed_text s -> no_bom s -> TextDecoder_decode (encodeBinaryUtf8 s) = Ok s.
Proof.
  intros [Hs Hw] Hb. pose proof (TextDecoder_Buffer s Hs) as H. unfold utf8_round_trips, Buffer_from in H.
  rewrite Hw in H. apply H; [by apply bool_decide_eq_true | done].
Qed.
