(* ===== verification/JsonText.v ===== *)
(** * JSON text is unambiguous ([canonical-json.ts])

    [JSON.parse] reads back the strings [JSON.stringify] quotes, so distinct
    texts stay distinct when a canonical JSON text serves as a key. *)

From Stdlib Require Import ZArith Lia.
From stdpp Require Import base list option.
From S2P Require Import Prelude JsMap BinaryIO Wtf8 Json.



Lemma hex_value_digit n : 0 <= n < 16 -> hex_value (hex_digit n) = Some n.
Proof.
  intros Hn. unfold hex_value, hex_digit, is_digit.
  destruct (Z.ltb_spec n 10).
  - destruct (Z.leb_spec 48 (48 + n)); [| lia]. destruct (Z.leb_spec (48 + n) 57); [| lia]. cbn. f_equal. lia.
  - destruct (Z.leb_spec (87 + n) 57); [lia |]. rewrite andb_false_r.
    destruct (Z.leb_spec 97 (87 + n)); [| lia]. destruct (Z.leb_spec (87 + n) 102); [| lia]. cbn. f_equal. lia.
Qed.

Lemma hex4_join u : is_unit u -> u / 4096 * 4096 + (u / 256) mod 16 * 256 + (u / 16) mod 16 * 16 + u mod 16 = u.
Proof.
  intros Hu. pose proof (Z_div_mod_eq_full u 16). pose proof (Z_div_mod_eq_full (u / 16) 16).
  pose proof (Z_div_mod_eq_full (u / 256) 16).
  replace (u / 256) with (u / 16 / 16) in * by (rewrite Z.div_div by lia; done).
  replace (u / 4096) with (u / 16 / 16 / 16) by (rewrite !Z.div_div by lia; done). lia.
Qed.

Lemma parse_hex4 u tail rest s : is_unit u -> parse_string s = Some (tail, rest) ->
  parse_string (92 :: 117 :: hex4 u ++ s) = Some (u :: tail, rest).
Proof.
  intros Hu Hs. unfold hex4. cbn -[hex_digit hex_value].
  assert (Hr : 0 <= u / 4096 < 16) by (split; [apply Z.div_pos; unfold is_unit in *; lia | apply Z.div_lt_upper_bound; unfold is_unit in *; lia]).
  rewrite !hex_value_digit by first [exact Hr | apply Z.mod_pos_bound; lia].
  rewrite Hs. rewrite hex4_join by done. done.
Qed.

Lemma parse_plain c s tail rest : c <> 34 -> c <> 92 -> 32 <= c -> parse_string s = Some (tail, rest) ->
  parse_string (c :: s) = Some (c :: tail, rest).
Proof.
  intros H1 H2 H3 Hs. cbn. destruct (Z.eqb_spec c 34); [done |]. destruct (Z.eqb_spec c 92); [done |].
  destruct (Z.ltb_spec c 32); [lia |]. by rewrite Hs.
Qed.

(** What [quote_body] writes, up to the closing quote, is read back. *)
Lemma parse_string_quote s rest : is_jsstr s -> parse_string (quote_body s ++ 34 :: rest) = Some (s, rest).
Proof.
  remember (length s) as n eqn:Hn. revert s Hn. induction n as [n IH] using lt_wf_ind. intros s -> Hs.
  destruct s as [| c s]; [done |]. apply list.Forall_cons in Hs as [Hc Hs].
  pose proof (IH (length s) ltac:(cbn; lia) s eq_refl Hs) as IHs. cbn [quote_body].
  assert (Hescape : forall e, simple_escape e = Some c -> e <> 117 ->
    parse_string ([92; e] ++ (quote_body s ++ 34 :: rest)) = Some (c :: s, rest)).
  { intros e He Hne. cbn -[simple_escape]. destruct (Z.eqb_spec e 117); [done |]. by rewrite He, IHs. }
  assert (Hhex : parse_string (([92; 117] ++ hex4 c ++ quote_body s) ++ 34 :: rest) = Some (c :: s, rest)).
  { rewrite <- !app_assoc. by apply parse_hex4. }
  repeat (match goal with |- context [c =? ?k] => destruct (Z.eqb_spec c k) as [-> |] end;
    [rewrite <- app_assoc; by apply Hescape |]).
  destruct (Z.ltb_spec c 32); [done |].
  destruct (is_high c) eqn:Eh.
  - destruct s as [| d s']; [exact Hhex |]. destruct (is_low d) eqn:El; [| exact Hhex].
    apply list.Forall_cons in Hs as [Hd Hs]. unfold is_high, is_low in *. reflect_tests.
    apply parse_plain; [lia | lia | lia |]. apply parse_plain; [lia | lia | lia |].
    apply (IH (length s')); [cbn; lia | done | done].
  - destruct (is_low c); [done |]. by apply parse_plain.
Qed.

(** Two quoted texts that agree up to what follows are the same text. *)
Lemma quote_prefix s t r1 r2 : is_jsstr s -> is_jsstr t ->
  quote s ++ r1 = quote t ++ r2 -> s = t /\ r1 = r2.
Proof.
  intros Hs Ht H. unfold quote in H. rewrite <- !app_assoc in H. injection H as H.
  apply (f_equal parse_string) in H. rewrite !parse_string_quote in H by done. by injection H.
Qed.

Lemma quote_inj s t : is_jsstr s -> is_jsstr t -> quote s = quote t -> s = t.
Proof.
  intros Hs Ht H. apply (quote_prefix s t [] []); try done. by rewrite !app_nil_r.
Qed.

(** *** Own properties *)

Lemma insert_index_perm {A} n (p : list Z * A) l : insert_index n p l ≡ₚ (n, p) :: l.
Proof.
  induction l as [| [n' p'] l IH]; cbn; [done |]. destruct (n <=? n'); [done |].
  rewrite IH. apply Permutation_swap.
Qed.

Lemma own_properties_perm {A} (m : list (list Z * A)) : own_properties m ≡ₚ m.
Proof.
  unfold own_properties. induction m as [| p m IH]; cbn; [done |].
  destruct (array_index_key (fst p)) as [n |]; cbn.
  - rewrite insert_index_perm. cbn. by rewrite IH.
  - rewrite <- Permutation_middle. by rewrite IH.
Qed.

(** * Number text ([Number::toString] and [JSON.parse])

    The shortest digits [number_text] chooses denote, when parsed, the double
    they were printed from. *)

(** ** Binary magnitude *)

Lemma pow_split b x y : 0 <= x -> 0 <= y -> b ^ (x + y) = b ^ x * b ^ y.
Proof. intros. by rewrite Z.pow_add_r. Qed.

Lemma pow2_pos x : 0 <= x -> 0 < 2 ^ x.
Proof. intros. apply Z.pow_pos_nonneg; lia. Qed.

(** [2 ^ k <= num / den]. *)
Definition at_least (k num den : Z) : Prop := den * 2 ^ Z.max 0 k <= num * 2 ^ Z.max 0 (- k).

Lemma at_least_shift k num den s : 0 < den -> Z.max 0 (- k) <= s ->
  at_least k num den <-> den * 2 ^ (s + k) <= num * 2 ^ s.
Proof.
  intros Hd Hs. unfold at_least. pose proof (pow2_pos (s - Z.max 0 (- k)) ltac:(lia)) as Hp.
  rewrite (Z.mul_le_mono_pos_r _ _ _ Hp).
  replace (den * 2 ^ Z.max 0 k * 2 ^ (s - Z.max 0 (- k))) with (den * 2 ^ (s + k)).
  2: { rewrite <- Z.mul_assoc, <- pow_split by lia. f_equal. f_equal. lia. }
  replace (num * 2 ^ Z.max 0 (- k) * 2 ^ (s - Z.max 0 (- k))) with (num * 2 ^ s).
  2: { rewrite <- Z.mul_assoc, <- pow_split by lia. f_equal. f_equal. lia. }
  done.
Qed.

Lemma at_least_mono j k num den : 0 < den -> j <= k -> at_least k num den -> at_least j num den.
Proof.
  intros Hd Hjk Hk. set (s := Z.max 0 (- j)).
  apply (at_least_shift j num den s Hd ltac:(lia)). apply (at_least_shift k num den s Hd ltac:(lia)) in Hk.
  transitivity (den * 2 ^ (s + k)); [| done]. apply Z.mul_le_mono_nonneg_l; [lia |]. apply Z.pow_le_mono_r; lia.
Qed.

Lemma at_least_scale k num den c : 0 < c -> at_least k (num * c) (den * c) <-> at_least k num den.
Proof.
  intros Hc. unfold at_least. rewrite (Z.mul_le_mono_pos_r (den * _) _ c Hc).
  replace (den * c * 2 ^ Z.max 0 k) with (den * 2 ^ Z.max 0 k * c) by lia.
  by replace (num * c * 2 ^ Z.max 0 (- k)) with (num * 2 ^ Z.max 0 (- k) * c) by lia.
Qed.

(** [floor (log2 (num / den))], as [f64_round] computes it. *)
Definition magnitude (num den : Z) : Z :=
  let k0 := Z.log2 num - Z.log2 den in
  if num * 2 ^ Z.max 0 (- k0) <? den * 2 ^ Z.max 0 k0 then k0 - 1 else k0.

Lemma magnitude_spec num den : 0 < num -> 0 < den ->
  at_least (magnitude num den) num den /\ ~ at_least (magnitude num den + 1) num den.
Proof.
  intros Hn Hd. unfold magnitude. set (k0 := Z.log2 num - Z.log2 den).
  pose proof (Z.log2_spec num Hn) as [Hn1 Hn2]. pose proof (Z.log2_spec den Hd) as [Hd1 Hd2].
  pose proof (Z.log2_nonneg num). pose proof (Z.log2_nonneg den).
  pose proof (pow2_pos (Z.log2 num) ltac:(lia)). set (s := Z.log2 den + 1).
  assert (Es : s = Z.log2 den + 1) by done. assert (Ek : k0 = Z.log2 num - Z.log2 den) by done.
  assert (Hlow : at_least (k0 - 1) num den).
  { apply (at_least_shift (k0 - 1) num den s Hd ltac:(lia)). replace (s + (k0 - 1)) with (Z.log2 num) by lia.
    rewrite <- Z.add_1_r, <- Es in Hd2. rewrite (Z.mul_comm num). apply Z.mul_le_mono_nonneg; lia. }
  assert (Hhigh : ~ at_least (k0 + 1) num den).
  { rewrite (at_least_shift (k0 + 1) num den s Hd ltac:(lia)). replace (s + (k0 + 1)) with (Z.succ (Z.log2 num) + 1) by lia.
    rewrite Es, (pow_split 2 (Z.log2 den)), (pow_split 2 (Z.succ _)) by lia.
    pose proof (pow2_pos (Z.log2 den) ltac:(lia)).
    assert (num * 2 ^ Z.log2 den < den * 2 ^ Z.succ (Z.log2 num)) by nia. lia. }
  destruct (Z.ltb_spec (num * 2 ^ Z.max 0 (- k0)) (den * 2 ^ Z.max 0 k0)) as [Hlt | Hge].
  - split; [done |]. replace (k0 - 1 + 1) with k0 by lia. unfold at_least. lia.
  - split; [done | done].
Qed.

Lemma magnitude_unique num den k : 0 < num -> 0 < den ->
  at_least k num den -> ~ at_least (k + 1) num den -> magnitude num den = k.
Proof.
  intros Hn Hd H1 H2. destruct (magnitude_spec num den Hn Hd) as [M1 M2].
  destruct (Z.lt_trichotomy (magnitude num den) k) as [Hlt | [He | Hgt]]; [| done |].
  - destruct M2. apply (at_least_mono _ k); [done | lia | done].
  - destruct H2. apply (at_least_mono _ (magnitude num den)); [done | lia | done].
Qed.

(** ** Rounding *)

Definition ratio_num (num ex : Z) : Z := num * 2 ^ Z.max 0 (- ex).
Definition ratio_den (den ex : Z) : Z := den * 2 ^ Z.max 0 ex.

(** The quotient of [n / d] rounded half to even. *)
Definition nearest (n d : Z) : Z :=
  if (d <? 2 * (n mod d)) || ((2 * (n mod d) =? d) && Z.odd (n / d)) then n / d + 1 else n / d.

Lemma f64_round_eq num den :
  f64_round num den =
    let ex := Z.max (magnitude num den - 52) (-1074) in
    Z.min ((ex + 1074) * 2 ^ 52 + nearest (ratio_num num ex) (ratio_den den ex)) f64_infinity.
Proof. done. Qed.

Lemma nearest_scale n d c : 0 < d -> 0 < c -> nearest (n * c) (d * c) = nearest n d.
Proof.
  intros Hd Hc. unfold nearest. rewrite Z.div_mul_cancel_r, Z.mul_mod_distr_r by lia.
  replace ((d * c <? 2 * (n mod d * c))) with (d <? 2 * (n mod d)).
  2: { destruct (Z.ltb_spec d (2 * (n mod d))), (Z.ltb_spec (d * c) (2 * (n mod d * c))); nia. }
  replace ((2 * (n mod d * c) =? d * c)) with (2 * (n mod d) =? d).
  2: { destruct (Z.eqb_spec (2 * (n mod d)) d), (Z.eqb_spec (2 * (n mod d * c)) (d * c)); nia. }
  done.
Qed.

Lemma f64_round_scale num den c : 0 < num -> 0 < den -> 0 < c -> f64_round (num * c) (den * c) = f64_round num den.
Proof.
  intros Hn Hd Hc. rewrite !f64_round_eq. cbv zeta.
  assert (magnitude (num * c) (den * c) = magnitude num den) as ->.
  { destruct (magnitude_spec num den Hn Hd). apply magnitude_unique; try lia; by rewrite at_least_scale. }
  set (ex := Z.max _ _). unfold ratio_num, ratio_den.
  replace (num * c * 2 ^ Z.max 0 (- ex)) with (num * 2 ^ Z.max 0 (- ex) * c) by lia.
  replace (den * c * 2 ^ Z.max 0 ex) with (den * 2 ^ Z.max 0 ex * c) by lia.
  rewrite nearest_scale; [done | | done]. pose proof (pow2_pos (Z.max 0 ex) ltac:(lia)). lia.
Qed.

(** Rounding when the quotient is within half a unit of [m]. *)
Lemma nearest_close n d m : 0 < d -> (2 * m - 1) * d < 2 * n < (2 * m + 1) * d -> nearest n d = m.
Proof.
  intros Hd [H1 H2]. unfold nearest. pose proof (Z_div_mod_eq_full n d) as E. pose proof (Z.mod_pos_bound n d Hd).
  set (q := n / d) in *. set (r := n mod d) in *.
  assert (q = m \/ q = m - 1) as [-> | ->] by nia.
  - destruct (Z.ltb_spec d (2 * r)); [nia |]. destruct (Z.eqb_spec (2 * r) d); [nia | done].
  - destruct (Z.ltb_spec d (2 * r)); cbn [orb]; [lia | nia].
Qed.

(** [2 ^ k <= num / den] in units of [2 ^ e]. *)
Lemma at_least_units j e num den : 0 < den -> 0 <= j ->
  at_least (j + e) num den <-> 2 ^ j * ratio_den den e <= ratio_num num e.
Proof.
  intros Hd Hj. rewrite (at_least_shift (j + e) num den (Z.max 0 (- e)) Hd ltac:(lia)).
  unfold ratio_num, ratio_den. replace (Z.max 0 (- e) + (j + e)) with (j + Z.max 0 e) by lia.
  rewrite pow_split by lia. replace (den * (2 ^ j * 2 ^ Z.max 0 e)) with (2 ^ j * (den * 2 ^ Z.max 0 e)) by lia. done.
Qed.

Lemma ratio_den_pos den e : 0 < den -> 0 < ratio_den den e.
Proof. intros. unfold ratio_den. pose proof (pow2_pos (Z.max 0 e) ltac:(lia)). lia. Qed.

(** One unit finer doubles the quotient. *)
Lemma ratio_finer num den e : 0 < den ->
  ratio_num num (e - 1) * ratio_den den e = 2 * ratio_num num e * ratio_den den (e - 1).
Proof.
  intros Hd. unfold ratio_num, ratio_den. destruct (Z.le_gt_cases e 0).
  - replace (Z.max 0 (- (e - 1))) with (Z.max 0 (- e) + 1) by lia. rewrite pow_split by lia.
    replace (Z.max 0 (e - 1)) with (Z.max 0 e) by lia. lia.
  - replace (Z.max 0 e) with (Z.max 0 (e - 1) + 1) by lia. rewrite pow_split by lia.
    replace (Z.max 0 (- (e - 1))) with (Z.max 0 (- e)) by lia. lia.
Qed.

(** The significand and scale of a finite, nonzero magnitude. *)
Record canonical_double (bits m e : Z) : Prop := {
  double_range : 0 <= bits < 2 ^ 63;
  double_finite : bits < f64_infinity;
  double_m : 0 < m < 2 ^ 53;
  double_e : -1074 <= e;
  double_normal : e = -1074 \/ 2 ^ 52 <= m;
  double_bits : bits = (e + 1074) * 2 ^ 52 + m
}.

(** What lies within half a unit of a double (a quarter below a power of two)
    rounds to it. *)
Lemma f64_round_close bits m e num den :
  canonical_double bits m e -> 0 < num -> 0 < den ->
  let n := ratio_num num e in let d := ratio_den den e in
  (2 * m - 1) * d < 2 * n < (2 * m + 1) * d -> (m = 2 ^ 52 -> (4 * m - 1) * d < 4 * n) ->
  f64_round num den = bits.
Proof.
  intros [Hr Hfin Hm He Hnormal Hbits] Hn Hd n d Hclose Hquarter. rewrite f64_round_eq. cbv zeta.
  pose proof (ratio_den_pos den e Hd) as Hdpos. fold d in Hdpos.
  pose proof (at_least_units 52 e num den Hd ltac:(lia)) as U52. pose proof (at_least_units 53 e num den Hd ltac:(lia)) as U53.
  pose proof (at_least_units 51 e num den Hd ltac:(lia)) as U51. fold n d in U51, U52, U53.
  change (2 ^ 51) with 2251799813685248 in *. change (2 ^ 52) with 4503599627370496 in *. change (2 ^ 53) with 9007199254740992 in *.
  assert (H53 : ~ at_least (53 + e) num den) by (rewrite U53; nia).
  destruct (magnitude_spec num den Hn Hd) as [M1 M2].
  assert (Hfinal : forall ex, Z.max (magnitude num den - 52) (-1074) = ex -> ex = e ->
    Z.min ((ex + 1074) * 4503599627370496 + nearest (ratio_num num ex) (ratio_den den ex)) f64_infinity = bits).
  { intros ex _ ->. fold n d. rewrite (nearest_close n d m Hdpos Hclose). lia. }
  destruct (Z.le_gt_cases (4503599627370496 * d) n) as [Hge | Hlt].
  - assert (magnitude num den = 52 + e) as Hmag.
    { apply magnitude_unique; try done; [by apply U52 |]. by replace (52 + e + 1) with (53 + e) by lia. }
    eapply Hfinal; [done |]. lia.
  - assert (H52 : ~ at_least (52 + e) num den) by (rewrite U52; lia).
    destruct (Z.eq_dec e (-1074)) as [-> | Hne].
    + assert (magnitude num den < 52 + -1074).
      { destruct (Z.le_gt_cases (52 + -1074) (magnitude num den)); [| lia]. destruct H52. by apply (at_least_mono _ (magnitude num den)). }
      eapply Hfinal; [done |]. lia.
    + assert (m = 4503599627370496) as -> by (destruct Hnormal; [lia |]; nia).
      specialize (Hquarter eq_refl).
      assert (magnitude num den = 51 + e) as ->.
      { apply magnitude_unique; try done; [apply U51; nia |]. by replace (51 + e + 1) with (52 + e) by lia. }
      replace (Z.max (51 + e - 52) (-1074)) with (e - 1) by lia.
      pose proof (ratio_den_pos den (e - 1) Hd) as Hd1. pose proof (ratio_finer num den e Hd) as Hfiner. fold n d in Hfiner.
      rewrite (nearest_close _ _ 9007199254740992 Hd1); [lia |].
      split; apply (Z.mul_lt_mono_pos_r d); try done.
      * replace (2 * ratio_num num (e - 1) * d) with (4 * n * ratio_den den (e - 1)) by lia. nia.
      * replace (2 * ratio_num num (e - 1) * d) with (4 * n * ratio_den den (e - 1)) by lia. nia.
Qed.

(** ** The decimal point *)

(** [10 ^ n <= num / den]. *)
Definition at_least10 (n num den : Z) : Prop := den * 10 ^ Z.max 0 n <= num * 10 ^ Z.max 0 (- n).

Lemma pow10_pos x : 0 <= x -> 0 < 10 ^ x.
Proof. intros. apply Z.pow_pos_nonneg; lia. Qed.

Lemma below_pow10_spec num den n : below_pow10 num den n = true <-> ~ at_least10 n num den.
Proof. unfold below_pow10, at_least10. rewrite Z.ltb_lt. lia. Qed.

Lemma at_least10_shift n num den s : 0 < den -> Z.max 0 (- n) <= s ->
  at_least10 n num den <-> den * 10 ^ (s + n) <= num * 10 ^ s.
Proof.
  intros Hd Hs. unfold at_least10. pose proof (pow10_pos (s - Z.max 0 (- n)) ltac:(lia)) as Hp.
  rewrite (Z.mul_le_mono_pos_r _ _ _ Hp).
  replace (den * 10 ^ Z.max 0 n * 10 ^ (s - Z.max 0 (- n))) with (den * 10 ^ (s + n)).
  2: { rewrite <- Z.mul_assoc, <- pow_split by lia. f_equal. f_equal. lia. }
  replace (num * 10 ^ Z.max 0 (- n) * 10 ^ (s - Z.max 0 (- n))) with (num * 10 ^ s).
  2: { rewrite <- Z.mul_assoc, <- pow_split by lia. f_equal. f_equal. lia. }
  done.
Qed.

(** The estimate [number_digits] starts from is at most one power of ten too
    high and never more than four too low. *)
Definition estimate (l : Z) : Z := l * 30103 / 100000 - 1.

Lemma pow2_le_pow10 a c : 0 <= a -> 28 * a <= 93 * c -> 2 ^ a <= 10 ^ c.
Proof.
  intros Ha Hc. apply (Z.pow_le_mono_l_iff _ _ 93); [apply Z.pow_nonneg; lia | apply Z.pow_nonneg; lia | lia |].
  rewrite <- !Z.pow_mul_r by lia. transitivity (10 ^ (28 * a)).
  - rewrite (Z.mul_comm a 93), !Z.pow_mul_r by lia. apply Z.pow_le_mono_l. split; [by apply Z.pow_nonneg |]. by vm_compute.
  - apply Z.pow_le_mono_r; lia.
Qed.

Lemma pow10_le_pow2 c a : 0 <= c -> 10 * c <= 3 * a -> 10 ^ c <= 2 ^ a.
Proof.
  intros Hc Ha. apply (Z.pow_le_mono_l_iff _ _ 3); [apply Z.pow_nonneg; lia | apply Z.pow_nonneg; lia | lia |].
  rewrite <- !Z.pow_mul_r by lia. transitivity (2 ^ (10 * c)).
  - rewrite (Z.mul_comm c 3), !Z.pow_mul_r by lia. apply Z.pow_le_mono_l. split; [by apply Z.pow_nonneg |]. by vm_compute.
  - apply Z.pow_le_mono_r; lia.
Qed.

Lemma pow_max_pos b x : 0 < b -> 0 < b ^ Z.max 0 x.
Proof. intros. apply Z.pow_pos_nonneg; lia. Qed.

Lemma estimate_spec l : -1074 <= l <= 1023 ->
  10 ^ Z.max 0 (estimate l - 1) * 2 ^ Z.max 0 (- l) <= 2 ^ Z.max 0 l * 10 ^ Z.max 0 (- (estimate l - 1)) /\
  2 ^ Z.max 0 (l + 1) * 10 ^ Z.max 0 (- (estimate l + 4)) <= 10 ^ Z.max 0 (estimate l + 4) * 2 ^ Z.max 0 (- (l + 1)) /\
  -325 <= estimate l <= 307.
Proof.
  intros Hl. unfold estimate. pose proof (Z_div_mod_eq_full (l * 30103) 100000) as E.
  pose proof (Z.mod_pos_bound (l * 30103) 100000 ltac:(lia)). set (q := l * 30103 / 100000) in *.
  split; [| split; [| lia]].
  - destruct (Z.le_gt_cases 0 l).
    + rewrite (Z.max_l 0 (- l)), (Z.max_r 0 l), Z.mul_1_r by lia.
      destruct (Z.le_gt_cases 0 (q - 1 - 1)).
      * rewrite (Z.max_r 0 (q - 1 - 1)), (Z.max_l 0 (- _)), Z.mul_1_r by lia. apply pow10_le_pow2; lia.
      * rewrite (Z.max_l 0 (q - 1 - 1)) by lia. pose proof (pow10_pos (Z.max 0 (- (q - 1 - 1))) ltac:(lia)).
        pose proof (pow2_pos l ltac:(lia)). change (10 ^ 0) with 1. nia.
    + rewrite (Z.max_l 0 (q - 1 - 1)), (Z.max_r 0 (- l)), (Z.max_l 0 l), (Z.max_r 0 (- (q - 1 - 1))), !Z.mul_1_l by lia.
      apply pow2_le_pow10; lia.
  - destruct (Z.le_gt_cases 0 (l + 1)).
    + rewrite (Z.max_l 0 (- (l + 1))), (Z.max_r 0 (l + 1)), (Z.max_l 0 (- (q - 1 + 4))), (Z.max_r 0 (q - 1 + 4)), !Z.mul_1_r by lia.
      apply pow2_le_pow10; lia.
    + rewrite (Z.max_l 0 (l + 1)), (Z.max_r 0 (- (l + 1))), Z.mul_1_l by lia.
      destruct (Z.le_gt_cases 0 (q - 1 + 4)).
      * rewrite (Z.max_l 0 (- (q - 1 + 4))) by lia. pose proof (pow10_pos (Z.max 0 (q - 1 + 4)) ltac:(lia)).
        pose proof (pow2_pos (- (l + 1)) ltac:(lia)). change (10 ^ 0) with 1. nia.
      * rewrite (Z.max_l 0 (q - 1 + 4)), (Z.max_r 0 (- (q - 1 + 4))), Z.mul_1_l by lia. apply pow10_le_pow2; lia.
Qed.

(** Comparing two ratios through a third. *)
Lemma ratio_le_trans num den a b c d : 0 < b -> 0 < den -> 0 <= d ->
  den * a <= num * b -> c * b <= a * d -> den * c <= num * d.
Proof.
  intros Hb Hden Hd H1 H2. apply (Z.mul_le_mono_pos_r _ _ b Hb).
  transitivity (den * (a * d)); [nia |]. transitivity (num * b * d); nia.
Qed.

Lemma ratio_lt_trans num den a b c d : 0 < b -> 0 < den -> 0 < d ->
  num * b < den * a -> a * d <= c * b -> num * d < den * c.
Proof.
  intros Hb Hden Hd H1 H2. apply (Z.mul_lt_mono_pos_r b); [done |].
  apply Z.lt_le_trans with (den * a * d); [nia |]. transitivity (den * (c * b)); nia.
Qed.

Lemma decimal_point_spec num den j : forall fuel start, (j < fuel)%nat ->
  below_pow10 num den (start + Z.of_nat j) = true ->
  exists n, decimal_point fuel num den start = n /\ below_pow10 num den n = true /\
    start <= n <= start + Z.of_nat j /\ (n = start \/ below_pow10 num den (n - 1) = false).
Proof.
  induction j as [| j IH]; intros [| fuel] start Hf Hb; try lia; cbn [decimal_point].
  - replace (start + Z.of_nat 0) with start in Hb by lia. rewrite Hb. exists start. split; [done |]. split; [done |]. lia.
  - destruct (below_pow10 num den start) eqn:E; [exists start; split; [done |]; split; [done |]; lia |].
    destruct (IH fuel (start + 1) ltac:(lia)) as (n & En & Hn & Hr & Hprev).
    { replace (start + 1 + Z.of_nat j) with (start + Z.of_nat (S j)) by lia. done. }
    exists n. split; [done |]. split; [done |]. split; [lia |]. right. destruct Hprev as [-> |]; [| done].
    by replace (start + 1 - 1) with start by lia.
Qed.

(** *** The magnitude [m * 2 ^ e] in powers of ten *)

Section digits.
Context (bits m e : Z) (Hdouble : canonical_double bits m e).

Definition v_num : Z := m * 2 ^ Z.max 0 e.
Definition v_den : Z := 2 ^ Z.max 0 (- e).
Definition v_log : Z := Z.log2 m + e.

Lemma v_den_pos : 0 < v_den.
Proof using. unfold v_den. apply pow2_pos. lia. Qed.

Lemma v_num_pos : 0 < v_num.
Proof using Hdouble.
  pose proof (double_m _ _ _ Hdouble). unfold v_num. pose proof (pow2_pos (Z.max 0 e) ltac:(lia)). nia.
Qed.

Lemma double_scale_bound : e <= 971.
Proof using Hdouble.
  destruct Hdouble as [_ Hfin Hm He Hn Hb]. unfold f64_infinity in Hfin.
  destruct Hn as [-> | Hn]; [lia |].
  change (2 ^ 52) with 4503599627370496 in *. lia.
Qed.

Lemma v_log_bound : -1074 <= v_log <= 1023.
Proof using Hdouble.
  pose proof double_scale_bound. destruct Hdouble as [_ _ Hm He _ _]. unfold v_log.
  pose proof (Z.log2_nonneg m). pose proof (Z.log2_le_mono m (2 ^ 53 - 1) ltac:(lia)) as Hl.
  change (Z.log2 (2 ^ 53 - 1)) with 52 in Hl. lia.
Qed.

(** [2 ^ l <= v < 2 ^ (l + 1)] *)
Lemma v_log_spec : at_least v_log v_num v_den /\ ~ at_least (v_log + 1) v_num v_den.
Proof using Hdouble.
  pose proof (double_m _ _ _ Hdouble) as Hm. pose proof (Z.log2_spec m ltac:(lia)) as [H1 H2]. pose proof (Z.log2_nonneg m).
  assert (Hr : ratio_num v_num e = m * ratio_den v_den e).
  { unfold ratio_num, ratio_den, v_num, v_den. lia. }
  pose proof (ratio_den_pos v_den e v_den_pos). unfold v_log. split.
  - apply (at_least_units (Z.log2 m) e v_num v_den v_den_pos); [lia |]. rewrite Hr. nia.
  - replace (Z.log2 m + e + 1) with (Z.succ (Z.log2 m) + e) by lia.
    rewrite (at_least_units (Z.succ (Z.log2 m)) e v_num v_den v_den_pos) by lia. rewrite Hr. nia.
Qed.

Lemma v_point : exists n, decimal_point 6 v_num v_den (estimate v_log) = n /\
  at_least10 (n - 1) v_num v_den /\ below_pow10 v_num v_den n = true /\ -325 <= n <= 311.
Proof using Hdouble.
  pose proof v_log_spec as [L1 L2]. destruct (estimate_spec v_log v_log_bound) as (Ok1 & Ok2 & Hrange).
  pose proof v_den_pos as Hd. set (g := estimate v_log) in *.
  assert (Hlow : at_least10 (g - 1) v_num v_den).
  { apply (ratio_le_trans v_num v_den (2 ^ Z.max 0 v_log) (2 ^ Z.max 0 (- v_log))); [by apply pow_max_pos | done | | done | done].
    apply Z.lt_le_incl. by apply pow_max_pos. }
  assert (Hhigh : below_pow10 v_num v_den (g + Z.of_nat 4) = true).
  { apply Z.ltb_lt. change (Z.of_nat 4) with 4.
    apply (ratio_lt_trans v_num v_den (2 ^ Z.max 0 (v_log + 1)) (2 ^ Z.max 0 (- (v_log + 1))));
      [by apply pow_max_pos | done | by apply pow_max_pos | | done].
    unfold at_least in L2. by apply Z.nle_gt. }
  clear Ok1 Ok2 L1 L2.
  destruct (decimal_point_spec v_num v_den 4 6 g ltac:(lia) Hhigh) as (n & En & Hn & Hr & Hprev).
  exists n. split; [done |]. split; [| split; [done | clear -Hr Hrange; lia]].
  destruct Hprev as [-> | Hprev]; [done |].
  unfold below_pow10 in Hprev. by apply Z.ltb_ge in Hprev.
Qed.

(** ** The shortest digits *)

(** [s * 10 ^ scale], rounded. *)
Definition decimal_round (s scale : Z) : Z := f64_round (s * 10 ^ Z.max 0 scale) (10 ^ Z.max 0 (- scale)).

(** The quotient [shortest] takes its candidates from, and the value of a
    candidate, share the denominators crosswise. *)
Lemma candidate_close s scale :
  let sn := v_num * 10 ^ Z.max 0 (- scale) in
  let sd := v_den * 10 ^ Z.max 0 scale in
  10 ^ 16 * sd <= sn -> 0 < s -> 2 * Z.abs (s * sd - sn) <= sd -> decimal_round s scale = bits.
Proof using Hdouble.
  intros sn sd Hlow Hs Hnear. unfold decimal_round.
  pose proof (pow_max_pos 10 scale ltac:(lia)) as HP. pose proof (pow_max_pos 10 (- scale) ltac:(lia)) as HQ.
  pose proof (pow_max_pos 2 e ltac:(lia)) as HA. pose proof (pow_max_pos 2 (- e) ltac:(lia)) as HB.
  pose proof (double_m _ _ _ Hdouble) as Hm. unfold v_num, v_den in *.
  set (P := 10 ^ Z.max 0 scale) in *. set (Q := 10 ^ Z.max 0 (- scale)) in *.
  set (A := 2 ^ Z.max 0 e) in *. set (B := 2 ^ Z.max 0 (- e)) in *.
  assert (Hd : 0 < Q * A) by (apply Z.mul_pos_pos; done).
  assert (Esn : sn = m * (Q * A)) by (unfold sn; ring). assert (Esd : s * sd = s * P * B) by (unfold sd; ring).
  assert (Hsd : 0 < sd) by (unfold sd; apply Z.mul_pos_pos; done).
  rewrite Esn in Hlow, Hnear. rewrite Esd in Hnear. clearbody sd sn. clear Esn Esd sn.
  set (d := Q * A) in *. set (n := s * P * B) in *.
  change (10 ^ 16) with 10000000000000000 in Hlow. change (2 ^ 53) with 9007199254740992 in Hm.
  assert (Hn : 0 < n) by (unfold n; apply Z.mul_pos_pos; [apply Z.mul_pos_pos; done | done]).
  apply (f64_round_close bits m e (s * P) Q); unfold ratio_num, ratio_den; fold A B; fold d n; clearbody d n.
  - done.
  - by apply Z.mul_pos_pos.
  - done.
  - assert (m * d <= 9007199254740991 * d) by (apply Z.mul_le_mono_nonneg_r; lia).
    lia.
  - intros ->. change (2 ^ 52) with 4503599627370496 in *. lia.
Qed.

Lemma seventeen_enough n : at_least10 (n - 1) v_num v_den ->
  10 ^ 16 * (v_den * 10 ^ Z.max 0 (n - 17)) <= v_num * 10 ^ Z.max 0 (- (n - 17)).
Proof using.
  intros Hn. apply (at_least10_shift (n - 1) v_num v_den (Z.max 0 (- (n - 17))) v_den_pos ltac:(lia)) in Hn.
  replace (Z.max 0 (- (n - 17)) + (n - 1)) with (16 + Z.max 0 (n - 17)) in Hn by lia.
  rewrite pow_split in Hn by lia. lia.
Qed.

(** What [shortest] returns: digits that round to the double, no larger than
    twice the value. *)
Record good_digits (n s scale : Z) : Prop := {
  good_pos : 0 < s;
  good_scale : n - 17 <= scale < n;
  good_rounds : decimal_round s scale = bits;
  good_size : s * (v_den * 10 ^ Z.max 0 scale) <= 2 * (v_num * 10 ^ Z.max 0 (- scale))
}.

Lemma at_least10_scale n k : 1 <= k -> at_least10 (n - 1) v_num v_den ->
  v_den * 10 ^ Z.max 0 (n - k) <= v_num * 10 ^ Z.max 0 (- (n - k)).
Proof using.
  intros Hk Hn. apply (at_least10_shift (n - 1) v_num v_den (Z.max 0 (- (n - k))) v_den_pos ltac:(lia)) in Hn.
  transitivity (v_den * 10 ^ (Z.max 0 (- (n - k)) + (n - 1))); [| done].
  apply Z.mul_le_mono_nonneg_l; [apply Z.lt_le_incl, v_den_pos |]. apply Z.pow_le_mono_r; lia.
Qed.

Lemma shortest_good n : at_least10 (n - 1) v_num v_den -> forall fuel k, k + Z.of_nat fuel = 17 -> 1 <= k ->
  good_digits n (fst (shortest fuel k bits v_num v_den n)) (snd (shortest fuel k bits v_num v_den n)).
Proof using Hdouble.
  intros Hn fuel. induction fuel as [| fuel IH]; intros k Hk H1; cbn [shortest];
    set (scale := n - k);
    set (sn := v_num * 10 ^ Z.max 0 (- scale)); set (sd := v_den * 10 ^ Z.max 0 scale); set (s0 := sn / sd);
    assert (Hsd : 0 < sd) by (unfold sd; apply Z.mul_pos_pos; [apply v_den_pos | by apply pow_max_pos]);
    pose proof (at_least10_scale n k H1 Hn) as Hge; fold scale in Hge; fold sn sd in Hge;
    pose proof (Z_div_mod_eq_full sn sd) as Ediv; fold s0 in Ediv; pose proof (Z.mod_pos_bound sn sd Hsd);
    assert (Hs0 : 1 <= s0) by (apply Z.div_le_lower_bound; lia);
    assert (Hgood : forall s, s = s0 \/ s = s0 + 1 ->
      (0 <? s) && (f64_round (s * 10 ^ Z.max 0 scale) (10 ^ Z.max 0 (- scale)) =? bits) = true -> good_digits n s scale)
      by (intros s Hs Hr; apply andb_true_iff in Hr as [_ Hr%Z.eqb_eq]; split; [lia | unfold scale; lia | done | fold sn sd; assert (s * sd <= (s0 + 1) * sd) by (apply Z.mul_le_mono_nonneg_r; lia); assert (1 * sd <= s0 * sd) by (apply Z.mul_le_mono_nonneg_r; lia); lia]).
  all: destruct ((0 <? s0) && _) eqn:R0; destruct ((0 <? s0 + 1) && _) eqn:R1; cbn [andb].
  all: try (apply IH; lia).
  all: try match goal with |- context [if ?b then _ else _] => destruct b end; cbn [fst snd]; try (apply Hgood; [by auto | done]).
  exfalso. assert (k = 17) as -> by lia.
  pose proof (seventeen_enough n Hn) as Hlow. fold scale in Hlow. fold sn sd in Hlow.
  destruct (Z.le_gt_cases (2 * (sn mod sd)) sd).
  - rewrite (proj2 (Z.ltb_lt 0 s0)) in R0 by lia. apply Z.eqb_neq in R0. apply R0.
    apply (candidate_close s0 scale); fold sn sd; [done | lia | lia].
  - rewrite (proj2 (Z.ltb_lt 0 (s0 + 1))) in R1 by lia. apply Z.eqb_neq in R1. apply R1.
    apply (candidate_close (s0 + 1) scale); fold sn sd; [done | lia | lia].
Qed.

Lemma max_shift x : Z.max 0 (- x) + x = Z.max 0 x.
Proof using. lia. Qed.

Lemma v_below : v_num < v_den * 2 ^ 1024.
Proof using Hdouble.
  destruct v_log_spec as [_ L2]. pose proof v_log_bound. pose proof v_den_pos.
  assert (Hn : ~ at_least 1024 v_num v_den).
  { intros Hc. apply L2. apply (at_least_mono _ 1024); [done | lia | done]. }
  unfold at_least in Hn. change (2 ^ Z.max 0 1024) with (2 ^ 1024) in Hn. change (2 ^ Z.max 0 (- (1024))) with 1 in Hn. lia.
Qed.

(** The digits have at most eighteen figures and the point at most 310. *)
Lemma good_digits_small n s scale : below_pow10 v_num v_den n = true -> good_digits n s scale -> s < 10 ^ 18.
Proof using.
  intros Hb [Hs Hscale _ Hsize]. apply below_pow10_spec in Hb. pose proof v_den_pos as Hd.
  set (S := Z.max 0 (- scale)) in *. rewrite (at_least10_shift n v_num v_den S Hd ltac:(lia)) in Hb.
  rewrite <- (max_shift scale) in Hsize. fold S in Hsize.
  pose proof (Z.pow_le_mono_r 10 (n - scale) 17 ltac:(lia) ltac:(lia)).
  replace (S + n) with (S + scale + (n - scale)) in Hb by lia. rewrite (pow_split 10 (S + scale)) in Hb by lia.
  pose proof (pow10_pos (S + scale) ltac:(lia)) as Hp. set (W := v_den * 10 ^ (S + scale)) in *.
  assert (HW : 0 < W) by (unfold W; by apply Z.mul_pos_pos).
  replace (v_den * (10 ^ (S + scale) * 10 ^ (n - scale))) with (W * 10 ^ (n - scale)) in Hb by (unfold W; ring).
  change (10 ^ 17) with 100000000000000000 in *. change (10 ^ 18) with 1000000000000000000.
  assert (W * 10 ^ (n - scale) <= W * 100000000000000000) by (apply Z.mul_le_mono_nonneg_l; lia).
  apply (Z.mul_lt_mono_pos_r W); [done |]. lia.
Qed.

Lemma good_digits_point n s scale len : good_digits n s scale -> 1 <= len -> 10 ^ (len - 1) <= s -> len + scale <= 310.
Proof using Hdouble.
  intros [Hs Hscale _ Hsize] Hl Hlen. pose proof v_den_pos as Hd. pose proof v_below as Hv.
  destruct (Z.le_gt_cases (len + scale) 310) as [| Hgt]; [done |]. exfalso.
  set (S := Z.max 0 (- scale)) in *. rewrite <- (max_shift scale) in Hsize. fold S in Hsize.
  assert (H1 : 10 ^ (310 + S) <= s * 10 ^ (S + scale)).
  { transitivity (10 ^ (len - 1) * 10 ^ (S + scale)); [rewrite <- pow_split by lia; apply Z.pow_le_mono_r; lia |].
    apply Z.mul_le_mono_nonneg_r; [apply Z.pow_nonneg; lia | done]. }
  rewrite pow_split in H1 by lia. pose proof (pow10_pos S ltac:(lia)).
  assert (H2 : 2 * 2 ^ 1024 < 10 ^ 310) by by vm_compute.
  set (T := 10 ^ S) in *. set (X := 2 ^ 1024) in *. set (Y := 10 ^ 310) in *. clearbody X Y.
  assert (v_den * (Y * T) <= v_den * (s * 10 ^ (S + scale))) by (apply Z.mul_le_mono_nonneg_l; lia).
  assert (v_num * T < v_den * X * T) by (apply Z.mul_lt_mono_pos_r; lia).
  assert (v_den * T * (2 * X) < v_den * T * Y) by (apply Z.mul_lt_mono_pos_l; [by apply Z.mul_pos_pos | done]).
  lia.
Qed.
End digits.

(** ** Trailing zeros *)

Lemma strip_zeros_spec fuel : forall s scale, 0 < s ->
  exists j, 0 <= j /\ s = fst (strip_zeros fuel s scale) * 10 ^ j /\ snd (strip_zeros fuel s scale) = scale + j /\
    0 < fst (strip_zeros fuel s scale).
Proof.
  induction fuel as [| fuel IH]; intros s scale Hs; cbn [strip_zeros].
  - exists 0. cbn. lia.
  - rewrite (proj2 (Z.ltb_lt 0 s) Hs). cbn [andb]. destruct (Z.eqb_spec (s mod 10) 0) as [E |]; [| exists 0; cbn; lia].
    pose proof (Z_div_mod_eq_full s 10). destruct (IH (s / 10) (scale + 1) ltac:(lia)) as (j & Hj & E1 & E2 & Hp).
    exists (j + 1). split; [lia |]. split; [| split; [lia | done]]. rewrite pow_split by lia. change (10 ^ 1) with 10. lia.
Qed.

Lemma decimal_round_strip s scale j : 0 < s -> 0 <= j -> decimal_round (s * 10 ^ j) scale = decimal_round s (scale + j).
Proof.
  intros Hs Hj. unfold decimal_round. set (c := Z.max 0 (- scale) - Z.max 0 (- (scale + j))).
  replace (s * 10 ^ j * 10 ^ Z.max 0 scale) with (s * 10 ^ Z.max 0 (scale + j) * 10 ^ c).
  2: { rewrite <- !Z.mul_assoc, <- !pow_split by lia. f_equal. f_equal. lia. }
  replace (10 ^ Z.max 0 (- scale)) with (10 ^ Z.max 0 (- (scale + j)) * 10 ^ c).
  2: { rewrite <- pow_split by lia. f_equal. lia. }
  apply f64_round_scale; [| by apply pow_max_pos | apply pow10_pos; lia].
  apply Z.mul_pos_pos; [done | by apply pow_max_pos].
Qed.

(** *** The digits of a double *)

Lemma double_canonical bits : 0 <= bits < 2 ^ 64 -> f64_isFinite bits = true -> f64_significand bits <> 0 ->
  canonical_double (bits mod 2 ^ 63) (f64_significand bits) (f64_scale bits).
Proof.
  intros Hb Hf Hm. unfold f64_isFinite, f64_significand, f64_scale, f64_exponent, f64_mantissa in *.
  apply negb_true_iff, Z.eqb_neq in Hf. change (2 ^ 64) with 18446744073709551616 in *.
  unfold f64_infinity. change (2 ^ 63) with 9223372036854775808. change (2 ^ 52) with 4503599627370496 in *.
  change (2 ^ 53) with 9007199254740992.
  pose proof (Z_div_mod_eq_full bits 4503599627370496) as E1. pose proof (Z.mod_pos_bound bits 4503599627370496 ltac:(lia)).
  pose proof (Z_div_mod_eq_full (bits / 4503599627370496) 2048) as E2.
  pose proof (Z.mod_pos_bound (bits / 4503599627370496) 2048 ltac:(lia)).
  assert (Hmod : bits mod 9223372036854775808 = (bits / 4503599627370496) mod 2048 * 4503599627370496 + bits mod 4503599627370496).
  { symmetry. apply (Z.mod_unique_pos _ _ (bits / 4503599627370496 / 2048)); [split |]; lia. }
  set (ex := (bits / 4503599627370496) mod 2048) in *. set (mt := bits mod 4503599627370496) in *.
  destruct (Z.eqb_spec ex 0) as [E0 | E0]; split; cbn [f64_infinity]; unfold f64_infinity; change (2 ^ 63) with 9223372036854775808;
    change (2 ^ 52) with 4503599627370496; change (2 ^ 53) with 9007199254740992; lia.
Qed.

(** What [number_digits] returns for a finite, nonzero double. *)
Lemma number_digits_spec bits : 0 <= bits < 2 ^ 64 -> f64_isFinite bits = true -> f64_significand bits <> 0 ->
  exists s scale, number_digits bits = (s, scale) /\ 0 < s < 10 ^ 18 /\ -342 <= scale /\
    decimal_round s scale = bits mod 2 ^ 63 /\ forall len, 1 <= len -> 10 ^ (len - 1) <= s -> len + scale <= 310.
Proof.
  intros Hb Hf Hm. pose proof (double_canonical bits Hb Hf Hm) as Hd.
  set (m := f64_significand bits) in *. set (e := f64_scale bits) in *.
  destruct (v_point _ m e Hd) as (n & En & Hlow & Hbelow & Hn).
  pose proof (shortest_good _ m e Hd n Hlow 16 1 ltac:(lia) ltac:(lia)) as Hgood.
  unfold number_digits. fold m e. fold (v_num m e) (v_den e). unfold v_log, estimate in En. rewrite En.
  destruct (shortest 16 1 (bits mod 2 ^ 63) (v_num m e) (v_den e) n) as [s0 scale0]. cbn [fst snd] in Hgood.
  destruct (strip_zeros_spec 20 s0 scale0 (good_pos _ _ _ _ _ _ Hgood)) as (j & Hj & E1 & E2 & Hp).
  destruct (strip_zeros 20 s0 scale0) as [s scale]. cbn [fst snd] in *. exists s, scale.
  pose proof (good_digits_small _ _ _ _ _ _ Hbelow Hgood) as Hsmall. pose proof (pow10_pos j Hj).
  split; [done |]. split; [nia |]. split; [destruct Hgood; lia |]. split.
  - rewrite E2, <- decimal_round_strip by done. rewrite <- E1. apply Hgood.
  - intros len Hl Hlen. subst scale. pose proof (good_digits_point _ _ _ Hd _ _ _ (len + j) Hgood ltac:(lia)) as Hpt.
    replace (len + j - 1) with (len - 1 + j) in Hpt by lia. rewrite pow_split in Hpt by lia. rewrite E1 in Hpt.
    assert (10 ^ (len - 1) * 10 ^ j <= s * 10 ^ j) by (apply Z.mul_le_mono_nonneg_r; lia). lia.
Qed.
