(* ===== verification/Vocabulary.v ===== *)
(** * Wire vocabularies ([generated/radio-contract.generated.ts])

    The dictionaries of the binary codec, in wire order: the position of a
    string is its token. *)

From Stdlib Require Import ZArith String.
From stdpp Require Import base list option.
From S2P Require Import Prelude JsMap.

(** Object keys of the radio contract. *)
Definition FRAME_BINARY_KEYS : list (list Z) :=
  map js [
    "$ref"; "acknowledged_at"; "action"; "alias"; "altitude_m"; "api_key"; "asset_id"; "attribution";
    "battery_percent"; "bucket"; "cancellation"; "checked_at"; "classification"; "code"; "command";
    "command_manifest"; "communications"; "components"; "connector_id"; "content_type"; "coordinates";
    "created_at"; "custom_plugin"; "description"; "details"; "display_name"; "east"; "entities"; "entity";
    "entity_id"; "entity_type"; "error_code"; "error_id"; "event"; "events"; "extra"; "failure"; "features";
    "fields"; "filter"; "finished_at"; "geometry"; "has_more"; "has_more_entities"; "has_more_objects";
    "has_more_tasks"; "heading_deg"; "health"; "heartbeat"; "horizontal_fov"; "horizontal_orientation";
    "id"; "input"; "input_schema"; "interaction"; "kind"; "label"; "last_seen"; "last_update"; "latitude";
    "link_state"; "longitude"; "manifest"; "media_refs"; "message"; "metadata"; "mil_view"; "name";
    "next_cursor"; "next_entity_cursor"; "next_object_cursor"; "next_task_cursor"; "north"; "object_id";
    "objects"; "operation_id"; "operations"; "output"; "output_schema"; "path"; "plugin_id"; "progress";
    "properties"; "protocol_revision"; "provenance"; "published_at"; "radius_m"; "reason"; "reason_code";
    "referenced_by"; "resource"; "resource_type"; "result"; "retrieved_at"; "role"; "runtime_id";
    "scheduling"; "sensor_id"; "sensor_refs"; "shape"; "size_bytes"; "source"; "south"; "speed_m_s";
    "started_at"; "status"; "subtype"; "success"; "supports_cancel"; "supports_progress"; "task_id";
    "tasks"; "telemetry"; "text"; "timeout_ms"; "timestamp"; "title"; "tool_asset_id"; "truncation"; "type";
    "updated_at"; "url"; "usage_hints"; "value"; "version"; "vertical_fov"; "vertical_orientation"; "west"
  ]%string.

(** String values of the radio contract. *)
Definition FRAME_BINARY_STRINGS : list (list Z) :=
  map js [
    "$ref"; "BODY_TOO_LARGE"; "BUCKET_NOT_FOUND"; "CONTENT_TYPE_NOT_VIEWABLE"; "CURSOR_EXPIRED";
    "ENTITY_ALIAS_NOT_FOUND"; "ENTITY_ALREADY_EXISTS"; "ENTITY_NOT_FOUND"; "FEED_UNAVAILABLE";
    "FILE_TOO_LARGE"; "INTERNAL_SERVER_ERROR"; "INVALID_FORM"; "INVALID_JSON"; "OBJECT_ALREADY_EXISTS";
    "OBJECT_NOT_FOUND"; "OBJECT_PATH_CONFLICT"; "PLUGIN_FAILURE"; "PLUGIN_INPUT_REJECTED";
    "PLUGIN_NOT_FOUND"; "PLUGIN_TIMEOUT"; "PLUGIN_UNAVAILABLE"; "PRECONDITION_FAILED"; "READ_ERROR";
    "STORAGE_ERROR"; "STORAGE_UNAVAILABLE"; "TASK_ALREADY_EXISTS"; "TASK_NOT_FOUND"; "TOO_MANY_ATTEMPTS";
    "UNAUTHORIZED"; "VALIDATION_ERROR"; "accepted"; "acknowledged"; "acknowledged_at"; "action"; "alias";
    "altitude_m"; "api_key"; "application_unhealthy"; "asset_id"; "asset_restarted"; "asset_stopped";
    "assignment"; "attribution"; "available"; "awaiting_core"; "battery_percent"; "body"; "bucket";
    "camera_feed"; "cancellation"; "cancelled"; "checked_at"; "civilian"; "classification"; "code";
    "command"; "command_manifest"; "communications"; "complete"; "completed"; "components"; "confirmation";
    "connected"; "connector_id"; "content_type"; "control"; "coordinates"; "core_confirmed"; "created_at";
    "custom_plugin"; "degraded"; "delivery"; "description"; "details"; "disconnected"; "display_name";
    "east"; "entities"; "entity"; "entity_id"; "entity_type"; "error_code"; "error_id"; "event"; "events";
    "execution_failed"; "extra"; "failed"; "failure"; "feature_limit"; "features"; "field"; "fields";
    "filter"; "finished_at"; "friendly"; "geometry"; "has_more"; "has_more_entities"; "has_more_objects";
    "has_more_tasks"; "heading_deg"; "health"; "heartbeat"; "heatmap_data"; "horizontal_fov";
    "horizontal_orientation"; "hostile"; "id"; "immediate"; "immediate_start_timeout"; "in_progress";
    "input"; "input_schema"; "interaction"; "invalid_manifest"; "invalid_output"; "invalid_response";
    "kind"; "label"; "last_seen"; "last_update"; "latitude"; "link_state"; "longitude"; "manifest";
    "media_refs"; "message"; "message_id"; "metadata"; "mil_view"; "name"; "neutral"; "next_cursor";
    "next_entity_cursor"; "next_object_cursor"; "next_task_cursor"; "north"; "object"; "object_id";
    "objects"; "observation_time"; "operation_id"; "operations"; "output"; "output_schema"; "path";
    "pending"; "plugin_id"; "precondition_failed"; "progress"; "properties"; "protocol_revision";
    "provenance"; "published_at"; "queued"; "r"; "radius_m"; "reason"; "reason_code"; "referenced_by";
    "requested"; "resource"; "resource_type"; "response_budget"; "result"; "retrieved_at"; "role";
    "runtime_id"; "scheduling"; "sensor_id"; "sensor_refs"; "service_session"; "shape"; "size_bytes";
    "source"; "source_generation"; "source_sequence"; "south"; "speed_m_s"; "started_at"; "starting";
    "state"; "status"; "subtype"; "success"; "superseded"; "supports_cancel"; "supports_progress"; "task";
    "task_delivery"; "task_id"; "task_report"; "tasks"; "telemetry"; "text"; "thumbnail"; "timeout_ms";
    "timestamp"; "title"; "tool_asset_id"; "transport_timeout"; "transport_unreachable"; "truncation";
    "type"; "unavailable"; "unknown"; "unsupported_command"; "updated_at"; "url"; "usage_hints"; "value";
    "version"; "vertical_fov"; "vertical_orientation"; "west"
  ]%string.

(** ** Dictionary indexes *)

(** [new Map(dictionary.map((text, index) => [text, index]))] *)
Definition dictionary_indexes (dictionary : list (list Z)) : list (list Z * Z) :=
  fold_left (fun m p => jset (snd p) (Z.of_nat (fst p)) m) (imap pair dictionary) [].

Definition binaryKeyIndexes : list (list Z * Z) := Eval vm_compute in dictionary_indexes FRAME_BINARY_KEYS.
Definition binaryStringIndexes : list (list Z * Z) := Eval vm_compute in dictionary_indexes FRAME_BINARY_STRINGS.

Lemma dictionary_indexes_sound dictionary text i :
  jget text (dictionary_indexes dictionary) = Some i ->
  nthZ dictionary i = Some text /\ 0 <= i < zlen dictionary.
Proof.
  unfold dictionary_indexes.
  assert (Hl : forall (l : list (nat * list Z)) m,
    (forall t j, jget t m = Some j -> exists n, j = Z.of_nat n /\ dictionary !! n = Some t) ->
    (forall p, p ∈ l -> dictionary !! (fst p) = Some (snd p)) ->
    forall t j, jget t (fold_left (fun m p => jset (snd p) (Z.of_nat (fst p)) m) l m) = Some j ->
      exists n, j = Z.of_nat n /\ dictionary !! n = Some t).
  { induction l as [| p l IH]; cbn; intros m Hm Hp; [done |]. apply IH.
    - intros t j. rewrite jget_jset. case_decide as E; [| apply Hm].
      intros [= <-]. exists (fst p). split; [done |]. rewrite E. apply Hp. constructor.
    - intros q Hq. apply Hp. by constructor. }
  intros H. apply Hl in H as (n & -> & Hn).
  - rewrite nthZ_lookup. apply lookup_lt_Some in Hn as Hlt. unfold zlen. split; [done | lia].
  - done.
  - intros [n t] H'. apply list_elem_of_lookup in H' as [k Hk]. rewrite list_lookup_imap in Hk.
    destruct (dictionary !! k) eqn:E; [| done]. by injection Hk as <- <-.
Qed.

(** A vocabulary in wire order and the map a writer looks tokens up in. *)
Class Vocabulary (dictionary : list (list Z)) (indexes : list (list Z * Z)) := {
  vocabulary_indexes : indexes = dictionary_indexes dictionary;
  vocabulary_length : zlen dictionary <= 1000;
  vocabulary_units : Forall is_jsstr dictionary
}.

#[export] Instance binary_keys : Vocabulary FRAME_BINARY_KEYS binaryKeyIndexes.
Proof. split; [vm_compute; reflexivity | apply Z.leb_le; vm_compute; reflexivity | apply (bool_decide_unpack _); vm_compute; exact I]. Qed.

#[export] Instance binary_strings : Vocabulary FRAME_BINARY_STRINGS binaryStringIndexes.
Proof. split; [vm_compute; reflexivity | apply Z.leb_le; vm_compute; reflexivity | apply (bool_decide_unpack _); vm_compute; exact I]. Qed.

Lemma vocabulary_sound `{Vocabulary dictionary indexes} text i :
  jget text indexes = Some i -> nthZ dictionary i = Some text /\ 0 <= i < zlen dictionary.
Proof. rewrite vocabulary_indexes. apply dictionary_indexes_sound. Qed.
