(* ===== verification/BinaryCodec.v ===== *)
(** * The binary-v1 payload codec ([binary-codec.ts])

    A canonical JSON payload as tagged binary values with a fixed vocabulary.
    Writers return the bytes they push; readers take the unread bytes and
    return the rest.  [room] counts the levels left above [MAX_BINARY_DEPTH]
    (the source's [depth] is [65 - room]); [count] is [state.count]. *)

From Stdlib Require Import ZArith Lia String.
From stdpp Require Import base list option.
From S2P Require Import Prelude JsMap BinaryIO Wtf8 Json Vocabulary.

Definition MAX_BINARY_DEPTH : nat := 64.
Definition MAX_BINARY_NODES : Z := 65536.
Definition MAX_BINARY_BYTES : Z := 128 * 1024.
Definition TAG_NULL : Z := 0.
Definition TAG_FALSE : Z := 1.
Definition TAG_TRUE : Z := 2.
Definition TAG_NUMBER : Z := 3.
Definition TAG_STRING : Z := 4.
Definition TAG_ARRAY : Z := 5.
Definition TAG_OBJECT : Z := 6.

Definition too_deep : js_error := RangeError "Binary payload is too deep".
Definition push_varint : Z -> result (list Z) := writeVarint "Invalid binary-v1 integer".
Definition pull_varint : list Z -> result (Z * list Z) :=
  readVarint "Truncated binary-v1 integer" "Invalid binary-v1 integer".

Arguments push_varint : simpl never.
Arguments pull_varint : simpl never.

(** ** Writing *)

Definition writeString (value : list Z) (indexes : list (list Z * Z)) : result (list Z) :=
  match jget value indexes with
  | Some index => push_varint (index + 1)
  | None =>
      let encoded := encodeBinaryUtf8 value in
      guard! zlen encoded <=? MAX_BINARY_BYTES
        else RangeError "Binary payload string is too large" in
      let! zero := push_varint 0 in
      let! len := push_varint (zlen encoded) in
      Ok (zero ++ len ++ encoded)
  end.

Section write_nested.
Context (write : json -> Z -> result (list Z * Z)).

Fixpoint write_elements (l : list json) (count : Z) : result (list Z * Z) :=
  match l with
  | [] => Ok ([], count)
  | child :: l' =>
      let! (bs, count1) := write child count in
      let! (bs', count2) := write_elements l' count1 in
      Ok (bs ++ bs', count2)
  end.

Fixpoint write_members (m : list (list Z * json)) (count : Z) : result (list Z * Z) :=
  match m with
  | [] => Ok ([], count)
  | (key, child) :: m' =>
      let! text := writeString key binaryKeyIndexes in
      let! (bs, count1) := write child count in
      let! (bs', count2) := write_members m' count1 in
      Ok (text ++ bs ++ bs', count2)
  end.
End write_nested.

Fixpoint writeValue (room : nat) (value : json) (count : Z) : result (list Z * Z) :=
  match room with
  | O => Throw too_deep
  | S room' =>
      let count' := count + 1 in
      guard! count' <=? MAX_BINARY_NODES else too_deep in
      match value with
      | JNull => Ok ([TAG_NULL], count')
      | JBool false => Ok ([TAG_FALSE], count')
      | JBool true => Ok ([TAG_TRUE], count')
      | JNumber bits =>
          guard! f64_isFinite bits else TypeError "Binary payload number is not finite" in
          Ok (TAG_NUMBER :: le_bytes 8 bits, count')
      | JString s =>
          let! text := writeString s binaryStringIndexes in Ok (TAG_STRING :: text, count')
      | JArray l =>
          let! len := push_varint (zlen l) in
          let! (bs, count'') := write_elements (writeValue room') l count' in
          Ok (TAG_ARRAY :: len ++ bs, count'')
      | JObject m =>
          let entries := sort_entries m in
          let! len := push_varint (zlen entries) in
          let! (bs, count'') := write_members (writeValue room') entries count' in
          Ok (TAG_OBJECT :: len ++ bs, count'')
      end
  end.

(** ** Reading *)

Definition readString (dictionary : list (list Z)) (raw : list Z) : result (list Z * list Z) :=
  let! (token, raw1) := pull_varint raw in
  if 0 <? token then
    let! value := from_option (nthZ dictionary (token - 1)) (TypeError "Unknown binary-v1 dictionary string") in
    Ok (value, raw1)
  else
    let! (length, raw2) := pull_varint raw1 in
    guard! negb ((MAX_BINARY_BYTES <? length) || (zlen raw2 <? length))
      else TypeError "Truncated binary-v1 string" in
    let! value := decodeBinaryUtf8 (take (Z.to_nat length) raw2) in
    Ok (value, drop (Z.to_nat length) raw2).

Definition readCount (raw : list Z) : result (Z * list Z) :=
  let! (count, raw1) := pull_varint raw in
  guard! count <=? MAX_BINARY_NODES else RangeError "Binary payload has too many values" in
  Ok (count, raw1).

Section read_nested.
Context (read : Z -> list Z -> result (json * Z * list Z)).

Fixpoint read_elements (n : nat) (count : Z) (raw : list Z) : result (list json * Z * list Z) :=
  match n with
  | O => Ok ([], count, raw)
  | S n' =>
      let! (child, count1, raw1) := read count raw in
      let! (rest, count2, raw2) := read_elements n' count1 raw1 in
      Ok (child :: rest, count2, raw2)
  end.

Fixpoint read_members (n : nat) (value : list (list Z * json)) (count : Z) (raw : list Z)
    : result (list (list Z * json) * Z * list Z) :=
  match n with
  | O => Ok (value, count, raw)
  | S n' =>
      let! (key, raw1) := readString FRAME_BINARY_KEYS raw in
      guard! negb (jhas key value) else TypeError "Duplicate binary-v1 object key" in
      let! (child, count1, raw2) := read count raw1 in
      read_members n' (jset key child value) count1 raw2
  end.
End read_nested.

Fixpoint readValue (room : nat) (count : Z) (raw : list Z) : result (json * Z * list Z) :=
  match room with
  | O => Throw too_deep
  | S room' =>
      let count' := count + 1 in
      guard! count' <=? MAX_BINARY_NODES else too_deep in
      let! (tag, raw1) := pull_varint raw in
      if tag =? TAG_NULL then Ok (JNull, count', raw1)
      else if tag =? TAG_FALSE then Ok (JBool false, count', raw1)
      else if tag =? TAG_TRUE then Ok (JBool true, count', raw1)
      else if tag =? TAG_NUMBER then
        guard! 8 <=? zlen raw1 else TypeError "Truncated binary-v1 number" in
        let bits := le_value (take 8 raw1) in
        guard! f64_isFinite bits else TypeError "Binary payload number is not finite" in
        Ok (JNumber bits, count', drop 8 raw1)
      else if tag =? TAG_STRING then
        let! (value, raw2) := readString FRAME_BINARY_STRINGS raw1 in Ok (JString value, count', raw2)
      else if tag =? TAG_ARRAY then
        let! (n, raw2) := readCount raw1 in
        let! (l, count'', raw3) := read_elements (readValue room') (Z.to_nat n) count' raw2 in
        Ok (JArray l, count'', raw3)
      else if tag =? TAG_OBJECT then
        let! (n, raw2) := readCount raw1 in
        let! (m, count'', raw3) := read_members (readValue room') (Z.to_nat n) [] count' raw2 in
        Ok (JObject m, count'', raw3)
      else Throw (TypeError "Unknown binary-v1 value tag")
  end.

(** ** Payloads *)

Definition BINARY_V1_VOCABULARY_SHA256 : string :=
  "45b9871d47b18b9ad88998c35e18ec0dbf32f9bd5bda483e52c6d54ed0fff1d7".

Section payload.
(** [createHash("sha256").update(text).digest("hex")] *)
Context (sha256_hex : list Z -> list Z).

(** The [binaryVocabularyVerified] flag only caches this test. *)
Definition assertBinaryVocabulary : result unit :=
  let vocabulary := JArray [JArray (map JString FRAME_BINARY_KEYS); JArray (map JString FRAME_BINARY_STRINGS)] in
  guard! bool_decide (sha256_hex (stringify vocabulary) = js BINARY_V1_VOCABULARY_SHA256)
    else PlainError "binary-v1 vocabulary changed" in
  Ok tt.

Definition encodeBinaryPayload (payload : list Z) : result (option (list Z)) :=
  let! _ := assertBinaryVocabulary in
  Ok (try_result (
    let! value := decodeJSON payload in
    let! canonical := encodeCanonicalJSON value in
    guard! bool_decide (canonical = payload) else PlainError "not canonical" in
    let! (output, _) := writeValue (S MAX_BINARY_DEPTH) value 0 in
    Ok output)).

Definition decodeBinaryPayload (raw : list Z) (start : nat) : result (list Z) :=
  let! _ := assertBinaryVocabulary in
  let! (value, _, rest) := readValue (S MAX_BINARY_DEPTH) 0 (drop start raw) in
  guard! bool_decide (rest = []) else TypeError "Invalid binary-v1 payload boundary" in
  let! payload := encodeCanonicalJSON value in
  guard! zlen payload <=? MAX_BINARY_BYTES else RangeError "Binary payload exceeds 128 KiB" in
  Ok payload.
End payload.

(** ** The reader inverts the writer *)

Lemma pull_push value bs rest : push_varint value = Ok bs -> pull_varint (bs ++ rest) = Ok (value, rest).
Proof. intros [Hv ->]%writeVarint_ok. by apply readVarint_digits. Qed.

Lemma pull_byte value rest : 0 <= value < 128 -> pull_varint (value :: rest) = Ok (value, rest).
Proof.
  intros Hv. apply (pull_push value [value] rest). apply writeVarint_ok.
  split; [unfold MAX_SAFE_INTEGER; lia |]. rewrite varint_digits_cons by lia.
  by destruct (Z.ltb_spec value 128); [| lia].
Qed.

Lemma readString_writeString `{Vocabulary dictionary indexes} s bs rest :
  is_jsstr s -> writeString s indexes = Ok bs -> readString dictionary (bs ++ rest) = Ok (s, rest).
Proof.
  intros Hs Hw. unfold writeString in Hw. unfold readString.
  destruct (jget s indexes) as [index |] eqn:E.
  - apply vocabulary_sound in E as [Hn Hi]. rewrite (pull_push _ _ _ Hw). cbn.
    destruct (Z.ltb_spec 0 (index + 1)); [| lia].
    replace (index + 1 - 1) with index by lia. by rewrite Hn.
  - inv_result. reflect_tests. rewrite <- app_assoc, (pull_push _ _ _ E0). cbn.
    rewrite <- app_assoc, (pull_push _ _ _ E1). cbn.
    rewrite zlen_app.
    destruct (Z.ltb_spec MAX_BINARY_BYTES (zlen (encodeBinaryUtf8 s))); [lia |].
    pose proof (zlen_nonneg rest).
    destruct (Z.ltb_spec (zlen (encodeBinaryUtf8 s) + zlen rest) (zlen (encodeBinaryUtf8 s))); [lia |]. cbn.
    rewrite take_zlen_app, drop_zlen_app.
    rewrite <- (app_nil_r (encodeBinaryUtf8 s)), decode_encode_app by done. cbn. by rewrite app_nil_r.
Qed.

(** A writer of values that [read] inverts, up to the order of members. *)
Definition inverts (read : Z -> list Z -> result (json * Z * list Z))
    (write : json -> Z -> result (list Z * Z)) (v : json) : Prop :=
  forall count bs count' rest, 0 <= count -> write v count = Ok (bs, count') ->
    read count (bs ++ rest) = Ok (canon v, count', rest) /\ count < count' <= MAX_BINARY_NODES.

Lemma read_elements_write read write l : Forall (inverts read write) l ->
  forall count bs count' rest, 0 <= count -> write_elements write l count = Ok (bs, count') ->
  read_elements read (length l) count (bs ++ rest) = Ok (map canon l, count', rest) /\
  count + zlen l <= count' <= Z.max count MAX_BINARY_NODES.
Proof.
  induction 1 as [| v l Hv _ IH]; cbn; intros count bs count' rest H0 Hw; inv_result.
  - split; [done |]. rewrite zlen_nil. lia.
  - rewrite <- app_assoc. destruct (Hv _ _ _ (l1 ++ rest) H0 E) as [-> Hc'].
    destruct (IH z _ _ rest ltac:(lia) E0) as [Hr Hc]. cbn. rewrite Hr. cbn.
    split; [done |]. rewrite zlen_cons. lia.
Qed.

Lemma read_members_write read write m : Forall (fun p => is_jsstr (fst p) /\ inverts read write (snd p)) m ->
  forall acc count bs count' rest, 0 <= count -> jwf (acc ++ m) -> write_members write m count = Ok (bs, count') ->
  read_members read (length m) acc count (bs ++ rest)
    = Ok (acc ++ map (map_snd canon) m, count', rest) /\
  count + zlen m <= count' <= Z.max count MAX_BINARY_NODES.
Proof.
  induction 1 as [| [k v] m [Hk Hv] _ IH]; cbn; intros acc count bs count' rest H0 Hw Hm; inv_result.
  - rewrite app_nil_r, zlen_nil. split; [done | lia].
  - rewrite <- !app_assoc, (readString_writeString _ _ _ Hk E). cbn.
    assert (Hn : k ∉ jkeys acc).
    { unfold jwf, jkeys in Hw. rewrite map_app in Hw. cbn in Hw. apply list.NoDup_app in Hw as (_ & Hd & _).
      intros Hin. apply (Hd k Hin). constructor. }
    assert (jhas k acc = false) as -> by (by apply jhas_false, jget_None). cbn.
    destruct (Hv _ _ _ (l0 ++ rest) H0 E0) as [-> Hc]. cbn. rewrite jset_absent by done.
    assert (Hw' : jwf ((acc ++ [(k, canon v)]) ++ m)).
    { unfold jwf, jkeys in *. rewrite !map_app in *. cbn in *. by rewrite <- app_assoc. }
    destruct (IH _ z _ _ rest ltac:(lia) Hw' E1) as [Hr Hc']. rewrite Hr, <- app_assoc.
    split; [done |]. rewrite zlen_cons. lia.
Qed.

Lemma f64_bytes_read bits rest :
  0 <= bits < 2 ^ 64 ->
  take 8 (le_bytes 8 bits ++ rest) = le_bytes 8 bits /\ drop 8 (le_bytes 8 bits ++ rest) = rest /\
  le_value (le_bytes 8 bits) = bits /\ 8 <= zlen (le_bytes 8 bits ++ rest).
Proof.
  intros Hb. pose proof (le_bytes_length 8 bits) as Hl.
  rewrite take_app_length', drop_app_length' by done.
  rewrite le_value_bytes by (change (256 ^ Z.of_nat 8) with (2 ^ 64); done).
  rewrite zlen_app. unfold zlen. rewrite Hl. repeat split. lia.
Qed.

Lemma readCount_write n bs rest :
  push_varint n = Ok bs -> n <= MAX_BINARY_NODES -> readCount (bs ++ rest) = Ok (n, rest).
Proof.
  intros Hw Hn. unfold readCount. rewrite (pull_push _ _ _ Hw). cbn.
  by destruct (Z.leb_spec n MAX_BINARY_NODES); [| lia].
Qed.

Lemma readValue_writeValue room v : wf_json v -> inverts (readValue room) (writeValue room) v.
Proof.
  revert v. induction room as [| room IH]; intros v Hwf count bs count' rest H0 Hw; [done |].
  cbn [writeValue readValue] in *. inv_result. apply Z.leb_le in Hg.
  destruct v as [| [] | bits | s | l | m].
  - injection Hw as <- <-. cbn [app]. rewrite pull_byte by (unfold TAG_NULL; lia). split; [done | lia].
  - injection Hw as <- <-. cbn [app]. rewrite pull_byte by (unfold TAG_TRUE; lia). split; [done | lia].
  - injection Hw as <- <-. cbn [app]. rewrite pull_byte by (unfold TAG_FALSE; lia). split; [done | lia].
  - inv_result. cbn [app]. rewrite pull_byte by (unfold TAG_NUMBER; lia). cbn [bind_result].
    inversion Hwf as [| | ? Hb | | |]; subst.
    destruct (f64_bytes_read bits rest Hb) as (-> & -> & -> & Hl). cbn -[le_bytes zlen].
    destruct (Z.leb_spec 8 (zlen (le_bytes 8 bits ++ rest))); [| lia]. rewrite Hg0. split; [done | lia].
  - inv_result. cbn [app]. rewrite pull_byte by (unfold TAG_STRING; lia). cbn [bind_result Z.eqb].
    inversion Hwf; subst. cbn. rewrite (readString_writeString _ _ _ ltac:(done) E). split; [done | lia].
  - inv_result. inversion Hwf as [| | | | ? Hl |]; subst.
    apply read_elements_write with (read := readValue room) (rest := rest) in E0 as [Hr Hc];
      [| apply (Forall_weaken _ _ _ Hl IH) | lia].
    cbn [app]. rewrite pull_byte, <- app_assoc by (unfold TAG_ARRAY; lia). cbn -[pull_varint].
    rewrite (readCount_write _ _ _ E) by lia. cbn [bind_result].
    unfold zlen. rewrite Nat2Z.id, Hr. split; [done |]. pose proof (zlen_nonneg l). lia.
  - inv_result. inversion Hwf as [| | | | | ? Hj Hm]; subst.
    apply read_members_write with (read := readValue room) (acc := []) (rest := rest) in E0 as [Hr Hc].
    + cbn [app]. rewrite pull_byte, <- app_assoc by (unfold TAG_OBJECT; lia). cbn -[pull_varint].
      rewrite (readCount_write _ _ _ E) by lia. cbn [bind_result].
      unfold zlen. rewrite Nat2Z.id, Hr. cbn [bind_result app]. rewrite sort_entries_map.
      split; [done |]. pose proof (zlen_nonneg (sort_entries m)). lia.
    + apply Forall_sort_entries, (Forall_weaken _ _ _ Hm). intros [k v] [? ?]. split; [done | by apply IH].
    + lia.
    + by apply sort_entries_wf.
Qed.

(** ** Properties *)

(** the binary reader inverts the binary writer on every JSON value it
    accepts, whatever the depth limit and the nodes already counted: it gives
    the value back with members in sorted order, leaves exactly the bytes that
    followed, and both count the same number of nodes, at most
    [MAX_BINARY_NODES]. *)
Theorem readValue_inverts_writeValue room v count bs count' rest :
  wf_json v -> 0 <= count -> writeValue room v count = Ok (bs, count') ->
  readValue room count (bs ++ rest) = Ok (canon v, count', rest) /\ count < count' <= MAX_BINARY_NODES.
Proof. intros Hv Hc Hw. exact (readValue_writeValue room v Hv count bs count' rest Hc Hw). Qed.

Lemma decodeBinaryPayload_nonempty sha256_hex raw payload :
  decodeBinaryPayload sha256_hex raw 0 = Ok payload -> 0 < zlen raw.
Proof.
  destruct raw as [| b raw]; [| intros; rewrite zlen_cons; pose proof (zlen_nonneg raw); lia].
  unfold decodeBinaryPayload. intros H. apply bind_ok in H as ([] & _ & H). discriminate H.
Qed.

(** The decoder inverts the encoder. *)
Lemma binary_payload_inverts sha256_hex payload output prefix :
  is_bytes payload -> zlen payload <= MAX_BINARY_BYTES ->
  encodeBinaryPayload sha256_hex payload = Ok (Some output) ->
  decodeBinaryPayload sha256_hex (prefix ++ output) (length prefix) = Ok payload.
Proof.
  intros Hb Hs He. unfold encodeBinaryPayload, decodeBinaryPayload in *. inv_result.
  unfold try_result in He. destruct (bind_result _ _) as [out |] eqn:Hw; [| done].
  injection He as ->. inv_result. reflect_tests. subst.
  assert (Hwf : wf_json a0) by (by eapply decodeJSON_wf).
  destruct (readValue_writeValue _ _ Hwf _ _ _ [] ltac:(done) E2) as [Hr _].
  rewrite app_nil_r in Hr. rewrite E. cbn [bind_result]. rewrite drop_app_length, Hr. cbn [bind_result].
  rewrite bool_decide_true by done. rewrite encodeCanonicalJSON_canon, E1. cbn [bind_result].
  by destruct (Z.leb_spec (zlen payload) MAX_BINARY_BYTES); [| lia].
Qed.

(** C39: a payload [encodeBinaryPayload] accepts decodes back to the same bytes,
    from any offset, as long as it is within the 128 KiB the decoder allows. *)
Theorem binary_payload_roundtrip sha256_hex payload output prefix :
  is_bytes payload -> zlen payload <= MAX_BINARY_BYTES ->
  encodeBinaryPayload sha256_hex payload = Ok (Some output) ->
  decodeBinaryPayload sha256_hex (prefix ++ output) (length prefix) = Ok payload.
Proof. intros. by apply binary_payload_inverts. Qed.

(** [{"action":[true,-1.5,"héllo"]}] *)
Definition sample_json : json :=
  JObject [(js "action", JArray [JBool true; JNumber 0xbff8000000000000; JString [104; 233; 108; 108; 111]])].

Lemma readValue_inverts_writeValue_witness :
  let bs := [6; 1; 3; 5; 3; 2; 3; 0; 0; 0; 0; 0; 0; 248; 191; 4; 0; 6; 104; 195; 169; 108; 108; 111] in
  writeValue 3 sample_json 7 = Ok (bs, 12) /\
  readValue 3 7 (bs ++ [9]) = Ok (canon sample_json, 12, [9]) /\ 7 < 12 <= MAX_BINARY_NODES.
Proof.
  split; [vm_compute; reflexivity |].
  apply readValue_inverts_writeValue; [| done | vm_compute; reflexivity].
  repeat constructor; cbn; try (unfold is_unit; lia); try done. by intros ?%elem_of_nil.
Defined.

Definition sample_payload : list Z := [123; 34; 97; 34; 58; 91; 116; 114; 117; 101; 44; 50; 93; 125].
Definition sample_digest (text : list Z) : list Z := js BINARY_V1_VOCABULARY_SHA256.

Lemma binary_payload_roundtrip_witness :
  let output := [6; 1; 0; 1; 97; 5; 2; 2; 3; 0; 0; 0; 0; 0; 0; 0; 64] in
  encodeBinaryPayload sample_digest sample_payload = Ok (Some output) /\
  decodeBinaryPayload sample_digest ([1; 2] ++ output) (length [1; 2]) = Ok sample_payload.
Proof.
  split; [vm_compute; reflexivity |].
  apply binary_payload_roundtrip; [| done | vm_compute; reflexivity].
  repeat (constructor; try (unfold is_byte; lia)).
Defined.
