(* ===== verification/CompactValue.v ===== *)
(** * Compact values v1 ([compact-value.ts])

    A canonical JSON payload as tagged values with minimal integers, exact
    float32, packed UUIDs and a per-message text table shared by keys and
    values.  The reader also meters the canonical JSON it would produce, so a
    small body cannot expand beyond 128 KiB. *)

From Stdlib Require Import ZArith Lia String.
From stdpp Require Import base list option.
From S2P Require Import Prelude JsMap BinaryIO Wtf8 Json Vocabulary BinaryCodec.

Definition COMPACT_VALUE_VERSION : Z := 1.
Definition MAX_CANONICAL_BYTES : Z := 128 * 1024.
Definition MAX_COMPACT_BYTES : Z := MAX_CANONICAL_BYTES * 4.
Definition MAX_DEPTH : nat := 64.
Definition MAX_NODES : Z := 65536.
Definition MAX_STRING_BYTES : Z := MAX_CANONICAL_BYTES.
Definition MAX_TABLE_ENTRIES : Z := 32.

Definition CTAG_NULL : Z := 0.
Definition CTAG_FALSE : Z := 1.
Definition CTAG_TRUE : Z := 2.
Definition CTAG_INTEGER_POSITIVE : Z := 3.
Definition CTAG_INTEGER_NEGATIVE : Z := 4.
Definition CTAG_FLOAT32 : Z := 5.
Definition CTAG_FLOAT64 : Z := 6.
Definition CTAG_STRING : Z := 7.
Definition CTAG_ARRAY : Z := 8.
Definition CTAG_OBJECT : Z := 9.

(** ** The text table *)

Record TextTable := mkTable { tt_values : list (list Z); tt_indexes : list (list Z * Z) }.

Definition empty_table : TextTable := mkTable [] [].

Definition table_index (value : list Z) (t : TextTable) : option Z := jget value (tt_indexes t).

Definition table_add (value : list Z) (t : TextTable) : TextTable :=
  if jhas value (tt_indexes t) || (MAX_TABLE_ENTRIES <=? zlen (tt_values t)) then t
  else mkTable (tt_values t ++ [value]) (jset value (zlen (tt_values t)) (tt_indexes t)).

Definition table_value (index : Z) (t : TextTable) : result (list Z) :=
  from_option (nthZ (tt_values t) index) (TypeError "Unknown compact text reference").

(** ** UUIDs *)

Definition is_lower_hex (c : Z) : bool := is_digit c || ((97 <=? c) && (c <=? 102)).

(** [/^[0-9a-f]{8}-[0-9a-f]{4}-[0-9a-f]{4}-[0-9a-f]{4}-[0-9a-f]{12}$/]:
    how many hexadecimal digits each group has, a dash between groups. *)
Fixpoint hex_groups (groups : list nat) (left : nat) (s : list Z) : bool :=
  match s, left with
  | c :: s', S left' => is_lower_hex c && hex_groups groups left' s'
  | c :: s', O =>
      match groups with
      | g :: groups' => (c =? 45) && hex_groups groups' g s'
      | [] => false
      end
  | [], O => match groups with [] => true | _ => false end
  | [], S _ => false
  end.

Definition is_uuid (s : list Z) : bool := hex_groups [4; 4; 4; 12]%nat 8 s.

Definition hex_nibble (c : Z) : Z := if is_digit c then c - 48 else c - 87.

Fixpoint hex_pairs (hex : list Z) : list Z :=
  match hex with
  | a :: b :: r => hex_nibble a * 16 + hex_nibble b :: hex_pairs r
  | _ => []
  end.

Definition packUUID (value : list Z) : option (list Z) :=
  if is_uuid value then Some (hex_pairs (List.filter (fun c => negb (c =? 45)) value)) else None.

(** [byte.toString(16).padStart(2, "0")] *)
Definition hex_byte (b : Z) : list Z := [hex_digit (b / 16); hex_digit (b mod 16)].

Definition uuidString (bs : list Z) : list Z :=
  let hex := concat (map hex_byte bs) in
  take 8 hex ++ [45] ++ take 4 (drop 8 hex) ++ [45] ++ take 4 (drop 12 hex) ++ [45] ++
  take 4 (drop 16 hex) ++ [45] ++ drop 20 hex.

Definition dictionary_of (key : bool) : list (list Z) :=
  if key then FRAME_BINARY_KEYS else FRAME_BINARY_STRINGS.
Definition indexes_of (key : bool) : list (list Z * Z) :=
  if key then binaryKeyIndexes else binaryStringIndexes.

Definition uuidToken (key : bool) : Z := zlen (dictionary_of key) + MAX_TABLE_ENTRIES + 1.

(** ** Numbers *)

(** [Number.isSafeInteger]: the integer a double holds, if it is one. *)
Definition f64_magnitude (bits : Z) : option Z :=
  let m := f64_significand bits in
  let e := f64_scale bits in
  if 0 <=? e then Some (m * 2 ^ e)
  else if m mod 2 ^ (- e) =? 0 then Some (m / 2 ^ (- e)) else None.

Definition f64_safe_integer (bits : Z) : option Z :=
  match f64_magnitude bits with
  | Some n => if n <=? MAX_SAFE_INTEGER then Some (if f64_negative bits then - n else n) else None
  | None => None
  end.

(** The double of an integer of at most 53 bits. *)
Definition f64_of_integer (n : Z) : Z :=
  let a := Z.abs n in
  let magnitude :=
    if a =? 0 then 0
    else (Z.log2 a + 1023) * 2 ^ 52 + (a * 2 ^ (52 - Z.log2 a) - 2 ^ 52) in
  if n <? 0 then 2 ^ 63 + magnitude else magnitude.

(** The double a float32 pattern denotes ([getFloat32]). *)
Definition f64_of_f32 (p : Z) : Z :=
  let sign := if 2 ^ 31 <=? p then 2 ^ 63 else 0 in
  let e := (p / 2 ^ 23) mod 256 in
  let m := p mod 2 ^ 23 in
  if e =? 255 then sign + 2047 * 2 ^ 52 + m * 2 ^ 29
  else if e =? 0 then
    if m =? 0 then sign
    else sign + (Z.log2 m + 874) * 2 ^ 52 + (m * 2 ^ (52 - Z.log2 m) - 2 ^ 52)
  else sign + (e + 896) * 2 ^ 52 + m * 2 ^ 29.

(** The float32 pattern obtained by dropping the low bits of a double. *)
Definition f32_truncate (bits : Z) : Z :=
  let sign := if f64_negative bits then 2 ^ 31 else 0 in
  let e := f64_exponent bits in
  if 897 <=? e then sign + (e - 896) * 2 ^ 23 + f64_mantissa bits / 2 ^ 29
  else if 874 <=? e then sign + f64_significand bits / 2 ^ (926 - e)
  else sign.

(** [Math.fround(value) === value], with the bytes [setFloat32] then writes:
    the value is a float32 exactly when no bit is lost. *)
Definition f32_exact (bits : Z) : option Z :=
  let p := f32_truncate bits in
  if (p <? 2 ^ 32) && (f64_of_f32 p =? bits) then Some p else None.

(** ** The writer *)

(** The bytes written so far, [NodeState.count] and the text table. *)
Record wstate := mkW { w_used : Z; w_count : Z; w_table : TextTable }.

Definition compact_bound : js_error := RangeError "Compact value exceeds input bound".

(** [Writer.bytes] and [Writer.byte]; [Writer.varint] ensures each byte, which
    throws exactly when the last one does not fit. *)
Definition emit (bs : list Z) (st : wstate) : result (list Z * wstate) :=
  guard! w_used st + zlen bs <=? MAX_COMPACT_BYTES else compact_bound in
  Ok (bs, mkW (w_used st + zlen bs) (w_count st) (w_table st)).

Definition emit_varint (value : Z) (st : wstate) : result (list Z * wstate) :=
  let! bs := writeVarint "Invalid compact integer" value in emit bs st.

Definition visit (room : nat) (count : Z) : result Z :=
  match room with
  | O => Throw (RangeError "Compact value is too deep")
  | S _ =>
      guard! count + 1 <=? MAX_NODES else RangeError "Compact value has too many values" in
      Ok (count + 1)
  end.

Definition writeNumber (bits : Z) (st : wstate) : result (list Z * wstate) :=
  guard! f64_isFinite bits else TypeError "Compact value number is not finite" in
  match f64_safe_integer bits with
  | Some value =>
      if value <? 0 then
        let! (tag, st1) := emit [CTAG_INTEGER_NEGATIVE] st in
        let! (bs, st2) := emit_varint (- value) st1 in
        Ok (tag ++ bs, st2)
      else
        let! (tag, st1) := emit [CTAG_INTEGER_POSITIVE] st in
        let! (bs, st2) := emit_varint value st1 in
        Ok (tag ++ bs, st2)
  | None =>
      match f32_exact bits with
      | Some p =>
          let! (tag, st1) := emit [CTAG_FLOAT32] st in
          let! (bs, st2) := emit (le_bytes 4 p) st1 in
          Ok (tag ++ bs, st2)
      | None =>
          let! (tag, st1) := emit [CTAG_FLOAT64] st in
          let! (bs, st2) := emit (le_bytes 8 bits) st1 in
          Ok (tag ++ bs, st2)
      end
  end.

Definition remember (value : list Z) (st : wstate) : wstate :=
  mkW (w_used st) (w_count st) (table_add value (w_table st)).

Definition writeText (value : list Z) (key : bool) (st : wstate) : result (list Z * wstate) :=
  match table_index value (w_table st) with
  | Some reference => emit_varint (zlen (dictionary_of key) + 1 + reference) st
  | None =>
      match jget value (indexes_of key) with
      | Some dictionary =>
          let! (bs, st1) := emit_varint (dictionary + 1) st in Ok (bs, remember value st1)
      | None =>
          match packUUID value with
          | Some uuid =>
              let! (token, st1) := emit_varint (uuidToken key) st in
              let! (bs, st2) := emit uuid st1 in
              Ok (token ++ bs, remember value st2)
          | None =>
              let encoded := encodeBinaryUtf8 value in
              guard! zlen encoded <=? MAX_STRING_BYTES else RangeError "Compact value string is too large" in
              let! (token, st1) := emit_varint 0 st in
              let! (len, st2) := emit_varint (zlen encoded) st1 in
              let! (bs, st3) := emit encoded st2 in
              Ok (token ++ len ++ bs, remember value st3)
          end
      end
  end.

Section write_nested.
Context (write : json -> wstate -> result (list Z * wstate)).

Fixpoint write_children (l : list json) (st : wstate) : result (list Z * wstate) :=
  match l with
  | [] => Ok ([], st)
  | child :: l' =>
      let! (bs, st1) := write child st in
      let! (bs', st2) := write_children l' st1 in
      Ok (bs ++ bs', st2)
  end.

Fixpoint write_entries (m : list (list Z * json)) (st : wstate) : result (list Z * wstate) :=
  match m with
  | [] => Ok ([], st)
  | (key, child) :: m' =>
      let! (text, st1) := writeText key true st in
      let! (bs, st2) := write child st1 in
      let! (bs', st3) := write_entries m' st2 in
      Ok (text ++ bs ++ bs', st3)
  end.
End write_nested.

Fixpoint compact_write (room : nat) (value : json) (st : wstate) : result (list Z * wstate) :=
  let! count := visit room (w_count st) in
  let st0 := mkW (w_used st) count (w_table st) in
  match room with
  | O => Throw (RangeError "Compact value is too deep")
  | S room' =>
      match value with
      | JNull => emit [CTAG_NULL] st0
      | JBool false => emit [CTAG_FALSE] st0
      | JBool true => emit [CTAG_TRUE] st0
      | JNumber bits => writeNumber bits st0
      | JString s =>
          let! (tag, st1) := emit [CTAG_STRING] st0 in
          let! (text, st2) := writeText s false st1 in
          Ok (tag ++ text, st2)
      | JArray l =>
          let! (tag, st1) := emit [CTAG_ARRAY] st0 in
          let! (len, st2) := emit_varint (zlen l) st1 in
          let! (bs, st3) := write_children (compact_write room') l st2 in
          Ok (tag ++ len ++ bs, st3)
      | JObject m =>
          let entries := sort_entries m in
          let! (tag, st1) := emit [CTAG_OBJECT] st0 in
          let! (len, st2) := emit_varint (zlen entries) st1 in
          let! (bs, st3) := write_entries (compact_write room') entries st2 in
          Ok (tag ++ len ++ bs, st3)
      end
  end.

(** ** The reader *)

(** The unread input, the node count, the text table and the canonical bytes
    metered so far ([CanonicalBudget.total]). *)
Record rstate := mkR { r_input : list Z; r_count : Z; r_table : TextTable; r_total : Z }.

Definition set_input (raw : list Z) (st : rstate) : rstate :=
  mkR raw (r_count st) (r_table st) (r_total st).

Definition budget_bytes (value : Z) (st : rstate) : result rstate :=
  guard! r_total st + value <=? MAX_CANONICAL_BYTES else RangeError "Compact value exceeds 128 KiB" in
  Ok (mkR (r_input st) (r_count st) (r_table st) (r_total st + value)).

Definition utf8Bytes (codePoint : Z) : Z :=
  if codePoint <=? 0x7f then 1 else if codePoint <=? 0x7ff then 2 else if codePoint <=? 0xffff then 3 else 4.

Fixpoint string_body_bytes (value : list Z) : Z :=
  match value with
  | [] => 0
  | codeUnit :: rest =>
      if (codeUnit =? 0x22) || (codeUnit =? 0x5c) then 2 + string_body_bytes rest
      else if (codeUnit =? 0x08) || (codeUnit =? 0x09) || (codeUnit =? 0x0a) || (codeUnit =? 0x0c) || (codeUnit =? 0x0d)
      then 2 + string_body_bytes rest
      else if codeUnit <=? 0x1f then 6 + string_body_bytes rest
      else if is_high codeUnit then
        match rest with
        | next :: rest' =>
            if is_low next then utf8Bytes (surrogate_codePoint codeUnit next) + string_body_bytes rest'
            else 6 + string_body_bytes rest
        | [] => 6
        end
      else if is_low codeUnit then 6 + string_body_bytes rest
      else utf8Bytes codeUnit + string_body_bytes rest
  end.

Definition canonicalJSONStringBytes (value : list Z) : Z := 2 + string_body_bytes value.

Definition budget_number (bits : Z) (st : rstate) : result rstate := budget_bytes (zlen (number_text bits)) st.
Definition budget_string (value : list Z) (st : rstate) : result rstate :=
  budget_bytes (canonicalJSONStringBytes value) st.

Definition reader_byte (st : rstate) : result (Z * rstate) :=
  match r_input st with
  | [] => Throw (TypeError "Truncated compact value")
  | b :: raw => Ok (b, set_input raw st)
  end.

Definition reader_bytes (length : Z) (st : rstate) : result (list Z * rstate) :=
  guard! isSafeInteger length && (0 <=? length) && (length <=? zlen (r_input st))
    else TypeError "Truncated compact value bytes" in
  Ok (take (Z.to_nat length) (r_input st), set_input (drop (Z.to_nat length) (r_input st)) st).

Definition reader_varint (maximum : Z) (st : rstate) : result (Z * rstate) :=
  let! (value, raw) := compactVarint maximum (r_input st) in Ok (value, set_input raw st).

Definition float32 (st : rstate) : result (Z * rstate) :=
  let! (bs, st1) := reader_bytes 4 st in
  let value := f64_of_f32 (le_value bs) in
  guard! f64_isFinite value else TypeError "Compact value number is not finite" in Ok (value, st1).

Definition float64 (st : rstate) : result (Z * rstate) :=
  let! (bs, st1) := reader_bytes 8 st in
  let value := le_value bs in
  guard! f64_isFinite value else TypeError "Compact value number is not finite" in Ok (value, st1).

Definition add_text (value : list Z) (st : rstate) : rstate :=
  mkR (r_input st) (r_count st) (table_add value (r_table st)) (r_total st).

Definition readText (key : bool) (st : rstate) : result (list Z * rstate) :=
  let! (token, st1) := reader_varint (uuidToken key) st in
  if token =? 0 then
    let! (length, st2) := reader_varint MAX_STRING_BYTES st1 in
    let! (bs, st3) := reader_bytes length st2 in
    let! value := decodeBinaryUtf8 bs in
    Ok (value, add_text value st3)
  else
    let vocabulary := dictionary_of key in
    if token <=? zlen vocabulary then
      let! value := from_option (nthZ vocabulary (token - 1)) (TypeError "Unknown compact dictionary string") in
      Ok (value, add_text value st1)
    else
      let referenceStart := zlen vocabulary + 1 in
      let uuid := uuidToken key in
      if token <? uuid then
        let! value := table_value (token - referenceStart) (r_table st1) in Ok (value, st1)
      else if token =? uuid then
        let! (bs, st2) := reader_bytes 16 st1 in
        let value := uuidString bs in
        Ok (value, add_text value st2)
      else Throw (TypeError "Unknown compact text token").

Section read_nested.
Context (read : rstate -> result (json * rstate)).

(** One byte for the comma before every child but the first. *)
Definition comma (first : bool) (st : rstate) : result rstate :=
  if first then Ok st else budget_bytes 1 st.

Fixpoint read_children (n : nat) (first : bool) (st : rstate) : result (list json * rstate) :=
  match n with
  | O => Ok ([], st)
  | S n' =>
      let! st1 := comma first st in
      let! (child, st2) := read st1 in
      let! (rest, st3) := read_children n' false st2 in
      Ok (child :: rest, st3)
  end.

Fixpoint read_entries (n : nat) (first : bool) (value : list (list Z * json)) (st : rstate)
    : result (list (list Z * json) * rstate) :=
  match n with
  | O => Ok (value, st)
  | S n' =>
      let! st1 := comma first st in
      let! (key, st2) := readText true st1 in
      let! st3 := budget_string key st2 in
      let! st4 := budget_bytes 1 st3 in
      guard! negb (jhas key value) else TypeError "Duplicate compact object key" in
      let! (child, st5) := read st4 in
      read_entries n' false (jset key child value) st5
  end.
End read_nested.

Fixpoint compact_read (room : nat) (st : rstate) : result (json * rstate) :=
  let! count := visit room (r_count st) in
  match room with
  | O => Throw (RangeError "Compact value is too deep")
  | S room' =>
      let! (tag, st1) := reader_byte (mkR (r_input st) count (r_table st) (r_total st)) in
      if tag =? CTAG_NULL then let! st2 := budget_bytes 4 st1 in Ok (JNull, st2)
      else if tag =? CTAG_FALSE then let! st2 := budget_bytes 5 st1 in Ok (JBool false, st2)
      else if tag =? CTAG_TRUE then let! st2 := budget_bytes 4 st1 in Ok (JBool true, st2)
      else if tag =? CTAG_INTEGER_POSITIVE then
        let! (value, st2) := reader_varint MAX_SAFE_INTEGER st1 in
        let! st3 := budget_number (f64_of_integer value) st2 in
        Ok (JNumber (f64_of_integer value), st3)
      else if tag =? CTAG_INTEGER_NEGATIVE then
        let! (magnitude, st2) := reader_varint MAX_SAFE_INTEGER st1 in
        guard! negb (magnitude =? 0) else TypeError "Negative compact integer has zero magnitude" in
        let! st3 := budget_number (f64_of_integer (- magnitude)) st2 in
        Ok (JNumber (f64_of_integer (- magnitude)), st3)
      else if (tag =? CTAG_FLOAT32) || (tag =? CTAG_FLOAT64) then
        let! (value, st2) := if tag =? CTAG_FLOAT32 then float32 st1 else float64 st1 in
        let! st3 := budget_number value st2 in
        Ok (JNumber value, st3)
      else if tag =? CTAG_STRING then
        let! (value, st2) := readText false st1 in
        let! st3 := budget_string value st2 in
        Ok (JString value, st3)
      else if tag =? CTAG_ARRAY then
        let! st2 := budget_bytes 1 st1 in
        let! (n, st3) := reader_varint MAX_NODES st2 in
        let! (l, st4) := read_children (compact_read room') (Z.to_nat n) true st3 in
        let! st5 := budget_bytes 1 st4 in
        Ok (JArray l, st5)
      else if tag =? CTAG_OBJECT then
        let! st2 := budget_bytes 1 st1 in
        let! (n, st3) := reader_varint MAX_NODES st2 in
        let! (m, st4) := read_entries (compact_read room') (Z.to_nat n) true [] st3 in
        let! st5 := budget_bytes 1 st4 in
        Ok (JObject m, st5)
      else Throw (TypeError "Unknown compact value tag")
  end.
