(* ===== verification/CompactSize.v ===== *)
(** * The size of canonical JSON

    What [CanonicalBudget] of [compact-value.ts] meters, byte by byte, is the
    UTF-8 size of the text [JSON.stringify] gives. *)

From Stdlib Require Import ZArith Lia String.
From stdpp Require Import base list option.
From S2P Require Import Prelude JsMap BinaryIO Wtf8 Json JsonText Vocabulary BinaryCodec CompactValue.



Definition is_ascii (c : Z) : Prop := 0 <= c < 128.

(** Text that may follow any other without forming a surrogate pair. *)
Definition separable (t : list Z) : Prop := match t with [] => True | c :: _ => is_low c = false end.

Definition utf8_length (s : list Z) : Z := zlen (encodeBinaryUtf8 s).

Lemma ascii_not_surrogate c : is_ascii c -> is_high c = false /\ is_low c = false.
Proof.
  unfold is_ascii, is_high, is_low. intros.
  destruct (Z.leb_spec 0xd800 c), (Z.leb_spec 0xdc00 c); lia || done.
Qed.

Lemma separable_app s t : separable s -> separable t -> separable (s ++ t).
Proof. by destruct s. Qed.

Lemma ascii_separable s : Forall is_ascii s -> separable s.
Proof. intros H. destruct H as [| c s Hc _]; [done |]. by apply ascii_not_surrogate. Qed.

Lemma encode_cons2 c d s :
  encodeBinaryUtf8 (c :: d :: s) =
    if is_high c && is_low d then encode_codePoint (surrogate_codePoint c d) ++ encodeBinaryUtf8 s
    else encode_codePoint c ++ encodeBinaryUtf8 (d :: s).
Proof. done. Qed.

Lemma utf8_length_cons c t : is_high c = false -> utf8_length (c :: t) = zlen (encode_codePoint c) + utf8_length t.
Proof.
  unfold utf8_length. intros Hc. destruct t as [| d t].
  - cbn [encodeBinaryUtf8]. rewrite zlen_nil. lia.
  - rewrite encode_cons2, Hc. cbn [andb]. by rewrite zlen_app.
Qed.

Lemma utf8_length_app s t : separable t -> utf8_length (s ++ t) = utf8_length s + utf8_length t.
Proof.
  intros Ht. remember (length s) as n eqn:Hn. revert s Hn. induction n as [n IH] using lt_wf_ind.
  intros s ->. unfold utf8_length in *. destruct s as [| c s]; [done |].
  destruct s as [| d s].
  - destruct t as [| e t]; [rewrite app_nil_r; cbn [encodeBinaryUtf8]; rewrite zlen_nil; lia |].
    change ([c] ++ e :: t) with (c :: e :: t). cbn in Ht.
    rewrite encode_cons2, Ht, andb_false_r, zlen_app. done.
  - change ((c :: d :: s) ++ t) with (c :: d :: s ++ t). rewrite !encode_cons2.
    destruct (is_high c && is_low d); rewrite !zlen_app.
    + rewrite (IH (length s)) by (done || cbn; lia). lia.
    + change (d :: s ++ t) with ((d :: s) ++ t).
      rewrite (IH (length (d :: s))) by (done || cbn; lia). lia.
Qed.

Lemma utf8_length_ascii s : Forall is_ascii s -> utf8_length s = zlen s.
Proof.
  induction 1 as [| c s Hc _ IH]; [done |].
  rewrite utf8_length_cons, IH, zlen_cons by (by apply ascii_not_surrogate).
  unfold is_ascii in Hc. rewrite encode_1 by lia. done.
Qed.

(** ** Strings *)

Lemma hex_digit_ascii n : 0 <= n < 16 -> is_ascii (hex_digit n).
Proof. unfold hex_digit, is_ascii. destruct (Z.ltb_spec n 10); lia. Qed.

Lemma hex4_ascii u : is_unit u -> Forall is_ascii (hex4 u) /\ zlen (hex4 u) = 4.
Proof.
  unfold is_unit, hex4. intros. split; [| done].
  constructor; [apply hex_digit_ascii; split; [apply Z.div_pos; lia | apply Z.div_lt_upper_bound; lia] |].
  do 3 (constructor; [apply hex_digit_ascii, Z.mod_pos_bound; lia |]). constructor.
Qed.

Lemma escape_length u t : is_unit u -> utf8_length ([92; 117] ++ hex4 u ++ t) = 6 + utf8_length t.
Proof.
  intros Hu. destruct (hex4_ascii u Hu) as [Ha Hl]. unfold hex4 in *.
  repeat match goal with H : Forall _ (_ :: _) |- _ => apply list.Forall_cons in H as [? H] end.
  cbn [app]. rewrite !utf8_length_cons by (apply ascii_not_surrogate; done || (unfold is_ascii; lia)).
  rewrite !encode_1 by (unfold is_ascii in *; lia). unfold zlen. cbn [length]. lia.
Qed.

Lemma escape2_length a b t : is_ascii a -> is_ascii b -> utf8_length ([a; b] ++ t) = 2 + utf8_length t.
Proof.
  intros Ha Hb. cbn [app]. rewrite !utf8_length_cons by (by apply ascii_not_surrogate).
  unfold is_ascii in *. rewrite !encode_1 by lia. unfold zlen. cbn [length]. lia.
Qed.

Lemma utf8Bytes_length u : 0 <= u <= 0x10ffff -> utf8Bytes u = zlen (encode_codePoint u).
Proof.
  intros. unfold utf8Bytes, encode_codePoint.
  destruct (u <=? 0x7f); [done |]. destruct (u <=? 0x7ff); [done |]. by destruct (u <=? 0xffff).
Qed.

Lemma quote_body_length s : is_jsstr s -> utf8_length (quote_body s) = string_body_bytes s.
Proof.
  remember (length s) as n eqn:Hn. revert s Hn. induction n as [n IH] using lt_wf_ind.
  intros s -> Hs. destruct s as [| c r]; [done |].
  apply list.Forall_cons in Hs as [Hc Hr].
  assert (Hrec : utf8_length (quote_body r) = string_body_bytes r) by (apply (IH (length r)); [cbn; lia | done | done]).
  cbn [quote_body string_body_bytes].
  assert (Ha : forall k, 0 <= k < 128 -> is_ascii k) by done.
  destruct (Z.eqb_spec c 34); [rewrite escape2_length, Hrec by (apply Ha; lia); done |].
  destruct (Z.eqb_spec c 92); [rewrite escape2_length, Hrec by (apply Ha; lia); done |]. cbn [orb].
  destruct (Z.eqb_spec c 8); [rewrite escape2_length, Hrec by (apply Ha; lia); done |].
  destruct (Z.eqb_spec c 9); [rewrite escape2_length, Hrec by (apply Ha; lia); done |].
  destruct (Z.eqb_spec c 10); [rewrite escape2_length, Hrec by (apply Ha; lia); done |].
  destruct (Z.eqb_spec c 12); [rewrite escape2_length, Hrec by (apply Ha; lia); done |].
  destruct (Z.eqb_spec c 13); [rewrite escape2_length, Hrec by (apply Ha; lia); done |]. cbn [orb].
  destruct (Z.ltb_spec c 32), (Z.leb_spec c 0x1f); try lia.
  { by rewrite escape_length, Hrec. }
  destruct (is_high c) eqn:Eh.
  - destruct r as [| d r']; [rewrite <- (app_nil_r (hex4 c)); by rewrite escape_length |].
    destruct (is_low d) eqn:El; [| by rewrite escape_length, Hrec].
    pose proof (surrogate_range _ _ Eh El) as Hsr.
    apply list.Forall_cons in Hr as [_ Hr].
    rewrite <- (IH (length r') ltac:(cbn; lia) r' eq_refl Hr).
    unfold utf8_length. rewrite encode_cons2, Eh, El. cbn [andb].
    rewrite zlen_app, utf8Bytes_length by lia. done.
  - destruct (is_low c); [by rewrite escape_length, Hrec |].
    unfold is_unit in Hc. rewrite utf8_length_cons, Hrec, utf8Bytes_length by (done || lia). done.
Qed.

Lemma quote_length s : is_jsstr s -> utf8_length (quote s) = canonicalJSONStringBytes s.
Proof.
  intros Hs. unfold quote, canonicalJSONStringBytes. cbn [app]. rewrite utf8_length_cons by done.
  rewrite utf8_length_app, quote_body_length by done. unfold utf8_length, zlen. cbn. lia.
Qed.

(** ** Numbers *)

Lemma digits_of_ascii fuel n acc : 0 <= n -> Forall is_ascii acc -> Forall is_ascii (digits_of fuel n acc).
Proof.
  revert n acc. induction fuel as [| fuel IH]; cbn; intros n acc Hn Ha; [done |].
  destruct (Z.ltb_spec n 10); [constructor; [unfold is_ascii; lia | done] |].
  apply IH; [apply Z.div_pos; lia |]. constructor; [| done].
  pose proof (Z.mod_pos_bound n 10 ltac:(lia)). unfold is_ascii. lia.
Qed.

Lemma decimal_ascii n : 0 <= n -> Forall is_ascii (decimal n).
Proof. intros. by apply digits_of_ascii. Qed.

Lemma shortest_nonneg fuel k bits num den n :
  0 <= num -> 0 < den -> 0 <= fst (shortest fuel k bits num den n).
Proof.
  revert k. induction fuel as [| fuel IH]; intros k Hn Hd; cbn [shortest];
    set (q := (num * _) / (den * _));
    (assert (0 <= q) by (apply Z.div_pos;
      [apply Z.mul_nonneg_nonneg; [lia | apply Z.pow_nonneg; lia]
      | apply Z.mul_pos_pos; [lia | apply Z.pow_pos_nonneg; lia]]));
    repeat case_match; simplify_eq; cbn; try lia; auto.
Qed.

Lemma strip_zeros_nonneg fuel s scale : 0 <= s -> 0 <= fst (strip_zeros fuel s scale).
Proof.
  revert s scale. induction fuel as [| fuel IH]; cbn; intros s scale Hs; [done |].
  destruct (_ && _); [| done]. apply IH, Z.div_pos; lia.
Qed.

Lemma zeros_ascii n : Forall is_ascii (zeros n).
Proof. apply Forall_elem. intros x ->%elem_of_replicate_inv. done. Qed.

Lemma exponent_text_ascii e : Forall is_ascii (exponent_text e).
Proof.
  unfold exponent_text. apply Forall_app. split; [destruct (0 <=? e); repeat constructor; done |].
  apply decimal_ascii. lia.
Qed.

Lemma f64_significand_nonneg bits : 0 <= f64_significand bits.
Proof.
  unfold f64_significand, f64_mantissa. pose proof (Z.mod_pos_bound bits (2 ^ 52) ltac:(lia)).
  destruct (_ =? 0); lia.
Qed.

Lemma number_digits_nonneg bits : 0 <= fst (number_digits bits).
Proof.
  unfold number_digits.
  assert (Hs : forall fuel k b n, 0 <= fst (shortest fuel k b (f64_significand bits * 2 ^ Z.max 0 (f64_scale bits))
    (2 ^ Z.max 0 (- f64_scale bits)) n)).
  { intros. apply shortest_nonneg; [| apply Z.pow_pos_nonneg; lia].
    apply Z.mul_nonneg_nonneg; [apply f64_significand_nonneg | apply Z.pow_nonneg; lia]. }
  specialize (Hs 16%nat 1 (bits mod 2 ^ 63)).
  match goal with |- context [shortest 16 1 _ _ _ ?n] => specialize (Hs n) end.
  destruct (shortest _ _ _ _ _ _) as [s0 scale0]. by apply strip_zeros_nonneg.
Qed.

Lemma number_layout_ascii ds n : Forall is_ascii ds -> Forall is_ascii (number_layout ds n).
Proof.
  intros Hd. unfold number_layout.
  assert (Ha : forall k, 0 <= k < 128 -> is_ascii k) by done.
  destruct (_ && _); [apply Forall_app; split; [done | apply zeros_ascii] |].
  destruct (_ && _).
  { apply Forall_app; split; [by apply Forall_take |]. constructor; [apply Ha; lia | by apply Forall_drop]. }
  destruct (_ && _).
  { do 2 (constructor; [apply Ha; lia |]). apply Forall_app; split; [apply zeros_ascii | done]. }
  destruct Hd as [| d ds Hd Hds]; [constructor |].
  destruct ds; constructor; try done; [apply exponent_text_ascii |].
  constructor; [apply Ha; lia |]. apply Forall_app; split; [done | apply exponent_text_ascii].
Qed.

Lemma number_text_ascii bits : Forall is_ascii (number_text bits).
Proof.
  unfold number_text. destruct (_ =? 0); [repeat constructor; done |].
  pose proof (number_digits_nonneg bits) as Hn. destruct (number_digits bits) as [s scale].
  pose proof (number_layout_ascii (decimal s) (scale + zlen (decimal s)) (decimal_ascii s Hn)) as Hl.
  destruct (f64_negative bits); [constructor; [unfold is_ascii; lia |] |]; done.
Qed.

Lemma number_text_length bits : utf8_length (number_text bits) = zlen (number_text bits).
Proof. apply utf8_length_ascii, number_text_ascii. Qed.

(** ** Values *)

Definition commas (n : Z) : Z := Z.max 0 (n - 1).

Section sum.
Context {A : Type} (f : A -> Z).

Fixpoint sum_of (l : list A) : Z :=
  match l with
  | [] => 0
  | x :: l' => f x + sum_of l'
  end.
End sum.

(** The canonical bytes of a value, as the reader meters them. *)
Fixpoint json_bytes (v : json) : Z :=
  match v with
  | JNull => 4
  | JBool false => 5
  | JBool true => 4
  | JNumber bits => zlen (number_text bits)
  | JString s => canonicalJSONStringBytes s
  | JArray l => 2 + sum_of json_bytes l + commas (zlen l)
  | JObject m => 2 + sum_of (fun p => canonicalJSONStringBytes (fst p) + 1 + json_bytes (snd p)) m + commas (zlen m)
  end.

Lemma sum_of_perm {A} (f : A -> Z) l k : l ≡ₚ k -> sum_of f l = sum_of f k.
Proof. induction 1; cbn in *; lia. Qed.

Lemma sum_of_map {A B} (g : A -> B) (f : B -> Z) l : sum_of f (map g l) = sum_of (fun x => f (g x)) l.
Proof. induction l; cbn in *; lia. Qed.

Lemma sum_of_ext {A} (f g : A -> Z) l : Forall (fun x => f x = g x) l -> sum_of f l = sum_of g l.
Proof. induction 1; cbn in *; lia. Qed.

Lemma join_comma_length l : Forall separable l ->
  utf8_length (join_comma l) = sum_of utf8_length l + commas (zlen l).
Proof.
  unfold commas. induction 1 as [| x l Hx Hl IH]; [done |].
  destruct l as [| y l]; [cbn [join_comma sum_of]; change (zlen [x]) with 1; lia |].
  change (join_comma (x :: y :: l)) with (x ++ [44] ++ join_comma (y :: l)).
  rewrite utf8_length_app by done. cbn [app]. rewrite utf8_length_cons, IH by done.
  cbn [sum_of]. rewrite !zlen_cons. pose proof (zlen_nonneg l).
  change (zlen (encode_codePoint 44)) with 1. lia.
Qed.

Lemma join_comma_separable l : Forall separable l -> separable (join_comma l).
Proof. induction 1 as [| x l Hx Hl IH]; [done |]. destruct l; [done |]. by apply separable_app. Qed.

Lemma quote_separable s : separable (quote s).
Proof. done. Qed.

Lemma stringify_separable v : separable (stringify v).
Proof. destruct v as [| [] | | | |]; try done. apply ascii_separable, number_text_ascii. Qed.

Lemma bracket_length a b t : is_ascii a -> is_ascii b -> utf8_length ([a] ++ t ++ [b]) = 2 + utf8_length t.
Proof.
  intros Ha Hb. pose proof (ascii_not_surrogate _ Ha) as [Hah _]. pose proof (ascii_not_surrogate _ Hb) as [_ Hbl].
  cbn [app]. rewrite utf8_length_cons, utf8_length_app by done.
  unfold is_ascii in *. rewrite encode_1 by lia. unfold utf8_length at 2. cbn [encodeBinaryUtf8].
  rewrite encode_1 by lia. change (zlen [a]) with 1. change (zlen [b]) with 1. lia.
Qed.

Lemma stringify_length v : wf_json v -> utf8_length (stringify v) = json_bytes v.
Proof.
  induction v as [| [] | bits | s | l IH | m IH] using json_ind'; intros Hv; inversion Hv; subst; try done.
  - apply number_text_length.
  - by apply quote_length.
  - cbn [stringify json_bytes]. rewrite bracket_length by (unfold is_ascii; lia).
    rewrite join_comma_length by (rewrite Forall_map; apply Forall_elem; intros; apply stringify_separable).
    rewrite sum_of_map, (sum_of_ext _ json_bytes).
    + unfold zlen. rewrite length_map. lia.
    + match goal with H : Forall wf_json l |- _ => revert H end. clear Hv.
      induction IH; intros Hw; [constructor |]. apply list.Forall_cons in Hw as [? ?]. constructor; auto.
  - cbn [stringify json_bytes]. rewrite bracket_length by (unfold is_ascii; lia).
    rewrite join_comma_length by (rewrite Forall_map; apply Forall_elem; intros; done).
    rewrite sum_of_map, (sum_of_perm _ _ _ (own_properties_perm _)), sum_of_map.
    rewrite (sum_of_ext _ (fun p => canonicalJSONStringBytes (fst p) + 1 + json_bytes (snd p))).
    + unfold zlen. rewrite length_map, (own_properties_perm _), length_map. lia.
    + match goal with H : Forall (fun p => _ /\ _) m |- _ => revert H end. clear -IH.
      induction IH as [| p m Hp _ IHm]; intros Hw; [constructor |].
      apply list.Forall_cons in Hw as [[Hk Hw] ?]. constructor; [| auto]. unfold map_snd. cbn [fst snd].
      rewrite utf8_length_app by done. cbn [app]. rewrite utf8_length_cons, quote_length, Hp by done.
      change (zlen (encode_codePoint 58)) with 1. lia.
Qed.

Lemma json_bytes_canon v : json_bytes (canon v) = json_bytes v.
Proof.
  induction v as [| | | | l IH | m IH] using json_ind'; cbn; try done.
  - rewrite sum_of_map, (sum_of_ext _ _ _ IH). unfold zlen. by rewrite length_map.
  - rewrite (sum_of_perm _ _ _ (sort_entries_perm _)), (zlen_perm _ _ (sort_entries_perm _)), sum_of_map.
    unfold zlen. rewrite length_map. f_equal. f_equal. apply sum_of_ext.
    apply (Forall_weaken _ _ _ IH). intros p Hp. unfold map_snd. cbn. lia.
Qed.

Lemma json_bytes_nonneg v : 0 <= json_bytes v.
Proof.
  assert (Hs : forall s, 0 <= canonicalJSONStringBytes s).
  { intros s. unfold canonicalJSONStringBytes. cut (0 <= string_body_bytes s); [lia |].
    remember (length s) as n eqn:Hn. revert s Hn. induction n as [n IH] using lt_wf_ind. intros s ->.
    destruct s as [| c r]; [done |]. cbn. pose proof (IH (length r) ltac:(cbn; lia) r eq_refl) as Hr.
    assert (0 <= utf8Bytes c) by (unfold utf8Bytes; repeat case_match; lia).
    destruct r as [| d r']; [cbn in Hr |- *; repeat case_match; lia |].
    pose proof (IH (length r') ltac:(cbn; lia) r' eq_refl).
    assert (0 <= utf8Bytes (surrogate_codePoint c d)) by (unfold utf8Bytes; repeat case_match; lia).
    repeat case_match; lia. }
  induction v as [| [] | | | l IH | m IH] using json_ind'; cbn [json_bytes]; try lia; try apply zlen_nonneg; [apply Hs | |];
    unfold commas.
  - cut (0 <= sum_of json_bytes l); [lia |]. clear -IH. induction IH; cbn in *; lia.
  - match goal with |- context [sum_of ?f m] => cut (0 <= sum_of f m); [lia |] end.
    induction IH as [| p m Hp _ IHm]; cbn in *; [lia |]. specialize (Hs (fst p)). lia.
Qed.

(** The bytes of the canonical encoding. *)
Lemma canonical_size v bs : wf_json v -> encodeCanonicalJSON v = Ok bs -> zlen bs = json_bytes v.
Proof.
  intros Hv H. unfold encodeCanonicalJSON, canonicalJSON, sortJSON in H. inv_result.
  rewrite <- json_bytes_canon. exact (stringify_length _ (wf_canon _ Hv)).
Qed.

Lemma canonical_total v : finite_json v = true -> exists bs, encodeCanonicalJSON v = Ok bs.
Proof. intros Hf. unfold encodeCanonicalJSON, canonicalJSON, sortJSON. rewrite Hf. cbn. eauto. Qed.

(** * How far the binary codec expands ([binary-codec.ts])

    A binary-v1 body is at most eight times the 128 KiB message bound, which is
    what the inflate limits of the frame and message codecs allow for. *)

Lemma varint_digits_short k fuel value :
  (1 <= k)%nat -> 0 <= value < 128 ^ Z.of_nat k -> zlen (varint_digits fuel value) <= Z.of_nat k.
Proof.
  unfold zlen. revert fuel value. induction k as [| k IH]; intros fuel value Hk Hv; [lia |].
  destruct fuel as [| fuel]; [cbn; lia |].
  rewrite varint_digits_cons by lia. destruct (Z.ltb_spec value 128); cbn [length]; [lia |].
  rewrite Nat2Z.inj_succ, Z.pow_succ_r in Hv by lia.
  destruct k as [| k]; [change (128 ^ Z.of_nat 0) with 1 in Hv; lia |].
  assert (0 <= value / 128 < 128 ^ Z.of_nat (S k)) by (split; [apply Z.div_pos | apply Z.div_lt_upper_bound]; lia).
  specialize (IH fuel (value / 128) ltac:(lia) ltac:(done)). lia.
Qed.

Lemma push_varint_short k value bs :
  (1 <= k)%nat -> value < 128 ^ Z.of_nat k -> push_varint value = Ok bs -> zlen bs <= Z.of_nat k.
Proof. intros Hk Hv [Hr ->]%writeVarint_ok. apply varint_digits_short; lia. Qed.

Lemma push_varint_long value bs : push_varint value = Ok bs -> zlen bs <= 8.
Proof.
  intros [Hr ->]%writeVarint_ok. pose proof (varint_digits_length 8 value ltac:(lia) ltac:(lia)). unfold zlen. lia.
Qed.

Lemma utf8_metered s : is_jsstr s -> zlen (encodeBinaryUtf8 s) + 2 <= canonicalJSONStringBytes s.
Proof.
  unfold canonicalJSONStringBytes. cut (is_jsstr s -> zlen (encodeBinaryUtf8 s) <= string_body_bytes s); [intros H ?; specialize (H ltac:(done)); lia |].
  remember (length s) as n eqn:Hn. revert s Hn. induction n as [n IH] using lt_wf_ind.
  intros s -> Hs. destruct s as [| c r]; [done |]. apply list.Forall_cons in Hs as [Hc Hr]. unfold is_unit in Hc.
  pose proof (IH (length r) ltac:(cbn; lia) r eq_refl Hr) as Hrest.
  pose proof (encode_codePoint_bytes c ltac:(lia)) as (_ & _ & H3). specialize (H3 ltac:(lia)).
  assert (Hone : c <= 0x7f -> zlen (encode_codePoint c) = 1) by (intros; by rewrite encode_1 by lia).
  assert (Hplain : is_high c = false \/ (match r with d :: _ => is_low d = false | [] => True end) ->
    zlen (encodeBinaryUtf8 (c :: r)) = zlen (encode_codePoint c) + zlen (encodeBinaryUtf8 r)).
  { intros Hp. destruct r as [| d r]; [cbn [encodeBinaryUtf8]; rewrite zlen_nil; lia |].
    rewrite encode_cons2. assert (is_high c && is_low d = false) as ->; [| by rewrite zlen_app].
    destruct Hp as [-> | ->]; [done | by rewrite andb_false_r]. }
  assert (Hlow : c <= 0x7f -> is_high c = false).
  { intros. apply ascii_not_surrogate. unfold is_ascii. lia. }
  cbn [string_body_bytes].
  destruct (Z.eqb_spec c 0x22); [rewrite Hplain, Hone by (try left; try apply Hlow; lia); cbn [orb]; lia |].
  destruct (Z.eqb_spec c 0x5c); [rewrite Hplain, Hone by (try left; try apply Hlow; lia); cbn [orb]; lia |]. cbn [orb].
  destruct (_ || _) eqn:E.
  { assert (c <= 0x1f) by (repeat rewrite orb_true_iff in E; rewrite !Z.eqb_eq in E; lia).
    rewrite Hplain, Hone by (try left; try apply Hlow; lia). lia. }
  destruct (Z.leb_spec c 0x1f); [rewrite Hplain by (left; apply Hlow; lia); lia |].
  destruct (is_high c) eqn:Eh.
  - destruct r as [| d r']; [rewrite Hplain by (by right); change (zlen (encodeBinaryUtf8 [])) with 0; lia |].
    destruct (is_low d) eqn:El; [| rewrite Hplain by (by right); lia].
    apply list.Forall_cons in Hr as [_ Hr'].
    pose proof (IH (length r') ltac:(cbn; lia) r' eq_refl Hr').
    pose proof (surrogate_range _ _ Eh El). rewrite encode_cons2, Eh, El. cbn [andb]. rewrite zlen_app.
    rewrite utf8Bytes_length by lia. lia.
  - destruct (is_low c) eqn:El; [rewrite Hplain by (by left); lia |].
    rewrite Hplain, utf8Bytes_length by (by left || lia). lia.
Qed.

Lemma writeString_size `{Vocabulary dictionary indexes} s bs :
  is_jsstr s -> writeString s indexes = Ok bs -> zlen bs <= canonicalJSONStringBytes s + 2.
Proof.
  intros Hs Hw. pose proof (utf8_metered s Hs). pose proof (zlen_nonneg (encodeBinaryUtf8 s)).
  unfold writeString in Hw. destruct (jget s indexes) as [index |] eqn:E.
  - apply vocabulary_sound in E as [_ Hi]. pose proof vocabulary_length.
    apply (push_varint_short 2) in Hw; [lia | lia | cbn; lia].
  - inv_result. reflect_tests. apply (push_varint_short 1) in E0; [| lia | cbn; lia].
    apply (push_varint_short 3) in E1; [| lia | unfold MAX_BINARY_BYTES in *; cbn; lia].
    rewrite !zlen_app. lia.
Qed.

(** Ten bytes a node, besides the canonical text. *)
Definition compact_enough (write : json -> Z -> result (list Z * Z)) (v : json) : Prop :=
  forall count bs count', write v count = Ok (bs, count') -> zlen bs + 1 <= 10 * (count' - count) + json_bytes v.

Lemma write_elements_size write l : Forall (compact_enough write) l -> forall count bs count',
  write_elements write l count = Ok (bs, count') -> zlen bs <= 10 * (count' - count) + sum_of json_bytes l.
Proof.
  induction 1 as [| v l Hv _ IH]; cbn [write_elements sum_of]; intros count bs count' H; inv_result.
  - change (zlen (@nil Z)) with 0. lia.
  - apply Hv in E. apply IH in E0. rewrite zlen_app. lia.
Qed.

Lemma write_members_size write m :
  Forall (fun p => is_jsstr (fst p) /\ compact_enough write (snd p)) m -> forall count bs count',
  write_members write m count = Ok (bs, count') ->
  zlen bs <= 10 * (count' - count) + sum_of (fun p => canonicalJSONStringBytes (fst p) + 1 + json_bytes (snd p)) m.
Proof.
  induction 1 as [| [k v] m [Hk Hv] _ IH]; cbn [write_members sum_of fst snd]; intros count bs count' H; inv_result.
  - change (zlen (@nil Z)) with 0. lia.
  - apply writeString_size in E; [| done]. apply Hv in E0. apply IH in E1. rewrite !zlen_app. cbn [snd] in E0. lia.
Qed.

Lemma writeValue_size room v : wf_json v -> compact_enough (writeValue room) v.
Proof.
  revert v. induction room as [| room IH]; intros v Hwf count bs count' H; [done |].
  cbn [writeValue] in H. inv_result.
  destruct v as [| [] | bits | s | l | m]; inversion Hwf; subst; inv_result; cbn [json_bytes]; try (rewrite ?zlen_cons; change (zlen (@nil Z)) with 0; lia).
  - rewrite zlen_cons. unfold zlen at 1. rewrite le_bytes_length. pose proof (zlen_nonneg (number_text bits)). lia.
  - apply writeString_size in E; [| done]. rewrite zlen_cons. lia.
  - apply push_varint_long in E. apply write_elements_size in E0; [| by eapply Forall_weaken].
    rewrite zlen_cons, zlen_app. unfold commas. lia.
  - apply push_varint_long in E.
    apply write_members_size in E0.
    + rewrite (sum_of_perm _ _ _ (sort_entries_perm m)) in E0. rewrite zlen_cons, zlen_app. unfold commas. lia.
    + apply Forall_sort_entries. eapply Forall_weaken; [done |]. intros p [? ?]. auto.
Qed.

(** A binary body fits every inflate limit that reserves eight message sizes. *)
Lemma encodeBinaryPayload_size sha256_hex payload output :
  is_bytes payload -> zlen payload <= MAX_BINARY_BYTES ->
  encodeBinaryPayload sha256_hex payload = Ok (Some output) -> zlen output < 8 * MAX_BINARY_BYTES.
Proof.
  intros Hb Hs He. unfold encodeBinaryPayload in He. inv_result.
  unfold try_result in He. destruct (bind_result _ _) as [out |] eqn:Hw; [| done]. injection He as ->.
  inv_result. reflect_tests. subst.
  assert (Hwf : wf_json a0) by (by eapply decodeJSON_wf).
  destruct (readValue_writeValue _ _ Hwf _ _ _ [] ltac:(done) E2) as [_ Hc].
  apply writeValue_size in E2; [| done]. pose proof (canonical_size _ _ Hwf E1).
  unfold MAX_BINARY_BYTES, MAX_BINARY_NODES in *. lia.
Qed.

(** ** The writer writes bytes *)

Definition writes_bytes {S} (write : json -> S -> result (list Z * S)) (v : json) : Prop :=
  forall st bs st', write v st = Ok (bs, st') -> is_bytes bs.

Lemma push_varint_bytes value bs : push_varint value = Ok bs -> is_bytes bs.
Proof. intros [? ->]%writeVarint_ok. apply varint_digits_bytes. lia. Qed.

Lemma is_bytes_app bs1 bs2 : is_bytes bs1 -> is_bytes bs2 -> is_bytes (bs1 ++ bs2).
Proof. intros. by apply Forall_app. Qed.

Lemma is_bytes_cons b bs : is_byte b -> is_bytes bs -> is_bytes (b :: bs).
Proof. by constructor. Qed.

Lemma utf8_bytes s : is_jsstr s -> is_bytes (encodeBinaryUtf8 s).
Proof. apply encodeBinaryUtf8_bytes. Qed.

Create HintDb bytes.
#[export] Hint Resolve push_varint_bytes is_bytes_app is_bytes_cons utf8_bytes le_bytes_bytes : bytes.
#[export] Hint Extern 1 (is_byte _) => (unfold is_byte; lia) : bytes.
#[export] Hint Extern 1 (is_bytes []) => constructor : bytes.

Lemma writeString_bytes s indexes bs : is_jsstr s -> writeString s indexes = Ok bs -> is_bytes bs.
Proof.
  unfold writeString. intros Hs H. destruct (jget s indexes); [by eapply push_varint_bytes |].
  inv_result. eauto 10 with bytes.
Qed.

Lemma write_elements_bytes write l : Forall (writes_bytes write) l -> forall count bs count',
  write_elements write l count = Ok (bs, count') -> is_bytes bs.
Proof.
  induction 1 as [| v l Hv _ IH]; cbn [write_elements]; intros count bs count' H; inv_result; [constructor |].
  apply is_bytes_app; [by eapply Hv | by eapply IH].
Qed.

Lemma write_members_bytes write m :
  Forall (fun p => is_jsstr (fst p) /\ writes_bytes write (snd p)) m -> forall count bs count',
  write_members write m count = Ok (bs, count') -> is_bytes bs.
Proof.
  induction 1 as [| [k v] m [Hk Hv] _ IH]; cbn [write_members]; intros count bs count' H; inv_result; [constructor |].
  apply is_bytes_app; [by eapply writeString_bytes |]. apply is_bytes_app; [by eapply Hv | by eapply IH].
Qed.

Lemma writeValue_bytes room v : wf_json v -> writes_bytes (writeValue room) v.
Proof.
  revert v. induction room as [| room IH]; intros v Hwf count bs count' H; [done |].
  cbn [writeValue] in H. inv_result.
  destruct v as [| [] | bits | s | l | m]; inversion Hwf; subst; inv_result;
    try (apply is_bytes_cons; [unfold is_byte, TAG_NULL, TAG_TRUE, TAG_FALSE, TAG_NUMBER, TAG_STRING, TAG_ARRAY, TAG_OBJECT; lia |]);
    eauto 10 with bytes.
  - by eapply writeString_bytes.
  - apply is_bytes_app; [by eapply push_varint_bytes |]. eapply write_elements_bytes; [| done]. by eapply Forall_weaken.
  - apply is_bytes_app; [by eapply push_varint_bytes |]. eapply write_members_bytes; [| done].
    apply Forall_sort_entries. eapply Forall_weaken; [done |]. intros p [? ?]. auto.
Qed.

Lemma encodeBinaryPayload_bytes sha256_hex payload output :
  is_bytes payload -> encodeBinaryPayload sha256_hex payload = Ok (Some output) -> is_bytes output.
Proof.
  intros Hb He. unfold encodeBinaryPayload in He. inv_result.
  unfold try_result in He. destruct (bind_result _ _) as [out |] eqn:Hw; [| done]. injection He as ->.
  inv_result. eapply writeValue_bytes; [by eapply decodeJSON_wf | done].
Qed.
