(* ===== verification/JsonRoundtrip.v ===== *)
(** * Canonical JSON is lossless ([canonical-json.ts])

    [decodeJSON] reads back what [encodeCanonicalJSON] writes: every string,
    every finite double, every nesting. *)

From Stdlib Require Import ZArith Lia String.
From stdpp Require Import base list option.
From S2P Require Import Prelude JsMap BinaryIO Wtf8 Json Utf8Text JsonText CompactValue CompactSize.

(** ** Digits *)

Definition digits_value (value : Z) (ds : list Z) : Z := fold_left (fun v d => v * 10 + (d - 48)) ds value.

Definition all_digits (ds : list Z) : Prop := Forall (fun d => 48 <= d <= 57) ds.

(** [rest] does not continue a number. *)
Definition stops (rest : list Z) : Prop :=
  match rest with c :: _ => is_digit c = false /\ c <> 46 /\ c <> 101 /\ c <> 69 | [] => True end.

Lemma all_digits_one d : 48 <= d <= 57 -> all_digits [d].
Proof. intros Hd. constructor; [done | constructor]. Qed.

Lemma is_digit_spec c : is_digit c = true <-> 48 <= c <= 57.
Proof. unfold is_digit. rewrite andb_true_iff, !Z.leb_le. done. Qed.

Lemma digits_value_shift ds : forall v, digits_value v ds = v * 10 ^ zlen ds + digits_value 0 ds.
Proof.
  unfold digits_value. induction ds as [| d ds IH]; intros v; cbn [fold_left].
  - change (zlen (@nil Z)) with 0. change (10 ^ 0) with 1. lia.
  - rewrite IH, (IH (0 * 10 + _)), zlen_cons, Z.pow_add_r by (first [lia | apply zlen_nonneg]). change (10 ^ 1) with 10. lia.
Qed.

Lemma digits_value_app v ds ds' : digits_value v (ds ++ ds') = digits_value (digits_value v ds) ds'.
Proof. apply fold_left_app. Qed.

Lemma parse_digits_all ds : forall v c rest, all_digits ds -> match rest with x :: _ => is_digit x = false | [] => True end ->
  parse_digits (ds ++ rest) v c = (digits_value v ds, c + zlen ds, rest).
Proof.
  induction ds as [| d ds IH]; intros v c rest Hd Hr.
  - cbn [app digits_value fold_left]. change (zlen (@nil Z)) with 0. rewrite Z.add_0_r.
    destruct rest as [| x rest]; [done |]. cbn [parse_digits]. by rewrite Hr.
  - apply list.Forall_cons in Hd as [Hd Hds]. cbn [app parse_digits]. rewrite (proj2 (is_digit_spec d) Hd).
    rewrite IH by done. rewrite zlen_cons. f_equal. f_equal. lia.
Qed.

Lemma digits_of_spec fuel : forall n acc, 0 <= n < 10 ^ Z.of_nat fuel -> (1 <= fuel)%nat ->
  exists ds, digits_of fuel n acc = ds ++ acc /\ all_digits ds /\ digits_value 0 ds = n /\ ds <> [] /\
    (0 < n -> 10 ^ (zlen ds - 1) <= n).
Proof.
  induction fuel as [| fuel IH]; intros n acc Hn Hf; [lia |]. cbn [digits_of].
  destruct (Z.ltb_spec n 10).
  - exists [48 + n]. split; [done |]. split; [constructor; [lia | constructor] |]. split; [cbn; lia |]. split; [done |].
    intros. change (zlen [48 + n] - 1) with 0. change (10 ^ 0) with 1. lia.
  - destruct fuel as [| fuel']; [change (10 ^ Z.of_nat 1) with 10 in Hn; lia |].
    rewrite Nat2Z.inj_succ, Z.pow_succ_r in Hn by lia.
    pose proof (Z_div_mod_eq_full n 10) as E. pose proof (Z.mod_pos_bound n 10 ltac:(lia)).
    destruct (IH (n / 10) ((48 + n mod 10) :: acc)) as (ds & Eds & Hd & Hv & Hne & Hlen); [lia | lia |].
    exists (ds ++ [48 + n mod 10]). rewrite Eds, <- app_assoc. split; [done |].
    split; [apply Forall_app; split; [done | constructor; [lia | constructor]] |].
    split; [rewrite digits_value_app, Hv; cbn; lia |]. split; [by destruct ds |].
    intros _. rewrite zlen_app. change (zlen [48 + n mod 10]) with 1.
    assert (1 <= zlen ds) by (destruct ds; [done |]; rewrite zlen_cons; pose proof (zlen_nonneg ds); lia).
    replace (zlen ds + 1 - 1) with (zlen ds - 1 + 1) by lia. rewrite Z.pow_add_r by lia. change (10 ^ 1) with 10.
    specialize (Hlen ltac:(lia)). lia.
Qed.

Lemma decimal_spec n : 0 <= n < 10 ^ 18 ->
  all_digits (decimal n) /\ digits_value 0 (decimal n) = n /\ decimal n <> [] /\
  (0 < n -> 10 ^ (zlen (decimal n) - 1) <= n).
Proof.
  intros Hn. destruct (digits_of_spec 20 n []) as (ds & E & H); [| lia |].
  - change (10 ^ Z.of_nat 20) with 100000000000000000000. change (10 ^ 18) with 1000000000000000000 in Hn. lia.
  - unfold decimal. rewrite E, app_nil_r. done.
Qed.

(** The first digit is not zero, so no leading zero is written. *)
Lemma first_digit ds : all_digits ds -> ds <> [] -> 10 ^ (zlen ds - 1) <= digits_value 0 ds ->
  match ds with d :: _ => d <> 48 | [] => False end.
Proof.
  intros Hd Hne Hlen. destruct ds as [| d ds]; [done |]. intros ->. unfold digits_value in Hlen. cbn [fold_left] in Hlen.
  rewrite zlen_cons in Hlen. replace (1 + zlen ds - 1) with (zlen ds) in Hlen by lia.
  assert (Hlt : forall l, all_digits l -> fold_left (fun v d => v * 10 + (d - 48)) l 0 < 10 ^ zlen l).
  { clear. intros l. induction l as [| x l IH] using rev_ind; intros Hl; [by vm_compute |].
    apply Forall_app in Hl as [Hl Hx]. apply list.Forall_cons in Hx as [Hx _]. specialize (IH Hl).
    rewrite fold_left_app, zlen_app. cbn [fold_left]. change (zlen [x]) with 1.
    rewrite Z.pow_add_r by (first [lia | apply zlen_nonneg]). change (10 ^ 1) with 10. lia. }
  apply list.Forall_cons in Hd as [_ Hd]. specialize (Hlt ds Hd). replace (0 * 10 + (48 - 48)) with 0 in Hlen by lia. lia.
Qed.

Lemma zeros_spec n : 0 <= n -> all_digits (zeros n) /\ (forall v, digits_value v (zeros n) = v * 10 ^ n) /\ zlen (zeros n) = n.
Proof.
  intros Hn. unfold zeros. assert (Hk : n = Z.of_nat (Z.to_nat n)) by lia. revert Hk. generalize (Z.to_nat n) as k.
  intros k ->. clear Hn.
  induction k as [| k (IH1 & IH2 & IH3)]; cbn [replicate].
  - split; [constructor |]. split; [intros v; cbn; lia | done].
  - split; [constructor; [lia | done] |]. split.
    + intros v. unfold digits_value in *. cbn [fold_left]. rewrite IH2, Nat2Z.inj_succ, Z.pow_succ_r by lia. lia.
    + rewrite zlen_cons, IH3. lia.
Qed.

(** ** Number text *)

(** [parse_number] after the sign. *)
Definition parse_unsigned (negative : bool) (s1 : list Z) : option (json * list Z) :=
  let '(int, count, s2) := parse_digits s1 0 0 in
  let leading_zero := match s1 with c :: _ => (c =? 48) && (1 <? count) | [] => false end in
  if (count =? 0) || leading_zero then None
  else
    let fraction := match s2 with
      | c :: r =>
          if c =? 46 then
            let '(frac, fcount, s3) := parse_digits r int 0 in
            if fcount =? 0 then None else Some (frac, fcount, s3)
          else Some (int, 0, s2)
      | [] => Some (int, 0, s2)
      end in
    match fraction with
    | None => None
    | Some (digits, fcount, s3) =>
        match parse_exponent s3 with
        | None => None
        | Some (e, rest) =>
            let bits := decimal_value digits (count + fcount) (e - fcount) in
            Some (JNumber (if negative then 2 ^ 63 + bits else bits), rest)
        end
    end.

Lemma parse_number_negative s : parse_number (45 :: s) = parse_unsigned true s.
Proof. done. Qed.

Lemma parse_number_positive s : match s with c :: _ => c <> 45 | [] => True end -> parse_number s = parse_unsigned false s.
Proof.
  intros H. destruct s as [| c s]; [done |]. unfold parse_number, parse_unsigned. by rewrite (proj2 (Z.eqb_neq c 45) H).
Qed.

Lemma decimal_value_round digits count e : 0 < digits -> -400 <= count + e <= 310 ->
  decimal_value digits count e = decimal_round digits e.
Proof.
  intros Hd He. unfold decimal_value. destruct (Z.eqb_spec digits 0); [lia |].
  destruct (Z.ltb_spec 310 (count + e)); [lia |]. destruct (Z.ltb_spec (count + e) (-400)); [lia | done].
Qed.

Lemma parse_exponent_none rest : stops rest -> parse_exponent rest = Some (0, rest).
Proof.
  intros Hr. destruct rest as [| c rest]; [done |]. destruct Hr as (_ & _ & H1 & H2). cbn [parse_exponent].
  destruct (Z.eqb_spec c 101); [done |]. by destruct (Z.eqb_spec c 69).
Qed.

Lemma stops_digit rest : stops rest -> match rest with x :: _ => is_digit x = false | [] => True end.
Proof. destruct rest; [done | by intros [? _]]. Qed.

Lemma parse_exponent_text e rest : Z.abs e < 10 ^ 18 -> stops rest ->
  parse_exponent (exponent_text e ++ rest) = Some (e, rest).
Proof.
  intros He Hr. destruct (decimal_spec (Z.abs e) ltac:(lia)) as (Hd & Hv & Hne & _).
  assert (Hlen : zlen (decimal (Z.abs e)) <> 0) by (intros H; by apply zlen_zero_nil in H).
  unfold exponent_text. destruct (Z.leb_spec 0 e); cbn [app parse_exponent Z.eqb Pos.eqb orb].
  - rewrite parse_digits_all by (done || by apply stops_digit). rewrite Hv, Z.add_0_l.
    destruct (Z.eqb_spec (zlen (decimal (Z.abs e))) 0); [done |]. f_equal. f_equal. lia.
  - rewrite parse_digits_all by (done || by apply stops_digit). rewrite Hv, Z.add_0_l.
    destruct (Z.eqb_spec (zlen (decimal (Z.abs e))) 0); [done |]. f_equal. f_equal. lia.
Qed.

Section layout.
Context (ds : list Z) (scale b : Z) (negative : bool) (rest : list Z).
Context (Hd : all_digits ds) (Hne : ds <> []) (Hlow : 10 ^ (zlen ds - 1) <= digits_value 0 ds).
Context (Hscale : -342 <= scale) (Hpoint : zlen ds + scale <= 310) (Hround : decimal_round (digits_value 0 ds) scale = b).
Context (Hrest : stops rest).

Lemma layout_len : 1 <= zlen ds.
Proof using All. destruct ds; [done |]. rewrite zlen_cons. pose proof (zlen_nonneg l). lia. Qed.

Lemma layout_pos : 0 < digits_value 0 ds.
Proof using All. pose proof layout_len. pose proof (pow10_pos (zlen ds - 1) ltac:(lia)). lia. Qed.

(** Integers: the digits, then zeros. *)
Lemma parse_integer : 0 <= scale ->
  parse_unsigned negative ((ds ++ zeros scale) ++ rest) = Some (JNumber (if negative then 2 ^ 63 + b else b), rest).
Proof using All.
  intros Hs. destruct (zeros_spec scale Hs) as (Zd & Zv & Zl). pose proof layout_len. pose proof layout_pos.
  assert (Hall : all_digits (ds ++ zeros scale)) by (by apply Forall_app).
  unfold parse_unsigned. rewrite parse_digits_all by (done || by apply stops_digit).
  rewrite digits_value_app, Zv, zlen_app, Zl, Z.add_0_l.
  destruct (Z.eqb_spec (zlen ds + scale) 0); [lia |].
  assert (Hlead : match (ds ++ zeros scale) ++ rest with c :: _ => (c =? 48) && (1 <? zlen ds + scale) | [] => false end = false).
  { pose proof (first_digit ds Hd Hne Hlow) as Hf. destruct ds as [| d l]; [done |]. cbn.
    by destruct (Z.eqb_spec d 48). }
  rewrite Hlead. cbn [orb].
  assert (Hfrac : match rest with
      | c :: r => if c =? 46 then let '(frac, fcount, s3) := parse_digits r (digits_value 0 ds * 10 ^ scale) 0 in
            if fcount =? 0 then None else Some (frac, fcount, s3)
          else Some (digits_value 0 ds * 10 ^ scale, 0, rest)
      | [] => Some (digits_value 0 ds * 10 ^ scale, 0, rest)
      end = Some (digits_value 0 ds * 10 ^ scale, 0, rest)).
  { destruct rest as [| c r]; [done |]. destruct Hrest as (_ & H46 & _). by destruct (Z.eqb_spec c 46). }
  rewrite Hfrac, parse_exponent_none by done. cbv zeta. pose proof (pow10_pos scale Hs).
  rewrite decimal_value_round by (first [by apply Z.mul_pos_pos | lia]).
  rewrite <- Hround. replace (0 - 0) with 0 by lia. rewrite decimal_round_strip by done. done.
Qed.

(** A point inside the digits or before them, then perhaps an exponent. *)
Lemma parse_point before after e tail :
  all_digits before -> before <> [] -> all_digits after -> after <> [] ->
  (match before with d :: _ => d <> 48 | [] => False end \/ zlen before = 1) ->
  digits_value 0 (before ++ after) = digits_value 0 ds -> e - zlen after = scale ->
  -400 <= zlen before + e <= 310 ->
  parse_exponent (tail ++ rest) = Some (e, rest) -> match tail ++ rest with x :: _ => is_digit x = false | [] => True end ->
  parse_unsigned negative ((before ++ 46 :: after ++ tail) ++ rest) = Some (JNumber (if negative then 2 ^ 63 + b else b), rest).
Proof using All.
  intros Hb Hbn Ha Han Hz Hv He Hrange Hexp Htail. pose proof layout_pos.
  assert (Hlb : 1 <= zlen before) by (destruct before; [done |]; rewrite zlen_cons; pose proof (zlen_nonneg before); lia).
  assert (Hla : 1 <= zlen after) by (destruct after; [done |]; rewrite zlen_cons; pose proof (zlen_nonneg after); lia).
  unfold parse_unsigned. rewrite <- app_assoc. cbn [app]. rewrite <- app_assoc.
  rewrite parse_digits_all by done. rewrite Z.add_0_l. destruct (Z.eqb_spec (zlen before) 0); [lia |].
  assert (Hlead : match before ++ 46 :: after ++ tail ++ rest with c :: _ => (c =? 48) && (1 <? zlen before) | [] => false end = false).
  { destruct before as [| d l]; [done |]. cbn [app]. destruct Hz as [Hz | Hz].
    - by destruct (Z.eqb_spec d 48).
    - rewrite Hz. by rewrite andb_false_r. }
  rewrite Hlead. cbn [orb Z.eqb Pos.eqb]. rewrite parse_digits_all by done. rewrite Z.add_0_l, <- digits_value_app, Hv.
  destruct (Z.eqb_spec (zlen after) 0); [lia |]. rewrite Hexp. cbv zeta.
  rewrite decimal_value_round by (first [done | lia]). by rewrite He, Hround.
Qed.

(** One digit and an exponent. *)
Lemma parse_single d e : ds = [d] -> e = scale ->
  parse_unsigned negative ((d :: exponent_text e) ++ rest) = Some (JNumber (if negative then 2 ^ 63 + b else b), rest).
Proof using All.
  intros Hds ->. pose proof layout_pos as Hpos. subst ds. change (zlen [d]) with 1 in *.
  unfold parse_unsigned. change ((d :: exponent_text scale) ++ rest) with ([d] ++ exponent_text scale ++ rest).
  assert (Hhead : exists c, exponent_text scale = 101 :: c :: decimal (Z.abs scale)) by (unfold exponent_text; destruct (0 <=? scale); by eexists).
  rewrite parse_digits_all; [| done | by destruct Hhead as [c ->]]. change (0 + zlen [d]) with 1. cbn [Z.eqb app Z.ltb Z.compare Pos.compare].
  change (Pos.compare_cont Eq 1 1) with Eq. cbn [orb]. rewrite andb_false_r. cbn [orb].
  destruct Hhead as [c Hc]. rewrite Hc. cbn [app Z.eqb Pos.eqb]. change (101 :: c :: decimal (Z.abs scale) ++ rest) with ((101 :: c :: decimal (Z.abs scale)) ++ rest).
  rewrite <- Hc, parse_exponent_text by (done || lia). cbv zeta.
  rewrite decimal_value_round by (first [done | lia]). replace (scale - 0) with scale by lia. by rewrite Hround.
Qed.

Lemma parse_layout :
  parse_unsigned negative (number_layout ds (scale + zlen ds) ++ rest) = Some (JNumber (if negative then 2 ^ 63 + b else b), rest).
Proof using All.
  pose proof layout_len as Hlen. pose proof (first_digit ds Hd Hne Hlow) as Hfirst. set (n := scale + zlen ds). unfold number_layout.
  destruct (Z.leb_spec (zlen ds) n) as [H1 | H1], (Z.leb_spec n 21) as [H2 | H2]; cbn [andb].
  1: { replace (n - zlen ds) with scale by lia. apply parse_integer. lia. }
  all: try (destruct (Z.ltb_spec 0 n) as [H3 | H3]); cbn [andb].
  all: try (exfalso; lia).
  2: { (* the point inside the digits *)
    assert (Hn : (Z.to_nat n < length ds)%nat) by (unfold zlen in *; lia).
    rewrite <- (app_nil_r (drop _ ds)). change ([46] ++ drop (Z.to_nat n) ds ++ []) with (46 :: drop (Z.to_nat n) ds ++ []).
    assert (Hzl : zlen (take (Z.to_nat n) ds) = n) by (unfold zlen in *; rewrite length_take; lia).
    assert (Hzd : zlen (drop (Z.to_nat n) ds) = zlen ds - n) by (unfold zlen in *; rewrite length_drop; lia).
    apply (parse_point _ _ 0); try (by rewrite ?take_drop).
    - by apply Forall_take.
    - intros E. rewrite E in Hzl. change (zlen (@nil Z)) with 0 in Hzl. lia.
    - by apply Forall_drop.
    - intros E. rewrite E in Hzd. change (zlen (@nil Z)) with 0 in Hzd. lia.
    - left. destruct ds as [| d l]; [done |]. destruct (Z.to_nat n) eqn:En; [lia | exact Hfirst].
    - rewrite Hzd. lia.
    - rewrite Hzl. lia.
    - by apply parse_exponent_none.
    - by apply stops_digit. }
  all: destruct (Z.ltb_spec (-6) n) as [H4 | H4]; cbn [andb].
  all: try (destruct (Z.leb_spec n 0) as [H5 | H5]); cbn [andb].
  all: try (exfalso; lia).
  all: try (
    destruct (zeros_spec (- n) ltac:(lia)) as (Zd & Zv & Zl);
    change ([48; 46] ++ zeros (- n) ++ ds) with ([48] ++ 46 :: zeros (- n) ++ ds); rewrite <- (app_nil_r (zeros (- n) ++ ds));
    apply (parse_point _ _ 0); [apply all_digits_one; lia | done | by apply Forall_app | by destruct ds, (zeros (- n)) | by right
      | rewrite digits_value_app; unfold digits_value at 2; cbn [fold_left]; rewrite digits_value_app, Zv; f_equal; lia
      | rewrite zlen_app, Zl; lia | change (zlen [48]) with 1; lia | by apply parse_exponent_none | by apply stops_digit]; fail).
  all: assert (Htail : forall x, match exponent_text x ++ rest with y :: _ => is_digit y = false | [] => True end)
    by (intros x; unfold exponent_text; by destruct (0 <=? x)).
  all: assert (Hshape : (exists d, ds = [d]) \/ exists d d' l, ds = d :: d' :: l)
    by (destruct ds as [| d [| d' l]]; [done | left; by eexists | right; by do 3 eexists]).
  all: destruct Hshape as [[d Eds] | (d & d' & l & Eds)];
    [assert (Hn1 : n - 1 = scale) by (unfold n; rewrite Eds; change (zlen [d]) with 1; lia);
     rewrite Eds; by apply parse_single |].
  all: assert (Hl : zlen ds = 1 + zlen (d' :: l)) by (by rewrite Eds, zlen_cons).
  all: pose proof Hd as Hd'; rewrite Eds in Hd', Hfirst; apply list.Forall_cons in Hd' as [Hd1 Hd2].
  all: rewrite Eds; change (d :: 46 :: (d' :: l) ++ exponent_text (n - 1)) with ([d] ++ 46 :: (d' :: l) ++ exponent_text (n - 1)).
  all: apply (parse_point _ _ (n - 1)); [by apply all_digits_one | done | done | done | by left | by rewrite Eds | lia | change (zlen [d]) with 1; lia
      | apply parse_exponent_text; [lia | done] | apply Htail].
Qed.
End layout.

(** What parsing gives back: a zero loses its sign. *)
Definition printed_bits (bits : Z) : Z := if f64_significand bits =? 0 then 0 else bits.

Lemma sign_split bits : 0 <= bits < 2 ^ 64 -> (if f64_negative bits then 2 ^ 63 + bits mod 2 ^ 63 else bits mod 2 ^ 63) = bits.
Proof.
  intros Hb. unfold f64_negative. change (2 ^ 64) with (2 * 2 ^ 63) in Hb. destruct (Z.leb_spec (2 ^ 63) bits) as [H | H].
  - rewrite (Z.mod_eq bits) by done. assert (bits / 2 ^ 63 = 1) as ->; [| lia].
    symmetry. apply (Z.div_unique_pos _ _ _ (bits - 2 ^ 63)); lia.
  - apply Z.mod_small. lia.
Qed.

Lemma layout_head ds n : all_digits ds -> ds <> [] -> exists c tail, number_layout ds n = c :: tail /\ 48 <= c <= 57.
Proof.
  intros Hd Hne. destruct ds as [| d l]; [done |]. apply list.Forall_cons in Hd as [Hd _]. unfold number_layout.
  destruct ((zlen (d :: l) <=? n) && (n <=? 21)); [do 2 eexists; split; [reflexivity | lia] |].
  destruct (Z.ltb_spec 0 n) as [Hn | Hn]; cbn [andb].
  - destruct (n <=? 21).
    + assert (exists k, Z.to_nat n = S k) as [k ->] by (exists (Z.to_nat n - 1)%nat; lia).
      do 2 eexists; split; [reflexivity | lia].
    + destruct (Z.leb_spec n 0); [lia |]. rewrite andb_false_r. destruct l; do 2 eexists; (split; [reflexivity | lia]).
  - destruct (_ && _); [do 2 eexists; split; [reflexivity | lia] |]. destruct l; do 2 eexists; (split; [reflexivity | lia]).
Qed.

(** The text of a finite number is a digit, perhaps after a minus. *)
Lemma number_text_head bits : 0 <= bits < 2 ^ 64 -> f64_isFinite bits = true ->
  exists c tail, number_text bits = c :: tail /\ (c = 45 \/ 48 <= c <= 57).
Proof.
  intros Hb Hf. unfold number_text. destruct (Z.eqb_spec (f64_significand bits) 0) as [E | E]; [do 2 eexists; split; [done | lia] |].
  destruct (number_digits_spec bits Hb Hf E) as (s & scale & -> & Hs & _).
  destruct (decimal_spec s ltac:(lia)) as (Hd & _ & Hne & _).
  destruct (f64_negative bits); [do 2 eexists; split; [done | lia] |].
  destruct (layout_head (decimal s) (scale + zlen (decimal s)) Hd Hne) as (c & tail & -> & Hc). eauto.
Qed.

Lemma parse_number_text bits rest : 0 <= bits < 2 ^ 64 -> f64_isFinite bits = true -> stops rest ->
  parse_number (number_text bits ++ rest) = Some (JNumber (printed_bits bits), rest).
Proof.
  intros Hb Hf Hr. unfold number_text, printed_bits.
  destruct (Z.eqb_spec (f64_significand bits) 0) as [E | E].
  - rewrite parse_number_positive by done. change ([48] ++ rest) with (([48] ++ []) ++ rest). unfold parse_unsigned.
    rewrite parse_digits_all by (first [by apply stops_digit | apply all_digits_one; lia]). cbn -[parse_exponent decimal_value].
    assert (Hz : forall e, decimal_value 0 1 e = 0) by done.
    destruct rest as [| c rest]; [done |]. pose proof Hr as (_ & H46 & _). destruct (Z.eqb_spec c 46); [done |].
    rewrite parse_exponent_none by done. done.
  - destruct (number_digits_spec bits Hb Hf E) as (s & scale & Es & Hs & Hscale & Hround & Hpoint).
    rewrite Es. destruct (decimal_spec s ltac:(lia)) as (Hd & Hv & Hne & Hlow). specialize (Hlow ltac:(lia)).
    assert (Hlen : 1 <= zlen (decimal s)) by (destruct (decimal s); [done |]; rewrite zlen_cons; pose proof (zlen_nonneg l); lia).
    assert (Hparse : forall negative, parse_unsigned negative (number_layout (decimal s) (scale + zlen (decimal s)) ++ rest) =
      Some (JNumber (if negative then 2 ^ 63 + bits mod 2 ^ 63 else bits mod 2 ^ 63), rest)).
    { intros negative. apply parse_layout; try done; rewrite ?Hv; try done. by apply Hpoint. }
    pose proof (sign_split bits Hb) as Hsign. destruct (f64_negative bits).
    + change ((45 :: ?x) ++ rest) with (45 :: x ++ rest). rewrite parse_number_negative, Hparse. by rewrite Hsign.
    + rewrite parse_number_positive; [by rewrite Hparse, Hsign |].
      destruct (layout_head (decimal s) (scale + zlen (decimal s)) Hd Hne) as (c & tail & -> & Hc). cbn. lia.
Qed.

(** ** Values *)

(** The value [JSON.parse] builds from the text of [v]: own properties in
    enumeration order, zeros without sign. *)
Fixpoint parsed (v : json) : json :=
  match v with
  | JNumber bits => JNumber (printed_bits bits)
  | JArray l => JArray (map parsed l)
  | JObject m => JObject (own_properties (map (map_snd parsed) m))
  | _ => v
  end.

Lemma own_properties_map {A B} (f : A -> B) m : own_properties (map (map_snd f) m) = map (map_snd f) (own_properties m).
Proof.
  unfold own_properties. rewrite map_app, !map_map.
  assert (Hi : forall n p (l : list (Z * (list Z * A))), insert_index n (map_snd f p) (map (fun q => (fst q, map_snd f (snd q))) l) =
    map (fun q => (fst q, map_snd f (snd q))) (insert_index n p l)).
  { intros n p l. induction l as [| [n' p'] l IH]; cbn; [done |]. destruct (n <=? n'); cbn; [done |]. by rewrite IH. }
  f_equal.
  - set (g := fun q : Z * (list Z * A) => (fst q, map_snd f (snd q))).
    assert (E : foldr (fun p acc => match array_index_key (fst p) with Some n => insert_index n p acc | None => acc end) [] (map (map_snd f) m)
      = map g (foldr (fun p acc => match array_index_key (fst p) with Some n => insert_index n p acc | None => acc end) [] m)).
    { induction m as [| p m IH]; cbn; [done |]. destruct (array_index_key (fst p)); [rewrite IH; apply Hi | done]. }
    rewrite E, map_map. done.
  - induction m as [| p m IH]; cbn; [done |]. destruct (array_index_key (fst p)); cbn; [done | by rewrite IH].
Qed.

Lemma stops_ascii c rest : c = 44 \/ c = 93 \/ c = 125 -> stops (c :: rest).
Proof. intros [-> | [-> | ->]]; by vm_compute. Qed.

(** The first character of a text: never white space nor a closing bracket. *)
Lemma stringify_head v : wf_json v -> finite_json v = true ->
  exists c tail, stringify v = c :: tail /\ is_json_space c = false /\ c <> 93 /\ c <> 125.
Proof.
  intros Hw Hf. destruct v as [| [] | bits | s | l | m]; cbn [stringify]; try (do 2 eexists; split; [reflexivity | by vm_compute]).
  cbn in Hf. inversion Hw; subst. destruct (number_text_head bits ltac:(done) Hf) as (c & tail & -> & Hc).
  exists c, tail. split; [done |]. unfold is_json_space.
  destruct (Z.eqb_spec c 32), (Z.eqb_spec c 9), (Z.eqb_spec c 10), (Z.eqb_spec c 13); cbn; split; try lia; done.
Qed.

Lemma skip_space_head c tail : is_json_space c = false -> skip_space (c :: tail) = c :: tail.
Proof. intros H. cbn. by rewrite H. Qed.

(** A member, as [JSON.stringify] writes it. *)
Definition member_text (p : list Z * json) : list Z := quote (fst p) ++ [58] ++ stringify (snd p).

Section nested.
Context (parse : list Z -> option (json * list Z)).

(** [parse] reads back the text of [v]. *)
Definition reads (v : json) : Prop :=
  forall rest, stops rest -> parse (stringify v ++ rest) = Some (parsed v, rest).

Lemma parse_elements_stringify l rest : Forall reads l -> l <> [] -> forall n, (length l <= n)%nat ->
  parse_elements parse n (join_comma (map stringify l) ++ 93 :: rest) = Some (map parsed l, rest).
Proof using.
  intros Hl Hne. induction Hl as [| v l Hv Hl IH]; intros n Hn; [done |]. destruct n as [| n]; [cbn in Hn; lia |].
  cbn [parse_elements map]. destruct l as [| w l].
  - cbn [map join_comma]. rewrite Hv by (apply stops_ascii; auto). by cbn.
  - change (join_comma (stringify v :: map stringify (w :: l))) with (stringify v ++ 44 :: join_comma (map stringify (w :: l))).
    rewrite <- app_assoc, <- app_comm_cons, Hv by (apply stops_ascii; auto). rewrite skip_space_head by done. cbn [Z.eqb Pos.eqb].
    by rewrite (IH ltac:(done) n ltac:(cbn in *; lia)).
Qed.

Lemma member_text_app p r : member_text p ++ r = 34 :: quote_body (fst p) ++ 34 :: 58 :: stringify (snd p) ++ r.
Proof using. unfold member_text, quote. by rewrite <- !app_assoc. Qed.

Lemma parse_members_stringify rest : forall m acc n, Forall (fun p => is_jsstr (fst p) /\ reads (snd p)) m -> m <> [] ->
  jwf (acc ++ map (map_snd parsed) m) -> (length m <= n)%nat ->
  parse_members parse n acc (join_comma (map member_text m) ++ 125 :: rest) = Some (acc ++ map (map_snd parsed) m, rest).
Proof using.
  induction m as [| [k v] m IH]; intros acc n Hm Hne Hw Hn; [done |]. destruct n as [| n]; [cbn in Hn; lia |].
  apply list.Forall_cons in Hm as [[Hk Hv] Hm]. cbn [fst snd] in Hk, Hv.
  assert (Hset : jset k (parsed v) acc = acc ++ [(k, parsed v)]).
  { apply jset_absent. intros Hin. unfold jwf, jkeys in Hw. rewrite map_app in Hw. cbn in Hw.
    apply list.NoDup_app in Hw as (_ & Hdis & _). apply (Hdis k); [done | constructor]. }
  cbn [parse_members]. destruct m as [| p m].
  - change (join_comma (map member_text [(k, v)])) with (member_text (k, v)). rewrite member_text_app. cbn [fst snd].
    rewrite skip_space_head by done. cbn [Z.eqb Pos.eqb]. rewrite parse_string_quote by done.
    rewrite skip_space_head by done. cbn [Z.eqb Pos.eqb].
    rewrite Hv by (apply stops_ascii; auto). rewrite skip_space_head by done. cbn [Z.eqb Pos.eqb]. by rewrite Hset.
  - change (join_comma (map member_text ((k, v) :: p :: m))) with (member_text (k, v) ++ 44 :: join_comma (map member_text (p :: m))).
    rewrite <- app_assoc, <- app_comm_cons, member_text_app. cbn [fst snd].
    rewrite skip_space_head by done. cbn [Z.eqb Pos.eqb]. rewrite parse_string_quote by done.
    rewrite skip_space_head by done. cbn [Z.eqb Pos.eqb].
    rewrite Hv by (apply stops_ascii; auto). rewrite skip_space_head by done. cbn [Z.eqb Pos.eqb].
    rewrite Hset, IH; [by rewrite <- app_assoc | done | done | by rewrite <- app_assoc | cbn in *; lia].
Qed.
End nested.

Lemma join_comma_elements l : Forall (fun t => (1 <= length t)%nat) l -> (length l <= length (join_comma l))%nat.
Proof.
  induction 1 as [| t l Ht Hl IH]; [done |]. destruct l as [| t' l]; [cbn; lia |].
  cbn [join_comma length app] in *. rewrite !length_app. cbn [length] in *. lia.
Qed.

Lemma join_comma_member l t : t ∈ l -> (length t <= length (join_comma l))%nat.
Proof.
  induction l as [| x l IH]; [by intros ?%elem_of_nil |]. intros [-> | Hin]%elem_of_cons.
  - destruct l; cbn [join_comma]; [done |]. rewrite length_app. lia.
  - destruct l as [| y l]; [by apply elem_of_nil in Hin |]. cbn [join_comma] in *. specialize (IH Hin).
    rewrite !length_app. cbn [length]. lia.
Qed.

Lemma stringify_object m : stringify (JObject m) = 123 :: join_comma (map member_text (own_properties m)) ++ [125].
Proof. cbn [stringify]. rewrite own_properties_map, map_map. done. Qed.

Lemma parsed_object m : parsed (JObject m) = JObject (map (map_snd parsed) (own_properties m)).
Proof. cbn [parsed]. by rewrite own_properties_map. Qed.

Lemma stringify_nonempty v : wf_json v -> finite_json v = true -> (1 <= length (stringify v))%nat.
Proof. intros Hw Hf. destruct (stringify_head v Hw Hf) as (c & tail & -> & _). cbn. lia. Qed.

Lemma finite_elements (l : list json) : forallb finite_json l = true -> Forall (fun v => finite_json v = true) l.
Proof. rewrite forallb_forall. intros H. apply Forall_elem. intros v Hv. apply H. by apply list_elem_of_In. Qed.

Lemma finite_members (m : list (list Z * json)) :
  forallb (fun p => finite_json (snd p)) m = true -> Forall (fun p => finite_json (snd p) = true) m.
Proof. rewrite forallb_forall. intros H. apply Forall_elem. intros p Hp. apply H. by apply list_elem_of_In. Qed.

Definition read_back (v : json) : Prop :=
  wf_json v -> finite_json v = true -> forall fuel, (length (stringify v) <= fuel)%nat -> reads (parse_value fuel) v.

Lemma parse_array_back l fuel : Forall read_back l -> Forall wf_json l -> Forall (fun v => finite_json v = true) l ->
  (length (stringify (JArray l)) <= S fuel)%nat -> reads (parse_value (S fuel)) (JArray l).
Proof.
  intros Hl Hw Hf Hlen rest Hr. cbn [stringify] in Hlen |- *. rewrite !length_app in Hlen. cbn [length] in Hlen.
  cbn [parse_value app]. rewrite skip_space_head by done. cbn [Z.eqb Pos.eqb]. rewrite <- app_assoc. cbn [app].
  destruct l as [| v l]; [done |].
  assert (Hreads : Forall (reads (parse_value fuel)) (v :: l)).
  { apply Forall_elem. intros w Hin. pose proof (proj1 (Forall_elem _ _) Hl w Hin) as Hback.
    apply Hback; [by apply (proj1 (Forall_elem _ _) Hw) | by apply (proj1 (Forall_elem _ _) Hf) |].
    pose proof (join_comma_member (map stringify (v :: l)) (stringify w)) as Hm.
    specialize (Hm ltac:(apply list_elem_of_fmap; by exists w)). lia. }
  assert (Hcount : (length (v :: l) <= fuel)%nat).
  { pose proof (join_comma_elements (map stringify (v :: l))) as Hj. rewrite length_map in Hj.
    enough (length (v :: l) <= length (join_comma (map stringify (v :: l))))%nat by lia. apply Hj.
    rewrite Forall_map. apply Forall_elem. intros w Hin. apply stringify_nonempty; [by apply (proj1 (Forall_elem _ _) Hw) | by apply (proj1 (Forall_elem _ _) Hf)]. }
  rewrite (parse_elements_stringify _ (v :: l) rest Hreads ltac:(done) fuel Hcount).
  destruct (stringify_head v) as (c & tail & Ec & Hsp & H93 & _); [by apply list.Forall_cons in Hw as [? _] | by apply list.Forall_cons in Hf as [? _] |].
  assert (Hhead : exists more, join_comma (map stringify (v :: l)) ++ 93 :: rest = c :: more).
  { cbn [map]. destruct l as [| w l]; cbn [map join_comma]; rewrite Ec; by eexists. }
  destruct Hhead as (more & Emore). rewrite Emore, skip_space_head by done. destruct (Z.eqb_spec c 93); [done |]. done.
Qed.

Lemma member_text_length p : (1 <= length (member_text p))%nat.
Proof. unfold member_text, quote. cbn. lia. Qed.

Lemma parse_object_back m fuel : Forall (fun p => read_back (snd p)) m -> jwf m ->
  Forall (fun p => is_jsstr (fst p) /\ wf_json (snd p)) m -> Forall (fun p => finite_json (snd p) = true) m ->
  (length (stringify (JObject m)) <= S fuel)%nat -> reads (parse_value (S fuel)) (JObject m).
Proof.
  intros Hm Hnd Hw Hf Hlen rest Hr. rewrite stringify_object in Hlen |- *. rewrite parsed_object.
  assert (Hperm : own_properties m ≡ₚ m) by apply own_properties_perm.
  rewrite <- Hperm in Hm, Hw, Hf. apply (jwf_perm _ (own_properties m)) in Hnd; [| done].
  set (ms := own_properties m) in *. clearbody ms. clear m Hperm.
  cbn [length] in Hlen. rewrite length_app in Hlen. cbn [length] in Hlen.
  cbn [parse_value app]. rewrite skip_space_head by done. cbn [Z.eqb Pos.eqb]. rewrite <- app_assoc. cbn [app].
  destruct ms as [| p ms]; [done |].
  assert (Hreads : Forall (fun p => is_jsstr (fst p) /\ reads (parse_value fuel) (snd p)) (p :: ms)).
  { apply Forall_elem. intros q Hin. pose proof (proj1 (Forall_elem _ _) Hm q Hin) as Hback.
    destruct (proj1 (Forall_elem _ _) Hw q Hin) as [Hk Hwq]. split; [done |].
    apply Hback; [done | by apply (proj1 (Forall_elem _ _) Hf) |].
    pose proof (join_comma_member (map member_text (p :: ms)) (member_text q)) as Hj.
    specialize (Hj ltac:(apply list_elem_of_fmap; by exists q)). unfold member_text at 1 in Hj. rewrite !length_app in Hj. lia. }
  assert (Hcount : (length (p :: ms) <= fuel)%nat).
  { pose proof (join_comma_elements (map member_text (p :: ms))) as Hj. rewrite length_map in Hj.
    enough (length (p :: ms) <= length (join_comma (map member_text (p :: ms))))%nat by lia. apply Hj.
    rewrite Forall_map. apply Forall_elem. intros q _. apply member_text_length. }
  rewrite (parse_members_stringify _ rest (p :: ms) [] fuel Hreads ltac:(done)); [| | done].
  2: { cbn [app]. unfold jwf. by rewrite jkeys_map_snd. }
  assert (Hhead : exists more, join_comma (map member_text (p :: ms)) ++ 125 :: rest = 34 :: more).
  { cbn [map]. destruct ms as [| q ms]; cbn [map join_comma]; by eexists. }
  destruct Hhead as (more & Emore). rewrite Emore, skip_space_head by done. done.
Qed.

(** [JSON.parse] after [JSON.stringify], with enough fuel. *)
Lemma parse_value_stringify v : read_back v.
Proof.
  induction v as [| b | bits | s | l IH | m IH] using json_ind'; intros Hw Hf fuel Hlen;
    (destruct fuel as [| fuel]; [pose proof (stringify_nonempty _ Hw Hf); lia |]).
  - intros rest _. done.
  - intros rest _. by destruct b.
  - intros rest Hr. inversion Hw as [| | ? Hb | | |]; subst. cbn in Hf.
    destruct (number_text_head bits Hb Hf) as (c & tail & E & Hc).
    assert (Hp := parse_number_text bits rest Hb Hf Hr). cbn [stringify parsed]. rewrite E in Hp |- *. cbn [app] in Hp |- *.
    cbn [parse_value]. assert (Hsp : is_json_space c = false).
    { unfold is_json_space. destruct (Z.eqb_spec c 32), (Z.eqb_spec c 9), (Z.eqb_spec c 10), (Z.eqb_spec c 13); cbn; lia. }
    rewrite skip_space_head by done.
    destruct (Z.eqb_spec c 34); [lia |]. destruct (Z.eqb_spec c 91); [lia |]. destruct (Z.eqb_spec c 123); [lia |].
    assert ((c =? 45) || is_digit c = true) as ->; [| done]. apply orb_true_iff. rewrite is_digit_spec, Z.eqb_eq. done.
  - intros rest _. inversion Hw; subst. cbn [stringify parsed]. unfold quote. rewrite <- !app_assoc. cbn [app parse_value].
    rewrite skip_space_head by done. cbn [Z.eqb Pos.eqb]. by rewrite parse_string_quote.
  - inversion Hw; subst. apply parse_array_back; try done. by apply finite_elements.
  - inversion Hw; subst. apply parse_object_back; try done. by apply finite_members.
Qed.

Lemma JSON_parse_stringify v : wf_json v -> finite_json v = true -> JSON_parse (stringify v) = Ok (parsed v).
Proof.
  intros Hw Hf. unfold JSON_parse.
  pose proof (parse_value_stringify v Hw Hf (S (length (stringify v))) ltac:(lia) [] I) as H.
  rewrite app_nil_r in H. by rewrite H.
Qed.

(** ** The bytes *)

Lemma ascii_text s : Forall is_ascii s -> well_formed_text s.
Proof. apply well_formed_ascii. Qed.

Lemma quote_body_text s : is_jsstr s -> well_formed_text (quote_body s).
Proof.
  remember (length s) as n eqn:Hn. revert s Hn. induction n as [n IH] using lt_wf_ind. intros s -> Hs.
  destruct s as [| c s]; [apply well_formed_nil |]. apply list.Forall_cons in Hs as [Hc Hs].
  pose proof (IH (length s) ltac:(cbn; lia) s eq_refl Hs) as IHs. cbn [quote_body].
  assert (Hhex : well_formed_text ([92; 117] ++ hex4 c ++ quote_body s)).
  { do 2 (apply well_formed_cons; [lia |]). apply well_formed_app; [apply ascii_text, (hex4_ascii c Hc) | done]. }
  repeat (match goal with |- context [c =? ?k] => destruct (c =? k) end;
    [do 2 (apply well_formed_cons; [lia |]); done |]).
  destruct (c <? 32); [done |]. unfold is_unit in Hc. destruct (is_high c) eqn:Eh.
  - destruct s as [| d s']; [exact Hhex |]. destruct (is_low d) eqn:El; [| exact Hhex].
    apply list.Forall_cons in Hs as [Hd Hs]. destruct (IH (length s') ltac:(cbn; lia) s' eq_refl Hs) as [H1 H2].
    split; [by constructor; [| constructor] |]. cbn [toWellFormed]. by rewrite Eh, El, H2.
  - destruct (is_low c) eqn:El; [done |]. destruct IHs as [H1 H2]. split; [by constructor |].
    cbn [toWellFormed]. by rewrite Eh, El, H2.
Qed.

Lemma quote_text s : is_jsstr s -> well_formed_text (quote s).
Proof.
  intros Hs. apply well_formed_cons; [lia |]. apply well_formed_app; [by apply quote_body_text |].
  apply well_formed_cons; [lia | apply well_formed_nil].
Qed.

Lemma join_comma_text l : Forall well_formed_text l -> well_formed_text (join_comma l).
Proof.
  induction 1 as [| t l Ht Hl IH]; [apply well_formed_nil |]. destruct l as [| t' l]; [done |].
  change (join_comma (t :: t' :: l)) with (t ++ 44 :: join_comma (t' :: l)).
  apply well_formed_app; [done |]. by apply well_formed_cons.
Qed.

Lemma stringify_text v : wf_json v -> well_formed_text (stringify v).
Proof.
  induction v as [| [] | bits | s | l IH | m IH] using json_ind'; intros Hw;
    try (apply ascii_text; cbn; repeat constructor; unfold is_ascii; lia).
  - apply ascii_text, number_text_ascii.
  - inversion Hw; subst. by apply quote_text.
  - inversion Hw as [| | | | ? Hl |]; subst. cbn [stringify]. apply well_formed_cons; [lia |]. apply well_formed_app.
    + apply join_comma_text. rewrite Forall_map. apply Forall_elem. intros w Hin.
      apply (proj1 (Forall_elem _ _) IH w Hin), (proj1 (Forall_elem _ _) Hl w Hin).
    + apply well_formed_cons; [lia | apply well_formed_nil].
  - inversion Hw as [| | | | | ? Hnd Hm]; subst. rewrite stringify_object. apply well_formed_cons; [lia |]. apply well_formed_app.
    + apply join_comma_text. rewrite Forall_map. rewrite (own_properties_perm m). apply Forall_elem. intros p Hin.
      destruct (proj1 (Forall_elem _ _) Hm p Hin) as [Hk Hwp]. unfold member_text.
      apply well_formed_app; [by apply quote_text |]. apply well_formed_cons; [lia |].
      by apply (proj1 (Forall_elem _ _) IH p Hin).
    + apply well_formed_cons; [lia | apply well_formed_nil].
Qed.

Lemma decode_stringify v : wf_json v -> finite_json v = true -> decodeJSON (encodeBinaryUtf8 (stringify v)) = Ok (parsed v).
Proof.
  intros Hw Hf. unfold decodeJSON. rewrite TextDecoder_encode.
  - by apply JSON_parse_stringify.
  - by apply stringify_text.
  - destruct v as [| [] | bits | s | l | m]; try done. cbn in Hf. inversion Hw; subst.
    destruct (number_text_head bits ltac:(done) Hf) as (c & tail & E & Hc). cbn [stringify]. rewrite E. cbn. lia.
Qed.

(** *** Parsing changes nothing a canonical encoding shows *)

(** Numbers without the sign of zero. *)
Fixpoint unsigned_zero (v : json) : json :=
  match v with
  | JNumber bits => JNumber (printed_bits bits)
  | JArray l => JArray (map unsigned_zero l)
  | JObject m => JObject (map (map_snd unsigned_zero) m)
  | _ => v
  end.

Lemma canon_parsed v : wf_json v -> canon (parsed v) = canon (unsigned_zero v).
Proof.
  induction v as [| | | | l IH | m IH] using json_ind'; intros Hw; try done; inversion Hw as [| | | | ? Hl | ? Hnd Hm]; subst.
  - cbn. f_equal. rewrite !map_map. apply map_Forall_ext. apply Forall_elem. intros w Hin.
    apply (proj1 (Forall_elem _ _) IH w Hin), (proj1 (Forall_elem _ _) Hl w Hin).
  - cbn [parsed unsigned_zero canon]. f_equal.
    assert (E : map (map_snd canon) (map (map_snd parsed) m) = map (map_snd canon) (map (map_snd unsigned_zero) m)).
    { rewrite !map_map. apply map_Forall_ext. apply Forall_elem. intros p Hin. unfold map_snd. cbn. f_equal.
      apply (proj1 (Forall_elem _ _) IH p Hin), (proj1 (Forall_elem _ _) Hm p Hin). }
    rewrite <- E. apply sort_entries_perm_eq.
    + unfold jwf. rewrite jkeys_map_snd. apply (jwf_perm (map (map_snd parsed) m)); [symmetry; apply own_properties_perm |].
      unfold jwf. by rewrite jkeys_map_snd.
    + by rewrite (own_properties_perm (map (map_snd parsed) m)).
Qed.

Lemma stringify_unsigned v : stringify (unsigned_zero v) = stringify v.
Proof.
  induction v as [| | bits | | l IH | m IH] using json_ind'; try done.
  - cbn. unfold printed_bits. destruct (f64_significand bits =? 0) eqn:Hz; [| done]. unfold number_text. by rewrite Hz.
  - cbn. do 2 f_equal. f_equal. rewrite map_map. by apply map_Forall_ext.
  - cbn [stringify unsigned_zero]. rewrite map_map. do 4 f_equal. f_equal. apply map_Forall_ext.
    apply (Forall_weaken _ _ _ IH). intros p Hp. unfold map_snd. cbn. by rewrite Hp.
Qed.

Lemma canon_unsigned v : canon (unsigned_zero v) = unsigned_zero (canon v).
Proof.
  induction v as [| | | | l IH | m IH] using json_ind'; try done.
  - cbn. f_equal. rewrite !map_map. by apply map_Forall_ext.
  - cbn. f_equal. rewrite <- sort_entries_map, !map_map. f_equal. apply map_Forall_ext.
    apply (Forall_weaken _ _ _ IH). intros p Hp. unfold map_snd. cbn. by rewrite Hp.
Qed.

Lemma finite_unsigned v : finite_json v = true -> finite_json (unsigned_zero v) = true.
Proof.
  induction v as [| | bits | | l IH | m IH] using json_ind'; cbn; try done; intros Hf.
  - unfold printed_bits. by destruct (f64_significand bits =? 0).
  - rewrite forallb_forall in Hf |- *. intros x Hx. apply in_map_iff in Hx as (y & <- & Hy).
    apply (proj1 (Forall_elem _ _) IH); [by apply list_elem_of_In | by apply Hf].
  - rewrite forallb_forall in Hf |- *. intros x Hx. apply in_map_iff in Hx as (y & <- & Hy). cbn.
    apply (proj1 (Forall_elem _ _) IH); [by apply list_elem_of_In | by apply Hf].
Qed.

(** What a canonical encoding decodes to, as the encoding sees it. *)
Lemma decode_canonical v bs : wf_json v -> encodeCanonicalJSON v = Ok bs ->
  exists w, decodeJSON bs = Ok w /\ canon w = canon (unsigned_zero v) /\ wf_json w.
Proof.
  intros Hw He. pose proof (encodeCanonicalJSON_finite v bs He) as Hf.
  unfold encodeCanonicalJSON, canonicalJSON, sortJSON in He. rewrite Hf in He. cbn [bind_result] in He. injection He as <-.
  assert (Hd : decodeJSON (encodeBinaryUtf8 (stringify (canon v))) = Ok (parsed (canon v))).
  { apply decode_stringify; [by apply wf_canon | by rewrite finite_canon]. }
  exists (parsed (canon v)). split; [done |]. split.
  - rewrite canon_parsed by (by apply wf_canon). by rewrite !canon_unsigned, canon_idem.
  - eapply decodeJSON_wf; [| exact Hd]. apply encodeBinaryUtf8_bytes. by apply stringify_text, wf_canon.
Qed.

(** C37: canonical JSON is lossless. What [encodeCanonicalJSON] writes for a JSON
    value, [decodeJSON] reads back as the same value up to the order of object
    members and the sign of zero, which the encoding does not show: the decoded
    value has the same canonical form and the same bytes. This covers every
    finite double (the shortest digits written denote that double), every
    UTF-16 string, unpaired surrogates included, and any nesting. *)
Theorem canonical_json_roundtrip v bs :
  wf_json v -> encodeCanonicalJSON v = Ok bs ->
  exists w, decodeJSON bs = Ok w /\ canon w = canon (unsigned_zero v) /\ encodeCanonicalJSON w = Ok bs.
Proof.
  intros Hw He. destruct (decode_canonical v bs Hw He) as (w & Hd & Hc & _). exists w. split; [done |]. split; [done |].
  pose proof (encodeCanonicalJSON_finite v bs He) as Hf.
  unfold encodeCanonicalJSON, canonicalJSON, sortJSON in *. rewrite <- (finite_canon w), Hc, finite_canon.
  rewrite (finite_unsigned v Hf). rewrite Hf in He. cbn [bind_result] in *. rewrite <- He, canon_unsigned, stringify_unsigned. done.
Qed.

Definition sample_document : json :=
  JObject [(js "b", JArray [JNumber 0x3fb999999999999a; JNumber (2 ^ 63)]);
           (js "a", JString [34; 0xd800; 0x1f])].

Lemma canonical_json_roundtrip_witness :
  exists bs w, encodeCanonicalJSON sample_document = Ok bs /\ decodeJSON bs = Ok w /\
    canon w = canon (unsigned_zero sample_document) /\ encodeCanonicalJSON w = Ok bs.
Proof.
  destruct (encodeCanonicalJSON sample_document) as [bs |] eqn:E; [| vm_compute in E; discriminate E].
  destruct (canonical_json_roundtrip sample_document bs) as (w & H); [| exact E |].
  - apply wf_object; [apply (bool_decide_unpack (NoDup _)); by vm_compute |].
    repeat constructor; unfold is_unit; by vm_compute.
  - exists bs, w. split; [reflexivity | exact H].
Defined.
