(* ===== verification/CompactCodec.v ===== *)
(** * The compact codec is lossless ([compact-value.ts])

    The payload functions, and the proof that the reader of [CompactValue.v] inverts its writer: numbers, UUIDs, text
    references and the budget. *)

From Stdlib Require Import ZArith Lia String.
From stdpp Require Import base list option.
From S2P Require Import Prelude JsMap BinaryIO Wtf8 Json Vocabulary BinaryCodec CompactValue CompactSize.

(** ** Payloads *)

(** [new Reader(payload)] with its first table and budget. *)
Definition new_reader (payload : list Z) : rstate := mkR payload 0 empty_table 0.


Section payload.
Context (sha256_hex : list Z -> list Z).

Definition assertVocabulary : result unit :=
  let vocabulary := JArray [JArray (map JString FRAME_BINARY_KEYS); JArray (map JString FRAME_BINARY_STRINGS)] in
  guard! bool_decide (sha256_hex (stringify vocabulary) = js BINARY_V1_VOCABULARY_SHA256)
    else PlainError "compact value vocabulary changed" in
  Ok tt.

Definition encodeCompactValue (payload : list Z) : result (option (list Z)) :=
  let! _ := assertVocabulary in
  if MAX_CANONICAL_BYTES <? zlen payload then Ok None
  else Ok (try_result (
    let! value := decodeJSON payload in
    let! canonical := encodeCanonicalJSON value in
    guard! bool_decide (canonical = payload) else PlainError "not canonical" in
    let! (version, st) := emit [COMPACT_VALUE_VERSION] (mkW 0 0 empty_table) in
    let! (output, _) := compact_write (S MAX_DEPTH) value st in
    Ok (version ++ output))).

Definition decodeCompactValue (payload : list Z) : result (list Z) :=
  let! _ := assertVocabulary in
  guard! zlen payload <=? MAX_COMPACT_BYTES else compact_bound in
  let! (version, st) := reader_byte (new_reader payload) in
  guard! version =? COMPACT_VALUE_VERSION else TypeError "Unknown compact value version" in
  let! (value, st') := compact_read (S MAX_DEPTH) st in
  guard! bool_decide (r_input st' = []) else TypeError "Trailing compact value bytes" in
  let! canonical := encodeCanonicalJSON value in
  guard! zlen canonical <=? MAX_CANONICAL_BYTES else RangeError "Compact value exceeds 128 KiB" in
  Ok canonical.
End payload.

(** ** Numbers *)

Lemma f64_decompose bits : 0 <= bits < 2 ^ 64 ->
  bits = (if f64_negative bits then 2 ^ 63 else 0) + f64_exponent bits * 2 ^ 52 + f64_mantissa bits /\
  0 <= f64_exponent bits < 2048 /\ 0 <= f64_mantissa bits < 2 ^ 52.
Proof.
  intros Hb. unfold f64_negative, f64_exponent, f64_mantissa.
  pose proof (Z.mod_pos_bound (bits / 2 ^ 52) 2048 ltac:(lia)).
  pose proof (Z.mod_pos_bound bits (2 ^ 52) ltac:(lia)).
  pose proof (Z_div_mod_eq_full bits (2 ^ 52)).
  pose proof (Z_div_mod_eq_full (bits / 2 ^ 52) 2048).
  assert (0 <= bits / 2 ^ 52 / 2048 < 2).
  { split; [apply Z.div_pos; [apply Z.div_pos|]; lia |].
    apply Z.div_lt_upper_bound; [lia |]. apply Z.div_lt_upper_bound; lia. }
  destruct (Z.leb_spec (2 ^ 63) bits); lia.
Qed.

Lemma integer_pattern a k :
  0 <= k <= 52 -> 2 ^ 52 <= a * 2 ^ k < 2 ^ 53 ->
  (Z.log2 a + 1023) * 2 ^ 52 + (a * 2 ^ (52 - Z.log2 a) - 2 ^ 52) = (1075 - k) * 2 ^ 52 + (a * 2 ^ k - 2 ^ 52).
Proof.
  intros Hk Ha.
  assert (Hl : Z.log2 a = 52 - k).
  { assert (E1 : 2 ^ 52 = 2 ^ (52 - k) * 2 ^ k) by (rewrite <- Z.pow_add_r by lia; f_equal; lia).
    assert (E2 : 2 ^ 53 = 2 ^ (Z.succ (52 - k)) * 2 ^ k) by (rewrite <- Z.pow_add_r by lia; f_equal; lia).
    pose proof (Z.pow_pos_nonneg 2 k ltac:(lia) ltac:(lia)).
    apply Z.log2_unique; [lia |]. rewrite E1, E2 in Ha. nia. }
  rewrite Hl. replace (52 - (52 - k)) with k by lia. lia.
Qed.

Lemma f64_of_integer_magnitude a sign : 0 < a ->
  f64_of_integer (if sign : bool then - a else a) =
  (if sign then 2 ^ 63 else 0) + (Z.log2 a + 1023) * 2 ^ 52 + (a * 2 ^ (52 - Z.log2 a) - 2 ^ 52).
Proof.
  intros Ha. unfold f64_of_integer. destruct sign; [rewrite Z.abs_opp |]; rewrite Z.abs_eq by lia.
  - destruct (Z.eqb_spec a 0); [lia |]. destruct (Z.ltb_spec (- a) 0); lia.
  - destruct (Z.eqb_spec a 0); [lia |]. destruct (Z.ltb_spec a 0); lia.
Qed.

Lemma f64_safe_integer_magnitude bits n : 0 <= bits < 2 ^ 64 -> f64_safe_integer bits = Some n ->
  exists a, n = (if f64_negative bits then - a else a) /\ 0 <= a <= MAX_SAFE_INTEGER /\
    (a = 0 \/ exists k, 0 <= k <= 52 /\ f64_exponent bits = 1075 - k /\ a * 2 ^ k = 2 ^ 52 + f64_mantissa bits) /\
    (a = 0 -> f64_exponent bits = 0 /\ f64_mantissa bits = 0).
Proof.
  intros Hb Hn. destruct (f64_decompose bits Hb) as (_ & He & Hm).
  unfold f64_safe_integer in Hn. destruct (f64_magnitude bits) as [a |] eqn:Ea; [| done].
  destruct (Z.leb_spec a MAX_SAFE_INTEGER) as [Hs |]; [| done]. injection Hn as <-.
  exists a. split; [done |]. unfold f64_magnitude, f64_significand, f64_scale in Ea.
  set (e := f64_exponent bits) in *. set (m := f64_mantissa bits) in *.
  destruct (Z.eqb_spec e 0) as [He0 | He0].
  - cbn in Ea. rewrite Z.mod_small in Ea by lia. destruct (Z.eqb_spec m 0); [| done].
    injection Ea as <-. rewrite e0. split; [done |]. split; [by left | done].
  - destruct (Z.leb_spec 0 (e - 1075)).
    + injection Ea as <-. assert (e = 1075) as ->.
      { destruct (Z.eq_dec e 1075); [done |]. exfalso.
        assert (2 ^ 1 <= 2 ^ (e - 1075)) by (apply Z.pow_le_mono_r; lia).
        unfold MAX_SAFE_INTEGER in Hs. nia. }
      change (2 ^ (1075 - 1075)) with 1 in *. split; [lia |]. split; [| lia].
      right. exists 0. change (2 ^ 0) with 1. lia.
    + set (k := - (e - 1075)) in *. destruct (Z.eqb_spec ((2 ^ 52 + m) mod 2 ^ k) 0) as [Hd |]; [| done].
      injection Ea as <-. pose proof (Z.pow_pos_nonneg 2 k ltac:(lia) ltac:(lia)) as Hp.
      assert (Hk : k <= 52).
      { destruct (Z.le_gt_cases k 52); [done |]. exfalso.
        assert (2 ^ 53 <= 2 ^ k) by (apply Z.pow_le_mono_r; lia). rewrite Z.mod_small in Hd by lia. lia. }
      pose proof (Z_div_mod_eq_full (2 ^ 52 + m) (2 ^ k)) as Hdm. rewrite Hd in Hdm.
      assert (Hpos : 0 <= (2 ^ 52 + m) / 2 ^ k) by (apply Z.div_pos; lia).
      split; [lia |]. split.
      * right. exists k. split; [lia |]. split; [lia |]. lia.
      * intros Hz. rewrite Hz in Hdm. lia.
Qed.

Definition normal_bits (bits : Z) : Z := if bits =? 2 ^ 63 then 0 else bits.

Lemma f64_of_safe_integer bits n : 0 <= bits < 2 ^ 64 -> f64_safe_integer bits = Some n ->
  f64_of_integer n = normal_bits bits /\ Z.abs n <= MAX_SAFE_INTEGER.
Proof.
  intros Hb Hn. destruct (f64_safe_integer_magnitude _ _ Hb Hn) as (a & -> & Ha & Hk & Hz).
  destruct (f64_decompose bits Hb) as (Hd & He & Hm).
  split; [| destruct (f64_negative bits); lia]. unfold normal_bits.
  destruct (Z.eq_dec a 0) as [-> | Hne].
  - destruct (Hz eq_refl) as [Z1 Z2]. rewrite Z1, Z2 in Hd. rewrite Hd at 3.
    destruct (f64_negative bits); rewrite Hd; done.
  - destruct Hk as [| (k & Hk & Hek & Hak)]; [done |].
    rewrite f64_of_integer_magnitude, <- Z.add_assoc, (integer_pattern a k) by lia.
    destruct (Z.eqb_spec bits (2 ^ 63)); [| lia].
    exfalso. destruct (f64_negative bits); lia.
Qed.

Lemma f32_truncate_nonneg bits : 0 <= bits < 2 ^ 64 -> 0 <= f32_truncate bits.
Proof.
  intros Hb. destruct (f64_decompose bits Hb) as (_ & He & Hm). unfold f32_truncate, f64_significand.
  set (e := f64_exponent bits) in *. set (m := f64_mantissa bits) in *.
  assert (0 <= m / 2 ^ 29) by (apply Z.div_pos; lia).
  destruct (Z.leb_spec 897 e); [destruct (f64_negative bits); lia |].
  destruct (Z.leb_spec 874 e); [| destruct (f64_negative bits); lia].
  assert (0 <= (if e =? 0 then m else 2 ^ 52 + m) / 2 ^ (926 - e)).
  { apply Z.div_pos; [destruct (e =? 0); lia | apply Z.pow_pos_nonneg; lia]. }
  destruct (f64_negative bits); lia.
Qed.

Lemma f32_exact_sound bits p : 0 <= bits < 2 ^ 64 -> f32_exact bits = Some p ->
  0 <= p < 2 ^ 32 /\ f64_of_f32 p = bits.
Proof.
  unfold f32_exact. intros Hb H. pose proof (f32_truncate_nonneg bits Hb).
  destruct (_ && _) eqn:E; [| done]. injection H as <-. reflect_tests. lia.
Qed.

Lemma f64_fields (sign : bool) e m : 0 <= e < 2048 -> 0 <= m < 2 ^ 52 ->
  let bits := (if sign then 2 ^ 63 else 0) + e * 2 ^ 52 + m in
  0 <= bits < 2 ^ 64 /\ f64_negative bits = sign /\ f64_exponent bits = e /\ f64_mantissa bits = m.
Proof.
  intros He Hm bits. unfold f64_negative, f64_exponent, f64_mantissa.
  assert (Hq : bits / 2 ^ 52 = (if sign then 2048 else 0) + e).
  { symmetry. apply Z.div_unique with m; [lia |]. unfold bits. destruct sign; lia. }
  assert (Hr : bits mod 2 ^ 52 = m).
  { symmetry. apply Z.mod_unique with ((if sign then 2048 else 0) + e); [lia |]. unfold bits. destruct sign; lia. }
  rewrite Hq, Hr. split; [unfold bits; destruct sign; lia |]. split.
  - unfold bits. destruct sign; [apply Z.leb_le | apply Z.leb_gt]; lia.
  - split; [| done]. destruct sign; [| by apply Z.mod_small].
    rewrite Z.add_comm, <- (Z.mul_1_l 2048) at 1. rewrite Z.mod_add by lia. by apply Z.mod_small.
Qed.

(** Every finite float32 is found: [f32_exact] is the test
    [Math.fround(value) === value]. *)
Lemma f32_exact_complete p : 0 <= p < 2 ^ 32 -> (p / 2 ^ 23) mod 256 <> 255 ->
  f32_exact (f64_of_f32 p) = Some p.
Proof.
  intros Hp He.
  assert (Hfields : exists (sign : bool) e m, p = (if sign then 2 ^ 31 else 0) + e * 2 ^ 23 + m /\
    0 <= e < 255 /\ 0 <= m < 2 ^ 23 /\ (2 ^ 31 <=? p) = sign /\ (p / 2 ^ 23) mod 256 = e /\ p mod 2 ^ 23 = m).
  { exists (2 ^ 31 <=? p), ((p / 2 ^ 23) mod 256), (p mod 2 ^ 23).
    pose proof (Z.mod_pos_bound (p / 2 ^ 23) 256 ltac:(lia)).
    pose proof (Z.mod_pos_bound p (2 ^ 23) ltac:(lia)).
    pose proof (Z_div_mod_eq_full p (2 ^ 23)).
    pose proof (Z_div_mod_eq_full (p / 2 ^ 23) 256).
    assert (0 <= p / 2 ^ 23 / 256 < 2).
    { split; [apply Z.div_pos; [apply Z.div_pos|]; lia |].
      apply Z.div_lt_upper_bound; [lia |]. apply Z.div_lt_upper_bound; lia. }
    destruct (Z.leb_spec (2 ^ 31) p); repeat split; lia. }
  destruct Hfields as (sign & e & m & Hd & Hre & Hrm & Es & Ee & Em).
  assert (Ht : f32_truncate (f64_of_f32 p) = p).
  { unfold f64_of_f32. rewrite Es, Ee, Em. destruct (Z.eqb_spec e 255); [lia |].
    unfold f32_truncate, f64_significand. destruct (Z.eqb_spec e 0) as [-> |].
    - destruct (Z.eqb_spec m 0) as [-> |].
      + destruct (f64_fields sign 0 0 ltac:(lia) ltac:(lia)) as (_ & Hs & Hx & Hy). cbn in Hs, Hx.
        rewrite !Z.add_0_r in Hs, Hx. rewrite Hs, Hx. cbn. destruct sign; lia.
      + assert (Hk : 0 <= Z.log2 m <= 22).
        { split; [apply Z.log2_nonneg |]. assert (Z.log2 m < 23); [apply Z.log2_lt_pow2; lia | lia]. }
        destruct (Z.log2_spec m ltac:(lia)) as [L1 L2].
        assert (B : 2 ^ 52 <= m * 2 ^ (52 - Z.log2 m) < 2 ^ 53).
        { assert (E1 : 2 ^ 52 = 2 ^ Z.log2 m * 2 ^ (52 - Z.log2 m)) by (rewrite <- Z.pow_add_r by lia; f_equal; lia).
          assert (E2 : 2 ^ 53 = 2 ^ Z.succ (Z.log2 m) * 2 ^ (52 - Z.log2 m)) by (rewrite <- Z.pow_add_r by lia; f_equal; lia).
          pose proof (Z.pow_pos_nonneg 2 (52 - Z.log2 m) ltac:(lia) ltac:(lia)). rewrite E1, E2. nia. }
        destruct (f64_fields sign (Z.log2 m + 874) (m * 2 ^ (52 - Z.log2 m) - 2 ^ 52) ltac:(lia) ltac:(lia))
          as (_ & Hs & Hx & Hy). rewrite Hs, Hx, Hy.
        destruct (Z.leb_spec 897 (Z.log2 m + 874)); [lia |].
        destruct (Z.leb_spec 874 (Z.log2 m + 874)); [| lia].
        destruct (Z.eqb_spec (Z.log2 m + 874) 0); [lia |].
        replace (2 ^ 52 + (m * 2 ^ (52 - Z.log2 m) - 2 ^ 52)) with (m * 2 ^ (52 - Z.log2 m)) by lia.
        replace (926 - (Z.log2 m + 874)) with (52 - Z.log2 m) by lia.
        rewrite Z.div_mul by (apply Z.pow_nonzero; lia). destruct sign; lia.
    - destruct (f64_fields sign (e + 896) (m * 2 ^ 29) ltac:(lia) ltac:(lia)) as (_ & Hs & Hx & Hy).
      rewrite Hs, Hx, Hy. destruct (Z.leb_spec 897 (e + 896)); [| lia].
      rewrite Z.div_mul by lia. destruct sign; lia. }
  unfold f32_exact. rewrite Ht, Z.eqb_refl. by destruct (Z.ltb_spec p (2 ^ 32)); [| lia].
Qed.

(** ** UUIDs *)

Fixpoint dashed (segs : list (list Z)) : list Z :=
  match segs with
  | [] => []
  | [x] => x
  | x :: segs' => x ++ 45 :: dashed segs'
  end.

Lemma hex_groups_inv s : forall groups left, hex_groups groups left s = true ->
  exists segs, map length segs = left :: groups /\
    Forall (fun c => is_lower_hex c = true) (concat segs) /\ s = dashed segs.
Proof.
  induction s as [| c s IH]; intros groups left H.
  - destruct left; [| done]. destruct groups; [| done]. by exists [[]].
  - destruct left as [| left]; cbn in H.
    + destruct groups as [| g groups]; [done |]. apply andb_true_iff in H as [->%Z.eqb_eq H].
      apply IH in H as (segs & Hl & Hf & ->). exists ([] :: segs).
      destruct segs as [| x segs]; [done |]. cbn in *. by rewrite Hl.
    + apply andb_true_iff in H as [Hc H]. apply IH in H as (segs & Hl & Hf & ->).
      destruct segs as [| x segs]; [done |]. cbn in Hl. injection Hl as Hx Hl.
      exists ((c :: x) :: segs). cbn. rewrite Hx, Hl. split; [done |]. split; [by constructor |].
      by destruct segs.
Qed.

Lemma is_lower_hex_range c : is_lower_hex c = true -> 48 <= c < 58 \/ 97 <= c < 103.
Proof. unfold is_lower_hex, is_digit. intros. reflect_tests. lia. Qed.

Lemma filter_hex l : Forall (fun c => is_lower_hex c = true) l -> List.filter (fun c => negb (c =? 45)) l = l.
Proof.
  induction 1 as [| c l Hc _ IH]; cbn; [done |]. apply is_lower_hex_range in Hc.
  destruct (Z.eqb_spec c 45); [lia |]. cbn. by rewrite IH.
Qed.

Lemma filter_dashed segs : Forall (fun c => is_lower_hex c = true) (concat segs) ->
  List.filter (fun c => negb (c =? 45)) (dashed segs) = concat segs.
Proof.
  induction segs as [| x segs IH]; cbn [concat]; intros H; [done |].
  apply Forall_app in H as [Hx H]. destruct segs as [| y segs]; [cbn [dashed concat]; rewrite app_nil_r; by apply filter_hex |].
  change (dashed (x :: y :: segs)) with (x ++ 45 :: dashed (y :: segs)).
  rewrite filter_app, filter_hex by done. f_equal. change (List.filter (fun c => negb (c =? 45)) (dashed (y :: segs)) = concat (y :: segs)). by apply IH.
Qed.

Lemma hex_nibble_digit c : is_lower_hex c = true -> 0 <= hex_nibble c < 16 /\ hex_digit (hex_nibble c) = c.
Proof.
  intros Hc%is_lower_hex_range. unfold hex_nibble, hex_digit, is_digit.
  destruct (Z.leb_spec 48 c), (Z.leb_spec c 57); cbn; try lia.
  - destruct (Z.ltb_spec (c - 48) 10); lia.
  - destruct (Z.ltb_spec (c - 87) 10); lia.
Qed.

Lemma hex_pairs_bytes hex n : length hex = (2 * n)%nat -> Forall (fun c => is_lower_hex c = true) hex ->
  concat (map hex_byte (hex_pairs hex)) = hex /\ length (hex_pairs hex) = n /\ is_bytes (hex_pairs hex).
Proof.
  revert hex. induction n as [| n IH]; intros hex Hl Hf.
  - destruct hex; [| done]. repeat split. constructor.
  - destruct hex as [| a [| b hex]]; cbn in Hl; try lia.
    apply list.Forall_cons in Hf as [Ha Hf]. apply list.Forall_cons in Hf as [Hb Hf].
    destruct (IH hex ltac:(lia) Hf) as (E1 & E2 & E3).
    apply hex_nibble_digit in Ha as [Ra Ea], Hb as [Rb Eb].
    cbn [hex_pairs map concat length]. rewrite E1, E2. unfold hex_byte.
    rewrite Z.div_add_l, (Z.div_small (hex_nibble b)), Z.add_0_r by lia.
    rewrite Z.add_comm, Z.mod_add, Z.mod_small by lia. rewrite Ea, Eb.
    repeat split. constructor; [unfold is_byte; lia | done].
Qed.

Lemma uuid_pack_unpack s uuid : packUUID s = Some uuid -> uuidString uuid = s /\ length uuid = 16%nat /\ is_bytes uuid.
Proof.
  unfold packUUID. destruct (is_uuid s) eqn:E; [| done]. intros [= <-].
  apply hex_groups_inv in E as (segs & Hl & Hf & ->).
  rewrite filter_dashed by done.
  assert (Hlen : length (concat segs) = 32%nat).
  { destruct segs as [| s1 [| s2 [| s3 [| s4 [| s5 [| s6 segs]]]]]]; try done. injection Hl as H1 H2 H3 H4 H5.
    cbn. rewrite !length_app. cbn. lia. }
  destruct (hex_pairs_bytes (concat segs) 16 ltac:(lia) Hf) as (E1 & E2 & E3).
  split; [| done]. unfold uuidString. rewrite E1. clear E1 E2 E3 Hf Hlen.
  destruct segs as [| s1 [| s2 [| s3 [| s4 [| s5 [| s6 segs]]]]]]; try done. injection Hl as H1 H2 H3 H4 H5.
  cbn [concat dashed]. rewrite app_nil_r.
  rewrite take_app_length' by done.
  rewrite (drop_app_length' s1) by done. rewrite (take_app_length' s2) by done.
  rewrite (app_assoc s1 s2), (drop_app_length' (s1 ++ s2)) by (rewrite length_app; lia).
  rewrite (take_app_length' s3) by done.
  rewrite (app_assoc (s1 ++ s2) s3), (drop_app_length' ((s1 ++ s2) ++ s3)) by (rewrite !length_app; lia).
  rewrite (take_app_length' s4) by done.
  rewrite (app_assoc _ s4 s5), drop_app_length' by (rewrite !length_app; lia).
  done.
Qed.

(** ** The text table *)

Definition table_ok (t : TextTable) : Prop :=
  zlen (tt_values t) <= MAX_TABLE_ENTRIES /\
  forall s i, jget s (tt_indexes t) = Some i -> nthZ (tt_values t) i = Some s /\ 0 <= i < MAX_TABLE_ENTRIES.

Lemma empty_table_ok : table_ok empty_table.
Proof. by split. Qed.

Lemma nthZ_app_l {A} (l k : list A) i x : nthZ l i = Some x -> nthZ (l ++ k) i = Some x.
Proof.
  unfold nthZ. rewrite zlen_app. pose proof (zlen_nonneg k).
  destruct (Z.leb_spec 0 i); [| done]. destruct (Z.ltb_spec i (zlen l)); [| done].
  destruct (Z.ltb_spec i (zlen l + zlen k)); [| lia]. apply lookup_app_l_Some.
Qed.

Lemma nthZ_snoc {A} (l : list A) x : nthZ (l ++ [x]) (zlen l) = Some x.
Proof. unfold zlen. rewrite nthZ_lookup. by rewrite lookup_app_r, Nat.sub_diag by done. Qed.

Lemma table_add_ok s t : table_ok t -> table_ok (table_add s t).
Proof.
  intros [Hl Ht]. unfold table_add. destruct (_ || _) eqn:E; [done |]. reflect_tests.
  split; cbn.
  - rewrite zlen_app. change (zlen [s]) with 1. unfold MAX_TABLE_ENTRIES in *. lia.
  - intros s' i. rewrite jget_jset. case_decide; subst.
    + intros [= <-]. split; [apply nthZ_snoc |]. pose proof (zlen_nonneg (tt_values t)). lia.
    + intros Hs. destruct (Ht _ _ Hs). split; [by apply nthZ_app_l | done].
Qed.

(** ** Text *)

Lemma reader_varint_digits maximum value rest count t total :
  0 <= value <= maximum -> maximum <= MAX_SAFE_INTEGER ->
  reader_varint maximum (mkR (varint_digits 8 value ++ rest) count t total) = Ok (value, mkR rest count t total).
Proof. intros. unfold reader_varint. cbn [r_input]. by rewrite compactVarint_digits. Qed.

Lemma reader_bytes_app bs rest count t total :
  zlen bs <= MAX_COMPACT_BYTES ->
  reader_bytes (zlen bs) (mkR (bs ++ rest) count t total) = Ok (bs, mkR rest count t total).
Proof.
  intros Hl. unfold reader_bytes. cbn [r_input]. pose proof (zlen_nonneg bs).
  rewrite (proj2 (isSafeInteger_spec _)) by (unfold MAX_SAFE_INTEGER, MAX_COMPACT_BYTES, MAX_CANONICAL_BYTES in *; lia).
  rewrite zlen_app. pose proof (zlen_nonneg rest).
  destruct (Z.leb_spec 0 (zlen bs)); [| lia]. destruct (Z.leb_spec (zlen bs) (zlen bs + zlen rest)); [| lia].
  cbn [andb]. by rewrite take_zlen_app, drop_zlen_app.
Qed.

Lemma reader_bytes_len n bs rest count t total :
  zlen bs = n -> n <= MAX_COMPACT_BYTES ->
  reader_bytes n (mkR (bs ++ rest) count t total) = Ok (bs, mkR rest count t total).
Proof. intros <-. apply reader_bytes_app. Qed.

Lemma emit_inv bs st bs' st' : emit bs st = Ok (bs', st') ->
  bs' = bs /\ w_count st' = w_count st /\ w_table st' = w_table st /\ zlen bs + w_used st <= MAX_COMPACT_BYTES.
Proof. unfold emit. intros H. inv_result. reflect_tests. cbn. repeat split. lia. Qed.

Lemma emit_varint_inv value st bs' st' : emit_varint value st = Ok (bs', st') ->
  bs' = varint_digits 8 value /\ 0 <= value <= MAX_SAFE_INTEGER /\ w_count st' = w_count st /\ w_table st' = w_table st.
Proof.
  unfold emit_varint. intros H. inv_result. apply writeVarint_ok in E as [? ->].
  apply emit_inv in H as (-> & ? & ? & _). done.
Qed.

Lemma dictionary_lookup key s i : jget s (indexes_of key) = Some i ->
  nthZ (dictionary_of key) i = Some s /\ 0 <= i < zlen (dictionary_of key).
Proof. destruct key; apply vocabulary_sound. Qed.

Lemma uuidToken_bound key : 0 <= zlen (dictionary_of key) /\ uuidToken key <= MAX_SAFE_INTEGER.
Proof. split; [apply zlen_nonneg |]. destruct key; apply Z.leb_le; vm_compute; reflexivity. Qed.

Lemma uuidToken_eq key : uuidToken key = zlen (dictionary_of key) + 33.
Proof. unfold uuidToken, MAX_TABLE_ENTRIES. lia. Qed.

#[global] Arguments uuidToken : simpl never.
#[global] Arguments dictionary_of : simpl never.

(** What one text costs the reader: the same text, count and table. *)
Lemma readText_writeText key s st bs st' rest total :
  is_jsstr s -> table_ok (w_table st) -> writeText s key st = Ok (bs, st') ->
  readText key (mkR (bs ++ rest) (w_count st) (w_table st) total)
    = Ok (s, mkR rest (w_count st') (w_table st') total) /\
  table_ok (w_table st') /\ w_count st' = w_count st.
Proof.
  intros Hs Ht Hw. unfold writeText in Hw. unfold readText.
  destruct (uuidToken_bound key) as [HD HU]. rewrite uuidToken_eq in HU.
  destruct (table_index s (w_table st)) as [ref |] eqn:Eref.
  { apply emit_varint_inv in Hw as (-> & Hv & -> & ->).
    destruct Ht as [Hl Ht]. destruct (Ht _ _ Eref) as [Hn Hr]. unfold MAX_TABLE_ENTRIES in Hr.
    rewrite reader_varint_digits by (rewrite uuidToken_eq; lia). cbn [bind_result].
    destruct (Z.eqb_spec (zlen (dictionary_of key) + 1 + ref) 0); [lia |].
    destruct (Z.leb_spec (zlen (dictionary_of key) + 1 + ref) (zlen (dictionary_of key))); [lia |].
    rewrite uuidToken_eq. destruct (Z.ltb_spec (zlen (dictionary_of key) + 1 + ref) (zlen (dictionary_of key) + 33)); [| lia].
    replace (zlen (dictionary_of key) + 1 + ref - (zlen (dictionary_of key) + 1)) with ref by lia.
    unfold table_value. cbn [r_table]. rewrite Hn. done. }
  destruct (jget s (indexes_of key)) as [i |] eqn:Ei.
  { inv_result. apply emit_varint_inv in E as (-> & Hv & Hc & Htab).
    apply dictionary_lookup in Ei as [Hn Hi].
    rewrite reader_varint_digits by (rewrite uuidToken_eq; lia). cbn [bind_result].
    destruct (Z.eqb_spec (i + 1) 0); [lia |].
    destruct (Z.leb_spec (i + 1) (zlen (dictionary_of key))); [| lia].
    replace (i + 1 - 1) with i by lia. rewrite Hn. cbn. rewrite Hc, Htab.
    split; [done |]. split; [by apply table_add_ok | done]. }
  destruct (packUUID s) as [uuid |] eqn:Eu.
  { inv_result. apply emit_varint_inv in E as (-> & Hv & Hc1 & Ht1).
    apply emit_inv in E0 as (-> & Hc2 & Ht2 & Hl).
    destruct (uuid_pack_unpack _ _ Eu) as (Hus & Hul & _).
    rewrite <- app_assoc, reader_varint_digits by (rewrite uuidToken_eq; lia). cbn [bind_result].
    rewrite uuidToken_eq. destruct (Z.eqb_spec (zlen (dictionary_of key) + 33) 0); [lia |].
    destruct (Z.leb_spec (zlen (dictionary_of key) + 33) (zlen (dictionary_of key))); [lia |].
    destruct (Z.ltb_spec (zlen (dictionary_of key) + 33) (zlen (dictionary_of key) + 33)); [lia |].
    rewrite Z.eqb_refl. replace 16 with (zlen uuid) by (unfold zlen; lia).
    rewrite reader_bytes_app by (unfold zlen; rewrite Hul; done). cbn. rewrite Hus, Hc2, Hc1, Ht2, Ht1.
    split; [done |]. split; [by apply table_add_ok | done]. }
  inv_result. apply emit_varint_inv in E as (-> & Hv & Hc1 & Ht1).
  apply emit_varint_inv in E0 as (-> & Hv' & Hc2 & Ht2).
  apply emit_inv in E1 as (-> & Hc3 & Ht3 & Hl). apply Z.leb_le in Hg.
  rewrite <- app_assoc, reader_varint_digits by (rewrite uuidToken_eq; lia). cbn [bind_result Z.eqb].
  rewrite <- app_assoc, reader_varint_digits by (unfold MAX_STRING_BYTES, MAX_CANONICAL_BYTES, MAX_SAFE_INTEGER in *; lia).
  cbn [bind_result]. rewrite reader_bytes_app by (unfold MAX_STRING_BYTES, MAX_COMPACT_BYTES, MAX_CANONICAL_BYTES in *; lia).
  cbn [bind_result]. rewrite <- (app_nil_r (encodeBinaryUtf8 s)), decode_encode_app by done. cbn.
  rewrite app_nil_r, Hc3, Hc2, Hc1, Ht3, Ht2, Ht1.
  split; [done |]. split; [by apply table_add_ok | done].
Qed.

(** ** Values *)

(** A compact value carries no negative zero; canonical JSON has none. *)
Fixpoint normal (v : json) : json :=
  match v with
  | JNumber bits => JNumber (normal_bits bits)
  | JArray l => JArray (map normal l)
  | JObject m => JObject (map (map_snd normal) m)
  | _ => v
  end.

Lemma normal_bits_text bits : number_text (normal_bits bits) = number_text bits.
Proof. unfold normal_bits. by destruct (Z.eqb_spec bits (2 ^ 63)) as [-> |]. Qed.

Lemma normal_bits_finite bits : f64_isFinite (normal_bits bits) = f64_isFinite bits.
Proof. unfold normal_bits. by destruct (Z.eqb_spec bits (2 ^ 63)) as [-> |]. Qed.

Lemma stringify_normal v : stringify (normal v) = stringify v.
Proof.
  induction v as [| | bits | | l IH | m IH] using json_ind'; cbn [normal stringify]; try done.
  - apply normal_bits_text.
  - do 3 f_equal. rewrite map_map. by apply map_Forall_ext.
  - do 5 f_equal. rewrite map_map. apply map_Forall_ext, (Forall_weaken _ _ _ IH).
    intros p Hp. unfold map_snd. cbn. by rewrite Hp.
Qed.

Lemma finite_normal v : finite_json (normal v) = finite_json v.
Proof.
  induction v as [| | bits | | l IH | m IH] using json_ind'; cbn [normal finite_json]; try done.
  - apply normal_bits_finite.
  - by apply forallb_map_ext.
  - by apply forallb_map_ext.
Qed.

Lemma canon_normal v : canon (normal v) = normal (canon v).
Proof.
  induction v as [| | bits | | l IH | m IH] using json_ind'; cbn [normal canon]; try done.
  - f_equal. rewrite !map_map. by apply map_Forall_ext.
  - f_equal. rewrite <- sort_entries_map. f_equal. rewrite !map_map. apply map_Forall_ext, (Forall_weaken _ _ _ IH).
    intros p Hp. unfold map_snd. cbn. by rewrite Hp.
Qed.

Lemma encodeCanonicalJSON_normal v : encodeCanonicalJSON (normal v) = encodeCanonicalJSON v.
Proof.
  unfold encodeCanonicalJSON, canonicalJSON, sortJSON. rewrite finite_normal, canon_normal.
  destruct (finite_json v); [| done]. cbn [bind_result]. by rewrite stringify_normal.
Qed.

Lemma budget_bytes_ok n raw count t total :
  total + n <= MAX_CANONICAL_BYTES ->
  budget_bytes n (mkR raw count t total) = Ok (mkR raw count t (total + n)).
Proof. intros. unfold budget_bytes. cbn. by destruct (Z.leb_spec (total + n) MAX_CANONICAL_BYTES); [| lia]. Qed.

Lemma reader_byte_cons b raw count t total :
  reader_byte (mkR (b :: raw) count t total) = Ok (b, mkR raw count t total).
Proof. done. Qed.

(** What [read] owes to [write] on a value whose canonical bytes still fit. *)
Definition inverts (read : rstate -> result (json * rstate))
    (write : json -> wstate -> result (list Z * wstate)) (v : json) : Prop :=
  forall st bs st' rest total,
    0 <= w_count st -> table_ok (w_table st) -> total + json_bytes v <= MAX_CANONICAL_BYTES ->
    write v st = Ok (bs, st') ->
    read (mkR (bs ++ rest) (w_count st) (w_table st) total)
      = Ok (normal (canon v), mkR rest (w_count st') (w_table st') (total + json_bytes v)) /\
    table_ok (w_table st') /\ w_count st < w_count st' <= MAX_NODES.

(** One comma before every child but the first. *)
Definition separators (first : bool) (n : Z) : Z := if first then commas n else n.

Lemma comma_ok first raw count t total :
  total + (if first : bool then 0 else 1) <= MAX_CANONICAL_BYTES ->
  comma first (mkR raw count t total) = Ok (mkR raw count t (total + if first then 0 else 1)).
Proof.
  intros. unfold comma. destruct first; [by rewrite Z.add_0_r | by apply budget_bytes_ok].
Qed.

Lemma separators_cons {A} first (x : A) l :
  separators first (zlen (x :: l)) = (if first then 0 else 1) + separators false (zlen l).
Proof. unfold separators, commas. rewrite zlen_cons. pose proof (zlen_nonneg l). destruct first; lia. Qed.

Lemma read_children_write read write l : Forall (inverts read write) l ->
  forall first st bs st' rest total,
    0 <= w_count st -> table_ok (w_table st) ->
    total + sum_of json_bytes l + separators first (zlen l) <= MAX_CANONICAL_BYTES ->
    write_children write l st = Ok (bs, st') ->
    read_children read (length l) first (mkR (bs ++ rest) (w_count st) (w_table st) total)
      = Ok (map (fun v => normal (canon v)) l,
            mkR rest (w_count st') (w_table st') (total + sum_of json_bytes l + separators first (zlen l))) /\
    table_ok (w_table st') /\ w_count st + zlen l <= w_count st' <= Z.max (w_count st) MAX_NODES.
Proof.
  assert (Hnn : forall l, 0 <= sum_of json_bytes l).
  { induction l0 as [| v l0 IH]; cbn [sum_of]; [lia |]. pose proof (json_bytes_nonneg v). lia. }
  induction 1 as [| v l Hv _ IH]; intros first st bs st' rest total Hc Ht Hb Hw; cbn [write_children] in Hw; inv_result.
  - cbn [app length read_children map sum_of]. change (zlen (@nil json)) with 0.
    replace (total + 0 + separators first 0) with total by (unfold separators, commas; destruct first; lia).
    split; [done |]. split; [done | lia].
  - rewrite separators_cons in Hb |- *. cbn [sum_of] in Hb. cbn [length read_children map sum_of].
    pose proof (Hnn l). pose proof (json_bytes_nonneg v). pose proof (zlen_nonneg l).
    assert (0 <= separators false (zlen l)) by done.
    rewrite comma_ok by lia. cbn [bind_result]. rewrite <- app_assoc.
    destruct (Hv _ _ _ (l1 ++ rest) (total + if first then 0 else 1) Hc Ht ltac:(lia) E) as (-> & Ht1 & Hc1).
    cbn [bind_result].
    destruct (IH false w _ _ rest (total + (if first then 0 else 1) + json_bytes v) ltac:(lia) Ht1 ltac:(lia) E0)
      as (-> & Ht2 & Hc2).
    cbn [bind_result]. rewrite zlen_cons. split; [do 3 f_equal; lia |]. split; [done | lia].
Qed.

Definition entry_bytes (p : list Z * json) : Z := canonicalJSONStringBytes (fst p) + 1 + json_bytes (snd p).

Lemma entry_bytes_nonneg p : 0 <= entry_bytes p /\ 0 <= canonicalJSONStringBytes (fst p).
Proof.
  assert (0 <= canonicalJSONStringBytes (fst p)) by exact (json_bytes_nonneg (JString (fst p))).
  pose proof (json_bytes_nonneg (snd p)). unfold entry_bytes. lia.
Qed.

Lemma read_entries_write read write m :
  Forall (fun p => is_jsstr (fst p) /\ inverts read write (snd p)) m ->
  forall first acc st bs st' rest total,
    0 <= w_count st -> table_ok (w_table st) -> jwf (acc ++ m) ->
    total + sum_of entry_bytes m + separators first (zlen m) <= MAX_CANONICAL_BYTES ->
    write_entries write m st = Ok (bs, st') ->
    read_entries read (length m) first acc (mkR (bs ++ rest) (w_count st) (w_table st) total)
      = Ok (acc ++ map (map_snd (fun v => normal (canon v))) m,
            mkR rest (w_count st') (w_table st') (total + sum_of entry_bytes m + separators first (zlen m))) /\
    table_ok (w_table st') /\ w_count st + zlen m <= w_count st' <= Z.max (w_count st) MAX_NODES.
Proof.
  assert (Hnn : forall m, 0 <= sum_of entry_bytes m).
  { induction m0 as [| p m0 IH]; cbn [sum_of]; [lia |]. pose proof (entry_bytes_nonneg p). lia. }
  induction 1 as [| [k v] m [Hk Hv] _ IH]; intros first acc st bs st' rest total Hc Ht Hw Hb Hm;
    cbn [write_entries] in Hm; inv_result.
  - cbn [app length read_entries map sum_of]. rewrite app_nil_r. change (zlen (@nil (list Z * json))) with 0.
    replace (total + 0 + separators first 0) with total by (unfold separators, commas; destruct first; lia).
    split; [done |]. split; [done | lia].
  - rewrite separators_cons in Hb |- *. cbn [sum_of] in Hb. cbn [length read_entries map sum_of].
    pose proof (Hnn m). pose proof (json_bytes_nonneg v). pose proof (zlen_nonneg m).
    destruct (entry_bytes_nonneg (k, v)) as [_ Hkb]. cbn [fst snd] in Hkb, Hk, Hv.
    assert (He : entry_bytes (k, v) = canonicalJSONStringBytes k + 1 + json_bytes v) by done. rewrite He in *.
    assert (0 <= separators false (zlen m)) by done.
    rewrite comma_ok by lia. cbn [bind_result]. rewrite <- !app_assoc.
    destruct (readText_writeText true k _ _ _ (l0 ++ l1 ++ rest) (total + if first then 0 else 1) Hk Ht E)
      as (-> & Ht1 & Hc1).
    cbn [bind_result]. unfold budget_string. rewrite budget_bytes_ok by lia. cbn [bind_result].
    rewrite budget_bytes_ok by lia. cbn [bind_result].
    assert (Hn : k ∉ jkeys acc).
    { unfold jwf, jkeys in Hw. rewrite map_app in Hw. cbn in Hw. apply list.NoDup_app in Hw as (_ & Hd & _).
      intros Hin. apply (Hd k Hin). constructor. }
    rewrite (proj2 (jhas_false k acc)) by (by apply jget_None). cbn [negb].
    destruct (Hv w _ _ (l1 ++ rest)
      (total + (if first then 0 else 1) + canonicalJSONStringBytes k + 1) ltac:(lia) Ht1 ltac:(lia) E0) as (-> & Ht2 & Hc2).
    cbn [bind_result]. rewrite jset_absent by done.
    assert (Hw' : jwf ((acc ++ [(k, normal (canon v))]) ++ m)).
    { unfold jwf, jkeys in *. rewrite !map_app in *. cbn in *. by rewrite <- app_assoc. }
    destruct (IH false _ w0 _ _ rest (total + (if first then 0 else 1) + canonicalJSONStringBytes k + 1 + json_bytes v)
      ltac:(lia) Ht2 Hw' ltac:(lia) E1) as (-> & Ht3 & Hc3).
    rewrite <- app_assoc, zlen_cons. split; [do 3 f_equal; lia |]. split; [done | lia].
Qed.

Lemma normal_bits_range bits : 0 <= bits < 2 ^ 64 -> 0 <= normal_bits bits < 2 ^ 64.
Proof. intros. unfold normal_bits. destruct (bits =? 2 ^ 63); lia. Qed.

Lemma not_safe_normal bits : f64_safe_integer bits = None -> normal_bits bits = bits.
Proof. unfold normal_bits. destruct (Z.eqb_spec bits (2 ^ 63)) as [-> |]; [done | done]. Qed.

(** A number body: the reader gives the normalised number and meters its text. *)
Lemma read_number bits st bs st' rest total room :
  0 <= bits < 2 ^ 64 -> total + zlen (number_text bits) <= MAX_CANONICAL_BYTES ->
  writeNumber bits (mkW (w_used st) (w_count st + 1) (w_table st)) = Ok (bs, st') ->
  visit (S room) (w_count st) = Ok (w_count st + 1) ->
  compact_read (S room) (mkR (bs ++ rest) (w_count st) (w_table st) total)
    = Ok (JNumber (normal_bits bits), mkR rest (w_count st') (w_table st') (total + zlen (number_text bits))) /\
  w_table st' = w_table st /\ w_count st' = w_count st + 1.
Proof.
  intros Hb Ht Hw Hv. cbn [compact_read r_count r_input r_table r_total]. rewrite Hv. cbn [bind_result].
  unfold writeNumber in Hw. destruct (f64_isFinite bits) eqn:Hf; [| done].
  assert (Hbud : forall raw count t, budget_number (normal_bits bits) (mkR raw count t total)
    = Ok (mkR raw count t (total + zlen (number_text bits)))).
  { intros. unfold budget_number. rewrite normal_bits_text. by apply budget_bytes_ok. }
  destruct (f64_safe_integer bits) as [n |] eqn:Es.
  - destruct (f64_of_safe_integer _ _ Hb Es) as [En Hn].
    destruct (Z.ltb_spec n 0); inv_result; apply emit_inv in E as (-> & Hc1 & Ht1 & _);
      apply emit_varint_inv in E0 as (-> & ? & Hc2 & Ht2); cbn [app];
      rewrite reader_byte_cons; cbn [bind_result]; rewrite reader_varint_digits by (unfold MAX_SAFE_INTEGER in *; lia);
      cbn -[budget_number f64_of_integer varint_digits].
    + destruct (Z.eqb_spec (- n) 0); [lia |]. cbn [negb]. rewrite Z.opp_involutive, En, Hbud. cbn [bind_result].
      rewrite Hc2, Hc1, Ht2, Ht1. done.
    + rewrite En, Hbud. cbn [bind_result]. rewrite Hc2, Hc1, Ht2, Ht1. done.
  - rewrite (not_safe_normal _ Es) in *. destruct (f32_exact bits) as [p |] eqn:Ep.
    + apply f32_exact_sound in Ep as [Hp Ep]; [| done]. inv_result.
      apply emit_inv in E as (-> & Hc1 & Ht1 & _). apply emit_inv in E0 as (-> & Hc2 & Ht2 & _).
      cbn [app]. rewrite reader_byte_cons. cbn -[budget_number f64_of_f32 reader_bytes].
      unfold float32. rewrite (reader_bytes_len 4) by (done || (unfold zlen; by rewrite le_bytes_length)). cbn -[budget_number f64_of_f32].
      rewrite le_value_bytes, Ep, Hf by done. cbn -[budget_number]. rewrite Hbud. cbn.
      rewrite Hc2, Hc1, Ht2, Ht1. done.
    + inv_result. apply emit_inv in E as (-> & Hc1 & Ht1 & _). apply emit_inv in E0 as (-> & Hc2 & Ht2 & _).
      cbn [app]. rewrite reader_byte_cons. cbn -[budget_number reader_bytes].
      unfold float64. rewrite (reader_bytes_len 8) by (done || (unfold zlen; by rewrite le_bytes_length)). cbn -[budget_number].
      rewrite le_value_bytes, Hf by done. cbn -[budget_number]. rewrite Hbud. cbn.
      rewrite Hc2, Hc1, Ht2, Ht1. done.
Qed.

Lemma visit_ok room count count' : visit room count = Ok count' ->
  exists room', room = S room' /\ count' = count + 1 /\ count' <= MAX_NODES.
Proof.
  unfold visit. destruct room as [| room]; [done |]. intros H. inv_result. apply Z.leb_le in Hg. eauto.
Qed.

Lemma read_string s st bs st' rest total room :
  is_jsstr s -> table_ok (w_table st) -> total + canonicalJSONStringBytes s <= MAX_CANONICAL_BYTES ->
  compact_write (S room) (JString s) st = Ok (bs, st') ->
  compact_read (S room) (mkR (bs ++ rest) (w_count st) (w_table st) total)
    = Ok (JString s, mkR rest (w_count st') (w_table st') (total + canonicalJSONStringBytes s)) /\
  table_ok (w_table st') /\ w_count st < w_count st' <= MAX_NODES.
Proof.
  intros Hs Ht Hb Hw. cbn [compact_write] in Hw. inv_result.
  cbn [compact_read r_count r_input r_table r_total]. rewrite E. cbn [bind_result].
  apply visit_ok in E as (? & _ & -> & Hmax).
  apply emit_inv in E0 as (-> & Hc1 & Ht1 & _). cbn [app w_count w_table] in *.
  rewrite reader_byte_cons. cbn -[readText budget_string].
  assert (Htw : table_ok (w_table w)) by (by rewrite Ht1).
  destruct (readText_writeText false s w _ _ rest total Hs Htw E1) as (Hr & Ht2 & Hc2).
  rewrite Hc1, Ht1 in Hr. rewrite Hr. cbn -[budget_string].
  unfold budget_string. rewrite budget_bytes_ok by done. cbn.
  split; [done |]. split; [done |]. lia.
Qed.

Lemma read_array l st bs st' rest total room :
  Forall (inverts (compact_read room) (compact_write room)) l ->
  0 <= w_count st -> table_ok (w_table st) -> total + json_bytes (JArray l) <= MAX_CANONICAL_BYTES ->
  compact_write (S room) (JArray l) st = Ok (bs, st') ->
  compact_read (S room) (mkR (bs ++ rest) (w_count st) (w_table st) total)
    = Ok (normal (canon (JArray l)), mkR rest (w_count st') (w_table st') (total + json_bytes (JArray l))) /\
  table_ok (w_table st') /\ w_count st < w_count st' <= MAX_NODES.
Proof.
  intros Hl Hc Ht Hb Hw. cbn [compact_write] in Hw. inv_result.
  cbn [compact_read r_count r_input r_table r_total]. rewrite E. cbn [bind_result].
  apply visit_ok in E as (? & _ & -> & Hmax).
  apply emit_inv in E0 as (-> & Hc1 & Ht1 & _). apply emit_varint_inv in E1 as (-> & Hn & Hc2 & Ht2).
  cbn [app w_count w_table json_bytes] in *. rewrite Hc1 in Hc2. rewrite Ht1 in Ht2.
  assert (Hpos : 0 <= sum_of json_bytes l /\ 0 <= commas (zlen l)).
  { split; [| unfold commas; lia]. clear. induction l as [| v l IH]; cbn; [lia |]. pose proof (json_bytes_nonneg v). lia. }
  destruct (read_children_write _ _ l Hl true w0 _ _ rest (total + 1) ltac:(lia) ltac:(by rewrite Ht2)
    ltac:(cbn [separators]; lia) E2) as (Hr & Ht3 & Hc3).
  rewrite <- app_assoc, reader_byte_cons. cbn -[reader_varint budget_bytes varint_digits].
  rewrite budget_bytes_ok by lia. cbn [bind_result].
  rewrite reader_varint_digits by (unfold MAX_NODES, MAX_SAFE_INTEGER in *; pose proof (zlen_nonneg l); lia).
  cbn [bind_result]. rewrite Hc2, Ht2 in Hr. unfold zlen at 1. rewrite Nat2Z.id, Hr. cbn [bind_result].
  cbn [separators]. rewrite budget_bytes_ok by lia. cbn [bind_result].
  split; [| split; [done | pose proof (zlen_nonneg l); lia]].
  cbn [canon normal]. rewrite map_map. do 3 f_equal. lia.
Qed.

Lemma read_object m st bs st' rest total room :
  Forall (fun p => is_jsstr (fst p) /\ inverts (compact_read room) (compact_write room) (snd p)) m -> jwf m ->
  0 <= w_count st -> table_ok (w_table st) -> total + json_bytes (JObject m) <= MAX_CANONICAL_BYTES ->
  compact_write (S room) (JObject m) st = Ok (bs, st') ->
  compact_read (S room) (mkR (bs ++ rest) (w_count st) (w_table st) total)
    = Ok (normal (canon (JObject m)), mkR rest (w_count st') (w_table st') (total + json_bytes (JObject m))) /\
  table_ok (w_table st') /\ w_count st < w_count st' <= MAX_NODES.
Proof.
  intros Hm Hj Hc Ht Hb Hw. cbn [compact_write] in Hw. inv_result.
  cbn [compact_read r_count r_input r_table r_total]. rewrite E. cbn [bind_result].
  apply visit_ok in E as (? & _ & -> & Hmax).
  apply emit_inv in E0 as (-> & Hc1 & Ht1 & _). apply emit_varint_inv in E1 as (-> & Hn & Hc2 & Ht2).
  cbn [app w_count w_table] in *. rewrite Hc1 in Hc2. rewrite Ht1 in Ht2.
  assert (Hsize : json_bytes (JObject m)
    = 2 + sum_of entry_bytes (sort_entries m) + commas (zlen (sort_entries m))).
  { rewrite (sum_of_perm _ _ _ (sort_entries_perm m)), (zlen_perm _ _ (sort_entries_perm m)). done. }
  rewrite Hsize in Hb |- *.
  assert (Hpos : 0 <= sum_of entry_bytes (sort_entries m) /\ 0 <= commas (zlen (sort_entries m))).
  { split; [| unfold commas; lia]. generalize (sort_entries m). clear.
    induction l as [| p l IH]; cbn; [lia |]. pose proof (entry_bytes_nonneg p). lia. }
  destruct (read_entries_write _ _ (sort_entries m) (Forall_sort_entries _ _ Hm) true [] w0 _ _ rest (total + 1)
    ltac:(lia) ltac:(by rewrite Ht2) (sort_entries_wf _ Hj) ltac:(cbn [separators]; lia) E2) as (Hr & Ht3 & Hc3).
  rewrite <- app_assoc, reader_byte_cons. cbn -[reader_varint budget_bytes varint_digits].
  rewrite budget_bytes_ok by lia. cbn [bind_result].
  rewrite reader_varint_digits by (unfold MAX_NODES, MAX_SAFE_INTEGER in *; pose proof (zlen_nonneg (sort_entries m)); lia).
  cbn [bind_result]. rewrite Hc2, Ht2 in Hr. unfold zlen at 1. rewrite Nat2Z.id, Hr. cbn [bind_result app].
  cbn [separators]. rewrite budget_bytes_ok by lia. cbn [bind_result].
  split; [| split; [done | pose proof (zlen_nonneg (sort_entries m)); lia]].
  cbn [canon normal]. rewrite sort_entries_map, map_map. do 3 f_equal. lia.
Qed.

Lemma compact_inverts room v : wf_json v -> inverts (compact_read room) (compact_write room) v.
Proof.
  revert v. induction room as [| room IH]; intros v Hwf st bs st' rest total Hc Ht Hb Hw; [done |].
  destruct v as [| b | bits | s | l | m].
  1, 2: cbn [compact_write] in Hw; try destruct b; inv_result;
    cbn [compact_read r_count r_input r_table r_total]; rewrite E; cbn [bind_result];
    apply visit_ok in E as (? & _ & -> & Hmax); apply emit_inv in Hw as (-> & Hc1 & Ht1 & _);
    cbn [app json_bytes w_count w_table] in *; rewrite reader_byte_cons; cbn -[budget_bytes];
    rewrite budget_bytes_ok by lia; cbn; rewrite Hc1, Ht1; (split; [done | split; [done | lia]]).
  - cbn [compact_write] in Hw. inv_result. inversion Hwf; subst.
    pose proof E as Hv. apply visit_ok in E as (? & _ & -> & Hmax). cbn [w_used w_table] in Hw.
    destruct (read_number bits st _ _ rest total room ltac:(done) Hb Hw Hv) as (Hr & Ht' & Hc').
    rewrite Hr, Ht'. cbn. split; [done | split; [done | lia]].
  - inversion Hwf; subst. by apply read_string.
  - inversion Hwf as [| | | | ? Hl |]; subst. apply read_array; try done. by apply (Forall_weaken _ _ _ Hl).
  - inversion Hwf as [| | | | | ? Hj Hm]; subst. apply read_object; try done.
    apply (Forall_weaken _ _ _ Hm). intros p [? ?]. auto.
Qed.

(** ** The writer's bound *)

(** [bs] is what moved [w_used] from [st] to [st'], within the bound. *)
Definition emitted (bs : list Z) (st st' : wstate) : Prop :=
  w_used st' = w_used st + zlen bs /\ (w_used st <= MAX_COMPACT_BYTES -> w_used st' <= MAX_COMPACT_BYTES).

Lemma emitted_app bs1 bs2 st1 st2 st3 :
  emitted bs1 st1 st2 -> emitted bs2 st2 st3 -> emitted (bs1 ++ bs2) st1 st3.
Proof. intros [E1 H1] [E2 H2]. unfold emitted. rewrite zlen_app. split; [lia | auto]. Qed.

Lemma emit_emitted bs st bs' st' : emit bs st = Ok (bs', st') -> emitted bs' st st'.
Proof. unfold emit, emitted. intros H. inv_result. reflect_tests. cbn. lia. Qed.

Lemma emit_varint_emitted v st bs' st' : emit_varint v st = Ok (bs', st') -> emitted bs' st st'.
Proof. unfold emit_varint. intros H. inv_result. by apply emit_emitted in H. Qed.

#[local] Create HintDb emitted.
#[local] Hint Resolve emit_emitted emit_varint_emitted emitted_app : emitted.

Lemma writeNumber_emitted bits st bs st' : writeNumber bits st = Ok (bs, st') -> emitted bs st st'.
Proof.
  unfold writeNumber. intros H. inv_result.
  destruct (f64_safe_integer bits) as [n |]; [destruct (n <? 0) | destruct (f32_exact bits)]; inv_result;
    eauto 12 with emitted.
Qed.

Lemma writeText_emitted s key st bs st' : writeText s key st = Ok (bs, st') -> emitted bs st st'.
Proof.
  unfold writeText. intros H. destruct (table_index s (w_table st)); [by eauto with emitted |].
  destruct (jget s (indexes_of key)); [inv_result; change (emitted bs st w); by eauto with emitted |].
  destruct (packUUID s); inv_result.
  - change (emitted (l0 ++ l1) st w0). eauto 12 with emitted.
  - change (emitted (l ++ l0 ++ l1) st w1). eauto 12 with emitted.
Qed.

#[local] Hint Resolve writeNumber_emitted writeText_emitted : emitted.

Lemma compact_write_emitted room v st bs st' : compact_write room v st = Ok (bs, st') -> emitted bs st st'.
Proof.
  revert v st bs st'. induction room as [| room IH]; intros v st bs st' H; [done |].
  assert (Hl : forall l st bs st', write_children (compact_write room) l st = Ok (bs, st') -> emitted bs st st').
  { induction l as [| v' l IHl]; cbn; intros; inv_result; [split; [rewrite zlen_nil; lia | done] |].
    eauto 12 with emitted. }
  assert (Hm : forall m st bs st', write_entries (compact_write room) m st = Ok (bs, st') -> emitted bs st st').
  { induction m as [| [k v'] m IHm]; cbn; intros; inv_result; [split; [rewrite zlen_nil; lia | done] |].
    eauto 12 with emitted. }
  cbn [compact_write] in H. inv_result.
  change (emitted bs (mkW (w_used st) a (w_table st)) st').
  destruct v as [| [] | | | |]; inv_result; eauto 12 with emitted.
Qed.

(** ** The writer writes bytes *)

Lemma emit_bytes bs st bs' st' : is_bytes bs -> emit bs st = Ok (bs', st') -> is_bytes bs'.
Proof. by intros Hb (-> & _)%emit_inv. Qed.

Lemma emit_varint_bytes v st bs st' : emit_varint v st = Ok (bs, st') -> is_bytes bs.
Proof. intros (-> & ? & _)%emit_varint_inv. apply varint_digits_bytes. lia. Qed.

Lemma packUUID_bytes s uuid : packUUID s = Some uuid -> is_bytes uuid.
Proof. by intros (_ & _ & Hb)%uuid_pack_unpack. Qed.

#[local] Hint Resolve emit_bytes emit_varint_bytes packUUID_bytes : bytes.

Lemma writeNumber_bytes bits st bs st' : writeNumber bits st = Ok (bs, st') -> is_bytes bs.
Proof.
  unfold writeNumber. intros H. inv_result.
  assert (Htag : forall b, 0 <= b < 10 -> is_bytes [b]) by (intros; repeat constructor; lia).
  destruct (f64_safe_integer bits) as [n |]; [destruct (n <? 0) | destruct (f32_exact bits)]; inv_result;
    (apply is_bytes_app; [eapply emit_bytes; [| done]; apply Htag;
       unfold CTAG_INTEGER_NEGATIVE, CTAG_INTEGER_POSITIVE, CTAG_FLOAT32, CTAG_FLOAT64; lia |]); eauto 10 with bytes.
Qed.

Lemma writeText_bytes s key st bs st' : is_jsstr s -> writeText s key st = Ok (bs, st') -> is_bytes bs.
Proof.
  unfold writeText. intros Hs H. destruct (table_index s (w_table st)); [by eapply emit_varint_bytes |].
  destruct (jget s (indexes_of key)); [inv_result; by eapply emit_varint_bytes |].
  destruct (packUUID s) eqn:E; inv_result; eauto 12 with bytes.
Qed.

Lemma compact_write_bytes room v : wf_json v -> writes_bytes (compact_write room) v.
Proof.
  revert v. induction room as [| room IH]; intros v Hwf st bs st' H; [done |].
  assert (Hl : forall l, Forall wf_json l -> forall st bs st',
    write_children (compact_write room) l st = Ok (bs, st') -> is_bytes bs).
  { induction 1 as [| v' l Hv _ IHl]; cbn; intros; inv_result; [constructor |].
    apply is_bytes_app; [by eapply IH | by eapply IHl]. }
  assert (Hm : forall m, Forall (fun p => is_jsstr (fst p) /\ wf_json (snd p)) m -> forall st bs st',
    write_entries (compact_write room) m st = Ok (bs, st') -> is_bytes bs).
  { induction 1 as [| [k v'] m [Hk Hv] _ IHm]; cbn; intros; inv_result; [constructor |].
    apply is_bytes_app; [by eapply writeText_bytes |]. apply is_bytes_app; [by eapply IH | by eapply IHm]. }
  assert (Htag : forall b st bs st', 0 <= b < 10 -> emit [b] st = Ok (bs, st') -> is_bytes bs).
  { intros. eapply emit_bytes; [| done]. repeat constructor; lia. }
  cbn [compact_write] in H. inv_result.
  destruct v as [| [] | bits | s | l | m]; inversion Hwf; subst; inv_result;
    try (eapply Htag; [| done]; unfold CTAG_NULL, CTAG_FALSE, CTAG_TRUE; lia).
  - by eapply writeNumber_bytes.
  - apply is_bytes_app; [eapply Htag; [| done]; unfold CTAG_STRING; lia | by eapply writeText_bytes].
  - apply is_bytes_app; [eapply Htag; [| done]; unfold CTAG_ARRAY; lia |].
    apply is_bytes_app; [by eapply emit_varint_bytes | by eapply Hl].
  - apply is_bytes_app; [eapply Htag; [| done]; unfold CTAG_OBJECT; lia |].
    apply is_bytes_app; [by eapply emit_varint_bytes |]. eapply Hm; [| done]. by apply Forall_sort_entries.
Qed.

Lemma encodeCompactValue_bytes sha256_hex payload output :
  is_bytes payload -> encodeCompactValue sha256_hex payload = Ok (Some output) -> is_bytes output.
Proof.
  intros Hb He. unfold encodeCompactValue in He. apply bind_ok in He as ([] & _ & He).
  destruct (MAX_CANONICAL_BYTES <? zlen payload); [done |].
  apply ok_inj in He. unfold try_result in He. destruct (bind_result _ _) as [out |] eqn:Hw; [| done].
  injection He as ->. apply bind_ok in Hw as (v & Hv & Hw). apply bind_ok in Hw as (canonical & _ & Hw).
  inv_result. apply emit_inv in E as (-> & _).
  apply is_bytes_app; [repeat constructor; unfold COMPACT_VALUE_VERSION; lia |].
  eapply compact_write_bytes; [by eapply decodeJSON_wf | done].
Qed.

(** ** What the reader builds from arbitrary bytes *)

Definition table_wf (t : TextTable) : Prop := Forall is_jsstr (tt_values t).
Definition reader_wf (st : rstate) : Prop := is_bytes (r_input st) /\ table_wf (r_table st).

(** [st'] is a well-formed later state that metered [n] more bytes. *)
Definition metered (n : Z) (st st' : rstate) : Prop := reader_wf st' /\ r_total st' = r_total st + n.

Lemma metered_trans n1 n2 st1 st2 st3 : metered n1 st1 st2 -> metered n2 st2 st3 -> metered (n1 + n2) st1 st3.
Proof. intros [_ H1] [H2 H3]. split; [done | lia]. Qed.

Lemma reader_byte_metered st b st' : reader_wf st -> reader_byte st = Ok (b, st') -> metered 0 st st'.
Proof.
  intros [Hb Ht]. unfold reader_byte. destruct (r_input st) as [| x raw] eqn:E; [done |]. intros H. inv_result.
  apply list.Forall_cons in Hb as [_ Hb]. split; [done |]. cbn. lia.
Qed.

Lemma reader_varint_metered maximum st v st' :
  reader_wf st -> reader_varint maximum st = Ok (v, st') -> metered 0 st st' /\ 0 <= v <= maximum /\ v <= MAX_SAFE_INTEGER.
Proof.
  intros [Hb Ht] H. unfold reader_varint in H. inv_result.
  apply compactVarint_inv in E as (E & ? & ?); [| done]. rewrite E in Hb. apply Forall_app in Hb as [_ Hb].
  split; [split; [done | cbn; lia] | lia].
Qed.

Lemma reader_bytes_metered n st bs st' :
  reader_wf st -> reader_bytes n st = Ok (bs, st') -> metered 0 st st' /\ is_bytes bs /\ zlen bs = n.
Proof.
  intros [Hb Ht] H. unfold reader_bytes in H. inv_result. reflect_tests.
  split; [split; [split; [by apply Forall_drop | done] | cbn; lia] |].
  split; [by apply Forall_take | by apply zlen_take].
Qed.

Lemma budget_metered n st st' : reader_wf st -> budget_bytes n st = Ok st' ->
  metered n st st' /\ r_total st' <= MAX_CANONICAL_BYTES.
Proof. intros Hw H. unfold budget_bytes in H. inv_result. reflect_tests. split; [| done]. by split. Qed.

Lemma add_text_metered s st : is_jsstr s -> reader_wf st -> metered 0 st (add_text s st).
Proof.
  intros Hs [Hb Ht]. split; [| cbn; lia]. split; [done |]. unfold table_wf, add_text, table_add. cbn.
  destruct (_ || _); [done |]. cbn. apply Forall_app. split; [done |]. by constructor.
Qed.

Lemma dictionary_units key i s : nthZ (dictionary_of key) i = Some s -> is_jsstr s.
Proof.
  unfold nthZ. destruct (_ && _); [| done]. intros H%list_elem_of_lookup_2.
  assert (Forall is_jsstr (dictionary_of key)) as Hd by (destruct key; apply vocabulary_units).
  by apply (proj1 (Forall_elem _ _) Hd).
Qed.

Lemma uuidString_units uuid : is_bytes uuid -> is_jsstr (uuidString uuid).
Proof.
  intros Hb. assert (Hh : is_jsstr (concat (map hex_byte uuid))).
  { induction Hb as [| b bs Hb _ IH]; [constructor |]. unfold is_byte in Hb. cbn [map concat].
    apply Forall_app. split; [| done].
    assert (Hd : forall n, 0 <= n < 16 -> is_unit (hex_digit n)).
    { intros n Hn. apply hex_digit_ascii in Hn. unfold is_ascii, is_unit in *. lia. }
    constructor; [apply Hd; split; [apply Z.div_pos; lia | apply Z.div_lt_upper_bound; lia] |].
    constructor; [apply Hd, Z.mod_pos_bound; lia | constructor]. }
  unfold uuidString. assert (H45 : is_jsstr [45]) by (repeat constructor; unfold is_unit; lia).
  repeat (apply Forall_app; split; [first [done | by apply Forall_take | by apply Forall_take, Forall_drop] |]).
  by apply Forall_drop.
Qed.

Lemma readText_metered key st s st' : reader_wf st -> readText key st = Ok (s, st') -> metered 0 st st' /\ is_jsstr s.
Proof.
  intros Hw H. unfold readText in H. apply bind_ok in H as ([token st1] & E & H).
  apply reader_varint_metered in E as (M1 & _); [| done]. pose proof (proj1 M1) as Hw1.
  destruct (token =? 0).
  { apply bind_ok in H as ([n st2] & E & H). apply reader_varint_metered in E as (M2 & _); [| done].
    apply bind_ok in H as ([bs st3] & E & H). apply reader_bytes_metered in E as (M3 & Hbs & _); [| apply M2].
    inv_result. assert (Hs : is_jsstr s) by (by eapply decodeBinaryUtf8_units). split; [| done].
    apply (metered_trans 0 0 _ st1); [done |]. apply (metered_trans 0 0 _ st2); [done |].
    apply (metered_trans 0 0 _ st3); [done |]. apply add_text_metered; [done | apply M3]. }
  destruct (token <=? zlen (dictionary_of key)).
  { inv_result. unfold from_option in E. destruct (nthZ _ _) eqn:En; [| done]. inv_result.
    apply dictionary_units in En. split; [| done].
    apply (metered_trans 0 0 _ st1); [done | by apply add_text_metered]. }
  destruct (token <? uuidToken key).
  { inv_result. unfold table_value, from_option in E. destruct (nthZ _ _) eqn:En; [| done]. inv_result.
    split; [done |]. unfold nthZ in En. destruct (_ && _); [| done]. apply list_elem_of_lookup_2 in En.
    by apply (proj1 (Forall_elem _ _) (proj2 Hw1)). }
  destruct (token =? uuidToken key); [| done].
  apply bind_ok in H as ([bs st2] & E & H). apply reader_bytes_metered in E as (M2 & Hbs & _); [| done].
  inv_result. pose proof (uuidString_units _ Hbs) as Hu. split; [| done].
  apply (metered_trans 0 0 _ st1); [done |]. apply (metered_trans 0 0 _ st2); [done |].
  apply add_text_metered; [done | apply M2].
Qed.

Lemma f64_of_integer_wf n : Z.abs n <= MAX_SAFE_INTEGER ->
  0 <= f64_of_integer n < 2 ^ 64 /\ f64_isFinite (f64_of_integer n) = true.
Proof.
  intros Hn. destruct (Z.eq_dec n 0) as [-> | Hne]; [done |].
  assert (E : f64_of_integer n = f64_of_integer (if n <? 0 then - Z.abs n else Z.abs n)).
  { f_equal. destruct (Z.ltb_spec n 0); lia. }
  rewrite E, f64_of_integer_magnitude by lia. set (a := Z.abs n) in *.
  assert (Hl : 0 <= Z.log2 a <= 52).
  { split; [apply Z.log2_nonneg |]. assert (Z.log2 a < 53); [| lia]. apply Z.log2_lt_pow2; unfold MAX_SAFE_INTEGER in *; lia. }
  destruct (Z.log2_spec a ltac:(lia)) as [L1 L2].
  assert (E1 : 2 ^ 52 = 2 ^ Z.log2 a * 2 ^ (52 - Z.log2 a)) by (rewrite <- Z.pow_add_r by lia; f_equal; lia).
  assert (E2 : 2 ^ 53 = 2 ^ Z.succ (Z.log2 a) * 2 ^ (52 - Z.log2 a)) by (rewrite <- Z.pow_add_r by lia; f_equal; lia).
  pose proof (Z.pow_pos_nonneg 2 (52 - Z.log2 a) ltac:(lia) ltac:(lia)).
  destruct (f64_fields (n <? 0) (Z.log2 a + 1023) (a * 2 ^ (52 - Z.log2 a) - 2 ^ 52) ltac:(lia) ltac:(nia))
    as (Hr & _ & He & _).
  split; [done |]. unfold f64_isFinite. rewrite He. destruct (Z.eqb_spec (Z.log2 a + 1023) 2047); [lia | done].
Qed.

Lemma f64_of_f32_range p : 0 <= p < 2 ^ 32 -> 0 <= f64_of_f32 p < 2 ^ 64.
Proof.
  intros Hp. unfold f64_of_f32. pose proof (Z.mod_pos_bound (p / 2 ^ 23) 256 ltac:(lia)).
  pose proof (Z.mod_pos_bound p (2 ^ 23) ltac:(lia)).
  set (e := (p / 2 ^ 23) mod 256) in *. set (m := p mod 2 ^ 23) in *.
  destruct (Z.eqb_spec e 255); [destruct (2 ^ 31 <=? p); lia |].
  destruct (Z.eqb_spec e 0); [| destruct (2 ^ 31 <=? p); lia].
  destruct (Z.eqb_spec m 0); [destruct (2 ^ 31 <=? p); lia |].
  assert (Hk : 0 <= Z.log2 m < 23) by (split; [apply Z.log2_nonneg | apply Z.log2_lt_pow2; lia]).
  destruct (Z.log2_spec m ltac:(lia)) as [L1 L2].
  assert (E1 : 2 ^ 52 = 2 ^ Z.log2 m * 2 ^ (52 - Z.log2 m)) by (rewrite <- Z.pow_add_r by lia; f_equal; lia).
  assert (E2 : 2 ^ 53 = 2 ^ Z.succ (Z.log2 m) * 2 ^ (52 - Z.log2 m)) by (rewrite <- Z.pow_add_r by lia; f_equal; lia).
  pose proof (Z.pow_pos_nonneg 2 (52 - Z.log2 m) ltac:(lia) ltac:(lia)).
  assert (0 <= m * 2 ^ (52 - Z.log2 m) - 2 ^ 52 < 2 ^ 52) by nia.
  destruct (2 ^ 31 <=? p); lia.
Qed.

Definition sound_value (v : json) : Prop := wf_json v /\ finite_json v = true.

(** [read] builds a finite JSON value and meters its canonical size. *)
Definition meters (read : rstate -> result (json * rstate)) : Prop :=
  forall st v st', reader_wf st -> read st = Ok (v, st') ->
    sound_value v /\ metered (json_bytes v) st st' /\ r_total st' <= MAX_CANONICAL_BYTES.

Lemma comma_metered first st st' : reader_wf st -> comma first st = Ok st' ->
  metered (if first then 0 else 1) st st'.
Proof.
  unfold comma. destruct first; intros Hw H; [inv_result; split; [done | lia] |].
  by apply budget_metered in H as [? _].
Qed.

Lemma read_children_meters read n : meters read -> forall first st l st',
  reader_wf st -> read_children read n first st = Ok (l, st') ->
  Forall sound_value l /\ metered (sum_of json_bytes l + separators first (zlen l)) st st' /\ zlen l = Z.of_nat n.
Proof.
  intros Hread. induction n as [| n IH]; cbn [read_children]; intros first st l st' Hw H.
  - inv_result. split; [constructor |]. split; [| done]. split; [done |].
    cbn [sum_of]. change (zlen (@nil json)) with 0. unfold separators, commas. destruct first; lia.
  - apply bind_ok in H as (st1 & E & H). apply comma_metered in E as M1; [| done].
    apply bind_ok in H as ([v st2] & E2 & H). apply Hread in E2 as (Hv & M2 & _); [| apply M1].
    apply bind_ok in H as ([rest st3] & E3 & H). apply IH in E3 as (Hl & M3 & Hn); [| apply M2].
    inv_result. split; [by constructor |]. rewrite separators_cons, zlen_cons. split; [| lia]. cbn [sum_of].
    pose proof (metered_trans _ _ _ _ _ M1 (metered_trans _ _ _ _ _ M2 M3)) as M. destruct M. split; [done | lia].
Qed.

Lemma jset_absent_entries {A} (f : list Z * A -> Z) k (v : A) m : k ∉ jkeys m ->
  sum_of f (jset k v m) = sum_of f m + f (k, v).
Proof.
  intros H. rewrite jset_absent by done. clear H. induction m as [| p m IH]; cbn in *; lia.
Qed.

Lemma read_entries_meters read n : meters read -> forall first acc st m st',
  reader_wf st -> jwf acc -> Forall (fun p => is_jsstr (fst p) /\ sound_value (snd p)) acc ->
  read_entries read n first acc st = Ok (m, st') ->
  jwf m /\ Forall (fun p => is_jsstr (fst p) /\ sound_value (snd p)) m /\ zlen m = zlen acc + Z.of_nat n /\
  metered (sum_of entry_bytes m - sum_of entry_bytes acc + separators first (Z.of_nat n)) st st'.
Proof.
  intros Hread. induction n as [| n IH]; cbn [read_entries]; intros first acc st m st' Hw Hj Hacc H.
  - inv_result. split; [done |]. split; [done |]. split; [lia |]. split; [done |].
    unfold separators, commas. destruct first; lia.
  - apply bind_ok in H as (st1 & E & H). apply comma_metered in E as M1; [| done].
    apply bind_ok in H as ([key st2] & E2 & H). apply readText_metered in E2 as (M2 & Hk); [| apply M1].
    apply bind_ok in H as (st3 & E3 & H). apply budget_metered in E3 as [M3 _]; [| apply M2].
    apply bind_ok in H as (st4 & E4 & H). apply budget_metered in E4 as [M4 _]; [| apply M3].
    destruct (negb (jhas key acc)) eqn:Hh; [| done]. apply negb_true_iff, jhas_false, jget_None in Hh.
    apply bind_ok in H as ([v st5] & E5 & H). apply Hread in E5 as (Hv & M5 & _); [| apply M4].
    apply IH in H as (Hj' & Hm & Hn & M6); [| apply M5 | by apply jset_wf |].
    2: { rewrite jset_absent by done. apply Forall_app. split; [done | by constructor]. }
    split; [done |]. split; [done |].
    rewrite jset_absent, zlen_app in Hn by done. change (zlen [(key, v)]) with 1 in Hn. split; [lia |].
    pose proof (metered_trans _ _ _ _ _ M1 (metered_trans _ _ _ _ _ M2 (metered_trans _ _ _ _ _ M3
      (metered_trans _ _ _ _ _ M4 (metered_trans _ _ _ _ _ M5 M6))))) as [HM HT]. split; [done |].
    rewrite HT, jset_absent_entries by done. unfold separators, commas.
    change (entry_bytes (key, v)) with (canonicalJSONStringBytes key + 1 + json_bytes v). destruct first; lia.
Qed.

Lemma read_number_meters st value st' n :
  reader_wf st -> 0 <= value < 2 ^ 64 -> f64_isFinite value = true -> budget_number value st = Ok st' ->
  n = value ->
  sound_value (JNumber n) /\ metered (json_bytes (JNumber n)) st st' /\ r_total st' <= MAX_CANONICAL_BYTES.
Proof.
  intros Hw Hr Hf H ->. unfold budget_number in H. apply budget_metered in H as [M Hmax]; [| done].
  split; [| done]. split; [by constructor | done].
Qed.

Lemma read_float_wf tag st value st' :
  reader_wf st -> (if tag =? CTAG_FLOAT32 then float32 st else float64 st) = Ok (value, st') ->
  metered 0 st st' /\ 0 <= value < 2 ^ 64 /\ f64_isFinite value = true.
Proof.
  intros Hw H. destruct (tag =? CTAG_FLOAT32).
  - unfold float32 in H. apply bind_ok in H as ([bs st1] & E & H).
    apply reader_bytes_metered in E as (M & Hb & Hl); [| done].
    destruct (f64_isFinite _) eqn:Hf; [| done]. inv_result. split; [done |]. split; [| done].
    apply f64_of_f32_range. pose proof (le_value_range bs Hb) as Hr. by rewrite Hl in Hr.
  - unfold float64 in H. apply bind_ok in H as ([bs st1] & E & H).
    apply reader_bytes_metered in E as (M & Hb & Hl); [| done].
    destruct (f64_isFinite _) eqn:Hf; [| done]. inv_result. split; [done |]. split; [| done].
    pose proof (le_value_range bs Hb) as Hr. by rewrite Hl in Hr.
Qed.

Lemma metered_skip n st1 st2 st3 : metered 0 st1 st2 -> metered n st2 st3 -> metered n st1 st3.
Proof. apply (metered_trans 0 n). Qed.

Lemma compact_read_meters room : meters (compact_read room).
Proof.
  induction room as [| room IH]; intros st v st' Hw H; [done |]. cbn [compact_read] in H.
  apply bind_ok in H as (count & _ & H). apply bind_ok in H as ([tag st1] & E & H).
  apply reader_byte_metered in E as M1; [| exact Hw].
  change (metered 0 st st1) in M1. pose proof (proj1 M1) as Hw1.
  assert (Hdone : forall st2 v', sound_value v' /\ metered (json_bytes v') st1 st2 /\ r_total st2 <= MAX_CANONICAL_BYTES ->
    sound_value v' /\ metered (json_bytes v') st st2 /\ r_total st2 <= MAX_CANONICAL_BYTES).
  { intros st2 v' (? & ? & ?). split; [done |]. split; [by apply metered_skip with st1 | done]. }
  assert (Hconst : forall st2 v' k, budget_bytes k st1 = Ok st2 -> sound_value v' -> json_bytes v' = k ->
    sound_value v' /\ metered (json_bytes v') st st2 /\ r_total st2 <= MAX_CANONICAL_BYTES).
  { intros st2 v' k Hk Hs <-. apply Hdone. split; [done |]. by apply budget_metered. }
  destruct (tag =? CTAG_NULL); [inv_result; by eapply Hconst; [done | split; [constructor | done] |] |].
  destruct (tag =? CTAG_FALSE); [inv_result; by eapply Hconst; [done | split; [constructor | done] |] |].
  destruct (tag =? CTAG_TRUE); [inv_result; by eapply Hconst; [done | split; [constructor | done] |] |].
  destruct (tag =? CTAG_INTEGER_POSITIVE).
  { apply bind_ok in H as ([n st2] & E2 & H). apply reader_varint_metered in E2 as (M2 & Hn & _); [| done].
    apply bind_ok in H as (st3 & E3 & H). inv_result. destruct (f64_of_integer_wf n ltac:(lia)) as [Hr Hf].
    destruct (read_number_meters st2 _ _ _ (proj1 M2) Hr Hf E3 eq_refl) as (Hs & M3 & Hmax).
    apply Hdone. split; [done |]. split; [by apply metered_skip with st2 | done]. }
  destruct (tag =? CTAG_INTEGER_NEGATIVE).
  { apply bind_ok in H as ([n st2] & E2 & H). apply reader_varint_metered in E2 as (M2 & Hn & _); [| done].
    destruct (negb (n =? 0)); [| done]. apply bind_ok in H as (st3 & E3 & H). inv_result.
    destruct (f64_of_integer_wf (- n) ltac:(lia)) as [Hr Hf].
    destruct (read_number_meters st2 _ _ _ (proj1 M2) Hr Hf E3 eq_refl) as (Hs & M3 & Hmax).
    apply Hdone. split; [done |]. split; [by apply metered_skip with st2 | done]. }
  destruct (_ || _).
  { apply bind_ok in H as ([n st2] & E2 & H). apply read_float_wf in E2 as (M2 & Hr & Hf); [| done].
    apply bind_ok in H as (st3 & E3 & H). inv_result.
    destruct (read_number_meters st2 _ _ _ (proj1 M2) Hr Hf E3 eq_refl) as (Hs & M3 & Hmax).
    apply Hdone. split; [done |]. split; [by apply metered_skip with st2 | done]. }
  destruct (tag =? CTAG_STRING).
  { apply bind_ok in H as ([s st2] & E2 & H). apply readText_metered in E2 as (M2 & Hs); [| done].
    apply bind_ok in H as (st3 & E3 & H). inv_result. apply budget_metered in E3 as [M3 Hmax]; [| apply M2].
    apply Hdone. split; [split; [by constructor | done] |]. split; [by apply metered_skip with st2 | done]. }
  destruct (tag =? CTAG_ARRAY).
  { apply bind_ok in H as (st2 & E2 & H). apply budget_metered in E2 as [M2 _]; [| done].
    apply bind_ok in H as ([n st3] & E3 & H). apply reader_varint_metered in E3 as (M3 & Hn & _); [| apply M2].
    apply bind_ok in H as ([l st4] & E4 & H). apply read_children_meters in E4 as (Hl & M4 & Hz); [| done | apply M3].
    apply bind_ok in H as (st5 & E5 & H). inv_result. apply budget_metered in E5 as [M5 Hmax]; [| apply M4].
    apply Hdone. split.
    { split; [constructor; apply (Forall_weaken _ _ _ Hl); by intros ? [? _] |].
      cbn. apply forallb_forall. intros x Hx%list_elem_of_In. apply (proj1 (Forall_elem _ _) Hl x Hx). }
    split; [| done]. pose proof (metered_trans _ _ _ _ _ M2 (metered_trans _ _ _ _ _ M3 (metered_trans _ _ _ _ _ M4 M5)))
      as [HM HT]. split; [done |]. rewrite HT. cbn [json_bytes separators]. lia. }
  destruct (tag =? CTAG_OBJECT); [| done].
  apply bind_ok in H as (st2 & E2 & H). apply budget_metered in E2 as [M2 _]; [| done].
  apply bind_ok in H as ([n st3] & E3 & H). apply reader_varint_metered in E3 as (M3 & Hn & _); [| apply M2].
  apply bind_ok in H as ([m st4] & E4 & H).
  apply read_entries_meters in E4 as (Hj & Hm & Hz & M4); [| done | apply M3 | apply jwf_nil | constructor].
  apply bind_ok in H as (st5 & E5 & H). inv_result. apply budget_metered in E5 as [M5 Hmax]; [| apply M4].
  apply Hdone. split.
  { split; [constructor; [done |]; apply (Forall_weaken _ _ _ Hm); by intros ? [? [? _]] |].
    cbn. apply forallb_forall. intros x Hx%list_elem_of_In. apply (proj1 (Forall_elem _ _) Hm x Hx). }
  split; [| done]. pose proof (metered_trans _ _ _ _ _ M2 (metered_trans _ _ _ _ _ M3 (metered_trans _ _ _ _ _ M4 M5)))
    as [HM HT]. split; [done |]. rewrite HT. change (zlen (@nil (list Z * json))) with 0 in Hz.
  change (json_bytes (JObject m)) with (2 + sum_of entry_bytes m + commas (zlen m)).
  rewrite Z.add_0_l in Hz. rewrite Hz. change (sum_of entry_bytes []) with 0. cbn [separators]. lia.
Qed.

(** ** Properties *)

(** The decoder inverts the encoder. *)
Lemma compact_payload_inverts sha256_hex payload output :
  is_bytes payload ->
  encodeCompactValue sha256_hex payload = Ok (Some output) ->
  decodeCompactValue sha256_hex output = Ok payload.
Proof.
  intros Hb He. unfold encodeCompactValue, decodeCompactValue in *.
  apply bind_ok in He as ([] & Ha & He). rewrite Ha. cbn [bind_result].
  destruct (Z.ltb_spec MAX_CANONICAL_BYTES (zlen payload)) as [| Hmax]; [done |].
  apply ok_inj in He. unfold try_result in He. destruct (bind_result _ _) as [out |] eqn:Hw; [| done].
  injection He as ->. apply bind_ok in Hw as (v & Hv & Hw). apply bind_ok in Hw as (canonical & Hcan & Hw).
  inv_result. reflect_tests. subst.
  pose proof E as Ee. apply emit_inv in E as (-> & Hc1 & Ht1 & Hu). cbn [w_count w_table w_used] in *.
  assert (Hwf : wf_json v) by (by eapply decodeJSON_wf).
  pose proof (canonical_size _ _ Hwf Hcan) as Hsize.
  destruct (compact_inverts (S MAX_DEPTH) v Hwf w _ _ [] 0 ltac:(lia) ltac:(rewrite Ht1; apply empty_table_ok)
    ltac:(lia) E0) as (Hr & _ & _).
  rewrite app_nil_r, Hc1, Ht1 in Hr.
  destruct (Z.leb_spec (zlen ([COMPACT_VALUE_VERSION] ++ l0)) MAX_COMPACT_BYTES) as [| Hlong].
  2: { exfalso. destruct (compact_write_emitted _ _ _ _ _ E0) as [Hused Hbound].
      apply emit_emitted in Ee as [Hused1 Hbound1]. rewrite zlen_app in Hlong.
      change (zlen [COMPACT_VALUE_VERSION]) with 1 in *. cbn in Hused1, Hbound1. unfold MAX_COMPACT_BYTES, MAX_CANONICAL_BYTES in *. lia. }
  unfold new_reader. cbn [app]. rewrite reader_byte_cons. cbn [bind_result]. rewrite Z.eqb_refl, Hr. cbn [bind_result r_input].
  rewrite bool_decide_true by done. rewrite encodeCanonicalJSON_normal, encodeCanonicalJSON_canon, Hcan.
  cbn [bind_result]. by destruct (Z.leb_spec (zlen payload) MAX_CANONICAL_BYTES); [| lia].
Qed.

Lemma encodeCompactValue_size sha256_hex payload output :
  encodeCompactValue sha256_hex payload = Ok (Some output) -> zlen output <= MAX_COMPACT_BYTES.
Proof.
  intros He. unfold encodeCompactValue in He. apply bind_ok in He as ([] & _ & He).
  destruct (MAX_CANONICAL_BYTES <? zlen payload); [done |].
  apply ok_inj in He. unfold try_result in He. destruct (bind_result _ _) as [out |] eqn:Hw; [| done].
  injection He as ->. apply bind_ok in Hw as (v & _ & Hw). apply bind_ok in Hw as (canonical & _ & Hw).
  inv_result. apply emit_emitted in E as [U1 B1]. apply compact_write_emitted in E0 as [U2 B2].
  cbn in U1, B1. rewrite zlen_app. rewrite U2 in B2. rewrite U1 in *. unfold MAX_COMPACT_BYTES, MAX_CANONICAL_BYTES in *. lia.
Qed.

(** C38: a payload [encodeCompactValue] accepts decodes back to exactly the
    same bytes: depth, node count, text table, UUID packing, float32 and integer
    forms and the canonical budget all agree between the two sides, with no
    side condition left to the caller; and the output respects the bound the
    decoder puts on its input. *)
Theorem compact_payload_roundtrip sha256_hex payload output :
  is_bytes payload ->
  encodeCompactValue sha256_hex payload = Ok (Some output) ->
  decodeCompactValue sha256_hex output = Ok payload /\ zlen output <= MAX_COMPACT_BYTES.
Proof.
  intros Hb He. split; [by apply compact_payload_inverts | by eapply encodeCompactValue_size].
Qed.

Definition compact_sample : list Z :=
  [91; 49; 44; 34; 97; 34; 44; 34; 97; 34; 44; 48; 46; 53; 93].

Lemma compact_payload_roundtrip_witness :
  let output := [1; 8; 4; 3; 1; 7; 0; 1; 97; 7; 217; 1; 5; 0; 0; 0; 63] in
  (is_bytes compact_sample /\ encodeCompactValue sample_digest compact_sample = Ok (Some output)) /\
  decodeCompactValue sample_digest output = Ok compact_sample /\ zlen output <= MAX_COMPACT_BYTES.
Proof.
  assert (Hb : is_bytes compact_sample) by (repeat (constructor; try (unfold is_byte; lia))).
  split; [split; [exact Hb | vm_compute; reflexivity] |].
  apply compact_payload_roundtrip; [exact Hb | vm_compute; reflexivity].
Defined.

(** On arbitrary received bytes, what the compact reader accepts is a
    finite JSON value whose canonical encoding has exactly the number of bytes
    the budget metered, at most 128 KiB: no input, however small, expands past
    the bound. *)
Theorem compact_expansion_bounded room input v st :
  is_bytes input ->
  compact_read room (new_reader input) = Ok (v, st) ->
  exists canonical, encodeCanonicalJSON v = Ok canonical /\ zlen canonical = r_total st /\
    zlen canonical <= MAX_CANONICAL_BYTES.
Proof.
  intros Hb H. apply compact_read_meters in H as ([Hv Hf] & [_ Ht] & Hmax); [| split; [done | constructor]].
  destruct (canonical_total v Hf) as [canonical Hc]. exists canonical.
  pose proof (canonical_size _ _ Hv Hc). cbn in Ht. split; [done |]. lia.
Qed.

Lemma compact_expansion_bounded_witness :
  exists st, compact_read 2 (new_reader [8; 2; 3; 1; 7; 0; 1; 34; 99]) =
      Ok (JArray [JNumber 0x3ff0000000000000; JString [34]], st) /\
    exists canonical, encodeCanonicalJSON (JArray [JNumber 0x3ff0000000000000; JString [34]]) = Ok canonical /\
      zlen canonical = r_total st /\ zlen canonical <= MAX_CANONICAL_BYTES.
Proof.
  eexists. split; [vm_compute; reflexivity |].
  apply (compact_expansion_bounded 2 [8; 2; 3; 1; 7; 0; 1; 34; 99]); [| vm_compute; reflexivity].
  repeat (constructor; try (unfold is_byte; lia)).
Defined.
