(* ===== verification/Base64.v ===== *)
(** * Base64url ([Buffer.from(text, "base64url")], [toString("base64url")])

    Frame payloads travel through [CompactFrame.p] in this form; the language
    runtime's conversion is written out on code units. *)

From Stdlib Require Import ZArith Lia String.
From stdpp Require Import base list option.
From S2P Require Import Prelude BinaryIO.

(** [A-Z a-z 0-9 - _] *)
Definition base64_digit (n : Z) : Z :=
  if n <? 26 then 65 + n
  else if n <? 52 then 71 + n
  else if n <? 62 then n - 4
  else if n =? 62 then 45 else 95.

Definition base64_value (c : Z) : option Z :=
  if (65 <=? c) && (c <=? 90) then Some (c - 65)
  else if (97 <=? c) && (c <=? 122) then Some (c - 71)
  else if (48 <=? c) && (c <=? 57) then Some (c + 4)
  else if c =? 45 then Some 62
  else if c =? 95 then Some 63
  else None.

Fixpoint base64url_encode (bs : list Z) : list Z :=
  match bs with
  | a :: b :: c :: r =>
      base64_digit (a / 4) :: base64_digit (a mod 4 * 16 + b / 16) ::
      base64_digit (b mod 16 * 4 + c / 64) :: base64_digit (c mod 64) :: base64url_encode r
  | [a; b] => [base64_digit (a / 4); base64_digit (a mod 4 * 16 + b / 16); base64_digit (b mod 16 * 4)]
  | [a] => [base64_digit (a / 4); base64_digit (a mod 4 * 16)]
  | [] => []
  end.

(** The bytes of a text of the alphabet; the bits left over are dropped. *)
Fixpoint base64_bytes (values : list Z) : list Z :=
  match values with
  | w :: x :: y :: z :: r =>
      (w * 4 + x / 16) :: (x mod 16 * 16 + y / 4) :: (y mod 4 * 64 + z) :: base64_bytes r
  | [w; x; y] => [w * 4 + x / 16; x mod 16 * 16 + y / 4]
  | [w; x] => [w * 4 + x / 16]
  | _ => []
  end.

Fixpoint base64_values (s : list Z) : option (list Z) :=
  match s with
  | [] => Some []
  | c :: r =>
      match base64_value c, base64_values r with
      | Some v, Some vs => Some (v :: vs)
      | _, _ => None
      end
  end.

(** [/^[A-Za-z0-9_-]+$/] and the canonical round trip. *)
Definition isBase64URL (s : list Z) : bool :=
  negb (bool_decide (s = [])) &&
  match base64_values s with
  | Some values => bool_decide (base64url_encode (base64_bytes values) = s)
  | None => false
  end.

Definition base64url_decode (s : list Z) : list Z :=
  match base64_values s with Some values => base64_bytes values | None => [] end.

Lemma base64_digit_value n : 0 <= n < 64 -> base64_value (base64_digit n) = Some n.
Proof.
  intros Hn. unfold base64_digit, base64_value.
  destruct (Z.ltb_spec n 26); [| destruct (Z.ltb_spec n 52); [| destruct (Z.ltb_spec n 62); [| destruct (Z.eqb_spec n 62)]]].
  - destruct (Z.leb_spec 65 (65 + n)), (Z.leb_spec (65 + n) 90); try lia. cbn [andb]. f_equal. lia.
  - destruct (Z.leb_spec 65 (71 + n)), (Z.leb_spec (71 + n) 90); try lia. cbn [andb].
    destruct (Z.leb_spec 97 (71 + n)), (Z.leb_spec (71 + n) 122); try lia. cbn [andb]. f_equal. lia.
  - destruct (Z.leb_spec 65 (n - 4)); [lia |]. destruct (Z.leb_spec 97 (n - 4)); [lia |].
    destruct (Z.leb_spec 48 (n - 4)), (Z.leb_spec (n - 4) 57); try lia. cbn [andb]. f_equal. lia.
  - by subst.
  - by assert (n = 63) as -> by lia.
Qed.

Section digits.
Context (a b c : Z) (Ha : is_byte a) (Hb : is_byte b) (Hc : is_byte c).

Lemma base64_split_ranges :
  0 <= a / 4 < 64 /\ 0 <= a mod 4 * 16 + b / 16 < 64 /\ 0 <= b mod 16 * 4 + c / 64 < 64 /\
  0 <= c mod 64 < 64 /\ 0 <= a mod 4 * 16 < 64 /\ 0 <= b mod 16 * 4 < 64.
Proof using Ha Hb Hc.
  unfold is_byte in *.
  pose proof (Z.mod_pos_bound a 4 ltac:(lia)). pose proof (Z.mod_pos_bound b 16 ltac:(lia)).
  pose proof (Z.mod_pos_bound c 64 ltac:(lia)).
  pose proof (Z_div_mod_eq_full a 4). pose proof (Z_div_mod_eq_full b 16). pose proof (Z_div_mod_eq_full c 64).
  lia.
Qed.

Lemma base64_join_a x : 0 <= x < 16 -> a / 4 * 4 + (a mod 4 * 16 + x) / 16 = a.
Proof using. intros. rewrite Z.div_add_l, (Z.div_small x) by lia. pose proof (Z_div_mod_eq_full a 4). lia. Qed.

Lemma base64_join_b x : 0 <= x < 4 -> (a mod 4 * 16 + b / 16) mod 16 * 16 + (b mod 16 * 4 + x) / 4 = b.
Proof using Hb.
  intros. unfold is_byte in Hb. rewrite Z.div_add_l, (Z.div_small x) by lia.
  rewrite Z.add_comm, (Z.add_comm (a mod 4 * 16)), Z.mod_add, (Z.mod_small (b / 16)) by
    (lia || (split; [apply Z.div_pos | apply Z.div_lt_upper_bound]; lia)).
  pose proof (Z_div_mod_eq_full b 16). lia.
Qed.

Lemma base64_join_c : (b mod 16 * 4 + c / 64) mod 4 * 64 + c mod 64 = c.
Proof using Hc.
  unfold is_byte in Hc. rewrite Z.add_comm, (Z.add_comm (b mod 16 * 4)), Z.mod_add, (Z.mod_small (c / 64)) by
    (lia || (split; [apply Z.div_pos | apply Z.div_lt_upper_bound]; lia)).
  pose proof (Z_div_mod_eq_full c 64). lia.
Qed.
End digits.

Lemma base64_roundtrip_fuel n bs : (length bs < n)%nat -> is_bytes bs ->
  exists values, base64_values (base64url_encode bs) = Some values /\ base64_bytes values = bs.
Proof.
  revert bs. induction n as [| n IH]; intros bs Hn Hbs; [lia |].
  destruct bs as [| a [| b [| c r]]].
  - by exists [].
  - apply list.Forall_cons in Hbs as [Ha _].
    destruct (base64_split_ranges a 0 0 Ha ltac:(done) ltac:(done)) as (R1 & _ & _ & _ & R2 & _).
    exists [a / 4; a mod 4 * 16]. cbn [base64url_encode base64_values].
    rewrite !base64_digit_value by done. split; [done |]. cbn.
    pose proof (base64_join_a a 0 ltac:(lia)) as E. rewrite Z.add_0_r in E. by rewrite E.
  - repeat (apply list.Forall_cons in Hbs as [? Hbs]).
    destruct (base64_split_ranges a b 0 ltac:(done) ltac:(done) ltac:(done)) as (R1 & R2 & _ & _ & _ & R3).
    exists [a / 4; a mod 4 * 16 + b / 16; b mod 16 * 4]. cbn [base64url_encode base64_values].
    rewrite !base64_digit_value by done. split; [done |]. cbn.
    rewrite base64_join_a by (unfold is_byte in *; split; [apply Z.div_pos | apply Z.div_lt_upper_bound]; lia).
    pose proof (base64_join_b a b ltac:(done) 0 ltac:(lia)) as E. rewrite Z.add_0_r in E. by rewrite E.
  - repeat (apply list.Forall_cons in Hbs as [? Hbs]). cbn in Hn.
    destruct (IH r ltac:(lia) Hbs) as (values & E1 & E2).
    destruct (base64_split_ranges a b c ltac:(done) ltac:(done) ltac:(done)) as (R1 & R2 & R3 & R4 & _ & _).
    exists (a / 4 :: a mod 4 * 16 + b / 16 :: b mod 16 * 4 + c / 64 :: c mod 64 :: values).
    cbn [base64url_encode base64_values]. rewrite !base64_digit_value, E1 by done. split; [done |].
    cbn [base64_bytes]. rewrite E2.
    rewrite base64_join_a by (unfold is_byte in *; split; [apply Z.div_pos | apply Z.div_lt_upper_bound]; lia).
    rewrite base64_join_b by (done || (unfold is_byte in *; split; [apply Z.div_pos | apply Z.div_lt_upper_bound]; lia)).
    by rewrite base64_join_c.
Qed.

Lemma base64url_roundtrip bs : is_bytes bs -> base64url_decode (base64url_encode bs) = bs.
Proof.
  intros Hb. destruct (base64_roundtrip_fuel (S (length bs)) bs ltac:(lia) Hb) as (values & E1 & E2).
  unfold base64url_decode. by rewrite E1.
Qed.

Lemma isBase64URL_encode bs : is_bytes bs -> isBase64URL (base64url_encode bs) = negb (bool_decide (bs = [])).
Proof.
  intros Hb. destruct (base64_roundtrip_fuel (S (length bs)) bs ltac:(lia) Hb) as (values & E1 & E2).
  unfold isBase64URL. rewrite E1, E2, (bool_decide_true (base64url_encode bs = base64url_encode bs)), andb_true_r by done. f_equal.
  apply bool_decide_ext. destruct bs as [| a [| b [| c r]]]; split; intros E; first [done | discriminate E].
Qed.

Lemma base64_values_units s : forall values, base64_values s = Some values -> is_jsstr s.
Proof.
  induction s as [| c s IH]; intros values H; [constructor |]. cbn in H.
  destruct (base64_value c) as [v |] eqn:Ev; [| done]. destruct (base64_values s) as [vs |]; [| done].
  constructor; [| by apply (IH vs)]. unfold base64_value in Ev.
  repeat match type of Ev with (if ?b then _ else _) = _ => destruct b eqn:?; reflect_tests; [unfold is_unit; lia |] end. done.
Qed.

Lemma base64url_units bs : is_bytes bs -> is_jsstr (base64url_encode bs).
Proof.
  intros Hb. destruct (base64_roundtrip_fuel (S (length bs)) bs ltac:(lia) Hb) as (values & E & _).
  by apply (base64_values_units _ values).
Qed.
