(* ===== verification/Compression.v ===== *)
(** * Whole-value compression ([compression-methods.ts], [message-codec.ts])

    [node:zlib] and [node:crypto] are the class [Zlib]; [ZlibLaws] states what
    their documentation promises and the source relies on. *)

From Stdlib Require Import ZArith Lia String.
From stdpp Require Import base list option.
From S2P Require Import Prelude JsMap BinaryIO Json BinaryCodec CompactValue CompactSize CompactCodec.

(** The functions of [node:zlib] and [node:crypto] the link calls, with the
    generated [FRAME_DICTIONARY] they take and the runtime's version.  A
    decompressor takes [maxOutputLength] and gives the output with
    [engine.bytesWritten], the input it consumed. *)
Class Zlib := {
  dictionary : list Z;
  deflateRawSync : list Z -> list Z -> list Z;
  deflateRawSync_best : list Z -> list Z -> list Z;
  brotliCompressSync : list Z -> list Z;
  zstdCompressSync : list Z -> list Z -> list Z;
  inflateRawSync : list Z -> Z -> list Z -> result (list Z * Z);
  brotliDecompressSync : Z -> list Z -> result (list Z * Z);
  zstdDecompressSync : list Z -> Z -> list Z -> result (list Z * Z);
  sha256_hex : list Z -> list Z;
  node_version : Z * Z
}.

Definition MAX_MESSAGE_BYTES : Z := 128 * 1024.
Definition DICTIONARY_SHA256 : string :=
  "fde4dbf9d274d7e52e4231bd7950a6e1d28752d6bd67d89be418622a72744f3d".

(** ** The Zstandard boundary *)

Definition uint16_le (bs : list Z) (i : Z) : option Z :=
  match nthZ bs i, nthZ bs (i + 1) with
  | Some a, Some b => Some (a + 256 * b)
  | _, _ => None
  end.

(** [while (!lastBlock)]: each turn moves [offset] by at least three. *)
Fixpoint zstd_blocks (fuel : nat) (bs : list Z) (offset : Z) : result Z :=
  match fuel with
  | O => Throw (TypeError "Truncated Zstandard block header")
  | S fuel' =>
      guard! offset + 3 <=? zlen bs else TypeError "Truncated Zstandard block header" in
      match uint16_le bs offset, nthZ bs (offset + 2) with
      | Some low, Some high =>
          let header := Z.lor low (Z.shiftl high 16) in
          let lastBlock := negb (Z.land header 1 =? 0) in
          let type := Z.land (Z.shiftr header 1) 3 in
          guard! negb (type =? 3) else TypeError "Reserved Zstandard block type" in
          let offset' := offset + 3 + (if type =? 1 then 1 else Z.shiftr header 3) in
          guard! offset' <=? zlen bs else TypeError "Truncated Zstandard block" in
          if lastBlock then Ok offset' else zstd_blocks fuel' bs offset'
      | _, _ => Throw (TypeError "Truncated Zstandard block header")
      end
  end.

Definition assertZstandardBoundary (bs : list Z) : result unit :=
  guard! (6 <=? zlen bs) && bool_decide (le_value (take 4 bs) = 0xfd2fb528)
    else TypeError "Invalid Zstandard frame boundary" in
  let! descriptor := from_option (nthZ bs 4) (RangeError "out of bounds") in
  guard! Z.land descriptor 8 =? 0 else TypeError "Reserved Zstandard frame flag" in
  let singleSegment := negb (Z.land descriptor 32 =? 0) in
  let sizeFlag := Z.shiftr descriptor 6 in
  let contentSizeBytes := if sizeFlag =? 0 then (if singleSegment then 1 else 0) else 2 ^ sizeFlag in
  let dictionaryFlag := Z.land descriptor 3 in
  let dictionaryBytes := if dictionaryFlag =? 3 then 4 else dictionaryFlag in
  let! offset := zstd_blocks (S (length bs)) bs
    (5 + (if singleSegment then 0 else 1) + dictionaryBytes + contentSizeBytes) in
  let offset' := if Z.land descriptor 4 =? 0 then offset else offset + 4 in
  guard! offset' =? zlen bs else TypeError "Invalid Zstandard frame boundary" in
  Ok tt.

Section methods.
Context {zlib : Zlib}.

(** [assertDictionary]; [dictionaryVerified] only caches it. *)
Definition assertMethodDictionary : result unit :=
  let '(major, minor) := node_version in
  guard! negb ((major <? 24) || ((major =? 24) && (minor <? 6)))
    else PlainError "Message-v2 requires Node 24.6 or newer for Zstandard dictionaries" in
  guard! bool_decide (sha256_hex dictionary = js DICTIONARY_SHA256)
    else PlainError "Message-v2 dictionary changed; assign a new wire version" in
  Ok tt.

Definition validateMode (mode : Z) : result unit :=
  guard! (0 <=? mode) && (mode <=? 8) else TypeError "Unknown message-v2 compression mode" in Ok tt.

(** ** Choosing a method *)

(** One representation of the payload under the three algorithms. *)
Definition compress_candidates (header : list Z) (representation : Z) (value : list Z) : list (Z * list Z) :=
  let body := header ++ value in
  [(0 * 3 + representation, deflateRawSync_best dictionary body);
   (1 * 3 + representation, brotliCompressSync body);
   (2 * 3 + representation, zstdCompressSync dictionary body)].

Definition better (best : option (Z * list Z)) (candidate : Z * list Z) : option (Z * list Z) :=
  match best with
  | None => Some candidate
  | Some b => if zlen (snd candidate) <? zlen (snd b) then Some candidate else best
  end.

Definition optional_candidates (header : list Z) (representation : Z) (value : option (list Z)) :=
  match value with
  | Some v => compress_candidates header representation v
  | None => []
  end.

Definition compressValue (payload header : list Z) : result (Z * list Z) :=
  guard! zlen payload <=? MAX_MESSAGE_BYTES else RangeError "Message payload exceeds 128 KiB" in
  let! _ := assertMethodDictionary in
  let! binary := encodeBinaryPayload sha256_hex payload in
  let! compact := encodeCompactValue sha256_hex payload in
  from_option
    (fold_left better
       (compress_candidates header 0 payload ++
        optional_candidates header 1 binary ++
        optional_candidates header 2 compact) None)
    (PlainError "Missing compression candidate").

(** ** Undoing it *)

Definition decompressValue (mode : Z) (bs : list Z) (maxOutputLength : Z) : result (list Z) :=
  let! _ := validateMode mode in
  let! _ := assertMethodDictionary in
  let! _ := if 6 <=? mode then assertZstandardBoundary bs else Ok tt in
  let! (buffer, bytesWritten) :=
    if mode <? 3 then inflateRawSync dictionary maxOutputLength bs
    else if mode <? 6 then brotliDecompressSync maxOutputLength bs
    else zstdDecompressSync dictionary maxOutputLength bs in
  guard! bytesWritten =? zlen bs else TypeError "Invalid compressed value boundary" in
  Ok buffer.

Definition restoreValue (mode : Z) (payload : list Z) : result (list Z) :=
  let! _ := validateMode mode in
  let representation := mode mod 3 in
  let! restored :=
    if representation =? 0 then Ok payload
    else if representation =? 1 then decodeBinaryPayload sha256_hex payload 0
    else decodeCompactValue sha256_hex payload in
  guard! negb ((zlen restored =? 0) || (MAX_MESSAGE_BYTES <? zlen restored))
    else RangeError "Restored message must contain 1-131072 bytes" in
  Ok restored.

(** ** The whole-message envelope ([message-codec.ts]) *)

Definition MESSAGE_CODEC_MARKER : Z := 0xb2.
Definition MESSAGE_CODEC_VERSION : Z := 1.
Definition MODE_CANONICAL : Z := 0.
Definition MODE_BINARY : Z := 1.
Definition MAX_BINARY_DEFLATE_OUTPUT_BYTES : Z := MAX_MESSAGE_BYTES * 8 + 64.

Definition assertMessageDictionary : result unit :=
  guard! bool_decide (sha256_hex dictionary = js DICTIONARY_SHA256)
    else PlainError "whole-message codec dictionary changed" in Ok tt.

Definition assertMessageSize (payload : list Z) : result unit :=
  guard! zlen payload <=? MAX_MESSAGE_BYTES else RangeError "Whole-message payload exceeds 128 KiB" in Ok tt.

Definition wrap (mode : Z) (compressed : list Z) : list Z :=
  [MESSAGE_CODEC_MARKER; MESSAGE_CODEC_VERSION; mode] ++ compressed.

Definition encodeCompressedMessage (payload : list Z) : result (option (list Z)) :=
  let! _ := assertMessageDictionary in
  let! _ := assertMessageSize payload in
  let canonical := wrap MODE_CANONICAL (deflateRawSync dictionary payload) in
  let! binaryPayload := encodeBinaryPayload sha256_hex payload in
  let binary := (fun b => wrap MODE_BINARY (deflateRawSync dictionary b)) <$> binaryPayload in
  let candidate :=
    match binary with
    | None => canonical
    | Some b => if zlen canonical <=? zlen b then canonical else b
    end in
  Ok (if zlen candidate <? zlen payload then Some candidate else None).

Definition inflateMessage (compressed : list Z) (binary : bool) : result (list Z) :=
  guard! negb (zlen compressed =? 0) else TypeError "Truncated whole-message codec payload" in
  let maximum := if binary then MAX_BINARY_DEFLATE_OUTPUT_BYTES else MAX_MESSAGE_BYTES in
  let! (buffer, bytesWritten) := inflateRawSync dictionary maximum compressed in
  guard! bytesWritten =? zlen compressed else TypeError "Invalid whole-message compressed payload" in
  guard! zlen buffer <=? maximum else RangeError "Decoded whole-message payload exceeds bound" in
  Ok buffer.

Definition decodeMessagePayload (payload : list Z) : result (list Z) :=
  let! _ := assertMessageSize payload in
  if bool_decide (nthZ payload 0 = Some 0xb3) then
    guard! bool_decide (nthZ payload 1 = Some 1) else TypeError "Unknown message-v2 envelope version" in
    let mode := default (-1) (nthZ payload 2) in
    let! raw := decompressValue mode (drop 3 payload) MAX_BINARY_DEFLATE_OUTPUT_BYTES in
    restoreValue mode raw
  else if negb (bool_decide (nthZ payload 0 = Some MESSAGE_CODEC_MARKER)) then Ok payload
  else
    let! _ := assertMessageDictionary in
    guard! 3 <=? zlen payload else TypeError "Truncated whole-message codec envelope" in
    guard! bool_decide (nthZ payload 1 = Some MESSAGE_CODEC_VERSION)
      else TypeError "Unknown whole-message codec version" in
    let! mode := from_option (nthZ payload 2) (TypeError "Unknown whole-message codec mode") in
    guard! (mode =? MODE_CANONICAL) || (mode =? MODE_BINARY) else TypeError "Unknown whole-message codec mode" in
    let! output := inflateMessage (drop 3 payload) (mode =? MODE_BINARY) in
    guard! negb (zlen output =? 0) else TypeError "Decoded whole-message payload must not be empty" in
    if mode =? MODE_BINARY then decodeBinaryPayload sha256_hex output 0 else Ok output.
End methods.

(** ** What [node:zlib] documents *)

(** Zstandard frames up to [ZSTD_LIMIT] bytes of content are all the link
    produces (a header and the largest binary body). *)
Definition ZSTD_LIMIT : Z := 2 ^ 21 - 1.

Class ZlibLaws {zlib : Zlib} : Prop := {
  inflate_deflate dict body maximum : zlen body <= maximum ->
    inflateRawSync dict maximum (deflateRawSync dict body) = Ok (body, zlen (deflateRawSync dict body));
  inflate_deflate_best dict body maximum : zlen body <= maximum ->
    inflateRawSync dict maximum (deflateRawSync_best dict body) = Ok (body, zlen (deflateRawSync_best dict body));
  brotli_inverts body maximum : zlen body <= maximum ->
    brotliDecompressSync maximum (brotliCompressSync body) = Ok (body, zlen (brotliCompressSync body));
  zstd_inverts dict body maximum : zlen body <= maximum ->
    zstdDecompressSync dict maximum (zstdCompressSync dict body) = Ok (body, zlen (zstdCompressSync dict body));
  zstd_complete dict body : is_bytes body -> zlen body <= ZSTD_LIMIT ->
    assertZstandardBoundary (zstdCompressSync dict body) = Ok tt;
  deflate_ratio dict body : zlen body <= 1032 * zlen (deflateRawSync dict body);
  deflate_bytes dict body : is_bytes body -> is_bytes (deflateRawSync dict body);
  deflate_best_bytes dict body : is_bytes body -> is_bytes (deflateRawSync_best dict body);
  brotli_bytes body : is_bytes body -> is_bytes (brotliCompressSync body);
  zstd_bytes dict body : is_bytes body -> is_bytes (zstdCompressSync dict body)
}.

Section proofs.
Context {zlib : Zlib} {laws : ZlibLaws}.

Lemma fold_better_in l : forall best c, fold_left better l best = Some c -> best = Some c \/ c ∈ l.
Proof.
  induction l as [| x l IH]; cbn; intros best c Hc; [by left |].
  apply IH in Hc as [Hc | Hc]; [| right; by constructor].
  unfold better in Hc. destruct best as [b |].
  - destruct (_ <? _); [| by left]. injection Hc as ->. right. constructor.
  - injection Hc as ->. right. constructor.
Qed.

(** Any candidate decompresses to what it compressed. *)
Lemma candidate_decompresses header r value mode bs maximum :
  0 <= r <= 2 -> assertMethodDictionary = Ok tt -> is_bytes (header ++ value) ->
  zlen (header ++ value) <= maximum -> zlen (header ++ value) <= ZSTD_LIMIT ->
  (mode, bs) ∈ compress_candidates header r value ->
  decompressValue mode bs maximum = Ok (header ++ value) /\ mode mod 3 = r /\ validateMode mode = Ok tt /\ is_bytes bs.
Proof.
  intros Hr Ha Hb Hm Hz Hin. unfold compress_candidates in Hin. unfold decompressValue, validateMode. rewrite Ha.
  rewrite !elem_of_cons in Hin. destruct Hin as [[= -> ->] | [[= -> ->] | [[= -> ->] | Hin]]].
  - destruct (Z.leb_spec 0 (0 * 3 + r)), (Z.leb_spec (0 * 3 + r) 8); try lia. cbn [andb bind_result].
    destruct (Z.leb_spec 6 (0 * 3 + r)); [lia |]. destruct (Z.ltb_spec (0 * 3 + r) 3); [| lia]. cbn [bind_result].
    rewrite inflate_deflate_best by done. cbn [bind_result]. rewrite Z.eqb_refl.
    split; [done |]. split; [rewrite Z.add_comm, Z.mod_add, Z.mod_small by lia; done |]. split; [done | by apply deflate_best_bytes].
  - destruct (Z.leb_spec 0 (1 * 3 + r)), (Z.leb_spec (1 * 3 + r) 8); try lia. cbn [andb bind_result].
    destruct (Z.leb_spec 6 (1 * 3 + r)); [lia |]. destruct (Z.ltb_spec (1 * 3 + r) 3); [lia |].
    destruct (Z.ltb_spec (1 * 3 + r) 6); [| lia]. cbn [bind_result].
    rewrite brotli_inverts by done. cbn [bind_result]. rewrite Z.eqb_refl.
    split; [done |]. split; [rewrite Z.add_comm, Z.mod_add, Z.mod_small by lia; done |]. split; [done | by apply brotli_bytes].
  - destruct (Z.leb_spec 0 (2 * 3 + r)), (Z.leb_spec (2 * 3 + r) 8); try lia. cbn [andb bind_result].
    destruct (Z.leb_spec 6 (2 * 3 + r)); [| lia]. rewrite zstd_complete by done. cbn [bind_result].
    destruct (Z.ltb_spec (2 * 3 + r) 3); [lia |]. destruct (Z.ltb_spec (2 * 3 + r) 6); [lia |].
    rewrite zstd_inverts by done. cbn [bind_result]. rewrite Z.eqb_refl.
    split; [done |]. split; [rewrite Z.add_comm, Z.mod_add, Z.mod_small by lia; done |]. split; [done | by apply zstd_bytes].
  - by apply elem_of_nil in Hin.
Qed.

(** [restoreValue] of a representation, by its number. *)
Lemma restore_representation mode payload value :
  validateMode mode = Ok tt -> 0 < zlen payload <= MAX_MESSAGE_BYTES ->
  (mode mod 3 = 0 /\ value = payload \/
   mode mod 3 = 1 /\ decodeBinaryPayload sha256_hex value 0 = Ok payload \/
   mode mod 3 = 2 /\ decodeCompactValue sha256_hex value = Ok payload) ->
  restoreValue mode value = Ok payload.
Proof.
  intros Hv Hp Hcase. unfold restoreValue. rewrite Hv. cbn [bind_result].
  destruct Hcase as [[-> ->] | [[-> ->] | [-> ->]]]; cbn [Z.eqb Pos.eqb bind_result];
    (destruct (Z.eqb_spec (zlen payload) 0); [lia |]);
    (destruct (Z.ltb_spec MAX_MESSAGE_BYTES (zlen payload)); [lia | done]).
Qed.

Lemma binary_representation payload output :
  is_bytes payload -> zlen payload <= MAX_MESSAGE_BYTES ->
  encodeBinaryPayload sha256_hex payload = Ok (Some output) ->
  decodeBinaryPayload sha256_hex output 0 = Ok payload /\ zlen output < 8 * MAX_MESSAGE_BYTES.
Proof.
  intros Hb Hs He. split; [| exact (encodeBinaryPayload_size _ _ _ Hb Hs He)].
  exact (binary_payload_inverts sha256_hex payload output [] Hb Hs He).
Qed.

(** The limit a decoder leaves for a header besides the body. *)
Lemma compressValue_inverts payload header mode bs maximum :
  is_bytes payload -> is_bytes header -> 0 < zlen payload ->
  zlen header + 8 * MAX_MESSAGE_BYTES <= maximum -> zlen header + 8 * MAX_MESSAGE_BYTES <= ZSTD_LIMIT ->
  compressValue payload header = Ok (mode, bs) ->
  exists value, decompressValue mode bs maximum = Ok (header ++ value) /\
    restoreValue mode value = Ok payload /\ validateMode mode = Ok tt /\ is_bytes bs.
Proof.
  intros Hb Hh Hpos Hmax Hz Hc. unfold compressValue in Hc.
  destruct (Z.leb_spec (zlen payload) MAX_MESSAGE_BYTES) as [Hs |]; [| done].
  apply bind_ok in Hc as ([] & Ha & Hc). apply bind_ok in Hc as (binary & Hbin & Hc).
  apply bind_ok in Hc as (compact & Hcom & Hc).
  unfold from_option in Hc. destruct (fold_left _ _ _) as [c |] eqn:Hf; [| done]. injection Hc as ->.
  apply fold_better_in in Hf as [? | Hin]; [done |].
  assert (Hcand : forall r value, 0 <= r <= 2 -> is_bytes value -> zlen value <= 8 * MAX_MESSAGE_BYTES ->
    (mode, bs) ∈ compress_candidates header r value ->
    decompressValue mode bs maximum = Ok (header ++ value) /\ mode mod 3 = r /\ validateMode mode = Ok tt /\ is_bytes bs).
  { intros r value Hr Hv Hl Hin'. apply candidate_decompresses; try done; rewrite ?zlen_app; try lia. by apply Forall_app. }
  rewrite !elem_of_app in Hin. destruct Hin as [Hin | [Hin | Hin]].
  - destruct (Hcand 0 payload) as (Hd & Hm & Hvm & Hbs); [lia | done | lia | done |].
    exists payload. split; [done |]. split; [| done]. apply restore_representation; [done | lia | by left].
  - destruct binary as [value |]; [| by apply elem_of_nil in Hin]. cbn in Hin.
    destruct (binary_representation _ _ Hb Hs Hbin) as [Hdec Hsize].
    assert (Hvb : is_bytes value) by exact (encodeBinaryPayload_bytes _ _ _ Hb Hbin).
    destruct (Hcand 1 value) as (Hd & Hm & Hvm & Hbs); [lia | done | lia | done |].
    exists value. split; [done |]. split; [| done]. apply restore_representation; [done | lia | right; by left].
  - destruct compact as [value |]; [| by apply elem_of_nil in Hin]. cbn in Hin.
    assert (Hvb : is_bytes value) by exact (encodeCompactValue_bytes _ _ _ Hb Hcom).
    destruct (Hcand 2 value) as (Hd & Hm & Hvm & Hbs); [lia | done | | done |].
    { apply encodeCompactValue_size in Hcom. unfold MAX_COMPACT_BYTES, MAX_CANONICAL_BYTES, MAX_MESSAGE_BYTES in *. lia. }
    exists value. split; [done |]. split; [| done]. apply restore_representation; [done | lia |].
    right; right. split; [done |]. by apply compact_payload_inverts.
Qed.

(** *** The envelope *)

Lemma decode_unmarked payload : zlen payload <= MAX_MESSAGE_BYTES ->
  nthZ payload 0 <> Some 0xb3 -> nthZ payload 0 <> Some MESSAGE_CODEC_MARKER ->
  decodeMessagePayload payload = Ok payload.
Proof.
  intros Hs H3 H2. unfold decodeMessagePayload, assertMessageSize.
  destruct (Z.leb_spec (zlen payload) MAX_MESSAGE_BYTES); [| lia]. cbn [bind_result].
  rewrite !bool_decide_false by done. done.
Qed.

Lemma envelope_head (a b c : Z) bs :
  nthZ ([a; b; c] ++ bs) 0 = Some a /\ nthZ ([a; b; c] ++ bs) 1 = Some b /\ nthZ ([a; b; c] ++ bs) 2 = Some c /\
  drop 3 ([a; b; c] ++ bs) = bs /\ zlen ([a; b; c] ++ bs) = 3 + zlen bs.
Proof.
  change 0 with (Z.of_nat 0). change 1 with (Z.of_nat 1). change 2 with (Z.of_nat 2). rewrite !nthZ_lookup.
  repeat split. rewrite zlen_app. done.
Qed.

Lemma decode_method_envelope payload mode bs :
  is_bytes payload -> 0 < zlen payload -> compressValue payload [] = Ok (mode, bs) ->
  zlen ([0xb3; 1; mode] ++ bs) <= MAX_MESSAGE_BYTES ->
  decodeMessagePayload ([0xb3; 1; mode] ++ bs) = Ok payload.
Proof.
  intros Hb Hpos Hc Hs. destruct (envelope_head 0xb3 1 mode bs) as (E0 & E1 & E2 & E3 & _).
  destruct (compressValue_inverts payload [] mode bs MAX_BINARY_DEFLATE_OUTPUT_BYTES) as (value & Hd & Hr & _); try done.
  { constructor. }
  unfold decodeMessagePayload, assertMessageSize.
  destruct (Z.leb_spec (zlen ([0xb3; 1; mode] ++ bs)) MAX_MESSAGE_BYTES); [| lia]. cbn [bind_result].
  rewrite E0, E1, E2, E3, !bool_decide_true by done. change (default (-1) (Some mode)) with mode. cbn [app] in Hd. rewrite Hd. exact Hr.
Qed.

Lemma deflated_nonempty dict body : 0 < zlen body -> zlen (deflateRawSync dict body) <> 0.
Proof. pose proof (deflate_ratio dict body). lia. Qed.

Lemma inflateMessage_deflate body binary :
  0 < zlen body -> zlen body <= (if binary : bool then MAX_BINARY_DEFLATE_OUTPUT_BYTES else MAX_MESSAGE_BYTES) ->
  inflateMessage (deflateRawSync dictionary body) binary = Ok body.
Proof.
  intros Hpos Hmax. unfold inflateMessage. pose proof (deflated_nonempty dictionary body Hpos).
  destruct (Z.eqb_spec (zlen (deflateRawSync dictionary body)) 0); [done |]. cbn [negb].
  rewrite inflate_deflate by done. cbn [bind_result]. rewrite Z.eqb_refl.
  by destruct (Z.leb_spec (zlen body) (if binary then MAX_BINARY_DEFLATE_OUTPUT_BYTES else MAX_MESSAGE_BYTES)); [| lia].
Qed.

Lemma encodeCompressedMessage_inverts payload o :
  is_bytes payload -> encodeCompressedMessage payload = Ok (Some o) ->
  decodeMessagePayload o = Ok payload /\ zlen o < zlen payload /\ zlen payload <= MAX_MESSAGE_BYTES /\ is_bytes o.
Proof.
  intros Hb He. unfold encodeCompressedMessage in He. apply bind_ok in He as ([] & Ha & He).
  apply bind_ok in He as ([] & Hs & He). unfold assertMessageSize in Hs.
  destruct (Z.leb_spec (zlen payload) MAX_MESSAGE_BYTES) as [Hmax |]; [| done].
  apply bind_ok in He as (binary & Hbin & He). apply ok_inj in He.
  destruct (_ <? _) eqn:Hlt in He; [| done]. injection He as Ho. rewrite Ho in Hlt. apply Z.ltb_lt in Hlt.
  assert (Hpos : 0 < zlen payload) by (pose proof (zlen_nonneg o); lia).
  assert (Hdecode : forall mode value, (mode = MODE_CANONICAL /\ value = payload \/
      mode = MODE_BINARY /\ encodeBinaryPayload sha256_hex payload = Ok (Some value)) ->
      o = wrap mode (deflateRawSync dictionary value) -> decodeMessagePayload o = Ok payload /\ is_bytes o).
  { intros mode value Hcase ->. unfold wrap in *.
    destruct (envelope_head MESSAGE_CODEC_MARKER MESSAGE_CODEC_VERSION mode (deflateRawSync dictionary value))
      as (E0 & E1 & E2 & E3 & E4).
    assert (Hvb : is_bytes value /\ 0 < zlen value /\
      zlen value <= (if mode =? MODE_BINARY then MAX_BINARY_DEFLATE_OUTPUT_BYTES else MAX_MESSAGE_BYTES)).
    { destruct Hcase as [[-> ->] | [-> Hv]]; [done |].
      destruct (binary_representation _ _ Hb Hmax Hv) as [Hdec Hsz].
      split; [exact (encodeBinaryPayload_bytes _ _ _ Hb Hv) |].
      split; [by apply (decodeBinaryPayload_nonempty sha256_hex _ payload) |].
      cbn. unfold MAX_BINARY_DEFLATE_OUTPUT_BYTES. lia. }
    destruct Hvb as (Hvb & Hvpos & Hvmax). split.
    - unfold decodeMessagePayload, assertMessageSize.
      destruct (Z.leb_spec (zlen ([MESSAGE_CODEC_MARKER; MESSAGE_CODEC_VERSION; mode] ++ deflateRawSync dictionary value))
        MAX_MESSAGE_BYTES); [| lia]. cbn [bind_result].
      rewrite E0, E1, E2, E3, Ha, E4. cbn [bind_result].
      destruct (Z.leb_spec 3 (3 + zlen (deflateRawSync dictionary value))) as [_ | Hx];
        [| pose proof (zlen_nonneg (deflateRawSync dictionary value)); lia].
      cbn [from_option bind_result].
      rewrite inflateMessage_deflate by done. cbn -[zlen decodeBinaryPayload].
      destruct (Z.eqb_spec (zlen value) 0); [lia |]. cbn [negb].
      destruct Hcase as [[-> ->] | [-> Hv]]; [done |]. cbn -[decodeBinaryPayload].
      exact (binary_payload_inverts sha256_hex payload value [] Hb Hmax Hv).
    - apply is_bytes_app; [| by apply deflate_bytes]. unfold MESSAGE_CODEC_MARKER, MESSAGE_CODEC_VERSION.
      destruct Hcase as [[-> _] | [-> _]]; unfold MODE_CANONICAL, MODE_BINARY; repeat constructor; lia. }
  split; [| split; [lia | split; [lia |]]].
  all: destruct binary as [b |]; cbn [fmap option_fmap option_map] in Ho;
    [destruct (_ <=? _) |];
    first [ apply (Hdecode MODE_CANONICAL payload); [by left | done]
          | apply (Hdecode MODE_BINARY b); [by right | done] ].
Qed.
End proofs.

(** ** A library that meets the laws

    Stored blocks: each codec keeps its input, Zstandard in one raw block. *)

Definition stored (maximum : Z) (bs : list Z) : result (list Z * Z) :=
  guard! zlen bs <=? maximum else RangeError "Cannot create a Buffer larger than maxOutputLength" in
  Ok (bs, zlen bs).

Definition zstd_raw_frame (body : list Z) : list Z :=
  le_bytes 4 0xfd2fb528 ++ [32; zlen body mod 256] ++ le_bytes 3 (zlen body * 8 + 1) ++ body.

Definition stored_zlib : Zlib := {|
  dictionary := [];
  deflateRawSync _ body := 0 :: body;
  deflateRawSync_best _ body := 0 :: body;
  brotliCompressSync body := 0 :: body;
  zstdCompressSync _ body := zstd_raw_frame body;
  inflateRawSync _ maximum bs :=
    let! (body, _) := stored maximum (drop 1 bs) in Ok (body, zlen bs);
  brotliDecompressSync maximum bs :=
    let! (body, _) := stored maximum (drop 1 bs) in Ok (body, zlen bs);
  zstdDecompressSync _ maximum bs :=
    let! (body, _) := stored maximum (drop 9 bs) in Ok (body, zlen bs);
  sha256_hex text :=
    match text with [] => js DICTIONARY_SHA256 | _ => js BINARY_V1_VOCABULARY_SHA256 end;
  node_version := (24, 6)
|}.

Lemma stored_ok maximum bs : zlen bs <= maximum -> stored maximum bs = Ok (bs, zlen bs).
Proof. intros. unfold stored. by destruct (Z.leb_spec (zlen bs) maximum); [| lia]. Qed.

Lemma zstd_raw_frame_shape body : zlen body <= ZSTD_LIMIT -> exists b0 b1 b2,
  zstd_raw_frame body = [40; 181; 47; 253; 32; zlen body mod 256; b0; b1; b2] ++ body /\
  Z.lor (b0 + 256 * b1) (Z.shiftl b2 16) = zlen body * 8 + 1.
Proof.
  intros Hz. pose proof (zlen_nonneg body). unfold ZSTD_LIMIT in Hz.
  exists ((zlen body * 8 + 1) mod 256), ((zlen body * 8 + 1) / 256 mod 256), ((zlen body * 8 + 1) / 256 / 256 mod 256).
  split; [done |]. set (n := zlen body * 8 + 1) in *.
  assert (Hr : le_value (le_bytes 3 n) = n) by (apply le_value_bytes; lia).
  unfold le_bytes, le_value in Hr. rewrite Z.shiftl_mul_pow2 by lia.
  pose proof (Z.mod_pos_bound n 256 ltac:(lia)). pose proof (Z.mod_pos_bound (n / 256) 256 ltac:(lia)).
  rewrite Z.lor_comm, lor_disjoint by lia. lia.
Qed.

Lemma header_fields n : 0 <= n ->
  negb (Z.land (n * 8 + 1) 1 =? 0) = true /\ Z.land (Z.shiftr (n * 8 + 1) 1) 3 = 0 /\ Z.shiftr (n * 8 + 1) 3 = n.
Proof.
  intros Hn. rewrite !Z.shiftr_div_pow2 by lia.
  assert (L1 : Z.land (n * 8 + 1) (Z.ones 1) = 1).
  { rewrite Z.land_ones by lia. symmetry. apply Z.mod_unique with (n * 4); lia. }
  assert (L2 : Z.land ((n * 8 + 1) / 2 ^ 1) (Z.ones 2) = 0).
  { rewrite Z.land_ones by lia. replace ((n * 8 + 1) / 2 ^ 1) with (n * 4) by (apply Z.div_unique with 1; lia).
    apply Z.mod_mul. lia. }
  change (Z.ones 1) with 1 in L1. change (Z.ones 2) with 3 in L2. rewrite L1, L2.
  split; [done |]. split; [done |]. symmetry. apply Z.div_unique with 1; lia.
Qed.

Lemma zstd_raw_frame_complete body : zlen body <= ZSTD_LIMIT -> assertZstandardBoundary (zstd_raw_frame body) = Ok tt.
Proof.
  intros Hz. destruct (zstd_raw_frame_shape body Hz) as (b0 & b1 & b2 & -> & Hh).
  pose proof (zlen_nonneg body). destruct (header_fields (zlen body) ltac:(lia)) as (F1 & F2 & F3).
  unfold assertZstandardBoundary. rewrite zlen_app. change (zlen [40; 181; 47; 253; 32; _; b0; b1; b2]) with 9.
  destruct (Z.leb_spec 6 (9 + zlen body)); [| lia].
  change (take 4 (_ ++ body)) with [40; 181; 47; 253]. rewrite bool_decide_true by done. cbn [andb].
  change 4 with (Z.of_nat 4) at 1. rewrite nthZ_lookup. cbn -[zstd_blocks Z.of_nat length zlen].
  change (zstd_blocks ?f ?l ?o) with (zstd_blocks f l 6).
  cbn [zstd_blocks]. unfold uint16_le.
  change 6 with (Z.of_nat 6) at 2. change (6 + 1) with (Z.of_nat 7). change (6 + 2) with (Z.of_nat 8).
  rewrite !nthZ_lookup. cbn [lookup list_lookup app].
  rewrite !zlen_cons.
  destruct (Z.leb_spec (6 + 3) (1 + (1 + (1 + (1 + (1 + (1 + (1 + (1 + (1 + zlen body)))))))))); [| lia].
  rewrite Hh, F1, F2, F3. cbn -[zlen Z.land].
  destruct (Z.leb_spec (6 + 3 + zlen body) (1 + (1 + (1 + (1 + (1 + (1 + (1 + (1 + (1 + zlen body)))))))))); [| lia].
  change (Z.land 32 8) with 0. change (Z.land 32 4) with 0. cbn -[zlen].
  by destruct (Z.eqb_spec (6 + 3 + zlen body) (9 + zlen body)); [| lia].
Qed.

#[export] Instance stored_laws : @ZlibLaws stored_zlib.
Proof.
  assert (H0 : is_byte 0) by (unfold is_byte; lia).
  split; cbn -[stored zstd_raw_frame zlen Z.mul]; intros;
    try (rewrite stored_ok by done; done); try (apply is_bytes_cons; done).
  - by apply zstd_raw_frame_complete.
  - rewrite zlen_cons. pose proof (zlen_nonneg body). lia.
  - unfold zstd_raw_frame. repeat apply is_bytes_app; try apply le_bytes_bytes; [| done].
    pose proof (Z.mod_pos_bound (zlen body) 256 ltac:(lia)). repeat constructor; lia.
Qed.

(** ** Properties *)

(** Whichever of the nine methods [compressValue] picks, decompressing with
    that mode gives the header and one representation of the payload, and
    restoring that representation gives the payload: the choice by size is
    invisible to the receiver, within the output limits the frame and message
    decoders pass. *)
Theorem compression_method_lossless {zlib : Zlib} {laws : ZlibLaws} payload header mode bs maximum :
  is_bytes payload -> is_bytes header -> 0 < zlen payload ->
  zlen header + 8 * MAX_MESSAGE_BYTES <= maximum -> zlen header + 8 * MAX_MESSAGE_BYTES <= ZSTD_LIMIT ->
  compressValue payload header = Ok (mode, bs) ->
  0 <= mode <= 8 /\
  exists value, decompressValue mode bs maximum = Ok (header ++ value) /\ restoreValue mode value = Ok payload.
Proof.
  intros Hb Hh Hpos Hmax Hz Hc.
  destruct (compressValue_inverts payload header mode bs maximum Hb Hh Hpos Hmax Hz Hc) as (value & Hd & Hr & Hv & _).
  split; [| by exists value]. unfold validateMode in Hv. destruct (_ && _) eqn:E; [| done]. reflect_tests. lia.
Qed.

Lemma compression_method_lossless_witness :
  let payload := js "[1,1,1]" in
  compressValue (zlib := stored_zlib) payload [7; 7] = Ok (0, [0; 7; 7] ++ payload) /\
  0 <= 0 <= 8 /\
  exists value, decompressValue (zlib := stored_zlib) 0 ([0; 7; 7] ++ payload) (2 ^ 20 + 2) = Ok ([7; 7] ++ value) /\
    restoreValue (zlib := stored_zlib) 0 value = Ok payload.
Proof.
  split; [vm_compute; reflexivity |].
  apply compression_method_lossless; try (vm_compute; done); repeat (constructor; try (unfold is_byte; lia)).
Defined.

(** The whole-message envelope is lossless: when [encodeCompressedMessage]
    finds a smaller encoding, [decodeMessagePayload] gives the original bytes
    back, and a payload it leaves alone passes through the decoder unchanged
    unless its first byte is one of the two envelope markers (canonical JSON
    never starts with them). *)
Theorem message_envelope_lossless {zlib : Zlib} {laws : ZlibLaws} payload :
  is_bytes payload -> zlen payload <= MAX_MESSAGE_BYTES ->
  nthZ payload 0 <> Some 0xb3 -> nthZ payload 0 <> Some MESSAGE_CODEC_MARKER ->
  decodeMessagePayload payload = Ok payload /\
  forall o, encodeCompressedMessage payload = Ok (Some o) ->
    decodeMessagePayload o = Ok payload /\ zlen o < zlen payload.
Proof.
  intros Hb Hs H3 H2. split; [by apply decode_unmarked |]. intros o Ho.
  by destruct (encodeCompressedMessage_inverts payload o Hb Ho) as (? & ? & _).
Qed.

Definition repetitive : list Z := js "[true,true,true,true,true,true]".

Lemma message_envelope_lossless_witness :
  decodeMessagePayload (zlib := stored_zlib) repetitive = Ok repetitive /\
  (exists o, encodeCompressedMessage (zlib := stored_zlib) repetitive = Ok (Some o)) /\
  forall o, encodeCompressedMessage (zlib := stored_zlib) repetitive = Ok (Some o) ->
    decodeMessagePayload (zlib := stored_zlib) o = Ok repetitive /\ zlen o < zlen repetitive.
Proof.
  assert (H := message_envelope_lossless (zlib := stored_zlib) repetitive
    ltac:(repeat (constructor; try (unfold is_byte; lia))) ltac:(vm_compute; done) ltac:(done) ltac:(done)).
  split; [exact (proj1 H) |]. split; [| exact (proj2 H)]. exists [0xb2; 1; 1; 0; 5; 6; 2; 2; 2; 2; 2; 2]. vm_compute. reflexivity.
Defined.
