(* ===== verification/LinkTypes.v ===== *)
(** * Link identities and message classes ([types.ts])

    What every Link component shares: nodes, the nine message types, the six
    priorities, and the limits on sources and fragments. *)

From Stdlib Require Import ZArith String.
From stdpp Require Import base list option countable.
From S2P Require Import Prelude.

Inductive LinkRole := asset | gateway.

Record LinkNode := mkNode { role : LinkRole; id : list Z }.

Inductive LinkMessageType :=
  | state | task_delivery | task_report | data_request | data_response
  | resource_operation | subscription | object_content_message | control.

Inductive MessagePriority :=
  | safety | task | request | live_state | resource | object_content.

#[export] Instance LinkRole_eq_dec : EqDecision LinkRole.
Proof. solve_decision. Defined.
#[export] Instance LinkNode_eq_dec : EqDecision LinkNode.
Proof. solve_decision. Defined.
#[export] Instance LinkMessageType_eq_dec : EqDecision LinkMessageType.
Proof. solve_decision. Defined.
#[export] Instance MessagePriority_eq_dec : EqDecision MessagePriority.
Proof. solve_decision. Defined.

Definition LINK_SOURCE_IDENTITY_LIMIT : Z := 4096.
Definition MAX_LINK_FRAGMENTS : Z := 4096.

Definition colon : Z := 58.

(** [id.trim()] is not empty and [id] has no colon. *)
Definition valid_node_id (s : list Z) : bool := isNonEmptyString s && negb (existsb (Z.eqb colon) s).

Definition validateLinkNode (node : LinkNode) : result unit :=
  guard! valid_node_id (id node) else TypeError "invalid Link node" in Ok tt.
