(* ===== verification/Subscriptions.v ===== *)
(** * Feed subscriptions ([subscriptions.ts])

    The demand of an Asset's local clients ([LocalSubscriptionDemand]) and the
    leases a Gateway keeps for it ([GatewaySubscriptionDemand]). *)

From Stdlib Require Import ZArith Lia String.
From stdpp Require Import base list option.
From S2P Require Import Prelude JsMap BinaryIO Wtf8 Json JsonText.

Definition SUBSCRIPTION_RENEWAL_MS : Z := 30000.
Definition SUBSCRIPTION_LEASE_MS : Z := 90000.

Inductive ResourceType := rt_entity | rt_task | rt_object.

Definition resource_type_text (t : ResourceType) : list Z :=
  match t with rt_entity => js "entity" | rt_task => js "task" | rt_object => js "object" end.

Inductive FeedSelector :=
  | record (resource_type : ResourceType) (record_id : list Z)
  | all_of_type (resource_type : ResourceType)
  | tasks_for_asset (asset_id : list Z).

#[export] Instance ResourceType_eq_dec : EqDecision ResourceType.
Proof. solve_decision. Defined.
#[export] Instance FeedSelector_eq_dec : EqDecision FeedSelector.
Proof. solve_decision. Defined.

(** The selector as the object the clients pass. *)
Definition selector_json (s : FeedSelector) : json :=
  JObject match s with
  | record t i =>
      [(js "kind", JString (js "record")); (js "resource_type", JString (resource_type_text t)); (js "id", JString i)]
  | all_of_type t => [(js "kind", JString (js "resource_type")); (js "resource_type", JString (resource_type_text t))]
  | tasks_for_asset a => [(js "kind", JString (js "tasks_for_asset")); (js "asset_id", JString a)]
  end.

(** [canonicalJSON] throws on numbers that are not finite; a selector has none. *)
Definition selectorKey (s : FeedSelector) : list Z :=
  match canonicalJSON (selector_json s) with Ok text => text | Throw _ => [] end.

Inductive SubscriptionAction := action_add | action_renew | action_remove.

#[export] Instance SubscriptionAction_eq_dec : EqDecision SubscriptionAction.
Proof. solve_decision. Defined.

Record SubscriptionTransition := mkTransition { action : SubscriptionAction; selector : FeedSelector }.

(** ** [LocalSubscriptionDemand] *)

Module Local.

(** [byClient]: each client's selectors by key. *)
Record t := mk { byClient : list (list Z * list (list Z * FeedSelector)) }.

Definition empty : t := mk [].

Definition hasKey (key : list Z) (d : t) : bool := existsb (jhas key) (jvalues (byClient d)).

Definition add (clientID : list Z) (s : FeedSelector) (d : t) : t * option SubscriptionTransition :=
  let key := selectorKey s in
  let existed := hasKey key d in
  let client := default [] (jget clientID (byClient d)) in
  (mk (jset clientID (jset key s client) (byClient d)),
   if existed then None else Some (mkTransition action_add s)).

Definition remove (clientID : list Z) (s : FeedSelector) (d : t) : t * option SubscriptionTransition :=
  let key := selectorKey s in
  match jget clientID (byClient d) with
  | Some client =>
      if jhas key client then
        let client' := jdel key client in
        let d' := mk (if jsize client' =? 0 then jdel clientID (byClient d) else jset clientID client' (byClient d)) in
        (d', if hasKey key d' then None else Some (mkTransition action_remove s))
      else (d, None)
  | None => (d, None)
  end.

Definition disconnect (clientID : list Z) (d : t) : t * list SubscriptionTransition :=
  match jget clientID (byClient d) with
  | None => (d, [])
  | Some client =>
      let d' := mk (jdel clientID (byClient d)) in
      (d', map (fun p => mkTransition action_remove (snd p))
             (List.filter (fun p => negb (hasKey (fst p) d')) client))
  end.

(** [for (const [key, selector] of subscriptions) result.set(key, selector)] *)
Definition set_all {V} (result subscriptions : list (list Z * V)) : list (list Z * V) :=
  fold_left (fun result p => jset (fst p) (snd p) result) subscriptions result.

Definition aggregate (d : t) : list (list Z * FeedSelector) := fold_left set_all (jvalues (byClient d)) [].

Definition renewals (d : t) : list SubscriptionTransition :=
  map (mkTransition action_renew) (jvalues (aggregate d)).

Definition hasClient (clientID : list Z) (d : t) : bool := jhas clientID (byClient d).

Definition clear (d : t) : t * list SubscriptionTransition :=
  (empty, map (mkTransition action_remove) (jvalues (aggregate d))).

(** The operations as one step, with the transitions they return. *)
Inductive op :=
  | op_add (clientID : list Z) (s : FeedSelector)
  | op_remove (clientID : list Z) (s : FeedSelector)
  | op_disconnect (clientID : list Z)
  | op_clear.

Definition step (o : op) (d : t) : t * list SubscriptionTransition :=
  match o with
  | op_add c s => let '(d', t) := add c s d in (d', option_list t)
  | op_remove c s => let '(d', t) := remove c s d in (d', option_list t)
  | op_disconnect c => disconnect c d
  | op_clear => clear d
  end.

Inductive reachable : t -> Prop :=
  | reach_empty : reachable empty
  | reach_step o d : reachable d -> reachable (fst (step o d)).
End Local.

(** ** [GatewaySubscriptionDemand] *)

Module Gateway.

Record Lease := mkLease { lease_selector : FeedSelector; expiresAt : Z }.

Record t := mk {
  bySource : list (list Z * list (list Z * Lease));
  activeSelectors : list (list Z * FeedSelector)
}.

Definition empty : t := mk [] [].

(** [(source.get(key)?.expiresAt ?? 0) > now] *)
Definition live (now : Z) (key : list Z) (source : list (list Z * Lease)) : bool :=
  now <? match jget key source with Some lease => expiresAt lease | None => 0 end.

Definition isDemanded (key : list Z) (now : Z) (sources : list (list Z * list (list Z * Lease))) : bool :=
  existsb (live now key) (jvalues sources).

Definition apply (sourceNodeID : list Z) (transition : SubscriptionTransition) (now : Z) (g : t) : t * bool :=
  let key := selectorKey (selector transition) in
  let existed := jhas key (activeSelectors g) in
  let source := default [] (jget sourceNodeID (bySource g)) in
  let source' := match action transition with
                 | action_remove => jdel key source
                 | _ => jset key (mkLease (selector transition) (now + SUBSCRIPTION_LEASE_MS)) source
                 end in
  let bySource' := if jsize source' =? 0 then jdel sourceNodeID (bySource g) else jset sourceNodeID source' (bySource g) in
  let demanded := isDemanded key now bySource' in
  let active' := if demanded then jset key (selector transition) (activeSelectors g) else jdel key (activeSelectors g) in
  (mk bySource' active', negb (Bool.eqb existed demanded)).

(** [for (const [key, lease] of source) if (lease.expiresAt > now) result.set(key, lease.selector)] *)
Definition aggregate (now : Z) (sources : list (list Z * list (list Z * Lease))) : list (list Z * FeedSelector) :=
  fold_left (fun result source =>
      fold_left (fun result p => if now <? expiresAt (snd p) then jset (fst p) (lease_selector (snd p)) result else result)
        source result)
    (jvalues sources) [].

Definition expire (now : Z) (g : t) : t * list FeedSelector :=
  let kept := jretain (fun _ source => negb (jsize source =? 0))
                (jmap_values (fun _ => jretain (fun _ lease => negb (expiresAt lease <=? now))) (bySource g)) in
  let after := aggregate now kept in
  let expired := List.filter (fun p => negb (jhas (fst p) after)) (activeSelectors g) in
  (mk kept (fold_left (fun active p => jdel (fst p) active) expired (activeSelectors g)), map snd expired).

Definition has (sourceNodeID : list Z) (s : FeedSelector) (now : Z) (g : t) : bool :=
  live now (selectorKey s) (default [] (jget sourceNodeID (bySource g))).

(** Calls made at non-decreasing times, none negative. *)
Inductive reachable : Z -> t -> Prop :=
  | reach_empty now : 0 <= now -> reachable now empty
  | reach_wait now now' g : reachable now g -> now <= now' -> reachable now' g
  | reach_apply now g sourceNodeID transition :
      reachable now g -> reachable now (fst (apply sourceNodeID transition now g))
  | reach_expire now g : reachable now g -> reachable now (fst (expire now g)).
End Gateway.

(** ** Keys *)

(** A member of an object, as [JSON.stringify] writes it. *)
Definition member (key value : list Z) : list Z := quote key ++ [58] ++ quote value.

(** [JSON.stringify] of the three shapes of selector, keys sorted. *)
Lemma selectorKey_text s : selectorKey s =
  [123] ++ join_comma match s with
  | record t i => [member (js "id") i; member (js "kind") (js "record"); member (js "resource_type") (resource_type_text t)]
  | all_of_type t => [member (js "kind") (js "resource_type"); member (js "resource_type") (resource_type_text t)]
  | tasks_for_asset a => [member (js "asset_id") a; member (js "kind") (js "tasks_for_asset")]
  end ++ [125].
Proof. destruct s as [[] i | [] | a]; reflexivity. Qed.

(** The part of a key before its first free text. *)
Lemma key_prefix key value rest other : is_jsstr value -> is_jsstr other -> forall rest',
  [123] ++ (member key value ++ rest) ++ [125] = [123] ++ (member key other ++ rest') ++ [125] -> value = other /\ rest = rest'.
Proof.
  intros Hv Ho rest' H. apply app_inv_head in H. unfold member in H. rewrite <- !app_assoc in H.
  apply app_inv_head, app_inv_head in H.
  apply quote_prefix in H as [-> H]; [| done | done]. split; [done |]. by apply app_inv_tail in H.
Qed.

Definition selector_ok (s : FeedSelector) : Prop :=
  match s with record _ i => is_jsstr i | all_of_type _ => True | tasks_for_asset a => is_jsstr a end.

(** The key under which demand is counted identifies the selector: two
    selectors share a key only if they are equal, whatever text their ids hold
    (quotes, separators or unpaired surrogates included). *)
Theorem selectorKey_injective s1 s2 :
  selector_ok s1 -> selector_ok s2 -> selectorKey s1 = selectorKey s2 -> s1 = s2.
Proof.
  rewrite !selectorKey_text. intros H1 H2 H.
  destruct s1 as [t1 i1 | t1 | a1], s2 as [t2 i2 | t2 | a2]; cbn in H1, H2;
    try (apply (f_equal (take 3)) in H; discriminate H).
  - apply key_prefix in H as [-> H]; [| done | done]. destruct t1, t2; first [reflexivity | vm_compute in H; discriminate H].
  - destruct t1, t2; first [reflexivity | vm_compute in H; discriminate H].
  - by apply key_prefix in H as [-> _].
Qed.

Lemma selectorKey_injective_witness :
  let s1 := record rt_task [34; 0xd800; 125] in
  (selectorKey s1 = selectorKey s1 -> s1 = s1) /\ selectorKey s1 <> selectorKey (tasks_for_asset [34; 0xd800; 125]).
Proof.
  cbv zeta. split; [| vm_compute; discriminate].
  apply selectorKey_injective; repeat constructor; by unfold is_unit.
Defined.

(** ** Local demand *)

Section local.
Import Local.

(** Keys are distinct and each selector sits under its own key. *)
Definition keyed (subscriptions : list (list Z * FeedSelector)) : Prop :=
  jwf subscriptions /\ forall p, p ∈ subscriptions -> fst p = selectorKey (snd p).

Definition local_wf (d : t) : Prop :=
  jwf (byClient d) /\ forall c subs, (c, subs) ∈ byClient d -> keyed subs /\ subs <> [].

Lemma keyed_jset s subs : keyed subs -> keyed (jset (selectorKey s) s subs).
Proof using.
  intros [Hw Hk]. split; [by apply jset_wf |]. intros p Hp.
  destruct (elem_of_jset _ _ _ _ Hp) as [-> | Hin]; [done | by apply Hk].
Qed.

Lemma keyed_jdel k subs : keyed subs -> keyed (jdel k subs).
Proof using. intros [Hw Hk]. split; [by apply jdel_wf |]. intros p Hp%elem_of_jdel_weak. by apply Hk. Qed.

Lemma keyed_nil : keyed [].
Proof using. split; [apply jwf_nil | by intros p ?%elem_of_nil]. Qed.

(** The demand of every client but [c]. *)
Definition others (c key : list Z) (d : t) : bool := existsb (jhas key) (jvalues (jdel c (byClient d))).

Lemma hasKey_split c key d :
  hasKey key d = match jget c (byClient d) with Some subs => jhas key subs | None => false end || others c key d.
Proof using. apply existsb_jdel. Qed.

Lemma hasKey_add c s d key :
  hasKey key (fst (add c s d)) = bool_decide (key = selectorKey s) || hasKey key d.
Proof using.
  cbn [add fst]. unfold hasKey at 1. cbn [byClient]. rewrite existsb_jset, jhas_jset, (hasKey_split c key d).
  unfold others. by destruct (jget c (byClient d)), (bool_decide _).
Qed.

(** [remove] when the client has the selector. *)
Lemma hasKey_remove c s d subs key :
  local_wf d -> jget c (byClient d) = Some subs -> jhas (selectorKey s) subs = true ->
  hasKey key (fst (remove c s d)) = (negb (bool_decide (key = selectorKey s)) && jhas key subs) || others c key d.
Proof using.
  intros [Hw Hd] Hc Hh. destruct (Hd c subs (jget_elem_of _ _ _ Hc)) as [[Hs _] _].
  unfold remove. rewrite Hc, Hh. cbn [fst]. unfold hasKey. cbn [byClient].
  rewrite <- jhas_jdel by done. destruct (Z.eqb_spec (jsize (jdel (selectorKey s) subs)) 0) as [E | E].
  - apply jsize_zero in E. by rewrite E.
  - apply existsb_jset.
Qed.

Lemma add_wf c s d : local_wf d -> local_wf (fst (add c s d)).
Proof using.
  intros [Hw Hd]. cbn [add fst]. split; [by apply jset_wf |]. cbn [byClient]. intros c' subs Hin.
  destruct (elem_of_jset _ _ _ _ Hin) as [[= -> ->] | Hold]; [| by apply Hd with c'].
  split.
  - apply keyed_jset. destruct (jget c (byClient d)) as [subs |] eqn:E; [| apply keyed_nil].
    by apply (Hd c subs), jget_elem_of.
  - intros Hn. apply (f_equal (jhas (selectorKey s))) in Hn. rewrite jhas_jset, bool_decide_true in Hn by done. discriminate Hn.
Qed.

Lemma remove_wf c s d : local_wf d -> local_wf (fst (remove c s d)).
Proof using.
  intros [Hw Hd]. unfold remove. destruct (jget c (byClient d)) as [subs |] eqn:E; [| done].
  destruct (jhas (selectorKey s) subs); [| done]. cbn [fst].
  destruct (Hd c subs (jget_elem_of _ _ _ E)) as [Hk _].
  destruct (Z.eqb_spec (jsize (jdel (selectorKey s) subs)) 0) as [Ez | Ez]; split; cbn [byClient].
  - by apply jdel_wf.
  - intros c' subs' Hin%elem_of_jdel_weak. by apply Hd with c'.
  - by apply jset_wf.
  - intros c' subs' Hin. destruct (elem_of_jset _ _ _ _ Hin) as [[= -> ->] | Hold]; [| by apply Hd with c'].
    split; [by apply keyed_jdel |]. by intros E'; rewrite E' in Ez.
Qed.

Lemma disconnect_wf c d : local_wf d -> local_wf (fst (disconnect c d)).
Proof using.
  intros [Hw Hd]. unfold disconnect. destruct (jget c (byClient d)) as [subs |]; [| done]. cbn [fst].
  split; cbn [byClient]; [by apply jdel_wf |]. intros c' subs' Hin%elem_of_jdel_weak. by apply Hd with c'.
Qed.

Lemma reachable_wf d : reachable d -> local_wf d.
Proof using.
  induction 1 as [| [] d _ IH]; cbn [step].
  - split; [apply jwf_nil | by intros c subs ?%elem_of_nil].
  - destruct (add clientID s d) eqn:E. apply (f_equal fst) in E. cbn in E. cbn [fst]. rewrite <- E. by apply add_wf.
  - destruct (remove clientID s d) eqn:E. apply (f_equal fst) in E. cbn [fst] in *. rewrite <- E. by apply remove_wf.
  - by apply disconnect_wf.
  - split; [apply jwf_nil | by intros c subs ?%elem_of_nil].
Qed.

(** *** The aggregate *)

Lemma set_all_keyed result subs : keyed result -> keyed subs -> keyed (set_all result subs).
Proof using.
  unfold set_all. intros Hr [_ Hs]. revert result Hr. induction subs as [| [k s] subs IH]; intros result Hr; [done |]. cbn.
  assert (k = selectorKey s) as -> by exact (Hs (k, s) ltac:(constructor)).
  apply IH; [intros p Hp; apply Hs; by constructor | by apply keyed_jset].
Qed.

Lemma set_all_has key result (subs : list (list Z * FeedSelector)) : jhas key (set_all result subs) = jhas key result || jhas key subs.
Proof using.
  unfold set_all. revert result. induction subs as [| [k s] subs IH]; intros result; cbn; [by rewrite orb_false_r |].
  rewrite IH, jhas_jset. unfold jhas at 4. cbn [jget].
  case_decide; [rewrite bool_decide_true | rewrite bool_decide_false]; try done.
  - cbn. by rewrite orb_true_r.
Qed.

Lemma aggregate_keyed d : local_wf d -> keyed (aggregate d).
Proof using.
  intros [_ Hd]. unfold aggregate, jvalues.
  assert (H : forall (l : list (list Z * list (list Z * FeedSelector))) result, (forall c subs, (c, subs) ∈ l -> keyed subs) -> keyed result -> keyed (fold_left set_all (map snd l) result)).
  { induction l as [| [c subs] l IH]; intros result Hl Hr; [done |]. cbn. apply IH.
    - intros c' subs' Hin. apply (Hl c' subs'). by constructor.
    - apply set_all_keyed; [done |]. apply (Hl c subs). constructor. }
  apply H; [intros c subs Hin; by apply (Hd c subs) | apply keyed_nil].
Qed.

Lemma aggregate_has key d : jhas key (aggregate d) = hasKey key d.
Proof using.
  unfold aggregate, hasKey, jvalues.
  assert (H : forall (l : list (list (list Z * FeedSelector))) result, jhas key (fold_left set_all l result) = jhas key result || existsb (jhas key) l).
  { induction l as [| subs l IH]; intros result; cbn; [by rewrite orb_false_r |]. by rewrite IH, set_all_has, orb_assoc. }
  apply H.
Qed.

(** *** Transitions *)

Definition transition_key (t : SubscriptionTransition) : list Z := selectorKey (selector t).

(** Demand for [key] once a receiver has applied [ts]. *)
Definition after_transitions (ts : list SubscriptionTransition) (key : list Z) (demanded : bool) : bool :=
  fold_left (fun b t => if decide (transition_key t = key) then negb (bool_decide (action t = action_remove)) else b)
    ts demanded.

Lemma after_removals ts key b : (forall t, t ∈ ts -> action t = action_remove) ->
  after_transitions ts key b = b && negb (existsb (fun t => bool_decide (transition_key t = key)) ts).
Proof using.
  revert b. induction ts as [| t ts IH]; intros b H; cbn; [by rewrite andb_true_r |].
  unfold after_transitions in IH |- *. cbn [fold_left].
  rewrite IH by (intros t' Ht; apply H; by constructor). rewrite (H t) by constructor.
  case_decide; [rewrite (bool_decide_true (transition_key t = key)) by done | rewrite (bool_decide_false (transition_key t = key)) by done].
  - cbn. by rewrite andb_false_r.
  - done.
Qed.

(** The removals of the entries of [subs] that satisfy [drop]. *)
Definition removals (drop : list Z -> bool) (subs : list (list Z * FeedSelector)) : list SubscriptionTransition :=
  map (fun p => mkTransition action_remove (snd p)) (List.filter (fun p => drop (fst p)) subs).

Lemma removals_after drop subs key b : keyed subs ->
  after_transitions (removals drop subs) key b = b && negb (drop key && jhas key subs).
Proof using.
  intros [_ Hk]. rewrite after_removals.
  2: { intros t Ht. unfold removals in Ht. apply list_elem_of_fmap in Ht as (p & -> & _). done. }
  f_equal. f_equal. unfold removals. induction subs as [| [k s] subs IH]; cbn; [by rewrite andb_false_r |].
  assert (k = selectorKey s) as -> by exact (Hk (k, s) ltac:(constructor)).
  specialize (IH ltac:(intros p Hp; apply Hk; by constructor)).
  unfold jhas in *. cbn [jget]. destruct (drop (selectorKey s)) eqn:Ed; cbn [map existsb].
  - rewrite IH. unfold transition_key. cbn [selector snd].
    case_decide as E; [rewrite bool_decide_true by done | rewrite bool_decide_false by done]; cbn; [by rewrite E, Ed | done].
  - rewrite IH. case_decide as E; [subst; by rewrite Ed | done].
Qed.

Lemma removals_keys drop subs : keyed subs ->
  NoDup (map transition_key (removals drop subs)) /\
  forall t, t ∈ removals drop subs -> drop (transition_key t) = true /\ jhas (transition_key t) subs = true.
Proof using.
  intros [Hw Hk]. unfold removals. split.
  - rewrite map_map. unfold transition_key. cbn [selector].
    assert (H : forall p, p ∈ List.filter (fun p => drop (fst p)) subs -> p ∈ subs) by (intros p [? _]%list_elem_of_In%filter_In; by apply list_elem_of_In).
    change (List.filter (fun p => drop (fst p)) subs) with (jretain (fun k _ => drop k) subs) in *.
    rewrite (map_ext_in _ fst); [exact (jretain_wf _ _ Hw) |]. intros p Hp. symmetry. apply Hk, H. by apply list_elem_of_In.
  - intros t Ht. apply list_elem_of_fmap in Ht as (p & -> & Hp).
    apply list_elem_of_In, filter_In in Hp as [Hp Hdrop]. apply list_elem_of_In in Hp. unfold transition_key. cbn [selector].
    rewrite <- (Hk p Hp). split; [done |]. apply jhas_elem. apply list_elem_of_fmap. by exists p.
Qed.

(** What the transitions of a step tell a receiver. *)
Record transitions_exact (d d' : t) (ts : list SubscriptionTransition) : Prop := {
  exact_demand key : hasKey key d' = after_transitions ts key (hasKey key d);
  exact_distinct : NoDup (map transition_key ts);
  exact_needed t : t ∈ ts -> hasKey (transition_key t) d' <> hasKey (transition_key t) d
}.

Lemma exact_none d d' : (forall key, hasKey key d' = hasKey key d) -> transitions_exact d d' [].
Proof using. intros H. split; [done | apply base.NoDup_nil_2 | by intros t ?%elem_of_nil]. Qed.

Lemma exact_one d d' tr : (forall key, hasKey key d' = after_transitions [tr] key (hasKey key d)) ->
  hasKey (transition_key tr) d' <> hasKey (transition_key tr) d -> transitions_exact d d' [tr].
Proof using. intros H Hne. split; [done | apply list.NoDup_singleton | by intros t ->%list_elem_of_singleton]. Qed.

Lemma add_exact c s d : transitions_exact d (fst (add c s d)) (option_list (snd (add c s d))).
Proof using.
  cbn [add snd]. destruct (hasKey (selectorKey s) d) eqn:E; cbn [option_list].
  - apply exact_none. intros key. rewrite hasKey_add.
    destruct (bool_decide_reflect (key = selectorKey s)); [by subst | done].
  - apply exact_one.
    + intros key. rewrite hasKey_add. cbn [after_transitions fold_left transition_key selector action].
      case_decide; [rewrite bool_decide_true by done | rewrite bool_decide_false by done]; done.
    + unfold transition_key. cbn [selector]. rewrite hasKey_add, bool_decide_true, E by done. done.
Qed.

Lemma remove_exact c s d : local_wf d -> transitions_exact d (fst (remove c s d)) (option_list (snd (remove c s d))).
Proof using.
  intros Hd. destruct (jget c (byClient d)) as [subs |] eqn:Hc; [| unfold remove; rewrite Hc; by apply exact_none].
  destruct (jhas (selectorKey s) subs) eqn:Hh; [| unfold remove; rewrite Hc, Hh; by apply exact_none].
  assert (Hfst := fun key => hasKey_remove c s d subs key Hd Hc Hh).
  assert (Hsnd : snd (remove c s d) = if hasKey (selectorKey s) (fst (remove c s d)) then None else Some (mkTransition action_remove s))
    by (unfold remove; by rewrite Hc, Hh).
  assert (Hself := Hfst (selectorKey s)). rewrite bool_decide_true in Hself by done. cbn [negb andb orb] in Hself.
  assert (Hold := fun key => hasKey_split c key d). rewrite Hc in Hold.
  rewrite Hsnd, Hself. destruct (others c (selectorKey s) d) eqn:Eo; cbn [option_list].
  - apply exact_none. intros key. rewrite Hfst, Hold.
    destruct (bool_decide_reflect (key = selectorKey s)); [subst; by rewrite Eo, !orb_true_r | done].
  - apply exact_one.
    + intros key. rewrite Hfst, Hold. cbn [after_transitions fold_left transition_key selector action].
      unfold transition_key. cbn [selector].
      case_decide as E; [subst; rewrite bool_decide_true by done | rewrite bool_decide_false by done]; [by rewrite Eo | done].
    + unfold transition_key. cbn [selector]. by rewrite Hself, Hold, Hh, Eo.
Qed.

Lemma disconnect_exact c d : local_wf d -> transitions_exact d (fst (disconnect c d)) (snd (disconnect c d)).
Proof using.
  intros [Hw Hd]. unfold disconnect. destruct (jget c (byClient d)) as [subs |] eqn:Hc; [| by apply exact_none].
  destruct (Hd c subs (jget_elem_of _ _ _ Hc)) as [Hk _]. cbn [fst snd].
  change (map _ _) with (removals (fun key => negb (hasKey key (mk (jdel c (byClient d))))) subs).
  assert (Hold := fun key => hasKey_split c key d). rewrite Hc in Hold.
  split.
  - intros key. rewrite removals_after by done. rewrite Hold. unfold others.
    change (existsb (jhas key) (jvalues (jdel c (byClient d)))) with (hasKey key (mk (jdel c (byClient d)))).
    by destruct (jhas key subs), (hasKey key _).
  - by apply removals_keys.
  - intros t Ht. apply removals_keys in Ht as [H1 H2]; [| done]. rewrite Hold, H2. by apply negb_true_iff in H1 as ->.
Qed.

Lemma clear_exact d : local_wf d -> transitions_exact d (fst (clear d)) (snd (clear d)).
Proof using.
  intros Hd. pose proof (aggregate_keyed d Hd) as Hk. unfold clear. cbn [fst snd].
  assert (E : map (mkTransition action_remove) (jvalues (aggregate d)) = removals (fun _ => true) (aggregate d)).
  { unfold removals, jvalues. rewrite map_map. f_equal. induction (aggregate d) as [| p l IH]; [done |].
    cbn. f_equal. apply IH. destruct Hk as [Hw Hk]. split; [by apply jwf_tail in Hw |]. intros q Hq. apply Hk. by constructor. }
  rewrite E. split.
  - intros key. rewrite removals_after by done. rewrite aggregate_has. by destruct (hasKey key d).
  - by apply removals_keys.
  - intros t Ht. apply removals_keys in Ht as [_ H2]; [| done]. rewrite aggregate_has in H2. by rewrite H2.
Qed.
End local.

(** What a local client changes reaches the Gateway exactly. From any state
    the Asset can reach, the transitions a step returns, applied to the set of
    demanded selectors, give the new set; each concerns a different selector,
    and none is sent that changes nothing (a selector another client still
    wants is not removed, one already wanted is not added again). *)
Theorem local_transitions_exact o d : Local.reachable d ->
  transitions_exact d (fst (Local.step o d)) (snd (Local.step o d)).
Proof.
  intros Hd%reachable_wf. destruct o as [c s | c s | c |]; cbn [Local.step].
  - pose proof (add_exact c s d). by destruct (Local.add c s d).
  - pose proof (remove_exact c s d Hd). by destruct (Local.remove c s d).
  - by apply disconnect_exact.
  - by apply clear_exact.
Qed.

Lemma local_transitions_exact_witness :
  let d := fst (Local.step (Local.op_add (js "b") (all_of_type rt_task)) (fst (Local.step (Local.op_add (js "a") (all_of_type rt_task)) Local.empty))) in
  snd (Local.step (Local.op_remove (js "a") (all_of_type rt_task)) d) = [] /\
  transitions_exact d (fst (Local.step (Local.op_remove (js "a") (all_of_type rt_task)) d)) [].
Proof.
  cbv zeta. split; [vm_compute; reflexivity |].
  refine (local_transitions_exact (Local.op_remove (js "a") (all_of_type rt_task)) _ _).
  do 2 apply Local.reach_step. apply Local.reach_empty.
Defined.

(** ** Leases at the Gateway *)

Section gateway.
Import Gateway.

(** Maps have distinct keys, and no lease outlives the longest one granted. *)
Record gateway_wf (now : Z) (g : t) : Prop := {
  wf_now : 0 <= now;
  wf_sources : jwf (bySource g);
  wf_source : forall src leases, (src, leases) ∈ bySource g ->
    jwf leases /\ forall p, p ∈ leases -> expiresAt (snd p) <= now + SUBSCRIPTION_LEASE_MS;
  wf_active : jwf (activeSelectors g);
  wf_demanded : forall key, isDemanded key now (bySource g) = true -> jhas key (activeSelectors g) = true
}.

Lemma live_empty now key : 0 <= now -> live now key [] = false.
Proof using. intros. unfold live. cbn. by destruct (Z.ltb_spec now 0); [lia |]. Qed.

Lemma live_wait now now' key leases : now <= now' -> live now' key leases = true -> live now key leases = true.
Proof using. unfold live. rewrite !Z.ltb_lt. lia. Qed.

Lemma live_jset now key key' lease leases :
  live now key (jset key' lease leases) = if decide (key = key') then now <? expiresAt lease else live now key leases.
Proof using. unfold live. rewrite jget_jset. by case_decide. Qed.

Lemma live_jdel now key key' leases : 0 <= now -> jwf leases ->
  live now key (jdel key' leases) = negb (bool_decide (key = key')) && live now key leases.
Proof using.
  intros Hn Hw. unfold live. rewrite jget_jdel by done.
  case_decide; [rewrite bool_decide_true by done | rewrite bool_decide_false by done]; [| done].
  cbn. by destruct (Z.ltb_spec now 0); [lia |].
Qed.

Lemma isDemanded_wait now now' key sources : now <= now' ->
  isDemanded key now' sources = true -> isDemanded key now sources = true.
Proof using.
  unfold isDemanded. intros Hn. rewrite !existsb_exists. intros (x & Hin & Hx). exists x. split; [done |].
  by apply live_wait with now'.
Qed.

(** The leases [sourceNodeID] holds after a transition. *)
Definition renewed (tr : SubscriptionTransition) (now : Z) (leases : list (list Z * Lease)) : list (list Z * Lease) :=
  match action tr with
  | action_remove => jdel (transition_key tr) leases
  | _ => jset (transition_key tr) (mkLease (selector tr) (now + SUBSCRIPTION_LEASE_MS)) leases
  end.

Definition held (src : list Z) (g : t) : list (list Z * Lease) := default [] (jget src (bySource g)).

Lemma held_ok now g src : gateway_wf now g ->
  jwf (held src g) /\ forall p, p ∈ held src g -> expiresAt (snd p) <= now + SUBSCRIPTION_LEASE_MS.
Proof using.
  intros Hg. unfold held. destruct (jget src (bySource g)) as [leases |] eqn:E.
  - by apply (wf_source _ _ Hg src), jget_elem_of.
  - split; [apply jwf_nil | by intros p ?%elem_of_nil].
Qed.

Lemma renewed_ok now tr leases :
  jwf leases -> (forall p, p ∈ leases -> expiresAt (snd p) <= now + SUBSCRIPTION_LEASE_MS) ->
  jwf (renewed tr now leases) /\ forall p, p ∈ renewed tr now leases -> expiresAt (snd p) <= now + SUBSCRIPTION_LEASE_MS.
Proof using.
  intros Hw Hp. unfold renewed. destruct (action tr); split; eauto with jsmap; intros p Hin;
    first [by apply Hp, elem_of_jdel_weak with (transition_key tr) | by destruct (elem_of_jset _ _ _ _ Hin) as [-> |]; [| by apply Hp]].
Qed.

Lemma live_renewed now tr leases key : 0 <= now -> jwf leases ->
  live now key (renewed tr now leases) =
    if decide (key = transition_key tr) then negb (bool_decide (action tr = action_remove)) else live now key leases.
Proof using.
  intros Hn Hw. assert (Hl : (now <? now + SUBSCRIPTION_LEASE_MS) = true) by (apply Z.ltb_lt; unfold SUBSCRIPTION_LEASE_MS; lia).
  unfold renewed. destruct (action tr); rewrite ?live_jset, ?live_jdel by done; case_decide; cbn; try done.
  - by rewrite bool_decide_true.
  - by rewrite bool_decide_false.
Qed.

(** The sources after [apply], seen through any lookup. *)
Lemma apply_sources src tr now g : gateway_wf now g ->
  bySource (fst (apply src tr now g)) =
    (if jsize (renewed tr now (held src g)) =? 0 then jdel src (bySource g) else jset src (renewed tr now (held src g)) (bySource g)).
Proof using. done. Qed.

Lemma apply_held src tr now g src' : gateway_wf now g ->
  held src' (fst (apply src tr now g)) = if decide (src' = src) then renewed tr now (held src g) else held src' g.
Proof using.
  intros Hg. unfold held at 1. rewrite apply_sources by done.
  destruct (Z.eqb_spec (jsize (renewed tr now (held src g))) 0) as [E | E].
  - rewrite jget_jdel by apply Hg. case_decide; [| done]. apply jsize_zero in E. by rewrite E.
  - rewrite jget_jset. by case_decide.
Qed.

Lemma isDemanded_apply src tr now g key : gateway_wf now g ->
  isDemanded key now (bySource (fst (apply src tr now g))) =
    live now key (renewed tr now (held src g)) || existsb (live now key) (jvalues (jdel src (bySource g))).
Proof using.
  intros Hg. rewrite apply_sources by done. unfold isDemanded.
  destruct (Z.eqb_spec (jsize (renewed tr now (held src g))) 0) as [E | E].
  - apply jsize_zero in E. rewrite E, live_empty by apply Hg. done.
  - apply existsb_jset.
Qed.

Lemma isDemanded_held src now g key : 0 <= now ->
  isDemanded key now (bySource g) = live now key (held src g) || existsb (live now key) (jvalues (jdel src (bySource g))).
Proof using.
  intros Hn. unfold isDemanded, held. rewrite (existsb_jdel _ src).
  destruct (jget src (bySource g)); [done |]. cbn [from_option Datatypes.id]. by rewrite live_empty.
Qed.

Lemma active_apply src tr now g key : gateway_wf now g ->
  jhas key (activeSelectors (fst (apply src tr now g))) =
    if decide (key = transition_key tr) then isDemanded key now (bySource (fst (apply src tr now g)))
    else jhas key (activeSelectors g).
Proof using.
  intros Hg. unfold apply. cbn [fst activeSelectors bySource]. fold (transition_key tr).
  case_decide as E.
  - subst key. destruct (isDemanded (transition_key tr) now _); [by rewrite jhas_jset, bool_decide_true |].
    rewrite jhas_jdel, bool_decide_true by (done || apply Hg). done.
  - destruct (isDemanded (transition_key tr) now _); [by rewrite jhas_jset, bool_decide_false |].
    rewrite jhas_jdel, bool_decide_false by (done || apply Hg). done.
Qed.

Lemma apply_wf src tr now g : gateway_wf now g -> gateway_wf now (fst (apply src tr now g)).
Proof using.
  intros Hg. pose proof (held_ok now g src Hg) as [Hw Hp]. destruct (renewed_ok now tr _ Hw Hp) as [Hw' Hp'].
  split; [apply Hg | | | |].
  - rewrite apply_sources by done. destruct (_ =? 0); [apply jdel_wf | apply jset_wf]; apply Hg.
  - rewrite apply_sources by done. destruct (_ =? 0); intros src' leases Hin.
    + apply elem_of_jdel_weak in Hin. by apply (wf_source _ _ Hg src').
    + destruct (elem_of_jset _ _ _ _ Hin) as [[= -> ->] | Hold]; [done | by apply (wf_source _ _ Hg src')].
  - unfold apply. cbn [fst activeSelectors]. destruct (isDemanded _ _ _); [apply jset_wf | apply jdel_wf]; apply Hg.
  - intros key Hd. rewrite active_apply by done. case_decide as E; [done |].
    apply (wf_demanded _ _ Hg). rewrite (isDemanded_held src) by apply Hg.
    rewrite isDemanded_apply, live_renewed, decide_False in Hd by (done || apply Hg). done.
Qed.

(** *** Expiry *)

Definition pruned (now : Z) (leases : list (list Z * Lease)) : list (list Z * Lease) :=
  jretain (fun _ lease => negb (expiresAt lease <=? now)) leases.

Definition kept (now : Z) (sources : list (list Z * list (list Z * Lease))) : list (list Z * list (list Z * Lease)) :=
  jretain (fun _ source => negb (jsize source =? 0)) (jmap_values (fun _ => pruned now) sources).

Lemma expire_sources now g : bySource (fst (expire now g)) = kept now (bySource g).
Proof using. done. Qed.

Lemma live_pruned now now' key leases : 0 <= now <= now' -> jwf leases ->
  live now' key (pruned now leases) = live now' key leases.
Proof using.
  intros Hn Hw. unfold live, pruned. rewrite jget_jretain by done. destruct (jget key leases) as [lease |]; [| done].
  destruct (Z.leb_spec (expiresAt lease) now); cbn; [| done].
  by destruct (Z.ltb_spec now' 0), (Z.ltb_spec now' (expiresAt lease)); try lia.
Qed.

Lemma kept_spec now sources : jwf sources ->
  jwf (kept now sources) /\
  forall src, jget src (kept now sources) =
    match jget src sources with
    | Some leases => if jsize (pruned now leases) =? 0 then None else Some (pruned now leases)
    | None => None
    end.
Proof using.
  intros Hw. assert (Hm : jwf (jmap_values (fun _ => pruned now) sources)) by (unfold jwf; by rewrite jkeys_jmap_values).
  split; [by apply jretain_wf |]. intros src. unfold kept. rewrite jget_jretain, jget_jmap_values by done.
  destruct (jget src sources); cbn; [by destruct (jsize _ =? 0) | done].
Qed.

Lemma expire_held now g src : gateway_wf now g -> held src (fst (expire now g)) = pruned now (held src g).
Proof using.
  intros Hg. unfold held. rewrite expire_sources. destruct (kept_spec now (bySource g) (wf_sources _ _ Hg)) as [_ ->].
  destruct (jget src (bySource g)) as [leases |]; [| done].
  destruct (Z.eqb_spec (jsize (pruned now leases)) 0) as [E |]; [| done]. by rewrite <- (jsize_zero _ E).
Qed.

Lemma isDemanded_spec key now sources : 0 <= now -> jwf sources ->
  isDemanded key now sources = true <-> exists src, live now key (default [] (jget src sources)) = true.
Proof using.
  intros Hn Hw. unfold isDemanded. rewrite existsb_exists. split.
  - intros (leases & Hin & Hl). apply list_elem_of_In, list_elem_of_fmap in Hin as ([src leases'] & -> & Hin).
    exists src. by rewrite (jget_of_elem _ _ _ Hw Hin).
  - intros [src Hl]. destruct (jget src sources) as [leases |] eqn:E; cbn in Hl; [| by rewrite live_empty in Hl].
    exists leases. split; [| done]. apply list_elem_of_In, list_elem_of_fmap. exists (src, leases).
    split; [done | by apply jget_elem_of].
Qed.

(** Pruning removes no live lease. *)
Lemma isDemanded_expire now now' g key : gateway_wf now g -> now <= now' ->
  isDemanded key now' (kept now (bySource g)) = isDemanded key now' (bySource g).
Proof using.
  intros Hg Hn. pose proof (wf_now _ _ Hg). apply eq_true_iff_eq.
  rewrite !isDemanded_spec by first [lia | apply Hg | apply kept_spec, Hg].
  apply exist_proper. intros src. change (default [] (jget src (bySource g))) with (held src g).
  change (default [] (jget src (kept now (bySource g)))) with (held src (fst (expire now g))).
  rewrite expire_held by done. rewrite live_pruned by (first [lia | apply (held_ok now g src Hg)]). done.
Qed.

Lemma aggregate_demanded now key sources : 0 <= now -> (forall leases, leases ∈ jvalues sources -> jwf leases) ->
  jhas key (aggregate now sources) = isDemanded key now sources.
Proof using.
  intros Hn. unfold aggregate, isDemanded. generalize (jvalues sources) as l. clear sources. intros l Hl.
  set (add := fun (result : list (list Z * FeedSelector)) (p : list Z * Lease) =>
    if now <? expiresAt (snd p) then jset (fst p) (lease_selector (snd p)) result else result).
  assert (Hone : forall leases result, jwf leases -> jhas key (fold_left add leases result) = jhas key result || live now key leases).
  { induction leases as [| [k lease] leases IH]; intros result Hw; [by rewrite live_empty, orb_false_r by done |].
    apply jwf_cons in Hw as [Hk Hw]. cbn [fold_left]. rewrite IH by done. unfold add at 1. cbn [fst snd].
    unfold live at 2. cbn [jget]. case_decide as E.
    - subst k. assert (live now key leases = false) as ->.
      { unfold live. apply jget_None in Hk. rewrite Hk. apply Z.ltb_ge. lia. }
      destruct (now <? expiresAt lease); [by rewrite jhas_jset, bool_decide_true, !orb_true_r by done | done].
    - destruct (now <? expiresAt lease); [by rewrite jhas_jset, bool_decide_false | done]. }
  assert (H : forall result, jhas key (fold_left (fun result source => fold_left add source result) l result) =
    jhas key result || existsb (live now key) l).
  { induction l as [| leases l IH]; intros result; cbn [fold_left existsb]; [by rewrite orb_false_r |].
    rewrite IH by (intros ls Hin; apply Hl; by constructor). rewrite Hone by (apply Hl; constructor). by rewrite orb_assoc. }
  apply H.
Qed.

Lemma jdel_all (key : list Z) (gone : list (list Z * FeedSelector)) : forall active : list (list Z * FeedSelector), jwf active ->
  jwf (fold_left (fun active p => jdel (fst p) active) gone active) /\
  jhas key (fold_left (fun active p => jdel (fst p) active) gone active) = jhas key active && negb (jhas key gone).
Proof using.
  induction gone as [| [k s] gone IH]; intros active Hw; cbn [fold_left]; [split; [done | by rewrite andb_true_r] |].
  destruct (IH (jdel k active) (jdel_wf k active Hw)) as [H1 H2]. split; [done |]. cbn [fst]. rewrite H2, jhas_jdel by done.
  rewrite jhas_cons. by destruct (bool_decide (key = k)), (jhas key active), (jhas key gone).
Qed.

Lemma kept_leases now g leases : gateway_wf now g -> leases ∈ jvalues (kept now (bySource g)) ->
  jwf leases /\ forall p, p ∈ leases -> expiresAt (snd p) <= now + SUBSCRIPTION_LEASE_MS.
Proof using.
  intros Hg Hin. apply list_elem_of_fmap in Hin as ([src leases'] & -> & Hin). cbn.
  destruct (kept_spec now (bySource g) (wf_sources _ _ Hg)) as [Hw Hget].
  apply (jget_of_elem _ _ _ Hw) in Hin. rewrite Hget in Hin.
  destruct (jget src (bySource g)) as [old |] eqn:E; [| done]. destruct (jsize (pruned now old) =? 0); [done |].
  injection Hin as <-. destruct (wf_source _ _ Hg src old (jget_elem_of _ _ _ E)) as [Ho Hp].
  split; [by apply jretain_wf |]. intros p [Hin _]%elem_of_jretain. by apply Hp.
Qed.

(** After an expiry exactly the demanded selectors are active. *)
Lemma active_expire now g key : gateway_wf now g ->
  jwf (activeSelectors (fst (expire now g))) /\
  jhas key (activeSelectors (fst (expire now g))) = isDemanded key now (bySource g).
Proof using.
  intros Hg. unfold expire. cbn [fst activeSelectors].
  fold (pruned now). change (jretain _ (jmap_values (fun _ => jretain _) (bySource g))) with (kept now (bySource g)).
  set (after := aggregate now (kept now (bySource g))).
  assert (Ha : forall k, jhas k after = isDemanded k now (bySource g)).
  { intros k. unfold after. rewrite aggregate_demanded.
    - rewrite isDemanded_expire by (done || lia). done.
    - apply Hg.
    - intros leases Hin. by apply (kept_leases now g). }
  change (List.filter _ (activeSelectors g)) with (jretain (fun k _ => negb (jhas k after)) (activeSelectors g)).
  destruct (jdel_all key (jretain (fun k _ => negb (jhas k after)) (activeSelectors g)) _ (wf_active _ _ Hg)) as [H1 H2].
  split; [done |]. rewrite H2, (jhas_jretain (fun k => negb (jhas k after))) by apply Hg. rewrite <- Ha.
  pose proof (wf_demanded _ _ Hg key) as Hact. rewrite <- Ha in Hact.
  destruct (jhas key after); [by rewrite (Hact eq_refl) | by destruct (jhas key (activeSelectors g))].
Qed.

Lemma expire_wf now g : gateway_wf now g -> gateway_wf now (fst (expire now g)).
Proof using.
  intros Hg. destruct (kept_spec now (bySource g) (wf_sources _ _ Hg)) as [Hw _]. split.
  - apply Hg.
  - done.
  - intros src leases Hin. apply (kept_leases now g); [done |]. apply list_elem_of_fmap. by exists (src, leases).
  - by apply (active_expire now g []).
  - intros key. rewrite expire_sources, isDemanded_expire by (done || lia). by rewrite (proj2 (active_expire now g key Hg)).
Qed.

Lemma gateway_reachable_wf now g : reachable now g -> gateway_wf now g.
Proof using.
  induction 1 as [now Hn | now now' g _ IH Hn | now g src tr _ IH | now g _ IH].
  - split; try done; try apply jwf_nil. intros src leases ?%elem_of_nil. done.
  - split; [pose proof (wf_now _ _ IH); lia | apply IH | | apply IH |].
    + intros src leases Hin. destruct (wf_source _ _ IH src leases Hin) as [Hw Hp]. split; [done |].
      intros p Hin'. specialize (Hp p Hin'). lia.
    + intros key Hd. apply (wf_demanded _ _ IH). by apply isDemanded_wait with now'.
  - by apply apply_wf.
  - by apply expire_wf.
Qed.
End gateway.

(** One transition changes the Gateway's feeds by exactly its effect on the
    demand. At any reachable state the selector of the transition is active
    afterwards if and only if some source then holds an unexpired lease for it
    (the sender does unless it removed it, any other source's lease counts);
    the activity of every other selector is unchanged; and the returned flag
    says whether the selector's activity changed. *)
Theorem gateway_apply_exact now g src tr key : Gateway.reachable now g ->
  let '(g', changed) := Gateway.apply src tr now g in
  (key = transition_key tr ->
     jhas key (Gateway.activeSelectors g') = true <->
     action tr <> action_remove \/
     exists other, other <> src /\ Gateway.live now key (held other g) = true) /\
  (key <> transition_key tr -> jhas key (Gateway.activeSelectors g') = jhas key (Gateway.activeSelectors g)) /\
  changed = negb (Bool.eqb (jhas (transition_key tr) (Gateway.activeSelectors g))
                           (jhas (transition_key tr) (Gateway.activeSelectors g'))).
Proof.
  intros Hg%gateway_reachable_wf. pose proof (wf_now _ _ Hg) as Hn. pose proof (apply_wf src tr now g Hg) as Hg'.
  pose proof (active_apply src tr now g key Hg) as Hact.
  pose proof (active_apply src tr now g (transition_key tr) Hg) as Hself. rewrite decide_True in Hself by done.
  assert (Hchanged : snd (Gateway.apply src tr now g) =
    negb (Bool.eqb (jhas (transition_key tr) (Gateway.activeSelectors g)) (Gateway.isDemanded (transition_key tr) now (Gateway.bySource (fst (Gateway.apply src tr now g)))))) by done.
  pose proof (fun s => apply_held src tr now g s Hg) as Hheld.
  destruct (Gateway.apply src tr now g) as [g' changed]. cbn [fst snd] in *.
  split; [| split; [| by rewrite Hchanged, Hself]].
  - intros ->. rewrite Hself, isDemanded_spec by (done || apply Hg').
    pose proof (live_renewed now tr (held src g) (transition_key tr) Hn (proj1 (held_ok now g src Hg))) as Hl.
    rewrite decide_True in Hl by done. split.
    + intros [s Hs]. change (Gateway.live now (transition_key tr) (held s g') = true) in Hs. rewrite Hheld in Hs.
      destruct (decide (s = src)); [left | right; by exists s]. rewrite Hl in Hs.
      by destruct (bool_decide_reflect (action tr = action_remove)).
    + intros [Ha | (s & Hne & Hs)]; [exists src | exists s]; change (default [] (jget ?x (Gateway.bySource g'))) with (held x g');
        rewrite Hheld; [rewrite decide_True by done; by rewrite Hl, bool_decide_false | by rewrite decide_False].
  - intros Hne. rewrite Hact. by rewrite decide_False.
Qed.

Definition two_leases : Gateway.t :=
  fst (Gateway.apply (js "a2") (mkTransition action_add (all_of_type rt_task)) 5
    (fst (Gateway.apply (js "a1") (mkTransition action_add (all_of_type rt_task)) 5 Gateway.empty))).

Lemma two_leases_reachable : Gateway.reachable 5 two_leases.
Proof. do 2 apply Gateway.reach_apply. by apply Gateway.reach_empty. Qed.

Lemma gateway_apply_exact_witness :
  let tr := mkTransition action_remove (all_of_type rt_task) in
  let '(g', changed) := Gateway.apply (js "a1") tr 5 two_leases in
  jhas (transition_key tr) (Gateway.activeSelectors g') = true /\ changed = false.
Proof.
  pose proof (gateway_apply_exact 5 two_leases (js "a1") (mkTransition action_remove (all_of_type rt_task))
    (transition_key (mkTransition action_remove (all_of_type rt_task))) two_leases_reachable) as H.
  cbv zeta. destruct (Gateway.apply _ _ _ _) as [g' changed] eqn:E. destruct H as (H1 & _ & ->).
  assert (Ht : jhas (transition_key (mkTransition action_remove (all_of_type rt_task))) (Gateway.activeSelectors g') = true).
  { apply (H1 eq_refl). right. exists (js "a2"). split; [by vm_compute |]. vm_compute. reflexivity. }
  split; [done |]. rewrite Ht. vm_compute. reflexivity.
Defined.

(** Expiry closes exactly the feeds nobody demands. After [expire] the
    active selectors are those some source holds an unexpired lease for, every
    unexpired lease is kept, and the returned selectors are the ones that were
    active and are no longer demanded. *)
Theorem gateway_expire_exact now g key src : Gateway.reachable now g ->
  let '(g', expired) := Gateway.expire now g in
  jhas key (Gateway.activeSelectors g') = Gateway.isDemanded key now (Gateway.bySource g) /\
  (forall t, now <= t -> Gateway.live t key (held src g') = Gateway.live t key (held src g)) /\
  (forall s, s ∈ expired -> exists k, jget k (Gateway.activeSelectors g) = Some s /\
     Gateway.isDemanded k now (Gateway.bySource g) = false) /\
  (forall s, jget key (Gateway.activeSelectors g) = Some s ->
     Gateway.isDemanded key now (Gateway.bySource g) = false -> s ∈ expired).
Proof.
  intros Hg%gateway_reachable_wf. pose proof (wf_now _ _ Hg) as Hn.
  pose proof (active_expire now g key Hg) as [_ Hact]. pose proof (expire_held now g src Hg) as Hheld.
  assert (Hexp : snd (Gateway.expire now g) =
    map snd (jretain (fun k _ => negb (Gateway.isDemanded k now (Gateway.bySource g))) (Gateway.activeSelectors g))).
  { unfold Gateway.expire. cbn [snd]. f_equal. apply filter_ext. intros [k s]. cbn [fst]. f_equal.
    rewrite aggregate_demanded; [by apply isDemanded_expire | done | intros leases Hin; by apply (kept_leases now g)]. }
  destruct (Gateway.expire now g) as [g' expired]. cbn [fst snd] in *. subst expired.
  split; [done |]. split; [| split].
  - intros t Ht. rewrite Hheld. apply live_pruned; [lia | by apply (held_ok now g src)].
  - intros s Hs. apply list_elem_of_fmap in Hs as ([k s'] & -> & Hin). apply elem_of_jretain in Hin as [Hin Hk]. cbn in *.
    exists k. apply negb_true_iff in Hk. split; [| done]. by apply jget_of_elem; [apply Hg |].
  - intros s Hs Hk. apply list_elem_of_fmap. exists (key, s). split; [done |]. apply elem_of_jretain. cbn.
    rewrite Hk. split; [by apply jget_elem_of | done].
Qed.

Lemma gateway_expire_exact_witness :
  snd (Gateway.expire 90005 two_leases) = [all_of_type rt_task] /\
  jhas (selectorKey (all_of_type rt_task)) (Gateway.activeSelectors (fst (Gateway.expire 90005 two_leases))) =
    Gateway.isDemanded (selectorKey (all_of_type rt_task)) 90005 (Gateway.bySource two_leases).
Proof.
  split; [vm_compute; reflexivity |].
  pose proof (gateway_expire_exact 90005 two_leases (selectorKey (all_of_type rt_task)) (js "a1")
    (Gateway.reach_wait 5 90005 two_leases two_leases_reachable ltac:(lia))) as H.
  destruct (Gateway.expire 90005 two_leases) as [g' expired]. exact (proj1 H).
Defined.

(** ** A lease lasts until it expires or is removed *)

Inductive gateway_op := g_apply (src : list Z) (tr : SubscriptionTransition) | g_expire.

Definition gateway_step (now : Z) (o : gateway_op) (g : Gateway.t) : Gateway.t :=
  match o with
  | g_apply src tr => fst (Gateway.apply src tr now g)
  | g_expire => fst (Gateway.expire now g)
  end.

(** Timed operations, in order; none runs before the one it follows. *)
Fixpoint gateway_run (now : Z) (ops : list (Z * gateway_op)) (g : Gateway.t) : option (Z * Gateway.t) :=
  match ops with
  | [] => Some (now, g)
  | (at_, o) :: ops => if now <=? at_ then gateway_run at_ ops (gateway_step at_ o g) else None
  end.

Definition removes (src : list Z) (s : FeedSelector) (o : gateway_op) : Prop :=
  match o with
  | g_apply src' tr => src' = src /\ transition_key tr = selectorKey s /\ action tr = action_remove
  | g_expire => False
  end.

Lemma gateway_step_has now g o src s t :
  gateway_wf now g -> now <= t -> ~ removes src s o -> Gateway.has src s t g = true ->
  Gateway.has src s t (gateway_step now o g) = true.
Proof.
  intros Hg Ht Ho Hhas. pose proof (wf_now _ _ Hg). pose proof (held_ok now g src Hg) as [Hw Hp].
  unfold Gateway.has in *. fold (held src g) in Hhas. destruct o as [src' tr |]; cbn [gateway_step].
  - fold (held src (fst (Gateway.apply src' tr now g))). rewrite apply_held by done. case_decide as E; [subst src' | done].
    assert (Hnew : selectorKey s = transition_key tr -> t < now + SUBSCRIPTION_LEASE_MS).
    { intros _. unfold Gateway.live in Hhas. destruct (jget (selectorKey s) (held src g)) as [lease |] eqn:El; [| lia].
      apply jget_elem_of, Hp in El. cbn in El. lia. }
    unfold renewed. cbn in Ho. destruct (action tr) eqn:Ea.
    1,2: rewrite live_jset; case_decide as Ek; [apply Z.ltb_lt; by apply Hnew | done].
    rewrite live_jdel by (done || lia). rewrite bool_decide_false; [done |]. intros Ek. by apply Ho.
  - fold (held src (fst (Gateway.expire now g))). rewrite expire_held by done. by rewrite live_pruned.
Qed.

(** Demand survives what does not end it: once a source's selector has a
    lease that is unexpired at [t], every later sequence of transitions and
    expiries up to [t] keeps it demanded, as long as that source does not
    remove that selector. With leases of 90 s and renewals every 30 s, two lost
    renewals in a row therefore change nothing. *)
Theorem lease_persists ops : forall now g src s t now' g',
  Gateway.reachable now g -> Gateway.has src s t g = true -> (forall p, p ∈ ops -> ~ removes src s (snd p)) ->
  gateway_run now ops g = Some (now', g') -> now' <= t -> Gateway.has src s t g' = true.
Proof.
  assert (Hmono : forall ops now g now' g', gateway_run now ops g = Some (now', g') -> now <= now').
  { clear. induction ops as [| [at_ o] ops IH]; cbn; intros now g now' g' H; [injection H as -> ->; lia |].
    destruct (Z.leb_spec now at_); [| done]. apply IH in H. lia. }
  induction ops as [| [at_ o] ops IH]; intros now g src s t now' g' Hg Hhas Ho Hrun Ht; cbn in Hrun; [by injection Hrun as -> -> |].
  destruct (Z.leb_spec now at_); [| done]. pose proof (Hmono _ _ _ _ _ Hrun).
  apply (Gateway.reach_wait now at_) in Hg; [| done].
  eapply (IH at_ (gateway_step at_ o g)); [| | | exact Hrun | done].
  - destruct o; cbn [gateway_step]; by constructor.
  - apply gateway_step_has; [by apply gateway_reachable_wf | lia | apply (Ho (at_, o)); constructor | done].
  - intros p Hp. apply Ho. by constructor.
Qed.

Lemma lease_persists_witness :
  let ops := [(30000, g_apply (js "a2") (mkTransition action_remove (all_of_type rt_task))); (90000, g_expire)] in
  exists g', gateway_run 5 ops two_leases = Some (90000, g') /\ Gateway.has (js "a1") (all_of_type rt_task) 90004 g' = true.
Proof.
  eexists. split; [vm_compute; reflexivity |].
  eapply (lease_persists [(30000, g_apply (js "a2") (mkTransition action_remove (all_of_type rt_task))); (90000, g_expire)] 5 two_leases _ _ 90004 90000).
  - exact two_leases_reachable.
  - vm_compute. reflexivity.
  - intros p Hp. rewrite !elem_of_cons in Hp. destruct Hp as [-> | [-> | Hp]]; cbn; [by intros [? _] | tauto | by apply elem_of_nil in Hp].
  - vm_compute. reflexivity.
  - lia.
Defined.
