(* ===== verification/Frame.v ===== *)
(** * Link frames ([frame.ts])

    Encoding a payload into frames of at most 233 bytes under the seven frame
    encodings, and decoding one frame. *)

From Stdlib Require Import ZArith Lia String.
From stdpp Require Import base list option.
From S2P Require Import Prelude JsMap BinaryIO Wtf8 Json Utf8Text BinaryCodec CompactValue CompactCodec Base64 Compression LinkTypes.

Definition MESHTASTIC_APPLICATION_PAYLOAD_BYTES : Z := 233.
Definition MAX_LINK_MESSAGE_BYTES : Z := 128 * 1024.
Definition LINK_PROTOCOL_REVISION : Z := 1.

Inductive FrameEncoding :=
  | canonical_json | deflate_v1 | deflate_v2 | deflate_v3 | binary_v1 | message_v1 | message_v2.

#[export] Instance FrameEncoding_eq_dec : EqDecision FrameEncoding.
Proof. solve_decision. Defined.

Definition DEFLATE_V1_MARKER : Z := 0xa2.
Definition DEFLATE_V2_MARKER : Z := 0xa3.
Definition DEFLATE_V3_MARKER : Z := 0xa4.
Definition BINARY_V1_MARKER : Z := 0xa5.
Definition MESSAGE_V1_MARKER : Z := 0xa6.
Definition METHOD_FRAME_MARKER : Z := 0xa7.

Record ReceiptIdentity := mkReceipt { receipt_operation_id : list Z; receipt_message_id : list Z }.

(** [FrameIdentity]: a [LinkFrame] without its chunk. *)
Record FrameIdentity := mkIdentity {
  revision : Z;
  message_type : LinkMessageType;
  source : LinkNode;
  destination : option LinkNode;
  source_generation : Z;
  service_session : list Z;
  source_sequence : Z;
  operation_id : list Z;
  message_id : list Z;
  receipt : option ReceiptIdentity;
  priority : MessagePriority
}.

Record LinkFrame := mkFrame {
  identity : FrameIdentity;
  chunk_index : Z;
  chunk_count : Z;
  frame_payload : list Z
}.

(** The wire object: [k] and [y] are strings, [p] is base64url text. *)
Record CompactFrame := mkCompact {
  c_v : Z; c_k : list Z; c_s : list Z; c_d : option (list Z); c_g : Z; c_x : list Z; c_q : Z;
  c_o : list Z; c_m : list Z; c_y : list Z; c_i : Z; c_n : Z; c_p : list Z;
  c_receipt : option ReceiptIdentity
}.

Definition MESSAGE_TYPE_CODES (t : LinkMessageType) : Z :=
  match t with
  | state => 115 | task_delivery => 116 | task_report => 112 | data_request => 113 | data_response => 114
  | resource_operation => 111 | subscription => 117 | object_content_message => 98 | control => 99
  end.

Definition PRIORITY_CODES (p : MessagePriority) : Z :=
  match p with
  | safety => 115 | task => 116 | request => 113 | live_state => 108 | resource => 114 | object_content => 111
  end.

(** [Object.entries(...).find(([, value]) => value === code)] *)
Definition message_types : list LinkMessageType :=
  [state; task_delivery; task_report; data_request; data_response; resource_operation; subscription;
   object_content_message; control].
Definition priorities : list MessagePriority := [safety; task; request; live_state; resource; object_content].

Definition decodeMessageType (code : list Z) : result LinkMessageType :=
  from_option (List.find (fun t => bool_decide ([MESSAGE_TYPE_CODES t] = code)) message_types)
    (TypeError "Invalid message type code").
Definition decodePriority (code : list Z) : result MessagePriority :=
  from_option (List.find (fun p => bool_decide ([PRIORITY_CODES p] = code)) priorities)
    (TypeError "Invalid priority code").

Definition isMessageType (code : list Z) : bool :=
  existsb (fun t => bool_decide ([MESSAGE_TYPE_CODES t] = code)) message_types.
Definition isPriority (code : list Z) : bool :=
  existsb (fun p => bool_decide ([PRIORITY_CODES p] = code)) priorities.

(** ** Nodes *)

Definition encodeNode (node : LinkNode) : result (list Z) :=
  guard! valid_node_id (id node)
    else TypeError "Link node IDs must be non-empty and cannot contain ':'" in
  Ok ((match role node with asset => 97 | gateway => 103 end) :: colon :: id node).

(** [indexOf(":") === 1] leaves one character for the role. *)
Definition decodeNode (value : list Z) : result LinkNode :=
  match value with
  | r :: c :: nid =>
      guard! negb (r =? colon) && (c =? colon) else TypeError "Invalid Link node identity" in
      guard! ((r =? 97) || (r =? 103)) && valid_node_id nid else TypeError "Invalid Link node identity" in
      Ok (mkNode (if r =? 97 then asset else gateway) nid)
  | _ => Throw (TypeError "Invalid Link node identity")
  end.

(** ** Header fields *)

Definition frame_varint : Z -> result (list Z) := writeVarint "Invalid frame integer".

Section write_all.
Context {A : Type} (write : A -> result (list Z)).

(** [for (const value of values) write(fields, value)] *)
Fixpoint write_all (values : list A) : result (list Z) :=
  match values with
  | [] => Ok []
  | value :: values' =>
      let! bs := write value in
      let! rest := write_all values' in
      Ok (bs ++ rest)
  end.
End write_all.

Definition legacy_string (too_large : string) (value : list Z) : result (list Z) :=
  let bs := Buffer_from value in
  guard! utf8_round_trips value else TypeError "Link header text must be valid UTF-8" in
  guard! zlen bs <=? 65535 else RangeError too_large in
  let! len := frame_varint (zlen bs) in
  Ok (len ++ bs).

Definition writeBinaryHeaderString (value : list Z) : result (list Z) :=
  let bs := encodeBinaryUtf8 value in
  guard! zlen bs <=? 65535 else RangeError "Link binary header field is too large" in
  let! len := frame_varint (zlen bs) in
  Ok (len ++ bs).

(** [""] stands for an absent destination. *)
Definition encode_destination (node : option LinkNode) : result (list Z) :=
  match node with
  | None => Ok []
  | Some n => encodeNode n
  end.

Definition header_integers (identity : FrameIdentity) (index count : Z) : list Z :=
  [revision identity; MESSAGE_TYPE_CODES (message_type identity); PRIORITY_CODES (priority identity);
   source_generation identity; source_sequence identity; index; count].

Definition receipt_fields (r : option ReceiptIdentity) : list (list Z) :=
  match r with
  | None => []
  | Some r => [receipt_operation_id r; receipt_message_id r]
  end.

Definition receipt_bit (r : option ReceiptIdentity) : Z := match r with None => 0 | Some _ => 1 end.

Definition encodeBinaryHeader (identity : FrameIdentity) (index count : Z) (opaque : bool) : result (list Z) :=
  let! integers := write_all frame_varint (header_integers identity index count) in
  let! s := encodeNode (source identity) in
  let! d := encode_destination (destination identity) in
  let! strings := write_all writeBinaryHeaderString
    [s; d; service_session identity; operation_id identity; message_id identity] in
  let! flag := frame_varint (Z.lor (receipt_bit (receipt identity)) (if opaque then 2 else 0)) in
  let! receipts := write_all writeBinaryHeaderString (receipt_fields (receipt identity)) in
  Ok (integers ++ strings ++ flag ++ receipts).

Definition validateReceipt (identity : FrameIdentity) (encoding : FrameEncoding) (index count : Z) : result unit :=
  match receipt identity with
  | None => Ok tt
  | Some r =>
      guard! match encoding with deflate_v3 | binary_v1 | message_v1 | message_v2 => true | _ => false end
        else TypeError "Receipt metadata requires deflate-v3, binary-v1, message-v1, or message-v2" in
      guard! bool_decide (message_type identity = task_report) &&
             match destination identity with Some _ => true | None => false end
        else TypeError "Receipt metadata requires an addressed task_report frame" in
      guard! (index =? 0) && (count =? 1) else RangeError "Receipt metadata requires a single frame" in
      guard! isNonEmptyString (receipt_operation_id r) && isNonEmptyString (receipt_message_id r)
        else TypeError "Receipt identity fields must be non-empty" in
      Ok tt
  end.

(** The wire object of one chunk. *)
Definition compact_of (identity : FrameIdentity) (index count : Z) (payload : list Z) : result CompactFrame :=
  let! s := encodeNode (source identity) in
  let! d := match destination identity with
            | None => Ok None
            | Some node => let! text := encodeNode node in Ok (Some text)
            end in
  Ok (mkCompact (revision identity) [MESSAGE_TYPE_CODES (message_type identity)] s d
        (source_generation identity) (service_session identity) (source_sequence identity)
        (operation_id identity) (message_id identity) [PRIORITY_CODES (priority identity)]
        index count (base64url_encode payload) (receipt identity)).

Definition json_int (n : Z) : json := JNumber (f64_of_integer n).

(** The object literal [compact], in insertion order. *)
Definition compact_json (c : CompactFrame) : json :=
  JObject (
    [(js "v", json_int (c_v c)); (js "k", JString (c_k c)); (js "s", JString (c_s c))] ++
    match c_d c with None => [] | Some d => [(js "d", JString d)] end ++
    [(js "g", json_int (c_g c)); (js "x", JString (c_x c)); (js "q", json_int (c_q c));
     (js "o", JString (c_o c)); (js "m", JString (c_m c)); (js "y", JString (c_y c));
     (js "i", json_int (c_i c)); (js "n", json_int (c_n c)); (js "p", JString (c_p c))] ++
    match c_receipt c with
    | None => []
    | Some r => [(js "receipt", JObject [(js "operation_id", JString (receipt_operation_id r));
                                         (js "message_id", JString (receipt_message_id r))])]
    end).

Section frame.
Context {zlib : Zlib}.

Definition DEFLATE_V2_DICTIONARY_SHA256 : string := DICTIONARY_SHA256.

(** [assertPinnedDictionary]; [pinnedDictionaryVerified] only caches it. *)
Definition assertPinnedDictionary : result unit :=
  guard! bool_decide (sha256_hex dictionary = js DEFLATE_V2_DICTIONARY_SHA256)
    else PlainError "dictionary changed; assign a new wire version" in Ok tt.

(** The marker and the first eight bytes of the dictionary's digest. *)
Definition compressedPrefix : list Z := DEFLATE_V1_MARKER :: take 8 (hex_pairs (sha256_hex dictionary)).

Definition deflate_prefix (encoding : FrameEncoding) : list Z :=
  match encoding with
  | deflate_v2 => [DEFLATE_V2_MARKER]
  | deflate_v3 => [DEFLATE_V3_MARKER]
  | _ => compressedPrefix
  end.

(** ** Encoding one chunk *)

(** The header fields of the three deflate encodings. *)
Definition legacy_header (compact : CompactFrame) (encoding : FrameEncoding) : result (list Z) :=
  let! integers := write_all frame_varint
    [c_v compact; default 0 (nthZ (c_k compact) 0); default 0 (nthZ (c_y compact) 0);
     c_g compact; c_q compact; c_i compact; c_n compact] in
  let! strings := write_all (legacy_string "Link header field is too large")
    [c_s compact; default [] (c_d compact); c_x compact; c_o compact; c_m compact] in
  match encoding with
  | deflate_v2 => let! _ := assertPinnedDictionary in Ok (integers ++ strings)
  | deflate_v3 =>
      let! _ := assertPinnedDictionary in
      let! flag := frame_varint (receipt_bit (c_receipt compact)) in
      let! receipts := write_all (legacy_string "Link receipt field is too large") (receipt_fields (c_receipt compact)) in
      Ok (integers ++ strings ++ flag ++ receipts)
  | _ => Ok (integers ++ strings)
  end.

Definition deflate_body (compact : CompactFrame) (payload : list Z) (encoding : FrameEncoding) : result (list Z) :=
  let! fields := legacy_header compact encoding in
  Ok (deflate_prefix encoding ++ deflateRawSync dictionary (fields ++ payload)).

(** [encodeCompactFrame] under one of the deflate encodings. *)
Definition encodeDeflateFrame (encoding : FrameEncoding) (identity : FrameIdentity) (index count : Z)
    (payload : list Z) : result (list Z) :=
  let! _ := validateReceipt identity encoding index count in
  let! compact := compact_of identity index count payload in
  deflate_body compact payload encoding.

Definition encodeBinaryFrame (identity : FrameIdentity) (index count : Z) (payload : list Z) : result (list Z) :=
  let! binaryPayload := encodeBinaryPayload sha256_hex payload in
  let! fields := encodeBinaryHeader identity index count
    (match binaryPayload with None => true | Some _ => false end) in
  let! _ := assertPinnedDictionary in
  Ok (BINARY_V1_MARKER :: deflateRawSync dictionary (fields ++ default payload binaryPayload)).

Definition legacyHeaderRoundTrips (identity : FrameIdentity) : result bool :=
  let! s := encodeNode (source identity) in
  let! d := encode_destination (destination identity) in
  Ok (forallb utf8_round_trips
        ([s; d; service_session identity; operation_id identity; message_id identity] ++
         receipt_fields (receipt identity))).

(** The smaller of binary-v1 and the legacy encoding. *)
Definition encodeAdaptiveBinaryFrame (identity : FrameIdentity) (index count : Z) (payload : list Z)
    : result (list Z) :=
  let! binary := encodeBinaryFrame identity index count payload in
  let! legacy := legacyHeaderRoundTrips identity in
  if negb legacy then Ok binary
  else
    let! fallback := encodeDeflateFrame
      (match receipt identity with None => deflate_v2 | Some _ => deflate_v3 end) identity index count payload in
    Ok (if zlen fallback <=? zlen binary then fallback else binary).

Definition encodeMessageFrame (identity : FrameIdentity) (index count : Z) (payload : list Z) : result (list Z) :=
  let! _ := assertPinnedDictionary in
  let! fields := encodeBinaryHeader identity index count true in
  let header := deflateRawSync dictionary fields in
  guard! zlen header <=? 255 else RangeError "Message-v1 header exceeds its length field" in
  Ok ([MESSAGE_V1_MARKER; zlen header] ++ header ++ payload).

Definition encodeCompactFrame (identity : FrameIdentity) (index count : Z) (payload : list Z)
    (encoding : FrameEncoding) : result (list Z) :=
  match encoding with
  | deflate_v1 | deflate_v2 | deflate_v3 => encodeDeflateFrame encoding identity index count payload
  | _ =>
      let! _ := validateReceipt identity encoding index count in
      let! compact := compact_of identity index count payload in
      match encoding with
      | canonical_json => encodeCanonicalJSON (compact_json compact)
      | binary_v1 => encodeAdaptiveBinaryFrame identity index count payload
      | _ => encodeMessageFrame identity index count payload
      end
  end.

(** ** Fragmenting *)

Definition chunk_count_of (payload : list Z) (chunkSize : Z) : Z := (zlen payload + chunkSize - 1) / chunkSize.

Definition chunk_at (payload : list Z) (chunkSize index : Z) : list Z :=
  take (Z.to_nat chunkSize) (drop (Z.to_nat (index * chunkSize)) payload).

(** [for (let index = 0; index < count; index++)], [left] turns to go. *)
Fixpoint frames_from (left : nat) (index : Z) (payload : list Z) (identity : FrameIdentity)
    (chunkSize count : Z) (encoding : FrameEncoding) : result (list (list Z)) :=
  match left with
  | O => Ok []
  | S left' =>
      let! frame := encodeCompactFrame identity index count (chunk_at payload chunkSize index) encoding in
      let! rest := frames_from left' (index + 1) payload identity chunkSize count encoding in
      Ok (frame :: rest)
  end.

Definition framesForChunkSize (payload : list Z) (identity : FrameIdentity) (chunkSize : Z)
    (encoding : FrameEncoding) : result (list (list Z)) :=
  let count := chunk_count_of payload chunkSize in
  frames_from (Z.to_nat count) 0 payload identity chunkSize count encoding.

Fixpoint fit_from (left : nat) (index : Z) (payload : list Z) (identity : FrameIdentity)
    (chunkSize count maxFrameBytes : Z) (encoding : FrameEncoding) : result bool :=
  match left with
  | O => Ok true
  | S left' =>
      let! frame := encodeCompactFrame identity index count (chunk_at payload chunkSize index) encoding in
      if maxFrameBytes <? zlen frame then Ok false
      else fit_from left' (index + 1) payload identity chunkSize count maxFrameBytes encoding
  end.

Definition framesFit (payload : list Z) (identity : FrameIdentity) (chunkSize count maxFrameBytes : Z)
    (encoding : FrameEncoding) : result bool :=
  fit_from (Z.to_nat count) 0 payload identity chunkSize count maxFrameBytes encoding.

(** The first chunk size, from [chunkSize] down, whose frames all fit. *)
Fixpoint search_chunk_size (chunkSize : nat) (payload : list Z) (identity : FrameIdentity)
    (maxFrameBytes : Z) (encoding : FrameEncoding) : result (option (list (list Z))) :=
  match chunkSize with
  | O => Ok None
  | S smaller =>
      let size := Z.of_nat chunkSize in
      let count := chunk_count_of payload size in
      let! fit := if MAX_LINK_FRAGMENTS <? count then Ok false
                  else framesFit payload identity size count maxFrameBytes encoding in
      if fit : bool then let! frames := framesForChunkSize payload identity size encoding in Ok (Some frames)
      else search_chunk_size smaller payload identity maxFrameBytes encoding
  end.

(** The checks every call of [fragmentPayload] makes; it returns the capped
    frame size. *)
Definition fragment_guard (payload : list Z) (identity : FrameIdentity) (maxFrameBytes : Z)
    (encoding : FrameEncoding) : result Z :=
  guard! negb (zlen payload =? 0) else TypeError "Link payload must not be empty" in
  guard! zlen payload <=? MAX_LINK_MESSAGE_BYTES else RangeError "Link payload exceeds 128 KiB" in
  guard! isSafeInteger maxFrameBytes && (64 <=? maxFrameBytes) else RangeError "maxFrameBytes is too small" in
  let! _ := validateReceipt identity encoding 0 1 in
  Ok (Z.min maxFrameBytes MESHTASTIC_APPLICATION_PAYLOAD_BYTES).

(** The tail of [fragmentPayload], for the encodings that compress each frame. *)
Definition fragment_frames (payload : list Z) (identity : FrameIdentity) (maxFrameBytes : Z)
    (encoding : FrameEncoding) : result (list (list Z)) :=
  let chunks (_ : unit) :=
    let! found := search_chunk_size
      (Z.to_nat (Z.min (zlen payload) (maxFrameBytes * (if decide (encoding = canonical_json) then 1 else 4))))
      payload identity maxFrameBytes encoding in
    from_option found (RangeError "Link envelope leaves no room for a payload chunk") in
  if decide (encoding = canonical_json) then chunks tt
  else
    let! whole := encodeCompactFrame identity 0 1 payload encoding in
    if zlen whole <=? maxFrameBytes then Ok [whole]
    else
      guard! match receipt identity with None => true | Some _ => false end
        else RangeError "Receipt metadata requires a single frame" in
      chunks tt.

(** The loop of [fragmentEncodedMessage]: with a receipt it stops at the first
    size that would need a second frame. *)
Fixpoint search_encoded_size (chunkSize : nat) (compressed : list Z) (identity : FrameIdentity)
    (maxFrameBytes : Z) (encoding : FrameEncoding) : result (option (list (list Z))) :=
  match chunkSize with
  | O => Ok None
  | S smaller =>
      let size := Z.of_nat chunkSize in
      let count := chunk_count_of compressed size in
      if match receipt identity with None => false | Some _ => negb (count =? 1) end then Ok None
      else
        let! fit := if MAX_LINK_FRAGMENTS <? count then Ok false
                    else framesFit compressed identity size count maxFrameBytes encoding in
        if fit : bool then let! frames := framesForChunkSize compressed identity size encoding in Ok (Some frames)
        else search_encoded_size smaller compressed identity maxFrameBytes encoding
  end.

(** [catch (error) { if (!(error instanceof RangeError)) throw error; }] *)
Definition catch_range {A} (m : result (option A)) : result (option A) :=
  match m with
  | Throw (RangeError _) => Ok None
  | _ => m
  end.

Definition fragmentEncodedMessage (compressed : option (list Z)) (identity : FrameIdentity)
    (maxFrameBytes : Z) (encoding : FrameEncoding) : result (option (list (list Z))) :=
  match compressed with
  | None => Ok None
  | Some bs =>
      catch_range (search_encoded_size (Z.to_nat (Z.min (zlen bs) maxFrameBytes)) bs identity maxFrameBytes encoding)
  end.

Definition frames_bytes (frames : list (list Z)) : Z := fold_left (fun sum frame => sum + zlen frame) frames 0.

(** [candidate] replaces [baseline] when it takes no more frames and fewer
    bytes, or when computing the baseline threw a [RangeError]. *)
Definition prefer (candidate : option (list (list Z))) (baseline : result (list (list Z))) : result (list (list Z)) :=
  match baseline, candidate with
  | Throw (RangeError _), Some c => Ok c
  | Throw e, _ => Throw e
  | Ok b, Some c => Ok (if (zlen c <=? zlen b) && (frames_bytes c <? frames_bytes b) then c else b)
  | Ok b, None => Ok b
  end.

Definition fragmentBinaryPayload (payload : list Z) (identity : FrameIdentity) (maxFrameBytes : Z)
    : result (list (list Z)) :=
  let! maxFrameBytes := fragment_guard payload identity maxFrameBytes binary_v1 in
  fragment_frames payload identity maxFrameBytes binary_v1.

Definition fragmentCompressedMessage (payload : list Z) (identity : FrameIdentity) (maxFrameBytes : Z)
    : result (list (list Z)) :=
  let! whole := encodeAdaptiveBinaryFrame identity 0 1 payload in
  if zlen whole <=? maxFrameBytes then Ok [whole]
  else
    let! compressed := encodeCompressedMessage payload in
    let! candidate := fragmentEncodedMessage compressed identity maxFrameBytes message_v1 in
    prefer candidate (fragmentBinaryPayload payload identity maxFrameBytes).

Definition fragmentMessageV1 (payload : list Z) (identity : FrameIdentity) (maxFrameBytes : Z)
    : result (list (list Z)) :=
  let! maxFrameBytes := fragment_guard payload identity maxFrameBytes message_v1 in
  fragmentCompressedMessage payload identity maxFrameBytes.

Definition method_frame (method : Z * list Z) : list Z := [METHOD_FRAME_MARKER; fst method] ++ snd method.

Definition fragmentMethodMessage (payload : list Z) (identity : FrameIdentity) (maxFrameBytes : Z)
    : result (list (list Z)) :=
  let! previousWhole := encodeAdaptiveBinaryFrame identity 0 1 payload in
  let! header := encodeBinaryHeader identity 0 1 true in
  let! method := compressValue payload header in
  let whole := method_frame method in
  if zlen previousWhole <=? maxFrameBytes then
    Ok [if zlen whole <? zlen previousWhole then whole else previousWhole]
  else
    let! candidate :=
      if zlen whole <=? maxFrameBytes then Ok (Some [whole])
      else
        let! compressed := compressValue payload [] in
        let envelope := [0xb3; 1; fst compressed] ++ snd compressed in
        if zlen envelope <? zlen payload then fragmentEncodedMessage (Some envelope) identity maxFrameBytes message_v2
        else Ok None in
    prefer candidate (fragmentMessageV1 payload identity maxFrameBytes).

Definition fragmentPayload (payload : list Z) (identity : FrameIdentity) (maxFrameBytes : Z)
    (encoding : FrameEncoding) : result (list (list Z)) :=
  let! maxFrameBytes := fragment_guard payload identity maxFrameBytes encoding in
  match encoding with
  | message_v1 => fragmentCompressedMessage payload identity maxFrameBytes
  | message_v2 => fragmentMethodMessage payload identity maxFrameBytes
  | _ => fragment_frames payload identity maxFrameBytes encoding
  end.

(** ** Decoding *)

Section readers.
Context (integer : list Z -> result (Z * list Z)) (text : list Z -> result (list Z * list Z)).

(** [Array.from({ length }, integer)] *)
Fixpoint pull_integers (n : nat) (raw : list Z) : result (list Z * list Z) :=
  match n with
  | O => Ok ([], raw)
  | S n' =>
      let! (value, raw1) := integer raw in
      let! (rest, raw2) := pull_integers n' raw1 in
      Ok (value :: rest, raw2)
  end.

Fixpoint pull_strings (n : nat) (raw : list Z) : result (list (list Z) * list Z) :=
  match n with
  | O => Ok ([], raw)
  | S n' =>
      let! (value, raw1) := text raw in
      let! (rest, raw2) := pull_strings n' raw1 in
      Ok (value :: rest, raw2)
  end.
End readers.

Definition compressed_integer : list Z -> result (Z * list Z) :=
  readVarint "Truncated compressed frame" "Invalid compressed frame integer".
Definition binary_integer : list Z -> result (Z * list Z) :=
  readVarint "Truncated binary-v1 frame" "Invalid binary-v1 frame integer".

(** The closures [string]: a length, then that many bytes under a decoder. *)
Definition pull_string (integer : list Z -> result (Z * list Z)) (decode : list Z -> result (list Z))
    (truncated : string) (raw : list Z) : result (list Z * list Z) :=
  let! (length, raw1) := integer raw in
  guard! negb ((65535 <? length) || (zlen raw1 <? length)) else TypeError truncated in
  let! value := decode (take (Z.to_nat length) raw1) in
  Ok (value, drop (Z.to_nat length) raw1).

Definition compressed_string : list Z -> result (list Z * list Z) :=
  pull_string compressed_integer TextDecoder_decode "Truncated compressed frame header".
Definition binary_string : list Z -> result (list Z * list Z) :=
  pull_string binary_integer decodeBinaryUtf8 "Truncated binary-v1 frame header".

(** [String.fromCharCode] keeps sixteen bits. *)
Definition char_text (n : Z) : list Z := [n mod 65536].

(** The object a header decodes to; [""] is an absent destination. *)
Definition header_object (integers : list Z) (strings : list (list Z)) (receipt : option ReceiptIdentity)
    (payload : list Z) : result CompactFrame :=
  match integers, strings with
  | [v; k; y; g; q; i; n], [s; d; x; o; m] =>
      Ok (mkCompact v (char_text k) s (if bool_decide (d = []) then None else Some d) g x q o m (char_text y) i n
            (base64url_encode payload) receipt)
  | _, _ => Throw (TypeError "unreachable")
  end.

Definition decodeCompressedFrame (bs : list Z) (encoding : FrameEncoding) : result CompactFrame :=
  let! _ := match encoding with deflate_v2 | deflate_v3 => assertPinnedDictionary | _ => Ok tt end in
  let prefix := deflate_prefix encoding in
  guard! bool_decide (take (length prefix) bs = prefix) else TypeError "Unknown compressed frame dictionary" in
  let! (raw, _) := inflateRawSync dictionary
    (MAX_LINK_MESSAGE_BYTES + (match encoding with deflate_v3 => 7 * 65538 + 64 | _ => 5 * 65538 + 56 end))
    (drop (length prefix) bs) in
  let! (integers, raw1) := pull_integers compressed_integer 7 raw in
  let! (strings, raw2) := pull_strings compressed_string 5 raw1 in
  let! (receiptFlag, raw3) := match encoding with deflate_v3 => compressed_integer raw2 | _ => Ok (0, raw2) end in
  guard! (receiptFlag =? 0) || (receiptFlag =? 1) else TypeError "Invalid deflate-v3 receipt flag" in
  let! (receipt, raw4) :=
    if receiptFlag =? 1 then
      let! (o, r1) := compressed_string raw3 in
      let! (m, r2) := compressed_string r1 in
      Ok (Some (mkReceipt o m), r2)
    else Ok (None, raw3) in
  guard! zlen raw4 <=? MAX_LINK_MESSAGE_BYTES else RangeError "Link payload exceeds 128 KiB" in
  header_object integers strings receipt raw4.

Definition decodeBinaryBody (raw : list Z) (separatePayload : option (list Z)) (methodMode : option Z)
    : result CompactFrame :=
  let! (integers, raw1) := pull_integers binary_integer 7 raw in
  let! (strings, raw2) := pull_strings binary_string 5 raw1 in
  let! (receiptFlag, raw3) := binary_integer raw2 in
  guard! negb ((receiptFlag <? 0) || (3 <? receiptFlag)) else TypeError "Invalid binary-v1 receipt flag" in
  let! (receipt, raw4) :=
    if Z.land receiptFlag 1 =? 1 then
      let! (o, r1) := binary_string raw3 in
      let! (m, r2) := binary_string r1 in
      Ok (Some (mkReceipt o m), r2)
    else Ok (None, raw3) in
  let opaque := Z.land receiptFlag 2 in
  guard! match separatePayload with Some _ => bool_decide (raw4 = []) && negb (opaque =? 0) | None => true end
    else TypeError "Invalid message-v1 header boundary or payload flag" in
  guard! match separatePayload with None => negb (bool_decide (raw4 = [])) | Some _ => true end
    else TypeError "Binary-v1 payload must not be empty" in
  guard! match methodMode with Some _ => negb (opaque =? 0) | None => true end
    else TypeError "Method frame requires an opaque encoded payload" in
  let! encodedPayload :=
    match separatePayload with
    | Some p => Ok p
    | None => if opaque =? 2 then Ok raw4 else decodeBinaryPayload sha256_hex raw4 0
    end in
  let! payload := match methodMode with None => Ok encodedPayload | Some mode => restoreValue mode encodedPayload end in
  guard! zlen payload <=? MAX_LINK_MESSAGE_BYTES else RangeError "Link payload exceeds 128 KiB" in
  header_object integers strings receipt payload.

Definition decodeBinaryFrame (bs : list Z) : result CompactFrame :=
  let! _ := assertPinnedDictionary in
  guard! bool_decide (nthZ bs 0 = Some BINARY_V1_MARKER) else TypeError "Invalid binary-v1 frame marker" in
  let! (raw, _) := inflateRawSync dictionary (MAX_LINK_MESSAGE_BYTES * 4 + 7 * 65538 + 64) (drop 1 bs) in
  decodeBinaryBody raw None None.

Definition decodeMessageFrame (bs : list Z) : result CompactFrame :=
  let! _ := assertPinnedDictionary in
  let! headerLength := from_option (nthZ bs 1) (TypeError "Truncated message-v1 frame") in
  guard! negb ((headerLength =? 0) || (zlen bs <=? headerLength + 2)) else TypeError "Truncated message-v1 frame" in
  let! (header, bytesWritten) :=
    inflateRawSync dictionary (7 * 65538 + 64) (take (Z.to_nat headerLength) (drop 2 bs)) in
  guard! bytesWritten =? headerLength else TypeError "Trailing message-v1 header bytes" in
  decodeBinaryBody header (Some (drop (2 + Z.to_nat headerLength) bs)) None.

Definition decodeMethodFrame (bs : list Z) : result CompactFrame :=
  let mode := default (-1) (nthZ bs 1) in
  let! raw := decompressValue mode (drop 2 bs) (MAX_LINK_MESSAGE_BYTES * 8 + 7 * 65538 + 64) in
  let! value := decodeBinaryBody raw None (Some mode) in
  guard! (c_i value =? 0) && (c_n value =? 1) else TypeError "Method frame requires one complete payload" in
  Ok value.

(** *** Validation *)

Definition json_string (v : option json) : option (list Z) := match v with Some (JString s) => Some s | _ => None end.
Definition json_integer (v : option json) : option Z :=
  match v with Some (JNumber bits) => f64_safe_integer bits | _ => None end.

Definition json_receipt (v : json) : option ReceiptIdentity :=
  match v with
  | JObject m =>
      match json_string (jget (js "operation_id") m), json_string (jget (js "message_id") m) with
      | Some o, Some i => Some (mkReceipt o i)
      | _, _ => None
      end
  | _ => None
  end.

(** The [typeof] tests of [isCompactFrame]: the fields with their types. *)
Definition compact_fields (v : json) : option CompactFrame :=
  match v with
  | JObject m =>
      let str k := json_string (jget (js k) m) in
      let int k := json_integer (jget (js k) m) in
      match int "v", str "k", str "s", int "g", str "x", int "q", str "o", str "m", str "y", int "i", int "n", str "p" with
      | Some v, Some k, Some s, Some g, Some x, Some q, Some o, Some mm, Some y, Some i, Some n, Some p =>
          match jget (js "d") m, jget (js "receipt") m with
          | None, None => Some (mkCompact v k s None g x q o mm y i n p None)
          | Some (JString d), None => Some (mkCompact v k s (Some d) g x q o mm y i n p None)
          | None, Some r => (fun r => mkCompact v k s None g x q o mm y i n p (Some r)) <$> json_receipt r
          | Some (JString d), Some r => (fun r => mkCompact v k s (Some d) g x q o mm y i n p (Some r)) <$> json_receipt r
          | _, _ => None
          end
      | _, _, _, _, _, _, _, _, _, _, _, _ => None
      end
  | _ => None
  end%string.

Definition isNonNegativeInteger (n : Z) : bool := isSafeInteger n && (0 <=? n).

(** The value tests of [isCompactFrame]. *)
Definition isCompactFrame (c : CompactFrame) : bool :=
  (c_v c =? LINK_PROTOCOL_REVISION) && isMessageType (c_k c) &&
  isNonNegativeInteger (c_g c) && isNonEmptyString (c_x c) && isNonNegativeInteger (c_q c) &&
  isNonEmptyString (c_o c) && isNonEmptyString (c_m c) && isPriority (c_y c) &&
  isNonNegativeInteger (c_i c) && isSafeInteger (c_n c) && (0 <? c_n c) && (c_n c <=? MAX_LINK_FRAGMENTS) &&
  (c_i c <? c_n c) && isBase64URL (c_p c) &&
  match c_receipt c with
  | None => true
  | Some r =>
      isNonEmptyString (receipt_operation_id r) && isNonEmptyString (receipt_message_id r) &&
      bool_decide (c_k c = [MESSAGE_TYPE_CODES task_report]) &&
      match c_d c with Some _ => true | None => false end && (c_i c =? 0) && (c_n c =? 1)
  end.

Definition carries_receipt (marker : option Z) : bool :=
  match marker with
  | Some b => (b =? DEFLATE_V3_MARKER) || (b =? BINARY_V1_MARKER) || (b =? MESSAGE_V1_MARKER) || (b =? METHOD_FRAME_MARKER)
  | None => false
  end.

(** The dispatch on the first byte. *)
Definition decode_by_marker (bs : list Z) : result CompactFrame :=
  match nthZ bs 0 with
  | Some b =>
      if b =? DEFLATE_V1_MARKER then decodeCompressedFrame bs deflate_v1
      else if b =? DEFLATE_V2_MARKER then decodeCompressedFrame bs deflate_v2
      else if b =? DEFLATE_V3_MARKER then decodeCompressedFrame bs deflate_v3
      else if b =? BINARY_V1_MARKER then decodeBinaryFrame bs
      else if b =? MESSAGE_V1_MARKER then decodeMessageFrame bs
      else if b =? METHOD_FRAME_MARKER then decodeMethodFrame bs
      else if 0xa0 <=? b then Throw (TypeError "Unknown Link frame encoding marker")
      else let! v := decodeJSON bs in from_option (compact_fields v) (TypeError "Invalid Meshtastic Link frame")
  | None => let! v := decodeJSON bs in from_option (compact_fields v) (TypeError "Invalid Meshtastic Link frame")
  end.

(** The [LinkFrame] of a validated wire object. *)
Definition frame_of_compact (value : CompactFrame) : result LinkFrame :=
  let! source := decodeNode (c_s value) in
  let! destination := match c_d value with
                      | None => Ok None
                      | Some d => let! node := decodeNode d in Ok (Some node)
                      end in
  let payload := base64url_decode (c_p value) in
  guard! negb (zlen payload =? 0) else TypeError "Link frame chunk must not be empty" in
  let! message_type := decodeMessageType (c_k value) in
  let! priority := decodePriority (c_y value) in
  Ok (mkFrame
    (mkIdentity LINK_PROTOCOL_REVISION message_type source destination (c_g value) (c_x value) (c_q value)
       (c_o value) (c_m value) (c_receipt value) priority)
    (c_i value) (c_n value) payload).

Definition decodeFrame (bs : list Z) : result LinkFrame :=
  guard! zlen bs <=? MESHTASTIC_APPLICATION_PAYLOAD_BYTES else RangeError "Meshtastic Link frame exceeds 233 bytes" in
  let! value := decode_by_marker bs in
  guard! isCompactFrame value else TypeError "Invalid Meshtastic Link frame" in
  guard! match c_receipt value with None => true | Some _ => carries_receipt (nthZ bs 0) end
    else TypeError "Receipt metadata requires deflate-v3, binary-v1, message-v1, or message-v2" in
  frame_of_compact value.
End frame.
