(* ===== verification/FrameCodec.v ===== *)
(** * Frames are lossless ([frame.ts])

    One frame decodes to the identity and chunk it was made from; the frames of
    a message carry its chunks in order, within the size and count limits. *)

From Stdlib Require Import ZArith Lia String.
From stdpp Require Import base list option.
From S2P Require Import Prelude JsMap BinaryIO Wtf8 Json Utf8Text BinaryCodec CompactValue CompactSize CompactCodec Base64 Compression LinkTypes Frame.

(** ** Readers of header fields *)

Lemma frame_varint_ok value bs : frame_varint value = Ok bs ->
  0 <= value <= MAX_SAFE_INTEGER /\ bs = varint_digits 8 value.
Proof. by intros ?%writeVarint_ok. Qed.

Lemma pull_integers_written truncated invalid values : forall bs rest,
  write_all frame_varint values = Ok bs ->
  pull_integers (readVarint truncated invalid) (length values) (bs ++ rest) = Ok (values, rest) /\
  Forall (fun v => 0 <= v <= MAX_SAFE_INTEGER) values /\ is_bytes bs /\ zlen bs <= 8 * zlen values.
Proof.
  induction values as [| v values IH]; cbn [write_all pull_integers length]; intros bs rest H; inv_result.
  - split; [done |]. split; [constructor |]. split; [constructor | done].
  - apply frame_varint_ok in E as [Hv ->]. destruct (IH _ rest E0) as (Hr & Hf & Hb & Hl).
    rewrite <- app_assoc, readVarint_digits by done. cbn [bind_result]. rewrite Hr. cbn [bind_result].
    split; [done |]. split; [by constructor |].
    split; [apply is_bytes_app; [apply varint_digits_bytes; lia | done] |].
    rewrite zlen_app, zlen_cons. pose proof (varint_digits_length 8 v ltac:(lia) ltac:(lia)). unfold zlen at 1. lia.
Qed.

(** A writer of strings that [text] reads back, three length bytes at most. *)
Definition string_codec (write : list Z -> result (list Z)) (text : list Z -> result (list Z * list Z)) (s : list Z) : Prop :=
  forall bs rest, write s = Ok bs -> text (bs ++ rest) = Ok (s, rest) /\ is_bytes bs /\ zlen bs <= 65538.

Lemma pull_string_written truncated invalid decode error s encoded bs rest :
  decode encoded = Ok s -> is_bytes encoded -> zlen encoded <= 65535 ->
  (let! len := frame_varint (zlen encoded) in Ok (len ++ encoded)) = Ok bs ->
  pull_string (readVarint truncated invalid) decode error (bs ++ rest) = Ok (s, rest) /\ is_bytes bs /\ zlen bs <= 65538.
Proof.
  intros Hd Hb Hl H. inv_result. apply frame_varint_ok in E as [Hv ->].
  unfold pull_string. rewrite <- app_assoc, readVarint_digits by done. cbn [bind_result].
  rewrite zlen_app. pose proof (zlen_nonneg rest).
  destruct (Z.ltb_spec 65535 (zlen encoded)); [lia |]. destruct (Z.ltb_spec (zlen encoded + zlen rest) (zlen encoded)); [lia |].
  cbn [orb negb]. rewrite take_zlen_app, drop_zlen_app, Hd. cbn [bind_result]. split; [done |].
  split; [apply is_bytes_app; [apply varint_digits_bytes; lia | done] |].
  rewrite zlen_app. pose proof (varint_digits_short 3 8 (zlen encoded) ltac:(lia) ltac:(cbn; lia)). lia.
Qed.

Lemma binary_string_codec s : is_jsstr s -> string_codec writeBinaryHeaderString binary_string s.
Proof.
  intros Hs bs rest H. unfold writeBinaryHeaderString in H.
  destruct (Z.leb_spec (zlen (encodeBinaryUtf8 s)) 65535); [| done].
  eapply pull_string_written; [| by apply utf8_bytes | done | exact H].
  rewrite <- (app_nil_r (encodeBinaryUtf8 s)), decode_encode_app by done. cbn. by rewrite app_nil_r.
Qed.

Lemma legacy_string_codec too_large s : is_jsstr s -> no_bom s -> string_codec (legacy_string too_large) compressed_string s.
Proof.
  intros Hs Hb bs rest H. unfold legacy_string in H. destruct (utf8_round_trips s) eqn:Hu; [| done].
  destruct (Z.leb_spec (zlen (Buffer_from s)) 65535); [| done].
  eapply pull_string_written; [by apply TextDecoder_Buffer | | done | exact H].
  apply utf8_bytes. by apply toWellFormed_units.
Qed.

Lemma pull_strings_written write text values : Forall (string_codec write text) values -> forall bs rest,
  write_all write values = Ok bs ->
  pull_strings text (length values) (bs ++ rest) = Ok (values, rest) /\ is_bytes bs /\ zlen bs <= 65538 * zlen values.
Proof.
  induction 1 as [| v values Hv _ IH]; cbn [write_all pull_strings length]; intros bs rest H; inv_result.
  - split; [done |]. split; [constructor | done].
  - destruct (IH _ rest E0) as (Hr & Hb & Hl). rewrite <- app_assoc.
    destruct (Hv _ (a0 ++ rest) E) as (-> & Hb' & Hl'). cbn [bind_result]. rewrite Hr. cbn [bind_result].
    split; [done |]. split; [by apply is_bytes_app |]. rewrite zlen_app, zlen_cons. lia.
Qed.

(** ** Identities *)

Definition good_text (s : list Z) : Prop := is_jsstr s /\ isNonEmptyString s = true.

(** An identity the sender builds: this revision, UTF-16 text, non-blank
    session, operation and message ids, and safe counters. *)
Record identity_ok (i : FrameIdentity) : Prop := {
  ok_revision : revision i = LINK_PROTOCOL_REVISION;
  ok_source : is_jsstr (id (source i));
  ok_destination : forall n, destination i = Some n -> is_jsstr (id n);
  ok_session : good_text (service_session i);
  ok_operation : good_text (operation_id i);
  ok_message : good_text (message_id i);
  ok_receipt : forall r, receipt i = Some r -> is_jsstr (receipt_operation_id r) /\ is_jsstr (receipt_message_id r);
  ok_counters : 0 <= source_generation i <= MAX_SAFE_INTEGER /\ 0 <= source_sequence i <= MAX_SAFE_INTEGER
}.

(** The texts [TextDecoder] would strip a byte-order mark from have none. *)
Definition header_no_bom (i : FrameIdentity) : Prop :=
  no_bom (service_session i) /\ no_bom (operation_id i) /\ no_bom (message_id i) /\
  Forall no_bom (receipt_fields (receipt i)).

Lemma decodeNode_encodeNode node s : encodeNode node = Ok s -> decodeNode s = Ok node /\ no_bom s /\ s <> [] /\ (is_jsstr (id node) -> is_jsstr s).
Proof.
  unfold encodeNode. intros H. inv_result. unfold decodeNode.
  split.
  - destruct node as [[] n]; cbn in Hg |- *; by rewrite Hg.
  - split; [by destruct (role node) |]. split; [done |]. intros Hs.
    constructor; [destruct (role node); unfold is_unit; lia |]. constructor; [unfold is_unit, colon; lia | done].
Qed.

Lemma encode_destination_spec d s : encode_destination d = Ok s ->
  (if bool_decide (s = []) then d = None else exists node, d = Some node /\ encodeNode node = Ok s) /\
  no_bom s /\ ((forall n, d = Some n -> is_jsstr (id n)) -> is_jsstr s).
Proof.
  unfold encode_destination. destruct d as [node |]; intros H.
  - apply decodeNode_encodeNode in H as Hn. destruct Hn as (_ & Hb & Hne & Hs).
    rewrite bool_decide_false by done. split; [by exists node |]. split; [done |]. intros Hd. by apply Hs, Hd.
  - inv_result. split; [by rewrite bool_decide_true |]. split; [done |]. constructor.
Qed.

Lemma message_type_decode t : decodeMessageType [MESSAGE_TYPE_CODES t] = Ok t /\ isMessageType [MESSAGE_TYPE_CODES t] = true.
Proof. by destruct t. Qed.

Lemma priority_decode p : decodePriority [PRIORITY_CODES p] = Ok p /\ isPriority [PRIORITY_CODES p] = true.
Proof. by destruct p. Qed.

Lemma codes_small t p : char_text (MESSAGE_TYPE_CODES t) = [MESSAGE_TYPE_CODES t] /\ char_text (PRIORITY_CODES p) = [PRIORITY_CODES p].
Proof. by destruct t, p. Qed.

(** The wire object of a chunk, from its encoded nodes. *)
Definition wire_object (i : FrameIdentity) (s d : list Z) (index count : Z) (payload : list Z) : CompactFrame :=
  mkCompact (revision i) [MESSAGE_TYPE_CODES (message_type i)] s (if bool_decide (d = []) then None else Some d)
    (source_generation i) (service_session i) (source_sequence i) (operation_id i) (message_id i)
    [PRIORITY_CODES (priority i)] index count (base64url_encode payload) (receipt i).

Lemma header_object_wire i s d index count r payload :
  r = receipt i ->
  header_object (header_integers i index count) [s; d; service_session i; operation_id i; message_id i] r payload
    = Ok (wire_object i s d index count payload).
Proof. intros ->. unfold header_object, header_integers, wire_object. destruct (codes_small (message_type i) (priority i)) as [-> ->]. done. Qed.

(** What makes the wire object pass [isCompactFrame]. *)
Record chunk_ok (i : FrameIdentity) (index count : Z) (payload : list Z) : Prop := {
  ok_generation : 0 <= source_generation i <= MAX_SAFE_INTEGER;
  ok_sequence : 0 <= source_sequence i <= MAX_SAFE_INTEGER;
  ok_chunk : 0 <= index < count /\ count <= MAX_LINK_FRAGMENTS;
  ok_payload : is_bytes payload /\ payload <> [];
  ok_receipt_valid : exists encoding, validateReceipt i encoding index count = Ok tt
}.

Lemma isNonNegativeInteger_ok n : 0 <= n <= MAX_SAFE_INTEGER -> isNonNegativeInteger n = true.
Proof.
  intros Hn. unfold isNonNegativeInteger. rewrite (proj2 (isSafeInteger_spec n)) by (unfold MAX_SAFE_INTEGER in *; lia).
  cbn [andb]. apply Z.leb_le. lia.
Qed.

Lemma validateReceipt_ok i encoding index count : validateReceipt i encoding index count = Ok tt ->
  match receipt i with
  | None => True
  | Some r =>
      encoding = deflate_v3 \/ encoding = binary_v1 \/ encoding = message_v1 \/ encoding = message_v2
  end /\
  match receipt i with
  | None => True
  | Some r =>
      message_type i = task_report /\ destination i <> None /\ index = 0 /\ count = 1 /\
      isNonEmptyString (receipt_operation_id r) = true /\ isNonEmptyString (receipt_message_id r) = true
  end.
Proof.
  unfold validateReceipt. destruct (receipt i) as [r |]; [| done]. intros H. inv_result. reflect_tests.
  split; [destruct encoding; auto; done |]. repeat split; try done. by destruct (destination i).
Qed.

Lemma wire_object_valid i s d index count payload :
  identity_ok i -> chunk_ok i index count payload ->
  encodeNode (source i) = Ok s -> encode_destination (destination i) = Ok d ->
  isCompactFrame (wire_object i s d index count payload) = true /\
  frame_of_compact (wire_object i s d index count payload) = Ok (mkFrame i index count payload).
Proof.
  intros [Hrev _ _ [_ Hx] [_ Ho] [_ Hm] _] [Hg Hq [Hi Hn] [Hp Hne] [encoding Hr]] Hs Hd.
  apply encode_destination_spec in Hd as (Hdest & _). apply decodeNode_encodeNode in Hs as (Hsrc & _).
  destruct (message_type_decode (message_type i)) as [Ht1 Ht2].
  destruct (priority_decode (priority i)) as [Hp1 Hp2].
  unfold MAX_LINK_FRAGMENTS in Hn. split.
  - unfold isCompactFrame, wire_object. cbn [c_v c_k c_g c_x c_q c_o c_m c_y c_i c_n c_p c_receipt c_d].
    rewrite Hrev, Ht2, Hp2, Hx, Ho, Hm, isBase64URL_encode, bool_decide_false by done.
    rewrite !isNonNegativeInteger_ok by (unfold MAX_SAFE_INTEGER in *; lia).
    rewrite (proj2 (isSafeInteger_spec count)) by (unfold MAX_SAFE_INTEGER; lia).
    rewrite (proj2 (Z.ltb_lt 0 count)), (proj2 (Z.leb_le count MAX_LINK_FRAGMENTS)), (proj2 (Z.ltb_lt index count))
      by (unfold MAX_LINK_FRAGMENTS; lia).
    cbn [andb negb Z.eqb Pos.eqb LINK_PROTOCOL_REVISION].
    apply validateReceipt_ok in Hr as [_ Hr]. destruct (receipt i) as [r |]; [| done].
    destruct Hr as (-> & Haddr & -> & -> & Hro & Hri). rewrite Hro, Hri, bool_decide_true by done.
    destruct (bool_decide (d = [])); [by rewrite Hdest in Haddr | done].
  - unfold frame_of_compact, wire_object. cbn [c_v c_k c_g c_x c_q c_o c_m c_y c_i c_n c_p c_receipt c_d c_s].
    rewrite Hsrc. cbn [bind_result]. rewrite base64url_roundtrip, Ht1, Hp1 by done. cbn [bind_result].
    assert (Hz : (zlen payload =? 0) = false) by (apply Z.eqb_neq; by intros ?%zlen_zero_nil).
    rewrite Hz. cbn [negb].
    destruct (bool_decide (d = [])).
    + cbn [bind_result]. rewrite <- Hrev, <- Hdest. by destruct i.
    + destruct Hdest as (node & Hnode & Henc). apply decodeNode_encodeNode in Henc as [-> _]. cbn [bind_result].
      rewrite <- Hrev, <- Hnode. by destruct i.
Qed.

(** ** The header of the binary encodings *)

Section decode.
Context {zlib : Zlib} {laws : ZlibLaws}.

Lemma header_strings_codec i s d :
  identity_ok i -> encodeNode (source i) = Ok s -> encode_destination (destination i) = Ok d ->
  Forall is_jsstr [s; d; service_session i; operation_id i; message_id i] /\ Forall is_jsstr (receipt_fields (receipt i)).
Proof.
  intros [_ Hsrc Hdst [Hx _] [Ho _] [Hm _] Hr] Hs Hd.
  apply decodeNode_encodeNode in Hs as (_ & _ & _ & Hs). apply encode_destination_spec in Hd as (_ & _ & Hd).
  split; [repeat constructor; auto |]. destruct (receipt i) as [r |]; [| constructor].
  destruct (Hr r eq_refl). by repeat constructor.
Qed.

Lemma flag_bits i (opaque : bool) :
  let flag := Z.lor (receipt_bit (receipt i)) (if opaque then 2 else 0) in
  0 <= flag <= 3 /\ Z.land flag 1 = receipt_bit (receipt i) /\ Z.land flag 2 = (if opaque then 2 else 0).
Proof. destruct (receipt i), opaque; (split; [split |]); by vm_compute. Qed.

(** The receipt a decoder reads when the header's flag announces one. *)
Definition pull_receipt (text : list Z -> result (list Z * list Z)) (flag : Z) (raw : list Z)
    : result (option ReceiptIdentity * list Z) :=
  if flag =? 1 then
    let! (o, r1) := text raw in
    let! (m, r2) := text r1 in
    Ok (Some (mkReceipt o m), r2)
  else Ok (None, raw).

Lemma pull_receipt_written write text i receipts rest :
  Forall (string_codec write text) (receipt_fields (receipt i)) ->
  write_all write (receipt_fields (receipt i)) = Ok receipts ->
  pull_receipt text (receipt_bit (receipt i)) (receipts ++ rest) = Ok (receipt i, rest) /\ is_bytes receipts /\ zlen receipts <= 2 * 65538.
Proof using.
  intros C E. destruct (pull_strings_written _ _ _ C _ rest E) as (Hr & Hb & Hl).
  split; [| split; [done |]].
  - unfold pull_receipt. destruct (receipt i) as [[o m] |]; cbn [receipt_fields length pull_strings] in Hr; [| by injection E as <-].
    apply bind_ok in Hr as ([x1 r1] & Hr1 & Hr). apply bind_ok in Hr as ([xs r2] & Hr2 & Hr).
    apply bind_ok in Hr2 as ([x2 r3] & Hr3 & Hr2). injection Hr as -> -> ->. cbn [bind_result] in Hr2.
    injection Hr2 as -> ->. cbn [receipt_bit Z.eqb Pos.eqb]. rewrite Hr1. cbn [bind_result]. by rewrite Hr3.
  - assert (zlen (receipt_fields (receipt i)) <= 2) by (by destruct (receipt i); vm_compute). lia.
Qed.

(** What [decodeBinaryBody] reads before it reaches the payload. *)
Record header_read (i : FrameIdentity) (index count : Z) (opaque : bool) (s d header : list Z) : Prop := {
  read_integers rest : exists raw1 raw2 raw3,
    pull_integers binary_integer 7 (header ++ rest) = Ok (header_integers i index count, raw1) /\
    pull_strings binary_string 5 raw1 = Ok ([s; d; service_session i; operation_id i; message_id i], raw2) /\
    binary_integer raw2 = Ok (Z.lor (receipt_bit (receipt i)) (if opaque then 2 else 0), raw3) /\
    pull_receipt binary_string (receipt_bit (receipt i)) raw3 = Ok (receipt i, rest);
  read_bounds : 0 <= source_generation i <= MAX_SAFE_INTEGER /\ 0 <= source_sequence i <= MAX_SAFE_INTEGER;
  read_bytes : is_bytes header /\ zlen header <= 7 * 65538 + 57
}.

Lemma encodeBinaryHeader_read i index count opaque header :
  identity_ok i -> encodeBinaryHeader i index count opaque = Ok header ->
  exists s d, encodeNode (source i) = Ok s /\ encode_destination (destination i) = Ok d /\
    header_read i index count opaque s d header.
Proof using.
  intros Hi H. unfold encodeBinaryHeader in H.
  apply bind_ok in H as (integers & E1 & H). apply bind_ok in H as (s & Es & H).
  apply bind_ok in H as (d & Ed & H). apply bind_ok in H as (strings & E2 & H).
  apply bind_ok in H as (flag & E3 & H). apply bind_ok in H as (receipts & E4 & H). injection H as <-.
  exists s, d. split; [done |]. split; [done |].
  destruct (header_strings_codec i s d Hi Es Ed) as [F1 F2].
  pose proof (Forall_weaken _ _ _ F1 binary_string_codec) as C1.
  pose proof (Forall_weaken _ _ _ F2 binary_string_codec) as C2.
  set (t := "Truncated binary-v1 frame"%string). set (e := "Invalid binary-v1 frame integer"%string).
  destruct (pull_integers_written t e _ _ [] E1) as (_ & Hf & Hb1 & Hl1).
  destruct (pull_strings_written _ _ _ C1 _ [] E2) as (_ & Hb2 & Hl2).
  destruct (pull_receipt_written _ _ _ _ [] C2 E4) as (_ & Hb4 & Hl4).
  apply frame_varint_ok in E3 as [Hv ->].
  destruct (flag_bits i opaque) as (Hflag & _).
  split.
  - intros rest. rewrite <- !app_assoc. do 3 eexists.
    split; [exact (proj1 (pull_integers_written t e _ _ _ E1)) |].
    split; [exact (proj1 (pull_strings_written _ _ _ C1 _ _ E2)) |].
    split; [by apply readVarint_digits |].
    exact (proj1 (pull_receipt_written _ _ _ _ rest C2 E4)).
  - pose proof (proj1 (Forall_elem _ _) Hf) as Hf'. unfold header_integers in Hf'.
    split; apply Hf'; rewrite !elem_of_cons; tauto.
  - split.
    + repeat apply is_bytes_app; try done. apply varint_digits_bytes. lia.
    + rewrite !zlen_app. set (flag := Z.lor _ _) in *.
      pose proof (varint_digits_short 1 8 flag ltac:(lia) ltac:(change (128 ^ Z.of_nat 1) with 128; lia)).
      change (zlen (header_integers i index count)) with 7 in Hl1. change (zlen [s; d; _; _; _]) with 5 in Hl2.
      lia.
Qed.

Lemma payload_guard i s d index count payload :
  zlen payload <= MAX_LINK_MESSAGE_BYTES ->
  (guard! zlen payload <=? MAX_LINK_MESSAGE_BYTES else RangeError "Link payload exceeds 128 KiB" in
   header_object (header_integers i index count) [s; d; service_session i; operation_id i; message_id i] (receipt i) payload)
  = Ok (wire_object i s d index count payload).
Proof using.
  intros Hs. destruct (Z.leb_spec (zlen payload) MAX_LINK_MESSAGE_BYTES); [by apply header_object_wire | lia].
Qed.

(** The part of [decodeBinaryBody] after the header. *)
Lemma decodeBinaryBody_header i index count opaque s d header rest separate mode encoded payload :
  identity_ok i -> header_read i index count opaque s d header ->
  match separate with
  | Some p => rest = [] /\ encoded = p /\ opaque = true
  | None => rest <> [] /\ if opaque then encoded = rest else decodeBinaryPayload sha256_hex rest 0 = Ok encoded
  end ->
  match mode with
  | Some m => opaque = true /\ restoreValue m encoded = Ok payload
  | None => payload = encoded
  end ->
  zlen payload <= MAX_LINK_MESSAGE_BYTES ->
  decodeBinaryBody (header ++ rest) separate mode = Ok (wire_object i s d index count payload).
Proof using.
  intros Hi [Hread _ _] Hsep Hmode Hsize. destruct (Hread rest) as (raw1 & raw2 & raw3 & R1 & R2 & R3 & R4).
  unfold decodeBinaryBody. rewrite R1. cbn [bind_result]. rewrite R2. cbn [bind_result]. rewrite R3. cbn [bind_result].
  destruct (flag_bits i opaque) as (Hflag & Hland1 & Hland2).
  set (flag := Z.lor _ _) in *. rewrite Hland1, Hland2.
  destruct (Z.ltb_spec flag 0); [lia |]. destruct (Z.ltb_spec 3 flag); [lia |]. cbn [orb negb].
  fold (pull_receipt binary_string (receipt_bit (receipt i)) raw3).
  rewrite R4. cbn [bind_result].
  destruct separate as [p |].
  - destruct Hsep as (-> & -> & ->). rewrite bool_decide_true by done. cbn [andb negb Z.eqb Pos.eqb bind_result].
    destruct mode as [m |]; [destruct Hmode as [_ Hm]; rewrite Hm | subst]; cbn [Z.eqb Pos.eqb negb bind_result];
      by apply payload_guard.
  - destruct Hsep as [Hrest Hsep]. rewrite bool_decide_false by done. cbn [negb].
    destruct mode as [m |].
    + destruct Hmode as [-> Hm]. subst encoded. cbn [Z.eqb Pos.eqb negb bind_result]. rewrite Hm. cbn [bind_result].
      by apply payload_guard.
    + subst payload. destruct opaque; [subst encoded | rewrite Hsep]; cbn [Z.eqb Pos.eqb negb bind_result];
        by apply payload_guard.
Qed.

(** ** The deflate encodings *)

Lemma compact_of_wire i index count payload c : compact_of i index count payload = Ok c ->
  exists s d, encodeNode (source i) = Ok s /\ encode_destination (destination i) = Ok d /\
    c = wire_object i s d index count payload.
Proof using.
  unfold compact_of. intros H. apply bind_ok in H as (s & Es & H). exists s.
  destruct (destination i) as [node |] eqn:Ed; cbn [encode_destination].
  - apply bind_ok in H as (dest & H1 & H). apply bind_ok in H1 as (text & H1 & E). injection E as <-.
    exists text. injection H as <-. split; [done |]. split; [done |]. unfold wire_object.
    apply decodeNode_encodeNode in H1 as (_ & _ & Hne & _). by rewrite bool_decide_false.
  - cbn [bind_result] in H. injection H as <-. exists []. split; [done |]. split; [done |]. unfold wire_object.
    by rewrite bool_decide_true.
Qed.

Definition is_deflate (encoding : FrameEncoding) : Prop :=
  encoding = deflate_v1 \/ encoding = deflate_v2 \/ encoding = deflate_v3.

Definition has_receipts (encoding : FrameEncoding) : bool := match encoding with deflate_v3 => true | _ => false end.

(** What [decodeCompressedFrame] reads before it reaches the payload. *)
Record legacy_read (i : FrameIdentity) (s d : list Z) (index count : Z) (encoding : FrameEncoding) (fields : list Z) : Prop := {
  legacy_pinned : match encoding with deflate_v2 | deflate_v3 => assertPinnedDictionary | _ => Ok tt end = Ok tt;
  legacy_fields rest : exists raw1 raw2 raw3,
    pull_integers compressed_integer 7 (fields ++ rest) = Ok (header_integers i index count, raw1) /\
    pull_strings compressed_string 5 raw1 = Ok ([s; d; service_session i; operation_id i; message_id i], raw2) /\
    match encoding with deflate_v3 => compressed_integer raw2 | _ => Ok (0, raw2) end
      = Ok (receipt_bit (receipt i), raw3) /\
    pull_receipt compressed_string (receipt_bit (receipt i)) raw3 = Ok (receipt i, rest);
  legacy_bounds : 0 <= source_generation i <= MAX_SAFE_INTEGER /\ 0 <= source_sequence i <= MAX_SAFE_INTEGER;
  legacy_size : zlen fields <= match encoding with deflate_v3 => 7 * 65538 + 57 | _ => 5 * 65538 + 56 end
}.

Lemma legacy_strings_codec i s d :
  identity_ok i -> header_no_bom i -> encodeNode (source i) = Ok s -> encode_destination (destination i) = Ok d ->
  Forall (string_codec (legacy_string "Link header field is too large") compressed_string)
    [s; d; service_session i; operation_id i; message_id i] /\
  Forall (string_codec (legacy_string "Link receipt field is too large") compressed_string) (receipt_fields (receipt i)).
Proof using.
  intros Hi (Bx & Bo & Bm & Br) Es Ed. destruct (header_strings_codec i s d Hi Es Ed) as [F1 F2].
  apply decodeNode_encodeNode in Es as (_ & Bs & _). apply encode_destination_spec in Ed as (_ & Bd & _).
  rewrite !list.Forall_cons in F1. destruct F1 as (J1 & J2 & J3 & J4 & J5 & _).
  split; [repeat (apply List.Forall_cons; [by apply legacy_string_codec |]); apply List.Forall_nil |].
  destruct (receipt i) as [r |]; [| constructor]. cbn [receipt_fields] in *.
  rewrite !list.Forall_cons in F2, Br. destruct F2 as (K1 & K2 & _), Br as (B1 & B2 & _).
  repeat (apply List.Forall_cons; [by apply legacy_string_codec |]). apply List.Forall_nil.
Qed.

Lemma legacy_header_read i s d index count payload encoding fields :
  identity_ok i -> header_no_bom i -> is_deflate encoding -> (has_receipts encoding = false -> receipt i = None) ->
  encodeNode (source i) = Ok s -> encode_destination (destination i) = Ok d ->
  legacy_header (wire_object i s d index count payload) encoding = Ok fields ->
  legacy_read i s d index count encoding fields.
Proof using.
  intros Hi Hb He Hr Es Ed H. destruct (legacy_strings_codec i s d Hi Hb Es Ed) as [C1 C2].
  unfold legacy_header in H. apply bind_ok in H as (integers & E1 & H). apply bind_ok in H as (strings & E2 & H).
  change (write_all frame_varint (header_integers i index count) = Ok integers) in E1.
  assert (Edef : default [] (c_d (wire_object i s d index count payload)) = d).
  { cbn. destruct (bool_decide_reflect (d = [])); [by subst | done]. }
  rewrite Edef in E2. cbn [wire_object c_receipt c_s c_x c_o c_m] in *.
  set (t := "Truncated compressed frame"%string). set (e := "Invalid compressed frame integer"%string).
  pose proof (fun rest => pull_integers_written t e _ _ rest E1) as P1.
  pose proof (fun rest => pull_strings_written _ _ _ C1 _ rest E2) as P2.
  destruct (P1 []) as (_ & Hf & _ & Hl1). destruct (P2 []) as (_ & _ & Hl2).
  change (zlen (header_integers i index count)) with 7 in Hl1. change (zlen [s; d; _; _; _]) with 5 in Hl2.
  assert (Hbounds : 0 <= source_generation i <= MAX_SAFE_INTEGER /\ 0 <= source_sequence i <= MAX_SAFE_INTEGER).
  { pose proof (proj1 (Forall_elem _ _) Hf) as Hf'. unfold header_integers in Hf'.
    split; apply Hf'; rewrite !elem_of_cons; tauto. }
  assert (Hplain : forall ok : assertPinnedDictionary = Ok tt \/ encoding = deflate_v1, encoding <> deflate_v3 ->
    fields = integers ++ strings -> legacy_read i s d index count encoding fields).
  { intros ok Hne ->. assert (receipt i = None) as Hnone by (apply Hr; by destruct encoding).
    split; [| | done |].
    - destruct encoding, ok; done.
    - intros rest. exists (strings ++ rest), rest, rest. rewrite <- app_assoc, Hnone.
      split; [apply P1 |]. split; [apply P2 |]. split; [by destruct encoding | done].
    - rewrite zlen_app. destruct encoding; try lia; done. }
  destruct He as [-> | [-> | ->]].
  - injection H as <-. apply Hplain; auto.
  - apply bind_ok in H as ([] & Ha & H). injection H as <-. apply Hplain; auto.
  - apply bind_ok in H as ([] & Ha & H). apply bind_ok in H as (flag & E3 & H).
    apply bind_ok in H as (receipts & E4 & H). injection H as <-.
    apply frame_varint_ok in E3 as [Hv ->].
    pose proof (fun rest => pull_receipt_written _ _ _ _ rest C2 E4) as P4.
    split; [done | | done |].
    + intros rest. rewrite <- !app_assoc. do 3 eexists. split; [apply P1 |]. split; [apply P2 |].
      split; [by apply readVarint_digits | apply P4].
    + rewrite !zlen_app. destruct (P4 []) as (_ & _ & Hl4).
      assert (0 <= receipt_bit (receipt i) <= 1) by (destruct (receipt i); cbn; lia).
      pose proof (varint_digits_short 1 8 (receipt_bit (receipt i)) ltac:(lia) ltac:(change (128 ^ Z.of_nat 1) with 128; lia)).
      lia.
Qed.

Lemma decodeCompressedFrame_body i s d index count payload encoding bs :
  identity_ok i -> header_no_bom i -> is_deflate encoding -> (has_receipts encoding = false -> receipt i = None) ->
  encodeNode (source i) = Ok s -> encode_destination (destination i) = Ok d ->
  zlen payload <= MAX_LINK_MESSAGE_BYTES ->
  deflate_body (wire_object i s d index count payload) payload encoding = Ok bs ->
  decodeCompressedFrame bs encoding = Ok (wire_object i s d index count payload) /\
  (0 <= source_generation i <= MAX_SAFE_INTEGER /\ 0 <= source_sequence i <= MAX_SAFE_INTEGER).
Proof.
  intros Hi Hb He Hr Es Ed Hs H. unfold deflate_body in H. apply bind_ok in H as (fields & E1 & H). injection H as <-.
  destruct (legacy_header_read _ _ _ _ _ _ _ _ Hi Hb He Hr Es Ed E1) as [Hp Hfields Hbounds Hsize].
  split; [| done]. destruct (Hfields payload) as (raw1 & raw2 & raw3 & R1 & R2 & R3 & R4).
  unfold decodeCompressedFrame. rewrite Hp. cbn [bind_result].
  rewrite take_app_length, drop_app_length, bool_decide_true by done.
  rewrite inflate_deflate by (rewrite zlen_app; destruct He as [-> | [-> | ->]]; lia). cbn [bind_result].
  rewrite R1. cbn [bind_result]. rewrite R2. cbn [bind_result]. rewrite R3. cbn [bind_result].
  assert (Hflag : (receipt_bit (receipt i) =? 0) || (receipt_bit (receipt i) =? 1) = true) by by destruct (receipt i).
  rewrite Hflag. fold (pull_receipt compressed_string (receipt_bit (receipt i)) raw3). rewrite R4. cbn [bind_result].
  by apply payload_guard.
Qed.

(** ** The binary encodings *)

Lemma default_binary i payload binaryPayload index count fields s d :
  identity_ok i -> is_bytes payload -> payload <> [] -> zlen payload <= MAX_LINK_MESSAGE_BYTES ->
  encodeBinaryPayload sha256_hex payload = Ok binaryPayload ->
  header_read i index count (match binaryPayload with None => true | Some _ => false end) s d fields ->
  decodeBinaryBody (fields ++ default payload binaryPayload) None None = Ok (wire_object i s d index count payload).
Proof using.
  intros Hi Hb Hne Hs Hbin Hread. eapply decodeBinaryBody_header; [done | done | | reflexivity | done].
  destruct binaryPayload as [output |]; [change (default payload (Some output)) with output | done].
  assert (Hdec : decodeBinaryPayload sha256_hex output 0 = Ok payload) by exact (binary_payload_inverts sha256_hex payload output [] Hb Hs Hbin).
  split; [| done]. apply decodeBinaryPayload_nonempty in Hdec. by intros ->.
Qed.

Lemma decodeBinaryFrame_body i index count payload bs :
  identity_ok i -> is_bytes payload -> payload <> [] -> zlen payload <= MAX_LINK_MESSAGE_BYTES ->
  zlen bs <= MESHTASTIC_APPLICATION_PAYLOAD_BYTES -> encodeBinaryFrame i index count payload = Ok bs ->
  nthZ bs 0 = Some BINARY_V1_MARKER /\
  exists s d, encodeNode (source i) = Ok s /\ encode_destination (destination i) = Ok d /\
    decodeBinaryFrame bs = Ok (wire_object i s d index count payload) /\
    (0 <= source_generation i <= MAX_SAFE_INTEGER /\ 0 <= source_sequence i <= MAX_SAFE_INTEGER).
Proof.
  intros Hi Hb Hne Hs Hfit H. unfold encodeBinaryFrame in H. apply bind_ok in H as (binaryPayload & E1 & H).
  apply bind_ok in H as (fields & E2 & H). apply bind_ok in H as ([] & Ha & H). injection H as <-.
  destruct (encodeBinaryHeader_read _ _ _ _ _ Hi E2) as (s & d & Es & Ed & Hread).
  split; [done |]. exists s, d. split; [done |]. split; [done |]. split; [| apply Hread].
  unfold decodeBinaryFrame. rewrite Ha. cbn [bind_result].
  rewrite bool_decide_true by done. rewrite zlen_cons in Hfit.
  set (body := fields ++ default payload binaryPayload) in *.
  change (drop 1 (BINARY_V1_MARKER :: deflateRawSync dictionary body)) with (deflateRawSync dictionary body).
  pose proof (deflate_ratio dictionary body). unfold MESHTASTIC_APPLICATION_PAYLOAD_BYTES in Hfit.
  rewrite inflate_deflate by (unfold MAX_LINK_MESSAGE_BYTES; lia). cbn [bind_result].
  by apply default_binary.
Qed.

Lemma read_nonempty i index count opaque s d header : header_read i index count opaque s d header -> 0 < zlen header.
Proof using.
  intros [Hread _ _]. destruct (Hread []) as (raw1 & raw2 & raw3 & R1 & _).
  destruct header as [| h header]; [discriminate R1 |]. rewrite zlen_cons. pose proof (zlen_nonneg header). lia.
Qed.

Lemma decodeMessageFrame_body i index count payload bs :
  identity_ok i -> payload <> [] -> zlen payload <= MAX_LINK_MESSAGE_BYTES ->
  encodeMessageFrame i index count payload = Ok bs ->
  nthZ bs 0 = Some MESSAGE_V1_MARKER /\
  exists s d, encodeNode (source i) = Ok s /\ encode_destination (destination i) = Ok d /\
    decodeMessageFrame bs = Ok (wire_object i s d index count payload) /\
    (0 <= source_generation i <= MAX_SAFE_INTEGER /\ 0 <= source_sequence i <= MAX_SAFE_INTEGER).
Proof.
  intros Hi Hne Hs H. unfold encodeMessageFrame in H. apply bind_ok in H as ([] & Ha & H).
  apply bind_ok in H as (fields & E1 & H).
  destruct (encodeBinaryHeader_read _ _ _ _ _ Hi E1) as (s & d & Es & Ed & Hread).
  set (header := deflateRawSync dictionary fields) in *.
  destruct (Z.leb_spec (zlen header) 255); [| done]. injection H as <-.
  split; [done |]. exists s, d. split; [done |]. split; [done |]. split; [| apply Hread].
  pose proof (read_nonempty _ _ _ _ _ _ _ Hread). pose proof (deflate_ratio dictionary fields). fold header in H1.
  pose proof (zlen_nonneg header).
  assert (0 < zlen payload) by (destruct payload as [| x p]; [done |]; rewrite zlen_cons; pose proof (zlen_nonneg p); lia).
  unfold decodeMessageFrame. rewrite Ha. cbn [bind_result].
  change ([MESSAGE_V1_MARKER; zlen header] ++ header ++ payload) with (MESSAGE_V1_MARKER :: zlen header :: header ++ payload).
  rewrite (nthZ_lookup _ 1 : nthZ _ 1 = _). cbn [lookup list_lookup from_option bind_result].
  rewrite !zlen_cons, zlen_app.
  destruct (Z.eqb_spec (zlen header) 0); [lia |]. destruct (Z.leb_spec (1 + (1 + (zlen header + zlen payload))) (zlen header + 2)); [lia |].
  cbn [orb negb skipn Nat.add].
  rewrite drop_0, take_zlen_app, drop_zlen_app. unfold header at 1.
  destruct (read_bytes _ _ _ _ _ _ _ Hread) as [_ R4]. rewrite inflate_deflate by lia. cbn [bind_result].
  fold header. rewrite Z.eqb_refl. rewrite <- (app_nil_r fields) at 1.
  eapply decodeBinaryBody_header; [done | done | done | reflexivity | done].
Qed.

Lemma restoreValue_nonempty mode value payload : restoreValue mode value = Ok payload -> value <> [].
Proof using.
  unfold restoreValue. intros H ->. apply bind_ok in H as ([] & _ & H). apply bind_ok in H as (restored & H1 & H).
  destruct (mode mod 3 =? 0).
  - injection H1 as <-. discriminate H.
  - destruct (mode mod 3 =? 1); [by apply decodeBinaryPayload_nonempty in H1 |].
    unfold decodeCompactValue in H1. inv_result. discriminate.
Qed.

Lemma decodeMethodFrame_body i payload header method :
  identity_ok i -> is_bytes payload -> payload <> [] -> zlen payload <= MAX_LINK_MESSAGE_BYTES ->
  encodeBinaryHeader i 0 1 true = Ok header -> compressValue payload header = Ok method ->
  nthZ (method_frame method) 0 = Some METHOD_FRAME_MARKER /\
  exists s d, encodeNode (source i) = Ok s /\ encode_destination (destination i) = Ok d /\
    decodeMethodFrame (method_frame method) = Ok (wire_object i s d 0 1 payload) /\
    (0 <= source_generation i <= MAX_SAFE_INTEGER /\ 0 <= source_sequence i <= MAX_SAFE_INTEGER).
Proof.
  intros Hi Hb Hne Hs E1 E2. destruct method as [mode bs].
  destruct (encodeBinaryHeader_read _ _ _ _ _ Hi E1) as (s & d & Es & Ed & Hread).
  split; [done |]. exists s, d. split; [done |]. split; [done |]. split; [| apply Hread].
  destruct (read_bytes _ _ _ _ _ _ _ Hread) as [R3 R4].
  assert (0 < zlen payload) by (destruct payload as [| x p]; [done |]; rewrite zlen_cons; pose proof (zlen_nonneg p); lia).
  destruct (compressValue_inverts payload header mode bs (MAX_LINK_MESSAGE_BYTES * 8 + 7 * 65538 + 64) Hb R3)
    as (value & D1 & D2 & _); try done; unfold MAX_LINK_MESSAGE_BYTES, MAX_MESSAGE_BYTES, ZSTD_LIMIT in *; try lia.
  unfold decodeMethodFrame, method_frame. cbn [fst snd].
  rewrite (nthZ_lookup _ 1 : nthZ _ 1 = _). change (default (-1) (([METHOD_FRAME_MARKER; mode] ++ bs) !! 1%nat)) with mode. change (drop 2 ([METHOD_FRAME_MARKER; mode] ++ bs)) with bs.
  unfold MAX_LINK_MESSAGE_BYTES. rewrite D1. cbn [bind_result].
  rewrite (decodeBinaryBody_header i 0 1 true s d header value None (Some mode) value payload); try done.
  split; [by eapply restoreValue_nonempty | done].
Qed.

(** ** One frame *)

(** A chunk the link sends: some bytes of a message, at a place among at most
    4096, with a receipt only where [validateReceipt] admits one. *)
Record sendable (i : FrameIdentity) (index count : Z) (payload : list Z) : Prop := {
  send_identity : identity_ok i;
  send_no_bom : header_no_bom i;
  send_bytes : is_bytes payload;
  send_nonempty : payload <> [];
  send_size : zlen payload <= MAX_LINK_MESSAGE_BYTES;
  send_chunk : 0 <= index < count /\ count <= MAX_LINK_FRAGMENTS;
  send_receipt : exists encoding, validateReceipt i encoding index count = Ok tt
}.

Lemma decodeFrame_wire i s d index count payload bs :
  sendable i index count payload -> encodeNode (source i) = Ok s -> encode_destination (destination i) = Ok d ->
  (0 <= source_generation i <= MAX_SAFE_INTEGER /\ 0 <= source_sequence i <= MAX_SAFE_INTEGER) ->
  zlen bs <= MESHTASTIC_APPLICATION_PAYLOAD_BYTES ->
  decode_by_marker bs = Ok (wire_object i s d index count payload) ->
  (receipt i = None \/ carries_receipt (nthZ bs 0) = true) ->
  decodeFrame bs = Ok (mkFrame i index count payload).
Proof using.
  intros [Hi _ Hb Hne _ Hc Hr] Es Ed [Hg Hq] Hfit Hd Hrec. unfold decodeFrame.
  destruct (Z.leb_spec (zlen bs) MESHTASTIC_APPLICATION_PAYLOAD_BYTES); [| lia]. rewrite Hd. cbn [bind_result].
  destruct (wire_object_valid i s d index count payload Hi) as [-> Hframe]; [by constructor | done | done |].
  change (c_receipt (wire_object i s d index count payload)) with (receipt i).
  destruct (receipt i); [| done]. by destruct Hrec as [? | ->].
Qed.

Lemma marker_head (bs : list Z) m : nthZ bs 0 = Some m -> exists tail, bs = m :: tail.
Proof using.
  rewrite (nthZ_lookup bs 0 : nthZ bs 0 = _). destruct bs as [| b bs]; [done |]. intros [= ->]. by exists bs.
Qed.

Lemma encodeDeflateFrame_decodes encoding i index count payload bs :
  is_deflate encoding -> sendable i index count payload ->
  encodeDeflateFrame encoding i index count payload = Ok bs -> zlen bs <= MESHTASTIC_APPLICATION_PAYLOAD_BYTES ->
  decodeFrame bs = Ok (mkFrame i index count payload).
Proof.
  intros He Hsend H Hfit. unfold encodeDeflateFrame in H. apply bind_ok in H as ([] & Hv & H).
  apply bind_ok in H as (c & Hc & H). apply compact_of_wire in Hc as (s & d & Es & Ed & ->).
  apply validateReceipt_ok in Hv as [Hv _].
  assert (Hnone : has_receipts encoding = false -> receipt i = None).
  { intros Hn. destruct (receipt i); [| done]. by destruct Hv as [-> | [-> | [-> | ->]]], He as [| []]. }
  pose proof Hsend as [Hi Hbom Hb Hne Hs _ _].
  destruct (decodeCompressedFrame_body i s d index count payload encoding bs Hi Hbom He Hnone Es Ed Hs H) as [Hdec Hbounds].
  assert (Hhead : exists tail, bs = default 0 (nthZ (deflate_prefix encoding) 0) :: tail).
  { unfold deflate_body in H. apply bind_ok in H as (fields & _ & H). injection H as <-.
    destruct He as [-> | [-> | ->]]; by eexists. }
  destruct Hhead as [tail ->]. eapply decodeFrame_wire; try done.
  - destruct He as [-> | [-> | ->]]; exact Hdec.
  - destruct He as [-> | [-> | ->]]; [left; by apply Hnone | left; by apply Hnone | by right].
Qed.

Lemma encodeBinaryFrame_decodes i index count payload bs :
  sendable i index count payload -> encodeBinaryFrame i index count payload = Ok bs ->
  zlen bs <= MESHTASTIC_APPLICATION_PAYLOAD_BYTES -> decodeFrame bs = Ok (mkFrame i index count payload).
Proof.
  intros Hsend H Hfit. pose proof Hsend as [Hi _ Hb Hne Hs _ _].
  destruct (decodeBinaryFrame_body i index count payload bs Hi Hb Hne Hs Hfit H) as (Hm & s & d & Es & Ed & Hdec & Hbounds).
  apply marker_head in Hm as [tail ->]. eapply decodeFrame_wire; [done | done | done | done | done | exact Hdec | by right].
Qed.

Lemma encodeAdaptiveBinaryFrame_decodes i index count payload bs :
  sendable i index count payload -> encodeAdaptiveBinaryFrame i index count payload = Ok bs ->
  zlen bs <= MESHTASTIC_APPLICATION_PAYLOAD_BYTES -> decodeFrame bs = Ok (mkFrame i index count payload).
Proof.
  intros Hsend H Hfit. unfold encodeAdaptiveBinaryFrame in H. apply bind_ok in H as (binary & Hb & H).
  apply bind_ok in H as (legacy & _ & H). destruct legacy; cbn [negb] in H.
  - apply bind_ok in H as (fallback & Hf & H). destruct (zlen fallback <=? zlen binary); injection H as <-.
    + eapply encodeDeflateFrame_decodes; [| done | exact Hf | done]. unfold is_deflate. destruct (receipt i); auto.
    + by eapply encodeBinaryFrame_decodes.
  - injection H as <-. by eapply encodeBinaryFrame_decodes.
Qed.

Lemma encodeMessageFrame_decodes i index count payload bs :
  sendable i index count payload -> encodeMessageFrame i index count payload = Ok bs ->
  zlen bs <= MESHTASTIC_APPLICATION_PAYLOAD_BYTES -> decodeFrame bs = Ok (mkFrame i index count payload).
Proof.
  intros Hsend H Hfit. pose proof Hsend as [Hi _ Hb Hne Hs _ _].
  destruct (decodeMessageFrame_body i index count payload bs Hi Hne Hs H) as (Hm & s & d & Es & Ed & Hdec & Hbounds).
  apply marker_head in Hm as [tail ->]. eapply decodeFrame_wire; [done | done | done | done | done | exact Hdec | by right].
Qed.

Lemma method_frame_decodes i payload header method :
  sendable i 0 1 payload -> encodeBinaryHeader i 0 1 true = Ok header -> compressValue payload header = Ok method ->
  zlen (method_frame method) <= MESHTASTIC_APPLICATION_PAYLOAD_BYTES ->
  decodeFrame (method_frame method) = Ok (mkFrame i 0 1 payload).
Proof.
  intros Hsend H1 H2 Hfit. pose proof Hsend as [Hi _ Hb Hne Hs _ _].
  destruct (decodeMethodFrame_body i payload header method Hi Hb Hne Hs H1 H2) as (Hm & s & d & Es & Ed & Hdec & Hbounds).
  eapply decodeFrame_wire; [done | done | done | done | done | exact Hdec | by right].
Qed.

Lemma encodeCompactFrame_decodes i index count payload encoding bs :
  encoding <> canonical_json -> sendable i index count payload ->
  encodeCompactFrame i index count payload encoding = Ok bs -> zlen bs <= MESHTASTIC_APPLICATION_PAYLOAD_BYTES ->
  decodeFrame bs = Ok (mkFrame i index count payload).
Proof.
  intros Henc Hsend H Hfit. unfold encodeCompactFrame in H.
  destruct encoding; try done;
    try (eapply encodeDeflateFrame_decodes; [| done | exact H | done]; unfold is_deflate; auto; fail);
    apply bind_ok in H as ([] & _ & H); apply bind_ok in H as (c & _ & H);
    first [by eapply encodeAdaptiveBinaryFrame_decodes | by eapply encodeMessageFrame_decodes].
Qed.
End decode.
