(* ===== verification/FrameJson.v ===== *)
(** * Canonical JSON frames ([frame.ts])

    The wire object of a chunk survives [encodeCanonicalJSON] and
    [decodeJSON], so every encoding of one frame is lossless. *)

From Stdlib Require Import ZArith Lia String.
From stdpp Require Import base list option.
From S2P Require Import Prelude JsMap BinaryIO Wtf8 Json Utf8Text JsonText BinaryCodec CompactValue CompactSize JsonRoundtrip CompactCodec Base64 Compression LinkTypes Frame FrameCodec.

(** ** Integers *)

Lemma f64_integer_fields n : 0 < n <= MAX_SAFE_INTEGER ->
  let l := Z.log2 n in
  0 <= l <= 52 /\ f64_negative (f64_of_integer n) = false /\
  f64_exponent (f64_of_integer n) = l + 1023 /\ f64_mantissa (f64_of_integer n) = n * 2 ^ (52 - l) - 2 ^ 52.
Proof.
  intros Hn l. assert (Hl : 0 <= l <= 52).
  { unfold l. split; [apply Z.log2_nonneg |]. assert (Z.log2 n < 53); [| lia]. apply Z.log2_lt_pow2; unfold MAX_SAFE_INTEGER in *; lia. }
  destruct (Z.log2_spec n ltac:(lia)) as [L1 L2]. fold l in L1, L2.
  assert (E1 : 2 ^ 52 = 2 ^ l * 2 ^ (52 - l)) by (rewrite <- Z.pow_add_r by lia; f_equal; lia).
  assert (E2 : 2 ^ 53 = 2 ^ Z.succ l * 2 ^ (52 - l)) by (rewrite <- Z.pow_add_r by lia; f_equal; lia).
  pose proof (pow2_pos (52 - l) ltac:(lia)) as Hp.
  assert (Hm : 0 <= n * 2 ^ (52 - l) - 2 ^ 52 < 2 ^ 52).
  { rewrite E1 at 1 3. split; [nia |]. assert (n * 2 ^ (52 - l) < 2 ^ 53) by (rewrite E2; nia). lia. }
  set (mt := n * 2 ^ (52 - l) - 2 ^ 52) in *.
  assert (E : f64_of_integer n = (l + 1023) * 2 ^ 52 + mt).
  { pose proof (f64_of_integer_magnitude n false ltac:(lia)) as E. cbn [Z.add] in E. fold l mt in E. lia. }
  rewrite E. split; [done |].
  assert (Hdiv : ((l + 1023) * 2 ^ 52 + mt) / 2 ^ 52 = l + 1023) by (symmetry; apply (Z.div_unique_pos _ _ _ mt); lia).
  split; [| split].
  - unfold f64_negative. apply Z.leb_gt. change (2 ^ 63) with (2048 * 2 ^ 52). lia.
  - unfold f64_exponent. rewrite Hdiv. apply Z.mod_small. lia.
  - unfold f64_mantissa. symmetry. apply (Z.mod_unique_pos _ _ (l + 1023)); lia.
Qed.

Lemma f64_safe_of_integer n : 0 <= n <= MAX_SAFE_INTEGER ->
  f64_safe_integer (f64_of_integer n) = Some n /\ printed_bits (f64_of_integer n) = f64_of_integer n.
Proof.
  intros Hn. destruct (Z.eq_dec n 0) as [-> | Hne]; [done |].
  destruct (f64_integer_fields n ltac:(lia)) as (Hl & Hneg & He & Hm). set (l := Z.log2 n) in *.
  assert (Hsig : f64_significand (f64_of_integer n) = n * 2 ^ (52 - l)).
  { unfold f64_significand. rewrite He, Hm. destruct (Z.eqb_spec (l + 1023) 0); lia. }
  assert (Hsc : f64_scale (f64_of_integer n) = l - 52).
  { unfold f64_scale. rewrite He. destruct (Z.eqb_spec (l + 1023) 0); lia. }
  pose proof (pow2_pos (52 - l) ltac:(lia)) as Hp.
  split.
  - unfold f64_safe_integer, f64_magnitude. rewrite Hneg, Hsig, Hsc.
    assert (Hmag : (if 0 <=? l - 52 then Some (n * 2 ^ (52 - l) * 2 ^ (l - 52))
      else if (n * 2 ^ (52 - l)) mod 2 ^ (- (l - 52)) =? 0 then Some (n * 2 ^ (52 - l) / 2 ^ (- (l - 52))) else None) = Some n).
    { destruct (Z.leb_spec 0 (l - 52)).
      - replace (52 - l) with 0 by lia. replace (l - 52) with 0 by lia. f_equal. lia.
      - replace (- (l - 52)) with (52 - l) by lia. rewrite Z.mod_mul, Z.div_mul by lia. done. }
    rewrite Hmag. destruct (Z.leb_spec n MAX_SAFE_INTEGER); [done | lia].
  - unfold printed_bits. rewrite Hsig. destruct (Z.eqb_spec (n * 2 ^ (52 - l)) 0); [nia | done].
Qed.

(** ** The wire object *)

Definition compact_members (c : CompactFrame) : list (list Z * json) :=
  match compact_json c with JObject m => m | _ => [] end.

Record compact_ok (c : CompactFrame) : Prop := {
  ok_integers : Forall (fun n => 0 <= n <= MAX_SAFE_INTEGER) [c_v c; c_g c; c_q c; c_i c; c_n c];
  ok_strings : Forall is_jsstr [c_k c; c_s c; default [] (c_d c); c_x c; c_o c; c_m c; c_y c; c_p c];
  ok_no_receipt : c_receipt c = None
}.

Lemma json_int_wf n : 0 <= n <= MAX_SAFE_INTEGER -> wf_json (json_int n).
Proof. intros Hn. constructor. apply (f64_of_integer_wf n). lia. Qed.

Lemma compact_json_wf c : compact_ok c -> wf_json (compact_json c) /\ jwf (compact_members c).
Proof.
  intros [Hi Hs Hr]. rewrite !list.Forall_cons in Hi. rewrite !list.Forall_cons in Hs.
  destruct Hi as (I1 & I2 & I3 & I4 & I5 & _). destruct Hs as (S1 & S2 & S3 & S4 & S5 & S6 & S7 & S8 & _).
  assert (Hw : jwf (compact_members c)).
  { unfold compact_members, compact_json. rewrite Hr. apply (bool_decide_unpack (NoDup _)).
    destruct (c_d c); vm_compute; exact I. }
  split; [| done]. unfold compact_members in Hw. apply wf_object; [exact Hw |]. rewrite Hr, app_nil_r.
  pose proof (fun n H => json_int_wf n H) as Hint.
  repeat apply Forall_app_2; repeat (apply List.Forall_cons; [split; [apply (bool_decide_unpack (Forall is_unit _)); by vm_compute |] |]);
    try apply List.Forall_nil; cbn [snd]; try (by apply Hint); try (by constructor).
  destruct (c_d c) as [d |]; [| constructor]. apply List.Forall_cons; [| apply List.Forall_nil].
  split; [apply (bool_decide_unpack (Forall is_unit _)); by vm_compute | by constructor].
Qed.

(** Looking a member up commutes with the canonical form. *)
Lemma canon_lookup w m : wf_json w -> jwf m -> canon w = canon (JObject m) ->
  exists m', w = JObject m' /\ forall k, canon <$> jget k m' = canon <$> jget k m.
Proof.
  intros Hw Hm H. destruct w as [| | | | | m']; try discriminate H. exists m'. split; [done |]. intros k.
  inversion Hw as [| | | | | ? Hm' _]; subst. injection H as H.
  assert (Hlook : forall l : list (list Z * json), jwf l -> jget k (sort_entries (map (map_snd canon) l)) = canon <$> jget k l).
  { intros l Hl. rewrite jget_sort_entries by (unfold jwf; by rewrite jkeys_map_snd).
    clear. induction l as [| [k' v] l IH]; [done |]. cbn. by case_decide. }
  rewrite <- !Hlook by done. by rewrite H.
Qed.

Lemma jget_unsigned k (m : list (list Z * json)) : jget k (map (map_snd unsigned_zero) m) = unsigned_zero <$> jget k m.
Proof. induction m as [| [k' v] m IH]; [done |]. cbn. by case_decide. Qed.

Lemma lookup_string (o : option json) s : canon <$> o = Some (JString s) -> json_string o = Some s.
Proof. destruct o as [[] |]; cbn; intros [= ?]; by subst. Qed.

Lemma lookup_integer (o : option json) n : 0 <= n <= MAX_SAFE_INTEGER ->
  canon <$> o = Some (JNumber (printed_bits (f64_of_integer n))) -> json_integer o = Some n.
Proof.
  intros Hn. destruct (f64_safe_of_integer n Hn) as [Hs ->]. destruct o as [[] |]; cbn; intros [= ->]. exact Hs.
Qed.

Lemma compact_fields_json c w : compact_ok c -> wf_json w -> canon w = canon (unsigned_zero (compact_json c)) ->
  compact_fields w = Some c.
Proof.
  intros Hok Hww Hc. destruct (compact_json_wf c Hok) as [_ Hw]. destruct Hok as [Hi Hs Hr].
  rewrite !list.Forall_cons in Hi. destruct Hi as (I1 & I2 & I3 & I4 & I5 & _).
  destruct (canon_lookup w (map (map_snd unsigned_zero) (compact_members c)) Hww) as (m' & -> & Hget);
    [unfold jwf; by rewrite jkeys_map_snd | exact Hc |].
  assert (Hk : forall k v, jget k (compact_members c) = Some v -> canon <$> jget k m' = Some (canon (unsigned_zero v))).
  { intros k v E. by rewrite Hget, jget_unsigned, E. }
  assert (Hnone : forall k, jget k (compact_members c) = None -> jget k m' = None).
  { intros k E. pose proof (Hget k) as H. rewrite jget_unsigned, E in H. by destruct (jget k m'). }
  unfold compact_members, compact_json in Hk, Hnone. rewrite Hr in Hk, Hnone.
  assert (Hint : forall k n, 0 <= n <= MAX_SAFE_INTEGER -> jget k (compact_members c) = Some (json_int n) -> json_integer (jget k m') = Some n).
  { intros k n Hn E. apply lookup_integer; [done |]. unfold compact_members, compact_json in E. rewrite Hr in E. by rewrite (Hk k _ E). }
  assert (Hstr : forall k s, jget k (compact_members c) = Some (JString s) -> json_string (jget k m') = Some s).
  { intros k s E. apply lookup_string. unfold compact_members, compact_json in E. rewrite Hr in E. by rewrite (Hk k _ E). }
  unfold compact_members, compact_json in Hint, Hstr. rewrite Hr in Hint, Hstr.
  unfold compact_fields. destruct c as [v k s d g x q o mm y i n p r]. cbn [c_v c_k c_s c_d c_g c_x c_q c_o c_m c_y c_i c_n c_p c_receipt] in *.
  subst r. destruct d as [d |].
  - rewrite (Hint (js "v") v), (Hstr (js "k") k), (Hstr (js "s") s), (Hint (js "g") g), (Hstr (js "x") x), (Hint (js "q") q),
      (Hstr (js "o") o), (Hstr (js "m") mm), (Hstr (js "y") y), (Hint (js "i") i), (Hint (js "n") n), (Hstr (js "p") p) by done.
    rewrite (Hnone (js "receipt")) by done.
    pose proof (Hk (js "d") (JString d) eq_refl) as Hd. destruct (jget (js "d") m') as [[] |]; cbn in Hd; by simplify_eq.
  - rewrite (Hint (js "v") v), (Hstr (js "k") k), (Hstr (js "s") s), (Hint (js "g") g), (Hstr (js "x") x), (Hint (js "q") q),
      (Hstr (js "o") o), (Hstr (js "m") mm), (Hstr (js "y") y), (Hint (js "i") i), (Hint (js "n") n), (Hstr (js "p") p) by done.
    rewrite (Hnone (js "receipt")), (Hnone (js "d")) by done. done.
Qed.

(** ** Every encoding of one frame *)

Section decode.
Context {zlib : Zlib} {laws : ZlibLaws}.

Lemma wire_object_ok i s d index count payload :
  sendable i index count payload -> receipt i = None ->
  (0 <= source_generation i <= MAX_SAFE_INTEGER /\ 0 <= source_sequence i <= MAX_SAFE_INTEGER) ->
  encodeNode (source i) = Ok s -> encode_destination (destination i) = Ok d ->
  compact_ok (wire_object i s d index count payload).
Proof using.
  intros [Hi _ Hb _ _ [Hc1 Hc2] _] Hr [Hg Hq] Es Ed. unfold MAX_LINK_FRAGMENTS in Hc2.
  destruct (header_strings_codec i s d Hi Es Ed) as [F1 _]. rewrite !list.Forall_cons in F1.
  destruct F1 as (J1 & J2 & J3 & J4 & J5 & _). split; [| | done]; cbn [wire_object c_v c_k c_s c_d c_g c_x c_q c_o c_m c_y c_i c_n c_p].
  - rewrite (ok_revision _ Hi). repeat constructor; unfold LINK_PROTOCOL_REVISION, MAX_SAFE_INTEGER in *; lia.
  - repeat (apply List.Forall_cons; [| ]); try apply List.Forall_nil; try done.
    + destruct (message_type i); repeat constructor; by vm_compute.
    + by destruct (bool_decide (d = [])); [constructor |].
    + destruct (priority i); repeat constructor; by vm_compute.
    + by apply base64url_units.
Qed.

Lemma canonical_head v bs : (exists m, v = JObject m) -> encodeCanonicalJSON v = Ok bs -> nthZ bs 0 = Some 123.
Proof using.
  intros [m ->] H. unfold encodeCanonicalJSON, canonicalJSON in H. apply bind_ok in H as (text & H1 & H). injection H as <-.
  apply bind_ok in H1 as (sorted & H1 & H2). injection H2 as <-. unfold sortJSON in H1.
  destruct (finite_json (JObject m)); [| done]. injection H1 as <-. cbn [canon]. rewrite stringify_object.
  rewrite (nthZ_lookup _ 0 : nthZ _ 0 = _). cbn [encodeBinaryUtf8]. destruct (join_comma _); done.
Qed.

Lemma canonical_frame_decodes i index count payload bs :
  sendable i index count payload ->
  (0 <= source_generation i <= MAX_SAFE_INTEGER /\ 0 <= source_sequence i <= MAX_SAFE_INTEGER) ->
  encodeCompactFrame i index count payload canonical_json = Ok bs ->
  zlen bs <= MESHTASTIC_APPLICATION_PAYLOAD_BYTES -> decodeFrame bs = Ok (mkFrame i index count payload).
Proof using laws.
  intros Hsend Hbounds H Hfit. unfold encodeCompactFrame in H. apply bind_ok in H as ([] & Hv & H).
  apply bind_ok in H as (c & Hc & He). apply compact_of_wire in Hc as (s & d & Es & Ed & ->).
  apply validateReceipt_ok in Hv as [Hv _].
  assert (Hnone : receipt i = None) by (destruct (receipt i); [by destruct Hv as [? | [? | [? | ?]]] | done]).
  pose proof (wire_object_ok i s d index count payload Hsend Hnone Hbounds Es Ed) as Hok.
  destruct (compact_json_wf _ Hok) as [Hw _].
  destruct (decode_canonical _ bs Hw He) as (w & Hd & Hcanon & Hww).
  assert (Hhead : nthZ bs 0 = Some 123) by (eapply canonical_head; [| exact He]; by eexists).
  eapply decodeFrame_wire; [done | done | done | done | done | | by left].
  unfold decode_by_marker. rewrite Hhead. cbn [Z.eqb Pos.eqb DEFLATE_V1_MARKER DEFLATE_V2_MARKER DEFLATE_V3_MARKER BINARY_V1_MARKER
    MESSAGE_V1_MARKER METHOD_FRAME_MARKER Z.leb Z.compare Pos.compare Pos.compare_cont].
  rewrite Hd. cbn [bind_result]. by rewrite (compact_fields_json _ w Hok Hww Hcanon).
Qed.

Lemma frame_decodes i index count payload encoding bs :
  sendable i index count payload -> encodeCompactFrame i index count payload encoding = Ok bs ->
  zlen bs <= MESHTASTIC_APPLICATION_PAYLOAD_BYTES -> decodeFrame bs = Ok (mkFrame i index count payload).
Proof using laws.
  intros Hsend H Hfit. destruct (decide (encoding = canonical_json)) as [-> | Hne].
  - apply canonical_frame_decodes; try done. apply Hsend.
  - by eapply encodeCompactFrame_decodes.
Qed.
End decode.
