(* ===== verification/Fragments.v ===== *)
(** * Fragmenting a message ([frame.ts], [fragmentPayload])

    The frames of a message fit the radio, number at most 4096, and decode to
    the chunks of a body from which the receiver restores the message. *)

From Stdlib Require Import ZArith Lia String.
From stdpp Require Import base list option.
From S2P Require Import Prelude JsMap BinaryIO Wtf8 Json Utf8Text BinaryCodec CompactValue CompactSize CompactCodec Base64 Compression LinkTypes Frame FrameCodec FrameJson.

(** ** What a receiver makes of a list of frames *)

Section receiver.
Context {zlib : Zlib}.

Fixpoint decodeFrames (frames : list (list Z)) : result (list LinkFrame) :=
  match frames with
  | [] => Ok []
  | bs :: rest =>
      let! frame := decodeFrame bs in
      let! frames' := decodeFrames rest in
      Ok (frame :: frames')
  end.

(** The link frames of [count] chunks, from place [index] on. *)
Fixpoint link_frames (i : FrameIdentity) (index count : Z) (chunks : list (list Z)) : list LinkFrame :=
  match chunks with
  | [] => []
  | chunk :: rest => mkFrame i index count chunk :: link_frames i (index + 1) count rest
  end.

(** [frames] decode to the consecutive chunks of [body], each announcing its
    place and their number. *)
Definition carries (i : FrameIdentity) (frames : list (list Z)) (body : list Z) : Prop :=
  exists chunks, concat chunks = body /\ decodeFrames frames = Ok (link_frames i 0 (zlen frames) chunks) /\
    length chunks = length frames.

(** What [fragmentPayload] promises about the frames it returns. *)
Record delivers (i : FrameIdentity) (maxFrameBytes : Z) (frames : list (list Z)) (payload : list Z) : Prop := {
  delivers_fit : Forall (fun frame => zlen frame <= maxFrameBytes) frames;
  delivers_count : 1 <= zlen frames <= MAX_LINK_FRAGMENTS;
  delivers_body : exists body, carries i frames body /\ decodeMessagePayload body = Ok payload
}.
End receiver.

Section fragments.
Context {zlib : Zlib} {laws : ZlibLaws}.

(** ** Chunks *)

Lemma chunk_count_spec payload size : 1 <= size -> 0 < zlen payload ->
  1 <= chunk_count_of payload size /\
  (chunk_count_of payload size - 1) * size < zlen payload <= chunk_count_of payload size * size.
Proof using.
  intros Hs Hp. unfold chunk_count_of.
  pose proof (Z_div_mod_eq_full (zlen payload + size - 1) size) as Hd.
  pose proof (Z.mod_pos_bound (zlen payload + size - 1) size ltac:(lia)). nia.
Qed.

Lemma chunk_at_nonempty payload size index :
  1 <= size -> 0 <= index -> index * size < zlen payload -> chunk_at payload size index <> [].
Proof using.
  intros Hs Hi Hl H. apply (f_equal length) in H. unfold chunk_at in H.
  rewrite length_take, length_drop in H. cbn in H. unfold zlen in Hl. lia.
Qed.

Lemma chunk_at_incl payload size index x : x ∈ chunk_at payload size index -> x ∈ payload.
Proof using.
  intros Hx. apply (subseteq_drop (Z.to_nat (index * size)) payload). apply (subseteq_take (Z.to_nat size)). exact Hx.
Qed.

Lemma chunk_at_size payload size index : zlen (chunk_at payload size index) <= zlen payload.
Proof using. unfold chunk_at, zlen. rewrite length_take, length_drop. lia. Qed.

Lemma chunk_at_cat payload size index : 0 <= size -> 0 <= index ->
  chunk_at payload size index ++ drop (Z.to_nat ((index + 1) * size)) payload = drop (Z.to_nat (index * size)) payload.
Proof using.
  intros Hs Hi. unfold chunk_at.
  rewrite <- (take_drop (Z.to_nat size) (drop (Z.to_nat (index * size)) payload)) at 2. f_equal.
  rewrite drop_drop. f_equal. nia.
Qed.

(** ** The frames of one chunk size *)

Lemma encodeCompactFrame_receipt i index count payload encoding bs :
  encodeCompactFrame i index count payload encoding = Ok bs -> validateReceipt i encoding index count = Ok tt.
Proof using.
  unfold encodeCompactFrame, encodeDeflateFrame. intros H.
  destruct encoding; apply bind_ok in H as ([] & ? & _); done.
Qed.

(** What every chunk of a message shares. *)
Record message_ok (i : FrameIdentity) (body : list Z) : Prop := {
  message_identity : identity_ok i;
  message_no_bom : header_no_bom i;
  message_bytes : is_bytes body;
  message_size : 0 < zlen body <= MAX_LINK_MESSAGE_BYTES
}.

Lemma frames_from_carry body i size count maxFrameBytes encoding :
  message_ok i body -> 1 <= size ->
  (count - 1) * size < zlen body <= count * size -> count <= MAX_LINK_FRAGMENTS ->
  maxFrameBytes <= MESHTASTIC_APPLICATION_PAYLOAD_BYTES ->
  forall left index frames, 0 <= index -> index + Z.of_nat left = count ->
  fit_from left index body i size count maxFrameBytes encoding = Ok true ->
  frames_from left index body i size count encoding = Ok frames ->
  length frames = left /\ Forall (fun frame => zlen frame <= maxFrameBytes) frames /\
  exists chunks, concat chunks = drop (Z.to_nat (index * size)) body /\ length chunks = left /\
    decodeFrames frames = Ok (link_frames i index count chunks).
Proof.
  intros [Hi Hbom Hb Hsz] Hs Hcount Hmax Hfit. induction left as [| left IH]; intros index frames H0 Hleft F1 F2.
  - cbn in F2. injection F2 as <-. split; [done |]. split; [constructor |]. exists []. split; [| done].
    symmetry. apply drop_ge. unfold zlen in *. nia.
  - cbn [fit_from frames_from] in F1, F2. apply bind_ok in F1 as (frame & E1 & F1). rewrite E1 in F2. cbn [bind_result] in F2.
    destruct (Z.ltb_spec maxFrameBytes (zlen frame)) as [| Hle]; [done |].
    apply bind_ok in F2 as (rest & F2 & E2). injection E2 as <-.
    destruct (IH (index + 1) rest ltac:(lia) ltac:(lia) F1 F2) as (Hl & Hf & chunks & Hcat & Hlen & Hdec).
    split; [cbn; lia |]. split; [by constructor |].
    exists (chunk_at body size index :: chunks). split; [| split; [cbn; lia |]].
    + cbn [concat]. rewrite Hcat. apply chunk_at_cat; lia.
    + cbn [decodeFrames link_frames].
      rewrite (frame_decodes i index count (chunk_at body size index) encoding frame); [| | done | lia].
      * cbn [bind_result]. by rewrite Hdec.
      * split; [done | done | | | | lia | by eexists; eapply encodeCompactFrame_receipt].
        -- apply Forall_elem. intros x Hx%chunk_at_incl. revert x Hx. by apply Forall_elem.
        -- apply chunk_at_nonempty; nia.
        -- pose proof (chunk_at_size body size index). lia.
Qed.

(** A chunk size whose frames fit gives the frames of the body. *)
Lemma framesForChunkSize_carry body i size maxFrameBytes encoding frames :
  message_ok i body -> 1 <= size ->
  maxFrameBytes <= MESHTASTIC_APPLICATION_PAYLOAD_BYTES -> chunk_count_of body size <= MAX_LINK_FRAGMENTS ->
  framesFit body i size (chunk_count_of body size) maxFrameBytes encoding = Ok true ->
  framesForChunkSize body i size encoding = Ok frames ->
  Forall (fun frame => zlen frame <= maxFrameBytes) frames /\ 1 <= zlen frames <= MAX_LINK_FRAGMENTS /\ carries i frames body.
Proof.
  intros Hm Hs Hfit Hc F1 F2. destruct (chunk_count_spec body size Hs ltac:(apply Hm)) as [Hc1 Hc2].
  destruct (frames_from_carry body i size (chunk_count_of body size) maxFrameBytes encoding Hm Hs Hc2 Hc Hfit
    (Z.to_nat (chunk_count_of body size)) 0 frames ltac:(lia) ltac:(lia) F1 F2) as (Hl & Hf & chunks & Hcat & Hlen & Hdec).
  assert (Hz : zlen frames = chunk_count_of body size) by (unfold zlen; lia).
  split; [done |]. split; [lia |]. exists chunks. rewrite Hz, Hlen, Hl. done.
Qed.

(** ** The searches *)

(** What each way of fragmenting a body returns. *)
Definition carried (i : FrameIdentity) (maxFrameBytes : Z) (frames : list (list Z)) (body : list Z) : Prop :=
  Forall (fun frame => zlen frame <= maxFrameBytes) frames /\ 1 <= zlen frames <= MAX_LINK_FRAGMENTS /\ carries i frames body.

Lemma search_chunk_size_carry body i maxFrameBytes encoding frames :
  message_ok i body -> maxFrameBytes <= MESHTASTIC_APPLICATION_PAYLOAD_BYTES ->
  forall size, search_chunk_size size body i maxFrameBytes encoding = Ok (Some frames) -> carried i maxFrameBytes frames body.
Proof.
  intros Hm Hfit size. induction size as [| size IH]; cbn [search_chunk_size]; intros H; [done |].
  apply bind_ok in H as (fit & F & H). destruct fit; [| by apply IH].
  destruct (Z.ltb_spec MAX_LINK_FRAGMENTS (chunk_count_of body (Z.of_nat (S size)))); [done |].
  apply bind_ok in H as (frames' & F' & H). injection H as ->.
  by apply (framesForChunkSize_carry body i (Z.of_nat (S size)) maxFrameBytes encoding); try lia.
Qed.

Lemma search_encoded_size_carry body i maxFrameBytes encoding frames :
  message_ok i body -> maxFrameBytes <= MESHTASTIC_APPLICATION_PAYLOAD_BYTES ->
  forall size, search_encoded_size size body i maxFrameBytes encoding = Ok (Some frames) -> carried i maxFrameBytes frames body.
Proof.
  intros Hm Hfit size. induction size as [| size IH]; cbn [search_encoded_size]; intros H; [done |].
  destruct (match receipt i with None => false | Some _ => _ end); [done |].
  apply bind_ok in H as (fit & F & H). destruct fit; [| by apply IH].
  destruct (Z.ltb_spec MAX_LINK_FRAGMENTS (chunk_count_of body (Z.of_nat (S size)))); [done |].
  apply bind_ok in H as (frames' & F' & H). injection H as ->.
  by apply (framesForChunkSize_carry body i (Z.of_nat (S size)) maxFrameBytes encoding); try lia.
Qed.

Lemma fragmentEncodedMessage_carry o i maxFrameBytes encoding frames :
  (forall body, o = Some body -> message_ok i body) ->
  maxFrameBytes <= MESHTASTIC_APPLICATION_PAYLOAD_BYTES ->
  fragmentEncodedMessage o i maxFrameBytes encoding = Ok (Some frames) ->
  exists body, o = Some body /\ carried i maxFrameBytes frames body.
Proof.
  intros Hm Hfit H. unfold fragmentEncodedMessage, catch_range in H. destruct o as [body |]; [| done].
  destruct (search_encoded_size _ _ _ _ _) as [found | e] eqn:E; [| by destruct e]. injection H as ->.
  exists body. split; [done |]. eapply search_encoded_size_carry; [by apply Hm | done | exact E].
Qed.

(** One frame that carries all of its body. *)
Lemma whole_carried i maxFrameBytes frame body :
  zlen frame <= maxFrameBytes -> decodeFrame frame = Ok (mkFrame i 0 1 body) -> carried i maxFrameBytes [frame] body.
Proof using.
  intros Hl Hd. split; [by constructor |]. split; [by vm_compute |].
  exists [body]. split; [apply app_nil_r |]. split; [| done]. cbn [decodeFrames]. by rewrite Hd.
Qed.

Lemma message_sendable i payload encoding :
  message_ok i payload -> validateReceipt i encoding 0 1 = Ok tt -> sendable i 0 1 payload.
Proof using.
  intros [Hi Hbom Hb Hs] Hr. split; try done; try lia; [| by exists encoding].
  intros ->. change (zlen (@nil Z)) with 0 in Hs. lia.
Qed.

Lemma fragment_guard_ok payload i maxFrameBytes encoding capped :
  fragment_guard payload i maxFrameBytes encoding = Ok capped ->
  0 < zlen payload <= MAX_LINK_MESSAGE_BYTES /\ validateReceipt i encoding 0 1 = Ok tt /\
  capped = Z.min maxFrameBytes MESHTASTIC_APPLICATION_PAYLOAD_BYTES.
Proof using.
  unfold fragment_guard. intros H. pose proof (zlen_nonneg payload). inv_result. reflect_tests.
  split; [lia |]. split; [| done]. by match goal with u : unit |- _ => destruct u end.
Qed.

Lemma fragment_frames_carry payload i maxFrameBytes encoding frames :
  message_ok i payload -> validateReceipt i encoding 0 1 = Ok tt ->
  maxFrameBytes <= MESHTASTIC_APPLICATION_PAYLOAD_BYTES ->
  fragment_frames payload i maxFrameBytes encoding = Ok frames -> carried i maxFrameBytes frames payload.
Proof.
  intros Hm Hr Hfit H. unfold fragment_frames in H.
  destruct (decide (encoding = canonical_json)).
  { apply bind_ok in H as ([found |] & F & H); [| done]. injection H as ->. by eapply search_chunk_size_carry. }
  apply bind_ok in H as (whole & E & H).
  destruct (Z.leb_spec (zlen whole) maxFrameBytes).
  - injection H as <-. apply whole_carried; [done |].
    eapply frame_decodes; [by eapply message_sendable | done | lia].
  - destruct (receipt i); [done |]. apply bind_ok in H as ([found |] & F & H); [| done]. injection H as ->.
    by eapply search_chunk_size_carry.
Qed.

(** ** The message encodings *)

Lemma prefer_either c b frames : prefer c b = Ok frames -> c = Some frames \/ b = Ok frames.
Proof using.
  unfold prefer. destruct b as [b | e]; [| destruct e, c; intros H; inversion H; auto].
  destruct c as [c |]; [destruct (_ && _) |]; intros [= <-]; auto.
Qed.

(** [payload] is not itself an envelope, as no JSON text is. *)
Definition unmarked (payload : list Z) : Prop :=
  nthZ payload 0 <> Some 0xb3 /\ nthZ payload 0 <> Some MESSAGE_CODEC_MARKER.

Lemma carried_delivers i maxFrameBytes frames body payload :
  carried i maxFrameBytes frames body -> decodeMessagePayload body = Ok payload -> delivers i maxFrameBytes frames payload.
Proof using. intros (H1 & H2 & H3) H. split; [done | done |]. by exists body. Qed.

Lemma delivers_weaken i m m' frames payload : delivers i m frames payload -> m <= m' -> delivers i m' frames payload.
Proof using. intros [H1 H2 H3] Hm. split; [| done | done]. apply (Forall_weaken _ _ _ H1). intros x Hx. cbn in *. lia. Qed.

Lemma fragmentBinaryPayload_delivers payload i maxFrameBytes frames :
  message_ok i payload -> unmarked payload ->
  fragmentBinaryPayload payload i maxFrameBytes = Ok frames -> delivers i maxFrameBytes frames payload.
Proof.
  intros Hm [H3 H2] H. unfold fragmentBinaryPayload in H. apply bind_ok in H as (capped & G & H).
  apply fragment_guard_ok in G as (Hs & Hr & ->).
  apply (delivers_weaken i (Z.min maxFrameBytes MESHTASTIC_APPLICATION_PAYLOAD_BYTES)); [| lia].
  eapply carried_delivers; [eapply (fragment_frames_carry payload i _ binary_v1); try done; lia |].
  apply decode_unmarked; [apply Hs | done | done].
Qed.

Lemma fragmentCompressedMessage_delivers payload i maxFrameBytes frames encoding :
  message_ok i payload -> unmarked payload -> validateReceipt i encoding 0 1 = Ok tt ->
  maxFrameBytes <= MESHTASTIC_APPLICATION_PAYLOAD_BYTES ->
  fragmentCompressedMessage payload i maxFrameBytes = Ok frames -> delivers i maxFrameBytes frames payload.
Proof.
  intros Hm Hu Hr Hfit H. unfold fragmentCompressedMessage in H. apply bind_ok in H as (whole & E & H).
  pose proof Hm as [Hi Hbom Hb Hs]. destruct (Z.leb_spec (zlen whole) maxFrameBytes).
  - injection H as <-. eapply carried_delivers; [apply whole_carried; [done |] | apply decode_unmarked; [apply Hs | apply Hu | apply Hu]].
    eapply encodeAdaptiveBinaryFrame_decodes; [by eapply message_sendable | done | lia].
  - apply bind_ok in H as (compressed & Ec & H). apply bind_ok in H as (candidate & Ef & H).
    apply prefer_either in H as [-> | H]; [| by apply fragmentBinaryPayload_delivers].
    assert (Hin : forall body, compressed = Some body -> decodeMessagePayload body = Ok payload /\ message_ok i body).
    { intros body ->. apply encodeCompressedMessage_inverts in Ec as (D1 & D2 & D3 & D4); [| done].
      split; [done |]. split; try done. split; [| unfold MAX_LINK_MESSAGE_BYTES; unfold MAX_MESSAGE_BYTES in D3; lia].
      destruct body as [| x body]; [| rewrite zlen_cons; pose proof (zlen_nonneg body); lia].
      apply (f_equal (fun r => match r with Ok p => zlen p | Throw _ => 0 end)) in D1. change (0 = zlen payload) in D1. lia. }
    apply fragmentEncodedMessage_carry in Ef as (body & Hbody & Hcar); [| by intros body Hbody; apply Hin | done].
    eapply carried_delivers; [exact Hcar | by apply Hin].
Qed.

Lemma fragmentMethodMessage_delivers payload i maxFrameBytes frames :
  message_ok i payload -> unmarked payload -> validateReceipt i message_v2 0 1 = Ok tt ->
  maxFrameBytes <= MESHTASTIC_APPLICATION_PAYLOAD_BYTES ->
  fragmentMethodMessage payload i maxFrameBytes = Ok frames -> delivers i maxFrameBytes frames payload.
Proof.
  intros Hm Hu Hr Hfit H. unfold fragmentMethodMessage in H. apply bind_ok in H as (previous & Ep & H).
  apply bind_ok in H as (header & Eh & H). apply bind_ok in H as (method & Em & H).
  pose proof Hm as [Hi Hbom Hb Hs].
  assert (Hplain : decodeMessagePayload payload = Ok payload) by (apply decode_unmarked; [apply Hs | apply Hu | apply Hu]).
  assert (Hsend : sendable i 0 1 payload) by by eapply message_sendable.
  assert (Hwhole : zlen (method_frame method) <= maxFrameBytes -> delivers i maxFrameBytes [method_frame method] payload).
  { intros Hl. eapply carried_delivers; [apply whole_carried; [done |] | done].
    eapply method_frame_decodes; [done | done | done | lia]. }
  cbv zeta in H. destruct (Z.leb_spec (zlen previous) maxFrameBytes).
  - injection H as <-. destruct (Z.ltb_spec (zlen (method_frame method)) (zlen previous)); [apply Hwhole; lia |].
    eapply carried_delivers; [apply whole_carried; [done |] | done].
    eapply encodeAdaptiveBinaryFrame_decodes; [done | done | lia].
  - apply bind_ok in H as (candidate & Ec & H). apply prefer_either in H as [-> | H].
    + destruct (Z.leb_spec (zlen (method_frame method)) maxFrameBytes); [injection Ec as <-; by apply Hwhole |].
      apply bind_ok in Ec as ([mode bs] & Ev & Ec). cbn [fst snd] in Ec.
      destruct (Z.ltb_spec (zlen ([0xb3; 1; mode] ++ bs)) (zlen payload)) as [Hlt |]; [| done].
      assert (Henv : message_ok i ([0xb3; 1; mode] ++ bs)).
      { destruct (compressValue_inverts payload [] mode bs (8 * MAX_MESSAGE_BYTES) Hb ltac:(constructor) ltac:(lia)
          ltac:(by vm_compute) ltac:(by vm_compute) Ev) as (_ & _ & _ & Hmode & Hbs).
        split; try done; [| split; [| lia]].
        - repeat apply is_bytes_cons; try done; try (unfold is_byte; lia).
          unfold validateMode in Hmode. inv_result. reflect_tests. unfold is_byte. lia.
        - rewrite zlen_app. change (zlen [0xb3; 1; mode]) with 3. pose proof (zlen_nonneg bs). lia. }
      apply fragmentEncodedMessage_carry in Ec as (body & [= <-] & Hcar); [| by intros body [= <-] | done].
      eapply carried_delivers; [exact Hcar |]. apply decode_method_envelope; [done | lia | done |].
      unfold MAX_LINK_MESSAGE_BYTES in Hs. unfold MAX_MESSAGE_BYTES. lia.
    + unfold fragmentMessageV1 in H. apply bind_ok in H as (capped & G & H). apply fragment_guard_ok in G as (_ & Hr' & ->).
      apply (delivers_weaken i (Z.min maxFrameBytes MESHTASTIC_APPLICATION_PAYLOAD_BYTES)); [| lia].
      by eapply fragmentCompressedMessage_delivers; [| | | lia |].
Qed.
End fragments.

(** C16: fragmenting loses nothing, of an identity and a payload that can be
    told apart: an identity as the sender builds it ([identity_ok]), none of
    whose header texts starts with U+FEFF ([header_no_bom]; [byte_order_mark_lost]
    shows that this is needed), and a payload whose first byte is neither mark
    of a compressed body ([unmarked]).  Then, whatever the encoding, every frame
    [fragmentPayload] returns fits both the caller's limit and the radio's 233
    bytes, there are between 1 and 4096 of them, each decodes to the identity it
    was sent under with its place and their number, and the chunks in order
    make a body the receiver restores to the payload. *)
Theorem fragmentPayload_delivers {zlib : Zlib} {laws : ZlibLaws} payload i maxFrameBytes encoding frames :
  identity_ok i -> header_no_bom i -> is_bytes payload -> unmarked payload ->
  fragmentPayload payload i maxFrameBytes encoding = Ok frames ->
  delivers i (Z.min maxFrameBytes MESHTASTIC_APPLICATION_PAYLOAD_BYTES) frames payload.
Proof.
  intros Hi Hbom Hb Hu H. unfold fragmentPayload in H. apply bind_ok in H as (capped & G & H).
  apply fragment_guard_ok in G as (Hs & Hr & ->).
  assert (Hm : message_ok i payload) by done.
  assert (Hplain : decodeMessagePayload payload = Ok payload) by (apply decode_unmarked; [apply Hs | apply Hu | apply Hu]).
  destruct encoding; try done;
    try (eapply carried_delivers; [eapply fragment_frames_carry; [| exact Hr | | exact H]; first [done | lia] | done]; fail).
  - by eapply fragmentCompressedMessage_delivers; [| | | lia |].
  - by eapply fragmentMethodMessage_delivers; [| | | lia |].
Qed.

(** ** An instance *)

Definition sample_identity (session : list Z) : FrameIdentity :=
  mkIdentity LINK_PROTOCOL_REVISION state (mkNode asset (js "a1")) (Some (mkNode gateway (js "g1"))) 3 session 7
    (js "op") (js "msg") None live_state.

Definition long_payload : list Z := repeat 97 40.

Definition sample_frames : list (list Z) :=
  match fragmentPayload (zlib := stored_zlib) long_payload (sample_identity (js "s")) 64 deflate_v3 with
  | Ok frames => frames
  | Throw _ => []
  end.

Lemma fragmentPayload_delivers_witness :
  length sample_frames = 2%nat /\
  delivers (zlib := stored_zlib) (sample_identity (js "s")) (Z.min 64 MESHTASTIC_APPLICATION_PAYLOAD_BYTES) sample_frames long_payload.
Proof.
  split; [vm_compute; reflexivity |].
  eapply (fragmentPayload_delivers (zlib := stored_zlib) long_payload (sample_identity (js "s")) 64 deflate_v3).
  - split; try (intros n [= <-]); try done; repeat split; repeat constructor; by vm_compute.
  - repeat split; try done; constructor.
  - apply Forall_elem. intros x Hx%list_elem_of_In%repeat_spec. subst x. by vm_compute.
  - split; by vm_compute.
  - vm_compute. reflexivity.
Defined.

(** ** Where a header text is altered

    [legacyHeaderRoundTrips] admits a text that starts with U+FEFF, since
    [Buffer.toString] keeps it; [TextDecoder], which reads the deflate
    encodings, strips it. The adaptive encoder then prefers deflate-v2. *)

Definition marked_session : list Z := 0xfeff :: js "s".

(** The hypothesis on byte-order marks is needed: a service session that
    starts with U+FEFF passes the test that guards the deflate-v2 fallback, and
    the receiver decodes the frame to the session without it, so the identity
    it was sent under is lost. *)
Theorem byte_order_mark_lost :
  exists frame, fragmentPayload (zlib := stored_zlib) (js "payload") (sample_identity marked_session) 233 message_v2 = Ok [frame] /\
    legacyHeaderRoundTrips (sample_identity marked_session) = Ok true /\
    decodeFrame (zlib := stored_zlib) frame = Ok (mkFrame (sample_identity (js "s")) 0 1 (js "payload")).
Proof.
  eexists. split; [vm_compute; reflexivity |]. split; vm_compute; reflexivity.
Qed.
