(* ===== verification/JsonEq.v ===== *)
(** * Equal JSON data

    Two values are the same JSON data when they differ only in the order of
    object members and in the sign of zero: the difference neither canonical
    JSON nor a JSON Schema sees.  The relation is an equivalence, and the reads
    the sources make of a parsed value respect it. *)

From Stdlib Require Import ZArith Lia String.
From stdpp Require Import base list option.
From S2P Require Import Prelude JsMap Wtf8 Json JsonText CompactValue JsonRoundtrip Frame FrameJson.

Definition same_json (v w : json) : Prop := canon (unsigned_zero v) = canon (unsigned_zero w).

#[export] Instance same_json_equivalence : Equivalence same_json.
Proof. unfold same_json. split; repeat intro; congruence. Qed.

(** [None] is [undefined]; the values are ones a parser builds. *)
Definition same_value : relation (option json) := option_Forall2 (fun v w => wf_json v /\ wf_json w /\ same_json v w).

Definition same_fields (m1 m2 : list (list Z * json)) : Prop := forall k, same_value (jget k m1) (jget k m2).

#[export] Instance same_value_symmetric : Symmetric same_value.
Proof. intros v w H. destruct H as [? ? (? & ? & ?) |]; constructor. repeat split; [done .. |]. by symmetry. Qed.

#[export] Instance same_value_transitive : Transitive same_value.
Proof.
  intros u v w H1 H2. destruct H1 as [? ? (? & ? & ?) |]; inversion H2 as [? ? (? & ? & ?) |]; subst; constructor.
  repeat split; [done .. |]. etransitivity; eassumption.
Qed.

Lemma printed_bits_idem bits : printed_bits (printed_bits bits) = printed_bits bits.
Proof. unfold printed_bits. destruct (f64_significand bits =? 0) eqn:E; [done |]. by rewrite E. Qed.

Lemma unsigned_zero_idem v : unsigned_zero (unsigned_zero v) = unsigned_zero v.
Proof.
  induction v as [| | | | l IH | m IH] using json_ind'; cbn; try done.
  - by rewrite printed_bits_idem.
  - f_equal. rewrite map_map. by apply map_Forall_ext.
  - f_equal. rewrite map_map. apply map_Forall_ext. eapply Forall_weaken; [exact IH |].
    intros [k v] H. unfold map_snd. cbn in *. by rewrite H.
Qed.

Lemma same_json_decoded v w : canon w = canon (unsigned_zero v) -> same_json v w.
Proof.
  intros H. unfold same_json. by rewrite (canon_unsigned w), H, <- (canon_unsigned (unsigned_zero v)), unsigned_zero_idem.
Qed.

Lemma f64_safe_printed bits : f64_safe_integer (printed_bits bits) = f64_safe_integer bits.
Proof.
  unfold printed_bits. destruct (Z.eqb_spec (f64_significand bits) 0) as [E | ?]; [| done].
  unfold f64_safe_integer, f64_magnitude. rewrite E. destruct (0 <=? f64_scale bits).
  - cbn. by destruct (f64_negative bits).
  - rewrite Zmod_0_l, Zdiv_0_l. cbn. by destruct (f64_negative bits).
Qed.

(** ** Shapes *)

Lemma same_string v w s : same_json v w -> v = JString s -> w = JString s.
Proof. unfold same_json. intros H ->. destruct w; cbn in H; try discriminate H. by injection H as <-. Qed.

Lemma same_number v w a : same_json v w -> v = JNumber a -> exists b, w = JNumber b /\ printed_bits a = printed_bits b.
Proof. unfold same_json. intros H ->. destruct w; cbn in H; try discriminate H. injection H as ->. by eexists. Qed.

Lemma same_array v w l : same_json v w -> v = JArray l -> exists l', w = JArray l' /\ Forall2 same_json l l'.
Proof.
  unfold same_json. intros H ->. destruct w as [| | | | l' |]; cbn in H; try discriminate H. exists l'. split; [done |].
  injection H as H. rewrite !map_map in H. revert l' H. induction l as [| x l IH]; intros [| y l'] H; try done; constructor.
  - by injection H.
  - apply IH. by injection H.
Qed.

Lemma same_object m1 m2 : wf_json (JObject m1) -> wf_json (JObject m2) -> same_json (JObject m1) (JObject m2) -> same_fields m1 m2.
Proof.
  intros H1 H2 H k. unfold same_json in H. cbn [unsigned_zero] in H.
  inversion H1 as [| | | | | ? W1 F1]; subst. inversion H2 as [| | | | | ? W2 F2]; subst.
  assert (Hl : forall m, jwf m -> jget k (sort_entries (map (map_snd canon) (map (map_snd unsigned_zero) m))) =
    (fun v => canon (unsigned_zero v)) <$> jget k m).
  { intros m Hm. rewrite jget_sort_entries by (unfold jwf; by rewrite !jkeys_map_snd).
    clear. induction m as [| [k' v] m IH]; [done |]. cbn. by case_decide. }
  cbn [canon] in H. injection H as H. pose proof (Hl m1 W1) as E1. rewrite H, (Hl m2 W2) in E1.
  destruct (jget k m1) as [v |] eqn:G1, (jget k m2) as [w |] eqn:G2; try done; [| by constructor].
  constructor. apply jget_elem_of in G1, G2. split; [| split].
  - exact (proj2 (proj1 (Forall_elem _ _) F1 _ G1)).
  - exact (proj2 (proj1 (Forall_elem _ _) F2 _ G2)).
  - unfold same_json. cbn in E1. congruence.
Qed.

Lemma same_shape v w : same_json v w ->
  match v, w with
  | JNull, JNull | JNumber _, JNumber _ | JArray _, JArray _ | JObject _, JObject _ => True
  | JBool a, JBool b => a = b
  | JString s, JString t => s = t
  | _, _ => False
  end.
Proof. unfold same_json. destruct v, w; cbn; try discriminate; try done; by intros [= ->]. Qed.

(** ** Reads *)

#[export] Instance json_string_proper : Proper (same_value ==> eq) json_string.
Proof.
  intros v w H. destruct H as [v w (_ & _ & H) |]; [| done]. apply same_shape in H. by destruct v, w; subst.
Qed.

#[export] Instance json_integer_proper : Proper (same_value ==> eq) json_integer.
Proof.
  intros v w H. destruct H as [v w (_ & _ & H) |]; [| done]. pose proof (same_shape v w H) as Hs.
  destruct v as [| | a | | |], w; try done. destruct (same_number _ _ a H eq_refl) as (b & [= ->] & E).
  cbn. by rewrite <- (f64_safe_printed a), <- (f64_safe_printed b), E.
Qed.

Lemma finite_same v w : same_json v w -> finite_json v = finite_json w.
Proof.
  assert (Hf : forall u, finite_json u = finite_json (canon (unsigned_zero u))).
  { clear. intros u. rewrite finite_canon. induction u as [| | bits | | l IH | m IH] using json_ind'; cbn; try done.
    - unfold printed_bits. unfold f64_isFinite, f64_significand. destruct (_ =? 0) eqn:E; [| done].
      destruct (f64_exponent bits =? 0) eqn:E2; [by apply Z.eqb_eq in E2 as -> |].
      pose proof (Z.mod_pos_bound bits (2 ^ 52) ltac:(lia)). unfold f64_mantissa in E. lia.
    - induction IH; cbn; congruence.
    - induction IH; cbn in *; congruence. }
  unfold same_json. intros H. by rewrite (Hf v), (Hf w), H.
Qed.

Lemma same_bytes v w bs : encodeCanonicalJSON v = Ok bs -> same_json v w -> encodeCanonicalJSON w = Ok bs.
Proof.
  unfold encodeCanonicalJSON, canonicalJSON, sortJSON. intros He H. pose proof (finite_same v w H) as Ew. unfold same_json in H.
  assert (Hs : forall u, stringify (canon u) = stringify (canon (unsigned_zero u))).
  { intros u. by rewrite canon_unsigned, stringify_unsigned. }
  rewrite <- Ew. destruct (finite_json v); [| done]. cbn [bind_result] in *. by rewrite (Hs w), <- H, <- Hs.
Qed.
