(* ===== verification/Instants.v ===== *)
(** * Timestamps ([contract.ts], [sdk/validation.ts])

    The RFC 3339 timestamps of Link messages, and the order of movement
    instants to the nanosecond.  [Date.parse] is the language's: the part of it
    both sources reach, strings of the shape [YYYY-MM-DDTHH:mm:ss] with an
    optional fraction and a zone, is written out here, digits past the
    milliseconds being dropped as the runtime does. *)

From Stdlib Require Import ZArith Lia String.
From stdpp Require Import base list option.
From S2P Require Import Prelude JsMap Wtf8 Json.

Record timestamp := mkTimestamp {
  year : Z; month : Z; day : Z; hour : Z; minute : Z; second : Z;
  fraction : list Z;
  zone : option (bool * Z * Z)
}.

Definition number_of (ds : list Z) : Z := fold_left (fun acc d => acc * 10 + (d - 48)) ds 0.

(** [\d{n}] *)
Definition digits_n (n : nat) (s : list Z) : option (Z * list Z) :=
  let ds := take n s in
  if (zlen ds =? Z.of_nat n) && forallb is_digit ds then Some (number_of ds, drop n s) else None.

Definition literal (c : Z) (s : list Z) : option (list Z) :=
  match s with
  | x :: r => if x =? c then Some r else None
  | [] => None
  end.

Fixpoint span_digits (s : list Z) : list Z * list Z :=
  match s with
  | c :: r => if is_digit c then let '(ds, rest) := span_digits r in (c :: ds, rest) else ([], s)
  | [] => ([], [])
  end.

(** [(?:\.\d+)?] *)
Definition match_fraction (s : list Z) : option (list Z * list Z) :=
  match literal 46 s with
  | None => Some ([], s)
  | Some r => match span_digits r with ([], _) => None | (ds, rest) => Some (ds, rest) end
  end.

(** [(Z|[+-]\d{2}:\d{2})$]: [None] is [Z], else the sign, hours and minutes. *)
Definition match_zone (s : list Z) : option (option (bool * Z * Z)) :=
  match s with
  | c :: r =>
      if (c =? 90) && bool_decide (r = []) then Some None
      else if (c =? 43) || (c =? 45) then
        '(hours, r1) ← digits_n 2 r;
        r2 ← literal 58 r1;
        '(minutes, r3) ← digits_n 2 r2;
        if bool_decide (r3 = []) then Some (Some (c =? 45, hours, minutes)) else None
      else None
  | [] => None
  end.

Definition match_timestamp (s : list Z) : option timestamp :=
  '(yy, r1) ← digits_n 4 s; r1 ← literal 45 r1;
  '(mo, r2) ← digits_n 2 r1; r2 ← literal 45 r2;
  '(dd, r3) ← digits_n 2 r2; r3 ← literal 84 r3;
  '(hh, r4) ← digits_n 2 r3; r4 ← literal 58 r4;
  '(mi, r5) ← digits_n 2 r4; r5 ← literal 58 r5;
  '(ss, r6) ← digits_n 2 r5;
  '(fr, r7) ← match_fraction r6;
  z ← match_zone r7;
  Some (mkTimestamp yy mo dd hh mi ss fr z).

(** [MakeDay]: days since 1 January 1970 in the proleptic Gregorian calendar. *)
Definition day_number (y m d : Z) : Z :=
  let y' := if m <=? 2 then y - 1 else y in
  let day_of_year := (153 * (if m <=? 2 then m + 9 else m - 3) + 2) / 5 + d - 1 in
  y' * 365 + y' / 4 - y' / 100 + y' / 400 + day_of_year - 719468.

Definition in_range (low high n : Z) : bool := (low <=? n) && (n <=? high).

Definition zone_minutes (z : option (bool * Z * Z)) : Z :=
  match z with
  | None => 0
  | Some (negative, hours, minutes) => (if negative : bool then -1 else 1) * (hours * 60 + minutes)
  end.

(** Digits [.sss]; a longer fraction is cut, a shorter one padded. *)
Definition fraction_value (digits : nat) (ds : list Z) : Z :=
  number_of (take digits (ds ++ replicate digits 48)).

Definition time_of_day_ok (t : timestamp) : bool :=
  (in_range 0 23 (hour t) && in_range 0 59 (minute t) && in_range 0 59 (second t)) ||
  ((hour t =? 24) && (minute t =? 0) && (second t =? 0) && (fraction_value 3 (fraction t) =? 0)).

Definition zone_ok (z : option (bool * Z * Z)) : bool :=
  match z with None => true | Some (_, hours, minutes) => in_range 0 23 hours && in_range 0 59 minutes end.

(** Seconds since the epoch. *)
Definition epoch_seconds (t : timestamp) : Z :=
  day_number (year t) (month t) (day t) * 86400 + hour t * 3600 + minute t * 60 + second t - zone_minutes (zone t) * 60.

(** [Date.parse]; [None] is [NaN]. *)
Definition Date_parse (s : list Z) : option Z :=
  t ← match_timestamp s;
  if in_range 1 12 (month t) && in_range 1 31 (day t) && time_of_day_ok t && zone_ok (zone t)
  then Some (epoch_seconds t * 1000 + fraction_value 3 (fraction t)) else None.

Definition daysInMonth (y m : Z) : Z :=
  if m =? 2 then (if (y mod 4 =? 0) && (negb (y mod 100 =? 0) || (y mod 400 =? 0)) then 29 else 28)
  else default 0 (nthZ [31; 28; 31; 30; 31; 30; 31; 31; 30; 31; 30; 31] (m - 1)).

Definition isRFC3339 (value : option json) : bool :=
  match value with
  | Some (JString s) =>
      match match_timestamp s with
      | None => false
      | Some t =>
          if bool_decide (Date_parse s = None) then false
          else if negb (in_range 1 12 (month t) && in_range 1 (daysInMonth (year t) (month t)) (day t)) then false
          else if (23 <? hour t) || (59 <? minute t) || (59 <? second t) then false
          else match zone t with
               | None => true
               | Some (_, hours, minutes) => negb ((23 <? hours) || (59 <? minutes))
               end
      end
  | _ => false
  end.

(** ** Movement instants *)

(** [value.slice(i, j)] *)
Definition slice (i j : nat) (s : list Z) : list Z := take (j - i) (drop i s).

(** A leap second, written [:60], is the second after [:59]. *)
Definition movementMilliseconds (value : list Z) : option Z :=
  let leap := bool_decide (slice 17 19 value = js "60") in
  ms ← Date_parse (if leap then take 17 value ++ js "59" ++ drop 19 value else value);
  Some (ms + (if leap then 1000 else 0)).

(** [/\.(\d+)/.exec(value)?.[1] ?? ""] *)
Fixpoint first_fraction (s : list Z) : list Z :=
  match s with
  | [] => []
  | c :: r =>
      if c =? 46 then match fst (span_digits r) with [] => first_fraction r | ds => ds end
      else first_fraction r
  end.

(** [slice(0, 9).padEnd(9, "0")] *)
Definition nanosecond_digits (value : list Z) : list Z :=
  let ds := take 9 (first_fraction value) in ds ++ replicate (9 - length ds) 48.

(** [None] is [NaN]. *)
Definition compareMovementInstants (left right : list Z) (rightOffsetMilliseconds : Z) : option Z :=
  l ← movementMilliseconds left;
  r ← movementMilliseconds right;
  let milliseconds := l - r - rightOffsetMilliseconds in
  if negb (milliseconds =? 0) then Some milliseconds
  else
    let a := nanosecond_digits left in
    let b := nanosecond_digits right in
    if bool_decide (a = b) then Some 0 else Some (if str_leb a b then -1 else 1).

Example parse_epoch : Date_parse (js "1970-01-01T00:00:00Z") = Some 0.
Proof. reflexivity. Qed.
Example parse_zone : Date_parse (js "2026-02-28T23:59:59.1239+01:30") = Some 1772317799123.
Proof. reflexivity. Qed.
Example rfc_leap_day : isRFC3339 (Some (JString (js "2024-02-29T00:00:00Z"))) = true.
Proof. reflexivity. Qed.
Example rfc_no_leap_day : isRFC3339 (Some (JString (js "2100-02-29T00:00:00Z"))) = false.
Proof. reflexivity. Qed.
Example leap_second_order :
  compareMovementInstants (js "2016-12-31T23:59:60.5Z") (js "2017-01-01T00:00:00.5000000010Z") 0 = Some (-1).
Proof. reflexivity. Qed.

#[local] Ltac Zify.zify_post_hook ::= Z.to_euclidean_division_equations.

(** ** The text of a timestamp *)

Fixpoint padded (n : nat) (v : Z) : list Z :=
  match n with
  | O => []
  | S n' => padded n' (v / 10) ++ [48 + v mod 10]
  end.

Definition fraction_text (ds : list Z) : list Z := match ds with [] => [] | _ => 46 :: ds end.

Definition zone_text (z : option (bool * Z * Z)) : list Z :=
  match z with
  | None => [90]
  | Some (negative, hours, minutes) => (if negative : bool then 45 else 43) :: padded 2 hours ++ 58 :: padded 2 minutes
  end.

Definition timestamp_text (t : timestamp) : list Z :=
  padded 4 (year t) ++ 45 :: padded 2 (month t) ++ 45 :: padded 2 (day t) ++ 84 :: padded 2 (hour t) ++
  58 :: padded 2 (minute t) ++ 58 :: padded 2 (second t) ++ fraction_text (fraction t) ++ zone_text (zone t).

Definition zone_valid (high_hours high_minutes : Z) (z : option (bool * Z * Z)) : Prop :=
  match z with None => True | Some (_, h, m) => 0 <= h <= high_hours /\ 0 <= m <= high_minutes end.

(** The fields fit their two or four digits. *)
Record written (t : timestamp) : Prop := {
  w_year : 0 <= year t <= 9999;
  w_month : 0 <= month t <= 99;
  w_day : 0 <= day t <= 99;
  w_hour : 0 <= hour t <= 99;
  w_minute : 0 <= minute t <= 99;
  w_second : 0 <= second t <= 99;
  w_fraction : forallb is_digit (fraction t) = true;
  w_zone : zone_valid 99 99 (zone t)
}.

Lemma is_digit_iff c : is_digit c = true <-> 48 <= c <= 57.
Proof. unfold is_digit. rewrite andb_true_iff, !Z.leb_le. done. Qed.

Lemma number_of_snoc ds d : number_of (ds ++ [d]) = number_of ds * 10 + (d - 48).
Proof. unfold number_of. by rewrite fold_left_app. Qed.

Lemma padded_length n v : length (padded n v) = n.
Proof. revert v. induction n as [| n IH]; intros v; cbn; [done |]. rewrite length_app, IH. cbn. lia. Qed.

Lemma padded_digits n v : 0 <= v -> forallb is_digit (padded n v) = true.
Proof.
  revert v. induction n as [| n IH]; intros v Hv; cbn; [done |].
  rewrite forallb_app, IH by (apply Z.div_pos; lia). cbn. rewrite andb_true_r. apply is_digit_iff. lia.
Qed.

Lemma number_of_padded n v : 0 <= v < 10 ^ Z.of_nat n -> number_of (padded n v) = v.
Proof.
  revert v. induction n as [| n IH]; intros v Hv.
  - change (10 ^ Z.of_nat 0) with 1 in Hv. cbn. lia.
  - rewrite Nat2Z.inj_succ, Z.pow_succ_r in Hv by lia. cbn [padded]. rewrite number_of_snoc, IH; lia.
Qed.

Lemma number_of_range ds : forallb is_digit ds = true ->
  0 <= number_of ds < 10 ^ zlen ds /\ padded (length ds) (number_of ds) = ds.
Proof.
  induction ds as [| d ds IH] using rev_ind; intros H; [done |].
  rewrite forallb_app in H. cbn in H. apply andb_true_iff in H as [H Hd]. rewrite andb_true_r in Hd.
  apply is_digit_iff in Hd. destruct (IH H) as [Hr Hp].
  rewrite number_of_snoc, zlen_app, Z.pow_add_r by (apply zlen_nonneg || done).
  change (10 ^ zlen [d]) with 10. split; [lia |].
  rewrite length_app, Nat.add_comm. cbn [length Nat.add padded].
  replace ((number_of ds * 10 + (d - 48)) / 10) with (number_of ds) by lia. rewrite Hp. repeat f_equal. lia.
Qed.

Lemma digits_n_spec n s v r :
  digits_n n s = Some (v, r) <-> 0 <= v < 10 ^ Z.of_nat n /\ s = padded n v ++ r.
Proof.
  unfold digits_n. split.
  - destruct ((zlen (take n s) =? Z.of_nat n) && forallb is_digit (take n s)) eqn:E; [| done].
    intros [= <- <-]. apply andb_true_iff in E as [El Ed]. apply Z.eqb_eq in El.
    destruct (number_of_range _ Ed) as [Hr Hp]. rewrite El in Hr. split; [done |].
    unfold zlen in El. replace (length (take n s)) with n in Hp by lia. by rewrite Hp, take_drop.
  - intros [Hv ->]. rewrite (take_app_length' _ _ n) by (symmetry; apply padded_length).
    rewrite (drop_app_length' _ _ n) by (symmetry; apply padded_length).
    unfold zlen. rewrite padded_length, Z.eqb_refl, padded_digits, number_of_padded by lia. done.
Qed.

Lemma literal_spec c s r : literal c s = Some r <-> s = c :: r.
Proof.
  destruct s as [| x s]; cbn; [split; congruence |]. destruct (Z.eqb_spec x c); split; congruence.
Qed.

Lemma digits_n_text n v r : 0 <= v < 10 ^ Z.of_nat n -> digits_n n (padded n v ++ r) = Some (v, r).
Proof. intros. by apply digits_n_spec. Qed.

Lemma literal_text c r : literal c (c :: r) = Some r.
Proof. by apply literal_spec. Qed.

Lemma span_digits_spec ds r : forallb is_digit ds = true ->
  match r with c :: _ => is_digit c = false | [] => True end -> span_digits (ds ++ r) = (ds, r).
Proof.
  intros H Hr. induction ds as [| d ds IH]; cbn in *.
  - destruct r as [| c r]; [done |]. cbn. by rewrite Hr.
  - apply andb_true_iff in H as [-> H]. by rewrite IH.
Qed.

Lemma span_digits_inv s ds r : span_digits s = (ds, r) -> forallb is_digit ds = true /\ s = ds ++ r.
Proof.
  revert ds r. induction s as [| c s IH]; cbn; intros ds r H; [by injection H as <- <- |].
  destruct (is_digit c) eqn:Ec; [| by injection H as <- <-].
  destruct (span_digits s) as [ds' r'] eqn:E. injection H as <- <-.
  destruct (IH _ _ eq_refl) as [Hd ->]. cbn. by rewrite Ec.
Qed.

Lemma match_fraction_inv s ds r : match_fraction s = Some (ds, r) ->
  forallb is_digit ds = true /\ s = fraction_text ds ++ r.
Proof.
  unfold match_fraction. destruct (literal 46 s) as [r0 |] eqn:E; [| by intros [= <- <-]].
  apply literal_spec in E as ->. destruct (span_digits r0) as [ds' r'] eqn:Es.
  destruct (span_digits_inv _ _ _ Es) as [Hd ->]. destruct ds'; [done |]. by intros [= <- <-].
Qed.

Lemma zone_head z : zone_valid 99 99 z -> exists c r, zone_text z = c :: r /\ is_digit c = false /\ c <> 46.
Proof. destruct z as [[[[] h] m] |]; intros H; do 2 eexists; (split; [reflexivity | done]). Qed.

Lemma match_fraction_text ds z : forallb is_digit ds = true -> zone_valid 99 99 z ->
  match_fraction (fraction_text ds ++ zone_text z) = Some (ds, zone_text z).
Proof.
  intros Hd Hz. destruct (zone_head z Hz) as (c & r & E & Hc & Hp).
  unfold match_fraction. destruct ds as [| d ds]; cbn [fraction_text app].
  - rewrite E. cbn. by destruct (Z.eqb_spec c 46).
  - cbn [literal Z.eqb Pos.eqb]. change (d :: ds ++ zone_text z) with ((d :: ds) ++ zone_text z).
    rewrite span_digits_spec; [done | done |]. by rewrite E.
Qed.

Lemma match_zone_spec s z : match_zone s = Some z <-> zone_valid 99 99 z /\ s = zone_text z.
Proof.
  split.
  - unfold match_zone. destruct s as [| c r]; [done |].
    destruct ((c =? 90) && bool_decide (r = [])) eqn:E1.
    { intros [= <-]. reflect_tests. by subst. }
    destruct ((c =? 43) || (c =? 45)) eqn:E2; [| done].
    intros ([h r1] & Hh & H)%bind_Some. apply bind_Some in H as (r2 & Hl & H).
    apply bind_Some in H as ([m r3] & Hm & H). case_bool_decide; [| done]. injection H as <-. subst r3.
    apply digits_n_spec in Hh as [Hh ->]. apply literal_spec in Hl as ->. apply digits_n_spec in Hm as [Hm ->].
    split; [cbn; lia |]. cbn [zone_text]. rewrite app_nil_r.
    destruct (Z.eqb_spec c 45) as [-> | ?]; [done |]. destruct (Z.eqb_spec c 43) as [-> | ?]; done.
  - intros [Hz ->]. destruct z as [[[n h] m] |]; [| done]. cbn [zone_text zone_valid] in *.
    unfold match_zone. replace (((if n then 45 else 43) =? 90)) with false by (by destruct n). cbn [andb].
    replace (((if n then 45 else 43) =? 43) || ((if n then 45 else 43) =? 45)) with true by (by destruct n).
    rewrite (proj2 (digits_n_spec 2 _ h (58 :: padded 2 m)) ltac:(split; [lia | done])). cbn [mbind option_bind literal].
    rewrite Z.eqb_refl. cbn [mbind option_bind].
    rewrite (proj2 (digits_n_spec 2 _ m []) ltac:(split; [lia | by rewrite app_nil_r])).
    cbn [mbind option_bind]. rewrite bool_decide_true by done. by destruct n.
Qed.

Lemma match_timestamp_spec s t : match_timestamp s = Some t <-> written t /\ s = timestamp_text t.
Proof.
  split.
  - unfold match_timestamp. intros H.
    repeat match goal with
    | H : (_ ≫= _) = Some _ |- _ => apply bind_Some in H as (? & ? & H)
    | p : (_ * _)%type |- _ => destruct p
    | H : digits_n _ _ = Some _ |- _ => apply digits_n_spec in H as [? ->]
    | H : literal _ _ = Some _ |- _ => apply literal_spec in H as ->
    | H : match_fraction _ = Some _ |- _ => apply match_fraction_inv in H as [? ->]
    | H : match_zone _ = Some _ |- _ => apply match_zone_spec in H as [? ->]
    end.
    injection H as <-. split; [| done]. by constructor; cbn; try lia.
  - destruct t as [yy mo dd hh mi ss fr z]. intros [[] ->].
    cbn [year month day hour minute second fraction zone] in *.
    unfold match_timestamp, timestamp_text. cbn [year month day hour minute second fraction zone].
    rewrite digits_n_text by lia. cbn [mbind option_bind]. rewrite literal_text. cbn [mbind option_bind].
    do 5 (rewrite digits_n_text by lia; cbn [mbind option_bind]; try (rewrite literal_text; cbn [mbind option_bind])).
    rewrite match_fraction_text by done. cbn [mbind option_bind].
    by rewrite (proj2 (match_zone_spec _ z) (conj w_zone0 eq_refl)).
Qed.

(** ** The accepted timestamps *)

(** A date of the calendar, a time of day without leap second, a zone below
    one day. *)
Record valid_timestamp (t : timestamp) : Prop := {
  v_year : 0 <= year t <= 9999;
  v_month : 1 <= month t <= 12;
  v_day : 1 <= day t <= daysInMonth (year t) (month t);
  v_hour : 0 <= hour t <= 23;
  v_minute : 0 <= minute t <= 59;
  v_second : 0 <= second t <= 59;
  v_fraction : forallb is_digit (fraction t) = true;
  v_zone : zone_valid 23 59 (zone t)
}.

Lemma month_cases m : 1 <= m <= 12 ->
  m = 1 \/ m = 2 \/ m = 3 \/ m = 4 \/ m = 5 \/ m = 6 \/ m = 7 \/ m = 8 \/ m = 9 \/ m = 10 \/ m = 11 \/ m = 12.
Proof. lia. Qed.

Lemma daysInMonth_range y m : 1 <= m <= 12 -> 28 <= daysInMonth y m <= 31.
Proof.
  intros Hm. unfold daysInMonth. destruct (Z.eqb_spec m 2) as [-> | Hne].
  - destruct (_ && _); lia.
  - destruct (month_cases m Hm) as [? | [? | [? | [? | [? | [? | [? | [? | [? | [? | [? | ?]]]]]]]]]]]; subst; vm_compute; split; discriminate || congruence.
Qed.

Lemma in_range_spec low high n : in_range low high n = true <-> low <= n <= high.
Proof. unfold in_range. rewrite andb_true_iff, !Z.leb_le. done. Qed.

Lemma zone_valid_weaken h m h' m' z : h <= h' -> m <= m' -> zone_valid h m z -> zone_valid h' m' z.
Proof. destruct z as [[[] ?] |]; cbn; lia. Qed.

Lemma valid_written t : valid_timestamp t -> written t.
Proof.
  intros []. constructor; try lia; try done.
  - pose proof (daysInMonth_range (year t) (month t) v_month0). lia.
  - by apply (zone_valid_weaken 23 59).
Qed.

Lemma zone_ok_spec z : zone_valid 99 99 z -> zone_ok z = true <-> zone_valid 23 59 z.
Proof.
  destruct z as [[[] ?] |]; [| done].
  unfold zone_ok, zone_valid. rewrite andb_true_iff, !in_range_spec. lia.
Qed.

Lemma Date_parse_valid t : valid_timestamp t ->
  Date_parse (timestamp_text t) = Some (epoch_seconds t * 1000 + fraction_value 3 (fraction t)).
Proof.
  intros Hv. unfold Date_parse.
  rewrite (proj2 (match_timestamp_spec _ t) (conj (valid_written t Hv) eq_refl)). cbn [mbind option_bind].
  pose proof (proj2 (zone_ok_spec _ (w_zone _ (valid_written t Hv))) (v_zone _ Hv)) as ->.
  destruct Hv. pose proof (daysInMonth_range (year t) (month t) v_month0) as Hd.
  unfold time_of_day_ok. by rewrite !(proj2 (in_range_spec _ _ _)) by lia.
Qed.

(** [isRFC3339] accepts exactly the texts of timestamps of the calendar:
    four-digit year, a month, a day the month of that year has, a time of day
    without leap second, an optional fraction of any length, and [Z] or an
    offset below a day. Nothing else is accepted, and no such text is refused:
    the test that [Date.parse] gives a number never refuses one. *)
Theorem isRFC3339_exact v :
  isRFC3339 v = true <-> exists t, v = Some (JString (timestamp_text t)) /\ valid_timestamp t.
Proof.
  split.
  - destruct v as [[] |]; try done. unfold isRFC3339. destruct (match_timestamp s) as [t |] eqn:Em; [| done].
    apply match_timestamp_spec in Em as [Hw ->]. intros H. exists t. split; [done |].
    destruct (bool_decide _); [done |].
    destruct (in_range 1 12 (month t) && in_range 1 (daysInMonth (year t) (month t)) (day t)) eqn:Ed; [| done].
    apply andb_true_iff in Ed as [Hm Hd]. apply in_range_spec in Hm, Hd. cbn [negb] in H.
    destruct ((23 <? hour t) || (59 <? minute t) || (59 <? second t)) eqn:Et; [done |]. reflect_tests.
    destruct Hw. constructor; try lia; try done. destruct (zone t) as [[[n h] mi] |]; [| done].
    reflect_tests. cbn in *. lia.
  - intros (t & -> & Hv). unfold isRFC3339.
    rewrite (proj2 (match_timestamp_spec _ t) (conj (valid_written t Hv) eq_refl)), Date_parse_valid by done.
    rewrite bool_decide_false by done. destruct Hv. rewrite !(proj2 (in_range_spec _ _ _)) by lia. cbn [andb negb].
    destruct (Z.ltb_spec 23 (hour t)), (Z.ltb_spec 59 (minute t)), (Z.ltb_spec 59 (second t)); try lia. cbn [orb].
    destruct (zone t) as [[[n h] mi] |]; [| done]. cbn in v_zone0.
    destruct (Z.ltb_spec 23 h), (Z.ltb_spec 59 mi); done || lia.
Qed.

(** The days before March of year [y], and within the year that starts there. *)
Definition days_before (y : Z) : Z := y * 365 + y / 4 - y / 100 + y / 400.
Definition day_of_shifted_year (m : Z) : Z := (153 * (if m <=? 2 then m + 9 else m - 3) + 2) / 5.

Lemma day_number_split y m d :
  day_number y m d = (if m <=? 2 then days_before (y - 1) else days_before y) + day_of_shifted_year m + d - 1 - 719468.
Proof. unfold day_number, days_before, day_of_shifted_year. destruct (m <=? 2); lia. Qed.

Lemma div_pred k y : 0 < k -> y / k = (y - 1) / k + (if y mod k =? 0 then 1 else 0).
Proof.
  intros Hk. pose proof (Z.div_mod y k ltac:(lia)) as E. pose proof (Z.mod_pos_bound y k Hk).
  destruct (Z.eqb_spec (y mod k) 0) as [E0 | Hn].
  - pose proof (Z.div_unique_pos (y - 1) k (y / k - 1) (k - 1) ltac:(lia) ltac:(lia)). lia.
  - pose proof (Z.div_unique_pos (y - 1) k (y / k) (y mod k - 1) ltac:(lia) ltac:(lia)). lia.
Qed.

Lemma days_before_pred y :
  days_before y - days_before (y - 1) = (if (y mod 4 =? 0) && (negb (y mod 100 =? 0) || (y mod 400 =? 0)) then 366 else 365).
Proof.
  unfold days_before. rewrite (div_pred 4 y), (div_pred 100 y), (div_pred 400 y) by lia.
  assert (y mod 400 = 0 -> y mod 100 = 0) by lia. assert (y mod 100 = 0 -> y mod 4 = 0) by lia.
  destruct (Z.eqb_spec (y mod 4) 0), (Z.eqb_spec (y mod 100) 0), (Z.eqb_spec (y mod 400) 0); cbn [andb orb negb]; lia || tauto.
Qed.

(** [daysInMonth] is the calendar's: between the first days of two
    consecutive months there are exactly [daysInMonth] days, in every year,
    leap years and centuries included. *)
Theorem daysInMonth_calendar y m : 1 <= m <= 12 ->
  day_number (if m =? 12 then y + 1 else y) (if m =? 12 then 1 else m + 1) 1 - day_number y m 1 = daysInMonth y m.
Proof.
  intros Hm. rewrite !day_number_split. pose proof (days_before_pred y) as Hy. unfold daysInMonth.
  destruct (Z.eqb_spec m 12) as [-> | Hne]; [change (day_of_shifted_year 1) with 306; change (day_of_shifted_year 12) with 275;
    cbn [Z.leb Z.eqb Z.compare Pos.compare Pos.compare_cont Pos.eqb]; change (default 0 _) with 31; replace (y + 1 - 1) with y by lia; lia |].
  revert Hy. generalize (days_before y) as a, (days_before (y - 1)) as b. intros a b Hy.
  destruct (month_cases m Hm) as [? | [? | [? | [? | [? | [? | [? | [? | [? | [? | [? | ?]]]]]]]]]]]; subst m; try done;
    repeat match goal with
    | |- context [day_of_shifted_year ?n] => let v := eval vm_compute in (day_of_shifted_year n) in change (day_of_shifted_year n) with v
    | |- context [?n <=? 2] => let v := eval vm_compute in (n <=? 2) in change (n <=? 2) with v
    | |- context [default 0 ?o] => let v := eval vm_compute in (default 0 o) in change (default 0 o) with v
    end; cbn [Z.eqb Pos.eqb]; try lia.
  destruct (_ && _); lia.
Qed.

Lemma daysInMonth_calendar_witness : 1 <= 2 <= 12 /\ day_number 2000 3 1 - day_number 2000 2 1 = daysInMonth 2000 2.
Proof. split; [lia |]. apply (daysInMonth_calendar 2000 2). lia. Defined.

(** ** Movement instants are ordered to the nanosecond *)

(** The instant a timestamp denotes; second 60 is the second after 59. *)
Definition instant_ns (t : timestamp) : Z := epoch_seconds t * 10 ^ 9 + fraction_value 9 (fraction t).

Record movement_instant (t : timestamp) : Prop := {
  mv_year : 0 <= year t <= 9999;
  mv_month : 1 <= month t <= 12;
  mv_day : 1 <= day t <= 31;
  mv_hour : 0 <= hour t <= 23;
  mv_minute : 0 <= minute t <= 59;
  mv_second : 0 <= second t <= 60;
  mv_fraction : forallb is_digit (fraction t) = true;
  mv_zone : zone_valid 23 59 (zone t)
}.

Definition with_second (t : timestamp) (s : Z) : timestamp :=
  mkTimestamp (year t) (month t) (day t) (hour t) (minute t) s (fraction t) (zone t).

Lemma number_of_app a b : number_of (a ++ b) = number_of a * 10 ^ zlen b + number_of b.
Proof.
  induction b as [| d b IH] using rev_ind; [rewrite app_nil_r; change (zlen (@nil Z)) with 0; cbn; lia |].
  rewrite app_assoc, !number_of_snoc, IH, zlen_app, Z.pow_add_r by (apply zlen_nonneg || done).
  change (10 ^ zlen [d]) with 10. lia.
Qed.

Lemma number_of_cons d ds : number_of (d :: ds) = (d - 48) * 10 ^ zlen ds + number_of ds.
Proof. change (d :: ds) with ([d] ++ ds). rewrite number_of_app. cbn. lia. Qed.

Lemma digit_order a b : length a = length b -> forallb is_digit a = true -> forallb is_digit b = true ->
  (number_of a = number_of b <-> a = b) /\ (str_leb a b = true <-> number_of a <= number_of b).
Proof.
  revert b. induction a as [| x a IH]; intros [| y b] Hl Ha Hb; try done.
  cbn in Ha, Hb. apply andb_true_iff in Ha as [Hx Ha], Hb as [Hy Hb].
  destruct (IH b) as [IH1 IH2]; [by injection Hl | done | done |].
  destruct (number_of_range _ Ha) as [Ra _], (number_of_range _ Hb) as [Rb _].
  assert (El : zlen a = zlen b) by (unfold zlen; injection Hl; lia). rewrite El in Ra.
  rewrite !number_of_cons, str_leb_cons, El. apply is_digit_iff in Hx, Hy.
  generalize dependent (10 ^ zlen b). intros P Ra Rb. split.
  - split; [| by intros [= -> ->]]. intros E. assert (x = y) by nia. subst y. f_equal. apply IH1. lia.
  - rewrite IH2. split; [intros [? | [-> ?]]; nia |]. intros. destruct (Z.eq_dec x y); [right; nia | left; nia].
Qed.

Lemma take_padded {A} n m (l : list A) c : (n <= m)%nat ->
  take n (l ++ replicate m c) = take n l ++ replicate (n - length l) c.
Proof. intros. rewrite take_app, take_replicate. do 2 f_equal. lia. Qed.

Lemma forallb_take {A} (p : A -> bool) n l : forallb p l = true -> forallb p (take n l) = true.
Proof. rewrite !forallb_forall. intros H x Hx. apply H. rewrite <- (take_drop n l). apply in_or_app. by left. Qed.
Lemma forallb_drop {A} (p : A -> bool) n l : forallb p l = true -> forallb p (drop n l) = true.
Proof. rewrite !forallb_forall. intros H x Hx. apply H. rewrite <- (take_drop n l). apply in_or_app. by right. Qed.

Definition nine (ds : list Z) : list Z := take 9 (ds ++ replicate 9 48).

Lemma nine_spec ds : forallb is_digit ds = true -> forallb is_digit (nine ds) = true /\ length (nine ds) = 9%nat.
Proof.
  intros H. split.
  - unfold nine. apply forallb_take. by rewrite forallb_app, H.
  - unfold nine. rewrite length_take, length_app, length_replicate. lia.
Qed.

Lemma fraction_split ds : forallb is_digit ds = true -> exists r, 0 <= r < 10 ^ 6 /\
  fraction_value 9 ds = fraction_value 3 ds * 10 ^ 6 + r /\ 0 <= fraction_value 3 ds < 1000.
Proof.
  intros H. destruct (nine_spec ds H) as [Hd Hl]. exists (number_of (drop 3 (nine ds))).
  destruct (number_of_range _ (forallb_drop _ 3 _ Hd)) as [R _].
  assert (E6 : zlen (drop 3 (nine ds)) = 6) by (unfold zlen; rewrite length_drop, Hl; done).
  rewrite E6 in R. split; [done |].
  assert (E3 : fraction_value 3 ds = number_of (take 3 (nine ds))).
  { unfold fraction_value, nine. rewrite take_take. change (3 `min` 9)%nat with 3%nat. by rewrite !take_padded by lia. }
  split.
  - rewrite E3. unfold fraction_value. fold (nine ds). rewrite <- (take_drop 3 (nine ds)) at 1. by rewrite number_of_app, E6.
  - rewrite E3. destruct (number_of_range _ (forallb_take _ 3 _ Hd)) as [R3 _].
    replace (zlen (take 3 (nine ds))) with 3 in R3 by (unfold zlen; rewrite length_take, Hl; done). lia.
Qed.

Definition text_prefix (t : timestamp) : list Z :=
  padded 4 (year t) ++ 45 :: padded 2 (month t) ++ 45 :: padded 2 (day t) ++ 84 :: padded 2 (hour t) ++
  58 :: padded 2 (minute t) ++ [58].

Lemma text_split t s : timestamp_text (with_second t s) = text_prefix t ++ padded 2 s ++ fraction_text (fraction t) ++ zone_text (zone t).
Proof. unfold timestamp_text, text_prefix. cbn [year month day hour minute second fraction zone with_second]. by repeat (rewrite <- app_assoc; cbn [app]). Qed.

Lemma text_prefix_length t : length (text_prefix t) = 17%nat.
Proof. unfold text_prefix. repeat (rewrite length_app || rewrite padded_length || cbn [length]). done. Qed.

Lemma with_same_second t : with_second t (second t) = t.
Proof. by destruct t. Qed.

Lemma second_slice t : movement_instant t ->
  bool_decide (slice 17 19 (timestamp_text t) = js "60") = (second t =? 60).
Proof.
  intros []. assert (slice 17 19 (timestamp_text t) = padded 2 (second t)) as ->.
  { rewrite <- (with_same_second t) at 1. rewrite text_split. unfold slice.
    by rewrite (drop_app_length' _ _ 17), (take_app_length' _ _ 2) by (symmetry; apply text_prefix_length || apply padded_length). }
  destruct (Z.eqb_spec (second t) 60) as [-> | Hn]; [done |]. apply bool_decide_false. intros E. apply Hn.
  apply (f_equal number_of) in E. rewrite number_of_padded in E by lia. done.
Qed.

Lemma leap_text t : timestamp_text (with_second t 59) =
  take 17 (timestamp_text t) ++ js "59" ++ drop 19 (timestamp_text t).
Proof.
  rewrite <- (with_same_second t) at 2 3. rewrite !text_split.
  rewrite (take_app_length' _ _ 17) by (symmetry; apply text_prefix_length). f_equal.
Qed.

Lemma Date_parse_movement t : movement_instant t -> second t <= 59 ->
  Date_parse (timestamp_text t) = Some (epoch_seconds t * 1000 + fraction_value 3 (fraction t)).
Proof.
  intros [] Hs. assert (Hw : written t).
  { constructor; try lia; try done. by apply (zone_valid_weaken 23 59). }
  unfold Date_parse. rewrite (proj2 (match_timestamp_spec _ t) (conj Hw eq_refl)). cbn [mbind option_bind].
  pose proof (proj2 (zone_ok_spec _ (w_zone _ Hw)) mv_zone0) as ->.
  unfold time_of_day_ok. by rewrite !(proj2 (in_range_spec _ _ _)) by lia.
Qed.

Lemma movementMilliseconds_spec t : movement_instant t ->
  movementMilliseconds (timestamp_text t) = Some (epoch_seconds t * 1000 + fraction_value 3 (fraction t)).
Proof.
  intros Hm. unfold movementMilliseconds. rewrite second_slice by done. destruct (Z.eqb_spec (second t) 60) as [E | Hn].
  - rewrite <- leap_text, Date_parse_movement; [| destruct Hm; constructor; done || (cbn; lia) | cbn; lia].
    cbn [mbind option_bind]. f_equal. unfold epoch_seconds. cbn [year month day hour minute second fraction zone with_second]. lia.
  - rewrite Date_parse_movement by (done || destruct Hm; lia). cbn [mbind option_bind]. f_equal. lia.
Qed.

Lemma forallb_cons {A} (p : A -> bool) x l : forallb p (x :: l) = p x && forallb p l.
Proof. done. Qed.

Lemma first_fraction_skip p s : forallb (fun c => negb (c =? 46)) p = true -> first_fraction (p ++ s) = first_fraction s.
Proof.
  induction p as [| c p IH]; cbn; [done |]. intros [Hc Hp]%andb_true_iff. destruct (c =? 46); [done |]. by apply IH.
Qed.

Lemma padded_no_point n v : 0 <= v -> forallb (fun c => negb (c =? 46)) (padded n v) = true.
Proof.
  intros Hv. pose proof (padded_digits n v Hv) as H. rewrite forallb_forall in *. intros c Hc.
  specialize (H c Hc). apply is_digit_iff in H. destruct (Z.eqb_spec c 46); [lia | done].
Qed.

Lemma first_fraction_text t : movement_instant t -> first_fraction (timestamp_text t) = fraction t.
Proof.
  intros Hm. rewrite <- (with_same_second t) at 1. rewrite text_split, app_assoc, first_fraction_skip.
  - destruct Hm. assert (Hz : zone_valid 99 99 (zone t)) by by apply (zone_valid_weaken 23 59).
    destruct (zone_head _ Hz) as (c & r & E & Hc & Hp). destruct (fraction t) as [| d ds] eqn:Ef.
    + cbn [fraction_text app]. destruct (zone t) as [[[n h] m] |]; [| done]. cbn [zone_text].
      cbn in mv_zone0.
      assert (Hall : forallb (fun c => negb (c =? 46)) ((if n then 45 else 43) :: padded 2 h ++ 58 :: padded 2 m) = true).
      { rewrite forallb_cons, forallb_app, forallb_cons, !padded_no_point by lia. by destruct n. }
      rewrite <- (app_nil_r (_ :: _)), first_fraction_skip; done.
    + cbn [fraction_text app first_fraction Z.eqb Pos.eqb]. rewrite app_comm_cons, span_digits_spec; [done | done |]. by rewrite E.
  - destruct Hm. unfold text_prefix. repeat (rewrite forallb_app || rewrite forallb_cons || rewrite padded_no_point by lia). done.
Qed.

Lemma nanosecond_digits_text t : movement_instant t -> nanosecond_digits (timestamp_text t) = nine (fraction t).
Proof.
  intros Hm. unfold nanosecond_digits, nine. rewrite first_fraction_text by done. rewrite take_padded by lia.
  rewrite length_take. do 2 f_equal. lia.
Qed.

(** [compareMovementInstants] orders movement instants exactly. For two
    timestamps, leap seconds and fractions of any length included, and an offset
    of whole seconds, it returns a number with the sign of the difference of the
    instants in nanoseconds, digits past the ninth being ignored; [Date.parse]
    alone would round both to milliseconds and refuse the leap second. *)
Theorem compareMovementInstants_exact l r offset :
  movement_instant l -> movement_instant r -> offset mod 1000 = 0 ->
  exists n, compareMovementInstants (timestamp_text l) (timestamp_text r) offset = Some n /\
    Z.sgn n = Z.sgn (instant_ns l - (instant_ns r + offset * 10 ^ 6)).
Proof.
  intros Hl Hr Ho. unfold compareMovementInstants.
  rewrite !movementMilliseconds_spec, !nanosecond_digits_text by done. cbn [mbind option_bind].
  destruct (nine_spec _ (mv_fraction _ Hl)) as [Dl Ll], (nine_spec _ (mv_fraction _ Hr)) as [Dr Lr].
  destruct (fraction_split _ (mv_fraction _ Hl)) as (a & Ha & El & Hl3), (fraction_split _ (mv_fraction _ Hr)) as (b & Hb & Er & Hr3).
  destruct (digit_order (nine (fraction l)) (nine (fraction r)) ltac:(congruence) Dl Dr) as [Heq Hle].
  change (number_of (nine (fraction l))) with (fraction_value 9 (fraction l)) in *.
  change (number_of (nine (fraction r))) with (fraction_value 9 (fraction r)) in *.
  unfold instant_ns. rewrite El, Er in *. clear El Er.
  set (D := epoch_seconds l * 1000 + fraction_value 3 (fraction l) - (epoch_seconds r * 1000 + fraction_value 3 (fraction r)) - offset).
  destruct (Z.eqb_spec D 0) as [E | Hn]; cbn [negb].
  - assert (fraction_value 3 (fraction l) = fraction_value 3 (fraction r)) by lia.
    case_bool_decide as Hd; [apply Heq in Hd; exists 0; split; [done |]; lia |].
    destruct (str_leb _ _) eqn:Es; eexists; (split; [done |]).
    + apply proj1 in Hle. specialize (Hle eq_refl). assert (a <> b) by (intros ->; apply Hd, Heq; lia). lia.
    + assert (~ a <= b) by (intros H'; apply proj2 in Hle; by specialize (Hle ltac:(lia))). lia.
  - exists D. split; [done |]. lia.
Qed.

Definition leap_instant : timestamp := mkTimestamp 2016 12 31 23 59 60 (js "5") None.
Definition after_leap : timestamp := mkTimestamp 2017 1 1 1 30 0 (js "5000000010") (Some (false, 1, 30)).

Lemma compareMovementInstants_exact_witness :
  movement_instant leap_instant /\ movement_instant after_leap /\
  exists n, compareMovementInstants (timestamp_text leap_instant) (timestamp_text after_leap) 0 = Some n /\
    Z.sgn n = Z.sgn (instant_ns leap_instant - (instant_ns after_leap + 0 * 10 ^ 6)).
Proof.
  assert (H1 : movement_instant leap_instant) by (constructor; cbn; lia || done).
  assert (H2 : movement_instant after_leap) by (constructor; cbn; lia || done).
  split; [exact H1 |]. split; [exact H2 |].
  apply (compareMovementInstants_exact leap_instant after_leap 0 H1 H2). reflexivity.
Defined.
