(* ===== verification/Contract.v ===== *)
(** * The radio contract ([contract.ts])

    Which JSON values are Link messages, how a message travels as canonical
    JSON under the contract's revision, and how the transport classes it. *)

From Stdlib Require Import ZArith Lia String.
From stdpp Require Import base list option.
From S2P Require Import Prelude JsMap Wtf8 Json CompactValue Base64 Compression LinkTypes Frame Instants.

Open Scope string_scope.
Open Scope list_scope.
Open Scope Z_scope.

Definition RADIO_CONTRACT_REVISION : string := "sha256:59a8915b063180e08c2b471e8cccf3d894fc424dda98392d2baf0bbc9b138bdc".
Definition MAX_OBJECT_CONTENT_BYTES : Z := 32 * 1024.
Definition MAX_RADIO_MOVEMENT_SAMPLES : Z := 100.
Definition MAX_RADIO_TRAIL_POINTS : Z := 100.

(** ** The schema validators

    The validators the contract imports from the SDK are generated from the
    protocol's JSON Schema; they are a parameter, one test per definition. *)

Inductive ProtocolDefinition :=
  | ChangedSinceResponse | CommandCatalog | EntityCheckInRequest | EntityCheckInResponse | EntityCreateRequest
  | EntityResource | EntityUpdateRequest | FullDatasetResponse | JSONValue | MapArea
  | MovementHistoryBatchRequest | MovementHistoryBatchResponse | MovementHistoryPage | MovementInspection
  | MovementTrail | ObjectCreateRequest | ObjectDetailResource | ObjectResource | ObjectUpdateRequest
  | PluginDiscoveryResponse | RFC3339Timestamp | RuntimeReadyRequest | RuntimeRegistrationRequest
  | RuntimeStopRequest | RuntimeTaskDeliveryResponse | SpatialOperationResult | TaskAcknowledgeRequest
  | TaskCancelRequest | TaskCompleteRequest | TaskCreateRequest | TaskFailRequest | TaskProgressRequest
  | TaskResource | TaskStartRequest.

Class Validators := { validates : ProtocolDefinition -> json -> bool }.

(** ** Operations *)

Inductive AtlasRadioOperationName :=
  | command_catalog_get
  | entity_check_in | entity_create | entity_delete | entity_get | entity_history | entity_import_movement
  | entity_inspect_movement | entity_trail | entity_update
  | object_get_content | object_create | object_delete | object_get | object_update
  | plugin_invoke | plugin_invoke_spatial | plugin_list
  | query_changed_since | query_full
  | runtime_begin | runtime_ready | runtime_stop | runtime_tasks
  | task_acknowledge | task_cancel | task_complete | task_create | task_fail | task_get | task_progress | task_start.

Definition operation_name (o : AtlasRadioOperationName) : string :=
  match o with
  | command_catalog_get => "command_catalog.get"
  | entity_check_in => "entity.check_in"
  | entity_create => "entity.create"
  | entity_delete => "entity.delete"
  | entity_get => "entity.get"
  | entity_history => "entity.history"
  | entity_import_movement => "entity.import_movement"
  | entity_inspect_movement => "entity.inspect_movement"
  | entity_trail => "entity.trail"
  | entity_update => "entity.update"
  | object_get_content => "object.content"
  | object_create => "object.create"
  | object_delete => "object.delete"
  | object_get => "object.get"
  | object_update => "object.update"
  | plugin_invoke => "plugin.invoke"
  | plugin_invoke_spatial => "plugin.invoke_spatial"
  | plugin_list => "plugin.list"
  | query_changed_since => "query.changed_since"
  | query_full => "query.full"
  | runtime_begin => "runtime.begin"
  | runtime_ready => "runtime.ready"
  | runtime_stop => "runtime.stop"
  | runtime_tasks => "runtime.tasks"
  | task_acknowledge => "task.acknowledge"
  | task_cancel => "task.cancel"
  | task_complete => "task.complete"
  | task_create => "task.create"
  | task_fail => "task.fail"
  | task_get => "task.get"
  | task_progress => "task.progress"
  | task_start => "task.start"
  end.

Definition all_operations : list AtlasRadioOperationName :=
  [command_catalog_get; entity_check_in; entity_create; entity_delete; entity_get; entity_history;
   entity_import_movement; entity_inspect_movement; entity_trail; entity_update; object_get_content; object_create;
   object_delete; object_get; object_update; plugin_invoke; plugin_invoke_spatial; plugin_list;
   query_changed_since; query_full; runtime_begin; runtime_ready; runtime_stop; runtime_tasks;
   task_acknowledge; task_cancel; task_complete; task_create; task_fail; task_get; task_progress; task_start].

Inductive OperationKind := kind_request | kind_mutation.
#[export] Instance OperationKind_eq_dec : EqDecision OperationKind.
Proof. solve_decision. Defined.

(** [ATLAS_RADIO_OPERATIONS[value].kind] *)
Definition ATLAS_RADIO_OPERATIONS (o : AtlasRadioOperationName) : OperationKind :=
  match o with
  | command_catalog_get | entity_get | entity_history | entity_inspect_movement | entity_trail | object_get_content
  | object_get | plugin_invoke | plugin_invoke_spatial | plugin_list | query_changed_since | query_full
  | runtime_tasks | task_get => kind_request
  | _ => kind_mutation
  end.

(** The own key [s] of [ATLAS_RADIO_OPERATIONS]. *)
Definition isOperation (s : list Z) : option AtlasRadioOperationName :=
  List.find (fun o => bool_decide (js (operation_name o) = s)) all_operations.

Definition of_kind (kind : OperationKind) (o : option AtlasRadioOperationName) : option AtlasRadioOperationName :=
  match o with
  | Some o => if bool_decide (ATLAS_RADIO_OPERATIONS o = kind) then Some o else None
  | None => None
  end.

Definition isRequestOperation (s : list Z) : option AtlasRadioOperationName := of_kind kind_request (isOperation s).
Definition isMutationOperation (s : list Z) : option AtlasRadioOperationName := of_kind kind_mutation (isOperation s).

(** ** Values as the code reads them

    [None] is [undefined]: an absent member, or a member of a value that is
    not an object. *)

Abbreviation fields := (list (list Z * json)) (only parsing).

Definition isRecord (value : option json) : option fields :=
  match value with Some (JObject m) => Some m | _ => None end.

(** [value.k] *)
Definition prop (m : fields) (k : string) : option json := jget (js k) m.

Definition defined (v : option json) : bool := match v with Some _ => true | None => false end.

(** [v === "text"] *)
Definition is_text (v : option json) (text : string) : bool :=
  match json_string v with Some s => bool_decide (s = js text) | None => false end.

Definition is_true (v : option json) : bool := match v with Some (JBool true) => true | _ => false end.

Definition isOneOf (v : option json) (allowed : list string) : bool := existsb (is_text v) allowed.

Definition is_nonempty (v : option json) : bool :=
  match json_string v with Some s => isNonEmptyString s | None => false end.

Definition integer_in (low : Z) (v : option json) : bool :=
  match json_integer v with Some n => low <=? n | None => false end.

Definition integer_between (low high : Z) (v : option json) : bool :=
  match json_integer v with Some n => in_range low high n | None => false end.

Definition optional (test : option json -> bool) (v : option json) : bool :=
  match v with None => true | Some _ => test v end.

Definition optionalString : option json -> bool := optional is_nonempty.
Definition optionalBoolean : option json -> bool :=
  optional (fun v => match v with Some (JBool _) => true | _ => false end).
Definition optionalNonNegativeInteger : option json -> bool := optional (integer_in 0).
Definition optionalPositiveInteger : option json -> bool := optional (integer_in 1).

Definition isResourceType (v : option json) : bool := isOneOf v ["entity"; "task"; "object"].

Definition isLinkNode (value : option json) : bool :=
  match isRecord value with
  | Some m =>
      isOneOf (prop m "role") ["asset"; "gateway"] &&
      match json_string (prop m "id") with Some s => valid_node_id s | None => false end
  | None => false
  end.

Definition isFeedSelector (value : option json) : bool :=
  match isRecord value with
  | None => false
  | Some m =>
      if is_text (prop m "kind") "record" then isResourceType (prop m "resource_type") && is_nonempty (prop m "id")
      else if is_text (prop m "kind") "resource_type" then isResourceType (prop m "resource_type")
      else is_text (prop m "kind") "tasks_for_asset" && is_nonempty (prop m "asset_id")
  end.

Definition isSubscriptionOperation (m : fields) : bool :=
  isOneOf (prop m "action") ["add"; "renew"; "remove"] && isFeedSelector (prop m "selector").

(** *** Control messages *)

(** The equality of [Set] on the members of an array. *)
Definition same_value_zero (a b : json) : bool :=
  match a, b with
  | JNull, JNull => true
  | JBool x, JBool y => Bool.eqb x y
  | JNumber x, JNumber y => (x =? y) || ((f64_significand x =? 0) && (f64_significand y =? 0))
  | JString s, JString t => bool_decide (s = t)
  | _, _ => false
  end.

(** [new Set(l).size] *)
Fixpoint set_size (l : list json) : Z :=
  match l with
  | [] => 0
  | x :: l' => (if existsb (same_value_zero x) l' then 0 else 1) + set_size l'
  end.

Definition isMissingChunks (v : option json) : bool :=
  match v with
  | Some (JArray l) =>
      (zlen l <=? MAX_LINK_FRAGMENTS) && (set_size l =? zlen l) &&
      forallb (fun item => integer_between 0 (MAX_LINK_FRAGMENTS - 1) (Some item)) l
  | _ => false
  end.

Definition isControlMessage (m : fields) : bool :=
  if is_text (prop m "control") "source_active" then
    is_nonempty (prop m "operation_id") && isLinkNode (prop m "active_source") &&
    integer_in 1 (prop m "active_generation") && is_nonempty (prop m "active_session")
  else
    isOneOf (prop m "control") ["confirmed"; "rejected"; "missing_chunks"] &&
    is_nonempty (prop m "operation_id") && is_nonempty (prop m "message_id") && optionalString (prop m "reason") &&
    (if is_text (prop m "control") "missing_chunks" then isMissingChunks (prop m "missing_chunks")
     else negb (defined (prop m "missing_chunks"))).

(** *** Object content *)

(** [/^sha256:[a-f0-9]{64}$/] *)
Definition isSha256 (s : list Z) : bool :=
  bool_decide (take 7 s = js "sha256:") && (zlen (drop 7 s) =? 64) &&
  forallb (fun c => is_digit c || in_range 97 102 c) (drop 7 s).

(** [A-Za-z0-9+/] is the alphabet of base64url with [+] and [/] for its last two digits. *)
Definition url_digit (c : Z) : Z := if c =? 43 then 45 else if c =? 47 then 95 else if (c =? 45) || (c =? 95) then 61 else c.

Fixpoint strip_padding (s : list Z) : list Z :=
  match s with
  | [] => []
  | c :: r => if (c =? 61) && (bool_decide (r = []) || bool_decide (r = [61])) then [] else c :: strip_padding r
  end.

(** The digits of a text that matches the padded base64 expression: groups of
    four, the last one ending in at most two [=]. *)
Definition base64_digits (s : list Z) : option (list Z) :=
  if zlen s mod 4 =? 0 then base64_values (map url_digit (strip_padding s)) else None.

Section contract.
Context {zlib : Zlib} {validators : Validators}.

Definition validated (d : ProtocolDefinition) (v : option json) : bool :=
  match v with Some v => validates d v | None => false end.

Definition optionalJSON : option json -> bool := optional (validated JSONValue).

Definition isObjectContent (m : fields) : bool :=
  if negb (is_nonempty (prop m "object_id") && is_nonempty (prop m "request_id")) then false
  else
    match json_string (prop m "content_base64"), json_string (prop m "sha256") with
    | Some text, Some digest =>
        if negb (isSha256 digest) then false
        else
          match base64_digits text with
          | None => false
          | Some values =>
              let content := base64_bytes values in
              (zlen content <=? MAX_OBJECT_CONTENT_BYTES) && bool_decide (js "sha256:" ++ sha256_hex content = digest)
          end
    | _, _ => false
    end.

(** *** State, tasks, requests and operations *)

Definition isStatePublication (m : fields) : bool :=
  let v := prop m in
  if negb (isRFC3339 (v "observation_time") && isOneOf (v "path") ["field"; "gateway_feed"] &&
           isOneOf (v "confirmation") ["not_required"; "awaiting_core"; "core_confirmed"; "core_rejected"] &&
           optionalString (v "operation_id") && optionalString (v "runtime_id") &&
           optionalBoolean (v "deleted") && optionalNonNegativeInteger (v "atlas_version")) then false
  else if is_text (v "path") "field" && is_text (v "confirmation") "awaiting_core" &&
          negb (is_nonempty (v "operation_id")) then false
  else if is_true (v "deleted") then
    isOneOf (v "resource_type") ["entity"; "object"] && is_nonempty (v "resource_id") &&
    negb (defined (v "resource")) && integer_in 0 (v "atlas_version")
  else if defined (v "resource_id") || defined (v "atlas_version") then false
  else if is_text (v "resource_type") "entity" then validated EntityResource (v "resource")
  else if is_text (v "resource_type") "task" then
    negb (is_true (v "deleted")) && negb (defined (v "atlas_version")) && validated TaskResource (v "resource")
  else if is_text (v "resource_type") "object" then validated ObjectResource (v "resource")
  else false.

Definition isTaskDelivery (m : fields) : bool :=
  isOneOf (prop m "delivery") ["assignment"; "cancellation"] && validated TaskResource (prop m "task").

Definition task_report_body (action : option json) : option ProtocolDefinition :=
  if is_text action "acknowledge" then Some TaskAcknowledgeRequest
  else if is_text action "start" then Some TaskStartRequest
  else if is_text action "progress" then Some TaskProgressRequest
  else if is_text action "complete" then Some TaskCompleteRequest
  else if is_text action "fail" then Some TaskFailRequest
  else if is_text action "cancel" then Some TaskCancelRequest
  else None.

Definition isTaskReport (m : fields) : bool :=
  if negb (is_nonempty (prop m "task_id") && is_nonempty (prop m "runtime_id") && isRFC3339 (prop m "observation_time") &&
           match isRecord (prop m "body") with Some _ => true | None => false end) then false
  else match task_report_body (prop m "action") with
       | Some d => validated d (prop m "body")
       | None => false
       end.

(** [String(value)] of a string. *)
Definition text_of (v : option json) : list Z := default [] (json_string v).

Definition at_most (limit : Z) (n : option Z) : bool := match n with Some n => n <=? limit | None => false end.

Definition validMovementWindow (m : fields) : bool :=
  is_nonempty (prop m "target_id") && validated RFC3339Timestamp (prop m "entity_created_at") &&
  validated RFC3339Timestamp (prop m "from") && validated RFC3339Timestamp (prop m "to") &&
  at_most 0 (compareMovementInstants (text_of (prop m "from")) (text_of (prop m "to")) 0) &&
  at_most 0 (compareMovementInstants (text_of (prop m "to")) (text_of (prop m "from")) 2592000000).

Definition validOperationContext (o : AtlasRadioOperationName) (m : fields) : bool :=
  match o with
  | task_acknowledge | task_start | task_progress | task_complete | task_fail | runtime_tasks =>
      is_nonempty (prop m "target_id") && is_nonempty (prop m "runtime_id")
  | entity_history =>
      validMovementWindow m && negb (defined (prop m "max_points")) &&
      optional (integer_between 1 MAX_RADIO_MOVEMENT_SAMPLES) (prop m "limit")
  | entity_trail =>
      validMovementWindow m && negb (defined (prop m "cursor")) && negb (defined (prop m "limit")) &&
      integer_between 2 MAX_RADIO_TRAIL_POINTS (prop m "max_points")
  | entity_inspect_movement =>
      is_nonempty (prop m "target_id") && validated RFC3339Timestamp (prop m "entity_created_at") &&
      validated RFC3339Timestamp (prop m "at")
  | entity_import_movement | entity_get | entity_update | entity_delete | entity_check_in | task_get | task_cancel
  | runtime_begin | runtime_stop | runtime_ready | object_get | object_update | object_delete | object_get_content =>
      is_nonempty (prop m "target_id")
  | task_create => is_nonempty (prop m "idempotency_key")
  | query_changed_since => integer_in 0 (prop m "since_version")
  | plugin_invoke | plugin_invoke_spatial => is_nonempty (prop m "plugin_id") && is_nonempty (prop m "plugin_operation_id")
  | entity_create | object_create | query_full | command_catalog_get | plugin_list => true
  end.

(** The definition an operation's input is tested by; [None] is no input. *)
Definition input_definition (o : AtlasRadioOperationName) : option ProtocolDefinition :=
  match o with
  | entity_import_movement => Some MovementHistoryBatchRequest
  | entity_create => Some EntityCreateRequest
  | entity_update => Some EntityUpdateRequest
  | entity_check_in => Some EntityCheckInRequest
  | task_create => Some TaskCreateRequest
  | task_acknowledge => Some TaskAcknowledgeRequest
  | task_start => Some TaskStartRequest
  | task_progress => Some TaskProgressRequest
  | task_complete => Some TaskCompleteRequest
  | task_fail => Some TaskFailRequest
  | task_cancel => Some TaskCancelRequest
  | runtime_begin => Some RuntimeRegistrationRequest
  | runtime_stop => Some RuntimeStopRequest
  | runtime_ready => Some RuntimeReadyRequest
  | object_create => Some ObjectCreateRequest
  | object_update => Some ObjectUpdateRequest
  | plugin_invoke => Some JSONValue
  | plugin_invoke_spatial => Some MapArea
  | _ => None
  end.

Definition tested_by (d : option ProtocolDefinition) (v : option json) : bool :=
  match d with Some d => validated d v | None => negb (defined v) end.

Definition validOperationInput (o : AtlasRadioOperationName) (input : option json) : bool :=
  tested_by (input_definition o) input.

Definition output_definition (o : AtlasRadioOperationName) : option ProtocolDefinition :=
  match o with
  | entity_history => Some MovementHistoryPage
  | entity_trail => Some MovementTrail
  | entity_inspect_movement => Some MovementInspection
  | entity_import_movement => Some MovementHistoryBatchResponse
  | entity_get | entity_create | entity_update => Some EntityResource
  | entity_check_in => Some EntityCheckInResponse
  | task_get | task_create | task_acknowledge | task_start | task_progress | task_complete | task_fail | task_cancel =>
      Some TaskResource
  | runtime_tasks => Some RuntimeTaskDeliveryResponse
  | object_get | object_create | object_update => Some ObjectDetailResource
  | query_full => Some FullDatasetResponse
  | query_changed_since => Some ChangedSinceResponse
  | command_catalog_get => Some CommandCatalog
  | plugin_list => Some PluginDiscoveryResponse
  | plugin_invoke => Some JSONValue
  | plugin_invoke_spatial => Some SpatialOperationResult
  | entity_delete | runtime_begin | runtime_stop | runtime_ready | object_delete | object_get_content => None
  end.

Definition validOperationOutput (o : AtlasRadioOperationName) (output : option json) : bool :=
  tested_by (output_definition o) output.

Definition with_operation (find : list Z -> option AtlasRadioOperationName) (m : fields)
    (test : AtlasRadioOperationName -> bool) : bool :=
  match json_string (prop m "operation") with
  | Some s => match find s with Some o => test o | None => false end
  | None => false
  end.

Definition isDataRequest (m : fields) : bool :=
  let v := prop m in
  is_nonempty (v "request_id") &&
  with_operation isRequestOperation m (fun o =>
    optionalString (v "target_id") && optionalString (v "runtime_id") && optionalString (v "plugin_id") &&
    optionalString (v "plugin_operation_id") && optionalNonNegativeInteger (v "since_version") &&
    optionalJSON (v "input") && optionalString (v "cursor") && optionalPositiveInteger (v "limit") &&
    optionalString (v "entity_cursor") && optionalString (v "task_cursor") && optionalString (v "object_cursor") &&
    optionalPositiveInteger (v "entity_limit") && optionalPositiveInteger (v "task_limit") &&
    optionalPositiveInteger (v "object_limit") &&
    validOperationContext o m && validOperationInput o (v "input")).

Definition isDataResponse (m : fields) : bool :=
  is_nonempty (prop m "request_id") &&
  with_operation isOperation m (fun o =>
    optionalString (prop m "next_cursor") && validOperationOutput o (prop m "output")).

Definition isResourceOperation (m : fields) : bool :=
  let v := prop m in
  with_operation isMutationOperation m (fun o =>
    optionalJSON (v "input") && optionalString (v "target_id") && optionalString (v "runtime_id") &&
    optionalString (v "idempotency_key") && optionalNonNegativeInteger (v "if_match_version") &&
    optionalString (v "plugin_id") && optionalString (v "plugin_operation_id") &&
    validOperationContext o m && validOperationInput o (v "input")).

(** ** Link messages *)

Definition message_type_name (t : LinkMessageType) : string :=
  match t with
  | state => "state" | task_delivery => "task_delivery" | task_report => "task_report"
  | data_request => "data_request" | data_response => "data_response" | resource_operation => "resource_operation"
  | subscription => "subscription" | object_content_message => "object_content" | control => "control"
  end.

(** [message.type], one of the nine own keys of [validators]. *)
Definition type_of (m : fields) : option LinkMessageType :=
  List.find (fun t => is_text (prop m "type") (message_type_name t)) message_types.

Definition message_validator (t : LinkMessageType) : fields -> bool :=
  match t with
  | state => isStatePublication
  | task_delivery => isTaskDelivery
  | task_report => isTaskReport
  | data_request => isDataRequest
  | data_response => isDataResponse
  | resource_operation => isResourceOperation
  | subscription => isSubscriptionOperation
  | object_content_message => isObjectContent
  | control => isControlMessage
  end.

Definition isLinkMessage (value : option json) : bool :=
  match isRecord value with
  | Some m => match type_of m with Some t => message_validator t m | None => false end
  | None => false
  end.

Definition envelope (message : json) : json := JObject [(js "r", JString (js RADIO_CONTRACT_REVISION)); (js "message", message)].

Definition serializeLinkMessage (message : json) : result (list Z) :=
  guard! isLinkMessage (Some message) else TypeError "Invalid Atlas Radio contract message" in
  encodeCanonicalJSON (envelope message).

Definition deserializeLinkMessage (bs : list Z) : result json :=
  let! payload := decodeMessagePayload bs in
  let! value := decodeJSON payload in
  match isRecord (Some value) with
  | None => Throw (TypeError "Invalid or incompatible Atlas Radio contract message")
  | Some m =>
      guard! is_text (prop m "r") RADIO_CONTRACT_REVISION && isLinkMessage (prop m "message")
        else TypeError "Invalid or incompatible Atlas Radio contract message" in
      from_option (prop m "message") (TypeError "Invalid or incompatible Atlas Radio contract message")
  end.
End contract.

(** ** Classes of messages *)

Definition member_of (v : option json) (k : string) : option json :=
  match isRecord v with Some m => prop m k | None => None end.

(** A deleted publication names its resource; another one carries it. *)
Definition resourceID (m : fields) : list Z :=
  if is_true (prop m "deleted") then text_of (prop m "resource_id")
  else text_of (member_of (prop m "resource")
    (if is_text (prop m "resource_type") "entity" then "entity_id"
     else if is_text (prop m "resource_type") "task" then "task_id" else "object_id")).

Definition starts_with (p s : list Z) : bool := bool_decide (take (length p) s = p).

Definition messagePriority (m : fields) : MessagePriority :=
  let v := prop m in
  if is_text (v "type") "control" then safety
  else if is_text (v "type") "task_delivery" then if is_text (v "delivery") "cancellation" then safety else task
  else if is_text (v "type") "task_report" then if is_text (v "action") "cancel" then safety else task
  else if isOneOf (v "type") ["data_request"; "data_response"; "subscription"] then request
  else if is_text (v "type") "object_content" then object_content
  else if is_text (v "type") "resource_operation" then
    if is_text (v "operation") "task.cancel" then safety
    else if starts_with (js "task.") (text_of (v "operation")) then task else resource
  else if negb (is_true (v "deleted")) && is_text (v "resource_type") "entity" &&
          isOneOf (member_of (v "resource") "entity_type") ["asset"; "track"] then live_state
  else if is_text (v "resource_type") "task" then task else resource.

Inductive DeliveryClass := best_effort | confirmed.

Definition deliveryClass (m : fields) : DeliveryClass :=
  let v := prop m in
  if is_text (v "type") "subscription" then if is_text (v "action") "renew" then best_effort else confirmed
  else if is_text (v "type") "state" || is_text (v "type") "control" then best_effort else confirmed.

Definition coalescingKey (m : fields) : option (list Z) :=
  if negb (is_text (prop m "type") "state") then None
  else Some (text_of (prop m "resource_type") ++ js ":" ++ resourceID m).
