(* ===== verification/ContractFacts.v ===== *)
(** * Messages survive the wire ([contract.ts])

    The tests and classes of the contract see a message only as JSON data, so
    a message that is serialized comes back valid, equal and classed alike. *)

From Stdlib Require Import ZArith Lia String.
From stdpp Require Import base list option.
From S2P Require Import Prelude JsMap Wtf8 Json JsonText CompactValue JsonRoundtrip CompactCodec Base64 Compression LinkTypes Frame FrameJson JsonEq Instants Contract.

Open Scope string_scope.
Open Scope list_scope.
Open Scope Z_scope.

(** A JSON Schema describes data: it sees neither the order of members nor the
    sign of zero. *)
Class ValidatorLaws {validators : Validators} : Prop :=
  validates_same d v w : wf_json v -> wf_json w -> same_json v w -> validates d v = validates d w.

(** ** The reads of the contract respect equal data *)

#[export] Instance is_text_proper : Proper (same_value ==> eq ==> eq) is_text.
Proof. intros v w H ? ? ->. unfold is_text. by rewrite (json_string_proper v w H). Qed.

#[export] Instance isOneOf_proper : Proper (same_value ==> eq ==> eq) isOneOf.
Proof.
  intros v w H l ? <-. unfold isOneOf. induction l as [| a l IH]; [done |]. cbn. rewrite IH. f_equal.
  by apply is_text_proper.
Qed.

#[export] Instance is_nonempty_proper : Proper (same_value ==> eq) is_nonempty.
Proof. intros v w H. unfold is_nonempty. by rewrite (json_string_proper v w H). Qed.

#[export] Instance integer_in_proper low : Proper (same_value ==> eq) (integer_in low).
Proof. intros v w H. unfold integer_in. by rewrite (json_integer_proper v w H). Qed.

#[export] Instance integer_between_proper low high : Proper (same_value ==> eq) (integer_between low high).
Proof. intros v w H. unfold integer_between. by rewrite (json_integer_proper v w H). Qed.

#[export] Instance defined_proper : Proper (same_value ==> eq) defined.
Proof. by intros ? ? []. Qed.

#[export] Instance is_true_proper : Proper (same_value ==> eq) is_true.
Proof. intros ? ? [v w (_ & _ & H) |]; [| done]. apply same_shape in H. by destruct v, w; subst. Qed.

#[export] Instance optional_proper test `{!Proper (same_value ==> eq) test} : Proper (same_value ==> eq) (optional test).
Proof. intros v w H. unfold optional. destruct H; [| done]. by apply Proper0; constructor. Qed.

#[export] Instance optionalString_proper : Proper (same_value ==> eq) optionalString.
Proof. unfold optionalString. apply _. Qed.
#[export] Instance optionalNonNegativeInteger_proper : Proper (same_value ==> eq) optionalNonNegativeInteger.
Proof. unfold optionalNonNegativeInteger. apply _. Qed.
#[export] Instance optionalPositiveInteger_proper : Proper (same_value ==> eq) optionalPositiveInteger.
Proof. unfold optionalPositiveInteger. apply _. Qed.
#[export] Instance optionalBoolean_proper : Proper (same_value ==> eq) optionalBoolean.
Proof. intros ? ? [v w (_ & _ & H) |]; [| done]. apply same_shape in H. by destruct v, w. Qed.

#[export] Instance text_of_proper : Proper (same_value ==> eq) text_of.
Proof. intros v w H. unfold text_of. by rewrite (json_string_proper v w H). Qed.

#[export] Instance isResourceType_proper : Proper (same_value ==> eq) isResourceType.
Proof. intros v w H. by apply isOneOf_proper. Qed.

#[export] Instance isRFC3339_proper : Proper (same_value ==> eq) isRFC3339.
Proof. intros ? ? [v w (_ & _ & H) |]; [| done]. apply same_shape in H. by destruct v, w; subst. Qed.

Lemma isRecord_same v w : same_value v w ->
  match isRecord v, isRecord w with
  | Some m1, Some m2 => same_fields m1 m2
  | None, None => True
  | _, _ => False
  end.
Proof.
  intros [a b (H1 & H2 & H) |]; [| done]. pose proof (same_shape a b H) as Hs.
  destruct a, b; try done. by apply same_object.
Qed.

Lemma prop_same m1 m2 : same_fields m1 m2 -> forall k, same_value (prop m1 k) (prop m2 k).
Proof. intros H k. apply H. Qed.

(** Replaces every read of [m1] in the goal by the read of [m2]. *)
Ltac reads H m1 m2 :=
  cbv zeta;
  repeat match goal with
  | |- context [?f (prop m1 ?k)] =>
      rewrite ((_ : Proper (same_value ==> eq) f) (prop m1 k) (prop m2 k) (prop_same m1 m2 H k))
  | |- context [?f (prop m1 ?k) ?a] =>
      rewrite ((_ : Proper (same_value ==> eq ==> eq) f) (prop m1 k) (prop m2 k) (prop_same m1 m2 H k) a a eq_refl)
  end.

#[export] Instance member_of_proper : Proper (same_value ==> eq ==> same_value) member_of.
Proof.
  intros v w H k ? <-. unfold member_of. pose proof (isRecord_same v w H) as Hr.
  destruct (isRecord v), (isRecord w); try done; [by apply prop_same | constructor].
Qed.

#[export] Instance isLinkNode_proper : Proper (same_value ==> eq) isLinkNode.
Proof.
  intros v w H. unfold isLinkNode. pose proof (isRecord_same v w H) as Hr.
  destruct (isRecord v) as [m1 |], (isRecord w) as [m2 |]; try done. by reads Hr m1 m2.
Qed.

#[export] Instance isFeedSelector_proper : Proper (same_value ==> eq) isFeedSelector.
Proof.
  intros v w H. unfold isFeedSelector. pose proof (isRecord_same v w H) as Hr.
  destruct (isRecord v) as [m1 |], (isRecord w) as [m2 |]; try done. by reads Hr m1 m2.
Qed.

Lemma same_value_zero_same a b a' b' : same_json a a' -> same_json b b' -> same_value_zero a b = same_value_zero a' b'.
Proof.
  intros Ha Hb. pose proof (same_shape _ _ Ha) as Sa. pose proof (same_shape _ _ Hb) as Sb.
  destruct a as [| | x | | |], a'; try done; destruct b as [| | y | | |], b'; try done; cbn in *; subst; try done.
  destruct (same_number _ _ x Ha eq_refl) as (x' & [= ->] & Ex), (same_number _ _ y Hb eq_refl) as (y' & [= ->] & Ey).
  unfold printed_bits in Ex, Ey.
  assert (Hz : forall p, f64_significand p = 0 \/ f64_significand p <> 0) by (intros; lia).
  assert (H0 : f64_significand 0 = 0) by done.
  destruct (Z.eqb_spec (f64_significand x) 0), (Z.eqb_spec (f64_significand x') 0); subst; try congruence;
  destruct (Z.eqb_spec (f64_significand y) 0), (Z.eqb_spec (f64_significand y') 0); subst; try congruence;
  cbn [andb]; rewrite ?orb_true_r, ?orb_false_r; try done;
  match goal with |- (?a =? ?b) = (?c =? ?d) => destruct (Z.eqb_spec a b), (Z.eqb_spec c d); congruence end.
Qed.

Lemma set_size_same l l' : Forall2 same_json l l' -> set_size l = set_size l'.
Proof.
  induction 1 as [| x y l l' Hx Hl IH]; [done |]. cbn. rewrite IH. f_equal.
  assert (existsb (same_value_zero x) l = existsb (same_value_zero y) l') as ->; [| done].
  clear IH. induction Hl as [| a b l l' Ha Hl IH']; [done |]. cbn. by rewrite IH', (same_value_zero_same x a y b).
Qed.

#[export] Instance isMissingChunks_proper : Proper (same_value ==> eq) isMissingChunks.
Proof.
  intros ? ? [v w (Hv & Hw & H) |]; [| done]. pose proof (same_shape v w H) as Hs.
  destruct v as [| | | | l |], w; try done. destruct (same_array _ _ l H eq_refl) as (l' & [= ->] & Hl).
  unfold isMissingChunks. rewrite (set_size_same l l' Hl).
  assert (zlen l = zlen l') as -> by (unfold zlen; by rewrite (list.Forall2_length _ _ _ Hl)). f_equal.
  inversion Hv as [| | | | ? F1 |]; subst. inversion Hw as [| | | | ? F2 |]; subst. clear Hv Hw Hs H.
  induction Hl as [| a b l l' Ha Hl IH]; [done |]. apply list.Forall_cons in F1 as [Wa F1], F2 as [Wb F2].
  cbn [forallb]. rewrite IH by done. f_equal. apply integer_between_proper. by constructor.
Qed.

Lemma isSubscriptionOperation_same m1 m2 : same_fields m1 m2 -> isSubscriptionOperation m1 = isSubscriptionOperation m2.
Proof. intros H. unfold isSubscriptionOperation. by reads H m1 m2. Qed.

Lemma isControlMessage_same m1 m2 : same_fields m1 m2 -> isControlMessage m1 = isControlMessage m2.
Proof. intros H. unfold isControlMessage. by reads H m1 m2. Qed.

Lemma isObjectContent_same {zlib : Zlib} m1 m2 : same_fields m1 m2 -> isObjectContent m1 = isObjectContent m2.
Proof. intros H. unfold isObjectContent. by reads H m1 m2. Qed.

Section laws.
Context {zlib : Zlib} {zlib_laws : ZlibLaws} {validators : Validators} {laws : ValidatorLaws}.

#[export] Instance validated_proper d : Proper (same_value ==> eq) (validated d).
Proof using laws. intros ? ? [v w (Hv & Hw & H) |]; [| done]. by apply validates_same. Qed.

#[export] Instance optionalJSON_proper : Proper (same_value ==> eq) optionalJSON.
Proof using laws. unfold optionalJSON. apply _. Qed.

#[export] Instance tested_by_proper d : Proper (same_value ==> eq) (tested_by d).
Proof using laws. intros v w H. destruct d; cbn; [by apply validated_proper | f_equal; by apply defined_proper]. Qed.

Lemma isStatePublication_same m1 m2 : same_fields m1 m2 -> isStatePublication m1 = isStatePublication m2.
Proof using laws. intros H. unfold isStatePublication. by reads H m1 m2. Qed.

Lemma isTaskDelivery_same m1 m2 : same_fields m1 m2 -> isTaskDelivery m1 = isTaskDelivery m2.
Proof using laws. intros H. unfold isTaskDelivery. by reads H m1 m2. Qed.

Lemma isTaskReport_same m1 m2 : same_fields m1 m2 -> isTaskReport m1 = isTaskReport m2.
Proof using laws.
  intros H. unfold isTaskReport, task_report_body.
  pose proof (isRecord_same _ _ (prop_same m1 m2 H "body")) as Hr.
  destruct (isRecord (prop m1 "body")), (isRecord (prop m2 "body")); try done;
  reads H m1 m2; repeat (case_match; [by rewrite ?(validated_proper _ _ _ (prop_same m1 m2 H "body")) |]);
  repeat case_match; by rewrite ?(validated_proper _ _ _ (prop_same m1 m2 H "body")).
Qed.

Lemma validMovementWindow_same m1 m2 : same_fields m1 m2 -> validMovementWindow m1 = validMovementWindow m2.
Proof using laws. intros H. unfold validMovementWindow. by reads H m1 m2. Qed.

Lemma validOperationContext_same o m1 m2 : same_fields m1 m2 -> validOperationContext o m1 = validOperationContext o m2.
Proof using laws.
  intros H. destruct o; cbn [validOperationContext]; rewrite ?(validMovementWindow_same m1 m2 H); by reads H m1 m2.
Qed.

Lemma with_operation_same find m1 m2 test1 test2 : same_fields m1 m2 -> (forall o, test1 o = test2 o) ->
  with_operation find m1 test1 = with_operation find m2 test2.
Proof using.
  intros H Ht. unfold with_operation. reads H m1 m2. destruct (json_string _); [| done]. by destruct (find _).
Qed.

Lemma isDataRequest_same m1 m2 : same_fields m1 m2 -> isDataRequest m1 = isDataRequest m2.
Proof using laws.
  intros H. unfold isDataRequest. cbv zeta. f_equal; [by reads H m1 m2 |]. apply with_operation_same; [done |]. intros o.
  unfold validOperationInput. rewrite (validOperationContext_same o m1 m2 H). by reads H m1 m2.
Qed.

Lemma isDataResponse_same m1 m2 : same_fields m1 m2 -> isDataResponse m1 = isDataResponse m2.
Proof using laws.
  intros H. unfold isDataResponse. f_equal; [by reads H m1 m2 |]. apply with_operation_same; [done |]. intros o.
  unfold validOperationOutput. by reads H m1 m2.
Qed.

Lemma isResourceOperation_same m1 m2 : same_fields m1 m2 -> isResourceOperation m1 = isResourceOperation m2.
Proof using laws.
  intros H. unfold isResourceOperation. cbv zeta. apply with_operation_same; [done |]. intros o.
  unfold validOperationInput. rewrite (validOperationContext_same o m1 m2 H). by reads H m1 m2.
Qed.

Lemma type_of_same m1 m2 : same_fields m1 m2 -> type_of m1 = type_of m2.
Proof using. intros H. unfold type_of, message_types. cbn [List.find]. by reads H m1 m2. Qed.

#[export] Instance isLinkMessage_proper : Proper (same_value ==> eq) isLinkMessage.
Proof using laws.
  intros v w H. unfold isLinkMessage. pose proof (isRecord_same v w H) as Hr.
  destruct (isRecord v) as [m1 |], (isRecord w) as [m2 |]; try done. rewrite (type_of_same m1 m2 Hr).
  destruct (type_of m2) as [[] |]; cbn [message_validator]; try done.
  - by apply isStatePublication_same.
  - by apply isTaskDelivery_same.
  - by apply isTaskReport_same.
  - by apply isDataRequest_same.
  - by apply isDataResponse_same.
  - by apply isResourceOperation_same.
  - by apply isSubscriptionOperation_same.
  - by apply isObjectContent_same.
  - by apply isControlMessage_same.
Qed.
End laws.

(** ** Classes *)

Lemma resourceID_same m1 m2 : same_fields m1 m2 -> resourceID m1 = resourceID m2.
Proof.
  intros H. unfold resourceID. reads H m1 m2. destruct (is_true _); [done |].
  apply text_of_proper, member_of_proper; [by apply prop_same | done].
Qed.

Lemma messagePriority_same m1 m2 : same_fields m1 m2 -> messagePriority m1 = messagePriority m2.
Proof.
  intros H. unfold messagePriority. cbv zeta.
  rewrite (isOneOf_proper _ _ (member_of_proper _ _ (prop_same m1 m2 H "resource") "entity_type" _ eq_refl) _ _ eq_refl).
  by reads H m1 m2.
Qed.

Lemma deliveryClass_same m1 m2 : same_fields m1 m2 -> deliveryClass m1 = deliveryClass m2.
Proof. intros H. unfold deliveryClass. by reads H m1 m2. Qed.

Lemma coalescingKey_same m1 m2 : same_fields m1 m2 -> coalescingKey m1 = coalescingKey m2.
Proof. intros H. unfold coalescingKey. rewrite (resourceID_same m1 m2 H). by reads H m1 m2. Qed.

(** ** Serialization *)

Section roundtrip.
Context {zlib : Zlib} {zlib_laws : ZlibLaws} {validators : Validators} {laws : ValidatorLaws}.

Lemma link_message_object message : isLinkMessage (Some message) = true -> exists m, message = JObject m.
Proof using. destruct message; try done. by eexists. Qed.

Lemma wf_envelope message : wf_json message -> wf_json (envelope message).
Proof using.
  intros Hm. constructor.
  - unfold jwf. apply (bool_decide_unpack _). by vm_compute.
  - repeat constructor; cbn [fst snd]; try done; by vm_compute; repeat constructor.
Qed.

Lemma same_envelope v w : same_json v w -> same_json (envelope v) (envelope w).
Proof using.
  intros H. unfold same_json, envelope in *. cbn [unsigned_zero map map_snd fst snd].
  change (map_snd ?f (?a, ?b)) with (a, f b). cbn [canon map]. change (map_snd ?f (?a, ?b)) with (a, f b).
  cbn [unsigned_zero canon]. by rewrite H.
Qed.

(** What [serializeLinkMessage] writes, [deserializeLinkMessage] reads as the same data. *)
Lemma deserialize_serialized message bs : wf_json message -> serializeLinkMessage message = Ok bs ->
  zlen bs <= MAX_MESSAGE_BYTES ->
  exists w, deserializeLinkMessage bs = Ok w /\ wf_json w /\ same_json message w.
Proof using laws zlib_laws.
  intros Hw Hs Hl. unfold serializeLinkMessage in Hs. destruct (isLinkMessage (Some message)) eqn:Hv; [| done].
  destruct (decode_canonical _ _ (wf_envelope message Hw) Hs) as (w & Hd & Hc & Hww).
  pose proof (same_json_decoded _ _ Hc) as Hsame.
  pose proof (canonical_head _ _ ltac:(by eexists) Hs) as Hh.
  unfold deserializeLinkMessage. rewrite decode_unmarked; [| done | by rewrite Hh | by rewrite Hh]. cbn [bind_result].
  rewrite Hd. cbn [bind_result].
  pose proof (same_shape _ _ Hsame) as Hshape. destruct w as [| | | | | m]; try done. cbn [isRecord].
  pose proof (same_object _ _ (wf_envelope message Hw) Hww Hsame) as Hf.
  rewrite <- (is_text_proper _ _ (prop_same _ _ Hf "r") _ _ eq_refl).
  replace (is_text (prop _ "r") RADIO_CONTRACT_REVISION) with true by (by vm_compute). cbn [andb].
  pose proof (prop_same _ _ Hf "message") as Hm. rewrite <- (isLinkMessage_proper _ _ Hm).
  change (prop [(js "r", JString (js RADIO_CONTRACT_REVISION)); (js "message", message)] "message") with (Some message) in *.
  rewrite Hv. inversion Hm as [? w (_ & Hww' & Hs') |]; subst. exists w. by cbn.
Qed.

(** C34: a Link message survives the wire. What [serializeLinkMessage] writes
    for a valid message, [deserializeLinkMessage] accepts and reads as the same
    JSON data (members in another order, zero without sign), which serializes
    to the same bytes and has the same priority, delivery class, coalescing key
    and resource: both ends of the link queue and supersede it alike. *)
Theorem link_message_roundtrip m bs :
  wf_json (JObject m) -> serializeLinkMessage (JObject m) = Ok bs -> zlen bs <= MAX_MESSAGE_BYTES ->
  exists m', deserializeLinkMessage bs = Ok (JObject m') /\ same_json (JObject m) (JObject m') /\
    serializeLinkMessage (JObject m') = Ok bs /\
    messagePriority m' = messagePriority m /\ deliveryClass m' = deliveryClass m /\
    coalescingKey m' = coalescingKey m /\ resourceID m' = resourceID m.
Proof using laws zlib_laws.
  intros Hw Hs Hl. destruct (deserialize_serialized _ bs Hw Hs Hl) as (w & Hd & Hww & Hsame).
  pose proof (same_shape _ _ Hsame) as Hshape. destruct w as [| | | | | m']; try done.
  pose proof (same_object _ _ Hw Hww Hsame) as Hf. exists m'. split; [done |]. split; [done |].
  rewrite (messagePriority_same m m'), (deliveryClass_same m m'), (coalescingKey_same m m'), (resourceID_same m m') by done.
  split; [| done]. unfold serializeLinkMessage in *.
  rewrite <- (isLinkMessage_proper (Some (JObject m)) (Some (JObject m'))) by (by constructor).
  destruct (isLinkMessage _); [| done]. apply (same_bytes (envelope (JObject m))); [done |]. by apply same_envelope.
Qed.
End roundtrip.

(** ** Concrete validators

    Tests on the identifying members of a resource, as the schemas require
    them; they respect equal data. *)

Definition sample_validates (d : ProtocolDefinition) (v : json) : bool :=
  match d with
  | RFC3339Timestamp => isRFC3339 (Some v)
  | EntityResource => is_nonempty (member_of (Some v) "entity_id") && is_nonempty (member_of (Some v) "entity_type")
  | TaskResource => is_nonempty (member_of (Some v) "task_id")
  | ObjectResource | ObjectDetailResource => is_nonempty (member_of (Some v) "object_id")
  | JSONValue => true
  | _ => match isRecord (Some v) with Some _ => true | None => false end
  end.

Definition sample_validators : Validators := {| validates := sample_validates |}.

Lemma sample_validators_laws : @ValidatorLaws sample_validators.
Proof.
  intros d v w Hv Hw H. assert (Hs : same_value (Some v) (Some w)) by (by constructor).
  pose proof (fun k => member_of_proper _ _ Hs k k eq_refl) as Hm. pose proof (isRecord_same _ _ Hs) as Hr.
  cbn [validates sample_validators]. unfold sample_validates.
  destruct d; rewrite ?(isRFC3339_proper _ _ Hs), ?(is_nonempty_proper _ _ (Hm "entity_id")), ?(is_nonempty_proper _ _ (Hm "entity_type")),
    ?(is_nonempty_proper _ _ (Hm "task_id")), ?(is_nonempty_proper _ _ (Hm "object_id")); try done;
    by destruct (isRecord (Some v)), (isRecord (Some w)).
Qed.

Definition sample_publication : list (list Z * json) :=
  [(js "type", JString (js "state")); (js "resource_type", JString (js "entity"));
   (js "resource", JObject [(js "entity_id", JString (js "a1")); (js "entity_type", JString (js "track")); (js "z", JNumber (2 ^ 63))]);
   (js "observation_time", JString (js "2026-01-01T00:00:00Z")); (js "path", JString (js "field"));
   (js "confirmation", JString (js "not_required"))].

Lemma sample_publication_wf : wf_json (JObject sample_publication).
Proof.
  constructor; [unfold jwf; apply (bool_decide_unpack _); by vm_compute |].
  repeat constructor; cbn [fst snd]; try (apply (bool_decide_unpack _); by vm_compute).
Qed.

Definition sample_publication_bytes : list Z :=
  match serializeLinkMessage (zlib := stored_zlib) (validators := sample_validators) (JObject sample_publication) with
  | Ok bs => bs | Throw _ => []
  end.

Lemma link_message_roundtrip_witness :
  serializeLinkMessage (zlib := stored_zlib) (validators := sample_validators) (JObject sample_publication) = Ok sample_publication_bytes /\
  exists m', deserializeLinkMessage (zlib := stored_zlib) (validators := sample_validators) sample_publication_bytes = Ok (JObject m') /\
    same_json (JObject sample_publication) (JObject m') /\
    serializeLinkMessage (zlib := stored_zlib) (validators := sample_validators) (JObject m') = Ok sample_publication_bytes /\
    messagePriority m' = messagePriority sample_publication /\ deliveryClass m' = deliveryClass sample_publication /\
    coalescingKey m' = coalescingKey sample_publication /\ resourceID m' = resourceID sample_publication.
Proof.
  assert (Hs : serializeLinkMessage (zlib := stored_zlib) (validators := sample_validators) (JObject sample_publication) =
    Ok sample_publication_bytes) by (vm_compute; reflexivity).
  split; [exact Hs |].
  apply (link_message_roundtrip (zlib := stored_zlib) (zlib_laws := stored_laws) (validators := sample_validators)
    (laws := sample_validators_laws)); [apply sample_publication_wf | exact Hs | vm_compute; discriminate].
Defined.

(** ** Coalescing *)

Lemma is_text_inv v text : is_text v text = true -> json_string v = Some (js text).
Proof. unfold is_text. destruct (json_string v); [| done]. by intros ->%bool_decide_eq_true. Qed.

Lemma isOneOf_inv v allowed : isOneOf v allowed = true -> exists a, In a allowed /\ json_string v = Some (js a).
Proof. unfold isOneOf. intros (a & Ha & H)%existsb_exists. exists a. split; [done |]. by apply is_text_inv. Qed.

Lemma resource_type_known {zlib : Zlib} {validators : Validators} m : isStatePublication m = true ->
  exists a, In a ["entity"; "task"; "object"] /\ text_of (prop m "resource_type") = js a.
Proof.
  unfold isStatePublication, text_of. cbv zeta. intros H.
  destruct (negb _); [done |]. destruct (_ && negb _); [done |].
  destruct (is_true _).
  { repeat (apply andb_true_iff in H as [H _]). apply isOneOf_inv in H as (a & Ha & ->).
    exists a. split; [| done]. cbn in *. tauto. }
  destruct (_ || _); [done |].
  destruct (is_text (prop m "resource_type") "entity") eqn:E1; [apply is_text_inv in E1 as ->; by exists "entity"; split; [left |] |].
  destruct (is_text (prop m "resource_type") "task") eqn:E2; [apply is_text_inv in E2 as ->; by exists "task"; split; [right; left |] |].
  destruct (is_text (prop m "resource_type") "object") eqn:E3; [apply is_text_inv in E3 as ->; by exists "object"; split; [right; right; left |] |].
  done.
Qed.

Lemma state_message {zlib : Zlib} {validators : Validators} m : isLinkMessage (Some (JObject m)) = true ->
  is_text (prop m "type") "state" = true -> isStatePublication m = true.
Proof.
  unfold isLinkMessage. cbn [isRecord]. intros H E. assert (Ht : type_of m = Some state); [| by rewrite Ht in H].
  unfold type_of. cbn [List.find message_types]. change (message_type_name state) with "state". by rewrite E.
Qed.

(** Two valid publications share a coalescing key only if they are about
    the same resource: the same resource type and the same identifier, whatever
    characters the identifiers have.  Messages that are not publications have
    no key, so they never supersede each other. *)
Theorem coalescingKey_injective {zlib : Zlib} {validators : Validators} m1 m2 key :
  isLinkMessage (Some (JObject m1)) = true -> isLinkMessage (Some (JObject m2)) = true ->
  coalescingKey m1 = Some key -> coalescingKey m2 = Some key ->
  text_of (prop m1 "resource_type") = text_of (prop m2 "resource_type") /\ resourceID m1 = resourceID m2.
Proof.
  intros V1 V2 K1 K2. unfold coalescingKey in *.
  destruct (is_text (prop m1 "type") "state") eqn:T1; [| done]. destruct (is_text (prop m2 "type") "state") eqn:T2; [| done].
  cbn [negb] in *. injection K1 as <-. injection K2 as K.
  destruct (resource_type_known m1 (state_message m1 V1 T1)) as (a & Ha & Ea).
  destruct (resource_type_known m2 (state_message m2 V2 T2)) as (b & Hb & Eb).
  rewrite Ea, Eb in *. cbn in Ha, Hb.
  destruct Ha as [<- | [<- | [<- | []]]], Hb as [<- | [<- | [<- | []]]]; cbn in K; try discriminate K; injection K as K; done.
Qed.

Definition tombstone : list (list Z * json) :=
  [(js "type", JString (js "state")); (js "resource_type", JString (js "entity")); (js "resource_id", JString (js "a1"));
   (js "deleted", JBool true); (js "atlas_version", JNumber (f64_of_integer 7));
   (js "observation_time", JString (js "2026-01-01T00:00:01Z")); (js "path", JString (js "gateway_feed"));
   (js "confirmation", JString (js "core_confirmed"))].

Lemma coalescingKey_injective_witness :
  isLinkMessage (zlib := stored_zlib) (validators := sample_validators) (Some (JObject tombstone)) = true /\
  coalescingKey tombstone = Some (js "entity:a1") /\ coalescingKey sample_publication = Some (js "entity:a1") /\
  text_of (prop sample_publication "resource_type") = text_of (prop tombstone "resource_type") /\
  resourceID sample_publication = resourceID tombstone.
Proof.
  assert (H1 : isLinkMessage (zlib := stored_zlib) (validators := sample_validators) (Some (JObject tombstone)) = true) by (vm_compute; reflexivity).
  assert (H2 : isLinkMessage (zlib := stored_zlib) (validators := sample_validators) (Some (JObject sample_publication)) = true) by (vm_compute; reflexivity).
  split; [exact H1 |]. split; [vm_compute; reflexivity |]. split; [vm_compute; reflexivity |].
  apply (coalescingKey_injective (zlib := stored_zlib) (validators := sample_validators) _ _ (js "entity:a1") H2 H1); vm_compute; reflexivity.
Defined.

(** ** Lists of missing chunks *)

Lemma integer_between_inv low high v : integer_between low high (Some v) = true ->
  exists n, json_integer (Some v) = Some n /\ low <= n <= high.
Proof. unfold integer_between. destruct (json_integer _) as [n |]; [| done]. intros ?%in_range_spec. by exists n. Qed.

Lemma set_size_bound l : 0 <= set_size l <= zlen l.
Proof. induction l as [| x l IH]; [done |]. rewrite zlen_cons. cbn. destruct (existsb _ _); lia. Qed.

Lemma same_integer_same v w n : json_integer (Some v) = Some n -> json_integer (Some w) = Some n ->
  wf_json v -> wf_json w -> same_value_zero v w = true.
Proof.
  destruct v as [| ? | a | | |]; try done; destruct w as [| ? | b | | |]; try done. cbn. intros Ha Hb Wa Wb. inversion Wa; inversion Wb; subst.
  destruct (f64_of_safe_integer a n) as [Na _]; [done .. |]. destruct (f64_of_safe_integer b n) as [Nb _]; [done .. |].
  rewrite Na in Nb. unfold normal_bits in Nb.
  destruct (Z.eqb_spec a (2 ^ 63)) as [-> | ?], (Z.eqb_spec b (2 ^ 63)) as [-> | ?]; subst; try done. by rewrite Z.eqb_refl.
Qed.

(** The integers of an array without duplicates. *)
Lemma set_size_nodup l : Forall wf_json l -> set_size l = zlen l ->
  forall ns, Forall2 (fun v n => json_integer (Some v) = Some n) l ns -> NoDup ns.
Proof.
  intros Hw Hs ns H. induction H as [| v n l ns Hv Hl IH]; [constructor |].
  apply list.Forall_cons in Hw as [Wv Wl]. rewrite zlen_cons in Hs. cbn in Hs. pose proof (set_size_bound l) as Hb.
  destruct (existsb (same_value_zero v) l) eqn:E; [lia |]. constructor; [| apply IH; [done | lia]].
  intros Hin. apply not_true_iff_false in E. apply E. clear E IH Hs Hb.
  induction Hl as [| w k l ns Hw Hl IH]; [by apply elem_of_nil in Hin |].
  apply list.Forall_cons in Wl as [Ww Wl]. cbn. apply orb_true_iff.
  apply elem_of_cons in Hin as [-> | Hin]; [left; by apply (same_integer_same v w k) | right; by apply IH].
Qed.

(** The chunk list of an accepted [missing_chunks] control message is a set
    of chunk indexes: distinct integers of [0, 4096), so at most 4096 of them,
    and a sender that follows it never sends a chunk twice. *)
Theorem missing_chunks_valid {zlib : Zlib} {validators : Validators} m :
  wf_json (JObject m) -> isLinkMessage (Some (JObject m)) = true ->
  is_text (prop m "type") "control" = true -> is_text (prop m "control") "missing_chunks" = true ->
  exists l ns, prop m "missing_chunks" = Some (JArray l) /\
    Forall2 (fun v n => json_integer (Some v) = Some n) l ns /\
    NoDup ns /\ Forall (fun n => 0 <= n < MAX_LINK_FRAGMENTS) ns /\ zlen ns <= MAX_LINK_FRAGMENTS.
Proof.
  intros Hw Hv Ht Hc. apply is_text_inv in Ht, Hc.
  assert (Hm : isControlMessage m = true).
  { unfold isLinkMessage, type_of in Hv. cbn [isRecord List.find message_types] in Hv. unfold is_text in Hv. by rewrite Ht in Hv. }
  unfold isControlMessage in Hm. unfold is_text in Hm. rewrite Hc in Hm.
  rewrite bool_decide_false, bool_decide_true in Hm by done. apply andb_true_iff in Hm as [_ Hm].
  unfold isMissingChunks in Hm. destruct (prop m "missing_chunks") as [[| | | | l |] |] eqn:El; try done.
  apply andb_true_iff in Hm as [Hm Hall]. apply andb_true_iff in Hm as [Hlen Hset]. apply Z.leb_le in Hlen. apply Z.eqb_eq in Hset.
  assert (Wl : Forall wf_json l).
  { apply jget_elem_of in El. inversion Hw as [| | | | | ? _ F]; subst. apply (proj1 (Forall_elem _ _) F) in El as [_ Wa]. by inversion Wa. }
  assert (Hns : exists ns, Forall2 (fun v n => json_integer (Some v) = Some n) l ns /\ Forall (fun n => 0 <= n < MAX_LINK_FRAGMENTS) ns).
  { clear - Hall. induction l as [| v l IH]; [by exists [] |]. cbn in Hall. apply andb_true_iff in Hall as [Hv Hl].
    destruct (IH Hl) as (ns & H1 & H2). destruct (integer_between_inv _ _ _ Hv) as (n & Hn & Hr).
    exists (n :: ns). split; constructor; done || lia. }
  destruct Hns as (ns & H1 & H2). exists l, ns. split; [done |]. split; [done |].
  split; [by apply (set_size_nodup l) |]. split; [done |].
  unfold zlen in *. by rewrite <- (list.Forall2_length _ _ _ H1).
Qed.

Definition sample_missing : list (list Z * json) :=
  [(js "type", JString (js "control")); (js "control", JString (js "missing_chunks")); (js "operation_id", JString (js "o"));
   (js "message_id", JString (js "m"));
   (js "missing_chunks", JArray [JNumber (f64_of_integer 3); JNumber (2 ^ 63); JNumber (f64_of_integer 4095)])].

Lemma missing_chunks_valid_witness :
  isLinkMessage (zlib := stored_zlib) (validators := sample_validators) (Some (JObject sample_missing)) = true /\
  exists l ns, prop sample_missing "missing_chunks" = Some (JArray l) /\
    Forall2 (fun v n => json_integer (Some v) = Some n) l ns /\
    NoDup ns /\ Forall (fun n => 0 <= n < MAX_LINK_FRAGMENTS) ns /\ zlen ns <= MAX_LINK_FRAGMENTS.
Proof.
  assert (H : isLinkMessage (zlib := stored_zlib) (validators := sample_validators) (Some (JObject sample_missing)) = true) by (vm_compute; reflexivity).
  split; [exact H |]. apply (missing_chunks_valid (zlib := stored_zlib) (validators := sample_validators)); [| exact H | vm_compute; reflexivity | vm_compute; reflexivity].
  constructor; [unfold jwf; apply (bool_decide_unpack _); vm_compute; reflexivity |].
  repeat constructor; cbn [fst snd]; try (apply (bool_decide_unpack _); vm_compute; reflexivity); try (vm_compute; discriminate).
Defined.
