(* ===== verification/SdkValidation.v ===== *)
(** * Responses in their context ([sdk/src/validation.ts])

    Tests the schema cannot make: a response must answer the query it is a
    response to, and be coherent in itself.  The schema tests come first, so
    the members below have the types the schema gives them; the integers of
    the schema are safe integers. *)

From Stdlib Require Import ZArith Lia String.
From stdpp Require Import base list option.
From S2P Require Import Prelude JsMap Json Frame Instants Contract.

Open Scope string_scope.
Open Scope list_scope.
Open Scope Z_scope.

(** The members of a value the schema found to be an object. *)
Definition own (value : json) : list (list Z * json) := default [] (isRecord (Some value)).
Definition text (value : json) (k : string) : list Z := text_of (prop (own value) k).
Definition integer (value : json) (k : string) : Z := default 0 (json_integer (prop (own value) k)).
Definition items (value : json) (k : string) : list json :=
  match prop (own value) k with Some (JArray l) => l | _ => [] end.
Definition within (value : json) (k : string) : json := default JNull (prop (own value) k).

(** [value.every((item, index, array) => test(array[index - 1], item))] *)
Fixpoint every_after {A} (test : option A -> A -> bool) (before : option A) (l : list A) : bool :=
  match l with
  | [] => true
  | x :: l' => test before x && every_after test (Some x) l'
  end.

(** Comparisons with [NaN] are false. *)
Definition at_least (limit : Z) (n : option Z) : bool := match n with Some n => limit <=? n | None => false end.
Definition above (limit : Z) (n : option Z) : bool := match n with Some n => limit <? n | None => false end.

Definition sameMovementInstant (left right : list Z) : bool := bool_decide (compareMovementInstants left right 0 = Some 0).

(** ** Feed events *)

Definition hasValidFeedEventContext (event : json) : bool :=
  if is_text (prop (own event) "event") "delete" then true
  else
    let resource := within event "resource" in
    let same_version := integer event "version" =? integer (within resource "metadata") "version" in
    if is_text (prop (own event) "resource_type") "entity" then
      bool_decide (text event "id" = text resource "entity_id") && same_version
    else if is_text (prop (own event) "resource_type") "task" then bool_decide (text event "id" = text resource "task_id")
    else bool_decide (text event "id" = text resource "object_id") && same_version.

Section validation.
Context {validators : Validators}.

(** Whether the versions rise from [sinceVersion] up to the response's own. *)
Definition changedSinceResponseValidator (sinceVersion : Z) (value : json) : bool :=
  if negb (isSafeInteger sinceVersion && (0 <=? sinceVersion)) || negb (validates ChangedSinceResponse value) ||
     (integer value "version" <? sinceVersion) ||
     (is_true (prop (own value) "has_more") && bool_decide (items value "events" = [])) then false
  else
    every_after (fun before event =>
      let previousVersion := match before with Some e => integer e "version" | None => sinceVersion end in
      (previousVersion <? integer event "version") && (integer event "version" <=? integer value "version") &&
      hasValidFeedEventContext event) None (items value "events").

Definition entityCheckInResponseValidator (expectedEntityID : list Z) (value : json) : bool :=
  validates EntityCheckInResponse value && bool_decide (text (within value "entity") "entity_id" = expectedEntityID).

(** ** Movement *)

Record MovementHistoryQuery := mkMovementQuery { q_created : list Z; q_from : list Z; q_to : list Z }.

Definition movementWindowResponseValidator (d : ProtocolDefinition) (query : MovementHistoryQuery) (value : json) : bool :=
  validates d value && sameMovementInstant (text value "entity_created_at") (q_created query) &&
  sameMovementInstant (text value "from") (q_from query) && sameMovementInstant (text value "to") (q_to query).

Definition coherentMovementSample (sample : json) : bool :=
  Bool.eqb (is_true (prop (own sample) "time_is_arrival")) (negb (defined (prop (own sample) "observed_at"))) &&
  sameMovementInstant (text sample "time")
    (if defined (prop (own sample) "observed_at") then text sample "observed_at" else text sample "received_at").

(** The sample lies in what the store retains and in the window asked for. *)
Definition in_window (value : json) (query : MovementHistoryQuery) (sample : json) : bool :=
  at_least 0 (compareMovementInstants (text sample "time") (text value "retained_from") 0) &&
  at_least 0 (compareMovementInstants (text sample "time") (q_from query) 0) &&
  at_most 0 (compareMovementInstants (text sample "time") (q_to query) 0).

Definition movementHistoryResponseValidator (query : MovementHistoryQuery) (queryLimit : option Z) (value : json) : bool :=
  let limit := default 100 queryLimit in
  let samples := items value "samples" in
  movementWindowResponseValidator MovementHistoryPage query value && (zlen samples <=? limit) &&
  (negb (defined (prop (own value) "next_cursor")) ||
   (is_nonempty (prop (own value) "next_cursor") && (zlen samples =? limit))) &&
  every_after (fun before sample =>
    coherentMovementSample sample && in_window value query sample &&
    match before with
    | None => true
    | Some b => at_least 0 (compareMovementInstants (text b "time") (text sample "time") 0)
    end) None samples.

Definition point_time (point : json) : list Z := text (within point "sample") "time".

Definition movementTrailResponseValidator (query : MovementHistoryQuery) (maxPoints : option Z) (value : json) : bool :=
  let points := items value "points" in
  let count := integer value "position_count" in
  movementWindowResponseValidator MovementTrail query value &&
  integer_in 0 (prop (own value) "position_count") && (zlen points <=? count) &&
  Bool.eqb (count =? 0) (zlen points =? 0) && (zlen points <=? default 1000 maxPoints) &&
  Bool.eqb (is_true (prop (own value) "simplified")) (zlen points <? count) &&
  every_after (fun before point =>
    let sample := within point "sample" in
    coherentMovementSample sample && defined (prop (own sample) "latitude") && defined (prop (own sample) "longitude") &&
    in_window value query sample &&
    match before with
    | None => negb (is_true (prop (own point) "gap_before"))
    | Some b =>
        at_most 0 (compareMovementInstants (point_time b) (point_time point) 0) &&
        (negb (is_true (prop (own point) "gap_before")) ||
         above 0 (compareMovementInstants (point_time point) (point_time b) 60000))
    end) None points.

Definition movementImportResponseValidator (count : Z) (value : json) : bool :=
  validates MovementHistoryBatchResponse value &&
  (integer value "inserted" + integer value "duplicates" + integer value "expired" =? count).

(** [value.k === undefined || test(value.k)] *)
Definition optional_member (value : json) (k : string) (test : json -> bool) : bool :=
  match prop (own value) k with None => true | Some v => test v end.

Definition movementInspectionResponseValidator (entityCreatedAt at_ : list Z) (value : json) : bool :=
  validates MovementInspection value && sameMovementInstant (text value "entity_created_at") entityCreatedAt &&
  sameMovementInstant (text value "time") at_ &&
  optional_member value "position" (fun p => defined (prop (own p) "latitude") && defined (prop (own p) "longitude")) &&
  optional_member value "speed" (fun p => defined (prop (own p) "speed_m_s")) &&
  optional_member value "altitude" (fun p => defined (prop (own p) "altitude_m")) &&
  forallb (fun k => optional_member value k (fun sample =>
    coherentMovementSample sample && at_most 0 (compareMovementInstants (text sample "time") at_ 0)))
    ["position"; "speed"; "altitude"].
End validation.

(** ** What an accepted response promises *)

Section facts.
Context {validators : Validators}.

Lemma every_after_iff {A} (test : option A -> A -> bool) before l :
  every_after test before l = true <->
  forall i x, l !! i = Some x -> test (match i with O => before | S j => l !! j end) x = true.
Proof.
  revert before. induction l as [| y l IH]; intros before; cbn; [by split |].
  rewrite andb_true_iff, IH. split.
  - intros [H1 H2] [| i] x Hx; [by injection Hx as <- |]. specialize (H2 i x Hx). by destruct i.
  - intros H. split; [by apply (H O) |]. intros i x Hx. specialize (H (S i) x Hx). by destruct i.
Qed.

(** Accepted changes bring the reader forward: from the version it asked
    for, the versions of the events rise strictly, each at most the version the
    response ends at, and a response that announces more is not empty; so
    repeating the query from that version makes progress. *)
Theorem changed_since_progress (since : Z) (value : json)
    (Hok : changedSinceResponseValidator since value = true) :
  0 <= since <= integer value "version" /\
  (forall i j a b, (i < j)%nat -> items value "events" !! i = Some a -> items value "events" !! j = Some b ->
     since < integer a "version" < integer b "version" /\ integer b "version" <= integer value "version") /\
  (is_true (prop (own value) "has_more") = true ->
     exists last, items value "events" !! pred (length (items value "events")) = Some last /\
                  since < integer last "version" <= integer value "version").
Proof.
  unfold changedSinceResponseValidator in Hok. case_match eqn:Hg; [done |].
  apply orb_false_iff in Hg as [[[Hs _]%orb_false_iff Hv]%orb_false_iff Hm].
  apply negb_false_iff, andb_true_iff in Hs as [_ Hs%Z.leb_le]. apply Z.ltb_ge in Hv.
  rewrite every_after_iff in Hok. set (evs := items value "events") in *.
  assert (Hrise : forall j b, evs !! j = Some b ->
    since < integer b "version" <= integer value "version" /\
    forall i a, (i < j)%nat -> evs !! i = Some a -> integer a "version" < integer b "version").
  { induction j as [| j IH]; intros b Hb.
    - specialize (Hok O b Hb). cbn in Hok. reflect_tests. split; [lia |]. intros; lia.
    - specialize (Hok (S j) b Hb). cbn in Hok.
      destruct (lookup_lt_is_Some_2 evs j) as [c Hc]; [apply lookup_lt_Some in Hb; lia |].
      rewrite Hc in Hok. reflect_tests. destruct (IH c Hc) as [Hlow Hbelow]. split; [lia |].
      intros i a Hi Ha. destruct (decide (i = j)) as [-> |]; [simplify_eq; lia |].
      specialize (Hbelow i a ltac:(lia) Ha). lia. }
  split; [lia |]. split.
  - intros i j a b Hij Ha Hb. destruct (Hrise j b Hb) as [? Hbelow], (Hrise i a Ha) as [? _].
    specialize (Hbelow i a Hij Ha). lia.
  - intros Hmore. rewrite Hmore in Hm. apply bool_decide_eq_false in Hm.
    destruct (lookup_lt_is_Some_2 evs (pred (length evs))) as [last Hl]; [destruct evs; [done | cbn; lia] |].
    exists last. split; [done |]. by apply Hrise in Hl as [? _].
Qed.
End facts.
