(* ===== verification/StateDelta.v ===== *)
(** * State deltas ([state-delta.ts])

    A sender of state publications writes, beside the full message, a patch
    against the last full snapshot it committed; a receiver applies the patch
    to the snapshot it remembers under the same source sequence. *)

From Stdlib Require Import ZArith Lia String.
From stdpp Require Import base list option.
From S2P Require Import Prelude JsMap BinaryIO Wtf8 Utf8Text Json CompactValue Compression LinkTypes Frame Instants Contract.

Open Scope string_scope.
Open Scope list_scope.
Open Scope Z_scope.

Definition STATE_DELTA_MARKER : Z := 0xb1.
Definition STATE_DELTA_BASELINE_INTERVAL_MS : Z := 15000.
Definition VERSION : Z := 1.
Definition DELTA_KIND : Z := 1.
Definition DEFAULT_MAX_BASELINES : Z := 64.

Record StateDeltaIdentity := mkDeltaIdentity {
  d_source : LinkNode;
  d_generation : Z;
  d_session : list Z;
  d_sequence : Z
}.

(** ** Patches *)

Inductive StateDeltaPatchOperation :=
  | op_add (path : list (list Z)) (value : json)
  | op_remove (path : list (list Z))
  | op_replace (path : list (list Z)) (value : json).

Definition op_path (op : StateDeltaPatchOperation) : list (list Z) :=
  match op with op_add p _ | op_remove p | op_replace p _ => p end.

(** [left === right]: the two documents share no object, so arrays and objects
    are never identical. *)
Definition strict_equal (a b : json) : bool :=
  match a, b with
  | JNull, JNull => true
  | JBool x, JBool y => Bool.eqb x y
  | JNumber x, JNumber y => (x =? y) || ((f64_significand x =? 0) && (f64_significand y =? 0))
  | JString s, JString t => bool_decide (s = t)
  | _, _ => false
  end.

(** The loop over the sorted keys of [right] visits the members in that order;
    each member's operations are its own. *)
Fixpoint diffJSON (left right : json) (path : list (list Z)) : list StateDeltaPatchOperation :=
  if strict_equal left right then []
  else
    match left, right with
    | JArray _, JArray _ => if bool_decide (stringify left = stringify right) then [] else [op_replace path right]
    | JObject l, JObject r =>
        map (fun p => op_remove (path ++ [fst p])) (List.filter (fun p => negb (jhas (fst p) r)) (sort_entries l)) ++
        concat (map snd (sort_entries (map (fun p =>
          (fst p, match jget (fst p) l with
                  | None => [op_add (path ++ [fst p]) (snd p)]
                  | Some v => diffJSON v (snd p) (path ++ [fst p])
                  end)) r)))
    | _, _ => [op_replace path right]
    end.

(** Digits without a leading zero, and a safe integer. *)
Definition arrayIndex (value : list Z) : option Z :=
  match value with
  | c :: r =>
      if forallb is_digit value && (negb (c =? 48) || bool_decide (r = [])) && (number_of value <=? MAX_SAFE_INTEGER)
      then Some (number_of value) else None
  | [] => None
  end.

(** [pathValue] and the assignment through what it returns: the document is a
    fresh tree, so the edit of the value at the path rebuilds the values above. *)
Fixpoint update_at (path : list (list Z)) (edit : json -> option json) (root : json) : option json :=
  match path with
  | [] => edit root
  | segment :: rest =>
      match root with
      | JArray l =>
          index ← arrayIndex segment;
          child ← nthZ l index;
          child' ← update_at rest edit child;
          Some (JArray (<[Z.to_nat index := child']> l))
      | JObject m =>
          child ← jget segment m;
          child' ← update_at rest edit child;
          Some (JObject (jset segment child' m))
      | _ => None
      end
  end.

(** What the operation does to the parent of its last segment. *)
Definition edit_parent (op : StateDeltaPatchOperation) (segment : list Z) (parent : json) : option json :=
  match parent with
  | JArray l =>
      index ← arrayIndex segment;
      match op with
      | op_add _ value =>
          if zlen l <? index then None
          else Some (JArray (take (Z.to_nat index) l ++ [value] ++ drop (Z.to_nat index) l))
      | op_remove _ =>
          if zlen l <=? index then None
          else Some (JArray (take (Z.to_nat index) l ++ drop (Z.to_nat (index + 1)) l))
      | op_replace _ value =>
          if zlen l <=? index then None else Some (JArray (<[Z.to_nat index := value]> l))
      end
  | JObject m =>
      match op with
      | op_remove _ => if jhas segment m then Some (JObject (jdel segment m)) else None
      | op_replace _ value => if jhas segment m then Some (JObject (jset segment value m)) else None
      | op_add _ value => Some (JObject (jset segment value m))
      end
  | _ => None
  end.

Definition apply_operation (document : json) (op : StateDeltaPatchOperation) : option json :=
  match op_path op with
  | [] => match op with op_remove _ => None | op_add _ value | op_replace _ value => Some value end
  | path => update_at (removelast path) (edit_parent op (List.last path [])) document
  end.

Fixpoint applyPatch (document : json) (patch : list StateDeltaPatchOperation) : option json :=
  match patch with
  | [] => Some document
  | op :: patch' => document' ← apply_operation document op; applyPatch document' patch'
  end.

(** *** Patches on the wire *)

Definition path_json (path : list (list Z)) : json := JArray (map JString path).

Definition operation_json (op : StateDeltaPatchOperation) : json :=
  JObject
    match op with
    | op_add path value => [(js "op", JString (js "add")); (js "path", path_json path); (js "value", value)]
    | op_remove path => [(js "op", JString (js "remove")); (js "path", path_json path)]
    | op_replace path value => [(js "op", JString (js "replace")); (js "path", path_json path); (js "value", value)]
    end.

Definition patch_json (patch : list StateDeltaPatchOperation) : json := JArray (map operation_json patch).

(** On parsed JSON, only a number that is not finite fails [isJSONData]. *)
Definition isJSONData (value : json) : bool := finite_json value.

Definition asJSONData (value : json) : result json :=
  guard! isJSONData value else TypeError "state delta value must be JSON data" in Ok value.

Definition read_path (v : option json) : option (list (list Z)) :=
  match v with
  | Some (JArray l) => mapM (fun part => json_string (Some part)) l
  | _ => None
  end.

Definition known_keys (allowed : list string) (m : list (list Z * json)) : bool :=
  forallb (fun key => existsb (fun k => bool_decide (key = js k)) allowed) (jkeys m).

(** One operation of [isPatch], with the operation it is. *)
Definition read_operation (v : json) : option StateDeltaPatchOperation :=
  m ← isRecord (Some v);
  path ← read_path (prop m "path");
  if is_text (prop m "op") "remove" then
    if known_keys ["op"; "path"] m then Some (op_remove path) else None
  else if isOneOf (prop m "op") ["add"; "replace"] && known_keys ["op"; "path"; "value"] m then
    value ← prop m "value";
    if isJSONData value then
      Some (if is_text (prop m "op") "add" then op_add path value else op_replace path value)
    else None
  else None.

Definition isPatch (v : json) : option (list StateDeltaPatchOperation) :=
  match v with JArray l => mapM read_operation l | _ => None end.

(** ** Identities *)

Definition validateIdentity (identity : StateDeltaIdentity) : result unit :=
  guard! isNonEmptyString (id (d_source identity)) &&
         isSafeInteger (d_generation identity) && (0 <=? d_generation identity) &&
         isNonEmptyString (d_session identity) &&
         isSafeInteger (d_sequence identity) && (0 <=? d_sequence identity)
    else TypeError "state delta identity is invalid" in Ok tt.

Definition role_text (r : LinkRole) : list Z := match r with asset => js "asset" | gateway => js "gateway" end.

Definition scopeKey (identity : StateDeltaIdentity) (resourceType resourceIDValue : list Z) : list Z :=
  stringify (JArray [JString (role_text (role (d_source identity))); JString (id (d_source identity));
                     json_int (d_generation identity); JString (d_session identity);
                     JString resourceType; JString resourceIDValue]).

Definition resourceCode (resourceType : list Z) : Z :=
  if bool_decide (resourceType = js "entity") then 1
  else if bool_decide (resourceType = js "task") then 2 else 3.

Definition decodeResourceType (value : option Z) : option (list Z) :=
  match value with
  | Some v => if v =? 1 then Some (js "entity") else if v =? 2 then Some (js "task")
              else if v =? 3 then Some (js "object") else None
  | None => None
  end.

(** ** Delta payloads *)

Definition lengthPrefixedUTF8 (value : list Z) : result (list Z) :=
  let bs := Buffer_from value in
  let! back := TextDecoder_decode bs in
  guard! bool_decide (back = value) else TypeError "invalid UTF-8 string" in
  let! len := encodeUnsignedVarint (zlen bs) "state delta integer is invalid" in
  Ok (concatBytes [len; bs]).

Definition encodeDelta (resourceType resourceIDValue : list Z) (baselineSourceSequence : Z)
    (patch : list StateDeltaPatchOperation) : result (list Z) :=
  let! name := lengthPrefixedUTF8 resourceIDValue in
  let! sequence := encodeUnsignedVarint baselineSourceSequence "state delta integer is invalid" in
  let! text := encodeCanonicalJSON (patch_json patch) in
  Ok (concatBytes [[STATE_DELTA_MARKER; VERSION; DELTA_KIND; resourceCode resourceType]; name; sequence; text]).

Definition boundedDelta (payload : list Z) : option (list Z) :=
  if zlen payload <=? MAX_LINK_MESSAGE_BYTES then Some payload else None.

Definition isStateDeltaPayload (payload : list Z) : bool := bool_decide (nthZ payload 0 = Some STATE_DELTA_MARKER).

Definition readUTF8 (r : BinaryReader) : option (list Z) * BinaryReader :=
  match readLengthPrefixedBytes r with
  | (None, r') => (None, r')
  | (Some bs, r') => (try_result (TextDecoder_decode bs), r')
  end.

Definition positiveInteger (value : Z) (name : string) : result Z :=
  guard! isSafeInteger value && negb (value <? 1) else RangeError (String.append name " must be a positive integer") in Ok value.

Section delta.
Context {zlib : Zlib} {validators : Validators}.

Definition is_state_message (value : json) : bool :=
  isLinkMessage (Some value) && is_text (member_of (Some value) "type") "state".

(** The members of a value [is_state_message] accepted. *)
Definition members (value : json) : list (list Z * json) := default [] (isRecord (Some value)).

Definition publication_type (publication : json) : list Z := text_of (prop (members publication) "resource_type").
Definition publication_id (publication : json) : list Z := resourceID (members publication).

Definition isStatePublicationForIdentity (value : json) (resourceType resourceIDValue : list Z) : bool :=
  is_state_message value && bool_decide (publication_type value = resourceType) &&
  bool_decide (publication_id value = resourceIDValue).

(** ** The encoder *)

Record SenderBaseline := mkSender { sb_publication : json; sb_sequence : Z; sb_sentAt : Z }.

Record StateDeltaEncoder := mkEncoder {
  e_baselines : list (list Z * SenderBaseline);
  e_interval : Z;
  e_max : Z
}.

Definition newEncoder (baselineIntervalMs maxResources : option Z) : result StateDeltaEncoder :=
  let! interval := positiveInteger (default STATE_DELTA_BASELINE_INTERVAL_MS baselineIntervalMs) "baseline interval" in
  let! limit := positiveInteger (default DEFAULT_MAX_BASELINES maxResources) "baseline cache limit" in
  Ok (mkEncoder [] interval limit).

(** [PreparedStateDelta]; [commitFull] closes over the scope, the snapshot and
    the sequence. *)
Record PreparedStateDelta := mkPrepared {
  fullPayload : list Z;
  deltaPayload : option (list Z);
  baselineSourceSequence : option Z;
  p_scope : list Z;
  p_snapshot : json;
  p_sequence : Z
}.

Definition fullPreparation (identity : StateDeltaIdentity) (publication : json) (full : list Z) (scope : list Z)
    : PreparedStateDelta :=
  mkPrepared full None None scope publication (d_sequence identity).

(** [now] is [None] for a number that is not finite. *)
Definition prepare (e : StateDeltaEncoder) (publication : json) (identity : StateDeltaIdentity) (now : option Z)
    : result PreparedStateDelta :=
  let! _ := validateIdentity identity in
  let! now := from_option now (RangeError "state delta time must be finite") in
  let! full := serializeLinkMessage publication in
  guard! zlen full <=? MAX_LINK_MESSAGE_BYTES else RangeError "state publication exceeds 128 KiB" in
  let! publication := deserializeLinkMessage full in
  guard! is_state_message publication else TypeError "state publication is invalid" in
  let resourceType := publication_type publication in
  let resourceIDValue := publication_id publication in
  let scope := scopeKey identity resourceType resourceIDValue in
  let prepared := fullPreparation identity publication full scope in
  match jget scope (e_baselines e) with
  | None => Ok prepared
  | Some baseline =>
      if (e_interval e <=? now - sb_sentAt baseline) || (d_sequence identity <=? sb_sequence baseline) then Ok prepared
      else
        let! before := asJSONData (sb_publication baseline) in
        let! after := asJSONData publication in
        let patch := diffJSON before after [] in
        match encodeDelta resourceType resourceIDValue (sb_sequence baseline) patch with
        | Throw _ => Ok prepared
        | Ok delta =>
            match boundedDelta delta with
            | None => Ok prepared
            | Some deltaPayload =>
                Ok (mkPrepared full (Some deltaPayload) (Some (sb_sequence baseline)) scope publication (d_sequence identity))
            end
        end
  end.

(** [commitFull]; [committed] is the closure's flag, [committedAt] is [None]
    for a number that is not finite. *)
Definition commitFull (p : PreparedStateDelta) (committed : bool) (e : StateDeltaEncoder) (committedAt : option Z)
    : result (bool * StateDeltaEncoder) :=
  let! at_ := from_option committedAt (RangeError "state delta time must be finite") in
  if committed then Ok (true, e)
  else
    let superseded := match jget (p_scope p) (e_baselines e) with
                      | Some previous => p_sequence p <=? sb_sequence previous
                      | None => false
                      end in
    if superseded then Ok (true, e)
    else
      let baselines := jset (p_scope p) (mkSender (p_snapshot p) (p_sequence p) at_) (jdel (p_scope p) (e_baselines e)) in
      Ok (true, mkEncoder (jevict (e_max e) baselines) (e_interval e) (e_max e)).

(** ** The decoder *)

Record ReceiverBaseline := mkReceiver { rb_publication : json; rb_sequence : Z }.

Record ReceiverScope := mkScope { latest : option ReceiverBaseline; previous : option ReceiverBaseline }.

Record StateDeltaDecoder := mkDecoder { r_baselines : list (list Z * ReceiverScope); r_max : Z }.

Definition newDecoder (maxResources : option Z) : result StateDeltaDecoder :=
  let! limit := positiveInteger (default DEFAULT_MAX_BASELINES maxResources) "baseline cache limit" in
  Ok (mkDecoder [] limit).

(** [[scope?.latest, scope?.previous].find(...)] *)
Definition find_baseline (scope : option ReceiverScope) (sequence : Z) : option ReceiverBaseline :=
  match scope with
  | None => None
  | Some s =>
      let holds (c : option ReceiverBaseline) := match c with Some b => rb_sequence b =? sequence | None => false end in
      if holds (latest s) then latest s else if holds (previous s) then previous s else None
  end.

Definition rememberFull (d : StateDeltaDecoder) (publication : json) (identity : StateDeltaIdentity) : StateDeltaDecoder :=
  let key := scopeKey identity (publication_type publication) (publication_id publication) in
  let incoming := mkReceiver publication (d_sequence identity) in
  let fresh (older : option ReceiverBaseline) :=
    mkDecoder (jevict (r_max d) (jset key (mkScope (Some incoming) older) (jdel key (r_baselines d)))) (r_max d) in
  match jget key (r_baselines d) with
  | None => fresh None
  | Some scope =>
      match latest scope with
      | None => fresh None
      | Some newest =>
          if d_sequence identity =? rb_sequence newest then d
          else if d_sequence identity <? rb_sequence newest then
            if match previous scope with Some p => rb_sequence p <? d_sequence identity | None => true end
            then mkDecoder (jset key (mkScope (Some newest) (Some incoming)) (r_baselines d)) (r_max d)
            else d
          else fresh (Some newest)
      end
  end.

(** The header of a delta: the resource, the baseline's sequence and the bytes
    of the patch. *)
Definition readDelta (payload : list Z) (identity : StateDeltaIdentity)
    : option (list Z * list Z * Z * list Z) :=
  let r := mkReader payload 0 in
  let '(marker, r) := readByte r in
  let '(version, r) := readByte r in
  if negb (bool_decide (marker = Some STATE_DELTA_MARKER) && bool_decide (version = Some VERSION)) then None
  else
    let '(kind, r) := readByte r in
    let '(code, r) := readByte r in
    let '(name, r) := readUTF8 r in
    let '(sequence, r) := readUnsignedVarint r in
    let patchBytes := readRemaining r in
    match bool_decide (kind = Some DELTA_KIND), decodeResourceType code, name, sequence with
    | true, Some resourceType, Some resourceIDValue, Some sequence =>
        if d_sequence identity <=? sequence then None
        else Some (resourceType, resourceIDValue, sequence, patchBytes)
    | _, _, _, _ => None
    end.

(** The rest of [decodeDelta], against the baseline it found. *)
Definition applyDelta (baseline : ReceiverBaseline) (resourceType resourceIDValue patchBytes : list Z)
    : result (option json) :=
  let! value := decodeJSON patchBytes in
  match isPatch value with
  | None => Ok None
  | Some patch =>
      let! document := asJSONData (rb_publication baseline) in
      match applyPatch document patch with
      | None => Ok None
      | Some result =>
          if negb (isStatePublicationForIdentity result resourceType resourceIDValue) then Ok None
          else
            let! reconstructed := serializeLinkMessage result in
            Ok (if zlen reconstructed <=? MAX_LINK_MESSAGE_BYTES then Some result else None)
      end
  end.

Definition decodeDelta (d : StateDeltaDecoder) (payload : list Z) (identity : StateDeltaIdentity) : result (option json) :=
  match readDelta payload identity with
  | None => Ok None
  | Some (resourceType, resourceIDValue, sequence, patchBytes) =>
      match find_baseline (jget (scopeKey identity resourceType resourceIDValue) (r_baselines d)) sequence with
      | None => Ok None
      | Some baseline => applyDelta baseline resourceType resourceIDValue patchBytes
      end
  end.

(** [decode]: [None] is [undefined]; what is thrown is caught. *)
Definition decode (d : StateDeltaDecoder) (payload : list Z) (identity : StateDeltaIdentity)
    : option json * StateDeltaDecoder :=
  if (zlen payload =? 0) || (MAX_LINK_MESSAGE_BYTES <? zlen payload) then (None, d)
  else
    match validateIdentity identity with
    | Throw _ => (None, d)
    | Ok _ =>
        if isStateDeltaPayload payload then
          match decodeDelta d payload identity with Ok v => (v, d) | Throw _ => (None, d) end
        else
          match deserializeLinkMessage payload with
          | Throw _ => (None, d)
          | Ok message => if is_state_message message then (Some message, rememberFull d message identity) else (None, d)
          end
    end.
End delta.
