(* ===== verification/PatchFacts.v ===== *)
(** * Patches rebuild what they were made from ([diffJSON], [applyPatch])

    Applying the difference of two documents to the first gives the second, up
    to the order of members and the sign of zero; applying a patch does not see
    either, so it may be applied to an equal copy of the document. *)

From Stdlib Require Import ZArith Lia String.
From stdpp Require Import base list option.
From S2P Require Import Prelude JsMap Wtf8 Json JsonText CompactValue JsonRoundtrip LinkTypes Frame JsonEq Instants Contract ContractFacts StateDelta.

Open Scope string_scope.
Open Scope list_scope.
Open Scope Z_scope.

(** ** Objects by their lookups *)

Lemma wf_object_iff m : wf_json (JObject m) <->
  jwf m /\ forall k v, jget k m = Some v -> is_jsstr k /\ wf_json v.
Proof.
  split.
  - inversion 1 as [| | | | | ? Hm F]; subst. split; [done |]. intros k v Hk%jget_elem_of.
    exact (proj1 (Forall_elem _ _) F _ Hk).
  - intros [Hm H]. constructor; [done |]. apply Forall_elem. intros [k v] Hin. apply (H k v). by apply jget_of_elem.
Qed.

Lemma wf_object_jset k v m : wf_json (JObject m) -> is_jsstr k -> wf_json v -> wf_json (JObject (jset k v m)).
Proof.
  rewrite !wf_object_iff. intros [Hm H] Hk Hv. split; [by apply jset_wf |]. intros k' v'. rewrite jget_jset.
  case_decide; [intros [= <-]; by subst | apply H].
Qed.

Lemma wf_object_jdel k m : wf_json (JObject m) -> wf_json (JObject (jdel k m)).
Proof.
  rewrite !wf_object_iff. intros [Hm H]. split; [by apply jdel_wf |]. intros k' v'. rewrite jget_jdel by done.
  case_decide; [done | apply H].
Qed.

Lemma jset_get k v (m : list (list Z * json)) : jget k m = Some v -> jset k v m = m.
Proof. induction m as [| [k' v'] m IH]; cbn; [done |]. case_decide; [by intros [= ->] | intros ?; by rewrite IH]. Qed.

Lemma jset_jset k v v' (m : list (list Z * json)) : jset k v (jset k v' m) = jset k v m.
Proof.
  induction m as [| [k1 v1] m IH]; cbn; [by rewrite decide_True |].
  case_decide; cbn; [by rewrite decide_True | by rewrite decide_False, IH].
Qed.

(** Objects with the same data under every key are the same data. *)
Lemma same_fields_same m1 m2 : jwf m1 -> jwf m2 -> same_fields m1 m2 -> same_json (JObject m1) (JObject m2).
Proof.
  intros H1 H2 H. unfold same_json. cbn [unsigned_zero canon]. f_equal. rewrite !map_map.
  set (f := fun p : list Z * json => map_snd canon (map_snd unsigned_zero p)).
  assert (Hk : forall m, jkeys (map f m) = jkeys m) by (intros; unfold jkeys; by rewrite map_map).
  assert (Hg : forall k m, jget k (map f m) = (fun v => canon (unsigned_zero v)) <$> jget k m).
  { intros k m. induction m as [| [k' v] m IH]; [done |]. cbn. by case_decide. }
  apply sorted_perm_eq; [| | apply sort_entries_sorted .. ].
  { unfold jwf. rewrite (jkeys_perm _ _ (sort_entries_perm _)), Hk. done. }
  rewrite !sort_entries_perm. apply NoDup_Permutation.
  1, 2: apply (NoDup_fmap_1 fst); change (NoDup (jkeys (map f m1))) || change (NoDup (jkeys (map f m2))); by rewrite Hk.
  assert (Hsub : forall a b, jwf a -> jwf b -> same_fields a b -> forall p, p ∈ map f a -> p ∈ map f b).
  { intros a b Ha Hb Hs [k v] Hin. apply jget_of_elem in Hin; [| unfold jwf; by rewrite Hk]. apply jget_elem_of.
    rewrite Hg in *. specialize (Hs k). destruct Hs as [x y (_ & _ & E) |]; [| done].
    cbn in *. unfold same_json in E. congruence. }
  intros p. split; apply Hsub; try done. intros k. symmetry. apply H.
Qed.

(** ** Equal values give no operation *)

Lemma strict_equal_same v w : strict_equal v w = true -> same_json v w.
Proof.
  unfold same_json. destruct v, w; cbn; try done.
  - by intros ->%eqb_prop.
  - intros H. assert (printed_bits bits = printed_bits bits0) as ->; [| done]. unfold printed_bits. apply orb_true_iff in H as [->%Z.eqb_eq | H]; [done |].
    by apply andb_true_iff in H as [-> ->].
  - by intros ->%bool_decide_eq_true.
Qed.

Lemma same_text_same v w : wf_json v -> wf_json w -> finite_json v = true -> finite_json w = true ->
  stringify v = stringify w -> same_json v w.
Proof.
  intros Hv Hw Fv Fw H. pose proof (JSON_parse_stringify v Hv Fv) as E. rewrite H, JSON_parse_stringify in E by done.
  injection E as E. unfold same_json. rewrite <- !canon_parsed by done. by rewrite E.
Qed.

(** ** Operations below a key *)

Definition prefix (p : list (list Z)) (op : StateDeltaPatchOperation) : StateDeltaPatchOperation :=
  match op with
  | op_add q v => op_add (p ++ q) v
  | op_remove q => op_remove (p ++ q)
  | op_replace q v => op_replace (p ++ q) v
  end.

(** Only a removal of the whole document has no effect an edit could have. *)
Definition keeps_root (op : StateDeltaPatchOperation) : Prop := match op with op_remove q => q <> [] | _ => True end.

Lemma sort_entries_keyed {A B} (g : list Z * A -> list Z * B) m : (forall p, fst (g p) = fst p) ->
  sort_entries (map g m) = map g (sort_entries m).
Proof.
  intros Hg. assert (Hi : forall p l, insert_entry (g p) (map g l) = map g (insert_entry p l)).
  { intros p l. induction l as [| q l IH]; cbn; [done |]. rewrite !Hg. destruct (str_leb _ _); cbn; [done |]. by rewrite IH. }
  induction m as [| p m IH]; [done |].
  change (insert_entry (g p) (sort_entries (map g m)) = map g (insert_entry p (sort_entries m))). by rewrite IH, Hi.
Qed.

Lemma concat_map_map {A B} (f : A -> B) (l : list (list A)) : map f (concat l) = concat (map (map f) l).
Proof. induction l as [| x l IH]; cbn; [done |]. by rewrite map_app, IH. Qed.

(** The operations of one member of the new object. *)
Definition member_operations (l : list (list Z * json)) (p : list Z * json) : list StateDeltaPatchOperation :=
  match jget (fst p) l with
  | None => [op_add [fst p] (snd p)]
  | Some v => map (prefix [fst p]) (diffJSON v (snd p) [])
  end.

Definition removals (l r : list (list Z * json)) : list StateDeltaPatchOperation :=
  map (fun p => op_remove [fst p]) (List.filter (fun p => negb (jhas (fst p) r)) (sort_entries l)).

Lemma diff_object l r path : diffJSON (JObject l) (JObject r) path =
  map (fun p => op_remove (path ++ [fst p])) (List.filter (fun p => negb (jhas (fst p) r)) (sort_entries l)) ++
  concat (map (fun p => match jget (fst p) l with
                        | None => [op_add (path ++ [fst p]) (snd p)]
                        | Some v => diffJSON v (snd p) (path ++ [fst p])
                        end) (sort_entries r)).
Proof.
  cbn [diffJSON strict_equal]. f_equal. rewrite sort_entries_keyed by done. by rewrite map_map.
Qed.

Lemma diff_prefix left right path : diffJSON left right path = map (prefix path) (diffJSON left right []).
Proof.
  revert left path. induction right as [| | | | r IH | r IH] using json_ind'; intros left path;
    try (destruct left; cbn [diffJSON strict_equal]; try destruct (_ || _); try destruct (Bool.eqb _ _); try destruct (bool_decide _);
         cbn [map prefix]; by rewrite ?app_nil_r).
  destruct left as [| | | | | l]; try (cbn; by rewrite app_nil_r).
  rewrite !diff_object, map_app, map_map, concat_map_map, map_map. f_equal.
  f_equal. apply map_Forall_ext. apply Forall_sort_entries. eapply Forall_weaken; [exact IH |]. intros [k v] Hv. cbn in *.
  destruct (jget k l) as [w |]; [| done]. rewrite (Hv w (path ++ [k])), (Hv w [k]), map_map.
  apply map_ext. intros []; cbn; by rewrite <- app_assoc.
Qed.

Lemma diff_members l r : diffJSON (JObject l) (JObject r) [] =
  removals l r ++ concat (map (member_operations l) (sort_entries r)).
Proof.
  rewrite diff_object. unfold removals. f_equal. f_equal. apply map_ext. intros [k v]. unfold member_operations. cbn.
  destruct (jget k l); [by rewrite diff_prefix | done].
Qed.

Lemma diff_keeps_root left right path : Forall keeps_root (diffJSON left right path).
Proof.
  revert left path. induction right as [| | | | r IH | r IH] using json_ind'; intros left path;
    try (destruct left; cbn [diffJSON strict_equal]; try destruct (_ || _); try destruct (Bool.eqb _ _); try destruct (bool_decide _);
         by repeat constructor).
  destruct left as [| | | | | l]; try by repeat constructor.
  rewrite diff_object. apply Forall_app. split.
  - apply Forall_map. apply Forall_elem. intros p _. cbn. by destruct path.
  - apply Forall_concat, Forall_map, Forall_sort_entries. eapply Forall_weaken; [exact IH |]. intros [k v] Hv. cbn in *.
    destruct (jget k l); [apply Hv | by repeat constructor].
Qed.

(** ** Applying a difference *)

Lemma applyPatch_app document p q : applyPatch document (p ++ q) = applyPatch document p ≫= (fun d => applyPatch d q).
Proof.
  revert document. induction p as [| op p IH]; intros document; [done |]. cbn.
  destruct (apply_operation document op); cbn; [apply IH | done].
Qed.

Lemma apply_below k op m v : jget k m = Some v -> keeps_root op ->
  apply_operation (JObject m) (prefix [k] op) = (fun w => JObject (jset k w m)) <$> apply_operation v op.
Proof.
  intros Hk Hr. assert (Hh : jhas k m = true) by (apply jhas_true; by eexists).
  unfold apply_operation. replace (op_path (prefix [k] op)) with (k :: op_path op) by (by destruct op).
  destruct (op_path op) as [| s p] eqn:Ep.
  - cbn [removelast List.last update_at]. destruct op; cbn in *; subst; try done. by rewrite Hh.
  - change (removelast (k :: s :: p)) with (k :: removelast (s :: p)).
    change (List.last (k :: s :: p) []) with (List.last (s :: p) ([] : list Z)).
    cbn [update_at]. rewrite Hk. cbn [mbind option_bind].
    assert (He : forall parent, edit_parent (prefix [k] op) (List.last (s :: p) []) parent = edit_parent op (List.last (s :: p) []) parent).
    { intros []; by destruct op. }
    assert (Hu : forall path d, update_at path (edit_parent (prefix [k] op) (List.last (s :: p) [])) d =
      update_at path (edit_parent op (List.last (s :: p) [])) d).
    { induction path as [| t path IH]; intros d; [apply He |]. cbn [update_at]. destruct d; try done.
      - destruct (arrayIndex t); [| done]. cbn. destruct (nthZ l z); [| done]. cbn. by rewrite IH.
      - destruct (jget t m0); [| done]. cbn. by rewrite IH. }
    rewrite Hu. by destruct (update_at _ _ v).
Qed.

Lemma apply_all_below k ops m v : jget k m = Some v -> Forall keeps_root ops ->
  applyPatch (JObject m) (map (prefix [k]) ops) = (fun w => JObject (jset k w m)) <$> applyPatch v ops.
Proof.
  intros Hk H. revert m v Hk. induction H as [| op ops Ho _ IH]; intros m v Hk.
  - cbn. by rewrite (jset_get k v m Hk).
  - cbn [map applyPatch]. rewrite (apply_below k op m v Hk Ho).
    destruct (apply_operation v op) as [w |]; [| done]. cbn [fmap option_fmap option_map mbind option_bind].
    rewrite (IH (jset k w m) w) by apply jget_jset_eq. destruct (applyPatch w ops); [| done]. cbn. by rewrite jset_jset.
Qed.

Lemma apply_removals L m : NoDup (jkeys L) -> jwf m -> (forall k, k ∈ jkeys L -> jhas k m = true) ->
  exists m', applyPatch (JObject m) (map (fun p : list Z * json => op_remove [fst p]) L) = Some (JObject m') /\ jwf m' /\
    forall k, jget k m' = if bool_decide (k ∈ jkeys L) then None else jget k m.
Proof.
  unfold jkeys. revert m. induction L as [| [k v] L IH]; intros m Hnd Hm Hh.
  - exists m. split; [done |]. split; [done |]. intros k. by rewrite bool_decide_false by apply not_elem_of_nil.
  - cbn [map fst] in *. apply list.NoDup_cons in Hnd as [Hn Hnd].
    cbn [applyPatch apply_operation op_path removelast List.last update_at edit_parent].
    rewrite (Hh k) by constructor. cbn [mbind option_bind].
    destruct (IH (jdel k m)) as (m' & E & Hm' & Hg); [done | by apply jdel_wf | |].
    { intros k' Hk'. rewrite jhas_jdel by done. rewrite (Hh k') by (by constructor).
      rewrite bool_decide_false; [done |]. intros ->. done. }
    exists m'. split; [done |]. split; [done |]. intros k'. rewrite Hg, jget_jdel by done.
    destruct (decide (k' = k)) as [-> | Hne].
    + rewrite (bool_decide_true (k ∈ k :: _)) by constructor. by destruct (bool_decide _).
    + assert (bool_decide (k' ∈ map fst L) = bool_decide (k' ∈ k :: map fst L)) as -> by (apply bool_decide_ext; rewrite elem_of_cons; tauto).
      done.
Qed.

(** What the members of the new object leave behind. *)
Definition rebuilds (w : option json) (v : json) : Prop := exists w', w = Some w' /\ wf_json w' /\ same_json v w'.

Lemma apply_members l R m :
  Forall (fun p => is_jsstr (fst p) /\ wf_json (snd p) /\
    forall v, jget (fst p) l = Some v -> rebuilds (applyPatch v (diffJSON v (snd p) [])) (snd p)) R ->
  NoDup (jkeys R) -> wf_json (JObject m) -> (forall k, k ∈ jkeys R -> jget k m = jget k l) ->
  exists m', applyPatch (JObject m) (concat (map (member_operations l) R)) = Some (JObject m') /\ wf_json (JObject m') /\
    (forall p, p ∈ R -> rebuilds (jget (fst p) m') (snd p)) /\ forall k, k ∉ jkeys R -> jget k m' = jget k m.
Proof.
  unfold jkeys. revert m. induction R as [| [k v] R IH]; intros m HR Hnd Hm Hsame.
  - exists m. split; [done |]. split; [done |]. split; [by intros ? ?%elem_of_nil | done].
  - cbn [map fst] in *. apply list.Forall_cons in HR as [(Hk & Hv & Hd) HR]. apply list.NoDup_cons in Hnd as [Hn Hnd]. cbn [fst snd] in *.
    assert (Hstep : exists w, applyPatch (JObject m) (member_operations l (k, v)) = Some (JObject (jset k w m)) /\ wf_json w /\ same_json v w).
    { unfold member_operations. cbn [fst snd]. destruct (jget k l) as [u |] eqn:El.
      - destruct (Hd u eq_refl) as (w & Ew & Hw & Hs). exists w. split; [| done].
        rewrite (apply_all_below k _ m u); [by rewrite Ew | by rewrite Hsame by constructor | apply diff_keeps_root].
      - exists v. split; [done |]. split; [done | reflexivity]. }
    destruct Hstep as (w & Ew & Hw & Hs). cbn [concat].
    destruct (IH (jset k w m)) as (m' & E & Hm' & Hin & Hout); [done | done | by apply wf_object_jset | |].
    { intros k' Hk'. rewrite jget_jset_ne by (intros ->; done). apply Hsame. by constructor. }
    exists m'. rewrite applyPatch_app, Ew. cbn [mbind option_bind]. split; [done |]. split; [done |]. split.
    + intros p [-> | Hp]%elem_of_cons; [| by apply Hin]. cbn [fst snd]. exists w. rewrite (Hout k Hn), jget_jset_eq. done.
    + intros k' [Hne Hk']%not_elem_of_cons. rewrite (Hout k' Hk'). by apply jget_jset_ne.
Qed.

Lemma replaced v w : wf_json v -> applyPatch w [op_replace [] v] = Some v /\ wf_json v /\ same_json v v.
Proof. intros. by repeat split. Qed.

Lemma diff_object_applies l r : wf_json (JObject l) -> wf_json (JObject r) ->
  Forall (fun p => forall v, wf_json v -> jget (fst p) l = Some v -> rebuilds (applyPatch v (diffJSON v (snd p) [])) (snd p)) r ->
  rebuilds (applyPatch (JObject l) (diffJSON (JObject l) (JObject r) [])) (JObject r).
Proof.
  intros Hl Hr IH. rewrite diff_members, applyPatch_app. pose proof (proj1 (wf_object_iff l) Hl) as [Wl Fl].
  pose proof (proj1 (wf_object_iff r) Hr) as [Wr Fr].
  set (L := List.filter (fun p => negb (jhas (fst p) r)) (sort_entries l)).
  assert (HL : forall k, k ∈ jkeys L <-> jhas k l = true /\ jhas k r = false).
  { intros k. unfold jkeys, L. rewrite list_elem_of_fmap. split.
    - intros (p & -> & Hp). apply list_elem_of_In, List.filter_In in Hp as [Hp Hn].
      apply negb_true_iff in Hn. split; [| done]. apply list_elem_of_In in Hp. rewrite (sort_entries_perm l) in Hp.
      apply jhas_true. exists (snd p). apply jget_of_elem; [done |]. by destruct p.
    - intros [Hk Hn]. apply jhas_true in Hk as [v Hv]. exists (k, v). split; [done |].
      apply list_elem_of_In, List.filter_In. cbn. rewrite Hn. split; [| done]. apply list_elem_of_In.
      rewrite (sort_entries_perm l). by apply jget_elem_of. }
  destruct (apply_removals L l) as (m & E & Hm & Hg); [| done | intros k Hk; by apply HL in Hk as [? _] |].
  { unfold L. pose proof (jretain_wf (fun k _ => negb (jhas k r)) (sort_entries l) (sort_entries_wf l Wl)) as H. exact H. }
  fold L. unfold removals. fold L. rewrite E. cbn [mbind option_bind].
  assert (Hwm : wf_json (JObject m)).
  { apply wf_object_iff. split; [done |]. intros k v. rewrite Hg. destruct (bool_decide _); [done | apply Fl]. }
  assert (HR : forall k, k ∈ jkeys (sort_entries r) <-> jhas k r = true).
  { intros k. rewrite (jkeys_perm _ _ (sort_entries_perm r)). rewrite jhas_true. split.
    - intros Hk. unfold jkeys in Hk. apply list_elem_of_fmap in Hk as ([k' v] & -> & Hin). exists v. by apply jget_of_elem.
    - intros [v Hv]. by apply jget_key with v. }
  destruct (apply_members l (sort_entries r) m) as (m' & E' & Hm' & Hin & Hout).
  - apply Forall_sort_entries, Forall_elem. intros [k v] Hp. cbn.
    destruct (Fr k v ltac:(by apply jget_of_elem)) as [Hk Hv]. split; [done |]. split; [done |]. intros u Hu.
    apply (proj1 (Forall_elem _ _) IH _ Hp); [by apply (Fl k) | done].
  - by apply sort_entries_wf.
  - done.
  - intros k Hk. rewrite Hg. rewrite bool_decide_false; [done |]. rewrite HL. apply HR in Hk. intros [_ ?]. congruence.
  - exists (JObject m'). split; [done |]. split; [done |].
    apply same_fields_same; [done | by apply wf_object_iff |]. intros k. destruct (jget k r) as [v |] eqn:Ek.
    + destruct (Hin (k, v)) as (w & Ew & Hw & Hs); [rewrite (sort_entries_perm r); by apply jget_elem_of |].
      cbn in *. rewrite Ew. constructor. split; [by apply (Fr k v) | done].
    + apply jhas_false in Ek as Hn. rewrite (Hout k), Hg by (rewrite HR, Hn; done).
      destruct (bool_decide (k ∈ jkeys L)) eqn:Eb; [constructor |]. apply bool_decide_eq_false in Eb. rewrite HL in Eb.
      destruct (jget k l) as [u |] eqn:El; [| constructor]. exfalso. apply Eb. split; [apply jhas_true; by eexists | done].
Qed.

Lemma diff_applies left right : wf_json left -> wf_json right -> finite_json left = true -> finite_json right = true ->
  rebuilds (applyPatch left (diffJSON left right [])) right.
Proof.
  revert left. induction right as [| | | | r IH | r IH] using json_ind'; intros left Hl Hr Fl Fr.
  1-5: try (cbn [diffJSON]; destruct (strict_equal left _) eqn:E;
      [by exists left; apply strict_equal_same in E | destruct left; try (eexists; by apply replaced)]).
  - case_bool_decide as Et; [| eexists; by apply replaced].
    exists (JArray l). split; [done |]. split; [done |]. symmetry. by apply same_text_same.
  - destruct left as [| | | | | l]; try (eexists; by apply replaced).
    apply diff_object_applies; [done | done |]. apply Forall_elem. intros [k w] Hin v Hv Hk. cbn [fst snd] in *.
    apply (proj1 (Forall_elem _ _) IH _ Hin); [done | | |].
    + pose proof (proj1 (wf_object_iff r) Hr) as [Wr Fr']. apply (Fr' k w). by apply jget_of_elem.
    + cbn in Fl. apply jget_elem_of in Hk. rewrite forallb_forall in Fl. apply (Fl (k, v)). by apply list_elem_of_In.
    + cbn in Fr. rewrite forallb_forall in Fr. apply (Fr (k, w)). by apply list_elem_of_In.
Qed.

(** ** Applying a patch respects equal data *)

Definition good (v w : json) : Prop := wf_json v /\ wf_json w /\ same_json v w.

Lemma good_some v w : good v w <-> same_value (Some v) (Some w).
Proof. split; [by constructor | by inversion 1]. Qed.

Lemma good_array l l' : good (JArray l) (JArray l') <-> Forall2 good l l'.
Proof.
  split.
  - intros (H1 & H2 & H). destruct (same_array _ _ l H eq_refl) as (k & [= <-] & F).
    inversion H1 as [| | | | ? F1 |]; subst. inversion H2 as [| | | | ? F2 |]; subst. clear H H1 H2.
    induction F as [| a b l k Hab F IH]; constructor; apply list.Forall_cons in F1 as [? F1], F2 as [? F2]; [done | auto].
  - intros F. assert (H : Forall wf_json l /\ Forall wf_json l' /\ map (fun v => canon (unsigned_zero v)) l = map (fun v => canon (unsigned_zero v)) l').
    { induction F as [| a b l l' (Ha & Hb & Hab) F IH]; [done |]. destruct IH as (H1 & H2 & H3).
      split; [by constructor |]. split; [by constructor |]. cbn. unfold same_json in Hab. by rewrite H3, Hab. }
    destruct H as (H1 & H2 & H3). split; [by constructor |]. split; [by constructor |].
    unfold same_json. cbn. by rewrite !map_map, H3.
Qed.

Lemma good_object m m' : good (JObject m) (JObject m') <-> wf_json (JObject m) /\ wf_json (JObject m') /\ same_fields m m'.
Proof.
  split; intros (H1 & H2 & H); (split; [done |]; split; [done |]).
  - by apply same_object.
  - apply same_fields_same; [apply (wf_object_iff m), H1 | apply (wf_object_iff m'), H2 | done].
Qed.

Lemma good_shape v w : good v w ->
  match v, w with
  | JNull, JNull | JNumber _, JNumber _ | JArray _, JArray _ | JObject _, JObject _ => True
  | JBool a, JBool b => a = b
  | JString s, JString t => s = t
  | _, _ => False
  end.
Proof. intros (_ & _ & H). by apply same_shape. Qed.

Lemma same_fields_jhas m m' k : same_fields m m' -> jhas k m = jhas k m'.
Proof. intros H. unfold jhas. by destruct (H k). Qed.

Lemma good_jset k v w m m' : is_jsstr k -> good v w -> good (JObject m) (JObject m') -> good (JObject (jset k v m)) (JObject (jset k w m')).
Proof.
  rewrite !good_object. intros Hk (Hv & Hw & Hs) (H1 & H2 & H). split; [by apply wf_object_jset |]. split; [by apply wf_object_jset |].
  intros k'. rewrite !jget_jset. case_decide; [by constructor | apply H].
Qed.

Lemma good_jdel k m m' : good (JObject m) (JObject m') -> good (JObject (jdel k m)) (JObject (jdel k m')).
Proof.
  rewrite !good_object. intros (H1 & H2 & H). split; [by apply wf_object_jdel |]. split; [by apply wf_object_jdel |].
  intros k'. apply wf_object_iff in H1 as [? _], H2 as [? _]. rewrite !jget_jdel by done. case_decide; [constructor | apply H].
Qed.

Lemma Forall2_nthZ {A B} (R : A -> B -> Prop) l l' i : Forall2 R l l' -> option_Forall2 R (nthZ l i) (nthZ l' i).
Proof.
  intros H. unfold nthZ, zlen. rewrite (list.Forall2_length _ _ _ H). destruct (_ && _); [| constructor].
  by apply Forall2_lookup.
Qed.

Lemma update_at_same path e1 e2 v w :
  (forall a b, good a b -> same_value (e1 a) (e2 b)) -> good v w -> same_value (update_at path e1 v) (update_at path e2 w).
Proof.
  intros He. revert v w. induction path as [| s path IH]; intros v w H; [by apply He |].
  pose proof (good_shape v w H) as Hs. cbn [update_at]. destruct v as [| | | | l | m], w as [| | | | l' | m']; try done; try constructor.
  - destruct (arrayIndex s) as [i |]; [| constructor]. cbn [mbind option_bind].
    pose proof (proj1 (good_array l l') H) as F. pose proof (Forall2_nthZ _ _ _ i F) as Hi. destruct Hi as [a b Hab |]; [| constructor].
    cbn [mbind option_bind]. pose proof (IH a b Hab) as Hc. destruct Hc as [c d Hcd |]; [| constructor]. cbn.
    apply good_some, good_array. by apply Forall2_insert.
  - pose proof (proj1 (good_object m m') H) as (Hm & _ & Hf). pose proof (Hf s) as Hc.
    destruct (jget s m) as [a |] eqn:Ea; inversion Hc as [? b Hab |]; subst; [| constructor].
    cbn [mbind option_bind]. pose proof (IH a b Hab) as Hd. destruct Hd as [c d Hcd |]; [| constructor]. cbn.
    apply good_some, good_jset; [| done | done]. apply wf_object_iff in Hm as [_ Hm]. by apply (Hm s a).
Qed.

(** The same operation on the same path with the same data. *)
Inductive same_operation : relation StateDeltaPatchOperation :=
  | same_add p v w : Forall is_jsstr p -> good v w -> same_operation (op_add p v) (op_add p w)
  | same_remove p : Forall is_jsstr p -> same_operation (op_remove p) (op_remove p)
  | same_replace p v w : Forall is_jsstr p -> good v w -> same_operation (op_replace p v) (op_replace p w).

Lemma edit_parent_same o1 o2 s v w : same_operation o1 o2 -> is_jsstr s -> good v w ->
  same_value (edit_parent o1 s v) (edit_parent o2 s w).
Proof.
  intros Ho Hs H. pose proof (good_shape v w H) as Hsh.
  destruct v as [| | | | l | m], w as [| | | | l' | m']; try done; try (constructor; done).
  - pose proof (proj1 (good_array l l') H) as F. cbn [edit_parent]. destruct (arrayIndex s) as [i |]; [| constructor]. cbn [mbind option_bind].
    assert (El : zlen l = zlen l') by (unfold zlen; by rewrite (list.Forall2_length _ _ _ F)). rewrite El.
    destruct Ho as [p a b _ Hab | p _ | p a b _ Hab]; (destruct (_ <? _) || destruct (_ <=? _)); [constructor | | constructor | | constructor |];
      apply good_some, good_array.
    + apply Forall2_app; [by apply Forall2_take |]. constructor; [done | by apply Forall2_drop].
    + apply Forall2_app; [by apply Forall2_take | by apply Forall2_drop].
    + by apply Forall2_insert.
  - pose proof (proj1 (good_object m m') H) as (_ & _ & Hf). cbn [edit_parent].
    rewrite !(same_fields_jhas m m' s Hf).
    destruct Ho as [p a b _ Hab | p _ | p a b _ Hab].
    + by apply good_some, good_jset.
    + destruct (jhas s m'); [by apply good_some, good_jdel | constructor].
    + destruct (jhas s m'); [by apply good_some, good_jset | constructor].
Qed.

Lemma apply_operation_same o1 o2 v w : same_operation o1 o2 -> good v w ->
  same_value (apply_operation v o1) (apply_operation w o2).
Proof.
  intros Ho H. assert (Hp : op_path o1 = op_path o2 /\ Forall is_jsstr (op_path o1)) by (by destruct Ho).
  destruct Hp as [Ep Hp]. unfold apply_operation. rewrite <- Ep. destruct (op_path o1) as [| s p] eqn:E.
  - destruct Ho; constructor; done.
  - apply update_at_same; [| done]. intros a b. apply edit_parent_same; [done |].
    destruct (exists_last (l := s :: p) ltac:(done)) as (q & t & Eq). rewrite Eq in *. rewrite List.last_last.
    apply Forall_app in Hp as [_ Hp]. by apply list.Forall_cons in Hp as [? _].
Qed.

Lemma applyPatch_same p q v w : Forall2 same_operation p q -> good v w -> same_value (applyPatch v p) (applyPatch w q).
Proof.
  intros F. revert v w. induction F as [| o1 o2 p q Ho F IH]; intros v w H; [by apply good_some |].
  cbn. pose proof (apply_operation_same o1 o2 v w Ho H) as Hs. destruct Hs as [a b Hab |]; [| constructor]. by apply IH.
Qed.

(** ** Patches on the wire *)

Lemma mapM_same {A B} (R : A -> A -> Prop) (S : B -> B -> Prop) (f : A -> option B) l l' :
  (forall a b, R a b -> option_Forall2 S (f a) (f b)) -> Forall2 R l l' -> option_Forall2 (Forall2 S) (mapM f l) (mapM f l').
Proof.
  intros Hf F. induction F as [| a b l l' Hab F IH]; [by constructor |]. cbn.
  destruct (Hf a b Hab); [| constructor]. cbn. destruct IH; [| constructor]. cbn. by constructor; constructor.
Qed.

Lemma known_keys_same allowed m m' : jwf m -> jwf m' -> same_fields m m' -> known_keys allowed m = known_keys allowed m'.
Proof.
  intros H1 H2 H. assert (Hk : forall k, k ∈ jkeys m <-> k ∈ jkeys m').
  { intros k. split; intros Hk; apply dec_stable; intros Hn; apply jget_None in Hn; specialize (H k);
      rewrite Hn in H; inversion H as [| E1 E2]; by apply jget_None in Hk. }
  unfold known_keys. apply eq_iff_eq_true. rewrite !forallb_forall. split; intros F k Hin%list_elem_of_In;
    apply F, list_elem_of_In; by apply Hk.
Qed.

Lemma read_path_same v w : same_value v w -> option_Forall2 (fun p q => p = q /\ Forall is_jsstr p) (read_path v) (read_path w).
Proof.
  intros H. destruct H as [v w H |]; [| constructor]. pose proof (good_shape v w H) as Hs.
  destruct v as [| | | | l |], w as [| | | | l' |]; try done; try constructor. apply good_array in H. unfold read_path.
  pose proof (mapM_same good (fun s t => s = t /\ is_jsstr s) (fun part => json_string (Some part)) l l') as E.
  destruct E as [p q F |]; [| done | | constructor].
  { intros a b Hab. pose proof (good_shape a b Hab) as Hs'. destruct a, b; try done; constructor. subst.
    destruct Hab as (Ha & _ & _). by inversion Ha. }
  constructor. induction F as [| s t p q [-> Ht] F IH]; [done |]. destruct IH as [-> IH]. split; [done | by constructor].
Qed.

Lemma read_operation_same v w : good v w -> option_Forall2 same_operation (read_operation v) (read_operation w).
Proof.
  intros H. pose proof (good_shape v w H) as Hs. unfold read_operation.
  destruct v as [| | | | | m], w as [| | | | | m']; try done; try constructor. cbn [isRecord mbind option_bind].
  apply good_object in H as (W1 & W2 & Hf). apply wf_object_iff in W1 as [W1 _], W2 as [W2 _].
  pose proof (read_path_same _ _ (prop_same _ _ Hf "path")) as Hp.
  destruct Hp as [p q [<- Hp] |]; [| constructor]. cbn [mbind option_bind].
  rewrite !(known_keys_same _ m m') by done.
  rewrite !(is_text_proper _ _ (prop_same _ _ Hf "op") _ _ eq_refl), !(isOneOf_proper _ _ (prop_same _ _ Hf "op") _ _ eq_refl).
  destruct (is_text (prop m' "op") "remove"); [destruct (known_keys _ m'); by repeat (constructor || done) |].
  destruct (isOneOf _ _ && known_keys _ m'); [| constructor].
  pose proof (prop_same _ _ Hf "value") as Hv. destruct Hv as [a b Hab |]; [| constructor]. cbn [mbind option_bind].
  assert (Hd : isJSONData a = isJSONData b) by (apply finite_same, Hab). rewrite Hd.
  destruct (isJSONData b); [| constructor]. destruct (is_text (prop m' "op") "add"); by constructor; constructor.
Qed.

Lemma isPatch_same v w : good v w -> option_Forall2 (Forall2 same_operation) (isPatch v) (isPatch w).
Proof.
  intros H. pose proof (good_shape v w H) as Hs. destruct v as [| | | | l |], w as [| | | | l' |]; try done; try constructor.
  apply good_array in H. apply (mapM_same good); [apply read_operation_same | done].
Qed.

Definition op_ok (op : StateDeltaPatchOperation) : Prop :=
  Forall is_jsstr (op_path op) /\
  match op with op_add _ v | op_replace _ v => wf_json v /\ finite_json v = true | op_remove _ => True end.

Lemma read_path_json path : read_path (Some (path_json path)) = Some path.
Proof. unfold read_path, path_json. induction path as [| s path IH]; [done |]. cbn in *. by rewrite IH. Qed.

(** Evaluates the tests on the members of a literal object. *)
Ltac eval_tests :=
  repeat match goal with
  | |- context [is_text ?a ?b] => let r := eval vm_compute in (is_text a b) in change (is_text a b) with r
  | |- context [isOneOf ?a ?b] => let r := eval vm_compute in (isOneOf a b) in change (isOneOf a b) with r
  | |- context [known_keys ?a ?b] => let r := eval vm_compute in (known_keys a b) in change (known_keys a b) with r
  end; cbn [andb].

Lemma read_operation_json op : op_ok op -> read_operation (operation_json op) = Some op.
Proof.
  intros [_ Hv]. unfold read_operation. destruct op as [p v | p | p v]; cbn [operation_json isRecord mbind option_bind];
    change (prop (_ :: (js "path", ?x) :: _) "path") with (Some x); rewrite read_path_json; cbn [mbind option_bind]; eval_tests; [| done |];
    change (prop [_; _; (js "value", ?x)] "value") with (Some x); cbn [mbind option_bind]; unfold isJSONData; by rewrite (proj2 Hv).
Qed.

Lemma isPatch_json ops : Forall op_ok ops -> isPatch (patch_json ops) = Some ops.
Proof.
  unfold isPatch, patch_json. induction 1 as [| op ops Ho _ IH]; [done |].
  cbn [map mapM]. rewrite read_operation_json by done. cbn. by rewrite IH.
Qed.

Lemma op_json_wf op : op_ok op -> wf_json (operation_json op).
Proof.
  intros [Hp Hv].
  assert (Hpath : wf_json (path_json (op_path op))).
  { constructor. apply Forall_map. eapply Forall_weaken; [exact Hp |]. intros s Hs. by constructor. }
  pose proof js_units as Hs. destruct op; cbn [operation_json op_path] in *; constructor;
    try (unfold jwf; apply (bool_decide_unpack _); by vm_compute);
    repeat (apply List.Forall_cons; [cbn [fst snd]; split; [apply js_units | first [by constructor | done | apply Hv]] |]); by constructor.
Qed.

Lemma patch_json_wf ops : Forall op_ok ops -> wf_json (patch_json ops).
Proof. intros H. constructor. apply Forall_map. eapply Forall_weaken; [exact H |]. apply op_json_wf. Qed.

Lemma diff_ok left right path : wf_json left -> wf_json right -> finite_json right = true -> Forall is_jsstr path ->
  Forall op_ok (diffJSON left right path).
Proof.
  revert left path. induction right as [| | | | r IH | r IH] using json_ind'; intros left path Hl Hr Fr Hp.
  1-5: destruct left; cbn [diffJSON strict_equal]; try destruct (_ || _); try destruct (Bool.eqb _ _); try destruct (bool_decide _);
         by repeat (done || constructor).
  destruct left as [| | | | | l]; try (by repeat (done || constructor)).
  pose proof (proj1 (wf_object_iff l) Hl) as [Wl Fl]. pose proof (proj1 (wf_object_iff r) Hr) as [Wr Fw].
  rewrite diff_object. apply Forall_app. split.
  - apply Forall_map, Forall_elem. intros [k v] Hin. apply list_elem_of_In, List.filter_In in Hin as [Hin _].
    apply list_elem_of_In in Hin. rewrite (sort_entries_perm l) in Hin. split; [| done]. cbn. apply Forall_app. split; [done |].
    constructor; [| done]. apply (Fl k v). by apply jget_of_elem.
  - apply Forall_concat, Forall_map, Forall_sort_entries, Forall_elem. intros [k v] Hin. cbn [fst snd].
    assert (Hk : is_jsstr k /\ wf_json v) by (apply (Fw k v); by apply jget_of_elem).
    assert (Hv : finite_json v = true).
    { cbn in Fr. rewrite forallb_forall in Fr. apply (Fr (k, v)). by apply list_elem_of_In. }
    assert (Hpk : Forall is_jsstr (path ++ [k])) by (apply Forall_app; split; [done | by repeat (apply Hk || constructor)]).
    destruct (jget k l) as [u |] eqn:El.
    + apply (proj1 (Forall_elem _ _) IH _ Hin); [by apply (Fl k) | apply Hk | done | done].
    + constructor; [| constructor]. split; [done |]. split; [apply Hk | done].
Qed.

(** What a receiver rebuilds from the text of the patch and an equal copy of
    the first document is the second document. *)
Lemma patch_rebuilds before after base text : wf_json before -> wf_json after ->
  finite_json before = true -> finite_json after = true -> good before base ->
  encodeCanonicalJSON (patch_json (diffJSON before after [])) = Ok text ->
  exists w ops d, decodeJSON text = Ok w /\ isPatch w = Some ops /\ applyPatch base ops = Some d /\ good after d.
Proof.
  intros Wb Wa Fb Fa Hb He. pose proof (diff_ok before after [] Wb Wa Fa ltac:(constructor)) as Hok.
  destruct (decode_canonical _ _ (patch_json_wf _ Hok) He) as (w & Hd & Hc & Hw).
  assert (Hg : good (patch_json (diffJSON before after [])) w).
  { split; [by apply patch_json_wf |]. split; [done |]. by apply same_json_decoded. }
  pose proof (isPatch_same _ _ Hg) as Hp. rewrite isPatch_json in Hp by done. inversion Hp as [? ops Hops E |]; subst.
  destruct (diff_applies before after Wb Wa Fb Fa) as (d0 & E0 & W0 & S0).
  pose proof (applyPatch_same _ _ _ _ Hops Hb) as Hs. rewrite E0 in Hs. inversion Hs as [? d (_ & Wd & Sd) E1 |]; subst.
  exists w, ops, d. repeat split; try done. by transitivity d0.
Qed.
