(* ===== verification/DeltaFacts.v ===== *)
(** * Deltas reproduce the full publication ([state-delta.ts])

    A receiver that holds the baseline a delta was made from decodes the
    publication the full payload carries; the two caches stay bounded and their
    baselines move forward. *)

From Stdlib Require Import ZArith Lia String.
From stdpp Require Import base list option.
From S2P Require Import Prelude JsMap BinaryIO Wtf8 Json Utf8Text JsonText CompactValue JsonRoundtrip Compression LinkTypes Frame FrameJson JsonEq Instants Contract ContractFacts StateDelta PatchFacts.

Open Scope string_scope.
Open Scope list_scope.
Open Scope Z_scope.

(** ** The header is read back *)

Lemma encodeUnsignedVarint_ok value message bs : encodeUnsignedVarint value message = Ok bs ->
  0 <= value <= MAX_SAFE_INTEGER /\ bs = varint_digits 8 value.
Proof.
  unfold encodeUnsignedVarint. destruct (isSafeInteger value && (0 <=? value)) eqn:E; [| done]. intros H%ok_inj. rewrite <- H. clear H.
  apply andb_true_iff in E as [E1 E2]. apply isSafeInteger_spec in E1. apply Z.leb_le in E2.
  split; [lia |]. by apply bigint_digits_eq.
Qed.

Lemma varint_digits_nonempty fuel value : varint_digits (S fuel) value <> [].
Proof. cbn. by destruct (_ <? _). Qed.

Lemma readUTF8_written value bs r rest : lengthPrefixedUTF8 value = Ok bs -> readRemaining r = bs ++ rest -> rest <> [] ->
  exists r', readUTF8 r = (Some value, r') /\ readRemaining r' = rest.
Proof.
  unfold lengthPrefixedUTF8. intros H Hr Hne. inv_result. reflect_tests. subst.
  match goal with H : encodeUnsignedVarint _ _ = Ok _ |- _ => apply encodeUnsignedVarint_ok in H as [Hl ->] end.
  rewrite concatBytes_concat in Hr. cbn [concat] in Hr. rewrite app_nil_r, <- app_assoc in Hr.
  destruct (readLengthPrefixed_written r (Buffer_from value) rest ltac:(lia) ltac:(by intros [_ ?]%app_eq_nil) Hr) as (r' & E' & R' & _).
  exists r'. unfold readUTF8. rewrite E'. split; [by rewrite E | done].
Qed.

Lemma decodeResourceType_code t : t = js "entity" \/ t = js "task" \/ t = js "object" ->
  decodeResourceType (Some (resourceCode t)) = Some t.
Proof. by intros [-> | [-> | ->]]. Qed.

Lemma readDelta_encoded t i sequence patch payload identity :
  t = js "entity" \/ t = js "task" \/ t = js "object" -> sequence < d_sequence identity ->
  encodeDelta t i sequence patch = Ok payload ->
  exists text, encodeCanonicalJSON (patch_json patch) = Ok text /\
    readDelta payload identity = Some (t, i, sequence, text) /\ isStateDeltaPayload payload = true.
Proof.
  intros Ht Hs H. unfold encodeDelta in H. inv_result. exists a1. split; [done |].
  match goal with H : encodeUnsignedVarint _ _ = Ok _ |- _ => apply encodeUnsignedVarint_ok in H as [Hl ->] end.
  rewrite concatBytes_concat. cbn [concat]. rewrite app_nil_r.
  set (code := resourceCode t). set (P := [_; _; _; _] ++ _).
  split; [| unfold isStateDeltaPayload; apply bool_decide_true; done].
  unfold readDelta. assert (R0 : readRemaining (mkReader P 0) = P) by done.
  destruct (readByte_cons (mkReader P 0) _ _ R0) as [-> R1]. destruct (readByte_cons _ _ _ R1) as [-> R2].
  rewrite !bool_decide_true by done. cbn [andb negb].
  destruct (readByte_cons _ _ _ R2) as [-> R3]. destruct (readByte_cons _ _ _ R3) as [-> R4].
  destruct (readUTF8_written _ _ _ _ E R4) as (r5 & -> & R5); [intros Hnil; apply app_eq_nil in Hnil as [Hnil _]; by apply varint_digits_nonempty in Hnil |].
  destruct (readUnsignedVarint_digits r5 _ _ Hl R5) as (r6 & -> & R6 & _).
  rewrite bool_decide_true by done. unfold code. rewrite decodeResourceType_code by done.
  destruct (Z.leb_spec (d_sequence identity) sequence); [lia |]. by rewrite R6.
Qed.

Section delta.
Context {zlib : Zlib} {zlib_laws : ZlibLaws} {validators : Validators} {laws : ValidatorLaws}.

(** ** Publications with the same data *)

Lemma is_state_message_same v w : good v w -> is_state_message v = is_state_message w.
Proof using laws.
  intros H. unfold is_state_message. apply good_some in H. rewrite (isLinkMessage_proper _ _ H). f_equal.
  apply is_text_proper; [| done]. by apply member_of_proper.
Qed.

Lemma is_state_message_object v : is_state_message v = true -> exists m, v = JObject m.
Proof using. unfold is_state_message. intros [H _]%andb_true_iff. by apply link_message_object. Qed.

Lemma publication_same v w : good v w -> is_state_message v = true ->
  publication_type v = publication_type w /\ publication_id v = publication_id w.
Proof using.
  intros H Hs. destruct (is_state_message_object v Hs) as [m ->]. pose proof (good_shape _ _ H) as Hsh.
  destruct w as [| | | | | m']; try done. apply good_object in H as (_ & _ & Hf).
  split; [apply text_of_proper; by apply prop_same | by apply resourceID_same].
Qed.

Lemma publication_type_known v : is_state_message v = true ->
  publication_type v = js "entity" \/ publication_type v = js "task" \/ publication_type v = js "object".
Proof using.
  intros Hs. destruct (is_state_message_object v Hs) as [m ->]. unfold is_state_message in Hs.
  apply andb_true_iff in Hs as [Hv Ht]. destruct (resource_type_known m (state_message m Hv Ht)) as (a & Ha & E).
  change (publication_type (JObject m)) with (text_of (prop m "resource_type")). rewrite E. cbn in Ha. destruct Ha as [<- | [<- | [<- | []]]]; auto.
Qed.

Lemma same_serialization v w bs : good v w -> serializeLinkMessage v = Ok bs -> serializeLinkMessage w = Ok bs.
Proof using laws.
  intros H Hs. pose proof H as (_ & _ & Hj). unfold serializeLinkMessage in *.
  rewrite <- (isLinkMessage_proper _ _ (proj1 (good_some v w) H)). destruct (isLinkMessage (Some v)); [| done].
  apply (same_bytes (envelope v)); [done |]. by apply same_envelope.
Qed.

(** ** What a prepared delta says *)

Record prepared_delta (e : StateDeltaEncoder) (publication : json) (identity : StateDeltaIdentity)
    (p : PreparedStateDelta) (delta : list Z) (b : SenderBaseline) : Prop := {
  pd_identity : validateIdentity identity = Ok tt;
  pd_full : serializeLinkMessage publication = Ok (fullPayload p);
  pd_size : zlen (fullPayload p) <= MAX_LINK_MESSAGE_BYTES;
  pd_snapshot : deserializeLinkMessage (fullPayload p) = Ok (p_snapshot p);
  pd_state : is_state_message (p_snapshot p) = true;
  pd_scope : p_scope p = scopeKey identity (publication_type (p_snapshot p)) (publication_id (p_snapshot p));
  pd_baseline : jget (p_scope p) (e_baselines e) = Some b;
  pd_sequence : sb_sequence b < d_sequence identity;
  pd_number : baselineSourceSequence p = Some (sb_sequence b);
  pd_finite : finite_json (sb_publication b) = true /\ finite_json (p_snapshot p) = true;
  pd_delta : encodeDelta (publication_type (p_snapshot p)) (publication_id (p_snapshot p)) (sb_sequence b)
    (diffJSON (sb_publication b) (p_snapshot p) []) = Ok delta;
  pd_bound : zlen delta <= MAX_LINK_MESSAGE_BYTES
}.

Lemma prepare_delta e publication identity now p delta :
  prepare e publication identity now = Ok p -> deltaPayload p = Some delta ->
  exists b, prepared_delta e publication identity p delta b.
Proof using.
  unfold prepare. intros H Hd. destruct (validateIdentity identity) as [[] |] eqn:Hid; [| done]. cbn [bind_result] in H.
  destruct now as [now |]; [| done]. cbn [from_option bind_result] in H.
  destruct (serializeLinkMessage publication) as [full |] eqn:Hf; [| done]. cbn [bind_result] in H.
  destruct (zlen full <=? MAX_LINK_MESSAGE_BYTES) eqn:Hs; [| done].
  destruct (deserializeLinkMessage full) as [w |] eqn:Hw; [| done]. cbn [bind_result] in H.
  destruct (is_state_message w) eqn:Hm; [| done].
  destruct (jget _ (e_baselines e)) as [b |] eqn:Hb; [| by injection H as <-].
  destruct (_ || _) eqn:Hc; [by injection H as <- |]. unfold asJSONData, isJSONData in H.
  destruct (finite_json (sb_publication b)) eqn:F1; [| done]. cbn [bind_result] in H.
  destruct (finite_json w) eqn:F2; [| done]. cbn [bind_result] in H.
  destruct (encodeDelta _ _ _ _) as [bytes |] eqn:He; [| by injection H as <-]. unfold boundedDelta in H.
  destruct (zlen bytes <=? MAX_LINK_MESSAGE_BYTES) eqn:Hl; [| by injection H as <-].
  injection H as <-. cbn in Hd. injection Hd as <-. reflect_tests. exists b. by constructor.
Qed.

Lemma applyDelta_rebuilds base before after text t i full :
  wf_json before -> wf_json after -> finite_json before = true -> finite_json after = true ->
  good before (rb_publication base) -> encodeCanonicalJSON (patch_json (diffJSON before after [])) = Ok text ->
  is_state_message after = true -> publication_type after = t -> publication_id after = i ->
  serializeLinkMessage after = Ok full -> zlen full <= MAX_LINK_MESSAGE_BYTES ->
  exists w, applyDelta base t i text = Ok (Some w) /\ good after w.
Proof using laws.
  intros Wb Wa Fb Fa Hb He Hm <- <- Hs Hl.
  destruct (patch_rebuilds before after (rb_publication base) text) as (v & ops & d & Hv & Hp & Hd & Hg); [done .. |].
  exists d. split; [| done]. unfold applyDelta. rewrite Hv. cbn [bind_result]. rewrite Hp.
  unfold asJSONData, isJSONData. rewrite <- (finite_same before (rb_publication base)) by apply Hb.
  rewrite Fb. cbn [bind_result]. rewrite Hd. unfold isStatePublicationForIdentity.
  destruct (publication_same after d Hg Hm) as [Et Ei]. rewrite <- (is_state_message_same after d Hg), Hm, <- Et, <- Ei.
  rewrite !bool_decide_true by done. cbn [andb negb]. rewrite (same_serialization after d full Hg Hs). cbn [bind_result].
  destruct (Z.leb_spec (zlen full) MAX_LINK_MESSAGE_BYTES); [done | lia].
Qed.

(** C28: a delta means the publication it was made from. When [prepare] offers a
    delta for a publication, a receiver that holds, under the delta's scope and
    baseline sequence, a snapshot with the data of the sender's baseline (in its
    own member order) decodes from it the same data as from the full payload,
    and its cache does not change. A delta is never applied to another state
    than the one it was computed from: the sequence it carries precedes the
    publication's. *)
Theorem delta_means_publication e publication identity now p delta d base :
  wf_json publication -> prepare e publication identity now = Ok p -> deltaPayload p = Some delta ->
  (forall b, jget (p_scope p) (e_baselines e) = Some b ->
     good (sb_publication b) (rb_publication base) /\ rb_sequence base = sb_sequence b) ->
  find_baseline (jget (p_scope p) (r_baselines d)) (rb_sequence base) = Some base ->
  exists full w, deserializeLinkMessage (fullPayload p) = Ok full /\ same_json publication full /\
    decode d delta identity = (Some w, d) /\ same_json full w /\
    baselineSourceSequence p = Some (rb_sequence base) /\ rb_sequence base < d_sequence identity.
Proof using laws zlib_laws.
  intros Hw Hp Hd Hbase Hfind. destruct (prepare_delta _ _ _ _ _ _ Hp Hd) as [b []].
  destruct (Hbase b pd_baseline0) as [Hg Hseq]. destruct pd_finite0 as [F1 F2].
  destruct (deserialize_serialized publication (fullPayload p) Hw pd_full0) as (w0 & E0 & W0 & S0); [done |].
  assert (Hw0 : w0 = p_snapshot p) by congruence. subst w0.
  assert (Hser : serializeLinkMessage (p_snapshot p) = Ok (fullPayload p)).
  { apply (same_serialization publication); [by split | done]. }
  destruct (readDelta_encoded _ _ _ _ delta identity (publication_type_known _ pd_state0) pd_sequence0 pd_delta0)
    as (text & Et & Er & Em).
  destruct (applyDelta_rebuilds base (sb_publication b) (p_snapshot p) text (publication_type (p_snapshot p))
    (publication_id (p_snapshot p)) (fullPayload p)) as (w & Ea & Gw); try done; [apply Hg |].
  exists (p_snapshot p), w. split; [done |]. split; [done |]. rewrite Hseq. split; [| split; [apply Gw | done]].
  unfold decode. destruct (Z.eqb_spec (zlen delta) 0) as [Ez | _].
  { apply zlen_zero_nil in Ez. by subst. }
  destruct (Z.ltb_spec MAX_LINK_MESSAGE_BYTES (zlen delta)); [lia |]. cbn [orb].
  rewrite pd_identity0, Em. unfold decodeDelta. rewrite Er, <- pd_scope0, <- Hseq, Hfind, Ea. done.
Qed.
End delta.

(** ** The caches *)

Lemma jget_jevict {V} n (k : list Z) (v : V) m : jwf m -> jget k (jevict n m) = Some v -> jget k m = Some v.
Proof. intros Hw H%jget_elem_of%jevict_elem. by apply jget_of_elem. Qed.

(** The newest entry survives an eviction that keeps at least one. *)
Lemma jevict_newest {V} n (k : list Z) (v : V) m : 1 <= n -> jwf m -> jget k (jevict n (jset k v (jdel k m))) = Some v.
Proof.
  intros Hn Hw. assert (Habs : k ∉ jkeys (jdel k m)) by (apply jget_None; rewrite jget_jdel by done; by rewrite decide_True).
  apply jget_of_elem; [apply jevict_wf, jset_wf; by apply jdel_wf |]. rewrite jset_absent by done. unfold jevict.
  rewrite drop_app. apply elem_of_app. right.
  replace (Z.to_nat (jsize (jdel k m ++ [(k, v)]) - n) - length (jdel k m))%nat with 0%nat; [by left |].
  unfold jsize. rewrite zlen_app. unfold zlen. cbn [length]. lia.
Qed.

(** *** The sender *)

Record encoder_ok (e : StateDeltaEncoder) : Prop := {
  eo_wf : jwf (e_baselines e);
  eo_limit : 1 <= e_max e;
  eo_size : jsize (e_baselines e) <= e_max e
}.

(** What [commitFull] leaves of one scope: its entry was replaced by a newer
    one, was kept, or was evicted. *)
Lemma commitFull_spec p committed e at_ flag e' : encoder_ok e -> commitFull p committed e at_ = Ok (flag, e') ->
  encoder_ok e' /\ flag = true /\
  forall k b', jget k (e_baselines e') = Some b' ->
    jget k (e_baselines e) = Some b' \/
    (k = p_scope p /\ committed = false /\ sb_publication b' = p_snapshot p /\ sb_sequence b' = p_sequence p /\
     forall b, jget k (e_baselines e) = Some b -> sb_sequence b < sb_sequence b').
Proof.
  intros Hok. unfold commitFull. destruct at_ as [t |]; [| done]. cbn [from_option bind_result].
  destruct committed; [intros [= <- <-]; auto |].
  destruct (match jget (p_scope p) (e_baselines e) with Some _ => _ | None => false end) eqn:Hs; intros [= <- <-]; [auto |].
  destruct Hok as [Hw Hl Hsz]. cbn [e_baselines e_max].
  assert (Hw' : jwf (jset (p_scope p) (mkSender (p_snapshot p) (p_sequence p) t) (jdel (p_scope p) (e_baselines e)))).
  { apply jset_wf. by apply jdel_wf. }
  split; [constructor; cbn [e_baselines e_max]; [by apply jevict_wf | done | rewrite jsize_jevict; lia] |].
  split; [done |]. intros k b' Hk. apply jget_jevict in Hk; [| done]. rewrite jget_jset, jget_jdel in Hk by done.
  destruct (decide (k = p_scope p)) as [-> | Hne]; [| by left]. injection Hk as <-. right. repeat split.
  intros b Hb. rewrite Hb in Hs. cbn. by apply Z.leb_gt in Hs.
Qed.

(** The encoders the operations build. *)
Inductive encoder_reachable : StateDeltaEncoder -> Prop :=
  | er_new interval limit e : newEncoder interval limit = Ok e -> encoder_reachable e
  | er_commit p committed at_ flag e e' :
      encoder_reachable e -> commitFull p committed e at_ = Ok (flag, e') -> encoder_reachable e'.

Lemma positiveInteger_ok v name n : positiveInteger v name = Ok n -> n = v /\ 1 <= v.
Proof. unfold positiveInteger. intros H. inv_result. reflect_tests. split; [done | lia]. Qed.

Lemma encoder_reachable_ok e : encoder_reachable e -> encoder_ok e.
Proof.
  induction 1 as [interval limit e H | p committed at_ flag e e' _ IH H].
  - unfold newEncoder in H. inv_result.
    match goal with H : positiveInteger _ "baseline cache limit" = Ok _ |- _ => apply positiveInteger_ok in H as [-> ?] end.
    constructor; cbn [e_baselines e_max]; [constructor | done | by change (jsize []) with 0; lia].
  - by apply (commitFull_spec p committed e at_ flag e').
Qed.

(** The sender's baselines only move forward. In every encoder the
    operations can build, at most [maxResources] snapshots are kept, and a
    [commitFull] changes a scope's snapshot only to the one it was prepared
    with, and only to a strictly later source sequence: a late or repeated
    commit never brings an older snapshot back, so no delta is made against a
    state older than one already confirmed. *)
Theorem encoder_moves_forward e p committed at_ flag e' :
  encoder_reachable e -> commitFull p committed e at_ = Ok (flag, e') ->
  jsize (e_baselines e') <= e_max e' /\ e_max e' = e_max e /\
  (forall k b b', jget k (e_baselines e) = Some b -> jget k (e_baselines e') = Some b' ->
     b' = b \/ (k = p_scope p /\ sb_publication b' = p_snapshot p /\ sb_sequence b < sb_sequence b')) /\
  (forall b, committed = false -> jget (p_scope p) (e_baselines e) = Some b -> sb_sequence b < p_sequence p ->
     exists b', jget (p_scope p) (e_baselines e') = Some b' /\ sb_publication b' = p_snapshot p /\ sb_sequence b' = p_sequence p) /\
  commitFull p true e' at_ = Ok (true, e').
Proof.
  intros Hr H. apply encoder_reachable_ok in Hr. destruct (commitFull_spec _ _ _ _ _ _ Hr H) as (Hok & _ & Hk).
  split; [apply Hok |]. unfold commitFull in H |- *. destruct at_ as [t |]; [| done]. cbn [from_option bind_result] in *.
  split; [| split; [| split; [| done]]].
  - destruct committed; [by injection H as <- <- |]. by destruct (match jget _ _ with Some _ => _ | None => _ end); injection H as <- <-.
  - intros k b b' Hb Hb'. destruct (Hk k b' Hb') as [E | (-> & _ & Ep & _ & Es)]; [left; congruence | right]. by repeat split; [| apply Es].
  - intros b -> Hb Hlt. rewrite Hb in H. destruct (Z.leb_spec (p_sequence p) (sb_sequence b)); [lia |]. injection H as _ <-.
    cbn [e_baselines e_max]. eexists. split; [apply jevict_newest; [apply Hr | apply Hr] | done].
Qed.

(** *** The receiver *)

Definition full_key (x : json * StateDeltaIdentity) : list Z :=
  scopeKey (snd x) (publication_type (fst x)) (publication_id (fst x)).

Definition remember_all (d : StateDeltaDecoder) (l : list (json * StateDeltaIdentity)) : StateDeltaDecoder :=
  fold_left (fun d x => rememberFull d (fst x) (snd x)) l d.

(** What a scope's memory must be after the full publications [received], each
    with its sequence: the latest and, if there are two sequences, the next
    latest. *)
Definition retains (scope : option ReceiverScope) (received : list (json * Z)) : Prop :=
  match scope with
  | None => received = []
  | Some s => exists newest, latest s = Some newest /\
      (rb_publication newest, rb_sequence newest) ∈ received /\
      (forall x, x ∈ received -> snd x <= rb_sequence newest) /\
      match previous s with
      | None => forall x, x ∈ received -> snd x = rb_sequence newest
      | Some p => (rb_publication p, rb_sequence p) ∈ received /\ rb_sequence p < rb_sequence newest /\
          forall x, x ∈ received -> snd x = rb_sequence newest \/ snd x <= rb_sequence p
      end
  end.

(** The scope's memory after one more full publication, the eviction aside. *)
Definition remembered (scope : option ReceiverScope) (incoming : ReceiverBaseline) : ReceiverScope :=
  match scope with
  | Some s =>
      match latest s with
      | None => mkScope (Some incoming) None
      | Some newest =>
          if rb_sequence incoming =? rb_sequence newest then s
          else if rb_sequence incoming <? rb_sequence newest then
            if match previous s with Some p => rb_sequence p <? rb_sequence incoming | None => true end
            then mkScope (Some newest) (Some incoming) else s
          else mkScope (Some incoming) (Some newest)
      end
  | None => mkScope (Some incoming) None
  end.

Lemma retains_remembered scope received publication sequence : retains scope received ->
  retains (Some (remembered scope (mkReceiver publication sequence))) (received ++ [(publication, sequence)]).
Proof.
  assert (Hsnoc : forall x, x ∈ received ++ [(publication, sequence)] <-> x ∈ received \/ x = (publication, sequence))
    by (intros x; rewrite elem_of_app, list_elem_of_singleton; done).
  intros H. unfold retains, remembered in *. destruct scope as [[l p] |].
  - destruct H as (newest & El & Hin & Hmax & Hp). cbn [latest previous rb_sequence] in *. subst l.
    destruct (Z.eqb_spec sequence (rb_sequence newest)) as [-> | Hne].
    { exists newest. cbn [latest previous]. split; [done |]. split; [apply Hsnoc; by left |]. split.
      - intros x [Hx | ->]%Hsnoc; [by apply Hmax | cbn; lia].
      - destruct p as [p |].
        + destruct Hp as (Hpin & Hlt & Hle). split; [apply Hsnoc; by left |]. split; [done |].
          intros x [Hx | ->]%Hsnoc; [by apply Hle | by left].
        + intros x [Hx | ->]%Hsnoc; [by apply Hp | done]. }
    destruct (Z.ltb_spec sequence (rb_sequence newest)) as [Hlt | Hge].
    + destruct (match p with Some p => rb_sequence p <? sequence | None => true end) eqn:Ep;
        exists newest; cbn [latest previous rb_publication rb_sequence]; (split; [done |]); (split; [apply Hsnoc; by left |]);
        (split; [intros x [Hx | ->]%Hsnoc; [by apply Hmax | cbn; lia] |]).
      * split; [apply Hsnoc; by right |]. split; [done |]. intros x [Hx | ->]%Hsnoc; [| right; cbn; lia].
        destruct p as [p |]; [| left; by apply Hp]. apply Z.ltb_lt in Ep. destruct Hp as (_ & _ & Hle).
        destruct (Hle x Hx); [by left | right; lia].
      * destruct p as [p |]; [| done]. apply Z.ltb_ge in Ep. destruct Hp as (Hpin & Hl & Hle).
        split; [apply Hsnoc; by left |]. split; [done |]. intros x [Hx | ->]%Hsnoc; [by apply Hle | by right].
    + exists (mkReceiver publication sequence). cbn [latest previous rb_publication rb_sequence].
      split; [done |]. split; [apply Hsnoc; by right |].
      split; [intros x [Hx | ->]%Hsnoc; [pose proof (Hmax x Hx); lia | cbn; lia] |].
      split; [apply Hsnoc; by left |]. split; [lia |]. intros x [Hx | ->]%Hsnoc; [right; by apply Hmax | by left].
  - subst received. exists (mkReceiver publication sequence). cbn. split; [done |]. split; [by left |].
    split; intros x ->%list_elem_of_singleton; cbn; lia.
Qed.

(** The three ways the map changes: not at all, in place, or with the scope
    moved to the end before an eviction. *)
Lemma rememberFull_cases d x : let d' := rememberFull d (fst x) (snd x) in
  let after := remembered (jget (full_key x) (r_baselines d)) (mkReceiver (fst x) (d_sequence (snd x))) in
  r_max d' = r_max d /\
  ((r_baselines d' = r_baselines d /\ jget (full_key x) (r_baselines d) = Some after) \/
   (r_baselines d' = jset (full_key x) after (r_baselines d) /\ full_key x ∈ jkeys (r_baselines d)) \/
   r_baselines d' = jevict (r_max d) (jset (full_key x) after (jdel (full_key x) (r_baselines d)))).
Proof.
  unfold rememberFull, remembered. fold (full_key x).
  destruct (jget (full_key x) (r_baselines d)) as [[l p] |] eqn:Eg; cbn [latest previous rb_sequence].
  - pose proof (jget_key _ _ _ Eg) as Hin. destruct l as [newest |]; [| by eauto].
    destruct (_ =? _); [by eauto |]. destruct (_ <? _); [| by eauto].
    destruct (match p with Some _ => _ | None => _ end); by eauto 6.
  - eauto.
Qed.

Lemma rememberFull_scope d x : jwf (r_baselines d) ->
  jsize (jset (full_key x) (mkScope None None) (r_baselines d)) <= r_max d ->
  let d' := rememberFull d (fst x) (snd x) in
  r_max d' = r_max d /\ jwf (r_baselines d') /\
  (forall k, k ∈ jkeys (r_baselines d') -> k = full_key x \/ k ∈ jkeys (r_baselines d)) /\
  forall k, jget k (r_baselines d') =
    if decide (k = full_key x) then Some (remembered (jget k (r_baselines d)) (mkReceiver (fst x) (d_sequence (snd x))))
    else jget k (r_baselines d).
Proof.
  intros Hw Hs d'. destruct (rememberFull_cases d x) as [Hm Hc]. fold d' in Hm, Hc. split; [done |].
  destruct Hc as [[-> Ek] | [[-> Ein] | Ed]].
  - split; [done |]. split; [by right |]. intros k. case_decide; [by subst | done].
  - split; [by apply jset_wf |]. split; [intros k; by rewrite elem_of_jkeys_jset |].
    intros k. rewrite jget_jset. case_decide; by subst.
  - rewrite jevict_noop in Ed.
    + rewrite Ed. split; [by apply jset_wf, jdel_wf |]. split.
      * intros k [-> | H]%elem_of_jkeys_jset; [by left | right; by apply elem_of_jkeys_jdel_weak in H].
      * intros k. rewrite jget_jset, jget_jdel by done. case_decide; by subst.
    + rewrite jsize_jset_absent by (apply jget_None; rewrite jget_jdel by done; by rewrite decide_True).
      destruct (decide (full_key x ∈ jkeys (r_baselines d))) as [Hin | Hn].
      * rewrite jsize_jset_present in Hs by done. rewrite jsize_jdel_present by done. lia.
      * rewrite jsize_jset_absent in Hs by done. by rewrite jdel_absent.
Qed.

(** The full publications of one scope, with their sequences. *)
Definition received (k : list Z) (l : list (json * StateDeltaIdentity)) : list (json * Z) :=
  map (fun x => (fst x, d_sequence (snd x))) (List.filter (fun x => bool_decide (full_key x = k)) l).

Lemma jsize_keys {V} (m : list (list Z * V)) (ks : list (list Z)) : jwf m -> (forall k, k ∈ jkeys m -> k ∈ ks) -> jsize m <= zlen ks.
Proof.
  intros Hw H. unfold jsize, zlen. replace (length m) with (length (jkeys m)) by apply length_map.
  apply inj_le, NoDup_incl_length; [by apply NoDup_ListNoDup |]. intros k Hk. apply list_elem_of_In, H, list_elem_of_In, Hk.
Qed.

(** C35: the receiver keeps the two newest snapshots of every resource. After
    any sequence of full publications over at most [maxResources] scopes, in
    whatever order and with whatever repetitions they arrive, the memory of each
    scope is exactly: nothing if none arrived, else a publication that arrived
    with the greatest source sequence, and, if another sequence arrived, one
    with the greatest sequence below it. So a delta against either of the two
    newest full publications can be applied. *)
Theorem receiver_keeps_two_newest limit d l ks k :
  newDecoder limit = Ok d -> Forall (fun x => full_key x ∈ ks) l -> zlen ks <= r_max d ->
  retains (jget k (r_baselines (remember_all d l))) (received k l).
Proof.
  intros Hd Hl Hks. assert (H : forall l, Forall (fun x => full_key x ∈ ks) l -> let d' := remember_all d l in
    r_max d' = r_max d /\ jwf (r_baselines d') /\ (forall k, k ∈ jkeys (r_baselines d') -> k ∈ ks) /\
    forall k, retains (jget k (r_baselines d')) (received k l)); [| by apply H].
  clear l Hl. induction l as [| x l IH] using rev_ind; intros Hl.
  - unfold newDecoder in Hd. inv_result. split; [done |]. split; [constructor |]. split; [by intros ? ?%elem_of_nil | done].
  - apply Forall_app in Hl as [Hl Hx]. apply list.Forall_cons in Hx as [Hx _]. destruct (IH Hl) as (Hm & Hw & Hk & Hr).
    unfold remember_all. rewrite fold_left_app. cbn [fold_left]. fold (remember_all d l).
    destruct (rememberFull_scope (remember_all d l) x Hw) as (Hm' & Hw' & Hk' & Hg).
    { rewrite Hm. etransitivity; [| exact Hks]. apply jsize_keys; [by apply jset_wf |].
      intros k' [-> | Hin]%elem_of_jkeys_jset; [done | by apply Hk]. }
    split; [congruence |]. split; [done |]. split; [intros k' Hin; destruct (Hk' k' Hin) as [-> | ?]; auto |].
    intros k'. rewrite Hg. unfold received. rewrite List.filter_app, map_app. cbn [List.filter].
    destruct (decide (k' = full_key x)) as [-> | Hne].
    + rewrite bool_decide_true by done. cbn [map]. apply retains_remembered, Hr.
    + rewrite bool_decide_false by congruence. rewrite app_nil_r. apply Hr.
Qed.

(** ** One exchange, evaluated

    A sender commits a first snapshot, the receiver remembers it, and the next
    publication travels as a delta. *)

Definition or_else {A} (a : A) (m : result A) : A := match m with Ok x => x | Throw _ => a end.

Definition moved_publication : list (list Z * json) :=
  jset (js "observation_time") (JString (js "2026-01-01T00:00:05Z")) (jset (js "runtime_id") (JString (js "r")) sample_publication).

Definition sample_identity (sequence : Z) : StateDeltaIdentity := mkDeltaIdentity (mkNode asset (js "a1")) 1 (js "s") sequence.

Definition no_encoder : StateDeltaEncoder := mkEncoder [] 15000 64.
Definition no_prepared : PreparedStateDelta := mkPrepared [] None None [] JNull 0.

Definition sample_prepare (e : StateDeltaEncoder) (m : list (list Z * json)) (sequence now : Z) : PreparedStateDelta :=
  or_else no_prepared (prepare (zlib := stored_zlib) (validators := sample_validators) e (JObject m) (sample_identity sequence) (Some now)).

Definition first_prepared : PreparedStateDelta := Eval vm_compute in sample_prepare no_encoder sample_publication 1 0.
Definition sender : StateDeltaEncoder := Eval vm_compute in snd (or_else (true, no_encoder) (commitFull first_prepared false no_encoder (Some 0))).
Definition next_prepared : PreparedStateDelta := Eval vm_compute in sample_prepare sender moved_publication 2 1000.
Definition sample_delta : list Z := Eval vm_compute in default [] (deltaPayload next_prepared).
Definition receiver : StateDeltaDecoder := Eval vm_compute in
  snd (decode (zlib := stored_zlib) (validators := sample_validators) (mkDecoder [] 64) (fullPayload first_prepared) (sample_identity 1)).
Definition sample_baseline : ReceiverBaseline := Eval vm_compute in
  default (mkReceiver JNull 0) (find_baseline (jget (p_scope next_prepared) (r_baselines receiver)) 1).

Lemma moved_publication_wf : wf_json (JObject moved_publication).
Proof. apply wf_object_jset; [apply wf_object_jset; [exact sample_publication_wf | | constructor] | | constructor]; apply (bool_decide_unpack _); by vm_compute. Qed.

Lemma sample_baseline_good : good (rb_publication sample_baseline) (rb_publication sample_baseline).
Proof.
  assert (wf_json (rb_publication sample_baseline)); [| by split].
  destruct (deserialize_serialized (zlib := stored_zlib) (zlib_laws := stored_laws) (laws := sample_validators_laws)
    (JObject sample_publication) (fullPayload first_prepared) sample_publication_wf) as (w & E & W & _); [vm_compute; reflexivity | vm_compute; discriminate |].
  replace (rb_publication sample_baseline) with w; [done |]. vm_compute in E. by injection E as <-.
Qed.

Lemma delta_means_publication_witness :
  zlen sample_delta < zlen (fullPayload next_prepared) /\
  exists full w, deserializeLinkMessage (zlib := stored_zlib) (validators := sample_validators) (fullPayload next_prepared) = Ok full /\
    same_json (JObject moved_publication) full /\
    decode (zlib := stored_zlib) (validators := sample_validators) receiver sample_delta (sample_identity 2) = (Some w, receiver) /\
    same_json full w /\
    baselineSourceSequence next_prepared = Some (rb_sequence sample_baseline) /\ rb_sequence sample_baseline < d_sequence (sample_identity 2).
Proof.
  split; [vm_compute; reflexivity |].
  apply (delta_means_publication (zlib := stored_zlib) (zlib_laws := stored_laws) (validators := sample_validators) (laws := sample_validators_laws)
    sender (JObject moved_publication) (sample_identity 2) (Some 1000) next_prepared sample_delta receiver sample_baseline).
  - exact moved_publication_wf.
  - vm_compute. reflexivity.
  - reflexivity.
  - intros b Hb. vm_compute in Hb. injection Hb as <-. split; [exact sample_baseline_good | reflexivity].
  - vm_compute. reflexivity.
Defined.

Lemma encoder_moves_forward_witness :
  encoder_reachable no_encoder /\ commitFull first_prepared false no_encoder (Some 0) = Ok (true, sender) /\
  jsize (e_baselines sender) <= e_max sender /\ e_max sender = e_max no_encoder /\
  (forall k b b', jget k (e_baselines no_encoder) = Some b -> jget k (e_baselines sender) = Some b' ->
     b' = b \/ (k = p_scope first_prepared /\ sb_publication b' = p_snapshot first_prepared /\ sb_sequence b < sb_sequence b')) /\
  (forall b, false = false -> jget (p_scope first_prepared) (e_baselines no_encoder) = Some b -> sb_sequence b < p_sequence first_prepared ->
     exists b', jget (p_scope first_prepared) (e_baselines sender) = Some b' /\ sb_publication b' = p_snapshot first_prepared /\
       sb_sequence b' = p_sequence first_prepared) /\
  commitFull first_prepared true sender (Some 0) = Ok (true, sender).
Proof.
  assert (Hr : encoder_reachable no_encoder) by (apply (er_new None None); reflexivity).
  assert (Hc : commitFull first_prepared false no_encoder (Some 0) = Ok (true, sender)) by (vm_compute; reflexivity).
  split; [exact Hr |]. split; [exact Hc |]. apply (encoder_moves_forward no_encoder first_prepared false (Some 0) true sender Hr Hc).
Defined.

Definition three_fulls : list (json * StateDeltaIdentity) :=
  [(JObject sample_publication, sample_identity 5); (JObject moved_publication, sample_identity 3); (JObject moved_publication, sample_identity 4)].

Lemma receiver_keeps_two_newest_witness :
  find_baseline (jget (p_scope first_prepared) (r_baselines (remember_all (mkDecoder [] 64) three_fulls))) 4 =
    Some (mkReceiver (JObject moved_publication) 4) /\
  retains (jget (p_scope first_prepared) (r_baselines (remember_all (mkDecoder [] 64) three_fulls)))
    (received (p_scope first_prepared) three_fulls).
Proof.
  split; [vm_compute; reflexivity |].
  apply (receiver_keeps_two_newest None (mkDecoder [] 64) three_fulls [p_scope first_prepared]).
  - reflexivity.
  - apply (bool_decide_unpack _). vm_compute. reflexivity.
  - vm_compute. discriminate.
Defined.
