(* ===== verification/Picture.v ===== *)
(** * The shared picture ([picture.ts])

    The records a node knows of the resources around it, fed by state
    publications from many sources, and the event log its clients follow. *)

From Stdlib Require Import ZArith Lia String.
From stdpp Require Import base list option.
From S2P Require Import Prelude JsMap Wtf8 Json CompactValue LinkTypes Frame Instants Contract.

Open Scope string_scope.
Open Scope list_scope.
Open Scope Z_scope.

Inductive PictureFreshness := fresh | stale | degraded.
#[export] Instance PictureFreshness_eq_dec : EqDecision PictureFreshness.
Proof. solve_decision. Defined.

Record PictureRecord := mkRecord {
  pr_type : list Z;
  pr_id : list Z;
  pr_state : json;
  pr_source : LinkNode;
  pr_generation : Z;
  pr_session : list Z;
  pr_sequence : Z;
  pr_source_asset : option (list Z);
  pr_runtime : option (list Z);
  pr_operation : option (list Z);
  pr_observation : list Z;
  pr_received : Z;
  pr_version : option Z;
  pr_freshness : PictureFreshness;
  pr_path : list Z;
  pr_confirmation : list Z
}.

Definition with_freshness (r : PictureRecord) (f : PictureFreshness) : PictureRecord :=
  mkRecord (pr_type r) (pr_id r) (pr_state r) (pr_source r) (pr_generation r) (pr_session r) (pr_sequence r)
    (pr_source_asset r) (pr_runtime r) (pr_operation r) (pr_observation r) (pr_received r) (pr_version r) f
    (pr_path r) (pr_confirmation r).

Record PictureTombstone := mkTombstone {
  pt_version : Z;
  pt_confirmation : list Z;
  pt_source : LinkNode;
  pt_generation : Z;
  pt_session : list Z;
  pt_sequence : Z
}.

Inductive PictureEventType := upsert | went_stale | remove.

Record PictureEvent := mkEvent {
  ev_session : list Z;
  ev_revision : Z;
  ev_type : PictureEventType;
  ev_key : list Z;
  ev_record : option PictureRecord
}.

Inductive Rejection := stale_source | stale_sequence | stale_record | capacity.
Inductive PictureApplyResult := applied | rejected (reason : Rejection).

Record PictureApplyContext := mkContext {
  cx_source : LinkNode;
  cx_generation : Z;
  cx_session : list Z;
  cx_sequence : Z;
  cx_received : Z
}.

Record SourcePosition := mkPosition { sp_generation : Z; sp_session : list Z }.

Record RecordSourceSequence := mkSequence {
  rs_source : list Z;
  rs_generation : Z;
  rs_session : list Z;
  rs_sequence : Z;
  rs_received : Z
}.

Definition RECORD_SOURCE_SEQUENCE_REPLAY_MS : Z := 10 * 60000.
Definition RECORD_SOURCE_SEQUENCE_LIMIT : Z := 4096.
Definition PICTURE_ENTRY_LIMIT : Z := 4096.
Definition PICTURE_RETAINED_BYTES_LIMIT : Z := 16 * 1024 * 1024.
Definition PICTURE_LISTENER_LIMIT : Z := 1024.
Definition PICTURE_EVENT_BYTES_LIMIT : Z := 8 * 1024 * 1024.

(** ** Sizes *)

Definition node_json (n : LinkNode) : json :=
  JObject [(js "role", JString (match role n with asset => js "asset" | gateway => js "gateway" end)); (js "id", JString (id n))].

Definition freshness_text (f : PictureFreshness) : list Z :=
  match f with fresh => js "fresh" | stale => js "stale" | degraded => js "degraded" end.

(** [...(v === undefined ? {} : { k: v })] *)
Definition member_if {A} (k : string) (v : option A) (f : A -> json) : list (list Z * json) :=
  match v with None => [] | Some v => [(js k, f v)] end.

Definition record_json (r : PictureRecord) : json :=
  JObject (
    [(js "resource_type", JString (pr_type r)); (js "id", JString (pr_id r)); (js "state", pr_state r);
     (js "source", node_json (pr_source r)); (js "source_generation", json_int (pr_generation r));
     (js "service_session", JString (pr_session r)); (js "source_sequence", json_int (pr_sequence r))] ++
    member_if "source_asset_id" (pr_source_asset r) JString ++
    member_if "runtime_id" (pr_runtime r) JString ++
    member_if "operation_id" (pr_operation r) JString ++
    [(js "observation_time", JString (pr_observation r)); (js "received_at", json_int (pr_received r))] ++
    member_if "atlas_version" (pr_version r) json_int ++
    [(js "freshness", JString (freshness_text (pr_freshness r))); (js "path", JString (pr_path r));
     (js "confirmation", JString (pr_confirmation r))]).

Definition tombstone_json (t : PictureTombstone) : json :=
  JObject [(js "atlasVersion", json_int (pt_version t)); (js "confirmation", JString (pt_confirmation t));
           (js "source", node_json (pt_source t)); (js "sourceGeneration", json_int (pt_generation t));
           (js "serviceSession", JString (pt_session t)); (js "sourceSequence", json_int (pt_sequence t))].

Definition event_type_text (t : PictureEventType) : list Z :=
  match t with upsert => js "upsert" | went_stale => js "stale" | remove => js "remove" end.

Definition event_json (e : PictureEvent) : json :=
  JObject (
    [(js "type", JString (event_type_text (ev_type e))); (js "key", JString (ev_key e))] ++
    member_if "record" (ev_record e) record_json ++
    [(js "session", JString (ev_session e)); (js "revision", json_int (ev_revision e))]).

(** [Buffer.byteLength(JSON.stringify(value))] *)
Definition retainedBytes (v : json) : Z := zlen (encodeBinaryUtf8 (stringify v)).

(** A record is counted as if it were degraded, the longest freshness. *)
Definition retainedRecordBytes (r : PictureRecord) : Z := retainedBytes (record_json (with_freshness r degraded)).
Definition retainedTombstoneBytes (t : PictureTombstone) : Z := retainedBytes (tombstone_json t).

(** ** State *)

Record Entries := mkEntries {
  records : list (list Z * PictureRecord);
  tombstones : list (list Z * PictureTombstone);
  entryBytes : list (list Z * Z);
  retainedEntryBytes : Z
}.

Record Sources := mkSources {
  sources : list (list Z * SourcePosition);
  assetConnectivity : list (list Z * (bool * option Z));
  recordSourceSequences : list (list Z * RecordSourceSequence)
}.

(** The events with their sizes, and who is told of them. *)
Record EventLog := mkLog {
  revision : Z;
  events : list (PictureEvent * Z);
  retainedEventBytes : Z;
  listeners : list Z;
  delivered : list (Z * PictureEvent)
}.

Record SharedPicture := mkPicture {
  session : list Z;
  eventBufferLimit : Z;
  entries : Entries;
  known : Sources;
  log : EventLog
}.

Definition with_entries (p : SharedPicture) (e : Entries) : SharedPicture :=
  mkPicture (session p) (eventBufferLimit p) e (known p) (log p).
Definition with_known (p : SharedPicture) (k : Sources) : SharedPicture :=
  mkPicture (session p) (eventBufferLimit p) (entries p) k (log p).
Definition with_log (p : SharedPicture) (l : EventLog) : SharedPicture :=
  mkPicture (session p) (eventBufferLimit p) (entries p) (known p) l.
Definition with_sequences (k : Sources) (m : list (list Z * RecordSourceSequence)) : Sources :=
  mkSources (sources k) (assetConnectivity k) m.
Definition with_connectivity (k : Sources) (m : list (list Z * (bool * option Z))) : Sources :=
  mkSources (sources k) m (recordSourceSequences k).

Definition newPicture (session : list Z) (eventBufferLimit : Z) : result SharedPicture :=
  guard! negb (bool_decide (session = [])) else TypeError "picture session must not be empty" in
  guard! isSafeInteger eventBufferLimit && negb (eventBufferLimit <? 1) else RangeError "event buffer must be positive" in
  Ok (mkPicture session eventBufferLimit (mkEntries [] [] [] 0) (mkSources [] [] []) (mkLog 0 [] 0 [] [])).

(** ** Entries *)

Definition retainEntrySize (e : Entries) (key : list Z) (bytes : Z) : Entries :=
  mkEntries (records e) (tombstones e) (jset key bytes (entryBytes e))
    (retainedEntryBytes e - default 0 (jget key (entryBytes e)) + bytes).

Definition retainRecord (e : Entries) (key : list Z) (record : PictureRecord) : Entries :=
  let e := retainEntrySize e key (retainedRecordBytes record) in
  mkEntries (jset key record (records e)) (jdel key (tombstones e)) (entryBytes e) (retainedEntryBytes e).

Definition retainTombstone (e : Entries) (key : list Z) (tombstone : PictureTombstone) : Entries :=
  let e := retainEntrySize e key (retainedTombstoneBytes tombstone) in
  mkEntries (jdel key (records e)) (jset key tombstone (tombstones e)) (entryBytes e) (retainedEntryBytes e).

Definition removeRecord (e : Entries) (key : list Z) : Entries :=
  mkEntries (jdel key (records e)) (tombstones e) (jdel key (entryBytes e))
    (retainedEntryBytes e - default 0 (jget key (entryBytes e))).

Definition canRetain (e : Entries) (key : list Z) (bytes : Z) : bool :=
  let currentBytes := default 0 (jget key (entryBytes e)) in
  if (currentBytes =? 0) && (PICTURE_ENTRY_LIMIT <=? jsize (entryBytes e)) then false
  else retainedEntryBytes e - currentBytes + bytes <=? PICTURE_RETAINED_BYTES_LIMIT.

(** ** Events *)

(** [while (events.length > limit || retainedEventBytes > ...) shift] *)
Fixpoint trim (limit : Z) (evs : list (PictureEvent * Z)) (retained : Z) : list (PictureEvent * Z) * Z :=
  match evs with
  | [] => ([], retained)
  | (_, bytes) :: rest =>
      if (limit <? zlen evs) || (PICTURE_EVENT_BYTES_LIMIT <? retained) then trim limit rest (retained - bytes)
      else (evs, retained)
  end.

Section emit.
(** Whether a listener throws on an event; it does not call the picture back. *)
Context (throws : Z -> PictureEvent -> bool).

(** Every listener is told; one that throws is removed. *)
Definition dispatch (l : EventLog) (e : PictureEvent) : EventLog :=
  mkLog (revision l) (events l) (retainedEventBytes l) (List.filter (fun f => negb (throws f e)) (listeners l))
    (delivered l ++ map (fun f => (f, e)) (listeners l)).

Definition store (limit : Z) (l : EventLog) (e : PictureEvent) : EventLog :=
  let bytes := retainedBytes (event_json e) in
  if PICTURE_EVENT_BYTES_LIMIT <? bytes then mkLog (ev_revision e) [] 0 (listeners l) (delivered l)
  else
    let '(evs, retained) := trim limit (events l ++ [(e, bytes)]) (retainedEventBytes l + bytes) in
    mkLog (ev_revision e) evs retained (listeners l) (delivered l).

Definition emit (p : SharedPicture) (type : PictureEventType) (key : list Z) (record : option PictureRecord) : SharedPicture :=
  let e := mkEvent (session p) (revision (log p) + 1) type key record in
  with_log p (dispatch (store (eventBufferLimit p) (log p) e) e).

(** ** Reading a publication and a record *)

Definition isTerminalTask (task : json) : bool :=
  isOneOf (member_of (Some task) "status") ["completed"; "failed"; "cancelled"].

Definition is_task (type : list Z) : bool := bool_decide (type = js "task").
Definition is_entity (type : list Z) : bool := bool_decide (type = js "entity").

Definition state_text (r : PictureRecord) (k : string) : list Z := text_of (member_of (Some (pr_state r)) k).

Definition sameNode (a b : LinkNode) : bool := bool_decide (role a = role b) && bool_decide (id a = id b).

Definition sourceKey (n : LinkNode) : list Z :=
  (match role n with asset => js "asset" | gateway => js "gateway" end) ++ js ":" ++ id n.

Definition pub_type (m : list (list Z * json)) : list Z := text_of (prop m "resource_type").
Definition pub_deleted (m : list (list Z * json)) : bool := is_true (prop m "deleted").
Definition pub_confirmation (m : list (list Z * json)) : list Z := text_of (prop m "confirmation").
Definition pub_resource (m : list (list Z * json)) : json := default JNull (prop m "resource").
Definition pub_observation (m : list (list Z * json)) : list Z := text_of (prop m "observation_time").

Definition resourceVersion (m : list (list Z * json)) : option Z :=
  if pub_deleted m then json_integer (prop m "atlas_version")
  else if is_task (pub_type m) then None
  else match json_integer (prop m "atlas_version") with
       | Some v => Some v
       | None => json_integer (member_of (member_of (prop m "resource") "metadata") "version")
       end.

Definition confirmationRank (confirmation : list Z) : Z :=
  if bool_decide (confirmation = js "core_confirmed") || bool_decide (confirmation = js "core_rejected") then 2 else 1.

(** [Date.parse(a) > Date.parse(b)], [>=]: false when one is [NaN]. *)
Definition later (a b : list Z) : bool :=
  match Date_parse a, Date_parse b with Some x, Some y => y <? x | _, _ => false end.
Definition not_earlier (a b : list Z) : bool :=
  match Date_parse a, Date_parse b with Some x, Some y => y <=? x | _, _ => false end.

Definition same_session (current : PictureRecord) (cx : PictureApplyContext) : bool :=
  sameNode (pr_source current) (cx_source cx) && (pr_generation current =? cx_generation cx) &&
  bool_decide (pr_session current = cx_session cx).

Definition isNewer (m : list (list Z * json)) (current : PictureRecord) (cx : PictureApplyContext) : bool :=
  let newerSourceGeneration := sameNode (pr_source current) (cx_source cx) && (pr_generation current <? cx_generation cx) in
  let nextRank := confirmationRank (pub_confirmation m) in
  let currentRank := confirmationRank (pr_confirmation current) in
  match resourceVersion m, pr_version current with
  | Some next, Some version =>
      if negb (next =? version) then version <? next
      else if currentRank <? nextRank then true
      else if nextRank <? currentRank then later (pub_observation m) (pr_observation current)
      else if newerSourceGeneration then not_earlier (pub_observation m) (pr_observation current)
      else if same_session current cx then pr_sequence current <? cx_sequence cx
      else later (pub_observation m) (pr_observation current)
  | _, _ =>
      if is_task (pub_type m) && is_task (pr_type current) then
        if currentRank <? nextRank then true
        else
          let next := text_of (member_of (prop m "resource") "updated_at") in
          let now := state_text current "updated_at" in
          match Date_parse next, Date_parse now with
          | Some x, Some y =>
              if negb (x =? y) then y <? x
              else if newerSourceGeneration then true
              else if nextRank <? currentRank then false
              else same_session current cx && (pr_sequence current <? cx_sequence cx)
          | _, _ => false
          end
      else true
  end.

Definition canReplaceTombstone (m : list (list Z * json)) (t : PictureTombstone) : bool :=
  match resourceVersion m with
  | None => false
  | Some version =>
      if negb (version =? pt_version t) then pt_version t <? version
      else confirmationRank (pt_confirmation t) <? confirmationRank (pub_confirmation m)
  end.

Definition sourceAssetID (m : list (list Z * json)) (source : LinkNode) : option (list Z) :=
  if pub_deleted m then None
  else match role source with
       | asset => Some (id source)
       | gateway =>
           if is_task (pub_type m) then Some (text_of (member_of (prop m "resource") "asset_id"))
           else if is_entity (pub_type m) && is_text (member_of (prop m "resource") "entity_type") "asset"
           then Some (text_of (member_of (prop m "resource") "entity_id")) else None
       end.

Definition is_asset_record (r : PictureRecord) : bool :=
  is_entity (pr_type r) && is_text (member_of (Some (pr_state r)) "entity_type") "asset".

Definition truthy (v : option json) : bool := match v with Some JNull | None => false | Some _ => true end.

(** [(staleAfterMs, removeAfterMs)] *)
Definition freshnessThresholds (r : PictureRecord) : option Z * option Z :=
  if is_task (pr_type r) then if isTerminalTask (pr_state r) then (None, Some (10 * 60000)) else (None, None)
  else if is_entity (pr_type r) && isOneOf (member_of (Some (pr_state r)) "entity_type") ["asset"; "track"] then
    let components := member_of (Some (pr_state r)) "components" in
    if truthy (member_of components "telemetry") || truthy (member_of components "health") then (Some 30000, Some 120000)
    else if truthy (member_of components "geometry") then (Some 5000, Some 30000) else (None, None)
  else (None, None).


(** The Task records of an asset are told of its loss or return. *)
Definition is_open_task_of (assetID : list Z) (r : PictureRecord) : bool :=
  is_task (pr_type r) && negb (isTerminalTask (pr_state r)) &&
  match member_of (Some (pr_state r)) "asset_id" with
  | Some (JString s) => bool_decide (s = assetID)
  | _ => false
  end.

Definition markTask (assetID : list Z) (connected : bool) (p : SharedPicture) (key : list Z) : SharedPicture :=
  let freshness := if connected then fresh else degraded in
  match jget key (records (entries p)) with
  | Some record =>
      if is_open_task_of assetID record && negb (bool_decide (pr_freshness record = freshness)) then
        let updated := with_freshness record freshness in
        emit (with_entries p (retainRecord (entries p) key updated)) (if connected then upsert else went_stale) key (Some updated)
      else p
  | None => p
  end.

Definition setConnected (k : Sources) (assetID : list Z) (connected : bool) : Sources :=
  match jget assetID (assetConnectivity k) with
  | Some (_, at_) => with_connectivity k (jset assetID (connected, at_) (assetConnectivity k))
  | None => k
  end.

Definition markSourceConnectivity (p : SharedPicture) (source : LinkNode) (connected : bool) : SharedPicture :=
  match role source with
  | gateway => p
  | asset =>
      let p := with_known p (setConnected (known p) (id source) connected) in
      fold_left (markTask (id source) connected) (jkeys (records (entries p))) p
  end.

Definition degradeTasksForExpiredAsset (p : SharedPicture) (r : PictureRecord) : SharedPicture :=
  if is_asset_record r
  then markSourceConnectivity p (mkNode asset (state_text r "entity_id")) false
  else p.

(** ** Sources *)

Definition activateSource (p : SharedPicture) (source : LinkNode) (generation : Z) (session : list Z)
    : result (bool * SharedPicture) :=
  guard! isSafeInteger generation && negb (generation <? 0) && negb (bool_decide (session = []))
    else TypeError "source activation requires a generation and service session" in
  let key := sourceKey source in
  let current := jget key (sources (known p)) in
  let outdated :=
    match current with
    | Some c => (generation <? sp_generation c) || ((generation =? sp_generation c) && negb (bool_decide (session = sp_session c)))
    | None => LINK_SOURCE_IDENTITY_LIMIT <=? jsize (sources (known p))
    end in
  if outdated then Ok (false, p)
  else
    let unknown := bool_decide (role source = asset) && negb (jhas (id source) (assetConnectivity (known p))) in
    if unknown && (LINK_SOURCE_IDENTITY_LIMIT <=? jsize (assetConnectivity (known p))) then Ok (false, p)
    else
      let p :=
        if unknown
        then with_known p (with_connectivity (known p) (jset (id source) (false, None) (assetConnectivity (known p))))
        else p in
      match current with
      | Some c =>
          if (generation =? sp_generation c) && bool_decide (session = sp_session c) then Ok (true, p)
          else
            let p :=
              if sp_generation c <? generation then
                let p := markSourceConnectivity p source false in
                with_known p (with_sequences (known p)
                  (jretain (fun _ s => negb (bool_decide (rs_source s = key))) (recordSourceSequences (known p))))
              else p in
            Ok (true, with_known p (mkSources (jset key (mkPosition generation session) (sources (known p)))
                                      (assetConnectivity (known p)) (recordSourceSequences (known p))))
      | None =>
          Ok (true, with_known p (mkSources (jset key (mkPosition generation session) (sources (known p)))
                                    (assetConnectivity (known p)) (recordSourceSequences (known p))))
      end.

Definition acceptSource (p : SharedPicture) (cx : PictureApplyContext) : result (option Rejection * SharedPicture) :=
  if negb (jhas (sourceKey (cx_source cx)) (sources (known p))) && (LINK_SOURCE_IDENTITY_LIMIT <=? jsize (sources (known p)))
  then Ok (Some capacity, p)
  else
    let! (accepted, p) := activateSource p (cx_source cx) (cx_generation cx) (cx_session cx) in
    Ok ((if accepted then None else Some stale_source), p).

Definition pruneRecordSourceSequences (p : SharedPicture) (now : Z) : SharedPicture :=
  with_known p (with_sequences (known p)
    (jretain (fun _ s => negb (RECORD_SOURCE_SEQUENCE_REPLAY_MS <=? now - rs_received s)) (recordSourceSequences (known p)))).

Definition connectivityAssetID (p : SharedPicture) (m : list (list Z * json)) (cx : PictureApplyContext)
    (current : option PictureRecord) : option (list Z) :=
  if pub_deleted m then
    match current with
    | Some r =>
        if is_asset_record r then Some (pr_id r)
        else if negb (is_entity (pub_type m)) then None
        else if jhas (text_of (prop m "resource_id")) (assetConnectivity (known p)) then Some (text_of (prop m "resource_id")) else None
    | None =>
        if negb (is_entity (pub_type m)) then None
        else if jhas (text_of (prop m "resource_id")) (assetConnectivity (known p)) then Some (text_of (prop m "resource_id")) else None
    end
  else match role (cx_source cx) with
       | asset => Some (id (cx_source cx))
       | gateway =>
           if is_entity (pub_type m) && is_text (member_of (prop m "resource") "entity_type") "asset"
           then Some (text_of (member_of (prop m "resource") "entity_id")) else None
       end.

Definition canAdmitAsset (p : SharedPicture) (assetID : list Z) : bool :=
  jhas assetID (assetConnectivity (known p)) || (jsize (assetConnectivity (known p)) <? LINK_SOURCE_IDENTITY_LIMIT).

Definition taskFreshness (p : SharedPicture) (task : json) (current : option PictureRecord) : PictureFreshness :=
  let kept := match current with
              | Some r => if is_task (pr_type r) && negb (bool_decide (pr_freshness r = fresh)) then Some (pr_freshness r) else None
              | None => None
              end in
  let assetID := text_of (member_of (Some task) "asset_id") in
  let assetKey := js "entity:" ++ assetID in
  if isTerminalTask task then fresh
  else match kept with
       | Some f => f
       | None =>
           if match jget assetKey (records (entries p)) with
              | Some r => negb (bool_decide (pr_freshness r = fresh))
              | None => false
              end then degraded
           else if jhas assetKey (tombstones (entries p)) then degraded
           else match jget assetID (assetConnectivity (known p)) with
                | Some (false, _) => degraded
                | _ => fresh
                end
       end.

(** ** Applying a publication *)

Definition recordKey (m : list (list Z * json)) : list Z := pub_type m ++ js ":" ++ resourceID m.
Definition recordSourceKey (m : list (list Z * json)) (cx : PictureApplyContext) : list Z :=
  recordKey m ++ 0 :: sourceKey (cx_source cx).

Definition new_tombstone (m : list (list Z * json)) (cx : PictureApplyContext) : PictureTombstone :=
  mkTombstone (default 0 (json_integer (prop m "atlas_version"))) (pub_confirmation m) (cx_source cx) (cx_generation cx)
    (cx_session cx) (cx_sequence cx).

Definition new_record (m : list (list Z * json)) (cx : PictureApplyContext) (freshness : PictureFreshness) : PictureRecord :=
  mkRecord (pub_type m) (resourceID m) (pub_resource m) (cx_source cx) (cx_generation cx) (cx_session cx) (cx_sequence cx)
    (sourceAssetID m (cx_source cx)) (json_string (prop m "runtime_id")) (json_string (prop m "operation_id"))
    (pub_observation m) (cx_received cx) (resourceVersion m) freshness (text_of (prop m "path")) (pub_confirmation m).

Definition sequence_seen (seen : option RecordSourceSequence) (cx : PictureApplyContext) : bool :=
  match seen with
  | Some s => (rs_generation s =? cx_generation cx) && bool_decide (rs_session s = cx_session cx) && (cx_sequence cx <=? rs_sequence s)
  | None => false
  end.

Definition record_seen (current : option PictureRecord) (cx : PictureApplyContext) : bool :=
  match current with Some r => same_session r cx && (cx_sequence cx <=? pr_sequence r) | None => false end.

Definition tombstone_seen (tombstone : option PictureTombstone) (cx : PictureApplyContext) : bool :=
  match tombstone with
  | Some t => sameNode (pt_source t) (cx_source cx) && (pt_generation t =? cx_generation cx) &&
              bool_decide (pt_session t = cx_session cx) && (cx_sequence cx <=? pt_sequence t)
  | None => false
  end.

Definition set_sequence (p : SharedPicture) (key : list Z) (s : RecordSourceSequence) : SharedPicture :=
  with_known p (with_sequences (known p) (jset key s (recordSourceSequences (known p)))).

(** [rejectCapacity]: the sequence entry is put back as it was. *)
Definition rejectCapacity (p : SharedPicture) (key : list Z) (was : option RecordSourceSequence) : PictureApplyResult * SharedPicture :=
  (rejected capacity,
   match was with
   | Some s => set_sequence p key s
   | None => with_known p (with_sequences (known p) (jdel key (recordSourceSequences (known p))))
   end).

Definition replaceable (p : SharedPicture) (m : list (list Z * json)) : bool :=
  match jget (recordKey m) (tombstones (entries p)) with Some t => canReplaceTombstone m t | None => true end.

(** [apply] on a deletion, its sequence accepted. *)
Definition applyDeletion (p : SharedPicture) (m : list (list Z * json)) (cx : PictureApplyContext)
    (was : option RecordSourceSequence) (current : option PictureRecord) (connectivity : option (list Z))
    : PictureApplyResult * SharedPicture :=
  let key := recordKey m in
  if negb (replaceable p m) then (rejected stale_record, p)
  else
    let tombstone := new_tombstone m cx in
    if negb (canRetain (entries p) key (retainedTombstoneBytes tombstone)) then rejectCapacity p (recordSourceKey m cx) was
    else
      let p := match current with Some r => degradeTasksForExpiredAsset p r | None => p end in
      let p := with_entries p (retainTombstone (entries p) key tombstone) in
      let p := match connectivity with Some a => markSourceConnectivity p (mkNode asset a) false | None => p end in
      (applied, match current with Some _ => emit p remove key None | None => p end).

(** [apply] on a resource, its sequence accepted. *)
Definition applyResource (p : SharedPicture) (m : list (list Z * json)) (cx : PictureApplyContext)
    (was : option RecordSourceSequence) (current : option PictureRecord) (connectivity : option (list Z))
    : PictureApplyResult * SharedPicture :=
  let key := recordKey m in
  if negb (replaceable p m) then (rejected stale_record, p)
  else
    let record := new_record m cx (if is_task (pub_type m) then taskFreshness p (pub_resource m) current else fresh) in
    if negb (canRetain (entries p) key (retainedRecordBytes record)) then rejectCapacity p (recordSourceKey m cx) was
    else
      let p := with_entries p (retainRecord (entries p) key record) in
      let p := match connectivity with
               | Some a => with_known p (with_connectivity (known p) (jset a (true, Some (cx_received cx)) (assetConnectivity (known p))))
               | None => p
               end in
      let p := emit p upsert key (Some record) in
      (applied, match connectivity with Some a => markSourceConnectivity p (mkNode asset a) true | None => p end).

Definition apply (p : SharedPicture) (m : list (list Z * json)) (cx : PictureApplyContext)
    : result (PictureApplyResult * SharedPicture) :=
  let key := recordKey m in
  let current := jget key (records (entries p)) in
  let connectivity := connectivityAssetID p m cx current in
  if match connectivity with Some a => negb (canAdmitAsset p a) | None => false end then Ok (rejected capacity, p)
  else
    let! (rejection, p) := acceptSource p cx in
    match rejection with
    | Some reason => Ok (rejected reason, p)
    | None =>
        let p := pruneRecordSourceSequences p (cx_received cx) in
        let was := jget (recordSourceKey m cx) (recordSourceSequences (known p)) in
        if sequence_seen was cx then Ok (rejected stale_sequence, p)
        else if negb (jhas (recordSourceKey m cx) (recordSourceSequences (known p))) &&
                (RECORD_SOURCE_SEQUENCE_LIMIT <=? jsize (recordSourceSequences (known p)))
        then Ok (rejected capacity, p)
        else
          let p := set_sequence p (recordSourceKey m cx)
                     (mkSequence (sourceKey (cx_source cx)) (cx_generation cx) (cx_session cx) (cx_sequence cx) (cx_received cx)) in
          if record_seen current cx then Ok (rejected stale_sequence, p)
          else if tombstone_seen (jget key (tombstones (entries p))) cx then Ok (rejected stale_sequence, p)
          else if match current with Some r => negb (isNewer m r cx) | None => false end then Ok (rejected stale_record, p)
          else if pub_deleted m then Ok (applyDeletion p m cx was current connectivity)
          else Ok (applyResource p m cx was current connectivity)
    end.

(** ** Time *)

Definition reached (limit : option Z) (age : Z) : bool := match limit with Some l => l <=? age | None => false end.

Definition refreshAsset (now : Z) (p : SharedPicture) (assetID : list Z) : SharedPicture :=
  match jget assetID (assetConnectivity (known p)) with
  | Some (true, Some at_) => if 30000 <=? now - at_ then markSourceConnectivity p (mkNode asset assetID) false else p
  | _ => p
  end.

Definition refreshRecord (now : Z) (p : SharedPicture) (key : list Z) : SharedPicture :=
  match jget key (records (entries p)) with
  | None => p
  | Some record =>
      let age := now - pr_received record in
      let '(staleAfterMs, removeAfterMs) := freshnessThresholds record in
      if reached removeAfterMs age then
        let p := degradeTasksForExpiredAsset p record in
        emit (with_entries p (removeRecord (entries p) key)) remove key None
      else if reached staleAfterMs age && bool_decide (pr_freshness record = fresh) then
        let p := degradeTasksForExpiredAsset p record in
        let expired := with_freshness record stale in
        emit (with_entries p (retainRecord (entries p) key expired)) went_stale key (Some expired)
      else p
  end.

Definition refresh (p : SharedPicture) (now : Z) : SharedPicture :=
  let p := pruneRecordSourceSequences p now in
  let p := fold_left (refreshAsset now) (jkeys (assetConnectivity (known p))) p in
  fold_left (refreshRecord now) (jkeys (records (entries p))) p.
End emit.

(** ** Readers *)

(** [compare] is [String.prototype.localeCompare], the host's collation. *)
Section snapshot.
Context (compare : list Z -> list Z -> Z).

Definition comparePictureRecords (a b : PictureRecord) : Z :=
  let byType := compare (pr_type a) (pr_type b) in
  if byType =? 0 then compare (pr_id a) (pr_id b) else byType.

(** [Array.prototype.sort], stable. *)
Fixpoint insert_record (r : PictureRecord) (l : list PictureRecord) : list PictureRecord :=
  match l with
  | [] => [r]
  | x :: l' => if comparePictureRecords x r <=? 0 then x :: insert_record r l' else r :: l
  end.

Definition sort_records (l : list PictureRecord) : list PictureRecord := fold_left (fun acc r => insert_record r acc) l [].

Definition snapshot (p : SharedPicture) : list Z * Z * list PictureRecord :=
  (session p, revision (log p), sort_records (jvalues (records (entries p)))).
End snapshot.

(** [PictureCursorError] *)
Definition cursor_ok (p : SharedPicture) (session_ : list Z) (cursor : Z) : bool :=
  bool_decide (session_ = session p) && isSafeInteger cursor && negb (cursor <? 0) && negb (revision (log p) <? cursor).

Definition earliest (p : SharedPicture) : Z :=
  match events (log p) with [] => revision (log p) + 1 | (e, _) :: _ => ev_revision e end.

Definition eventsAfter (p : SharedPicture) (session_ : list Z) (cursor : Z) : result (list PictureEvent) :=
  guard! cursor_ok p session_ cursor else PlainError "picture cursor belongs to another service session or is invalid" in
  guard! negb (cursor <? earliest p - 1) else PlainError "picture cursor expired; read a new snapshot" in
  Ok (List.filter (fun e => cursor <? ev_revision e) (map fst (events (log p)))).

Definition with_listeners (p : SharedPicture) (ls : list Z) : SharedPicture :=
  with_log p (mkLog (revision (log p)) (events (log p)) (retainedEventBytes (log p)) ls (delivered (log p))).

Definition addListener (p : SharedPicture) (listener : Z) : result SharedPicture :=
  let has := bool_decide (listener ∈ listeners (log p)) in
  guard! has || (zlen (listeners (log p)) <? PICTURE_LISTENER_LIMIT) else RangeError "picture subscriber capacity exhausted" in
  Ok (if has then p else with_listeners p (listeners (log p) ++ [listener])).

Definition subscribe (p : SharedPicture) (listener : Z) : result SharedPicture := addListener p listener.

(** The function [subscribe] returns. *)
Definition unsubscribe (p : SharedPicture) (listener : Z) : SharedPicture :=
  with_listeners p (List.filter (fun l => negb (l =? listener)) (listeners (log p))).

Definition subscribeAfter (p : SharedPicture) (session_ : list Z) (cursor : Z) (listener : Z)
    : result (list PictureEvent * SharedPicture) :=
  let! replay := eventsAfter p session_ cursor in
  let! p := addListener p listener in
  Ok (replay, p).
