(* ===== verification/PictureFacts.v ===== *)
(** * What the shared picture keeps

    The invariants of [SharedPicture]: its memory accounting is exact and
    bounded, its event log is a contiguous run of revisions, and the events a
    client reads after a snapshot reproduce the records. *)

From Stdlib Require Import ZArith Lia String.
From stdpp Require Import base list option list_numbers relations.
From S2P Require Import Prelude JsMap Wtf8 Json CompactValue LinkTypes Frame Instants Contract Picture.

Open Scope string_scope.
Open Scope list_scope.
Open Scope Z_scope.

(** ** Byte totals *)

Fixpoint total (l : list Z) : Z := match l with [] => 0 | n :: l => n + total l end.

Lemma total_app l k : total (l ++ k) = total l + total k.
Proof. induction l; cbn; lia. Qed.

Section totals.
Context {K : Type} `{EqDecision K}.
Implicit Types m : list (K * Z).

Lemma total_jset k b m : total (jvalues (jset k b m)) = total (jvalues m) - default 0 (jget k m) + b.
Proof. induction m as [| [k' b'] m IH]; cbn; [lia |]. case_decide; cbn -[default]; [cbn |]; unfold jvalues in *; lia. Qed.

Lemma total_jdel k m : total (jvalues (jdel k m)) = total (jvalues m) - default 0 (jget k m).
Proof. induction m as [| [k' b'] m IH]; cbn; [lia |]. case_decide; cbn -[default]; [cbn |]; unfold jvalues in *; lia. Qed.
End totals.

Lemma jset_same {K V} `{EqDecision K} (k : K) (v : V) m : jget k m = Some v -> jset k v m = m.
Proof. induction m as [| [k' v'] m IH]; cbn; [done |]. case_decide; [by intros [= ->] | intros Hm; by rewrite IH]. Qed.

Lemma fold_left_kept {A B} (P : A -> Prop) (f : A -> B -> A) l a :
  P a -> (forall a b, P a -> P (f a b)) -> P (fold_left f l a).
Proof. intros Ha Hf. revert a Ha. induction l as [| b l IH]; cbn; auto. Qed.

Lemma utf8_nonempty u s : 0 < zlen (encodeBinaryUtf8 (u :: s)).
Proof.
  assert (Hcp : forall cp k, 0 < zlen (encode_codePoint cp ++ k)).
  { intros cp k. unfold encode_codePoint. pose proof (zlen_nonneg k). destruct (_ <=? _); [| destruct (_ <=? _); [| destruct (_ <=? _)]];
    unfold zlen; cbn [app length]; lia. }
  cbn. destruct s as [| second s].
  - rewrite <- (app_nil_r (encode_codePoint u)). apply Hcp.
  - case_match; apply Hcp.
Qed.

Lemma object_bytes_positive members : 0 < retainedBytes (JObject members).
Proof. apply (utf8_nonempty 123). Qed.

#[local] Arguments jvalues : simpl never.
#[local] Arguments jkeys : simpl never.
#[local] Arguments jset : simpl never.
#[local] Arguments jdel : simpl never.

(** ** The entries *)

Definition unaged (r : PictureRecord) : PictureRecord := with_freshness r fresh.

Lemma recordBytes_unaged r r' : unaged r = unaged r' -> retainedRecordBytes r = retainedRecordBytes r'.
Proof.
  unfold retainedRecordBytes, unaged, with_freshness. intros E. f_equal. f_equal.
  by injection E as -> -> -> -> -> -> -> -> -> -> -> -> -> -> ->.
Qed.

Lemma with_freshness_unaged r r' f : unaged r = unaged r' -> with_freshness r f = with_freshness r' f.
Proof.
  intros E. change (with_freshness r f) with (with_freshness (unaged r) f). by rewrite E.
Qed.

(** The size an entry is accounted with. *)
Definition entry_size (e : Entries) (k : list Z) : option Z :=
  match jget k (records e) with
  | Some r => Some (retainedRecordBytes r)
  | None => retainedTombstoneBytes <$> jget k (tombstones e)
  end.

Record entries_ok (e : Entries) : Prop := {
  eo_records : jwf (records e);
  eo_tombstones : jwf (tombstones e);
  eo_bytes : jwf (entryBytes e);
  eo_disjoint : forall k r, jget k (records e) = Some r -> jget k (tombstones e) = None;
  eo_sizes : forall k, jget k (entryBytes e) = entry_size e k;
  eo_total : retainedEntryBytes e = total (jvalues (entryBytes e))
}.

Definition entries_bounded (e : Entries) : Prop :=
  jsize (entryBytes e) <= PICTURE_ENTRY_LIMIT /\ retainedEntryBytes e <= PICTURE_RETAINED_BYTES_LIMIT.

Lemma entry_size_positive e k n : entry_size e k = Some n -> 0 < n.
Proof.
  unfold entry_size. destruct (jget k (records e)); [intros [= <-]; apply object_bytes_positive |].
  destruct (jget k (tombstones e)); cbn; [intros [= <-]; apply object_bytes_positive | done].
Qed.

Lemma retainRecord_ok e k r : entries_ok e -> entries_ok (retainRecord e k r).
Proof.
  intros H. constructor; cbn.
  - apply jset_wf, H.
  - apply jdel_wf, H.
  - apply jset_wf, H.
  - intros k' r'. rewrite jget_jset, jget_jdel by apply H. case_decide; [done |]. apply (eo_disjoint _ H).
  - intros k'. unfold entry_size; cbn. rewrite !jget_jset, jget_jdel by apply H. case_decide; [done |].
    apply (eo_sizes _ H).
  - rewrite total_jset, (eo_total _ H). done.
Qed.

Lemma retainTombstone_ok e k t : entries_ok e -> entries_ok (retainTombstone e k t).
Proof.
  intros H. constructor; cbn.
  - apply jdel_wf, H.
  - apply jset_wf, H.
  - apply jset_wf, H.
  - intros k' r'. rewrite jget_jset, jget_jdel by apply H. case_decide; [done |]. apply (eo_disjoint _ H).
  - intros k'. unfold entry_size; cbn. rewrite !jget_jset, jget_jdel by apply H. case_decide; [done |].
    apply (eo_sizes _ H).
  - rewrite total_jset, (eo_total _ H). done.
Qed.

Lemma removeRecord_ok e k r : entries_ok e -> jget k (records e) = Some r -> entries_ok (removeRecord e k).
Proof.
  intros H Hk. constructor; cbn.
  - apply jdel_wf, H.
  - apply H.
  - apply jdel_wf, H.
  - intros k' r'. rewrite jget_jdel by apply H. case_decide; [done |]. apply (eo_disjoint _ H).
  - intros k'. unfold entry_size; cbn. rewrite !jget_jdel by apply H. case_decide as E.
    + subst k'. by rewrite (eo_disjoint _ H _ _ Hk).
    + apply (eo_sizes _ H).
  - rewrite total_jdel, (eo_total _ H). done.
Qed.

(** [canRetain] is what keeps the bounds. *)
Lemma retainEntrySize_bounded e k n :
  entries_ok e -> entries_bounded e -> canRetain e k n = true -> entries_bounded (retainEntrySize e k n).
Proof.
  intros H [Hn Hb]. unfold canRetain, entries_bounded. cbn.
  case_match eqn:E; [done |]. intros Hc. reflect_tests. split; [| lia].
  destruct (jget k (entryBytes e)) as [b |] eqn:Hk.
  - rewrite jsize_jset_present by (by eapply jget_key). done.
  - cbn in E. pose proof (jsize_jset_le k n (entryBytes e)).
    apply jget_None in Hk. rewrite jsize_jset_absent by done. lia.
Qed.

(** ** The event log *)

(** Events carry consecutive revisions, the last one [last]. *)
Definition numbered (last : Z) (evs : list PictureEvent) : Prop :=
  map ev_revision evs = seqZ (last - zlen evs + 1) (zlen evs).

Lemma numbered_nil last : numbered last [].
Proof. done. Qed.

Lemma numbered_snoc last evs e : numbered last evs -> ev_revision e = last + 1 -> numbered (last + 1) (evs ++ [e]).
Proof.
  unfold numbered. intros H He. rewrite map_app, H, zlen_app, seqZ_app by apply zlen_nonneg.
  change (zlen [e]) with 1. f_equal; [f_equal; lia |]. rewrite seqZ_cons by lia. cbn [map]. rewrite He.
  f_equal. lia.
Qed.

Lemma numbered_suffix last a b : numbered last (a ++ b) -> numbered last b.
Proof.
  unfold numbered. rewrite map_app, zlen_app, seqZ_app by apply zlen_nonneg. intros H.
  apply app_inj_1 in H as [_ ->]; [f_equal; lia |]. rewrite length_map, length_seqZ. unfold zlen. lia.
Qed.

Lemma numbered_elem last evs e : numbered last evs -> e ∈ evs -> last - zlen evs < ev_revision e <= last.
Proof.
  intros H He. assert (Hi : ev_revision e ∈ seqZ (last - zlen evs + 1) (zlen evs)).
  { rewrite <- H. apply list_elem_of_fmap. by exists e. }
  apply elem_of_seqZ in Hi. lia.
Qed.

Record log_ok (session_ : list Z) (limit : Z) (l : EventLog) : Prop := {
  lo_revision : 0 <= revision l;
  lo_numbered : numbered (revision l) (map fst (events l));
  lo_sessions : Forall (fun p => ev_session (fst p) = session_) (events l);
  lo_sizes : Forall (fun p => snd p = retainedBytes (event_json (fst p))) (events l);
  lo_total : retainedEventBytes l = total (map snd (events l));
  lo_limit : zlen (events l) <= limit;
  lo_bytes : retainedEventBytes l <= PICTURE_EVENT_BYTES_LIMIT;
  lo_listeners : NoDup (listeners l) /\ zlen (listeners l) <= PICTURE_LISTENER_LIMIT
}.

Lemma trim_spec limit evs retained evs' retained' :
  trim limit evs retained = (evs', retained') -> retained = total (map snd evs) -> 0 <= limit ->
  (exists gone, evs = gone ++ evs') /\ retained' = total (map snd evs') /\ zlen evs' <= limit /\
  retained' <= PICTURE_EVENT_BYTES_LIMIT.
Proof.
  revert retained. induction evs as [| [e bytes] evs IH]; intros retained.
  - intros [= <- <-] -> Hl. split; [by exists [] |]. done.
  - cbn [trim]. case_match eqn:E.
    + intros Ht Hr Hl. cbn in Hr. destruct (IH _ Ht) as ((gone & ->) & Hrest); [lia | done |].
      split; [by exists ((e, bytes) :: gone) | done].
    + intros [= <- <-] Hr Hl. reflect_tests. split; [by exists [] |]. done.
Qed.

Section facts.
Context (throws : Z -> PictureEvent -> bool).

Lemma dispatch_listeners l e : NoDup (listeners l) ->
  NoDup (listeners (dispatch throws l e)) /\ zlen (listeners (dispatch throws l e)) <= zlen (listeners l).
Proof.
  intros H. cbn. split.
  - induction (listeners l) as [| x ls IH]; cbn; [constructor |]. apply list.NoDup_cons in H as [Hx H].
    case_match; [| auto]. constructor; [| auto]. rewrite list_elem_of_In, List.filter_In, <- list_elem_of_In. by intros [? _].
  - unfold zlen. pose proof (List.filter_length_le (fun f => negb (throws f e)) (listeners l)). lia.
Qed.

(** What [store] does to the log of an event that takes the next revision. *)
Lemma store_ok session_ limit l e :
  log_ok session_ limit l -> 0 <= limit -> ev_session e = session_ -> ev_revision e = revision l + 1 ->
  log_ok session_ limit (store limit l e) /\ suffix (map fst (events (store limit l e))) (map fst (events l) ++ [e]) /\
  revision (store limit l e) = revision l + 1.
Proof.
  intros H Hlimit Hs Hr. unfold store. destruct (_ <? _) eqn:Hbig.
  - cbn. split_and!; [| by eexists (_ ++ [_]); rewrite app_nil_r | done].
    constructor; cbn; try done; [rewrite Hr; pose proof (lo_revision _ _ _ H); lia | apply H].
  - destruct (trim _ _ _) as [evs retained] eqn:Ht.
    apply trim_spec in Ht as ((gone & Hgone) & -> & Hlen & Hbytes); [| | done].
    2:{ rewrite map_app, total_app, (lo_total _ _ _ H). cbn. lia. }
    assert (Hfst : map fst (events l) ++ [e] = map fst gone ++ map fst evs) by (rewrite <- map_app, <- Hgone, map_app; done).
    cbn. split_and!; [| by exists (map fst gone) | done].
    constructor; cbn; try done.
    + pose proof (lo_revision _ _ _ H). lia.
    + rewrite Hr. apply (numbered_suffix _ (map fst gone)). rewrite <- Hfst. apply numbered_snoc; [apply H | done].
    + assert (Hall : Forall (fun p => ev_session (fst p) = session_) (gone ++ evs)).
      { rewrite <- Hgone. apply list.Forall_app; split; [apply H | by repeat constructor]. }
      by apply list.Forall_app in Hall as [_ ?].
    + assert (Hall : Forall (fun p => snd p = retainedBytes (event_json (fst p))) (gone ++ evs)).
      { rewrite <- Hgone. apply list.Forall_app; split; [apply H | by repeat constructor]. }
      by apply list.Forall_app in Hall as [_ ?].
    + apply H.
Qed.

Lemma dispatch_ok session_ limit l e : log_ok session_ limit l -> log_ok session_ limit (dispatch throws l e).
Proof.
  intros [? ? ? ? ? ? ? [Hn Hl]]. destruct (dispatch_listeners l e Hn). constructor; try done. split; [done | lia].
Qed.

(** ** A client that follows the events *)

(** What an event does to a client's records. *)
Definition observe (view : list Z -> option PictureRecord) (e : PictureEvent) : list Z -> option PictureRecord :=
  fun k => if decide (k = ev_key e) then match ev_type e with remove => None | _ => ev_record e end else view k.

Definition replay (view : list Z -> option PictureRecord) (evs : list PictureEvent) := fold_left observe evs view.

Definition view (p : SharedPicture) : list Z -> option PictureRecord := fun k => jget k (records (entries p)).

Lemma replay_ext v v' evs k : (forall k, v k = v' k) -> replay v evs k = replay v' evs k.
Proof.
  revert v v'. induction evs as [| e evs IH]; intros v v' H; [apply H |].
  apply IH. intros k'. unfold observe. case_decide; auto.
Qed.

Lemma replay_app v evs evs' : replay v (evs ++ evs') = replay (replay v evs) evs'.
Proof. apply fold_left_app. Qed.

(** The events [evs] lead a client from the records of [p] to those of [p']. *)
Record follows (p p' : SharedPicture) (evs : list PictureEvent) : Prop := {
  fo_session : session p' = session p;
  fo_limit : eventBufferLimit p' = eventBufferLimit p;
  fo_revision : revision (log p') = revision (log p) + zlen evs;
  fo_view : forall k, view p' k = replay (view p) evs k;
  fo_log : suffix (map fst (events (log p'))) (map fst (events (log p)) ++ evs)
}.

Definition picture_log (p : SharedPicture) : Prop := log_ok (session p) (eventBufferLimit p) (log p).

(** [p'] keeps a sound log and clients of [p] can follow to it. *)
Definition advances (p p' : SharedPicture) : Prop := picture_log p -> picture_log p' /\ exists evs, follows p p' evs.

Lemma follows_trans p p' p'' evs evs' : follows p p' evs -> follows p' p'' evs' -> follows p p'' (evs ++ evs').
Proof.
  intros [S1 L1 R1 V1 [g1 G1]] [S2 L2 R2 V2 [g2 G2]]. constructor; [congruence | congruence | rewrite zlen_app; lia | |].
  - intros k. rewrite replay_app, V2. by apply replay_ext.
  - exists (g1 ++ g2). rewrite (assoc app), G1, <- !(assoc app). by rewrite G2.
Qed.

Lemma advances_refl p : advances p p.
Proof.
  intros H. split; [done |]. exists []. constructor; try done; [rewrite zlen_nil; lia |]. exists []. by rewrite app_nil_r.
Qed.

Lemma advances_trans p p' p'' : advances p p' -> advances p' p'' -> advances p p''.
Proof.
  intros H1 H2 H. destruct (H1 H) as [H' [evs F]]. destruct (H2 H') as [H'' [evs' F']].
  split; [done |]. eexists. by eapply follows_trans.
Qed.

Lemma follows_known p p' evs k : follows p p' evs -> follows p (with_known p' k) evs.
Proof. intros []. by constructor. Qed.

(** A change of the known sources is not an event. *)
Lemma advances_known p k : advances p (with_known p k).
Proof. intros H. destruct (advances_refl p H) as [? [evs []]]. split; [done |]. by exists evs. Qed.

(** Entries that differ from a client's by one event, and that event. *)
Lemma emit_follows p e type key record :
  (forall k, jget k (records e) = observe (view p) (mkEvent (session p) (revision (log p) + 1) type key record) k) ->
  picture_log p ->
  picture_log (emit throws (with_entries p e) type key record) /\
  follows p (emit throws (with_entries p e) type key record) [mkEvent (session p) (revision (log p) + 1) type key record].
Proof.
  intros He H. set (ev := mkEvent (session p) (revision (log p) + 1) type key record).
  destruct (store_ok (session p) (eventBufferLimit p) (log p) ev) as (Hok & Hlog & Hrev); [done | | done | done |].
  { pose proof (lo_limit _ _ _ H). pose proof (zlen_nonneg (events (log p))). lia. }
  split; [by apply dispatch_ok |]. constructor; [done | done | exact Hrev | exact He | exact Hlog].
Qed.

Lemma emit_advances p e type key record :
  (forall k, jget k (records e) = observe (view p) (mkEvent (session p) (revision (log p) + 1) type key record) k) ->
  advances p (emit throws (with_entries p e) type key record).
Proof. intros He H. destruct (emit_follows p e type key record He H). eauto. Qed.

(** Following from a state with other records, when the events settle the
    difference. *)
Lemma follows_from p1 p2 p3 evs :
  session p2 = session p1 -> eventBufferLimit p2 = eventBufferLimit p1 -> log p2 = log p1 ->
  (forall k, replay (view p1) evs k = replay (view p2) evs k) -> follows p2 p3 evs -> follows p1 p3 evs.
Proof.
  intros Hs Hl Hlog Hv [S L R V G]. constructor; [congruence | congruence | congruence | | by rewrite <- Hlog].
  intros k. by rewrite Hv, V.
Qed.

Lemma replay_local v v' evs k : v k = v' k -> replay v evs k = replay v' evs k.
Proof.
  revert v v'. induction evs as [| e evs IH]; intros v v' H; [done |]. apply IH. unfold observe. by rewrite H.
Qed.

(** ** Ageing: records whose freshness alone changes *)

Record aged (p p' : SharedPicture) : Prop := {
  ag_keys : jkeys (records (entries p')) = jkeys (records (entries p));
  ag_records : forall k, unaged <$> view p' k = unaged <$> view p k;
  ag_tombstones : tombstones (entries p') = tombstones (entries p);
  ag_bytes : entryBytes (entries p') = entryBytes (entries p);
  ag_total : retainedEntryBytes (entries p') = retainedEntryBytes (entries p)
}.

Lemma aged_refl p : aged p p.
Proof. by constructor. Qed.

Lemma aged_trans p p' p'' : aged p p' -> aged p' p'' -> aged p p''.
Proof. intros A B. constructor; intros; (etrans; [apply B | apply A]). Qed.

Lemma aged_known p p' k : aged p p' -> aged p (with_known p' k).
Proof. intros []. by constructor. Qed.

Lemma aged_record p p' k r : aged p p' -> view p k = Some r -> exists r', view p' k = Some r' /\ unaged r' = unaged r.
Proof.
  intros A Hr. pose proof (ag_records _ _ A k) as E. rewrite Hr in E. destruct (view p' k) as [r' |]; [| done].
  exists r'. split; [done |]. by apply (inj Some) in E.
Qed.

Lemma aged_absent p p' k : aged p p' -> view p k = None <-> view p' k = None.
Proof. intros A. pose proof (ag_records _ _ A k) as E. destruct (view p k), (view p' k); cbn in E; split; congruence. Qed.

Lemma aged_sym p p' : aged p p' -> aged p' p.
Proof. intros A. constructor; intros; symmetry; apply A. Qed.

Lemma aged_size p p' k : aged p p' -> entry_size (entries p') k = entry_size (entries p) k.
Proof.
  intros A. unfold entry_size. rewrite (ag_tombstones _ _ A).
  pose proof (ag_records _ _ A k) as E. unfold view in E.
  destruct (jget k (records (entries p'))), (jget k (records (entries p))); try done.
  f_equal. apply recordBytes_unaged. by apply (inj Some) in E.
Qed.

Lemma aged_ok p p' : aged p p' -> entries_ok (entries p) -> entries_ok (entries p').
Proof.
  intros A H. constructor.
  - unfold jwf. rewrite (ag_keys _ _ A). apply H.
  - rewrite (ag_tombstones _ _ A). apply H.
  - rewrite (ag_bytes _ _ A). apply H.
  - intros k r Hr. destruct (aged_record _ _ _ _ (aged_sym _ _ A) Hr) as (r' & Hr' & _).
    rewrite (ag_tombstones _ _ A). eapply (eo_disjoint _ H), Hr'.
  - intros k. rewrite (ag_bytes _ _ A), (aged_size _ _ _ A). apply H.
  - rewrite (ag_total _ _ A), (ag_bytes _ _ A). apply H.
Qed.

Lemma aged_bounded p p' : aged p p' -> entries_bounded (entries p) -> entries_bounded (entries p').
Proof. intros A. unfold entries_bounded. by rewrite (ag_bytes _ _ A), (ag_total _ _ A). Qed.

(** A record retained with another freshness, and the event of it. *)
Lemma freshen_aged p key record f type :
  entries_ok (entries p) -> view p key = Some record -> type <> remove ->
  let p' := emit throws (with_entries p (retainRecord (entries p) key (with_freshness record f))) type key
              (Some (with_freshness record f)) in
  aged p p' /\ advances p p'.
Proof.
  intros H Hr Ht p'. assert (Hsize : jget key (entryBytes (entries p)) = Some (retainedRecordBytes (with_freshness record f))).
  { rewrite (eo_sizes _ H). unfold entry_size. unfold view in Hr. by rewrite Hr. }
  split.
  - constructor; cbn; try done.
    + apply jkeys_jset_present. by eapply jget_key.
    + intros k. unfold view; cbn. rewrite jget_jset. case_decide as E; [| done]. subst k. by unfold view in Hr; rewrite Hr.
    + apply jdel_absent, jget_None. by eapply (eo_disjoint _ H).
    + by apply jset_same.
    + rewrite Hsize. cbn. lia.
  - apply emit_advances. intros k. cbn. rewrite jget_jset. unfold observe; cbn. by destruct type.
Qed.

Lemma markTask_aged assetID connected p key :
  entries_ok (entries p) -> aged p (markTask throws assetID connected p key) /\ advances p (markTask throws assetID connected p key).
Proof.
  intros H. assert (Hsame : aged p p /\ advances p p) by (split; [apply aged_refl | apply advances_refl]).
  unfold markTask. destruct (jget key (records (entries p))) as [r |] eqn:Hr; [| done].
  case_match; [| done]. apply freshen_aged; [done | done | by destruct connected].
Qed.

Lemma mark_aged p source connected : entries_ok (entries p) ->
  aged p (markSourceConnectivity throws p source connected) /\ advances p (markSourceConnectivity throws p source connected).
Proof.
  intros H. unfold markSourceConnectivity. destruct (role source); [| by split; [apply aged_refl | apply advances_refl]].
  apply (fold_left_kept (fun p' => aged p p' /\ advances p p')).
  - split; [by constructor | apply advances_known].
  - intros p' key [A B]. destruct (markTask_aged (id source) connected p' key) as [A' B']; [by eapply aged_ok |].
    split; [by eapply aged_trans | by eapply advances_trans].
Qed.

Lemma degrade_aged p r : entries_ok (entries p) ->
  aged p (degradeTasksForExpiredAsset throws p r) /\ advances p (degradeTasksForExpiredAsset throws p r).
Proof.
  intros H. unfold degradeTasksForExpiredAsset. case_match; [by apply mark_aged |].
  split; [apply aged_refl | apply advances_refl].
Qed.

(** ** The known sources *)

Definition at_most_wf {A} (limit : Z) (m : list (list Z * A)) : Prop := jwf m /\ jsize m <= limit.

Record sources_ok (k : Sources) : Prop := {
  so_sources : at_most_wf LINK_SOURCE_IDENTITY_LIMIT (sources k);
  so_assets : at_most_wf LINK_SOURCE_IDENTITY_LIMIT (assetConnectivity k);
  so_sequences : at_most_wf RECORD_SOURCE_SEQUENCE_LIMIT (recordSourceSequences k)
}.

Lemma jset_at_most {A} limit key (v : A) m :
  at_most_wf limit m -> jhas key m = true \/ jsize m < limit -> at_most_wf limit (jset key v m).
Proof.
  intros [W S] H. split; [by apply jset_wf |]. destruct H as [H | H].
  - rewrite jsize_jset_present by (by apply jhas_elem). done.
  - pose proof (jsize_jset_le key v m). lia.
Qed.

Lemma jdel_at_most {A} limit key (m : list (list Z * A)) : at_most_wf limit m -> at_most_wf limit (jdel key m).
Proof. intros [W S]. split; [by apply jdel_wf |]. pose proof (jsize_jdel_le key m). lia. Qed.

Lemma jretain_at_most {A} limit keep (m : list (list Z * A)) : at_most_wf limit m -> at_most_wf limit (jretain keep m).
Proof. intros [W S]. split; [by apply jretain_wf |]. pose proof (jsize_jretain keep m). lia. Qed.

Lemma setConnected_ok k a c : sources_ok k -> sources_ok (setConnected k a c).
Proof.
  intros H. unfold setConnected. destruct (jget a (assetConnectivity k)) as [[b t] |] eqn:E; [| done].
  constructor; [apply H | | apply H]. apply jset_at_most; [apply H |]. left. apply jhas_true. eauto.
Qed.

Lemma jhas_setConnected k a c b : jhas b (assetConnectivity (setConnected k a c)) = jhas b (assetConnectivity k).
Proof.
  unfold setConnected. destruct (jget a (assetConnectivity k)) as [[x t] |] eqn:E; [| done].
  cbn. rewrite jhas_jset. case_bool_decide; [| done]. subst b. symmetry. apply jhas_true. eauto.
Qed.

Lemma mark_known p source connected :
  known (markSourceConnectivity throws p source connected) =
  match role source with asset => setConnected (known p) (id source) connected | gateway => known p end.
Proof.
  unfold markSourceConnectivity. destruct (role source); [| done].
  apply (fold_left_kept (fun p' => known p' = setConnected (known p) (id source) connected)); [done |].
  intros p' key E. unfold markTask. by repeat case_match.
Qed.

Record picture_ok (p : SharedPicture) : Prop := {
  po_entries : entries_ok (entries p);
  po_bounded : entries_bounded (entries p);
  po_sources : sources_ok (known p);
  po_log : picture_log p
}.

(** What every operation promises. *)
Definition sound (p p' : SharedPicture) : Prop := picture_ok p -> picture_ok p' /\ exists evs, follows p p' evs.

Lemma sound_refl p : sound p p.
Proof. intros H. split; [done |]. by apply advances_refl, H. Qed.

Lemma sound_trans p p' p'' : sound p p' -> sound p' p'' -> sound p p''.
Proof.
  intros A B H. destruct (A H) as [H' [evs F]]. destruct (B H') as [H'' [evs' F']].
  split; [done |]. eexists. by eapply follows_trans.
Qed.

Lemma sound_known p k : (sources_ok (known p) -> sources_ok k) -> sound p (with_known p k).
Proof.
  intros Hk H. destruct (advances_known p k (po_log _ H)) as [L F]. split; [| done].
  constructor; [apply H | apply H | apply Hk, H | done].
Qed.

Lemma aged_sound p p' : aged p p' -> advances p p' -> (sources_ok (known p) -> sources_ok (known p')) -> sound p p'.
Proof.
  intros A B S H. destruct (B (po_log _ H)) as [L F]. split; [| done].
  constructor; [by eapply aged_ok, H | by eapply aged_bounded, H | by apply S, H | done].
Qed.

Lemma mark_sources p source connected :
  sources_ok (known p) -> sources_ok (known (markSourceConnectivity throws p source connected)).
Proof. intros H. rewrite mark_known. destruct (role source); [by apply setConnected_ok | done]. Qed.

Lemma mark_sound p source connected : sound p (markSourceConnectivity throws p source connected).
Proof.
  intros H. destruct (mark_aged p source connected (po_entries _ H)) as [A B].
  by apply aged_sound; [| | apply mark_sources |].
Qed.

Lemma degrade_sound p r : sound p (degradeTasksForExpiredAsset throws p r).
Proof. unfold degradeTasksForExpiredAsset. case_match; [apply mark_sound | apply sound_refl]. Qed.

(** An accepted activation, by the states it goes through. *)
Inductive activation (p : SharedPicture) (source : LinkNode) : SharedPicture -> Prop :=
| activation_refl : activation p source p
| activation_asset p' : activation p source p' -> role source = asset ->
    jsize (assetConnectivity (known p')) < LINK_SOURCE_IDENTITY_LIMIT ->
    activation p source
      (with_known p' (with_connectivity (known p') (jset (id source) (false, None) (assetConnectivity (known p')))))
| activation_mark p' : activation p source p' -> activation p source (markSourceConnectivity throws p' source false)
| activation_forget p' keep : activation p source p' ->
    activation p source (with_known p' (with_sequences (known p') (jretain keep (recordSourceSequences (known p')))))
| activation_source p' position : activation p source p' ->
    jhas (sourceKey source) (sources (known p')) = true \/ jsize (sources (known p')) < LINK_SOURCE_IDENTITY_LIMIT ->
    activation p source
      (with_known p' (mkSources (jset (sourceKey source) position (sources (known p'))) (assetConnectivity (known p'))
                        (recordSourceSequences (known p')))).
#[local] Hint Constructors activation : core.

Lemma activate_activation p source generation session_ b p' :
  activateSource throws p source generation session_ = Ok (b, p') ->
  (b = false -> p' = p) /\ activation p source p' /\
  (b = true -> role source = asset -> jhas (id source) (assetConnectivity (known p')) = true).
Proof.
  unfold activateSource. case_match; [| done]. intros E.
  set (known_source := jget (sourceKey source) (sources (known p))) in *.
  set (unknown := bool_decide (role source = asset) && negb (jhas (id source) (assetConnectivity (known p)))) in *.
  set (p1 := if unknown then _ else p) in E.
  case_match eqn:Hold; [by injection E as <- <- |].
  case_match eqn:Hfull; [by injection E as <- <- |].
  assert (Hp1 : activation p source p1 /\ sources (known p1) = sources (known p) /\
                (role source = asset -> jhas (id source) (assetConnectivity (known p1)) = true)).
  { subst p1. destruct unknown eqn:Hu; subst unknown.
    - reflect_tests. destruct Hfull as [Hfull | Hfull]; [by rewrite Hfull in * |]. reflect_tests.
      split_and!; [by apply activation_asset | done |]. intros _. cbn. rewrite jhas_jset. by rewrite bool_decide_true.
    - split_and!; [done | done |]. intros Hr. rewrite bool_decide_true in Hu by done. cbn in Hu. by apply negb_false_iff. }
  destruct Hp1 as (A1 & S1 & C1). clearbody p1.
  destruct known_source as [c |] eqn:Hc; subst known_source.
  - assert (Hhas : jhas (sourceKey source) (sources (known p1)) = true) by (rewrite S1; apply jhas_true; eauto).
    case_match; [by injection E as <- <- |]. injection E as <- <-. split; [done |]. case_match.
    + split.
      * apply activation_source; [| left]; [auto |]. cbn. rewrite mark_known. destruct (role source); [| done].
        unfold setConnected. by repeat case_match.
      * intros _ Hr. cbn. rewrite mark_known, Hr, jhas_setConnected. auto.
    + split; [by apply activation_source; [| left] | auto].
  - injection E as <- <-. split; [done |]. split; [| auto]. apply activation_source; [done | right].
    reflect_tests. by rewrite S1.
Qed.

Lemma activation_sound p source p' : activation p source p' ->
  sound p p' /\ (entries_ok (entries p) -> aged p p') /\
  (role source = gateway -> assetConnectivity (known p') = assetConnectivity (known p)).
Proof.
  induction 1 as [| p' _ (S & A & C) | p' _ (S & A & C) | p' keep _ (S & A & C) | p' position _ (S & A & C) Hfit].
  - split_and!; [apply sound_refl | intros; apply aged_refl | done].
  - split_and!; [| intros H'; by apply aged_known, A | congruence]. eapply sound_trans; [exact S |]. apply sound_known. intros K.
    constructor; [apply K | | apply K]. apply jset_at_most; [apply K | by right].
  - split_and!; [eapply sound_trans; [exact S | apply mark_sound] | |].
    + intros H. eapply aged_trans; [by apply A |]. apply mark_aged. eapply aged_ok; eauto.
    + intros Hr. rewrite mark_known, Hr. auto.
  - split_and!; [| intros H'; by apply aged_known, A | exact C]. eapply sound_trans; [exact S |]. apply sound_known. intros K.
    constructor; [apply K | apply K |]. apply jretain_at_most, K.
  - split_and!; [| intros H'; by apply aged_known, A | exact C]. eapply sound_trans; [exact S |]. apply sound_known. intros K.
    constructor; [| apply K | apply K]. by apply jset_at_most; [apply K |].
Qed.

(** ** Applying a publication *)

Lemma canRetain_aged p p' k n : aged p p' -> canRetain (entries p') k n = canRetain (entries p) k n.
Proof. intros A. unfold canRetain. by rewrite (ag_bytes _ _ A), (ag_total _ _ A). Qed.

Lemma rejectCapacity_sound p key was :
  jhas key (recordSourceSequences (known p)) = true -> sound p (snd (rejectCapacity p key was)).
Proof.
  intros Hk. destruct was; apply sound_known; intros K; (constructor; [apply K | apply K |]).
  - apply jset_at_most; [apply K | by left].
  - apply jdel_at_most, K.
Qed.

(** A record removed first and announced last, other records ageing between. *)
Lemma removal_sound p key t connectivity (current : option PictureRecord) :
  picture_ok p -> canRetain (entries p) key (retainedTombstoneBytes t) = true ->
  (current = None <-> view p key = None) ->
  let p2 := with_entries p (retainTombstone (entries p) key t) in
  let p3 := match connectivity with Some a => markSourceConnectivity throws p2 (mkNode asset a) false | None => p2 end in
  let p4 := match current with Some _ => emit throws p3 remove key None | None => p3 end in
  picture_ok p4 /\ exists evs, follows p p4 evs.
Proof.
  intros H Hfit Hcur p2 p3 p4.
  assert (H2 : picture_ok p2).
  { constructor; [by apply retainTombstone_ok, H | | apply H | apply H].
    eapply retainEntrySize_bounded; [apply H | apply H | exact Hfit]. }
  assert (Hv2 : forall k, view p2 k = if decide (k = key) then None else view p k).
  { intros k. unfold view; cbn. rewrite jget_jdel by apply H. done. }
  assert (H3 : sound p2 p3 /\ aged p2 p3).
  { subst p3. destruct connectivity; [split; [apply mark_sound | by apply mark_aged, H2] | split; [apply sound_refl | apply aged_refl]]. }
  destruct H3 as [S3 A3]. destruct (S3 H2) as [H3 [evs F3]].
  destruct current as [r |].
  - assert (Hnone : view p3 key = None) by (apply (aged_absent p2 p3); [done |]; by rewrite Hv2, decide_True).
    assert (E : p4 = emit throws (with_entries p3 (entries p3)) remove key None) by (subst p4; by destruct p3).
    destruct (emit_follows p3 (entries p3) remove key None) as [L4 F4]; [| apply H3 |].
    { intros k. unfold observe; cbn. case_decide; [by subst k | done]. }
    rewrite E. split; [constructor; [apply H3 | apply H3 | apply H3 | exact L4] |].
    eexists. apply (follows_from p p2); [done | done | done | | by eapply follows_trans].
    intros k. rewrite !replay_app. cbn. unfold observe; cbn. case_decide; [done |]. apply replay_local.
    by rewrite Hv2, decide_False.
  - subst p4. split; [done |]. exists evs. apply (follows_from p p2); [done | done | done | | done].
    intros k. apply replay_local. rewrite Hv2. case_decide; [subst k; by apply Hcur | done].
Qed.

Lemma applyDeletion_sound p m cx was current connectivity :
  jhas (recordSourceKey m cx) (recordSourceSequences (known p)) = true ->
  (current = None <-> view p (recordKey m) = None) ->
  sound p (snd (applyDeletion throws p m cx was current connectivity)).
Proof.
  intros Hseq Hcur H. unfold applyDeletion. destruct (replaceable p m); cbn [negb]; [| by apply sound_refl].
  destruct (canRetain _ _ _) eqn:Hfit; cbn [negb snd]; [| by apply rejectCapacity_sound].
  set (p1 := match current with Some r => degradeTasksForExpiredAsset throws p r | None => p end).
  assert (H1 : sound p p1 /\ aged p p1).
  { subst p1. destruct current; [split; [apply degrade_sound | by apply degrade_aged, H] | split; [apply sound_refl | apply aged_refl]]. }
  destruct H1 as [S1 A1]. destruct (S1 H) as [H1 [evs1 F1]].
  destruct (removal_sound p1 (recordKey m) (new_tombstone m cx) connectivity current) as [H4 [evs F]]; [done | | |].
  - by rewrite (canRetain_aged _ _ _ _ A1).
  - rewrite Hcur. by apply aged_absent.
  - split; [done |]. eexists. by eapply follows_trans.
Qed.

Lemma retain_sound p key record k :
  canRetain (entries p) key (retainedRecordBytes record) = true -> (sources_ok (known p) -> sources_ok k) ->
  sound p (emit throws (with_known (with_entries p (retainRecord (entries p) key record)) k) upsert key (Some record)).
Proof.
  intros Hfit Hk.
  change (sound p (with_known (emit throws (with_entries p (retainRecord (entries p) key record)) upsert key (Some record)) k)).
  intros H. destruct (emit_follows p (retainRecord (entries p) key record) upsert key (Some record)) as [L F]; [| apply H |].
  { intros k'. unfold observe; cbn. by rewrite jget_jset. }
  split; [constructor; [by apply retainRecord_ok, H | | apply Hk, H | exact L] |].
  2:{ eexists. by apply follows_known. }
  eapply retainEntrySize_bounded; [apply H | apply H | exact Hfit].
Qed.

Lemma applyResource_sound p m cx was current connectivity :
  jhas (recordSourceKey m cx) (recordSourceSequences (known p)) = true ->
  (forall a, connectivity = Some a -> jhas a (assetConnectivity (known p)) = true \/
                                      jsize (assetConnectivity (known p)) < LINK_SOURCE_IDENTITY_LIMIT) ->
  sound p (snd (applyResource throws p m cx was current connectivity)).
Proof.
  intros Hseq Hadmit. unfold applyResource. destruct (replaceable p m); cbn [negb]; [| apply sound_refl].
  destruct (canRetain _ _ _) eqn:Hfit; cbn [negb snd]; [| by apply rejectCapacity_sound].
  destruct connectivity as [a |].
  - eapply sound_trans; [| apply mark_sound]. apply retain_sound; [done |]. intros K. constructor; [apply K | | apply K].
    apply jset_at_most; [apply K | auto].
  - exact (retain_sound p _ _ (known p) Hfit (fun K => K)).
Qed.

Lemma acceptSource_activation p cx rejection p' :
  acceptSource throws p cx = Ok (rejection, p') ->
  activation p (cx_source cx) p' /\ (rejection <> None -> p' = p) /\
  (rejection = None -> role (cx_source cx) = asset -> jhas (id (cx_source cx)) (assetConnectivity (known p')) = true).
Proof.
  unfold acceptSource. case_match; [by intros [= <- <-] |].
  intros E. apply bind_ok in E as ([b p1] & Ha & E). injection E as <- <-.
  destruct (activate_activation _ _ _ _ _ _ Ha) as (Hf & A & C). split; [done |]. destruct b; split; auto; done.
Qed.

(** The states [apply] goes through before it looks at the record. *)
Lemma admission_kept p m cx p' a :
  pub_deleted m = false -> activation p (cx_source cx) p' ->
  (role (cx_source cx) = asset -> jhas (id (cx_source cx)) (assetConnectivity (known p')) = true) ->
  connectivityAssetID p m cx (jget (recordKey m) (records (entries p))) = Some a -> canAdmitAsset p a = true ->
  jhas a (assetConnectivity (known p')) = true \/ jsize (assetConnectivity (known p')) < LINK_SOURCE_IDENTITY_LIMIT.
Proof.
  intros Hd A Hrole Hc Hadmit. unfold connectivityAssetID in Hc. rewrite Hd in Hc.
  destruct (role (cx_source cx)) eqn:Hr; [injection Hc as <-; auto |].
  destruct (activation_sound _ _ _ A) as (_ & _ & ->); [| done].
  unfold canAdmitAsset in Hadmit. reflect_tests. destruct Hadmit; reflect_tests; auto.
Qed.

Lemma set_sequence_sound p key s :
  jhas key (recordSourceSequences (known p)) = true \/ jsize (recordSourceSequences (known p)) < RECORD_SOURCE_SEQUENCE_LIMIT ->
  sound p (set_sequence p key s).
Proof. intros Hk. apply sound_known. intros K. constructor; [apply K | apply K |]. by apply jset_at_most; [apply K |]. Qed.

Lemma prune_sound p now : sound p (pruneRecordSourceSequences p now).
Proof. apply sound_known. intros K. constructor; [apply K | apply K |]. apply jretain_at_most, K. Qed.

Lemma apply_sound p m cx r p' : apply throws p m cx = Ok (r, p') -> sound p p'.
Proof.
  unfold apply. set (connectivity := connectivityAssetID p m cx _).
  destruct (match connectivity with Some a => negb (canAdmitAsset p a) | None => false end) eqn:Hadmit.
  { intros [= <- <-]. apply sound_refl. }
  intros E. apply bind_ok in E as ([rejection p1] & Ha & E).
  destruct (acceptSource_activation _ _ _ _ Ha) as (A & _ & Hrole). destruct (activation_sound _ _ _ A) as (S1 & Aged & _).
  destruct rejection as [reason |]; [by injection E as <- <- |].
  set (p2 := pruneRecordSourceSequences p1 (cx_received cx)) in *.
  assert (S2 : sound p p2) by (eapply sound_trans; [exact S1 | apply prune_sound]).
  case_match; [by injection E as <- <- |]. case_match eqn:Hfull; [by injection E as <- <- |].
  set (p3 := set_sequence p2 _ _) in *.
  assert (S3 : sound p p3).
  { eapply sound_trans; [exact S2 |]. apply set_sequence_sound. apply andb_false_iff in Hfull as [Hf | Hf]; reflect_tests; auto. }
  assert (H3 : jhas (recordSourceKey m cx) (recordSourceSequences (known p3)) = true).
  { cbn. rewrite jhas_jset. by rewrite bool_decide_true. }
  repeat (case_match; [by injection E as <- <- |]).
  intros Hp. refine (sound_trans _ p3 _ S3 _ Hp).
  case_match eqn:Hd.
  - injection E as E. rewrite (surjective_pairing (applyDeletion _ _ _ _ _ _ _)) in E. injection E as _ <-.
    apply applyDeletion_sound; [done |]. apply (aged_absent p p3). apply aged_known, aged_known, Aged, Hp.
  - injection E as E. rewrite (surjective_pairing (applyResource _ _ _ _ _ _ _)) in E. injection E as _ <-.
    apply applyResource_sound; [done |]. intros a Hc. eapply (admission_kept p m cx p1); eauto.
    subst connectivity. rewrite Hc in Hadmit. by apply negb_false_iff.
Qed.

(** ** Time and listeners *)

Lemma refreshAsset_sound now p a : sound p (refreshAsset throws now p a).
Proof. unfold refreshAsset. repeat case_match; try apply sound_refl. apply mark_sound. Qed.

Lemma refreshRecord_sound now p key : sound p (refreshRecord throws now p key).
Proof.
  unfold refreshRecord. destruct (jget key (records (entries p))) as [record |] eqn:Hr; [| apply sound_refl].
  destruct (freshnessThresholds record) as [staleAfter removeAfter].
  set (p1 := degradeTasksForExpiredAsset throws p record).
  intros H. assert (S1 : sound p p1) by apply degrade_sound.
  assert (A1 : aged p p1) by apply degrade_aged, H. destruct (S1 H) as [H1 _].
  destruct (aged_record _ _ key record A1 Hr) as (r1 & Hr1 & Hu).
  case_match; [| case_match; [| by apply sound_refl]]; refine (sound_trans _ p1 _ S1 _ H); intros _.
  - destruct (emit_follows p1 (removeRecord (entries p1) key) remove key None) as [L F]; [| apply H1 |].
    { intros k. unfold observe; cbn. rewrite jget_jdel by apply H1. done. }
    split; [constructor; [by eapply removeRecord_ok; [apply H1 |] | | apply H1 | exact L] | by eexists].
    destruct (po_bounded _ H1) as [B1 B2]. split; cbn.
    + pose proof (jsize_jdel_le key (entryBytes (entries p1))). lia.
    + assert (Hs : jget key (entryBytes (entries p1)) = Some (retainedRecordBytes r1)).
      { rewrite (eo_sizes _ (po_entries _ H1)). unfold entry_size. unfold view in Hr1. by rewrite Hr1. }
      assert (Hpos : 0 < retainedRecordBytes r1) by (eapply entry_size_positive; by rewrite <- (eo_sizes _ (po_entries _ H1))).
      revert Hs Hpos. generalize (retainedRecordBytes r1). intros n -> Hpos. cbn. lia.
  - rewrite <- (with_freshness_unaged r1 record stale) by done.
    destruct (freshen_aged p1 key r1 stale went_stale) as [A2 B2]; [apply H1 | done | done |].
    by apply aged_sound.
Qed.

Lemma refresh_sound p now : sound p (refresh throws p now).
Proof.
  unfold refresh. eapply sound_trans; [| apply (fold_left_kept (sound _)); [apply sound_refl |]].
  - eapply sound_trans; [apply prune_sound |]. apply (fold_left_kept (sound _)); [apply sound_refl |].
    intros p' a S. eapply sound_trans; [exact S | apply refreshAsset_sound].
  - intros p' key S. eapply sound_trans; [exact S | apply refreshRecord_sound].
Qed.

Lemma follows_listeners p ls : follows p (with_listeners p ls) [].
Proof.
  constructor; try done; [cbn; rewrite zlen_nil; lia |].
  exists []. by rewrite app_nil_r.
Qed.

Lemma listeners_sound p ls : NoDup ls -> zlen ls <= PICTURE_LISTENER_LIMIT -> sound p (with_listeners p ls).
Proof.
  intros Hn Hl [E B S [? ? ? ? ? ? ? _]]. split; [| eexists; apply follows_listeners]. constructor; [done.. |]. by constructor.
Qed.

Lemma addListener_sound p listener p' : addListener p listener = Ok p' -> sound p p'.
Proof.
  unfold addListener. case_bool_decide as Hin; cbn; [intros [= <-]; apply sound_refl |]. case_match eqn:Hfit; [| done].
  intros [= <-] H. reflect_tests. destruct (lo_listeners _ _ _ (po_log _ H)) as [Hn _].
  apply listeners_sound; [| | done].
  - apply list.NoDup_app. split_and!; [done | | by repeat constructor; apply not_elem_of_nil].
    intros l Hl Hl'. apply list_elem_of_singleton in Hl' as ->. done.
  - rewrite zlen_app. change (zlen [listener]) with 1. lia.
Qed.

Lemma unsubscribe_sound p listener : sound p (unsubscribe p listener).
Proof.
  intros H. destruct (lo_listeners _ _ _ (po_log _ H)) as [Hn Hl]. apply listeners_sound; [| | done].
  - clear Hl. induction Hn as [| l ls Hnot Hn IH]; cbn; [constructor |]. case_match; [| done].
    constructor; [| done]. rewrite list_elem_of_In, List.filter_In, <- list_elem_of_In. by intros [? _].
  - pose proof (List.filter_length_le (fun l => negb (l =? listener)) (listeners (log p))). unfold zlen in *. lia.
Qed.

(** ** Reachable pictures *)

(** What the node does to its picture. *)
Inductive picture_step : SharedPicture -> SharedPicture -> Prop :=
| step_apply p m cx r p' : apply throws p m cx = Ok (r, p') -> picture_step p p'
| step_refresh p now : picture_step p (refresh throws p now)
| step_activate p source generation session_ b p' :
    activateSource throws p source generation session_ = Ok (b, p') -> picture_step p p'
| step_mark p source connected : picture_step p (markSourceConnectivity throws p source connected)
| step_subscribe p listener p' : subscribe p listener = Ok p' -> picture_step p p'
| step_subscribe_after p session_ cursor listener replayed p' :
    subscribeAfter p session_ cursor listener = Ok (replayed, p') -> picture_step p p'
| step_unsubscribe p listener : picture_step p (unsubscribe p listener).

Lemma picture_step_sound p p' : picture_step p p' -> sound p p'.
Proof.
  destruct 1 as [p m cx r p' E | | p s g t b p' E | | p l p' E | p s c l rs p' E |].
  - by eapply apply_sound.
  - apply refresh_sound.
  - apply activate_activation in E as (_ & A & _). by apply activation_sound in A as [? _].
  - apply mark_sound.
  - by eapply addListener_sound.
  - unfold subscribeAfter in E. apply bind_ok in E as (evs & _ & E). apply bind_ok in E as (p1 & E1 & E).
    injection E as <- <-. by eapply addListener_sound.
  - apply unsubscribe_sound.
Qed.

Lemma picture_steps_sound p p' : rtc picture_step p p' -> sound p p'.
Proof.
  induction 1 as [| p p1 p2 Hs _ IH]; [apply sound_refl |]. eapply sound_trans; [by apply picture_step_sound | done].
Qed.

Lemma newPicture_ok session_ limit p : newPicture session_ limit = Ok p -> picture_ok p.
Proof.
  unfold newPicture. do 2 (case_match; [| done]). intros [= <-]. reflect_tests.
  constructor; [| done | repeat constructor; done |].
  - constructor; try done; by repeat constructor.
  - constructor; cbn; try done; rewrite ?zlen_nil; try lia. split; [constructor | done].
Qed.
(** ** What [apply] does to the entries *)

(** [p'] holds the publication [m] as [apply] stores it: everything else has at
    most aged. *)
Definition stored (p : SharedPicture) (m : list (list Z * json)) (cx : PictureApplyContext) (p' : SharedPicture) : Prop :=
  let key := recordKey m in
  (forall k, unaged <$> view p' k =
     if decide (k = key) then if pub_deleted m then None else Some (unaged (new_record m cx fresh)) else unaged <$> view p k) /\
  (forall k, jget k (tombstones (entries p')) =
     if decide (k = key) then if pub_deleted m then Some (new_tombstone m cx) else None else jget k (tombstones (entries p))).

Lemma stored_aged p m cx p1 p2 p' : aged p p1 -> stored p1 m cx p2 -> aged p2 p' -> stored p m cx p'.
Proof.
  intros A [V T] B. split; intros k.
  - rewrite (ag_records _ _ B), V, (ag_records _ _ A). done.
  - rewrite (ag_tombstones _ _ B), T, (ag_tombstones _ _ A). done.
Qed.

(** *** Which publication goes before which

    Said of the data, not of the code: Core's word goes before another's, then
    versions, then time; within one session of a source its sequence decides. *)

Definition by_core (confirmation : list Z) : Prop := confirmation = js "core_confirmed" \/ confirmation = js "core_rejected".
Definition outranks (a b : list Z) : Prop := by_core a /\ ~ by_core b.

Definition after_instant (a b : list Z) : Prop := exists x y, Date_parse a = Some x /\ Date_parse b = Some y /\ y < x.
Definition same_instant (a b : list Z) : Prop := exists x, Date_parse a = Some x /\ Date_parse b = Some x.

(** The source restarted since, or still is in the session of the record. *)
Definition restarted (r : PictureRecord) (cx : PictureApplyContext) : Prop :=
  pr_source r = cx_source cx /\ pr_generation r < cx_generation cx.
Definition continues (r : PictureRecord) (cx : PictureApplyContext) : Prop :=
  pr_source r = cx_source cx /\ pr_generation r = cx_generation cx /\ pr_session r = cx_session cx.

Definition updated_at (m : list (list Z * json)) : list Z := text_of (member_of (prop m "resource") "updated_at").

(** The publication goes before the record. *)
Inductive overtakes (m : list (list Z * json)) (r : PictureRecord) (cx : PictureApplyContext) : Prop :=
  | newer_version n v : resourceVersion m = Some n -> pr_version r = Some v -> v < n -> overtakes m r cx
  | version_confirmed n : resourceVersion m = Some n -> pr_version r = Some n ->
      outranks (pub_confirmation m) (pr_confirmation r) -> overtakes m r cx
  | version_observed n : resourceVersion m = Some n -> pr_version r = Some n ->
      after_instant (pub_observation m) (pr_observation r) ->
      outranks (pr_confirmation r) (pub_confirmation m) \/ ~ continues r cx -> overtakes m r cx
  | version_restarted n : resourceVersion m = Some n -> pr_version r = Some n ->
      ~ outranks (pr_confirmation r) (pub_confirmation m) -> restarted r cx ->
      after_instant (pub_observation m) (pr_observation r) \/ same_instant (pub_observation m) (pr_observation r) -> overtakes m r cx
  | version_continued n : resourceVersion m = Some n -> pr_version r = Some n ->
      ~ outranks (pr_confirmation r) (pub_confirmation m) -> continues r cx -> pr_sequence r < cx_sequence cx -> overtakes m r cx
  | task_confirmed : resourceVersion m = None \/ pr_version r = None -> pub_type m = js "task" -> pr_type r = js "task" ->
      outranks (pub_confirmation m) (pr_confirmation r) -> overtakes m r cx
  | task_updated : resourceVersion m = None \/ pr_version r = None -> pub_type m = js "task" -> pr_type r = js "task" ->
      after_instant (updated_at m) (state_text r "updated_at") -> overtakes m r cx
  | task_restarted : resourceVersion m = None \/ pr_version r = None -> pub_type m = js "task" -> pr_type r = js "task" ->
      same_instant (updated_at m) (state_text r "updated_at") -> restarted r cx -> overtakes m r cx
  | task_continued : resourceVersion m = None \/ pr_version r = None -> pub_type m = js "task" -> pr_type r = js "task" ->
      same_instant (updated_at m) (state_text r "updated_at") -> ~ outranks (pr_confirmation r) (pub_confirmation m) ->
      continues r cx -> pr_sequence r < cx_sequence cx -> overtakes m r cx
  | unversioned : resourceVersion m = None \/ pr_version r = None -> pub_type m <> js "task" \/ pr_type r <> js "task" -> overtakes m r cx.

(** It goes before the tombstone. *)
Definition outlives (m : list (list Z * json)) (t : PictureTombstone) : Prop :=
  exists n, resourceVersion m = Some n /\ (pt_version t < n \/ n = pt_version t /\ outranks (pub_confirmation m) (pt_confirmation t)).

Lemma rank_spec c : (by_core c /\ confirmationRank c = 2) \/ (~ by_core c /\ confirmationRank c = 1).
Proof. unfold by_core, confirmationRank. repeat case_bool_decide; cbn; tauto. Qed.

Lemma outranks_spec a b : outranks a b <-> confirmationRank b < confirmationRank a.
Proof. unfold outranks. destruct (rank_spec a) as [[? ->] | [? ->]], (rank_spec b) as [[? ->] | [? ->]]; split; try lia; tauto. Qed.

Lemma later_spec a b : later a b = true <-> after_instant a b.
Proof.
  unfold later, after_instant. split.
  - destruct (Date_parse a) as [x |], (Date_parse b) as [y |]; try done. intros H. exists x, y. reflect_tests. done.
  - intros (x & y & -> & -> & H). by apply Z.ltb_lt.
Qed.

Lemma not_earlier_spec a b : not_earlier a b = true <-> after_instant a b \/ same_instant a b.
Proof.
  unfold not_earlier, after_instant, same_instant. split.
  - destruct (Date_parse a) as [x |], (Date_parse b) as [y |]; try done. intros H. reflect_tests.
    destruct (decide (x = y)) as [-> |]; [right; by exists y | left; exists x, y; split_and!; [done | done | lia]].
  - intros [(x & y & -> & -> & H) | (x & -> & ->)]; apply Z.leb_le; lia.
Qed.

Lemma sameNode_spec a b : sameNode a b = true <-> a = b.
Proof. destruct a, b. unfold sameNode. cbn. rewrite andb_true_iff, !bool_decide_eq_true. split; [intros []; congruence | by intros [= -> ->]]. Qed.

Lemma same_session_spec r cx : same_session r cx = true <-> continues r cx.
Proof. unfold same_session, continues. rewrite !andb_true_iff, sameNode_spec, Z.eqb_eq, bool_decide_eq_true. tauto. Qed.

Lemma restarted_spec r cx : sameNode (pr_source r) (cx_source cx) && (pr_generation r <? cx_generation cx) = true <-> restarted r cx.
Proof. unfold restarted. by rewrite andb_true_iff, sameNode_spec, Z.ltb_lt. Qed.

(** What the code computes is that order. *)
Lemma isNewer_versions m r cx n v : resourceVersion m = Some n -> pr_version r = Some v -> isNewer m r cx = true <-> overtakes m r cx.
Proof.
  intros Hn Hv. unfold isNewer. rewrite Hn, Hv. split.
  - destruct (Z.eqb_spec n v) as [<- |]; cbn [negb]; [| intros ?%Z.ltb_lt; by eapply newer_version].
    destruct (Z.ltb_spec (confirmationRank (pr_confirmation r)) (confirmationRank (pub_confirmation m))) as [H1 | H1].
    { intros _. eapply version_confirmed; [done | done |]. by apply outranks_spec. }
    destruct (Z.ltb_spec (confirmationRank (pub_confirmation m)) (confirmationRank (pr_confirmation r))) as [H2 | H2].
    { intros H%later_spec. eapply version_observed; [done | done | done |]. left. by apply outranks_spec. }
    assert (Ho : ~ outranks (pr_confirmation r) (pub_confirmation m)) by (rewrite outranks_spec; lia).
    destruct (_ && _) eqn:Hr; [intros H%not_earlier_spec; apply restarted_spec in Hr; by eapply version_restarted |].
    destruct (same_session r cx) eqn:Hs; [intros H%Z.ltb_lt; apply same_session_spec in Hs; by eapply version_continued |].
    intros H%later_spec. eapply version_observed; [done | done | done |]. right. rewrite <- same_session_spec. congruence.
  - assert (Hno : ~ (resourceVersion m = None \/ pr_version r = None)) by (intros []; congruence).
    assert (Heq : forall k, resourceVersion m = Some k -> pr_version r = Some k -> n = v) by congruence.
    destruct 1 as [n' v' En Ev Hlt | k En Ev Hc | k En Ev Ht Hc | k En Ev Hc Hr Ht | k En Ev Hc Hs Hq | | | | |]; try done.
    { rewrite En in Hn. rewrite Ev in Hv. injection Hn as <-. injection Hv as <-. rewrite (proj2 (Z.eqb_neq _ _)) by lia. by apply Z.ltb_lt. }
    all: rewrite <- (Heq k En Ev), Z.eqb_refl; cbn [negb]; rewrite ?outranks_spec in Hc;
      destruct (Z.ltb_spec (confirmationRank (pr_confirmation r)) (confirmationRank (pub_confirmation m))); try done;
      destruct (Z.ltb_spec (confirmationRank (pub_confirmation m)) (confirmationRank (pr_confirmation r))); try lia;
      try (by apply later_spec).
    + destruct (_ && _); [apply not_earlier_spec; by left |].
      destruct (same_session r cx) eqn:Hs; [apply same_session_spec in Hs; destruct Hc; [lia | done] | by apply later_spec].
    + rewrite (proj2 (restarted_spec r cx) Hr). by apply not_earlier_spec.
    + assert (Hnr : sameNode (pr_source r) (cx_source cx) && (pr_generation r <? cx_generation cx) = false).
      { destruct Hs as (_ & -> & _). by rewrite Z.ltb_irrefl, andb_false_r. }
      rewrite Hnr, (proj2 (same_session_spec r cx) Hs). by apply Z.ltb_lt.
Qed.

Lemma isNewer_tasks m r cx :
  resourceVersion m = None \/ pr_version r = None -> pub_type m = js "task" -> pr_type r = js "task" -> isNewer m r cx = true <-> overtakes m r cx.
Proof.
  intros Hno Hm Hr. unfold isNewer, is_task. fold (updated_at m). rewrite Hm, Hr, bool_decide_true by done. cbn [andb].
  assert (E : forall (A : Type) (f : Z -> Z -> A) (x : A),
    match resourceVersion m, pr_version r with Some n, Some v => f n v | _, _ => x end = x).
  { intros. destruct (resourceVersion m), (pr_version r); try done. by destruct Hno. }
  rewrite E. clear E. split.
  - destruct (Z.ltb_spec (confirmationRank (pr_confirmation r)) (confirmationRank (pub_confirmation m))) as [H1 | H1].
    { intros _. apply task_confirmed; try done. by apply outranks_spec. }
    destruct (Date_parse (updated_at m)) as [x |] eqn:Ex; [| done]. destruct (Date_parse (state_text r "updated_at")) as [y |] eqn:Ey; [| done].
    destruct (Z.eqb_spec x y) as [<- |]; cbn [negb]; [| intros ?%Z.ltb_lt; apply task_updated; try done; by exists x, y].
    assert (Hsame : same_instant (updated_at m) (state_text r "updated_at")) by (by exists x).
    destruct (_ && _) eqn:Hre; [intros _; apply restarted_spec in Hre; by apply task_restarted |].
    destruct (Z.ltb_spec (confirmationRank (pub_confirmation m)) (confirmationRank (pr_confirmation r))) as [H2 | H2]; [done |].
    intros [Hs Hq]%andb_true_iff. apply same_session_spec in Hs. apply Z.ltb_lt in Hq. apply task_continued; try done. rewrite outranks_spec. lia.
  - destruct 1 as [n v En Ev | k En Ev | k En Ev | k En Ev | k En Ev | _ _ _ Hc | _ _ _ (x & y & Ex & Ey & Hlt) | _ _ _ (x & Ex & Ey) Hre | _ _ _ (x & Ex & Ey) Hc Hs Hq | _ Hn];
      try (destruct Hno; congruence); [by rewrite (proj2 (Z.ltb_lt _ _) (proj1 (outranks_spec _ _) Hc)) | .. | by destruct Hn].
    all: destruct (Z.ltb_spec (confirmationRank (pr_confirmation r)) (confirmationRank (pub_confirmation m))); [done |]; rewrite Ex, Ey.
    + rewrite (proj2 (Z.eqb_neq x y)) by lia. by apply Z.ltb_lt.
    + by rewrite Z.eqb_refl, (proj2 (restarted_spec r cx) Hre).
    + rewrite Z.eqb_refl, (proj2 (same_session_spec r cx) Hs), (proj2 (Z.ltb_lt _ _) Hq). cbn [negb andb]. destruct (_ && _); [done |].
      rewrite outranks_spec in Hc. by rewrite (proj2 (Z.ltb_ge _ _)) by lia.
Qed.

Lemma isNewer_spec m r cx : isNewer m r cx = true <-> overtakes m r cx.
Proof.
  destruct (resourceVersion m) as [n |] eqn:En, (pr_version r) as [v |] eqn:Ev; [by eapply isNewer_versions | ..];
    (assert (Hno : resourceVersion m = None \/ pr_version r = None) by auto);
    (destruct (decide (pub_type m = js "task" /\ pr_type r = js "task")) as [[Hm Hr] | Hnt]; [by apply isNewer_tasks |]).
  all: (split; [intros _; apply unversioned; [done |]; destruct (decide (pub_type m = js "task")); [right; tauto | by left] | intros _]).
  all: unfold isNewer; rewrite En, ?Ev; unfold is_task; rewrite andb_comm; destruct (bool_decide _) eqn:H1; [| done]; destruct (bool_decide (pub_type m = _)) eqn:H2; [| done];
    reflect_tests; by destruct Hnt.
Qed.

Lemma canReplace_spec m t : canReplaceTombstone m t = true <-> outlives m t.
Proof.
  unfold canReplaceTombstone, outlives. destruct (resourceVersion m) as [n |]; [| split; [done | by intros (? & [=] & _)]].
  split.
  - destruct (Z.eqb_spec n (pt_version t)) as [-> |]; cbn [negb]; intros H; eexists; (split; [done |]); reflect_tests; [right | by left].
    split; [done |]. by apply outranks_spec.
  - intros (n' & [= <-] & [H | [-> H]]); [| rewrite Z.eqb_refl; by apply Z.ltb_lt, outranks_spec].
    destruct (Z.eqb_spec n (pt_version t)); cbn [negb]; [lia | by apply Z.ltb_lt].
Qed.

(** The publication goes before all the picture holds of its resource. *)
Definition supersedes (p : SharedPicture) (m : list (list Z * json)) (cx : PictureApplyContext) : Prop :=
  (forall r, view p (recordKey m) = Some r -> overtakes m r cx) /\ (forall t, jget (recordKey m) (tombstones (entries p)) = Some t -> outlives m t).

Lemma replaceable_spec p m : replaceable p m = true <-> (forall t, jget (recordKey m) (tombstones (entries p)) = Some t -> outlives m t).
Proof.
  unfold replaceable. destruct (jget _ _) as [t |]; [| by split]. rewrite canReplace_spec. split; [by intros H ? [= <-] | auto].
Qed.

Lemma replaceable_aged p p' m : aged p p' -> replaceable p' m = replaceable p m.
Proof. intros A. unfold replaceable. by rewrite (ag_tombstones _ _ A). Qed.

Lemma applyDeletion_entries p m cx was current connectivity r p' :
  entries_ok (entries p) -> pub_deleted m = true ->
  applyDeletion throws p m cx was current connectivity = (r, p') ->
  match r with
  | applied => replaceable p m = true /\ stored p m cx p'
  | rejected reason => aged p p' /\ (reason = stale_record -> replaceable p m = false)
  end.
Proof.
  intros H Hd. unfold applyDeletion. destruct (replaceable p m); cbn [negb]; [| intros [= <- <-]; split; [apply aged_refl | done]].
  destruct (canRetain _ _ _); cbn [negb]; [| unfold rejectCapacity; intros [= <- <-]; split; [destruct was; apply aged_known, aged_refl | done]].
  set (p1 := match current with Some r => degradeTasksForExpiredAsset throws p r | None => p end).
  set (p2 := with_entries p1 _). set (p3 := match connectivity with Some a => _ | None => p2 end).
  intros [= <- <-]. split; [done |].
  assert (A1 : aged p p1) by (subst p1; destruct current; [by apply degrade_aged | apply aged_refl]).
  pose proof (aged_ok _ _ A1 H) as H1.
  assert (A3 : aged p2 p3).
  { subst p3. destruct connectivity; [| apply aged_refl]. apply mark_aged. by apply retainTombstone_ok. }
  apply (stored_aged p m cx p1 p2); [done | | destruct current; [| done]; destruct A3; by constructor].
  split; intros k; unfold view; cbn; rewrite ?jget_jdel, ?jget_jset by apply H1; rewrite Hd; by case_decide.
Qed.

Lemma applyResource_entries p m cx was current connectivity r p' :
  entries_ok (entries p) -> pub_deleted m = false ->
  applyResource throws p m cx was current connectivity = (r, p') ->
  match r with
  | applied => replaceable p m = true /\ stored p m cx p'
  | rejected reason => aged p p' /\ (reason = stale_record -> replaceable p m = false)
  end.
Proof.
  intros H Hd. unfold applyResource. destruct (replaceable p m); cbn [negb]; [| intros [= <- <-]; split; [apply aged_refl | done]].
  destruct (canRetain _ _ _); cbn [negb]; [| unfold rejectCapacity; intros [= <- <-]; split; [destruct was; apply aged_known, aged_refl | done]].
  set (record := new_record m cx _). set (p1 := with_entries p _). set (p2 := match connectivity with Some a => _ | None => p1 end).
  intros [= <- <-]. split; [done |].
  assert (E2 : entries p2 = retainRecord (entries p) (recordKey m) record) by (subst p2; by destruct connectivity).
  apply (stored_aged p m cx p (emit throws p2 upsert (recordKey m) (Some record))); [apply aged_refl | |].
  - split; intros k; unfold view; cbn; rewrite E2; cbn; rewrite ?jget_jdel, ?jget_jset by apply H; rewrite Hd; by case_decide.
  - destruct connectivity; [| apply aged_refl]. apply mark_aged. cbn. by apply retainRecord_ok.
Qed.

Lemma acceptSource_reason p cx reason p' : acceptSource throws p cx = Ok (Some reason, p') -> reason <> stale_record.
Proof.
  unfold acceptSource. case_match; [by intros [= <- _] |]. intros E. apply bind_ok in E as ([b p1] & _ & E).
  destruct b; injection E; intros; by subst.
Qed.

Lemma apply_entries p m cx r p' :
  entries_ok (entries p) -> apply throws p m cx = Ok (r, p') ->
  match r with
  | applied => supersedes p m cx /\ stored p m cx p'
  | rejected reason => aged p p' /\ (reason = stale_record -> ~ supersedes p m cx)
  end.
Proof.
  intros Hok. unfold apply. case_match; [intros [= <- <-]; split; [apply aged_refl | done] |].
  intros E. apply bind_ok in E as ([rejection p1] & Ha & E).
  destruct (acceptSource_activation _ _ _ _ Ha) as (A & _). destruct (activation_sound _ _ _ A) as (_ & Aged & _).
  specialize (Aged Hok). destruct rejection as [reason |]; [injection E as <- <-; split; [done |]; intros He; by destruct (acceptSource_reason _ _ _ _ Ha He) |].
  case_match; [injection E as <- <-; split; [by apply aged_known | done] |]. case_match; [injection E as <- <-; split; [by apply aged_known | done] |].
  set (p3 := set_sequence _ _ _) in E. assert (A3 : aged p p3) by by apply aged_known, aged_known.
  do 2 (case_match; [by injection E as <- <- |]). case_match eqn:Hnewer.
  { injection E as <- <-. split; [done |]. intros _ [Hn _]. destruct (jget (recordKey m) (records (entries p))) as [r0 |] eqn:Hr0; [| done].
    rewrite (proj2 (isNewer_spec m r0 cx) (Hn r0 Hr0)) in Hnewer. done. }
  assert (Hn : forall r0, view p (recordKey m) = Some r0 -> overtakes m r0 cx).
  { intros r0 Hr0. unfold view in Hr0. rewrite Hr0 in Hnewer. by apply isNewer_spec, negb_false_iff. }
  pose proof (aged_ok _ _ A3 Hok) as Hok3. pose proof (replaceable_aged _ _ m A3) as Hrep. case_match eqn:Hd; apply ok_inj in E;
    [apply applyDeletion_entries in E | apply applyResource_entries in E]; try done;
    (destruct r as [| reason]; destruct E as [Hr Hs]; [split; [split; [done |]; apply replaceable_spec; congruence |] | split; [by eapply aged_trans |]]);
    try (eapply stored_aged; [exact A3 | exact Hs | apply aged_refl]);
    intros He [_ Hall%replaceable_spec]; specialize (Hs He); congruence.
Qed.

End facts.

(** ** What a client reads *)

Lemma numbered_split last a b : numbered last (a ++ b) -> numbered (last - zlen b) a /\ numbered last b.
Proof.
  intros H. split; [| by eapply numbered_suffix]. unfold numbered in *.
  rewrite map_app, zlen_app, seqZ_app in H by apply zlen_nonneg.
  apply app_inj_1 in H as [-> _]; [f_equal; lia |]. rewrite length_map, length_seqZ. unfold zlen. lia.
Qed.

Lemma filter_all {A} (f : A -> bool) (l : list A) : (forall x, x ∈ l -> f x = true) -> List.filter f l = l.
Proof.
  induction l as [| x l IH]; cbn; [done |]. intros H. rewrite H by left. f_equal. apply IH. intros y Hy. apply H. by right.
Qed.

Lemma filter_none {A} (f : A -> bool) (l : list A) : (forall x, x ∈ l -> f x = false) -> List.filter f l = [].
Proof.
  induction l as [| x l IH]; cbn; [done |]. intros H. rewrite H by left. apply IH. intros y Hy. apply H. by right.
Qed.

Lemma filter_after last a b :
  numbered last (a ++ b) -> List.filter (fun e => last - zlen b <? ev_revision e) (a ++ b) = b.
Proof.
  intros H. apply numbered_split in H as [Ha Hb]. rewrite List.filter_app.
  rewrite filter_none, filter_all; [done | |]; intros e He.
  - pose proof (numbered_elem _ _ _ Hb He). apply Z.ltb_lt. lia.
  - pose proof (numbered_elem _ _ _ Ha He). apply Z.ltb_ge. lia.
Qed.

Lemma earliest_numbered p : picture_ok p -> earliest p = revision (log p) - zlen (events (log p)) + 1.
Proof.
  intros H. unfold earliest. pose proof (lo_numbered _ _ _ (po_log _ H)) as N. unfold numbered in N.
  destruct (events (log p)) as [| [e n] evs]; [rewrite zlen_nil; lia |].
  cbn [map fst] in N. rewrite zlen_cons in *. pose proof (zlen_nonneg evs).
  assert (Hl : zlen (map fst evs) = zlen evs) by (unfold zlen; by rewrite length_map).
  rewrite zlen_cons, Hl, seqZ_cons in N by lia. injection N as -> _. lia.
Qed.

Lemma events_after_follow p p' evs all :
  picture_ok p' -> follows p p' all -> eventsAfter p' (session p) (revision (log p)) = Ok evs ->
  evs = all /\ numbered (revision (log p')) all.
Proof.
  intros H [_ _ R _ [gone G]]. unfold eventsAfter. case_match; [| done]. case_match eqn:He; [| done]. intros [= <-].
  rewrite (earliest_numbered p' H) in He. reflect_tests.
  pose proof (lo_numbered _ _ _ (po_log _ H)) as N.
  assert (Hlen : zlen (map fst (events (log p'))) = zlen (events (log p'))) by (unfold zlen; by rewrite length_map).
  revert G N Hlen. generalize (map fst (events (log p'))). intros S G N Hlen.
  assert (HS : exists before, S = before ++ all).
  { apply app_eq_inv in G as [(l & _ & ->) | (l & _ & ->)]; [by exists l |].
    rewrite zlen_app in *. assert (l = []) as -> by (apply zlen_zero_nil; pose proof (zlen_nonneg l); lia). by exists []. }
  destruct HS as [before ->]. replace (revision (log p)) with (revision (log p') - zlen all) by lia.
  split; [by apply filter_after | by eapply numbered_suffix].
Qed.

(** ** Samples *)

Definition never_throws : Z -> PictureEvent -> bool := fun _ _ => false.

Definition sample_asset : list (list Z * json) :=
  [(js "type", JString (js "state")); (js "resource_type", JString (js "entity"));
   (js "resource", JObject [(js "entity_id", JString (js "a1")); (js "entity_type", JString (js "asset"));
     (js "components", JObject [(js "telemetry", JObject [])]); (js "metadata", JObject [(js "version", json_int 3)])]);
   (js "observation_time", JString (js "2026-01-01T00:00:00Z")); (js "path", JString (js "field"));
   (js "confirmation", JString (js "not_required"))].

Definition sample_task : list (list Z * json) :=
  [(js "type", JString (js "state")); (js "resource_type", JString (js "task"));
   (js "resource", JObject [(js "task_id", JString (js "t1")); (js "asset_id", JString (js "a1"));
     (js "status", JString (js "running")); (js "updated_at", JString (js "2026-01-01T00:00:00Z"))]);
   (js "observation_time", JString (js "2026-01-01T00:00:00Z")); (js "path", JString (js "field"));
   (js "confirmation", JString (js "not_required"))].

Definition sample_deletion : list (list Z * json) :=
  [(js "type", JString (js "state")); (js "resource_type", JString (js "entity")); (js "deleted", JBool true);
   (js "resource_id", JString (js "a1")); (js "atlas_version", json_int 4);
   (js "observation_time", JString (js "2026-01-01T00:00:01Z")); (js "path", JString (js "field"));
   (js "confirmation", JString (js "not_required"))].

Definition sample_context (sequence received : Z) : PictureApplyContext :=
  mkContext (mkNode asset (js "a1")) 1 (js "boot") sequence received.

(** A run: the asset and its task appear, the asset is deleted. *)
Definition sample_apply (p : result SharedPicture) (m : list (list Z * json)) (sequence : Z) : result SharedPicture :=
  let! p := p in let! (_, p) := apply never_throws p m (sample_context sequence (1000 * sequence)) in Ok p.

Definition picture_of (p : result SharedPicture) : SharedPicture :=
  match p with Ok p => p | Throw _ => mkPicture [] 0 (mkEntries [] [] [] 0) (mkSources [] [] []) (mkLog 0 [] 0 [] []) end.

Definition sample_0 : SharedPicture := picture_of (newPicture (js "s1") 8).
Definition sample_1 : SharedPicture := picture_of (sample_apply (Ok sample_0) sample_asset 1).
Definition sample_2 : SharedPicture := picture_of (sample_apply (Ok sample_1) sample_task 2).
Definition sample_3 : SharedPicture := picture_of (sample_apply (Ok sample_2) sample_deletion 3).

Example sample_run :
  apply never_throws sample_0 sample_asset (sample_context 1 1000) = Ok (applied, sample_1) /\
  apply never_throws sample_1 sample_task (sample_context 2 2000) = Ok (applied, sample_2) /\
  apply never_throws sample_2 sample_deletion (sample_context 3 3000) = Ok (applied, sample_3) /\
  map ev_type (map fst (events (log sample_3))) = [upsert; upsert; went_stale; remove] /\
  apply never_throws sample_3 sample_asset (sample_context 4 4000) <> Ok (applied, sample_3).
Proof. split_and!; [vm_compute; reflexivity.. | vm_compute; discriminate]. Qed.

Lemma sample_steps : rtc (picture_step never_throws) sample_0 sample_1 /\ rtc (picture_step never_throws) sample_1 sample_3 /\
  rtc (picture_step never_throws) sample_0 sample_2.
Proof.
  destruct sample_run as (E1 & E2 & E3 & _). split_and!.
  - eapply rtc_once, step_apply, E1.
  - eapply rtc_l; [eapply step_apply, E2 | eapply rtc_once, step_apply, E3].
  - eapply rtc_l; [eapply step_apply, E1 | eapply rtc_once, step_apply, E2].
Qed.

(** ** The properties *)

(** C30: A reachable picture keeps its books. Records and tombstones are
    disjoint and each entry is accounted with its retained size; the total is
    exact, at most 16 MiB over at most 4096 entries. Known sources, assets and
    sequences stay within 4096, listeners within 1024. The log's events have
    consecutive revisions up to the current one, their sizes add up to the
    retained total, within the client's limit and 8 MiB. *)
Theorem picture_invariant throws session_ limit p0 p :
  newPicture session_ limit = Ok p0 -> rtc (picture_step throws) p0 p -> picture_ok p.
Proof. intros H0 Hs. apply (picture_steps_sound throws _ _ Hs). by eapply newPicture_ok. Qed.

Lemma picture_invariant_witness :
  newPicture (js "s1") 8 = Ok sample_0 /\ rtc (picture_step never_throws) sample_0 sample_2 /\ picture_ok sample_2.
Proof.
  assert (H0 : newPicture (js "s1") 8 = Ok sample_0) by (vm_compute; reflexivity).
  split; [exact H0 |]. split; [apply sample_steps |].
  exact (picture_invariant never_throws (js "s1") 8 sample_0 sample_2 H0 (proj2 (proj2 sample_steps))).
Defined.

(** C29: A client that took a snapshot and later reads the events after its
    revision, if the log still reaches back that far, gets every event since,
    in order, and applying them to the snapshot gives the records of the
    picture at that moment. *)
Theorem picture_replay throws session_ limit p0 p p' evs :
  newPicture session_ limit = Ok p0 -> rtc (picture_step throws) p0 p -> rtc (picture_step throws) p p' ->
  eventsAfter p' (session p) (revision (log p)) = Ok evs ->
  map ev_revision evs = seqZ (revision (log p) + 1) (revision (log p') - revision (log p)) /\
  forall k, view p' k = replay (view p) evs k.
Proof.
  intros H0 Hs Hs' Hev. pose proof (picture_steps_sound throws _ _ Hs (newPicture_ok _ _ _ H0)) as [H _].
  destruct (picture_steps_sound throws _ _ Hs' H) as [H' [all F]].
  destruct (events_after_follow _ _ _ _ H' F Hev) as [-> N]. split; [| apply F].
  rewrite N. pose proof (fo_revision _ _ _ F). f_equal; lia.
Qed.

Lemma picture_replay_witness :
  newPicture (js "s1") 8 = Ok sample_0 /\ rtc (picture_step never_throws) sample_0 sample_1 /\
  rtc (picture_step never_throws) sample_1 sample_3 /\
  exists evs, eventsAfter sample_3 (session sample_1) (revision (log sample_1)) = Ok evs /\ map ev_revision evs = [2; 3; 4] /\
    forall k, view sample_3 k = replay (view sample_1) evs k.
Proof.
  assert (H0 : newPicture (js "s1") 8 = Ok sample_0) by (vm_compute; reflexivity).
  destruct sample_steps as (S1 & S3 & _). split; [exact H0 |]. split; [exact S1 |]. split; [exact S3 |].
  exists (map fst (drop 1 (events (log sample_3)))).
  assert (He : eventsAfter sample_3 (session sample_1) (revision (log sample_1)) = Ok (map fst (drop 1 (events (log sample_3)))))
    by (vm_compute; reflexivity).
  split; [exact He |]. exact (picture_replay never_throws (js "s1") 8 sample_0 sample_1 sample_3 _ H0 S1 S3 He).
Defined.

(** C31: What [apply] does. An applied publication goes before the record and
    the tombstone it meets, in the order [overtakes] and [outlives] say, and is
    then exactly what the picture holds for the resource: its record (or, for a
    deletion, its tombstone and no record); other records at most change
    freshness. A rejected one changes no tombstone, and of the records at most
    the freshness, which a new generation of a source degrades; and it is
    rejected as a stale record only when it does not go before what the picture
    holds. *)
Theorem apply_exact throws session_ limit p0 p m cx r p' :
  newPicture session_ limit = Ok p0 -> rtc (picture_step throws) p0 p -> apply throws p m cx = Ok (r, p') ->
  match r with
  | applied => supersedes p m cx /\ stored p m cx p'
  | rejected reason => aged p p' /\ (reason = stale_record -> ~ supersedes p m cx)
  end.
Proof.
  intros H0 Hs. apply apply_entries. apply (picture_steps_sound throws _ _ Hs). by eapply newPicture_ok.
Qed.

Lemma apply_exact_witness :
  newPicture (js "s1") 8 = Ok sample_0 /\ rtc (picture_step never_throws) sample_0 sample_2 /\
  apply never_throws sample_2 sample_deletion (sample_context 3 3000) = Ok (applied, sample_3) /\
  supersedes sample_2 sample_deletion (sample_context 3 3000) /\ stored sample_2 sample_deletion (sample_context 3 3000) sample_3.
Proof.
  assert (H0 : newPicture (js "s1") 8 = Ok sample_0) by (vm_compute; reflexivity).
  destruct sample_steps as (_ & _ & S2). destruct sample_run as (_ & _ & E & _).
  split; [exact H0 |]. split; [exact S2 |]. split; [exact E |].
  exact (apply_exact never_throws (js "s1") 8 sample_0 sample_2 sample_deletion (sample_context 3 3000) applied sample_3 H0 S2 E).
Defined.

(** The version the picture knows of a resource, deleted or not. *)
Definition known_version (p : SharedPicture) (k : list Z) : option Z :=
  match view p k with Some r => pr_version r | None => pt_version <$> jget k (tombstones (entries p)) end.

Lemma overtakes_version m r cx n v : resourceVersion m = Some n -> pr_version r = Some v -> overtakes m r cx -> v <= n.
Proof. intros Hn Hv. destruct 1; destruct_or?; simplify_eq; lia. Qed.

Lemma unaged_version p p' k : unaged <$> view p' k = unaged <$> view p k ->
  jget k (tombstones (entries p')) = jget k (tombstones (entries p)) -> known_version p' k = known_version p k.
Proof.
  intros V T. unfold known_version. rewrite T. destruct (view p' k), (view p k); try done. cbn in V.
  apply (inj Some) in V. by apply (f_equal pr_version) in V.
Qed.

Lemma supersedes_version p m cx n v :
  supersedes p m cx -> resourceVersion m = Some n -> known_version p (recordKey m) = Some v -> v <= n.
Proof.
  intros [Hnew Hrep] Hn. unfold known_version, replaceable in *. destruct (view p (recordKey m)) as [r |].
  - intros Hv. eapply overtakes_version; eauto.
  - destruct (jget _ _) as [t |]; [| done]. intros [= <-]. destruct (Hrep t eq_refl) as (n' & En & [? | [? _]]); simplify_eq; lia.
Qed.

Lemma stored_version p m cx p' n :
  stored p m cx p' -> resourceVersion m = Some n -> known_version p' (recordKey m) = Some n.
Proof.
  intros [V T] Hn. specialize (V (recordKey m)). specialize (T (recordKey m)). rewrite decide_True in V by done. rewrite decide_True in T by done.
  unfold known_version. rewrite T. destruct (pub_deleted m) eqn:Hd.
  - destruct (view p' (recordKey m)); [done |]. cbn. unfold resourceVersion in Hn. by rewrite Hd in Hn; rewrite Hn.
  - destruct (view p' (recordKey m)) as [r |]; [| done]. cbn in V. apply (inj Some) in V. apply (f_equal pr_version) in V.
    by rewrite <- Hn.
Qed.

(** Applying a publication that carries a version never makes the picture
    forget or lower the version it knows of any resource, tombstones included:
    a delayed or replayed publication cannot bring an older state back. *)
Theorem versions_never_decrease throws session_ limit p0 p m cx n r p' k v :
  newPicture session_ limit = Ok p0 -> rtc (picture_step throws) p0 p -> resourceVersion m = Some n ->
  apply throws p m cx = Ok (r, p') -> known_version p k = Some v ->
  exists v', known_version p' k = Some v' /\ v <= v'.
Proof.
  intros H0 Hs Hn Ha Hv. pose proof (picture_steps_sound throws _ _ Hs (newPicture_ok _ _ _ H0)) as [H _].
  apply apply_entries in Ha; [| apply H]. destruct r as [| reason].
  - destruct Ha as [Hsup Hst]. destruct (decide (k = recordKey m)) as [-> | Hk].
    + exists n. split; [by eapply stored_version | by eapply supersedes_version].
    + exists v. split; [| lia]. rewrite <- Hv. destruct Hst as [V T]. specialize (V k). specialize (T k).
      rewrite decide_False in V by done. rewrite decide_False in T by done. by apply unaged_version.
  - destruct Ha as [Ha _]. exists v. split; [| lia]. rewrite <- Hv. apply unaged_version; [apply Ha |]. by rewrite (ag_tombstones _ _ Ha).
Qed.

Lemma versions_never_decrease_witness :
  newPicture (js "s1") 8 = Ok sample_0 /\ rtc (picture_step never_throws) sample_0 sample_2 /\
  apply never_throws sample_2 sample_deletion (sample_context 3 3000) = Ok (applied, sample_3) /\
  known_version sample_2 (js "entity:a1") = Some 3 /\
  exists v', known_version sample_3 (js "entity:a1") = Some v' /\ 3 <= v'.
Proof.
  assert (H0 : newPicture (js "s1") 8 = Ok sample_0) by (vm_compute; reflexivity).
  destruct sample_steps as (_ & _ & S2). destruct sample_run as (_ & _ & E & _).
  assert (Hn : resourceVersion sample_deletion = Some 4) by (vm_compute; reflexivity).
  assert (Hv : known_version sample_2 (js "entity:a1") = Some 3) by (vm_compute; reflexivity).
  split; [exact H0 |]. split; [exact S2 |]. split; [exact E |]. split; [exact Hv |].
  exact (versions_never_decrease never_throws (js "s1") 8 sample_0 sample_2 _ _ 4 _ sample_3 _ 3 H0 S2 Hn E Hv).
Defined.

(** ** Rejections *)

Definition known_sequences (p p' : SharedPicture) : Prop :=
  forall k s, jget k (recordSourceSequences (known p')) = Some s -> jget k (recordSourceSequences (known p)) = Some s.

Lemma jget_jretain_sub {V} keep k (v : V) (m : list (list Z * V)) : jwf m -> jget k (jretain keep m) = Some v -> jget k m = Some v.
Proof. intros W. rewrite jget_jretain by done. destruct (jget k m); [| done]. by case_match. Qed.

Lemma activation_sequences throws p source p' :
  picture_ok p -> activation throws p source p' -> known_sequences p p'.
Proof.
  intros H A. induction A as [| p' A IH | p' A IH | p' keep A IH | p' position A IH].
  - by intros k s.
  - exact IH.
  - intros k s. rewrite mark_known. destruct (role source); [| apply IH]. unfold setConnected. repeat case_match; apply IH.
  - intros k s Hk. apply IH. destruct (activation_sound _ _ _ _ A) as [S _]. destruct (S H) as [[_ _ [_ _ [W _]] _] _].
    exact (jget_jretain_sub keep k s _ W Hk).
  - exact IH.
Qed.

Lemma rejectCapacity_sequences p key s :
  jwf (recordSourceSequences (known p)) ->
  known_sequences p (snd (rejectCapacity (set_sequence p key s) key (jget key (recordSourceSequences (known p))))).
Proof.
  intros W k s'. destruct (jget key (recordSourceSequences (known p))) as [s0 |] eqn:E; cbn.
  - rewrite !jget_jset. case_decide; [| done]. intros [= <-]. by subst k.
  - rewrite jget_jdel, jget_jset by by apply jset_wf. by case_decide.
Qed.

Lemma late_rejection throws p m cx s connectivity current reason p' :
  let q := set_sequence p (recordSourceKey m cx) s in
  let was := jget (recordSourceKey m cx) (recordSourceSequences (known p)) in
  jwf (recordSourceSequences (known p)) ->
  (if pub_deleted m then Ok (applyDeletion throws q m cx was current connectivity)
   else Ok (applyResource throws q m cx was current connectivity)) = Ok (rejected reason, p') ->
  reason <> stale_source /\ (reason = capacity -> known_sequences p p').
Proof.
  intros q was W. unfold applyDeletion, applyResource.
  destruct (pub_deleted m), (replaceable q m); cbn [negb]; try (by intros [= <- <-]);
    (destruct (canRetain _ _ _); cbn [negb]; [done |]); unfold rejectCapacity; intros [= <- <-]; (split; [done |]); intros _;
    apply (rejectCapacity_sequences p (recordSourceKey m cx) s W).
Qed.

Lemma apply_rejection throws p m cx reason p' :
  picture_ok p -> apply throws p m cx = Ok (rejected reason, p') ->
  p' = p \/ (reason <> stale_source /\ (reason = capacity -> known_sequences p p')).
Proof.
  intros H. unfold apply. case_match; [intros [= <- <-]; by left |]. intros E.
  apply bind_ok in E as ([rejection p1] & Ha & E). destruct (acceptSource_activation _ _ _ _ _ Ha) as (A & Hsame & _).
  destruct rejection as [r |]; [left; injection E as <- <-; by apply Hsame |]. right.
  set (p2 := pruneRecordSourceSequences p1 (cx_received cx)) in *.
  assert (S2 : known_sequences p p2) by (apply (activation_sequences throws p (cx_source cx)); [done | by apply activation_forget]).
  case_match; [by injection E as <- <- |]. case_match; [by injection E as <- <- |].
  do 2 (case_match; [by injection E as <- <- |]). case_match; [by injection E as <- <- |].
  destruct (activation_sound _ _ _ _ A) as [S _]. destruct (sound_trans _ _ _ S (prune_sound p1 (cx_received cx)) H) as [[_ _ [_ _ [W _]] _] _].
  apply late_rejection in E as [Hr Hc]; [| exact W]. split; [done |]. intros Hcap k s Hk. by apply S2, Hc.
Qed.

(** C36: A publication refused because its source is out of date leaves the
    picture untouched, and one refused for lack of room is not recorded as
    seen: no sequence entry is new, so the sender may offer it again. *)
Theorem refused_without_trace throws session_ limit p0 p m cx reason p' :
  newPicture session_ limit = Ok p0 -> rtc (picture_step throws) p0 p ->
  apply throws p m cx = Ok (rejected reason, p') ->
  match reason with
  | stale_source => p' = p
  | capacity => known_sequences p p' /\ aged p p'
  | stale_sequence | stale_record => aged p p'
  end.
Proof.
  intros H0 Hs Ha. pose proof (picture_steps_sound throws _ _ Hs (newPicture_ok _ _ _ H0)) as [H _].
  pose proof (apply_entries _ _ _ _ _ _ (po_entries _ H) Ha) as [A _].
  apply apply_rejection in Ha; [| done]. destruct reason; try done; destruct Ha as [-> | [Hr Hc]]; try done; split; auto.
  by intros k s.
Qed.

Lemma refused_without_trace_witness :
  newPicture (js "s1") 8 = Ok sample_0 /\ rtc (picture_step never_throws) sample_0 sample_2 /\
  exists p', apply never_throws sample_2 sample_deletion (mkContext (mkNode asset (js "a1")) 0 (js "boot") 3 3000) =
    Ok (rejected stale_source, p') /\ p' = sample_2.
Proof.
  assert (H0 : newPicture (js "s1") 8 = Ok sample_0) by (vm_compute; reflexivity).
  destruct sample_steps as (_ & _ & S2). split; [exact H0 |]. split; [exact S2 |].
  exists sample_2. assert (E : apply never_throws sample_2 sample_deletion (mkContext (mkNode asset (js "a1")) 0 (js "boot") 3 3000) =
    Ok (rejected stale_source, sample_2)) by (vm_compute; reflexivity).
  split; [exact E |].
  exact (refused_without_trace never_throws (js "s1") 8 sample_0 sample_2 _ _ stale_source sample_2 H0 S2 E).
Defined.
