(* ===== verification/PictureProjection.v ===== *)
(** * From delivered messages to publications ([picture-projection.ts])

    What a delivered Link message says about the picture: a state publication
    as it is, and the publications a task delivery, a task report or a data
    response stand for, under the authority of their source. *)

From Stdlib Require Import ZArith Lia String.
From stdpp Require Import base list option.
From S2P Require Import Prelude JsMap Wtf8 Json CompactValue LinkTypes Frame Instants Contract ContractFacts SdkValidation Picture PictureFacts.

Open Scope string_scope.
Open Scope list_scope.
Open Scope Z_scope.

(** ** [new Date(ms).toISOString()] *)

(** Year, month and day of a day number: the inverse of [day_number]. *)
Definition civil_of_day (n : Z) : Z * Z * Z :=
  let z := n + 719468 in
  let era := z / 146097 in
  let doe := z mod 146097 in
  let yoe := (doe - doe / 1460 + doe / 36524 - doe / 146096) / 365 in
  let doy := doe - (365 * yoe + yoe / 4 - yoe / 100) in
  let mp := (5 * doy + 2) / 153 in
  let m := if mp <? 10 then mp + 3 else mp - 9 in
  (yoe + era * 400 + (if m <=? 2 then 1 else 0), m, doy - (153 * mp + 2) / 5 + 1).

Definition MAX_TIME : Z := 8640000000000000.

Definition iso_year (y : Z) : list Z :=
  if in_range 0 9999 y then padded 4 y else (if y <? 0 then 45 else 43) :: padded 6 (Z.abs y).

Definition toISOString (ms : Z) : result (list Z) :=
  guard! in_range (- MAX_TIME) MAX_TIME ms else RangeError "Invalid time value" in
  let '(y, m, d) := civil_of_day (ms / 86400000) in
  let t := ms mod 86400000 in
  Ok (iso_year y ++ 45 :: padded 2 m ++ 45 :: padded 2 d ++ 84 :: padded 2 (t / 3600000) ++
      58 :: padded 2 (t / 60000 mod 60) ++ 58 :: padded 2 (t / 1000 mod 60) ++ 46 :: padded 3 (t mod 1000) ++ [90]).

Example iso_epoch : toISOString 0 = Ok (js "1970-01-01T00:00:00.000Z").
Proof. reflexivity. Qed.
Example iso_leap : toISOString 1709251199999 = Ok (js "2024-02-29T23:59:59.999Z").
Proof. reflexivity. Qed.
Example iso_before : toISOString (-62167219200001) = Ok (js "-000001-12-31T23:59:59.999Z").
Proof. reflexivity. Qed.

(** ** Publications *)

Abbreviation publication := (list (list Z * json)) (only parsing).

Definition str (k s : string) : list Z * json := (js k, JString (js s)).

(** [k: v], an [undefined] member being as good as none. *)
Definition member (k : string) (v : option json) : publication := member_if k v (fun v => v).

Record ResponseProvenance := mkProvenance { path : string; confirmation : string }.

Definition provenance_members (p : ResponseProvenance) : publication :=
  [str "path" (path p); str "confirmation" (confirmation p)].

Definition entityPublication (resource : json) (operationID : list Z) (p : ResponseProvenance) : publication :=
  [str "type" "state"; str "resource_type" "entity"; (js "resource", resource)] ++
  member "observation_time" (prop (own (within resource "metadata")) "updated_at") ++
  provenance_members p ++ [(js "operation_id", JString operationID)].

Definition taskPublication (resource : json) (operationID : list Z) (p : ResponseProvenance) : publication :=
  [str "type" "state"; str "resource_type" "task"; (js "resource", resource)] ++
  member "observation_time" (prop (own resource) "updated_at") ++
  provenance_members p ++ [(js "operation_id", JString operationID)].

Definition objectPublication (resource : json) (operationID : list Z) (p : ResponseProvenance) : publication :=
  [str "type" "state"; str "resource_type" "object"; (js "resource", resource)] ++
  member "observation_time" (prop (own (within resource "metadata")) "updated_at") ++
  provenance_members p ++ [(js "operation_id", JString operationID)].

Definition deletedPublication (resourceType resourceIDValue : list Z) (atlasVersion : json) (operationID observedAt : list Z)
    (p : ResponseProvenance) : publication :=
  [str "type" "state"; (js "resource_type", JString resourceType); (js "resource_id", JString resourceIDValue);
   (js "deleted", JBool true); (js "atlas_version", atlasVersion); (js "observation_time", JString observedAt)] ++
  provenance_members p ++ [(js "operation_id", JString operationID)].

Definition objectSummary (resource : json) : json :=
  JObject (concat (map (fun k => member k (prop (own resource) k))
    ["object_id"; "type"; "content_type"; "size_bytes"; "bucket"; "path"; "usage_hints"; "referenced_by"; "metadata"])).

Definition taskDeliveryPublication (m : publication) : publication :=
  [str "type" "state"; str "resource_type" "task"] ++ member "resource" (prop m "task") ++
  member "observation_time" (member_of (prop m "task") "updated_at") ++
  [str "path" "gateway_feed"; str "confirmation" "core_confirmed"].

(** The last event of the greatest version per resource, in the order the
    resources first appear. *)
Definition collapse_event (latest : list (list Z * json)) (event : json) : list (list Z * json) :=
  let key := text event "resource_type" ++ js ":" ++ text event "id" in
  match jget key latest with
  | Some current => if integer current "version" <=? integer event "version" then jset key event latest else latest
  | None => jset key event latest
  end.

Definition collapseChangedSinceEvents (events : list json) : list json :=
  jvalues (fold_left collapse_event events []).

Definition event_publication (operationID observedAt : list Z) (p : ResponseProvenance) (event : json) : publication :=
  if is_text (prop (own event) "event") "delete" then
    deletedPublication (text event "resource_type") (text event "id") (within event "version") operationID observedAt p
  else if is_text (prop (own event) "resource_type") "entity" then entityPublication (within event "resource") operationID p
  else if is_text (prop (own event) "resource_type") "task" then taskPublication (within event "resource") operationID p
  else objectPublication (within event "resource") operationID p.

Section projection.
Context {validators : Validators}.
(** The host's collation, in the order of the picture's snapshot. *)
Context (compare : list Z -> list Z -> Z).

(** [test(output) ? f(output) : []] *)
Definition when (d : ProtocolDefinition) (output : option json) (f : json -> list publication) : list publication :=
  match output with
  | Some v => if validates d v then f v else []
  | None => []
  end.

Definition responsePublications (m : publication) (observedAt : list Z) (p : ResponseProvenance) : list publication :=
  let output := prop m "output" in
  let operationID := text_of (prop m "request_id") in
  match isOperation (text_of (prop m "operation")) with
  | Some (entity_get | entity_create | entity_update) =>
      when EntityResource output (fun v => [entityPublication v operationID p])
  | Some entity_check_in =>
      when EntityCheckInResponse output (fun v => [entityPublication (within v "entity") operationID p])
  | Some (task_get | task_create | task_acknowledge | task_start | task_progress | task_complete | task_fail | task_cancel) =>
      when TaskResource output (fun v => [taskPublication v operationID p])
  | Some runtime_tasks =>
      when RuntimeTaskDeliveryResponse output (fun v => map (fun t => taskPublication t operationID p) (items v "tasks"))
  | Some (object_get | object_create | object_update) =>
      when ObjectDetailResource output (fun v => [objectPublication (objectSummary v) operationID p])
  | Some query_full =>
      when FullDatasetResponse output (fun v =>
        map (fun e => entityPublication e operationID p) (items v "entities") ++
        map (fun t => taskPublication t operationID p) (items v "tasks") ++
        map (fun o => objectPublication (objectSummary o) operationID p) (items v "objects"))
  | Some query_changed_since =>
      when ChangedSinceResponse output (fun v =>
        map (event_publication operationID observedAt p) (collapseChangedSinceEvents (items v "events")))
  | _ => []
  end.

(** [a ?? b] *)
Definition nullish (v : option json) (otherwise : json) : json :=
  match v with Some JNull | None => otherwise | Some v => v end.

(** [picture.snapshot().records.find(record => task with that ID)] *)
Definition find_task (p : SharedPicture) (taskID : list Z) : option PictureRecord :=
  List.find (fun r => is_task (pr_type r) && bool_decide (pr_id r = taskID)) (snd (snapshot compare p)).

Definition is_terminal (status : option json) : bool := isOneOf status ["completed"; "failed"; "cancelled"].

(** What the action makes of the task it reports on. *)
Definition reported_task (current : publication) (m : publication) : json :=
  let observedAt := default JNull (prop m "observation_time") in
  let body := own (default JNull (prop m "body")) in
  let acknowledgedAt := (js "acknowledged_at", nullish (prop current "acknowledged_at") observedAt) in
  let startedAt := (js "started_at", nullish (prop current "started_at") observedAt) in
  let common := member "asset_id" (prop current "asset_id") ++ member "command" (prop current "command") ++
    member "created_at" (prop current "created_at") ++ member "input" (prop current "input") ++
    member "task_id" (prop current "task_id") ++ [(js "updated_at", observedAt)] in
  let reached := member "acknowledged_at" (prop current "acknowledged_at") ++ member "started_at" (prop current "started_at") in
  let action := prop m "action" in
  JObject (common ++
    if is_text action "acknowledge" then [acknowledgedAt; str "status" "acknowledged"]
    else if is_text action "start" then [acknowledgedAt; startedAt; str "status" "in_progress"]
    else if is_text action "progress" then
      [acknowledgedAt; startedAt; str "status" "in_progress"] ++ member "progress" (prop body "progress")
    else if is_text action "complete" then
      [acknowledgedAt; startedAt; (js "finished_at", observedAt); str "status" "completed"; (js "progress", json_int 1)] ++
      member "output" (prop body "output")
    else if is_text action "fail" then
      reached ++ [(js "finished_at", observedAt); str "status" "failed"] ++ member "failure" (prop body "failure")
    else
      reached ++ [(js "finished_at", observedAt); str "status" "cancelled"] ++ member "cancellation" (prop body "cancellation")).

Definition taskReportPublication (m : publication) (p : SharedPicture) (i : FrameIdentity) : option publication :=
  match find_task p (text_of (prop m "task_id")) with
  | None => None
  | Some record =>
      let current := own (pr_state record) in
      if negb (bool_decide (role (Frame.source i) = asset)) ||
         negb (bool_decide (text_of (prop current "asset_id") = id (Frame.source i))) ||
         is_terminal (prop current "status") ||
         (is_text (prop current "status") "in_progress" && isOneOf (prop m "action") ["acknowledge"; "start"]) then None
      else
        Some ([str "type" "state"; str "resource_type" "task"; (js "resource", reported_task current m)] ++
              member "observation_time" (prop m "observation_time") ++
              [str "path" "field"; str "confirmation" "awaiting_core"; (js "operation_id", JString (operation_id i))] ++
              member "runtime_id" (prop m "runtime_id"))
  end.

Definition messagePublications (m : publication) (i : FrameIdentity) (p : SharedPicture) (receivedAt : Z)
    : result (list publication) :=
  if is_text (prop m "type") "state" then Ok [m]
  else if is_text (prop m "type") "task_delivery" then Ok [taskDeliveryPublication m]
  else if is_text (prop m "type") "task_report" then
    Ok (match taskReportPublication m p i with Some x => [x] | None => [] end)
  else if negb (is_text (prop m "type") "data_response") then Ok []
  else
    let! observedAt := toISOString receivedAt in
    let publications := responsePublications m observedAt
      (match role (Frame.source i) with
       | gateway => mkProvenance "gateway_feed" "core_confirmed"
       | asset => mkProvenance "field" "not_required"
       end) in
    Ok (match role (Frame.source i) with
        | asset => List.filter (fun x => negb (is_text (prop x "resource_type") "task")) publications
        | gateway => publications
        end).
End projection.

(** ** Authority *)

Section facts.
Context {validators : Validators} (compare : list Z -> list Z -> Z).

(** What a publication says of its own provenance. *)
Definition provenance (x : publication) : option (list Z) * option (list Z) :=
  (json_string (prop x "path"), json_string (prop x "confirmation")).

Definition from_provenance (p : ResponseProvenance) (x : publication) : Prop :=
  provenance x = (Some (js (path p)), Some (js (confirmation p))).

Lemma when_Forall (P : publication -> Prop) d output f :
  (forall v, Forall P (f v)) -> Forall P (when d output f).
Proof. intros H. unfold when. repeat case_match; auto. Qed.

Lemma prop_skip (m1 m2 : publication) k : jget (js k) m1 = None -> prop (m1 ++ m2) k = prop m2 k.
Proof. intros H. unfold prop. by rewrite jget_app, H. Qed.

Lemma member_skip k k' v : js k' <> js k -> jget (js k') (member k v) = None.
Proof. intros H. destruct v; cbn; [| done]. by rewrite decide_False. Qed.

Ltac provenance :=
  unfold from_provenance, provenance, entityPublication, taskPublication, objectPublication, deletedPublication;
  f_equal; repeat (rewrite prop_skip by (reflexivity || (apply member_skip; discriminate))); reflexivity.

Lemma response_provenance m observedAt p : Forall (from_provenance p) (responsePublications m observedAt p).
Proof.
  assert (He : forall v o, from_provenance p (entityPublication v o p)) by (intros; provenance).
  assert (Ht : forall v o, from_provenance p (taskPublication v o p)) by (intros; provenance).
  assert (Ho : forall v o, from_provenance p (objectPublication v o p)) by (intros; provenance).
  assert (Hd : forall t i v o a, from_provenance p (deletedPublication t i v o a p)) by (intros; provenance).
  assert (Hm : forall (f : json -> publication) l, (forall v, from_provenance p (f v)) -> Forall (from_provenance p) (map f l)).
  { intros f l H. induction l; constructor; auto. }
  unfold responsePublications. repeat case_match; try constructor; apply when_Forall; intros v;
    repeat (apply list.Forall_app; split); auto.
  apply Hm. intros e. unfold event_publication. repeat case_match; auto.
Qed.

Lemma is_text_other v a b : is_text v a = true -> js a <> js b -> is_text v b = false.
Proof.
  unfold is_text. destruct (json_string v); [| done]. intros ->%bool_decide_eq_true H. by apply bool_decide_eq_false.
Qed.

(** An Asset's response or report never speaks for Core: what it adds to
    the picture is marked as seen in the field and unconfirmed, and it touches a
    task only by a report on a task assigned to that Asset which the picture
    does not hold as finished. *)
Theorem asset_claims_no_authority (m : publication) (i : FrameIdentity) (p : SharedPicture) (receivedAt : Z)
    (publications : list publication) (x : publication)
    (Hrole : role (Frame.source i) = asset)
    (Htype : isOneOf (prop m "type") ["data_response"; "task_report"] = true)
    (Hok : messagePublications compare m i p receivedAt = Ok publications) (Hx : x ∈ publications) :
  (provenance x = (Some (js "field"), Some (js "not_required")) /\ is_text (prop x "resource_type") "task" = false /\
   is_text (prop m "type") "data_response" = true) \/
  (provenance x = (Some (js "field"), Some (js "awaiting_core")) /\ is_text (prop m "type") "task_report" = true /\
   exists record, find_task compare p (text_of (prop m "task_id")) = Some record /\
     text_of (prop (own (pr_state record)) "asset_id") = id (Frame.source i) /\
     is_terminal (prop (own (pr_state record)) "status") = false).
Proof.
  unfold messagePublications in Hok. unfold isOneOf in Htype. cbn [existsb] in Htype. rewrite orb_false_r in Htype.
  apply orb_true_iff in Htype as [Ht | Ht];
    repeat (rewrite (is_text_other _ _ _ Ht) in Hok by discriminate); rewrite Ht in Hok.
  - left. cbn [negb] in Hok. rewrite Hrole in Hok. inv_result.
    apply list_elem_of_In, List.filter_In in Hx as [Hx%list_elem_of_In Htask%negb_true_iff].
    pose proof (response_provenance m a (mkProvenance "field" "not_required")) as Hp.
    rewrite Forall_elem in Hp. split; [by apply Hp |]. by split.
  - right. unfold taskReportPublication in Hok.
    destruct (find_task compare p (text_of (prop m "task_id"))) as [record |]; [| inv_result; by apply elem_of_nil in Hx].
    match type of Hok with context [if ?b then _ else _] => destruct b eqn:Hg end; inv_result; [by apply elem_of_nil in Hx |].
    apply list_elem_of_singleton in Hx. subst x.
    apply orb_false_iff in Hg as [[[_ Ha]%orb_false_iff Hend]%orb_false_iff _].
    apply negb_false_iff, bool_decide_eq_true in Ha.
    split; [provenance |].
    split; [done |]. by exists record.
Qed.
End facts.

(** ** Samples *)

Definition code_order (a b : list Z) : Z := if bool_decide (a = b) then 0 else if str_leb a b then -1 else 1.

Definition sample_report : list (list Z * json) :=
  [str "type" "task_report"; str "task_id" "t1"; str "runtime_id" "r1"; str "action" "complete";
   str "observation_time" "2026-01-01T00:00:05Z"; (js "body", JObject [])].

Definition sample_reporter : FrameIdentity :=
  mkIdentity 1 task_report (mkNode asset (js "a1")) (Some (mkNode gateway (js "g"))) 1 (js "boot") 7 (js "op") (js "m") None task.

Definition sample_publication_of_report : list (list Z * json) :=
  match messagePublications (validators := sample_validators) code_order sample_report sample_reporter sample_2 9000 with
  | Ok (x :: _) => x
  | _ => []
  end.

Lemma asset_claims_no_authority_witness :
  text_of (member_of (prop sample_publication_of_report "resource") "status") = js "completed" /\
  exists record, find_task code_order sample_2 (js "t1") = Some record /\
    text_of (prop (own (pr_state record)) "asset_id") = js "a1".
Proof.
  split; [vm_compute; reflexivity |].
  destruct (asset_claims_no_authority (validators := sample_validators) code_order sample_report sample_reporter sample_2 9000
              [sample_publication_of_report] sample_publication_of_report) as [H | (_ & _ & record & H1 & H2 & _)].
  - reflexivity.
  - vm_compute. reflexivity.
  - vm_compute. reflexivity.
  - apply list_elem_of_singleton. reflexivity.
  - exfalso. revert H. vm_compute. intros (_ & H & _). discriminate H.
  - exists record. split; [exact H1 | exact H2].
Defined.
