(* ===== verification/SdkSubscriptions.v ===== *)
(** * Subscriptions of the SDK ([sdk/src/subscriptions.ts], [resource-id.ts])

    The filters an application subscribes to, the keys they are stored under,
    which filter makes another redundant and which events a filter selects; the
    keys of cached resources. *)

From Stdlib Require Import ZArith Lia String.
From stdpp Require Import base list option.
From S2P Require Import Prelude JsMap Wtf8 Json JsonText JsonRoundtrip Contract.

Open Scope string_scope.
Open Scope list_scope.
Open Scope Z_scope.

Inductive ResourceType := entity | task | object.
#[export] Instance ResourceType_eq_dec : EqDecision ResourceType.
Proof. solve_decision. Defined.

Definition type_name (t : ResourceType) : string :=
  match t with entity => "entity" | task => "task" | object => "object" end.

Definition type_text (t : ResourceType) : list Z := js (type_name t).

Definition isResourceType (s : list Z) : option ResourceType :=
  if bool_decide (s = js "entity") then Some entity
  else if bool_decide (s = js "task") then Some task
  else if bool_decide (s = js "object") then Some object else None.

Inductive AtlasSubscription :=
| filter_all
| filter_id (resource_type : ResourceType) (id : list Z)
| filter_type (resource_type : ResourceType)
| filter_tasks_for_asset (asset_id : list Z).

Inductive EventName := create | update | delete | local_delete.
#[export] Instance EventName_eq_dec : EqDecision EventName.
Proof. solve_decision. Defined.

(** A feed event, or the event of a local deletion ([previous_version]). *)
Record AtlasWatchEvent := mkWatchEvent {
  we_event : EventName;
  we_type : ResourceType;
  we_id : list Z;
  we_version : option Z;
  we_resource : option json
}.

(** ** Identifiers *)

Fixpoint trimStart (s : list Z) : list Z :=
  match s with
  | [] => []
  | c :: s' => if is_space c then trimStart s' else s
  end.

Definition trim (s : list Z) : list Z := rev (trimStart (rev (trimStart s))).

Definition normalizeResourceID (name : string) (value : list Z) : result (list Z) :=
  let normalized := trim value in
  guard! negb (bool_decide (normalized = [])) else TypeError (name ++ " must not be empty")%string in
  Ok normalized.

Definition normalizeSubscription (filter : AtlasSubscription) : result AtlasSubscription :=
  match filter with
  | filter_all | filter_type _ => Ok filter
  | filter_id t id => let! id := normalizeResourceID (type_name t ++ "_id")%string id in Ok (filter_id t id)
  | filter_tasks_for_asset a => let! a := normalizeResourceID "asset_id" a in Ok (filter_tasks_for_asset a)
  end.

Definition filter_json (filter : AtlasSubscription) : list (list Z * json) :=
  match filter with
  | filter_all => [(js "filter", JString (js "all"))]
  | filter_id t id => [(js "filter", JString (js "id")); (js "resource_type", JString (type_text t)); (js "id", JString id)]
  | filter_type t => [(js "filter", JString (js "type")); (js "resource_type", JString (type_text t))]
  | filter_tasks_for_asset a => [(js "filter", JString (js "tasks_for_asset")); (js "asset_id", JString a)]
  end.

Definition subscriptionMessage (action : string) (filter : AtlasSubscription) : result json :=
  let! normalized := normalizeSubscription filter in
  Ok (JObject ((js "action", JString (js action)) :: filter_json normalized)).

(** ** Keys *)

Definition strings_json (l : list (list Z)) : json := JArray (map JString l).

Definition key_parts (filter : AtlasSubscription) : list (list Z) :=
  match filter with
  | filter_all => [js "all"]
  | filter_id t id => [js "id"; type_text t; id]
  | filter_type t => [js "type"; type_text t]
  | filter_tasks_for_asset a => [js "tasks_for_asset"; a]
  end.

Definition subscriptionKey (filter : AtlasSubscription) : result (list Z) :=
  let! normalized := normalizeSubscription filter in Ok (stringify (strings_json (key_parts normalized))).

Definition all_strings (v : json) : option (list (list Z)) :=
  match v with
  | JArray l => mapM (fun x => match x with JString s => Some s | _ => None end) l
  | _ => None
  end.

Definition parse_parts (parts : list (list Z)) : option AtlasSubscription :=
  match parts with
  | [kind] => if bool_decide (kind = js "all") then Some filter_all else None
  | [kind; second] =>
      if bool_decide (kind = js "type") then filter_type <$> isResourceType second
      else if bool_decide (kind = js "tasks_for_asset") && negb (bool_decide (trim second = []))
      then Some (filter_tasks_for_asset (trim second)) else None
  | [kind; second; id] =>
      if bool_decide (kind = js "id") then
        t ← isResourceType second; if negb (bool_decide (trim id = [])) then Some (filter_id t (trim id)) else None
      else None
  | _ => None
  end.

Definition parseSubscriptionKey (key : list Z) : result AtlasSubscription :=
  let parsed := match JSON_parse key with Ok v => all_strings v | Throw _ => None end in
  from_option (parts ← parsed; parse_parts parts) (PlainError "invalid subscription key").

(** ** Filters and events *)

Definition covers (covering wanted : AtlasSubscription) : result bool :=
  match covering, wanted with
  | filter_all, _ => Ok true
  | filter_type t, filter_id t' _ => Ok (bool_decide (t = t'))
  | _, _ =>
      let! a := subscriptionKey covering in
      let! b := subscriptionKey wanted in
      Ok (bool_decide (a = b))
  end.

Definition matchesSubscription (filter : AtlasSubscription) (e : AtlasWatchEvent) : result bool :=
  let! normalized := normalizeSubscription filter in
  Ok match normalized with
     | filter_all => true
     | filter_id t id => bool_decide (we_type e = t) && bool_decide (we_id e = id)
     | filter_type t => bool_decide (we_type e = t)
     | filter_tasks_for_asset a =>
         bool_decide (we_type e = task) &&
         match member_of (we_resource e) "asset_id" with Some (JString s) => bool_decide (s = a) | _ => false end
     end.

(** ** Resources *)

(** ["key" in resource] *)
Definition in_resource (resource : json) (key : string) : bool :=
  match resource with JObject m => jhas (js key) m | _ => false end.

Definition resourceMatchesType (t : ResourceType) (resource : json) : bool :=
  match t with
  | entity => in_resource resource "entity_id" && in_resource resource "entity_type"
  | task => in_resource resource "task_id"
  | object => in_resource resource "object_id"
  end.

Definition resourceTypeName (resource : json) : ResourceType :=
  if in_resource resource "task_id" then task else if in_resource resource "object_id" then object else entity.

Definition assertResourceMatchesType (t : ResourceType) (resource : json) : result unit :=
  guard! resourceMatchesType t resource
    else TypeError ("Atlas " ++ type_name (resourceTypeName resource) ++ " resource cannot be used as " ++ type_name t)%string in
  Ok tt.

Definition id_field (t : ResourceType) : string := (type_name t ++ "_id")%string.

Definition resourceID (t : ResourceType) (resource : json) : result (list Z) :=
  let! _ := assertResourceMatchesType t resource in Ok (text_of (member_of (Some resource) (id_field t))).

Definition assertResourceMatchesSubscription (filter : AtlasSubscription) (resource : json) : result unit :=
  match filter with
  | filter_all => Ok tt
  | filter_tasks_for_asset _ => assertResourceMatchesType task resource
  | filter_id t _ | filter_type t => assertResourceMatchesType t resource
  end.

Definition resourceCacheKey (t : ResourceType) (id : list Z) : result (list Z) :=
  guard! negb (bool_decide (id = [])) && bool_decide (trim id = id)
    else TypeError ("Atlas " ++ type_name t ++ "_id must be canonical")%string in
  Ok (stringify (strings_json [type_text t; id])).

(** [type] is an entity or an object. *)
Definition localDeleteEvent (t : ResourceType) (id : list Z) (previousVersion : Z) : AtlasWatchEvent :=
  mkWatchEvent local_delete t id (if 0 <? previousVersion then Some previousVersion else None) None.

Definition resourceUpsertEvent (t : ResourceType) (created : bool) (id : list Z) (version : Z) (resource : json)
    : result AtlasWatchEvent :=
  let! actualID := resourceID t resource in
  guard! bool_decide (actualID = id) else TypeError ("Atlas " ++ type_name t ++ " resource id does not match event id")%string in
  Ok (mkWatchEvent (if created then create else update) t id (Some version) (Some resource)).

(** ** Trimming *)

#[local] Arguments is_space : simpl never.

Lemma trimStart_suffix s : exists spaces, s = spaces ++ trimStart s /\ Forall (fun c => is_space c = true) spaces.
Proof.
  induction s as [| c s (spaces & E & H)]; cbn; [exists []; split; [done | constructor] |].
  destruct (is_space c) eqn:Hc; [| exists []; split; [done | constructor]]. exists (c :: spaces). split; [cbn; congruence | by constructor].
Qed.

Lemma trimStart_idem s : trimStart (trimStart s) = trimStart s.
Proof. induction s as [| c s IH]; cbn; [done |]. destruct (is_space c) eqn:Hc; [exact IH |]. cbn. by rewrite Hc. Qed.

Lemma trimStart_head s c s' : trimStart s = c :: s' -> is_space c = false.
Proof. induction s as [| d s IH]; cbn; [done |]. destruct (is_space d) eqn:Hd; [done |]. by intros [= <- _]. Qed.

Lemma trimStart_fixed s : match s with c :: _ => is_space c = false | [] => True end -> trimStart s = s.
Proof. destruct s as [| c s]; cbn; [done |]. by intros ->. Qed.

(** Trimming does nothing to trimmed text. *)
Lemma trim_idem s : trim (trim s) = trim s.
Proof.
  unfold trim. set (t := trimStart s). set (u := trimStart (rev t)).
  assert (Hu : trimStart u = u) by apply trimStart_idem.
  rewrite (trimStart_fixed (rev u)); [by rewrite rev_involutive, Hu |].
  destruct (trimStart_suffix (rev t)) as (sp & E & _). fold u in E.
  assert (Et : t = rev u ++ rev sp) by (rewrite <- (rev_involutive t), E; apply rev_app_distr).
  destruct (rev u) as [| c v] eqn:Hr; [done |]. apply (trimStart_head s c (v ++ rev sp)). fold t. by rewrite Et.
Qed.

Lemma trimStart_units s : is_jsstr s -> is_jsstr (trimStart s).
Proof. destruct (trimStart_suffix s) as (sp & E & _). rewrite E at 1. by intros [_ ?]%list.Forall_app. Qed.

Lemma trim_units s : is_jsstr s -> is_jsstr (trim s).
Proof. intros H. unfold trim. apply List.Forall_rev, trimStart_units, List.Forall_rev, trimStart_units, H. Qed.

Lemma normalizeResourceID_ok name s t :
  normalizeResourceID name s = Ok t -> t = trim s /\ t <> [] /\ trim t = t.
Proof.
  unfold normalizeResourceID. case_bool_decide; [done |]. intros [= <-]. split_and!; [done | done | apply trim_idem].
Qed.

(** ** Keys *)

Lemma parse_strings parts : Forall is_jsstr parts -> JSON_parse (stringify (strings_json parts)) = Ok (strings_json parts).
Proof.
  intros H. rewrite JSON_parse_stringify.
  - unfold strings_json. cbn. rewrite map_map. done.
  - constructor. apply List.Forall_map. eapply Forall_weaken; [exact H |]. intros s Hs. by constructor.
  - cbn. rewrite forallb_forall. by intros v (s & <- & _)%in_map_iff.
Qed.

Lemma all_strings_json parts : all_strings (strings_json parts) = Some parts.
Proof. cbn. induction parts as [| s parts IH]; cbn; [done |]. cbn in IH. by rewrite IH. Qed.

Lemma strings_json_inj parts parts' : Forall is_jsstr parts -> Forall is_jsstr parts' ->
  stringify (strings_json parts) = stringify (strings_json parts') -> parts = parts'.
Proof.
  intros H H' E. apply (f_equal JSON_parse) in E. rewrite !parse_strings in E by done. apply ok_inj in E.
  apply (f_equal all_strings) in E. rewrite !all_strings_json in E. by injection E.
Qed.

Ltac units := repeat first [apply js_units | assumption | apply List.Forall_nil | apply List.Forall_cons].

(** The identifiers of a filter are JavaScript strings. *)
Definition wf_filter (f : AtlasSubscription) : Prop :=
  match f with filter_id _ s | filter_tasks_for_asset s => is_jsstr s | _ => True end.

Lemma type_text_known t : isResourceType (type_text t) = Some t.
Proof. by destruct t. Qed.

Lemma normalizeSubscription_parts f n :
  wf_filter f -> normalizeSubscription f = Ok n -> Forall is_jsstr (key_parts n) /\ parse_parts (key_parts n) = Some n /\
  normalizeSubscription n = Ok n.
Proof.
  intros Hf H. destruct f as [| t s | t | a]; cbn in H.
  - injection H as <-. split_and!; [units | done | done].
  - apply bind_ok in H as (s' & Hs & [= <-]). pose proof (normalizeResourceID_ok _ _ _ Hs) as (E & Hne & Ht).
    split_and!.
    + assert (is_jsstr s') by (subst s'; by apply trim_units). units.
    + cbn [parse_parts key_parts]. rewrite bool_decide_true by done. rewrite type_text_known. cbn.
      rewrite Ht, bool_decide_false by done. done.
    + cbn. unfold normalizeResourceID. by rewrite Ht, bool_decide_false.
  - injection H as <-. split_and!; [units | | done]. cbn. by destruct t.
  - apply bind_ok in H as (s' & Hs & [= <-]). pose proof (normalizeResourceID_ok _ _ _ Hs) as (E & Hne & Ht).
    split_and!.
    + assert (is_jsstr s') by (subst s'; by apply trim_units). units.
    + cbn [key_parts parse_parts]. change (bool_decide (js "tasks_for_asset" = js "type")) with false.
      change (bool_decide (js "tasks_for_asset" = js "tasks_for_asset")) with true. cbn [andb]. by rewrite Ht, bool_decide_false.
    + cbn. unfold normalizeResourceID. by rewrite Ht, bool_decide_false.
Qed.

Lemma subscriptionKey_ok f k : subscriptionKey f = Ok k ->
  exists n, normalizeSubscription f = Ok n /\ k = stringify (strings_json (key_parts n)).
Proof. unfold subscriptionKey. intros (n & Hn & [= <-])%bind_ok. eauto. Qed.

Lemma subscriptionKey_inj f g k : wf_filter f -> wf_filter g -> subscriptionKey f = Ok k -> subscriptionKey g = Ok k ->
  normalizeSubscription f = normalizeSubscription g.
Proof.
  intros Hf Hg (n & Hn & ->)%subscriptionKey_ok (n' & Hn' & E)%subscriptionKey_ok. rewrite Hn, Hn'. f_equal.
  destruct (normalizeSubscription_parts _ _ Hf Hn) as (U & P & _). destruct (normalizeSubscription_parts _ _ Hg Hn') as (U' & P' & _).
  apply strings_json_inj in E; [| done | done]. rewrite E in P. congruence.
Qed.

(** ** The properties *)

(** The key a subscription is stored under reads back as the subscription
    itself, its identifiers trimmed: [parseSubscriptionKey] inverts
    [subscriptionKey] on every filter that has a key. *)
Theorem subscription_key_roundtrip f k :
  wf_filter f -> subscriptionKey f = Ok k -> exists n, normalizeSubscription f = Ok n /\ parseSubscriptionKey k = Ok n.
Proof.
  intros Hf (n & Hn & ->)%subscriptionKey_ok. exists n. split; [done |].
  destruct (normalizeSubscription_parts _ _ Hf Hn) as (U & P & _).
  unfold parseSubscriptionKey. rewrite parse_strings by done. by rewrite all_strings_json; cbn; rewrite P.
Qed.

Definition sample_filter : AtlasSubscription := filter_id task (js " t-1").

Lemma subscription_key_roundtrip_witness :
  wf_filter sample_filter /\ subscriptionKey sample_filter = Ok (stringify (strings_json [js "id"; js "task"; js "t-1"])) /\
  exists n, normalizeSubscription sample_filter = Ok n /\
    parseSubscriptionKey (stringify (strings_json [js "id"; js "task"; js "t-1"])) = Ok n.
Proof.
  assert (Hf : wf_filter sample_filter) by apply js_units.
  assert (Hk : subscriptionKey sample_filter = Ok (stringify (strings_json [js "id"; js "task"; js "t-1"]))) by (vm_compute; reflexivity).
  split; [exact Hf |]. split; [exact Hk |]. exact (subscription_key_roundtrip sample_filter _ Hf Hk).
Defined.

(** A cache read is only answered from a subscription that covers it, and
    covering is sound: every event the wanted filter selects is selected by the
    covering one. *)
Theorem covers_sound covering wanted e :
  wf_filter covering -> wf_filter wanted -> covers covering wanted = Ok true -> matchesSubscription wanted e = Ok true ->
  matchesSubscription covering e = Ok true.
Proof.
  intros Hc Hw Hcov Hm.
  assert (Hsame : (let! a := subscriptionKey covering in let! b := subscriptionKey wanted in Ok (bool_decide (a = b))) = Ok true ->
    matchesSubscription covering e = Ok true).
  { intros (a & Ha & (b & Hb & E)%bind_ok)%bind_ok. apply ok_inj, bool_decide_eq_true in E as ->.
    unfold matchesSubscription in *. by rewrite (subscriptionKey_inj covering wanted b). }
  destruct covering as [| t s | t | a]; [done | by apply Hsame | | by apply Hsame].
  destruct wanted as [| t' s' | t' | a']; try by apply Hsame.
  cbn in Hcov. apply ok_inj, bool_decide_eq_true in Hcov as <-. unfold matchesSubscription in *. cbn in *.
  apply bind_ok in Hm as (n & (s & _ & [= <-])%bind_ok & E). apply ok_inj in E. by apply andb_true_iff in E as [-> _].
Qed.

Definition sample_event : AtlasWatchEvent := mkWatchEvent delete object (js "o1") (Some 4) None.

Lemma covers_sound_witness :
  covers (filter_type object) (filter_id object (js "o1")) = Ok true /\
  matchesSubscription (filter_id object (js "o1")) sample_event = Ok true /\
  matchesSubscription (filter_type object) sample_event = Ok true.
Proof.
  assert (H1 : covers (filter_type object) (filter_id object (js "o1")) = Ok true) by (vm_compute; reflexivity).
  assert (H2 : matchesSubscription (filter_id object (js "o1")) sample_event = Ok true) by (vm_compute; reflexivity).
  split; [exact H1 |]. split; [exact H2 |].
  exact (covers_sound (filter_type object) (filter_id object (js "o1")) sample_event I (js_units "o1") H1 H2).
Defined.

(** ** Cache keys *)

Lemma resourceCacheKey_inj t t' s s' k : is_jsstr s -> is_jsstr s' ->
  resourceCacheKey t s = Ok k -> resourceCacheKey t' s' = Ok k -> t = t' /\ s = s'.
Proof.
  intros Hs Hs'. unfold resourceCacheKey. case_match; [| done]. intros E1%ok_inj. case_match; [| done]. intros E%ok_inj.
  rewrite <- E1 in E. apply strings_json_inj in E; [| units | units].
  injection E as E ->. split; [| done]. by destruct t, t'.
Qed.
