(* ===== verification/JsState.v ===== *)
(** * Effects on an object

    A method that mutates its object and may throw: the state it leaves is kept
    whether it returns or throws, as in the source. *)

From stdpp Require Import base list option.
From S2P Require Import Prelude.



Definition eff (S A : Type) := S -> result A * S.

Section eff.
Context {S : Type}.

Definition ret {A} (a : A) : eff S A := fun s => (Ok a, s).
Definition throw {A} (e : js_error) : eff S A := fun s => (Throw e, s).
Definition lift {A} (r : result A) : eff S A := fun s => (r, s).
Definition gets {A} (f : S -> A) : eff S A := fun s => (Ok (f s), s).
Definition modify (f : S -> S) : eff S unit := fun s => (Ok tt, f s).

Definition bind_eff {A B} (m : eff S A) (k : A -> eff S B) : eff S B :=
  fun s => match m s with (Ok a, s') => k a s' | (Throw e, s') => (Throw e, s') end.

(** A sequence that returned returned at each step. *)
Lemma bind_eff_inv {A B} (m : eff S A) (k : A -> eff S B) s b s' :
  bind_eff m k s = (Ok b, s') -> exists a s1, m s = (Ok a, s1) /\ k a s1 = (Ok b, s').
Proof. unfold bind_eff. destruct (m s) as [[a | e] s1]; [| done]. intros E. by exists a, s1. Qed.

(** [for (const x of l) f(x)] *)
Fixpoint for_each {A} (f : A -> eff S unit) (l : list A) : eff S unit :=
  match l with
  | [] => ret tt
  | x :: l' => bind_eff (f x) (fun _ => for_each f l')
  end.

(** A relation between the state before and after that every part keeps. *)
Definition keeps (R : S -> S -> Prop) {A} (m : eff S A) : Prop := forall s, R s (snd (m s)).

Lemma keeps_ret (R : S -> S -> Prop) `{!Reflexive R} {A} (a : A) : keeps R (ret a).
Proof. by intros s. Qed.

Lemma keeps_lift (R : S -> S -> Prop) `{!Reflexive R} {A} (r : result A) : keeps R (lift r).
Proof. by intros s. Qed.

Lemma keeps_gets (R : S -> S -> Prop) `{!Reflexive R} {A} (f : S -> A) : keeps R (gets f).
Proof. by intros s. Qed.

Lemma keeps_modify (R : S -> S -> Prop) f : (forall s, R s (f s)) -> keeps R (modify f).
Proof. done. Qed.

Lemma keeps_bind (R : S -> S -> Prop) `{!Transitive R} {A B} (m : eff S A) (k : A -> eff S B) :
  keeps R m -> (forall a, keeps R (k a)) -> keeps R (bind_eff m k).
Proof.
  intros Hm Hk s. unfold bind_eff. specialize (Hm s). destruct (m s) as [[a | e] s'] eqn:E; [| done].
  etrans; [exact Hm | apply Hk].
Qed.

Lemma keeps_for_each (R : S -> S -> Prop) `{!PreOrder R} {A} (f : A -> eff S unit) l :
  (forall x, x ∈ l -> keeps R (f x)) -> keeps R (for_each f l).
Proof.
  induction l as [| x l IH]; intros H; [apply keeps_ret, _ |]. apply keeps_bind; [apply _ | apply H; by left |].
  intros _. apply IH. intros y Hy. apply H. by right.
Qed.
End eff.

Notation "'do!' x ':=' m 'in' k" := (bind_eff m (fun x => k))
  (at level 10, x pattern, m at level 100, k at level 200) : js_scope.

Create HintDb keeps.
#[export] Hint Resolve keeps_ret keeps_lift keeps_gets : keeps.

(** * Assigning a field of a record

    [s <| f := v |>] is the record [s] with the field [f] set to [v], and
    [s <| f ::= h |>] with [f] passed through [h]: what [s.f = v] does to an
    object.  A record type says once how it is rebuilt from its fields; the
    assignment of each field is derived from that. *)

(** How a record is rebuilt from its fields: the identity, eta-expanded. *)
Class Rebuild (R : Type) := rebuild : R -> R.

Class Assign {R A : Type} (field : R -> A) := assign : (A -> A) -> R -> R.
Arguments assign {R A} field {_} _ _ /.

(** In the expanded identity, the field is read through the change. *)
Ltac derive_assign :=
  lazymatch goal with
  | |- @Assign ?R ?A ?field =>
      let whole := eval hnf in (@rebuild R _) in
      let abstracted := eval pattern field in whole in
      lazymatch abstracted with
      | ?body field => exact (fun change : A -> A => body (fun r : R => change (field r)))
      end
  end.

#[export] Hint Extern 1 (Assign _) => derive_assign : typeclass_instances.

Declare Scope record_scope.
Delimit Scope record_scope with record.
Open Scope record_scope.

Notation "r <| f := v |>" := (assign f (fun _ => v) r)
  (at level 1, f constr at level 1, v at level 99, left associativity) : record_scope.
Notation "r <| f ::= h |>" := (assign f h r)
  (at level 1, f constr at level 1, h at level 99, left associativity) : record_scope.
