(* ===== verification/ResourceCache.v ===== *)
(** * The SDK's resource cache ([sdk/src/cache.ts])

    What an application reads between two feed events: the entries of three
    resource types with their versions, the point reads and local deletions in
    flight, and the snapshots handed to watchers. *)

From Stdlib Require Import ZArith Lia String.
From stdpp Require Import base list option.
From S2P Require Import Prelude JsState JsMap Json Frame Contract SdkSubscriptions.

Open Scope string_scope.
Open Scope list_scope.
Open Scope Z_scope.

(** ** Data *)

(** An entry is an object the operations compare by identity: [ce_ref]. *)
Record CacheEntry := mkEntry {
  ce_ref : Z;
  ce_value : option json;
  ce_version : Z;
  ce_deleted : bool;
  ce_detail : bool
}.

Record ResourceReadOptions := mkOptions {
  ro_detail : bool;
  ro_version : option Z;
  ro_replaceSameVersion : bool
}.
Definition no_options : ResourceReadOptions := mkOptions false None false.

Record PointReadOperation := mkRead {
  pr_type : ResourceType;
  pr_id : list Z;
  pr_generation : Z;
  pr_hydrationEpoch : Z;
  pr_sequence : Z;
  pr_observedEntry : option CacheEntry
}.

Inductive PointReadStatus := pending | succeeded | failed | not_found.
#[export] Instance PointReadStatus_eq_dec : EqDecision PointReadStatus.
Proof. solve_decision. Defined.

Record PointReadState := mkReadState { ps_sequence : Z; ps_status : PointReadStatus }.

Record LocalDeleteOperation := mkDelete {
  ld_type : ResourceType;
  ld_id : list Z;
  ld_observedEntry : option CacheEntry;
  ld_learnedEntry : option CacheEntry;
  ld_recreated : bool;
  ld_reconcile : bool;
  ld_remote : bool
}.

Definition ResourceChange : Type := AtlasWatchEvent * option json.

(** ** Snapshot records *)

Record SnapshotRecord := mkSnapshot {
  sr_entries : list (list Z * json);
  sr_value : list (list Z * json);
  sr_dirty : bool
}.

Definition new_record : SnapshotRecord := mkSnapshot [] [] false.
Definition sr_set (id : list Z) (value : json) (r : SnapshotRecord) : SnapshotRecord :=
  mkSnapshot (jset id value (sr_entries r)) (sr_value r) true.
Definition sr_remove (id : list Z) (r : SnapshotRecord) : bool * SnapshotRecord :=
  if jhas id (sr_entries r) then (true, mkSnapshot (jdel id (sr_entries r)) (sr_value r) true) else (false, r).
Definition sr_clear (r : SnapshotRecord) : SnapshotRecord := mkSnapshot [] (sr_value r) true.
(** [Object.fromEntries] orders the properties of the object it makes. *)
Definition sr_snapshot (r : SnapshotRecord) : list (list Z * json) * SnapshotRecord :=
  if sr_dirty r then (own_properties (sr_entries r), mkSnapshot (sr_entries r) (own_properties (sr_entries r)) false)
  else (sr_value r, r).

(** ** The cache *)

Record PerType (A : Type) := mkPer { per_entity : A; per_task : A; per_object : A }.
Arguments mkPer {A}.
Arguments per_entity {A}.
Arguments per_task {A}.
Arguments per_object {A}.

Definition of_type {A} (t : ResourceType) (p : PerType A) : A :=
  match t with entity => per_entity p | task => per_task p | object => per_object p end.
Definition set_type {A} (t : ResourceType) (v : A) (p : PerType A) : PerType A :=
  match t with
  | entity => mkPer v (per_task p) (per_object p)
  | task => mkPer (per_entity p) v (per_object p)
  | object => mkPer (per_entity p) (per_task p) v
  end.

Definition SyncSnapshot : Type := PerType (list (list Z * json)).

(** Reads and deletions in flight. A deletion is an object its caller keeps, so
    it outlives its removal from the set [localDeleteOperations]: every object
    made is listed, with whether the set still holds it. *)
Record InFlight := mkInFlight {
  pendingDeletes : list (list Z * unit);
  localDeleteKeys : list (list Z * unit);
  localDeleteInstances : list (list Z * list Z);
  locallyNotifiedDeletes : list (list Z * unit);
  localDeleteOperations : list (Z * (bool * LocalDeleteOperation));
  generations : list (list Z * Z);
  pointReadStates : list (list Z * PointReadState);
  deferredPointNotFound : list (list Z * PointReadOperation);
  hydrationEpoch : Z
}.

Record ResourceCache := mkCache {
  entries : PerType (list (list Z * CacheEntry));
  next_ref : Z;
  flight : InFlight;
  snapshotRecords : PerType SnapshotRecord;
  snapshotValue : SyncSnapshot;
  snapshotDirty : bool
}.

Definition snapshotFromRecords (r : PerType SnapshotRecord) : SyncSnapshot * PerType SnapshotRecord :=
  let '(e, re) := sr_snapshot (per_entity r) in
  let '(t, rt) := sr_snapshot (per_task r) in
  let '(o, ro) := sr_snapshot (per_object r) in
  (mkPer e t o, mkPer re rt ro).

Definition new_flight (epoch : Z) : InFlight := mkInFlight [] [] [] [] [] [] [] [] epoch.
Definition new_cache : ResourceCache :=
  mkCache (mkPer [] [] []) 0 (new_flight 0) (mkPer new_record new_record new_record) (mkPer [] [] []) false.

Definition with_flight (f : InFlight -> InFlight) (c : ResourceCache) : ResourceCache :=
  mkCache (entries c) (next_ref c) (f (flight c)) (snapshotRecords c) (snapshotValue c) (snapshotDirty c).

Definition with_pendingDeletes f (i : InFlight) : InFlight :=
  mkInFlight (f (pendingDeletes i)) (localDeleteKeys i) (localDeleteInstances i) (locallyNotifiedDeletes i)
    (localDeleteOperations i) (generations i) (pointReadStates i) (deferredPointNotFound i) (hydrationEpoch i).
Definition with_localDeleteKeys f (i : InFlight) : InFlight :=
  mkInFlight (pendingDeletes i) (f (localDeleteKeys i)) (localDeleteInstances i) (locallyNotifiedDeletes i)
    (localDeleteOperations i) (generations i) (pointReadStates i) (deferredPointNotFound i) (hydrationEpoch i).
Definition with_localDeleteInstances f (i : InFlight) : InFlight :=
  mkInFlight (pendingDeletes i) (localDeleteKeys i) (f (localDeleteInstances i)) (locallyNotifiedDeletes i)
    (localDeleteOperations i) (generations i) (pointReadStates i) (deferredPointNotFound i) (hydrationEpoch i).
Definition with_locallyNotifiedDeletes f (i : InFlight) : InFlight :=
  mkInFlight (pendingDeletes i) (localDeleteKeys i) (localDeleteInstances i) (f (locallyNotifiedDeletes i))
    (localDeleteOperations i) (generations i) (pointReadStates i) (deferredPointNotFound i) (hydrationEpoch i).
Definition with_localDeleteOperations f (i : InFlight) : InFlight :=
  mkInFlight (pendingDeletes i) (localDeleteKeys i) (localDeleteInstances i) (locallyNotifiedDeletes i)
    (f (localDeleteOperations i)) (generations i) (pointReadStates i) (deferredPointNotFound i) (hydrationEpoch i).
Definition with_generations f (i : InFlight) : InFlight :=
  mkInFlight (pendingDeletes i) (localDeleteKeys i) (localDeleteInstances i) (locallyNotifiedDeletes i)
    (localDeleteOperations i) (f (generations i)) (pointReadStates i) (deferredPointNotFound i) (hydrationEpoch i).
Definition with_pointReadStates f (i : InFlight) : InFlight :=
  mkInFlight (pendingDeletes i) (localDeleteKeys i) (localDeleteInstances i) (locallyNotifiedDeletes i)
    (localDeleteOperations i) (generations i) (f (pointReadStates i)) (deferredPointNotFound i) (hydrationEpoch i).
Definition with_deferredPointNotFound f (i : InFlight) : InFlight :=
  mkInFlight (pendingDeletes i) (localDeleteKeys i) (localDeleteInstances i) (locallyNotifiedDeletes i)
    (localDeleteOperations i) (generations i) (pointReadStates i) (f (deferredPointNotFound i)) (hydrationEpoch i).

Definition in_flight (f : InFlight -> InFlight) : eff ResourceCache unit := modify (with_flight f).

(** ** Readers *)

Definition entry_of (c : ResourceCache) (t : ResourceType) (id : list Z) : option CacheEntry := jget id (of_type t (entries c)).

Definition value (c : ResourceCache) (t : ResourceType) (id : list Z) : option json :=
  match entry_of c t id with Some e => if ce_deleted e then None else ce_value e | None => None end.

(** [isObjectDetailResource] is generated code. *)
Definition objectDetail (isObjectDetailResource : json -> bool) (c : ResourceCache) (id : list Z) : option json :=
  match entry_of c object id with
  | Some e =>
      match ce_value e with
      | Some v => if ce_detail e && negb (ce_deleted e) && isObjectDetailResource v then Some v else None
      | None => None
      end
  | None => None
  end.

Definition snapshot : eff ResourceCache SyncSnapshot := fun c =>
  if snapshotDirty c then
    let '(v, r) := snapshotFromRecords (snapshotRecords c) in
    (Ok v, mkCache (entries c) (next_ref c) (flight c) r v false)
  else (Ok (snapshotValue c), c).

Definition versionFor (c : ResourceCache) (t : ResourceType) (id : list Z) : Z :=
  match entry_of c t id with Some e => ce_version e | None => 0 end.

Definition generation (c : ResourceCache) (t : ResourceType) (id : list Z) : result Z :=
  let! key := resourceCacheKey t id in Ok (default 0 (jget key (generations (flight c)))).

(** [metadata.created_at], which Core changes when it reuses an identifier. *)
Definition created_at (v : json) : option (list Z) := json_string (member_of (member_of (Some v) "metadata") "created_at").

Definition sameResourceInstance (observed current : option json) : bool :=
  match observed, current with
  | Some o, Some c => in_resource c "metadata" && bool_decide (created_at o = created_at c)
  | _, _ => false
  end.

Definition embeddedResourceVersion (t : ResourceType) (v : json) : Z :=
  if bool_decide (t = task) || negb (in_resource v "metadata") then 0
  else default 0 (json_integer (member_of (member_of (Some v) "metadata") "version")).

(** The same object, or both absent. *)
Definition same_entry (a b : option CacheEntry) : bool := bool_decide (ce_ref <$> a = ce_ref <$> b).

Definition entry_value (e : option CacheEntry) : option json := e ≫= ce_value.
Definition entry_deleted (e : option CacheEntry) : bool := match e with Some e => ce_deleted e | None => false end.


(** ** Acceptance *)

Definition bumpGeneration (t : ResourceType) (id : list Z) : eff ResourceCache unit := fun c =>
  match resourceCacheKey t id with
  | Throw e => (Throw e, c)
  | Ok key => in_flight (with_generations (fun g => jset key (default 0 (jget key g) + 1) g)) c
  end.

Definition is_operation_of (t : ResourceType) (id : list Z) (o : LocalDeleteOperation) : bool :=
  bool_decide (ld_type o = t) && bool_decide (ld_id o = id).

(** [for (const operation of this.localDeleteOperations) ...] *)
Definition each_operation (f : LocalDeleteOperation -> LocalDeleteOperation) : eff ResourceCache unit :=
  in_flight (with_localDeleteOperations (jmap_values (fun (_ : Z) (p : bool * LocalDeleteOperation) => if fst p then (true, f (snd p)) else p))).

Definition some_operation (f : LocalDeleteOperation -> bool) (c : ResourceCache) : bool :=
  existsb (fun p : bool * LocalDeleteOperation => fst p && f (snd p)) (jvalues (localDeleteOperations (flight c))).

Definition set_reconcile (o : LocalDeleteOperation) : LocalDeleteOperation :=
  mkDelete (ld_type o) (ld_id o) (ld_observedEntry o) (ld_learnedEntry o) (ld_recreated o) true (ld_remote o).
Definition set_remote (o : LocalDeleteOperation) : LocalDeleteOperation :=
  mkDelete (ld_type o) (ld_id o) (ld_observedEntry o) (ld_learnedEntry o) (ld_recreated o) (ld_reconcile o) true.
Definition set_recreated (o : LocalDeleteOperation) : LocalDeleteOperation :=
  mkDelete (ld_type o) (ld_id o) (ld_observedEntry o) (ld_learnedEntry o) true (ld_reconcile o) (ld_remote o).
Definition set_learned (e : option CacheEntry) (o : LocalDeleteOperation) : LocalDeleteOperation :=
  mkDelete (ld_type o) (ld_id o) (ld_observedEntry o) e (ld_recreated o) (ld_reconcile o) (ld_remote o).

(** [this.entries[type].set(id, { ... })]: a new object. *)
Definition set_entry (t : ResourceType) (id : list Z) (v : option json) (version : Z) (deleted detail : bool)
    : eff ResourceCache unit :=
  modify (fun c =>
    mkCache (set_type t (jset id (mkEntry (next_ref c) v version deleted detail) (of_type t (entries c))) (entries c))
      (next_ref c + 1) (flight c) (snapshotRecords c) (snapshotValue c) (snapshotDirty c)).

Definition updateSnapshot (t : ResourceType) (id : list Z) (v : json) : eff ResourceCache unit :=
  modify (fun c =>
    mkCache (entries c) (next_ref c) (flight c) (set_type t (sr_set id v (of_type t (snapshotRecords c))) (snapshotRecords c))
      (snapshotValue c) true).

Definition removeFromSnapshot (t : ResourceType) (id : list Z) : eff ResourceCache unit :=
  modify (fun c =>
    let '(removed, r) := sr_remove id (of_type t (snapshotRecords c)) in
    mkCache (entries c) (next_ref c) (flight c) (set_type t r (snapshotRecords c)) (snapshotValue c) (snapshotDirty c || removed)).

(** A point read is stale once the generation it captured has moved on, or while
    a local deletion of the instance it carries is in flight. *)
Definition point_read_blocked (t : ResourceType) (id : list Z) (v : json) (captured : Z) : eff ResourceCache bool :=
  do! current := (fun c : ResourceCache => (generation c t id, c)) in
  if negb (current =? captured) then ret true
  else
    do! blocked := gets (some_operation (fun o => is_operation_of t id o &&
                     match ld_observedEntry o with
                     | None => true
                     | Some e => sameResourceInstance (ce_value e) (Some v)
                     end)) in
    if blocked then
      do! _ := each_operation (fun o =>
                 if is_operation_of t id o && bool_decide (ld_observedEntry o = None) then set_reconcile o else o) in
      ret true
    else ret false.

(** The test on versions: [isDetailUpgrade] lets a detail replace a summary of
    the same version. *)
Definition outdated (t : ResourceType) (existing : option CacheEntry) (version : Z) (o : ResourceReadOptions) : bool :=
  match existing with
  | None => false
  | Some e =>
      let isDetailUpgrade := bool_decide (t = object) && ro_detail o && (ce_version e =? version) && negb (ce_deleted e) &&
                             negb (ce_detail e) in
      (version <? ce_version e) ||
      ((ce_version e =? version) && negb isDetailUpgrade && negb (ro_replaceSameVersion o))
  end.

Definition acceptResource (t : ResourceType) (id : list Z) (v : json) (o : ResourceReadOptions) (captured : option Z)
    : eff ResourceCache bool :=
  do! actualID := lift (resourceID t v) in
  if negb (bool_decide (actualID = id)) then throw (TypeError ("Atlas " ++ type_name t ++ " resource id does not match cache id")%string)
  else
    do! blocked := match captured with Some g => point_read_blocked t id v g | None => ret false end in
    if blocked then ret false
    else
      let version := match ro_version o with Some n => n | None => embeddedResourceVersion t v end in
      do! existing := gets (fun c => entry_of c t id) in
      if outdated t existing version o then ret false
      else
        do! key := lift (resourceCacheKey t id) in
        do! _ := updateSnapshot t id v in
        do! _ := in_flight (with_pendingDeletes (jdel key)) in
        do! _ := in_flight (with_locallyNotifiedDeletes (jdel key)) in
        do! _ := set_entry t id (Some v) version false (bool_decide (t = object) && ro_detail o) in
        ret true.

(** ** Deletion *)

Definition markRemoteDelete (t : ResourceType) (id : list Z) (version : Z) (notify : bool) : eff ResourceCache unit :=
  do! _ := bumpGeneration t id in
  do! _ := each_operation (fun o => if notify && is_operation_of t id o then set_remote o else o) in
  do! _ := set_entry t id None version true false in
  removeFromSnapshot t id.

Definition markLocalDelete (t : ResourceType) (id : list Z) : eff ResourceCache Z :=
  do! previousEntry := gets (fun c => entry_of c t id) in
  let previousVersion := match previousEntry with Some e => ce_version e | None => 0 end in
  do! key := lift (resourceCacheKey t id) in
  let previousInstance :=
    if entry_deleted previousEntry then None else entry_value previousEntry ≫= created_at in
  do! _ := in_flight (with_localDeleteInstances
             match previousInstance with
             | Some (c :: s) => jset key (c :: s)
             | _ => jdel key
             end) in
  do! _ := markRemoteDelete t id previousVersion true in
  do! _ := in_flight (with_pendingDeletes (jset key tt)) in
  do! _ := in_flight (with_localDeleteKeys (jset key tt)) in
  ret previousVersion.

Definition beginLocalDelete (t : ResourceType) (id : list Z) : eff ResourceCache Z :=
  do! _ := bumpGeneration t id in
  do! observed := gets (fun c => entry_of c t id) in
  do! ref := gets next_ref in
  do! _ := modify (fun c => mkCache (entries c) (ref + 1) (flight c) (snapshotRecords c) (snapshotValue c) (snapshotDirty c)) in
  do! _ := in_flight (with_localDeleteOperations (jset ref (true, mkDelete t id observed None false false false))) in
  ret ref.

(** The operation behind a reference its caller holds. *)
Definition operation_at (c : ResourceCache) (ref : Z) : option (bool * LocalDeleteOperation) := jget ref (localDeleteOperations (flight c)).

Definition drop_operation (ref : Z) : eff ResourceCache unit :=
  in_flight (with_localDeleteOperations (fun m => match jget ref m with Some (_, o) => jset ref (false, o) m | None => m end)).

Definition cancelLocalDelete (ref : Z) : eff ResourceCache unit := drop_operation ref.

Definition needsLocalDeleteReconcile (c : ResourceCache) (ref : Z) : bool :=
  match operation_at c ref with Some (_, o) => ld_reconcile o | None => false end.

Inductive DeleteOutcome := outcome_deleted | outcome_not_found.
#[export] Instance DeleteOutcome_eq_dec : EqDecision DeleteOutcome.
Proof. solve_decision. Defined.

(** Whether the deletion still applies to what the cache holds. *)
Definition delete_applies (o : LocalDeleteOperation) (currentEntry : option CacheEntry) (outcome : DeleteOutcome) : bool :=
  let deletesCurrentEntry := entry_deleted (ld_observedEntry o) && bool_decide (outcome = outcome_deleted) in
  negb (entry_deleted (ld_observedEntry o) && negb deletesCurrentEntry) &&
  negb (ld_remote o || ld_recreated o ||
        (negb deletesCurrentEntry && negb (same_entry currentEntry (ld_observedEntry o)) && negb (entry_deleted currentEntry) &&
         negb (sameResourceInstance (entry_value (ld_observedEntry o)) (entry_value currentEntry)) &&
         negb (sameResourceInstance (entry_value (ld_learnedEntry o)) (entry_value currentEntry)))).

Definition finishLocalDelete (ref : Z) (outcome : DeleteOutcome) : eff ResourceCache (option ResourceChange) :=
  do! held := gets (fun c => operation_at c ref) in
  match held with
  | Some (true, o) =>
      do! _ := drop_operation ref in
      do! currentEntry := gets (fun c => entry_of c (ld_type o) (ld_id o)) in
      do! _ := bumpGeneration (ld_type o) (ld_id o) in
      if negb (delete_applies o currentEntry outcome) then ret None
      else
        do! previousVersion := markLocalDelete (ld_type o) (ld_id o) in
        let removedEntry := match currentEntry with
                            | Some e => if ce_deleted e then ld_observedEntry o else Some e
                            | None => ld_observedEntry o
                            end in
        do! key := lift (resourceCacheKey (ld_type o) (ld_id o)) in
        let gone := match removedEntry with Some e => ce_deleted e | None => true end in
        if gone && negb (bool_decide (outcome = outcome_deleted)) then ret None
        else
          do! _ := in_flight (with_locallyNotifiedDeletes (jset key tt)) in
          ret (Some (localDeleteEvent (ld_type o) (ld_id o) previousVersion, None))
  | _ => ret None
  end.

(** ** Point reads *)

Definition beginPointRead (t : ResourceType) (id : list Z) : eff ResourceCache PointReadOperation :=
  do! key := lift (resourceCacheKey t id) in
  do! sequence := gets (fun c => match jget key (pointReadStates (flight c)) with Some s => ps_sequence s | None => 0 end + 1) in
  do! _ := in_flight (with_pointReadStates (jset key (mkReadState sequence pending))) in
  do! g := (fun c : ResourceCache => (generation c t id, c)) in
  gets (fun c => mkRead t id g (hydrationEpoch (flight c)) sequence (entry_of c t id)).

Definition settlePointRead (op : PointReadOperation) (status : PointReadStatus) : eff ResourceCache unit :=
  do! key := lift (resourceCacheKey (pr_type op) (pr_id op)) in
  do! latest := gets (fun c => jget key (pointReadStates (flight c))) in
  match latest with
  | Some s =>
      if ps_sequence s =? pr_sequence op then
        do! _ := in_flight (with_pointReadStates (jset key (mkReadState (ps_sequence s) status))) in
        in_flight (with_deferredPointNotFound (jdel key))
      else ret tt
  | None => ret tt
  end.

Definition same_epoch (op : PointReadOperation) (c : ResourceCache) : bool := pr_hydrationEpoch op =? hydrationEpoch (flight c).

Definition applyPointRead (op : PointReadOperation) (v : json) (o : ResourceReadOptions) : eff ResourceCache bool :=
  do! current := gets (same_epoch op) in
  if negb current then ret false
  else
    do! _ := settlePointRead op succeeded in
    acceptResource (pr_type op) (pr_id op) v o (Some (pr_generation op)).

Definition applyPointNotFoundNow (op : PointReadOperation) : eff ResourceCache bool :=
  do! currentEntry := gets (fun c => entry_of c (pr_type op) (pr_id op)) in
  if negb (same_entry currentEntry (pr_observedEntry op)) || entry_deleted currentEntry then ret false
  else
    do! _ := bumpGeneration (pr_type op) (pr_id op) in
    do! _ := markRemoteDelete (pr_type op) (pr_id op) (match currentEntry with Some e => ce_version e | None => 0 end) false in
    do! key := lift (resourceCacheKey (pr_type op) (pr_id op)) in
    do! _ := in_flight (with_pendingDeletes (jset key tt)) in
    ret true.

Definition applyPointNotFound (op : PointReadOperation) : eff ResourceCache bool :=
  do! current := gets (same_epoch op) in
  if negb current then ret false
  else
    do! key := lift (resourceCacheKey (pr_type op) (pr_id op)) in
    do! latest := gets (fun c => jget key (pointReadStates (flight c))) in
    let superseded := match latest with Some s => pr_sequence op <? ps_sequence s | None => false end in
    if superseded then
      let status := match latest with Some s => ps_status s | None => succeeded end in
      do! _ := (if bool_decide (status = pending) then in_flight (with_deferredPointNotFound (jset key op)) else ret tt) in
      if bool_decide (status = failed) then applyPointNotFoundNow op else ret false
    else
      do! _ := settlePointRead op not_found in
      applyPointNotFoundNow op.

Definition completePointRead (op : PointReadOperation) : eff ResourceCache bool :=
  do! current := gets (same_epoch op) in
  if negb current then ret false
  else
    do! key := lift (resourceCacheKey (pr_type op) (pr_id op)) in
    do! latest := gets (fun c => jget key (pointReadStates (flight c))) in
    match latest with
    | Some s =>
        if negb (ps_sequence s =? pr_sequence op) || negb (bool_decide (ps_status s = pending)) then ret false
        else
          do! _ := in_flight (with_pointReadStates (jset key (mkReadState (ps_sequence s) failed))) in
          do! deferred := gets (fun c => jget key (deferredPointNotFound (flight c))) in
          match deferred with
          | None => ret false
          | Some d =>
              do! _ := in_flight (with_deferredPointNotFound (jdel key)) in
              applyPointNotFoundNow d
          end
    | None => ret false
    end.

(** ** Writes and feed events *)

(** An upsert event: a create or an update with its resource. *)
Record ResourceUpsertEvent := mkUpsert {
  ue_create : bool;
  ue_type : ResourceType;
  ue_id : list Z;
  ue_version : Z;
  ue_resource : json
}.

Definition upsert_event (e : ResourceUpsertEvent) (v : option json) : AtlasWatchEvent :=
  mkWatchEvent (if ue_create e then create else update) (ue_type e) (ue_id e) (Some (ue_version e)) v.

Definition changeForUpsert (e : ResourceUpsertEvent) : eff ResourceCache ResourceChange :=
  gets (fun c => (upsert_event e (value c (ue_type e) (ue_id e)), value c (ue_type e) (ue_id e))).

Definition noteLocalDeleteUpsert (t : ResourceType) (id : list Z) (created : bool) : eff ResourceCache unit :=
  do! currentEntry := gets (fun c => entry_of c t id) in
  each_operation (fun o =>
    if negb (is_operation_of t id o) then o
    else if created then set_recreated o
    else if bool_decide (ld_observedEntry o = None) && bool_decide (currentEntry <> None) then set_learned currentEntry o
    else o).

Definition isReplacementAfterLocalDelete (e : ResourceUpsertEvent) : eff ResourceCache bool :=
  if ue_create e then ret false
  else
    do! key := lift (resourceCacheKey (ue_type e) (ue_id e)) in
    gets (fun c =>
      match jget key (localDeleteInstances (flight c)) with
      | Some deletedInstance => in_resource (ue_resource e) "metadata" && negb (bool_decide (created_at (ue_resource e) = Some deletedInstance))
      | None => false
      end).

Definition isSuppressedByPendingDelete (e : ResourceUpsertEvent) : eff ResourceCache bool :=
  if ue_create e then ret false
  else
    do! key := lift (resourceCacheKey (ue_type e) (ue_id e)) in
    gets (fun c => jhas key (pendingDeletes (flight c))).

Definition isSuppressedByLocalDelete (e : ResourceUpsertEvent) : eff ResourceCache bool :=
  if ue_create e then ret false
  else
    do! key := lift (resourceCacheKey (ue_type e) (ue_id e)) in
    do! marked := gets (fun c => jhas key (localDeleteKeys (flight c))) in
    if negb marked then ret false
    else do! replacement := isReplacementAfterLocalDelete e in ret (negb replacement).

Definition clearLocalDeleteMarker (t : ResourceType) (id : list Z) : eff ResourceCache unit :=
  do! key := lift (resourceCacheKey t id) in
  do! _ := in_flight (with_localDeleteKeys (jdel key)) in
  in_flight (with_localDeleteInstances (jdel key)).

(** [event.event === "create" || this.isReplacementAfterLocalDelete(event)] *)
Definition clear_if_replaced (e : ResourceUpsertEvent) : eff ResourceCache unit :=
  do! replacement := (if ue_create e then ret true else isReplacementAfterLocalDelete e) in
  if replacement then clearLocalDeleteMarker (ue_type e) (ue_id e) else ret tt.

Definition applyWrite (e : ResourceUpsertEvent) (detail : bool) : eff ResourceCache (option ResourceChange) :=
  do! suppressed := isSuppressedByLocalDelete e in
  if suppressed then ret None
  else
    do! accepted := acceptResource (ue_type e) (ue_id e) (ue_resource e) (mkOptions detail (Some (ue_version e)) false) None in
    if negb accepted then ret None
    else
      do! _ := clear_if_replaced e in
      do! _ := (if bool_decide (ue_type e = task) then ret tt else noteLocalDeleteUpsert (ue_type e) (ue_id e) (ue_create e)) in
      do! change := changeForUpsert e in
      ret (Some change).

Inductive FeedEvent :=
| feed_upsert (e : ResourceUpsertEvent)
| feed_delete (t : ResourceType) (id : list Z) (version : Z).

Definition applyFeedDelete (t : ResourceType) (id : list Z) (version : Z) : eff ResourceCache (option ResourceChange) :=
  do! key := lift (resourceCacheKey t id) in
  do! known := gets (fun c => versionFor c t id) in
  if version <=? known then ret None
  else
    do! _ := in_flight (with_pendingDeletes (jdel key)) in
    do! _ := markRemoteDelete t id version true in
    do! notified := gets (fun c => jhas key (locallyNotifiedDeletes (flight c))) in
    do! _ := in_flight (with_locallyNotifiedDeletes (jdel key)) in
    ret (if notified then None else Some (mkWatchEvent delete t id (Some version) None, None)).

Definition applyFeedUpsert (e : ResourceUpsertEvent) : eff ResourceCache (option ResourceChange) :=
  do! _ := lift (resourceCacheKey (ue_type e) (ue_id e)) in
  do! known := gets (fun c => versionFor c (ue_type e) (ue_id e)) in
  if ue_version e <=? known then ret None
  else
    do! suppressed := isSuppressedByPendingDelete e in
    if suppressed then ret None
    else
      do! accepted := acceptResource (ue_type e) (ue_id e) (ue_resource e) (mkOptions false (Some (ue_version e)) false) None in
      do! _ := (if accepted && negb (bool_decide (ue_type e = task)) then
                  do! _ := clear_if_replaced e in
                  noteLocalDeleteUpsert (ue_type e) (ue_id e) (ue_create e)
                else ret tt) in
      do! change := changeForUpsert e in
      ret (Some change).

Definition applyFeedEvent (e : FeedEvent) : eff ResourceCache (option ResourceChange) :=
  match e with
  | feed_delete t id version => applyFeedDelete t id version
  | feed_upsert e => applyFeedUpsert e
  end.

(** ** Hydration *)

(** Everything but the epoch and the deletion objects callers hold is dropped. *)
Definition clear_all : eff ResourceCache unit :=
  modify (fun c =>
    mkCache (mkPer [] [] []) (next_ref c)
      (with_localDeleteOperations (fun _ => jmap_values (fun (_ : Z) (p : bool * LocalDeleteOperation) => (false, snd p)) (localDeleteOperations (flight c)))
        (new_flight (hydrationEpoch (flight c) + 1)))
      (mkPer (sr_clear (per_entity (snapshotRecords c))) (sr_clear (per_task (snapshotRecords c)))
             (sr_clear (per_object (snapshotRecords c))))
      (snapshotValue c) true).

Definition accept_hydrated (t : ResourceType) (o : ResourceReadOptions) (v : json) : eff ResourceCache unit :=
  do! _ := acceptResource t (text_of (member_of (Some v) (id_field t))) v o None in ret tt.

Definition replaceHydratedResources (entities tasks objects : list json) : eff ResourceCache unit :=
  do! _ := clear_all in
  do! _ := for_each (accept_hydrated entity no_options) entities in
  do! _ := for_each (accept_hydrated task no_options) tasks in
  for_each (accept_hydrated object (mkOptions true None false)) objects.
