(* ===== verification/ResourceCacheFacts.v ===== *)
(** * What the resource cache keeps

    Snapshots mirror the live entries, versions and generations only grow
    within a hydration, a deletion is never undone by a read that began before
    it, and a feed event has exactly its effect. *)

From Stdlib Require Import ZArith Lia String.
From stdpp Require Import base list option relations.
From S2P Require Import Prelude JsState JsMap Json JsonText Frame Contract SdkSubscriptions ResourceCache.

Open Scope string_scope.
Open Scope list_scope.
Open Scope Z_scope.

#[local] Arguments jset : simpl never.
#[local] Arguments jdel : simpl never.
#[local] Arguments jget : simpl never.

(** ** Composition *)

Lemma bind_at {S A B} (R : S -> S -> Prop) `{!Transitive R} (m : eff S A) (k : A -> eff S B) s :
  R s (snd (m s)) -> (forall a s', m s = (Ok a, s') -> R s' (snd (k a s'))) -> R s (snd (bind_eff m k s)).
Proof.
  intros Hm Hk. unfold bind_eff. destruct (m s) as [[a | e] s'] eqn:E; [| done]. etrans; [exact Hm | by apply Hk].
Qed.

Lemma gets_at {S A B} (R : S -> S -> Prop) (f : S -> A) (k : A -> eff S B) s :
  R s (snd (k (f s) s)) -> R s (snd (bind_eff (gets f) k s)).
Proof. done. Qed.

Lemma lift_at {S A B} (R : S -> S -> Prop) `{!Reflexive R} (r : result A) (k : A -> eff S B) s :
  (forall a, r = Ok a -> R s (snd (k a s))) -> R s (snd (bind_eff (lift r) k s)).
Proof. intros H. unfold bind_eff, lift. destruct r; [by apply H | done]. Qed.

(** ** Types *)

Lemma of_set_type {A} t t' (v : A) p : of_type t (set_type t' v p) = if decide (t = t') then v else of_type t p.
Proof. by destruct t, t'. Qed.

Definition gen (c : ResourceCache) (key : list Z) : Z := default 0 (jget key (generations (flight c))).
Definition epoch (c : ResourceCache) : Z := hydrationEpoch (flight c).
Definition record_of (c : ResourceCache) (t : ResourceType) : SnapshotRecord := of_type t (snapshotRecords c).

(** ** Mirroring *)

(** The snapshot records hold the live values, and what is cached of them is
    fresh unless marked dirty. *)
Record mirrored (c : ResourceCache) : Prop := {
  mi_entries : forall t, jwf (of_type t (entries c));
  mi_records : forall t, jwf (sr_entries (record_of c t));
  mi_values : forall t id, jget id (sr_entries (record_of c t)) = value c t id;
  mi_clean : forall t, sr_dirty (record_of c t) = false -> sr_value (record_of c t) = own_properties (sr_entries (record_of c t));
  mi_snapshot : snapshotDirty c = false ->
    forall t, of_type t (snapshotValue c) = own_properties (sr_entries (record_of c t))
}.

(** ** Evolution *)

Record evolves (c c' : ResourceCache) : Prop := {
  ev_epoch : epoch c <= epoch c';
  ev_generation : epoch c = epoch c' -> forall key, gen c key <= gen c' key;
  ev_version : epoch c = epoch c' -> forall t id e, entry_of c t id = Some e ->
    exists e', entry_of c' t id = Some e' /\ ce_version e <= ce_version e';
  ev_deletion : epoch c = epoch c' -> forall t id key e, resourceCacheKey t id = Ok key ->
    entry_of c' t id = Some e -> ce_deleted e = true -> entry_of c t id = Some e \/ gen c key < gen c' key;
  ev_mirrored : mirrored c -> mirrored c'
}.

#[export] Instance evolves_reflexive : Reflexive evolves.
Proof. intros c. constructor; try done; auto. intros _ t id e ->. by exists e. Qed.

#[export] Instance evolves_transitive : Transitive evolves.
Proof.
  intros c1 c2 c3 [E1 G1 V1 D1 M1] [E2 G2 V2 D2 M2].
  assert (Hsplit : epoch c1 = epoch c3 -> epoch c1 = epoch c2 /\ epoch c2 = epoch c3) by lia.
  constructor; [lia | | | | auto]; intros [H12 H23]%Hsplit.
  - intros key. specialize (G1 H12 key). specialize (G2 H23 key). lia.
  - intros t id e He. destruct (V1 H12 t id e He) as (e2 & He2 & L1). destruct (V2 H23 t id e2 He2) as (e3 & He3 & L2).
    exists e3. split; [done | lia].
  - intros t id key e Hk He Hd. specialize (G1 H12 key). specialize (G2 H23 key).
    destruct (D2 H23 _ _ _ _ Hk He Hd) as [He2 | ?]; [| right; lia].
    destruct (D1 H12 _ _ _ _ Hk He2 Hd) as [? | ?]; [by left | right; lia].
Qed.

#[export] Instance evolves_preorder : PreOrder evolves.
Proof. split; apply _. Qed.

(** *** The parts of the operations *)

(** Bookkeeping that touches neither generations nor the epoch. *)
Definition quiet (f : InFlight -> InFlight) : Prop :=
  forall i, generations (f i) = generations i /\ hydrationEpoch (f i) = hydrationEpoch i.

Lemma quiet_evolves f c : quiet f -> evolves c (with_flight f c).
Proof.
  intros H. destruct (H (flight c)) as [Hg He]. unfold epoch, gen. constructor; unfold epoch, gen; cbn; rewrite ?Hg, ?He; try done; auto.
  - intros _ t id e He'. by exists e.
  - intros [? ? ? ? ?]. by constructor.
Qed.

Lemma quiet_keeps f : quiet f -> keeps evolves (in_flight f).
Proof. intros H c. by apply quiet_evolves. Qed.

Lemma bump_evolves t id : keeps evolves (bumpGeneration t id).
Proof.
  intros c. unfold bumpGeneration. destruct (resourceCacheKey t id) as [key |] eqn:Hk; cbn; [| reflexivity].
  assert (Hle : forall k, gen c k <= gen (with_flight (with_generations (fun g => jset key (default 0 (jget key g) + 1) g)) c) k).
  { intros k. unfold gen; cbn. rewrite jget_jset. case_decide; [subst k; cbn; lia | lia]. }
  constructor; [done | done | | by left |].
  - intros _ t' id' e He. by exists e.
  - intros [? ? ? ? ?]. by constructor.
Qed.

Lemma each_evolves f : keeps evolves (each_operation f).
Proof. apply quiet_keeps. by intros i. Qed.

Lemma drop_evolves ref : keeps evolves (drop_operation ref).
Proof. apply quiet_keeps. by intros i. Qed.

(** Storing a live value, in the entries and in the snapshot record. *)
Definition stored (t : ResourceType) (id : list Z) (v : json) (version : Z) (detail : bool) (f : InFlight -> InFlight)
    (c : ResourceCache) : ResourceCache :=
  mkCache (set_type t (jset id (mkEntry (next_ref c) (Some v) version false detail) (of_type t (entries c))) (entries c))
    (next_ref c + 1) (f (flight c)) (set_type t (sr_set id v (record_of c t)) (snapshotRecords c)) (snapshotValue c) true.

(** Replacing an entry by a tombstone, in both. *)
Definition buried (t : ResourceType) (id : list Z) (version : Z) (f : InFlight -> InFlight) (c : ResourceCache) : ResourceCache :=
  let '(removed, r) := sr_remove id (record_of c t) in
  mkCache (set_type t (jset id (mkEntry (next_ref c) None version true false) (of_type t (entries c))) (entries c))
    (next_ref c + 1) (f (flight c)) (set_type t r (snapshotRecords c)) (snapshotValue c) (snapshotDirty c || removed).

Lemma entry_of_jset t id e (es : PerType (list (list Z * CacheEntry))) t' id' :
  jget id' (of_type t' (set_type t (jset id e (of_type t es)) es)) =
  if decide (t' = t /\ id' = id) then Some e else jget id' (of_type t' es).
Proof.
  rewrite of_set_type. destruct (decide (t' = t)) as [-> |].
  - rewrite jget_jset. destruct (decide (id' = id)), (decide (t = t /\ id' = id)); tauto || done.
  - destruct (decide (t' = t /\ id' = id)); [tauto | done].
Qed.

Lemma entry_of_stored t id v version detail f c t' id' :
  entry_of (stored t id v version detail f c) t' id' =
  if decide (t' = t /\ id' = id) then Some (mkEntry (next_ref c) (Some v) version false detail) else entry_of c t' id'.
Proof. apply entry_of_jset. Qed.

Lemma entry_of_buried t id version f c t' id' :
  entry_of (buried t id version f c) t' id' =
  if decide (t' = t /\ id' = id) then Some (mkEntry (next_ref c) None version true false) else entry_of c t' id'.
Proof. unfold buried. destruct (sr_remove _ _). apply entry_of_jset. Qed.

(** The version an entry may be replaced with. *)
Definition supersedable (c : ResourceCache) (t : ResourceType) (id : list Z) (version : Z) : Prop :=
  forall e, entry_of c t id = Some e -> ce_version e <= version.

Lemma version_set c c' t id e t' id' e' :
  entry_of c' t' id' = (if decide (t' = t /\ id' = id) then Some e else entry_of c t' id') ->
  supersedable c t id (ce_version e) -> entry_of c t' id' = Some e' ->
  exists e'', entry_of c' t' id' = Some e'' /\ ce_version e' <= ce_version e''.
Proof. intros -> Hv He. case_decide as H; [destruct H as [-> ->]; exists e; auto | by exists e']. Qed.

Lemma stored_mirrored t id v version detail f c : mirrored c -> mirrored (stored t id v version detail f c).
Proof.
  intros M. constructor; unfold record_of; cbn.
  - intros t'. rewrite of_set_type. case_decide; [apply jset_wf, M | apply M].
  - intros t'. rewrite of_set_type. case_decide; [apply jset_wf, M | apply M].
  - intros t' id'. unfold value. rewrite entry_of_stored, of_set_type.
    destruct (decide (t' = t /\ id' = id)) as [[-> ->] | Hne].
    + rewrite decide_True by done. cbn. apply jget_jset_eq.
    + pose proof (mi_values _ M t' id') as V. unfold value in V. case_decide as Ht; [| exact V]. subst t'.
      cbn. rewrite jget_jset_ne by tauto. exact V.
  - intros t'. rewrite of_set_type. case_decide; [done | apply M].
  - done.
Qed.

Lemma stored_evolves t id v version detail f c :
  quiet f -> supersedable c t id version -> evolves c (stored t id v version detail f c).
Proof.
  intros Hf Hv. destruct (Hf (flight c)) as [Hg He]. constructor; unfold epoch, gen; cbn; rewrite ?Hg, ?He; try done.
  - intros _ t' id' e'. by eapply (version_set c _ t id); [apply entry_of_stored |].
  - intros _ t' id' key e _. rewrite entry_of_stored. case_decide; [| by left]. by intros [= <-].
  - apply stored_mirrored.
Qed.

Lemma sr_remove_spec id r : jwf (sr_entries r) ->
  sr_entries (snd (sr_remove id r)) = jdel id (sr_entries r) /\
  (fst (sr_remove id r) = false -> snd (sr_remove id r) = r) /\
  (fst (sr_remove id r) = true -> sr_dirty (snd (sr_remove id r)) = true).
Proof.
  intros W. unfold sr_remove. destruct (jhas id (sr_entries r)) eqn:H; cbn; [done |].
  split_and!; [| done | done]. symmetry. apply jdel_absent. rewrite <- jget_None. by apply jhas_false.
Qed.

Lemma buried_mirrored t id version f c : mirrored c -> mirrored (buried t id version f c).
Proof.
  intros M. pose proof (sr_remove_spec id (record_of c t) (mi_records _ M t)) as (E & Hf & Ht).
  pose proof (entry_of_buried t id version f c) as En. unfold buried in *.
  destruct (sr_remove id (record_of c t)) as [removed r]. cbn in E, Hf, Ht. constructor; unfold record_of; cbn.
  - intros t'. rewrite of_set_type. case_decide; [apply jset_wf, M | apply M].
  - intros t'. rewrite of_set_type. case_decide; [rewrite E; apply jdel_wf, M | apply M].
  - intros t' id'. unfold value. rewrite En, of_set_type.
    destruct (decide (t' = t /\ id' = id)) as [[-> ->] | Hne].
    + rewrite decide_True by done. rewrite E. cbn. apply jget_jdel_eq, M.
    + pose proof (mi_values _ M t' id') as V. unfold value in V. case_decide as Htt; [| exact V]. subst t'.
      rewrite E, jget_jdel_ne by tauto. exact V.
  - intros t'. rewrite of_set_type. case_decide; [| apply M]. subst t'. destruct removed.
    + rewrite Ht by done. done.
    + rewrite Hf by done. apply M.
  - intros [Hd Hr]%orb_false_iff t'. rewrite of_set_type. case_decide; [subst t'; rewrite Hf by done |]; by apply M.
Qed.

Lemma buried_evolves t id key version f c :
  resourceCacheKey t id = Ok key -> supersedable c t id version ->
  (forall i, generations (f i) = jset key (default 0 (jget key (generations i)) + 1) (generations i) /\ hydrationEpoch (f i) = hydrationEpoch i) ->
  evolves c (buried t id version f c).
Proof.
  intros Hk Hv Hf. pose proof (entry_of_buried t id version f c) as En. pose proof (buried_mirrored t id version f c) as M.
  assert (E : epoch (buried t id version f c) = epoch c).
  { unfold buried, epoch. destruct (sr_remove _ _); cbn. apply Hf. }
  assert (G : forall k, gen (buried t id version f c) k = if decide (k = key) then gen c k + 1 else gen c k).
  { intros k. unfold buried, gen. destruct (sr_remove _ _); cbn. destruct (Hf (flight c)) as [-> _]. rewrite jget_jset.
    case_decide; [by subst k | done]. }
  constructor; [lia | | | | exact M]; intros _.
  - intros k. rewrite G. case_decide; lia.
  - intros t' id' e'. by eapply (version_set c _ t id); [apply En |].
  - intros t' id' key' e Hk'. rewrite En. case_decide as H; [| by left]. destruct H as [-> ->]. intros _ _. right.
    rewrite Hk in Hk'. injection Hk' as <-. rewrite G, decide_True by done. lia.
Qed.

(** *** The operations *)

Lemma markRemoteDelete_evolves t id version notify c :
  supersedable c t id version -> evolves c (snd (markRemoteDelete t id version notify c)).
Proof.
  intros Hv. unfold markRemoteDelete, bind_eff, bumpGeneration. destruct (resourceCacheKey t id) as [key |] eqn:Hk; [| reflexivity].
  set (bump := with_generations _).
  set (each := with_localDeleteOperations (jmap_values (fun (_ : Z) (p : bool * LocalDeleteOperation) =>
                 if fst p then (true, if notify && is_operation_of t id (snd p) then set_remote (snd p) else snd p) else p))).
  assert (E : snd (removeFromSnapshot t id (snd (set_entry t id None version true false (with_flight each (with_flight bump c))))) =
              buried t id version (fun i => each (bump i)) c).
  { unfold removeFromSnapshot, buried, modify, record_of; cbn. by destruct (sr_remove _ _). }
  etransitivity; [apply (buried_evolves t id key version (fun i => each (bump i)) c Hk Hv) |]; [done |].
  rewrite <- E. reflexivity.
Qed.

Lemma flight_at {B} f (k : unit -> eff ResourceCache B) c :
  quiet f -> evolves (with_flight f c) (snd (k tt (with_flight f c))) -> evolves c (snd (bind_eff (in_flight f) k c)).
Proof. intros Hf H. etransitivity; [by apply quiet_evolves | exact H]. Qed.

Lemma keeps_at {A B} (m : eff ResourceCache A) (k : A -> eff ResourceCache B) c :
  keeps evolves m -> (forall a c', m c = (Ok a, c') -> evolves c' (snd (k a c'))) -> evolves c (snd (bind_eff m k c)).
Proof. intros Hm. apply bind_at; [apply _ | apply Hm]. Qed.

Lemma keeps_if {A} (b : bool) (m m' : eff ResourceCache A) : keeps evolves m -> keeps evolves m' -> keeps evolves (if b then m else m').
Proof. by destruct b. Qed.

Lemma read_at {A B} (f : ResourceCache -> result A) (k : A -> eff ResourceCache B) c :
  (forall a, f c = Ok a -> evolves c (snd (k a c))) -> evolves c (snd (bind_eff (fun c => (f c, c)) k c)).
Proof. intros H. unfold bind_eff. destruct (f c) as [a | e] eqn:E; [by apply H | reflexivity]. Qed.

(** The composition rules, down to the parts that need an argument. *)
Ltac steps :=
  repeat first
    [ reflexivity
    | apply gets_at
    | apply lift_at; [apply _ | let a := fresh "key" in let E := fresh "Hlift" in intros a E]
    | apply flight_at; [by intros ? |]
    | apply quiet_evolves; by intros ?
    | apply keeps_at; [first [apply each_evolves | apply bump_evolves | apply drop_evolves] | intros ? ? ?]
    | apply each_evolves
    | match goal with |- evolves ?c (snd ((if ?b then _ else _) ?c)) => let E := fresh "Hif" in destruct b eqn:E end
    | match goal with |- evolves ?c (snd ((match ?o with _ => _ end) ?c)) => let E := fresh "Hcase" in destruct o eqn:E end ].

Lemma block_evolves t id v g : keeps evolves (point_read_blocked t id v g).
Proof.
  intros c. unfold point_read_blocked, bind_eff, gets, ret. destruct (generation c t id); [| reflexivity].
  destruct (negb _); [reflexivity |]. destruct (some_operation _ c); [| reflexivity]. apply each_evolves.
Qed.

(** A read that is not blocked changed nothing. *)
Lemma block_free t id v g c c' : point_read_blocked t id v g c = (Ok false, c') -> c' = c.
Proof.
  unfold point_read_blocked, bind_eff, gets, ret. destruct (generation c t id); [| done].
  destruct (negb _); [done |]. destruct (some_operation _ c); [done |]. by intros [= ->].
Qed.

Lemma outdated_version c t id version o : outdated t (entry_of c t id) version o = false -> supersedable c t id version.
Proof. unfold outdated, supersedable. intros H e He. rewrite He in H. reflect_tests. lia. Qed.

(** What [acceptResource] did when it says so. *)
Definition accepted_flight (key : list Z) (i : InFlight) : InFlight :=
  with_locallyNotifiedDeletes (jdel key) (with_pendingDeletes (jdel key) i).

Definition accepted_version (t : ResourceType) (v : json) (o : ResourceReadOptions) : Z :=
  match ro_version o with Some n => n | None => embeddedResourceVersion t v end.

Lemma acceptResource_cases t id v o captured c r c' :
  acceptResource t id v o captured c = (r, c') ->
  (r <> Ok true /\ (captured = None -> c' = c) /\ entries c' = entries c /\ evolves c c') \/
  (r = Ok true /\ supersedable c t id (accepted_version t v o) /\ resourceID t v = Ok id /\
   exists key, resourceCacheKey t id = Ok key /\
     c' = stored t id v (accepted_version t v o) (bool_decide (t = object) && ro_detail o) (accepted_flight key) c).
Proof.
  unfold acceptResource, lift, bind_eff at 1. destruct (resourceID t v) as [actual |] eqn:Hid; cbn [fst snd].
  2:{ intros [= <- <-]. left. split_and!; done. }
  case_bool_decide as Hsame; cbn [negb]; [| intros [= <- <-]; left; split_and!; done].
  set (block := match captured with Some g => point_read_blocked t id v g | None => ret false end).
  assert (Hb : evolves c (snd (block c)) /\ entries (snd (block c)) = entries c /\ (captured = None -> block c = (Ok false, c)) /\
               (fst (block c) = Ok false -> snd (block c) = c)).
  { subst block. destruct captured as [g |]; [| done]. split; [apply block_evolves |]. split; [| split; [done |]].
    - unfold point_read_blocked, bind_eff, gets, ret. destruct (generation c t id) as [n |]; [| done].
      destruct (negb (n =? g)); [done |]. by destruct (some_operation _ c).
    - intros E. destruct (point_read_blocked t id v g c) as [r0 c0] eqn:Eb. cbn [fst snd] in E |- *. subst r0. by eapply block_free. }
  destruct Hb as (Hev & Hen & Hnone & Hfree). unfold bind_eff at 1. destruct (block c) as [[[|] | e] c1] eqn:Eb; cbn [fst snd] in *.
  - intros [= <- <-]. left. split_and!; try done. intros E. by specialize (Hnone E).
  - specialize (Hfree eq_refl). subst c1. unfold bind_eff, gets at 1. destruct (outdated _ _ _ _) eqn:Hout; [intros [= <- <-]; left; done |].
    destruct (resourceCacheKey t id) as [key |] eqn:Hk; cbn; intros [= <- <-]; [right | by left].
    split_and!; [done | by eapply outdated_version | congruence |]. by exists key.
  - intros [= <- <-]. left. split_and!; try done. intros E. by specialize (Hnone E).
Qed.

Lemma accept_evolves t id v o captured : keeps evolves (acceptResource t id v o captured).
Proof.
  intros c. destruct (acceptResource t id v o captured c) as [r c'] eqn:E. cbn.
  apply acceptResource_cases in E as [(_ & _ & _ & H) | (_ & Hv & _ & key & _ & ->)]; [done |].
  apply stored_evolves; [by intros i | done].
Qed.

Lemma bump_entries t id c r c' : bumpGeneration t id c = (r, c') -> entries c' = entries c.
Proof. unfold bumpGeneration. destruct (resourceCacheKey t id); by intros [= <- <-]. Qed.

Lemma settle_evolves op status : keeps evolves (settlePointRead op status).
Proof. intros c. unfold settlePointRead. steps. Qed.

Lemma markLocalDelete_evolves t id : keeps evolves (markLocalDelete t id).
Proof.
  intros c. unfold markLocalDelete. steps. apply bind_at; [apply _ | | intros; steps].
  apply markRemoteDelete_evolves. intros e He. unfold entry_of in *. cbn in *. rewrite He. lia.
Qed.

Lemma applyPointRead_evolves op v o : keeps evolves (applyPointRead op v o).
Proof.
  intros c. unfold applyPointRead. steps. apply keeps_at; [apply settle_evolves |]. intros. apply accept_evolves.
Qed.

Lemma notFoundNow_evolves op : keeps evolves (applyPointNotFoundNow op).
Proof.
  intros c. unfold applyPointNotFoundNow. steps. apply bind_at; [apply _ | | intros; steps].
  apply markRemoteDelete_evolves. intros e He. unfold entry_of in *. rewrite (bump_entries _ _ _ _ _ H) in He. rewrite He. lia.
Qed.

Lemma applyPointNotFound_evolves op : keeps evolves (applyPointNotFound op).
Proof.
  intros c. unfold applyPointNotFound. steps.
  - apply keeps_at; [apply keeps_if; [by apply quiet_keeps; intros ? | by intros ?] |]. intros.
    steps; apply notFoundNow_evolves.
  - apply keeps_at; [apply settle_evolves |]. intros. apply notFoundNow_evolves.
Qed.

Lemma completePointRead_evolves op : keeps evolves (completePointRead op).
Proof. intros c. unfold completePointRead. steps. apply notFoundNow_evolves. Qed.

Lemma beginPointRead_evolves t id : keeps evolves (beginPointRead t id).
Proof. intros c. unfold beginPointRead. steps. apply read_at. intros. steps. Qed.

Lemma finishLocalDelete_evolves ref outcome : keeps evolves (finishLocalDelete ref outcome).
Proof.
  intros c. unfold finishLocalDelete. steps. apply keeps_at; [apply markLocalDelete_evolves |]. intros. steps.
Qed.

Lemma beginLocalDelete_evolves t id : keeps evolves (beginLocalDelete t id).
Proof.
  intros c. unfold beginLocalDelete. steps. apply bind_at; [apply _ | | intros; steps].
  constructor; try done; auto.
  - intros _ t' id' e He. by exists e.
  - intros [? ? ? ? ?]. by constructor.
Qed.

Lemma replacement_evolves e : keeps evolves (isReplacementAfterLocalDelete e).
Proof. intros c. unfold isReplacementAfterLocalDelete. steps. Qed.

Lemma clear_evolves e : keeps evolves (clear_if_replaced e).
Proof.
  intros c. unfold clear_if_replaced. apply keeps_at; [apply keeps_if; [by intros ? | apply replacement_evolves] |].
  intros. unfold clearLocalDeleteMarker. steps.
Qed.

Lemma note_evolves t id created : keeps evolves (noteLocalDeleteUpsert t id created).
Proof. intros c. unfold noteLocalDeleteUpsert. steps. Qed.

Lemma suppressed_evolves e : keeps evolves (isSuppressedByLocalDelete e) /\ keeps evolves (isSuppressedByPendingDelete e).
Proof.
  split; intros c; unfold isSuppressedByLocalDelete, isSuppressedByPendingDelete; steps.
  apply keeps_at; [apply replacement_evolves |]. intros. steps.
Qed.

Lemma applyWrite_evolves e detail : keeps evolves (applyWrite e detail).
Proof.
  intros c. unfold applyWrite. apply keeps_at; [apply suppressed_evolves |]. intros. steps.
  apply keeps_at; [apply accept_evolves |]. intros. steps.
  apply keeps_at; [apply clear_evolves |]. intros. steps.
  apply keeps_at; [apply keeps_if; [by intros ? | apply note_evolves] |]. intros. steps.
Qed.

Lemma applyFeedDelete_evolves t id version : keeps evolves (applyFeedDelete t id version).
Proof.
  intros c. unfold applyFeedDelete. steps. apply bind_at; [apply _ | | intros; steps].
  apply markRemoteDelete_evolves. intros e He. reflect_tests. unfold versionFor, entry_of in *. cbn in *. rewrite He in Hif. lia.
Qed.

Lemma applyFeedUpsert_evolves e : keeps evolves (applyFeedUpsert e).
Proof.
  intros c. unfold applyFeedUpsert. steps. apply keeps_at; [apply suppressed_evolves |]. intros. steps.
  apply keeps_at; [apply accept_evolves |]. intros. apply keeps_at; [apply keeps_if; [| by intros ?] | intros; steps].
  intros c1. apply keeps_at; [apply clear_evolves |]. intros. apply note_evolves.
Qed.

Lemma clear_all_evolves : keeps evolves clear_all.
Proof.
  intros c. constructor; unfold epoch; cbn; try (intros; lia). intros M. constructor; cbn; try done; intros []; cbn; done || apply NoDup_nil_2.
Qed.

Lemma hydrate_evolves entities tasks objects : keeps evolves (replaceHydratedResources entities tasks objects).
Proof.
  assert (Ha : forall t o v, keeps evolves (accept_hydrated t o v)).
  { intros t o v c. unfold accept_hydrated. apply keeps_at; [apply accept_evolves |]. by intros. }
  unfold replaceHydratedResources.
  repeat (apply keeps_bind; [apply _ | first [apply clear_all_evolves | apply keeps_for_each; [apply _ |]; intros; apply Ha] |]; intros _).
  apply keeps_for_each; [apply _ |]. intros; apply Ha.
Qed.

Definition fresh_record (r : SnapshotRecord) : Prop := sr_dirty r = false -> sr_value r = own_properties (sr_entries r).

Lemma sr_snapshot_spec r : fresh_record r ->
  fst (sr_snapshot r) = own_properties (sr_entries r) /\ sr_entries (snd (sr_snapshot r)) = sr_entries r /\
  fresh_record (snd (sr_snapshot r)).
Proof. intros H. unfold sr_snapshot. destruct (sr_dirty r) eqn:E; [done |]. split; [by apply H | done]. Qed.

Lemma snapshotFromRecords_spec p : (forall t, fresh_record (of_type t p)) -> forall t,
  of_type t (fst (snapshotFromRecords p)) = own_properties (sr_entries (of_type t p)) /\
  sr_entries (of_type t (snd (snapshotFromRecords p))) = sr_entries (of_type t p) /\
  fresh_record (of_type t (snd (snapshotFromRecords p))).
Proof.
  intros H t. pose proof (sr_snapshot_spec _ (H t)) as E. unfold snapshotFromRecords.
  destruct (sr_snapshot (per_entity p)) eqn:E1, (sr_snapshot (per_task p)) eqn:E2, (sr_snapshot (per_object p)) eqn:E3.
  destruct t; cbn in *; [rewrite E1 in E | rewrite E2 in E | rewrite E3 in E]; exact E.
Qed.

(** A snapshot shows the live values and changes nothing but what is cached. *)
Lemma snapshot_spec c : mirrored c ->
  exists v c', snapshot c = (Ok v, c') /\ mirrored c' /\ entries c' = entries c /\ flight c' = flight c /\
    forall t, of_type t v = own_properties (sr_entries (record_of c t)).
Proof.
  intros M. unfold snapshot. destruct (snapshotDirty c) eqn:D.
  - pose proof (snapshotFromRecords_spec (snapshotRecords c) (mi_clean _ M)) as H.
    destruct (snapshotFromRecords (snapshotRecords c)) as [v r] eqn:E. eexists _, _. split; [done |]. cbn in H.
    split_and!; [| done | done | intros t; apply H]. constructor; unfold record_of; cbn.
    + apply M.
    + intros t. destruct (H t) as (_ & -> & _). apply M.
    + intros t id. destruct (H t) as (_ & -> & _). apply (mi_values _ M).
    + intros t. apply H.
    + intros _ t. destruct (H t) as (-> & -> & _). done.
  - exists (snapshotValue c), c. split_and!; try done. by apply (mi_snapshot _ M).
Qed.

Lemma snapshot_evolves : keeps evolves snapshot.
Proof.
  intros c. assert (E : entries (snd (snapshot c)) = entries c /\ flight (snd (snapshot c)) = flight c).
  { unfold snapshot. destruct (snapshotDirty c); [| done]. by destruct (snapshotFromRecords (snapshotRecords c)). }
  destruct E as [En Fl]. constructor; unfold epoch, gen, entry_of; rewrite ?En, ?Fl; try done.
  - intros _ t id e He. by exists e.
  - intros _ t id key e _ He _. by left.
  - intros M. destruct (snapshot_spec c M) as (v & c' & -> & M' & _). done.
Qed.

(** ** Runs *)

(** What the SDK does to its cache, with any arguments. *)
Inductive cache_step : ResourceCache -> ResourceCache -> Prop :=
| step_begin_read t id c : cache_step c (snd (beginPointRead t id c))
| step_read op v o c : cache_step c (snd (applyPointRead op v o c))
| step_not_found op c : cache_step c (snd (applyPointNotFound op c))
| step_complete op c : cache_step c (snd (completePointRead op c))
| step_write e detail c : cache_step c (snd (applyWrite e detail c))
| step_feed e c : cache_step c (snd (applyFeedEvent e c))
| step_hydrate entities tasks objects c : cache_step c (snd (replaceHydratedResources entities tasks objects c))
| step_begin_delete t id c : cache_step c (snd (beginLocalDelete t id c))
| step_finish_delete ref outcome c : cache_step c (snd (finishLocalDelete ref outcome c))
| step_cancel_delete ref c : cache_step c (snd (cancelLocalDelete ref c))
| step_snapshot c : cache_step c (snd (snapshot c)).

Lemma cache_step_evolves c c' : cache_step c c' -> evolves c c'.
Proof.
  destruct 1 as [| | | | | e c | | | | |].
  - apply beginPointRead_evolves.
  - apply applyPointRead_evolves.
  - apply applyPointNotFound_evolves.
  - apply completePointRead_evolves.
  - apply applyWrite_evolves.
  - destruct e; [apply applyFeedUpsert_evolves | apply applyFeedDelete_evolves].
  - apply hydrate_evolves.
  - apply beginLocalDelete_evolves.
  - apply finishLocalDelete_evolves.
  - apply drop_evolves.
  - apply snapshot_evolves.
Qed.

Lemma cache_steps_evolve c c' : rtc cache_step c c' -> evolves c c'.
Proof. induction 1 as [| c1 c2 c3 H _ IH]; [reflexivity |]. etransitivity; [by apply cache_step_evolves | done]. Qed.

Lemma new_cache_mirrored : mirrored new_cache.
Proof.
  constructor; [| | | | intros _]; intros t; destruct t; try done; apply NoDup_nil_2.
Qed.

(** ** Samples *)

Definition sample_entity (name created : string) (version : Z) : json :=
  JObject [(js "entity_id", JString (js name)); (js "entity_type", JString (js "asset"));
           (js "metadata", JObject [(js "version", json_int version); (js "created_at", JString (js created))])].

Definition sample_upsert (version : Z) : ResourceUpsertEvent :=
  mkUpsert (version =? 1) entity (js "a1") version (sample_entity "a1" "2026-01-01T00:00:00Z" version).

Definition sample_cache_1 : ResourceCache := snd (applyFeedEvent (feed_upsert (sample_upsert 1)) new_cache).
Definition sample_cache_2 : ResourceCache := snd (snapshot sample_cache_1).
Definition sample_cache : ResourceCache := snd (applyFeedEvent (feed_upsert (sample_upsert 2)) sample_cache_2).

Lemma sample_cache_steps : rtc cache_step new_cache sample_cache.
Proof.
  eapply rtc_l; [exact (step_feed (feed_upsert (sample_upsert 1)) new_cache) |].
  eapply rtc_l; [exact (step_snapshot sample_cache_1) |]. eapply rtc_once, (step_feed (feed_upsert (sample_upsert 2)) sample_cache_2).
Qed.

(** ** The properties *)

(** C33: The snapshot handed to watchers is exactly what the cache would answer
    for each resource, after any sequence of operations: the caching of
    snapshots by record and as a whole never shows a stale or deleted value. *)
Theorem snapshot_exact c v c' :
  rtc cache_step new_cache c -> snapshot c = (Ok v, c') ->
  forall t id, jget id (of_type t v) = value c t id.
Proof.
  intros Hs E t id. pose proof (ev_mirrored _ _ (cache_steps_evolve _ _ Hs) new_cache_mirrored) as M.
  destruct (snapshot_spec c M) as (v' & c'' & E' & _ & _ & _ & Hv). rewrite E in E'. injection E' as <- <-.
  rewrite Hv. rewrite <- (mi_values _ M). apply jget_perm; [| apply own_properties_perm].
  unfold jwf. rewrite (jkeys_perm _ _ (own_properties_perm _)). apply M.
Qed.

Lemma snapshot_exact_witness :
  rtc cache_step new_cache sample_cache /\
  exists v c', snapshot sample_cache = (Ok v, c') /\ jget (js "a1") (of_type entity v) = value sample_cache entity (js "a1").
Proof.
  split; [exact sample_cache_steps |]. eexists _, _. split; [vm_compute; reflexivity |].
  eapply (snapshot_exact sample_cache); [exact sample_cache_steps | vm_compute; reflexivity].
Defined.

(** Between two hydrations the version the cache knows of a resource never
    goes down and its tombstone is never forgotten, whatever reads, writes,
    deletions and events do. *)
Theorem cache_versions_monotone c c' t id e :
  rtc cache_step c c' -> hydrationEpoch (flight c') = hydrationEpoch (flight c) -> entry_of c t id = Some e ->
  exists e', entry_of c' t id = Some e' /\ ce_version e <= ce_version e'.
Proof. intros Hs He. apply (ev_version _ _ (cache_steps_evolve _ _ Hs)). by symmetry. Qed.

Lemma cache_versions_monotone_witness :
  rtc cache_step sample_cache (snd (applyFeedEvent (feed_delete entity (js "a1") 3) sample_cache)) /\
  exists e', entry_of (snd (applyFeedEvent (feed_delete entity (js "a1") 3) sample_cache)) entity (js "a1") = Some e' /\ 2 <= ce_version e'.
Proof.
  assert (Hs : rtc cache_step sample_cache (snd (applyFeedEvent (feed_delete entity (js "a1") 3) sample_cache))) by (apply rtc_once, step_feed).
  split; [exact Hs |].
  assert (He : exists e, entry_of sample_cache entity (js "a1") = Some e /\ ce_version e = 2) by (eexists; split; vm_compute; reflexivity).
  destruct He as (e & He & <-).
  exact (cache_versions_monotone _ _ entity (js "a1") e Hs eq_refl He).
Defined.

(** Reading changes no entry. *)
Lemma settle_entries op status c : entries (snd (settlePointRead op status c)) = entries c.
Proof.
  unfold settlePointRead, bind_eff, lift, gets. destruct (resourceCacheKey _ _); [| done].
  destruct (jget _ _) as [s |]; [| done]. by destruct (_ =? _).
Qed.

Lemma settle_flight op status c : 
  generations (flight (snd (settlePointRead op status c))) = generations (flight c).
Proof.
  unfold settlePointRead, bind_eff, lift, gets. destruct (resourceCacheKey _ _); [| done].
  destruct (jget _ _) as [s |]; [| done]. by destruct (_ =? _).
Qed.

Lemma beginPointRead_spec t id c op c' : beginPointRead t id c = (Ok op, c') ->
  exists key, resourceCacheKey t id = Ok key /\ pr_type op = t /\ pr_id op = id /\ pr_generation op = gen c key /\
    pr_hydrationEpoch op = epoch c /\ pr_observedEntry op = entry_of c t id /\ entries c' = entries c /\ gen c' key = gen c key /\
    epoch c' = epoch c.
Proof.
  unfold beginPointRead, lift, gets, bind_eff, generation. destruct (resourceCacheKey t id) as [key |] eqn:Hk; [| done].
  cbn. intros [= <- <-]. by exists key.
Qed.

(** A read whose generation has moved on is refused. *)
Lemma moved_generation_refused t id v o g c key : resourceCacheKey t id = Ok key -> gen c key <> g ->
  fst (acceptResource t id v o (Some g) c) <> Ok true /\ entries (snd (acceptResource t id v o (Some g) c)) = entries c.
Proof.
  intros Hk Hg. assert (Hb : point_read_blocked t id v g c = (Ok true, c)).
  { unfold point_read_blocked, bind_eff. assert (generation c t id = Ok (gen c key)) as -> by (unfold generation; by rewrite Hk).
    assert ((gen c key =? g) = false) as -> by by apply Z.eqb_neq. done. }
  unfold acceptResource, lift, bind_eff at 1 9. destruct (resourceID t v) as [a |]; [| done].
  destruct (negb (bool_decide (a = id))); [done |]. unfold bind_eff. by rewrite Hb.
Qed.

(** C32: A point read never undoes a deletion that happened after it began: if
    the resource is deleted by the time the response arrives, and that
    tombstone is not the entry the read saw when it began, the response is
    discarded and no entry changes. *)
Theorem stale_read_discarded c0 t id op c1 c v o r c' e :
  beginPointRead t id c0 = (Ok op, c1) -> rtc cache_step c1 c ->
  entry_of c t id = Some e -> ce_deleted e = true -> pr_observedEntry op <> Some e ->
  applyPointRead op v o c = (r, c') ->
  r <> Ok true /\ entries c' = entries c.
Proof.
  intros Hb Hs He Hd Hobs Ha. apply beginPointRead_spec in Hb as (key & Hk & Ht & Hid & Hgen & Hep & Hobserved & Hen & Hg1 & Hep1).
  pose proof (cache_steps_evolve _ _ Hs) as Ev. unfold applyPointRead, bind_eff at 1, gets, same_epoch in Ha.
  destruct (pr_hydrationEpoch op =? hydrationEpoch (flight c)) eqn:Hsame; cbn [negb] in Ha; [| by injection Ha as <- <-].
  assert (E1 : epoch c1 = epoch c) by (apply Z.eqb_eq in Hsame; unfold epoch in *; lia).
  assert (Hmoved : gen c key <> pr_generation op).
  { destruct (ev_deletion _ _ Ev E1 t id key e Hk He Hd) as [H1 | H1]; [| lia].
    exfalso. apply Hobs. rewrite Hobserved. unfold entry_of in *. by rewrite <- Hen. }
  unfold bind_eff in Ha. destruct (settlePointRead op succeeded c) as [[u | er] c2] eqn:Es.
  - pose proof (settle_entries op succeeded c) as S. pose proof (settle_flight op succeeded c) as F. rewrite Es in S, F. cbn in S, F.
    rewrite Ht, Hid in Ha. assert (Hm2 : gen c2 key <> pr_generation op) by (unfold gen in *; by rewrite F).
    destruct (moved_generation_refused t id v o (pr_generation op) c2 key Hk Hm2) as [Hr Hc]. rewrite Ha in Hr, Hc. cbn in Hr, Hc.
    split; [done | congruence].
  - injection Ha as <- <-. pose proof (settle_entries op succeeded c) as S. by rewrite Es in S.
Qed.

Definition sample_read : PointReadOperation :=
  match fst (beginPointRead entity (js "a1") sample_cache) with Ok op => op | Throw _ => mkRead entity [] 0 0 0 None end.

Definition sample_reading : ResourceCache := snd (beginPointRead entity (js "a1") sample_cache).
Definition sample_deleted : ResourceCache := snd (applyFeedEvent (feed_delete entity (js "a1") 3) sample_reading).

Lemma stale_read_discarded_witness :
  beginPointRead entity (js "a1") sample_cache = (Ok sample_read, sample_reading) /\
  fst (applyPointRead sample_read (sample_entity "a1" "2026-01-01T00:00:00Z" 9) no_options sample_deleted) <> Ok true /\
  entries (snd (applyPointRead sample_read (sample_entity "a1" "2026-01-01T00:00:00Z" 9) no_options sample_deleted)) = entries sample_deleted.
Proof.
  assert (Hb : beginPointRead entity (js "a1") sample_cache = (Ok sample_read, sample_reading)) by (vm_compute; reflexivity).
  assert (Hs : rtc cache_step sample_reading sample_deleted) by (apply rtc_once, step_feed).
  split; [exact Hb |].
  eapply (stale_read_discarded sample_cache entity (js "a1") sample_read sample_reading sample_deleted _ no_options _ _ _ Hb Hs);
    [vm_compute; reflexivity | reflexivity | vm_compute; discriminate | apply surjective_pairing].
Defined.

(** ** Feed events *)

Definition same_entries (c c' : ResourceCache) : Prop := entries c' = entries c.
#[local] Instance same_entries_preorder : PreOrder same_entries.
Proof. split; [done | intros c1 c2 c3; unfold same_entries; congruence]. Qed.

Lemma flight_entries f : keeps same_entries (in_flight f).
Proof. done. Qed.

Lemma pending_entries e : keeps same_entries (isSuppressedByPendingDelete e).
Proof. intros c. unfold isSuppressedByPendingDelete, bind_eff, lift, gets. destruct (ue_create e); [done |]. by destruct (resourceCacheKey _ _). Qed.

Lemma clear_entries e : keeps same_entries (clear_if_replaced e).
Proof.
  unfold clear_if_replaced. apply keeps_bind; [apply _ | |].
  - intros c. unfold isReplacementAfterLocalDelete, bind_eff, lift, gets. destruct (ue_create e); [done |]. by destruct (resourceCacheKey _ _).
  - intros [|]; [| by intros c]. unfold clearLocalDeleteMarker. apply keeps_bind; [apply _ | by intros c |]. intros key. done.
Qed.

Lemma fresh_accepted t id v o version c : ro_version o = Some version -> versionFor c t id < version ->
  fst (acceptResource t id v o None c) <> Ok false.
Proof.
  intros Ho Hv. unfold acceptResource, lift, bind_eff, gets, ret. destruct (resourceID t v) as [a |]; [| done].
  destruct (negb (bool_decide (a = id))); [done |]. rewrite Ho.
  assert (outdated t (entry_of c t id) version o = false) as ->.
  { unfold outdated, versionFor in *. destruct (entry_of c t id) as [e |]; [| done].
    rewrite (proj2 (Z.ltb_ge _ _)) by lia. by rewrite (proj2 (Z.eqb_neq _ _)) by lia. }
  by destruct (resourceCacheKey t id).
Qed.

(** What a feed event is about: its resource, version and value. *)
Definition feed_subject (e : FeedEvent) : ResourceType * list Z * Z * option json :=
  match e with
  | feed_upsert u => (ue_type u, ue_id u, ue_version u, Some (ue_resource u))
  | feed_delete t id version => (t, id, version, None)
  end.

(** The cache took the event: the resource is at its version and value, every
    other entry is as it was. *)
Definition took (c : ResourceCache) (e : FeedEvent) (c' : ResourceCache) : Prop :=
  let '(t, id, version, v) := feed_subject e in
  versionFor c' t id = version /\ value c' t id = v /\
  forall t' id', ~ (t' = t /\ id' = id) -> entry_of c' t' id' = entry_of c t' id'.

(** An update of a resource whose deletion is pending. *)
Definition awaiting_deletion (c : ResourceCache) (e : FeedEvent) : Prop :=
  match e with
  | feed_upsert u => ue_create u = false /\
      exists key, resourceCacheKey (ue_type u) (ue_id u) = Ok key /\ jhas key (pendingDeletes (flight c)) = true
  | feed_delete _ _ _ => False
  end.

Lemma took_stored c u c1 c' key : resourceCacheKey (ue_type u) (ue_id u) = Ok key ->
  c1 = stored (ue_type u) (ue_id u) (ue_resource u) (ue_version u) (bool_decide (ue_type u = object) && false) (accepted_flight key) c ->
  same_entries c1 c' -> took c (feed_upsert u) c'.
Proof.
  intros Hk -> S. unfold took, feed_subject, versionFor, value. unfold same_entries in S.
  assert (E : forall t' id', entry_of c' t' id' = if decide (t' = ue_type u /\ id' = ue_id u)
    then Some (mkEntry (next_ref c) (Some (ue_resource u)) (ue_version u) false (bool_decide (ue_type u = object) && false)) else entry_of c t' id').
  { intros t' id'. unfold entry_of at 1. rewrite S. apply entry_of_jset. }
  split_and!; [by rewrite E, decide_True.. |]. intros t' id' H. by rewrite E, decide_False.
Qed.

Lemma upsert_exact u c r c' :
  applyFeedUpsert u c = (Ok r, c') ->
  if ue_version u <=? versionFor c (ue_type u) (ue_id u) then r = None /\ c' = c
  else awaiting_deletion c (feed_upsert u) /\ r = None /\ same_entries c c' \/
       took c (feed_upsert u) c' /\ r = Some (upsert_event u (Some (ue_resource u)), Some (ue_resource u)).
Proof.
  unfold applyFeedUpsert, lift, bind_eff at 1. destruct (resourceCacheKey (ue_type u) (ue_id u)) as [key |] eqn:Hk; [| done].
  unfold bind_eff, gets at 1. destruct (_ <=? _) eqn:Hv; [by intros [= <- <-] |].
  pose proof (pending_entries u c) as Sp. destruct (isSuppressedByPendingDelete u c) as [[[|] | e] c1] eqn:Ep; [| | done].
  - intros [= <- <-]. left. split_and!; [| done | done]. unfold isSuppressedByPendingDelete, bind_eff, lift, gets in Ep.
    cbn. destruct (ue_create u); [done |]. rewrite Hk in Ep. injection Ep as Ep _. split; [done |]. by exists key.
  - assert (c1 = c) as ->.
    { unfold isSuppressedByPendingDelete, bind_eff, lift, gets in Ep. destruct (ue_create u); [by injection Ep |]. rewrite Hk in Ep. by injection Ep. }
    clear Sp. reflect_tests. pose proof (fresh_accepted (ue_type u) (ue_id u) (ue_resource u) (mkOptions false (Some (ue_version u)) false)
      (ue_version u) c eq_refl Hv) as Hfresh.
    destruct (acceptResource _ _ _ _ None c) as [r1 c1] eqn:Ea. cbn [fst] in Hfresh. destruct r1 as [[|] | e]; [| done | done].
    apply acceptResource_cases in Ea as [(? & _) | (_ & _ & _ & key' & Hk' & Hc1)]; [done |].
    rewrite Hk in Hk'. injection Hk' as <-. cbn [andb]. intros H. right.
    assert (S : same_entries c1 c' /\ r = Some (upsert_event u (value c' (ue_type u) (ue_id u)), value c' (ue_type u) (ue_id u))).
    { set (m := if negb _ then _ else _) in H.
      assert (Km : keeps same_entries m).
      { subst m. destruct (negb _); [| by intros c2]. apply keeps_bind; [apply _ | apply clear_entries | by intros _ c2]. }
      specialize (Km c1). destruct (m c1) as [[[] | e] c2]; [| done]. by injection H as <- <-. }
    destruct S as [S ->]. pose proof (took_stored c u c1 c' key Hk Hc1 S) as T. split; [done |].
    destruct T as (_ & -> & _). done.
Qed.

Lemma delete_exact t id version c r c' :
  applyFeedDelete t id version c = (Ok r, c') ->
  if version <=? versionFor c t id then r = None /\ c' = c
  else took c (feed_delete t id version) c' /\ (r = None \/ r = Some (mkWatchEvent delete t id (Some version) None, None)).
Proof.
  unfold applyFeedDelete, lift, bind_eff at 1. destruct (resourceCacheKey t id) as [key |] eqn:Hk; [| done].
  unfold bind_eff at 1, gets. destruct (_ <=? _) eqn:Hv; [by intros [= <- <-] |].
  unfold markRemoteDelete, bumpGeneration, bind_eff. rewrite Hk. cbn. intros [= <- <-]. split; [| case_match; auto].
  unfold took, feed_subject, versionFor, value.
  match goal with |- context [entry_of ?c2 t id] => assert (E : forall t' id', entry_of c2 t' id' = if decide (t' = t /\ id' = id)
    then Some (mkEntry (next_ref c) None version true false) else entry_of c t' id') end.
  { intros t' id'. destruct (sr_remove id (of_type t (snapshotRecords c))). apply entry_of_jset. }
  split_and!; [by rewrite E, decide_True.. |]. intros t' id' H. by rewrite E, decide_False.
Qed.

(** What a feed event does. One not newer than what the cache knows changes
    nothing; an update of a resource whose local deletion is still unconfirmed
    is held off; any other leaves the resource at exactly the event's version
    and value, every other resource untouched, and is reported to watchers with
    the value stored, unless it only confirms a deletion already reported. *)
Theorem feed_event_exact e c r c' :
  applyFeedEvent e c = (Ok r, c') ->
  let '(t, id, version, v) := feed_subject e in
  (version <= versionFor c t id /\ r = None /\ c' = c) \/
  (awaiting_deletion c e /\ r = None /\ entries c' = entries c) \/
  (versionFor c t id < version /\ took c e c' /\
   match e with
   | feed_upsert u => r = Some (upsert_event u v, v)
   | feed_delete t id version => r = None \/ r = Some (mkWatchEvent delete t id (Some version) None, None)
   end).
Proof.
  destruct e as [u | t id version]; cbn [applyFeedEvent feed_subject]; intros H.
  - apply upsert_exact in H. destruct (_ <=? _) eqn:Hv; reflect_tests; [by left |]. right.
    destruct H as [(Ha & Hr & Hs) | (T & Hr)]; [by left | by right].
  - apply delete_exact in H. destruct (_ <=? _) eqn:Hv; reflect_tests; [by left |]. right. by right.
Qed.

Definition sample_feed_result : result (option ResourceChange) * ResourceCache := applyFeedEvent (feed_delete entity (js "a1") 3) sample_cache.

Lemma feed_event_exact_witness :
  exists r c', applyFeedEvent (feed_delete entity (js "a1") 3) sample_cache = (Ok r, c') /\
    versionFor sample_cache entity (js "a1") = 2 /\
    ((3 <= versionFor sample_cache entity (js "a1") /\ r = None /\ c' = sample_cache) \/
     (awaiting_deletion sample_cache (feed_delete entity (js "a1") 3) /\ r = None /\ entries c' = entries sample_cache) \/
     (versionFor sample_cache entity (js "a1") < 3 /\ took sample_cache (feed_delete entity (js "a1") 3) c' /\
      (r = None \/ r = Some (mkWatchEvent delete entity (js "a1") (Some 3) None, None)))).
Proof.
  exists (Some (mkWatchEvent delete entity (js "a1") (Some 3) None, None)), (snd sample_feed_result).
  assert (H : applyFeedEvent (feed_delete entity (js "a1") 3) sample_cache =
    (Ok (Some (mkWatchEvent delete entity (js "a1") (Some 3) None, None)), snd sample_feed_result)) by (vm_compute; reflexivity).
  split; [exact H |]. split; [vm_compute; reflexivity |]. exact (feed_event_exact (feed_delete entity (js "a1") 3) sample_cache _ _ H).
Defined.
