(* ===== verification/ContentCache.v ===== *)
(** * The object content cache ([ObjectContentCache] of [sdk/src/cache.ts])

    A bounded cache of object contents that forgets the least recently used
    first, over a [Map] whose insertion order is the order of use. *)

From Stdlib Require Import ZArith Lia String.
From stdpp Require Import base list option.
From S2P Require Import Prelude JsMap.

Open Scope string_scope.
Open Scope list_scope.
Open Scope Z_scope.

Record ObjectContentCache := mkContent { maxEntries : Z; contents : list (list Z * list Z) }.

Definition newContentCache (maxEntries : Z) : result ObjectContentCache :=
  guard! isSafeInteger maxEntries && (0 <? maxEntries) else TypeError "objectContentCacheEntries must be a positive safe integer" in
  Ok (mkContent maxEntries []).

Definition get_content (key : list Z) (c : ObjectContentCache) : option (list Z) * ObjectContentCache :=
  match jget key (contents c) with
  | None => (None, c)
  | Some value => (Some value, mkContent (maxEntries c) (jset key value (jdel key (contents c))))
  end.

(** [while (size > maxEntries) delete the oldest] *)
Fixpoint evict (limit : Z) (m : list (list Z * list Z)) : list (list Z * list Z) :=
  match m with
  | [] => []
  | _ :: m' => if limit <? jsize m then evict limit m' else m
  end.

Definition set_content (key value : list Z) (c : ObjectContentCache) : ObjectContentCache :=
  mkContent (maxEntries c) (evict (maxEntries c) (jset key value (jdel key (contents c)))).

(** ** Uses *)

Inductive use := use_get (key : list Z) | use_set (key value : list Z).

Definition key_of (u : use) : list Z := match u with use_get k | use_set k _ => k end.

Definition perform (c : ObjectContentCache) (u : use) : ObjectContentCache :=
  match u with use_get k => snd (get_content k c) | use_set k v => set_content k v c end.

(** What the cache was last given for a key. *)
Definition last_given (key value : list Z) (us : list use) : list Z :=
  fold_left (fun v u => match u with use_set k v' => if decide (k = key) then v' else v | use_get _ => v end) us value.

(** ** Eviction *)

Lemma evict_suffix limit m : exists gone, m = gone ++ evict limit m.
Proof.
  induction m as [| p m (gone & E)]; [by exists [] |]. cbn. destruct (_ <? _); [| by exists []].
  exists (p :: gone). cbn. by rewrite <- E.
Qed.

Lemma evict_size limit m : 0 <= limit -> jsize (evict limit m) <= limit.
Proof.
  intros Hl. induction m as [| p m IH]; [done |]. cbn. destruct (_ <? _) eqn:E; [done |]. by reflect_tests.
Qed.

(** A tail that fits is never evicted. *)
Lemma evict_keeps limit before tail : jsize tail <= limit -> exists before', evict limit (before ++ tail) = before' ++ tail.
Proof.
  intros Ht. induction before as [| p before IH]; [exists [] |]; cbn.
  - destruct tail as [| p tail]; [done |]. cbn. by rewrite (proj2 (Z.ltb_ge _ _)).
  - destruct (_ <? _); [done | by exists (p :: before)].
Qed.

Lemma evict_wf limit m : jwf m -> jwf (evict limit m).
Proof.
  destruct (evict_suffix limit m) as (gone & E). unfold jwf, jkeys. rewrite E at 1. rewrite map_app. by intros (_ & _ & ?)%list.NoDup_app.
Qed.

Definition content_ok (c : ObjectContentCache) : Prop := jwf (contents c) /\ jsize (contents c) <= maxEntries c /\ 0 < maxEntries c.

Lemma jdel_jset_append (key value : list Z) m : jwf m -> jset key value (jdel key m) = jdel key m ++ [(key, value)].
Proof. intros W. apply jset_absent. rewrite <- jget_None. by apply jget_jdel_eq. Qed.

Lemma perform_ok c u : content_ok c -> content_ok (perform c u) /\ maxEntries (perform c u) = maxEntries c.
Proof.
  intros (W & S & M). destruct u as [k | k v]; cbn.
  - unfold get_content. destruct (jget k (contents c)) as [v |] eqn:E; cbn; [| done]. split; [| done]. split_and!; [| | done]; cbn.
    + by apply jset_wf, jdel_wf.
    + rewrite jdel_jset_append by done. unfold jsize. rewrite zlen_app. fold (jsize (jdel k (contents c))).
      rewrite jsize_jdel_present by (by eapply jget_key). unfold zlen; cbn. lia.
  - split; [| done]. split_and!; cbn; [| | done]; [by apply evict_wf, jset_wf, jdel_wf | apply evict_size; lia].
Qed.

(** ** Recency *)

(** [key] holds [value], and only keys of [used] are more recent. *)
Definition recent (key value : list Z) (used : list (list Z)) (c : ObjectContentCache) : Prop :=
  exists before after, contents c = before ++ (key, value) :: after /\ forall k, k ∈ jkeys after -> k ∈ used /\ k <> key.

Lemma jdel_split (k : list Z) (before : list (list Z * list Z)) p after : fst p <> k ->
  exists before' after', jdel k (before ++ p :: after) = before' ++ p :: after' /\ (forall k', k' ∈ jkeys after' -> k' ∈ jkeys after).
Proof.
  intros Hp. induction before as [| q before (b & a & E & H)]; cbn.
  - destruct p as [kp vp]. cbn in Hp. rewrite decide_False by done. exists [], (jdel k after). split; [done |].
    intros k'. exact (elem_of_jkeys_jdel_weak k k' after).
  - destruct q as [kq vq]. destruct (decide (k = kq)); [by exists before, after |].
    exists ((kq, vq) :: b), a. split; [by rewrite E | done].
Qed.

Lemma recent_front key value used c m : recent key value used c -> jwf (contents c) ->
  m = jset key value (jdel key (contents c)) -> recent key value used (mkContent (maxEntries c) m).
Proof. intros _ W ->. exists (jdel key (contents c)), []. cbn. rewrite jdel_jset_append by done. split; [done |]. by intros k ?%not_elem_of_nil. Qed.

Lemma recent_touch key value used k v c : k <> key -> jwf (contents c) -> recent key value used c ->
  recent key value (k :: used) (mkContent (maxEntries c) (jset k v (jdel k (contents c)))).
Proof.
  intros Hk W (before & after & E & H). destruct (jdel_split k before (key, value) after) as (b & a & Ed & Ha); [done |].
  exists b, (a ++ [(k, v)]). cbn. rewrite jdel_jset_append, E, Ed, <- (assoc app) by done. split; [done |].
  intros k'. unfold jkeys. rewrite map_app, elem_of_app. intros [Hin | Hin].
  - destruct (H k' (Ha k' Hin)). split; [by right | done].
  - apply list_elem_of_singleton in Hin as ->. split; [by left | done].
Qed.

Lemma recent_evict key value used c limit :
  jwf (contents c) -> recent key value used c -> zlen (remove_dups used) < limit ->
  recent key value used (mkContent (maxEntries c) (evict limit (contents c))).
Proof.
  intros W (before & after & E & H) Hlimit. cbn. unfold recent; cbn. rewrite E.
  destruct (evict_keeps limit before ((key, value) :: after)) as (b & Hb).
  - unfold jsize. rewrite zlen_cons.
    assert (length (jkeys after) <= length (remove_dups used))%nat.
    { apply NoDup_incl_length; [| intros k Hk; apply list_elem_of_In, elem_of_remove_dups; apply H; by apply list_elem_of_In].
      apply NoDup_ListNoDup. unfold jwf in W. rewrite E in W. unfold jkeys in W. rewrite map_app in W.
      apply list.NoDup_app in W as (_ & _ & W). cbn in W. by apply list.NoDup_cons in W as [_ ?]. }
    unfold jkeys in *. rewrite length_map in *. unfold zlen in *. lia.
  - exists b, after. by rewrite Hb.
Qed.

Lemma recent_mono key value used used' c : (forall k, k ∈ used -> k ∈ used') -> recent key value used c -> recent key value used' c.
Proof. intros Hu (b & a & E & H). exists b, a. split; [done |]. intros k Hk. destruct (H k Hk). auto. Qed.

Lemma recent_get key value used c : jwf (contents c) -> recent key value used c -> jget key (contents c) = Some value.
Proof. intros W (b & a & E & _). apply jget_of_elem; [done |]. rewrite E. apply elem_of_app. right. by left. Qed.

Lemma perform_recent key value used c u :
  content_ok c -> recent key value used c -> (key_of u <> key -> key_of u ∈ used) -> zlen (remove_dups used) < maxEntries c ->
  recent key (match u with use_set k v => if decide (k = key) then v else value | use_get _ => value end) used (perform c u).
Proof.
  intros (W & S & M) R Hu Hlimit. assert (Hused : forall k, k ∈ key_of u :: used -> key_of u <> key -> k ∈ used).
  { intros k [->|]%list.elem_of_cons; auto. }
  destruct u as [k | k v]; cbn [perform key_of] in *.
  - unfold get_content. destruct (jget k (contents c)) as [v |] eqn:E; cbn; [| done]. destruct (decide (k = key)) as [-> | Hk].
    + rewrite (recent_get _ _ _ _ W R) in E. injection E as <-. by eapply recent_front.
    + eapply recent_mono; [| by apply recent_touch]. intros k' Hk'. by apply Hused.
  - unfold set_content. apply (recent_evict key _ used (mkContent (maxEntries c) (jset k v (jdel k (contents c))))); [| | done]; cbn.
    + by apply jset_wf, jdel_wf.
    + destruct (decide (k = key)) as [-> | Hk].
      * exists (jdel key (contents c)), []. cbn. rewrite jdel_jset_append by done. split; [done |]. by intros k ?%not_elem_of_nil.
      * eapply recent_mono; [| by apply recent_touch]. intros k' Hk'. by apply Hused.
Qed.

Lemma uses_recent key used us : forall c value, content_ok c -> recent key value used c ->
  (forall u, u ∈ us -> key_of u <> key -> key_of u ∈ used) -> zlen (remove_dups used) < maxEntries c ->
  recent key (last_given key value us) used (fold_left perform us c) /\ content_ok (fold_left perform us c).
Proof.
  induction us as [| u us IH]; intros c value Hok R Hu Hlimit; [done |]. cbn [fold_left last_given].
  destruct (perform_ok c u Hok) as [Hok' Hmax]. apply IH; [done | | intros u' Hu'; apply Hu; by right | by rewrite Hmax].
  apply perform_recent; [done | done | apply Hu; by left | done].
Qed.

Lemma uses_ok us : forall c, content_ok c -> content_ok (fold_left perform us c) /\ maxEntries (fold_left perform us c) = maxEntries c.
Proof.
  induction us as [| u us IH]; intros c H; [done |]. destruct (perform_ok c u H) as [H' M]. cbn. destruct (IH _ H') as [? E]. by rewrite E.
Qed.

(** The cache holds at most its limit, and forgets the least recently used:
    content given for a key is what [get] returns as long as fewer than
    [maxEntries] other keys were used since, whatever the order of uses. *)
Theorem content_cache_lru limit c0 earlier key value us :
  newContentCache limit = Ok c0 ->
  zlen (remove_dups (List.filter (fun k => negb (bool_decide (k = key))) (map key_of us))) < limit ->
  let c := fold_left perform (earlier ++ use_set key value :: us) c0 in
  jsize (contents c) <= limit /\ fst (get_content key c) = Some (last_given key value us).
Proof.
  unfold newContentCache. case_match eqn:Hl; [| done]. intros [= <-] Hlimit. reflect_tests.
  assert (Hc0 : content_ok (mkContent limit [])) by (split_and!; cbn; [apply NoDup_nil_2 | unfold jsize; rewrite zlen_nil; lia | done]).
  destruct (uses_ok earlier _ Hc0) as [H1 M1]. cbn in M1. set (c1 := fold_left perform earlier (mkContent limit [])) in *.
  destruct (perform_ok c1 (use_set key value) H1) as [H2 M2]. cbv zeta. rewrite fold_left_app. cbn [fold_left]. fold c1.
  set (used := List.filter _ _) in Hlimit. set (c2 := perform c1 (use_set key value)) in *.
  assert (R : recent key value used c2).
  { apply (recent_evict key value used (mkContent (maxEntries c1) (jset key value (jdel key (contents c1))))); cbn.
    - apply jset_wf, jdel_wf, H1.
    - exists (jdel key (contents c1)), []. cbn. rewrite jdel_jset_append by apply H1. split; [done |]. by intros k ?%not_elem_of_nil.
    - by rewrite M1. }
  destruct (uses_recent key used us c2 value H2 R) as [R3 H3].
  - intros u Hu Hk. subst used. rewrite list_elem_of_In, List.filter_In, <- list_elem_of_In. split; [| by rewrite bool_decide_false].
    apply list_elem_of_fmap. by exists u.
  - rewrite M2, M1. done.
  - destruct (uses_ok us c2 H2) as [(_ & S & _) M3]. split; [rewrite M3, M2, M1 in S; exact S |].
    unfold get_content. by rewrite (recent_get _ _ _ _ (proj1 H3) R3).
Qed.

Definition sample_contents : ObjectContentCache := mkContent 2 [].

Lemma content_cache_lru_witness :
  newContentCache 2 = Ok sample_contents /\
  let c := fold_left perform ([use_set (js "b") [2]] ++ use_set (js "a") [1] :: [use_set (js "c") [3]; use_get (js "a")]) sample_contents in
  jsize (contents c) <= 2 /\ fst (get_content (js "a") c) = Some [1].
Proof.
  assert (H0 : newContentCache 2 = Ok sample_contents) by (vm_compute; reflexivity).
  split; [exact H0 |].
  apply (content_cache_lru 2 sample_contents [use_set (js "b") [2]] (js "a") [1] [use_set (js "c") [3]; use_get (js "a")] H0).
  vm_compute; reflexivity.
Defined.
