(* ===== verification/Clock.v ===== *)
(** * The clock of the link ([clock.ts])

    [VirtualClock]: time moves only when it is told to, from one scheduled
    callback to the next.  A callback is a value of [C], run by the component
    that scheduled it; a handle is the object [schedule] returns, one per call,
    and is known by the call's order. *)

From Stdlib Require Import ZArith Lia String.
From stdpp Require Import base list option sorting.
From S2P Require Import Prelude JsState.

Section clock.
Context {C : Type}.

Record Scheduled := mkScheduled { t_at : Z; t_order : Z; t_callback : C }.

Record VirtualClock := mkClock { current : Z; nextTimer : Z; scheduled : list Scheduled }.

#[global] Instance rebuild_clock : Rebuild VirtualClock := fun c => mkClock (current c) (nextTimer c) (scheduled c).

Definition newClock (startMs : Z) : VirtualClock := mkClock startMs 0 [].

Definition schedule (c : VirtualClock) (delayMs : Z) (callback : C) : result (Z * VirtualClock) :=
  guard! negb (delayMs <? 0) else RangeError "delayMs must be a non-negative finite number" in
  Ok (nextTimer c,
      mkClock (current c) (nextTimer c + 1)
        (scheduled c ++ [mkScheduled (current c + delayMs) (nextTimer c) callback])).

(** [findIndex] and [splice] of the item with the handle. *)
Fixpoint remove_timer (handle : Z) (l : list Scheduled) : list Scheduled :=
  match l with
  | [] => []
  | t :: l' => if t_order t =? handle then l' else t :: remove_timer handle l'
  end.

Definition cancel (c : VirtualClock) (handle : Z) : VirtualClock :=
  mkClock (current c) (nextTimer c) (remove_timer handle (scheduled c)).

(** [left.at - right.at || left.order - right.order] is not positive. *)
Definition sooner (a b : Scheduled) : bool := (t_at a <? t_at b) || ((t_at a =? t_at b) && (t_order a <=? t_order b)).

Fixpoint insert_timer (t : Scheduled) (l : list Scheduled) : list Scheduled :=
  match l with
  | [] => [t]
  | x :: l' => if sooner x t then x :: insert_timer t l' else t :: l
  end.

Definition sort_timers (l : list Scheduled) : list Scheduled := fold_left (fun acc t => insert_timer t acc) l [].

(** One turn of the loop of [advanceTo]: the timer to run next and the clock
    set to its time, or the clock at the target. *)
Definition next_due (c : VirtualClock) (targetMs : Z) : option Scheduled * VirtualClock :=
  match sort_timers (scheduled c) with
  | t :: rest =>
      if t_at t <=? targetMs then (Some t, mkClock (t_at t) (nextTimer c) rest)
      else (None, mkClock targetMs (nextTimer c) (t :: rest))
  | [] => (None, mkClock targetMs (nextTimer c) [])
  end.

(** The guard of [advanceTo]. *)
Definition can_advance (c : VirtualClock) (targetMs : Z) : bool := negb (targetMs <? current c).

Definition pendingCount (c : VirtualClock) : Z := zlen (scheduled c).

(** ** Facts *)

Lemma insert_timer_elem t l x : x ∈ insert_timer t l <-> x = t \/ x ∈ l.
Proof.
  induction l as [| y l IH]; cbn; [by rewrite list_elem_of_singleton, elem_of_nil; tauto |].
  destruct (sooner y t); rewrite !elem_of_cons, ?IH; tauto.
Qed.

Lemma sort_timers_elem_acc l acc x : x ∈ fold_left (fun acc t => insert_timer t acc) l acc <-> x ∈ l \/ x ∈ acc.
Proof.
  revert acc. induction l as [| t l IH]; intros acc; cbn; [rewrite elem_of_nil; tauto |].
  rewrite IH, insert_timer_elem, elem_of_cons. tauto.
Qed.

Lemma sort_timers_elem l x : x ∈ sort_timers l <-> x ∈ l.
Proof. unfold sort_timers. rewrite sort_timers_elem_acc, elem_of_nil. tauto. Qed.

Definition no_later (a b : Scheduled) : Prop := t_at a <= t_at b.

Lemma sooner_no_later a b : sooner a b = true -> no_later a b.
Proof. unfold sooner, no_later. intros H. apply orb_true_iff in H as [H | H]; reflect_tests; lia. Qed.
Lemma not_sooner_no_later a b : sooner a b = false -> no_later b a.
Proof. unfold sooner, no_later. intros H. reflect_tests. lia. Qed.

Lemma insert_timer_sorted t l : StronglySorted no_later l -> StronglySorted no_later (insert_timer t l).
Proof.
  induction 1 as [| y l Hs IH Hy]; cbn; [repeat constructor |].
  rewrite Forall_elem in Hy. destruct (sooner y t) eqn:E; constructor; try done.
  - apply Forall_elem. intros x [-> | Hx]%insert_timer_elem; [by apply sooner_no_later | auto].
  - by constructor; [| apply Forall_elem].
  - apply not_sooner_no_later in E. apply Forall_elem. intros x [-> | Hx]%elem_of_cons; [done |].
    specialize (Hy x Hx). unfold no_later in *. lia.
Qed.

Lemma sort_timers_sorted l : StronglySorted no_later (sort_timers l).
Proof.
  unfold sort_timers. assert (H : StronglySorted no_later []) by constructor. revert H.
  generalize (@nil Scheduled). induction l as [| t l IH]; intros acc Hacc; cbn; [done |].
  apply IH, insert_timer_sorted, Hacc.
Qed.

Lemma remove_timer_elem handle l x : x ∈ remove_timer handle l -> x ∈ l.
Proof.
  induction l as [| t l IH]; cbn; [done |]. case_match; rewrite !elem_of_cons; [tauto |].
  intros [? | ?]; auto.
Qed.

Lemma remove_timer_keeps handle l x : x ∈ l -> t_order x <> handle -> x ∈ remove_timer handle l.
Proof.
  induction l as [| t l IH]; cbn; [by intros ?%elem_of_nil |].
  rewrite elem_of_cons. intros [-> | Hx] Hne.
  - rewrite (proj2 (Z.eqb_neq _ _) Hne). by apply list_elem_of_here.
  - case_match; [done |]. apply list_elem_of_further. auto.
Qed.

(** No timer is overdue and handles are not reused: what every operation of
    the clock keeps. *)
Record clock_ok (c : VirtualClock) : Prop := {
  none_overdue : forall t, t ∈ scheduled c -> current c <= t_at t;
  handles_old : forall t, t ∈ scheduled c -> t_order t < nextTimer c
}.

Lemma clock_ok_new startMs : clock_ok (newClock startMs).
Proof. split; cbn; intros t ?%elem_of_nil; done. Qed.

Lemma clock_ok_schedule c delay cb h c' : schedule c delay cb = Ok (h, c') -> clock_ok c -> clock_ok c'.
Proof.
  unfold schedule. case_match eqn:E; [| done]. intros [= <- <-] [H1 H2]. reflect_tests.
  split; cbn; intros t [Ht | ->%list_elem_of_singleton]%elem_of_app; cbn; try lia; auto.
  specialize (H2 t Ht). lia.
Qed.

Lemma clock_ok_cancel c h : clock_ok c -> clock_ok (cancel c h).
Proof. intros [H1 H2]. split; cbn; intros t Ht%remove_timer_elem; auto. Qed.

Lemma next_due_spec c targetMs t c' :
  clock_ok c -> next_due c targetMs = (Some t, c') ->
  clock_ok c' /\ t ∈ scheduled c /\ current c <= current c' <= targetMs /\ current c' = t_at t /\ nextTimer c' = nextTimer c /\
  (forall x, x ∈ scheduled c' -> x ∈ scheduled c) /\
  (forall x, x ∈ scheduled c -> x = t \/ x ∈ scheduled c').
Proof.
  intros [H1 H2] E. unfold next_due in E. pose proof (sort_timers_sorted (scheduled c)) as Hs.
  assert (He : forall x, x ∈ sort_timers (scheduled c) <-> x ∈ scheduled c) by (intros; apply sort_timers_elem).
  destruct (sort_timers (scheduled c)) as [| y rest]; [done |].
  destruct (t_at y <=? targetMs) eqn:Hd; [| done]. injection E as -> <-. apply Z.leb_le in Hd.
  apply StronglySorted_inv in Hs as [_ Hs]. rewrite Forall_elem in Hs.
  assert (Ht : t ∈ scheduled c) by (apply He, list_elem_of_here).
  assert (Hrest : forall x, x ∈ rest -> x ∈ scheduled c) by (intros; by apply He, list_elem_of_further).
  repeat split; cbn; auto. all: intros; try (apply Hs || apply H1 || apply H2); auto.
  apply elem_of_cons, He. done.
Qed.

Lemma next_due_none c targetMs c' :
  clock_ok c -> next_due c targetMs = (None, c') ->
  clock_ok c' /\ current c' = targetMs /\ nextTimer c' = nextTimer c /\
  (forall x, x ∈ scheduled c' <-> x ∈ scheduled c).
Proof.
  intros [H1 H2] E. unfold next_due in E. pose proof (sort_timers_sorted (scheduled c)) as Hs.
  assert (He : forall x, x ∈ sort_timers (scheduled c) <-> x ∈ scheduled c) by (intros; apply sort_timers_elem).
  destruct (sort_timers (scheduled c)) as [| y rest].
  - injection E as <-. repeat split; cbn; try (intros ? ?%elem_of_nil; done); try done; apply He.
  - destruct (t_at y <=? targetMs) eqn:Hd; [done |]. injection E as <-. apply Z.leb_gt in Hd.
    apply StronglySorted_inv in Hs as [_ Hs]. rewrite Forall_elem in Hs.
    repeat split; cbn; try (intros; by apply He); try (intros t Ht; apply H2, He, Ht).
    intros t [-> | Ht]%elem_of_cons; [lia |]. specialize (Hs t Ht). unfold no_later in Hs. lia.
Qed.
End clock.
Arguments Scheduled : clear implicits.
Arguments VirtualClock : clear implicits.
