(* ===== verification/TransportState.v ===== *)
(** * The transport: its data ([transport.ts], [types.ts], [radio.ts])

    The types of the class [LinkTransport], its state, and the small functions
    at the end of its file.  Queued messages are mutable objects that several
    tables share: [objects] is their store, an object is known by the number of
    its allocation, and the queue and the tables hold numbers. *)

From Stdlib Require Import ZArith Lia String.
From stdpp Require Import base list option.
From S2P Require Import Prelude JsMap BinaryIO Wtf8 Json Utf8Text CompactValue Base64 Compression LinkTypes Frame Contract SdkValidation StateDelta Picture JsState Clock.

Open Scope string_scope.
Open Scope list_scope.
Open Scope Z_scope.

#[export] Instance DeliveryClass_eq_dec : EqDecision DeliveryClass.
Proof. solve_decision. Defined.

(** ** Constants *)

Definition PRIORITY_ORDER (p : MessagePriority) : Z :=
  match p with safety => 0 | task => 1 | request => 2 | live_state => 3 | resource => 4 | object_content => 5 end.

Definition DEADLINE_MS (p : MessagePriority) : Z :=
  match p with
  | safety | task => 15000
  | request | live_state | resource => 30000
  | object_content => 5 * 60000
  end.

Definition RETRY_MS (p : MessagePriority) : Z :=
  match p with safety | task => 5000 | request | live_state | resource => 10000 | object_content => 15000 end.

Definition OPERATION_RESULT_LIMIT : Z := 4096.
Definition COMMITTED_OPERATION_ID_LIMIT : Z := 4096.
Definition TASK_RESERVATION_LIMIT : Z := 8192.
Definition COMMITTED_OPERATION_ID_RETENTION_MS : Z := 10 * 60000.
Definition SETTLED_INBOUND_LIMIT : Z := 4096.
Definition TASK_DELIVERY_FENCE_LIMIT : Z := 4096.

(** ** Radio packets and options *)

Record RadioPacket := mkPacket {
  p_payload : list Z;
  p_received_at : Z;
  p_radio_packet_id : option Z;
  p_channel : Z
}.

Record RadioSendOptions := mkSendOptions {
  so_channel : Z;
  so_priority : MessagePriority;
  so_request_id : option Z
}.

Definition MESHTASTIC_NATIVE_PLAINTEXT_PAYLOAD_BYTES : Z := 231.
Definition MESHTASTIC_NATIVE_REQUEST_ID_BYTES : Z := 5.

(** For the options the transport gives, which name no radio node and ask for
    no public key; request identities are valid. *)
Definition meshtasticMaxPayloadBytes (options : RadioSendOptions) : Z :=
  MESHTASTIC_NATIVE_PLAINTEXT_PAYLOAD_BYTES -
  match so_request_id options with None => 0 | Some _ => MESHTASTIC_NATIVE_REQUEST_ID_BYTES end.

(** What the transport asks of its surroundings: the identity source, the
    budget and the pacing of its radio, the host's collation, and whether the
    listeners of its picture throw. *)
Class Host := {
  createID : Z -> list Z;
  maxPayloadBytes : RadioSendOptions -> Z;
  pacingDelayMs : list Z -> Z;
  localeCompare : list Z -> list Z -> Z;
  picture_listener_throws : Z -> PictureEvent -> bool
}.

(** ** Messages and operations *)

Abbreviation message := (list (list Z * json)) (only parsing).

Definition has_type (m : message) (t : LinkMessageType) : bool := is_text (prop m "type") (message_type_name t).
Definition request_id (m : message) : list Z := text_of (prop m "request_id").

Inductive LinkOperationStatus :=
  | op_queued | op_sent | op_confirmed | op_responded | op_rejected | op_failed.
#[export] Instance LinkOperationStatus_eq_dec : EqDecision LinkOperationStatus.
Proof. solve_decision. Defined.

Record LinkOperationResult := mkResult {
  r_operation_id : list Z;
  r_status : LinkOperationStatus;
  r_reason : option (list Z);
  r_output : option json;
  r_next_cursor : option json;
  r_completed_at : option Z
}.

Definition isCountedOutcome (s : LinkOperationStatus) : bool := negb (bool_decide (s = op_queued)).

(** [{ operation_id, status, reason, completed_at }] *)
Definition settled_result (operationID : list Z) (status : LinkOperationStatus) (reason : option (list Z)) (at_ : option Z)
    : LinkOperationResult := mkResult operationID status reason None None at_.

Record MessageEvent := mkMessageEvent {
  me_message : message;
  me_operation_id : list Z;
  me_settlement_id : list Z;
  me_source : LinkNode;
  me_destination : option LinkNode;
  me_generation : Z;
  me_session : list Z;
  me_sequence : Z;
  me_received_at : Z;
  me_addressed_to_local : bool;
  me_requires_settlement : bool
}.

Inductive TransportEvent :=
  | on_message (e : MessageEvent)
  | on_operation (result : LinkOperationResult)
  | on_link_error (reason : list Z)
  | on_packet_sent (message_id operation_id : list Z) (bytes sent_at : Z).

(** What listeners are told: events, and that there is room again. *)
Inductive Signal := event_signal (e : TransportEvent) | capacity_signal.

Record SubmitOptions := mkSubmit { sub_destination : option LinkNode; sub_operationID : option (list Z) }.

Record AtomicTaskSettlementResult := mkAtomic {
  at_accepted : bool;
  at_receipt : LinkOperationResult;
  at_report : LinkOperationResult
}.

(** ** Queued messages *)

Record Outbound := mkOutbound {
  o_message : message;
  o_operationID : list Z;
  o_trackingKey : list Z;
  o_identity : FrameIdentity;
  o_frames : list (list Z);
  o_pendingChunks : list Z;
  o_delivery : DeliveryClass;
  o_coalescingKey : option (list Z);
  o_retryTimer : option Z;
  o_deadlineTimer : option Z;
  o_started : bool;
  o_order : Z;
  o_queuedAt : Z;
  o_firstSentAt : option Z;
  o_rttAmbiguous : bool;
  o_chunkSendCounts : list Z;
  o_retrySequence : Z;
  o_sendOptions : RadioSendOptions;
  o_commitStateBaseline : option PreparedStateDelta
}.

#[export] Instance rebuild_outbound : Rebuild Outbound := fun o =>
  mkOutbound (o_message o) (o_operationID o) (o_trackingKey o) (o_identity o) (o_frames o) (o_pendingChunks o)
    (o_delivery o) (o_coalescingKey o) (o_retryTimer o) (o_deadlineTimer o) (o_started o) (o_order o) (o_queuedAt o)
    (o_firstSentAt o) (o_rttAmbiguous o) (o_chunkSendCounts o) (o_retrySequence o) (o_sendOptions o)
    (o_commitStateBaseline o).

Record PreparedOutbound := mkPreparedOutbound {
  po_outbound : Outbound;
  po_payloadByteLength : Z;
  po_replacesFailedResult : bool
}.

Inductive OutboundPreparation :=
  | prep_ready (p : PreparedOutbound)
  | prep_existing (r : LinkOperationResult)
  | prep_failed (operationID trackingKey reason : list Z) (confirmedOverload : bool).

Record CapacityReservation := mkCapacity {
  additionalOutbound : Z;
  pendingInboundDelta : Z;
  additionalConfirmed : Z
}.

(** The report is an object of the store. *)
Record CompoundReceiptPair := mkPair {
  cr_receipt : Z;
  cr_report : Z;
  cr_combinedFrame : list Z;
  cr_originalFrame : list Z;
  cr_originalIdentity : FrameIdentity;
  cr_originalSendOptions : RadioSendOptions;
  cr_receiptIdentity : ReceiptIdentity
}.

(** ** Tables *)

Record Reassembly := mkReassembly {
  re_identity : FrameIdentity;
  re_chunks : list (Z * list Z);
  re_chunkCount : Z;
  re_byteLength : Z;
  re_expiresAt : Z;
  re_lastReceivedAt : Z;
  re_radioPacketID : option Z;
  re_timer : Z
}.
#[export] Instance rebuild_reassembly : Rebuild Reassembly := fun r =>
  mkReassembly (re_identity r) (re_chunks r) (re_chunkCount r) (re_byteLength r) (re_expiresAt r) (re_lastReceivedAt r)
    (re_radioPacketID r) (re_timer r).

Record SourceFence := mkFence { f_generation : Z; f_session : list Z }.

Record PendingInbound := mkPending {
  pi_source : LinkNode;
  pi_message_type : LinkMessageType;
  pi_task_id : option (list Z);
  pi_operationID : list Z;
  pi_messageID : list Z;
  pi_radioPacketID : option Z;
  pi_timer : Z
}.

Inductive Verdict := verdict_confirmed | verdict_rejected.
#[export] Instance Verdict_eq_dec : EqDecision Verdict.
Proof. solve_decision. Defined.

Record SettledInbound := mkSettled {
  sd_result : Verdict;
  sd_expiresAt : Z;
  sd_atomicTask : option (list Z * AtomicTaskSettlementResult)
}.

Inductive SourceAdmissionFailure := admission_capacity | admission_stale_source | admission_picture_rejected.

Definition admission_reason (f : SourceAdmissionFailure) : string :=
  match f with
  | admission_capacity => "capacity"
  | admission_stale_source => "stale_source"
  | admission_picture_rejected => "picture_rejected"
  end.

(** ** Metrics *)

Inductive Counter :=
  | application_bytes | packets_sent | transmitted_bytes | packets_received | malformed_frames | invalid_messages
  | duplicate_packets_suppressed | stale_messages_rejected | picture_rejected_capacity | incomplete_reassemblies
  | best_effort_replaced | confirmed_rejected_overload | retry_exhausted | retransmitted_packets
  | fragment_repair_requests_sent | fragment_repair_requests_received | radio_send_failures
  | inbound_settlement_expired
  | packets_sent_by_message_type (t : LinkMessageType)
  | transmitted_bytes_by_priority (p : MessagePriority)
  | operation_outcomes (s : LinkOperationStatus).
#[export] Instance Counter_eq_dec : EqDecision Counter.
Proof. solve_decision. Defined.

Inductive Timed := queue_wait_ms_by_priority (p : MessagePriority) | operation_latency_ms_by_priority (p : MessagePriority).
#[export] Instance Timed_eq_dec : EqDecision Timed.
Proof. solve_decision. Defined.

Record LinkTimingMetric := mkTiming { samples : Z; total_ms : Z; maximum_ms : Z }.

Record LinkMetrics := mkMetrics {
  counted : Counter -> Z;
  timed : Timed -> LinkTimingMetric;
  peak_queue_depth : Z
}.

Definition emptyTiming : LinkTimingMetric := mkTiming 0 0 0.
Definition emptyMetrics : LinkMetrics := mkMetrics (fun _ => 0) (fun _ => emptyTiming) 0.

(** A key of a table of all the keys of a type, reassigned. *)
Definition at_key {K V} `{EqDecision K} (k : K) (f : V -> V) (table : K -> V) : K -> V :=
  fun k' => if decide (k' = k) then f (table k') else table k'.

Definition add_count (c : Counter) (n : Z) (m : LinkMetrics) : LinkMetrics :=
  mkMetrics (at_key c (fun v => v + n) (counted m)) (timed m) (peak_queue_depth m).

Definition observeTiming (t : Timed) (durationMs : Z) (m : LinkMetrics) : LinkMetrics :=
  mkMetrics (counted m)
    (at_key t (fun v => mkTiming (samples v + 1) (total_ms v + durationMs) (Z.max (maximum_ms v) durationMs)) (timed m))
    (peak_queue_depth m).

(** ** Timers

    The callbacks the transport schedules, by what they close over. *)
Inductive Callback :=
  | run_pump
  | outbound_deadline (outbound : Z)
  | retry_outbound (outbound : Z)
  | retry_after_failure (outbound : Z)
  | expire_reassembly (key : list Z)
  | expire_pending_inbound (settlementID : list Z)
  | committed_expiry.

(** ** The object *)

(** A send the radio has not answered: [outbound] is active, and its chunk
    was taken, or its frame travels with a report. *)
Record Sending := mkSending { sg_outbound : Z; sg_chunkIndex : Z; sg_frame : list Z; sg_pair : option CompoundReceiptPair }.

Record Outbox := mkOutbox {
  objects : Z -> Outbound;
  nextObject : Z;
  queue : list Z;
  outboundByOperation : list (list Z * Z);
  pendingDataRequests : list (list Z * Z);
  responseOperations : list (list Z * Z);
  reservedTaskIDs : list (list Z * (Z * FrameIdentity));
  sourceSequence : Z;
  nextOrder : Z;
  activeOutbound : option Z;
  activeObjectMessageID : option (list Z)
}.
#[export] Instance rebuild_outbox : Rebuild Outbox := fun o =>
  mkOutbox (objects o) (nextObject o) (queue o) (outboundByOperation o) (pendingDataRequests o) (responseOperations o)
    (reservedTaskIDs o) (sourceSequence o) (nextOrder o) (activeOutbound o) (activeObjectMessageID o).

(** [sending] is what the suspended [pump] holds; [resolvedWaiters] are the
    callers of [pause] that were let go. *)
Record Pump := mkPump {
  pumping : bool;
  pumpRequested : bool;
  pumpTimer : option Z;
  paused : bool;
  pauseWaiters : list Z;
  resolvedWaiters : list Z;
  stopped : bool;
  sending : option Sending;
  sent : list (list Z * RadioSendOptions)
}.
#[export] Instance rebuild_pump : Rebuild Pump := fun p =>
  mkPump (pumping p) (pumpRequested p) (pumpTimer p) (paused p) (pauseWaiters p) (resolvedWaiters p) (stopped p)
    (sending p) (sent p).

Record Inbox := mkInbox {
  reassemblies : list (list Z * Reassembly);
  sourceFences : list (list Z * SourceFence);
  pendingInbound : list (list Z * PendingInbound);
  settledInbound : list (list Z * SettledInbound);
  taskDeliverySequences : list (list Z * Z);
  stateDecoder : StateDeltaDecoder
}.
#[export] Instance rebuild_inbox : Rebuild Inbox := fun i =>
  mkInbox (reassemblies i) (sourceFences i) (pendingInbound i) (settledInbound i) (taskDeliverySequences i)
    (stateDecoder i).

(** A committed operation is pending until it has a time to expire. *)
Record Ledger := mkLedger {
  operationResults : list (list Z * LinkOperationResult);
  committedOperationIDs : list (list Z * option Z);
  committedOperationExpiryQueue : list (list Z * Z);
  committedOperationExpiryQueueHead : Z;
  committedOperationExpiryTimer : option Z;
  committedOperationExpiryAt : option Z;
  committedOperationCapacityBlocked : bool;
  intermediateResponseConfirmations : list (list Z)
}.
#[export] Instance rebuild_ledger : Rebuild Ledger := fun l =>
  mkLedger (operationResults l) (committedOperationIDs l) (committedOperationExpiryQueue l)
    (committedOperationExpiryQueueHead l) (committedOperationExpiryTimer l) (committedOperationExpiryAt l)
    (committedOperationCapacityBlocked l) (intermediateResponseConfirmations l).

(** [ids] counts the calls of [createID]; [told] is the sequence of signals,
    [commits] that of the confirmed operations taken with their times. *)
Record LinkTransport := mkTransport {
  outbox : Outbox;
  pump_state : Pump;
  inbox : Inbox;
  ledger : Ledger;
  clock : VirtualClock Callback;
  ids : Z;
  mutableMetrics : LinkMetrics;
  picture : option SharedPicture;
  stateEncoder : option StateDeltaEncoder;
  told : list Signal;
  commits : list (list Z * Z)
}.
#[export] Instance rebuild_transport : Rebuild LinkTransport := fun t =>
  mkTransport (outbox t) (pump_state t) (inbox t) (ledger t) (clock t) (ids t) (mutableMetrics t) (picture t)
    (stateEncoder t) (told t) (commits t).

(** The fields the constructor sets once. *)
Record Settings := mkSettings {
  node : LinkNode;
  sourceGeneration : Z;
  serviceSession : list Z;
  privateChannel : Z;
  queueLimit : Z;
  confirmedLimit : Z;
  reassemblyLimit : Z;
  reassemblyTimeoutMs : Z;
  retryJitterMs : Z;
  retryIntervalMs : option Z;
  frameEncoding : FrameEncoding
}.
