(* ===== verification/TransportBase.v ===== *)
(** * The transport: shared steps ([transport.ts])

    The functions at the end of the file, access to the state, telling the
    listeners, and the books of operations: results, committed identities and
    settled messages. *)

From Stdlib Require Import ZArith Lia String.
From stdpp Require Import base list option.
From S2P Require Import Prelude JsMap BinaryIO Wtf8 Json Utf8Text CompactValue Base64 Compression LinkTypes Frame Instants Contract SdkValidation StateDelta Picture JsState Clock TransportState.

Open Scope string_scope.
Open Scope list_scope.
Open Scope Z_scope.

Abbreviation T A := (eff LinkTransport A) (only parsing).

(** ** Functions of messages and identities *)

Definition sameNode (a b : LinkNode) : bool := bool_decide (role a = role b) && bool_decide (id a = id b).

Definition sameOptionalNode (a b : option LinkNode) : bool :=
  match a, b with None, None => true | Some a, Some b => sameNode a b | _, _ => false end.

(** [destination !== undefined && sameNode(destination, n)] *)
Definition is_node (d : option LinkNode) (n : LinkNode) : bool :=
  match d with Some d => sameNode d n | None => false end.

Definition removeAll (values : list Z) (target : Z) : list Z := List.filter (fun v => negb (v =? target)) values.

Definition positiveBoundedInteger (value minimum maximum : Z) (name : string) : result Z :=
  guard! isSafeInteger value && (minimum <=? value) && (value <=? maximum)
    else RangeError (String.append name " must be an integer in its range") in Ok value.

Definition validStateSource (m : message) (source : LinkNode) : bool :=
  if negb (has_type m state) || bool_decide (role source <> asset) then true
  else if is_text (prop m "resource_type") "task" then false
  else is_text (prop m "path") "field" && isOneOf (prop m "confirmation") ["awaiting_core"; "not_required"].

Definition carries_request_id (m : message) : bool := has_type m data_response || has_type m object_content_message.

Definition wireOperationIDFor (m : message) (operationID : list Z) : list Z :=
  if carries_request_id m then request_id m else operationID.

Definition dataRequestID (o : Outbound) : option (list Z) :=
  if has_type (o_message o) data_request then Some (request_id (o_message o)) else None.

Definition outboundDeadlineMs (m : message) (p : MessagePriority) : Z :=
  if has_type m data_request && is_text (prop m "operation") "object.content" then DEADLINE_MS object_content
  else DEADLINE_MS p.

Definition isConfirmedControl (o : Outbound) : bool :=
  has_type (o_message o) control && is_text (prop (o_message o) "control") "confirmed".

Definition node_key (n : LinkNode) : list Z := role_text (role n) ++ js ":" ++ id n.

Section digest.
Context {zlib : Zlib}.

(** [createHash("sha256").update(text).digest()] *)
Definition sha256 (data : list Z) : list Z := hex_pairs (sha256_hex data).

(** Each part is encoded on its own, between zero bytes. *)
Definition inboundSettlementID (i : FrameIdentity) : list Z :=
  base64url_encode (sha256 (
    Buffer_from (role_text (role (Frame.source i))) ++ [0] ++ Buffer_from (id (Frame.source i)) ++ [0] ++
    Buffer_from (decimal (source_generation i)) ++ [0] ++ Buffer_from (service_session i) ++ [0] ++
    Buffer_from (operation_id i))).

(** [readUInt32BE()] *)
Definition readUInt32BE (bs : list Z) : Z := fold_left (fun acc b => acc * 256 + b) (take 4 bs) 0.
End digest.

Definition sameFrameSet (r : Reassembly) (f : LinkFrame) : bool :=
  let i := re_identity r in
  let j := Frame.identity f in
  (re_chunkCount r =? chunk_count f) && bool_decide (message_type i = message_type j) &&
  sameNode (Frame.source i) (Frame.source j) && sameOptionalNode (destination i) (destination j) &&
  (source_generation i =? source_generation j) && bool_decide (service_session i = service_session j) &&
  (source_sequence i =? source_sequence j) && bool_decide (operation_id i = operation_id j) &&
  bool_decide (priority i = priority j).

(** [Array.from({ length }, (_, index) => index)] *)
Definition indexes (count : Z) : list Z := map Z.of_nat (seq 0 (Z.to_nat count)).

Definition joinChunks (r : Reassembly) : result (list Z) :=
  let ordered := map (fun index => jget index (re_chunks r)) (indexes (re_chunkCount r)) in
  guard! forallb (fun c => match c with Some _ => true | None => false end) ordered
    else PlainError "cannot join incomplete reassembly" in
  Ok (concat (map (default []) ordered)).

(** A control message, its members in the order of the literals. *)
Definition control_message (kind : string) (operationID messageID : list Z) (more : message) : message :=
  [(js "type", JString (js "control")); (js "control", JString (js kind));
   (js "operation_id", JString operationID); (js "message_id", JString messageID)] ++ more.

Definition verdict_text (v : Verdict) : string := match v with verdict_confirmed => "confirmed" | verdict_rejected => "rejected" end.
Definition reason_member (reason : option (list Z)) : message := member_if "reason" reason JString.

(** [error instanceof Error ? error.message : String(error)] *)
Definition asErrorMessage (e : js_error) : list Z :=
  match e with TypeError m | RangeError m | SyntaxError m | PlainError m => js m end.

(** The identity as the delta codec sees it. *)
Definition delta_identity (i : FrameIdentity) : StateDeltaIdentity :=
  mkDeltaIdentity (Frame.source i) (source_generation i) (service_session i) (source_sequence i).

(** ** Access to the state *)

Definition upd_outbox (f : Outbox -> Outbox) : T unit := modify (fun s => s <| outbox ::= f |>).
Definition upd_pump (f : Pump -> Pump) : T unit := modify (fun s => s <| pump_state ::= f |>).
Definition upd_inbox (f : Inbox -> Inbox) : T unit := modify (fun s => s <| inbox ::= f |>).
Definition upd_ledger (f : Ledger -> Ledger) : T unit := modify (fun s => s <| ledger ::= f |>).

Definition the (o : Outbox) (r : Z) : Outbound := objects o r.
Definition obj (r : Z) : T Outbound := gets (fun s => objects (outbox s) r).
Definition upd_obj (r : Z) (f : Outbound -> Outbound) : T unit :=
  upd_outbox (fun o => o <| objects ::= at_key r f |>).

Definition count (c : Counter) : T unit := modify (fun s => s <| mutableMetrics ::= add_count c 1 |>).
Definition count_by (c : Counter) (n : Z) : T unit := modify (fun s => s <| mutableMetrics ::= add_count c n |>).
Definition observe (t : Timed) (durationMs : Z) : T unit := modify (fun s => s <| mutableMetrics ::= observeTiming t durationMs |>).

Definition now : T Z := gets (fun s => current (clock s)).

Definition schedule_timer (delayMs : Z) (callback : Callback) : T Z :=
  fun s => match schedule (clock s) delayMs callback with
           | Ok (handle, c) => (Ok handle, s <| clock := c |>)
           | Throw e => (Throw e, s)
           end.

Definition cancel_timer (handle : Z) : T unit := modify (fun s => s <| clock ::= fun c => cancel c handle |>).
Definition cancel_optional (handle : option Z) : T unit :=
  match handle with Some h => cancel_timer h | None => ret tt end.

Definition unless (b : bool) (m : T unit) : T unit := if b then ret tt else m.
Definition when_ (b : bool) (m : T unit) : T unit := if b then m else ret tt.

Section base.
Context {host : Host}.
(** What the listeners do when they are told: they may call the transport
    back.  What they throw is caught, and the listener is not called again. *)
Context (listener : Signal -> T unit).

Definition fresh_id : T (list Z) := fun s => (Ok (createID (ids s)), s <| ids ::= Z.succ |>).

Definition tell (signal : Signal) : T unit :=
  fun s => (Ok tt, snd (listener signal (s <| told ::= fun l => l ++ [signal] |>))).

Definition emit (e : TransportEvent) : T unit := tell (event_signal e).
Definition emitCapacityAvailable : T unit := tell capacity_signal.

(** ** Counting what is under way *)

(** [new Set([...]).size] *)
Definition distinct (l : list Z) : Z := zlen (remove_dups l).

Definition confirmedCount (o : Outbox) : Z :=
  distinct (jvalues (outboundByOperation o) ++ jvalues (pendingDataRequests o) ++ jvalues (responseOperations o)).

Definition outboundOccupancy (o : Outbox) : Z :=
  distinct (queue o ++ jvalues (outboundByOperation o) ++ match activeOutbound o with Some r => [r] | None => [] end).

Definition operationIsPending (o : Outbox) (operationID : list Z) : bool :=
  jhas operationID (outboundByOperation o) || jhas operationID (responseOperations o) ||
  existsb (fun r => bool_decide (o_trackingKey (objects o r) = operationID)) (jvalues (pendingDataRequests o)).

(** ** Results *)

Definition status_of (r : option LinkOperationResult) : option LinkOperationStatus := r_status <$> r.
Definition uncounted (r : option LinkOperationResult) : bool :=
  match r with Some r => negb (isCountedOutcome (r_status r)) | None => true end.

(** [while (operationResults.size > OPERATION_RESULT_LIMIT)]: a turn removes an
    entry or is the last; [left] bounds the turns by the entries there are. *)
Fixpoint evict_results (left : nat) : T unit :=
  match left with
  | O => ret tt
  | S left' =>
      do! results := gets (fun s => operationResults (ledger s)) in
      if jsize results <=? OPERATION_RESULT_LIMIT then ret tt
      else
        do! o := gets outbox in
        match List.find (fun p => negb (bool_decide (r_status (snd p) = op_queued)) && negb (operationIsPending o (fst p))) results with
        | None => ret tt
        | Some (key, _) =>
            do! _ := upd_ledger (fun l => l <| operationResults ::= jdel key |>
              <| intermediateResponseConfirmations ::= List.filter (fun k => negb (bool_decide (k = key))) |>) in
            do! _ := upd_outbox (fun o => o <| responseOperations ::= jdel key |>) in
            evict_results left'
        end
  end.

Definition recordOperation (r : LinkOperationResult) (trackingKey : list Z) : T unit :=
  do! l := gets ledger in
  let previous := jget trackingKey (operationResults l) in
  let intermediate := bool_decide (trackingKey ∈ intermediateResponseConfirmations l) in
  let previousWasIntermediateConfirmation := bool_decide (status_of previous = Some op_confirmed) && intermediate in
  do! _ :=
    (if isCountedOutcome (r_status r) && negb (bool_decide (r_status r = op_confirmed)) &&
        (uncounted previous || previousWasIntermediateConfirmation) then
       do! _ := count (operation_outcomes (r_status r)) in
       upd_ledger (fun l => l <| intermediateResponseConfirmations ::= List.filter (fun k => negb (bool_decide (k = trackingKey))) |>)
     else when_ (bool_decide (r_status r = op_confirmed) && negb intermediate && uncounted previous)
            (count (operation_outcomes op_confirmed))) in
  do! _ := upd_ledger (fun l => l <| operationResults ::= jset trackingKey r |>) in
  do! size := gets (fun s => length (operationResults (ledger s))) in
  evict_results size.

Definition failedResult (operationID reason trackingKey : list Z) : T LinkOperationResult :=
  do! at_ := now in
  let result := settled_result operationID op_failed (Some reason) (Some at_) in
  do! _ := recordOperation result trackingKey in
  do! _ := emit (on_operation result) in
  ret result.

Definition recordOperationTiming (o : Outbound) : T unit :=
  do! at_ := now in observe (operation_latency_ms_by_priority (priority (o_identity o))) (at_ - o_queuedAt o).

(** ** Committed identities *)

(** The loop over the expiry queue from its head on. *)
Fixpoint prune_expired (at_ : Z) (rest : list (list Z * Z)) (head : Z) (committed : list (list Z * option Z))
    : Z * list (list Z * option Z) :=
  match rest with
  | [] => (head, committed)
  | (operationID, expiresAt) :: rest' =>
      if at_ <? expiresAt then (head, committed)
      else prune_expired at_ rest' (head + 1)
             (if bool_decide (jget operationID committed = Some (Some expiresAt)) then jdel operationID committed else committed)
  end.

Definition prune_ledger (at_ : Z) (l : Ledger) : Ledger :=
  let expiry := committedOperationExpiryQueue l in
  let '(head, committed) :=
    prune_expired at_ (drop (Z.to_nat (committedOperationExpiryQueueHead l)) expiry)
      (committedOperationExpiryQueueHead l) (committedOperationIDs l) in
  let l := l <| committedOperationIDs := committed |> in
  if head =? zlen expiry then l <| committedOperationExpiryQueue := [] |> <| committedOperationExpiryQueueHead := 0 |>
  else if 1024 <=? head then
    l <| committedOperationExpiryQueue := drop (Z.to_nat head) expiry |> <| committedOperationExpiryQueueHead := 0 |>
  else l <| committedOperationExpiryQueueHead := head |>.

Definition pruneCommittedOperationIDs : T unit := do! at_ := now in upd_ledger (prune_ledger at_).

Definition scheduleCommittedOperationExpiryWakeup : T unit :=
  do! s := gets (fun s => s) in
  let l := ledger s in
  if negb (committedOperationCapacityBlocked l) || stopped (pump_state s) then ret tt
  else
    match nthZ (committedOperationExpiryQueue l) (committedOperationExpiryQueueHead l) with
    | None => ret tt
    | Some (_, earliestExpiry) =>
        if match committedOperationExpiryAt l with Some at_ => at_ <=? earliestExpiry | None => false end then ret tt
        else
          do! _ := cancel_optional (committedOperationExpiryTimer l) in
          do! _ := upd_ledger (fun l => l <| committedOperationExpiryAt := Some earliestExpiry |>) in
          do! at_ := now in
          do! timer := schedule_timer (Z.max 0 (earliestExpiry - at_)) committed_expiry in
          upd_ledger (fun l => l <| committedOperationExpiryTimer := Some timer |>)
    end.

(** The callback of that timer. *)
Definition committedExpiryWakeup : T unit :=
  do! _ := upd_ledger (fun l => l <| committedOperationExpiryTimer := None |> <| committedOperationExpiryAt := None |>) in
  do! _ := pruneCommittedOperationIDs in
  do! _ := upd_ledger (fun l => l <| committedOperationCapacityBlocked := false |>) in
  emitCapacityAvailable.

Definition retainCompletedOperation (operationID : list Z) : T unit :=
  do! l := gets ledger in
  if negb (jhas operationID (committedOperationIDs l)) then ret tt
  else
    do! at_ := now in
    let expiresAt := at_ + COMMITTED_OPERATION_ID_RETENTION_MS in
    do! _ := upd_ledger (fun l => l <| committedOperationIDs ::= jset operationID (Some expiresAt) |>
                                    <| committedOperationExpiryQueue ::= fun q => q ++ [(operationID, expiresAt)] |>) in
    do! blocked := gets (fun s => committedOperationCapacityBlocked (ledger s)) in
    when_ blocked scheduleCommittedOperationExpiryWakeup.

(** ** Settled messages *)

(** Deletes up to the first entry that has not expired. *)
Fixpoint prune_settled (at_ : Z) (m : list (list Z * SettledInbound)) : list (list Z * SettledInbound) :=
  match m with
  | [] => []
  | (_, settled) :: m' => if at_ <? sd_expiresAt settled then m else prune_settled at_ m'
  end.

Definition pruneSettledInbound : T unit :=
  do! at_ := now in upd_inbox (fun i => i <| settledInbound ::= prune_settled at_ |>).

Definition recordSettledInbound (settlementID : list Z) (verdict : Verdict) : T unit :=
  do! _ := pruneSettledInbound in
  do! i := gets inbox in
  if jhas settlementID (settledInbound i) then ret tt
  else
    let hasReservation := jhas settlementID (pendingInbound i) in
    if negb hasReservation && (SETTLED_INBOUND_LIMIT <=? jsize (settledInbound i) + jsize (pendingInbound i)) then ret tt
    else
      do! at_ := now in
      upd_inbox (fun i => i <| settledInbound ::=
        jset settlementID (mkSettled verdict (at_ + COMMITTED_OPERATION_ID_RETENTION_MS) None) |>).
End base.
