(* ===== verification/TransportOut.v ===== *)
(** * The transport: sending ([transport.ts])

    From a message to its queued object, the queue and its pump, retries, and
    how an operation ends. *)

From Stdlib Require Import ZArith Lia String.
From stdpp Require Import base list option.
From S2P Require Import Prelude JsMap BinaryIO Wtf8 Json Utf8Text CompactValue Base64 Compression LinkTypes Frame Instants Contract SdkValidation StateDelta Picture JsState Clock TransportState TransportBase.

Open Scope string_scope.
Open Scope list_scope.
Open Scope Z_scope.

Section out.
Context {zlib : Zlib} {validators : Validators} {host : Host} (cfg : Settings).
Context (listener : Signal -> T unit).

(** ** Eligibility and the pump's request *)

Definition eligible (o : Outbox) (r : Z) : bool :=
  let m := objects o r in
  negb (has_type (o_message m) object_content_message) || bool_decide (activeObjectMessageID o = None) ||
  bool_decide (activeObjectMessageID o = Some (message_id (o_identity m))).

Definition hasEligibleOutbound (o : Outbox) : bool := existsb (eligible o) (queue o).

Definition requestPump (delayMs : Z) : T unit :=
  do! p := gets pump_state in
  if pumping p || pumpRequested p || stopped p || paused p then ret tt
  else
    do! _ := upd_pump (fun p => p <| pumpRequested := true |>) in
    do! timer := schedule_timer delayMs run_pump in
    upd_pump (fun p => p <| pumpTimer := Some timer |>).

Definition resolvePauseWaiters : T unit :=
  upd_pump (fun p => p <| resolvedWaiters ::= fun l => l ++ pauseWaiters p |> <| pauseWaiters := [] |>).

Definition remove_from_queue (r : Z) : T unit := upd_outbox (fun o => o <| queue ::= fun q => removeAll q r |>).
Definition push_queue (r : Z) : T unit := upd_outbox (fun o => o <| queue ::= fun q => q ++ [r] |>).

(** [outbound.order = this.nextOrder++] *)
Definition reorder (r : Z) : T unit :=
  upd_outbox (fun o => o <| objects ::= at_key r (fun m => m <| o_order := nextOrder o |>) |> <| nextOrder ::= Z.succ |>).

(** [push] and [requestPump], unless the object is being sent. *)
Definition requeue (r : Z) : T unit :=
  do! _ := remove_from_queue r in
  do! o := gets outbox in
  unless (bool_decide (activeOutbound o = Some r)) (do! _ := push_queue r in requestPump 0).

(** ** How an operation ends *)

(** [if (activeObjectMessageID === message_id) activeObjectMessageID = undefined] *)
Definition release_object (r : Z) : T unit :=
  upd_outbox (fun o =>
    if bool_decide (activeObjectMessageID o = Some (message_id (o_identity (objects o r))))
    then o <| activeObjectMessageID := None |> else o).

Definition completeOutbound (r : Z) (status : LinkOperationStatus) (reason : option (list Z)) : T unit :=
  do! m := obj r in
  do! _ := cancel_optional (o_retryTimer m) in
  do! _ := cancel_optional (o_deadlineTimer m) in
  do! _ := upd_outbox (fun o => o <| outboundByOperation ::= jdel (o_trackingKey m) |>) in
  do! _ := match dataRequestID m with
           | Some requestID => upd_outbox (fun o =>
               if bool_decide (jget requestID (pendingDataRequests o) = Some r)
               then o <| pendingDataRequests ::= jdel requestID |> else o)
           | None => ret tt
           end in
  do! _ := unless (bool_decide (status = op_confirmed)) (upd_outbox (fun o => o <| responseOperations ::= jdel (o_trackingKey m) |>)) in
  do! _ := remove_from_queue r in
  do! o := gets outbox in
  let releasedObject := bool_decide (activeObjectMessageID o = Some (message_id (o_identity m))) in
  do! _ := release_object r in
  do! at_ := now in
  let result := settled_result (o_operationID m) status reason (Some at_) in
  do! _ := retainCompletedOperation (o_trackingKey m) in
  do! _ := recordOperationTiming m in
  do! _ := recordOperation result (o_trackingKey m) in
  do! _ := emit listener (on_operation result) in
  do! o := gets outbox in
  when_ (releasedObject && hasEligibleOutbound o) (requestPump 0).

Definition confirmAwaitingResponseTransport (r : Z) : T unit :=
  do! m := obj r in
  do! _ := cancel_optional (o_retryTimer m) in
  do! _ := upd_obj r (fun m => m <| o_retryTimer := None |>) in
  do! _ := upd_outbox (fun o => o <| outboundByOperation ::= jdel (o_trackingKey m) |>) in
  do! _ := remove_from_queue r in
  let result := settled_result (o_operationID m) op_confirmed None None in
  do! _ := upd_ledger (fun l => l <| intermediateResponseConfirmations ::= fun s =>
    if bool_decide (o_trackingKey m ∈ s) then s else s ++ [o_trackingKey m] |>) in
  do! _ := recordOperation result (o_trackingKey m) in
  emit listener (on_operation result).

Definition failBestEffort (r : Z) (reason : list Z) : T unit :=
  do! m := obj r in
  do! _ := remove_from_queue r in
  do! _ := release_object r in
  do! at_ := now in
  let result := settled_result (o_operationID m) op_failed (Some reason) (Some at_) in
  do! _ := recordOperationTiming m in
  do! _ := recordOperation result (o_trackingKey m) in
  emit listener (on_operation result).

Definition replaceable_by (o : Outbox) (key : option (list Z)) (r : Z) : bool :=
  let m := objects o r in
  negb (o_started m) && bool_decide (o_delivery m = best_effort) && bool_decide (o_coalescingKey m = key).

Definition replaceQueuedBestEffort (key : option (list Z)) : T unit :=
  do! o := gets outbox in
  match List.find (replaceable_by o key) (queue o) with
  | None => ret tt
  | Some r =>
      do! previous := obj r in
      do! _ := remove_from_queue r in
      do! at_ := now in
      let result := settled_result (o_operationID previous) op_failed (Some (js "replaced by newer unsent state")) (Some at_) in
      do! _ := recordOperation result (o_trackingKey previous) in
      do! _ := emit listener (on_operation result) in
      count best_effort_replaced
  end.

(** The callback of the deadline timer. *)
Definition outboundDeadline (r : Z) : T unit :=
  do! m := obj r in
  do! o := gets outbox in
  let awaitingConfirmation := jhas (o_trackingKey m) (outboundByOperation o) in
  let awaitingResponse :=
    match dataRequestID m with Some id => bool_decide (jget id (pendingDataRequests o) = Some r) | None => false end ||
    bool_decide (jget (o_trackingKey m) (responseOperations o) = Some r) in
  if negb awaitingConfirmation && negb awaitingResponse then ret tt
  else
    do! _ := count retry_exhausted in
    completeOutbound r op_failed
      (Some (js (if awaitingConfirmation then "confirmation deadline expired" else "response deadline expired"))).

(** ** Preparing a message *)

Definition outboundIdentity (m : message) (target : option LinkNode) (operationID : list Z) (sequence : Z) : T FrameIdentity :=
  do! messageID := fresh_id in
  ret (mkIdentity 1 (default control (type_of m)) (node cfg) target (sourceGeneration cfg) (serviceSession cfg) sequence
         (wireOperationIDFor m operationID) messageID None (messagePriority m)).

Definition operationIDFor (m : message) (target : option LinkNode) : T (list Z) :=
  if carries_request_id m then
    ret (match target with None => request_id m | Some n => node_key n ++ js ":" ++ request_id m end)
  else if has_type m data_request then ret (request_id m)
  else if has_type m control then ret (text_of (prop m "operation_id"))
  else if has_type m state && negb (bool_decide (text_of (prop m "operation_id") = [])) then ret (text_of (prop m "operation_id"))
  else fresh_id.

(** V3 is for compound receipts; ordinary frames keep V2's smaller header. *)
Definition ordinary_encoding : FrameEncoding :=
  match frameEncoding cfg with deflate_v3 => deflate_v2 | e => e end.

Definition default_capacity (m : message) : CapacityReservation :=
  mkCapacity 1 0 (if bool_decide (deliveryClass m = confirmed) then 1 else 0).

Definition total_bytes (frames : list (list Z)) : Z := fold_left (fun total frame => total + zlen frame) frames 0.

(** The frames of a message, and the snapshot a full send will commit.  The
    delta is taken when it is no larger in frames and smaller in bytes. *)
Definition frames_of_message (m : message) (payload : list Z) (i : FrameIdentity) (limit : Z) (encoder : option StateDeltaEncoder)
    (at_ : Z) : result (list (list Z) * option PreparedStateDelta) :=
  let! frames := fragmentPayload payload i limit ordinary_encoding in
  match encoder with
  | Some e =>
      if negb (has_type m state) then Ok (frames, None)
      else
        let! prepared := prepare e (JObject m) (delta_identity i) (Some at_) in
        match deltaPayload prepared with
        | None => Ok (frames, Some prepared)
        | Some delta =>
            match fragmentPayload delta i limit ordinary_encoding with
            | Ok deltaFrames =>
                if (zlen deltaFrames <=? zlen frames) && (total_bytes deltaFrames <? total_bytes frames)
                then Ok (deltaFrames, None) else Ok (frames, Some prepared)
            | Throw _ => Ok (frames, Some prepared)
            end
        end
  | None => Ok (frames, None)
  end.

Definition source_failure (m : message) : list Z :=
  js (if has_type m state && is_text (prop m "resource_type") "task"
      then "Assets must publish Task lifecycle reports instead of Task state"
      else "Asset state must use the field path without claiming Core authority").

(** [prepareOutbound] from the serialization on. *)
Definition prepare_frames (m : message) (target : option LinkNode) (operationID : list Z) (useInboundReservation : bool)
    (radioRequestID : option Z) (capacity : CapacityReservation) (sequence : Z) (reserved : option FrameIdentity)
    (existing : option LinkOperationResult) : T OutboundPreparation :=
  match serializeLinkMessage (JObject m) with
  | Throw e => ret (prep_failed operationID operationID (js "Radio contract encoding failed: " ++ asErrorMessage e) false)
  | Ok payload =>
      do! i := match reserved with Some i => ret i | None => outboundIdentity m target operationID sequence end in
      let sendOptions := mkSendOptions (privateChannel cfg) (priority i) radioRequestID in
      do! s := gets (fun s => s) in
      match frames_of_message m payload i (maxPayloadBytes sendOptions) (stateEncoder s) (current (clock s)) with
      | Throw e => ret (prep_failed operationID operationID (js "Link framing failed: " ++ asErrorMessage e) false)
      | Ok (frames, baseline) =>
          let o := outbox s in
          let replaceKey := coalescingKey m in
          let delivery := deliveryClass m in
          let replacesQueuedBestEffort :=
            bool_decide (delivery = best_effort) && match replaceKey with Some _ => true | None => false end &&
            existsb (replaceable_by o replaceKey) (queue o) in
          let finalOccupancy := outboundOccupancy o + additionalOutbound capacity - (if replacesQueuedBestEffort then 1 else 0) in
          let finalPendingInbound := jsize (pendingInbound (inbox s)) + pendingInboundDelta capacity in
          if (if useInboundReservation then queueLimit cfg + confirmedLimit cfg <=? outboundOccupancy o
              else queueLimit cfg <? finalOccupancy + finalPendingInbound)
          then ret (prep_failed operationID operationID (js "outbound queue capacity is exhausted") false)
          else
            do! _ := upd_outbox (fun o => o <| nextOrder ::= Z.succ |>) in
            ret (prep_ready (mkPreparedOutbound
              (mkOutbound m operationID operationID i frames (indexes (zlen frames)) delivery replaceKey None None false
                 (nextOrder o) (current (clock s)) None false (map (fun _ => 0) frames) 0 sendOptions baseline)
              (zlen payload) (bool_decide (status_of existing = Some op_failed))))
      end
  end.

(** The checks on operation identities and on confirmed capacity, before
    [prepare_frames]. *)
Definition prepare_checked (m : message) (target : option LinkNode) (operationID : list Z) (useInboundReservation : bool)
    (radioRequestID : option Z) (capacity : CapacityReservation) (sequence : Z) (reserved : option FrameIdentity)
    (existing : option LinkOperationResult) : T OutboundPreparation :=
  let failure reason overload := ret (prep_failed operationID operationID (js reason) overload) in
  let confirmed_ := bool_decide (deliveryClass m = confirmed) in
  do! s := gets (fun s => s) in
  if jhas operationID (committedOperationIDs (ledger s)) then
    failure "operation ID was already committed in this Link service session" false
  else if confirmed_ && (COMMITTED_OPERATION_ID_LIMIT <? jsize (committedOperationIDs (ledger s)) + additionalConfirmed capacity) then
    do! _ := upd_ledger (fun l => l <| committedOperationCapacityBlocked := true |>) in
    do! _ := scheduleCommittedOperationExpiryWakeup in
    failure "confirmed operation identity capacity is exhausted" true
  else if has_type m data_request && jhas (request_id m) (pendingDataRequests (outbox s)) then
    failure "data request ID is already pending" false
  else if confirmed_ && (confirmedLimit cfg <? confirmedCount (outbox s) + additionalConfirmed capacity) then
    failure "confirmed operation capacity is exhausted" true
  else prepare_frames m target operationID useInboundReservation radioRequestID capacity sequence reserved existing.

Definition prepareOutbound (m : message) (options : SubmitOptions) (useInboundReservation : bool) (radioRequestID : option Z)
    (capacity : CapacityReservation) (sequence : Z) (reserved : option (Z * FrameIdentity)) : T OutboundPreparation :=
  do! operationID := match sub_operationID options with
                     | Some id => ret id
                     | None => operationIDFor m (sub_destination options)
                     end in
  let failure reason overload := ret (prep_failed operationID operationID reason overload) in
  do! s := gets (fun s => s) in
  if stopped (pump_state s) then failure (js "link service is stopped") false
  else if negb (validStateSource m (node cfg)) then failure (source_failure m) false
  else if bool_decide (deliveryClass m = confirmed) && bool_decide (sub_destination options = None) then
    failure (js "confirmed operations require a destination") false
  else if blank operationID then throw (TypeError "operation ID must not be blank")
  else if has_type m data_request && negb (bool_decide (operationID = request_id m)) then
    failure (js "Data request operation ID must match its request ID") false
  else
    do! _ := pruneCommittedOperationIDs in
    do! s := gets (fun s => s) in
    if match jget operationID (reservedTaskIDs (outbox s)) with
       | Some (mine, _) => negb (bool_decide (Some mine = fst <$> reserved))
       | None => false
       end then failure (js "operation ID is reserved for queued Task delivery") false
    else
      let existing := jget operationID (operationResults (ledger s)) in
      let go := prepare_checked m (sub_destination options) operationID useInboundReservation radioRequestID capacity sequence
                  (snd <$> reserved) existing in
      match existing with
      | Some r =>
          if negb (bool_decide (r_status r = op_failed)) || jhas operationID (committedOperationIDs (ledger s))
          then ret (prep_existing r) else go
      | None => go
      end.

(** ** Taking a message *)

(** The tables a confirmed message enters. *)
Definition enter_tables (r : Z) (m : Outbound) (o : Outbox) : Outbox :=
  let key := o_trackingKey m in
  let o := o <| outboundByOperation ::= jset key r |> in
  let o := match dataRequestID m with Some id => o <| pendingDataRequests ::= jset id r |> | None => o end in
  if has_type (o_message m) resource_operation then o <| responseOperations ::= jset key r |> else o.

Definition enter_confirmed (r : Z) (m : Outbound) : T unit :=
  let key := o_trackingKey m in
  do! at_ := now in
  do! _ := modify (fun s => s <| commits ::= fun l => l ++ [(key, at_)] |>) in
  do! _ := upd_ledger (fun l => l <| committedOperationIDs ::= jset key None |>) in
  do! _ := upd_outbox (enter_tables r m) in
  do! timer := schedule_timer (outboundDeadlineMs (o_message m) (priority (o_identity m))) (outbound_deadline r) in
  upd_obj r (fun m => m <| o_deadlineTimer := Some timer |>).

Definition commitOutbound (p : PreparedOutbound) (pumpAfter recordQueued : bool) : T LinkOperationResult :=
  let m := po_outbound p in
  let key := o_trackingKey m in
  let confirmed_ := bool_decide (o_delivery m = confirmed) in
  do! _ := when_ (po_replacesFailedResult p) (upd_ledger (fun l => l <| operationResults ::= jdel key |>)) in
  do! _ := upd_outbox (fun o => o <| sourceSequence ::= Z.max (source_sequence (o_identity m)) |>) in
  do! _ := when_ (negb confirmed_ && match o_coalescingKey m with Some _ => true | None => false end)
             (replaceQueuedBestEffort (o_coalescingKey m)) in
  do! r := gets (fun s => nextObject (outbox s)) in
  do! _ := upd_outbox (fun o => o <| reservedTaskIDs ::= jdel key |> <| nextObject ::= Z.succ |>
                                  <| objects ::= at_key r (fun _ => m) |> <| queue ::= fun q => q ++ [r] |>) in
  do! _ := when_ confirmed_ (enter_confirmed r m) in
  do! _ := count_by application_bytes (po_payloadByteLength p) in
  do! _ := modify (fun s => s <| mutableMetrics ::= fun c =>
    mkMetrics (counted c) (timed c) (Z.max (peak_queue_depth c) (zlen (queue (outbox s)))) |>) in
  let result := settled_result (o_operationID m) op_queued None None in
  do! _ := when_ recordQueued (recordOperation result key) in
  do! _ := when_ pumpAfter (requestPump 0) in
  ret result.

Definition submitWithCapacity (m : message) (options : SubmitOptions) (useInboundReservation : bool) (radioRequestID : option Z)
    (reserved : option (Z * FrameIdentity)) : T LinkOperationResult :=
  do! s := gets (fun s => s) in
  let sequence := match reserved with Some (_, i) => source_sequence i | None => sourceSequence (outbox s) + 1 end in
  do! prepared := prepareOutbound m options useInboundReservation radioRequestID (default_capacity m) sequence reserved in
  match prepared with
  | prep_existing r => ret r
  | prep_failed operationID trackingKey reason overload =>
      do! _ := when_ overload (count confirmed_rejected_overload) in
      failedResult listener operationID reason trackingKey
  | prep_ready p => commitOutbound p true true
  end.

Definition submit (m : message) (options : SubmitOptions) : T LinkOperationResult :=
  submitWithCapacity m options false None None.

Definition sendControl (target : LinkNode) (m : message) (useInboundReservation : bool) (radioRequestID : option Z)
    : T LinkOperationResult :=
  do! id := fresh_id in
  submitWithCapacity m (mkSubmit (Some target) (Some (js "control_" ++ id))) useInboundReservation radioRequestID None.

(** ** Reserved task deliveries *)

(** What [reserveTaskDelivery] returns closes over this. *)
Record TaskReservation := mkReservation {
  tr_message : message;
  tr_destination : LinkNode;
  tr_operationID : list Z;
  tr_identity : Z * FrameIdentity
}.

Definition reserveTaskDelivery (m : message) (target : LinkNode) (operationID : list Z) : T TaskReservation :=
  do! s := gets (fun s => s) in
  if stopped (pump_state s) then throw (PlainError "link service is stopped")
  else
    do! i := outboundIdentity m (Some target) operationID (sourceSequence (outbox s) + 1) in
    let sendOptions := mkSendOptions (privateChannel cfg) (priority i) None in
    do! _ := lift (let! payload := serializeLinkMessage (JObject m) in
                   fragmentPayload payload i (maxPayloadBytes sendOptions) ordinary_encoding) in
    do! _ := pruneCommittedOperationIDs in
    do! s := gets (fun s => s) in
    let existing := jget operationID (operationResults (ledger s)) in
    if jhas operationID (reservedTaskIDs (outbox s)) || jhas operationID (committedOperationIDs (ledger s)) ||
       match existing with Some r => negb (bool_decide (r_status r = op_failed)) | None => false end
    then throw (PlainError "Task operation ID is already in use")
    else if TASK_RESERVATION_LIMIT <=? jsize (reservedTaskIDs (outbox s)) then
      throw (RangeError "confirmed operation identity capacity is exhausted")
    else
      let mine := (ids s, i) in
      do! _ := upd_outbox (fun o => o <| sourceSequence := source_sequence i |> <| reservedTaskIDs ::= jset operationID mine |>) in
      ret (mkReservation m target operationID mine).

Definition dispatchReservation (t : TaskReservation) (cancelled : bool) : T LinkOperationResult :=
  if cancelled then
    do! at_ := now in
    ret (settled_result (tr_operationID t) op_failed (Some (js "Task reservation was cancelled")) (Some at_))
  else
    submitWithCapacity (tr_message t) (mkSubmit (Some (tr_destination t)) (Some (tr_operationID t))) false None (Some (tr_identity t)).

(** [cancelled] is set when the reservation was still this one. *)
Definition cancelReservation (t : TaskReservation) : T bool :=
  do! o := gets outbox in
  if bool_decide ((fst <$> jget (tr_operationID t) (reservedTaskIDs o)) = Some (fst (tr_identity t))) then
    do! _ := upd_outbox (fun o => o <| reservedTaskIDs ::= jdel (tr_operationID t) |>) in ret true
  else ret false.

Definition cancel_operation (operationID reason : list Z) : T bool :=
  do! o := gets outbox in
  let by_id := List.find (fun r => bool_decide (o_operationID (objects o r) = operationID))
                 (jvalues (outboundByOperation o) ++ jvalues (pendingDataRequests o)) in
  match jget operationID (outboundByOperation o), jget operationID (responseOperations o), by_id with
  | Some r, _, _ | None, Some r, _ | None, None, Some r =>
      do! _ := completeOutbound r op_failed (Some reason) in ret true
  | None, None, None => ret false
  end.
End out.
