(* ===== verification/TransportPump.v ===== *)
(** * The transport: the pump ([transport.ts])

    The queue is served one packet at a time.  [pump] is cut at its [await]:
    [pump_start] runs up to the call of [radio.send], [pump_finish] runs from
    its answer on; anything may happen between. *)

From Stdlib Require Import ZArith Lia String.
From stdpp Require Import base list option.
From S2P Require Import Prelude JsMap BinaryIO Wtf8 Json Utf8Text CompactValue Base64 Compression LinkTypes Frame Instants Contract SdkValidation StateDelta Picture JsState Clock TransportState TransportBase TransportOut.

Open Scope string_scope.
Open Scope list_scope.
Open Scope Z_scope.

Section pump.
Context {zlib : Zlib} {validators : Validators} {host : Host} (cfg : Settings).
Context (listener : Signal -> T unit).

(** ** Retries *)

(** Without adaptive timing: the fixed interval of the priority, or the one
    configured, less a stable jitter. *)
Definition retryDelay (r : Z) : T Z :=
  do! m := obj r in
  let base := default (RETRY_MS (priority (o_identity m))) (retryIntervalMs cfg) in
  if retryJitterMs cfg =? 0 then ret base
  else
    let source := Frame.source (o_identity m) in
    let text := node_key source ++ js ":" ++ o_operationID m ++ js ":" ++ decimal (o_retrySequence m) in
    let sample := readUInt32BE (sha256 (Buffer_from text)) in
    do! _ := upd_obj r (fun m => m <| o_retrySequence ::= Z.succ |>) in
    ret (Z.max 1 (base - sample mod (retryJitterMs cfg + 1))).

Definition schedule_retry_as (callback : Callback) (r : Z) : T unit :=
  do! m := obj r in
  do! _ := cancel_optional (o_retryTimer m) in
  do! delay := retryDelay r in
  do! timer := schedule_timer delay callback in
  upd_obj r (fun m => m <| o_retryTimer := Some timer |>).

Definition scheduleRetry (r : Z) : T unit := schedule_retry_as (retry_outbound r) r.
Definition deferRadioSendRetry (r : Z) : T unit := schedule_retry_as (retry_after_failure r) r.

(** [!outboundByOperation.has(outbound.trackingKey) || stopped] *)
Definition no_longer_pending (s : LinkTransport) (r : Z) : bool :=
  negb (jhas (o_trackingKey (objects (outbox s) r)) (outboundByOperation (outbox s))) || stopped (pump_state s).

(** The callback of [deferRadioSendRetry]. *)
Definition retryAfterFailure (r : Z) : T unit :=
  do! _ := upd_obj r (fun m => m <| o_retryTimer := None |>) in
  do! s := gets (fun s => s) in
  if no_longer_pending s r then ret tt
  else do! _ := reorder r in requeue r.

Definition retryOutbound (r : Z) : T unit :=
  do! s := gets (fun s => s) in
  if no_longer_pending s r then ret tt
  else
    do! _ := upd_obj r (fun m => m <| o_pendingChunks := indexes (zlen (o_frames m)) |>) in
    do! _ := reorder r in
    requeue r.

(** ** Choosing what to send *)

(** Claims the object transfer for the message when it is free. *)
Definition objectEligible (r : Z) : T bool :=
  do! m := obj r in
  if negb (has_type (o_message m) object_content_message) then ret true
  else
    let mine := message_id (o_identity m) in
    do! _ := upd_outbox (fun o =>
      if bool_decide (activeObjectMessageID o = None) then o <| activeObjectMessageID := Some mine |> else o) in
    gets (fun s => bool_decide (activeObjectMessageID (outbox s) = Some mine)).

Definition better (o : Outbox) (candidate best : Z) : bool :=
  let c := objects o candidate in
  let b := objects o best in
  (PRIORITY_ORDER (priority (o_identity c)) <? PRIORITY_ORDER (priority (o_identity b))) ||
  (bool_decide (priority (o_identity c) = priority (o_identity b)) && (o_order c <? o_order b)).

(** The loop of [takeNextOutbound] from [index] on. *)
Fixpoint take_loop (rest : list Z) (index : Z) (best : option (Z * Z)) : T (option (Z * Z)) :=
  match rest with
  | [] => ret best
  | candidate :: rest' =>
      do! ok := objectEligible candidate in
      do! o := gets outbox in
      take_loop rest' (index + 1)
        (if ok && match best with None => true | Some (_, b) => better o candidate b end
         then Some (index, candidate) else best)
  end.

Definition takeNextOutbound : T (option Z) :=
  do! q := gets (fun s => queue (outbox s)) in
  do! best := take_loop q 0 None in
  match best with
  | None => ret None
  | Some (index, r) =>
      do! _ := upd_outbox (fun o => o <| queue ::= fun q => take (Z.to_nat index) q ++ drop (Z.to_nat (index + 1)) q |>) in
      ret (Some r)
  end.

(** *** A receipt and a report in one packet *)

Definition carries_compound : bool :=
  match frameEncoding cfg with deflate_v3 | binary_v1 | message_v1 | message_v2 => true | _ => false end.

(** What the queued report [r] and the receipt make of one frame. *)
Definition combine_report (o : Outbox) (receipt : Outbound) (target : LinkNode) (rid : ReceiptIdentity) (r : Z)
    : option (list Z * list Z) :=
  let report := objects o r in
  if o_started report || bool_decide (o_delivery report <> confirmed) || negb (has_type (o_message report) task_report) ||
     negb (is_node (destination (o_identity report)) target) then None
  else
    match o_frames report with
    | [originalFrame] =>
        original ← try_result (decodeFrame originalFrame);
        let i := Frame.identity original in
        if negb (bool_decide (message_type i = task_report)) || negb (bool_decide (Frame.receipt i = None)) ||
           negb (is_node (destination i) target) then None
        else
          let i' := mkIdentity (Frame.revision i) (message_type i) (Frame.source i) (destination i) (source_generation i)
                      (service_session i) (source_sequence i) (operation_id i) (message_id i) (Some rid) (priority i) in
          payload ← try_result (decodeMessagePayload (frame_payload original));
          combined ← try_result (fragmentPayload payload i' (maxPayloadBytes (o_sendOptions receipt)) (frameEncoding cfg));
          match combined with
          | [combinedFrame] => Some (originalFrame, combinedFrame)
          | _ => None
          end
    | _ => None
    end.

(** The first report of the queue that combines, and its place. *)
Fixpoint find_report (o : Outbox) (receipt : Outbound) (target : LinkNode) (rid : ReceiptIdentity) (index : nat) (rest : list Z)
    : option (nat * Z * (list Z * list Z)) :=
  match rest with
  | [] => None
  | r :: rest' =>
      match combine_report o receipt target rid r with
      | Some frames => Some (index, r, frames)
      | None => find_report o receipt target rid (S index) rest'
      end
  end.

Definition compoundReceiptPair (r : Z) : T (option CompoundReceiptPair) :=
  do! o := gets outbox in
  let receipt := objects o r in
  if negb carries_compound || negb (isConfirmedControl receipt) || negb (zlen (o_frames receipt) =? 1) then ret None
  else
    match destination (o_identity receipt), json_string (prop (o_message receipt) "message_id") with
    | Some target, Some messageID =>
        let rid := mkReceipt (text_of (prop (o_message receipt) "operation_id")) messageID in
        match find_report o receipt target rid 0 (queue o) with
        | None => ret None
        | Some (index, report, (originalFrame, combinedFrame)) =>
            do! _ := upd_outbox (fun o => o <| queue ::= fun q => take index q ++ drop (S index) q |>) in
            ret (Some (mkPair r report combinedFrame originalFrame (o_identity (objects o report))
                         (o_sendOptions (objects o report)) rid))
        end
    | _, _ => ret None
    end.

(** ** Sending *)

Definition markOutboundStarted (r : Z) : T unit :=
  do! _ := upd_obj r (fun m => m <| o_started := true |>) in
  do! m := obj r in
  match o_firstSentAt m with
  | Some _ => ret tt
  | None =>
      do! at_ := now in
      do! _ := upd_obj r (fun m => m <| o_firstSentAt := Some at_ |>) in
      observe (queue_wait_ms_by_priority (priority (o_identity m))) (at_ - o_queuedAt m)
  end.

Definition recordPhysicalSend (r : Z) (frame : list Z) (chunkIndex : Z) : T unit :=
  do! m := obj r in
  let i := o_identity m in
  let before := default 0 (nthZ (o_chunkSendCounts m) chunkIndex) in
  do! _ := when_ (0 <? before) (count retransmitted_packets) in
  do! _ := upd_obj r (fun m => m <| o_chunkSendCounts ::= <[Z.to_nat chunkIndex := before + 1]> |>) in
  do! _ := count packets_sent in
  do! _ := count_by transmitted_bytes (zlen frame) in
  do! _ := count (packets_sent_by_message_type (message_type i)) in
  do! _ := count_by (transmitted_bytes_by_priority (priority i)) (zlen frame) in
  do! at_ := now in
  emit listener (on_packet_sent (message_id i) (o_operationID m) (zlen frame) at_).

(** Only a complete full send becomes a baseline. *)
Definition commit_baseline (r : Z) : T unit :=
  do! s := gets (fun s => s) in
  match o_commitStateBaseline (objects (outbox s) r), stateEncoder s with
  | Some p, Some e =>
      do! e' := lift (commitFull p false e (Some (current (clock s)))) in
      modify (fun s => s <| stateEncoder := Some (snd e') |>)
  | _, _ => ret tt
  end.

Definition afterAllChunksSent (r : Z) : T unit :=
  do! _ := commit_baseline r in
  do! _ := upd_obj r (fun m => m <| o_commitStateBaseline := None |>) in
  do! m := obj r in
  do! _ := when_ (has_type (o_message m) object_content_message) (release_object r) in
  if bool_decide (o_delivery m = best_effort) then
    do! at_ := now in
    let result := settled_result (o_operationID m) op_sent None (Some at_) in
    do! _ := recordOperationTiming m in
    do! _ := recordOperation result (o_trackingKey m) in
    emit listener (on_operation result)
  else scheduleRetry r.

Definition finishCompoundReceiptPair (compound : CompoundReceiptPair) : T unit :=
  do! _ := afterAllChunksSent (cr_receipt compound) in
  do! o := gets outbox in
  let report := cr_report compound in
  if negb (jhas (o_trackingKey (objects o report)) (outboundByOperation o)) then ret tt
  else
    do! _ := upd_obj report (fun m =>
      let i := o_identity m in
      m <| o_identity := mkIdentity (Frame.revision i) (message_type i) (Frame.source i) (destination i) (source_generation i)
             (service_session i) (source_sequence i) (operation_id i) (message_id i) (Some (cr_receiptIdentity compound)) (priority i) |>
        <| o_frames := [cr_combinedFrame compound] |> <| o_sendOptions := o_sendOptions (objects o (cr_receipt compound)) |>) in
    afterAllChunksSent report.

Definition handleCompoundReceiptFailure (compound : CompoundReceiptPair) : T unit :=
  do! o := gets outbox in
  let report := cr_report compound in
  do! _ := when_ (jhas (o_trackingKey (objects o report)) (outboundByOperation o)) (
    do! _ := upd_obj report (fun m =>
      m <| o_identity := cr_originalIdentity compound |> <| o_frames := [cr_originalFrame compound] |>
        <| o_sendOptions := cr_originalSendOptions compound |> <| o_pendingChunks := [0] |>) in
    deferRadioSendRetry report) in
  do! _ := upd_obj (cr_receipt compound) (fun m => m <| o_pendingChunks := [0] |>) in
  do! _ := reorder (cr_receipt compound) in
  do! _ := push_queue (cr_receipt compound) in
  requestPump 0.

(** Up to [await this.radio.send]: whether there is a send to wait for. *)
Definition pump_body : T bool :=
  do! next := takeNextOutbound in
  match next with
  | None => ret false
  | Some r =>
      do! _ := upd_outbox (fun o => o <| activeOutbound := Some r |>) in
      do! m := obj r in
      match o_pendingChunks m with
      | [] => do! _ := remove_from_queue r in do! _ := release_object r in ret false
      | chunkIndex :: pending =>
          do! _ := upd_obj r (fun m => m <| o_pendingChunks := pending |>) in
          match nthZ (o_frames m) chunkIndex with
          | None => ret false
          | Some frame =>
              do! compound := compoundReceiptPair r in
              let '(physical, options) :=
                match compound with Some p => (cr_combinedFrame p, o_sendOptions m) | None => (frame, o_sendOptions m) end in
              do! _ := markOutboundStarted r in
              do! _ := match compound with
                       | Some p =>
                           do! _ := upd_obj (cr_report p) (fun m => m <| o_started := true |> <| o_pendingChunks := [] |>) in
                           markOutboundStarted (cr_report p)
                       | None => ret tt
                       end in
              do! _ := upd_pump (fun p => p <| sending := Some (mkSending r chunkIndex physical compound) |>
                                            <| sent ::= fun l => l ++ [(physical, options)] |>) in
              ret true
          end
      end
  end.

(** The [finally] of [pump]. *)
Definition pump_finally (nextDelayMs : Z) : T unit :=
  do! _ := upd_outbox (fun o => o <| activeOutbound := None |>) in
  do! _ := upd_pump (fun p => p <| pumping := false |>) in
  do! s := gets (fun s => s) in
  do! _ := when_ (outboundOccupancy (outbox s) + jsize (pendingInbound (inbox s)) <? queueLimit cfg)
             (emitCapacityAvailable listener) in
  do! s := gets (fun s => s) in
  do! _ := when_ (negb (paused (pump_state s)) && hasEligibleOutbound (outbox s)) (requestPump nextDelayMs) in
  do! p := gets pump_state in
  when_ (negb (pumping p) && negb (pumpRequested p)) resolvePauseWaiters.

(** [try { body } finally { after }]; a body that suspends has not finished. *)
Definition try_finally (body : T bool) (after : T unit) : T unit :=
  fun s => match body s with
           | (Ok true, s') => (Ok tt, s')
           | (Ok false, s') => after s'
           | (Throw e, s') => match after s' with (Ok _, s'') => (Throw e, s'') | failed => failed end
           end.

Definition pump_start : T unit :=
  do! p := gets pump_state in
  if pumping p || stopped p || paused p then ret tt
  else
    do! _ := upd_pump (fun p => p <| pumping := true |>) in
    try_finally pump_body (pump_finally 0).

(** The callback of the pump timer. *)
Definition pumpTimerFired : T unit :=
  do! _ := upd_pump (fun p => p <| pumpTimer := None |> <| pumpRequested := false |>) in
  do! p := gets pump_state in
  if paused p || stopped p then resolvePauseWaiters else pump_start.

(** A confirmed message that was completed while it was being sent. *)
Definition completed_meanwhile (o : Outbox) (r : Z) : bool :=
  bool_decide (o_delivery (objects o r) = confirmed) && negb (jhas (o_trackingKey (objects o r)) (outboundByOperation o)).

(** The radio refused the packet. *)
Definition send_failed (g : Sending) (reason : list Z) : T unit :=
  let r := sg_outbound g in
  do! s := gets (fun s => s) in
  if stopped (pump_state s) then ret tt
  else
    do! _ := count radio_send_failures in
    do! _ := upd_obj r (fun m => m <| o_rttAmbiguous := true |>) in
    match sg_pair g with
    | Some compound =>
        do! _ := upd_obj (cr_report compound) (fun m => m <| o_rttAmbiguous := true |>) in
        handleCompoundReceiptFailure compound
    | None =>
        do! o := gets outbox in
        let m := objects o r in
        if bool_decide (o_delivery m = confirmed) then
          when_ (jhas (o_trackingKey m) (outboundByOperation o)) (
            do! _ := upd_obj r (fun m => m <| o_pendingChunks ::= cons (sg_chunkIndex g) |>) in
            deferRadioSendRetry r)
        else failBestEffort listener r (js "radio send failed: " ++ reason)
    end.

(** The radio took the packet. *)
Definition send_done (g : Sending) : T unit :=
  let r := sg_outbound g in
  do! s := gets (fun s => s) in
  if stopped (pump_state s) then ret tt
  else
    match sg_pair g with
    | Some compound =>
        do! _ := recordPhysicalSend (cr_report compound) (sg_frame g) 0 in
        do! p := gets pump_state in
        unless (stopped p) (finishCompoundReceiptPair compound)
    | None =>
        if completed_meanwhile (outbox s) r then ret tt
        else
          do! _ := recordPhysicalSend r (sg_frame g) (sg_chunkIndex g) in
          do! s := gets (fun s => s) in
          if stopped (pump_state s) || completed_meanwhile (outbox s) r then ret tt
          else
            match o_pendingChunks (objects (outbox s) r) with
            | _ :: _ => push_queue r
            | [] => afterAllChunksSent r
            end
    end.

(** [nextDelayMs] at the end of the [try]. *)
Definition pacing_after (s : LinkTransport) (g : Sending) (failure : option (list Z)) : Z :=
  match failure with
  | Some _ => 0
  | None =>
      if stopped (pump_state s) then 0
      else match sg_pair g with
           | Some _ => pacingDelayMs (sg_frame g)
           | None => if completed_meanwhile (outbox s) (sg_outbound g) then 0 else pacingDelayMs (sg_frame g)
           end
  end.

(** The rest of [pump] once [radio.send] has answered. *)
Definition pump_finish (failure : option (list Z)) : T unit :=
  do! s := gets (fun s => s) in
  match sending (pump_state s) with
  | None => ret tt
  | Some g =>
      do! _ := upd_pump (fun p => p <| sending := None |>) in
      try_finally
        (do! _ := match failure with Some reason => send_failed g reason | None => send_done g end in ret false)
        (pump_finally (pacing_after s g failure))
  end.

(** ** Pausing and stopping *)

(** [Some waiter]: the promise [pause] returns is pending until the waiter is
    resolved. *)
Definition pause : T (option Z) :=
  do! p := gets pump_state in
  if stopped p then ret None
  else
    do! _ := upd_pump (fun p => p <| paused := true |>) in
    do! _ := match pumpRequested p, pumpTimer p with
             | true, Some timer =>
                 do! _ := cancel_timer timer in
                 upd_pump (fun p => p <| pumpTimer := None |> <| pumpRequested := false |>)
             | _, _ => ret tt
             end in
    if negb (pumping p) then ret None
    else
      let waiter := zlen (resolvedWaiters p) + zlen (pauseWaiters p) in
      do! _ := upd_pump (fun p => p <| pauseWaiters ::= fun l => l ++ [waiter] |>) in
      ret (Some waiter).

Definition resume : T unit :=
  do! p := gets pump_state in
  if stopped p then ret tt
  else
    do! _ := upd_pump (fun p => p <| paused := false |>) in
    do! o := gets outbox in
    when_ (hasEligibleOutbound o) (requestPump 0).

(** Insertion order of a [Set]. *)
Fixpoint unique (l : list Z) : list Z :=
  match l with
  | [] => []
  | r :: l' => r :: List.filter (fun r' => negb (r' =? r)) (unique l')
  end.

Definition all_outbound (o : Outbox) : list Z :=
  unique (queue o ++ jvalues (outboundByOperation o) ++ jvalues (pendingDataRequests o) ++
          jvalues (responseOperations o) ++ match activeOutbound o with Some r => [r] | None => [] end).

Definition stop (reason : list Z) : T unit :=
  do! p := gets pump_state in
  if stopped p then ret tt
  else
    do! _ := upd_pump (fun p => p <| stopped := true |> <| paused := true |>) in
    do! _ := cancel_optional (pumpTimer p) in
    do! _ := upd_pump (fun p => p <| pumpTimer := None |> <| pumpRequested := false |>) in
    do! i := gets inbox in
    do! _ := for_each (fun r => cancel_timer (re_timer r)) (jvalues (reassemblies i)) in
    do! _ := upd_inbox (fun i => i <| reassemblies := [] |>) in
    do! _ := upd_outbox (fun o => o <| reservedTaskIDs := [] |>) in
    do! l := gets ledger in
    do! _ := cancel_optional (committedOperationExpiryTimer l) in
    do! _ := upd_ledger (fun l => l <| committedOperationExpiryTimer := None |> <| committedOperationExpiryAt := None |>
                                    <| committedOperationCapacityBlocked := false |>) in
    do! o := gets outbox in
    do! _ := for_each (fun r =>
      do! m := obj r in
      if bool_decide (o_delivery m = confirmed) then completeOutbound listener r op_failed (Some reason)
      else failBestEffort listener r reason) (all_outbound o) in
    do! _ := upd_outbox (fun o => o <| queue := [] |>) in
    do! i := gets inbox in
    do! _ := for_each (fun p => cancel_timer (pi_timer p)) (jvalues (pendingInbound i)) in
    do! _ := upd_inbox (fun i => i <| pendingInbound := [] |>) in
    do! _ := upd_outbox (fun o => o <| responseOperations := [] |>) in
    do! p := gets pump_state in
    unless (pumping p) resolvePauseWaiters.

Definition handleRadioDisconnect (reason : list Z) : T unit :=
  do! p := gets pump_state in
  if stopped p then ret tt
  else do! _ := stop reason in emit listener (on_link_error reason).
End pump.
