(* ===== verification/TransportIn.v ===== *)
(** * The transport: receiving and settling ([transport.ts])

    From a radio packet to a message handed to the application, the control
    messages that answer it, and the receipts and responses that end the
    operations of the node itself. *)

From Stdlib Require Import ZArith Lia String.
From stdpp Require Import base list option.
From S2P Require Import Prelude JsMap BinaryIO Wtf8 Json Utf8Text CompactValue Base64 Compression LinkTypes Frame Instants Contract SdkValidation StateDelta Picture PictureProjection JsState Clock TransportState TransportBase TransportOut TransportPump.

Open Scope string_scope.
Open Scope list_scope.
Open Scope Z_scope.

(** ** Which response answers which request *)

Section matching.
Context {validators : Validators}.

(** [test(response.output)] and the member of the output that names [target]. *)
Definition answers (d : ProtocolDefinition) (output : option json) (k : string) (target : option json) : bool :=
  match output with
  | Some v => validates d v && bool_decide (json_string (prop (own v) k) = json_string target)
  | None => false
  end.

Definition tested (test : json -> bool) (output : option json) : bool :=
  match output with Some v => test v | None => false end.

Definition operation_of (m : message) : option AtlasRadioOperationName := isOperation (text_of (prop m "operation")).

Definition same_operation (a b : message) : bool := bool_decide (text_of (prop a "operation") = text_of (prop b "operation")).

Definition responseMatchesRequest (asked response : message) : bool :=
  let output := prop response "output" in
  let target := prop asked "target_id" in
  let window := mkMovementQuery (text_of (prop asked "entity_created_at")) (text_of (prop asked "from")) (text_of (prop asked "to")) in
  if has_type response object_content_message then
    is_text (prop asked "operation") "object.content" &&
    bool_decide (json_string (prop response "object_id") = json_string target)
  else if negb (same_operation response asked) then false
  else
    match operation_of asked with
    | Some entity_history =>
        tested (movementHistoryResponseValidator window (Some (default 100 (json_integer (prop asked "limit"))))) output
    | Some entity_trail =>
        tested (movementTrailResponseValidator window
          (Some (default MAX_RADIO_TRAIL_POINTS (json_integer (prop asked "max_points"))))) output
    | Some entity_inspect_movement =>
        tested (movementInspectionResponseValidator (text_of (prop asked "entity_created_at")) (text_of (prop asked "at"))) output
    | Some entity_get => answers EntityResource output "entity_id" target
    | Some task_get => answers TaskResource output "task_id" target
    | Some object_get => answers ObjectDetailResource output "object_id" target
    | Some runtime_tasks =>
        tested (fun v => validates RuntimeTaskDeliveryResponse v &&
          forallb (fun t => bool_decide (json_string (prop (own t) "asset_id") = json_string target)) (items v "tasks")) output
    | Some object_get_content => false
    | Some query_changed_since =>
        tested (changedSinceResponseValidator (default 0 (json_integer (prop asked "since_version")))) output
    | _ => true
    end.

Definition responseMatchesMutation (asked response : message) : bool :=
  let output := prop response "output" in
  let target := prop asked "target_id" in
  if negb (same_operation response asked) then false
  else
    match operation_of asked with
    | Some entity_import_movement =>
        tested (validates MovementHistoryBatchRequest) (prop asked "input") &&
        tested (movementImportResponseValidator (zlen (items (default JNull (prop asked "input")) "samples"))) output
    | Some entity_update => answers EntityResource output "entity_id" target
    | Some entity_check_in =>
        tested (fun v => validates EntityCheckInResponse v &&
          bool_decide (json_string (prop (own (within v "entity")) "entity_id") = json_string target)) output
    | Some (task_acknowledge | task_start | task_progress | task_complete | task_fail | task_cancel) =>
        answers TaskResource output "task_id" target
    | Some object_update => answers ObjectDetailResource output "object_id" target
    | _ => true
    end.

(** [matchingResponseOperation] *)
Definition matchingResponseOperation (o : Outbox) (m : message) (i : FrameIdentity) : option Z :=
  match prop m "request_id" with
  | None => None
  | Some _ =>
      let found := match jget (request_id m) (pendingDataRequests o) with
                   | Some r => Some r
                   | None => if has_type m data_response then jget (request_id m) (responseOperations o) else None
                   end in
      match found with
      | None => None
      | Some r =>
          let asked := objects o r in
          if negb (is_node (destination (o_identity asked)) (Frame.source i)) then None
          else if has_type (o_message asked) data_request then
            if responseMatchesRequest (o_message asked) m then Some r else None
          else if has_type m data_response && has_type (o_message asked) resource_operation &&
                  responseMatchesMutation (o_message asked) m then Some r else None
      end
  end.
End matching.

Section in_.
Context {zlib : Zlib} {validators : Validators} {host : Host} (cfg : Settings).
Context (listener : Signal -> T unit).

(** ** Source fences *)

Definition checkSourceFence (source : LinkNode) (generation : Z) (session : list Z) : T (option SourceAdmissionFailure) :=
  do! fences := gets (fun s => sourceFences (inbox s)) in
  match jget (node_key source) fences with
  | Some f =>
      if (generation <? f_generation f) || ((generation =? f_generation f) && negb (bool_decide (session = f_session f)))
      then do! _ := count stale_messages_rejected in ret (Some admission_stale_source)
      else ret None
  | None => ret (if LINK_SOURCE_IDENTITY_LIMIT <=? jsize fences then Some admission_capacity else None)
  end.

(** A reassembly of the source from before its new activation. *)
Definition superseded (source : LinkNode) (generation : Z) (session : list Z) (r : Reassembly) : bool :=
  let i := re_identity r in
  sameNode (Frame.source i) source && negb (generation <? source_generation i) &&
  negb ((source_generation i =? generation) && bool_decide (service_session i = session)).

Definition drop_superseded (source : LinkNode) (generation : Z) (session : list Z) : T unit :=
  do! i := gets inbox in
  for_each (fun entry : list Z * Reassembly =>
    if superseded source generation session (snd entry) then
      do! _ := cancel_timer (re_timer (snd entry)) in
      do! _ := upd_inbox (fun i => i <| reassemblies ::= jdel (fst entry) |>) in
      count incomplete_reassemblies
    else ret tt) (reassemblies i).

Definition activateSourceFence (source : LinkNode) (generation : Z) (session : list Z) : T (option SourceAdmissionFailure) :=
  do! rejection := checkSourceFence source generation session in
  match rejection with
  | Some reason => ret (Some reason)
  | None =>
      do! s := gets (fun s => s) in
      let changed := match jget (node_key source) (sourceFences (inbox s)) with
                     | Some f => f_generation f <? generation
                     | None => true
                     end in
      do! accepted :=
        match changed, picture s with
        | true, Some p =>
            do! r := lift (Picture.activateSource picture_listener_throws p source generation session) in
            do! _ := modify (fun s => s <| picture := Some (snd r) |>) in
            ret (fst r)
        | _, _ => ret true
        end in
      if negb accepted then ret (Some admission_picture_rejected)
      else
        do! _ := upd_inbox (fun i => i <| sourceFences ::= jset (node_key source) (mkFence generation session) |>) in
        do! _ := when_ changed (drop_superseded source generation session) in
        ret None
  end.

Definition announceSourceActivation (source : LinkNode) (generation : Z) (session : list Z) : T LinkOperationResult :=
  if bool_decide (role (node cfg) <> gateway) || bool_decide (role source <> asset) then
    throw (PlainError "only a Gateway may announce an Asset source activation")
  else
    do! _ := lift (validateLinkNode source) in
    if negb (isSafeInteger generation && (0 <? generation)) || blank session then
      throw (PlainError "source activation requires a positive generation and nonempty session")
    else
      let operationID := js "source_active_" ++ id source ++ js "_" ++ decimal generation in
      do! rejection := activateSourceFence source generation session in
      match rejection with
      | Some reason => throw (PlainError (String.append "Source admission rejected: " (admission_reason reason)))
      | None =>
          submit cfg listener
            [(js "type", JString (js "control")); (js "control", JString (js "source_active"));
             (js "operation_id", JString operationID); (js "active_source", node_json source);
             (js "active_generation", json_int generation); (js "active_session", JString session)]
            (mkSubmit None None)
      end.

(** ** Settling *)

Definition answer (i : FrameIdentity) (verdict : Verdict) (reason : option (list Z)) (radioPacketID : option Z) : T unit :=
  do! _ := sendControl cfg listener (Frame.source i)
    (control_message (verdict_text verdict) (operation_id i) (message_id i) (reason_member reason)) true radioPacketID in
  ret tt.

(** Recorded and answered; [rejectAddressedMessage] and its equals. *)
Definition rejectAddressedMessage (i : FrameIdentity) (reason : string) (radioPacketID : option Z) : T unit :=
  do! _ := recordSettledInbound (inboundSettlementID i) verdict_rejected in
  answer i verdict_rejected (Some (js reason)) radioPacketID.

Definition rejectInboundCapacity (i : FrameIdentity) (settlementID : list Z) (radioPacketID : option Z) (reason : string) : T unit :=
  do! _ := count confirmed_rejected_overload in
  do! _ := recordSettledInbound settlementID verdict_rejected in
  answer i verdict_rejected (Some (js reason)) radioPacketID.

Definition verdict_of (accepted : bool) : Verdict := if accepted then verdict_confirmed else verdict_rejected.

Definition settleInbound (settlementID : list Z) (accepted : bool) (reason : option (list Z)) : T bool :=
  do! i := gets inbox in
  match jget settlementID (pendingInbound i) with
  | None => ret false
  | Some pending =>
      do! result := sendControl cfg listener (pi_source pending)
        (control_message (verdict_text (verdict_of accepted)) (pi_operationID pending) (pi_messageID pending) (reason_member reason))
        true (pi_radioPacketID pending) in
      if bool_decide (r_status result = op_failed) then ret false
      else
        do! _ := recordSettledInbound settlementID (verdict_of accepted) in
        do! _ := upd_inbox (fun i => i <| pendingInbound ::= jdel settlementID |>) in
        do! _ := cancel_timer (pi_timer pending) in
        ret true
  end.

Definition expirePendingInbound (settlementID : list Z) : T unit :=
  do! i := gets inbox in
  match jget settlementID (pendingInbound i) with
  | None => ret tt
  | Some pending =>
      do! _ := sendControl cfg listener (pi_source pending)
        (control_message "rejected" (pi_operationID pending) (pi_messageID pending)
           (reason_member (Some (js "application settlement deadline expired")))) true (pi_radioPacketID pending) in
      do! _ := count inbound_settlement_expired in
      do! _ := recordSettledInbound settlementID verdict_rejected in
      upd_inbox (fun i => i <| pendingInbound ::= jdel settlementID |>)
  end.

(** *** A receipt and a report, together or not at all *)

Definition failedAtomicTaskSettlement (receiptID reportID reason : list Z) : T AtomicTaskSettlementResult :=
  do! at_ := now in
  ret (mkAtomic false (settled_result receiptID op_failed (Some reason) (Some at_))
                      (settled_result reportID op_failed (Some reason) (Some at_))).

Definition node_pair_json (n : LinkNode) : json := JArray [JString (role_text (role n)); JString (id n)].

Definition report_fingerprint (report : message) (target : LinkNode) : option (list Z) :=
  match serializeLinkMessage (JObject report) with
  | Ok payload => Some (sha256_hex (payload ++ Buffer_from (stringify (node_pair_json target))))
  | Throw _ => None
  end.

(** The part after the checks: both are prepared before either is taken. *)
Definition settle_atomically (settlementID : list Z) (report : message) (target : LinkNode) (receiptID reportID fingerprint : list Z)
    (pending : PendingInbound) : T AtomicTaskSettlementResult :=
  let failed reason := failedAtomicTaskSettlement receiptID reportID reason in
  do! sequence := gets (fun s => sourceSequence (outbox s)) in
  do! receipt := prepareOutbound cfg (control_message "confirmed" (pi_operationID pending) (pi_messageID pending) [])
    (mkSubmit (Some (pi_source pending)) (Some receiptID)) false (pi_radioPacketID pending) (mkCapacity 0 (-1) 0) (sequence + 1) None in
  match receipt with
  | prep_existing _ => failed (js "receipt operation identity is already tracked")
  | prep_failed _ _ reason _ => failed reason
  | prep_ready receipt =>
      do! sequence := gets (fun s => sourceSequence (outbox s)) in
      do! reported := prepareOutbound cfg report (mkSubmit (Some target) (Some reportID)) false None (mkCapacity 2 (-1) 1)
        (sequence + 2) None in
      match reported with
      | prep_existing _ => failed (js "Task report operation identity is already tracked")
      | prep_failed _ _ reason overload =>
          do! _ := when_ overload (count confirmed_rejected_overload) in failed reason
      | prep_ready reported =>
          do! receiptResult := commitOutbound listener receipt false false in
          do! reportResult := commitOutbound listener reported false false in
          do! _ := recordSettledInbound settlementID verdict_confirmed in
          do! _ := upd_inbox (fun i => i <| pendingInbound ::= jdel settlementID |>) in
          do! _ := cancel_timer (pi_timer pending) in
          do! _ := recordOperation receiptResult (r_operation_id receiptResult) in
          do! _ := recordOperation reportResult (r_operation_id reportResult) in
          let outcome := mkAtomic true receiptResult reportResult in
          do! _ := upd_inbox (fun i =>
            match jget settlementID (settledInbound i) with
            | Some settled => i <| settledInbound ::=
                jset settlementID (mkSettled (sd_result settled) (sd_expiresAt settled) (Some (fingerprint, outcome))) |>
            | None => i
            end) in
          do! _ := requestPump 0 in
          ret outcome
      end
  end.

Definition settleInboundWithTaskReport (settlementID : list Z) (report : message) (target : LinkNode) (operationIDValue : option (list Z))
    : T AtomicTaskSettlementResult :=
  do! reportID := match operationIDValue with Some id => ret id | None => operationIDFor report None end in
  do! newID := fresh_id in
  let receiptID := js "control_" ++ newID in
  let failed reason := failedAtomicTaskSettlement receiptID reportID (js reason) in
  do! p := gets pump_state in
  if stopped p then failed "link service is stopped"
  else if negb (isLinkMessage (Some (JObject report)) && has_type report task_report) then
    failed "atomic settlement requires a Task report"
  else if blank reportID then failed "operation ID must not be blank"
  else if blank (id target) then failed "Task report destination is invalid"
  else
    match report_fingerprint report target with
    | None => failed "invalid Task report encoding"
    | Some fingerprint =>
        do! _ := pruneSettledInbound in
        do! i := gets inbox in
        match jget settlementID (settledInbound i) with
        | Some (mkSettled _ _ (Some (known, outcome))) =>
            if negb (bool_decide (known = fingerprint)) ||
               match operationIDValue with Some id => negb (bool_decide (r_operation_id (at_report outcome) = id)) | None => false end
            then failed "settlement was already accepted with a different Task report"
            else ret outcome
        | _ =>
            match jget settlementID (pendingInbound i) with
            | None => failed "settlement does not belong to the reported Task"
            | Some pending =>
                if negb (bool_decide (pi_message_type pending = task_delivery)) ||
                   negb (bool_decide (pi_task_id pending = json_string (prop report "task_id"))) then
                  failed "settlement does not belong to the reported Task"
                else if bool_decide (role (node cfg) <> asset) || bool_decide (role (pi_source pending) <> gateway) then
                  failed "atomic Task settlement is only valid for an Asset Task delivery"
                else if negb (sameNode target (pi_source pending)) then
                  failed "Task report destination must match the pending Task source"
                else settle_atomically settlementID report target receiptID reportID fingerprint pending
            end
        end
    end.

(** ** Receipts and responses *)

(** The operation a control message of [source] is about. *)
Definition control_target (o : Outbox) (m : message) (source : LinkNode) : option Z :=
  List.find (fun r =>
    let i := o_identity (objects o r) in
    bool_decide (operation_id i = text_of (prop m "operation_id")) && is_node (destination i) source &&
    bool_decide (Some (message_id i) = json_string (prop m "message_id"))) (jvalues (outboundByOperation o)).

Definition missing_indexes (m : message) : list Z :=
  match prop m "missing_chunks" with
  | Some (JArray l) => omap (fun v => json_integer (Some v)) l
  | _ => []
  end.

Definition resend_missing (r : Z) (m : message) : T unit :=
  do! target := obj r in
  let wanted := List.filter (fun index => match nthZ (o_frames target) index with Some _ => true | None => false end) (missing_indexes m) in
  do! _ := upd_obj r (fun t => t <| o_pendingChunks := wanted |>) in
  do! _ := cancel_optional (o_retryTimer target) in
  match wanted with
  | [] => scheduleRetry cfg r
  | _ => do! _ := count fragment_repair_requests_received in requeue r
  end.

Definition handleControl (m : message) (i : FrameIdentity) : T unit :=
  if is_text (prop m "control") "source_active" then
    if bool_decide (role (Frame.source i) <> gateway) then ret tt
    else
      let active := prop m "active_source" in
      let who := mkNode (if is_text (member_of active "role") "asset" then asset else gateway) (text_of (member_of active "id")) in
      do! _ := activateSourceFence who (default 0 (json_integer (prop m "active_generation"))) (text_of (prop m "active_session")) in
      ret tt
  else if negb (is_node (destination i) (node cfg)) then ret tt
  else
    do! o := gets outbox in
    match control_target o m (Frame.source i) with
    | None => ret tt
    | Some r =>
        if is_text (prop m "control") "missing_chunks" then resend_missing r m
        else
          let accepted := is_text (prop m "control") "confirmed" in
          let asked := o_message (objects o r) in
          if accepted && (has_type asked data_request || has_type asked resource_operation) then confirmAwaitingResponseTransport listener r
          else completeOutbound listener r (if accepted then op_confirmed else op_rejected) (json_string (prop m "reason"))
    end.

Definition handleCompoundReceipt (i : FrameIdentity) : T unit :=
  match Frame.receipt i with
  | Some rid =>
      if bool_decide (role (Frame.source i) <> asset) || negb (is_node (destination i) (node cfg)) then ret tt
      else handleControl (control_message "confirmed" (receipt_operation_id rid) (receipt_message_id rid) []) i
  | None => ret tt
  end.

Definition response_result (asked : Outbound) (m : message) (at_ : Z) : LinkOperationResult :=
  if has_type m data_response then
    mkResult (o_operationID asked) op_responded None (prop m "output") (prop m "next_cursor") (Some at_)
  else
    mkResult (o_operationID asked) op_responded None
      (Some (JObject (member "object_id" (prop m "object_id") ++ member "content_base64" (prop m "content_base64") ++
                      member "sha256" (prop m "sha256")))) None (Some at_).

Definition completeDataRequest (m : message) (i : FrameIdentity) : T unit :=
  do! o := gets outbox in
  match matchingResponseOperation o m i with
  | None => ret tt
  | Some r =>
      let asked := objects o r in
      let key := o_trackingKey asked in
      do! _ := cancel_optional (o_retryTimer asked) in
      do! _ := cancel_optional (o_deadlineTimer asked) in
      do! _ := upd_outbox (fun o => o <| pendingDataRequests ::= jdel (request_id m) |>
        <| responseOperations ::= jdel key |> <| outboundByOperation ::= jdel key |>) in
      do! _ := remove_from_queue r in
      do! at_ := now in
      let result := response_result asked m at_ in
      do! _ := retainCompletedOperation key in
      do! _ := recordOperationTiming asked in
      do! _ := recordOperation result key in
      emit listener (on_operation result)
  end.

(** ** Delivering a message *)

Definition apply_publication (cx : PictureApplyContext) (x : message) : T unit :=
  do! s := gets (fun s => s) in
  match picture s with
  | None => ret tt
  | Some p =>
      do! r := lift (Picture.apply picture_listener_throws p x cx) in
      do! _ := modify (fun s => s <| picture := Some (snd r) |>) in
      match fst r with
      | Picture.applied => ret tt
      | Picture.rejected Picture.capacity => count picture_rejected_capacity
      | Picture.rejected _ => count stale_messages_rejected
      end
  end.

Definition updatePicture (m : message) (i : FrameIdentity) : T unit :=
  do! s := gets (fun s => s) in
  match picture s with
  | None => ret tt
  | Some p =>
      do! publications := lift (messagePublications localeCompare m i p (current (clock s))) in
      for_each (apply_publication
        (mkContext (Frame.source i) (source_generation i) (service_session i) (source_sequence i) (current (clock s)))) publications
  end.

Inductive TaskOrder := order_new | order_duplicate | order_stale.
#[global] Instance TaskOrder_eq_dec : EqDecision TaskOrder.
Proof. solve_decision. Defined.

Definition task_sequence_key (m : message) (i : FrameIdentity) : list Z :=
  node_key (Frame.source i) ++ js ":" ++ decimal (source_generation i) ++ js ":" ++ service_session i ++ js ":" ++
  text_of (member_of (prop m "task") "task_id").

Definition acceptTaskDeliverySequence (m : message) (i : FrameIdentity) : T (option TaskOrder) :=
  if negb (has_type m task_delivery) then ret None
  else
    let key := task_sequence_key m i in
    do! b := gets inbox in
    match jget key (taskDeliverySequences b) with
    | Some c =>
        if source_sequence i <? c then ret (Some order_stale)
        else if source_sequence i =? c then ret (Some order_duplicate)
        else
          do! _ := upd_inbox (fun b => b <| taskDeliverySequences ::= fun t => jevict TASK_DELIVERY_FENCE_LIMIT (jset key (source_sequence i) t) |>) in
          ret (Some order_new)
    | None =>
        do! _ := upd_inbox (fun b => b <| taskDeliverySequences ::= fun t => jevict TASK_DELIVERY_FENCE_LIMIT (jset key (source_sequence i) t) |>) in
        ret (Some order_new)
    end.

(** The settlement an admitted message waits for. *)
Definition await_settlement (m : message) (i : FrameIdentity) (settlementID : list Z) (radioPacketID : option Z) : T unit :=
  do! timer := schedule_timer (DEADLINE_MS (priority i)) (expire_pending_inbound settlementID) in
  upd_inbox (fun b => b <| pendingInbound ::= jset settlementID
    (mkPending (Frame.source i) (message_type i)
       (if has_type m task_delivery then json_string (member_of (prop m "task") "task_id") else None)
       (operation_id i) (message_id i) radioPacketID timer) |>).

(** The checks before a message that needs a settlement is admitted: whether
    it is. *)
Definition admit_confirmed (m : message) (i : FrameIdentity) (settlementID : list Z) (order : option TaskOrder) (radioPacketID : option Z)
    : T bool :=
  do! s := gets (fun s => s) in
  let b := inbox s in
  if bool_decide (order = Some order_duplicate) then do! _ := count duplicate_packets_suppressed in ret false
  else if (confirmedLimit cfg <=? jsize (pendingInbound b)) ||
          (queueLimit cfg <=? outboundOccupancy (outbox s) + jsize (pendingInbound b)) then
    do! _ := rejectInboundCapacity i settlementID radioPacketID "inbound confirmed operation capacity is exhausted" in ret false
  else if SETTLED_INBOUND_LIMIT <=? jsize (settledInbound b) + jsize (pendingInbound b) then
    do! _ := rejectInboundCapacity i settlementID radioPacketID "inbound settlement identity capacity is exhausted" in ret false
  else
    do! _ := await_settlement m i settlementID radioPacketID in ret true.

(** The application is told. *)
Definition deliver (m : message) (i : FrameIdentity) (settlementID : list Z) (order : option TaskOrder)
    (addressed requiresSettlement : bool) : T unit :=
  do! _ := unless (bool_decide (order = Some order_duplicate)) (updatePicture m i) in
  do! _ := when_ (addressed && (has_type m data_response || has_type m object_content_message)) (completeDataRequest m i) in
  do! at_ := now in
  emit listener (on_message (mkMessageEvent m (operation_id i) settlementID (Frame.source i) (destination i)
    (source_generation i) (service_session i) (source_sequence i) at_ addressed requiresSettlement)).

(** An addressed response must answer something that is awaited. *)
Definition unexpected_response (o : Outbox) (m : message) (i : FrameIdentity) (addressed : bool) : bool :=
  addressed &&
  (has_type m data_response ||
   (has_type m object_content_message && match prop m "request_id" with Some _ => true | None => false end)) &&
  bool_decide (matchingResponseOperation o m i = None).

(** From the order of task deliveries on. *)
Definition admit_message (m : message) (i : FrameIdentity) (addressed : bool) (radioPacketID : option Z) : T unit :=
  do! order := acceptTaskDeliverySequence m i in
  if bool_decide (order = Some order_stale) then
    do! _ := count stale_messages_rejected in
    when_ addressed (rejectAddressedMessage i "Task delivery source sequence is stale" radioPacketID)
  else if bool_decide (order = Some order_duplicate) && negb addressed then count duplicate_packets_suppressed
  else
    let requiresSettlement := bool_decide (deliveryClass m = confirmed) && addressed in
    let settlementID := inboundSettlementID i in
    do! _ := when_ requiresSettlement pruneSettledInbound in
    do! b := gets inbox in
    match requiresSettlement, jget settlementID (settledInbound b), jhas settlementID (pendingInbound b) with
    | true, Some settled, _ =>
        do! _ := count duplicate_packets_suppressed in
        answer i (sd_result settled) None radioPacketID
    | true, None, true => count duplicate_packets_suppressed
    | _, _, _ =>
        do! o := gets outbox in
        if unexpected_response o m i addressed then ret tt
        else
          do! go := (if requiresSettlement then admit_confirmed m i settlementID order radioPacketID else ret true) in
          when_ go (deliver m i settlementID order addressed requiresSettlement)
    end.

(** The Asset the picture says a task is assigned to. *)
Definition assigned_asset (s : LinkTransport) (m : message) : option (list Z) :=
  p ← picture s; r ← find_task localeCompare p (text_of (prop m "task_id")); pr_source_asset r.

(** From the settled source fence on. *)
Definition dispatch_message (m : message) (i : FrameIdentity) (radioPacketID : option Z) : T unit :=
  if bool_decide (deliveryClass m = confirmed) && bool_decide (destination i = None) then ret tt
  else
    let addressed := is_node (destination i) (node cfg) in
    let reject reason := when_ addressed (rejectAddressedMessage i reason radioPacketID) in
    do! s := gets (fun s => s) in
    if has_type m task_delivery && bool_decide (role (Frame.source i) <> gateway) then
      reject "Task delivery source is not the Gateway"
    else if has_type m task_delivery && addressed &&
            negb (bool_decide (json_string (member_of (prop m "task") "asset_id") = Some (id (node cfg)))) then
      rejectAddressedMessage i "Task is assigned to a different Asset" radioPacketID
    else if has_type m task_report && bool_decide (role (Frame.source i) <> asset) then
      reject "Task reports must originate from an Asset"
    else if has_type m task_report &&
            match assigned_asset s m with Some a => negb (bool_decide (a = id (Frame.source i))) | None => false end then
      reject "Task report source is not the assigned Asset"
    else admit_message m i addressed radioPacketID.

(** What the bytes of a complete message stand for, and whether as a delta. *)
Definition decode_message (d : StateDeltaDecoder) (i : FrameIdentity) (bytes : list Z) : option (message * bool) * StateDeltaDecoder :=
  if bool_decide (message_type i = state) && isStateDeltaPayload bytes then
    match StateDelta.decode d bytes (delta_identity i) with
    | (Some m, d') => (Some (members m, true), d')
    | (None, d') => (None, d')
    end
  else
    match deserializeLinkMessage bytes with
    | Ok m => (Some (members m, false), d)
    | Throw _ => (None, d)
    end.

Definition handleCompleteMessage (i : FrameIdentity) (payload : list Z) (radioPacketID : option Z) : T unit :=
  match decodeMessagePayload payload with
  | Throw _ => count invalid_messages
  | Ok bytes =>
      do! b := gets inbox in
      let '(decoded, d) := decode_message (stateDecoder b) i bytes in
      do! _ := upd_inbox (fun b => b <| stateDecoder := d |>) in
      match decoded with
      | None => count invalid_messages
      | Some (m, stateDelta) =>
          if negb (bool_decide (type_of m = Some (message_type i))) || negb (bool_decide (messagePriority m = priority i)) then ret tt
          else if negb (validStateSource m (Frame.source i)) then ret tt
          else
            do! rejection := activateSourceFence (Frame.source i) (source_generation i) (service_session i) in
            match rejection with
            | Some _ => ret tt
            | None =>
                do! _ := when_ (has_type m state && negb stateDelta)
                  (upd_inbox (fun b => b <| stateDecoder ::= fun d => snd (StateDelta.decode d bytes (delta_identity i)) |>)) in
                do! _ := when_ (has_type m task_report) (handleCompoundReceipt i) in
                do! p := gets pump_state in
                if has_type m task_report && bool_decide (Frame.receipt i <> None) && stopped p then ret tt
                else if has_type m control then
                  if match destination i with Some n => negb (sameNode n (node cfg)) | None => false end then ret tt
                  else handleControl m i
                else dispatch_message m i radioPacketID
            end
      end
  end.

(** ** Reassembly *)

Definition expectsObjectContent (i : FrameIdentity) : T bool :=
  if negb (is_node (destination i) (node cfg)) then ret false
  else
    let settlementID := inboundSettlementID i in
    do! _ := pruneSettledInbound in
    do! s := gets (fun s => s) in
    if jhas settlementID (pendingInbound (inbox s)) || jhas settlementID (settledInbound (inbox s)) then ret true
    else
      ret (match jget (operation_id i) (pendingDataRequests (outbox s)) with
           | Some r =>
               let asked := objects (outbox s) r in
               has_type (o_message asked) data_request && is_text (prop (o_message asked) "operation") "object.content" &&
               bool_decide (request_id (o_message asked) = operation_id i) &&
               is_node (destination (o_identity asked)) (Frame.source i)
           | None => false
           end).

Definition reassemblyInterval (r : Reassembly) : Z :=
  let i := re_identity r in
  if bool_decide (message_type i = state) || bool_decide (message_type i = control) ||
     negb (is_node (destination i) (node cfg)) || negb (jhas (re_chunkCount r - 1) (re_chunks r))
  then reassemblyTimeoutMs cfg
  else if bool_decide (priority i = task) || bool_decide (priority i = safety) then Z.min (reassemblyTimeoutMs cfg) 1000
  else reassemblyTimeoutMs cfg.

Definition set_reassembly (key : list Z) (r : Reassembly) : T unit :=
  upd_inbox (fun b => b <| reassemblies ::= jset key r |>).

(** Drops an incomplete reassembly. *)
Definition drop_reassembly (key : list Z) : T unit :=
  do! _ := upd_inbox (fun b => b <| reassemblies ::= jdel key |>) in
  count incomplete_reassemblies.

Definition expireReassembly (key : list Z) : T unit :=
  do! s := gets (fun s => s) in
  match jget key (reassemblies (inbox s)) with
  | None => ret tt
  | Some r =>
      let i := re_identity r in
      if negb (bool_decide (message_type i = state)) && is_node (destination i) (node cfg) &&
         (current (clock s) + reassemblyInterval r <? re_expiresAt r) then
        let missing := List.filter (fun index => negb (jhas index (re_chunks r))) (indexes (re_chunkCount r)) in
        do! _ := sendControl cfg listener (Frame.source i)
          (control_message "missing_chunks" (operation_id i) (message_id i)
             [(js "missing_chunks", JArray (map json_int missing))]) false (re_radioPacketID r) in
        do! _ := count fragment_repair_requests_sent in
        do! timer := schedule_timer (reassemblyTimeoutMs cfg) (expire_reassembly key) in
        (* the object may have left the table while the listeners were told *)
        upd_inbox (fun b => match jget key (reassemblies b) with
                            | Some r => b <| reassemblies ::= jset key (r <| re_timer := timer |>) |>
                            | None => b
                            end)
      else drop_reassembly key
  end.

(** The entry of the least [lastReceivedAt], the first of them. *)
Definition oldest_reassembly (m : list (list Z * Reassembly)) : option (list Z * Reassembly) :=
  fold_left (fun best entry =>
    match best with
    | None => Some entry
    | Some b => if re_lastReceivedAt (snd entry) <? re_lastReceivedAt (snd b) then Some entry else best
    end) m None.

Definition makeReassemblyRoom : T unit :=
  do! b := gets inbox in
  if jsize (reassemblies b) <? reassemblyLimit cfg then ret tt
  else
    match oldest_reassembly (reassemblies b) with
    | None => ret tt
    | Some (key, r) => do! _ := cancel_timer (re_timer r) in drop_reassembly key
    end.

Definition reassembly_key (i : FrameIdentity) : list Z :=
  node_key (Frame.source i) ++ js ":" ++ decimal (source_generation i) ++ js ":" ++ service_session i ++ js ":" ++ message_id i.

(** The reassembly of the frame, opened if there is none. *)
Definition find_reassembly (key : list Z) (f : LinkFrame) (packet : RadioPacket) : T Reassembly :=
  do! b := gets inbox in
  match jget key (reassemblies b) with
  | Some r => ret r
  | None =>
      do! _ := makeReassemblyRoom in
      do! timer := schedule_timer (reassemblyTimeoutMs cfg) (expire_reassembly key) in
      do! at_ := now in
      let i := Frame.identity f in
      let r := mkReassembly i [] (chunk_count f) 0 (at_ + DEADLINE_MS (priority i)) (p_received_at packet)
                 (p_radio_packet_id packet) timer in
      do! _ := set_reassembly key r in
      ret r
  end.

Definition add_chunk (r : Reassembly) (f : LinkFrame) (packet : RadioPacket) : Reassembly :=
  r <| re_chunks ::= jset (chunk_index f) (frame_payload f) |> <| re_byteLength ::= fun n => n + zlen (frame_payload f) |>
    <| re_lastReceivedAt := p_received_at packet |>
    <| re_radioPacketID ::= fun before => match p_radio_packet_id packet with Some id => Some id | None => before end |>.

(** From the frame's reassembly on. *)
Definition receive_chunk (key : list Z) (r : Reassembly) (f : LinkFrame) (packet : RadioPacket) : T unit :=
  if negb (sameFrameSet r f) then ret tt
  else if jhas (chunk_index f) (re_chunks r) then count duplicate_packets_suppressed
  else if MAX_LINK_MESSAGE_BYTES <? re_byteLength r + zlen (frame_payload f) then
    do! _ := cancel_timer (re_timer r) in drop_reassembly key
  else
    let r := add_chunk r f packet in
    do! _ := cancel_timer (re_timer r) in
    if negb (jsize (re_chunks r) =? re_chunkCount r) then
      do! timer := schedule_timer (reassemblyInterval r) (expire_reassembly key) in
      set_reassembly key (r <| re_timer := timer |>)
    else
      do! _ := upd_inbox (fun b => b <| reassemblies ::= jdel key |>) in
      do! payload := lift (joinChunks r) in
      handleCompleteMessage (re_identity r) payload (re_radioPacketID r).

Definition receive (packet : RadioPacket) : T unit :=
  do! p := gets pump_state in
  if stopped p || negb (p_channel packet =? privateChannel cfg) then ret tt
  else
    do! _ := count packets_received in
    match decodeFrame (p_payload packet) with
    | Throw _ => count malformed_frames
    | Ok f =>
        let i := Frame.identity f in
        if sameNode (Frame.source i) (node cfg) then ret tt
        else
          do! rejection := checkSourceFence (Frame.source i) (source_generation i) (service_session i) in
          match rejection with
          | Some _ => ret tt
          | None =>
              do! expected := (if bool_decide (message_type i = object_content_message) then expectsObjectContent i else ret true) in
              if negb expected then ret tt
              else
                let key := reassembly_key i in
                do! r := find_reassembly key f packet in
                receive_chunk key r f packet
          end
    end.
End in_.
