(* ===== verification/Transport.v ===== *)
(** * The transport: the object and its runs ([transport.ts])

    The constructor, the methods by name, the callbacks of the timers, and the
    runs of a transport whose listeners call it back. *)

From Stdlib Require Import ZArith Lia String.
From stdpp Require Import base list option relations.
From S2P Require Import Prelude JsMap BinaryIO Wtf8 Json CompactValue Compression LinkTypes Frame Contract StateDelta Picture JsState Clock TransportState TransportBase TransportOut TransportPump TransportIn.

Open Scope string_scope.
Open Scope list_scope.
Open Scope Z_scope.

(** ** The constructor *)

Record TransportOptions := mkOptions {
  opt_node : LinkNode;
  opt_sourceGeneration : Z;
  opt_serviceSession : option (list Z);
  opt_privateChannel : option Z;
  opt_frameEncoding : option FrameEncoding;
  opt_queueLimit : option Z;
  opt_confirmedLimit : option Z;
  opt_reassemblyLimit : option Z;
  opt_reassemblyTimeoutMs : option Z;
  opt_retryIntervalMs : option Z;
  opt_stateDeltas : bool;
  opt_retryJitterMs : option Z;
  opt_picture : option SharedPicture;
  opt_clock : VirtualClock Callback
}.

Definition no_node : LinkNode := mkNode asset [].
Definition no_identity : FrameIdentity := mkIdentity 0 control no_node None 0 [] 0 [] [] None safety.

(** What is in the store where nothing was allocated. *)
Definition no_outbound : Outbound :=
  mkOutbound [] [] [] no_identity [] [] best_effort None None None false 0 0 None false [] 0 (mkSendOptions 0 safety None) None.

Section constructor.
Context {host : Host}.

Definition newTransport (o : TransportOptions) : result (Settings * LinkTransport) :=
  let! _ := validateLinkNode (opt_node o) in
  guard! isSafeInteger (opt_sourceGeneration o) && negb (opt_sourceGeneration o <? 0)
    else RangeError "source generation must be a non-negative safe integer" in
  let '(session, ids) := match opt_serviceSession o with Some s => (s, 0) | None => (createID 0, 1) end in
  guard! negb (blank session) else TypeError "service session must not be blank" in
  let! encoder := if opt_stateDeltas o then (let! e := newEncoder None None in Ok (Some e)) else Ok None in
  let! decoder := newDecoder None in
  let! channel := positiveBoundedInteger (default 1 (opt_privateChannel o)) 0 7 "private channel" in
  let! queueLimit := positiveBoundedInteger (default 64 (opt_queueLimit o)) 1 4096 "queue limit" in
  let! confirmedLimit := positiveBoundedInteger (default 64 (opt_confirmedLimit o)) 1 4096 "confirmed limit" in
  let! reassemblyLimit := positiveBoundedInteger (default 64 (opt_reassemblyLimit o)) 1 4096 "reassembly limit" in
  let! timeout := positiveBoundedInteger (default 10000 (opt_reassemblyTimeoutMs o)) 1 300000 "reassembly timeout" in
  let! jitter := positiveBoundedInteger (default 0 (opt_retryJitterMs o)) 0 1000 "retry jitter" in
  let! interval := match opt_retryIntervalMs o with
                   | None => Ok None
                   | Some v => let! v := positiveBoundedInteger v 1 60000 "retry interval" in Ok (Some v)
                   end in
  Ok (mkSettings (opt_node o) (opt_sourceGeneration o) session channel queueLimit confirmedLimit reassemblyLimit timeout jitter
        interval (default canonical_json (opt_frameEncoding o)),
      mkTransport
        (mkOutbox (fun _ => no_outbound) 0 [] [] [] [] [] 0 0 None None)
        (mkPump false false None false [] [] false None [])
        (mkInbox [] [] [] [] [] decoder)
        (mkLedger [] [] [] 0 None None false [])
        (opt_clock o) ids emptyMetrics (opt_picture o) encoder [] []).
End constructor.

(** ** Readers *)

Definition transport_status (s : LinkTransport) (operationID : list Z) : option LinkOperationResult :=
  jget operationID (operationResults (ledger s)).

Record TransportDiagnostics := mkDiagnostics {
  queue_depth : Z; confirmed_pending : Z; inbound_awaiting_settlement : Z; incomplete : Z; is_stopped : bool
}.

Definition diagnostics (s : LinkTransport) : TransportDiagnostics :=
  mkDiagnostics (zlen (queue (outbox s))) (confirmedCount (outbox s)) (jsize (pendingInbound (inbox s)))
    (jsize (reassemblies (inbox s))) (stopped (pump_state s)).

(** ** Methods *)

(** The calls an application makes. *)
Inductive Call :=
  | call_submit (m : message) (options : SubmitOptions)
  | call_reserve (m : message) (target : LinkNode) (operationID : list Z)
  | call_dispatch (t : TaskReservation) (cancelled : bool)
  | call_cancel_reservation (t : TaskReservation)
  | call_settle (settlementID : list Z) (accepted : bool) (reason : option (list Z))
  | call_settle_with_report (settlementID : list Z) (report : message) (target : LinkNode) (operationID : option (list Z))
  | call_cancel (operationID reason : list Z)
  | call_announce (source : LinkNode) (generation : Z) (session : list Z)
  | call_pause
  | call_resume
  | call_stop (reason : list Z).

(** What comes from outside: calls, the radio, and time. *)
Inductive Input :=
  | call (c : Call)
  | radio_packet (packet : RadioPacket)
  | radio_answer (failure : option (list Z))
  | radio_disconnect (reason : list Z)
  | advance (targetMs : Z).

(** The value of a method is for its caller. *)
Definition done {A} (m : T A) : T unit := do! _ := m in ret tt.

Section run.
Context {zlib : Zlib} {validators : Validators} {host : Host} (cfg : Settings).

Section methods.
Context (listener : Signal -> T unit).

Definition run_call (c : Call) : T unit :=
  match c with
  | call_submit m options => done (submit cfg listener m options)
  | call_reserve m target operationID => done (reserveTaskDelivery cfg m target operationID)
  | call_dispatch t cancelled => done (dispatchReservation cfg listener t cancelled)
  | call_cancel_reservation t => done (cancelReservation t)
  | call_settle settlementID accepted reason => done (settleInbound cfg listener settlementID accepted reason)
  | call_settle_with_report settlementID report target operationID =>
      done (settleInboundWithTaskReport cfg listener settlementID report target operationID)
  | call_cancel operationID reason => done (cancel_operation listener operationID reason)
  | call_announce source generation session => done (announceSourceActivation cfg listener source generation session)
  | call_pause => done pause
  | call_resume => resume
  | call_stop reason => stop listener reason
  end.

Definition run_callback (c : Callback) : T unit :=
  match c with
  | run_pump => pumpTimerFired cfg listener
  | outbound_deadline r => outboundDeadline listener r
  | retry_outbound r => retryOutbound r
  | retry_after_failure r => retryAfterFailure r
  | expire_reassembly key => expireReassembly cfg listener key
  | expire_pending_inbound settlementID => expirePendingInbound cfg listener settlementID
  | committed_expiry => committedExpiryWakeup listener
  end.

(** A turn of [advanceTo]: the next timer due runs, or the clock arrives. *)
Definition advance_turn (targetMs : Z) : T unit :=
  fun s =>
    if negb (can_advance (clock s) targetMs) then (Throw (RangeError "virtual time cannot move backward"), s)
    else
      match next_due (clock s) targetMs with
      | (Some t, c) => run_callback (t_callback t) (s <| clock := c |>)
      | (None, c) => (Ok tt, s <| clock := c |>)
      end.

Definition run_input (i : Input) : T unit :=
  match i with
  | call c => run_call c
  | radio_packet packet => receive cfg listener packet
  | radio_answer failure => pump_finish cfg listener failure
  | radio_disconnect reason => handleRadioDisconnect listener reason
  | advance targetMs => advance_turn targetMs
  end.
End methods.

(** ** Listeners that call back

    What the listeners do at a signal, given what they can see, is any list of
    calls; the signals of those calls reach them in turn.  [depth] bounds the
    nesting: a run of the program has one, its stack being finite. *)

Definition Behaviour := Signal -> LinkTransport -> list Call.

Fixpoint react (behaviour : Behaviour) (depth : nat) (signal : Signal) : T unit :=
  match depth with
  | O => ret tt
  | S depth' => fun s =>
      (Ok tt, fold_left (fun s c => snd (run_call (react behaviour depth') c s)) (behaviour signal s) s)
  end.

(** One input, with listeners of any behaviour. *)
Inductive step (s : LinkTransport) : LinkTransport -> Prop :=
  | step_input behaviour depth i : step s (snd (run_input (react behaviour depth) i s)).

(** Inputs of a listener's own making keep what every call keeps. *)
Lemma react_keeps (R : LinkTransport -> LinkTransport -> Prop) `{!PreOrder R} behaviour depth :
  (forall listener, (forall signal, keeps R (listener signal)) -> forall c, keeps R (run_call listener c)) ->
  forall signal, keeps R (react behaviour depth signal).
Proof.
  intros Hcall. induction depth as [| depth IH]; intros signal s; cbn; [done |].
  generalize (behaviour signal s). intros cs. revert s.
  induction cs as [| c cs IHcs]; intros s; cbn; [done |].
  etrans; [apply (Hcall _ IH c s) | apply IHcs].
Qed.
End run.
