(* ===== verification/TransportSample.v ===== *)
(** * The transport: a sample exchange

    A Gateway delivers a task to an Asset over two transports, evaluated: the
    states of this run are the concrete inputs of the theorems. *)

From Stdlib Require Import ZArith Lia String.
From stdpp Require Import base list option relations.
From S2P Require Import Prelude JsMap Wtf8 Json CompactValue Compression LinkTypes Frame Contract ContractFacts SdkValidation StateDelta Picture PictureFacts PictureProjection JsState Clock TransportState TransportBase TransportOut TransportPump TransportIn Transport.

Open Scope string_scope.
Open Scope list_scope.
Open Scope Z_scope.

#[export] Instance sample_host : Host := {|
  createID n := js "id" ++ decimal n;
  maxPayloadBytes := meshtasticMaxPayloadBytes;
  pacingDelayMs _ := 0;
  localeCompare := code_order;
  picture_listener_throws _ _ := false
|}.

#[local] Existing Instances stored_zlib sample_validators.

Definition silent : Signal -> T unit := fun _ => ret tt.

Definition sample_options (n : LinkNode) (session : string) : TransportOptions :=
  mkOptions n 1 (Some (js session)) None None None None None None None false None None (newClock 1000).

Definition asset_node : LinkNode := mkNode asset (js "a1").
Definition gateway_node : LinkNode := mkNode gateway (js "g").

Definition or_nothing (r : result (Settings * LinkTransport)) : Settings * LinkTransport :=
  match r with
  | Ok x => x
  | Throw _ => (mkSettings no_node 0 [] 0 0 0 0 0 0 None canonical_json,
                mkTransport (mkOutbox (fun _ => no_outbound) 0 [] [] [] [] [] 0 0 None None) (mkPump false false None false [] [] false None [])
                  (mkInbox [] [] [] [] [] (mkDecoder [] 1)) (mkLedger [] [] [] 0 None None false []) (newClock 0) 0 emptyMetrics None None [] [])
  end.

Definition gateway_0 := or_nothing (newTransport (sample_options gateway_node "gs")).
Definition asset_0 := or_nothing (newTransport (sample_options asset_node "as")).

Definition sample_task_resource : json :=
  JObject [(js "task_id", JString (js "t1")); (js "asset_id", JString (js "a1")); (js "status", JString (js "pending"));
           (js "updated_at", JString (js "2026-01-01T00:00:00Z"))].

Definition sample_delivery : message :=
  [(js "type", JString (js "task_delivery")); (js "delivery", JString (js "assignment")); (js "task", sample_task_resource)].

Definition run_all (cfg : Settings) (inputs : list Input) (s : LinkTransport) : LinkTransport :=
  fold_left (fun s i => snd (run_input cfg silent i s)) inputs s.

Definition frames_sent (s : LinkTransport) : list (list Z) := map fst (sent (pump_state s)).

Definition packets (frames : list (list Z)) (at_ : Z) : list Input :=
  map (fun f => radio_packet (mkPacket f at_ None 1)) frames.

(** The Gateway submits and sends every chunk. *)
Definition gateway_1 := run_all (fst gateway_0)
  (call (call_submit sample_delivery (mkSubmit (Some asset_node) (Some (js "op1")))) ::
   concat (replicate 3 [advance 1000; radio_answer None])) (snd gateway_0).

(** The Asset receives them, last first. *)
Definition asset_1 := run_all (fst asset_0) (packets (rev (frames_sent gateway_1)) 1000) (snd asset_0).

Definition delivered_ids (s : LinkTransport) : list (list Z) :=
  omap (fun sig => match sig with event_signal (on_message e) => Some (me_settlement_id e) | _ => None end) (told s).

Definition sample_settlement : list Z := default [] (head (delivered_ids asset_1)).

(** The Asset confirms it, and the Gateway receives the confirmation. *)
Definition asset_2 := run_all (fst asset_0)
  [call (call_settle sample_settlement true None); advance 1000; radio_answer None; advance 1000; radio_answer None] asset_1.
Definition gateway_2 := run_all (fst gateway_0) (packets (frames_sent asset_2) 1000) gateway_1.

(** *** A request that is sent again *)

Definition sample_request : message :=
  [(js "type", JString (js "data_request")); (js "request_id", JString (js "r1")); (js "operation", JString (js "query.full"))].

(** The Asset asks, gets no answer within the deadline, and asks again when
    the identity may be used again. *)
Definition sample_ask : Input := call (call_submit sample_request (mkSubmit (Some gateway_node) None)).
Definition asset_3 := run_all (fst asset_0) (sample_ask :: concat (replicate 3 [advance 1000; radio_answer None])) (snd asset_0).
Definition asset_4 := run_all (fst asset_0) (replicate 20 (advance 700000) ++ [sample_ask]) asset_3.

(** The Gateway answers that it takes the request, and much later receives
    the same packets. *)
Definition gateway_3 := run_all (fst gateway_0) (packets (frames_sent asset_3) 1000) (snd gateway_0).
Definition request_settlement : list Z := default [] (head (delivered_ids gateway_3)).
Definition gateway_4 := run_all (fst gateway_0)
  (call (call_settle request_settlement true None) :: replicate 3 (advance 700000) ++ packets (frames_sent asset_3) 700000) gateway_3.
Definition no_event : MessageEvent := mkMessageEvent [] [] [] no_node None 0 [] 0 0 false false.
Definition nth_event (n : nat) (s : LinkTransport) : MessageEvent :=
  nth n (omap (fun sig => match sig with event_signal (on_message e) => Some e | _ => None end) (told s)) no_event.
