(* ===== verification/TransportMoves.v ===== *)
(** * The transport: its moves

    A specification of the transport as a transition system.  A quiet move is
    one elementary change under the condition the code makes it; between two
    messages handed to the application, whatever is called, whatever the
    listeners call back, the object goes through quiet moves only
    ([TransportRefines]).  Invariants are proved here, move by move. *)

From Stdlib Require Import ZArith Lia String.
From stdpp Require Import base list option relations.
From S2P Require Import Prelude JsMap Json CompactValue Compression LinkTypes Frame Contract StateDelta Picture JsState Clock TransportState TransportBase TransportOut TransportPump TransportIn.

#[local] Arguments jset : simpl never.
#[local] Arguments jdel : simpl never.
#[local] Arguments jget : simpl never.
#[local] Arguments jsize : simpl never.
#[local] Arguments jhas : simpl never.

(** ** What is observed *)

Definition delivery_of (sig : Signal) : option MessageEvent :=
  match sig with event_signal (on_message e) => Some e | _ => None end.
Definition deliveries (s : LinkTransport) : list MessageEvent := omap delivery_of (told s).

Definition time (s : LinkTransport) : Z := current (clock s).

(** What never changes of a stored message, but for its timers. *)
Definition core (m : Outbound) :=
  (o_message m, o_operationID m, o_trackingKey m, o_delivery m, o_deadlineTimer m, o_queuedAt m, priority (o_identity m)).

(** The pair of messages that is being sent in one packet. *)
Definition sent_pair (s : LinkTransport) : option CompoundReceiptPair := g ← sending (pump_state s); sg_pair g.

(** What a pair would put back is of the priority of its report. *)
Definition paired (s : LinkTransport) (p : CompoundReceiptPair) : Prop :=
  cr_report p < nextObject (outbox s) /\ priority (cr_originalIdentity p) = priority (o_identity (objects (outbox s) (cr_report p))).

(** A handle of the past whose timer, if it has not run, is of this kind. *)
Definition typed (s : LinkTransport) (h : Z) (P : Callback -> Prop) : Prop :=
  h < nextTimer (clock s) /\ forall t, t ∈ scheduled (clock s) -> t_order t = h -> P (t_callback t).

Definition is_retry (c : Callback) : Prop := match c with retry_outbound _ | retry_after_failure _ => True | _ => False end.
Definition is_reassembly (c : Callback) : Prop := match c with expire_reassembly _ => True | _ => False end.
Definition is_settlement (c : Callback) : Prop := match c with expire_pending_inbound _ => True | _ => False end.
Definition not_deadline (c : Callback) : Prop := match c with outbound_deadline _ => False | _ => True end.

(** The tables that hold an operation's object. *)
Definition refers (o : Outbox) (r : Z) : Prop :=
  (exists k, jget k (outboundByOperation o) = Some r) \/ (exists k, jget k (pendingDataRequests o) = Some r) \/
  (exists k, jget k (responseOperations o) = Some r).

(** ** Well-formed states *)

(** A table holds an object under the object's own key. *)
Record keyed (o : Outbox) : Prop := {
  k_operations : forall k r, jget k (outboundByOperation o) = Some r ->
    o_trackingKey (objects o r) = k /\ r < nextObject o;
  k_requests : forall k r, jget k (pendingDataRequests o) = Some r ->
    dataRequestID (objects o r) = Some k /\ r < nextObject o;
  k_responses : forall k r, jget k (responseOperations o) = Some r ->
    (o_trackingKey (objects o r) = k /\ has_type (o_message (objects o r)) resource_operation = true) /\ r < nextObject o
}.

Record wf (cfg : Settings) (s : LinkTransport) : Prop := {
  wf_clock : clock_ok (clock s);
  wf_retry : forall r h, o_retryTimer (objects (outbox s) r) = Some h -> typed s h is_retry;
  wf_deadline : forall r h, o_deadlineTimer (objects (outbox s) r) = Some h -> typed s h (eq (outbound_deadline r));
  wf_pump : forall h, pumpTimer (pump_state s) = Some h -> typed s h (eq run_pump);
  wf_expiry : forall h, committedOperationExpiryTimer (ledger s) = Some h -> typed s h (eq committed_expiry);
  wf_reassembly : forall k v, (k, v) ∈ reassemblies (inbox s) -> typed s (re_timer v) is_reassembly;
  wf_pending : forall k v, (k, v) ∈ pendingInbound (inbox s) -> typed s (pi_timer v) is_settlement;
  wf_fresh : forall r, nextObject (outbox s) <= r -> o_delivery (objects (outbox s) r) = best_effort;
  wf_pair : forall p, sent_pair s = Some p -> paired s p;
  wf_keyed : keyed (outbox s);
  wf_operations : jwf (outboundByOperation (outbox s));
  wf_requests : jwf (pendingDataRequests (outbox s));
  wf_responses : jwf (responseOperations (outbox s));
  wf_committed : jwf (committedOperationIDs (ledger s));
  wf_reassemblies : jwf (reassemblies (inbox s));
  wf_room : jsize (reassemblies (inbox s)) <= reassemblyLimit cfg;
  wf_limit : 1 <= reassemblyLimit cfg;
  wf_fences : jwf (sourceFences (inbox s));
  wf_pendingInbound : jwf (pendingInbound (inbox s));
  wf_settled : jwf (settledInbound (inbox s));
  wf_sequences : jwf (taskDeliverySequences (inbox s))
}.

(** ** Changes that matter to no table *)

Record same (s s' : LinkTransport) : Prop := {
  same_clock : clock s' = clock s;
  same_operations : outboundByOperation (outbox s') = outboundByOperation (outbox s);
  same_requests : pendingDataRequests (outbox s') = pendingDataRequests (outbox s);
  same_responses : responseOperations (outbox s') = responseOperations (outbox s);
  same_next : nextObject (outbox s') = nextObject (outbox s);
  same_core : forall r, core (objects (outbox s') r) = core (objects (outbox s) r);
  same_retry : forall r h, o_retryTimer (objects (outbox s') r) = Some h -> o_retryTimer (objects (outbox s) r) = Some h;
  same_pump : forall h, pumpTimer (pump_state s') = Some h -> pumpTimer (pump_state s) = Some h;
  same_pair : forall p, sent_pair s' = Some p -> sent_pair s = Some p \/ paired s p;
  same_expiry : forall h, committedOperationExpiryTimer (ledger s') = Some h -> committedOperationExpiryTimer (ledger s) = Some h;
  same_stopped : stopped (pump_state s') = stopped (pump_state s);
  same_reassemblies : reassemblies (inbox s') = reassemblies (inbox s);
  same_fences : sourceFences (inbox s') = sourceFences (inbox s);
  same_pending : pendingInbound (inbox s') = pendingInbound (inbox s);
  same_settled : settledInbound (inbox s') = settledInbound (inbox s);
  same_sequences : taskDeliverySequences (inbox s') = taskDeliverySequences (inbox s);
  same_committed : committedOperationIDs (ledger s') = committedOperationIDs (ledger s);
  same_commits : commits s' = commits s;
  same_deliveries : deliveries s' = deliveries s
}.

#[export] Instance same_refl : Reflexive same.
Proof. intros s. split; auto. Qed.

(** A table that lost entries. *)
Definition shrinks {K V} `{EqDecision K} (m' m : list (K * V)) : Prop :=
  (jwf m -> jwf m') /\ forall k v, jget k m' = Some v -> jget k m = Some v.

Lemma shrinks_refl {K V} `{EqDecision K} (m : list (K * V)) : shrinks m m.
Proof. by split. Qed.
Lemma shrinks_jdel {K V} `{EqDecision K} k (m : list (K * V)) : jwf m -> shrinks (jdel k m) m.
Proof.
  intros Hm. split; [apply jdel_wf |]. intros k' v. rewrite jget_jdel by done. by case_decide.
Qed.
Lemma shrinks_nil {K V} `{EqDecision K} (m : list (K * V)) : shrinks [] m.
Proof. split; [intros; apply jwf_nil | done]. Qed.

Section moves.
Context (cfg : Settings).

(** A fence only moves forward, and a new one needs room. *)
Definition fence_admits (fences : list (list Z * SourceFence)) (key : list Z) (generation : Z) (session : list Z) : Prop :=
  match jget key fences with
  | Some f => f_generation f < generation \/ (f_generation f = generation /\ f_session f = session)
  | None => jsize fences < LINK_SOURCE_IDENTITY_LIMIT
  end.

(** The state after [enter_confirmed]. *)
Definition entered (r : Z) (m : Outbound) (h : Z) (c : VirtualClock Callback) (s : LinkTransport) : LinkTransport :=
  s <| commits ::= fun l => l ++ [(o_trackingKey m, time s)] |>
    <| ledger ::= fun l => l <| committedOperationIDs ::= jset (o_trackingKey m) None |> |>
    <| outbox ::= enter_tables r m |>
    <| clock := c |>
    <| outbox ::= fun o => o <| objects ::= at_key r (fun m => m <| o_deadlineTimer := Some h |>) |> |>.

Inductive quiet (s : LinkTransport) : LinkTransport -> Prop :=
  | q_same s' : same s s' -> quiet s s'
  | q_schedule delay cb h c : schedule (clock s) delay cb = Ok (h, c) -> quiet s (s <| clock := c |>)
  | q_cancel h : typed s h not_deadline -> quiet s (s <| clock ::= fun c => cancel c h |>)
  | q_cancel_deadline r h : o_deadlineTimer (objects (outbox s) r) = Some h -> ~ refers (outbox s) r ->
      quiet s (s <| clock ::= fun c => cancel c h |>)
  | q_retry_timer r h : typed s h is_retry ->
      quiet s (s <| outbox ::= fun o => o <| objects ::= at_key r (fun m => m <| o_retryTimer := Some h |>) |> |>)
  | q_pump_timer h : typed s h (eq run_pump) -> quiet s (s <| pump_state ::= fun p => p <| pumpTimer := Some h |> |>)
  | q_expiry_timer h : typed s h (eq committed_expiry) ->
      quiet s (s <| ledger ::= fun l => l <| committedOperationExpiryTimer := Some h |> |>)
  | q_shrink a b d : shrinks a (outboundByOperation (outbox s)) -> shrinks b (pendingDataRequests (outbox s)) ->
      shrinks d (responseOperations (outbox s)) ->
      quiet s (s <| outbox ::= fun o => o <| outboundByOperation := a |> <| pendingDataRequests := b |> <| responseOperations := d |> |>)
  | q_alloc m : o_retryTimer m = None -> o_deadlineTimer m = None ->
      quiet s (s <| outbox ::= fun o => o <| nextObject ::= Z.succ |> <| objects ::= at_key (nextObject o) (fun _ => m) |> |>)
  | q_enter r m h c : objects (outbox s) r = m -> r < nextObject (outbox s) ->
      jget (o_trackingKey m) (committedOperationIDs (ledger s)) = None ->
      jsize (committedOperationIDs (ledger s)) < COMMITTED_OPERATION_ID_LIMIT -> o_queuedAt m = time s ->
      schedule (clock s) (outboundDeadlineMs (o_message m) (priority (o_identity m))) (outbound_deadline r) = Ok (h, c) ->
      quiet s (entered r m h c s)
  | q_prune_committed : quiet s (s <| ledger ::= prune_ledger (time s) |>)
  | q_retain key q : jhas key (committedOperationIDs (ledger s)) = true ->
      quiet s (s <| ledger ::= fun l => l <| committedOperationIDs ::= jset key (Some (time s + COMMITTED_OPERATION_ID_RETENTION_MS)) |>
                                          <| committedOperationExpiryQueue := q |> |>)
  | q_prune_settled : quiet s (s <| inbox ::= fun i => i <| settledInbound ::= prune_settled (time s) |> |>)
  | q_settle x v : jget x (settledInbound (inbox s)) = None ->
      jhas x (pendingInbound (inbox s)) = true \/
        jsize (settledInbound (inbox s)) + jsize (pendingInbound (inbox s)) < SETTLED_INBOUND_LIMIT ->
      quiet s (s <| inbox ::= fun i => i <| settledInbound ::=
        jset x (mkSettled v (time s + COMMITTED_OPERATION_ID_RETENTION_MS) None) |> |>)
  | q_atomic x settled outcome : jget x (settledInbound (inbox s)) = Some settled ->
      quiet s (s <| inbox ::= fun i => i <| settledInbound ::= jset x (mkSettled (sd_result settled) (sd_expiresAt settled) outcome) |> |>)
  | q_settled_pending x : jhas x (settledInbound (inbox s)) = true ->
      quiet s (s <| inbox ::= fun i => i <| pendingInbound ::= jdel x |> |>)
  | q_clear_pending : stopped (pump_state s) = true -> quiet s (s <| inbox ::= fun i => i <| pendingInbound := [] |> |>)
  | q_admit x p : jget x (settledInbound (inbox s)) = None -> jget x (pendingInbound (inbox s)) = None ->
      jsize (pendingInbound (inbox s)) < confirmedLimit cfg ->
      jsize (settledInbound (inbox s)) + jsize (pendingInbound (inbox s)) < SETTLED_INBOUND_LIMIT ->
      typed s (pi_timer p) is_settlement ->
      quiet s (s <| inbox ::= fun i => i <| pendingInbound ::= jset x p |> |>)
  | q_fence key generation session : fence_admits (sourceFences (inbox s)) key generation session ->
      quiet s (s <| inbox ::= fun i => i <| sourceFences ::= jset key (mkFence generation session) |> |>)
  | q_reassemblies m : jwf m -> (forall k v, (k, v) ∈ m -> typed s (re_timer v) is_reassembly) ->
      jsize m <= reassemblyLimit cfg ->
      quiet s (s <| inbox ::= fun i => i <| reassemblies := m |> |>)
  | q_sequences m : jwf m -> jsize m <= TASK_DELIVERY_FENCE_LIMIT ->
      quiet s (s <| inbox ::= fun i => i <| taskDeliverySequences := m |> |>)
  | q_stop : quiet s (s <| pump_state ::= fun p => p <| stopped := true |> <| paused := true |> |>).

(** ** The clock under quiet moves *)

Definition clock_ext (c c' : VirtualClock Callback) : Prop :=
  current c' = current c /\ nextTimer c <= nextTimer c' /\
  forall t, t ∈ scheduled c' -> t ∈ scheduled c \/ nextTimer c <= t_order t.

#[global] Instance clock_ext_refl : Reflexive clock_ext.
Proof. intros c. repeat split; auto; lia. Qed.

Lemma clock_ext_schedule (c : VirtualClock Callback) delay cb h c' : schedule c delay cb = Ok (h, c') -> clock_ext c c'.
Proof.
  unfold schedule. case_match; [| done]. intros [= <- <-]. repeat split; cbn; try lia.
  intros t [Ht | ->%list_elem_of_singleton]%elem_of_app; cbn; [by left | right; lia].
Qed.

Lemma clock_ext_cancel (c : VirtualClock Callback) h : clock_ext c (cancel c h).
Proof. repeat split; cbn; try lia. intros t Ht%remove_timer_elem. by left. Qed.

Lemma quiet_clock s s' : quiet s s' -> clock_ext (clock s) (clock s').
Proof.
  destruct 1; try reflexivity; cbn; eauto using clock_ext_schedule, clock_ext_cancel.
  by rewrite (same_clock _ _ H).
Qed.

Lemma quiet_time s s' : quiet s s' -> time s' = time s.
Proof. by intros (H & _)%quiet_clock. Qed.

Lemma typed_ext s s' h P : clock_ext (clock s) (clock s') -> typed s h P -> typed s' h P.
Proof.
  intros (_ & Hn & Ht) [H1 H2]. split; [lia |]. intros t Hin E.
  destruct (Ht t Hin) as [Hold | ?]; [auto | lia].
Qed.

Lemma typed_weaken s h (P Q : Callback -> Prop) : (forall c, P c -> Q c) -> typed s h P -> typed s h Q.
Proof. intros HPQ [H1 H2]. split; auto. Qed.

Lemma typed_new s delay cb h c : clock_ok (clock s) -> schedule (clock s) delay cb = Ok (h, c) -> typed (s <| clock := c |>) h (eq cb).
Proof.
  intros [_ Hold]. unfold schedule. case_match; [| done]. intros [= <- <-]. split; cbn; [lia |].
  intros t [Ht | ->%list_elem_of_singleton]%elem_of_app E; [| done]. specialize (Hold t Ht). cbn in E. lia.
Qed.

Lemma clock_ok_quiet s s' : quiet s s' -> clock_ok (clock s) -> clock_ok (clock s').
Proof.
  destruct 1; cbn; eauto using clock_ok_schedule, clock_ok_cancel. by rewrite (same_clock _ _ H).
Qed.

(** ** Quiet moves keep the state well formed *)

Lemma wf_of s s' :
  wf cfg s -> clock_ok (clock s') -> clock_ext (clock s) (clock s') ->
  (forall r h, o_retryTimer (objects (outbox s') r) = Some h ->
     o_retryTimer (objects (outbox s) r) = Some h \/ typed s' h is_retry) ->
  (forall r h, o_deadlineTimer (objects (outbox s') r) = Some h ->
     o_deadlineTimer (objects (outbox s) r) = Some h \/ typed s' h (eq (outbound_deadline r))) ->
  (forall h, pumpTimer (pump_state s') = Some h -> pumpTimer (pump_state s) = Some h \/ typed s' h (eq run_pump)) ->
  (forall h, committedOperationExpiryTimer (ledger s') = Some h ->
     committedOperationExpiryTimer (ledger s) = Some h \/ typed s' h (eq committed_expiry)) ->
  (forall k v, (k, v) ∈ reassemblies (inbox s') -> (k, v) ∈ reassemblies (inbox s) \/ typed s' (re_timer v) is_reassembly) ->
  (forall k v, (k, v) ∈ pendingInbound (inbox s') -> (k, v) ∈ pendingInbound (inbox s) \/ typed s' (pi_timer v) is_settlement) ->
  (forall r, nextObject (outbox s') <= r -> o_delivery (objects (outbox s') r) = best_effort) ->
  (forall p, sent_pair s' = Some p -> paired s' p) ->
  keyed (outbox s') ->
  jwf (outboundByOperation (outbox s')) -> jwf (pendingDataRequests (outbox s')) -> jwf (responseOperations (outbox s')) ->
  jwf (committedOperationIDs (ledger s')) -> jwf (reassemblies (inbox s')) -> jsize (reassemblies (inbox s')) <= reassemblyLimit cfg -> jwf (sourceFences (inbox s')) ->
  jwf (pendingInbound (inbox s')) -> jwf (settledInbound (inbox s')) -> jwf (taskDeliverySequences (inbox s')) ->
  wf cfg s'.
Proof.
  intros [] Hc He H1 H2 H3 H4 H5 H6. intros. split; try done.
  - intros r h [?%wf_retry0 |]%H1; [by eapply typed_ext | done].
  - intros r h [?%wf_deadline0 |]%H2; [by eapply typed_ext | done].
  - intros h [?%wf_pump0 |]%H3; [by eapply typed_ext | done].
  - intros h [?%wf_expiry0 |]%H4; [by eapply typed_ext | done].
  - intros k v [?%wf_reassembly0 |]%H5; [by eapply typed_ext | done].
  - intros k v [?%wf_pending0 |]%H6; [by eapply typed_ext | done].
Qed.

(** One stored object differs. *)
Lemma at_key_eq {K V} `{EqDecision K} (k : K) (f : V -> V) table : at_key k f table k = f (table k).
Proof. unfold at_key. by rewrite decide_True. Qed.
Lemma at_key_ne {K V} `{EqDecision K} (k k' : K) (f : V -> V) table : k' <> k -> at_key k f table k' = table k'.
Proof. intros. unfold at_key. by rewrite decide_False. Qed.

Lemma prune_expired_jwf at_ rest head committed : jwf committed -> jwf (snd (prune_expired at_ rest head committed)).
Proof.
  revert head committed. induction rest as [| [k e] rest IH]; intros head committed H; cbn; [done |].
  destruct (at_ <? e); [done |]. apply IH. case_match; [by apply jdel_wf | done].
Qed.

Lemma prune_ledger_committed at_ l :
  committedOperationIDs (prune_ledger at_ l) =
  snd (prune_expired at_ (drop (Z.to_nat (committedOperationExpiryQueueHead l)) (committedOperationExpiryQueue l))
         (committedOperationExpiryQueueHead l) (committedOperationIDs l)).
Proof. unfold prune_ledger. destruct (prune_expired _ _ _ _) as [head committed]. by repeat case_match. Qed.

Lemma prune_ledger_timer at_ l : committedOperationExpiryTimer (prune_ledger at_ l) = committedOperationExpiryTimer l.
Proof. unfold prune_ledger. destruct (prune_expired _ _ _ _) as [head committed]. by repeat case_match. Qed.

Lemma prune_settled_suffix at_ m : exists gone, m = gone ++ prune_settled at_ m /\ Forall (fun p => sd_expiresAt (snd p) <= at_) gone.
Proof.
  induction m as [| [k v] m (gone & E & H)]; cbn; [by exists [] |].
  destruct (at_ <? sd_expiresAt v) eqn:Hv; [by exists [] |]. exists ((k, v) :: gone). cbn. rewrite <- E.
  split; [done |]. constructor; [cbn; lia | done].
Qed.

Lemma jwf_suffix {K V} `{EqDecision K} (a b : list (K * V)) : jwf (a ++ b) -> jwf b.
Proof. induction a as [| p a IH]; [done |]. intros H%jwf_tail. auto. Qed.

Lemma prune_settled_jwf at_ m : jwf m -> jwf (prune_settled at_ m).
Proof. destruct (prune_settled_suffix at_ m) as (gone & E & _). rewrite E at 1. apply jwf_suffix. Qed.

Lemma enter_tables_jwf r m o :
  jwf (outboundByOperation o) -> jwf (pendingDataRequests o) -> jwf (responseOperations o) ->
  let o' := enter_tables r m o in
  jwf (outboundByOperation o') /\ jwf (pendingDataRequests o') /\ jwf (responseOperations o').
Proof.
  intros ? ? ? o'. subst o'. unfold enter_tables. destruct (dataRequestID m), (has_type (o_message m) resource_operation); cbn;
    split_and!; try apply jset_wf; assumption.
Qed.

Lemma enter_tables_rest r m o :
  objects (enter_tables r m o) = objects o /\ nextObject (enter_tables r m o) = nextObject o.
Proof. unfold enter_tables. by destruct (dataRequestID m), (has_type (o_message m) resource_operation). Qed.

Lemma entered_objects r m h c s r' :
  objects (outbox (entered r m h c s)) r' =
  if decide (r' = r) then (objects (outbox s) r) <| o_deadlineTimer := Some h |> else objects (outbox s) r'.
Proof.
  unfold entered. cbn. rewrite (proj1 (enter_tables_rest r m (outbox s))). unfold at_key. by case_decide; subst.
Qed.

(** *** Tables and their keys *)

(** Where an object is looked up by [core], the rest may change. *)
Lemma core_inv m m' : core m' = core m ->
  o_message m' = o_message m /\ o_trackingKey m' = o_trackingKey m /\ o_deadlineTimer m' = o_deadlineTimer m /\
  o_queuedAt m' = o_queuedAt m /\ o_delivery m' = o_delivery m /\ priority (o_identity m') = priority (o_identity m) /\
  dataRequestID m' = dataRequestID m.
Proof. unfold core, dataRequestID. intros [= E1 E2 E3 E4 E5 E6 E7]. rewrite E1. by split_and!. Qed.

Lemma keyed_shrinks o o' :
  keyed o -> shrinks (outboundByOperation o') (outboundByOperation o) -> shrinks (pendingDataRequests o') (pendingDataRequests o) ->
  shrinks (responseOperations o') (responseOperations o) -> nextObject o <= nextObject o' ->
  (forall r, r < nextObject o -> core (objects o' r) = core (objects o r) \/
     (dataRequestID (objects o' r) = dataRequestID (objects o r) /\ o_trackingKey (objects o' r) = o_trackingKey (objects o r) /\
      o_message (objects o' r) = o_message (objects o r))) -> keyed o'.
Proof.
  intros [H1 H2 H3] [_ S1] [_ S2] [_ S3] Hn Hc.
  assert (Hk : forall r, r < nextObject o -> dataRequestID (objects o' r) = dataRequestID (objects o r) /\
    o_trackingKey (objects o' r) = o_trackingKey (objects o r) /\ o_message (objects o' r) = o_message (objects o r)).
  { intros r [(? & ? & _ & _ & _ & _ & ?)%core_inv | ?]%Hc; [by split_and! | done]. }
  split.
  - intros k r [E Hr]%S1%H1. destruct (Hk r Hr) as (_ & -> & _). split; [done | lia].
  - intros k r [E Hr]%S2%H2. destruct (Hk r Hr) as (-> & _ & _). split; [done | lia].
  - intros k r [E Hr]%S3%H3. destruct (Hk r Hr) as (_ & -> & ->). split; [done | lia].
Qed.

Lemma keyed_at_key o r f : keyed o -> (forall m, core (f m) = core m) -> keyed (o <| objects ::= at_key r f |>).
Proof.
  intros H Hf. apply (keyed_shrinks o); cbn; try apply shrinks_refl; try done; try lia.
  intros r' _. left. unfold at_key. case_decide; [by subst; apply Hf | done].
Qed.

Lemma keyed_entered r m h o :
  keyed o -> objects o r = m -> r < nextObject o ->
  keyed ((enter_tables r m o) <| objects ::= at_key r (fun m => m <| o_deadlineTimer := Some h |>) |>).
Proof.
  intros H Hm Hr. set (o1 := enter_tables r m o).
  assert (H1 : keyed o1).
  { destruct (enter_tables_rest r m o) as [E1 E2]. fold o1 in E1, E2. destruct H as [K1 K2 K3].
    split; intros k r'; rewrite E1, E2; unfold o1, enter_tables;
      destruct (dataRequestID m) as [id |] eqn:Ed, (has_type (o_message m) resource_operation) eqn:Et; cbn;
      rewrite ?jget_jset; try (by apply K1); try (by apply K2); try (by apply K3);
      case_decide; try (intros [= <-]; subst; by rewrite ?Ed, ?Et); auto. }
  apply (keyed_shrinks o1); cbn; try apply shrinks_refl; try done; try lia.
  intros r' _. right. unfold at_key. case_decide; [by subst r' | done].
Qed.

(** A move leaves the priority and the delivery of a stored message. *)
Lemma quiet_object s s' r : quiet s s' ->
  nextObject (outbox s) <= nextObject (outbox s') /\
  (r <> nextObject (outbox s) \/ nextObject (outbox s') = nextObject (outbox s) ->
   priority (o_identity (objects (outbox s') r)) = priority (o_identity (objects (outbox s) r)) /\
   o_delivery (objects (outbox s') r) = o_delivery (objects (outbox s) r)).
Proof.
  intros Hq. destruct Hq as [s' [] | | | | r0 h Ht | | | | m Hr Hdl | r0 m h c Hm Hr _ _ _ Hs | | | | | | | | | | | | ];
    try (split; [reflexivity | done]).
  - split; [lia |]. intros _. destruct (core_inv _ _ (same_core0 r)) as (_ & _ & _ & _ & ? & ? & _). done.
  - split; [reflexivity |]. intros _. cbn. unfold at_key. by case_decide; subst.
  - split; [cbn; lia |]. cbn. intros [Hn | Hn]; [| lia]. by rewrite at_key_ne.
  - split; [unfold entered; cbn; rewrite (proj2 (enter_tables_rest r0 m (outbox s))); lia |].
    intros _. rewrite entered_objects. by case_decide; subst.
Qed.

Lemma quiet_paired s s' p : quiet s s' -> paired s p -> paired s' p.
Proof.
  intros Hq [Hp1 Hp2]. destruct (quiet_object s s' (cr_report p) Hq) as [Hn Ho]. split; [lia |].
  destruct Ho as [-> _]; [left; lia | done].
Qed.

Lemma quiet_fresh s s' : quiet s s' ->
  (forall r, nextObject (outbox s) <= r -> o_delivery (objects (outbox s) r) = best_effort) ->
  forall r, nextObject (outbox s') <= r -> o_delivery (objects (outbox s') r) = best_effort.
Proof.
  intros Hq Hf r Hr. destruct (quiet_object s s' r Hq) as [Hn Ho]. destruct Ho as [_ ->]; [| apply Hf; lia].
  destruct (decide (r = nextObject (outbox s))); [right; lia | by left].
Qed.

Lemma quiet_pair s s' : quiet s s' -> (forall p, sent_pair s = Some p -> paired s p) -> forall p, sent_pair s' = Some p -> paired s' p.
Proof.
  intros Hq Hp p E. apply (quiet_paired s); [done |]. destruct Hq as [s' Hs | | | | | | | | | | | | | | | | | | | | | ]; try (by apply Hp).
  destruct (same_pair _ _ Hs p E); auto.
Qed.

Lemma quiet_wf s s' : wf cfg s -> quiet s s' -> wf cfg s'.
Proof.
  intros Hw Hq. pose proof (clock_ok_quiet _ _ Hq (wf_clock _ _ Hw)) as Hc. pose proof (quiet_clock _ _ Hq) as He.
  pose proof (quiet_fresh _ _ Hq (wf_fresh _ _ Hw)) as Hfresh. pose proof (quiet_pair _ _ Hq (wf_pair _ _ Hw)) as Hpair.
  pose proof Hw as [].
  destruct Hq as [s' [] | | | | r h Ht | | | a b d Ha Hb Hd | m Hr Hdl | r m h c Hm Hr _ _ _ Hs | | key q | | x v | x settled outcome Hset
                 | x | | x p _ _ _ _ Hp | key g se | m Hm Ht Hb | m Hm | ];
    apply (wf_of s); auto; cbn; auto using jset_wf, jdel_wf, jwf_nil, prune_settled_jwf, keyed_entered;
    try congruence; try by left.
  - intros r h Hh. left. pose proof (same_core0 r) as Hr. unfold core in Hr. congruence.
  - intros k v Hkv. left. congruence.
  - intros k v Hkv. left. congruence.
  - apply (keyed_shrinks (outbox s)); try done; [| | | lia | by left];
      [rewrite same_operations0 | rewrite same_requests0 | rewrite same_responses0]; apply shrinks_refl.
  - intros r' h'. unfold at_key. case_decide; cbn; [intros [= <-]; by right | by left].
  - intros r' h'. unfold at_key. case_decide; cbn; [subst; by left | by left].
  - apply (keyed_shrinks (outbox s)); cbn; try apply shrinks_refl; try done; try lia.
    intros r' _. left. unfold at_key. by case_decide; subst.
  - intros h' [= <-]. by right.
  - intros h' [= <-]. by right.
  - apply (keyed_shrinks (outbox s)); try done. cbn. by left.
  - by apply Ha.
  - by apply Hb.
  - by apply Hd.
  - intros r' h'. unfold at_key. case_decide; [congruence | by left].
  - intros r' h'. unfold at_key. case_decide; [congruence | by left].
  - apply (keyed_shrinks (outbox s)); cbn; try apply shrinks_refl; try done; [lia |].
    intros r' Hr'. left. by rewrite at_key_ne by lia.
  - intros r' h' E. assert (E' : o_retryTimer (objects (outbox (entered r m h c s)) r') = Some h') by exact E.
    left. rewrite entered_objects in E'. by case_decide; subst.
  - intros r' h' E. assert (E' : o_deadlineTimer (objects (outbox (entered r m h c s)) r') = Some h') by exact E.
    rewrite entered_objects in E'. case_decide; cbn in E'; [| by left]. subst r'. injection E' as <-. right.
    exact (typed_new s _ _ _ _ wf_clock0 Hs).
  - pose proof (keyed_entered r m h (outbox s) wf_keyed0 Hm Hr) as K. unfold assign in K. exact K.
  - by apply enter_tables_jwf.
  - by apply enter_tables_jwf.
  - by apply enter_tables_jwf.
  - intros h. rewrite prune_ledger_timer. by left.
  - rewrite prune_ledger_committed. by apply prune_expired_jwf.
  - intros k v Hkv%elem_of_jdel_weak. by left.
  - intros k v ?%elem_of_nil. done.
  - intros k v [[= -> ->] | ?]%elem_of_jset; [by right | by left].
  - intros k v Hkv. right. by apply (Ht k).
Qed.

Lemma quiets_wf s s' : wf cfg s -> rtc quiet s s' -> wf cfg s'.
Proof. intros Hw H. induction H; eauto using quiet_wf. Qed.

Lemma quiets_clock s s' : rtc quiet s s' -> clock_ext (clock s) (clock s').
Proof.
  induction 1 as [| s t u H _ IH]; [reflexivity |]. apply quiet_clock in H.
  destruct H as (E1 & N1 & T1), IH as (E2 & N2 & T2). repeat split; [congruence | lia |].
  intros x [Hx | ?]%T2; [by apply T1 | right; lia].
Qed.

Lemma quiets_time s s' : rtc quiet s s' -> time s' = time s.
Proof. by intros (H & _)%quiets_clock. Qed.

Lemma quiets_typed s s' h P : rtc quiet s s' -> typed s h P -> typed s' h P.
Proof. intros H%quiets_clock. by apply typed_ext. Qed.

Lemma quiets_paired s s' p : rtc quiet s s' -> paired s p -> paired s' p.
Proof. induction 1; eauto using quiet_paired. Qed.

Lemma quiets_stopped s s' : rtc quiet s s' -> stopped (pump_state s) = true -> stopped (pump_state s') = true.
Proof.
  induction 1 as [| s t u H _ IH]; [done |]. intros Hs. apply IH. destruct H; try exact Hs; [| done].
  by rewrite (same_stopped _ _ H).
Qed.
End moves.
