(* ===== verification/TransportRefines.v ===== *)
(** * The transport: every operation is a sequence of moves

    The refinement of the transition system of [TransportMoves] by the code:
    every call, every callback of a timer and every answer of the radio, with
    listeners that call back, changes a well-formed object by quiet moves. *)

From Stdlib Require Import ZArith Lia String.
From stdpp Require Import base list option relations.
From S2P Require Import Prelude JsMap BinaryIO Wtf8 Json CompactValue Compression LinkTypes Frame Contract StateDelta Picture PictureProjection JsState Clock TransportState TransportBase TransportOut TransportPump TransportIn Transport TransportMoves.

#[local] Arguments jset : simpl never.
#[local] Arguments jdel : simpl never.
#[local] Arguments jget : simpl never.
#[local] Arguments jsize : simpl never.
#[local] Arguments jhas : simpl never.
#[local] Arguments assign : simpl never.

Definition quietly (cfg : Settings) (s s' : LinkTransport) : Prop := wf cfg s -> rtc (quiet cfg) s s'.

#[export] Instance quietly_preorder cfg : PreOrder (quietly cfg).
Proof.
  split; [intros s _; constructor |]. intros s t u H1 H2 Hw. etrans; [by apply H1 |].
  apply H2. by eapply quiets_wf; [| apply H1].
Qed.

(** ** Access to the state *)

(** The step [m] taken in the state [s]. *)
Definition quietly_at (cfg : Settings) {A} (m : T A) (s : LinkTransport) : Prop := quietly cfg s (snd (m s)).

Section access.
Context {cfg : Settings}.
Abbreviation Q := (keeps (quietly cfg)) (only parsing).

Lemma q_once s s' : (wf cfg s -> quiet cfg s s') -> quietly cfg s s'.
Proof. intros H Hw. by apply rtc_once, H. Qed.

Lemma keeps_same f : (forall s, same s (f s)) -> Q (modify f).
Proof. intros H s. apply q_once. intros _. by constructor. Qed.

(** A value read is known to be the state's. *)
Lemma keeps_read {A B} (f : LinkTransport -> A) (k : A -> T B) :
  (forall s, wf cfg s -> quietly_at cfg (k (f s)) s) -> Q (bind_eff (gets f) k).
Proof. intros H s Hw. by apply H. Qed.

Lemma at_keeps {A} (m : T A) s : Q m -> quietly_at cfg m s.
Proof. intros H. apply H. Qed.

Lemma at_bind {A B} (m : T A) (k : A -> T B) s :
  quietly_at cfg m s -> (forall a s1, wf cfg s -> rtc (quiet cfg) s s1 -> wf cfg s1 -> m s = (Ok a, s1) -> quietly_at cfg (k a) s1) ->
  quietly_at cfg (bind_eff m k) s.
Proof.
  intros Hm Hk Hw. unfold bind_eff. specialize (Hm Hw). destruct (m s) as [[a | e] s1] eqn:E; [| done].
  cbn in *. etrans; [done |]. assert (Hw1 : wf cfg s1) by (by eapply quiets_wf). by apply Hk.
Qed.

Lemma at_now {B} (k : Z -> T B) s : quietly_at cfg (k (time s)) s -> quietly_at cfg (bind_eff now k) s.
Proof. done. Qed.

Lemma at_gets {A B} (f : LinkTransport -> A) (k : A -> T B) s :
  quietly_at cfg (k (f s)) s -> quietly_at cfg (bind_eff (gets f) k) s.
Proof. done. Qed.

Record outbox_same (o o' : Outbox) : Prop := {
  os_operations : outboundByOperation o' = outboundByOperation o;
  os_requests : pendingDataRequests o' = pendingDataRequests o;
  os_responses : responseOperations o' = responseOperations o;
  os_next : nextObject o' = nextObject o;
  os_core : forall r, core (objects o' r) = core (objects o r);
  os_retry : forall r h, o_retryTimer (objects o' r) = Some h -> o_retryTimer (objects o r) = Some h
}.

Lemma upd_outbox_quiet f : (forall o, outbox_same o (f o)) -> Q (upd_outbox f).
Proof. intros H. apply keeps_same. intros s. destruct (H (outbox s)). split; try done. by left. Qed.

Lemma upd_obj_quiet r f :
  (forall m, core (f m) = core m) -> (forall m h, o_retryTimer (f m) = Some h -> o_retryTimer m = Some h) -> Q (upd_obj r f).
Proof.
  intros H1 H2. apply upd_outbox_quiet. intros o. split; try done; intros r'; cbn; unfold assign, at_key; cbn;
    case_decide; subst; auto.
Qed.

Lemma upd_pump_quiet f :
  (forall p, stopped (f p) = stopped p) -> (forall p h, pumpTimer (f p) = Some h -> pumpTimer p = Some h) ->
  (forall p, sending (f p) = sending p \/ sending (f p) = None) -> Q (upd_pump f).
Proof.
  intros H1 H2 H3. apply keeps_same. intros s. split; try done; cbn; unfold assign; cbn; auto.
  intros p. unfold sent_pair. cbn. destruct (H3 (pump_state s)) as [-> | ->]; [by left | done].
Qed.

Lemma upd_ledger_quiet f :
  (forall l, committedOperationIDs (f l) = committedOperationIDs l) ->
  (forall l h, committedOperationExpiryTimer (f l) = Some h -> committedOperationExpiryTimer l = Some h) -> Q (upd_ledger f).
Proof. intros H1 H2. apply keeps_same. intros s. split; try done; try (by left); cbn; unfold assign; cbn; auto. Qed.

Lemma upd_inbox_quiet f :
  (forall i, reassemblies (f i) = reassemblies i /\ sourceFences (f i) = sourceFences i /\ pendingInbound (f i) = pendingInbound i /\
             settledInbound (f i) = settledInbound i /\ taskDeliverySequences (f i) = taskDeliverySequences i) -> Q (upd_inbox f).
Proof. intros H. apply keeps_same. intros s. destruct (H (inbox s)) as (? & ? & ? & ? & ?). split; try done. by left. Qed.

Lemma shrink_quiet s (f : Outbox -> Outbox) :
  let o := outbox s in
  shrinks (outboundByOperation (f o)) (outboundByOperation o) -> shrinks (pendingDataRequests (f o)) (pendingDataRequests o) ->
  shrinks (responseOperations (f o)) (responseOperations o) ->
  f o = o <| outboundByOperation := outboundByOperation (f o) |> <| pendingDataRequests := pendingDataRequests (f o) |>
          <| responseOperations := responseOperations (f o) |> ->
  quietly_at cfg (upd_outbox f) s.
Proof.
  intros o H1 H2 H3 E. subst o. apply q_once. intros _. cbn. unfold assign at 1. cbn. rewrite E. by apply (q_shrink cfg s).
Qed.

Lemma keeps_throw {A} e : Q (@throw LinkTransport A e).
Proof. intros s Hw. constructor. Qed.

Lemma keeps_schedule delay cb : Q (schedule_timer delay cb).
Proof.
  intros s. apply q_once. intros _. unfold schedule_timer.
  destruct (schedule (clock s) delay cb) as [[h c] | e] eqn:E; cbn; [by eapply q_schedule | by constructor].
Qed.

Lemma at_cancel h s : typed s h not_deadline -> quietly_at cfg (cancel_timer h) s.
Proof. intros H. apply q_once. intros _. by apply q_cancel. Qed.

(** A timer just scheduled is of its callback's kind. *)
Lemma schedule_typed delay cb s h s1 : wf cfg s -> schedule_timer delay cb s = (Ok h, s1) -> typed s1 h (eq cb).
Proof.
  intros Hw. unfold schedule_timer. destruct (schedule (clock s) delay cb) as [[h' c] | e] eqn:E; [| done].
  intros [= <- <-]. by apply (typed_new _ _ _ _ _ (wf_clock _ _ Hw) E).
Qed.
End access.

(** Whether a change touches what matters. *)
Ltac framed :=
  intros; unfold assign; cbn;
  lazymatch goal with
  | |- outbox_same _ _ => split; try reflexivity; try done
  | |- _ /\ _ => split_and!; reflexivity
  | _ => try reflexivity; try done; try (intros; congruence); try (by left); try (by right)
  end.

Create HintDb quiet.
#[export] Hint Resolve keeps_throw keeps_schedule : quiet.

Ltac quiet_step :=
  lazymatch goal with
  | |- keeps _ (bind_eff _ _) => apply keeps_bind; [exact _ | | intros ?]
  | |- keeps _ (if ?b then _ else _) => destruct b
  | |- keeps _ (match ?x with _ => _ end) => destruct x
  | |- keeps _ (when_ ?b _) => unfold when_
  | |- keeps _ (unless ?b _) => unfold unless
  | |- keeps _ (for_each _ _) => apply keeps_for_each; [exact _ | intros ? _]
  | |- keeps _ (ret _) => apply keeps_ret; exact _
  | |- keeps _ (gets _) => apply keeps_gets; exact _
  | |- keeps _ (lift _) => apply keeps_lift; exact _
  | |- keeps _ (upd_outbox _) => apply upd_outbox_quiet; framed
  | |- keeps _ (upd_obj _ _) => apply upd_obj_quiet; framed
  | |- keeps _ (upd_pump _) => apply upd_pump_quiet; framed
  | |- keeps _ (upd_ledger _) => apply upd_ledger_quiet; framed
  | |- keeps _ (upd_inbox _) => apply upd_inbox_quiet; framed
  | |- keeps _ (modify _) => apply keeps_same; intros; split; framed
  | |- keeps _ (let _ := _ in _) => cbv zeta
  | |- _ => fail "not a step"
  end.
(** The test a step makes on what it read. *)
Ltac at_case :=
  cbv beta zeta;
  lazymatch goal with
  | |- quietly_at _ (if ?b then _ else _) _ => destruct b eqn:?
  | |- quietly_at _ (match ?x with _ => _ end) _ => destruct x eqn:?
  end.
Ltac quiets := repeat first [solve [auto with quiet] | quiet_step].

(** ** The books *)

Section base.
Context {zlib : Zlib} {validators : Validators} {host : Host} (cfg : Settings).
Context (listener : Signal -> T unit) (Hlistener : forall signal, keeps (quietly cfg) (listener signal)).
Abbreviation Q := (keeps (quietly cfg)) (only parsing).

Lemma q_fresh_id : Q fresh_id.
Proof. intros s. apply q_once. intros _. constructor. split; try done. by left. Qed.

Lemma q_tell sig : delivery_of sig = None -> Q (tell listener sig).
Proof.
  intros Hsig s. unfold tell. etrans; [| apply Hlistener]. apply q_once. intros _. constructor.
  split; try done; [by left |]. unfold deliveries. cbn. unfold assign. cbn. rewrite omap_app. cbn. by rewrite Hsig, app_nil_r.
Qed.

Lemma q_emit e : match e with on_message _ => False | _ => True end -> Q (emit listener e).
Proof. intros H. apply q_tell. by destruct e. Qed.

Lemma q_capacity : Q (emitCapacityAvailable listener).
Proof. by apply q_tell. Qed.

Lemma q_response_del key : Q (upd_outbox (fun o => o <| responseOperations ::= jdel key |>)).
Proof.
  intros s Hw. apply (shrink_quiet s (fun o => o <| responseOperations ::= jdel key |>));
    [apply shrinks_refl | apply shrinks_refl | apply shrinks_jdel, Hw | by destruct (outbox s) | done].
Qed.
Hint Resolve q_fresh_id q_capacity q_response_del : quiet.

Lemma q_evict left : Q (evict_results left).
Proof.
  induction left as [| left IH]; [apply keeps_ret; exact _ |]. cbn [evict_results].
  quiets.
Qed.
Hint Resolve q_evict : quiet.

Lemma q_recordOperation r key : Q (recordOperation r key).
Proof. unfold recordOperation, count. quiets. Qed.
Hint Resolve q_recordOperation : quiet.

Lemma q_emit_operation r : Q (emit listener (on_operation r)).
Proof. by apply q_emit. Qed.
Hint Resolve q_emit_operation : quiet.

Lemma q_failedResult a b c : Q (failedResult listener a b c).
Proof. unfold failedResult, now. quiets. Qed.

Lemma q_recordOperationTiming o : Q (recordOperationTiming o).
Proof. unfold recordOperationTiming, now, observe. quiets. Qed.

Lemma q_prune : Q pruneCommittedOperationIDs.
Proof. apply keeps_read. intros s Hw. apply q_once. intros _. apply q_prune_committed. Qed.

Lemma q_prune_inbound : Q pruneSettledInbound.
Proof. apply keeps_read. intros s Hw. apply q_once. intros _. apply q_prune_settled. Qed.

Lemma at_cancel_optional h s : (forall t, h = Some t -> typed s t not_deadline) -> quietly_at cfg (cancel_optional h) s.
Proof. intros H. destruct h as [t |]; [by apply at_cancel, H | apply at_keeps, keeps_ret; exact _]. Qed.

Lemma at_store_expiry h s : typed s h (eq committed_expiry) ->
  quietly_at cfg (upd_ledger (fun l => l <| committedOperationExpiryTimer := Some h |>)) s.
Proof. intros H. apply q_once. intros _. by apply q_expiry_timer. Qed.

Lemma expiry_not_deadline c : committed_expiry = c -> not_deadline c.
Proof. by intros <-. Qed.

Lemma q_wakeup : Q scheduleCommittedOperationExpiryWakeup.
Proof.
  apply keeps_read. intros s Hw. at_case; [apply at_keeps; quiets |].
  at_case; [| apply at_keeps; quiets]. at_case. at_case; [apply at_keeps; quiets |].
  apply at_bind; [apply at_cancel_optional; intros t Ht; eapply typed_weaken, wf_expiry; eauto using expiry_not_deadline |].
  intros _ s1 _ Hq1 Hw1 _. apply at_bind; [apply at_keeps; quiets |]. intros _ s2 _ _ Hw2 _.
  apply at_now. apply at_bind; [apply at_keeps; quiets |]. intros h s3 _ _ Hw3 E. apply at_store_expiry. exact (schedule_typed _ _ _ _ _ Hw2 E).
Qed.
Hint Resolve q_failedResult q_recordOperationTiming q_prune q_prune_inbound q_wakeup : quiet.

Lemma q_committedExpiryWakeup : Q (committedExpiryWakeup listener).
Proof. unfold committedExpiryWakeup. quiets. Qed.

Lemma q_retainCompletedOperation key : Q (retainCompletedOperation key).
Proof.
  apply keeps_read. intros s Hw. case_match eqn:Hk; [apply at_keeps; quiets |]. apply negb_false_iff in Hk.
  apply at_now.
  apply at_bind; [| intros; apply at_keeps; quiets].
  apply q_once. intros _. cbn. unfold assign. cbn. by apply (q_retain cfg s key).
Qed.

Lemma q_recordSettledInbound x v : Q (recordSettledInbound x v).
Proof.
  unfold recordSettledInbound. apply keeps_bind; [exact _ | quiets |]. intros _.
  apply keeps_read. intros s Hw. case_match eqn:Hx; [apply at_keeps; quiets |]. case_match eqn:Hg; [apply at_keeps; quiets |].
  apply at_now.
  apply q_once. intros _. apply (q_settle cfg s x v); [by apply jhas_false |].
  apply andb_false_iff in Hg as [Hg%negb_false_iff | Hg%Z.leb_gt]; [by left | right; lia].
Qed.

(** What is recorded is settled, unless there was neither a reservation nor room. *)
Lemma recordSettled_result x v s :
  jhas x (settledInbound (inbox (snd (recordSettledInbound x v s)))) = true \/
  jhas x (pendingInbound (inbox (snd (recordSettledInbound x v s)))) = false.
Proof.
  unfold recordSettledInbound, pruneSettledInbound, now, upd_inbox, modify, gets, bind_eff, ret. cbn.
  case_match eqn:Hx; [by left |]. case_match eqn:Hg; cbn; unfold assign; cbn.
  - right. apply andb_true_iff in Hg as [Hg%negb_true_iff _]. exact Hg.
  - left. rewrite jhas_jset. by rewrite bool_decide_true.
Qed.
End base.

#[export] Hint Resolve q_fresh_id q_capacity q_response_del q_evict q_recordOperation q_emit_operation q_failedResult
  q_recordOperationTiming q_prune q_prune_inbound q_wakeup q_committedExpiryWakeup q_retainCompletedOperation
  q_recordSettledInbound : quiet.
