(* ===== verification/TransportOutMoves.v ===== *)
(** * The transport: sending is made of moves

    The refinement of [TransportMoves] by the operations of [TransportOut]. *)

From Stdlib Require Import ZArith Lia String.
From stdpp Require Import base list option relations.
From S2P Require Import Prelude JsMap BinaryIO Wtf8 Json CompactValue Compression LinkTypes Frame Contract StateDelta Picture JsState Clock TransportState TransportBase TransportOut TransportPump TransportMoves TransportRefines.



#[local] Arguments jset : simpl never.
#[local] Arguments jdel : simpl never.
#[local] Arguments jget : simpl never.
#[local] Arguments jsize : simpl never.
#[local] Arguments jhas : simpl never.
#[local] Arguments assign : simpl never.

Section out.
Context {zlib : Zlib} {validators : Validators} {host : Host} (cfg : Settings).
Context (listener : Signal -> T unit) (Hlistener : forall signal, keeps (quietly cfg) (listener signal)).
Abbreviation Q := (keeps (quietly cfg)) (only parsing).

Lemma q_requestPump delay : Q (requestPump delay).
Proof.
  unfold requestPump. apply keeps_bind; [exact _ | quiets | intros p]. destruct (_ || _ || _ || _); [quiets |].
  apply keeps_bind; [exact _ | quiets |]. intros _ s Hw. apply at_bind; [apply at_keeps; quiets | | done].
  intros h s1 _ _ _ E. apply q_once. intros _. apply q_pump_timer. exact (schedule_typed _ _ _ _ _ Hw E).
Qed.
Hint Resolve q_requestPump : quiet.

Lemma q_remove_from_queue r : Q (remove_from_queue r).
Proof. unfold remove_from_queue. quiets. Qed.
Lemma q_push_queue r : Q (push_queue r).
Proof. unfold push_queue. quiets. Qed.

Lemma at_key_core r f o :
  (forall m, core (f m) = core m) -> forall r', core (at_key r f (objects o) r') = core (objects o r').
Proof. intros H r'. unfold at_key. case_decide; auto. Qed.

Lemma q_reorder r : Q (reorder r).
Proof.
  apply upd_outbox_quiet. intros o. split; try reflexivity; intros r'; unfold assign; cbn; unfold at_key; by case_decide; subst.
Qed.
Lemma q_release_object r : Q (release_object r).
Proof. apply upd_outbox_quiet. intros o. case_match; split; try reflexivity; done. Qed.
Hint Resolve q_remove_from_queue q_push_queue q_reorder q_release_object : quiet.

Lemma q_requeue r : Q (requeue r).
Proof. unfold requeue. quiets. Qed.
Lemma q_failBestEffort r reason : Q (failBestEffort listener r reason).
Proof. unfold failBestEffort, obj, now. quiets. Qed.
Lemma q_replaceQueuedBestEffort key : Q (replaceQueuedBestEffort listener key).
Proof. unfold replaceQueuedBestEffort, obj, now, count. quiets. Qed.
Hint Resolve q_requeue q_failBestEffort q_replaceQueuedBestEffort : quiet.

(** ** The end of an operation *)

Lemma at_cancel_retry r s : wf cfg s -> quietly_at cfg (cancel_optional (o_retryTimer (objects (outbox s) r))) s.
Proof.
  intros Hw. apply at_cancel_optional. intros t Ht. eapply typed_weaken, (wf_retry _ _ Hw _ _ Ht). by intros [].
Qed.

(** The object leaves the tables. *)
Definition drop_tables (r : Z) (m : Outbound) (confirmed_ : bool) (o : Outbox) : Outbox :=
  let o := o <| outboundByOperation ::= jdel (o_trackingKey m) |> in
  let o := match dataRequestID m with
           | Some id => if bool_decide (jget id (pendingDataRequests o) = Some r) then o <| pendingDataRequests ::= jdel id |> else o
           | None => o
           end in
  if confirmed_ then o else o <| responseOperations ::= jdel (o_trackingKey m) |>.

Definition silenced (h : option Z) (s : LinkTransport) : LinkTransport := snd (cancel_optional h s).

(** The state [completeOutbound] has reached when the object has left the
    tables and the clock, and what it still does. *)
Definition ended (r : Z) (status : LinkOperationStatus) (s : LinkTransport) : LinkTransport :=
  let m := objects (outbox s) r in
  silenced (o_deadlineTimer m)
    ((silenced (o_retryTimer m) s) <| outbox ::= drop_tables r m (bool_decide (status = op_confirmed)) |>).

Definition after_tables (r : Z) (m : Outbound) (status : LinkOperationStatus) (reason : option (list Z)) : T unit :=
  do! _ := remove_from_queue r in
  do! o := gets outbox in
  let releasedObject := bool_decide (activeObjectMessageID o = Some (message_id (o_identity m))) in
  do! _ := release_object r in
  do! at_ := now in
  let result := settled_result (o_operationID m) status reason (Some at_) in
  do! _ := retainCompletedOperation (o_trackingKey m) in
  do! _ := recordOperationTiming m in
  do! _ := recordOperation result (o_trackingKey m) in
  do! _ := emit listener (on_operation result) in
  do! o := gets outbox in
  when_ (releasedObject && hasEligibleOutbound o) (requestPump 0).

Lemma completeOutbound_ended r status reason s :
  completeOutbound listener r status reason s = after_tables r (objects (outbox s) r) status reason (ended r status s).
Proof.
  unfold completeOutbound, ended, drop_tables, silenced, obj, unless. unfold bind_eff at 1. cbn [gets].
  destruct (objects (outbox s) r) as [? ? ? ? ? ? ? ? [h |] [h' |] ? ? ? ? ? ? ? ? ?], (dataRequestID _), (bool_decide (status = op_confirmed));
    reflexivity.
Qed.

Lemma keeps_wf_at {A} (m : T A) s : Q m -> wf cfg s -> rtc (quiet cfg) s (snd (m s)).
Proof. intros H. apply H. Qed.

Lemma resource_is_no_request m : has_type (o_message m) resource_operation = true -> dataRequestID m = None.
Proof.
  unfold dataRequestID, has_type, is_text. destruct (prop (o_message m) "type") as [[] |]; try done. cbn.
  intros H%bool_decide_eq_true. by rewrite bool_decide_false by (subst; vm_compute; congruence).
Qed.

Lemma drop_tables_rest r m c o :
  objects (drop_tables r m c o) = objects o /\ nextObject (drop_tables r m c o) = nextObject o.
Proof. unfold drop_tables. by repeat case_match. Qed.

Lemma drop_tables_shape r m c o :
  drop_tables r m c o = o <| outboundByOperation := outboundByOperation (drop_tables r m c o) |>
    <| pendingDataRequests := pendingDataRequests (drop_tables r m c o) |>
    <| responseOperations := responseOperations (drop_tables r m c o) |>.
Proof. unfold drop_tables. destruct o. by repeat case_match. Qed.

Lemma drop_tables_shrinks r m c o :
  jwf (outboundByOperation o) -> jwf (pendingDataRequests o) -> jwf (responseOperations o) ->
  let o' := drop_tables r m c o in
  shrinks (outboundByOperation o') (outboundByOperation o) /\ shrinks (pendingDataRequests o') (pendingDataRequests o) /\
  shrinks (responseOperations o') (responseOperations o).
Proof.
  intros ? ? ? o'. subst o'. unfold drop_tables.
  split_and!; repeat case_match; unfold assign; cbn; first [apply shrinks_refl | by apply shrinks_jdel].
Qed.

Lemma drop_tables_gone r o c :
  keyed o -> jwf (outboundByOperation o) -> jwf (pendingDataRequests o) -> jwf (responseOperations o) ->
  (c = true -> has_type (o_message (objects o r)) resource_operation = false) ->
  ~ refers (drop_tables r (objects o r) c o) r.
Proof.
  intros [K1 K2 K3] W1 W2 W3 Hc. set (m := objects o r). set (o' := drop_tables r m c o).
  assert (E1 : outboundByOperation o' = jdel (o_trackingKey m) (outboundByOperation o)) by (unfold o', drop_tables; by repeat case_match).
  intros [(k & Hk) | [(k & Hk) | (k & Hk)]].
  - rewrite E1, jget_jdel in Hk by done. case_decide as E; [done |]. apply K1 in Hk as [Hk _]. by subst k m.
  - assert (Hd : jget k (pendingDataRequests o) = Some r) by (by apply (drop_tables_shrinks r m c o W1 W2 W3)).
    destruct (K2 _ _ Hd) as [Ed _]. revert Hk. unfold o', drop_tables. fold m in Ed. rewrite Ed. unfold assign. cbn.
    rewrite bool_decide_true by done. case_match; cbn; by rewrite jget_jdel_eq.
  - assert (Hd : jget k (responseOperations o) = Some r) by (by apply (drop_tables_shrinks r m c o W1 W2 W3)).
    destruct (K3 _ _ Hd) as [[Ed Et] _]. destruct c; [by rewrite Hc in Et |].
    revert Hk. unfold o', drop_tables. unfold assign. cbn. rewrite jget_jdel by (by repeat case_match).
    by rewrite decide_True by done.
Qed.

(** The object ends: it is in no table, and its timers are gone. *)
Lemma ended_quiet r status s :
  wf cfg s -> (status = op_confirmed -> has_type (o_message (objects (outbox s) r)) resource_operation = false) ->
  rtc (quiet cfg) s (ended r status s) /\ ~ refers (outbox (ended r status s)) r.
Proof.
  intros Hw Hst. set (m := objects (outbox s) r). set (s0 := silenced (o_retryTimer m) s).
  assert (Q0 : rtc (quiet cfg) s s0) by (by apply at_cancel_retry).
  assert (E0 : outbox s0 = outbox s) by (unfold s0, silenced; by destruct (o_retryTimer m)).
  assert (W0 : wf cfg s0) by (by eapply quiets_wf).
  set (c := bool_decide (status = op_confirmed)). set (s1 := s0 <| outbox ::= drop_tables r m c |>).
  assert (Eo : outbox s1 = drop_tables r m c (outbox s)) by (unfold s1, assign; cbn; by rewrite E0).
  destruct (drop_tables_shrinks r m c (outbox s0)) as (S1 & S2 & S3); [apply W0.. |].
  assert (Q1 : rtc (quiet cfg) s0 s1).
  { apply (shrink_quiet s0 (drop_tables r m c)); try done. apply drop_tables_shape. }
  assert (N1 : ~ refers (outbox s1) r).
  { rewrite Eo. apply drop_tables_gone; try apply Hw. intros Hc%bool_decide_eq_true. auto. }
  change (ended r status s) with (silenced (o_deadlineTimer m) s1). unfold silenced.
  destruct (o_deadlineTimer m) as [h |] eqn:Ed; cbn; [| split; [by etrans | done]].
  split; [| done]. etrans; [exact Q0 |]. etrans; [exact Q1 |]. apply rtc_once.
  apply (q_cancel_deadline cfg s1 r h); [| done]. by rewrite Eo, (proj1 (drop_tables_rest r m c (outbox s))).
Qed.

Lemma q_after_tables r m status reason : Q (after_tables r m status reason).
Proof. unfold after_tables, now. quiets. Qed.

Lemma at_completeOutbound r status reason s :
  (status = op_confirmed -> has_type (o_message (objects (outbox s) r)) resource_operation = false) ->
  quietly_at cfg (completeOutbound listener r status reason) s.
Proof.
  intros Hst Hw. rewrite completeOutbound_ended. destruct (ended_quiet r status s Hw Hst) as [Hq _].
  etrans; [exact Hq |]. apply keeps_wf_at; [apply q_after_tables | by eapply quiets_wf].
Qed.

Lemma q_completeOutbound r status reason : status <> op_confirmed -> Q (completeOutbound listener r status reason).
Proof. intros Hs s. by apply at_completeOutbound. Qed.

Hint Extern 1 (_ <> _) => discriminate : quiet.
Hint Resolve q_completeOutbound : quiet.

Lemma q_confirmAwaitingResponseTransport r : Q (confirmAwaitingResponseTransport listener r).
Proof.
  apply keeps_read. intros s Hw. apply at_bind; [by apply at_cancel_retry |]. intros _ s1 _ _ Hw1 _.
  apply at_bind; [apply at_keeps; quiets |]. intros _ s2 _ _ Hw2 _. apply at_bind; [| intros; apply at_keeps; quiets].
  apply (shrink_quiet s2 (fun o => o <| outboundByOperation ::= jdel (o_trackingKey (objects (outbox s) r)) |>));
    [apply shrinks_jdel, Hw2 | apply shrinks_refl | apply shrinks_refl | by destruct (outbox s2)].
Qed.

Lemma q_outboundDeadline r : Q (outboundDeadline listener r).
Proof.
  unfold outboundDeadline, obj, count. quiets.
Qed.
Hint Resolve q_confirmAwaitingResponseTransport q_outboundDeadline : quiet.

(** ** Preparing *)

(** A prepared message may be taken in this state. *)
Record ready (p : PreparedOutbound) (s : LinkTransport) : Prop := {
  rd_retry : o_retryTimer (po_outbound p) = None;
  rd_deadline : o_deadlineTimer (po_outbound p) = None;
  rd_fresh : o_delivery (po_outbound p) = confirmed ->
    jget (o_trackingKey (po_outbound p)) (committedOperationIDs (ledger s)) = None /\
    jsize (committedOperationIDs (ledger s)) < COMMITTED_OPERATION_ID_LIMIT /\ o_queuedAt (po_outbound p) = time s
}.

Lemma ready_frame p s s' :
  committedOperationIDs (ledger s') = committedOperationIDs (ledger s) -> time s' = time s -> ready p s -> ready p s'.
Proof. intros E1 E2 []. split; try done. by rewrite E1, E2. Qed.

Lemma q_outboundIdentity m target op sequence : Q (outboundIdentity cfg m target op sequence).
Proof. unfold outboundIdentity. quiets. Qed.
Lemma q_operationIDFor m target : Q (operationIDFor m target).
Proof. unfold operationIDFor. quiets. Qed.
Hint Resolve q_outboundIdentity q_operationIDFor : quiet.

Lemma q_prepare_frames m target op use radio capacity sequence reserved existing :
  Q (prepare_frames cfg m target op use radio capacity sequence reserved existing).
Proof. unfold prepare_frames. quiets. Qed.
Hint Resolve q_prepare_frames : quiet.

Lemma q_prepare_checked m target op use radio capacity sequence reserved existing :
  Q (prepare_checked cfg m target op use radio capacity sequence reserved existing).
Proof. unfold prepare_checked. quiets. Qed.
Hint Resolve q_prepare_checked : quiet.

Lemma q_prepareOutbound m options use radio capacity sequence reserved :
  Q (prepareOutbound cfg m options use radio capacity sequence reserved).
Proof. unfold prepareOutbound. quiets. Qed.
Hint Resolve q_prepareOutbound : quiet.

Lemma prepare_frames_ready m target op use radio capacity sequence reserved existing s p s1 :
  prepare_frames cfg m target op use radio capacity sequence reserved existing s = (Ok (prep_ready p), s1) ->
  let o := po_outbound p in
  o_retryTimer o = None /\ o_deadlineTimer o = None /\ o_trackingKey o = op /\ o_message o = m /\
  o_delivery o = deliveryClass m /\ o_coalescingKey o = coalescingKey m /\ o_queuedAt o = time s /\
  ledger s1 = ledger s /\ clock s1 = clock s /\ inbox s1 = inbox s.
Proof.
  unfold prepare_frames. destruct (serializeLinkMessage _) as [payload | e]; [| done].
  unfold bind_eff at 1.
  destruct ((match reserved with Some i => ret i | None => outboundIdentity cfg m target op sequence end) s)
    as [[i | e] s0] eqn:Ei; [| done].
  assert (E0 : ledger s0 = ledger s /\ clock s0 = clock s /\ inbox s0 = inbox s).
  { destruct reserved; [by injection Ei as _ <- |]. unfold outboundIdentity, bind_eff, fresh_id, ret in Ei.
    injection Ei as _ <-. done. }
  destruct E0 as (L0 & C0 & I0). unfold bind_eff, gets, upd_outbox, modify, ret.
  destruct (frames_of_message _ _ _ _ _ _) as [[frames baseline] | e]; [| done].
  lazymatch goal with |- (if ?b then _ else _) _ = _ -> _ => destruct b; [done |] end.
  intros [= <- <-]. cbn. unfold time, assign. cbn. by rewrite L0, C0, I0.
Qed.

Lemma prepare_checked_ready m target op use radio capacity sequence reserved existing s p s1 :
  prepare_checked cfg m target op use radio capacity sequence reserved existing s = (Ok (prep_ready p), s1) ->
  (deliveryClass m = confirmed -> 1 <= additionalConfirmed capacity) ->
  ready p s1 /\ o_message (po_outbound p) = m /\ o_delivery (po_outbound p) = deliveryClass m /\
  o_coalescingKey (po_outbound p) = coalescingKey m /\ o_trackingKey (po_outbound p) = op /\
  inbox s1 = inbox s /\ ledger s1 = ledger s /\ clock s1 = clock s.
Proof.
  unfold prepare_checked. unfold bind_eff at 1. cbn [gets]. intros E Hcap. revert E.
  destruct (jhas op (committedOperationIDs (ledger s))) eqn:Hnew; [done |].
  destruct (bool_decide (deliveryClass m = confirmed) && (COMMITTED_OPERATION_ID_LIMIT <? _)) eqn:Hroom.
  { intros E. exfalso. unfold bind_eff in E. by repeat case_match. }
  do 2 lazymatch goal with |- (if ?b then _ else _) _ = _ -> _ => destruct b; [done |] end.
  intros (R1 & R2 & R3 & R4 & R5 & R6 & R7 & L & C & I)%prepare_frames_ready. cbn in *.
  split; [| done]. split; try done. intros Hd. rewrite R3, L. split; [by apply jhas_false |].
  split; [| by rewrite R7; unfold time; rewrite C].
  assert (Hm : deliveryClass m = confirmed) by congruence. rewrite bool_decide_true in Hroom by done.
  apply Z.ltb_ge in Hroom. specialize (Hcap Hm). lia.
Qed.

Lemma operationIDFor_frame m target s op s1 :
  operationIDFor m target s = (Ok op, s1) -> inbox s1 = inbox s /\ ledger s1 = ledger s /\ clock s1 = clock s.
Proof. unfold operationIDFor, fresh_id, ret. repeat case_match; intros [= <- <-]; done. Qed.

Lemma prepare_ready m options use radio capacity sequence reserved s p s1 :
  prepareOutbound cfg m options use radio capacity sequence reserved s = (Ok (prep_ready p), s1) ->
  (deliveryClass m = confirmed -> 1 <= additionalConfirmed capacity) ->
  ready p s1 /\ o_message (po_outbound p) = m /\ o_delivery (po_outbound p) = deliveryClass m /\
  o_coalescingKey (po_outbound p) = coalescingKey m /\ inbox s1 = inbox s /\ clock s1 = clock s.
Proof.
  intros E Hcap. unfold prepareOutbound in E. unfold bind_eff at 1 in E.
  destruct ((match sub_operationID options with Some id => ret id | None => operationIDFor m (sub_destination options) end) s)
    as [[op | e] s0] eqn:Eop; [| done].
  assert (E0 : inbox s0 = inbox s /\ ledger s0 = ledger s /\ clock s0 = clock s).
  { destruct (sub_operationID options); [by injection Eop as _ <- | by eapply operationIDFor_frame]. }
  destruct E0 as (I0 & L0 & C0). unfold bind_eff at 1 in E. cbn [gets] in E.
  destruct (stopped (pump_state s0)); [done |]. destruct (negb (validStateSource _ _)); [done |].
  destruct (bool_decide _ && bool_decide _); [done |]. destruct (blank op); [done |]. destruct (has_type m data_request && _); [done |].
  unfold bind_eff at 1 in E. unfold pruneCommittedOperationIDs, now, upd_ledger, modify, gets in E. unfold bind_eff at 1 in E.
  set (s2 := s0 <| ledger ::= prune_ledger (current (clock s0)) |>) in E. unfold bind_eff at 1 in E.
  cbv beta iota in E.
  assert (Hgo : forall existing, prepare_checked cfg m (sub_destination options) op use radio capacity sequence (snd <$> reserved) existing s2
            = (Ok (prep_ready p), s1) ->
    ready p s1 /\ o_message (po_outbound p) = m /\ o_delivery (po_outbound p) = deliveryClass m /\
    o_coalescingKey (po_outbound p) = coalescingKey m /\ inbox s1 = inbox s /\ clock s1 = clock s).
  { intros existing (R & ? & ? & ? & ? & I & L & C)%prepare_checked_ready; [| done].
    split_and!; try done; [rewrite I | rewrite C]; done. }
  repeat match type of E with context [match ?x with _ => _ end] => destruct x; try done end; by eapply Hgo.
Qed.

(** ** Taking a message *)

(** The object is made, and enters the queue. *)
Definition queued (m : Outbound) (s : LinkTransport) : LinkTransport :=
  let r := nextObject (outbox s) in
  s <| outbox ::= fun o => o <| reservedTaskIDs ::= jdel (o_trackingKey m) |> <| nextObject ::= Z.succ |>
                             <| objects ::= at_key r (fun _ => m) |> <| queue ::= fun q => q ++ [r] |> |>.

Lemma queued_quiet m s : o_retryTimer m = None -> o_deadlineTimer m = None -> rtc (quiet cfg) s (queued m s).
Proof.
  intros H1 H2. eapply rtc_l; [by apply (q_alloc cfg s m) |]. apply rtc_once. constructor. split; try done. by left.
Qed.

(** The deadline of a message is never in the past. *)
Lemma schedule_deadline (c : VirtualClock Callback) m p cb : exists h c', schedule c (outboundDeadlineMs m p) cb = Ok (h, c').
Proof.
  assert (E : (outboundDeadlineMs m p <? 0) = false) by (unfold outboundDeadlineMs; case_match; [done | by destruct p]).
  unfold schedule. rewrite E. by do 2 eexists.
Qed.

Lemma enter_confirmed_entered r m s h c :
  schedule (clock s) (outboundDeadlineMs (o_message m) (priority (o_identity m))) (outbound_deadline r) = Ok (h, c) ->
  enter_confirmed r m s = (Ok tt, entered r m h c s).
Proof.
  intros E. unfold enter_confirmed, bind_eff, now, gets, modify, upd_ledger, upd_outbox, schedule_timer, upd_obj, entered.
  unfold assign. cbn -[schedule outboundDeadlineMs enter_tables]. by rewrite E.
Qed.

Lemma enter_confirmed_quiet r m s :
  objects (outbox s) r = m -> r < nextObject (outbox s) -> jget (o_trackingKey m) (committedOperationIDs (ledger s)) = None ->
  jsize (committedOperationIDs (ledger s)) < COMMITTED_OPERATION_ID_LIMIT -> o_queuedAt m = time s ->
  rtc (quiet cfg) s (snd (enter_confirmed r m s)).
Proof.
  intros. destruct (schedule_deadline (clock s) (o_message m) (priority (o_identity m)) (outbound_deadline r)) as (h & c & E).
  rewrite (enter_confirmed_entered _ _ _ _ _ E). apply rtc_once. by apply q_enter.
Qed.

(** What [commitOutbound] does to the books afterwards. *)
Definition after_queued (p : PreparedOutbound) (pumpAfter recordQueued : bool) : T LinkOperationResult :=
  let m := po_outbound p in
  do! _ := count_by application_bytes (po_payloadByteLength p) in
  do! _ := modify (fun s => s <| mutableMetrics ::= fun c =>
    mkMetrics (counted c) (timed c) (Z.max (peak_queue_depth c) (zlen (queue (outbox s)))) |>) in
  let result := settled_result (o_operationID m) op_queued None None in
  do! _ := when_ recordQueued (recordOperation result (o_trackingKey m)) in
  do! _ := when_ pumpAfter (requestPump 0) in
  ret result.

Definition before_queued (p : PreparedOutbound) : T unit :=
  let m := po_outbound p in
  do! _ := when_ (po_replacesFailedResult p) (upd_ledger (fun l => l <| operationResults ::= jdel (o_trackingKey m) |>)) in
  do! _ := upd_outbox (fun o => o <| sourceSequence ::= Z.max (source_sequence (o_identity m)) |>) in
  when_ (negb (bool_decide (o_delivery m = confirmed)) && match o_coalescingKey m with Some _ => true | None => false end)
    (replaceQueuedBestEffort listener (o_coalescingKey m)).

Lemma commitOutbound_parts p pumpAfter recordQueued s :
  commitOutbound listener p pumpAfter recordQueued s =
  match before_queued p s with
  | (Ok _, s1) =>
      bind_eff (when_ (bool_decide (o_delivery (po_outbound p) = confirmed)) (enter_confirmed (nextObject (outbox s1)) (po_outbound p)))
        (fun _ => after_queued p pumpAfter recordQueued) (queued (po_outbound p) s1)
  | (Throw e, s1) => (Throw e, s1)
  end.
Proof.
  unfold commitOutbound, before_queued, bind_eff. unfold upd_outbox at 1 3. unfold modify, gets.
  destruct (when_ (po_replacesFailedResult p) _ s) as [[[] | e] s0]; [| done].
  destruct (when_ (negb _ && _) _ _) as [[[] | e] s1]; done.
Qed.

Lemma q_before_queued p : Q (before_queued p).
Proof. unfold before_queued. quiets. Qed.
Lemma q_after_queued p pumpAfter recordQueued : Q (after_queued p pumpAfter recordQueued).
Proof. unfold after_queued, count_by. quiets. Qed.
Hint Resolve q_before_queued q_after_queued : quiet.

Lemma before_queued_confirmed p s :
  o_delivery (po_outbound p) = confirmed ->
  committedOperationIDs (ledger (snd (before_queued p s))) = committedOperationIDs (ledger s) /\ time (snd (before_queued p s)) = time s.
Proof.
  intros E. unfold before_queued. rewrite E. cbn. unfold bind_eff, when_, upd_ledger, upd_outbox, modify, ret.
  by destruct (po_replacesFailedResult p).
Qed.

Lemma at_commitOutbound p pumpAfter recordQueued s :
  ready p s -> quietly_at cfg (commitOutbound listener p pumpAfter recordQueued) s.
Proof.
  intros [R1 R2 R3] Hw. rewrite commitOutbound_parts.
  pose proof (q_before_queued p s Hw) as Q1. pose proof (before_queued_confirmed p s) as F1.
  destruct (before_queued p s) as [[a | e] s1]; cbn in Q1, F1; [| done].
  set (m := po_outbound p) in *. set (r := nextObject (outbox s1)).
  assert (Q2 : rtc (quiet cfg) s (queued m s1)) by (etrans; [exact Q1 | by apply queued_quiet]).
  etrans; [exact Q2 |].
  assert (W2 : wf cfg (queued m s1)) by (by eapply quiets_wf).
  revert W2. apply at_bind; [| intros; apply at_keeps; quiets]. intros W2. unfold when_.
  destruct (bool_decide (o_delivery m = confirmed)) eqn:Hc; [| constructor]. apply bool_decide_eq_true in Hc.
  destruct (F1 Hc) as [E1 E2]. destruct (R3 Hc) as (N & S & T0).
  apply enter_confirmed_quiet.
  - unfold queued, assign. cbn. by rewrite at_key_eq.
  - unfold queued, assign. cbn. unfold r. lia.
  - change (jget (o_trackingKey m) (committedOperationIDs (ledger s1)) = None). by rewrite E1.
  - change (jsize (committedOperationIDs (ledger s1)) < COMMITTED_OPERATION_ID_LIMIT). by rewrite E1.
  - change (o_queuedAt m = time s1). by rewrite E2.
Qed.

Lemma default_capacity_confirmed m : deliveryClass m = confirmed -> 1 <= additionalConfirmed (default_capacity m).
Proof. intros E. unfold default_capacity. cbn. by rewrite bool_decide_true. Qed.

Lemma q_submitWithCapacity m options use radio reserved : Q (submitWithCapacity cfg listener m options use radio reserved).
Proof.
  apply keeps_read. intros s Hw. cbv zeta. apply at_bind; [apply at_keeps; quiets |].
  intros prepared s1 _ _ Hw1 E. destruct prepared as [p | r | op key reason overload].
  - apply at_commitOutbound. apply prepare_ready in E as [R _]; [done |]. apply default_capacity_confirmed.
  - apply at_keeps. quiets.
  - apply at_keeps. unfold count. quiets.
Qed.
Hint Resolve q_submitWithCapacity : quiet.

Lemma q_submit m options : Q (submit cfg listener m options).
Proof. apply q_submitWithCapacity. Qed.
Lemma q_sendControl target m use radio : Q (sendControl cfg listener target m use radio).
Proof. unfold sendControl. quiets. Qed.
Lemma q_reserveTaskDelivery m target op : Q (reserveTaskDelivery cfg m target op).
Proof. unfold reserveTaskDelivery. quiets. Qed.
Lemma q_dispatchReservation t cancelled : Q (dispatchReservation cfg listener t cancelled).
Proof. unfold dispatchReservation, now. quiets. Qed.
Lemma q_cancelReservation t : Q (cancelReservation t).
Proof. unfold cancelReservation. quiets. Qed.
Lemma q_cancel_operation op reason : Q (cancel_operation listener op reason).
Proof. unfold cancel_operation. quiets. Qed.
End out.

#[export] Hint Extern 1 (_ <> _) => discriminate : quiet.
#[export] Hint Resolve q_requestPump q_remove_from_queue q_push_queue q_reorder q_release_object q_requeue q_failBestEffort
  q_replaceQueuedBestEffort q_completeOutbound q_confirmAwaitingResponseTransport q_outboundDeadline q_prepareOutbound
  q_operationIDFor q_submit q_sendControl q_reserveTaskDelivery q_dispatchReservation q_cancelReservation
  q_cancel_operation : quiet.

(** * The transport: the pump is made of moves

    The refinement of [TransportMoves] by the operations of [TransportPump]. *)

#[local] Arguments jset : simpl never.
#[local] Arguments jdel : simpl never.
#[local] Arguments jget : simpl never.
#[local] Arguments jsize : simpl never.
#[local] Arguments jhas : simpl never.
#[local] Arguments assign : simpl never.

Section pump.
Context {zlib : Zlib} {validators : Validators} {host : Host} (cfg : Settings).
Context (listener : Signal -> T unit) (Hlistener : forall signal, keeps (quietly cfg) (listener signal)).
Abbreviation Q := (keeps (quietly cfg)) (only parsing).

Lemma q_retryDelay r : Q (retryDelay cfg r).
Proof. unfold retryDelay, obj. quiets. Qed.

Lemma at_store_retry r h s : typed s h is_retry -> quietly_at cfg (upd_obj r (fun m => m <| o_retryTimer := Some h |>)) s.
Proof. intros H. apply q_once. intros _. by apply q_retry_timer. Qed.

Lemma q_schedule_retry_as cb r : is_retry cb -> Q (schedule_retry_as cfg cb r).
Proof.
  intros Hcb. apply keeps_read. intros s Hw. apply at_bind; [by apply at_cancel_retry |]. intros _ s1 _ _ Hw1 _.
  apply at_bind; [apply at_keeps, q_retryDelay |]. intros delay s2 _ _ Hw2 _.
  apply at_bind; [apply at_keeps; quiets |]. intros h s3 _ _ Hw3 E. apply at_store_retry.
  eapply typed_weaken; [| exact (schedule_typed _ _ _ _ _ Hw2 E)]. by intros c <-.
Qed.

Lemma q_scheduleRetry r : Q (scheduleRetry cfg r).
Proof. by apply q_schedule_retry_as. Qed.
Lemma q_deferRadioSendRetry r : Q (deferRadioSendRetry cfg r).
Proof. by apply q_schedule_retry_as. Qed.
Hint Resolve q_scheduleRetry q_deferRadioSendRetry : quiet.

Lemma q_retryAfterFailure r : Q (retryAfterFailure r).
Proof. unfold retryAfterFailure. quiets. Qed.
Lemma q_retryOutbound r : Q (retryOutbound r).
Proof. unfold retryOutbound. quiets. Qed.

Lemma q_objectEligible r : Q (objectEligible r).
Proof.
  unfold objectEligible, obj. apply keeps_bind; [exact _ | quiets |]. intros m. destruct (negb _); [quiets |]. cbv zeta.
  apply keeps_bind; [exact _ | | intros _; quiets]. apply upd_outbox_quiet. intros o. case_match; split; try reflexivity; done.
Qed.
Hint Resolve q_objectEligible : quiet.

Lemma q_take_loop rest : forall index best, Q (take_loop rest index best).
Proof. induction rest as [| r rest IH]; intros index best; cbn [take_loop]; quiets. Qed.
Hint Resolve q_take_loop : quiet.

Lemma q_takeNextOutbound : Q takeNextOutbound.
Proof. unfold takeNextOutbound. quiets. Qed.
Lemma q_compoundReceiptPair r : Q (compoundReceiptPair cfg r).
Proof. unfold compoundReceiptPair. quiets. Qed.

(** The report of a pair is confirmed, so it is a message of the table. *)
Lemma find_report_confirmed o receipt target rid index rest i r frames :
  find_report cfg o receipt target rid index rest = Some (i, r, frames) -> o_delivery (objects o r) = confirmed.
Proof.
  revert index. induction rest as [| r' rest IH]; intros index; cbn; [done |]. case_match eqn:E; [| apply IH].
  intros [= _ -> _]. unfold combine_report in E. destruct (o_delivery (objects o r)); [| done].
  cbn in E. by rewrite orb_true_r in E.
Qed.

Lemma compound_paired r p s s1 : wf cfg s -> compoundReceiptPair cfg r s = (Ok (Some p), s1) -> paired s1 p.
Proof.
  intros Hw. unfold compoundReceiptPair. unfold bind_eff at 1. cbn [gets]. case_match; [done |].
  repeat (case_match; try done). intros [= <- <-]. split; cbn; [| done].
  destruct (Z.lt_ge_cases z (nextObject (outbox s))) as [Hz | Hz]; [done |].
  pose proof (wf_fresh _ _ Hw _ Hz) as H'. erewrite find_report_confirmed in H' by eassumption. done.
Qed.
Lemma q_markOutboundStarted r : Q (markOutboundStarted r).
Proof. unfold markOutboundStarted, obj, now, observe. quiets. Qed.
Lemma q_recordPhysicalSend r frame index : Q (recordPhysicalSend listener r frame index).
Proof.
  unfold recordPhysicalSend, obj, now, count, count_by.
  repeat first [solve [auto with quiet] | apply q_emit; [assumption | exact I] | quiet_step].
Qed.
Lemma q_commit_baseline r : Q (commit_baseline r).
Proof. unfold commit_baseline. quiets. Qed.
Hint Resolve q_takeNextOutbound q_compoundReceiptPair q_markOutboundStarted q_recordPhysicalSend q_commit_baseline : quiet.

Lemma q_afterAllChunksSent r : Q (afterAllChunksSent cfg listener r).
Proof. unfold afterAllChunksSent, obj, now. quiets. Qed.
Hint Resolve q_afterAllChunksSent : quiet.

Lemma q_finishCompoundReceiptPair c : Q (finishCompoundReceiptPair cfg listener c).
Proof. unfold finishCompoundReceiptPair. quiets. Qed.
Hint Resolve q_finishCompoundReceiptPair : quiet.

(** What is put back is of the priority the report has. *)
Lemma at_put_back c f s :
  paired s c -> (forall m, o_identity (f m) = cr_originalIdentity c /\
    core (f m) = (o_message m, o_operationID m, o_trackingKey m, o_delivery m, o_deadlineTimer m, o_queuedAt m, priority (o_identity (f m))) /\
    o_retryTimer (f m) = o_retryTimer m) ->
  quietly_at cfg (upd_obj (cr_report c) f) s.
Proof.
  intros [_ Hp] Hf. apply q_once. intros _. constructor. split; try done; [| | by left]; intros r; cbn; unfold assign, at_key; cbn;
    case_decide as Hr; subst; try done; destruct (Hf (objects (outbox s) (cr_report c))) as (E1 & E2 & E3).
  - by rewrite E2, E1, Hp.
  - intros h. by rewrite E3.
Qed.

Lemma at_handleCompoundReceiptFailure c s : paired s c -> quietly_at cfg (handleCompoundReceiptFailure cfg c) s.
Proof.
  intros Hp. apply at_gets. cbv zeta. apply at_bind; [| intros; apply at_keeps; quiets].
  unfold when_. case_match; [| apply at_keeps; quiets]. apply at_bind; [by apply at_put_back | intros; apply at_keeps; quiets].
Qed.

(** The packet that is being sent holds a pair that was just made. *)
Lemma at_sending g sent' s :
  (forall p, sg_pair g = Some p -> paired s p) ->
  quietly_at cfg (upd_pump (fun p => p <| sending := Some g |> <| sent ::= sent' |>)) s.
Proof. intros Hp. apply q_once. intros _. constructor. split; try done. intros p Ep. right. by apply Hp. Qed.

Lemma q_pump_body : Q (pump_body cfg).
Proof.
  unfold pump_body, obj. apply keeps_bind; [exact _ | quiets |]. intros [r |]; [| quiets].
  apply keeps_bind; [exact _ | quiets |]. intros _. apply keeps_bind; [exact _ | quiets |]. intros m.
  destruct (o_pendingChunks m) as [| chunk pending]; [quiets |]. apply keeps_bind; [exact _ | quiets |]. intros _.
  destruct (nthZ _ _) as [frame |]; [| quiets]. intros s. apply at_bind; [apply at_keeps; quiets |].
  intros pair s1 Hw _ _ E. assert (Hp : forall p, pair = Some p -> paired s1 p) by (intros p ->; by eapply compound_paired).
  clear E. destruct (match pair with Some p => (cr_combinedFrame p, o_sendOptions m) | None => (frame, o_sendOptions m) end) as [physical options].
  apply at_bind; [apply at_keeps; quiets |]. intros _ s2 _ Hq2 _ _. apply at_bind; [apply at_keeps; quiets |]. intros _ s3 _ Hq3 _ _.
  apply at_bind; [| intros; apply at_keeps; quiets]. apply at_sending. intros p [= ->].
  eapply quiets_paired; [| by apply Hp]. by etrans.
Qed.
Lemma q_resolvePauseWaiters : Q resolvePauseWaiters.
Proof. unfold resolvePauseWaiters. quiets. Qed.
Hint Resolve q_pump_body q_resolvePauseWaiters : quiet.
Lemma q_pump_finally delay : Q (pump_finally cfg listener delay).
Proof. unfold pump_finally. quiets. Qed.
Hint Resolve q_pump_finally : quiet.

Lemma at_try_finally body after s : quietly_at cfg body s -> Q after -> quietly_at cfg (try_finally body after) s.
Proof.
  unfold quietly_at. intros Hb Ha. unfold try_finally.
  destruct (body s) as [[[] | e] s1]; cbn in Hb; [done | etrans; [exact Hb | apply Ha] |].
  specialize (Ha s1). destruct (after s1) as [[u | e'] s2]; cbn in *; by etrans.
Qed.
Lemma q_try_finally body after : Q body -> Q after -> Q (try_finally body after).
Proof. intros Hb Ha s. apply at_try_finally; [apply Hb | done]. Qed.

Lemma q_pump_start : Q (pump_start cfg listener).
Proof.
  unfold pump_start. quiets. apply q_try_finally; quiets.
Qed.
Hint Resolve q_pump_start : quiet.
Lemma q_pumpTimerFired : Q (pumpTimerFired cfg listener).
Proof. unfold pumpTimerFired. quiets. Qed.
Lemma at_send_failed g reason s : (forall p, sg_pair g = Some p -> paired s p) -> quietly_at cfg (send_failed cfg listener g reason) s.
Proof.
  intros Hp. apply at_gets. case_match; [apply at_keeps; quiets |]. unfold count.
  apply at_bind; [apply at_keeps; quiets |]. intros _ s1 _ Hq1 _ _. apply at_bind; [apply at_keeps; quiets |]. intros _ s2 _ Hq2 _ _.
  destruct (sg_pair g) as [p |]; [| apply at_keeps; quiets].
  apply at_bind; [apply at_keeps; quiets |]. intros _ s3 _ Hq3 _ _. apply at_handleCompoundReceiptFailure.
  eapply quiets_paired; [| by apply Hp]. etrans; [exact Hq1 |]. by etrans.
Qed.
Lemma q_send_done g : Q (send_done cfg listener g).
Proof. unfold send_done. quiets. Qed.
Hint Resolve q_send_done : quiet.

Lemma q_pump_finish failure : Q (pump_finish cfg listener failure).
Proof.
  apply keeps_read. intros s Hw. destruct (sending (pump_state s)) as [g |] eqn:Eg; [| apply at_keeps; quiets].
  assert (Hp : forall p, sg_pair g = Some p -> paired s p).
  { intros p Ep. apply (wf_pair _ _ Hw). unfold sent_pair. by rewrite Eg. }
  apply at_bind; [apply at_keeps; quiets |]. intros _ s1 _ Hq1 _ _. apply at_try_finally; [| quiets].
  apply at_bind; [| intros; apply at_keeps; quiets]. destruct failure; [| apply at_keeps; quiets].
  apply at_send_failed. intros p Ep. eapply quiets_paired; [exact Hq1 | by apply Hp].
Qed.

(** ** Pausing and stopping *)

Lemma at_cancel_pump s : wf cfg s -> quietly_at cfg (cancel_optional (pumpTimer (pump_state s))) s.
Proof.
  intros Hw. apply at_cancel_optional. intros t Ht. eapply typed_weaken, (wf_pump _ _ Hw _ Ht). by intros c <-.
Qed.

Lemma q_pause : Q pause.
Proof.
  apply keeps_read. intros s Hw. destruct (stopped (pump_state s)); [apply at_keeps; quiets |].
  apply at_bind; [apply at_keeps; quiets |]. intros _ s1 _ Hq Hw1 _.
  apply at_bind; [| intros; apply at_keeps; quiets]. destruct (pumpRequested _); [| apply at_keeps; quiets].
  destruct (pumpTimer (pump_state s)) as [t |] eqn:Ht; [| apply at_keeps; quiets].
  apply at_bind; [| intros; apply at_keeps; quiets]. apply at_cancel. eapply quiets_typed; [exact Hq |].
  eapply typed_weaken, (wf_pump _ _ Hw _ Ht). by intros c <-.
Qed.

Lemma q_resume : Q resume.
Proof. unfold resume. quiets. Qed.

(** A list of timers whose kinds are known is cancelled. *)
Lemma at_cancel_all {A} (f : A -> Z) l s :
  Forall (fun x => typed s (f x) not_deadline) l -> quietly_at cfg (for_each (fun x => cancel_timer (f x)) l) s.
Proof.
  revert s. induction l as [| x l IH]; intros s; [intros _ _; constructor |].
  intros [Hx Hl]%list.Forall_cons. apply at_bind; [by apply at_cancel |].
  intros _ s1 _ Hq _ _. apply IH. eapply list.Forall_impl; [exact Hl |]. intros y Hy. by eapply quiets_typed.
Qed.

Lemma in_jvalues {K V} (m : list (K * V)) v : v ∈ jvalues m -> exists k, (k, v) ∈ m.
Proof. unfold jvalues. intros ([k v'] & -> & H)%list_elem_of_fmap. by exists k. Qed.

Lemma typed_reassemblies s : wf cfg s -> Forall (fun r => typed s (re_timer r) not_deadline) (jvalues (reassemblies (inbox s))).
Proof.
  intros Hw. apply Forall_elem. intros r (k & Hr)%in_jvalues. eapply typed_weaken, (wf_reassembly _ _ Hw _ _ Hr). by intros [].
Qed.
Lemma typed_pending s : wf cfg s -> Forall (fun p => typed s (pi_timer p) not_deadline) (jvalues (pendingInbound (inbox s))).
Proof.
  intros Hw. apply Forall_elem. intros r (k & Hr)%in_jvalues. eapply typed_weaken, (wf_pending _ _ Hw _ _ Hr). by intros [].
Qed.

Lemma at_clear_reassemblies s : wf cfg s -> quietly_at cfg (upd_inbox (fun i => i <| reassemblies := [] |>)) s.
Proof.
  intros Hw. apply q_once. intros _. apply (q_reassemblies cfg s []); [apply jwf_nil | by intros k v ?%elem_of_nil |].
  pose proof (wf_room _ _ Hw). change (jsize _) with 0. unfold jsize in *. pose proof (zlen_nonneg (reassemblies (inbox s))). lia.
Qed.

Lemma at_cancel_expiry s : wf cfg s -> quietly_at cfg (cancel_optional (committedOperationExpiryTimer (ledger s))) s.
Proof.
  intros Hw. apply at_cancel_optional. intros t Ht. eapply typed_weaken, (wf_expiry _ _ Hw _ Ht). by intros c <-.
Qed.

Lemma q_stop_outbound reason r :
  Q (do! m := obj r in
     if bool_decide (o_delivery m = confirmed) then completeOutbound listener r op_failed (Some reason)
     else failBestEffort listener r reason).
Proof. unfold obj. quiets. Qed.

(** From the outbound objects on. *)
Lemma at_stop_rest reason s :
  stopped (pump_state s) = true ->
  quietly_at cfg
    (do! o := gets outbox in
     do! _ := for_each (fun r =>
       do! m := obj r in
       if bool_decide (o_delivery m = confirmed) then completeOutbound listener r op_failed (Some reason)
       else failBestEffort listener r reason) (all_outbound o) in
     do! _ := upd_outbox (fun o => o <| queue := [] |>) in
     do! i := gets inbox in
     do! _ := for_each (fun p => cancel_timer (pi_timer p)) (jvalues (pendingInbound i)) in
     do! _ := upd_inbox (fun i => i <| pendingInbound := [] |>) in
     do! _ := upd_outbox (fun o => o <| responseOperations := [] |>) in
     do! p := gets pump_state in
     unless (pumping p) resolvePauseWaiters) s.
Proof.
  intros Hs. apply at_gets. apply at_bind; [apply at_keeps, keeps_for_each; [exact _ |]; intros; apply q_stop_outbound |].
  intros _ s1 _ Hq1 Hw1 _. apply at_bind; [apply at_keeps; quiets |]. intros _ s2 _ Hq2 Hw2 _.
  apply at_gets. apply at_bind; [by apply at_cancel_all, typed_pending |]. intros _ s3 _ Hq3 Hw3 _.
  apply at_bind.
  { apply q_once. intros _. apply q_clear_pending. repeat (eapply quiets_stopped; [eassumption |]). exact Hs. }
  intros _ s4 _ _ Hw4 _. apply at_bind; [| intros; apply at_keeps; quiets].
  apply (shrink_quiet s4 (fun o => o <| responseOperations := [] |>));
    [apply shrinks_refl | apply shrinks_refl | apply shrinks_nil | by destruct (outbox s4)].
Qed.

Lemma q_stop reason : Q (stop listener reason).
Proof.
  apply keeps_read. intros s Hw. destruct (stopped (pump_state s)); [apply at_keeps; quiets |].
  apply at_bind; [apply q_once; intros _; apply TransportMoves.q_stop |]. intros a1 s1 _ Hq1 Hw1 E1.
  assert (Hs1 : stopped (pump_state s1) = true) by (injection E1 as _ E1; by rewrite <- E1).
  assert (Ep : pumpTimer (pump_state s) = pumpTimer (pump_state s1)) by (injection E1 as _ E1; by rewrite <- E1). rewrite Ep. clear Ep E1.
  apply at_bind; [by apply at_cancel_pump |]. intros _ s2 _ Hq2 Hw2 _.
  apply at_bind; [apply at_keeps; quiets |]. intros _ s3 _ Hq3 Hw3 _. apply at_gets.
  apply at_bind; [by apply at_cancel_all, typed_reassemblies |]. intros _ s4 _ Hq4 Hw4 _.
  apply at_bind; [by apply at_clear_reassemblies |]. intros _ s5 _ Hq5 Hw5 _.
  apply at_bind; [apply at_keeps; quiets |]. intros _ s6 _ Hq6 Hw6 _. apply at_gets.
  apply at_bind; [by apply at_cancel_expiry |]. intros _ s7 _ Hq7 Hw7 _.
  apply at_bind; [apply at_keeps; quiets |]. intros _ s8 _ Hq8 Hw8 _.
  apply at_stop_rest. do 7 (eapply quiets_stopped; [eassumption |]). exact Hs1.
Qed.
Hint Resolve q_stop : quiet.

Lemma q_handleRadioDisconnect reason : Q (handleRadioDisconnect listener reason).
Proof. unfold handleRadioDisconnect. quiets. by apply q_emit. Qed.
End pump.

#[export] Hint Resolve q_scheduleRetry q_deferRadioSendRetry q_retryAfterFailure q_retryOutbound q_pumpTimerFired q_pump_finish
  q_pause q_resume q_stop q_handleRadioDisconnect : quiet.
