(* ===== verification/TransportInMoves.v ===== *)
(** * The transport: settling is made of moves

    The refinement of [TransportMoves] by the operations of [TransportIn] that
    hand no message over: fences, settlements, controls, responses. *)

From Stdlib Require Import ZArith Lia String.
From stdpp Require Import base list option relations.
From S2P Require Import Prelude JsMap BinaryIO Wtf8 Json CompactValue Compression LinkTypes Frame Contract StateDelta Picture PictureProjection JsState Clock TransportState TransportBase TransportOut TransportPump TransportIn TransportMoves TransportRefines TransportOutMoves.

#[local] Arguments jset : simpl never.
#[local] Arguments jdel : simpl never.
#[local] Arguments jget : simpl never.
#[local] Arguments jsize : simpl never.
#[local] Arguments jhas : simpl never.
#[local] Arguments assign : simpl never.

Section in_.
Context {zlib : Zlib} {validators : Validators} {host : Host} (cfg : Settings).
Context (listener : Signal -> T unit) (Hlistener : forall signal, keeps (quietly cfg) (listener signal)).
Abbreviation Q := (keeps (quietly cfg)) (only parsing).

(** ** Source fences *)

Lemma q_checkSourceFence source g session : Q (checkSourceFence source g session).
Proof. unfold checkSourceFence, count. quiets. Qed.

Lemma check_admits source g session s s1 :
  checkSourceFence source g session s = (Ok None, s1) -> s1 = s /\ fence_admits (sourceFences (inbox s)) (node_key source) g session.
Proof.
  unfold checkSourceFence, fence_admits, bind_eff, gets, ret. destruct (jget (node_key source) (sourceFences (inbox s))) as [f |] eqn:Ef.
  - case_match eqn:Hg; [done |]. intros [= <-]. split; [done |]. apply orb_false_iff in Hg as [H1 H2].
    apply Z.ltb_ge in H1. apply andb_false_iff in H2 as [H2 | H2]; [apply Z.eqb_neq in H2; lia |].
    apply negb_false_iff, bool_decide_eq_true in H2. destruct (decide (g = f_generation f)); [right; by split | left; lia].
  - case_match eqn:Hg; [done |]. intros [= <-]. apply Z.leb_gt in Hg. by split.
Qed.

(** Every reassembly of the list has a timer of its kind. *)
Lemma at_del_reassembly key s : wf cfg s -> quietly_at cfg (upd_inbox (fun i => i <| reassemblies ::= jdel key |>)) s.
Proof.
  intros Hw. apply q_once. intros _. apply (q_reassemblies cfg s (jdel key (reassemblies (inbox s)))).
  - apply jdel_wf, Hw.
  - intros k v H%elem_of_jdel_weak. by eapply wf_reassembly.
  - pose proof (jsize_jdel_le key (reassemblies (inbox s))). pose proof (wf_room _ _ Hw). lia.
Qed.

Lemma q_drop_reassembly key : Q (drop_reassembly key).
Proof. intros s Hw. revert Hw. apply at_bind; [intros Hw; by apply at_del_reassembly | intros; apply at_keeps; unfold count; quiets]. Qed.
Hint Resolve q_drop_reassembly : quiet.

Lemma at_drop_superseded source g session s : wf cfg s -> quietly_at cfg (drop_superseded source g session) s.
Proof.
  intros Hw. apply at_gets. assert (Hl : forall k v, (k, v) ∈ reassemblies (inbox s) -> typed s (re_timer v) not_deadline).
  { intros k v H. eapply typed_weaken, (wf_reassembly _ _ Hw _ _ H). by intros []. }
  revert Hl Hw. generalize (reassemblies (inbox s)) as l. intros l. revert s.
  induction l as [| [k v] l IH]; intros s Hl Hw; [intros _; constructor |]. apply at_bind; cbn [snd fst].
  - case_match; [| apply at_keeps; quiets]. apply at_bind; [apply at_cancel, (Hl k), list_elem_of_here |].
    intros _ s1 _ _ Hw1 _. apply at_bind; [by apply at_del_reassembly | intros; apply at_keeps; unfold count; quiets].
  - intros _ s1 _ Hq Hw1 _. apply IH; [| done]. intros k' v' H. eapply quiets_typed; [exact Hq |].
    by eapply Hl, list_elem_of_further.
Qed.

Lemma drop_superseded_fences source g session s :
  sourceFences (inbox (snd (drop_superseded source g session s))) = sourceFences (inbox s).
Proof.
  assert (H : keeps (fun s s' : LinkTransport => sourceFences (inbox s') = sourceFences (inbox s)) (drop_superseded source g session));
    [| apply H].
  assert (PreOrder (fun s s' : LinkTransport => sourceFences (inbox s') = sourceFences (inbox s))).
  { split; [by intros ? | intros ? ? ? ->]. done. }
  apply keeps_bind; [exact _ | done |]. intros i. apply keeps_for_each; [exact _ |]. intros [k v] _. by case_match.
Qed.

(** What an activation leaves when it is not rejected. *)
Definition fenced (source : LinkNode) (g : Z) (session : list Z) (s : LinkTransport) : Prop :=
  jget (node_key source) (sourceFences (inbox s)) = Some (mkFence g session).

(** The picture may refuse the source. *)
Definition picture_activation (changed : bool) (p : option SharedPicture) (source : LinkNode) (g : Z) (session : list Z) : T bool :=
  match changed, p with
  | true, Some p =>
      do! r := lift (Picture.activateSource picture_listener_throws p source g session) in
      do! _ := modify (fun s => s <| picture := Some (snd r) |>) in
      ret (fst r)
  | _, _ => ret true
  end.

Lemma q_picture_activation changed p source g session : Q (picture_activation changed p source g session).
Proof. unfold picture_activation. quiets. Qed.

Lemma picture_activation_fences changed p source g session s :
  sourceFences (inbox (snd (picture_activation changed p source g session s))) = sourceFences (inbox s).
Proof.
  unfold picture_activation, bind_eff, lift, modify, ret. destruct changed, p as [p |]; try done.
  by destruct (Picture.activateSource _ _ _ _ _).
Qed.

Lemma q_activateSourceFence source g session : Q (activateSourceFence source g session).
Proof.
  intros s Hw. revert Hw. apply at_bind; [apply at_keeps, q_checkSourceFence |].
  intros rejection s0 _ _ Hw0 E. destruct rejection as [reason |]; [apply at_keeps; quiets |].
  apply check_admits in E as [-> Ha]. apply at_gets. cbv zeta. set (changed := match jget _ _ with Some f => _ | None => true end).
  apply at_bind; [apply at_keeps, (q_picture_activation changed) |]. intros accepted s1 _ _ Hw1 E.
  pose proof (picture_activation_fences changed (picture s) source g session s) as F. unfold picture_activation in F.
  rewrite E in F. cbn in F. destruct accepted; cbn [negb]; [| apply at_keeps; quiets].
  apply at_bind; [apply q_once; intros _; apply q_fence; by rewrite F |]. intros _ s2 _ _ Hw2 _.
  apply at_bind; [| intros; apply at_keeps; quiets]. unfold when_. destruct changed; [by apply at_drop_superseded | apply at_keeps; quiets].
Qed.

Lemma activate_fenced source g session s s1 :
  activateSourceFence source g session s = (Ok None, s1) -> fenced source g session s1.
Proof.
  unfold activateSourceFence. intros (rejection & s0 & _ & E)%bind_eff_inv. destruct rejection; [done |].
  apply bind_eff_inv in E as (s' & s2 & _ & E). apply bind_eff_inv in E as (accepted & s3 & _ & E).
  destruct accepted; [| done]. apply bind_eff_inv in E as (u & s4 & E4 & E). apply bind_eff_inv in E as (u' & s5 & E5 & [= <-]).
  assert (F : fenced source g session s4) by (injection E4 as _ <-; apply jget_jset_eq).
  revert E5. unfold when_. case_match; [| by intros [= _ <-]]. intros E5.
  pose proof (drop_superseded_fences source g session s4) as F'. rewrite E5 in F'. cbn in F'. unfold fenced. by rewrite F'.
Qed.
Hint Resolve q_checkSourceFence q_activateSourceFence : quiet.

Hint Resolve q_submit q_sendControl : quiet.
Lemma q_announceSourceActivation source g session : Q (announceSourceActivation cfg listener source g session).
Proof. unfold announceSourceActivation. quiets. Qed.

(** ** Settling *)

Lemma q_answer i verdict reason radio : Q (answer cfg listener i verdict reason radio).
Proof. unfold answer. quiets. Qed.
Hint Resolve q_answer : quiet.
Lemma q_rejectAddressedMessage i reason radio : Q (rejectAddressedMessage cfg listener i reason radio).
Proof. unfold rejectAddressedMessage. quiets. Qed.
Lemma q_rejectInboundCapacity i x radio reason : Q (rejectInboundCapacity cfg listener i x radio reason).
Proof. unfold rejectInboundCapacity, count. quiets. Qed.
Hint Resolve q_rejectAddressedMessage q_rejectInboundCapacity : quiet.

(** A settlement recorded is no longer awaited. *)
Lemma at_settled {B} x v (k : T B) s :
  (forall s1, rtc (quiet cfg) s s1 -> wf cfg s1 -> jget x (pendingInbound (inbox s1)) = None -> quietly_at cfg k s1) ->
  quietly_at cfg (do! _ := recordSettledInbound x v in do! _ := upd_inbox (fun i => i <| pendingInbound ::= jdel x |>) in k) s.
Proof.
  intros Hk Hw. unfold bind_eff. pose proof (q_recordSettledInbound cfg x v s Hw) as Q1. pose proof (recordSettled_result x v s) as R.
  destruct (recordSettledInbound x v s) as [[[] | e] s1]; cbn in *; [| done].
  set (s2 := s1 <| inbox ::= _ |>). assert (Q2 : rtc (quiet cfg) s s2).
  { etrans; [exact Q1 |]. destruct R as [R | R]; [apply rtc_once; by apply q_settled_pending |].
    apply rtc_once. constructor. split; try done; [by left |]. unfold s2, assign. cbn. apply jdel_absent.
    rewrite jhas_false in R. by apply jget_None in R. }
  etrans; [exact Q2 |]. assert (W2 : wf cfg s2) by (by eapply quiets_wf). apply Hk; try done.
  apply jget_jdel_eq. apply (quiets_wf _ _ _ Hw Q1).
Qed.

Lemma typed_pending_at x p s s1 :
  wf cfg s -> jget x (pendingInbound (inbox s)) = Some p -> rtc (quiet cfg) s s1 -> typed s1 (pi_timer p) not_deadline.
Proof.
  intros Hw Hp Hq. eapply quiets_typed; [exact Hq |]. eapply typed_weaken, (wf_pending _ _ Hw x p), jget_elem_of, Hp. by intros [].
Qed.

Lemma q_settleInbound x accepted reason : Q (settleInbound cfg listener x accepted reason).
Proof.
  apply keeps_read. intros s Hw. destruct (jget x (pendingInbound (inbox s))) as [p |] eqn:Hp; [| apply at_keeps; quiets].
  apply at_bind; [apply at_keeps; quiets |]. intros result s1 _ Hq Hw1 _.
  case_match; [apply at_keeps; quiets |]. apply at_settled. intros s2 Hq2 Hw2 _.
  apply at_bind; [apply at_cancel; eapply typed_pending_at; [exact Hw | exact Hp | by etrans] | intros; apply at_keeps; quiets].
Qed.

(** [k] last. *)
Lemma at_settled_last x v s :
  quietly_at cfg (do! _ := recordSettledInbound x v in upd_inbox (fun i => i <| pendingInbound ::= jdel x |>)) s.
Proof.
  assert (H : quietly_at cfg (do! _ := recordSettledInbound x v in
    do! _ := upd_inbox (fun i => i <| pendingInbound ::= jdel x |>) in ret tt) s) by (apply at_settled; intros; apply at_keeps; quiets).
  intros Hw. specialize (H Hw). unfold bind_eff in *. by destruct (recordSettledInbound x v s) as [[[] | e] s1].
Qed.

Lemma q_expirePendingInbound x : Q (expirePendingInbound cfg listener x).
Proof.
  apply keeps_read. intros s Hw. destruct (jget x (pendingInbound (inbox s))) as [p |] eqn:Hp; [| apply at_keeps; quiets].
  apply at_bind; [apply at_keeps; quiets |]. intros result s1 _ Hq Hw1 _.
  apply at_bind; [apply at_keeps; unfold count; quiets |]. intros _ s2 _ _ _ _. apply at_settled_last.
Qed.

(** *** A receipt and a report *)

Lemma control_best_effort kind op mid more :
  deliveryClass (control_message kind op mid more) = best_effort /\ coalescingKey (control_message kind op mid more) = None.
Proof. done. Qed.

Lemma q_failedAtomic a b c : Q (failedAtomicTaskSettlement a b c).
Proof. unfold failedAtomicTaskSettlement, now. quiets. Qed.
Hint Resolve q_failedAtomic : quiet.

(** The receipt is taken without a word to the listeners, so that the report
    may still be taken afterwards. *)
Lemma commit_best_effort_frame p a b s :
  o_delivery (po_outbound p) = best_effort -> o_coalescingKey (po_outbound p) = None ->
  a = false -> b = false ->
  let s1 := snd (commitOutbound listener p a b s) in
  committedOperationIDs (ledger s1) = committedOperationIDs (ledger s) /\ time s1 = time s.
Proof.
  intros E1 E2 -> ->. cbv zeta. rewrite commitOutbound_parts. unfold before_queued. rewrite E1, E2. cbn [bool_decide].
  rewrite bool_decide_false by done. cbn [andb negb]. unfold bind_eff, when_, upd_ledger, upd_outbox, modify, ret, after_queued, count_by.
  by destruct (po_replacesFailedResult p).
Qed.

Lemma at_atomic x (fp : list Z) (outcome : AtomicTaskSettlementResult) s :
  quietly_at cfg (upd_inbox (fun i =>
    match jget x (settledInbound i) with
    | Some settled => i <| settledInbound ::= jset x (mkSettled (sd_result settled) (sd_expiresAt settled) (Some (fp, outcome))) |>
    | None => i
    end)) s.
Proof.
  apply q_once. intros _. unfold upd_inbox, modify. cbn [snd]. destruct (jget x (settledInbound (inbox s))) as [settled |] eqn:E.
  - replace (s <| inbox ::= _ |>) with (s <| inbox ::= fun i => i <| settledInbound ::=
      jset x (mkSettled (sd_result settled) (sd_expiresAt settled) (Some (fp, outcome))) |> |>);
      [by apply q_atomic |]. unfold assign. by rewrite E.
  - constructor. unfold assign. rewrite E. split; try done; by left.
Qed.

Lemma at_settle_atomically x report target rid pid fp p s :
  wf cfg s -> jget x (pendingInbound (inbox s)) = Some p ->
  quietly_at cfg (settle_atomically cfg listener x report target rid pid fp p) s.
Proof.
  intros Hw Hp. unfold settle_atomically. apply at_gets. apply at_bind; [apply at_keeps; quiets |].
  intros receipt s1 _ Hq1 Hw1 E1. destruct receipt as [receipt | r | op key reason overload]; [| apply at_keeps; quiets..].
  apply prepare_ready in E1 as (R1 & _ & D1 & K1 & I1 & C1); [| done].
  apply at_gets. apply at_bind; [apply at_keeps; quiets |].
  intros reported s2 _ Hq2 Hw2 E2. destruct reported as [reported | r | op key reason overload];
    [| apply at_keeps; quiets | apply at_keeps; unfold count; quiets].
  apply prepare_ready in E2 as (R2 & _ & D2 & K2 & I2 & C2); [| by intros _].
  apply at_bind.
  { apply at_commitOutbound; [done.. |]. destruct R1. split; try done. rewrite D1. by intros. }
  intros receiptResult s3 _ Hq3 Hw3 E3.
  pose proof (commit_best_effort_frame receipt false false s2 D1 K1 eq_refl eq_refl) as F3. rewrite E3 in F3. destruct F3 as [F3 F4].
  apply at_bind; [apply at_commitOutbound; [done.. |]; by apply (ready_frame reported s2 s3) |].
  intros reportResult s4 _ Hq4 Hw4 _. apply at_settled. intros s5 Hq5 Hw5 _.
  apply at_bind; [apply at_cancel; eapply typed_pending_at; [exact Hw | exact Hp |]; repeat (etrans; [eassumption |]); constructor |].
  intros _ s6 _ _ Hw6 _. do 2 (apply at_bind; [apply at_keeps; quiets | intros ? ? _ _ ? _]).
  cbv zeta. apply at_bind; [apply at_atomic | intros; apply at_keeps; quiets].
Qed.

Lemma q_settleInboundWithTaskReport x report target op : Q (settleInboundWithTaskReport cfg listener x report target op).
Proof.
  unfold settleInboundWithTaskReport.
  apply keeps_bind; [exact _ | quiets | intros reportID]. apply keeps_bind; [exact _ | quiets | intros newID]. cbv zeta.
  apply keeps_bind; [exact _ | quiets | intros p]. do 4 (case_match; [quiets |]).
  destruct (report_fingerprint report target) as [fp |]; [| quiets].
  apply keeps_bind; [exact _ | quiets | intros _]. apply keeps_read. intros s Hw.
  assert (Hpending : quietly_at cfg
    (match jget x (pendingInbound (inbox s)) with
     | None => failedAtomicTaskSettlement (js "control_" ++ newID) reportID (js "settlement does not belong to the reported Task")
     | Some pending =>
         if negb (bool_decide (pi_message_type pending = task_delivery)) ||
            negb (bool_decide (pi_task_id pending = json_string (prop report "task_id"))) then
           failedAtomicTaskSettlement (js "control_" ++ newID) reportID (js "settlement does not belong to the reported Task")
         else if bool_decide (role (node cfg) <> asset) || bool_decide (role (pi_source pending) <> gateway) then
           failedAtomicTaskSettlement (js "control_" ++ newID) reportID (js "atomic Task settlement is only valid for an Asset Task delivery")
         else if negb (sameNode target (pi_source pending)) then
           failedAtomicTaskSettlement (js "control_" ++ newID) reportID (js "Task report destination must match the pending Task source")
         else settle_atomically cfg listener x report target (js "control_" ++ newID) reportID fp pending
     end) s).
  { destruct (jget x (pendingInbound (inbox s))) as [pending |] eqn:Hp; [| apply at_keeps; quiets].
    do 3 (case_match; [apply at_keeps; quiets |]). by apply at_settle_atomically. }
  destruct (jget x (settledInbound (inbox s))) as [[? ? [[known outcome] |]] |]; [| exact Hpending..].
  apply at_keeps. quiets.
Qed.

(** ** Controls and responses *)

Lemma q_resend_missing r m : Q (resend_missing cfg r m).
Proof.
  apply keeps_read. intros s Hw. cbv zeta. apply at_bind; [apply at_keeps; quiets |]. intros _ s1 _ Hq1 Hw1 _.
  apply at_bind.
  - apply at_cancel_optional. intros t Ht. eapply quiets_typed; [exact Hq1 |].
    eapply typed_weaken, (wf_retry _ _ Hw _ _ Ht). by intros [].
  - intros _ s2 _ _ _ _. apply at_keeps. unfold count. quiets.
Qed.
Hint Resolve q_resend_missing : quiet.

Lemma q_handleControl m i : Q (handleControl cfg listener m i).
Proof.
  unfold handleControl. case_match; [case_match; quiets |]. case_match; [quiets |]. apply keeps_read. intros s Hw.
  destruct (control_target (outbox s) m (Frame.source i)) as [r |]; [| apply at_keeps; quiets].
  case_match; [apply at_keeps; quiets |]. cbv zeta.
  destruct (is_text (prop m "control") "confirmed"); cbn [andb]; [| apply at_keeps; quiets].
  destruct (has_type (o_message (objects (outbox s) r)) data_request || _) eqn:Ht; [apply at_keeps; quiets |].
  apply at_completeOutbound; [done |]. intros _. by apply orb_false_iff in Ht as [_ Ht].
Qed.
Hint Resolve q_handleControl : quiet.

Lemma q_handleCompoundReceipt i : Q (handleCompoundReceipt cfg listener i).
Proof. unfold handleCompoundReceipt. quiets. Qed.
Hint Resolve q_handleCompoundReceipt : quiet.

(** The operation a response answers is in the table it was found in. *)
Lemma matching_found o m i r :
  matchingResponseOperation o m i = Some r ->
  jget (request_id m) (pendingDataRequests o) = Some r \/ jget (request_id m) (responseOperations o) = Some r.
Proof.
  unfold matchingResponseOperation. destruct (prop m "request_id"); [| done].
  destruct (jget (request_id m) (pendingDataRequests o)) as [r' |] eqn:E; [intros H; left; f_equal; repeat case_match; congruence |].
  destruct (has_type m data_response); [| done]. destruct (jget (request_id m) (responseOperations o)) as [r' |] eqn:E'; [| done].
  intros H. right. f_equal. repeat case_match; congruence.
Qed.

(** The tables without the operation that was answered. *)
Definition drop_answered (id key : list Z) (o : Outbox) : Outbox :=
  o <| pendingDataRequests ::= jdel id |> <| responseOperations ::= jdel key |> <| outboundByOperation ::= jdel key |>.

Lemma drop_answered_gone o m i r :
  keyed o -> jwf (outboundByOperation o) -> jwf (pendingDataRequests o) -> jwf (responseOperations o) ->
  matchingResponseOperation o m i = Some r ->
  ~ refers (drop_answered (request_id m) (o_trackingKey (objects o r)) o) r.
Proof.
  intros [K1 K2 K3] W1 W2 W3 Hm. unfold drop_answered, assign. intros [(k & Hk) | [(k & Hk) | (k & Hk)]]; cbn in Hk.
  - rewrite jget_jdel in Hk by done. case_decide as E; [done |]. by apply K1 in Hk as [<- _].
  - rewrite jget_jdel in Hk by done. case_decide as E; [done |]. destruct (K2 _ _ Hk) as [Ed _].
    apply matching_found in Hm as [Hm | Hm]; [apply K2 in Hm as [Hm _]; congruence |].
    apply K3 in Hm as [[_ Ht] _]. apply resource_is_no_request in Ht. congruence.
  - rewrite jget_jdel in Hk by done. case_decide as E; [done |]. by apply K3 in Hk as [[<- _] _].
Qed.

Lemma answered_quiet r m i s :
  wf cfg s -> matchingResponseOperation (outbox s) m i = Some r ->
  let o := objects (outbox s) r in
  rtc (quiet cfg) s
    (silenced (o_deadlineTimer o)
       ((silenced (o_retryTimer o) s) <| outbox ::= drop_answered (request_id m) (o_trackingKey o) |>)).
Proof.
  intros Hw Hm o. set (s0 := silenced (o_retryTimer o) s).
  assert (Q0 : rtc (quiet cfg) s s0) by (by apply at_cancel_retry).
  assert (E0 : outbox s0 = outbox s) by (unfold s0, silenced; by destruct (o_retryTimer o)).
  assert (W0 : wf cfg s0) by (exact (quiets_wf _ _ _ Hw Q0)).
  set (f := drop_answered (request_id m) (o_trackingKey o)). set (s1 := s0 <| outbox ::= f |>).
  assert (Eo : outbox s1 = f (outbox s)) by (unfold s1, assign; cbn; by rewrite E0).
  assert (Q1 : rtc (quiet cfg) s0 s1).
  { apply (shrink_quiet s0 f); try done; unfold f, drop_answered, assign; cbn; try (apply shrinks_jdel; apply W0); by destruct (outbox s0). }
  unfold silenced at 1. destruct (o_deadlineTimer o) as [h |] eqn:Ed; cbn; [| by etrans].
  etrans; [exact Q0 |]. etrans; [exact Q1 |]. apply rtc_once. apply (q_cancel_deadline cfg s1 r h).
  - rewrite Eo. exact Ed.
  - rewrite Eo. apply (drop_answered_gone _ _ i); try apply Hw. exact Hm.
Qed.

(** What [completeDataRequest] still does then. *)
Definition after_answer (r : Z) (m : message) (asked : Outbound) : T unit :=
  do! _ := remove_from_queue r in
  do! at_ := now in
  let result := response_result asked m at_ in
  do! _ := retainCompletedOperation (o_trackingKey asked) in
  do! _ := recordOperationTiming asked in
  do! _ := recordOperation result (o_trackingKey asked) in
  emit listener (on_operation result).

Lemma q_completeDataRequest m i : Q (completeDataRequest listener m i).
Proof.
  apply keeps_read. intros s Hw. destruct (matchingResponseOperation (outbox s) m i) as [r |] eqn:Hm; [| apply at_keeps; quiets].
  cbv zeta. set (o := objects (outbox s) r).
  set (s2 := silenced (o_deadlineTimer o) ((silenced (o_retryTimer o) s) <| outbox ::= drop_answered (request_id m) (o_trackingKey o) |>)).
  assert (Q2 : rtc (quiet cfg) s s2) by (by apply (answered_quiet r m i s)).
  intros _. match goal with |- rtc _ _ (snd (?body s)) => replace (body s) with (after_answer r m o s2) end.
  - etrans; [exact Q2 |]. assert (Ha : Q (after_answer r m o)) by (unfold after_answer, now; quiets).
    apply Ha. exact (quiets_wf _ _ _ Hw Q2).
  - unfold s2, silenced, cancel_optional. by destruct (o_retryTimer o), (o_deadlineTimer o).
Qed.
Hint Resolve q_completeDataRequest : quiet.

(** ** Before a message is handed over *)

Lemma q_updatePicture m i : Q (updatePicture m i).
Proof. unfold updatePicture, apply_publication, count. quiets. Qed.

Lemma at_sequences key v s :
  wf cfg s -> quietly_at cfg (upd_inbox (fun b => b <| taskDeliverySequences ::= fun t => jevict TASK_DELIVERY_FENCE_LIMIT (jset key v t) |>)) s.
Proof.
  intros Hw. apply q_once. intros _.
  apply (q_sequences cfg s (jevict TASK_DELIVERY_FENCE_LIMIT (jset key v (taskDeliverySequences (inbox s))))).
  - apply jevict_wf, jset_wf, Hw.
  - rewrite jsize_jevict by done. lia.
Qed.

Lemma q_acceptTaskDeliverySequence m i : Q (acceptTaskDeliverySequence m i).
Proof.
  unfold acceptTaskDeliverySequence. case_match; [quiets |]. cbv zeta. apply keeps_read. intros s Hw.
  destruct (jget _ _); [do 2 (case_match; [apply at_keeps; quiets |]) |];
    (apply at_bind; [by apply at_sequences | intros; apply at_keeps; quiets]).
Qed.

Lemma q_expectsObjectContent i : Q (expectsObjectContent cfg i).
Proof. unfold expectsObjectContent. quiets. Qed.

Lemma at_cancel_reassembly key r s s1 :
  wf cfg s -> jget key (reassemblies (inbox s)) = Some r -> rtc (quiet cfg) s s1 -> quietly_at cfg (cancel_timer (re_timer r)) s1.
Proof.
  intros Hw Hr Hq. apply at_cancel. eapply quiets_typed; [exact Hq |].
  eapply typed_weaken, (wf_reassembly _ _ Hw key r), jget_elem_of, Hr. by intros [].
Qed.

(** A reassembly of the table is replaced. *)
Lemma at_set_reassembly key r s :
  wf cfg s -> typed s (re_timer r) is_reassembly ->
  jhas key (reassemblies (inbox s)) = true \/ jsize (reassemblies (inbox s)) < reassemblyLimit cfg ->
  quietly_at cfg (set_reassembly key r) s.
Proof.
  intros Hw Ht Hs. apply q_once. intros _. apply (q_reassemblies cfg s (jset key r (reassemblies (inbox s)))).
  - apply jset_wf, Hw.
  - intros k v [[= -> ->] | H]%elem_of_jset; [done | by eapply wf_reassembly].
  - pose proof (wf_room _ _ Hw). destruct Hs as [Hk%jhas_elem | Hs]; [by rewrite jsize_jset_present |].
    pose proof (jsize_jset_le key r (reassemblies (inbox s))). lia.
Qed.

Lemma typed_reassembly_new key s : typed s key (eq (expire_reassembly [])) -> typed s key is_reassembly.
Proof. apply typed_weaken. by intros c <-. Qed.

Lemma q_expireReassembly key : Q (expireReassembly cfg listener key).
Proof.
  apply keeps_read. intros s Hw. destruct (jget key (reassemblies (inbox s))) as [r |]; [| apply at_keeps; quiets].
  cbv zeta. case_match; [| apply at_keeps; quiets].
  apply at_bind; [apply at_keeps; quiets |]. intros _ s1 _ _ Hw1 _. apply at_bind; [apply at_keeps; unfold count; quiets |].
  intros _ s2 _ _ Hw2 _. apply at_bind; [apply at_keeps; quiets |]. intros h s3 _ _ Hw3 E.
  apply (schedule_typed _ _ _ _ _ Hw2) in E.
  destruct (jget key (reassemblies (inbox s3))) as [r' |] eqn:Hr.
  - assert (Hset : quietly_at cfg (set_reassembly key (r' <| re_timer := h |>)) s3).
    { apply at_set_reassembly; [done | eapply typed_weaken; [| exact E]; by intros c <- | left; by apply jhas_true; eexists]. }
    unfold quietly_at, set_reassembly, upd_inbox, modify in *. cbn [snd] in *. unfold assign in *. by rewrite Hr.
  - apply q_once. intros _. constructor. cbn [snd upd_inbox modify]. unfold assign. rewrite Hr. split; try done; by left.
Qed.
End in_.

#[export] Hint Resolve q_checkSourceFence q_activateSourceFence q_announceSourceActivation q_rejectAddressedMessage
  q_rejectInboundCapacity q_answer q_settleInbound q_expirePendingInbound q_settleInboundWithTaskReport q_handleControl
  q_handleCompoundReceipt q_completeDataRequest q_updatePicture q_acceptTaskDeliverySequence q_expectsObjectContent
  q_drop_reassembly q_expireReassembly : quiet.
