(* ===== verification/TransportDelivery.v ===== *)
(** * The transport: receiving is moves and at most one delivery

    A packet hands over at most one message.  What [receive] does is a
    sequence of moves or, around them, one delivery: the source is fenced, a
    message that needs a settlement is admitted, and the application is told. *)

From Stdlib Require Import ZArith Lia String.
From stdpp Require Import base list option relations.
From S2P Require Import Prelude JsMap BinaryIO Wtf8 Json CompactValue Compression LinkTypes Frame Contract StateDelta Picture PictureProjection JsState Clock TransportState TransportBase TransportOut TransportPump TransportIn TransportMoves TransportRefines TransportOutMoves TransportInMoves.

#[local] Arguments jset : simpl never.
#[local] Arguments jdel : simpl never.
#[local] Arguments jget : simpl never.
#[local] Arguments jsize : simpl never.
#[local] Arguments jhas : simpl never.
#[local] Arguments assign : simpl never.

(** ** What a delivery is *)

(** The event carries the frame's identity. *)
Record from_frame {zlib : Zlib} (i : FrameIdentity) (e : MessageEvent) : Prop := {
  ff_source : me_source e = Frame.source i;
  ff_generation : me_generation e = source_generation i;
  ff_session : me_session e = service_session i;
  ff_settlement : me_settlement_id e = inboundSettlementID i
}.

(** A message that needs a settlement waits for it from now on. *)
Definition admission (cfg : Settings) (e : MessageEvent) (s s' : LinkTransport) : Prop :=
  if me_requires_settlement e then
    let x := me_settlement_id e in
    exists p, jget x (settledInbound (inbox s)) = None /\ jget x (pendingInbound (inbox s)) = None /\
      jsize (pendingInbound (inbox s)) < confirmedLimit cfg /\
      jsize (settledInbound (inbox s)) + jsize (pendingInbound (inbox s)) < SETTLED_INBOUND_LIMIT /\
      typed s (pi_timer p) is_settlement /\
      s' = s <| inbox ::= fun i => i <| pendingInbound ::= jset x p |> |>
  else s' = s.

Definition hand_over (e : MessageEvent) (s : LinkTransport) : LinkTransport :=
  s <| told ::= fun l => l ++ [event_signal (on_message e)] |>.

Definition delivered (cfg : Settings) (e : MessageEvent) (s s' : LinkTransport) : Prop :=
  exists s1 s2 s3, rtc (quiet cfg) s s1 /\ admission cfg e s1 s2 /\ rtc (quiet cfg) s2 s3 /\ rtc (quiet cfg) (hand_over e s3) s'.

Lemma admission_quiet cfg e s s' : admission cfg e s s' -> rtc (quiet cfg) s s'.
Proof.
  unfold admission. case_match; [| intros ->; constructor]. intros (p & H1 & H2 & H3 & H4 & H5 & ->).
  apply rtc_once. by apply q_admit.
Qed.

Lemma hand_over_wf cfg e s : wf cfg s -> wf cfg (hand_over e s).
Proof. intros []. by split. Qed.

Lemma delivered_wf cfg e s s' : wf cfg s -> delivered cfg e s s' -> wf cfg s'.
Proof.
  intros Hw (s1 & s2 & s3 & Q1 & Ha & Q3 & Q4). eapply quiets_wf; [| exact Q4]. apply hand_over_wf.
  eapply quiets_wf; [| exact Q3]. eapply quiets_wf; [| exact (admission_quiet _ _ _ _ Ha)]. by eapply quiets_wf.
Qed.

Section delivery.
Context {zlib : Zlib} {validators : Validators} {host : Host} (cfg : Settings).
Context (listener : Signal -> T unit) (Hlistener : forall signal, keeps (quietly cfg) (listener signal)).
Abbreviation Q := (keeps (quietly cfg)) (only parsing).

(** From the state where the frame's source is fenced on: moves, or a delivery. *)
Definition hands_over (i : FrameIdentity) {A} (m : T A) (s : LinkTransport) : Prop :=
  wf cfg s ->
  rtc (quiet cfg) s (snd (m s)) \/
  exists e, from_frame i e /\ me_received_at e = time s /\ delivered cfg e s (snd (m s)).

Lemma hands_quiet i {A} (m : T A) s : quietly_at cfg m s -> hands_over i m s.
Proof. intros H Hw. left. by apply H. Qed.

Lemma delivered_after e s s1 s2 : rtc (quiet cfg) s s1 -> delivered cfg e s1 s2 -> delivered cfg e s s2.
Proof. intros Hq (a & b & c & Q1 & Ha & Q2 & Q3). exists a, b, c. split_and!; try done. by etrans. Qed.

Lemma hands_bind i {A B} (m : T A) (k : A -> T B) s :
  quietly_at cfg m s -> (forall a s1, rtc (quiet cfg) s s1 -> wf cfg s1 -> m s = (Ok a, s1) -> hands_over i (k a) s1) ->
  hands_over i (bind_eff m k) s.
Proof.
  intros Hm Hk Hw. unfold bind_eff. specialize (Hm Hw). destruct (m s) as [[a | e] s1] eqn:E; [| by left].
  cbn in Hm. assert (Hw1 : wf cfg s1) by (exact (quiets_wf _ _ _ Hw Hm)).
  destruct (Hk a s1 Hm Hw1 eq_refl Hw1) as [Hq | (e & He & Ht & Hd)]; [left; by etrans |].
  right. exists e. split; [done |]. split; [by rewrite Ht; apply (quiets_time cfg) |]. by eapply delivered_after.
Qed.

Lemma hands_gets i {A B} (f : LinkTransport -> A) (k : A -> T B) s : hands_over i (k (f s)) s -> hands_over i (bind_eff (gets f) k) s.
Proof. done. Qed.

(** ** Handing a message over *)

(** Of the last state of a sequence. *)
Lemma bind_last {A B} (P : LinkTransport -> Prop) (m : T A) (k : A -> T B) s :
  wf cfg s -> Q m -> (forall s1, rtc (quiet cfg) s s1 -> P s1) ->
  (forall a s1, rtc (quiet cfg) s s1 -> wf cfg s1 -> P (snd (k a s1))) -> P (snd (bind_eff m k s)).
Proof.
  intros Hw Hm Ht Hk. unfold bind_eff. specialize (Hm s Hw). destruct (m s) as [[a | e] s1]; cbn in Hm; [| by apply Ht].
  apply Hk; [done | exact (quiets_wf _ _ _ Hw Hm)].
Qed.

Lemma deliver_spec m i x order addressed requires s :
  wf cfg s ->
  let s' := snd (deliver listener m i x order addressed requires s) in
  rtc (quiet cfg) s s' \/
  exists e s3, me_source e = Frame.source i /\ me_generation e = source_generation i /\ me_session e = service_session i /\
    me_settlement_id e = x /\ me_requires_settlement e = requires /\ me_received_at e = time s /\
    rtc (quiet cfg) s s3 /\ rtc (quiet cfg) (hand_over e s3) s'.
Proof.
  intros Hw. cbv zeta. unfold deliver. apply bind_last; [done | quiets | by left |]. intros [] s1 Q1 W1.
  apply bind_last; [done | quiets | intros; left; by etrans |]. intros [] s2 Q2 W2.
  assert (Q3 : rtc (quiet cfg) s s2) by (by etrans). right.
  exists (mkMessageEvent m (operation_id i) x (Frame.source i) (destination i) (source_generation i) (service_session i)
            (source_sequence i) (time s2) addressed requires), s2.
  split_and!; try reflexivity; [by apply (quiets_time cfg) in Q3 | done |].
  unfold bind_eff, now, gets, emit, tell. cbn [snd]. apply Hlistener. by apply (hand_over_wf cfg _ s2).
Qed.

Lemma from_frame_of i e :
  me_source e = Frame.source i -> me_generation e = source_generation i -> me_session e = service_session i ->
  me_settlement_id e = inboundSettlementID i -> from_frame i e.
Proof. intros. by split. Qed.

(** A message that needs no settlement. *)
Lemma deliver_hands m i order addressed s :
  hands_over i (deliver listener m i (inboundSettlementID i) order addressed false) s.
Proof.
  intros Hw. destruct (deliver_spec m i (inboundSettlementID i) order addressed false s Hw) as [Hq | (e & s3 & E1 & E2 & E3 & E4 & E5 & E6 & Q3 & Q4)];
    [by left |]. right. exists e. split; [by apply from_frame_of |]. split; [done |].
  exists s, s, s3. split; [constructor |]. split; [unfold admission; by rewrite E5 |]. done.
Qed.

(** A message that waits for its settlement. *)
Lemma admitted_hands m i order addressed radio s :
  let x := inboundSettlementID i in
  jget x (settledInbound (inbox s)) = None -> jget x (pendingInbound (inbox s)) = None ->
  jsize (pendingInbound (inbox s)) < confirmedLimit cfg ->
  jsize (settledInbound (inbox s)) + jsize (pendingInbound (inbox s)) < SETTLED_INBOUND_LIMIT ->
  hands_over i (do! _ := await_settlement m i x radio in deliver listener m i x order addressed true) s.
Proof.
  intros x Hs Hp Hc Hl Hw. unfold await_settlement.
  pose proof (keeps_schedule (cfg := cfg) (DEADLINE_MS (priority i)) (expire_pending_inbound x) s Hw) as Q1.
  pose proof (schedule_typed (cfg := cfg) (DEADLINE_MS (priority i)) (expire_pending_inbound x) s) as Ty.
  assert (I1 : inbox (snd (schedule_timer (DEADLINE_MS (priority i)) (expire_pending_inbound x) s)) = inbox s)
    by (unfold schedule_timer; by destruct (schedule _ _ _) as [[h c] | e]).
  lazymatch goal with |- rtc _ _ ?out \/ _ => remember out as s' eqn:Es end. unfold bind_eff in Es.
  destruct (schedule_timer (DEADLINE_MS (priority i)) (expire_pending_inbound x) s) as [[h | e] s1]; cbn [snd] in Q1, I1;
    [| left; by rewrite Es].
  specialize (Ty h s1 Hw eq_refl). cbn [upd_inbox modify] in Es.
  set (p := mkPending _ _ _ _ _ _ h) in Es. set (s2 := s1 <| inbox ::= fun b => b <| pendingInbound ::= jset x p |> |>).
  assert (Q2 : quiet cfg s1 s2).
  { apply q_admit; rewrite ?I1; try done. eapply typed_weaken; [| exact Ty]. by intros c <-. }
  assert (W2 : wf cfg s2) by (eapply quiet_wf; [exact (quiets_wf _ _ _ Hw Q1) | exact Q2]).
  assert (T2 : time s2 = time s) by (apply (quiets_time cfg); by eapply rtc_r).
  pose proof (deliver_spec m i x order addressed true s2 W2) as Hd. cbv zeta in Hd.
  change (s' = snd (deliver listener m i x order addressed true s2)) in Es.
  rewrite <- Es in Hd. destruct Hd as [Hq | (e & s3 & E1 & E2 & E3 & E4 & E5 & E6 & Q3 & Q4)].
  - left. etrans; [exact Q1 |]. by eapply rtc_l.
  - right. exists e. split; [by apply from_frame_of |]. split; [congruence |].
    exists s1, s2, s3. split; [exact Q1 |]. split; [| done]. unfold admission. rewrite E5. cbv zeta. exists p.
    rewrite E4, I1. split_and!; try done. eapply typed_weaken; [| exact Ty]. by intros c <-.
Qed.

Lemma hands_ext i {A} (m m' : T A) s : m s = m' s -> hands_over i m' s -> hands_over i m s.
Proof. unfold hands_over. by intros ->. Qed.

Lemma hands_assoc i {A B C} (m : T A) (f : A -> T B) (k : B -> T C) s :
  hands_over i (do! a := m in do! b := f a in k b) s -> hands_over i (do! b := (do! a := m in f a) in k b) s.
Proof. apply hands_ext. unfold bind_eff. by destruct (m s) as [[a | e] s1]. Qed.

Lemma hands_not i (m : T unit) (k : T unit) s : Q m -> hands_over i (do! go := (do! _ := m in ret false) in when_ go k) s.
Proof.
  intros Hm. apply hands_assoc, hands_quiet, at_keeps, keeps_bind; [exact _ | done |]. intros _. by apply (keeps_ret (quietly cfg)).
Qed.

Lemma admit_confirmed_hands m i order addressed radio s :
  let x := inboundSettlementID i in
  jget x (settledInbound (inbox s)) = None -> jget x (pendingInbound (inbox s)) = None ->
  hands_over i (do! go := admit_confirmed cfg listener m i x order radio in when_ go (deliver listener m i x order addressed true)) s.
Proof.
  intros x Hs Hp. apply hands_assoc, hands_gets. cbv zeta.
  case_match; [apply hands_not; unfold count; quiets |].
  destruct ((confirmedLimit cfg <=? _) || _) eqn:Hc; [apply hands_not; quiets |]. apply orb_false_iff in Hc as [Hc _].
  destruct (SETTLED_INBOUND_LIMIT <=? _) eqn:Hl; [apply hands_not; quiets |]. apply Z.leb_gt in Hc, Hl.
  apply hands_assoc. by apply admitted_hands.
Qed.

(** ** Receiving *)

Lemma admit_message_hands m i addressed radio s : hands_over i (admit_message cfg listener m i addressed radio) s.
Proof.
  apply hands_bind; [apply at_keeps; quiets |]. intros order s1 _ _ _.
  case_match; [apply hands_quiet, at_keeps; unfold count; quiets |].
  case_match; [apply hands_quiet, at_keeps; unfold count; quiets |]. cbv zeta.
  set (requires := bool_decide (deliveryClass m = confirmed) && addressed).
  apply hands_bind; [apply at_keeps; quiets |]. intros _ s2 _ _ _. apply hands_gets.
  destruct requires.
  - destruct (jget _ _) eqn:Hs; [apply hands_quiet, at_keeps; unfold count; quiets |].
    destruct (jhas _ _) eqn:Hp; [apply hands_quiet, at_keeps; unfold count; quiets |]. apply jhas_false in Hp.
    apply hands_gets. case_match; [apply hands_quiet, at_keeps; quiets |]. by apply admit_confirmed_hands.
  - apply hands_gets. case_match; [apply hands_quiet, at_keeps; quiets |].
    apply hands_bind; [apply at_keeps; quiets |]. intros go s3 _ _ [= <- <-]. apply deliver_hands.
Qed.

Lemma dispatch_hands m i radio s : hands_over i (dispatch_message cfg listener m i radio) s.
Proof.
  unfold dispatch_message. case_match; [apply hands_quiet, at_keeps; quiets |]. cbv zeta. apply hands_gets.
  do 4 (case_match; [apply hands_quiet, at_keeps; quiets |]). apply admit_message_hands.
Qed.

(** ** The whole of a packet *)

(** Moves, or moves up to a state where the frame's source is fenced, and a
    delivery from there on. *)
Definition receives (i : FrameIdentity) {A} (m : T A) (s : LinkTransport) : Prop :=
  wf cfg s ->
  rtc (quiet cfg) s (snd (m s)) \/
  exists e s0, from_frame i e /\ me_received_at e = time s /\ rtc (quiet cfg) s s0 /\
    fenced (Frame.source i) (source_generation i) (service_session i) s0 /\ delivered cfg e s0 (snd (m s)).

Lemma receives_quiet i {A} (m : T A) s : quietly_at cfg m s -> receives i m s.
Proof. intros H Hw. left. by apply H. Qed.

Lemma receives_bind i {A B} (m : T A) (k : A -> T B) s :
  quietly_at cfg m s -> (forall a s1, rtc (quiet cfg) s s1 -> wf cfg s1 -> m s = (Ok a, s1) -> receives i (k a) s1) ->
  receives i (bind_eff m k) s.
Proof.
  intros Hm Hk Hw. unfold bind_eff. specialize (Hm Hw). destruct (m s) as [[a | e] s1] eqn:E; [| by left].
  cbn in Hm. assert (Hw1 : wf cfg s1) by (exact (quiets_wf _ _ _ Hw Hm)).
  destruct (Hk a s1 Hm Hw1 eq_refl Hw1) as [Hq | (e & s0 & He & Ht & Hq & Hf & Hd)]; [left; by etrans |].
  right. exists e, s0. split_and!; try done; [by rewrite Ht; apply (quiets_time cfg) | by etrans].
Qed.

Lemma receives_gets i {A B} (f : LinkTransport -> A) (k : A -> T B) s : receives i (k (f s)) s -> receives i (bind_eff (gets f) k) s.
Proof. done. Qed.

Lemma receives_fenced i {A} (m : T A) s :
  fenced (Frame.source i) (source_generation i) (service_session i) s -> hands_over i m s -> receives i m s.
Proof.
  intros Hf Hh Hw. destruct (Hh Hw) as [Hq | (e & He & Ht & Hd)]; [by left |]. right. exists e, s.
  by split_and!.
Qed.

Lemma handleCompleteMessage_receives i payload radio s : receives i (handleCompleteMessage cfg listener i payload radio) s.
Proof.
  unfold handleCompleteMessage. destruct (decodeMessagePayload payload) as [bytes | e]; [| apply receives_quiet, at_keeps; unfold count; quiets].
  apply receives_gets. destruct (decode_message _ _ _) as [decoded d].
  apply receives_bind; [apply at_keeps; quiets |]. intros _ s1 _ _ _.
  destruct decoded as [[m delta] |]; [| apply receives_quiet, at_keeps; unfold count; quiets].
  do 2 (case_match; [apply receives_quiet, at_keeps; quiets |]).
  apply receives_bind; [apply at_keeps; quiets |]. intros rejection s2 _ _ E.
  destruct rejection as [reason |]; [apply receives_quiet, at_keeps; quiets |]. apply activate_fenced in E.
  apply receives_fenced; [done |]. apply hands_bind; [apply at_keeps; quiets |]. intros _ s3 _ _ _.
  apply hands_bind; [apply at_keeps; quiets |]. intros _ s4 _ _ _. apply hands_gets.
  case_match; [apply hands_quiet, at_keeps; quiets |]. case_match; [apply hands_quiet, at_keeps; quiets |].
  apply dispatch_hands.
Qed.

(** *** Its reassembly *)

Lemma oldest_elem l e : oldest_reassembly l = Some e -> e ∈ l.
Proof.
  unfold oldest_reassembly. assert (H : forall l (best : option (list Z * Reassembly)), fold_left (fun best (entry : list Z * Reassembly) =>
      match best with
      | None => Some entry
      | Some b => if re_lastReceivedAt (snd entry) <? re_lastReceivedAt (snd b) then Some entry else best
      end) l best = Some e -> best = Some e \/ e ∈ l).
  { intros l'. induction l' as [| x l' IH]; intros best; cbn; [by left |]. intros [H | H]%IH; [| right; by right].
    revert H. destruct best as [b |]; [| intros [= ->]; right; by left]. case_match; [intros [= ->]; right; by left | by left]. }
  intros [? | ?]%H; done.
Qed.

Lemma oldest_none l : oldest_reassembly l = None -> l = [].
Proof.
  destruct l as [| x l]; [done |]. unfold oldest_reassembly. cbn. intros H. exfalso. revert H. generalize x. clear x.
  induction l as [| y l IH]; intros x; cbn; [done |]. case_match; apply IH.
Qed.

(** There is room afterwards. *)
Lemma room_spec s :
  wf cfg s -> rtc (quiet cfg) s (snd (makeReassemblyRoom cfg s)) /\
  jsize (reassemblies (inbox (snd (makeReassemblyRoom cfg s)))) < reassemblyLimit cfg.
Proof.
  intros Hw. unfold makeReassemblyRoom, bind_eff, gets.
  destruct (jsize (reassemblies (inbox s)) <? reassemblyLimit cfg) eqn:Hl; [apply Z.ltb_lt in Hl; by split; [constructor |] |].
  apply Z.ltb_ge in Hl. pose proof (wf_limit _ _ Hw). pose proof (wf_room _ _ Hw).
  destruct (oldest_reassembly _) as [[key r] |] eqn:Ho; cycle 1.
  { apply oldest_none in Ho. rewrite Ho in Hl. change (jsize _) with 0 in Hl. lia. }
  apply oldest_elem in Ho. assert (Hr : jget key (reassemblies (inbox s)) = Some r) by (apply jget_of_elem; [apply Hw | done]).
  pose proof (at_cancel_reassembly cfg key r s s Hw Hr (rtc_refl _ _) Hw) as Q1. cbn [cancel_timer modify snd] in *.
  set (s1 := s <| clock ::= _ |>) in *. assert (W1 : wf cfg s1) by (exact (quiets_wf _ _ _ Hw Q1)). split.
  - etrans; [exact Q1 |]. by apply (q_drop_reassembly cfg key s1).
  - unfold drop_reassembly, bind_eff, upd_inbox, modify, count. cbn. unfold assign. cbn.
    change (reassemblies (inbox s1)) with (reassemblies (inbox s)). rewrite jsize_jdel_present by (by eapply elem_of_jkeys). lia.
Qed.

(** The reassembly found is the table's. *)
Lemma find_spec key f packet s :
  wf cfg s -> rtc (quiet cfg) s (snd (find_reassembly cfg key f packet s)) /\
  forall r s1, find_reassembly cfg key f packet s = (Ok r, s1) -> jget key (reassemblies (inbox s1)) = Some r.
Proof.
  intros Hw. unfold find_reassembly, bind_eff, gets.
  destruct (jget key (reassemblies (inbox s))) as [r |] eqn:Hr; [split; [constructor | by intros r1 s1 [= <- <-]] |].
  destruct (room_spec s Hw) as [Q1 R1]. destruct (makeReassemblyRoom cfg s) as [[u | e] s1]; cbn [snd] in *; [| by split].
  assert (W1 : wf cfg s1) by (exact (quiets_wf _ _ _ Hw Q1)).
  pose proof (keeps_schedule (cfg := cfg) (reassemblyTimeoutMs cfg) (expire_reassembly key) s1 W1) as Q2.
  pose proof (schedule_typed (cfg := cfg) (reassemblyTimeoutMs cfg) (expire_reassembly key) s1) as Ty.
  assert (I1 : inbox (snd (schedule_timer (reassemblyTimeoutMs cfg) (expire_reassembly key) s1)) = inbox s1)
    by (unfold schedule_timer; by destruct (schedule _ _ _) as [[h c] | e]).
  destruct (schedule_timer _ _ s1) as [[h | e] s2]; cbn [snd] in *; [| split; [by etrans | done]].
  assert (Q12 : rtc (quiet cfg) s s2) by (by etrans). assert (W2 : wf cfg s2) by (exact (quiets_wf _ _ _ Hw Q12)).
  cbn [now gets]. set (r := mkReassembly _ _ _ _ _ _ _ h). split.
  - etrans; [exact Q12 |]. apply (at_set_reassembly cfg key r s2); [done | | right; by rewrite I1 | done].
    eapply typed_weaken; [| exact (Ty h s2 W1 eq_refl)]. by intros c <-.
  - intros r1 s3 [= <- <-]. apply jget_jset_eq.
Qed.

Lemma receive_chunk_receives key r f packet i s :
  re_identity r = i -> jget key (reassemblies (inbox s)) = Some r -> receives i (receive_chunk cfg listener key r f packet) s.
Proof.
  intros Hi Hr Hw. revert Hw. fold (receives i (receive_chunk cfg listener key r f packet) s). unfold receive_chunk.
  case_match; [apply receives_quiet, at_keeps; quiets |]. case_match; [apply receives_quiet, at_keeps; unfold count; quiets |].
  case_match.
  { apply receives_quiet. intros Hw. revert Hw. apply at_bind; [| intros; apply at_keeps; quiets].
    intros Hw. exact (at_cancel_reassembly cfg key r s s Hw Hr (rtc_refl _ _) Hw). }
  cbv zeta. set (r' := add_chunk r f packet).
  apply receives_bind; [intros Hw; exact (at_cancel_reassembly cfg key r s s Hw Hr (rtc_refl _ _) Hw) |].
  intros u s1 Q1 W1 E1. assert (Hr1 : jget key (reassemblies (inbox s1)) = Some r) by (injection E1 as _ <-; exact Hr).
  destruct (negb (jsize (re_chunks r') =? re_chunkCount r')).
  - apply receives_quiet. apply at_bind; [apply at_keeps; quiets |]. intros h s2 _ Q2 W2 E2.
    assert (I2 : inbox s2 = inbox s1).
    { revert E2. unfold schedule_timer. by destruct (schedule _ _ _) as [[h' c] | e]; [intros [= _ <-] |]. }
    apply at_set_reassembly; [done | | left; rewrite I2; by apply jhas_true; eexists].
    eapply typed_weaken; [| exact (schedule_typed _ _ _ _ _ W1 E2)]. by intros c <-.
  - apply receives_bind; [by apply at_del_reassembly |]. intros _ s2 _ _ _.
    apply receives_bind; [apply at_keeps; quiets |]. intros payload s3 _ _ _. rewrite <- Hi.
    exact (handleCompleteMessage_receives (re_identity r') payload (re_radioPacketID r') s3).
Qed.

(** What a packet may do to a transport: moves, and a delivery at most. *)
Definition received (s s' : LinkTransport) : Prop :=
  rtc (quiet cfg) s s' \/
  exists i e s0, from_frame i e /\ me_received_at e = time s /\ rtc (quiet cfg) s s0 /\
    fenced (Frame.source i) (source_generation i) (service_session i) s0 /\ delivered cfg e s0 s'.

Lemma received_after s s1 s2 : rtc (quiet cfg) s s1 -> received s1 s2 -> received s s2.
Proof.
  intros Hq [? | (i & e & s0 & He & Ht & Q0 & Hf & Hd)]; [left; by etrans |]. right. exists i, e, s0.
  split_and!; try done; [by rewrite Ht; apply (quiets_time cfg) | by etrans].
Qed.

Lemma received_chunk {A} i (m : T A) s : wf cfg s -> receives i m s -> received s (snd (m s)).
Proof. intros Hw H. destruct (H Hw) as [? | (e & s0 & ?)]; [by left | right; by exists i, e, s0]. Qed.

Lemma receive_received packet s : wf cfg s -> received s (snd (receive cfg listener packet s)).
Proof.
  assert (Hq : forall s (m : T unit), wf cfg s -> Q m -> received s (snd (m s))) by (intros s0 m Hw Hm; left; by apply Hm).
  intros Hw. unfold receive. apply bind_last; [done | quiets | by left |]. intros p s0 Q0 W0. apply (received_after _ s0); [done |].
  case_match; [apply Hq; [done | quiets] |].
  apply bind_last; [done | unfold count; quiets | by left |]. intros _ s1 Q1 W1. apply (received_after _ s1); [done |].
  destruct (decodeFrame (p_payload packet)) as [f | e]; [| apply Hq; [done | unfold count; quiets]]. cbv zeta.
  case_match; [apply Hq; [done | quiets] |].
  apply bind_last; [done | quiets | by left |]. intros rejection s2 Q2 W2. apply (received_after _ s2); [done |].
  destruct rejection; [apply Hq; [done | quiets] |].
  apply bind_last; [done | quiets | by left |]. intros expected s3 Q3 W3. apply (received_after _ s3); [done |].
  case_match; [apply Hq; [done | quiets] |].
  destruct (find_spec (reassembly_key (Frame.identity f)) f packet s3 W3) as [Q4 F4]. unfold bind_eff.
  destruct (find_reassembly cfg (reassembly_key (Frame.identity f)) f packet s3) as [[r | e] s4]; cbn [snd] in Q4; [| by left].
  apply (received_after _ s4); [done |]. apply (received_chunk (re_identity r)); [exact (quiets_wf _ _ _ W3 Q4) |].
  apply receive_chunk_receives; [done | by apply F4].
Qed.
End delivery.
