(* ===== verification/TransportInvariants.v ===== *)
(** * The transport: its invariants

    What the moves of [TransportMoves] and the deliveries of
    [TransportDelivery] keep: the bounds of the tables, that a committed
    identity is not taken again, that a message is settled once, that a source
    does not go back, and that what is waited for has a deadline. *)

From Stdlib Require Import ZArith Lia String.
From stdpp Require Import base list option relations gmap sorting.
From S2P Require Import Prelude JsMap BinaryIO Wtf8 Json CompactValue Compression LinkTypes Frame Contract StateDelta Picture JsState Clock TransportState TransportBase TransportOut TransportMoves TransportRefines TransportOutMoves TransportInMoves TransportDelivery.



#[local] Arguments jset : simpl never.
#[local] Arguments jdel : simpl never.
#[local] Arguments jget : simpl never.
#[local] Arguments jsize : simpl never.
#[local] Arguments jhas : simpl never.

(** Two places of a sorted sequence. *)
Lemma sorted_apart {A} (R : A -> A -> Prop) l1 a l2 b l3 : StronglySorted R (l1 ++ a :: l2 ++ b :: l3) -> R a b.
Proof.
  intros H%StronglySorted_app_1_r. apply StronglySorted_inv in H as [_ H]. rewrite Forall_elem in H.
  apply H, elem_of_app. right. apply list_elem_of_here.
Qed.

(** ** The bounds of the tables *)

(** The settlements a node remembers or awaits. *)
Definition settlements (i : Inbox) : gset (list Z) :=
  list_to_set (jkeys (settledInbound i)) ∪ list_to_set (jkeys (pendingInbound i)).

Record bounded (cfg : Settings) (s : LinkTransport) : Prop := {
  b_pending : jsize (pendingInbound (inbox s)) <= Z.max 0 (confirmedLimit cfg);
  b_reassemblies : jsize (reassemblies (inbox s)) <= reassemblyLimit cfg;
  b_fences : jsize (sourceFences (inbox s)) <= LINK_SOURCE_IDENTITY_LIMIT;
  b_sequences : jsize (taskDeliverySequences (inbox s)) <= TASK_DELIVERY_FENCE_LIMIT;
  b_committed : jsize (committedOperationIDs (ledger s)) <= COMMITTED_OPERATION_ID_LIMIT;
  b_settlements : Z.of_nat (size (settlements (inbox s))) <= SETTLED_INBOUND_LIMIT
}.

Lemma elem_settlements x i : x ∈ settlements i <-> jhas x (settledInbound i) = true \/ jhas x (pendingInbound i) = true.
Proof. unfold settlements. rewrite elem_of_union, !elem_of_list_to_set, !jhas_elem. done. Qed.

Lemma size_union_le (X Y : gset (list Z)) : (size (X ∪ Y) <= size X + size Y)%nat.
Proof. rewrite size_union_alt. assert (Hs : Y ∖ X ⊆ Y) by (intros x; rewrite elem_of_difference; tauto). apply subseteq_size in Hs. lia. Qed.

Lemma size_keys_le (l : list (list Z)) : (size (list_to_set l : gset (list Z)) <= length l)%nat.
Proof.
  induction l as [| x l IH]; cbn; [by rewrite size_empty |].
  pose proof (size_union_le {[x]} (list_to_set l)) as H. rewrite size_singleton in H. lia.
Qed.

Lemma size_settlements_le i : Z.of_nat (size (settlements i)) <= jsize (settledInbound i) + jsize (pendingInbound i).
Proof.
  unfold settlements. pose proof (size_union_le (list_to_set (jkeys (settledInbound i))) (list_to_set (jkeys (pendingInbound i)))).
  pose proof (size_keys_le (jkeys (settledInbound i))) as H1. pose proof (size_keys_le (jkeys (pendingInbound i))) as H2.
  unfold jkeys in *. rewrite length_map in *. unfold jsize, zlen. lia.
Qed.

Lemma settlements_subset i i' :
  settlements i' ⊆ settlements i -> Z.of_nat (size (settlements i)) <= SETTLED_INBOUND_LIMIT ->
  Z.of_nat (size (settlements i')) <= SETTLED_INBOUND_LIMIT.
Proof. intros H%subseteq_size. lia. Qed.

(** One more settlement, where there is room. *)
Lemma settlements_one_more x i i' :
  settlements i' ⊆ {[x]} ∪ settlements i -> jsize (settledInbound i) + jsize (pendingInbound i) < SETTLED_INBOUND_LIMIT ->
  Z.of_nat (size (settlements i')) <= SETTLED_INBOUND_LIMIT.
Proof.
  intros H%subseteq_size Hr. pose proof (size_union_le {[x]} (settlements i)) as Hu. rewrite size_singleton in Hu.
  pose proof (size_settlements_le i). lia.
Qed.

Lemma prune_expired_size at_ rest head committed : jsize (snd (prune_expired at_ rest head committed)) <= jsize committed.
Proof.
  revert head committed. induction rest as [| [k e] rest IH]; intros head committed; cbn; [lia |].
  destruct (at_ <? e); [cbn; lia |]. etrans; [apply IH |]. case_match; [apply jsize_jdel_le | lia].
Qed.

Lemma jhas_suffix {V} (a b : list (list Z * V)) x : jhas x b = true -> jhas x (a ++ b) = true.
Proof.
  rewrite !jhas_elem. unfold jkeys. rewrite map_app, elem_of_app. by right.
Qed.

Lemma jhas_prune_settled at_ m x : jhas x (prune_settled at_ m) = true -> jhas x m = true.
Proof. destruct (prune_settled_suffix at_ m) as (gone & E & _). rewrite E at 2. apply jhas_suffix. Qed.

Lemma quiet_bounded cfg s s' : wf cfg s -> quiet cfg s s' -> bounded cfg s -> bounded cfg s'.
Proof.
  intros Hw Hq []. pose proof (wf_room _ _ (quiet_wf _ _ _ Hw Hq)) as Hroom.
  pose proof Hw as [].
  destruct Hq as [s' [] | | | | | | | | | r m h c Hm Hr Hk Hsize _ Hs | | key q Hk | | x v Hn Hp | x settled outcome Hset | x Hx | Hst
                 | x p Hn1 Hn2 Hc Hl Ht | key g se Hf | m Hm Ht Hb | m Hm Hb | ];
    split; try exact Hroom; try (cbn; assumption).
  1-4: by rewrite ?same_pending, ?same_fences, ?same_sequences, ?same_committed.
  - apply (settlements_subset (inbox s)); [| done]. unfold settlements. by rewrite same_pending, same_settled.
  - cbn. pose proof (jsize_jset_le (o_trackingKey m) None (committedOperationIDs (ledger s))). lia.
  - cbn. rewrite prune_ledger_committed. etrans; [apply prune_expired_size | done].
  - cbn. rewrite jsize_jset_present by (by apply jhas_elem). done.
  - apply (settlements_subset (inbox s)); [| done]. intros y. rewrite !elem_settlements. cbn.
    intros [H%jhas_prune_settled | ?]; [by left | by right].
  - destruct Hp as [Hp | Hp].
    + apply (settlements_subset (inbox s)); [| done]. intros y. rewrite !elem_settlements. cbn. rewrite jhas_jset, orb_true_iff.
      intros [[->%bool_decide_eq_true | ?] | ?]; auto.
    + apply (settlements_one_more x (inbox s)); [| done]. intros y. rewrite elem_of_union, elem_of_singleton, !elem_settlements. cbn.
      rewrite jhas_jset, orb_true_iff. intros [[->%bool_decide_eq_true | ?] | ?]; auto.
  - apply (settlements_subset (inbox s)); [| done]. intros y. rewrite !elem_settlements. cbn. rewrite jhas_jset, orb_true_iff.
    intros [[->%bool_decide_eq_true | ?] | ?]; auto. left. apply jhas_true. by eexists.
  - cbn. etrans; [apply jsize_jdel_le | done].
  - apply (settlements_subset (inbox s)); [| done]. intros y. rewrite !elem_settlements. cbn. rewrite jhas_jdel by done.
    rewrite andb_true_iff. tauto.
  - cbn. change (jsize _) with 0. lia.
  - apply (settlements_subset (inbox s)); [| done]. intros y. rewrite !elem_settlements. cbn. intros [? | H]; [by left | done].
  - cbn. pose proof (jsize_jset_le x p (pendingInbound (inbox s))). lia.
  - apply (settlements_one_more x (inbox s)); [| done]. intros y. rewrite elem_of_union, elem_of_singleton, !elem_settlements. cbn.
    rewrite jhas_jset, orb_true_iff. intros [? | [->%bool_decide_eq_true | ?]]; auto.
  - cbn. unfold fence_admits in Hf. destruct (jget key (sourceFences (inbox s))) as [f |] eqn:E.
    + rewrite jsize_jset_present by (by eapply jget_key). done.
    + pose proof (jsize_jset_le key (mkFence g se) (sourceFences (inbox s))). lia.
Qed.

(** ** A committed identity is not taken again *)

Abbreviation RETENTION := COMMITTED_OPERATION_ID_RETENTION_MS (only parsing).

Definition apart (a b : list Z * Z) : Prop := fst a = fst b -> snd a + RETENTION <= snd b.

(** The identity is in the books, long enough. *)
Definition held (s : LinkTransport) (c : list Z * Z) : Prop :=
  snd c <= time s /\
  (snd c + RETENTION <= time s \/
   exists e, jget (fst c) (committedOperationIDs (ledger s)) = Some e /\ match e with Some x => snd c + RETENTION <= x | None => True end).

Record commits_kept (s : LinkTransport) : Prop := {
  ck_apart : StronglySorted apart (commits s);
  ck_held : Forall (held s) (commits s)
}.

Lemma prune_expired_keeps at_ rest head committed k e :
  jwf committed -> jget k committed = Some e -> (forall x, e = Some x -> at_ < x) ->
  jget k (snd (prune_expired at_ rest head committed)) = Some e.
Proof.
  intros Hw Hk He. revert head committed Hw Hk. induction rest as [| [op x] rest IH]; intros head committed Hw Hk; cbn; [done |].
  destruct (at_ <? x) eqn:Hx; [done |]. apply Z.ltb_ge in Hx. apply IH.
  - case_match; [by apply jdel_wf | done].
  - case_bool_decide as Hop; [| done]. rewrite jget_jdel by done. case_decide as E; [subst | done].
    rewrite Hk in Hop. injection Hop as Hop. specialize (He _ Hop). lia.
Qed.

(** The books keep what they hold, as time goes. *)
Lemma held_mono s s' c :
  time s <= time s' ->
  (snd c <= time s -> forall e, jget (fst c) (committedOperationIDs (ledger s)) = Some e -> (forall x, e = Some x -> snd c + RETENTION <= x) ->
     snd c + RETENTION <= time s' \/
     exists e', jget (fst c) (committedOperationIDs (ledger s')) = Some e' /\ match e' with Some x => snd c + RETENTION <= x | None => True end) ->
  held s c -> held s' c.
Proof.
  intros Ht He [H1 [H2 | (e & H2 & H3)]]; (split; [lia |]); [left; lia |]. apply (He H1 e H2). intros x ->. done.
Qed.

Lemma held_same s s' c : committedOperationIDs (ledger s') = committedOperationIDs (ledger s) -> time s <= time s' -> held s c -> held s' c.
Proof.
  intros E Ht. apply held_mono; [done |]. intros _ e He Hx. right. exists e. rewrite E. split; [done |]. destruct e; [by apply Hx | done].
Qed.

Lemma commits_frame s s' :
  commits s' = commits s -> (forall c, held s c -> held s' c) -> commits_kept s -> commits_kept s'.
Proof. intros E H []. split; rewrite E; [done |]. by eapply list.Forall_impl. Qed.

Lemma quiet_commits cfg s s' : wf cfg s -> quiet cfg s s' -> commits_kept s -> commits_kept s'.
Proof.
  intros Hw Hq. pose proof (quiet_time _ _ _ Hq) as Ht.
  destruct Hq as [s' Hs | | | | | | | | | r m h c Hm Hr Hk Hsize Hat Hs | | key q Hk | | | | | | | | | | ];
    try (apply commits_frame; [done | intros c'; apply held_same; [done | lia]]).
  - apply commits_frame; [apply Hs | intros c; apply held_same; [apply Hs | lia]].
  - intros [Ha Hh]. assert (Hold : forall c', held s c' -> held (entered r m h c s) c').
    { intros c'. apply held_mono; [lia |]. intros Hc e He Hx. right. cbn. rewrite jget_jset.
      case_decide as E; [by exists None | exists e]. split; [done | destruct e; [by apply Hx | done]]. }
    assert (E : commits (entered r m h c s) = commits s ++ [(o_trackingKey m, time s)]) by done.
    split; rewrite E.
    + apply StronglySorted_app. split; [| split; [done | repeat constructor]].
      intros c1 c2 H1 ->%list_elem_of_singleton. unfold apart. cbn. intros Ek.
      rewrite Forall_elem in Hh. destruct (Hh c1 H1) as [_ [? | (e & He & _)]]; [done | congruence].
    + apply list.Forall_app. split; [by eapply list.Forall_impl |]. apply list.Forall_singleton. split; [cbn; lia |]. right.
      exists None. split; [cbn; apply jget_jset_eq | done].
  - apply commits_frame; [done |]. intros c. apply held_mono; [lia |]. intros Hc e He Hx. cbn. rewrite prune_ledger_committed.
    destruct e as [x |]; [| right; exists None; split; [by apply prune_expired_keeps; [apply Hw | |] | done]].
    specialize (Hx x eq_refl). destruct (decide (x <= time s)) as [| Hlate]; [left; change (time _) with (time s); lia | right].
    exists (Some x). split; [| done]. apply prune_expired_keeps; [apply Hw | done |]. intros ? [= <-]. lia.
  - apply commits_frame; [done |]. intros c. apply held_mono; [lia |]. intros Hc e He Hx. right. cbn. rewrite jget_jset.
    case_decide as E; [| exists e; split; [done | destruct e; [by apply Hx | done]]].
    eexists. split; [done |]. cbn. lia.
Qed.

(** ** What is delivered *)

(** *** A source does not go back *)

Definition no_later_than (g : Z) (session : list Z) (e : MessageEvent) : Prop :=
  me_generation e < g \/ (me_generation e = g /\ me_session e = session).

Definition onward (a b : MessageEvent) : Prop :=
  me_source a = me_source b -> no_later_than (me_generation b) (me_session b) a.

(** The fence of a source that was heard is not before what was heard. *)
Definition behind_fence (s : LinkTransport) (e : MessageEvent) : Prop :=
  exists f, jget (node_key (me_source e)) (sourceFences (inbox s)) = Some f /\ no_later_than (f_generation f) (f_session f) e.

Record sources_kept (s : LinkTransport) : Prop := {
  sk_onward : StronglySorted onward (deliveries s);
  sk_behind : Forall (behind_fence s) (deliveries s)
}.

Lemma quiet_deliveries cfg s s' : quiet cfg s s' -> deliveries s' = deliveries s.
Proof. destruct 1 as [s' Hs | | | | | | | | | | | | | | | | | | | | | ]; try done. apply Hs. Qed.

Lemma quiets_deliveries cfg s s' : rtc (quiet cfg) s s' -> deliveries s' = deliveries s.
Proof. induction 1 as [| s t u H _ IH]; [done |]. rewrite IH. by eapply quiet_deliveries. Qed.

Lemma quiet_behind cfg s s' e : quiet cfg s s' -> behind_fence s e -> behind_fence s' e.
Proof.
  intros Hq (f & Hf & Hb).
  destruct Hq as [s' Hs | | | | | | | | | | | | | | | | | | key g se Ha | | | ]; try (by exists f).
  - exists f. by rewrite (same_fences _ _ Hs).
  - unfold behind_fence. cbn. setoid_rewrite jget_jset. case_decide as E; [| by exists f].
    rewrite <- E in Ha. eexists. split; [done |]. cbn. unfold fence_admits in Ha. rewrite Hf in Ha.
    unfold no_later_than in *. destruct Ha as [? | [? ?]], Hb as [? | [? ?]]; [left; lia.. | right; split; congruence].
Qed.

Lemma quiets_behind cfg s s' e : rtc (quiet cfg) s s' -> behind_fence s e -> behind_fence s' e.
Proof. induction 1; eauto using quiet_behind. Qed.

Lemma quiets_sources cfg s s' : rtc (quiet cfg) s s' -> sources_kept s -> sources_kept s'.
Proof.
  intros Hq [H1 H2]. split; rewrite (quiets_deliveries _ _ _ Hq); [done |].
  eapply list.Forall_impl; [exact H2 |]. intros e. by eapply quiets_behind.
Qed.

Lemma deliveries_hand_over e s : deliveries (hand_over e s) = deliveries s ++ [e].
Proof. unfold deliveries, hand_over. cbn. by rewrite omap_app. Qed.

Section received.
Context {zlib : Zlib} (cfg : Settings).

(** What a delivery does, apart from the moves. *)
Lemma delivered_around e s s' :
  delivered cfg e s s' ->
  exists s1 s2 s3, rtc (quiet cfg) s s1 /\ admission cfg e s1 s2 /\ rtc (quiet cfg) s2 s3 /\ rtc (quiet cfg) s s3 /\
    rtc (quiet cfg) (hand_over e s3) s' /\ deliveries s3 = deliveries s.
Proof.
  intros (s1 & s2 & s3 & Q1 & Ha & Q3 & Q4). exists s1, s2, s3.
  assert (Q : rtc (quiet cfg) s s3) by (etrans; [exact Q1 |]; etrans; [exact (admission_quiet _ _ _ _ Ha) | done]).
  split_and!; try done. by apply (quiets_deliveries cfg).
Qed.

Lemma delivered_sources i e s s' :
  from_frame i e -> fenced (Frame.source i) (source_generation i) (service_session i) s -> delivered cfg e s s' ->
  sources_kept s -> sources_kept s'.
Proof.
  intros [E1 E2 E3 _] Hf (s1 & s2 & s3 & _ & _ & _ & Q & Q4 & D)%delivered_around Hk.
  eapply quiets_sources; [exact Q4 |]. unfold fenced in Hf. rewrite <- E1, <- E2, <- E3 in Hf.
  destruct Hk as [H1 H2]. split; rewrite deliveries_hand_over, D.
  - apply StronglySorted_app. split; [| split; [done | repeat constructor]].
    intros a b Ha ->%list_elem_of_singleton Es. rewrite Forall_elem in H2. destruct (H2 a Ha) as (f & Hfa & Hb).
    rewrite Es, Hf in Hfa. by injection Hfa as <-.
  - apply list.Forall_app. split; [eapply list.Forall_impl; [exact H2 |]; intros a Ha; exact (quiets_behind _ _ _ _ Q Ha) |].
    apply list.Forall_singleton. apply (quiets_behind _ _ _ _ Q). eexists. split; [exact Hf |]. right. by split.
Qed.

(** *** A message is settled once *)

Definition once (a b : MessageEvent) : Prop :=
  me_requires_settlement a = true -> me_requires_settlement b = true -> me_settlement_id a = me_settlement_id b ->
  me_received_at a + RETENTION <= me_received_at b.

(** A message that was handed over for a settlement is awaited or settled. *)
Definition remembered (x : list Z) (t : Z) (s : LinkTransport) : Prop :=
  t <= time s /\
  (stopped (pump_state s) = true \/ t + RETENTION <= time s \/
   ((jhas x (pendingInbound (inbox s)) = true \/ jhas x (settledInbound (inbox s)) = true) /\
    forall v, jget x (settledInbound (inbox s)) = Some v -> t + RETENTION <= sd_expiresAt v)).

Lemma jget_prune_settled at_ m x :
  jwf m -> jget x (prune_settled at_ m) = jget x m \/
  (jget x (prune_settled at_ m) = None /\ exists v, jget x m = Some v /\ sd_expiresAt v <= at_).
Proof.
  intros Hw. destruct (prune_settled_suffix at_ m) as (gone & E & Hg). set (rest := prune_settled at_ m) in *. clearbody rest. subst m.
  rewrite jget_app. destruct (jget x gone) as [v |] eqn:Hx; [| by left]. right.
  pose proof (jget_elem_of _ _ _ Hx) as Hin. split.
  - apply jget_None. intros Hr. unfold jwf, jkeys in Hw. rewrite map_app, list.NoDup_app in Hw. destruct Hw as (_ & Hd & _).
    apply (Hd x); [| done]. by eapply elem_of_jkeys.
  - exists v. split; [done |]. rewrite Forall_elem in Hg. apply (Hg (x, v) Hin).
Qed.

Lemma quiet_remembered x t s s' : wf cfg s -> quiet cfg s s' -> remembered x t s -> remembered x t s'.
Proof.
  intros Hw Hq [Ht Hr]. pose proof (quiet_time _ _ _ Hq) as Et. split; [lia |].
  destruct Hr as [Hs | [Hr | [Hhas Hexp]]];
    [left; eapply quiets_stopped; [by apply rtc_once | done] | right; left; lia |]. rewrite Et.
  destruct Hq as [s' Hs | | | | | | | | | | | | | y v Hn Hp | y settled outcome Hset | y Hy | Hst
                 | y p Hn1 Hn2 Hc Hl Htp | key g se Hf | m Hm Htm Hb | m Hm Hb | ];
    try (right; right; by split).
  - right. right. by rewrite (same_pending _ _ Hs), (same_settled _ _ Hs).
  - right. cbn. destruct (jget_prune_settled (time s) (settledInbound (inbox s)) x) as [E | (E & v & Ev & Hv)]; [apply Hw | |].
    + right. rewrite E. unfold jhas in *. by rewrite E.
    + left. specialize (Hexp v Ev). lia.
  - right. right. cbn. rewrite jhas_jset, jget_jset. split; [destruct Hhas as [-> | ->]; rewrite ?orb_true_r; tauto |].
    case_decide as E; [| done]. intros v' [= <-]. cbn. lia.
  - right. right. cbn. rewrite jhas_jset, jget_jset. split; [destruct Hhas as [-> | ->]; rewrite ?orb_true_r; tauto |].
    case_decide as E; [| done]. intros v' [= <-]. cbn. subst. by apply Hexp.
  - right. right. cbn. split; [| done]. destruct (decide (x = y)) as [-> | Hne]; [by right |].
    destruct Hhas as [Hhas | ?]; [left | by right]. rewrite jhas_jdel by apply Hw. by rewrite bool_decide_false.
  - by left.
  - right. right. cbn. rewrite jhas_jset. split; [destruct Hhas as [-> | ->]; rewrite ?orb_true_r; tauto | done].
Qed.

Lemma quiets_remembered x t s s' : wf cfg s -> rtc (quiet cfg) s s' -> remembered x t s -> remembered x t s'.
Proof.
  intros Hw H. induction H as [| s u w H _ IH]; [done |]. intros Hr. apply IH; [by eapply quiet_wf | by eapply quiet_remembered].
Qed.

Record settled_once (s : LinkTransport) : Prop := {
  so_once : stopped (pump_state s) = false -> StronglySorted once (deliveries s);
  so_remembered : Forall (fun e => me_requires_settlement e = true -> remembered (me_settlement_id e) (me_received_at e) s) (deliveries s)
}.

Lemma quiets_settled_once s s' : wf cfg s -> rtc (quiet cfg) s s' -> settled_once s -> settled_once s'.
Proof.
  intros Hw Hq [H1 H2]. split; rewrite (quiets_deliveries _ _ _ Hq).
  - intros Hs. apply H1. destruct (stopped (pump_state s)) eqn:E; [| done]. by rewrite (quiets_stopped _ _ _ Hq E) in Hs.
  - eapply list.Forall_impl; [exact H2 |]. intros e He Hn. eapply quiets_remembered; eauto.
Qed.

Lemma delivered_settled_once e s s' :
  wf cfg s -> me_received_at e = time s -> delivered cfg e s s' -> settled_once s -> settled_once s'.
Proof.
  intros Hw Et (s1 & s2 & s3 & Q1 & Ha & Q3 & Q & Q4 & D)%delivered_around Hk.
  assert (W1 : wf cfg s1) by (by eapply quiets_wf). assert (W3 : wf cfg s3) by (exact (quiets_wf _ _ _ Hw Q)).
  assert (K1 : settled_once s1) by (exact (quiets_settled_once _ _ Hw Q1 Hk)). assert (K3 : settled_once s3) by (exact (quiets_settled_once _ _ Hw Q Hk)).
  assert (D1 : deliveries s1 = deliveries s3) by (rewrite D; by apply (quiets_deliveries cfg)).
  assert (T1 : time s1 = time s) by (by apply (quiets_time cfg)). assert (T3 : time s3 = time s) by (by apply (quiets_time cfg)).
  eapply quiets_settled_once; [by apply hand_over_wf | exact Q4 |]. split; rewrite deliveries_hand_over.
  - change (stopped (pump_state (hand_over e s3))) with (stopped (pump_state s3)). intros Hs. apply StronglySorted_app.
    split; [| split; [by apply K3 | repeat constructor]]. intros a b Hin ->%list_elem_of_singleton Hra Hre Ex.
    destruct K1 as [_ K1]. rewrite D1, Forall_elem in K1. destruct (K1 a Hin Hra) as [_ [Hst | [Hlate | [Hhas _]]]].
    + assert (stopped (pump_state s3) = true); [| congruence]. eapply quiets_stopped; [exact Q3 |].
      eapply quiets_stopped; [exact (admission_quiet _ _ _ _ Ha) | done].
    + lia.
    + unfold admission in Ha. rewrite Hre in Ha. cbv zeta in Ha. destruct Ha as (p & Hn1 & Hn2 & _). rewrite Ex in Hhas.
      apply jhas_false in Hn1, Hn2. destruct Hhas; congruence.
  - apply list.Forall_app. split; [exact (so_remembered _ K3) |]. apply list.Forall_singleton. intros Hre.
    change (remembered (me_settlement_id e) (me_received_at e) s3). unfold admission in Ha. rewrite Hre in Ha. cbv zeta in Ha.
    destruct Ha as (p & Hn1 & Hn2 & Hc & Hl & Htp & E2).
    assert (W2 : wf cfg s2) by (eapply quiet_wf; [exact W1 |]; rewrite E2; by apply q_admit).
    eapply quiets_remembered; [exact W2 | exact Q3 |]. rewrite E2. split; [cbn; change (time _) with (time s1); lia |].
    right. right. cbn. rewrite jhas_jset, bool_decide_true by done. split; [by left |]. intros v Hv. by rewrite Hn1 in Hv.
Qed.
End received.

(** * The transport: deadlines

    Every operation the tables hold has its deadline on the clock, and the
    callback of the deadline takes it out of them. *)

#[local] Arguments jset : simpl never.
#[local] Arguments jdel : simpl never.
#[local] Arguments jget : simpl never.
#[local] Arguments jsize : simpl never.
#[local] Arguments jhas : simpl never.

(** When an operation has to have ended: by its own message and priority. *)
Definition deadline_of (m : Outbound) : Z := o_queuedAt m + outboundDeadlineMs (o_message m) (priority (o_identity m)).

Lemma deadline_of_core m m' : core m' = core m -> deadline_of m' = deadline_of m.
Proof. unfold deadline_of. by intros (-> & _ & _ & -> & _ & -> & _)%core_inv. Qed.

(** The timer of the object's deadline is on the clock, in time. *)
Definition live (s : LinkTransport) (r : Z) : Prop :=
  exists h t, o_deadlineTimer (objects (outbox s) r) = Some h /\ t ∈ scheduled (clock s) /\ t_order t = h /\
    t_callback t = outbound_deadline r /\ t_at t = deadline_of (objects (outbox s) r).

(** All the tables hold are live, but for [X]. *)
Definition live_but (X : Z -> Prop) (s : LinkTransport) : Prop := forall r, refers (outbox s) r -> ~ X r -> live s r.

Lemma refers_bound o r : keyed o -> refers o r -> r < nextObject o.
Proof. intros [H1 H2 H3] [(k & H) | [(k & H) | (k & H)]]; [by eapply H1 | by eapply H2 | by eapply H3]. Qed.

Lemma live_frame s s' r :
  core (objects (outbox s') r) = core (objects (outbox s) r) ->
  (forall t, t ∈ scheduled (clock s) -> t_callback t = outbound_deadline r ->
     o_deadlineTimer (objects (outbox s) r) = Some (t_order t) -> t ∈ scheduled (clock s')) ->
  live s r -> live s' r.
Proof.
  intros Hc Ht (h & t & H1 & H2 & H3 & H4 & H5). exists h, t. rewrite (deadline_of_core _ _ Hc).
  apply core_inv in Hc as (_ & _ & -> & _).
  split_and!; try done. apply Ht; [done.. | by rewrite H3].
Qed.

Lemma live_same_clock s s' r :
  core (objects (outbox s') r) = core (objects (outbox s) r) -> scheduled (clock s') = scheduled (clock s) -> live s r -> live s' r.
Proof. intros E1 E2. apply live_frame; [done |]. intros t. by rewrite E2. Qed.

(** The tables of an entered message hold it and what they held. *)
Lemma entered_refers r m h c s r' : refers (outbox (entered r m h c s)) r' -> r' = r \/ refers (outbox s) r'.
Proof.
  assert (H : forall o, refers (enter_tables r m o) r' -> r' = r \/ refers o r').
  { intros o. unfold enter_tables.
    destruct (dataRequestID m) as [id |], (has_type (o_message m) resource_operation); intros [(k & H) | [(k & H) | (k & H)]];
      cbn in H; try (rewrite jget_jset in H; case_decide; [left; congruence |]); right;
      first [by left; exists k | by right; left; exists k | by right; right; exists k]. }
  intros Hr. apply H. exact Hr.
Qed.

Lemma quiet_live cfg X s s' : wf cfg s -> quiet cfg s s' -> live_but X s -> live_but X s'.
Proof.
  intros Hw Hq Hl r Hr Hx.
  destruct Hq as [s' Hs | delay cb h c Hsch | h Hty | r0 h Hd Hno | | | | a b d Ha Hb Hd | m Hrt Hdl | r0 m h c Hm Hlt Hk Hsize Hat Hs
                 | | | | | | | | | | | | ];
    try (apply (live_same_clock s); [done | done | by apply Hl]).
  - assert (Hr' : refers (outbox s) r).
    { unfold refers in *. by rewrite (same_operations _ _ Hs), (same_requests _ _ Hs), (same_responses _ _ Hs) in Hr. }
    apply (live_same_clock s); [apply Hs | by rewrite (same_clock _ _ Hs) | by apply Hl].
  - apply (live_frame s); [done | | by apply Hl]. intros t Ht _ _. revert Hsch. unfold schedule. case_match; [| done].
    intros [= <- <-]. cbn. apply elem_of_app. by left.
  - apply (live_frame s); [done | | by apply Hl]. intros t Ht Hcb _. cbn. apply remove_timer_keeps; [done |].
    intros E. destruct Hty as [_ Hty]. specialize (Hty t Ht E). by rewrite Hcb in Hty.
  - apply (live_frame s); [done | | by apply Hl]. intros t Ht Hcb _. cbn. apply remove_timer_keeps; [done |].
    intros E. destruct (wf_deadline _ _ Hw _ _ Hd) as [_ Hty]. specialize (Hty t Ht E). rewrite Hcb in Hty.
    injection Hty as ->. done.
  - apply (live_same_clock s); [| done | by apply Hl]. cbn. unfold at_key. by case_decide; subst.
  - assert (Hr' : refers (outbox s) r).
    { destruct Hr as [(k & Hr) | [(k & Hr) | (k & Hr)]]; cbn in Hr;
        [left; exists k; by apply Ha | right; left; exists k; by apply Hb | right; right; exists k; by apply Hd]. }
    apply (live_same_clock s); [done | done | by apply Hl].
  - assert (Hr' : refers (outbox s) r) by exact Hr. pose proof (refers_bound _ _ (wf_keyed _ _ Hw) Hr').
    apply (live_same_clock s); [cbn; rewrite at_key_ne by lia; done | done | by apply Hl].
  - assert (Hc : forall t, t ∈ scheduled (clock s) -> t ∈ scheduled c).
    { intros t Ht. revert Hs. unfold schedule. case_match; [| done]. intros [= <- <-]. cbn. apply elem_of_app. by left. }
    destruct (decide (r = r0)) as [-> | Hne].
    + unfold live. rewrite entered_objects, decide_True by done. cbn [o_deadlineTimer o_queuedAt]. revert Hs. unfold schedule. case_match; [| done]. intros [= <- <-].
      do 2 eexists. split; [done |]. split; [cbn; apply elem_of_app; right; apply list_elem_of_here |].
      split; [done |]. split; [done |]. cbn -[outboundDeadlineMs deadline_of]. subst m. change (deadline_of _) with (deadline_of (objects (outbox s) r0)).
      unfold deadline_of. by rewrite Hat.
    + apply entered_refers in Hr as [? | Hr]; [done |].
      apply (live_frame s); [by rewrite entered_objects, decide_False | | by apply Hl]. intros t Ht _ _. by apply Hc.
Qed.

Lemma quiets_live cfg X s s' : wf cfg s -> rtc (quiet cfg) s s' -> live_but X s -> live_but X s'.
Proof.
  intros Hw H. induction H as [| s u w H _ IH]; [done |]. intros Hl. apply IH; [by eapply quiet_wf | by eapply quiet_live].
Qed.

(** ** The callback of the deadline *)

Section callback.
Context {zlib : Zlib} {validators : Validators} {host : Host} (cfg : Settings).
Context (listener : Signal -> T unit) (Hlistener : forall signal, keeps (quietly cfg) (listener signal)).

Lemma awaited_refers o r :
  keyed o -> refers o r ->
  jhas (o_trackingKey (objects o r)) (outboundByOperation o) = true \/
  match dataRequestID (objects o r) with Some id => bool_decide (jget id (pendingDataRequests o) = Some r) | None => false end = true \/
  bool_decide (jget (o_trackingKey (objects o r)) (responseOperations o) = Some r) = true.
Proof.
  intros [H1 H2 H3] [(k & H) | [(k & H) | (k & H)]].
  - left. destruct (H1 _ _ H) as [-> _]. apply jhas_true. by eexists.
  - right. left. destruct (H2 _ _ H) as [-> _]. by apply bool_decide_eq_true.
  - right. right. destruct (H3 _ _ H) as [[-> _] _]. by apply bool_decide_eq_true.
Qed.

(** The object is out of the tables at some point of the callback. *)
Lemma deadline_ends r s :
  wf cfg s ->
  exists s1, rtc (quiet cfg) s s1 /\ ~ refers (outbox s1) r /\ rtc (quiet cfg) s1 (snd (outboundDeadline listener r s)).
Proof.
  intros Hw. unfold outboundDeadline, obj. unfold bind_eff at 1 2. cbn [gets]. cbv beta iota zeta.
  destruct (negb _ && negb _) eqn:Hn.
  - exists s. split; [constructor |]. split; [| constructor]. intros Hr. apply andb_true_iff in Hn as [Hn1 Hn2].
    apply negb_true_iff in Hn1, Hn2. apply orb_false_iff in Hn2 as [Hn2 Hn3].
    apply awaited_refers in Hr; [| apply Hw]. destruct Hr as [Hr | [Hr | Hr]]; congruence.
  - unfold bind_eff, count, modify. rewrite completeOutbound_ended. set (s0 := s <| mutableMetrics ::= _ |>).
    assert (Q0 : rtc (quiet cfg) s s0) by (apply rtc_once; constructor; split; try done; by left).
    assert (W0 : wf cfg s0) by (exact (quiets_wf _ _ _ Hw Q0)).
    destruct (ended_quiet cfg r op_failed s0 W0) as [Q1 N1]; [done |].
    exists (ended r op_failed s0). split; [by etrans |]. split; [done |].
    apply q_after_tables; [done |]. exact (quiets_wf _ _ _ W0 Q1).
Qed.

Lemma deadline_live r s :
  wf cfg s -> live_but (eq r) s -> live_but (fun _ => False) (snd (outboundDeadline listener r s)).
Proof.
  intros Hw Hl. destruct (deadline_ends r s Hw) as (s1 & Q1 & N1 & Q2).
  assert (W1 : wf cfg s1) by (exact (quiets_wf _ _ _ Hw Q1)). eapply quiets_live; [exact W1 | exact Q2 |].
  intros r' Hr' _. apply (quiets_live _ _ _ _ Hw Q1 Hl); [done |]. by intros <-.
Qed.
End callback.
