(* ===== verification/TransportRuns.v ===== *)
(** * The transport: its runs

    Every input is moves, at most one delivery, or the clock's, whatever the
    listeners call back; so every state a run reaches keeps the invariants. *)

From Stdlib Require Import ZArith Lia String.
From stdpp Require Import base list option relations gmap sorting.
From S2P Require Import Prelude JsMap BinaryIO Wtf8 Json CompactValue Compression LinkTypes Frame Contract ContractFacts StateDelta Picture PictureProjection JsState Clock TransportState TransportBase TransportOut TransportPump TransportIn Transport TransportSample TransportMoves TransportRefines TransportOutMoves TransportInMoves TransportDelivery TransportInvariants.

#[local] Arguments jset : simpl never.
#[local] Arguments jdel : simpl never.
#[local] Arguments jget : simpl never.
#[local] Arguments jsize : simpl never.
#[local] Arguments jhas : simpl never.

(** All that holds of the states of a run; [X] are the objects whose deadline
    is just running. *)
Record good_but (X : Z -> Prop) (cfg : Settings) (s : LinkTransport) : Prop := {
  g_wf : wf cfg s;
  g_bounded : bounded cfg s;
  g_commits : commits_kept s;
  g_sources : sources_kept s;
  g_settled : settled_once s;
  g_live : live_but X s
}.

Abbreviation good := (good_but (fun _ => False)).

Section runs.
Context {zlib : Zlib} {validators : Validators} {host : Host} (cfg : Settings).

(** ** One input *)

Section input.
Context (listener : Signal -> T unit) (Hlistener : forall signal, keeps (quietly cfg) (listener signal)).

Lemma q_run_call c : keeps (quietly cfg) (run_call cfg listener c).
Proof. destruct c; unfold run_call, done; quiets. Qed.

Lemma q_run_callback c : keeps (quietly cfg) (run_callback cfg listener c).
Proof. destruct c; cbn [run_callback]; auto with quiet. Qed.
End input.

Lemma react_quiet behaviour depth signal : keeps (quietly cfg) (react cfg behaviour depth signal).
Proof. apply react_keeps; [exact _ |]. intros listener H c. by apply q_run_call. Qed.

Lemma quiets_good X s s' : rtc (quiet cfg) s s' -> good_but X cfg s -> good_but X cfg s'.
Proof.
  intros Hq []. split; [by eapply quiets_wf | | | by eapply quiets_sources | by eapply quiets_settled_once | by eapply quiets_live].
  all: clear -g_wf0 g_bounded0 g_commits0 Hq; revert g_wf0 g_bounded0 g_commits0; induction Hq as [| s t u H _ IH]; [done |]; intros Hw Hb Hc;
    apply IH; eauto using quiet_wf, quiet_bounded, quiet_commits.
Qed.

Lemma hand_over_frame e s : bounded cfg s -> commits_kept s -> live_but (fun _ => False) s ->
  bounded cfg (hand_over e s) /\ commits_kept (hand_over e s) /\ live_but (fun _ => False) (hand_over e s).
Proof. intros [] [] Hl. done. Qed.

Lemma delivered_good i e s s' :
  from_frame i e -> me_received_at e = time s -> fenced (Frame.source i) (source_generation i) (service_session i) s ->
  delivered cfg e s s' -> good cfg s -> good cfg s'.
Proof.
  intros He Ht Hf Hd Hg. pose proof Hd as (s1 & s2 & s3 & _ & _ & _ & Q & Q4 & _)%delivered_around.
  pose proof (quiets_good _ _ _ Q Hg) as [W3 B3 C3 _ _ L3].
  destruct (hand_over_frame e s3 B3 C3 L3) as (B & C & L).
  assert (W : wf cfg (hand_over e s3)) by (by apply hand_over_wf).
  split; [by eapply quiets_wf | | | by eapply delivered_sources; [| | | apply Hg] | eapply delivered_settled_once; [apply Hg | done.. | apply Hg]
         | by eapply quiets_live].
  all: clear -W B C Q4; revert W B C; induction Q4 as [| x y z H _ IH]; [done |]; intros Hw Hb Hc;
    apply IH; eauto using quiet_wf, quiet_bounded, quiet_commits.
Qed.

Lemma received_good s s' : received cfg s s' -> good cfg s -> good cfg s'.
Proof.
  intros [Hq | (i & e & s0 & He & Ht & Hq & Hf & Hd)] Hg; [by eapply quiets_good |].
  eapply delivered_good; [exact He | | exact Hf | exact Hd | by eapply quiets_good].
  by rewrite Ht, (quiets_time _ _ _ Hq).
Qed.

(** ** Time *)

(** The clock moved on, and dropped at most the timer that runs. *)
Lemma ticked_good X s c :
  clock_ok c -> current (clock s) <= current c -> nextTimer c = nextTimer (clock s) ->
  (forall t, t ∈ scheduled c -> t ∈ scheduled (clock s)) ->
  (forall t, t ∈ scheduled (clock s) -> (exists r, t_callback t = outbound_deadline r /\ X r) \/
     (forall r, t_callback t <> outbound_deadline r) \/ t ∈ scheduled c) ->
  good cfg s -> good_but X cfg (s <| clock := c |>).
Proof.
  intros Hc Hle Hn Hsub Hkeep [[] [] Hk Hs Ho Hl]. set (s' := s <| clock := c |>).
  assert (Ty : forall h P, typed s h P -> typed s' h P).
  { intros h P [T1 T2]. split; [cbn; rewrite Hn; done |]. intros t Ht. apply T2. by apply Hsub. }
  split; [split; eauto | by split | | | | ].
  - eapply commits_frame; [| | exact Hk]; [done |]. intros c'. by apply held_same.
  - destruct Hs. by split.
  - destruct Ho as [O1 O2]. split; [done |]. eapply list.Forall_impl; [exact O2 |]. intros e He Hn'.
    destruct (He Hn') as [T1 T2]. split; [change (time s') with (current c); unfold time in *; lia |].
    destruct T2 as [? | [? | ?]]; [by left | right; left | by right; right].
    change (time s') with (current c). unfold time in *. lia.
  - intros r Hr Hx. apply (live_frame s); [done | | by apply Hl; [| tauto]]. intros t Ht Hcb _.
    destruct (Hkeep t Ht) as [(r' & E & Hx') | [E | ?]]; [| by destruct (E r) | done].
    rewrite Hcb in E. by injection E as ->.
Qed.

Lemma advance_good behaviour depth target s :
  good cfg s -> good cfg (snd (advance_turn cfg (react cfg behaviour depth) target s)).
Proof.
  intros Hg. unfold advance_turn. case_match eqn:Ha; [done |]. unfold can_advance in Ha. apply negb_false_iff in Ha.
  rewrite negb_true_iff in Ha. apply Z.ltb_ge in Ha.
  pose proof (wf_clock _ _ (g_wf _ _ _ Hg)) as Hc.
  destruct (next_due (clock s) target) as [[t |] c] eqn:E.
  - apply next_due_spec in E as (H1 & H2 & [H3 _] & H4 & H5 & H6 & H7); [| done].
    assert (T : good_but (fun r => t_callback t = outbound_deadline r) cfg (s <| clock := c |>)).
    { apply ticked_good; try done. intros x Hx. destruct (H7 x Hx) as [-> | ?]; [| by right; right].
      destruct (t_callback t) eqn:Ecb; [by right; left | left; by eexists | by right; left..]. }
    set (s1 := s <| clock := c |>) in *. pose proof (g_wf _ _ _ T) as W.
    pose proof (quiets_good _ _ _ (q_run_callback _ (react_quiet behaviour depth) (t_callback t) s1 W) T) as Hgood.
    destruct Hgood as [? ? ? ? ? L]. split; try done.
    destruct (t_callback t) as [| r | | | | |] eqn:Ecb; try (intros r' Hr' _; by apply L).
    apply (deadline_live cfg); [apply react_quiet | done |]. intros r' Hr' Hx. apply (g_live _ _ _ T); [done |].
    intros [= ->]. by apply Hx.
  - apply next_due_none in E as (H1 & H2 & H3 & H4); [| done].
    apply ticked_good; try done; [lia | by intros; apply H4 | intros t Ht; right; right; by apply H4].
Qed.

(** ** All of them *)

Lemma step_good s s' : step cfg s s' -> good cfg s -> good cfg s'.
Proof.
  intros [behaviour depth i] Hg. pose proof (react_quiet behaviour depth) as Hl. pose proof (g_wf _ _ _ Hg) as Hw.
  destruct i; cbn [run_input].
  - eapply quiets_good; [by apply q_run_call | done].
  - eapply received_good; [by apply receive_received | done].
  - eapply quiets_good; [by apply q_pump_finish | done].
  - eapply quiets_good; [by apply q_handleRadioDisconnect | done].
  - by apply advance_good.
Qed.
End runs.

(** A run starts with a new transport, on a clock of its own. *)
Definition reachable {zlib : Zlib} {validators : Validators} {host : Host} (cfg : Settings) (s : LinkTransport) : Prop :=
  exists options s0, newTransport options = Ok (cfg, s0) /\ scheduled (opt_clock options) = [] /\ rtc (step cfg) s0 s.

Section reach.
Context {zlib : Zlib} {validators : Validators} {host : Host}.

Lemma positive_range v lo hi name n : positiveBoundedInteger v lo hi name = Ok n -> lo <= n <= hi.
Proof. unfold positiveBoundedInteger. case_match eqn:E; [| done]. intros [= <-]. lia. Qed.

Lemma new_good options cfg s : newTransport options = Ok (cfg, s) -> scheduled (opt_clock options) = [] -> good cfg s.
Proof.
  unfold newTransport. intros H Hclock. apply bind_ok in H as (u & _ & H).
  case_match; [| done]. destruct (match opt_serviceSession options with Some _ => _ | None => _ end) as [session n].
  case_match; [| done]. apply bind_ok in H as (encoder & _ & H). apply bind_ok in H as (decoder & _ & H).
  apply bind_ok in H as (channel & _ & H). apply bind_ok in H as (ql & _ & H). apply bind_ok in H as (cl & _ & H).
  apply bind_ok in H as (rl & Hrl & H). apply bind_ok in H as (timeout & _ & H). apply bind_ok in H as (jitter & _ & H).
  apply bind_ok in H as (interval & _ & H). injection H as <- <-. apply positive_range in Hrl.
  split; [split | split | split | split | split |]; cbn; try done; try (apply jwf_nil); try (by constructor);
    try (intros k v ?%elem_of_nil; done); try (change (jsize _) with 0; lia).
  - split; intros t; rewrite Hclock; by intros ?%elem_of_nil.
  - by intros r [(k & Hk) | [(k & Hk) | (k & Hk)]].
Qed.

Lemma reachable_good cfg s : reachable cfg s -> good cfg s.
Proof.
  intros (options & s0 & Hn & Hc & Hr). apply new_good in Hn; [| done]. clear Hc.
  induction Hr as [| s t u H _ IH]; [done |]. apply IH. by eapply step_good.
Qed.

End reach.

(** ** The sample runs are runs *)

#[local] Existing Instances stored_zlib sample_validators.

Lemma run_all_steps cfg inputs s : rtc (step cfg) s (run_all cfg inputs s).
Proof.
  revert s. induction inputs as [| i inputs IH]; intros s; [constructor |]. eapply rtc_l; [| apply IH].
  exact (step_input cfg s (fun _ _ => []) 0 i).
Qed.

Lemma two_runs cfg i1 i2 s : rtc (step cfg) s (run_all cfg i2 (run_all cfg i1 s)).
Proof. etrans; apply run_all_steps. Qed.

Lemma sample_reachable n session s :
  newTransport (sample_options n session) = Ok (or_nothing (newTransport (sample_options n session))) ->
  rtc (step (fst (or_nothing (newTransport (sample_options n session))))) (snd (or_nothing (newTransport (sample_options n session)))) s ->
  reachable (fst (or_nothing (newTransport (sample_options n session)))) s.
Proof. intros E H. do 2 eexists. split; [etrans; [exact E |]; by rewrite <- surjective_pairing |]. by split. Qed.

Lemma gateway_reachable s : rtc (step (fst gateway_0)) (snd gateway_0) s -> reachable (fst gateway_0) s.
Proof. apply sample_reachable. vm_compute. reflexivity. Qed.
Lemma asset_reachable s : rtc (step (fst asset_0)) (snd asset_0) s -> reachable (fst asset_0) s.
Proof. apply sample_reachable. vm_compute. reflexivity. Qed.

Lemma gateway_4_reachable : reachable (fst gateway_0) gateway_4.
Proof. apply gateway_reachable. unfold gateway_4, gateway_3. apply two_runs. Qed.
Lemma asset_4_reachable : reachable (fst asset_0) asset_4.
Proof. apply asset_reachable. unfold asset_4, asset_3. apply two_runs. Qed.

(** ** What holds of every run *)

Section claims.
Context {zlib : Zlib} {validators : Validators} {host : Host}.

(** C20: in every state a run reaches, with listeners that call back as they
    like, six tables of a node keep within their bounds: the inbound messages
    that await a settlement within the confirmed limit, the reassemblies
    within theirs, and the fences of sources, those of task sequences, the
    committed identities, and the settlements remembered or awaited within
    4096 each.  The queue, the tables of operations under way, the reserved
    task identities and the results kept for [status] are not among them. *)
Theorem tables_bounded cfg s : reachable cfg s -> bounded cfg s.
Proof. intros H%reachable_good. apply H. Qed.

(** C17: while the transport has not stopped, two messages with one settlement
    identity are handed to the application for a settlement only ten minutes
    apart: a retransmission is never handed over again in that time, whatever
    the listeners call while they are told. *)
Theorem delivered_once cfg s l1 e1 l2 e2 l3 :
  reachable cfg s -> stopped (pump_state s) = false -> deliveries s = l1 ++ e1 :: l2 ++ e2 :: l3 ->
  me_requires_settlement e1 = true -> me_requires_settlement e2 = true -> me_settlement_id e1 = me_settlement_id e2 ->
  me_received_at e1 + COMMITTED_OPERATION_ID_RETENTION_MS <= me_received_at e2.
Proof.
  intros [_ _ _ _ [H _] _]%reachable_good Hs E. specialize (H Hs). rewrite E in H. by eapply (sorted_apart once).
Qed.

(** C19: what is handed over of a source does not go back to an earlier
    generation, nor to another session of the same generation. *)
Theorem sources_move_forward cfg s l1 e1 l2 e2 l3 :
  reachable cfg s -> deliveries s = l1 ++ e1 :: l2 ++ e2 :: l3 -> me_source e1 = me_source e2 ->
  me_generation e1 < me_generation e2 \/ (me_generation e1 = me_generation e2 /\ me_session e1 = me_session e2).
Proof. intros [_ _ _ [H _] _ _]%reachable_good E. rewrite E in H. by eapply (sorted_apart onward). Qed.

(** A confirmed operation identity is committed at most once in ten
    minutes, whether the operation failed, was answered, or still runs. *)
Theorem committed_once cfg s l1 c1 l2 c2 l3 :
  reachable cfg s -> commits s = l1 ++ c1 :: l2 ++ c2 :: l3 -> fst c1 = fst c2 ->
  snd c1 + COMMITTED_OPERATION_ID_RETENTION_MS <= snd c2.
Proof. intros [_ _ [H _] _ _ _]%reachable_good E. rewrite E in H. by eapply (sorted_apart apart). Qed.

(** C18: no operation is awaited for longer than its own deadline: time does
    not pass the instant an operation was queued at and the deadline of its
    message and priority (15 or 30 seconds, five minutes for object content)
    while a table still holds it, so every confirmed operation ends. *)
Theorem operations_end cfg s r :
  reachable cfg s -> refers (outbox s) r -> time s <= deadline_of (objects (outbox s) r).
Proof.
  intros [Hw _ _ _ _ Hl]%reachable_good Hr. destruct (Hl r Hr) as (h & t & _ & Ht & _ & _ & Hat); [tauto |].
  pose proof (none_overdue _ (wf_clock _ _ Hw) t Ht). unfold time in *. lia.
Qed.
End claims.

(** *** Witnesses *)

Lemma tables_bounded_witness :
  bounded (fst gateway_0) gateway_4 /\ jsize (settledInbound (inbox gateway_4)) + jsize (pendingInbound (inbox gateway_4)) = 1.
Proof. split; [exact (tables_bounded _ _ gateway_4_reachable) | vm_compute; reflexivity]. Defined.

Lemma delivered_once_witness :
  me_settlement_id (nth_event 0 gateway_4) = me_settlement_id (nth_event 1 gateway_4) /\
  me_received_at (nth_event 0 gateway_4) + COMMITTED_OPERATION_ID_RETENTION_MS <= me_received_at (nth_event 1 gateway_4).
Proof.
  assert (E : me_settlement_id (nth_event 0 gateway_4) = me_settlement_id (nth_event 1 gateway_4)) by (vm_compute; reflexivity).
  split; [exact E |].
  apply (delivered_once (fst gateway_0) gateway_4 [] (nth_event 0 gateway_4) [] (nth_event 1 gateway_4) []);
    [exact gateway_4_reachable | vm_compute; reflexivity.. | exact E].
Defined.

Lemma sources_move_forward_witness :
  me_generation (nth_event 0 gateway_4) < me_generation (nth_event 1 gateway_4) \/
  (me_generation (nth_event 0 gateway_4) = me_generation (nth_event 1 gateway_4) /\
   me_session (nth_event 0 gateway_4) = me_session (nth_event 1 gateway_4)).
Proof.
  apply (sources_move_forward (fst gateway_0) gateway_4 [] (nth_event 0 gateway_4) [] (nth_event 1 gateway_4) []);
    [exact gateway_4_reachable | vm_compute; reflexivity..].
Defined.

Lemma committed_once_witness :
  commits asset_4 = [(js "r1", 1000); (js "r1", 700000)] /\ 1000 + COMMITTED_OPERATION_ID_RETENTION_MS <= 700000.
Proof.
  assert (E : commits asset_4 = [(js "r1", 1000); (js "r1", 700000)]) by (vm_compute; reflexivity).
  split; [exact E |].
  exact (committed_once (fst asset_0) asset_4 [] (js "r1", 1000) [] (js "r1", 700000) [] asset_4_reachable E eq_refl).
Defined.

Lemma operations_end_witness :
  refers (outbox asset_4) 1 /\ time asset_4 <= deadline_of (objects (outbox asset_4) 1).
Proof.
  assert (R : refers (outbox asset_4) 1) by (left; exists (js "r1"); vm_compute; reflexivity).
  split; [exact R | exact (operations_end (fst asset_0) asset_4 1 asset_4_reachable R)].
Defined.
