(* ===== verification/Doubles.v ===== *)
(** * Numbers with a fraction

    A number of the language is a double of IEEE 754 with one NaN.  Its
    arithmetic is the Standard Library's specification of binary64, rounding to
    nearest, ties to even; its order is that of the language, false on NaN. *)

From Stdlib Require Import ZArith Lia String.
From Stdlib Require Export Floats.SpecFloat.
From stdpp Require Import base list option.
From S2P Require Import Prelude JsMap Json.

Open Scope string_scope.
Open Scope list_scope.
Open Scope Z_scope.

Abbreviation num := spec_float (only parsing).

#[global] Instance spec_float_eq_dec : EqDecision spec_float.
Proof. solve_decision. Defined.

Definition NaN_ : num := S754_nan.
Definition POSITIVE_INFINITY : num := S754_infinity false.

Definition n_add : num -> num -> num := SFadd 53 1024.
Definition n_sub : num -> num -> num := SFsub 53 1024.
Definition n_mul : num -> num -> num := SFmul 53 1024.
Definition n_div : num -> num -> num := SFdiv 53 1024.
Definition n_sqrt : num -> num := SFsqrt 53 1024.
Definition n_abs : num -> num := SFabs.

Declare Scope num_scope.
Delimit Scope num_scope with num.
Infix "+" := n_add : num_scope.
Infix "-" := n_sub : num_scope.
Infix "*" := n_mul : num_scope.
Infix "/" := n_div : num_scope.
Infix "<" := SFltb : num_scope.
Infix "<=" := SFleb : num_scope.
Notation "x > y" := (SFltb y x) (only parsing) : num_scope.
Notation "x >= y" := (SFleb y x) (only parsing) : num_scope.
Infix "=?" := SFeqb : num_scope.

Definition isNaN (x : num) : bool := match x with S754_nan => true | _ => false end.

(** [Number.isFinite] *)
Definition isFinite (x : num) : bool := match x with S754_zero _ | S754_finite _ _ _ => true | _ => false end.

(** [Math.min] and [Math.max] of two numbers: NaN wins, and minus zero is below
    zero. *)
Definition is_minus_zero (x : num) : bool := match x with S754_zero true => true | _ => false end.

Definition n_min (x y : num) : num :=
  if isNaN x || isNaN y then S754_nan
  else if (x < y)%num then x else if (y < x)%num then y else if is_minus_zero x then x else y.
Definition n_max (x y : num) : num :=
  if isNaN x || isNaN y then S754_nan
  else if (x > y)%num then x else if (y > x)%num then y else if is_minus_zero x then y else x.

(** [Math.min(...l)] *)
Definition n_min_list (l : list num) : num := fold_left n_min l (S754_infinity false).
Definition n_max_list (l : list num) : num := fold_left n_max l (S754_infinity true).

(** An integer as a number. *)
Definition n_of_Z (z : Z) : num := binary_normalize 53 1024 z 0 false.

(** The value of an integral number. *)
Definition n_integer (x : num) : option Z :=
  match x with
  | S754_zero _ => Some 0
  | S754_finite s m e =>
      if 0 <=? e then Some (cond_Zopp s (Z.pos m * 2 ^ e))
      else if Z.pos m mod 2 ^ (- e) =? 0 then Some (cond_Zopp s (Z.pos m / 2 ^ (- e))) else None
  | _ => None
  end.

Definition n_isSafeInteger (x : num) : bool := match n_integer x with Some z => isSafeInteger z | None => false end.

(** [Math.round]: to the nearest integer, halves up. *)
Definition n_round (x : num) : num :=
  match x with
  | S754_finite s m e =>
      if 0 <=? e then x
      else
        let d := 2 ^ (- e) in
        binary_normalize 53 1024 ((2 * cond_Zopp s (Z.pos m) + d) / (2 * d)) 0 s
  | _ => x
  end.

(** [x % y]: the remainder of the division towards zero, with the sign of [x]. *)
Definition n_rem (x y : num) : num :=
  match x, y with
  | S754_nan, _ | _, S754_nan | S754_infinity _, _ | _, S754_zero _ => S754_nan
  | _, S754_infinity _ | S754_zero _, _ => x
  | S754_finite s m e, S754_finite _ m' e' =>
      let low := Z.min e e' in
      let r := (Z.pos m * 2 ^ (e - low)) mod (Z.pos m' * 2 ^ (e' - low)) in
      binary_normalize 53 1024 (cond_Zopp s r) low s
  end.

(** ** The two forms of a double *)

Definition n_of_bits (bits : Z) : num :=
  if f64_isFinite bits then
    match f64_significand bits with
    | Z.pos m => S754_finite (f64_negative bits) m (f64_scale bits)
    | _ => S754_zero (f64_negative bits)
    end
  else if f64_mantissa bits =? 0 then S754_infinity (f64_negative bits) else S754_nan.

Definition n_bits (x : num) : Z :=
  let sign (s : bool) := if s then 2 ^ 63 else 0 in
  match x with
  | S754_zero s => sign s
  | S754_infinity s => sign s + f64_infinity
  | S754_nan => f64_infinity + 2 ^ 51
  | S754_finite s m e => sign s + (if Z.pos m <? 2 ^ 52 then Z.pos m else (e + 1075) * 2 ^ 52 + (Z.pos m - 2 ^ 52))
  end.

(** A decimal literal of the source: the double nearest to [num / den]. *)
Definition n_lit (num den : Z) : spec_float := n_of_bits (f64_round num den).

(** [String(x)] *)
Definition n_text (x : num) : list Z :=
  match x with
  | S754_nan => js "NaN"
  | S754_infinity s => js (if s then "-Infinity" else "Infinity")
  | _ => number_text (n_bits x)
  end.

(** ** The order

    A number that is not NaN has a rank: its class, exponent and mantissa, read
    lexicographically. *)

Definition rank (x : num) : Z * Z * Z :=
  match x with
  | S754_infinity true => (-2, 0, 0)
  | S754_finite true m e => (-1, - e, - Z.pos m)
  | S754_zero _ => (0, 0, 0)
  | S754_finite false m e => (1, e, Z.pos m)
  | S754_infinity false => (2, 0, 0)
  | S754_nan => (3, 0, 0)
  end.

Definition rank_lt (a b : Z * Z * Z) : Prop :=
  let '(a1, a2, a3) := a in let '(b1, b2, b3) := b in
  a1 < b1 \/ (a1 = b1 /\ (a2 < b2 \/ (a2 = b2 /\ a3 < b3))).

Ltac ranks := unfold rank_lt in *; repeat match goal with p : (_ * _)%type |- _ => destruct p end; intuition lia.

Lemma rank_lt_trans a b c : rank_lt a b -> rank_lt b c -> rank_lt a c.
Proof. ranks. Qed.
Lemma rank_lt_irrefl a : ~ rank_lt a a.
Proof. ranks. Qed.
Lemma rank_total a b : rank_lt a b \/ a = b \/ rank_lt b a.
Proof.
  destruct a as [[a1 a2] a3], b as [[b1 b2] b3]. unfold rank_lt.
  destruct (Z.lt_trichotomy a1 b1) as [| [-> |]]; [lia | | lia].
  destruct (Z.lt_trichotomy a2 b2) as [| [-> |]]; [lia | | lia].
  destruct (Z.lt_trichotomy a3 b3) as [| [-> |]]; [lia | | lia]. tauto.
Qed.

Lemma compare_rank x y : isNaN x = false -> isNaN y = false ->
  match SFcompare x y with
  | Some Lt => rank_lt (rank x) (rank y)
  | Some Eq => rank x = rank y
  | Some Gt => rank_lt (rank y) (rank x)
  | None => False
  end.
Proof.
  intros Hx Hy. destruct x as [sx | sx | | sx mx ex], y as [sy | sy | | sy my ey]; try done;
    try destruct sx; try destruct sy; cbn; try lia; try done.
  all: destruct (Z.compare_spec ex ey); subst; cbn; try lia.
  all: change (Pos.compare_cont Eq mx my) with (Pos.compare mx my); destruct (Pos.compare_spec mx my); subst; cbn; try lia; try done.
Qed.

Lemma n_le_iff x y : isNaN x = false -> isNaN y = false ->
  (x <= y)%num = true <-> ~ rank_lt (rank y) (rank x).
Proof.
  intros Hx Hy. unfold SFleb. pose proof (compare_rank x y Hx Hy) as H.
  destruct (SFcompare x y) as [[] |]; [| | | done].
  - rewrite H. split; [intros _; apply rank_lt_irrefl | done].
  - split; [intros _ H2; by apply (rank_lt_irrefl (rank x)), (rank_lt_trans _ (rank y)) | done].
  - split; [done | tauto].
Qed.

Lemma n_lt_iff x y : isNaN x = false -> isNaN y = false -> (x < y)%num = true <-> rank_lt (rank x) (rank y).
Proof.
  intros Hx Hy. unfold SFltb. pose proof (compare_rank x y Hx Hy) as H.
  destruct (SFcompare x y) as [[] |]; [| | | done].
  - rewrite H. split; [done |]. intros ?%rank_lt_irrefl; done.
  - done.
  - split; [done |]. intros H2. exfalso. by apply (rank_lt_irrefl (rank x)), (rank_lt_trans _ (rank y)).
Qed.

Lemma n_le_not_nan x y : (x <= y)%num = true -> isNaN x = false /\ isNaN y = false.
Proof. by destruct x, y. Qed.
Lemma n_lt_not_nan x y : (x < y)%num = true -> isNaN x = false /\ isNaN y = false.
Proof. by destruct x, y. Qed.

Lemma n_le_refl x : isNaN x = false -> (x <= x)%num = true.
Proof. intros H. apply n_le_iff; [done.. |]. apply rank_lt_irrefl. Qed.

Lemma n_le_trans x y z : (x <= y)%num = true -> (y <= z)%num = true -> (x <= z)%num = true.
Proof.
  intros A B. pose proof (n_le_not_nan _ _ A) as [Hx Hy]. pose proof (n_le_not_nan _ _ B) as [_ Hz].
  rewrite n_le_iff in * by done. intros C.
  destruct (rank_total (rank x) (rank y)) as [L | [E | L]]; [| rewrite E in C; by apply B | by apply A].
  apply B. by eapply rank_lt_trans.
Qed.

Lemma n_le_or x y : isNaN x = false -> isNaN y = false -> (x < y)%num = false -> (y <= x)%num = true.
Proof. intros Hx Hy H. apply n_le_iff; [done.. |]. rewrite <- n_lt_iff by done. by rewrite H. Qed.

Lemma n_lt_le x y : (x < y)%num = true -> (x <= y)%num = true.
Proof. unfold SFltb, SFleb. by destruct (SFcompare x y) as [[] |]. Qed.

Lemma n_lt_le_trans x y z : (x < y)%num = true -> (y <= z)%num = true -> (x < z)%num = true.
Proof.
  intros A B. pose proof (n_lt_not_nan _ _ A) as [Hx Hy]. pose proof (n_le_not_nan _ _ B) as [_ Hz].
  rewrite n_lt_iff in * by done. rewrite n_le_iff in B by done.
  destruct (rank_total (rank y) (rank z)) as [L | [<- | L]]; [by eapply rank_lt_trans | done | by destruct (B L)].
Qed.

(** ** When a result is a number

    Rounding never gives NaN, and keeps the sign; so sums, products and
    quotients of numbers that are not negative are not NaN except where the
    standard says so. *)

Definition sign_of (x : num) : bool :=
  match x with S754_zero s | S754_infinity s | S754_finite s _ _ => s | S754_nan => false end.

(** Neither NaN nor below zero; infinity is. *)
Definition n_nonneg (x : num) : bool := negb (isNaN x) && (negb (sign_of x) || is_minus_zero x).

Lemma shr_nonneg p r : 0 <= shr_m r -> 0 <= shr_m (SpecFloat.iter_pos shr_1 p r).
Proof.
  assert (H1 : forall r, 0 <= shr_m r -> 0 <= shr_m (shr_1 r)).
  { intros [[| [] | m] ? ?]; cbn; lia. }
  revert r. induction p; intros r Hr; cbn; auto.
Qed.

Lemma shr_fexp_nonneg m e l : 0 <= m -> 0 <= shr_m (fst (shr_fexp 53 1024 m e l)).
Proof.
  intros Hm. unfold shr_fexp, shr. assert (Hr : 0 <= shr_m (shr_record_of_loc m l)) by (destruct l as [| []]; done).
  case_match; [done | | done]. by apply shr_nonneg.
Qed.

Lemma round_even_nonneg m l : 0 <= m -> 0 <= round_nearest_even m l.
Proof. intros. destruct l as [| []]; cbn; try case_match; lia. Qed.

Lemma round_sign s m e l : 0 <= m ->
  isNaN (binary_round_aux 53 1024 s m e l) = false /\ sign_of (binary_round_aux 53 1024 s m e l) = s.
Proof.
  intros Hm. unfold binary_round_aux. pose proof (shr_fexp_nonneg m e l Hm) as H1.
  destruct (shr_fexp 53 1024 m e l) as [r e1]. cbn in H1.
  pose proof (shr_fexp_nonneg _ e1 loc_Exact (round_even_nonneg _ (loc_of_shr_record r) H1)) as H2.
  destruct (shr_fexp 53 1024 (round_nearest_even _ _) e1 loc_Exact) as [r2 e2]. cbn in H2.
  destruct (shr_m r2); [done | by case_match | lia].
Qed.

Lemma normalize_sign m e z : isNaN (binary_normalize 53 1024 m e z) = false /\
  (0 < m -> sign_of (binary_normalize 53 1024 m e z) = false).
Proof.
  destruct m as [| p | p]; cbn; [split; [done | lia] | |];
    unfold binary_round; case_match; split; try lia; intros; by apply round_sign.
Qed.

Lemma nonneg_cases x : n_nonneg x = true ->
  (exists s, x = S754_zero s) \/ x = S754_infinity false \/ (exists m e, x = S754_finite false m e).
Proof. destruct x as [s | [] | | [] m e]; cbn; try done; eauto. Qed.

Lemma nonneg_not_nan x : n_nonneg x = true -> isNaN x = false.
Proof. unfold n_nonneg. destruct (isNaN x); [done | done]. Qed.

Lemma nonneg_of x s : isNaN x = false -> sign_of x = s -> s = false -> n_nonneg x = true.
Proof. unfold n_nonneg. intros -> -> ->. done. Qed.

Lemma nonneg_add x y : n_nonneg x = true -> n_nonneg y = true -> n_nonneg (x + y)%num = true.
Proof.
  intros [(s & ->) | [-> | (m & e & ->)]]%nonneg_cases [(t & ->) | [-> | (m' & e' & ->)]]%nonneg_cases; try done; try (by destruct s).
  - by destruct s, t.
  - unfold n_add, SFadd. cbn [cond_Zopp].
    match goal with |- context [binary_normalize 53 1024 ?v ?e0 ?z] => destruct (normalize_sign v e0 z) as [A B] end.
    eapply nonneg_of; [exact A | apply B; lia | done].
Qed.

(** A product of two numbers that are not negative is, unless it is zero times
    infinity. *)
Lemma nonneg_mul x y : n_nonneg x = true -> n_nonneg y = true -> isFinite x = true -> (0 < snd (rank x)) ->
  n_nonneg (x * y)%num = true.
Proof.
  intros [(s & ->) | [-> | (m & e & ->)]]%nonneg_cases [(t & ->) | [-> | (m' & e' & ->)]]%nonneg_cases; intros Hf Hr; cbn in Hr; try done; try lia.
  - by destruct t.
  - unfold n_mul, SFmul. destruct (round_sign (xorb false false) (Z.pos (m * m')) (e + e') loc_Exact) as [A B]; [lia |].
    by eapply nonneg_of.
Qed.

(** The distance to a finite number is not NaN. *)
Lemma nonneg_distance x y : n_nonneg x = true -> isFinite y = true -> n_nonneg (n_abs (x - y)%num) = true.
Proof.
  intros Hx Hy. assert (isNaN (x - y)%num = false) as Hn.
  { apply nonneg_cases in Hx as [(s & ->) | [-> | (m & e & ->)]]; destruct y as [t | | | t m' e']; try done; try (by destruct s, t).
    unfold n_sub, SFsub. apply normalize_sign. }
  unfold n_abs. by destruct (x - y)%num as [s | s | | s m e].
Qed.

Lemma nonneg_div x y : n_nonneg x = true -> isFinite y = true -> (n_of_Z 0 < y)%num = true -> n_nonneg (x / y)%num = true.
Proof.
  intros Hx Hy Hp. destruct y as [s | s | | [] m' e']; try done; try (by destruct s).
  apply nonneg_cases in Hx as [(s & ->) | [-> | (m & e & ->)]]; [by destruct s | done |].
  unfold n_div, SFdiv. destruct (SFdiv_core_binary 53 1024 (Z.pos m) e (Z.pos m') e') as [[q e0] l] eqn:E.
  destruct (round_sign (xorb false false) q e0 l) as [A B]; [| by eapply nonneg_of].
  unfold SFdiv_core_binary in E. set (a := match _ with Z0 => _ | Zpos _ => _ | Zneg _ => _ end) in E.
  assert (Ha : 0 <= a).
  { unfold a. match goal with |- context [match ?s with _ => _ end] => destruct s end; [lia | by apply Z.shiftl_nonneg | lia]. }
  destruct (Z.div_eucl a (Z.pos m')) as [q' r'] eqn:D. injection E as <- _ _.
  assert (q' = a / Z.pos m') as -> by (unfold Z.div; by rewrite D). apply Z.div_pos; lia.
Qed.

(** ** Clamping *)

Lemma le_n_max_l x y : isNaN x = false -> isNaN y = false -> (x <= n_max x y)%num = true.
Proof.
  intros Hx Hy. unfold n_max. rewrite Hx, Hy. cbn [orb].
  destruct (y < x)%num eqn:A; [by apply n_le_refl |]. destruct (x < y)%num eqn:B; [by apply n_lt_le |].
  case_match; [by apply n_le_or | by apply n_le_refl].
Qed.

Lemma n_max_not_nan x y : isNaN x = false -> isNaN y = false -> isNaN (n_max x y) = false.
Proof. intros Hx Hy. unfold n_max. rewrite Hx, Hy. cbn [orb]. by repeat case_match. Qed.

Lemma n_min_le_l x y : isNaN x = false -> isNaN y = false -> (n_min x y <= x)%num = true.
Proof.
  intros Hx Hy. unfold n_min. rewrite Hx, Hy. cbn [orb].
  destruct (x < y)%num eqn:A; [by apply n_le_refl |]. destruct (y < x)%num eqn:B; [by apply n_lt_le |].
  case_match; [by apply n_le_refl | by apply n_le_or].
Qed.

Lemma le_n_min x y z : (x <= y)%num = true -> (x <= z)%num = true -> (x <= n_min y z)%num = true.
Proof.
  intros A B. pose proof (n_le_not_nan _ _ A) as [_ Hy]. pose proof (n_le_not_nan _ _ B) as [_ Hz].
  unfold n_min. rewrite Hy, Hz. cbn [orb]. by repeat case_match.
Qed.

(** ** The value of a finite number

    In units of the least positive double, 2 to the -1074. *)

Definition n_units (x : num) : Z :=
  match x with S754_finite s m e => cond_Zopp s (Z.pos m * 2 ^ (e + 1074)) | _ => 0 end.

Definition canonical (x : num) : Prop := valid_binary 53 1024 x = true.

Lemma digits2_log2 m : Z.pos (digits2_pos m) = Z.log2 (Z.pos m) + 1.
Proof.
  induction m as [m IH | m IH |]; cbn [digits2_pos]; [| | done]; rewrite Pos2Z.inj_succ, IH.
  - change (Z.pos m~1) with (2 * Z.pos m + 1). rewrite Z.log2_succ_double by lia. lia.
  - change (Z.pos m~0) with (2 * Z.pos m). rewrite Z.log2_double by lia. lia.
Qed.

Lemma canonical_finite s m e : canonical (S754_finite s m e) ->
  -1074 <= e <= 971 /\ Z.pos m < 2 ^ 53 /\ (-1074 < e -> 2 ^ 52 <= Z.pos m).
Proof.
  unfold canonical. cbn [valid_binary]. unfold bounded, canonical_mantissa, fexp, emin. rewrite digits2_log2.
  intros [H1%Z.eqb_eq H2%Z.leb_le]%andb_true_iff. pose proof (Z.log2_spec (Z.pos m) eq_refl) as [L U].
  split; [lia |]. split.
  - eapply Z.lt_le_trans; [exact U |]. apply Z.pow_le_mono_r; lia.
  - intros He. etrans; [| exact L]. apply Z.pow_le_mono_r; lia.
Qed.

Lemma finite_of_canonical s m e : -1074 <= e <= 971 -> Z.pos m < 2 ^ 53 -> (-1074 < e -> 2 ^ 52 <= Z.pos m) ->
  canonical (S754_finite s m e).
Proof.
  intros He Hm Hn. unfold canonical. cbn [valid_binary]. unfold bounded, canonical_mantissa, fexp, emin. rewrite digits2_log2.
  apply andb_true_iff. split; [| apply Z.leb_le; lia]. apply Z.eqb_eq.
  assert (Z.log2 (Z.pos m) < 53) by (apply Z.log2_lt_pow2; lia).
  destruct (decide (-1074 < e)) as [L |]; [| lia]. specialize (Hn L).
  assert (52 <= Z.log2 (Z.pos m)) by (apply Z.log2_le_pow2; lia). lia.
Qed.

Lemma units_mono m e m' e' : canonical (S754_finite false m e) -> canonical (S754_finite false m' e') ->
  (e < e' \/ (e = e' /\ Z.pos m <= Z.pos m')) -> Z.pos m * 2 ^ (e + 1074) <= Z.pos m' * 2 ^ (e' + 1074).
Proof.
  intros (He & Hm & _)%canonical_finite (He' & _ & Hn')%canonical_finite [L | [-> L]].
  - specialize (Hn' ltac:(lia)). assert (Hp : 0 < 2 ^ (e + 1074)) by (apply Z.pow_pos_nonneg; lia).
    assert (Hq : 2 ^ (e' + 1074) = 2 ^ (e + 1074) * (2 * 2 ^ (e' - e - 1))).
    { rewrite <- Z.pow_succ_r, <- Z.pow_add_r by lia. f_equal. lia. }
    assert (0 < 2 ^ (e' - e - 1)) by (apply Z.pow_pos_nonneg; lia). rewrite Hq. nia.
  - assert (Hp : 0 < 2 ^ (e' + 1074)) by (apply Z.pow_pos_nonneg; lia). nia.
Qed.

(** Numbers are in the order of their values. *)
Lemma n_le_units x y : canonical x -> canonical y -> isFinite x = true -> isFinite y = true ->
  (x <= y)%num = true -> n_units x <= n_units y.
Proof.
  intros Cx Cy Fx Fy L. pose proof (n_le_not_nan _ _ L) as [Nx Ny]. apply n_le_iff in L; [| done..].
  destruct x as [sx | | | sx m e], y as [sy | | | sy m' e']; try done; unfold n_units.
  - destruct sy; cbn [cond_Zopp]; [exfalso; apply L; cbn; lia | apply Z.mul_nonneg_nonneg; lia].
  - destruct sx; cbn [cond_Zopp]; [| exfalso; apply L; cbn; lia].
    assert (0 <= Z.pos m * 2 ^ (e + 1074)) by (apply Z.mul_nonneg_nonneg; lia). lia.
  - assert (0 <= Z.pos m * 2 ^ (e + 1074)) by (apply Z.mul_nonneg_nonneg; lia).
    assert (0 <= Z.pos m' * 2 ^ (e' + 1074)) by (apply Z.mul_nonneg_nonneg; lia).
    destruct sx, sy; cbn [cond_Zopp]; [| lia | exfalso; apply L; cbn; lia |].
    + pose proof (units_mono m' e' m e Cy Cx) as U. apply Z.opp_le_mono. rewrite !Z.opp_involutive. apply U.
      cbn in L. lia.
    + apply units_mono; [done.. |]. cbn in L. lia.
Qed.

Lemma n_integer_units x z : canonical x -> n_integer x = Some z -> n_units x = z * 2 ^ 1074.
Proof.
  destruct x as [s | s | | s m e]; intros C; [by intros [= <-] | done | done |]. cbn [n_integer n_units].
  apply canonical_finite in C as (He & _). assert (P : forall a b, cond_Zopp s a * b = cond_Zopp s (a * b)) by (intros; destruct s; [apply Z.mul_opp_l | done]).
  destruct (0 <=? e) eqn:E.
  - apply Z.leb_le in E. intros [= <-]. rewrite P, Z.pow_add_r by lia. f_equal. lia.
  - apply Z.leb_gt in E. case_match eqn:M; [| done]. apply Z.eqb_eq in M. intros [= <-]. rewrite P. f_equal.
    assert (0 < 2 ^ (- e)) by (apply Z.pow_pos_nonneg; lia).
    rewrite (Z.div_mod (Z.pos m) (2 ^ (- e))) at 1 by lia. rewrite M.
    replace (2 ^ 1074) with (2 ^ (- e) * 2 ^ (e + 1074)) by (rewrite <- Z.pow_add_r by lia; f_equal; lia). lia.
Qed.

Lemma n_le_integer x y a b : canonical x -> canonical y -> n_integer x = Some a -> n_integer y = Some b ->
  (x <= y)%num = true -> a <= b.
Proof.
  intros Cx Cy Ia Ib L.
  assert (F : forall z c, n_integer z = Some c -> isFinite z = true) by (by intros []).
  pose proof (n_le_units x y Cx Cy (F _ _ Ia) (F _ _ Ib) L) as U.
  rewrite (n_integer_units x a), (n_integer_units y b) in U by done.
  assert (0 < 2 ^ 1074) by (apply Z.pow_pos_nonneg; lia). nia.
Qed.

Lemma canonical_of_bits bits : canonical (n_of_bits bits).
Proof.
  unfold n_of_bits. destruct (f64_isFinite bits) eqn:F; [| by case_match].
  destruct (f64_significand bits) as [| m | m] eqn:S; [done | | done].
  unfold f64_isFinite in F. apply negb_true_iff, Z.eqb_neq in F.
  pose proof (Z.mod_pos_bound (bits / 2 ^ 52) 2048 eq_refl) as He. fold (f64_exponent bits) in He.
  pose proof (Z.mod_pos_bound bits (2 ^ 52) eq_refl) as Hm. fold (f64_mantissa bits) in Hm.
  unfold f64_significand in S. unfold f64_scale. destruct (f64_exponent bits =? 0) eqn:E.
  - apply finite_of_canonical; lia.
  - apply Z.eqb_neq in E. apply finite_of_canonical; lia.
Qed.

(** ** Checks on concrete numbers *)

Example sum_rounds : n_text (n_lit 1 10 + n_lit 2 10)%num = js "0.30000000000000004".
Proof. vm_compute. reflexivity. Qed.
Example halves_up : (n_round (n_lit 5 2), n_text (n_round (n_of_bits (2 ^ 63 + f64_round 5 2)))) = (n_of_Z 3, js "-2").
Proof. vm_compute. reflexivity. Qed.
Example remainder_of_heading : (n_of_Z 36050 / n_of_Z 100)%num = n_lit 3605 10 /\ n_rem (n_lit 3605 10) (n_of_Z 360) = n_lit 1 2.
Proof. vm_compute. done. Qed.
Example bits_of_third : n_bits (n_of_Z 1 / n_of_Z 3)%num = f64_round 1 3 /\ n_of_bits (f64_round 1 3) = (n_of_Z 1 / n_of_Z 3)%num.
Proof. vm_compute. done. Qed.
