(* ===== verification/RetryTiming.v ===== *)
(** * Adaptive retry timing ([retry-timing.ts])

    [RetryTimingEstimator]: how long to wait for a confirmation of each
    destination, learned from the confirmations that came without a retry.  Its
    times are numbers with a fraction. *)

From Stdlib Require Import ZArith Lia String.
From stdpp Require Import base list option.
From S2P Require Import Prelude JsMap Json SdkSubscriptions JsState Doubles.

Open Scope string_scope.
Open Scope list_scope.
Open Scope Z_scope.

Definition DEFAULT_MINIMUM_DELAY_MS : num := n_of_Z 2000.
Definition DEFAULT_MAXIMUM_DELAY_MS : num := n_of_Z 60000.
Definition DEFAULT_PEER_TTL_MS : num := (n_of_Z 10 * n_of_Z 60000)%num.
Definition DEFAULT_MAX_PEERS : num := n_of_Z 64.
Definition DEFAULT_SMOOTHING_ALPHA : num := (n_of_Z 1 / n_of_Z 8)%num.
Definition DEFAULT_VARIATION_BETA : num := (n_of_Z 1 / n_of_Z 4)%num.

Record RetryTimingSample := mkSample {
  sa_destination : list Z; measured_rtt_ms : num; observed_at_ms : num; retransmitted : bool
}.

Record RetryTimingEstimatorOptions := mkTimingOptions {
  fallback_ms : num;
  minimum_delay_ms : option num;
  maximum_delay_ms : option num;
  peer_ttl_ms : option num;
  max_peers : option num
}.

Record PeerTimingState := mkPeer {
  smoothed_rtt_ms : num; variation_ms : num; last_observed_at_ms : num; order : Z
}.
#[export] Instance PeerTimingState_rebuild : Rebuild PeerTimingState :=
  fun r => mkPeer (smoothed_rtt_ms r) (variation_ms r) (last_observed_at_ms r) (order r).

Record RetryTimingEstimator := mkEstimator {
  fallbackMs : num; minimumDelayMs : num; maximumDelayMs : num; peerTtlMs : num; maxPeers : Z;
  peers : list (list Z * PeerTimingState); nextOrder : Z
}.
#[export] Instance RetryTimingEstimator_rebuild : Rebuild RetryTimingEstimator :=
  fun r => mkEstimator (fallbackMs r) (minimumDelayMs r) (maximumDelayMs r) (peerTtlMs r) (maxPeers r) (peers r) (nextOrder r).

Definition positiveFinite (value : num) (name : string) : result num :=
  guard! isFinite value && negb (value <= n_of_Z 0)%num else RangeError (name ++ " must be positive and finite")%string in Ok value.

Definition positiveInteger (value : num) (name : string) : result Z :=
  match n_integer value with
  | Some n => guard! isSafeInteger n && negb (n <=? 0) else RangeError (name ++ " must be a positive integer")%string in Ok n
  | None => Throw (RangeError (name ++ " must be a positive integer")%string)
  end.

(** The constructor. *)
Definition newEstimator (options : RetryTimingEstimatorOptions) : result RetryTimingEstimator :=
  let! fallback := positiveFinite (fallback_ms options) "fallback_ms" in
  let! minimum := positiveFinite (default DEFAULT_MINIMUM_DELAY_MS (minimum_delay_ms options)) "minimum_delay_ms" in
  let! maximum := positiveFinite (default DEFAULT_MAXIMUM_DELAY_MS (maximum_delay_ms options)) "maximum_delay_ms" in
  guard! negb (maximum < minimum)%num else RangeError "maximum_delay_ms must be at least minimum_delay_ms" in
  guard! negb ((fallback < minimum)%num || (fallback > maximum)%num)
    else RangeError "fallback_ms must be within the learned delay bounds" in
  let! ttl := positiveFinite (default DEFAULT_PEER_TTL_MS (peer_ttl_ms options)) "peer_ttl_ms" in
  let! limit := positiveInteger (default DEFAULT_MAX_PEERS (max_peers options)) "max_peers" in
  Ok (mkEstimator fallback minimum maximum ttl limit [] 0).

Abbreviation R := (eff RetryTimingEstimator).

Definition validateDestination (destination : list Z) : R unit :=
  if bool_decide (SdkSubscriptions.trim destination = []) then throw (TypeError "destination must be a non-empty string") else ret tt.

Definition validateTime (value : num) (name : string) : R unit :=
  if negb (isFinite value) || (value < n_of_Z 0)%num then throw (RangeError (name ++ " must be a non-negative finite number")%string)
  else ret tt.

Definition bound (t : RetryTimingEstimator) (delayMs : num) : num :=
  n_min (maximumDelayMs t) (n_max (minimumDelayMs t) delayMs).

Definition expired_peer (nowMs : num) (ttl : num) (p : PeerTimingState) : bool := (nowMs - last_observed_at_ms p >= ttl)%num.

Definition pruneExpired (nowMs : num) : R unit :=
  modify (fun t => t <| peers ::= jretain (fun _ p => negb (expired_peer nowMs (peerTtlMs t) p)) |>).

(** Whether [state] was observed before the oldest found so far. *)
Definition older (state oldest : PeerTimingState) : bool :=
  (last_observed_at_ms state < last_observed_at_ms oldest)%num ||
  ((last_observed_at_ms state =? last_observed_at_ms oldest)%num && (order state <? order oldest)%Z).

Fixpoint oldest_peer (l : list (list Z * PeerTimingState)) (best : option (list Z * PeerTimingState)) : option (list Z * PeerTimingState) :=
  match l with
  | [] => best
  | entry :: l' =>
      oldest_peer l' (match best with
                      | Some b => if older (snd entry) (snd b) then Some entry else best
                      | None => Some entry
                      end)
  end.

Definition ensurePeerCapacity : R unit :=
  modify (fun t =>
    if jsize (peers t) <? maxPeers t then t
    else match oldest_peer (peers t) None with
         | Some (destination, _) => t <| peers ::= jdel destination |>
         | None => t
         end).

Definition estimate (destination : list Z) (nowMs : num) : R num :=
  do! _ := validateDestination destination in
  do! _ := validateTime nowMs "nowMs" in
  do! _ := pruneExpired nowMs in
  do! t := gets (fun t => t) in
  match jget destination (peers t) with
  | None => ret (fallbackMs t)
  | Some state => ret (bound t (smoothed_rtt_ms state + n_of_Z 4 * variation_ms state)%num)
  end.

(** What a sample makes of the state of its peer. *)
Definition learned (measuredRttMs at_ : num) (previous : PeerTimingState) : PeerTimingState :=
  let variation := ((n_of_Z 1 - DEFAULT_VARIATION_BETA) * variation_ms previous +
                    DEFAULT_VARIATION_BETA * n_abs (smoothed_rtt_ms previous - measuredRttMs))%num in
  let smoothed := ((n_of_Z 1 - DEFAULT_SMOOTHING_ALPHA) * smoothed_rtt_ms previous + DEFAULT_SMOOTHING_ALPHA * measuredRttMs)%num in
  mkPeer smoothed variation at_ (order previous).

Definition observe (sample : RetryTimingSample) : R bool :=
  do! _ := validateDestination (sa_destination sample) in
  do! _ := validateTime (observed_at_ms sample) "observed_at_ms" in
  if retransmitted sample then ret false
  else if negb (isFinite (measured_rtt_ms sample)) || (measured_rtt_ms sample <= n_of_Z 0)%num then ret false
  else
    do! _ := pruneExpired (observed_at_ms sample) in
    do! t := gets (fun t => t) in
    let measuredRttMs := n_min (measured_rtt_ms sample) (maximumDelayMs t) in
    match jget (sa_destination sample) (peers t) with
    | None =>
        do! _ := ensurePeerCapacity in
        do! _ := modify (fun t => t <| peers ::= jset (sa_destination sample)
          (mkPeer measuredRttMs (measuredRttMs / n_of_Z 2)%num (observed_at_ms sample) (nextOrder t)) |>
          <| nextOrder ::= Z.succ |>) in
        ret true
    | Some previous =>
        do! _ := modify (fun t => t <| peers ::= jset (sa_destination sample) (learned measuredRttMs (observed_at_ms sample) previous) |>) in
        ret true
    end.

(** ** Runs *)

Inductive TimingCall :=
  | call_estimate (destination : list Z) (nowMs : num)
  | call_observe (sample : RetryTimingSample).

Definition timing_call (c : TimingCall) (t : RetryTimingEstimator) : RetryTimingEstimator :=
  match c with
  | call_estimate d n => snd (estimate d n t)
  | call_observe s => snd (observe s t)
  end.

Definition timing_run (calls : list TimingCall) (t : RetryTimingEstimator) : RetryTimingEstimator := foldl (fun t c => timing_call c t) t calls.

(** ** The estimator in every run *)

Definition peer_ok (p : PeerTimingState) : Prop := n_nonneg (smoothed_rtt_ms p) = true /\ n_nonneg (variation_ms p) = true.

Record timing_ok (t : RetryTimingEstimator) : Prop := {
  to_positive : (n_of_Z 0 < minimumDelayMs t)%num = true;
  to_ordered : (minimumDelayMs t <= maximumDelayMs t)%num = true;
  to_finite : isFinite (maximumDelayMs t) = true;
  to_fallback : (minimumDelayMs t <= fallbackMs t)%num = true /\ (fallbackMs t <= maximumDelayMs t)%num = true;
  to_limit : 1 <= maxPeers t;
  to_wf : jwf (peers t);
  to_bounded : jsize (peers t) <= maxPeers t;
  to_peers : forall d p, jget d (peers t) = Some p -> peer_ok p
}.

(** The bounds never change. *)
Definition same_bounds (t t' : RetryTimingEstimator) : Prop :=
  minimumDelayMs t' = minimumDelayMs t /\ maximumDelayMs t' = maximumDelayMs t /\ fallbackMs t' = fallbackMs t /\ maxPeers t' = maxPeers t.

Lemma positive_not_nan x : (n_of_Z 0 < x)%num = true -> isNaN x = false.
Proof. intros H. by apply n_lt_not_nan in H as [_ H]. Qed.

Lemma positive_nonneg x : (n_of_Z 0 < x)%num = true -> n_nonneg x = true.
Proof. by destruct x as [s | [] | | [] m e]. Qed.

Lemma positiveFinite_ok v name x : positiveFinite v name = Ok x -> x = v /\ isFinite v = true /\ (n_of_Z 0 < v)%num = true.
Proof.
  unfold positiveFinite. intros H. inv_result. reflect_tests. split_and!; [done | done |].
  by destruct x as [s | [] | | [] m e].
Qed.

Lemma new_ok options t : newEstimator options = Ok t -> timing_ok t.
Proof.
  unfold newEstimator. intros H. inv_result. reflect_tests.
  repeat match goal with E : positiveFinite _ _ = Ok _ |- _ => apply positiveFinite_ok in E as (-> & ? & ?) end.
  match goal with E : positiveInteger _ _ = Ok _ |- _ => unfold positiveInteger in E end.
  case_match; [| done]. inv_result. reflect_tests.
  split; cbn; try done; try (by apply n_le_or; eauto using positive_not_nan); try lia.
  - split; apply n_le_or; eauto using positive_not_nan.
  - apply jwf_nil.
  - change (jsize []) with 0. lia.
Qed.

(** The table of peers replaced by one within the limit. *)
Lemma peers_ok t m n : timing_ok t -> jwf m -> jsize m <= maxPeers t ->
  (forall d p, jget d m = Some p -> peer_ok p) -> timing_ok (t <| peers := m |> <| nextOrder := n |>).
Proof. intros [] ? ? ?. by split. Qed.

Lemma prune_ok now t : timing_ok t -> timing_ok (snd (pruneExpired now t)).
Proof.
  intros Ht. pose proof Ht as []. apply (peers_ok t (jretain (fun _ p => negb (expired_peer now (peerTtlMs t) p)) (peers t)) (nextOrder t)); [done | by apply jretain_wf | |].
  - etrans; [apply jsize_jretain | done].
  - intros d p. rewrite jget_jretain by done. case_match eqn:E; [| done]. case_match; [| done]. intros [= <-]. by eapply to_peers0.
Qed.

Lemma oldest_in l best e : oldest_peer l best = Some e -> e ∈ l \/ best = Some e.
Proof.
  revert best. induction l as [| x l IH]; intros best H; [by right |].
  apply IH in H as [H | H]; [left; by right |]. destruct best as [b |].
  - case_match; [simplify_eq; left; by left | by right].
  - simplify_eq. left. by left.
Qed.

Lemma oldest_some l best : l <> [] \/ best <> None -> oldest_peer l best <> None.
Proof.
  revert best. induction l as [| x l IH]; intros best H; [by destruct H |].
  apply IH. right. destruct best; [by case_match | done].
Qed.

Lemma capacity_ok t : timing_ok t -> timing_ok (snd (ensurePeerCapacity t)) /\ jsize (peers (snd (ensurePeerCapacity t))) < maxPeers (snd (ensurePeerCapacity t)).
Proof.
  intros Ht. pose proof Ht as []. unfold ensurePeerCapacity, modify. cbn [snd].
  destruct (jsize (peers t) <? maxPeers t) eqn:E; [by apply Z.ltb_lt in E |]. apply Z.ltb_ge in E.
  destruct (oldest_peer (peers t) None) as [[d p] |] eqn:O.
  - apply oldest_in in O as [O | O]; [| done]. split.
    + apply (peers_ok t (jdel d (peers t)) (nextOrder t)); [done | by apply jdel_wf | pose proof (jsize_jdel_le d (peers t)); lia |].
      intros d' p'. rewrite jget_jdel by done. case_decide; [done | by eapply to_peers0].
    + change (jsize (jdel d (peers t)) < maxPeers t). rewrite jsize_jdel_present; [lia |]. by eapply jget_key, jget_of_elem.
  - exfalso. apply (oldest_some (peers t) None); [| done]. left. intros E2. rewrite E2 in E. change (jsize []) with 0 in E. lia.
Qed.

Lemma measured_ok x m : isFinite x = true -> (x <= n_of_Z 0)%num = false -> isFinite m = true -> (n_of_Z 0 < m)%num = true ->
  n_nonneg (n_min x m) = true /\ isFinite (n_min x m) = true.
Proof.
  intros Hx Hp Hm Hq. assert (Hpos : n_nonneg x = true) by (by destruct x as [s | [] | | [] ? ?]).
  apply positive_nonneg in Hq. unfold n_min. rewrite (nonneg_not_nan x), (nonneg_not_nan m) by done. cbn [orb].
  repeat case_match; done.
Qed.

Lemma learned_ok x at_ p : n_nonneg x = true -> isFinite x = true -> peer_ok p -> peer_ok (learned x at_ p).
Proof.
  intros Hx Hf [Hs Hv]. unfold learned. split; cbn [smoothed_rtt_ms variation_ms].
  - apply nonneg_add; apply nonneg_mul; done.
  - apply nonneg_add; apply nonneg_mul; try done. by apply nonneg_distance.
Qed.

(** What the tests of the arguments leave. *)
Lemma validated destination now name {A} (k : unit -> R A) t :
  bind_eff (validateDestination destination) (fun _ => bind_eff (validateTime now name) k) t =
  if bool_decide (SdkSubscriptions.trim destination = []) then (Throw (TypeError "destination must be a non-empty string"), t)
  else if negb (isFinite now) || (now < n_of_Z 0)%num then (Throw (RangeError (name ++ " must be a non-negative finite number")), t)
  else k tt t.
Proof. unfold bind_eff, validateDestination, validateTime. case_bool_decide; [done |].
  by destruct (negb (isFinite now) || (now < n_of_Z 0)%num). Qed.

Lemma observe_ok sample t : timing_ok t -> timing_ok (snd (observe sample t)).
Proof.
  intros Ht. unfold observe. rewrite validated. case_bool_decide; [done |].
  destruct (negb (isFinite (observed_at_ms sample)) || (observed_at_ms sample < n_of_Z 0)%num); [done |].
  destruct (retransmitted sample); [done |].
  destruct (negb (isFinite (measured_rtt_ms sample)) || (measured_rtt_ms sample <= n_of_Z 0)%num) eqn:Hm; [done |]. reflect_tests.
  apply (prune_ok (observed_at_ms sample)) in Ht. set (t1 := snd (pruneExpired (observed_at_ms sample) t)) in *.
  change (timing_ok (snd ((match jget (sa_destination sample) (peers t1) with
    | None => bind_eff ensurePeerCapacity (fun _ => bind_eff (modify (fun t => t <| peers ::= jset (sa_destination sample)
        (mkPeer (n_min (measured_rtt_ms sample) (maximumDelayMs t1)) (n_min (measured_rtt_ms sample) (maximumDelayMs t1) / n_of_Z 2)%num
          (observed_at_ms sample) (nextOrder t)) |> <| nextOrder ::= Z.succ |>)) (fun _ => ret true))
    | Some previous => bind_eff (modify (fun t => t <| peers ::= jset (sa_destination sample)
        (learned (n_min (measured_rtt_ms sample) (maximumDelayMs t1)) (observed_at_ms sample) previous) |>)) (fun _ => ret true)
    end) t1))).
  destruct (measured_ok (measured_rtt_ms sample) (maximumDelayMs t1)) as [M1 M2]; try done; [apply Ht | |].
  { by apply (n_lt_le_trans _ (minimumDelayMs t1)); apply Ht. }
  destruct (jget _ (peers t1)) as [previous |] eqn:E.
  - pose proof Ht as [].
    apply (peers_ok t1 (jset (sa_destination sample) (learned (n_min (measured_rtt_ms sample) (maximumDelayMs t1)) (observed_at_ms sample) previous)
      (peers t1)) (nextOrder t1)); [done | by apply jset_wf | |].
    + rewrite jsize_jset_present; [done |]. by eapply jget_key.
    + intros d p. rewrite jget_jset. case_decide; [intros [= <-] | by eapply to_peers0]. apply learned_ok; [done.. |]. by eapply to_peers0.
  - destruct (capacity_ok t1 Ht) as [Hc Hs]. set (t2 := snd (ensurePeerCapacity t1)) in *. pose proof Hc as [].
    unfold bind_eff. destruct (ensurePeerCapacity t1) as [[[] | e] t2'] eqn:Ec; [| done]. subst t2. cbn [snd] in *. rename t2' into t2.
    apply (peers_ok t2 (jset (sa_destination sample) _ (peers t2)) (Z.succ (nextOrder t2))); [done | by apply jset_wf | |].
    + pose proof (jsize_jset_le (sa_destination sample) (mkPeer (n_min (measured_rtt_ms sample) (maximumDelayMs t1))
        (n_min (measured_rtt_ms sample) (maximumDelayMs t1) / n_of_Z 2)%num (observed_at_ms sample) (nextOrder t2)) (peers t2)). lia.
    + intros d p. rewrite jget_jset. case_decide; [intros [= <-] | by eapply to_peers0]. split; [done |]. by apply nonneg_div.
Qed.

#[local] Instance same_bounds_preorder : PreOrder same_bounds.
Proof. split; [done |]. intros x y z (A & B & C & D) (A' & B' & C' & D'). unfold same_bounds. split_and!; congruence. Qed.

Ltac keep_bounds :=
  repeat first [apply keeps_bind; [exact _ | | intros ?] | apply keeps_ret, _ | apply keeps_gets, _ | done
               | apply keeps_modify; intros s; repeat case_match; done | case_match].

Lemma observe_bounds sample : keeps same_bounds (observe sample).
Proof.
  unfold observe, validateDestination, validateTime, pruneExpired, ensurePeerCapacity, throw.
  keep_bounds.
Qed.

Lemma estimate_bounds destination now : keeps same_bounds (estimate destination now).
Proof.
  unfold estimate, validateDestination, validateTime, pruneExpired, throw.
  keep_bounds.
Qed.

Lemma estimate_ok destination now t : timing_ok t -> timing_ok (snd (estimate destination now t)).
Proof.
  intros Ht. unfold estimate. rewrite validated. case_bool_decide; [done |].
  destruct (negb (isFinite now) || (now < n_of_Z 0)%num); [done |].
  apply (prune_ok now) in Ht. set (t1 := snd (pruneExpired now t)) in *.
  change (timing_ok (snd ((match jget destination (peers t1) with
    | None => ret (fallbackMs t1)
    | Some state => ret (bound t1 (smoothed_rtt_ms state + n_of_Z 4 * variation_ms state)%num)
    end) t1))). by case_match.
Qed.

Lemma run_ok calls t : timing_ok t -> timing_ok (timing_run calls t) /\ same_bounds t (timing_run calls t).
Proof.
  unfold timing_run. revert t. induction calls as [| c calls IH]; intros t Ht; [done |]. cbn [foldl].
  assert (timing_ok (timing_call c t) /\ same_bounds t (timing_call c t)) as [H1 H2].
  { destruct c; cbn [timing_call]; split; [by apply estimate_ok | apply estimate_bounds | by apply observe_ok | apply observe_bounds]. }
  destruct (IH _ H1) as [H3 H4]. split; [done |]. by etrans.
Qed.

(** Whatever it has learned, the estimator answers every question about a
    destination with a delay between its bounds, never NaN, and it holds no
    more peers than its limit. *)
Theorem estimates_bounded options t calls destination now :
  newEstimator options = Ok t -> SdkSubscriptions.trim destination <> [] -> isFinite now = true -> (now < n_of_Z 0)%num = false ->
  exists v t', estimate destination now (timing_run calls t) = (Ok v, t') /\
    (minimumDelayMs t <= v)%num = true /\ (v <= maximumDelayMs t)%num = true /\ jsize (peers t') <= maxPeers t.
Proof.
  intros Hn Hd Hf Hp. apply new_ok in Hn. destruct (run_ok calls t Hn) as [Hr (B1 & B2 & B3 & B4)].
  rewrite <- B1, <- B2, <- B4. set (r := timing_run calls t) in *. clearbody r. clear Hn B1 B2 B3 B4 t.
  unfold estimate. rewrite validated, bool_decide_eq_false_2, Hf, Hp by done. cbn [negb orb].
  pose proof (prune_ok now r Hr) as Hr1. set (t1 := snd (pruneExpired now r)) in *. pose proof Hr1 as [].
  exists (match jget destination (peers t1) with
          | None => fallbackMs t1
          | Some state => bound t1 (smoothed_rtt_ms state + n_of_Z 4 * variation_ms state)%num
          end), t1.
  split; [unfold bind_eff; cbn [pruneExpired modify gets]; by destruct (jget destination (peers t1)) eqn:E; unfold t1 in *; cbn in E |- *; rewrite E |].
  change (minimumDelayMs r) with (minimumDelayMs t1). change (maximumDelayMs r) with (maximumDelayMs t1).
  change (maxPeers r) with (maxPeers t1). match goal with |- ?A /\ ?B /\ _ => cut (A /\ B); [tauto |] end.
  destruct (jget destination (peers t1)) as [p |] eqn:E; [| done].
  destruct (to_peers0 _ _ E) as [Hs Hv]. unfold bound.
  assert (Hd' : isNaN (smoothed_rtt_ms p + n_of_Z 4 * variation_ms p)%num = false).
  { apply nonneg_not_nan, nonneg_add; [done |]. by apply nonneg_mul. }
  apply positive_not_nan in to_positive0 as Hm. apply n_le_not_nan in to_ordered0 as HM. destruct HM as [_ HM].
  split; [apply le_n_min; [done | by apply le_n_max_l] | apply n_min_le_l; [done | by apply n_max_not_nan]].
Qed.

(** *** A run *)

Definition sample_timing_options : RetryTimingEstimatorOptions := mkTimingOptions (n_of_Z 15000) None None None (Some (n_of_Z 2)).

Definition sample_estimator : RetryTimingEstimator :=
  match newEstimator sample_timing_options with Ok t => t | Throw _ => mkEstimator NaN_ NaN_ NaN_ NaN_ 0 [] 0 end.

Definition sample_observed (d : string) (rtt at_ : Z) : TimingCall := call_observe (mkSample (js d) (n_of_Z rtt) (n_of_Z at_) false).

(** Two confirmations of one peer, and a third peer that takes the place of the
    one heard of longest ago. *)
Definition sample_timing_calls : list TimingCall :=
  [sample_observed "a1" 3000 1000; sample_observed "a1" 5001 2000; sample_observed "a2" 900000 3000; sample_observed "a3" 4000 4000].

Lemma estimates_bounded_witness :
  jkeys (peers (timing_run sample_timing_calls sample_estimator)) = [js "a2"; js "a3"] /\
  n_text (match fst (estimate (js "a1") (n_of_Z 2500) (timing_run (take 2 sample_timing_calls) sample_estimator)) with
          | Ok v => v | Throw _ => NaN_ end) = js "9751.125" /\
  exists v t', estimate (js "a2") (n_of_Z 5000) (timing_run sample_timing_calls sample_estimator) = (Ok v, t') /\
    (n_of_Z 2000 <= v)%num = true /\ (v <= n_of_Z 60000)%num = true /\ jsize (peers t') <= 2.
Proof.
  split; [vm_compute; reflexivity |]. split; [vm_compute; reflexivity |].
  apply (estimates_bounded sample_timing_options sample_estimator sample_timing_calls (js "a2") (n_of_Z 5000));
    [vm_compute; reflexivity | vm_compute; discriminate | vm_compute; reflexivity | vm_compute; reflexivity].
Defined.
