(* ===== verification/AssetConfig.v ===== *)
(** * Configuration of an Asset host ([config.ts])

    [parseAssetConfig] from the parsed document on; the TOML parser is a
    parameter.  Of a document the code reads text, numbers and tables. *)

From Stdlib Require Import ZArith Lia String.
From stdpp Require Import base list option.
From S2P Require Import Prelude JsMap Json Contract Doubles SdkSubscriptions.

Open Scope string_scope.
Open Scope list_scope.
Open Scope Z_scope.

Inductive AssetLinkConfig :=
  | link_serial (port : list Z) (baud : Z)
  | link_tcp (host : list Z) (port : Z).

Record AssetConfig := mkAssetConfig {
  coreUrl : list Z;
  apiKey : list Z;
  assetId : list Z;
  config_link : AssetLinkConfig;
  vehicleSystemId : Z;
  vehicleComponentId : Z;
  coreLossGraceSeconds : num;
  telemetryIntervalSeconds : num;
  arrivalRadiusM : num;
  altitudeToleranceM : num;
  hoverSettleSeconds : num;
  progressTimeoutSeconds : num;
  taskTimeoutSeconds : num;
  minBatteryPercent : num;
  shutdownConfirmSeconds : num
}.

(** [typeof value === "number"] *)
Definition as_number (v : option json) : option num :=
  match v with Some (JNumber bits) => Some (n_of_bits bits) | _ => None end.

Abbreviation section := (list (list Z * json)).

Definition fail {A} (message : string) : result A := Throw (PlainError ("Invalid Asset configuration: " ++ message)).

Definition requiredSection (value : option json) (name : string) : result section :=
  match value with Some (JObject m) => Ok m | _ => fail ("missing [" ++ name ++ "] section") end.

Definition requiredString (s : section) (name key : string) : result (list Z) :=
  match jget (js key) s with
  | Some (JString v) =>
      if bool_decide (SdkSubscriptions.trim v = []) then fail ("[" ++ name ++ "] " ++ key ++ " must be a non-empty string")
      else Ok (SdkSubscriptions.trim v)
  | _ => fail ("[" ++ name ++ "] " ++ key ++ " must be a non-empty string")
  end.

Definition rejectUnknownKeys (s : section) (name : string) (allowedKeys : list string) : result unit :=
  if forallb (fun entry => bool_decide (fst entry ∈ map js allowedKeys)) s then Ok tt
  else fail ("[" ++ name ++ "] unknown key").

Definition optionalNumber (s : section) (name key : string) (fallback minimum : num) : result num :=
  match jget (js key) s with
  | None => Ok fallback
  | v =>
      match as_number v with
      | Some x => if negb (isFinite x) || (x < minimum)%num then fail ("[" ++ name ++ "] " ++ key ++ " must be a number") else Ok x
      | None => fail ("[" ++ name ++ "] " ++ key ++ " must be a number")
      end
  end.

Definition optionalInteger (s : section) (name key : string) (fallback minimum maximum : Z) : result Z :=
  let! value := optionalNumber s name key (n_of_Z fallback) (n_of_Z minimum) in
  match n_integer value with
  | Some n => if maximum <? n then fail ("[" ++ name ++ "] " ++ key ++ " must be an integer") else Ok n
  | None => fail ("[" ++ name ++ "] " ++ key ++ " must be an integer")
  end.

Definition parseLinkConfig (link : section) : result AssetLinkConfig :=
  let transport := jget (js "transport") link in
  if is_text transport "tcp" then
    let! _ := rejectUnknownKeys link "link" ["transport"; "host"; "tcp_port"] in
    let! port := optionalInteger link "link" "tcp_port" 5760 1 65535 in
    Ok (link_tcp match jget (js "host") link with
                 | Some (JString h) => if bool_decide (SdkSubscriptions.trim h = []) then js "127.0.0.1" else SdkSubscriptions.trim h
                 | _ => js "127.0.0.1"
                 end port)
  else if match transport with None => true | v => is_text v "serial" end then
    let! _ := rejectUnknownKeys link "link" ["transport"; "port"; "baud"] in
    match jget (js "port") link with
    | Some (JString p) =>
        if bool_decide (SdkSubscriptions.trim p = []) then fail "[link] port is required for serial transport"
        else let! baud := optionalInteger link "link" "baud" 57600 1200 921600 in Ok (link_serial (SdkSubscriptions.trim p) baud)
    | _ => fail "[link] port is required for serial transport"
    end
  else fail "[link] transport must be serial or tcp".

(** [/^https?:\/\//] *)
Definition http_url (url : list Z) : bool :=
  bool_decide (take 7 url = js "http://") || bool_decide (take 8 url = js "https://").

(** [url.replace(/\/+$/, "")] *)
Fixpoint drop_slashes (reversed : list Z) : list Z :=
  match reversed with 47 :: l => drop_slashes l | l => l end.
Definition without_trailing_slashes (url : list Z) : list Z := rev (drop_slashes (rev url)).

Definition execution_keys : list string :=
  ["core_loss_grace_seconds"; "telemetry_interval_seconds"; "arrival_radius_m"; "altitude_tolerance_m"; "hover_settle_seconds";
   "progress_timeout_seconds"; "task_timeout_seconds"; "min_battery_percent"; "shutdown_confirm_seconds"].

Section parse.
Context (parseToml : list Z -> result json).

Definition parseAssetConfig (text : list Z) : result AssetConfig :=
  let! document := match parseToml text with Ok d => Ok d | Throw _ => fail "not valid TOML" end in
  let! root := requiredSection (Some document) "" in
  let! _ := rejectUnknownKeys root "" ["core"; "asset"; "link"; "vehicle"; "execution"] in
  let! core := requiredSection (jget (js "core") root) "core" in
  let! asset := requiredSection (jget (js "asset") root) "asset" in
  let! link := requiredSection (jget (js "link") root) "link" in
  let! vehicle := requiredSection (jget (js "vehicle") root) "vehicle" in
  let! execution := match jget (js "execution") root with None => Ok [] | v => requiredSection v "execution" end in
  let! _ := rejectUnknownKeys core "core" ["url"; "api_key"] in
  let! _ := rejectUnknownKeys asset "asset" ["id"] in
  let! _ := rejectUnknownKeys vehicle "vehicle" ["system_id"; "component_id"] in
  let! _ := rejectUnknownKeys execution "execution" execution_keys in
  let! url := requiredString core "core" "url" in
  guard! http_url url else PlainError "Invalid Asset configuration: [core] url must start with http:// or https://" in
  let! linkConfig := parseLinkConfig link in
  let number := optionalNumber execution "execution" in
  let! minBattery := number "min_battery_percent" (n_of_Z 20) (n_of_Z 0) in
  guard! negb (minBattery > n_of_Z 100)%num else PlainError "Invalid Asset configuration: [execution] min_battery_percent must be <= 100" in
  let! key := requiredString core "core" "api_key" in
  let! id := requiredString asset "asset" "id" in
  let! system := optionalInteger vehicle "vehicle" "system_id" 1 1 255 in
  let! component := optionalInteger vehicle "vehicle" "component_id" 1 1 255 in
  let! grace := number "core_loss_grace_seconds" (n_of_Z 5) (n_of_Z 1) in
  let! telemetry := number "telemetry_interval_seconds" (n_of_Z 1) (n_lit 1 4) in
  let! radius := number "arrival_radius_m" (n_lit 3 2) (n_lit 1 10) in
  let! tolerance := number "altitude_tolerance_m" (n_of_Z 1) (n_lit 1 10) in
  let! settle := number "hover_settle_seconds" (n_of_Z 3) (n_of_Z 1) in
  let! progress := number "progress_timeout_seconds" (n_of_Z 30) (n_of_Z 5) in
  let! timeout := number "task_timeout_seconds" (n_of_Z 300) (n_of_Z 30) in
  let! confirm := number "shutdown_confirm_seconds" (n_of_Z 5) (n_of_Z 1) in
  Ok (mkAssetConfig (without_trailing_slashes url) key id linkConfig system component grace telemetry radius tolerance settle
        progress timeout minBattery confirm).
End parse.

(** ** What an accepted configuration is *)

(** A finite number that is at least [low]. *)
Definition at_least (low x : num) : bool := isFinite x && (low <= x)%num.

Definition link_valid (l : AssetLinkConfig) : Prop :=
  match l with
  | link_serial port baud => port <> [] /\ 1200 <= baud <= 921600
  | link_tcp host port => host <> [] /\ 1 <= port <= 65535
  end.

Record config_valid (c : AssetConfig) : Prop := {
  cv_url : (take 5 (coreUrl c) = js "http:" \/ take 6 (coreUrl c) = js "https:") /\ head (rev (coreUrl c)) <> Some 47;
  cv_key : apiKey c <> [];
  cv_asset : assetId c <> [];
  cv_link : link_valid (config_link c);
  cv_vehicle : 1 <= vehicleSystemId c <= 255 /\ 1 <= vehicleComponentId c <= 255;
  cv_grace : at_least (n_of_Z 1) (coreLossGraceSeconds c) = true;
  cv_telemetry : at_least (n_lit 1 4) (telemetryIntervalSeconds c) = true;
  cv_arrival : at_least (n_lit 1 10) (arrivalRadiusM c) = true /\ at_least (n_lit 1 10) (altitudeToleranceM c) = true;
  cv_settle : at_least (n_of_Z 1) (hoverSettleSeconds c) = true;
  cv_timeouts : at_least (n_of_Z 5) (progressTimeoutSeconds c) = true /\ at_least (n_of_Z 30) (taskTimeoutSeconds c) = true;
  cv_battery : at_least (n_of_Z 0) (minBatteryPercent c) = true /\ (minBatteryPercent c <= n_of_Z 100)%num = true;
  cv_confirm : at_least (n_of_Z 1) (shutdownConfirmSeconds c) = true
}.

Lemma optionalNumber_ok s name key fallback low x :
  optionalNumber s name key fallback low = Ok x -> at_least low fallback = true -> isNaN low = false -> at_least low x = true.
Proof.
  unfold optionalNumber, fail. intros H Hf Hl. destruct (jget (js key) s) as [v |]; [| by simplify_eq].
  destruct (as_number (Some v)) as [y |]; [| done]. case_match eqn:E; [done |]. simplify_eq.
  apply orb_false_iff in E as [E1%negb_false_iff E2]. unfold at_least. rewrite E1. apply n_le_or; [| done | done].
  by destruct x.
Qed.

Lemma requiredString_ok s name key v : requiredString s name key = Ok v -> v <> [].
Proof. unfold requiredString, fail. intros H. repeat case_match; simplify_eq. by case_bool_decide. Qed.

Lemma optionalNumber_canonical s name key fallback low x :
  optionalNumber s name key fallback low = Ok x -> canonical fallback -> canonical x.
Proof.
  unfold optionalNumber, fail. intros H Hf. destruct (jget (js key) s) as [v |]; [| by simplify_eq].
  destruct (as_number (Some v)) as [y |] eqn:E; [| done]. case_match; [done |]. simplify_eq.
  destruct v; try done. injection E as <-. apply canonical_of_bits.
Qed.

Lemma optionalInteger_ok s name key fallback low high n :
  optionalInteger s name key fallback low high = Ok n ->
  canonical (n_of_Z fallback) -> at_least (n_of_Z low) (n_of_Z fallback) = true ->
  canonical (n_of_Z low) -> n_integer (n_of_Z low) = Some low -> low <= n <= high.
Proof.
  unfold optionalInteger, fail. intros (x & Hx & H)%bind_ok Hf Ha Hl Hi.
  destruct (n_integer x) as [m |] eqn:E; [| done]. case_match eqn:U; [done |]. simplify_eq. apply Z.ltb_ge in U. split; [| done].
  pose proof (optionalNumber_canonical _ _ _ _ _ _ Hx Hf) as Hc.
  apply optionalNumber_ok in Hx; [| done | apply normalize_sign]. apply andb_true_iff in Hx as [_ Hx].
  by apply (n_le_integer (n_of_Z low) x).
Qed.

Lemma parseLinkConfig_ok link l : parseLinkConfig link = Ok l -> link_valid l.
Proof.
  unfold parseLinkConfig, fail. intros H. repeat case_match; inv_result; try done.
  all: match goal with E : optionalInteger _ _ _ _ _ _ = Ok _ |- _ => apply optionalInteger_ok in E; [| done..] end.
  all: split; [| done]; repeat case_bool_decide; done.
Qed.

(** *** The address *)

Lemma drop_slashes_spec l : exists n, l = replicate n 47 ++ drop_slashes l /\ head (drop_slashes l) <> Some 47.
Proof.
  induction l as [| c l (n & E & H)]; [by exists 0%nat |]. destruct (decide (c = 47)) as [-> |].
  - exists (S n). cbn [drop_slashes]. split; [| done]. cbn. by f_equal.
  - exists 0%nat. assert (D : drop_slashes (c :: l) = c :: l) by (cbn; repeat case_match; done).
    rewrite D. split; [done |]. cbn. congruence.
Qed.

Lemma without_spec u : exists n, without_trailing_slashes u ++ replicate n 47 = u /\ head (rev (without_trailing_slashes u)) <> Some 47.
Proof.
  unfold without_trailing_slashes. destruct (drop_slashes_spec (rev u)) as (n & E & H). exists n.
  split; [| by rewrite rev_involutive].
  assert (R : rev (replicate n 47) = replicate n 47) by (rewrite rev_alt; apply reverse_replicate).
  by rewrite <- R, <- rev_app_distr, <- E, rev_involutive.
Qed.

(** What a prefix without a slash keeps when slashes are dropped. *)
Lemma take_without k w n p : take k (w ++ replicate n 47) = p -> length p = k -> Forall (fun c => c <> 47) p -> take k w = p.
Proof.
  rewrite take_app. intros E L F. destruct (take (k - length w) (replicate n 47)) as [| c r] eqn:D; [by rewrite app_nil_r in E |].
  exfalso. assert (c = 47) as ->.
  { assert (Hc : c ∈ take (k - length w) (replicate n 47)) by (rewrite D; by left).
    apply subseteq_take in Hc. by apply elem_of_replicate in Hc as [-> _]. }
  rewrite <- E, Forall_app in F. destruct F as [_ F]. inversion F. done.
Qed.

Lemma address_kept u : http_url u = true ->
  (take 5 (without_trailing_slashes u) = js "http:" \/ take 6 (without_trailing_slashes u) = js "https:") /\
  head (rev (without_trailing_slashes u)) <> Some 47.
Proof.
  intros H. destruct (without_spec u) as (n & E & Hl). split; [| done]. revert E. generalize (without_trailing_slashes u) as w. intros w <-.
  apply orb_true_iff in H as [H | H]; apply bool_decide_eq_true in H; [left | right].
  - apply (take_without 5 w n); [| done | by repeat constructor].
    trans (take 5 (take 7 (w ++ replicate n 47))); [by rewrite take_take | by rewrite H].
  - apply (take_without 6 w n); [| done | by repeat constructor].
    trans (take 6 (take 8 (w ++ replicate n 47))); [by rewrite take_take | by rewrite H].
Qed.

(** C40: a configuration that is accepted is safe to fly with: every timeout,
    interval and radius is a finite number no lower than its floor, the battery
    threshold is a percentage, the vehicle has valid identifiers, the link has
    a valid port, and no name or key is empty. *)
Theorem accepted_config_valid parseToml text c : parseAssetConfig parseToml text = Ok c -> config_valid c.
Proof.
  unfold parseAssetConfig. intros H. inv_result. reflect_tests.
  repeat match goal with
  | E : optionalInteger _ _ _ _ _ _ = Ok _ |- _ => apply optionalInteger_ok in E; [| done..]
  | E : optionalNumber _ _ _ _ _ = Ok _ |- _ => apply optionalNumber_ok in E; [| done..]
  | E : requiredString _ _ _ = Ok _ |- _ => apply requiredString_ok in E
  | E : parseLinkConfig _ = Ok _ |- _ => apply parseLinkConfig_ok in E
  end.
  split; cbn; try done; [by apply address_kept |]. split; [done |]. apply n_le_or; try done.
  match goal with E : at_least _ ?x = true |- isNaN ?x = false => by destruct x end.
Qed.

(** *** A document *)

Definition sample_document : json := JObject [
  (js "core", JObject [(js "url", JString (js "https://core.example//")); (js "api_key", JString (js " key "))]);
  (js "asset", JObject [(js "id", JString (js "asset-1"))]);
  (js "link", JObject [(js "transport", JString (js "serial")); (js "port", JString (js "/dev/tty.sik"))]);
  (js "vehicle", JObject [(js "system_id", JNumber (f64_round 7 1))]);
  (js "execution", JObject [(js "arrival_radius_m", JNumber (f64_round 5 2))])].

(** The document a parser makes of every text. *)
Definition sample_parser (text : list Z) : result json := Ok sample_document.

Definition sample_config : AssetConfig :=
  match parseAssetConfig sample_parser [] with
  | Ok c => c
  | Throw _ => mkAssetConfig [] [] [] (link_tcp [] 0) 0 0 NaN_ NaN_ NaN_ NaN_ NaN_ NaN_ NaN_ NaN_ NaN_
  end.

Lemma accepted_config_valid_witness :
  (coreUrl sample_config, config_link sample_config, vehicleSystemId sample_config, n_text (arrivalRadiusM sample_config)) =
    (js "https://core.example", link_serial (js "/dev/tty.sik") 57600, 7, js "2.5") /\ config_valid sample_config.
Proof.
  split; [vm_compute; reflexivity |]. apply (accepted_config_valid sample_parser []). vm_compute. reflexivity.
Defined.
