(* ===== verification/Vehicle.v ===== *)
(** * The vehicle an Asset flies ([vehicle.ts], [readiness.ts])

    What the MAVLink messages of the autopilot tell about the aircraft, and
    when that is enough to fly.  Times and measures are numbers with a fraction;
    identifiers and modes are integers. *)

From Stdlib Require Import ZArith Lia String.
From stdpp Require Import base list option.
From S2P Require Import Prelude JsMap Json JsState Doubles AssetConfig.

Open Scope string_scope.
Open Scope list_scope.
Open Scope Z_scope.

(** ** The dialect

    The enumerations of node-mavlink that the host uses. *)

Class MavLinkDialect := {
  MavType_QUADROTOR : Z;
  MavType_GCS : Z;
  MavAutopilot_ARDUPILOTMEGA : Z;
  MavModeFlag_SAFETY_ARMED : Z;
  CopterMode : list (list Z * Z);
  CopterMode_GUIDED : Z;
  CopterMode_RTL : Z;
  CopterMode_LAND : Z;
  MavCmd_NAV_TAKEOFF : Z;
  MavCmd_NAV_RETURN_TO_LAUNCH : Z;
  MavCmd_NAV_LAND : Z;
  MavCmd_DO_SET_MODE : Z;
  MavFrame_GLOBAL_INT : Z;
  MavResult_ACCEPTED : Z
}.

(** Each mode has one name, and the three modes the host knows have theirs. *)
Class DialectLaws {dialect : MavLinkDialect} : Prop := {
  guided_named : (js "GUIDED", CopterMode_GUIDED) ∈ CopterMode;
  rtl_named : (js "RTL", CopterMode_RTL) ∈ CopterMode;
  land_named : (js "LAND", CopterMode_LAND) ∈ CopterMode;
  modes_distinct : NoDup (map snd CopterMode);
  names_distinct : NoDup (map fst CopterMode);
  names_known : forall name mode, (name, mode) ∈ CopterMode -> take 7 name <> js "UNKNOWN";
  commands_distinct : NoDup [MavCmd_NAV_TAKEOFF; MavCmd_NAV_RETURN_TO_LAUNCH; MavCmd_NAV_LAND; MavCmd_DO_SET_MODE]
}.

Section vehicle.
Context {dialect : MavLinkDialect}.

Definition COPTER_MODE_NAMES : list (Z * list Z) :=
  foldl (fun m entry => jset (snd entry) (fst entry) m) [] CopterMode.

Definition integer_text (n : Z) : list Z := n_text (n_of_Z n).

Definition copterModeName (customMode : Z) : list Z :=
  default (js "UNKNOWN_" ++ integer_text customMode) (jget customMode COPTER_MODE_NAMES).

Definition isGuidedMode (customMode : Z) : bool := customMode =? CopterMode_GUIDED.

Definition isArmedBaseMode (baseMode : Z) : bool := negb (Z.land baseMode MavModeFlag_SAFETY_ARMED =? 0).

(** ** The snapshot *)

Record VehicleIdentity := mkIdentity { systemId : Z; componentId : Z; vehicleType : Z; autopilot : Z }.

Record VehicleObservation := mkObservation {
  latitudeDeg : num; longitudeDeg : num; altitudeMslM : num; relativeAltitudeM : num; groundSpeedMS : num;
  headingDeg : option num; observed_batteryRemainingPercent : option num; observedAtMs : num
}.

Record VehicleSnapshot := mkSnapshot {
  identity : option VehicleIdentity;
  armed : bool;
  mode : list Z;
  customMode : option Z;
  guided : bool;
  observation : option VehicleObservation;
  lastHeartbeatMs : option num;
  batteryRemainingPercent : option num;
  gcsFailsafeEnabled : option bool;
  launchElevationM : option num;
  launchLatitudeDeg : option num;
  launchLongitudeDeg : option num;
  launchElevationVerified : bool
}.
#[global] Instance VehicleSnapshot_rebuild : Rebuild VehicleSnapshot := fun r =>
  mkSnapshot (identity r) (armed r) (mode r) (customMode r) (guided r) (observation r) (lastHeartbeatMs r)
    (batteryRemainingPercent r) (gcsFailsafeEnabled r) (launchElevationM r) (launchLatitudeDeg r) (launchLongitudeDeg r)
    (launchElevationVerified r).

Definition emptySnapshot : VehicleSnapshot :=
  mkSnapshot None false (js "UNKNOWN") None false None None None None None None None false.

Definition HEARTBEAT_FRESHNESS_MS : num := n_of_Z 3000.
Definition POSITION_FRESHNESS_MS : num := n_of_Z 10000.

(** An age within its limit, and not from the future. *)
Definition fresh_age (ageMs limit : num) : bool := (ageMs >= n_of_Z 0)%num && (ageMs <= limit)%num.

Definition hasFreshHeartbeat (snapshot : VehicleSnapshot) (nowMs : num) : bool :=
  match lastHeartbeatMs snapshot with
  | None => false
  | Some last => fresh_age (nowMs - last)%num HEARTBEAT_FRESHNESS_MS
  end.

Definition hasFreshControlTelemetry (snapshot : VehicleSnapshot) (nowMs : num) : bool :=
  hasFreshHeartbeat snapshot nowMs &&
  match observation snapshot with
  | Some o => fresh_age (nowMs - observedAtMs o)%num POSITION_FRESHNESS_MS
  | None => false
  end.

(** ** The tracker *)

Record HeartbeatObservation := mkHeartbeat {
  h_systemId : Z; h_componentId : Z; h_vehicleType : Z; h_autopilot : Z; h_baseMode : Z; h_customMode : Z; h_receivedAtMs : num
}.

Definition LAUNCH_SAMPLES_REQUIRED : nat := 3.
Definition LAUNCH_STABILITY_M : num := n_lit 1 2.

Record VehicleTracker := mkTracker { snapshot : VehicleSnapshot; launchSamples : list num }.
#[global] Instance VehicleTracker_rebuild : Rebuild VehicleTracker := fun r => mkTracker (snapshot r) (launchSamples r).

Definition newTracker : VehicleTracker := mkTracker emptySnapshot [].

Definition observeHeartbeat (heartbeat : HeartbeatObservation) (t : VehicleTracker) : VehicleTracker :=
  let samples :=
    if negb (hasFreshHeartbeat (snapshot t) (h_receivedAtMs heartbeat)) || isArmedBaseMode (h_baseMode heartbeat) then []
    else launchSamples t in
  mkTracker
    ((snapshot t) <| identity := Some (mkIdentity (h_systemId heartbeat) (h_componentId heartbeat) (h_vehicleType heartbeat) (h_autopilot heartbeat)) |>
       <| armed := isArmedBaseMode (h_baseMode heartbeat) |>
       <| mode := copterModeName (h_customMode heartbeat) |>
       <| customMode := Some (h_customMode heartbeat) |>
       <| guided := isGuidedMode (h_customMode heartbeat) |>
       <| lastHeartbeatMs := Some (h_receivedAtMs heartbeat) |>)
    samples.

(** [array.slice(-n)] *)
Definition last_n {A} (n : nat) (l : list A) : list A := drop (length l - n) l.

Definition n_sum (l : list num) : num := foldl n_add (n_of_Z 0) l.

Definition maybeVerifyLaunchElevation (o : VehicleObservation) (t : VehicleTracker) : VehicleTracker :=
  let s := snapshot t in
  if launchElevationVerified s then t
  else if armed s || negb (hasFreshHeartbeat s (observedAtMs o)) then t <| launchSamples := [] |>
  else if (n_abs (relativeAltitudeM o) > n_lit 1 2)%num then t <| launchSamples := [] |>
  else
    let samples := launchSamples t ++ [altitudeMslM o] in
    if (length samples <? LAUNCH_SAMPLES_REQUIRED)%nat then t <| launchSamples := samples |>
    else
      let recent := last_n LAUNCH_SAMPLES_REQUIRED samples in
      if (n_max_list recent - n_min_list recent <= LAUNCH_STABILITY_M)%num then
        mkTracker
          (s <| launchElevationM := Some (n_sum recent / n_of_Z (zlen recent))%num |>
             <| launchLatitudeDeg := Some (latitudeDeg o) |>
             <| launchLongitudeDeg := Some (longitudeDeg o) |>
             <| launchElevationVerified := true |>)
          samples
      else t <| launchSamples := samples |>.

Definition observePosition (o : VehicleObservation) (t : VehicleTracker) : VehicleTracker :=
  let t := if negb (hasFreshControlTelemetry (snapshot t) (observedAtMs o)) then t <| launchSamples := [] |> else t in
  let t := t <| snapshot ::= (fun s => s <| observation := Some o |>) |> in
  let t := match observed_batteryRemainingPercent o with
           | Some p => t <| snapshot ::= (fun s => s <| batteryRemainingPercent := Some p |>) |>
           | None => t
           end in
  maybeVerifyLaunchElevation o t.

Definition observeSysStatus (remaining : option num) (t : VehicleTracker) : VehicleTracker :=
  t <| snapshot ::= (fun s => s <| batteryRemainingPercent :=
    match remaining with
    | Some p => if (p < n_of_Z 0)%num || (p > n_of_Z 100)%num then None else Some p
    | None => None
    end |>) |>.

Definition observeGcsFailsafe (enabled : bool) (t : VehicleTracker) : VehicleTracker :=
  t <| snapshot ::= (fun s => s <| gcsFailsafeEnabled := Some enabled |>) |>.

Definition heartbeatAgeMs (nowMs : num) (t : VehicleTracker) : option num :=
  (fun last => (nowMs - last)%num) <$> lastHeartbeatMs (snapshot t).
Definition positionAgeMs (nowMs : num) (t : VehicleTracker) : option num :=
  (fun o => (nowMs - observedAtMs o)%num) <$> observation (snapshot t).

(** ** Readiness ([readiness.ts]) *)

Record ReadinessFailure := mkFailure { check : string; failure_message : list Z }.

Definition HEARTBEAT_FRESH_MS : num := n_of_Z 3000.
Definition POSITION_FRESH_MS : num := n_of_Z 5000.

Context (config : AssetConfig).

Definition checkBatteryReadiness (s : VehicleSnapshot) : option ReadinessFailure :=
  match batteryRemainingPercent s with
  | None => Some (mkFailure "battery" (js "Battery state is unknown. Wait for a battery reading before flight tasking."))
  | Some p =>
      if (p < minBatteryPercent config)%num then
        Some (mkFailure "battery" (js "Battery " ++ n_text p ++ js "% is below the " ++ n_text (minBatteryPercent config) ++ js "% minimum."))
      else None
  end.

(** [if (failed) failures.push(failure)] *)
Definition failing (failed : bool) (name : string) (text : list Z) : list ReadinessFailure :=
  if failed then [mkFailure name text] else [].

Definition link_failures (s : VehicleSnapshot) (nowMs : num) : list ReadinessFailure :=
  match identity s with
  | None => [mkFailure "vehicle-link" (js "No MAVLink heartbeat received. Check the SiK radio connection.")]
  | Some i =>
      failing (match lastHeartbeatMs s with Some last => (nowMs - last > HEARTBEAT_FRESH_MS)%num | None => true end)
        "vehicle-link" (js "MAVLink heartbeat is stale. Check the SiK radio connection.") ++
      failing (negb (systemId i =? vehicleSystemId config) || negb (componentId i =? vehicleComponentId config))
        "vehicle-identity"
        (js "Connected vehicle " ++ integer_text (systemId i) ++ js "/" ++ integer_text (componentId i) ++
         js " does not match configured " ++ integer_text (vehicleSystemId config) ++ js "/" ++
         integer_text (vehicleComponentId config) ++ js ". Reconnect the expected aircraft.") ++
      failing (negb (vehicleType i =? MavType_QUADROTOR)) "vehicle-type"
        (js "Connected vehicle type " ++ integer_text (vehicleType i) ++
         js " is not a quadcopter. This host supports ArduCopter quadcopters only.") ++
      failing (negb (autopilot i =? MavAutopilot_ARDUPILOTMEGA)) "autopilot"
        (js "Connected autopilot " ++ integer_text (autopilot i) ++ js " is not ArduPilot. This host supports ArduCopter only.")
  end.

Definition readiness_failures (s : VehicleSnapshot) (nowMs : num) : list ReadinessFailure :=
  link_failures s nowMs ++
  failing (match observation s with Some o => (nowMs - observedAtMs o > POSITION_FRESH_MS)%num | None => true end)
    "position" (js "No fresh position observation. Wait for GPS lock.") ++
  failing (bool_decide (gcsFailsafeEnabled s = Some false)) "gcs-failsafe"
    (js "Onboard GCS failsafe is disabled (FS_GCS_ENABLE=0). Host or SiK loss relies on onboard heartbeat-loss behavior; enable the failsafe in the autopilot configuration.") ++
  option_list (checkBatteryReadiness s) ++
  failing (negb (launchElevationVerified s) || bool_decide (launchElevationM s = None)) "launch-elevation"
    (js "Launch elevation is not verified. Keep the aircraft landed and disarmed until telemetry stabilizes.").

Record Readiness := mkReadiness { rd_ready : bool; failures : list ReadinessFailure }.

Definition checkFlightReadiness (s : VehicleSnapshot) (nowMs : num) : Readiness :=
  let l := readiness_failures s nowMs in mkReadiness (bool_decide (l = [])) l.
End vehicle.

(** * The vehicle: what the tracker may be trusted with

    Launch elevation is verified on the ground, from three altitudes that
    agree, and stays as it is. *)

#[local] Opaque n_lit n_of_Z n_add n_sub n_div n_abs n_sum n_max_list n_min_list SFltb SFleb.

Section facts.
Context {dialect : MavLinkDialect}.

(** What the tracker is told. *)
Inductive Telemetry :=
  | tm_heartbeat (h : HeartbeatObservation)
  | tm_position (o : VehicleObservation)
  | tm_status (remaining : option num)
  | tm_failsafe (enabled : bool).

Definition track_one (t : VehicleTracker) (e : Telemetry) : VehicleTracker :=
  match e with
  | tm_heartbeat h => observeHeartbeat h t
  | tm_position o => observePosition o t
  | tm_status p => observeSysStatus p t
  | tm_failsafe b => observeGcsFailsafe b t
  end.

Definition track (es : list Telemetry) : VehicleTracker := foldl track_one newTracker es.

Definition positions (es : list Telemetry) : list VehicleObservation :=
  omap (fun e => match e with tm_position o => Some o | _ => None end) es.

(** A position that looks landed, of an aircraft heard to be disarmed. *)
Definition landed (t : VehicleTracker) (o : VehicleObservation) : Prop :=
  armed (snapshot t) = false /\ hasFreshHeartbeat (snapshot t) (observedAtMs o) = true /\
  (n_abs (relativeAltitudeM o) > n_lit 1 2)%num = false.

(** The aircraft stays on the ground while [window] is observed after [before]. *)
Definition grounded (before window : list Telemetry) : Prop :=
  (forall w1 o w2, window = w1 ++ tm_position o :: w2 -> landed (track (before ++ w1)) o) /\
  Forall (fun e => match e with tm_heartbeat h => isArmedBaseMode (h_baseMode h) = false | _ => True end) window.

(** The launch point is the mean of the last three altitudes of a window on
    the ground, which are within half a metre of each other. *)
Definition verified_by (before window : list Telemetry) (s : VehicleSnapshot) : Prop :=
  grounded before window /\
  exists earlier o1 o2 o3, positions window = earlier ++ [o1; o2; o3] /\
    let recent := map altitudeMslM [o1; o2; o3] in
    (n_max_list recent - n_min_list recent <= LAUNCH_STABILITY_M)%num = true /\
    launchElevationM s = Some (n_sum recent / n_of_Z 3)%num /\
    launchLatitudeDeg s = Some (latitudeDeg o3) /\ launchLongitudeDeg s = Some (longitudeDeg o3).

Lemma positions_app a b : positions (a ++ b) = positions a ++ positions b.
Proof. apply omap_app. Qed.

Lemma grounded_nil before : grounded before [].
Proof. split; [| done]. intros [] ? ? ?; done. Qed.

Lemma snoc_split {A} (l w1 w2 : list A) x y : l ++ [x] = w1 ++ y :: w2 ->
  (w2 = [] /\ w1 = l /\ x = y) \/ exists w3, w2 = w3 ++ [x] /\ l = w1 ++ y :: w3.
Proof.
  destruct w2 as [| z w2 _] using rev_ind; intros E.
  - left. apply app_inj_tail in E as [-> ->]. done.
  - right. exists w2. change (w1 ++ y :: w2 ++ [z]) with (w1 ++ (y :: w2) ++ [z]) in E. rewrite app_assoc in E.
    apply app_inj_tail in E as [-> ->]. done.
Qed.

Lemma grounded_snoc before window e : grounded before window ->
  match e with
  | tm_position o => landed (track (before ++ window)) o
  | tm_heartbeat h => isArmedBaseMode (h_baseMode h) = false
  | _ => True
  end -> grounded before (window ++ [e]).
Proof.
  intros [G1 G2] He. split.
  - intros w1 o w2 [(-> & -> & ->) | (w3 & -> & ->)]%snoc_split; [done | by eapply G1].
  - apply Forall_app. split; [done |]. constructor; [| done]. by destruct e.
Qed.

(** What is known of the samples, and of the launch point once verified. *)
Definition tracked (es : list Telemetry) (t : VehicleTracker) : Prop :=
  if launchElevationVerified (snapshot t) then
    exists before window after, es = before ++ window ++ after /\ verified_by before window (snapshot t)
  else
    exists before window, es = before ++ window /\ grounded before window /\ launchSamples t = map altitudeMslM (positions window).

Lemma track_snoc es e : track (es ++ [e]) = track_one (track es) e.
Proof. unfold track. by rewrite foldl_app. Qed.

(** The launch point in a snapshot. *)
Definition launch_point (s : VehicleSnapshot) : bool * option num * option num * option num :=
  (launchElevationVerified s, launchElevationM s, launchLatitudeDeg s, launchLongitudeDeg s).

Lemma launch_point_kept t e : launchElevationVerified (snapshot t) = true ->
  launch_point (snapshot (track_one t e)) = launch_point (snapshot t).
Proof.
  intros Hv. destruct e as [h | o | p | b]; cbn [track_one]; try done.
  unfold observePosition. set (t1 := if negb (hasFreshControlTelemetry (snapshot t) (observedAtMs o)) then t <| launchSamples := [] |> else t).
  assert (Hs : snapshot t1 = snapshot t) by (unfold t1; by case_match). clearbody t1.
  destruct (observed_batteryRemainingPercent o); unfold maybeVerifyLaunchElevation; cbn; rewrite Hs, Hv; cbn; unfold launch_point; cbn; by rewrite ?Hs, ?Hv.
Qed.

Lemma last_three (l : list num) : (3 <= length l)%nat ->
  exists earlier a b c, l = earlier ++ [a; b; c] /\ last_n 3 l = [a; b; c].
Proof.
  intros H. assert (E : take (length l - 3) l ++ last_n 3 l = l) by apply take_drop.
  assert (L : length (last_n 3 l) = 3%nat) by (unfold last_n; rewrite length_drop; lia).
  destruct (last_n 3 l) as [| a [| b [| c []]]]; try done. exists (take (length l - 3) l), a, b, c. done.
Qed.

(** Samples that were dropped. *)
Lemma tracked_restart es t : launchElevationVerified (snapshot t) = false -> launchSamples t = [] -> tracked es t.
Proof.
  intros Hv S. unfold tracked. rewrite Hv. exists es, []. rewrite app_nil_r. split_and!; [done | apply grounded_nil | done].
Qed.

Lemma tracked_verified es t before window :
  es = before ++ window -> launchElevationVerified (snapshot t) = true -> verified_by before window (snapshot t) -> tracked es t.
Proof. intros E Hv V. unfold tracked. rewrite Hv. exists before, window, []. by rewrite app_nil_r. Qed.

(** The position itself, once the samples are what they should be. *)
Lemma verify_tracked es o t before window :
  launchElevationVerified (snapshot t) = false -> armed (snapshot t) = armed (snapshot (track es)) ->
  lastHeartbeatMs (snapshot t) = lastHeartbeatMs (snapshot (track es)) ->
  es = before ++ window -> grounded before window -> launchSamples t = map altitudeMslM (positions window) ->
  tracked (es ++ [tm_position o]) (maybeVerifyLaunchElevation o t).
Proof.
  intros Hv Ha Hh E G S. unfold maybeVerifyLaunchElevation. rewrite Hv.
  destruct (armed (snapshot t) || negb (hasFreshHeartbeat (snapshot t) (observedAtMs o))) eqn:H1; [by apply tracked_restart |].
  destruct (n_lit 1 2 < n_abs (relativeAltitudeM o))%num eqn:H2; [by apply tracked_restart |].
  apply orb_false_iff in H1 as [H1 H3%negb_false_iff].
  assert (G' : grounded before (window ++ [tm_position o])).
  { apply grounded_snoc; [done |]. rewrite <- E. split; [congruence |]. split; [| done].
    unfold hasFreshHeartbeat in *. by rewrite <- Hh. }
  assert (S' : launchSamples t ++ [altitudeMslM o] = map altitudeMslM (positions (window ++ [tm_position o]))).
  { rewrite positions_app, map_app, S. done. }
  assert (Keep : forall t', launchElevationVerified (snapshot t') = false ->
    launchSamples t' = launchSamples t ++ [altitudeMslM o] -> tracked (es ++ [tm_position o]) t').
  { intros t' Hv' St'. unfold tracked. rewrite Hv'. exists before, (window ++ [tm_position o]).
    split_and!; [by rewrite E, app_assoc | done | congruence]. }
  destruct (length (launchSamples t ++ [altitudeMslM o]) <? LAUNCH_SAMPLES_REQUIRED)%nat eqn:H4; [by apply Keep |].
  apply Nat.ltb_ge in H4. unfold LAUNCH_SAMPLES_REQUIRED in *.
  destruct (_ <= LAUNCH_STABILITY_M)%num eqn:H5; [| by apply Keep].
  destruct (last_three _ H4) as (earlier & a & b & c & E3 & L3). rewrite L3 in *.
  rewrite E3 in S'. symmetry in S'. apply map_eq_app in S' as (p1 & p3 & Hp & _ & M3).
  destruct p3 as [| o1 [| o2 [| o3 []]]]; [discriminate M3.. | | discriminate M3]. injection M3 as <- <- <-.
  rewrite positions_app in Hp. change (positions [tm_position o]) with [o] in Hp.
  change (p1 ++ [o1; o2; o3]) with (p1 ++ [o1; o2] ++ [o3]) in Hp. rewrite app_assoc in Hp.
  apply app_inj_tail in Hp as [Hp ->].
  eapply (tracked_verified _ _ before (window ++ [tm_position o3])); [by rewrite E, app_assoc | reflexivity |].
  split; [exact G' |]. exists p1, o1, o2, o3. split; [by rewrite positions_app, Hp, <- app_assoc |].
  split; [exact H5 |]. split_and!; reflexivity.
Qed.

(** An event that changes neither the samples nor what they rest on. *)
Lemma tracked_on es e t before window :
  es = before ++ window -> grounded before window -> launchElevationVerified (snapshot t) = false ->
  launchSamples t = map altitudeMslM (positions window) -> positions [e] = [] ->
  match e with tm_heartbeat h => isArmedBaseMode (h_baseMode h) = false | _ => True end ->
  tracked (es ++ [e]) t.
Proof.
  intros E G Hv S Hp He. unfold tracked. rewrite Hv. exists before, (window ++ [e]).
  split_and!; [by rewrite E, app_assoc | apply grounded_snoc; [done | by destruct e] |].
  by rewrite positions_app, Hp, app_nil_r.
Qed.

Lemma position_tracked es o t before window :
  launchElevationVerified (snapshot t) = false -> armed (snapshot t) = armed (snapshot (track es)) ->
  lastHeartbeatMs (snapshot t) = lastHeartbeatMs (snapshot (track es)) ->
  es = before ++ window -> grounded before window -> launchSamples t = map altitudeMslM (positions window) ->
  tracked (es ++ [tm_position o]) (observePosition o t).
Proof.
  intros Hv Ha Hh E G S. unfold observePosition.
  set (t1 := if negb (hasFreshControlTelemetry (snapshot t) (observedAtMs o)) then _ else t).
  assert (T1 : snapshot t1 = snapshot t /\
    exists before window, es = before ++ window /\ grounded before window /\ launchSamples t1 = map altitudeMslM (positions window)).
  { unfold t1. case_match; split; try done; [| by exists before, window]. exists es, []. rewrite app_nil_r.
    split_and!; [done | apply grounded_nil | done]. }
  clearbody t1. clear before window E G S. destruct T1 as (Hs & before & window & E & G & S).
  destruct (observed_batteryRemainingPercent o); eapply (verify_tracked es o _ before window); cbn; rewrite ?Hs; done.
Qed.

Lemma track_one_tracked es e t : t = track es -> tracked es t -> tracked (es ++ [e]) (track_one t e).
Proof.
  intros Ht. unfold tracked at 1. destruct (launchElevationVerified (snapshot t)) eqn:Hv.
  - intros (before & window & after & E & G & earlier & o1 & o2 & o3 & H1 & H2 & H3 & H4 & H5).
    pose proof (launch_point_kept t e Hv) as K. injection K as K1 K2 K3 K4.
    unfold tracked. rewrite K1, Hv. exists before, window, (after ++ [e]). split; [by rewrite E, !app_assoc |].
    split; [done |]. exists earlier, o1, o2, o3. rewrite K2, K3, K4. done.
  - intros (before & window & E & G & S). destruct e as [h | o | p | b]; cbn [track_one].
    + destruct (negb (hasFreshHeartbeat (snapshot t) (h_receivedAtMs h)) || isArmedBaseMode (h_baseMode h)) eqn:A.
      * apply tracked_restart; [done |]. unfold observeHeartbeat. cbn. by rewrite A.
      * apply (tracked_on _ _ _ before window); try done; [| by apply orb_false_iff in A as [_ A]].
        unfold observeHeartbeat. cbn. by rewrite A.
    + apply (position_tracked es o t before window); by subst t.
    + by apply (tracked_on _ _ _ before window).
    + by apply (tracked_on _ _ _ before window).
Qed.

Lemma track_tracked es : tracked es (track es).
Proof.
  induction es as [| e es IH] using rev_ind; [| rewrite track_snoc; by apply track_one_tracked].
  exists [], []. split_and!; [done | apply grounded_nil | done].
Qed.

(** C15: the tracker verifies a launch point only on the ground: from three
    positions that look landed, of an aircraft freshly heard to be disarmed,
    with no armed heartbeat between them, and altitudes within half a metre;
    the point is their mean altitude at the third position, and whatever is
    observed afterwards, armed or airborne, never changes it. *)
Theorem launch_verified_on_ground es : launchElevationVerified (snapshot (track es)) = true ->
  exists before window after, es = before ++ window ++ after /\ verified_by before window (snapshot (track es)).
Proof. intros Hv. pose proof (track_tracked es) as T. unfold tracked in T. by rewrite Hv in T. Qed.
End facts.

(** ** A dialect and a landing

    The values the package gives. *)
Definition sample_dialect : MavLinkDialect := {|
  MavType_QUADROTOR := 2; MavType_GCS := 6; MavAutopilot_ARDUPILOTMEGA := 3; MavModeFlag_SAFETY_ARMED := 128;
  CopterMode := [(js "STABILIZE", 0); (js "AUTO", 3); (js "GUIDED", 4); (js "LOITER", 5); (js "RTL", 6); (js "LAND", 9)];
  CopterMode_GUIDED := 4; CopterMode_RTL := 6; CopterMode_LAND := 9;
  MavCmd_NAV_TAKEOFF := 22; MavCmd_NAV_RETURN_TO_LAUNCH := 20; MavCmd_NAV_LAND := 21; MavCmd_DO_SET_MODE := 176;
  MavFrame_GLOBAL_INT := 5; MavResult_ACCEPTED := 0 |}.

Lemma sample_dialect_laws : DialectLaws (dialect := sample_dialect).
Proof.
  split.
  1-3: apply (bool_decide_eq_true_1 _); vm_compute; reflexivity.
  1, 2, 4: apply (bool_decide_eq_true_1 _); vm_compute; reflexivity.
  intros name m H. repeat (apply elem_of_cons in H as [[= -> ->] | H]; [vm_compute; discriminate |]). by apply elem_of_nil in H.
Qed.

Definition sample_heartbeat (base mode_ at_ : Z) : Telemetry :=
  tm_heartbeat (mkHeartbeat 1 1 2 3 base mode_ (n_of_Z at_)).
Definition sample_position (altitude relative : num) (at_ : Z) : Telemetry :=
  tm_position (mkObservation (n_of_Z 47) (n_of_Z 8) altitude relative (n_of_Z 0) None None (n_of_Z at_)).

(** Landed at 430 m, a climb before the third sample in between, then armed
    and away. *)
Definition sample_telemetry : list Telemetry :=
  [sample_heartbeat 0 4 1000; sample_position (n_of_Z 430) (n_of_Z 0) 1100; sample_position (n_of_Z 440) (n_of_Z 10) 1200;
   sample_position (n_of_Z 430) (n_of_Z 0) 1300; sample_position (n_lit 4302 10) (n_lit 1 10) 1400;
   sample_position (n_lit 4301 10) (n_of_Z 0) 1500; sample_heartbeat 128 4 2000; sample_position (n_of_Z 500) (n_of_Z 70) 2100].

Lemma launch_verified_on_ground_witness :
  n_text (default NaN_ (launchElevationM (snapshot (track (dialect := sample_dialect) sample_telemetry)))) = js "430.1000000000001" /\
  exists before window after, sample_telemetry = before ++ window ++ after /\
    verified_by (dialect := sample_dialect) before window (snapshot (track (dialect := sample_dialect) sample_telemetry)).
Proof.
  split; [vm_compute; reflexivity |]. apply (launch_verified_on_ground (dialect := sample_dialect)). vm_compute. reflexivity.
Defined.
