(* ===== verification/MavCommands.v ===== *)
(** * The commands an Asset host sends ([commands.ts]) *)

From Stdlib Require Import ZArith Lia String.
From stdpp Require Import base list option.
From S2P Require Import Prelude JsMap Json Doubles Vehicle.

Open Scope string_scope.
Open Scope list_scope.
Open Scope Z_scope.

Record CommandLong := mkCommandLong {
  cl_targetSystem : Z; cl_targetComponent : Z; cl_command : Z; cl_confirmation : Z;
  param1 : num; param2 : num; param3 : num; param4 : num; param5 : num; param6 : num; param7 : num
}.

Record PositionTarget := mkPositionTarget {
  pt_targetSystem : Z; pt_targetComponent : Z; coordinateFrame : Z; typeMask : Z;
  latInt : num; lonInt : num; alt : num;
  timeBootMs : num; vx : num; vy : num; vz : num; afx : num; afy : num; afz : num; yaw : num; yawRate : num
}.

Record ParamRequestRead := mkParamRead { pr_targetSystem : Z; pr_targetComponent : Z; paramId : list Z; paramIndex : Z }.

Record Heartbeat := mkHeartbeatMessage {
  hb_type : Z; hb_autopilot : Z; hb_baseMode : Z; hb_customMode : Z; hb_systemStatus : Z; hb_mavlinkVersion : Z
}.

Inductive MavLinkData :=
  | m_command (c : CommandLong)
  | m_position (p : PositionTarget)
  | m_param (p : ParamRequestRead)
  | m_heartbeat (h : Heartbeat).

Section commands.
Context {dialect : MavLinkDialect}.

Definition commandAckAccepted (result : Z) : bool := result =? MavResult_ACCEPTED.

Definition zero : num := n_of_Z 0.

Definition commandLong (targetSystem targetComponent command : Z) : CommandLong :=
  mkCommandLong targetSystem targetComponent command 0 zero zero zero zero zero zero zero.

Definition takeoffCommand (targetSystem targetComponent : Z) (heightAboveLaunchM : num) : MavLinkData :=
  m_command (mkCommandLong targetSystem targetComponent MavCmd_NAV_TAKEOFF 0 zero zero zero zero zero zero heightAboveLaunchM).

Definition returnToLaunchCommand (targetSystem targetComponent : Z) : MavLinkData :=
  m_command (commandLong targetSystem targetComponent MavCmd_NAV_RETURN_TO_LAUNCH).

Definition landCommand (targetSystem targetComponent : Z) : MavLinkData :=
  m_command (commandLong targetSystem targetComponent MavCmd_NAV_LAND).

Definition setCopterModeCommand (targetSystem targetComponent : Z) (mode : num) : MavLinkData :=
  m_command (mkCommandLong targetSystem targetComponent MavCmd_DO_SET_MODE 0 (n_of_Z 1) mode zero zero zero zero zero).

Definition POSITION_ONLY_TYPE_MASK : Z := 3576.

Definition positionTarget (targetSystem targetComponent : Z) (latitudeDeg longitudeDeg altitudeMslM : num) (mask : Z) : MavLinkData :=
  m_position (mkPositionTarget targetSystem targetComponent MavFrame_GLOBAL_INT mask
    (n_round (latitudeDeg * n_of_Z 10000000)%num) (n_round (longitudeDeg * n_of_Z 10000000)%num) altitudeMslM
    zero zero zero zero zero zero zero zero zero).

Definition gotoPositionCommand (targetSystem targetComponent : Z) (latitudeDeg longitudeDeg altitudeMslM : num) : MavLinkData :=
  positionTarget targetSystem targetComponent latitudeDeg longitudeDeg altitudeMslM POSITION_ONLY_TYPE_MASK.

Definition holdPositionCommand (targetSystem targetComponent : Z) (latitudeDeg longitudeDeg altitudeMslM : num) : MavLinkData :=
  positionTarget targetSystem targetComponent latitudeDeg longitudeDeg altitudeMslM POSITION_ONLY_TYPE_MASK.

Definition paramReadCommand (targetSystem targetComponent : Z) (name : list Z) : MavLinkData :=
  m_param (mkParamRead targetSystem targetComponent name (-1)).
End commands.
