(* ===== verification/TaskEngine.v ===== *)
(** * Flight tasks on board ([task-engine.ts])

    The class [TaskEngine].  What it calls outside itself, it calls through an
    interface: the vehicle's link, the reports to Core and the control state.
    Each of those may fail, and while one is awaited the aircraft flies on. *)

From Stdlib Require Import ZArith Lia String.
From stdpp Require Import base list option.
From S2P Require Import Prelude JsMap Json Contract JsState Doubles AssetConfig Vehicle MavCommands.

Open Scope string_scope.
Open Scope list_scope.
Open Scope Z_scope.

(** ** Tasks *)

Inductive TaskStatus := pending | acknowledged | in_progress | completed | failed | cancelled.
#[global] Instance TaskStatus_eq_dec : EqDecision TaskStatus.
Proof. solve_decision. Defined.

Definition terminal (s : TaskStatus) : bool := match s with completed | failed | cancelled => true | _ => false end.
Definition actionable (s : TaskStatus) : bool := match s with pending | acknowledged => true | _ => false end.

Record AuthoritativeTask := mkTask {
  taskId : list Z; command : list Z; status : TaskStatus; cancellationCode : option (list Z); input : list (list Z * json)
}.

Inductive FailureCode := precondition_failed | execution_failed.

Record ControlState := mkControl { cs_snapshot : VehicleSnapshot; cs_nowMs : num }.

Definition commanded (t : AuthoritativeTask) (c : string) : bool := bool_decide (command t = js c).

Definition isFlightCommand (c : list Z) : bool :=
  bool_decide (c = js "flight.takeoff") || bool_decide (c = js "flight.goto") ||
  bool_decide (c = js "flight.return_to_launch") || bool_decide (c = js "flight.land").

(** ** The state *)

Record RecoveryProgress := mkRecovery {
  highestAltitudeM : num; lowestAltitudeM : num; closestLaunchDistanceM : num; expectedModeIndex : Z
}.
#[global] Instance RecoveryProgress_rebuild : Rebuild RecoveryProgress :=
  fun r => mkRecovery (highestAltitudeM r) (lowestAltitudeM r) (closestLaunchDistanceM r) (expectedModeIndex r).

Record ActiveExecution := mkActive {
  task : AuthoritativeTask;
  startedAtMs : num;
  lastProgressAtMs : num;
  recoveryProgress : option RecoveryProgress;
  startRemainingM : option num;
  bestRemainingM : num;
  settleSinceMs : option num;
  expectedModes : list (list Z)
}.
#[global] Instance ActiveExecution_rebuild : Rebuild ActiveExecution := fun r =>
  mkActive (task r) (startedAtMs r) (lastProgressAtMs r) (recoveryProgress r) (startRemainingM r) (bestRemainingM r)
    (settleSinceMs r) (expectedModes r).

Inductive ReportOutcome :=
  | outcome_complete
  | outcome_fail (code : FailureCode) (message : list Z).

(** Reports are compared by identity: [tr_object] numbers them. *)
Record PendingTerminalReport := mkReport { tr_object : Z; tr_taskId : list Z; outcome : ReportOutcome }.

Record TaskEngine := mkEngine {
  active : option ActiveExecution;
  finished : list (list Z);
  reholdOnGuided : bool;
  holdRequiredBeforeMovement : bool;
  pendingTerminalReport : option PendingTerminalReport;
  lastMode : option (list Z);
  nextReport : Z
}.
#[global] Instance TaskEngine_rebuild : Rebuild TaskEngine := fun r =>
  mkEngine (active r) (finished r) (reholdOnGuided r) (holdRequiredBeforeMovement r) (pendingTerminalReport r) (lastMode r)
    (nextReport r).

Definition newEngine : TaskEngine := mkEngine None [] false false None None 0.

(** ** What the engine calls *)

Class EngineHost (S : Type) := {
  engine : S -> TaskEngine;
  set_engine : TaskEngine -> S -> S;
  send : MavLinkData -> eff S unit;
  reportStart : list Z -> eff S unit;
  reportComplete : list Z -> eff S unit;
  reportFail : list Z -> FailureCode -> list Z -> eff S unit;
  getControlState : eff S ControlState
}.

(** Functions of [Math] whose last bits the language leaves open. *)
Class MathFunctions := {
  Math_sin : num -> num;
  Math_cos : num -> num;
  Math_asin : num -> num;
  Math_pow : num -> num -> num;
  Math_hypot : num -> num -> num -> num
}.

(** [try { m } catch (error) { handler(error) }] *)
Definition try_catch {S A} (m : eff S A) (handler : js_error -> eff S A) : eff S A :=
  fun s => match m s with (Ok a, s') => (Ok a, s') | (Throw e, s') => handler e s' end.

Definition error_message (e : js_error) : list Z :=
  match e with TypeError m | RangeError m | SyntaxError m | PlainError m => js m end.

Definition join_space (l : list (list Z)) : list Z :=
  match l with [] => [] | x :: l' => x ++ flat_map (fun y => [32] ++ y) l' end.

Section pure.
Context {dialect : MavLinkDialect} {math : MathFunctions} (config : AssetConfig).

Definition Math_PI : num := n_of_bits 4614256656552045848.

Definition radians (degrees : num) : num := ((degrees * Math_PI) / n_of_Z 180)%num.
Definition square (x : num) : num := Math_pow x (n_of_Z 2).

Definition haversineM (lat1 lon1 lat2 lon2 : num) : num :=
  let dLat := radians (lat2 - lat1)%num in
  let dLon := radians (lon2 - lon1)%num in
  let a := (square (Math_sin (dLat / n_of_Z 2)) +
            Math_cos (radians lat1) * Math_cos (radians lat2) * square (Math_sin (dLon / n_of_Z 2)))%num in
  (n_of_Z 2 * n_of_Z 6371000 * Math_asin (n_sqrt a))%num.

Definition numberInput (t : AuthoritativeTask) (key : string) : option num :=
  match jget (js key) (input t) with
  | Some (JNumber bits) => if isFinite (n_of_bits bits) then Some (n_of_bits bits) else None
  | _ => None
  end.

(** ** Preconditions *)

Definition problem (b : bool) (text : list Z) : list (list Z) := if b then [text] else [].

Definition relativeAltitude (s : VehicleSnapshot) : num :=
  match observation s with Some o => relativeAltitudeM o | None => n_of_Z 0 end.

Definition takeoff_problem (t : AuthoritativeTask) (s : VehicleSnapshot) : list (list Z) :=
  match numberInput t "altitude_m" with
  | None => [js "Takeoff requires altitude_m in meters above mean sea level."]
  | Some target =>
      match launchElevationM s with
      | None => [js "Takeoff requires verified launch elevation to convert the MSL target."]
      | Some launch =>
          if negb (launchElevationVerified s) then [js "Takeoff requires verified launch elevation to convert the MSL target."]
          else problem (target <= launch + n_lit 3 10)%num (js "Takeoff target must be above launch elevation.")
      end
  end.

Definition matching_identity (s : VehicleSnapshot) : bool :=
  match identity s with
  | None => false
  | Some i => (systemId i =? vehicleSystemId config) && (componentId i =? vehicleComponentId config)
  end.

Definition preconditions (t : AuthoritativeTask) (s : VehicleSnapshot) (nowMs : num) : list (list Z) :=
  problem (negb (guided s)) (js "Requires Guided mode; aircraft is in " ++ mode s ++ js ". Atlas never forces Guided.") ++
  problem (negb (matching_identity s)) (js "Connected vehicle does not match the configured vehicle identity.") ++
  problem (negb (hasFreshControlTelemetry s nowMs)) (js "Requires fresh telemetry; heartbeat or position observations are stale.") ++
  (if commanded t "flight.takeoff" || commanded t "flight.goto"
   then option_list (failure_message <$> checkBatteryReadiness config s) else []) ++
  (if commanded t "flight.return_to_launch" || commanded t "flight.land"
   then problem (negb (armed s) || (n_abs (relativeAltitude s) <= n_lit 3 10)%num) (js "Recovery requires an airborne aircraft.")
   else []) ++
  (if commanded t "flight.takeoff"
   then problem (negb (armed s)) (js "Takeoff requires an already-armed aircraft; Atlas never arms.") ++ takeoff_problem t s else []) ++
  (if commanded t "flight.goto"
   then problem (bool_decide (numberInput t "latitude" = None) || bool_decide (numberInput t "longitude" = None) ||
                 bool_decide (numberInput t "altitude_m" = None))
          (js "Go-to requires latitude, longitude, and altitude_m in meters above mean sea level.")
   else []).

(** ** Progress *)

Definition expectedModesFor (c : list Z) : list (list Z) :=
  if bool_decide (c = js "flight.return_to_launch") then [js "GUIDED"; js "RTL"; js "LAND"]
  else if bool_decide (c = js "flight.land") then [js "GUIDED"; js "LAND"]
  else [js "GUIDED"].

(** [array.indexOf(x)] *)
Fixpoint index_from (i : Z) (x : list Z) (l : list (list Z)) : Z :=
  match l with [] => -1 | y :: l' => if bool_decide (y = x) then i else index_from (i + 1) x l' end.
Definition indexOf (x : list Z) (l : list (list Z)) : Z := index_from 0 x l.

Definition goto_target (t : AuthoritativeTask) : option (num * num * num) :=
  match numberInput t "latitude", numberInput t "longitude", numberInput t "altitude_m" with
  | Some latitude, Some longitude, Some altitude => Some (latitude, longitude, altitude)
  | _, _, _ => None
  end.

Definition remaining (t : AuthoritativeTask) (s : VehicleSnapshot) : option num :=
  match observation s with
  | None => None
  | Some o =>
      if commanded t "flight.takeoff" then (fun target => n_abs (target - altitudeMslM o)%num) <$> numberInput t "altitude_m"
      else if commanded t "flight.goto" then
        (fun '(latitude, longitude, altitude) =>
           n_max (haversineM (latitudeDeg o) (longitudeDeg o) latitude longitude) (n_abs (altitude - altitudeMslM o)%num)) <$> goto_target t
      else None
  end.

Definition launchDistanceM (s : VehicleSnapshot) : option num :=
  match observation s, launchLatitudeDeg s, launchLongitudeDeg s with
  | Some o, Some latitude, Some longitude => Some (haversineM (latitudeDeg o) (longitudeDeg o) latitude longitude)
  | _, _, _ => None
  end.

(** [recoveryProgressed]: whether a recovery got further, and its best values. *)
Definition recoveryProgressed (a : ActiveExecution) (s : VehicleSnapshot) : bool * ActiveExecution :=
  match recoveryProgress a, observation s with
  | Some p, Some o =>
      let modeIndex := indexOf (mode s) (expectedModes a) in
      let forward := expectedModeIndex p <? modeIndex in
      let p := if forward then p <| expectedModeIndex := modeIndex |> else p in
      let returning := commanded (task a) "flight.return_to_launch" in
      let altitudeM := altitudeMslM o in
      let climbed := returning && (altitudeM >= highestAltitudeM p + n_lit 1 2)%num in
      let descended := negb climbed && (altitudeM <= lowestAltitudeM p - n_lit 1 2)%num in
      let p := if climbed then p <| highestAltitudeM := altitudeM |> <| lowestAltitudeM := altitudeM |>
               else if descended then p <| lowestAltitudeM := altitudeM |> else p in
      let closer := match launchDistanceM s with
                    | Some d => returning && (d <= closestLaunchDistanceM p - n_lit 1 2)%num
                    | None => false
                    end in
      let p := if closer then p <| closestLaunchDistanceM := default (closestLaunchDistanceM p) (launchDistanceM s) |> else p in
      (forward || climbed || descended || closer, a <| recoveryProgress := Some p |>)
  | _, _ => (false, a)
  end.

(** ** Completion *)

Definition takeoff_arrived (s : VehicleSnapshot) (o : VehicleObservation) (target : num) : bool :=
  guided s && armed s && (relativeAltitudeM o > n_lit 3 10)%num &&
  (n_abs (target - altitudeMslM o) <= altitudeToleranceM config)%num && (groundSpeedMS o <= n_lit 1 2)%num.

Definition landed_now (s : VehicleSnapshot) (o : VehicleObservation) : bool :=
  negb (armed s) && (n_abs (relativeAltitudeM o) <= n_lit 3 10)%num.

(** [isComplete]: whether the task is done, and when the hover began to
    settle. *)
Definition isComplete (a : ActiveExecution) (s : VehicleSnapshot) (nowMs : num) : bool * ActiveExecution :=
  if negb (hasFreshControlTelemetry s nowMs) then (false, a)
  else
    match observation s with
    | None => (false, a)
    | Some o =>
        if commanded (task a) "flight.takeoff" then
          match numberInput (task a) "altitude_m" with
          | None => (false, a)
          | Some target =>
              if negb (takeoff_arrived s o target) then (false, a <| settleSinceMs := None |>)
              else
                let since := default nowMs (settleSinceMs a) in
                ((nowMs - since >= hoverSettleSeconds config * n_of_Z 1000)%num, a <| settleSinceMs := Some since |>)
          end
        else if commanded (task a) "flight.goto" then
          match goto_target (task a) with
          | None => (false, a)
          | Some (latitude, longitude, altitude) =>
              ((haversineM (latitudeDeg o) (longitudeDeg o) latitude longitude <= arrivalRadiusM config)%num &&
               (n_abs (altitude - altitudeMslM o) <= altitudeToleranceM config)%num, a)
          end
        else if commanded (task a) "flight.return_to_launch" || commanded (task a) "flight.land" then
          if negb (landed_now s o) then (false, a)
          else if commanded (task a) "flight.land" then (true, a)
          else (match launchDistanceM s with Some d => (d <= arrivalRadiusM config)%num | None => false end, a)
        else (false, a)
    end.
End pure.

(** ** The class *)

Section class.
Context {dialect : MavLinkDialect} {math : MathFunctions} (config : AssetConfig) {St : Type} {host : EngineHost St}.

Abbreviation E := (eff St).

Definition get {A} (f : TaskEngine -> A) : E A := gets (fun s => f (engine s)).
Definition upd (f : TaskEngine -> TaskEngine) : E unit := modify (fun s => set_engine (f (engine s)) s).

(** [this.finished.has] and [this.finished.add] *)
Definition is_finished (t : list Z) (e : TaskEngine) : bool := bool_decide (t ∈ finished e).
Definition add_finished (t : list Z) (l : list (list Z)) : list (list Z) := if bool_decide (t ∈ l) then l else l ++ [t].
Definition finish (t : list Z) : E unit := upd (fun e => e <| finished ::= add_finished t |>).

Definition hasActiveTask (e : TaskEngine) : bool := match active e with Some _ => true | None => false end.
Definition activeTaskId (e : TaskEngine) : option (list Z) := (fun a => taskId (task a)) <$> active e.
Definition reconciliationTaskId (e : TaskEngine) : option (list Z) :=
  match pendingTerminalReport e with Some r => Some (tr_taskId r) | None => activeTaskId e end.
Definition activeCommand (e : TaskEngine) : option (list Z) :=
  match active e with Some a => if isFlightCommand (command (task a)) then Some (command (task a)) else None | None => None end.
Definition needsRehold (e : TaskEngine) : bool := reholdOnGuided e.

(** *** Reports *)

Definition flushTerminalReport : E unit :=
  do! due := get pendingTerminalReport in
  match due with
  | None => ret tt
  | Some report =>
      do! _ := match outcome report with
               | outcome_complete => reportComplete (tr_taskId report)
               | outcome_fail code message => reportFail (tr_taskId report) code message
               end in
      upd (fun e =>
        if bool_decide (tr_object <$> pendingTerminalReport e = Some (tr_object report)) then e <| pendingTerminalReport := None |> else e)
  end.

(** A new report object is the pending one. *)
Definition new_report (t : list Z) (o : ReportOutcome) (e : TaskEngine) : TaskEngine :=
  e <| pendingTerminalReport := Some (mkReport (nextReport e) t o) |> <| nextReport ::= Z.succ |>.

Definition reportTerminal (t : list Z) (o : ReportOutcome) : E unit :=
  do! _ := upd (new_report t o) in
  flushTerminalReport.

Definition failed_with (code : FailureCode) (message : string) : ReportOutcome := outcome_fail code (js message).

(** *** Commands to the aircraft *)

Definition establishHold (s : VehicleSnapshot) (nowMs : num) : E bool :=
  match observation s with
  | None => ret false
  | Some o =>
      if negb (guided s) || negb (hasFreshControlTelemetry s nowMs) then ret false
      else
        do! _ := send (holdPositionCommand (vehicleSystemId config) (vehicleComponentId config)
                         (latitudeDeg o) (longitudeDeg o) (altitudeMslM o)) in
        ret true
  end.

(** The command of a task, if the switch sends one. *)
Definition task_command (t : AuthoritativeTask) (s : VehicleSnapshot) : option MavLinkData :=
  let sysid := vehicleSystemId config in
  let compid := vehicleComponentId config in
  if commanded t "flight.takeoff" then
    match numberInput t "altitude_m", launchElevationM s with
    | Some target, Some launch => Some (takeoffCommand sysid compid (target - launch)%num)
    | _, _ => None
    end
  else if commanded t "flight.goto" then
    (fun o => gotoPositionCommand sysid compid (default (latitudeDeg o) (numberInput t "latitude"))
                (default (longitudeDeg o) (numberInput t "longitude"))
                (default (altitudeMslM o) (numberInput t "altitude_m"))) <$> observation s
  else if commanded t "flight.return_to_launch" then Some (returnToLaunchCommand sysid compid)
  else if commanded t "flight.land" then Some (landCommand sysid compid)
  else None.

Definition dispatch (t : AuthoritativeTask) (s : VehicleSnapshot) : E unit :=
  match task_command t s with Some m => send m | None => ret tt end.

(** *** Modes *)

Definition noteTakeover (mode : list Z) : E unit :=
  do! e := get (fun e => e) in
  match active e with
  | None => ret tt
  | Some a =>
      if bool_decide (mode ∈ expectedModes a) then ret tt
      else
        let id := taskId (task a) in
        do! _ := upd (fun e => e <| active := None |>) in
        do! _ := finish id in
        do! _ := upd (fun e => e <| reholdOnGuided := true |>) in
        reportTerminal id (outcome_fail execution_failed (js "Pilot takeover to " ++ mode ++ js "; Atlas no longer has control."))
  end.

Definition noteGuidedReturn (s : VehicleSnapshot) (nowMs : num) : E unit :=
  do! rehold := get reholdOnGuided in
  if negb rehold then ret tt
  else
    do! held := establishHold s nowMs in
    if held : bool then upd (fun e => e <| reholdOnGuided := false |>) else ret tt.

Definition abandonActiveForRecovery (rehold : bool) : E (option (list Z)) :=
  do! _ := upd (fun e => e <| reholdOnGuided := reholdOnGuided e || rehold |>) in
  do! e := get (fun e => e) in
  match active e with
  | None => ret None
  | Some a =>
      let id := taskId (task a) in
      do! _ := upd (fun e => e <| active := None |>) in
      do! _ := finish id in
      ret (Some id)
  end.

Definition observeMode (s : VehicleSnapshot) : E unit :=
  match customMode s with
  | None => ret tt
  | Some _ =>
      let mode := mode s in
      do! e := get (fun e => e) in
      if bool_decide (lastMode e = Some mode) then ret tt
      else
        let previousMode := lastMode e in
        do! _ := upd (fun e => e <| lastMode := Some mode |>) in
        if match active e, previousMode with
           | Some a, Some previous => bool_decide (previous ∈ expectedModes a) && negb (bool_decide (mode ∈ expectedModes a))
           | _, _ => false
           end then noteTakeover mode
        else if bool_decide (previousMode = Some (js "GUIDED")) && negb (bool_decide (mode = js "GUIDED")) then noteTakeover mode
        else ret tt
  end.

(** *** Rejections *)

Definition rejectGotoDuringTakeoff (tasks : list AuthoritativeTask) : E unit :=
  do! a := get active in
  if match a with Some a => commanded (task a) "flight.takeoff" | None => false end then
    for_each (fun t =>
      do! done_ := get (is_finished (taskId t)) in
      if commanded t "flight.goto" && actionable (status t) && negb done_ then
        do! _ := finish (taskId t) in
        reportTerminal (taskId t) (failed_with precondition_failed "Go-to during takeoff is rejected.")
      else ret tt) tasks
  else ret tt.

Definition rejectPendingOutsideGuided (tasks : list AuthoritativeTask) (s : VehicleSnapshot) (nowMs : num) : E unit :=
  for_each (fun t =>
    do! done_ := get (is_finished (taskId t)) in
    if negb (isFlightCommand (command t)) || negb (actionable (status t)) || done_ then ret tt
    else
      do! _ := finish (taskId t) in
      reportTerminal (taskId t) (outcome_fail precondition_failed (join_space (preconditions config t s nowMs)))) tasks.

(** *** Reconciliation *)

Definition byId (tasks : list AuthoritativeTask) : list (list Z * AuthoritativeTask) :=
  foldl (fun m t => jset (taskId t) t m) [] tasks.

(** The report Core already knows the end of. *)
Definition reconcile_report (tasks : list AuthoritativeTask) (e : TaskEngine) : TaskEngine :=
  match pendingTerminalReport e with
  | None => e
  | Some r =>
      if match jget (tr_taskId r) (byId tasks) with Some t => terminal (status t) | None => false end
      then e <| pendingTerminalReport := None |> else e
  end.

(** The active task as Core has it. *)
Definition reconcile_active (tasks : list AuthoritativeTask) (e : TaskEngine) : TaskEngine :=
  match active e with
  | None => e
  | Some a =>
      match jget (taskId (task a)) (byId tasks) with
      | None => e
      | Some t =>
          if terminal (status t) then
            let e := e <| active := None |> <| finished ::= add_finished (taskId t) |> in
            if bool_decide (status t = cancelled) && bool_decide (cancellationCode t = Some (js "requested")) &&
               commanded (task a) "flight.goto"
            then e <| holdRequiredBeforeMovement := true |> else e
          else e <| active := Some (a <| task := t |>) |>
      end
  end.

Definition finish_terminal (tasks : list AuthoritativeTask) (e : TaskEngine) : TaskEngine :=
  foldl (fun e t => if terminal (status t) then e <| finished ::= add_finished (taskId t) |> else e) e tasks.

Definition reconcileAuthoritative (tasks : list AuthoritativeTask) : E unit :=
  upd (fun e => finish_terminal tasks (reconcile_active tasks (reconcile_report tasks e))).

(** *** Starting a task *)

(** [tasks.filter(...)[0]] *)
Definition candidate_of (e : TaskEngine) (tasks : list AuthoritativeTask) : option AuthoritativeTask :=
  head (List.filter (fun t => isFlightCommand (command t) && actionable (status t) && negb (is_finished (taskId t) e)) tasks).

(** The execution of a task from the control state it starts in. *)
Definition new_execution (t : AuthoritativeTask) (c : ControlState) : ActiveExecution :=
  let s := cs_snapshot c in
  let modes := expectedModesFor (command t) in
  mkActive t (cs_nowMs c) (cs_nowMs c)
    (if commanded t "flight.return_to_launch" || commanded t "flight.land" then
       (fun o => mkRecovery (altitudeMslM o) (altitudeMslM o) (default POSITIVE_INFINITY (launchDistanceM s)) (indexOf (mode s) modes))
         <$> observation s
     else None)
    (remaining t s) (default POSITIVE_INFINITY (remaining t s)) None modes.

(** From the grant of the start to the command: in the control state read
    after the grant. *)
Definition execute (t : AuthoritativeTask) : E (option ControlState) :=
  do! current := try_catch getControlState (fun error => do! _ := finish (taskId t) in throw error) in
  match preconditions config t (cs_snapshot current) (cs_nowMs current) with
  | [] =>
      do! _ := upd (fun e => e <| active := Some (new_execution t current) |>) in
      do! _ := try_catch (dispatch t (cs_snapshot current)) (fun error =>
        do! _ := upd (fun e => e <| active := None |>) in
        do! _ := finish (taskId t) in
        reportTerminal (taskId t) (outcome_fail execution_failed (js "Failed to send flight command: " ++ error_message error))) in
      ret (Some current)
  | problems =>
      do! _ := finish (taskId t) in
      do! _ := reportTerminal (taskId t) (outcome_fail precondition_failed (join_space problems)) in
      ret (Some current)
  end.

Definition adoptNext (tasks : list AuthoritativeTask) (s : VehicleSnapshot) (nowMs : num) : E (option ControlState) :=
  do! e := get (fun e => e) in
  match candidate_of e tasks with
  | None => ret None
  | Some t =>
      match preconditions config t s nowMs with
      | [] =>
          do! _ := try_catch (reportStart (taskId t)) (fun error =>
            do! _ := finish (taskId t) in
            do! _ := upd (new_report (taskId t)
              (failed_with execution_failed "Task start could not be confirmed; no aircraft command was sent.")) in
            throw error) in
          execute t
      | problems =>
          do! _ := finish (taskId t) in
          do! _ := reportTerminal (taskId t) (outcome_fail precondition_failed (join_space problems)) in
          ret None
      end
  end.

(** *** Watching a task *)

Definition failActive (code : FailureCode) (message : list Z) (s : VehicleSnapshot) (nowMs : num) : E unit :=
  do! e := get (fun e => e) in
  match active e with
  | None => ret tt
  | Some a =>
      let t := task a in
      do! _ := upd (fun e => new_report (taskId t) (outcome_fail code message)
        (e <| active := None |> <| finished ::= add_finished (taskId t) |>)) in
      do! _ :=
        if (commanded t "flight.goto" || commanded t "flight.takeoff") && guided s && armed s && hasFreshControlTelemetry s nowMs then
          if commanded t "flight.goto" then do! _ := establishHold s nowMs in ret tt
          else match observation s with
               | Some o =>
                   if (n_abs (relativeAltitudeM o) > n_lit 1 2)%num
                   then send (landCommand (vehicleSystemId config) (vehicleComponentId config)) else ret tt
               | None => ret tt
               end
        else ret tt in
      flushTerminalReport
  end.

(** Whether the task got further, and what is known of it then. *)
Definition progressed (a : ActiveExecution) (s : VehicleSnapshot) (nowMs : num) : bool * ActiveExecution :=
  if negb (hasFreshControlTelemetry s nowMs) then (false, a)
  else match remaining (task a) s with
       | Some r => if (r < bestRemainingM a)%num then (true, a) else recoveryProgressed a s
       | None => recoveryProgressed a s
       end.

Definition seconds_text (x : num) : list Z := n_text x ++ js "s.".

Definition advance (s : VehicleSnapshot) (nowMs : num) : E unit :=
  do! e := get (fun e => e) in
  match active e with
  | None => ret tt
  | Some a =>
      if (nowMs - startedAtMs a > taskTimeoutSeconds config * n_of_Z 1000)%num then
        failActive execution_failed (js "No completion within " ++ seconds_text (taskTimeoutSeconds config)) s nowMs
      else
        let '(further, a) := progressed a s nowMs in
        let a := if further
                 then a <| bestRemainingM := default (bestRemainingM a) (remaining (task a) s) |> <| lastProgressAtMs := nowMs |>
                 else a in
        do! _ := upd (fun e => e <| active := Some a |>) in
        if negb further && (nowMs - lastProgressAtMs a > progressTimeoutSeconds config * n_of_Z 1000)%num then
          failActive execution_failed (js "No progress for " ++ seconds_text (progressTimeoutSeconds config)) s nowMs
        else
          let '(complete, a) := isComplete config a s nowMs in
          do! _ := upd (fun e => e <| active := Some a |>) in
          if complete : bool then
            do! _ := upd (fun e => e <| active := None |>) in
            do! _ := finish (taskId (task a)) in
            reportTerminal (taskId (task a)) outcome_complete
          else ret tt
  end.

(** *** One round *)

(** The end of a round: adopt a task when there is none, and watch it. *)
Definition ingest_work (tasks : list AuthoritativeTask) (current : ControlState) : E unit :=
  do! a := get active in
  do! current := match a with
                 | Some _ => ret current
                 | None => do! adopted := adoptNext tasks (cs_snapshot current) (cs_nowMs current) in ret (default current adopted)
                 end in
  advance (cs_snapshot current) (cs_nowMs current).

(** The hold a cancelled go-to requires before anything moves. *)
Definition ingest_hold (tasks : list AuthoritativeTask) (current : ControlState) : E unit :=
  do! _ := rejectGotoDuringTakeoff tasks in
  do! required := get holdRequiredBeforeMovement in
  if negb required then ingest_work tasks current
  else
    do! current := getControlState in
    do! held := establishHold (cs_snapshot current) (cs_nowMs current) in
    if negb held then ret tt
    else
      do! current := getControlState in
      do! _ := upd (fun e => e <| holdRequiredBeforeMovement := false |>) in
      ingest_work tasks current.

Definition ingest (tasks : list AuthoritativeTask) (s : VehicleSnapshot) (nowMs : num) : E unit :=
  let current := mkControl s nowMs in
  do! _ := reconcileAuthoritative tasks in
  do! _ := flushTerminalReport in
  do! _ := observeMode s in
  do! rehold := get reholdOnGuided in
  if negb rehold then ingest_hold tasks current
  else if negb (guided s) then rejectPendingOutsideGuided tasks s nowMs
  else
    do! held := establishHold s nowMs in
    if negb held then ret tt
    else
      do! current := getControlState in
      do! _ := upd (fun e => e <| reholdOnGuided := false |>) in
      ingest_hold tasks current.
End class.
