(* ===== verification/TaskEngineMoves.v ===== *)
(** * The task engine: its moves

    A specification of a round of [TaskEngine.ingest] as a transition system
    over the engine and what happened in the round: reports, commands, reads of
    the control state.  Each move carries the condition under which the code
    makes it, on the control state read last.  [ingest_moves] shows that the
    code only makes these moves, whatever the link, Core and the control state
    answer. *)

From Stdlib Require Import ZArith Lia String.
From stdpp Require Import base list option relations.
From S2P Require Import Prelude JsMap Json Contract JsState Doubles AssetConfig Vehicle MavCommands TaskEngine.

Open Scope string_scope.
Open Scope list_scope.
Open Scope Z_scope.

(** What the engine did, and how it ended. *)
Inductive EngineEvent :=
  | ev_sent (m : MavLinkData) (ok : bool)
  | ev_started (t : list Z) (ok : bool)
  | ev_reported (t : list Z) (o : ReportOutcome) (ok : bool)
  | ev_read (c : ControlState)
  | ev_unread.

(** What the engine relies on: what it calls leaves it alone, and is all that
    happens. *)
Class EngineHostLaws (St : Type) {host : EngineHost St} := {
  history : St -> list EngineEvent;
  engine_set e s : engine (set_engine e s) = e;
  set_engine_twice e e' s : set_engine e' (set_engine e s) = set_engine e' s;
  history_set e s : history (set_engine e s) = history s;
  send_law m s : engine (snd (send m s)) = engine s /\ history (snd (send m s)) = history s ++ [ev_sent m (is_ok (fst (send m s)))];
  start_law t s : engine (snd (reportStart t s)) = engine s /\
    history (snd (reportStart t s)) = history s ++ [ev_started t (is_ok (fst (reportStart t s)))];
  complete_law t s : engine (snd (reportComplete t s)) = engine s /\
    history (snd (reportComplete t s)) = history s ++ [ev_reported t outcome_complete (is_ok (fst (reportComplete t s)))];
  fail_law t code message s : engine (snd (reportFail t code message s)) = engine s /\
    history (snd (reportFail t code message s)) =
      history s ++ [ev_reported t (outcome_fail code message) (is_ok (fst (reportFail t code message s)))];
  control_law s : engine (snd (getControlState s)) = engine s /\
    history (snd (getControlState s)) =
      history s ++ [match fst (getControlState s) with Ok c => ev_read c | Throw _ => ev_unread end]
}.

(** The engine, and the events of the round so far. *)
Record View := mkView { en : TaskEngine; ev : list EngineEvent }.

Section moves.
Context {dialect : MavLinkDialect} {math : MathFunctions} (config : AssetConfig).
Context (tasks : list AuthoritativeTask) (given : ControlState).

(** The control state read last in the round. *)
Definition latest (l : list EngineEvent) : ControlState :=
  foldl (fun c e => match e with ev_read c' => c' | _ => c end) given l.

#[local] Arguments latest : simpl never.

Definition fresh_control (c : ControlState) : bool := hasFreshControlTelemetry (cs_snapshot c) (cs_nowMs c).

(** The hold of the position in a control state. *)
Definition hold_at (o : VehicleObservation) : MavLinkData :=
  holdPositionCommand (vehicleSystemId config) (vehicleComponentId config) (latitudeDeg o) (longitudeDeg o) (altitudeMslM o).
Definition land_now : MavLinkData := landCommand (vehicleSystemId config) (vehicleComponentId config).

Definition may_hold (c : ControlState) (o : VehicleObservation) : Prop :=
  observation (cs_snapshot c) = Some o /\ guided (cs_snapshot c) = true /\ fresh_control c = true.

Definition clear_active (t : list Z) (e : TaskEngine) : TaskEngine := e <| active := None |> <| finished ::= add_finished t |>.

(** A task the engine may act on. *)
Definition eligible (e : TaskEngine) (t : AuthoritativeTask) : Prop :=
  t ∈ tasks /\ isFlightCommand (command t) = true /\ actionable (status t) = true /\ taskId t ∉ finished e.

(** How the start of a task ends: refused, unreadable, no longer allowed, sent,
    or not sent. *)
Inductive starts (t : AuthoritativeTask) (e : TaskEngine) : TaskEngine -> list EngineEvent -> Prop :=
  | start_refused text :
      starts t e (new_report (taskId t) (outcome_fail execution_failed text) (e <| finished ::= add_finished (taskId t) |>))
        [ev_started (taskId t) false]
  | start_unreadable : starts t e (e <| finished ::= add_finished (taskId t) |>) [ev_started (taskId t) true; ev_unread]
  | start_forbidden c text : preconditions config t (cs_snapshot c) (cs_nowMs c) <> [] ->
      starts t e (new_report (taskId t) (outcome_fail precondition_failed text) (e <| finished ::= add_finished (taskId t) |>))
        [ev_started (taskId t) true; ev_read c]
  | start_sent c m : preconditions config t (cs_snapshot c) (cs_nowMs c) = [] -> task_command config t (cs_snapshot c) = Some m ->
      starts t e (e <| active := Some (new_execution t c) |>) [ev_started (taskId t) true; ev_read c; ev_sent m true]
  | start_unsent c m text : preconditions config t (cs_snapshot c) (cs_nowMs c) = [] -> task_command config t (cs_snapshot c) = Some m ->
      starts t e (new_report (taskId t) (outcome_fail execution_failed text)
          (e <| active := Some (new_execution t c) |> <| active := None |> <| finished ::= add_finished (taskId t) |>))
        [ev_started (taskId t) true; ev_read c; ev_sent m false].

Definition overdue (a : ActiveExecution) (c : ControlState) : Prop :=
  (taskTimeoutSeconds config * n_of_Z 1000 < cs_nowMs c - startedAtMs a)%num = true \/
  (progressTimeoutSeconds config * n_of_Z 1000 < cs_nowMs c - lastProgressAtMs a)%num = true.

(** Within its time limit, and not without progress for too long. *)
Definition within (a : ActiveExecution) (c : ControlState) : Prop :=
  (taskTimeoutSeconds config * n_of_Z 1000 < cs_nowMs c - startedAtMs a)%num = false /\
  (lastProgressAtMs a = cs_nowMs c \/ (progressTimeoutSeconds config * n_of_Z 1000 < cs_nowMs c - lastProgressAtMs a)%num = false).

Inductive move : View -> View -> Prop :=
  | mv_reconcile e : move (mkView e []) (mkView (finish_terminal tasks (reconcile_active tasks (reconcile_report tasks e))) [])
  | mv_mode e l m : move (mkView e l) (mkView (e <| lastMode := m |>) l)
  | mv_takeover e l a mode text : active e = Some a -> mode ∉ expectedModes a -> pendingTerminalReport e = None ->
      move (mkView e l) (mkView (new_report (taskId (task a)) (outcome_fail execution_failed text)
        (clear_active (taskId (task a)) e <| reholdOnGuided := true |>)) l)
  | mv_report e l r ok : pendingTerminalReport e = Some r ->
      move (mkView e l) (mkView e (l ++ [ev_reported (tr_taskId r) (outcome r) ok]))
  | mv_delivered e l r : pendingTerminalReport e = Some r ->
      move (mkView e (l ++ [ev_reported (tr_taskId r) (outcome r) true]))
        (mkView (e <| pendingTerminalReport := None |>) (l ++ [ev_reported (tr_taskId r) (outcome r) true]))
  | mv_reject e l t text : eligible e t -> pendingTerminalReport e = None ->
      move (mkView e l) (mkView (new_report (taskId t) (outcome_fail precondition_failed text)
        (e <| finished ::= add_finished (taskId t) |>)) l)
  | mv_hold e l o ok : may_hold (latest l) o -> move (mkView e l) (mkView e (l ++ [ev_sent (hold_at o) ok]))
  | mv_land e l o ok : may_hold (latest l) o -> armed (cs_snapshot (latest l)) = true ->
      (n_lit 1 2 < n_abs (relativeAltitudeM o))%num = true -> move (mkView e l) (mkView e (l ++ [ev_sent land_now ok]))
  | mv_read e l c : move (mkView e l) (mkView e (l ++ [ev_read c]))
  | mv_unread e l : move (mkView e l) (mkView e (l ++ [ev_unread]))
  | mv_held e l o c : move (mkView e (l ++ [ev_sent (hold_at o) true; ev_read c]))
      (mkView (e <| reholdOnGuided := false |>) (l ++ [ev_sent (hold_at o) true; ev_read c]))
  | mv_moved e l o c : move (mkView e (l ++ [ev_sent (hold_at o) true; ev_read c]))
      (mkView (e <| holdRequiredBeforeMovement := false |>) (l ++ [ev_sent (hold_at o) true; ev_read c]))
  | mv_start e l t e' new : active e = None -> reholdOnGuided e = false -> holdRequiredBeforeMovement e = false ->
      pendingTerminalReport e = None -> eligible e t ->
      preconditions config t (cs_snapshot (latest l)) (cs_nowMs (latest l)) = [] -> starts t e e' new ->
      move (mkView e l) (mkView e' (l ++ new))
  | mv_watch e l a a' : active e = Some a -> task a' = task a -> startedAtMs a' = startedAtMs a -> expectedModes a' = expectedModes a ->
      move (mkView e l) (mkView (e <| active := Some a' |>) l)
  | mv_overdue e l a text : active e = Some a -> pendingTerminalReport e = None -> overdue a (latest l) ->
      move (mkView e l) (mkView (new_report (taskId (task a)) (outcome_fail execution_failed text) (clear_active (taskId (task a)) e)) l)
  | mv_complete e l a0 a : active e = Some a -> pendingTerminalReport e = None ->
      isComplete config a0 (cs_snapshot (latest l)) (cs_nowMs (latest l)) = (true, a) ->
      move (mkView e l) (mkView (new_report (taskId (task a)) outcome_complete (clear_active (taskId (task a)) e)) l).

(** ** Programs that follow the moves *)

(** A hold is due. *)
Definition flagged (e : TaskEngine) : Prop := reholdOnGuided e = true \/ holdRequiredBeforeMovement e = true.

(** The active task is within its limits. *)
Definition in_time (c : ControlState) (e : TaskEngine) : Prop := forall a, active e = Some a -> within a c.

(** Nothing is active. *)
Definition inactive (k : option ActiveExecution * bool * bool) : Prop := fst (fst k) = None.

Abbreviation anything := (fun _ : option ActiveExecution * bool * bool => True).


Section follows.
Context {St : Type} {host : EngineHost St} {laws : EngineHostLaws St}.
Context (base : list EngineEvent).

Abbreviation start := (length base).

Lemma drop_more h e : base `prefix_of` h -> drop start (h ++ e) = drop start h ++ e.
Proof. intros ?%prefix_length. by apply drop_app_le. Qed.

Definition view (s : St) : View := mkView (engine s) (drop start (history s)).

(** An end of a program that moves lead to from [v0], with [Q] if it returned. *)
Definition lands {A} (v0 : View) (x : result A * St) (Q : A -> View -> Prop) : Prop :=
  rtc move v0 (view (snd x)) /\ base `prefix_of` history (snd x) /\
  match x with (Ok a, s') => Q a (view s') | (Throw _, _) => True end.

(** From a state where [P] holds, a program makes moves only, and leaves [Q]
    when it returns. *)
Definition follows {A} (P : View -> Prop) (m : eff St A) (Q : A -> View -> Prop) : Prop :=
  forall s, base `prefix_of` history s -> P (view s) -> lands (view s) (m s) Q.

Lemma follows_ret {A} (P : View -> Prop) (a : A) (Q : A -> View -> Prop) : (forall v, P v -> Q a v) -> follows P (ret a) Q.
Proof. intros H s Hs Hp. split_and!; [constructor | done | by apply H]. Qed.

Lemma follows_throw {A} (P : View -> Prop) e (Q : A -> View -> Prop) : follows P (throw e) Q.
Proof. intros s Hs Hp. by split_and!; [constructor | |]. Qed.

Lemma follows_bind {A B} (P : View -> Prop) (m : eff St A) (k : A -> eff St B) Q R :
  follows P m Q -> (forall a, follows (Q a) (k a) R) -> follows P (bind_eff m k) R.
Proof.
  intros Hm Hk s Hs Hp. destruct (Hm s Hs Hp) as (M & L & Hq). unfold bind_eff.
  destruct (m s) as [[a | e] s1]; cbn in *; [| by split_and!].
  destruct (Hk a s1 L Hq) as (M' & L' & Hr). split_and!; [by etrans | done | done].
Qed.

Lemma follows_weaken {A} (P P' : View -> Prop) (m : eff St A) (Q Q' : A -> View -> Prop) :
  follows P m Q -> (forall v, P' v -> P v) -> (forall a v, Q a v -> Q' a v) -> follows P' m Q'.
Proof.
  intros H HP HQ s Hs Hp. destruct (H s Hs (HP _ Hp)) as (M & L & Hq). split_and!; [done | done |].
  destruct (m s) as [[a | e] s1]; [by apply HQ | done].
Qed.

Lemma follows_get {A} (P : View -> Prop) (f : TaskEngine -> A) : follows P (get f) (fun a v => P v /\ a = f (en v)).
Proof. intros s Hs Hp. by split_and!; [constructor | |]. Qed.

Lemma follows_upd (P : View -> Prop) f (Q : unit -> View -> Prop) :
  (forall e l, P (mkView e l) -> rtc move (mkView e l) (mkView (f e) l) /\ Q tt (mkView (f e) l)) -> follows P (upd f) Q.
Proof.
  intros H s Hs Hp. destruct (H _ _ Hp) as [M Hq]. unfold lands, upd, modify, view in *. cbn [snd].
  rewrite engine_set, history_set. done.
Qed.

(** A call to the outside, whose event is [event result]. *)
Lemma follows_call {A} (P : View -> Prop) (m : eff St A) (event : result A -> EngineEvent) (Q : A -> View -> Prop) :
  (forall s, engine (snd (m s)) = engine s /\ history (snd (m s)) = history s ++ [event (fst (m s))]) ->
  (forall e l r, P (mkView e l) -> rtc move (mkView e l) (mkView e (l ++ [event r])) /\
     match r with Ok a => Q a (mkView e (l ++ [event r])) | Throw _ => True end) -> follows P m Q.
Proof.
  intros Hlaw H s Hs Hp. destruct (Hlaw s) as [E1 E2].
  destruct (H _ _ (fst (m s)) Hp) as [M Hq]. unfold lands, view. destruct (m s) as [r s1]. cbn in *.
  rewrite E1, E2, drop_more by done. split_and!; [done | by apply prefix_app_r | by destruct r].
Qed.

Lemma follows_for_each {A} (P : View -> Prop) (f : A -> eff St unit) (l : list A) :
  (forall x, x ∈ l -> follows P (f x) (fun _ => P)) -> follows P (for_each f l) (fun _ => P).
Proof.
  induction l as [| x l IH]; intros H; [by apply follows_ret |]. cbn [for_each]. eapply follows_bind; [apply H; by left |].
  intros []. apply IH. intros y Hy. apply H. by right.
Qed.

Lemma follows_ext {A} (P : View -> Prop) (m m' : eff St A) Q : (forall s, m s = m' s) -> follows P m Q -> follows P m' Q.
Proof. intros E H s Hs Hp. rewrite <- E. by apply H. Qed.

(** Two assignments in a row are one. *)
Lemma follows_fuse {A} (P : View -> Prop) f g (k : eff St A) Q :
  follows P (bind_eff (upd (fun e => g (f e))) (fun _ => k)) Q ->
  follows P (bind_eff (upd f) (fun _ => bind_eff (upd g) (fun _ => k))) Q.
Proof.
  apply follows_ext. intros s. unfold bind_eff, upd, modify. by rewrite engine_set, set_engine_twice.
Qed.

Lemma follows_assign {A} (P P' : View -> Prop) f (k : eff St A) Q :
  (forall e l, P (mkView e l) -> rtc move (mkView e l) (mkView (f e) l) /\ P' (mkView (f e) l)) ->
  follows P' k Q -> follows P (bind_eff (upd f) (fun _ => k)) Q.
Proof. intros H Hk. eapply follows_bind; [by apply (follows_upd _ _ (fun _ => P')) |]. by intros []. Qed.

(** ** The operations *)

(** What decides what may start: the active task and the two flags. *)
Definition core (e : TaskEngine) : option ActiveExecution * bool * bool :=
  (active e, reholdOnGuided e, holdRequiredBeforeMovement e).

Definition held (c : ControlState) (F : option ActiveExecution * bool * bool -> Prop) (v : View) : Prop :=
  F (core (en v)) /\ latest (ev v) = c.
Definition clear (c : ControlState) (F : option ActiveExecution * bool * bool -> Prop) (v : View) : Prop :=
  held c F v /\ pendingTerminalReport (en v) = None.

Lemma latest_snoc l e : latest (l ++ [e]) = match e with ev_read c => c | _ => latest l end.
Proof. unfold latest. rewrite foldl_app. cbn. by destruct e. Qed.

Lemma move_one x y : move x y -> rtc move x y.
Proof. apply rtc_once. Qed.

(** A report that is awaited: it is logged, and stays pending. *)
Lemma report_call_follows c F r :
  follows (fun v => held c F v /\ pendingTerminalReport (en v) = Some r)
    (match outcome r with
     | outcome_complete => reportComplete (tr_taskId r)
     | outcome_fail code message => reportFail (tr_taskId r) code message
     end)
    (fun _ v => held c F v /\ pendingTerminalReport (en v) = Some r /\
                exists l, ev v = l ++ [ev_reported (tr_taskId r) (outcome r) true]).
Proof.
  assert (Law : forall s, let m := match outcome r with
     | outcome_complete => reportComplete (tr_taskId r)
     | outcome_fail code message => reportFail (tr_taskId r) code message
     end in engine (snd (m s)) = engine s /\ history (snd (m s)) = history s ++ [ev_reported (tr_taskId r) (outcome r) (is_ok (fst (m s)))]).
  { intros s. destruct (outcome r); [apply complete_law | apply fail_law]. }
  eapply (follows_call _ _ (fun x => ev_reported (tr_taskId r) (outcome r) (is_ok x))); [exact Law |].
  intros e l x [[Hf Hc] Hr]. split; [by apply move_one, mv_report |]. destruct x as [u | err]; [| done].
  unfold held. cbn [en ev]. rewrite latest_snoc. split_and!; [done | done | done | by eexists].
Qed.

Lemma flush_follows c F : follows (held c F) flushTerminalReport (fun _ => clear c F).
Proof.
  unfold flushTerminalReport. eapply follows_bind; [apply follows_get |]. intros [r |]; cbn beta.
  - eapply follows_bind.
    + eapply follows_weaken; [apply report_call_follows | | by intros a v H; exact H]. intros v [H E]. split; [exact H | by symmetry].
    + intros u. apply follows_upd. intros e l ([Hf Hc] & Hr & l' & El). cbn in *. subst l.
      rewrite Hr. cbn. rewrite bool_decide_eq_true_2 by done. split; [| done]. by apply move_one, mv_delivered.
  - apply follows_ret. intros v [H E]. done.
Qed.

(** Assignments that end with a new report, then the report. *)
Lemma drop_follows c (P : View -> Prop) F f t o :
  (forall e l, P (mkView e l) -> move (mkView e l) (mkView (new_report t o (f e)) l) /\ held c F (mkView (new_report t o (f e)) l)) ->
  follows P (bind_eff (upd f) (fun _ => reportTerminal t o)) (fun _ => clear c F).
Proof.
  intros H. unfold reportTerminal. apply follows_fuse. eapply (follows_assign _ (held c F)); [| apply flush_follows].
  intros e l Hp. destruct (H e l Hp) as [M Hh]. split; [by apply move_one | done].
Qed.

Lemma establishHold_follows c (G : TaskEngine -> Prop) :
  follows (fun v => G (en v) /\ latest (ev v) = c) (establishHold config (cs_snapshot c) (cs_nowMs c))
    (fun held_ v => (G (en v) /\ latest (ev v) = c) /\ (held_ = true -> exists l o, ev v = l ++ [ev_sent (hold_at o) true])).
Proof.
  unfold establishHold. destruct (observation (cs_snapshot c)) as [o |] eqn:Ho; [| by apply follows_ret].
  destruct (negb (guided (cs_snapshot c)) || negb (hasFreshControlTelemetry (cs_snapshot c) (cs_nowMs c))) eqn:T; [by apply follows_ret |].
  apply orb_false_iff in T as [T1%negb_false_iff T2%negb_false_iff].
  eapply follows_bind.
  - apply (follows_call _ _ (fun x => ev_sent (hold_at o) (is_ok x))
      (fun _ v => (G (en v) /\ latest (ev v) = c) /\ exists l, ev v = l ++ [ev_sent (hold_at o) true])); [apply send_law |].
    intros e l x [Hg Hc]. cbn in *. split; [apply move_one, mv_hold; by rewrite Hc |].
    destruct x; [| done]. rewrite latest_snoc. split; [done | by eexists].
  - intros u. apply follows_ret. intros v [H (l & E)]. split; [done |]. intros _. by exists l, o.
Qed.

Lemma hold_clear c F :
  follows (clear c F) (establishHold config (cs_snapshot c) (cs_nowMs c))
    (fun held_ v => clear c F v /\ (held_ = true -> exists l o, ev v = l ++ [ev_sent (hold_at o) true])).
Proof.
  eapply follows_weaken; [apply (establishHold_follows c (fun e => F (core e) /\ pendingTerminalReport e = None)) | |].
  - by intros v [[Hf Hc] Hp].
  - intros b v [[[Hf Hp] Hc] H]. done.
Qed.

Lemma getControl_follows c F (R : list EngineEvent -> Prop) :
  follows (fun v => clear c F v /\ R (ev v)) getControlState
    (fun c' v => clear c' F v /\ exists l, ev v = l ++ [ev_read c'] /\ R l).
Proof.
  apply (follows_call _ _ (fun x => match x with Ok c => ev_read c | Throw _ => ev_unread end)); [apply control_law |].
  intros e l x [[[Hf Hc] Hp] Hr]. cbn in *. destruct x as [c' | err]; (split; [apply move_one; constructor |]); [| done].
  unfold clear, held. cbn. rewrite latest_snoc. split; [done | by exists l].
Qed.

Lemma takeover_follows m c : follows (clear c anything) (noteTakeover m) (fun _ => clear c anything).
Proof.
  unfold noteTakeover. eapply follows_bind; [apply follows_get |]. intros e0; cbn beta.
  destruct (active e0) as [a |] eqn:Ha; [| apply follows_ret; by intros v [? _]].
  case_bool_decide as Hm; [apply follows_ret; by intros v [? _] |]. unfold finish. apply follows_fuse, follows_fuse.
  apply drop_follows. intros e l [[[_ Hc] Hp] He]. cbn in He. subst e0. split; [by eapply mv_takeover | done].
Qed.

Lemma observeMode_follows s c : follows (clear c anything) (observeMode s) (fun _ => clear c anything).
Proof.
  unfold observeMode. destruct (customMode s); [| by apply follows_ret].
  eapply follows_bind; [apply follows_get |]. intros e0; cbn beta. case_bool_decide; [apply follows_ret; by intros v [? _] |].
  apply (follows_assign _ (clear c anything)).
  - intros e l [[[_ Hc] Hp] _]. split; [apply move_one, mv_mode | done].
  - repeat match goal with |- follows _ (if ?b then _ else _) _ => destruct b end; [apply takeover_follows.. | by apply follows_ret].
Qed.

(** Turning a task down. *)
Lemma reject_follows c F t text : t ∈ tasks -> isFlightCommand (command t) = true -> actionable (status t) = true ->
  follows (fun v => clear c F v /\ false = is_finished (taskId t) (en v))
    (bind_eff (finish (taskId t)) (fun _ => reportTerminal (taskId t) (outcome_fail precondition_failed text)))
    (fun _ => clear c F).
Proof.
  intros H1 H2 H3. apply drop_follows. intros e l [[[Hf Hc] Hp] Hn]. split; [| done].
  apply mv_reject; [| done]. split_and!; [done.. |]. symmetry in Hn. by apply bool_decide_eq_false in Hn.
Qed.

Lemma is_flight t c : c = "flight.goto" \/ c = "flight.takeoff" \/ c = "flight.return_to_launch" \/ c = "flight.land" ->
  commanded t c = true -> isFlightCommand (command t) = true.
Proof. unfold commanded, isFlightCommand. intros H E%bool_decide_eq_true. rewrite E. by destruct H as [-> | [-> | [-> | ->]]]. Qed.

Lemma rejectGoto_follows c F : follows (clear c F) (rejectGotoDuringTakeoff tasks) (fun _ => clear c F).
Proof.
  unfold rejectGotoDuringTakeoff. eapply follows_bind; [apply follows_get |]. intros a; cbn beta.
  case_match; [| apply follows_ret; by intros v [? _]].
  eapply follows_weaken; [apply (follows_for_each (clear c F)) | by intros v [? _] | done].
  intros t Ht. eapply follows_bind; [apply follows_get |]. intros b; cbn beta.
  destruct (commanded t "flight.goto" && actionable (status t) && negb b) eqn:E; [| apply follows_ret; by intros v [? _]].
  apply andb_true_iff in E as [[E1 E2]%andb_true_iff E3%negb_true_iff]. subst b.
  apply reject_follows; [done | | done]. eapply is_flight; [by left | done].
Qed.

Lemma rejectPending_follows c F s now : follows (clear c F) (rejectPendingOutsideGuided config tasks s now) (fun _ => clear c F).
Proof.
  unfold rejectPendingOutsideGuided. apply follows_for_each.
  intros t Ht. eapply follows_bind; [apply follows_get |]. intros b; cbn beta.
  destruct (negb _ || negb _ || b) eqn:E; [apply follows_ret; by intros v [? _] |].
  apply orb_false_iff in E as [[E1%negb_false_iff E2%negb_false_iff]%orb_false_iff ->]. by apply reject_follows.
Qed.

(** *** Watching *)

Lemma recovery_same a s : task (snd (recoveryProgressed a s)) = task a /\ startedAtMs (snd (recoveryProgressed a s)) = startedAtMs a /\
  expectedModes (snd (recoveryProgressed a s)) = expectedModes a.
Proof. unfold recoveryProgressed. by destruct (recoveryProgress a), (observation s). Qed.

Lemma progressed_same a s now : task (snd (progressed a s now)) = task a /\ startedAtMs (snd (progressed a s now)) = startedAtMs a /\
  expectedModes (snd (progressed a s now)) = expectedModes a.
Proof.
  unfold progressed. destruct (negb _); [done |]. destruct (remaining (task a) s); [| apply recovery_same].
  destruct (_ < _)%num; [done | apply recovery_same].
Qed.

Lemma complete_same a s now : task (snd (isComplete config a s now)) = task a /\ startedAtMs (snd (isComplete config a s now)) = startedAtMs a /\
  expectedModes (snd (isComplete config a s now)) = expectedModes a /\ lastProgressAtMs (snd (isComplete config a s now)) = lastProgressAtMs a.
Proof. unfold isComplete. by repeat match goal with |- context [if ?b then _ else _] => destruct b | |- context [match ?x with Some _ => _ | None => _ end] => destruct x as [?|] | p : (_ * _)%type |- _ => destruct p end. Qed.

Lemma failActive_follows text c :
  follows (fun v => clear c anything v /\ forall a, active (en v) = Some a -> overdue a c)
    (failActive config execution_failed text (cs_snapshot c) (cs_nowMs c)) (fun _ => clear c inactive).
Proof.
  unfold failActive. eapply follows_bind; [apply follows_get |]. intros e0; cbn beta.
  destruct (active e0) as [a |] eqn:Ha.
  2: { apply follows_ret. intros v [[[[_ Hc] Hp] _] He]. split; [split; [unfold inactive; cbn; congruence | done] | done]. }
  apply (follows_assign _ (held c inactive)).
  { intros e l [[[[_ Hc] Hp] Ho] He]. cbn in *. subst e0. split; [| done].
    apply move_one, mv_overdue; [done.. | rewrite Hc; by apply Ho]. }
  eapply follows_bind; [| intros u; apply flush_follows].
  destruct (_ && hasFreshControlTelemetry (cs_snapshot c) (cs_nowMs c)) eqn:T; [| by apply follows_ret].
  apply andb_true_iff in T as [[[_ T1]%andb_true_iff T2]%andb_true_iff T3].
  destruct (commanded (task a) "flight.goto").
  - eapply follows_bind; [apply (establishHold_follows c (fun e => active e = None)) | intros b; apply follows_ret; by intros v [[? ?] _]].
  - destruct (observation (cs_snapshot c)) as [o |] eqn:Ho; [| by apply follows_ret].
    destruct (n_lit 1 2 < n_abs (relativeAltitudeM o))%num eqn:Hr; [| by apply follows_ret].
    apply (follows_call _ _ (fun x => ev_sent land_now (is_ok x))); [apply send_law |].
    intros e l x [Hf Hc]. cbn in *. split; [apply move_one, (mv_land _ _ o); by rewrite ?Hc |].
    destruct x; [| done]. unfold held. cbn. by rewrite latest_snoc.
Qed.

(** A tracked change of the active task. *)
Lemma watch_follows {A} c a a' (k : eff St A) Q : task a' = task a -> startedAtMs a' = startedAtMs a -> expectedModes a' = expectedModes a ->
  follows (fun v => clear c anything v /\ active (en v) = Some a') k Q ->
  follows (fun v => clear c anything v /\ active (en v) = Some a) (bind_eff (upd (fun e => e <| active := Some a' |>)) (fun _ => k)) Q.
Proof.
  intros H1 H2 H3. apply follows_assign. intros e l [[[_ Hc] Hp] Ha]. split; [| done]. by eapply move_one, mv_watch.
Qed.

Lemma inactive_in_time c v : clear c inactive v -> in_time c (en v) /\ latest (ev v) = c.
Proof. intros [[Hf Hl] _]. split; [| done]. intros a Ha. unfold inactive in Hf. cbn in Hf. congruence. Qed.

Lemma advance_follows c : follows (clear c anything) (advance config (cs_snapshot c) (cs_nowMs c))
  (fun _ v => in_time c (en v) /\ latest (ev v) = c).
Proof.
  unfold advance. eapply follows_bind; [apply follows_get |]. intros e0; cbn beta.
  destruct (active e0) as [a |] eqn:Ha.
  2: { apply follows_ret. intros v [[[_ Hl] _] He]. split; [intros a Ha'; congruence | done]. }
  destruct (taskTimeoutSeconds config * n_of_Z 1000 < cs_nowMs c - startedAtMs a)%num eqn:Ht.
  { eapply follows_weaken; [apply failActive_follows | | intros u; apply inactive_in_time]. intros v [Hc He]. split; [done |]. intros a' Ha'.
    assert (a' = a) as -> by congruence. by left. }
  pose proof (progressed_same a (cs_snapshot c) (cs_nowMs c)) as (P1 & P2 & P3).
  destruct (progressed a (cs_snapshot c) (cs_nowMs c)) as [further a1]. cbn in P1, P2, P3.
  set (a2 := if further then _ else a1).
  assert (task a2 = task a /\ startedAtMs a2 = startedAtMs a /\ expectedModes a2 = expectedModes a) as (Q1 & Q2 & Q3) by (by destruct further).
  assert (Q4 : further = true -> lastProgressAtMs a2 = cs_nowMs c) by (by destruct further).
  clearbody a2. eapply follows_weaken; [eapply (watch_follows c a a2); [done.. |] | intros v [Hc He]; split; [done | congruence] | by intros ? ? H; exact H].
  destruct (negb further && _) eqn:Hp.
  { eapply follows_weaken; [apply failActive_follows | | intros u; apply inactive_in_time]. intros v [Hc He]. split; [done |]. intros a' Ha'.
    assert (a' = a2) as -> by congruence. right. by apply andb_true_iff in Hp as [_ ?]. }
  pose proof (complete_same a2 (cs_snapshot c) (cs_nowMs c)) as (R1 & R2 & R3 & R4).
  destruct (isComplete config a2 (cs_snapshot c) (cs_nowMs c)) as [complete a3] eqn:Hk. cbn in R1, R2, R3, R4.
  apply (watch_follows c a2 a3); [done.. |]. destruct complete.
  - unfold finish. apply follows_fuse. eapply follows_weaken; [| intros v H; exact H | intros u; apply inactive_in_time].
    apply drop_follows. intros e l [[[_ Hc] Hq] Hs]. cbn in *. split; [| done]. eapply mv_complete; [done.. |]. by rewrite Hc.
  - apply follows_ret. intros v [[[_ Hc] _] Hs]. split; [| done]. intros a' Ha'. assert (a' = a3) as -> by congruence.
    split; [by rewrite R2, Q2 |]. rewrite R4. destruct further; [left; by apply Q4 | right]. by apply Hp.
Qed.

(** *** Starting *)

Lemma candidate_eligible e t : candidate_of e tasks = Some t -> eligible e t.
Proof.
  unfold candidate_of. intros H. apply head_Some_elem_of, list_elem_of_In, List.filter_In in H as [Hin H].
  apply andb_true_iff in H as [[H1 H2]%andb_true_iff H3%negb_true_iff]. unfold is_finished in H3. apply bool_decide_eq_false in H3.
  split_and!; [by apply list_elem_of_In | done..].
Qed.

Lemma problem_nil b text : problem b text = [] -> b = false.
Proof. by destruct b. Qed.

(** A task whose preconditions hold has a command to send. *)
Lemma preconditions_command t c : isFlightCommand (command t) = true -> preconditions config t (cs_snapshot c) (cs_nowMs c) = [] ->
  exists m, task_command config t (cs_snapshot c) = Some m.
Proof.
  unfold preconditions, task_command. intros Hf H.
  apply app_nil in H as [_ [_ [H3 [_ [_ [H6 H7]%app_nil]%app_nil]%app_nil]%app_nil]%app_nil].
  apply problem_nil, negb_false_iff in H3. unfold hasFreshControlTelemetry in H3. apply andb_true_iff in H3 as [_ Ho].
  destruct (observation (cs_snapshot c)) as [o |]; [| done].
  destruct (commanded t "flight.takeoff") eqn:C1.
  { apply app_nil in H6 as [_ H6]. unfold takeoff_problem in H6.
    destruct (numberInput t "altitude_m"); [| done]. destruct (launchElevationM (cs_snapshot c)); [by eexists | done]. }
  destruct (commanded t "flight.goto") eqn:C2; [by eexists |].
  destruct (commanded t "flight.return_to_launch") eqn:C3; [by eexists |].
  destruct (commanded t "flight.land") eqn:C4; [by eexists |].
  unfold commanded, isFlightCommand in *. by rewrite C1, C2, C3, C4 in Hf.
Qed.

(** The state after a call to the outside. *)
Lemma after_control s r s1 : getControlState s = (r, s1) ->
  engine s1 = engine s /\ history s1 = history s ++ [match r with Ok c => ev_read c | Throw _ => ev_unread end].
Proof. intros E. pose proof (control_law s) as H. by rewrite E in H. Qed.
Lemma after_send m s r s1 : send m s = (r, s1) -> engine s1 = engine s /\ history s1 = history s ++ [ev_sent m (is_ok r)].
Proof. intros E. pose proof (send_law m s) as H. by rewrite E in H. Qed.
Lemma after_start t s r s1 : reportStart t s = (r, s1) -> engine s1 = engine s /\ history s1 = history s ++ [ev_started t (is_ok r)].
Proof. intros E. pose proof (start_law t s) as H. by rewrite E in H. Qed.

Lemma view_is s e h : engine s = e -> history s = h -> view s = mkView e (drop start h).
Proof. by intros <- <-. Qed.

(** A report sent from a state that a move leads to. *)
Lemma report_from c v0 s t o :
  base `prefix_of` history s -> latest (drop start (history s)) = c ->
  rtc move v0 (mkView (new_report t o (engine s)) (drop start (history s))) ->
  lands v0 (reportTerminal t o s) (fun _ => clear c anything).
Proof.
  intros Hl Hc Hv. unfold lands, reportTerminal, bind_eff, upd, modify. set (s1 := set_engine (new_report t o (engine s)) s).
  assert (V : view s1 = mkView (new_report t o (engine s)) (drop start (history s))).
  { apply view_is; unfold s1; [by rewrite engine_set | by rewrite history_set]. }
  destruct (flush_follows c anything s1) as (M & L & Q).
  - unfold s1. by rewrite history_set.
  - by rewrite V.
  - rewrite V in M. split_and!; [by etrans | done | done].
Qed.

Lemma bind_assoc_at {A B C} (m : eff St A) (k : A -> eff St B) (h : B -> eff St C) s :
  bind_eff (bind_eff m k) h s = bind_eff m (fun a => bind_eff (k a) h) s.
Proof. unfold bind_eff. by destruct (m s) as [[a | e] s1]. Qed.

(** The engine of a state after its assignment. *)
Lemma upd_at {A} f (k : eff St A) s : bind_eff (upd f) (fun _ => k) s = k (set_engine (f (engine s)) s).
Proof. done. Qed.

Lemma set_view e s : view (set_engine e s) = mkView e (drop start (history s)).
Proof. apply view_is; [apply engine_set | apply history_set]. Qed.

Lemma latest_app l l' : latest (l ++ l') = foldl (fun c e => match e with ev_read c' => c' | _ => c end) (latest l) l'.
Proof. unfold latest. apply foldl_app. Qed.

(** From the grant on. *)
Lemma execute_follows t c s v0 : isFlightCommand (command t) = true -> base `prefix_of` history s ->
  pendingTerminalReport (engine s) = None ->
  (forall e' new, starts t (engine s) e' (ev_started (taskId t) true :: new) ->
     rtc move v0 (mkView e' (drop start (history s) ++ new))) ->
  lands v0 (execute config t s) (fun r => clear (default c r) anything).
Proof.
  intros Hf Hl Hp Hv. unfold execute, try_catch. unfold bind_eff at 1.
  destruct (getControlState s) as [[cur | err] s1] eqn:Hr; apply after_control in Hr as [E1 H1].
  2: { unfold lands, bind_eff, finish, upd, modify, throw. cbn [fst snd]. rewrite set_view, H1, E1, drop_more by done.
       split_and!; [apply (Hv _ [ev_unread]), start_unreadable | rewrite history_set, H1; by apply prefix_app_r | done]. }
  assert (L1 : base `prefix_of` history s1) by (rewrite H1; by apply prefix_app_r).
  assert (C1 : latest (drop start (history s1)) = cur) by (rewrite H1, drop_more by done; apply latest_snoc).
  destruct (preconditions config t (cs_snapshot cur) (cs_nowMs cur)) as [| p ps] eqn:Hpre.
  - destruct (preconditions_command t cur Hf Hpre) as [m Hm]. unfold dispatch. rewrite upd_at, Hm.
    set (s2 := set_engine _ s1). unfold bind_eff at 1.
    destruct (send m s2) as [[u | err] s3] eqn:Hs; apply after_send in Hs as [E3 H3];
      unfold s2 in E3, H3; rewrite engine_set in E3; rewrite history_set in H3; cbn [is_ok] in H3.
    + unfold lands. cbn [fst snd ret]. rewrite (view_is s3 _ _ E3 H3), E1, H1, <- app_assoc, drop_more by done.
      split_and!; [apply (Hv _ [ev_read cur; ev_sent m true]); by apply start_sent | rewrite H3; by apply prefix_app_r |].
      split; [split; [done |] | done]. cbn [ev]. by rewrite latest_app.
    + rewrite upd_at. unfold finish. rewrite upd_at. set (s4 := set_engine _ (set_engine _ s3)).
      assert (H4 : history s4 = history s1 ++ [ev_sent m false]) by (unfold s4; rewrite !history_set; done).
      assert (E4 : engine s4 = ((engine s1) <| active := Some (new_execution t cur) |> <| active := None |> <| finished ::= add_finished (taskId t) |>)).
      { unfold s4. rewrite !engine_set, E3. done. }
      clearbody s4. destruct (report_from cur v0 s4 (taskId t) (outcome_fail execution_failed (js "Failed to send flight command: " ++ error_message err))) as (M & L & Q).
      * rewrite H4. by apply prefix_app_r.
      * rewrite H4, drop_more by done. by rewrite latest_snoc.
      * rewrite E4, E1, H4, H1, <- app_assoc, drop_more by done. apply (Hv _ [ev_read cur; ev_sent m false]). by apply start_unsent.
      * destruct (reportTerminal _ _ s4) as [[[] | err'] s5]; done.
  - unfold finish. rewrite upd_at. set (s2 := set_engine _ s1). unfold bind_eff at 1.
    assert (H2 : history s2 = history s1) by (unfold s2; by rewrite history_set).
    assert (E2 : engine s2 = ((engine s) <| finished ::= add_finished (taskId t) |>)) by (unfold s2; by rewrite engine_set, E1).
    clearbody s2. destruct (report_from cur v0 s2 (taskId t) (outcome_fail precondition_failed (join_space (p :: ps)))) as (M & L & Q).
    + by rewrite H2.
    + by rewrite H2.
    + rewrite E2, H2, H1, drop_more by done. apply (Hv _ [ev_read cur]), start_forbidden. by rewrite Hpre.
    + destruct (reportTerminal _ _ s2) as [[[] | err'] s5]; done.
Qed.

(** Nothing is active, and no hold is due. *)
Definition idle (k : option ActiveExecution * bool * bool) : Prop := k = (None, false, false).

Lemma adoptNext_follows c :
  follows (clear c idle) (adoptNext config tasks (cs_snapshot c) (cs_nowMs c)) (fun r => clear (default c r) anything).
Proof.
  unfold adoptNext. eapply follows_bind; [apply follows_get |]. intros e0; cbn beta.
  destruct (candidate_of e0 tasks) as [t |] eqn:Hc; [| apply follows_ret; by intros v [[[_ ?] ?] _]].
  apply candidate_eligible in Hc as Ht. destruct (preconditions config t (cs_snapshot c) (cs_nowMs c)) as [| p ps] eqn:Hpre.
  2: { eapply follows_ext; [intros s; apply bind_assoc_at |]. eapply (follows_bind _ _ _ (fun _ => clear c anything)); [| intros []; by apply follows_ret].
       eapply follows_weaken; [apply (reject_follows c anything t); apply Ht | | done].
       intros v [[[_ Hl] Hp] He]. split; [done |]. subst e0. destruct Ht as (_ & _ & _ & Hn). symmetry. by apply bool_decide_eq_false. }
  intros s Hs [[[Hi Hl] Hp] He]. cbn in Hi, Hl, Hp, He. subst e0. injection Hi as H1 H2 H3.
  assert (Start : forall e' new, starts t (engine s) e' new -> rtc move (view s) (mkView e' (drop start (history s) ++ new))).
  { intros e' new Hn. apply move_one, (mv_start _ _ t); try done. by rewrite Hl. }
  unfold try_catch. unfold bind_eff at 1. destruct (reportStart (taskId t) s) as [[u | err] s1] eqn:Hr; apply after_start in Hr as [E1 H4]; cbn [is_ok] in H4.
  - assert (L1 : base `prefix_of` history s1) by (rewrite H4; by apply prefix_app_r).
    apply execute_follows; [apply Ht | done | by rewrite E1 |]. intros e' new Hn. rewrite E1 in Hn.
    rewrite H4, drop_more, <- app_assoc by done. by apply Start.
  - unfold lands. unfold finish. rewrite upd_at, upd_at. cbn [fst snd throw].
    rewrite set_view, !history_set, H4, drop_more, engine_set, E1 by done.
    split_and!; [apply Start, start_refused | by apply prefix_app_r | done].
Qed.

(** The active task is within its limits at the end, unless a hold is due. *)
Definition watched (v : View) : Prop := in_time (latest (ev v)) (en v).

Lemma ingest_work_follows c :
  follows (clear c (fun k => snd (fst k) = false /\ snd k = false)) (ingest_work config tasks c) (fun _ v => watched v).
Proof.
  unfold ingest_work. eapply follows_bind; [apply follows_get |]. intros a; cbn beta.
  eapply (follows_bind _ _ _ (fun c' => clear c' anything)).
  - destruct a as [a |].
    + apply follows_ret. by intros v [[[_ ?] ?] _].
    + eapply (follows_bind _ _ _ (fun r => clear (default c r) anything)).
      * eapply follows_weaken; [apply adoptNext_follows | | by intros r v H; exact H].
        intros v [[[[F1 F2] Hl] Hp] Ha]. split; [split |]; [| done..]. unfold idle. destruct (core (en v)) as [[k1 k2] k3] eqn:K.
        cbn in F1, F2. subst. unfold core in K. injection K as K1 K2 K3. congruence.
      * intros r. apply follows_ret. done.
  - intros c'. eapply follows_weaken; [apply advance_follows | done |]. intros u v [Hw <-]. exact Hw.
Qed.

(** The hold that had to come first, and the control state read after it. *)
Lemma hold_then c' F F' (f : TaskEngine -> TaskEngine) (k : eff St unit) (Q : View -> Prop) :
  (forall e l o, move (mkView e (l ++ [ev_sent (hold_at o) true; ev_read c'])) (mkView (f e) (l ++ [ev_sent (hold_at o) true; ev_read c']))) ->
  (forall e, F (core e) -> pendingTerminalReport e = None -> F' (core (f e)) /\ pendingTerminalReport (f e) = None) ->
  follows (clear c' F') k (fun _ => Q) ->
  follows (fun v => clear c' F v /\ exists l, ev v = l ++ [ev_read c'] /\ exists l' o, l = l' ++ [ev_sent (hold_at o) true])
    (bind_eff (upd f) (fun _ => k)) (fun _ => Q).
Proof.
  intros Hm Hf Hk. apply (follows_assign _ (clear c' F')); [| exact Hk].
  intros e l [[[HF Hl] Hp] (l1 & E & l2 & o & ->)]. cbn in E. destruct (Hf e HF Hp) as [HF' Hp'].
  split; [| done]. subst l. rewrite <- app_assoc. apply move_one, Hm.
Qed.

Lemma ingest_hold_follows c :
  follows (clear c (fun k => snd (fst k) = false)) (ingest_hold config tasks c)
    (fun _ v => watched v \/ holdRequiredBeforeMovement (en v) = true).
Proof.
  unfold ingest_hold. eapply follows_bind; [apply rejectGoto_follows |]. intros u.
  eapply follows_bind; [apply follows_get |]. intros required; cbn beta. destruct (negb required) eqn:Hr.
  { apply negb_true_iff in Hr. eapply follows_weaken; [apply ingest_work_follows | | intros u' v Hv; by left].
    intros v [[[Hf Hl] Hp] He]. split; [split; [split |] |]; try done. cbn. congruence. }
  apply negb_false_iff in Hr. subst required. set (due := fun k : option ActiveExecution * bool * bool => snd (fst k) = false /\ snd k = true).
  apply (follows_weaken (clear c due) _ _ (fun _ v => watched v \/ holdRequiredBeforeMovement (en v) = true));
    [| intros v [[[Hf Hl] Hp] He]; split; [split; [split |] |]; try done; cbn; congruence | done].
  eapply follows_bind.
  { eapply follows_weaken; [apply (getControl_follows c due (fun _ => True)) | by intros v ? |]. intros c1 v [H _]. exact H. }
  intros c1. eapply follows_bind; [apply hold_clear |]. intros b; cbn beta.
  destruct b; cbn [negb]; [| apply follows_ret; intros v [[[[_ H] _] _] _]; by right].
  eapply follows_bind.
  { eapply follows_weaken; [apply (getControl_follows c1 due (fun l => exists l' o, l = l' ++ [ev_sent (hold_at o) true])) | |].
    - intros v [H Hh]. split; [done |]. by apply Hh.
    - intros c2 v H. exact H. }
  intros c2. eapply (hold_then c2 _ _ _ _ (fun v => watched v \/ holdRequiredBeforeMovement (en v) = true));
    [intros; apply mv_moved | | eapply follows_weaken; [apply ingest_work_follows | intros v H; exact H | intros u' v Hv; by left]].
  intros e [Hf _] Hp. done.
Qed.
End follows.

(** A round makes moves only, and what happens in it is added to what happened
    before; when it returns, a hold is due or the active task is within its
    limits. *)
Theorem ingest_moves {St : Type} {host : EngineHost St} {laws : EngineHostLaws St} (s : St) :
  let r := ingest config tasks (cs_snapshot given) (cs_nowMs given) s in
  exists l, history (snd r) = history s ++ l /\ rtc move (mkView (engine s) []) (mkView (engine (snd r)) l) /\
    (is_ok (fst r) = true -> flagged (engine (snd r)) \/ in_time (latest l) (engine (snd r))).
Proof.
  cbn zeta. set (base := history s). set (Q := fun v => flagged (en v) \/ watched v).
  assert (F : follows base (fun v => ev v = []) (ingest config tasks (cs_snapshot given) (cs_nowMs given)) (fun _ => Q)).
  { unfold ingest, reconcileAuthoritative. apply (follows_assign base _ (held given anything)).
    { intros e l E. cbn in E. subst l. split; [apply move_one, mv_reconcile | done]. }
    eapply follows_bind; [apply flush_follows |]. intros u1. eapply follows_bind; [apply observeMode_follows |]. intros u2.
    eapply follows_bind; [apply follows_get |]. intros rehold; cbn beta. destruct (negb rehold) eqn:Hr.
    { apply negb_true_iff in Hr. destruct given. eapply follows_weaken; [apply ingest_hold_follows | |].
      - intros v [[[_ Hl] Hp] He]. split; [split |]; try done. cbn. congruence.
      - intros u v [H | H]; [by right | left; by right]. }
    apply negb_false_iff in Hr. subst rehold. set (due := fun k : option ActiveExecution * bool * bool => snd (fst k) = true).
    apply (follows_weaken base (clear given due) _ _ (fun _ => Q));
      [| intros v [[[_ Hl] Hp] He]; split; [split |]; try done; cbn; congruence | done].
    assert (Due : forall c v, clear c due v -> Q v) by (intros c v [[H _] _]; left; by left).
    destruct (negb (guided (cs_snapshot given))).
    { eapply follows_weaken; [apply (rejectPending_follows base given due) | by intros v ? | intros u v; apply Due]. }
    eapply follows_bind; [apply (hold_clear base given due) |].
    intros b; cbn beta. destruct b; cbn [negb]; [| apply follows_ret; intros v [H _]; by eapply Due].
    eapply follows_bind.
    { eapply follows_weaken; [apply (getControl_follows base given due (fun l => exists l' o, l = l' ++ [ev_sent (hold_at o) true])) | |].
      - intros v [H Hh]. split; [done |]. by apply Hh.
      - intros c2 v H. exact H. }
    intros c2. eapply (hold_then base c2 _ _ _ _ Q);
      [intros; apply mv_held | | eapply follows_weaken; [apply ingest_hold_follows | intros v H; exact H |]].
    - intros e Hf Hp. done.
    - intros u v [H | H]; [by right | left; by right]. }
  destruct (F s) as (M & [l L] & K); [done | unfold view; cbn; unfold base; by rewrite drop_all |].
  exists l. split; [exact L |]. unfold view in M, K. rewrite L in M. unfold base in M. rewrite drop_all, drop_app_length in M.
  split; [exact M |]. destruct (ingest config tasks (cs_snapshot given) (cs_nowMs given) s) as [[u | err] s']; [| done]. intros _.
  unfold Q, watched in K. cbn [en ev snd] in *. by rewrite L, drop_app_length in K.
Qed.
End moves.
