(* ===== verification/TaskEngineKeeps.v ===== *)
(** * The task engine: what a round keeps of its host

    A relation between the states of the host that every call of the engine
    keeps, and every change of the engine itself, is kept by a round. *)

From Stdlib Require Import ZArith Lia String.
From stdpp Require Import base list option relations.
From S2P Require Import Prelude JsMap Json Contract JsState Doubles AssetConfig Vehicle MavCommands TaskEngine.

Open Scope string_scope.
Open Scope list_scope.
Open Scope Z_scope.

Lemma keeps_caught {S A} (R : S -> S -> Prop) `{!Transitive R} (m : eff S A) (handler : js_error -> eff S A) :
  keeps R m -> (forall e, keeps R (handler e)) -> keeps R (try_catch m handler).
Proof.
  intros Hm Hh s. unfold try_catch. specialize (Hm s). destruct (m s) as [[a | e] s']; [exact Hm |].
  etrans; [exact Hm | apply Hh].
Qed.

Lemma keeps_raise {S A} (R : S -> S -> Prop) `{!Reflexive R} e : keeps R (throw (A := A) e).
Proof. by intros s. Qed.

(** Along the shape of a program. *)
Ltac keeps_shape :=
  repeat match goal with
  | |- keeps _ (bind_eff _ _) => apply keeps_bind; [try apply _ | | intro]
  | |- keeps _ (try_catch _ _) => apply keeps_caught; [try apply _ | | intro]
  | |- keeps _ (for_each _ _) => apply keeps_for_each; [try apply _ | intros ? ?]
  | |- keeps _ (ret _) => apply keeps_ret; apply _
  | |- keeps _ (throw _) => apply keeps_raise; apply _
  | |- keeps _ (lift _) => apply keeps_lift; apply _
  | |- keeps _ (gets _) => apply keeps_gets; apply _
  | |- keeps _ (if ?b then _ else _) => destruct b
  | |- keeps _ (match ?x with Some _ => _ | None => _ end) => destruct x
  | |- keeps _ (match ?x with [] => _ | _ :: _ => _ end) => destruct x
  | |- keeps _ (let '(_, _) := ?x in _) => destruct x
  end.

Section keeps.
Context {dialect : MavLinkDialect} {math : MathFunctions} (config : AssetConfig).
Context {St : Type} {host : EngineHost St} (R : St -> St -> Prop) {pre : PreOrder R}.
Context (set_kept : forall e s, R s (set_engine e s)) (send_kept : forall m, keeps R (send m)).
Context (start_kept : forall t, keeps R (reportStart t)) (complete_kept : forall t, keeps R (reportComplete t)).
Context (fail_kept : forall t code message, keeps R (reportFail t code message)) (control_kept : keeps R getControlState).

Lemma upd_kept f : keeps R (upd f).
Proof. intros s. apply set_kept. Qed.

Lemma get_kept {A} (f : TaskEngine -> A) : keeps R (get f).
Proof. by intros s. Qed.

#[local] Hint Resolve send_kept start_kept complete_kept fail_kept control_kept upd_kept get_kept : keeps.

Ltac kept := keeps_shape; try (unfold finish); auto with keeps.

Lemma flush_kept : keeps R flushTerminalReport.
Proof. unfold flushTerminalReport. kept. by destruct (outcome _); auto with keeps. Qed.
#[local] Hint Resolve flush_kept : keeps.

Lemma report_kept t o : keeps R (reportTerminal t o).
Proof. unfold reportTerminal. kept. Qed.
#[local] Hint Resolve report_kept : keeps.

Lemma hold_kept s now : keeps R (establishHold config s now).
Proof. unfold establishHold. kept. Qed.
#[local] Hint Resolve hold_kept : keeps.

Lemma dispatch_kept t s : keeps R (dispatch config t s).
Proof. unfold dispatch. kept. Qed.
#[local] Hint Resolve dispatch_kept : keeps.

Lemma takeover_kept m : keeps R (noteTakeover m).
Proof. unfold noteTakeover. kept. Qed.
#[local] Hint Resolve takeover_kept : keeps.

Lemma observe_kept s : keeps R (observeMode s).
Proof. unfold observeMode. kept. Qed.
#[local] Hint Resolve observe_kept : keeps.

Lemma execute_kept t : keeps R (execute config t).
Proof. unfold execute. kept. Qed.
#[local] Hint Resolve execute_kept : keeps.

Lemma adopt_kept tasks s now : keeps R (adoptNext config tasks s now).
Proof. unfold adoptNext. kept. Qed.
#[local] Hint Resolve adopt_kept : keeps.

Lemma failActive_kept code text s now : keeps R (failActive config code text s now).
Proof. unfold failActive. kept. Qed.
#[local] Hint Resolve failActive_kept : keeps.

Lemma advance_kept s now : keeps R (advance config s now).
Proof. unfold advance. kept. Qed.
#[local] Hint Resolve advance_kept : keeps.

Lemma goto_kept tasks : keeps R (rejectGotoDuringTakeoff tasks).
Proof. unfold rejectGotoDuringTakeoff. kept. Qed.
#[local] Hint Resolve goto_kept : keeps.

Lemma pending_kept tasks s now : keeps R (rejectPendingOutsideGuided config tasks s now).
Proof. unfold rejectPendingOutsideGuided. kept. Qed.
#[local] Hint Resolve pending_kept : keeps.

Lemma work_kept tasks c : keeps R (ingest_work config tasks c).
Proof. unfold ingest_work. kept. Qed.
#[local] Hint Resolve work_kept : keeps.

Lemma round_hold_kept tasks c : keeps R (ingest_hold config tasks c).
Proof. unfold ingest_hold. kept. Qed.
#[local] Hint Resolve round_hold_kept : keeps.

Lemma ingest_kept tasks s now : keeps R (ingest config tasks s now).
Proof. unfold ingest, reconcileAuthoritative. kept. Qed.

Lemma abandon_kept rehold : keeps R (abandonActiveForRecovery rehold).
Proof. unfold abandonActiveForRecovery. kept. Qed.
End keeps.
