(* ===== verification/TaskEngineFacts.v ===== *)
(** * The task engine: what its rounds keep

    Commands are sent under authority only, a task is started once, no outcome
    is lost, a hold comes first after a takeover, and a task is complete when
    the aircraft is there. *)

From Stdlib Require Import ZArith Lia String.
From stdpp Require Import base list option relations.
From S2P Require Import Prelude JsMap Json Contract JsState Doubles AssetConfig Vehicle MavCommands TaskEngine TaskEngineMoves.

Open Scope string_scope.
Open Scope list_scope.
Open Scope Z_scope.

#[local] Opaque n_lit n_of_Z n_add n_sub n_mul n_div n_abs SFltb SFleb.

Section facts.
Context {dialect : MavLinkDialect} {math : MathFunctions} (config : AssetConfig).

(** ** One round *)

Section round.
Context (tasks : list AuthoritativeTask) (given : ControlState).

Abbreviation moves := (move config tasks given).

(** What the moves of a round keep. *)
Lemma moves_keep (I : View -> Prop) v v' : (forall x y, moves x y -> I x -> I y) -> rtc moves v v' -> I v -> I v'.
Proof. intros H Hr. induction Hr; eauto. Qed.

(** *** Authority *)

(** A command Atlas may send at all: it moves or brings down, never arms, never
    changes the mode. *)
Definition flies (m : MavLinkData) : Prop :=
  match m with
  | m_command c => cl_command c ∈ [MavCmd_NAV_TAKEOFF; MavCmd_NAV_RETURN_TO_LAUNCH; MavCmd_NAV_LAND]
  | m_position p => typeMask p = POSITION_ONLY_TYPE_MASK
  | _ => False
  end.

(** Why a command is sent after the events [l] of a round: in Guided mode and
    with fresh telemetry at the control state read last, and as a hold of the
    position, as a landing in the air, or as the command of a task that was just
    granted and whose preconditions hold in that state. *)
Definition authorized (l : list EngineEvent) (m : MavLinkData) : Prop :=
  let c := latest given l in
  guided (cs_snapshot c) = true /\ fresh_control c = true /\
  ((exists o, observation (cs_snapshot c) = Some o /\ m = hold_at config o) \/
   (exists o, observation (cs_snapshot c) = Some o /\ armed (cs_snapshot c) = true /\
      (n_lit 1 2 < n_abs (relativeAltitudeM o))%num = true /\ m = land_now config) \/
   (exists t l0, t ∈ tasks /\ actionable (status t) = true /\ l = l0 ++ [ev_started (taskId t) true; ev_read c] /\
      preconditions config t (cs_snapshot c) (cs_nowMs c) = [] /\ task_command config t (cs_snapshot c) = Some m)).

Definition sends_authorized (l : list EngineEvent) : Prop :=
  forall l1 m ok l2, l = l1 ++ ev_sent m ok :: l2 -> authorized l1 m.

Lemma snoc_cases {A} (l l1 l2 : list A) x y : l ++ [x] = l1 ++ y :: l2 ->
  (l1 = l /\ y = x /\ l2 = []) \/ exists l3, l = l1 ++ y :: l3 /\ l2 = l3 ++ [x].
Proof.
  destruct l2 as [| z l2 _] using rev_ind; intros E.
  - left. by apply app_inj_tail in E as [-> ->].
  - right. exists l2. rewrite app_comm_cons, app_assoc in E. by apply app_inj_tail in E as [-> ->].
Qed.

Lemma sends_snoc l e : sends_authorized l -> (forall m ok, e = ev_sent m ok -> authorized l m) -> sends_authorized (l ++ [e]).
Proof.
  intros H He l1 m ok l2 [(-> & E & ->) | (l3 & -> & ->)]%snoc_cases; [by eapply He | by eapply H].
Qed.

Lemma preconditions_control t c : preconditions config t (cs_snapshot c) (cs_nowMs c) = [] ->
  guided (cs_snapshot c) = true /\ fresh_control c = true.
Proof.
  unfold preconditions. intros [H1 [_ [H3 _]%app_nil]%app_nil]%app_nil.
  apply problem_nil, negb_false_iff in H1. by apply problem_nil, negb_false_iff in H3.
Qed.

Lemma snoc_twice {A} (l : list A) a b : l ++ [a; b] = (l ++ [a]) ++ [b].
Proof. by rewrite <- app_assoc. Qed.
Lemma snoc_thrice {A} (l : list A) a b c : l ++ [a; b; c] = ((l ++ [a]) ++ [b]) ++ [c].
Proof. by rewrite <- !app_assoc. Qed.

Lemma move_sends v v' : moves v v' -> sends_authorized (ev v) -> sends_authorized (ev v').
Proof.
  destruct 1 as [| | | | | | e l o ok [Ho [Hg Hf]] | e l o ok [Ho [Hg Hf]] Ha Hr | | | | | e l t e' new _ _ _ _ (Hin & _ & Ha & _) Hp Hn | | |];
    cbn [ev]; intros Hs; try exact Hs; try (apply sends_snoc; [done |]; intros m k [=]; subst).
  - unfold authorized. split_and!; [done.. |]. left. by exists o.
  - unfold authorized. split_and!; [done.. |]. right; left. by exists o.
  - assert (Sent : forall c m k, preconditions config t (cs_snapshot c) (cs_nowMs c) = [] -> task_command config t (cs_snapshot c) = Some m ->
      forall m' k', ev_sent m k = ev_sent m' k' -> authorized ((l ++ [ev_started (taskId t) true]) ++ [ev_read c]) m').
    { intros c m k Hc Hm m' k' [=]; subst. unfold authorized. rewrite latest_snoc.
      destruct (preconditions_control t c Hc) as [G F]. split_and!; [done.. |]. right; right. exists t, l.
      rewrite <- app_assoc. done. }
    destruct Hn as [text | | c text Hp' | c m Hp' Hm | c m text Hp' Hm]; rewrite ?snoc_twice, ?snoc_thrice.
    all: repeat (apply sends_snoc; [| intros m' k' E; first [discriminate E | by eapply Sent]]); done.
Qed.

Lemma command_flies a b c : c ∈ [MavCmd_NAV_TAKEOFF; MavCmd_NAV_RETURN_TO_LAUNCH; MavCmd_NAV_LAND] -> flies (m_command (commandLong a b c)).
Proof. done. Qed.

Lemma land_flies : flies (land_now config).
Proof. apply command_flies. do 2 right. by left. Qed.

Lemma task_command_flies t s m : task_command config t s = Some m -> flies m.
Proof.
  unfold task_command.
  destruct (commanded t "flight.takeoff").
  { destruct (numberInput t "altitude_m"); [| done]. destruct (launchElevationM s); [| done]. intros [= <-]. by left. }
  destruct (commanded t "flight.goto"); [destruct (observation s); [| done]; by intros [= <-] |].
  destruct (commanded t "flight.return_to_launch"); [intros [= <-]; right; by left |].
  destruct (commanded t "flight.land"); [intros [= <-]; apply land_flies | done].
Qed.

Lemma authorized_flies l m : authorized l m -> flies m.
Proof.
  intros (_ & _ & [(o & _ & ->) | [(o & _ & _ & _ & ->) | (t & l0 & _ & _ & _ & _ & H)]]); [done | apply land_flies | by eapply task_command_flies].
Qed.

Context {St : Type} {host : EngineHost St} {laws : EngineHostLaws St}.

Abbreviation round := (ingest config tasks (cs_snapshot given) (cs_nowMs given)).

(** C9: every command a round sends, it sends in Guided mode and with fresh
    telemetry in the control state read last, for one of three reasons: to hold
    the position, to land from the air, or for a task whose start Core has just
    granted and whose preconditions hold in the state read after the grant.  It
    never arms and never changes the mode. *)
Theorem commands_authorized (s : St) l1 m ok l2 :
  history (snd (round s)) = history s ++ l1 ++ ev_sent m ok :: l2 -> authorized l1 m /\ flies m.
Proof.
  intros E. destruct (ingest_moves config tasks given s) as (l & El & M & _). rewrite E in El. apply app_inv_head in El.
  assert (A : sends_authorized l).
  { apply (moves_keep (fun v => sends_authorized (ev v)) _ _ move_sends M). intros [] ? ? ?; done. }
  specialize (A l1 m ok l2 (eq_sym El)). split; [done | by eapply authorized_flies].
Qed.

(** *** What becomes of tasks *)

Lemma byId_id k t : jget k (byId tasks) = Some t -> t ∈ tasks /\ taskId t = k.
Proof.
  unfold byId. assert (G : forall l m, (forall k t, jget k m = Some t -> t ∈ tasks /\ taskId t = k) -> (forall t, t ∈ l -> t ∈ tasks) ->
    forall k t, jget k (foldl (fun m t => jset (taskId t) t m) m l) = Some t -> t ∈ tasks /\ taskId t = k).
  { induction l as [| x l IH]; intros m Hm Hl; [done |]. cbn. apply IH; [| intros; apply Hl; by right].
    intros k' t'. rewrite jget_jset. case_decide; [intros [= <-]; subst; split; [apply Hl; by left | done] | apply Hm]. }
  apply G; [by intros ? ? ? | done].
Qed.

(** Core tells that a task is over. *)
Definition told (id : list Z) : Prop := exists t, t ∈ tasks /\ taskId t = id /\ terminal (status t) = true.

Lemma elem_add_finished id x l : id ∈ add_finished x l <-> id = x \/ id ∈ l.
Proof.
  unfold add_finished. case_bool_decide as E; [| rewrite elem_of_app, list_elem_of_singleton; tauto].
  split; [by right | by intros [-> |]].
Qed.

Lemma finish_terminal_core e : active (finish_terminal tasks e) = active e /\ reholdOnGuided (finish_terminal tasks e) = reholdOnGuided e /\
  holdRequiredBeforeMovement (finish_terminal tasks e) = holdRequiredBeforeMovement e /\
  pendingTerminalReport (finish_terminal tasks e) = pendingTerminalReport e.
Proof.
  unfold finish_terminal. generalize tasks as l. intros l. revert e. induction l as [| t l IH]; intros e; [done |]. cbn [foldl].
  destruct (IH (if terminal (status t) then e <| finished ::= add_finished (taskId t) |> else e)) as (A & B & C & D).
  rewrite A, B, C, D. by destruct (terminal (status t)).
Qed.

Lemma finish_terminal_finished e id : id ∈ finished (finish_terminal tasks e) <-> id ∈ finished e \/ told id.
Proof.
  unfold finish_terminal, told. generalize tasks as l. intros l. revert e. induction l as [| t l IH]; intros e; cbn [foldl].
  { split; [by left |]. intros [? | (t & Ht & _)]; [done | by apply elem_of_nil in Ht]. }
  rewrite IH. split.
  - intros [H | (t' & H1 & H2 & H3)]; [| right; exists t'; split; [by right | done]].
    destruct (terminal (status t)) eqn:Ht; [| by left]. apply elem_add_finished in H as [-> | H]; [right | by left].
    exists t. split; [by left | done].
  - intros [H | (t' & [-> | H1]%elem_of_cons & H2 & H3)].
    + left. destruct (terminal (status t)); [apply elem_add_finished; by right | done].
    + left. rewrite H3. apply elem_add_finished. left. done.
    + right. by exists t'.
Qed.

(** What reconciliation makes of the active task. *)
Lemma reconcile_active_cases e :
  let e' := reconcile_active tasks e in
  pendingTerminalReport e' = pendingTerminalReport e /\
  (reholdOnGuided e' = reholdOnGuided e /\ (holdRequiredBeforeMovement e = true -> holdRequiredBeforeMovement e' = true)) /\
  ((active e = None /\ e' = e) \/
   (exists a, active e = Some a /\ finished e' = finished e /\ holdRequiredBeforeMovement e' = holdRequiredBeforeMovement e /\
      exists a', active e' = Some a' /\ taskId (task a') = taskId (task a) /\ startedAtMs a' = startedAtMs a) \/
   (exists a, active e = Some a /\ active e' = None /\ told (taskId (task a)) /\
      forall id, id ∈ finished e' <-> id = taskId (task a) \/ id ∈ finished e)).
Proof.
  cbn zeta. unfold reconcile_active. destruct (active e) as [a |] eqn:Ha; [| by split_and!; [| | | left]].
  destruct (jget (taskId (task a)) (byId tasks)) as [t |] eqn:Ht.
  2: { split_and!; [done.. |]. right; left. exists a. split_and!; [done.. |]. by exists a. }
  apply byId_id in Ht as [Hin Hid]. destruct (terminal (status t)) eqn:E.
  - split; [by destruct (_ && _ && _) |]. split; [by destruct (_ && _ && _) |]. right; right. exists a. split; [done |].
    split; [by destruct (_ && _ && _) |]. split; [by exists t |]. intros id. rewrite <- Hid.
    etrans; [| apply elem_add_finished]. by destruct (_ && _ && _).
  - split_and!; [done.. |]. right; left. exists a. split_and!; [done.. |]. exists (a <| task := t |>). done.
Qed.

Lemma reconcile_report_cases e : reconcile_report tasks e = e \/
  (exists r, pendingTerminalReport e = Some r /\ told (tr_taskId r) /\ reconcile_report tasks e = e <| pendingTerminalReport := None |>).
Proof.
  unfold reconcile_report. destruct (pendingTerminalReport e) as [r |] eqn:Hr; [| by left].
  destruct (jget (tr_taskId r) (byId tasks)) as [t |] eqn:Ht; [| by left]. destruct (terminal (status t)) eqn:E; [| by left].
  right. exists r. apply byId_id in Ht as [Hin Hid]. split_and!; [done | by exists t | done].
Qed.

(** *** Started once *)

Definition started (l : list EngineEvent) : list (list Z) :=
  omap (fun e => match e with ev_started t _ => Some t | _ => None end) l.

(** The engine knows of a task: it runs, or is done with. *)
Definition covered (e : TaskEngine) (t : list Z) : Prop := t ∈ finished e \/ activeTaskId e = Some t.

Record started_once (before : list EngineEvent) (v : View) : Prop := {
  so_once : NoDup (started (before ++ ev v));
  so_covered : forall t, t ∈ started (before ++ ev v) -> covered (en v) t
}.

Lemma started_app a b : started (a ++ b) = started a ++ started b.
Proof. apply omap_app. Qed.

(** A move that starts nothing, and forgets nothing. *)
Lemma started_same before e l e' l' : started l' = started l -> (forall t, covered e t -> covered e' t) ->
  started_once before (mkView e l) -> started_once before (mkView e' l').
Proof.
  intros E Hc []. cbn in *. rewrite started_app in *. split; cbn; rewrite started_app, E; [done |]. eauto.
Qed.

Lemma covered_drop e e' id : active e' = None -> (forall t, t ∈ finished e' <-> t = id \/ t ∈ finished e) -> activeTaskId e = Some id ->
  forall t, covered e t -> covered e' t.
Proof. intros Ha Hf Hi t [H | H]; left; apply Hf; [by right | left; congruence]. Qed.

Lemma covered_more e e' : active e' = active e -> (forall t, t ∈ finished e -> t ∈ finished e') -> forall t, covered e t -> covered e' t.
Proof. intros Ha Hf t [H | H]; [left; auto | right]. unfold activeTaskId in *. by rewrite Ha. Qed.

Lemma covered_reconcile e t : covered e t -> covered (finish_terminal tasks (reconcile_active tasks (reconcile_report tasks e))) t.
Proof.
  intros Hc. assert (covered (reconcile_report tasks e) t) as H1.
  { destruct (reconcile_report_cases e) as [-> | (r & _ & _ & ->)]; done. }
  generalize dependent (reconcile_report tasks e). intros e1 H1.
  assert (covered (reconcile_active tasks e1) t) as H2.
  { destruct (reconcile_active_cases e1) as (_ & _ & [(_ & ->) | [(a & Ha & Hf & _ & a' & Ha' & Hid & _) | (a & Ha & Hn & _ & Hf)]]); [done | |].
    - destruct H1 as [H | H]; [left; by rewrite Hf | right]. unfold activeTaskId in *. rewrite Ha in H. rewrite Ha'. cbn in *. congruence.
    - eapply (covered_drop e1); [done | exact Hf | unfold activeTaskId; by rewrite Ha | done]. }
  destruct (finish_terminal_core (reconcile_active tasks e1)) as (Ha & _). destruct H2 as [H | H].
  - left. apply finish_terminal_finished. by left.
  - right. unfold activeTaskId in *. by rewrite Ha.
Qed.

Lemma move_started before v v' : moves v v' -> started_once before v -> started_once before v'.
Proof.
  intros M. destruct M as [e | e l m | e l a mode text Ha | e l r ok Hr | e l r Hr | e l t text Ht Hp | e l o ok Ho | e l o ok Ho | e l c | e l
    | e l o c | e l o c | e l t e' new Ha _ _ Hp (_ & _ & _ & Hn) _ Hs | e l a a' Ha Hid | e l a text Ha | e l a0 a Ha].
  all: try (apply started_same; [by rewrite ?started_app, ?app_nil_r |]).
  all: try (intros id Hc; exact Hc).
  - apply covered_reconcile.
  - apply (covered_drop _ _ (taskId (task a))); [done | intros; apply elem_add_finished | unfold activeTaskId; by rewrite Ha].
  - apply covered_more; [done |]. intros id Hc. apply elem_add_finished. by right.
  - intros [H1 H2]. cbn in H1, H2.
    assert (Fresh : taskId t ∉ started (before ++ l)).
    { intros Hin. destruct (H2 _ Hin) as [K | K]; [done |]. unfold activeTaskId in K. by rewrite Ha in K. }
    assert (New : started new = [taskId t] /\ covered e' (taskId t) /\ forall id, covered e id -> covered e' id).
    { assert (Add : forall id, id ∈ finished e -> id ∈ add_finished (taskId t) (finished e)) by (intros; apply elem_add_finished; by right).
      assert (Self : taskId t ∈ add_finished (taskId t) (finished e)) by (apply elem_add_finished; by left).
      destruct Hs; (split; [done |]); (split; [try (by left); by right |]); intros id [K | K];
        try (left; by apply Add); try (unfold activeTaskId in K; by rewrite Ha in K). by left. }
    destruct New as (N1 & N2 & N3). split; cbn; rewrite app_assoc, started_app, N1.
    + apply list.NoDup_app. split_and!; [done | | by apply NoDup_singleton]. intros x Hx ->%list_elem_of_singleton. done.
    + intros id [Hi | ->%list_elem_of_singleton]%elem_of_app; [apply N3, H2, Hi | done].
  - intros id [K | K]; [by left | right]. unfold activeTaskId in *. rewrite Ha in K. cbn in *. congruence.
  - apply (covered_drop _ _ (taskId (task a))); [done | intros; apply elem_add_finished | unfold activeTaskId; by rewrite Ha].
  - apply (covered_drop _ _ (taskId (task a))); [done | intros; apply elem_add_finished | unfold activeTaskId; by rewrite Ha].
Qed.

(** *** No outcome is lost *)

(** The outcome of a task, if the engine has one, is out, or due, or known to
    Core; or the start was granted and the control state could not be read. *)
Definition reported (l : list EngineEvent) (id : list Z) : Prop := exists o, ev_reported id o true ∈ l.
Definition due (e : TaskEngine) (id : list Z) : Prop := tr_taskId <$> pendingTerminalReport e = Some id.
Definition lost_start (l : list EngineEvent) (id : list Z) : Prop := exists l1 l2, l = l1 ++ ev_started id true :: ev_unread :: l2.

Definition accounted (e : TaskEngine) (l : list EngineEvent) (id : list Z) : Prop :=
  reported l id \/ due e id \/ told id \/ lost_start l id.

Definition outcomes_kept (e0 : TaskEngine) (v : View) : Prop :=
  forall id, ((id ∈ finished (en v) /\ id ∉ finished e0) \/ due e0 id) -> accounted (en v) (ev v) id.

Lemma accounted_more e l e' l' id : (due e id -> accounted e' (l ++ l') id) -> accounted e l id -> accounted e' (l ++ l') id.
Proof.
  intros Hd [(o & Ho) | [H | [H | (l1 & l2 & ->)]]]; [| by apply Hd | by do 2 right; left |].
  - left. exists o. apply elem_of_app. by left.
  - do 3 right. exists l1, (l2 ++ l'). by rewrite <- app_assoc.
Qed.

Lemma accounted_same e l e' id : (due e id -> accounted e' l id) -> accounted e l id -> accounted e' l id.
Proof. intros Hd H. rewrite <- (app_nil_r l). eapply accounted_more; [| exact H]. rewrite app_nil_r. exact Hd. Qed.

(** A move that finishes only [id0], which it accounts for. *)
Lemma kept_step e0 e l e' l' id0 :
  (forall id, id ∈ finished e' -> id = id0 \/ id ∈ finished e) -> accounted e' (l ++ l') id0 ->
  (forall id, due e id -> accounted e' (l ++ l') id) ->
  outcomes_kept e0 (mkView e l) -> outcomes_kept e0 (mkView e' (l ++ l')).
Proof.
  intros Hf H0 Hd H id Hid. cbn in *.
  assert (id = id0 \/ ((id ∈ finished e /\ id ∉ finished e0) \/ due e0 id)) as [-> | Hk].
  { destruct Hid as [[H1 H2] | ?]; [| by do 2 right]. destruct (Hf _ H1) as [-> | ?]; [by left | by right; left]. }
  - done.
  - eapply accounted_more; [apply Hd | by apply H].
Qed.

(** One that finishes nothing. *)
Lemma kept_same e0 e l e' l' :
  (forall id, id ∈ finished e' -> id ∈ finished e) -> (forall id, due e id -> accounted e' (l ++ l') id) ->
  outcomes_kept e0 (mkView e l) -> outcomes_kept e0 (mkView e' (l ++ l')).
Proof.
  intros Hf Hd H id Hid. cbn in *. eapply accounted_more; [apply Hd |]. apply H. destruct Hid as [[H1 H2] | ?]; [left | by right].
  split; [by apply Hf | done].
Qed.

(** Moves without an event. *)
Lemma kept_step_quiet e0 e l e' id0 :
  (forall id, id ∈ finished e' -> id = id0 \/ id ∈ finished e) -> accounted e' l id0 -> (forall id, due e id -> accounted e' l id) ->
  outcomes_kept e0 (mkView e l) -> outcomes_kept e0 (mkView e' l).
Proof. intros Hf H0 Hd. rewrite <- (app_nil_r l) at 2. apply (kept_step _ _ _ _ _ id0); by rewrite ?app_nil_r. Qed.

Lemma kept_same_quiet e0 e l e' :
  (forall id, id ∈ finished e' -> id ∈ finished e) -> (forall id, due e id -> accounted e' l id) ->
  outcomes_kept e0 (mkView e l) -> outcomes_kept e0 (mkView e' l).
Proof. intros Hf Hd. rewrite <- (app_nil_r l) at 2. apply kept_same; by rewrite ?app_nil_r. Qed.

Lemma not_due e id : pendingTerminalReport e = None -> ~ due e id.
Proof. unfold due. by intros ->. Qed.

Lemma due_new t o e : due (new_report t o e) t.
Proof. done. Qed.

Lemma finished_add id0 e id : id ∈ finished (e <| finished ::= add_finished id0 |>) -> id = id0 \/ id ∈ finished e.
Proof. apply elem_add_finished. Qed.

Lemma move_outcomes e0 v v' : moves v v' -> outcomes_kept e0 v -> outcomes_kept e0 v'.
Proof.
  intros M. destruct M as [e | e l m | e l a mode text Ha _ Hp | e l r ok Hr | e l r Hr | e l t text Ht Hp | e l o ok Ho | e l o ok Ho | e l c | e l
    | e l o c | e l o c | e l t e' new Ha _ _ Hp (_ & _ & _ & Hn) _ Hs | e l a a' Ha Hid | e l a text Ha Hp | e l a0 a Ha Hp].
  all: try (apply kept_same; [done | by intros id Hd; right; left]).
  all: try (apply kept_same_quiet; [done | by intros id Hd; right; left]).
  all: try (apply (kept_step_quiet _ _ _ _ (taskId (task a)));
            [intros id; apply elem_add_finished | right; left; apply due_new | by intros id Hd%not_due]).
  - intros Hk id Hid. cbn in *.
    destruct (reconcile_active_cases (reconcile_report tasks e)) as (Hp & _ & Hc).
    destruct (finish_terminal_core (reconcile_active tasks (reconcile_report tasks e))) as (_ & _ & _ & Hp').
    assert (Keep : due e id -> accounted (finish_terminal tasks (reconcile_active tasks (reconcile_report tasks e))) [] id).
    { intros Hd. destruct (reconcile_report_cases e) as [E | (r & Hr & Ht & _)].
      - right; left. unfold due. by rewrite Hp', Hp, E.
      - do 2 right; left. unfold due in Hd. rewrite Hr in Hd. cbn in Hd. by injection Hd as <-. }
    destruct Hid as [[H1 H2] | Hd].
    + apply finish_terminal_finished in H1 as [H1 | H1]; [| by do 2 right; left].
      assert (F : finished (reconcile_report tasks e) = finished e) by (destruct (reconcile_report_cases e) as [-> | (? & _ & _ & ->)]; done).
      assert (id ∈ finished e \/ told id) as [K | K]; [| | by do 2 right; left].
      { destruct Hc as [(_ & E) | [(a & _ & E & _) | (a & _ & _ & Ht & E)]].
        - left. by rewrite <- F, <- E.
        - left. by rewrite <- F, <- E.
        - apply E in H1 as [-> | H1]; [by right | left]. by rewrite <- F. }
      eapply accounted_same; [exact Keep |]. apply Hk. by left.
    + eapply accounted_same; [exact Keep |]. apply Hk. by right.
  - apply kept_same_quiet; [done |]. intros id Hd. left.
    unfold due in Hd. rewrite Hr in Hd. injection Hd as <-. exists (outcome r). apply elem_of_app. right. by left.
  - apply (kept_step_quiet _ _ _ _ (taskId t)); [apply finished_add | right; left; apply due_new | by intros id Hd%not_due].
  - destruct Hs as [text | | c text Hp' | c m Hp' Hm | c m text Hp' Hm].
    + apply (kept_step _ _ _ _ _ (taskId t)); [apply finished_add | right; left; apply due_new | by intros id Hd%not_due].
    + apply (kept_step _ _ _ _ _ (taskId t)); [apply finished_add | do 3 right; by exists l, [] | by intros id Hd%not_due].
    + apply (kept_step _ _ _ _ _ (taskId t)); [apply finished_add | right; left; apply due_new | by intros id Hd%not_due].
    + apply kept_same; [done | by intros id Hd%not_due].
    + apply (kept_step _ _ _ _ _ (taskId t)); [intros id; apply elem_add_finished | right; left; apply due_new | by intros id Hd%not_due].
Qed.

(** C12: no outcome is lost: after a round, every task the engine became done
    with in it, and every report that was due before it, was reported to Core,
    or is due still, or is over in Core's own list; the one exception is a task
    whose start was granted when the control state could not be read. *)
Theorem outcomes_are_kept (s : St) id :
  let s' := snd (round s) in
  (id ∈ finished (engine s') /\ id ∉ finished (engine s)) \/ due (engine s) id ->
  exists l, history s' = history s ++ l /\ accounted (engine s') l id.
Proof.
  cbn zeta. intros Hid. destruct (ingest_moves config tasks given s) as (l & El & M & _). exists l. split; [exact El |].
  apply (moves_keep (outcomes_kept (engine s)) _ _ (move_outcomes (engine s)) M); [| exact Hid].
  intros i [[H1 H2] | Hd]; [done | by right; left].
Qed.

(** *** The hold comes first *)

Definition holds (l : list EngineEvent) : Prop := exists o, ev_sent (hold_at config o) true ∈ l.

Definition held_first (v : View) : Prop :=
  (reholdOnGuided (en v) = false -> holdRequiredBeforeMovement (en v) = false -> holds (ev v)) /\
  forall l1 t ok l2, ev v = l1 ++ ev_started t ok :: l2 -> holds l1.

Lemma holds_app l l' : holds l -> holds (l ++ l').
Proof. intros (o & Ho). exists o. apply elem_of_app. by left. Qed.

(** A move that does not lower the flags, nor start anything. *)
Lemma held_snoc e l e' x : (reholdOnGuided e' = false -> reholdOnGuided e = false) ->
  (holdRequiredBeforeMovement e' = false -> holdRequiredBeforeMovement e = false) -> (forall t ok, x <> ev_started t ok) ->
  held_first (mkView e l) -> held_first (mkView e' (l ++ [x])).
Proof.
  intros H1 H2 Hx [A B]. split; cbn in *; [intros; apply holds_app; auto |].
  intros l1 t ok l2 [(-> & E & ->) | (l3 & -> & ->)]%snoc_cases; [by destruct (Hx t ok) | by eapply B].
Qed.

Lemma held_quiet e l e' : (reholdOnGuided e' = false -> reholdOnGuided e = false) ->
  (holdRequiredBeforeMovement e' = false -> holdRequiredBeforeMovement e = false) ->
  held_first (mkView e l) -> held_first (mkView e' l).
Proof. intros H1 H2 [A B]. split; cbn in *; eauto. Qed.

Lemma move_held v v' : moves v v' -> held_first v -> held_first v'.
Proof.
  intros M. destruct M as [e | e l m | e l a mode text Ha _ Hp | e l r ok Hr | e l r Hr | e l t text Ht Hp | e l o ok Ho | e l o ok Ho | e l c | e l
    | e l o c | e l o c | e l t e' new Ha F1 F2 Hp (_ & _ & _ & Hn) _ Hs | e l a a' Ha Hid | e l a text Ha Hp | e l a0 a Ha Hp].
  all: try (by apply held_snoc).
  all: try (by apply held_quiet).
  - destruct (reconcile_active_cases (reconcile_report tasks e)) as (_ & (R1 & R2) & _).
    destruct (finish_terminal_core (reconcile_active tasks (reconcile_report tasks e))) as (_ & T1 & T2 & _).
    assert (S : reholdOnGuided (reconcile_report tasks e) = reholdOnGuided e /\
                holdRequiredBeforeMovement (reconcile_report tasks e) = holdRequiredBeforeMovement e)
      by (destruct (reconcile_report_cases e) as [-> | (? & _ & _ & ->)]; done). destruct S as [S1 S2].
    apply held_quiet; [by rewrite T1, R1, S1 |]. rewrite T2. intros K. apply not_true_iff_false. intros K2. rewrite <- S2 in K2.
    apply R2 in K2. congruence.
  - intros [A B]. split; cbn in *; [| done]. intros _ _. exists o. apply elem_of_app. right. by left.
  - intros [A B]. split; cbn in *; [| done]. intros _ _. exists o. apply elem_of_app. right. by left.
  - intros [A B]. specialize (A F1 F2). cbn in A, B. split; cbn [en ev]; [intros _ _; by apply holds_app |].
    intros l1 t' ok l2 E. apply app_eq_inv in E as [(k & El & Ek) | (k & -> & _)]; [| by apply holds_app].
    destruct k as [| x k]; [rewrite app_nil_r in El; by subst |]. injection Ek as <- _. by eapply B.
Qed.

(** C11: after a takeover, or when a go-to was cancelled, nothing is started
    before the aircraft was told to hold where it is: in a round that begins
    with either still to be answered, a hold was sent before every start. *)
Theorem hold_comes_first (s : St) l1 t ok l2 :
  reholdOnGuided (engine s) = true \/ holdRequiredBeforeMovement (engine s) = true ->
  history (snd (round s)) = history s ++ l1 ++ ev_started t ok :: l2 ->
  exists o, ev_sent (hold_at config o) true ∈ l1.
Proof.
  intros Hf E. destruct (ingest_moves config tasks given s) as (l & El & M & _). rewrite E in El. apply app_inv_head in El.
  assert (A : held_first (mkView (engine (snd (round s))) l)).
  { apply (moves_keep held_first _ _ move_held M). split; cbn; [intros; destruct Hf; congruence | intros [] ? ? ?; done]. }
  destruct A as [_ A]. by apply (A l1 t ok l2).
Qed.

(** *** Complete means there *)

(** The physical outcome a command promises. *)
Definition arrived (t : AuthoritativeTask) (c : ControlState) : Prop :=
  let s := cs_snapshot c in
  fresh_control c = true /\ exists o, observation s = Some o /\
  if commanded t "flight.takeoff" then exists target, numberInput t "altitude_m" = Some target /\ takeoff_arrived config s o target = true
  else if commanded t "flight.goto" then exists latitude longitude altitude, goto_target t = Some (latitude, longitude, altitude) /\
    (haversineM (latitudeDeg o) (longitudeDeg o) latitude longitude <= arrivalRadiusM config)%num = true /\
    (n_abs (altitude - altitudeMslM o) <= altitudeToleranceM config)%num = true
  else landed_now s o = true /\ (commanded t "flight.land" = false ->
    exists d, launchDistanceM s = Some d /\ (d <= arrivalRadiusM config)%num = true).

Lemma isComplete_arrived a c a' : isComplete config a (cs_snapshot c) (cs_nowMs c) = (true, a') -> arrived (task a) c /\ task a' = task a.
Proof.
  intros E. assert (task a' = task a) as Ht by (by pose proof (complete_same config a (cs_snapshot c) (cs_nowMs c)) as (H1 & _); rewrite E in H1).
  split; [| done]. unfold isComplete in E. unfold arrived, fresh_control.
  destruct (hasFreshControlTelemetry (cs_snapshot c) (cs_nowMs c)); [| done]. cbn [negb] in E. split; [done |].
  destruct (observation (cs_snapshot c)) as [o |]; [| done]. exists o. split; [done |].
  destruct (commanded (task a) "flight.takeoff").
  { destruct (numberInput (task a) "altitude_m") as [target |]; [| done]. exists target. split; [done |].
    by destruct (takeoff_arrived config (cs_snapshot c) o target). }
  destruct (commanded (task a) "flight.goto").
  { destruct (goto_target (task a)) as [[[la lo] al] |]; [| done]. injection E as E _. apply andb_true_iff in E as [E1 E2].
    exists la, lo, al. done. }
  destruct (_ || _); [| done]. destruct (landed_now (cs_snapshot c) o); [| done]. cbn [negb] in E. split; [done |].
  intros Hl. rewrite Hl in E. injection E as E _. destruct (launchDistanceM (cs_snapshot c)) as [d |]; [by exists d | done].
Qed.

(** The task is the engine's own: the one it was at when the round began, as
    it had it or as Core has it now, or one of Core's that it was granted and
    whose command it sent in the round. *)
Definition own_task (e0 : TaskEngine) (l : list EngineEvent) (t : AuthoritativeTask) : Prop :=
  (exists a, active e0 = Some a /\ taskId (task a) = taskId t /\ (t = task a \/ jget (taskId t) (byId tasks) = Some t)) \/
  (t ∈ tasks /\ exists l0 c m l1, l = l0 ++ [ev_started (taskId t) true; ev_read c; ev_sent m true] ++ l1 /\
     task_command config t (cs_snapshot c) = Some m).

(** The task [id] was complete in a control state read in the round. *)
Definition seen_there (e0 : TaskEngine) (l : list EngineEvent) (id : list Z) : Prop :=
  exists l1 l2 t, l = l1 ++ l2 /\ taskId t = id /\ own_task e0 l1 t /\ arrived t (latest given l1).

Definition due_complete (e : TaskEngine) (id : list Z) : Prop :=
  exists r, pendingTerminalReport e = Some r /\ tr_taskId r = id /\ outcome r = outcome_complete.

Definition complete_seen (e0 : TaskEngine) (v : View) : Prop :=
  forall id, due_complete (en v) id \/ (exists ok, ev_reported id outcome_complete ok ∈ ev v) ->
    due_complete e0 id \/ seen_there e0 (ev v) id.

Definition active_own (e0 : TaskEngine) (v : View) : Prop := forall a, active (en v) = Some a -> own_task e0 (ev v) (task a).

Lemma own_task_app e0 l l' t : own_task e0 l t -> own_task e0 (l ++ l') t.
Proof.
  intros [H | (Ht & l0 & c & m & l1 & -> & Hm)]; [by left | right]. split; [done |]. exists l0, c, m, (l1 ++ l').
  by rewrite <- !app_assoc.
Qed.

Lemma reconcile_active_task e a' : active (reconcile_active tasks e) = Some a' ->
  exists a, active e = Some a /\ taskId (task a) = taskId (task a') /\
    (task a' = task a \/ jget (taskId (task a')) (byId tasks) = Some (task a')).
Proof.
  unfold reconcile_active. destruct (active e) as [a |] eqn:Ha; [| by rewrite Ha].
  destruct (jget (taskId (task a)) (byId tasks)) as [t |] eqn:Ht; [| rewrite Ha; intros [= <-]; exists a; auto].
  destruct (terminal (status t)); [by destruct (_ && _ && _) |]. intros [= <-]. cbn. exists a.
  pose proof (byId_id _ _ Ht) as [_ E]. rewrite <- E in Ht. by auto.
Qed.

(** Where nothing new is active. *)
Lemma active_own_step e0 e l e' l' : (forall a', active e' = Some a' -> exists a, active e = Some a /\ task a' = task a) ->
  active_own e0 (mkView e l) -> active_own e0 (mkView e' (l ++ l')).
Proof. intros H K a' (a & Ha & Ht)%H. rewrite Ht. apply own_task_app. by apply K. Qed.

Lemma active_own_quiet e0 e l e' : (forall a', active e' = Some a' -> exists a, active e = Some a /\ task a' = task a) ->
  active_own e0 (mkView e l) -> active_own e0 (mkView e' l).
Proof. intros H K. rewrite <- (app_nil_r l). by eapply active_own_step. Qed.

Lemma move_own e0 v v' : moves v v' -> active_own e0 v -> active_own e0 v'.
Proof.
  intros M. destruct M as [e | e l m | e l a mode text Ha _ Hp | e l r ok Hr | e l r Hr | e l t text Ht Hp | e l o ok Ho | e l o ok Ho | e l c | e l
    | e l o c | e l o c | e l t e' new Ha F1 F2 Hp (Hin & _ & _ & Hn) _ Hs | e l a a' Ha Hid | e l a text Ha Hp | e l a0 a Ha Hp Hk].
  all: try (first [apply active_own_quiet | apply active_own_step]; cbn; intros a' Ha'; first [discriminate Ha' | by exists a']).
  - intros K a'. cbn [en ev]. destruct (finish_terminal_core (reconcile_active tasks (reconcile_report tasks e))) as (T0 & _). rewrite T0.
    intros (a & Ha & Hid & Ht)%reconcile_active_task.
    assert (S : active (reconcile_report tasks e) = active e) by (by destruct (reconcile_report_cases e) as [-> | (? & _ & _ & ->)]).
    rewrite S in Ha. destruct (K a Ha) as [(a0 & Ha0 & Hid0 & Ht0) | (_ & l0 & c & m & l1 & E & _)].
    + left. exists a0. split; [done |]. split; [congruence |]. destruct Ht as [-> | Ht]; [| by right]. exact Ht0.
    + by destruct l0.
  - intros K a'. cbn [en ev]. destruct Hs as [text | | c text Hc | c m Hc Hm | c m text Hc Hm]; cbn; try discriminate; rewrite ?Ha; try discriminate.
    intros [= <-]. right. split; [done |]. exists l, c, m, []. by rewrite app_nil_r.
  - apply active_own_quiet. cbn. intros x [= <-]. by exists a.
Qed.

Lemma seen_app e0 l l' id : seen_there e0 l id -> seen_there e0 (l ++ l') id.
Proof. intros (l1 & l2 & t & -> & H). exists l1, (l2 ++ l'), t. by rewrite <- app_assoc. Qed.

Lemma complete_step e0 e l e' l' : (forall id, due_complete e' id -> due_complete e id \/ seen_there e0 l id) ->
  (forall id ok, ev_reported id outcome_complete ok ∈ l' -> due_complete e id) ->
  complete_seen e0 (mkView e l) -> complete_seen e0 (mkView e' (l ++ l')).
Proof.
  intros H1 H2 H id Hid. cbn in *.
  assert (due_complete e id \/ seen_there e0 l id \/ exists ok, ev_reported id outcome_complete ok ∈ l) as [K | [K | K]].
  { destruct Hid as [Hd | (ok & [Hin | Hin]%elem_of_app)]; [destruct (H1 _ Hd); tauto | right; right; by exists ok | left; by eapply H2]. }
  - destruct (H id) as [? | ?]; [by left | by left | right; by apply seen_app].
  - right. by apply seen_app.
  - destruct (H id) as [? | ?]; [by right | by left | right; by apply seen_app].
Qed.

Lemma complete_quiet e0 e l e' : (forall id, due_complete e' id -> due_complete e id \/ seen_there e0 l id) ->
  complete_seen e0 (mkView e l) -> complete_seen e0 (mkView e' l).
Proof. intros H. rewrite <- (app_nil_r l) at 2. apply complete_step; [done | by intros id ok Hin%elem_of_nil]. Qed.

Lemma not_complete_new t code text e id : ~ due_complete (new_report t (outcome_fail code text) e) id.
Proof. intros (r & [= <-] & _ & Ho). discriminate Ho. Qed.

Lemma move_complete e0 v v' : moves v v' -> active_own e0 v -> complete_seen e0 v -> complete_seen e0 v'.
Proof.
  intros M. destruct M as [e | e l m | e l a mode text Ha _ Hp | e l r ok Hr | e l r Hr | e l t text Ht Hp | e l o ok Ho | e l o ok Ho | e l c | e l
    | e l o c | e l o c | e l t e' new Ha F1 F2 Hp (_ & _ & _ & Hn) _ Hs | e l a a' Ha Hid | e l a text Ha Hp | e l a0 a Ha Hp Hk].
  all: intros Hown; try (apply complete_quiet; intros id Hd; first [by apply not_complete_new in Hd | by left]).
  all: try (apply complete_step; [intros id Hd; by left | intros id k Hin; apply list_elem_of_singleton in Hin; discriminate Hin]).
  - apply complete_quiet. intros id (r & Hr & Hi & Ho). left.
    destruct (reconcile_active_cases (reconcile_report tasks e)) as (R & _ & _).
    destruct (finish_terminal_core (reconcile_active tasks (reconcile_report tasks e))) as (_ & _ & _ & T). rewrite T, R in Hr.
    exists r. split; [| done]. destruct (reconcile_report_cases e) as [E | (r' & _ & _ & E)]; rewrite E in Hr; [done | discriminate Hr].
  - apply complete_step; [by left |]. intros id k Hin. apply list_elem_of_singleton in Hin. injection Hin as -> Ho _. by exists r.
  - apply complete_quiet. by intros id (r' & [=] & _).
  - apply complete_step.
    + intros id Hd. destruct Hs; try (by apply not_complete_new in Hd); left; exact Hd.
    + intros id k Hin. exfalso. destruct Hs; repeat (apply elem_of_cons in Hin as [[=] | Hin]); by apply elem_of_nil in Hin.
  - apply complete_quiet. intros id (r & [= <-] & Hi & _). right. exists l, [], (task a0). rewrite app_nil_r.
    apply isComplete_arrived in Hk as [Hk Ht]. split_and!; [done | cbn in Hi; congruence | rewrite <- Ht; by apply Hown | done].
Qed.

(** C13: a task is only reported complete when the aircraft is there: for a
    report of completion that a round sends or leaves due, other than one that
    was due before, the outcome promised by the command of the engine's own
    task (the active one, as the engine had it or as Core has it now, or one
    it was granted and sent the command of in this round) was seen, fresh
    telemetry included, in the control state the engine acted on. *)
Theorem complete_means_arrived (s : St) id :
  let s' := snd (round s) in
  (due_complete (engine s') id \/ exists ok, ev_reported id outcome_complete ok ∈ drop (length (history s)) (history s')) ->
  due_complete (engine s) id \/
  exists l1 l2 t, history s' = history s ++ l1 ++ l2 /\ taskId t = id /\ own_task (engine s) l1 t /\ arrived t (latest given l1).
Proof.
  cbn zeta. destruct (ingest_moves config tasks given s) as (l & El & M & _). rewrite El, drop_app_length. intros Hid.
  assert (K : active_own (engine s) (mkView (engine (snd (round s))) l) /\ complete_seen (engine s) (mkView (engine (snd (round s))) l)).
  { apply (moves_keep (fun v => active_own (engine s) v /\ complete_seen (engine s) v)) with (mkView (engine s) []); [| exact M |].
    - intros v v' Mv [K1 K2]. split; [by eapply move_own | by eapply move_complete].
    - split; [intros a Ha; left; exists a; auto |]. intros i [Hd | (ok & Hd%elem_of_nil)]; [by left | done]. }
  destruct K as [_ K]. destruct (K id Hid) as [Hd | (l1 & l2 & t & E & Ht & Ho & Ha)]; [by left | right]. exists l1, l2, t. cbn in E. by rewrite E.
Qed.

(** *** Limits *)

(** While a task is active, no hold is due. *)
Definition undue (e : TaskEngine) : Prop :=
  active e <> None -> reholdOnGuided e = false /\ holdRequiredBeforeMovement e = false.

Lemma undue_same e e' : active e' = active e -> reholdOnGuided e' = reholdOnGuided e ->
  holdRequiredBeforeMovement e' = holdRequiredBeforeMovement e -> undue e -> undue e'.
Proof. unfold undue. by intros -> -> ->. Qed.

Lemma undue_none e : active e = None -> undue e.
Proof. by intros E H. Qed.

Lemma move_undue v v' : moves v v' -> undue (en v) -> undue (en v').
Proof.
  intros M. destruct M as [e | e l m | e l a mode text Ha _ Hp | e l r ok Hr | e l r Hr | e l t text Ht Hp | e l o ok Ho | e l o ok Ho | e l c | e l
    | e l o c | e l o c | e l t e' new Ha F1 F2 Hp (_ & _ & _ & Hn) _ Hs | e l a a' Ha Hid | e l a text Ha Hp | e l a0 a Ha Hp].
  all: cbn [en]; try (by apply undue_same); try (by intros _; apply undue_none).
  - destruct (reconcile_active_cases (reconcile_report tasks e)) as (_ & (R1 & R2) & Hc).
    destruct (finish_terminal_core (reconcile_active tasks (reconcile_report tasks e))) as (T0 & T1 & T2 & _).
    assert (S : active (reconcile_report tasks e) = active e /\ reholdOnGuided (reconcile_report tasks e) = reholdOnGuided e /\
                holdRequiredBeforeMovement (reconcile_report tasks e) = holdRequiredBeforeMovement e)
      by (destruct (reconcile_report_cases e) as [-> | (? & _ & _ & ->)]; done). destruct S as (S0 & S1 & S2).
    unfold undue. rewrite T0, T1, T2, R1, S1. intros H Hn.
    destruct Hc as [(_ & E) | [(a & Ha & _ & E & _) | (a & _ & E & _)]].
    + rewrite E in *. rewrite S0 in Hn. rewrite S2. auto.
    + rewrite E, S2. apply H. congruence.
    + by destruct Hn.
  - intros K Hn. cbn in *. destruct (K Hn) as [_ ->]. done.
  - intros K Hn. cbn in *. destruct (K Hn) as [-> _]. done.
  - intros _. unfold undue. destruct Hs; cbn; by rewrite F1, F2.
  - intros K _. cbn. apply K. congruence.
Qed.

(** When a round returns, the active task is not past its time limit, and made
    progress now or not too long ago, by the clock of the control state read
    last in the round. *)
Lemma round_within (s : St) a :
  undue (engine s) -> fst (round s) = Ok tt -> active (engine (snd (round s))) = Some a ->
  exists l, history (snd (round s)) = history s ++ l /\ within config a (latest given l).
Proof.
  intros Hu Hr Ha. destruct (ingest_moves config tasks given s) as (l & El & M & W). exists l. split; [exact El |].
  assert (U : undue (engine (snd (round s)))) by exact (moves_keep (fun v => undue (en v)) _ _ move_undue M Hu).
  rewrite Hr in W. destruct (W eq_refl) as [[K | K] | K]; [| | by apply K].
  all: destruct U as [U1 U2]; congruence.
Qed.
End round.
End facts.

(** * The task engine: runs

    Rounds one after the other, with the recovery hand-over of the controller in
    between, while the world goes on: what holds from the start of the process
    on, whatever is answered. *)

Section runs.
Context {dialect : MavLinkDialect} {math : MathFunctions} (config : AssetConfig).
Context {St : Type} {host : EngineHost St} {laws : EngineHostLaws St}.

(** What happens to an engine: a round, the hand-over to a recovery, or nothing,
    while the rest of the host does what it likes. *)
Inductive step (s s' : St) : Prop :=
  | step_round tasks given : s' = snd (ingest config tasks (cs_snapshot given) (cs_nowMs given) s) -> step s s'
  | step_abandon rehold : s' = snd (abandonActiveForRecovery rehold s) -> step s s'
  | step_world : engine s' = engine s -> history s' = history s -> step s s'.

(** A host whose engine was just made. *)
Definition fresh_engine (s : St) : Prop := engine s = newEngine /\ history s = [].

(** What an engine is when its active task was handed over. *)
Definition abandoned (rehold : bool) (e : TaskEngine) : TaskEngine :=
  let e := e <| reholdOnGuided := reholdOnGuided e || rehold |> in
  match active e with
  | None => e
  | Some a => e <| active := None |> <| finished ::= add_finished (taskId (task a)) |>
  end.

Lemma abandon_spec rehold s : engine (snd (abandonActiveForRecovery rehold s)) = abandoned rehold (engine s) /\
  history (snd (abandonActiveForRecovery rehold s)) = history s /\
  fst (abandonActiveForRecovery rehold s) = Ok (activeTaskId (engine s)).
Proof.
  unfold abandonActiveForRecovery, abandoned, activeTaskId, bind_eff, upd, modify, get, gets, finish, ret. rewrite engine_set.
  destruct (engine s) as [[a |] f r h p m n]; cbn; rewrite ?engine_set, ?history_set; done.
Qed.

(** A property of the engine and all that happened that rounds and hand-overs
    keep holds in every run. *)
Lemma runs_keep (I : TaskEngine -> list EngineEvent -> Prop) s s' :
  (forall tasks given e l e' l', rtc (move config tasks given) (mkView e []) (mkView e' l') -> I e l -> I e' (l ++ l')) ->
  (forall rehold e l, I e l -> I (abandoned rehold e) l) ->
  rtc step s s' -> I (engine s) (history s) -> I (engine s') (history s').
Proof.
  intros Hround Habandon. induction 1 as [| s s1 s' Hstep _ IH]; [done |]. intros Hi. apply IH. destruct Hstep as [tasks given -> | rehold -> | E1 E2].
  - destruct (ingest_moves config tasks given s) as (l & -> & M & _). by eapply Hround.
  - destruct (abandon_spec rehold s) as (-> & -> & _). by apply Habandon.
  - by rewrite E1, E2.
Qed.

(** ** Started once *)

Lemma abandoned_covered rehold e t : covered e t -> covered (abandoned rehold e) t.
Proof.
  unfold abandoned, covered, activeTaskId. destruct e as [[a |] f r h p m n]; cbn; [| done].
  intros [H | [= <-]]; left; apply elem_add_finished; [by right | by left].
Qed.

Lemma runs_started s s' : rtc step s s' -> started_once (history s) (mkView (engine s) []) ->
  started_once (history s') (mkView (engine s') []).
Proof.
  intros R. apply (runs_keep (fun e l => started_once l (mkView e []))); [| | exact R].
  - intros tasks given e l e' l' M H.
    assert (K : started_once l (mkView e' l')).
    { exact (moves_keep config tasks given (started_once l) _ _ (move_started config tasks given l) M H). }
    destruct K as [K1 K2]. cbn in K1, K2. split; cbn; by rewrite app_nil_r.
  - intros rehold e l [K1 K2]. split; [done |]. intros t Ht. apply abandoned_covered, K2, Ht.
Qed.

(** Whatever happens between rounds and hand-overs, no task id is ever asked for
    twice. *)
Lemma runs_start_once (s s' : St) : fresh_engine s -> rtc step s s' -> NoDup (started (history s')).
Proof.
  intros [E1 E2] R.
  assert (K : started_once (history s') (mkView (engine s') [])).
  { apply (runs_started s); [exact R |]. rewrite E1, E2. split; [apply NoDup_nil_2 |]. by intros t Ht%elem_of_nil. }
  destruct K as [K _]. cbn in K. by rewrite app_nil_r in K.
Qed.

(** ** Limits *)

Lemma abandoned_undue rehold e : undue (abandoned rehold e).
Proof. apply undue_none. unfold abandoned. by destruct e as [[a |] f r h p m n]. Qed.

(** C14: no task is watched for ever: in a run of the process, when a round
    returns, the active task is not past its time limit, and made progress just
    now or not too long ago, by the clock of the control state the engine read
    last. *)
Theorem active_within_limits (s0 s : St) tasks given a :
  let r := ingest config tasks (cs_snapshot given) (cs_nowMs given) s in
  fresh_engine s0 -> rtc step s0 s -> fst r = Ok tt -> active (engine (snd r)) = Some a ->
  exists l, history (snd r) = history s ++ l /\ within config a (latest given l).
Proof.
  cbn zeta. intros [E1 _] R. apply round_within. apply (runs_keep (fun e _ => undue e) s0); [| | exact R |].
  - intros ts g e l e' l' M. exact (moves_keep config ts g (fun v => undue (en v)) _ _ (move_undue config ts g) M).
  - intros rehold e l _. apply abandoned_undue.
  - rewrite E1. by apply undue_none.
Qed.
End runs.
