(* ===== verification/AssetHost.v ===== *)
(** * The host of an Asset: link, Core attachment and telemetry

    [mavlink-link.ts], [core-client.ts] and the message handler of
    [controller.ts].  The host awaits what is outside itself: what arrives
    meanwhile, what is answered and the time it takes are a script, one entry
    per await. *)

From Stdlib Require Import ZArith Lia String.
From stdpp Require Import base list option relations.
From S2P Require Import Prelude JsMap Json Contract JsState Doubles AssetConfig Vehicle MavCommands TaskEngine TaskEngineMoves TaskEngineKeeps.

Open Scope string_scope.
Open Scope list_scope.
Open Scope Z_scope.

(** ** The link *)

Inductive LinkState := link_open | link_closed | link_failed (e : js_error).

Record MavLink := mkLink { closed : bool; failure : option js_error; listening : bool }.
#[global] Instance MavLink_rebuild : Rebuild MavLink := fun r => mkLink (closed r) (failure r) (listening r).

Definition newLink : MavLink := mkLink false None false.

Definition recordFailure (error : js_error) (l : MavLink) : MavLink :=
  match failure l with Some _ => l | None => l <| failure := Some error |> end.

Definition throwIfUnavailable (l : MavLink) : result unit :=
  match failure l with
  | Some e => Throw e
  | None => if closed l then Throw (PlainError "MAVLink is closed") else Ok tt
  end.

Definition link_status (l : MavLink) : LinkState :=
  match failure l with Some e => link_failed e | None => if closed l then link_closed else link_open end.

Definition link_close (l : MavLink) : MavLink := l <| closed := true |>.

(** ** What comes in *)

(** The messages the host reads, with the fields it reads. *)
Inductive ReceivedData :=
  | rx_heartbeat (type autopilot baseMode customMode : Z)
  | rx_global_position (lat lon alt relativeAlt vx vy vz hdg : Z)
  | rx_sys_status (batteryRemaining : Z)
  | rx_param_value (paramId : list Z) (paramValue : num)
  | rx_command_ack (command result : Z)
  | rx_other.

Record ReceivedMessage := mkReceived { sysid : Z; compid : Z; message : ReceivedData }.

(** A task of Core's, with the fields the host reads. *)
Record TaskResource := mkResource {
  r_task_id : list Z; r_command : list Z; r_status : TaskStatus; r_cancellation : option (list Z); r_input : json
}.

Definition toAuthoritative (tasks : list TaskResource) : list AuthoritativeTask :=
  map (fun t => mkTask (r_task_id t) (r_command t) (r_status t) (r_cancellation t)
                  (match r_input t with JObject m => m | _ => [] end)) tasks.

(** What may arrive while the host awaits: a decoded message, the failure or end
    of the stream, a signal to stop, the end of the send that a shutdown began,
    or the next look of a shutdown at the mode. *)
Inductive Incoming :=
  | in_message (m : ReceivedMessage)
  | in_stream_error (e : js_error)
  | in_stream_close
  | in_signal
  | in_shutdown_sent (e : option js_error)
  | in_shutdown_look.

(** An await: what arrives at which time, until when it takes, whether it fails,
    and what is answered. *)
Record Await := mkAwait {
  arrivals : list (num * Incoming); until : num; refused : option js_error; answer : list TaskResource
}.

(** ** The state *)

(** How far a shutdown is. *)
Inductive Shutdown := sd_none | sd_sending | sd_confirming (deadline : num) | sd_done (failed : bool).

Record Controller := mkController {
  running : bool;
  coreDownSince : option num;
  coreLossRecovery : bool;
  coreLossRecoveryConfirmed : bool;
  coreLossRecoveryRelinquished : bool;
  lastCoreLossRecoveryAttemptMs : option num;
  initiallyLandedAndDisarmed : bool;
  ready : bool;
  gcsFailsafeChecked : bool;
  lastTasks : list AuthoritativeTask;
  recoveryTaskToFail : option (list Z);
  telemetryStale : bool;
  shutdown : Shutdown
}.
#[global] Instance Controller_rebuild : Rebuild Controller := fun r =>
  mkController (running r) (coreDownSince r) (coreLossRecovery r) (coreLossRecoveryConfirmed r) (coreLossRecoveryRelinquished r)
    (lastCoreLossRecoveryAttemptMs r) (initiallyLandedAndDisarmed r) (ready r) (gcsFailsafeChecked r) (lastTasks r)
    (recoveryTaskToFail r) (telemetryStale r) (shutdown r).

Definition newController : Controller := mkController false None false false false None false false false [] None false sd_none.

(** What the host tells Core of its flight. *)
Record FlightPosition := mkFlightPosition {
  fp_latitude : num; fp_longitude : num; fp_altitudeMslM : num; fp_speedMS : num; fp_headingDeg : option num
}.
Record FlightTelemetry := mkTelemetry {
  ft_position : option FlightPosition; ft_armed : option bool; ft_flightMode : option (list Z);
  ft_launchElevationM : option num; ft_batteryRemainingPercent : option num
}.

(** What the host does outside itself, and how it ended. *)
Inductive HostEvent :=
  | he_engine (e : EngineEvent)
  | he_begin (ok : bool)
  | he_ready (s : VehicleSnapshot) (atMs : num) (ok : bool)
  | he_param (ok : bool)
  | he_heartbeat (ok : bool)
  | he_checkin (atMs : num) (t : FlightTelemetry) (ok : bool)
  | he_polled (atMs : num) (ok : bool)
  | he_interrupted (t : list Z) (ok : bool)
  | he_ingested (atMs : num) (ok : bool)
  | he_recovery (s : VehicleSnapshot) (command : option (list Z)) (atMs : num) (ok : bool)
  | he_shutdown_rtl (atMs : num).

Record AssetHost := mkHost {
  tracker : VehicleTracker;
  taskEngine : TaskEngine;
  link : option MavLink;
  controller : Controller;
  nowMs : num;
  script : list Await;
  trace : list HostEvent
}.
#[global] Instance AssetHost_rebuild : Rebuild AssetHost := fun r =>
  mkHost (tracker r) (taskEngine r) (link r) (controller r) (nowMs r) (script r) (trace r).

(** A process that was just started. *)
Definition newHost (start : num) (awaits : list Await) : AssetHost :=
  mkHost newTracker newEngine None newController start awaits [].

Definition on_controller (f : Controller -> Controller) (h : AssetHost) : AssetHost := h <| controller ::= f |>.
Definition on_link (f : MavLink -> MavLink) (h : AssetHost) : AssetHost := h <| link ::= fmap f |>.
Definition record (e : HostEvent) (h : AssetHost) : AssetHost := h <| trace ::= (fun l => l ++ [e]) |>.

Definition vehicle_snapshot (h : AssetHost) : VehicleSnapshot := snapshot (tracker h).

Section host.
Context {dialect : MavLinkDialect} {math : MathFunctions} (config : AssetConfig).

(** ** Messages *)

Definition isConfiguredVehicleMessage (m : ReceivedMessage) : bool :=
  (sysid m =? vehicleSystemId config) && (compid m =? vehicleComponentId config).

Definition FS_GCS_PARAM : list Z := js "FS_GCS_ENABLE".

(** [value !== 0] *)
Definition n_nonzero (x : num) : bool := negb (SFeqb x (n_of_Z 0)).

Definition observed_position (lat lon alt relativeAlt vx vy vz hdg : Z) (now : num) : VehicleObservation :=
  let cm := fun z => (n_of_Z z / n_of_Z 100)%num in
  let mm := fun z => (n_of_Z z / n_of_Z 1000)%num in
  mkObservation (n_of_Z lat / n_of_Z 10000000)%num (n_of_Z lon / n_of_Z 10000000)%num (mm alt) (mm relativeAlt)
    (Math_hypot (cm vx) (cm vy) (cm vz))
    (if hdg =? 65535 then None else Some (n_rem (cm hdg) (n_of_Z 360)))
    None now.

Definition handleMessage (m : ReceivedMessage) (h : AssetHost) : AssetHost :=
  if negb (isConfiguredVehicleMessage m) then h
  else
    match message m with
    | rx_heartbeat type autopilot baseMode customMode =>
        h <| tracker ::= observeHeartbeat (mkHeartbeat (sysid m) (compid m) type autopilot baseMode customMode (nowMs h)) |>
    | rx_global_position lat lon alt relativeAlt vx vy vz hdg =>
        h <| tracker ::= observePosition (observed_position lat lon alt relativeAlt vx vy vz hdg (nowMs h)) |>
    | rx_sys_status remaining =>
        h <| tracker ::= observeSysStatus (if remaining =? -1 then None else Some (n_of_Z remaining)) |>
    | rx_param_value name value =>
        if bool_decide (name = FS_GCS_PARAM)
        then on_controller (fun c => c <| gcsFailsafeChecked := true |>) (h <| tracker ::= observeGcsFailsafe (n_nonzero value) |>)
        else h
    | rx_command_ack command result =>
        if coreLossRecovery (controller h) && (command =? MavCmd_NAV_RETURN_TO_LAUNCH) && commandAckAccepted result
        then on_controller (fun c => c <| coreLossRecoveryConfirmed := true |>) h else h
    | rx_other => h
    end.

(** ** Shutdown

    [performShutdown], from the signal on: each piece runs when what it awaited
    has happened, between the pieces of the main loop. *)

Definition airborne (s : VehicleSnapshot) : bool := armed s || (n_abs (relativeAltitude s) > n_lit 1 2)%num.

Definition recovering (e : TaskEngine) : bool :=
  bool_decide (activeCommand e = Some (js "flight.land")) || bool_decide (activeCommand e = Some (js "flight.return_to_launch")).

Definition shutdown_requests_rtl (h : AssetHost) : bool :=
  let s := vehicle_snapshot h in
  airborne s && guided s && negb (recovering (taskEngine h)) && hasFreshControlTelemetry s (nowMs h) &&
  match link h with Some l => match link_status l with link_open => true | _ => false end | None => false end.

Definition close_for_shutdown (failed_ : bool) (h : AssetHost) : AssetHost :=
  on_controller (fun c => c <| shutdown := sd_done failed_ |>) (on_link link_close h).

Definition performShutdown (h : AssetHost) : AssetHost :=
  let h := on_controller (fun c => c <| running := false |>) h in
  if shutdown_requests_rtl h
  then record (he_shutdown_rtl (nowMs h)) (on_controller (fun c => c <| shutdown := sd_sending |>) h)
  else close_for_shutdown false h.

(** [while (this.now() < deadline)] and its exits *)
Definition look_at_mode (h : AssetHost) : AssetHost :=
  match shutdown (controller h) with
  | sd_confirming deadline =>
      if (nowMs h < deadline)%num && negb (bool_decide (mode (vehicle_snapshot h) = js "RTL")) then h else close_for_shutdown false h
  | _ => h
  end.

Definition shutdown_sent (e : option js_error) (h : AssetHost) : AssetHost :=
  match shutdown (controller h), e with
  | sd_sending, None =>
      look_at_mode (on_controller (fun c =>
        c <| shutdown := sd_confirming (nowMs h + shutdownConfirmSeconds config * n_of_Z 1000)%num |>) h)
  | sd_sending, Some e => close_for_shutdown true (on_link (recordFailure e) h)
  | _, _ => h
  end.

Definition request_shutdown (h : AssetHost) : AssetHost :=
  match shutdown (controller h) with sd_none => performShutdown h | _ => h end.

(** ** Awaiting *)

Definition incoming (i : Incoming) (h : AssetHost) : AssetHost :=
  match i with
  | in_message m => if match link h with Some l => listening l | None => false end then handleMessage m h else h
  | in_stream_error e => on_link (recordFailure e) h
  | in_stream_close => on_link link_close h
  | in_signal => request_shutdown h
  | in_shutdown_sent e => shutdown_sent e h
  | in_shutdown_look => look_at_mode h
  end.

Definition arrive (h : AssetHost) (arrival : num * Incoming) : AssetHost :=
  incoming (snd arrival) (h <| nowMs := fst arrival |>).

Abbreviation E := (eff AssetHost).

(** The next entry of the script; after its end nothing is answered. *)
Definition next_await (h : AssetHost) : Await :=
  match script h with w :: _ => w | [] => mkAwait [] (nowMs h) (Some (PlainError "no answer")) [] end.

Definition awaited : E (list TaskResource) := fun h =>
  let w := next_await h in
  let h := foldl arrive (h <| script ::= tail |>) (arrivals w) in
  let h := h <| nowMs := until w |> in
  (match refused w with Some e => Throw e | None => Ok (answer w) end, h).

(** [m], and the event of how and when it ended. *)
Definition noted_at {A} (event : num -> result A -> HostEvent) (m : E A) : E A := fun h =>
  let '(r, h') := m h in (r, record (event (nowMs h') r) h').

Definition noted {A} (event : result A -> HostEvent) : E A -> E A := noted_at (fun _ => event).
Definition ended {A} (event : bool -> HostEvent) (m : E A) : E A := noted (fun r => event (is_ok r)) m.

(** [link.send] *)
Definition link_send (m : MavLinkData) : E unit :=
  do! l := gets link in
  match l with
  | None => throw (PlainError "MAVLink link is not open")
  | Some l =>
      do! _ := lift (throwIfUnavailable l) in
      try_catch (do! _ := awaited in ret tt) (fun error =>
        do! _ := modify (on_link (recordFailure error)) in
        do! l := gets link in
        lift (match l with Some l => throwIfUnavailable l | None => Ok tt end))
  end.

(** ** Core *)

Definition call : E unit := do! _ := awaited in ret tt.
Definition core_task : E TaskResource :=
  do! l := awaited in
  match l with t :: _ => ret t | [] => throw (TypeError "Cannot read properties of undefined") end.

Definition core_reportStart : E unit :=
  do! t := core_task in
  if bool_decide (r_status t = in_progress) then ret tt else throw (PlainError "Core did not grant execution for the Task").

Definition flag (key : string) (b : bool) : list Z * json := (js key, JBool b).
Definition manifest_entry (command description : string) (cancel : bool) : json :=
  JObject [(js "command", JString (js command)); (js "description", JString (js description));
           (js "scheduling", JString (js "immediate")); flag "supports_cancel" cancel; flag "supports_progress" false].

Definition flightManifest : list json :=
  [manifest_entry "flight.goto" "Fly to an absolute destination and hold position." true;
   manifest_entry "flight.land" "Land at the current location and disarm." false;
   manifest_entry "flight.return_to_launch" "Return to launch, land, and disarm." false;
   manifest_entry "flight.takeoff" "Climb to the requested altitude and settle into a hover." false].

Definition failureCodeFor (code : FailureCode) : string :=
  match code with precondition_failed => "precondition_failed" | execution_failed => "execution_failed" end.

(** A member that is set when there is a value. *)
Definition member {A} (key : string) (f : A -> json) (v : option A) : list (list Z * json) :=
  match v with Some a => [(js key, f a)] | None => [] end.
Definition n_json (x : num) : json := JNumber (n_bits x).

(** The body of [checkin]. *)
Definition checkin_body (t : FlightTelemetry) : list (list Z * json) :=
  let flat :=
    match ft_position t with
    | Some p =>
        [(js "latitude", n_json (fp_latitude p)); (js "longitude", n_json (fp_longitude p));
         (js "altitude_m", n_json (fp_altitudeMslM p)); (js "speed_m_s", n_json (fp_speedMS p))] ++
        member "heading_deg" n_json (fp_headingDeg p)
    | None => []
    end in
  let flight := member "armed" JBool (ft_armed t) ++ member "flight_mode" JString (ft_flightMode t) ++
                member "launch_elevation_m" n_json (ft_launchElevationM t) in
  let components :=
    match flight with [] => [] | _ => [(js "telemetry", JObject flight)] end ++
    member "health" (fun p => JObject [(js "battery_percent", n_json p)]) (ft_batteryRemainingPercent t) in
  (js "telemetry", JObject flat) :: match components with [] => [] | _ => [(js "components", JObject components)] end.

Definition flightTelemetryForCheckin (s : VehicleSnapshot) (now : num) : option FlightTelemetry :=
  if negb (hasFreshControlTelemetry s now) then None
  else Some (mkTelemetry
    ((fun o => mkFlightPosition (latitudeDeg o) (longitudeDeg o) (altitudeMslM o) (groundSpeedMS o) (headingDeg o)) <$> observation s)
    (Some (armed s))
    ((fun _ => mode s) <$> customMode s)
    (if launchElevationVerified s then launchElevationM s else None)
    (batteryRemainingPercent s)).

(** ** What the engine calls ([cli.ts]) *)

Definition asset_engine_host : EngineHost AssetHost := {|
  engine := taskEngine;
  set_engine e h := h <| taskEngine := e |>;
  send m := noted (fun r => he_engine (ev_sent m (is_ok r))) (link_send m);
  reportStart t := noted (fun r => he_engine (ev_started t (is_ok r))) core_reportStart;
  reportComplete t := noted (fun r => he_engine (ev_reported t outcome_complete (is_ok r))) call;
  reportFail t code message := noted (fun r => he_engine (ev_reported t (outcome_fail code message) (is_ok r))) call;
  getControlState := noted (fun r => he_engine (match r with Ok c => ev_read c | Throw _ => ev_unread end))
    (gets (fun h => mkControl (vehicle_snapshot h) (nowMs h)))
|}.
End host.

(** * The host of an Asset: what its calls leave alone

    While the host awaits, only telemetry, the link, the acknowledgement of a
    recovery and a shutdown move.  So the host is one the task engine's theorems
    hold for. *)

(** The events of the engine among those of the host. *)
Definition engine_event (e : HostEvent) : option EngineEvent := match e with he_engine e => Some e | _ => None end.
Definition host_history (h : AssetHost) : list EngineEvent := omap engine_event (trace h).

(** What the controller knows of Core. *)
Record Contact := mkContact { down : option num; recovery : bool; attempt : option num }.
Definition contact (h : AssetHost) : Contact :=
  mkContact (coreDownSince (controller h)) (coreLossRecovery (controller h)) (lastCoreLossRecoveryAttemptMs (controller h)).

Definition shutdown_event (e : HostEvent) : Prop := match e with he_shutdown_rtl _ => True | _ => False end.
Definition engine_or_shutdown (e : HostEvent) : Prop := match e with he_shutdown_rtl _ | he_engine _ => True | _ => False end.

(** The contact is as it was, and only events of [P] happened. *)
Definition quiet (P : HostEvent -> Prop) (h h' : AssetHost) : Prop :=
  contact h' = contact h /\ exists l, trace h' = trace h ++ l /\ Forall P l.

#[export] Instance quiet_preorder P : PreOrder (quiet P).
Proof.
  split.
  - intros h. split; [done |]. exists []. by rewrite app_nil_r.
  - intros h1 h2 h3 [E1 (l1 & T1 & F1)] [E2 (l2 & T2 & F2)]. split; [by rewrite E2 |].
    exists (l1 ++ l2). rewrite T2, T1, app_assoc. split; [done | by apply Forall_app].
Qed.

Lemma quiet_weaken (P Q : HostEvent -> Prop) h h' : (forall e, P e -> Q e) -> quiet P h h' -> quiet Q h h'.
Proof. intros H [E (l & T & F)]. split; [done |]. exists l. split; [done |]. by eapply Forall_impl. Qed.

(** The same, and the engine is as it was. *)
Definition calm (h h' : AssetHost) : Prop := taskEngine h' = taskEngine h /\ quiet shutdown_event h h'.

#[export] Instance calm_preorder : PreOrder calm.
Proof. split; [by intros h | intros h1 h2 h3 [E1 Q1] [E2 Q2]; split; [congruence | by etrans]]. Qed.

Lemma calm_same h h' : taskEngine h' = taskEngine h -> contact h' = contact h -> trace h' = trace h -> calm h h'.
Proof. intros E1 E2 E3. split; [done |]. split; [done |]. exists []. by rewrite app_nil_r. Qed.

Section host.
Context {dialect : MavLinkDialect} {math : MathFunctions} (config : AssetConfig).

Lemma calm_message m h : calm h (handleMessage config m h).
Proof.
  unfold handleMessage. destruct (negb _); [done |]. destruct (message m); try (by apply calm_same).
  - destruct (bool_decide _); by apply calm_same.
  - destruct (_ && _); by apply calm_same.
Qed.

Lemma calm_close b h : calm h (close_for_shutdown b h).
Proof. by apply calm_same. Qed.

Lemma calm_look h : calm h (look_at_mode h).
Proof. unfold look_at_mode. destruct (shutdown _); try done. destruct (_ && _); [done | apply calm_close]. Qed.

Lemma calm_sent e h : calm h (shutdown_sent config e h).
Proof.
  unfold shutdown_sent. destruct (shutdown _), e; try done; [by etrans; [| apply calm_close]; apply calm_same |].
  etrans; [| apply calm_look]. by apply calm_same.
Qed.

Lemma calm_request h : calm h (request_shutdown h).
Proof.
  unfold request_shutdown. destruct (shutdown _); try done. unfold performShutdown. destruct (shutdown_requests_rtl _).
  - split; [done |]. split; [done |]. eexists [_]. split; [done |]. by repeat constructor.
  - etrans; [| apply calm_close]. by apply calm_same.
Qed.

Lemma calm_incoming i h : calm h (incoming config i h).
Proof.
  destruct i; cbn [incoming]; [| by apply calm_same.. | apply calm_request | apply calm_sent | apply calm_look].
  destruct (link h) as [l |]; [destruct (listening l); [apply calm_message | done] | done].
Qed.

Lemma calm_arrive h a : calm h (arrive config h a).
Proof. unfold arrive. etrans; [| apply calm_incoming]. by apply calm_same. Qed.

Lemma calm_arrivals l h : calm h (foldl (arrive config) h l).
Proof. revert h. induction l as [| a l IH]; intros h; [done |]. cbn [foldl]. etrans; [apply calm_arrive | apply IH]. Qed.

Lemma calm_awaited : keeps calm (awaited config).
Proof.
  intros h. unfold awaited. cbn [snd]. etrans; [| by apply calm_same].
  etrans; [| apply calm_arrivals]. by apply calm_same.
Qed.

Lemma calm_modify f : (forall h, taskEngine (f h) = taskEngine h /\ contact (f h) = contact h /\ trace (f h) = trace h) -> keeps calm (modify f).
Proof. intros H h. destruct (H h) as (E1 & E2 & E3). by apply calm_same. Qed.

Lemma calm_call : keeps calm (call config).
Proof. unfold call. keeps_shape. apply calm_awaited. Qed.

Lemma calm_task : keeps calm (core_task config).
Proof. unfold core_task. keeps_shape. apply calm_awaited. Qed.

Lemma calm_grant : keeps calm (core_reportStart config).
Proof. unfold core_reportStart. keeps_shape. apply calm_task. Qed.

Lemma calm_send m : keeps calm (link_send config m).
Proof. unfold link_send. keeps_shape; [apply calm_awaited | by apply calm_modify]. Qed.

(** ** The laws of the engine's host *)

Lemma no_engine_events l : Forall shutdown_event l -> omap engine_event l = [].
Proof. induction 1 as [| [] l He _ IH]; [done | contradiction.. | exact IH]. Qed.

Lemma calm_history h h' : calm h h' -> taskEngine h' = taskEngine h /\ host_history h' = host_history h.
Proof.
  intros [E [_ (l & T & F)]]. split; [done |]. unfold host_history. by rewrite T, omap_app, (no_engine_events l F), app_nil_r.
Qed.

Lemma noted_law {A} (event : result A -> EngineEvent) (m : eff AssetHost A) : keeps calm m -> forall h,
  taskEngine (snd (noted (fun r => he_engine (event r)) m h)) = taskEngine h /\
  host_history (snd (noted (fun r => he_engine (event r)) m h)) =
    host_history h ++ [event (fst (noted (fun r => he_engine (event r)) m h))].
Proof.
  intros Hm h. destruct (calm_history _ _ (Hm h)) as [E T]. unfold noted, noted_at. destruct (m h) as [r h']. cbn in *.
  split; [exact E |]. unfold host_history in *. cbn. by rewrite omap_app, T.
Qed.

Definition asset_engine_laws : EngineHostLaws AssetHost (host := asset_engine_host config).
Proof.
  refine {| history := host_history : AssetHost -> _ |}.
  1-3: done.
  - intros m. exact (noted_law (fun r => ev_sent m (is_ok r)) _ (calm_send m)).
  - intros t. exact (noted_law (fun r => ev_started t (is_ok r)) _ calm_grant).
  - intros t. exact (noted_law (fun r => ev_reported t outcome_complete (is_ok r)) _ calm_call).
  - intros t code text. exact (noted_law (fun r => ev_reported t (outcome_fail code text) (is_ok r)) _ calm_call).
  - apply (noted_law (fun r => match r with Ok c => ev_read c | Throw _ => ev_unread end)). by intros h.
Defined.

(** ** A round of the engine in the host *)

Lemma quiet_noted P {A} (event : num -> result A -> HostEvent) (m : eff AssetHost A) :
  (forall at_ r, P (event at_ r)) -> keeps (quiet P) m -> keeps (quiet P) (noted_at event m).
Proof.
  intros Hp Hm h. specialize (Hm h). unfold noted_at. destruct (m h) as [r h']. etrans; [exact Hm |].
  split; [done |]. exists [event (nowMs h') r]. split; [done |]. by repeat constructor.
Qed.

Lemma calm_quiet (P : HostEvent -> Prop) {A} (m : eff AssetHost A) : (forall e, shutdown_event e -> P e) -> keeps calm m -> keeps (quiet P) m.
Proof. intros H Hm h. eapply quiet_weaken; [exact H |]. apply Hm. Qed.

Lemma engine_noted {A} (event : result A -> EngineEvent) (m : eff AssetHost A) :
  keeps calm m -> keeps (quiet engine_or_shutdown) (noted (fun r => he_engine (event r)) m).
Proof. intros Hm. apply quiet_noted; [done |]. apply calm_quiet; [by intros [] | done]. Qed.

Lemma set_engine_quiet e h : quiet engine_or_shutdown h (set_engine (EngineHost := asset_engine_host config) e h).
Proof. split; [done |]. exists []. by rewrite app_nil_r. Qed.

Lemma ingest_quiet tasks s now : keeps (quiet engine_or_shutdown) (ingest (host := asset_engine_host config) config tasks s now).
Proof.
  apply ingest_kept; [apply _ | apply set_engine_quiet | intros.. |]; apply engine_noted;
    [apply calm_send | apply calm_grant | apply calm_call | apply calm_call | by intros h].
Qed.

Lemma abandon_quiet rehold : keeps (fun h h' => contact h' = contact h /\ trace h' = trace h)
  (abandonActiveForRecovery (host := asset_engine_host config) rehold).
Proof.
  apply abandon_kept; [| done]. split; [by intros h |]. intros h1 h2 h3 [A1 A2] [B1 B2]. split; congruence.
Qed.
End host.
