(* ===== verification/AssetController.v ===== *)
(** * The controller of an Asset ([controller.ts])

    Orchestration: start, readiness, the main loop, the poll of Core, the
    recovery when Core is lost, and what is told to Core.  Logging is left out. *)

From Stdlib Require Import ZArith Lia String.
From stdpp Require Import base list option.
From S2P Require Import Prelude JsMap Json Contract JsState Doubles AssetConfig Vehicle MavCommands TaskEngine TaskEngineMoves AssetHost.

Open Scope string_scope.
Open Scope list_scope.
Open Scope Z_scope.

(** ** Decisions *)

Definition near_ground (relativeAltitudeM_ : option num) : bool :=
  match relativeAltitudeM_ with Some r => (n_abs r <= n_lit 1 2)%num | None => false end.

Definition flightGateOpen (landedBefore isArmed : bool) (relativeAltitudeM_ : option num) : bool :=
  if landedBefore then true
  else if isArmed then false
  else near_ground relativeAltitudeM_.

Definition shouldRequestCoreLossRecovery (downMs graceMs : num) (isGuided : bool) (command : option (list Z))
    (recoveryRunning telemetryFresh : bool) : bool :=
  if recoveryRunning then false
  else if bool_decide (command = Some (js "flight.land")) || bool_decide (command = Some (js "flight.return_to_launch")) then false
  else if negb isGuided || negb telemetryFresh then false
  else (downMs >= graceMs)%num.

Definition CORE_LOSS_RTL_RETRY_MS : num := n_of_Z 1000.
Definition PARAM_VERIFY_TIMEOUT_MS : num := n_of_Z 10000.

Section controller.
Context {dialect : MavLinkDialect} {math : MathFunctions} (config : AssetConfig).

#[local] Instance controller_host : EngineHost AssetHost := asset_engine_host config.

Abbreviation E := (eff AssetHost).

Definition now : E num := gets nowMs.
Definition current : E VehicleSnapshot := gets vehicle_snapshot.
Definition ctrl {A} (f : Controller -> A) : E A := gets (fun h => f (controller h)).
Definition set_ctrl (f : Controller -> Controller) : E unit := modify (on_controller f).

(** [await this.sleep(ms)] *)
Definition sleep : E unit := try_catch (call config) (fun _ => ret tt).

Definition isCoreDown (c : Controller) : bool := match coreDownSince c with Some _ => true | None => false end.

(** [if (this.coreDownSince === undefined) this.coreDownSince = at] *)
Definition note_loss (atMs : num) (c : Controller) : Controller :=
  match coreDownSince c with Some _ => c | None => c <| coreDownSince := Some atMs |> end.
Definition core_lost (atMs : num) : E unit := set_ctrl (note_loss atMs).

Definition assertLinkHealthy : E unit :=
  do! l := gets link in
  match link_status <$> l with
  | Some (link_failed e) => throw e
  | Some link_closed => throw (PlainError "MAVLink link closed while the Asset host was running.")
  | _ => ret tt
  end.

(** [link?.send], by the controller itself *)
Definition controller_send (event : bool -> HostEvent) (m : MavLinkData) : E unit := ended event (link_send config m).

(** ** Telemetry to Core *)

Definition reportTelemetry (s : VehicleSnapshot) : E unit :=
  do! at_ := now in
  match flightTelemetryForCheckin s at_ with
  | None => set_ctrl (fun c => c <| telemetryStale := true |>)
  | Some telemetry =>
      do! _ := set_ctrl (fun c => c <| telemetryStale := false |>) in
      try_catch (noted_at (fun failedAt r => he_checkin failedAt telemetry (is_ok r)) (call config))
        (fun _ => do! at_ := now in core_lost at_)
  end.

Definition sendGcsHeartbeat : E unit :=
  do! l := gets link in
  match l with
  | None => ret tt
  | Some _ => try_catch (controller_send he_heartbeat (m_heartbeat (mkHeartbeatMessage MavType_GCS 0 0 0 0 3))) (fun _ => ret tt)
  end.

(** ** Reconnecting *)

Definition not_terminal_in (id : list Z) (tasks : list TaskResource) : bool :=
  match List.find (fun t => bool_decide (r_task_id t = id)) tasks with
  | Some t => negb (terminal (r_status t))
  | None => true
  end.

Definition interrupted_message : list Z :=
  js "Core link lost; recovery RTL requested and the interrupted action was not resumed.".

(** The interrupted action is dropped, and Core is told that it failed. *)
Definition fail_interrupted (tasks : list TaskResource) : E unit :=
  do! relinquished := ctrl coreLossRecoveryRelinquished in
  do! abandoned := abandonActiveForRecovery relinquished in
  do! _ := set_ctrl (fun c =>
    match recoveryTaskToFail c with Some _ => c | None => c <| recoveryTaskToFail := abandoned |> end) in
  do! due := ctrl recoveryTaskToFail in
  match due with
  | None => ret tt
  | Some id =>
      do! _ := if not_terminal_in id tasks then ended (he_interrupted id) (call config) else ret tt in
      set_ctrl (fun c => c <| recoveryTaskToFail := None |>)
  end.

(** The end of a recovery that the aircraft confirmed or a pilot took over. *)
Definition end_recovery (c : Controller) : Controller :=
  if negb (coreLossRecoveryConfirmed c) && negb (coreLossRecoveryRelinquished c) then c
  else c <| coreLossRecovery := false |> <| coreLossRecoveryConfirmed := false |>
         <| coreLossRecoveryRelinquished := false |> <| lastCoreLossRecoveryAttemptMs := None |>.

Definition reconcileAfterReconnect (tasks : list TaskResource) : E unit :=
  do! recovery := ctrl coreLossRecovery in
  if negb recovery then ret tt
  else
    do! _ := fail_interrupted tasks in
    set_ctrl end_recovery.

(** The task Core must tell about, if its list does not. *)
Definition missing_task (h : AssetHost) (tasks : list TaskResource) : option (list Z) :=
  match reconciliationTaskId (taskEngine h), recoveryTaskToFail (controller h) with
  | Some id, _ | None, Some id => if existsb (fun t => bool_decide (r_task_id t = id)) tasks then None else Some id
  | None, None => None
  end.

(** The tasks of a poll. *)
Definition gather : E (list TaskResource) :=
  do! tasks := awaited config in
  do! missing := gets (fun h => missing_task h tasks) in
  match missing with
  | None => ret tasks
  | Some _ => do! t := core_task config in ret (tasks ++ [t])
  end.

Definition poll_once : E unit :=
  do! tasks := gather in
  do! c := ctrl (fun c => c) in
  do! _ := if isCoreDown c || coreLossRecovery c then reconcileAfterReconnect tasks else ret tt in
  set_ctrl (fun c => c <| lastTasks := toAuthoritative tasks |> <| coreDownSince := None |>).

Definition pollCore (at_ : num) : E unit :=
  try_catch (ended (he_polled at_) poll_once) (fun _ => core_lost at_).

(** ** Recovery when Core is lost *)

(** A mode that was told and that is not Guided ends the recovery: returning and
    landing confirm it, anything else takes it over. *)
Definition observe_recovery (s : VehicleSnapshot) (at_ : num) (c : Controller) : Controller :=
  if coreLossRecovery c && hasFreshControlTelemetry s at_ && negb (bool_decide (customMode s = None)) && negb (guided s) &&
     negb (bool_decide (take 7 (mode s) = js "UNKNOWN"))
  then if bool_decide (mode s = js "RTL") || bool_decide (mode s = js "LAND")
       then c <| coreLossRecoveryConfirmed := true |>
       else c <| coreLossRecoveryRelinquished := true |>
  else c.

Definition graceMs : num := (coreLossGraceSeconds config * n_of_Z 1000)%num.

(** Whether a recovery is requested now. *)
Definition recovery_due (s : VehicleSnapshot) (at_ : num) (h : AssetHost) : bool :=
  let c := controller h in
  let downMs := if coreLossRecovery c then graceMs else (at_ - default at_ (coreDownSince c))%num in
  shouldRequestCoreLossRecovery downMs graceMs (guided s) (activeCommand (taskEngine h))
    (coreLossRecoveryConfirmed c || coreLossRecoveryRelinquished c) (hasFreshControlTelemetry s at_) &&
  match link h with Some _ => true | None => false end &&
  match lastCoreLossRecoveryAttemptMs c with
  | Some last => negb (at_ - last < CORE_LOSS_RTL_RETRY_MS)%num
  | None => true
  end.

Definition watchCoreLossRecovery (s : VehicleSnapshot) (at_ : num) : E unit :=
  do! _ := set_ctrl (observe_recovery s at_) in
  do! due := gets (recovery_due s at_) in
  if negb due then ret tt
  else
    do! e := gets taskEngine in
    do! _ := set_ctrl (fun c => c <| lastCoreLossRecoveryAttemptMs := Some at_ |> <| coreLossRecovery := true |>) in
    try_catch (controller_send (he_recovery s (activeCommand e) at_) (returnToLaunchCommand (vehicleSystemId config) (vehicleComponentId config)))
      (fun _ => ret tt).

(** ** The main loop *)

Record RunClocks := mkClocks { lastTelemetry : num; lastHeartbeat : num; lastPoll : num }.
Definition newClocks : RunClocks := mkClocks (n_of_Z 0) (n_of_Z 0) (n_of_Z 0).

Definition second : num := n_of_Z 1000.

(** [if (now - last >= interval)], and the work then *)
Definition every (at_ last interval : num) (work : E unit) : E num :=
  if (at_ - last >= interval)%num then do! _ := work in ret at_ else ret last.

(** A round of the engine, with the telemetry read after the awaits. *)
Definition execute_round (s : VehicleSnapshot) (at_ : num) : E unit :=
  do! tasks := ctrl lastTasks in
  try_catch (ended (he_ingested at_) (ingest config tasks s at_)) (fun _ => core_lost at_).

Definition control : E unit :=
  do! at_ := now in
  do! s := current in
  do! c := ctrl (fun c => c) in
  if coreLossRecovery c then watchCoreLossRecovery s at_
  else if negb (isCoreDown c) then execute_round s at_
  else watchCoreLossRecovery s at_.

Definition run_turn (clocks : RunClocks) : E RunClocks :=
  do! _ := assertLinkHealthy in
  do! at_ := now in
  do! heartbeat := every at_ (lastHeartbeat clocks) second sendGcsHeartbeat in
  do! poll := every at_ (lastPoll clocks) second (pollCore at_) in
  do! telemetry := every at_ (lastTelemetry clocks) (telemetryIntervalSeconds config * second)%num
                     (do! s := current in reportTelemetry s) in
  do! _ := control in
  do! _ := sleep in
  ret (mkClocks telemetry heartbeat poll).

(** The first [n] turns of the loop. *)
Fixpoint run (n : nat) (clocks : RunClocks) : E unit :=
  match n with
  | O => ret tt
  | S n =>
      do! going := ctrl running in
      if negb going then ret tt
      else do! clocks := run_turn clocks in run n clocks
  end.

(** ** Starting *)

(** The first [n] turns of the wait for the parameter; whether it is over. *)
Fixpoint await_param (n : nat) (deadline : num) : E bool :=
  match n with
  | O => ret false
  | S n =>
      do! checked := ctrl gcsFailsafeChecked in
      do! at_ := now in
      do! going := ctrl running in
      if negb checked && (at_ < deadline)%num && going then
        do! _ := assertLinkHealthy in
        do! _ := sleep in
        await_param n deadline
      else ret true
  end.

Definition verifyGcsFailsafe (n : nat) : E bool :=
  do! l := gets link in
  match l with
  | None => ret true
  | Some _ =>
      do! _ := controller_send he_param (paramReadCommand (vehicleSystemId config) (vehicleComponentId config) FS_GCS_PARAM) in
      do! at_ := now in
      await_param n (at_ + PARAM_VERIFY_TIMEOUT_MS)%num
  end.

(** The landed and disarmed aircraft the restart barrier waits for. *)
Definition landed_and_disarmed (s : VehicleSnapshot) (at_ : num) : bool :=
  hasFreshControlTelemetry s at_ && negb (armed s) && near_ground (relativeAltitudeM <$> observation s).

Definition gate (s : VehicleSnapshot) (at_ : num) (c : Controller) : bool :=
  rd_ready (checkFlightReadiness config s at_) &&
  flightGateOpen (initiallyLandedAndDisarmed c) (armed s) (relativeAltitudeM <$> observation s) &&
  gcsFailsafeChecked c.

(** The first [n] turns of the wait for a verified vehicle; whether it is over. *)
Fixpoint waitForInitialState (n : nat) : E bool :=
  match n with
  | O => ret false
  | S n =>
      do! going := ctrl running in
      if negb going then ret true
      else
        do! _ := assertLinkHealthy in
        do! s := current in
        do! at_ := now in
        do! _ := set_ctrl (fun c =>
          if negb (initiallyLandedAndDisarmed c) && landed_and_disarmed s at_ then c <| initiallyLandedAndDisarmed := true |> else c) in
        do! open_ := ctrl (gate s at_) in
        if open_ : bool then
          do! _ := ended (he_ready s at_) (call config) in
          do! _ := set_ctrl (fun c => c <| ready := true |>) in
          ret true
        else
          do! _ := reportTelemetry s in
          do! _ := sleep in
          waitForInitialState n
  end.

(** [k], if the host is still running. *)
Definition while_running (k : E unit) : E unit :=
  do! going := ctrl running in
  if going : bool then k else ret tt.

(** [start], with at most [n] turns of each of its loops. *)
Definition start (n : nat) : E unit :=
  do! _ := set_ctrl (fun c => c <| running := true |>) in
  do! _ := (call config) in
  do! _ := modify (fun h => h <| link := Some newLink |>) in
  do! going := ctrl running in
  if negb going then modify (on_link link_close)
  else
    do! _ := modify (on_link (fun l => l <| listening := true |>)) in
    do! _ := ended he_begin (call config) in
    while_running (
      do! verified := verifyGcsFailsafe n in
      if negb verified then ret tt
      else while_running (
        do! waited := waitForInitialState n in
        if negb waited then ret tt
        else while_running (run n newClocks))).

(** [main]: a start that throws is cleaned up. *)
Definition main (n : nat) : E unit :=
  try_catch (start n) (fun _ => modify (request_shutdown)).
End controller.
