(* ===== verification/AssetControllerFacts.v ===== *)
(** * The controller of an Asset: when it acts

    Invariants of all that a process does, from its start on: nothing is done
    for a task while Core is out of reach or a recovery runs, nor before the
    vehicle was verified, and a recovery is requested only when it is due. *)

From Stdlib Require Import ZArith Lia String.
From stdpp Require Import base list option relations.
From S2P Require Import Prelude JsMap Json Contract JsState Doubles AssetConfig Vehicle MavCommands TaskEngine TaskEngineMoves TaskEngineKeeps TaskEngineFacts AssetHost AssetController.

Open Scope string_scope.
Open Scope list_scope.
Open Scope Z_scope.

#[local] Opaque n_lit n_of_Z n_add n_sub n_mul n_div n_abs SFltb SFleb.
#[local] Arguments contact : simpl never.

(** ** The trace *)

(** When Core was found out of reach. *)
Definition lost (e : HostEvent) : option num :=
  match e with he_checkin t _ false | he_polled t false | he_ingested t false => Some t | _ => None end.
Definition back (e : HostEvent) : bool := match e with he_polled _ true => true | _ => false end.
Definition requested (e : HostEvent) : option num := match e with he_recovery _ _ t _ => Some t | _ => None end.

(** Core was lost at [t], and not reached since. *)
Definition lost_since (t : num) (l : list HostEvent) : Prop :=
  exists a e b, l = a ++ e :: b /\ lost e = Some t /\ Forall (fun e => back e = false) b.

(** The last recovery was requested at [t]. *)
Definition recovered_at (t : num) (l : list HostEvent) : Prop :=
  exists a e b, l = a ++ e :: b /\ requested e = Some t /\ Forall (fun e => requested e = None) b.

(** Since Core was lost or a recovery was requested, Core was reached. *)
Definition in_touch (l : list HostEvent) : Prop :=
  forall a e b, l = a ++ e :: b -> lost e <> None \/ requested e <> None -> exists t, he_polled t true ∈ b.

(** Nothing that bears on contact. *)
Definition harmless (e : HostEvent) : bool :=
  bool_decide (lost e = None) && negb (back e) && bool_decide (requested e = None).

Lemma harmless_spec e : harmless e = true -> lost e = None /\ back e = false /\ requested e = None.
Proof.
  unfold harmless. intros [[H1 H2]%andb_true_iff H3]%andb_true_iff. apply bool_decide_eq_true in H1, H3. by destruct (back e).
Qed.

Lemma since_snoc t l e : lost_since t l -> back e = false -> lost_since t (l ++ [e]).
Proof.
  intros (a & x & b & -> & H & F) He. exists a, x, (b ++ [e]). rewrite <- app_assoc. split_and!; [done.. |].
  apply Forall_app. by repeat constructor.
Qed.

Lemma since_now t l e : lost e = Some t -> lost_since t (l ++ [e]).
Proof. intros H. exists l, e, []. by split_and!. Qed.

Lemma recovered_snoc t l e : recovered_at t l -> requested e = None -> recovered_at t (l ++ [e]).
Proof.
  intros (a & x & b & -> & H & F) He. exists a, x, (b ++ [e]). rewrite <- app_assoc. split_and!; [done.. |].
  apply Forall_app. by repeat constructor.
Qed.

Lemma recovered_now t l e : requested e = Some t -> recovered_at t (l ++ [e]).
Proof. intros H. exists l, e, []. by split_and!. Qed.

Lemma touch_nil : in_touch [].
Proof. by intros [] ? ?. Qed.

Lemma touch_snoc l e : in_touch l -> lost e = None -> requested e = None -> in_touch (l ++ [e]).
Proof.
  intros H E1 E2 a x b [(-> & -> & ->) | (c & -> & ->)]%snoc_cases Hx; [by destruct Hx |].
  destruct (H a x c eq_refl Hx) as [t Ht]. exists t. apply elem_of_app. by left.
Qed.

Lemma touch_back l t : in_touch (l ++ [he_polled t true]).
Proof.
  intros a x b [(-> & -> & ->) | (c & -> & ->)]%snoc_cases Hx; [by destruct Hx |].
  exists t. apply elem_of_app. right. by left.
Qed.

(** ** What may happen when *)

Section facts.
Context {dialect : MavLinkDialect} {math : MathFunctions} (config : AssetConfig).

#[local] Instance host : EngineHost AssetHost := asset_engine_host config.
#[local] Instance laws : EngineHostLaws AssetHost := asset_engine_laws config.

(** The vehicle is the configured one, heard and located lately, charged, with
    its failsafe not known to be off, and with a verified launch point. *)
Definition verified_vehicle (s : VehicleSnapshot) (at_ : num) : Prop :=
  (exists i, identity s = Some i /\ systemId i = vehicleSystemId config /\ componentId i = vehicleComponentId config /\
     vehicleType i = MavType_QUADROTOR /\ autopilot i = MavAutopilot_ARDUPILOTMEGA) /\
  (exists last, lastHeartbeatMs s = Some last /\ (HEARTBEAT_FRESH_MS < at_ - last)%num = false) /\
  (exists o, observation s = Some o /\ (POSITION_FRESH_MS < at_ - observedAtMs o)%num = false) /\
  (exists p, batteryRemainingPercent s = Some p /\ (p < minBatteryPercent config)%num = false) /\
  gcsFailsafeEnabled s <> Some false /\
  (launchElevationVerified s = true /\ launchElevationM s <> None).

(** Core was told that a verified vehicle is ready. *)
Definition told_ready (l : list HostEvent) : Prop := exists s t, he_ready s t true ∈ l.

(** A request to return is due: in Guided mode with fresh telemetry, not while
    landing or returning, and either Core was out of reach for the grace period,
    or the last request is at least a second old. *)
Definition recovery_called_for (s : VehicleSnapshot) (command : option (list Z)) (at_ : num) (l : list HostEvent) : Prop :=
  guided s = true /\ hasFreshControlTelemetry s at_ = true /\
  command <> Some (js "flight.land") /\ command <> Some (js "flight.return_to_launch") /\
  ((exists t, lost_since t l /\ (graceMs config <= at_ - t)%num = true) \/
   (exists t, recovered_at t l /\ (at_ - t < CORE_LOSS_RTL_RETRY_MS)%num = false)).

Definition legal (l : list HostEvent) (e : HostEvent) : Prop :=
  match e with
  | he_engine _ => in_touch l /\ told_ready l
  | he_ready s at_ _ => verified_vehicle s at_
  | he_recovery s command at_ _ => recovery_called_for s command at_ l
  | _ => True
  end.

Definition all_legal (l : list HostEvent) : Prop := forall a e b, l = a ++ e :: b -> legal a e.

Lemma legal_snoc l e : all_legal l -> legal l e -> all_legal (l ++ [e]).
Proof. intros H He a x b [(-> & -> & ->) | (c & -> & ->)]%snoc_cases; [done | by eapply H]. Qed.

(** ** The invariant *)

Definition settled (c : Contact) : Prop := down c = None /\ recovery c = false.

(** What the contact says of the trace. *)
Record tracks (c : Contact) (l : list HostEvent) : Prop := {
  tr_settled : settled c -> in_touch l;
  tr_down : forall t, down c = Some t -> lost_since t l;
  tr_attempt : forall t, attempt c = Some t -> recovered_at t l;
  tr_recovery : recovery c = true -> attempt c <> None
}.

Record invariant (h : AssetHost) : Prop := {
  inv_legal : all_legal (trace h);
  inv_tracks : tracks (contact h) (trace h)
}.

Lemma tracks_harmless c l e : harmless e = true -> tracks c l -> tracks c (l ++ [e]).
Proof.
  intros (E1 & E2 & E3)%harmless_spec [A B C D]. split; [| | | exact D].
  - intros H. apply touch_snoc; auto.
  - intros t Ht. apply since_snoc; auto.
  - intros t Ht. apply recovered_snoc; auto.
Qed.

Lemma inv_event h h' e : contact h' = contact h -> trace h' = trace h ++ [e] -> harmless e = true -> legal (trace h) e ->
  invariant h -> invariant h'.
Proof. intros E1 E2 H L [A B]. split; rewrite ?E1, E2; [by apply legal_snoc | by apply tracks_harmless]. Qed.

Lemma inv_same h h' : contact h' = contact h -> trace h' = trace h -> invariant h -> invariant h'.
Proof. intros E1 E2 [A B]. split; by rewrite ?E1, E2. Qed.

Lemma tracks_all c l l' : Forall (fun e => harmless e = true) l' -> tracks c l -> tracks c (l ++ l').
Proof.
  intros F. revert l. induction F as [| e l' He _ IH]; intros l H; [by rewrite app_nil_r |].
  rewrite (cons_middle e l l'), app_assoc. apply IH. by apply tracks_harmless.
Qed.

Lemma legal_all l l' : all_legal l -> (forall a e b, l' = a ++ e :: b -> legal (l ++ a) e) -> all_legal (l ++ l').
Proof.
  intros H. induction l' as [| e l' IH] using rev_ind; intros H'; [by rewrite app_nil_r |].
  rewrite app_assoc. apply legal_snoc; [| by apply (H' l' e [])]. apply IH. intros a x b ->. apply (H' a x (b ++ [e])).
  by rewrite <- app_assoc.
Qed.

(** Events that are always in order. *)
Definition mild (e : HostEvent) : Prop :=
  match e with he_shutdown_rtl _ | he_interrupted _ _ | he_param _ | he_heartbeat _ | he_begin _ => True | _ => False end.

Lemma mild_harmless e : mild e -> harmless e = true.
Proof. by destruct e. Qed.
Lemma mild_legal l e : mild e -> legal l e.
Proof. by destruct e. Qed.

Lemma inv_mild h h' : quiet mild h h' -> invariant h -> invariant h'.
Proof.
  intros [E (l & T & F)] [A B]. split; rewrite ?E, T.
  - apply legal_all; [done |]. intros a e b ->. apply mild_legal. apply Forall_app in F as [_ F]. by inv F.
  - apply tracks_all; [| done]. eapply Forall_impl; [apply mild_harmless | exact F].
Qed.

Lemma calm_mild h h' : calm h h' -> quiet mild h h'.
Proof. intros [_ H]. eapply quiet_weaken; [| exact H]. by intros []. Qed.

Lemma inv_calm h h' : calm h h' -> invariant h -> invariant h'.
Proof. intros H. by apply inv_mild, calm_mild. Qed.

(** ** The operations *)

(** What an operation does to a good host, in a phase where the vehicle may
    have to be told ready. *)
Definition good (phase : bool) (h : AssetHost) : Prop := invariant h /\ (phase = true -> told_ready (trace h)).
Definition good_after (phase : bool) (h h' : AssetHost) : Prop := good phase h -> good phase h'.

#[local] Instance good_preorder phase : PreOrder (good_after phase).
Proof. split; [by intros h H | by intros h1 h2 h3 H1 H2 H; apply H2, H1]. Qed.

Lemma told_more l l' : told_ready l -> told_ready (l ++ l').
Proof. intros (s & t & H). exists s, t. apply elem_of_app. by left. Qed.

Lemma good_trace phase h h' l : invariant h' -> trace h' = trace h ++ l -> good phase h -> good phase h'.
Proof. intros H T [_ G]. split; [done |]. intros P. rewrite T. by apply told_more, G. Qed.

Lemma good_quiet phase h h' : quiet mild h h' -> good_after phase h h'.
Proof. intros Q G. destruct (id Q) as [_ (l & T & _)]. eapply good_trace; [eapply inv_mild; [exact Q | apply G] | exact T | exact G]. Qed.

Lemma good_calm phase {A} (m : eff AssetHost A) : keeps calm m -> keeps (good_after phase) m.
Proof. intros H h. by apply good_quiet, calm_mild. Qed.

Lemma good_ctrl phase f : (forall h, contact (on_controller f h) = contact h) -> keeps (good_after phase) (set_ctrl f).
Proof. intros H. apply good_calm, calm_modify. intros h. split_and!; [done | apply H | done]. Qed.

Lemma good_noted phase {A} (event : num -> result A -> HostEvent) (m : eff AssetHost A) :
  (forall t r, mild (event t r)) -> keeps calm m -> keeps (good_after phase) (noted_at event m).
Proof. intros He Hm h. apply good_quiet. revert h. apply quiet_noted; [done |]. intros h. by apply calm_mild. Qed.

(** Core found out of reach: the event, then the note of it. *)
Lemma tracks_lost c l e t : lost e = Some t -> back e = false -> requested e = None -> tracks c l ->
  tracks (mkContact (Some (default t (down c))) (recovery c) (attempt c)) (l ++ [e]).
Proof.
  intros Hl Hb Hr [A B C D]. split.
  - by intros [? _].
  - intros t' [= <-]. destruct (down c) as [t0 |]; [exact (since_snoc _ _ _ (B t0 eq_refl) Hb) | exact (since_now _ _ _ Hl)].
  - intros t' Ht. apply recovered_snoc; auto.
  - exact D.
Qed.

Lemma noted_loss t h : contact (on_controller (note_loss t) h) =
  mkContact (Some (default t (down (contact h)))) (recovery (contact h)) (attempt (contact h)).
Proof. destruct h as [? ? ? [? [d |]] ? ? ?]; done. Qed.

Lemma good_lost phase h h1 e t : contact h1 = contact h -> trace h1 = trace h ++ [e] -> lost e = Some t ->
  (forall l, legal l e) -> back e = false -> requested e = None -> good phase h -> good phase (snd (core_lost t h1)).
Proof.
  intros E T Hl He Hb Hr G. eapply (good_trace phase h _ [e]); [| exact T | exact G]. destruct G as [[A B] _].
  split; change (trace (snd (core_lost t h1))) with (trace h1); rewrite T; [by apply legal_snoc |].
  change (snd (core_lost t h1)) with (on_controller (note_loss t) h1). rewrite noted_loss, E. by apply tracks_lost.
Qed.

(** *** What is told to Core *)

(** A call that is noted, and notes that Core is lost when it fails. *)
Lemma good_checkin phase telemetry : keeps (good_after phase)
  (try_catch (noted_at (fun failedAt r => he_checkin failedAt telemetry (is_ok r)) (call config))
     (fun _ => bind_eff now core_lost)).
Proof.
  intros h G. unfold try_catch, noted_at. pose proof (calm_call config h) as C.
  apply (good_calm phase (call config) (calm_call config) h) in G. destruct (call config h) as [[u | e] h1]; cbn [fst snd] in *.
  - eapply (good_trace phase h1); [| reflexivity | done]. by eapply (inv_event h1 _ (he_checkin (nowMs h1) telemetry true)); [| | | | apply G].
  - by apply (good_lost phase h1 _ (he_checkin (nowMs h1) telemetry false)).
Qed.

Ltac shape := unfold now, current, ctrl; keeps_shape.

Lemma good_report phase s : keeps (good_after phase) (reportTelemetry config s).
Proof.
  unfold reportTelemetry. apply keeps_bind; [apply _ | by apply keeps_gets, _ |]. intros at_.
  destruct (flightTelemetryForCheckin s at_); [| by apply good_ctrl].
  apply keeps_bind; [apply _ | by apply good_ctrl | intros _; apply good_checkin].
Qed.

Lemma good_heartbeat phase : keeps (good_after phase) (sendGcsHeartbeat config).
Proof.
  unfold sendGcsHeartbeat, controller_send, ended, noted. keeps_shape.
  apply good_noted; [done | apply calm_send].
Qed.

(** *** The poll *)

Lemma calm_gather : keeps calm (gather config).
Proof. unfold gather. keeps_shape; [apply calm_awaited | apply calm_task]. Qed.

Lemma mild_calm {A} (m : eff AssetHost A) : keeps calm m -> keeps (quiet mild) m.
Proof. intros H h. by apply calm_mild. Qed.

Lemma mild_ctrl f : (forall h, contact (on_controller f h) = contact h) -> keeps (quiet mild) (set_ctrl f).
Proof. intros H. apply mild_calm, calm_modify. intros h. split_and!; [done | apply H | done]. Qed.

Lemma mild_interrupted tasks : keeps (quiet mild) (fail_interrupted config tasks).
Proof.
  unfold fail_interrupted. shape.
  - intros h. destruct (abandon_quiet config a h) as [E T]. split; [exact E |]. exists []. by rewrite app_nil_r.
  - apply mild_ctrl. intros [? ? ? [? ? ? ? ? ? ? ? ? ? [d |]] ? ? ?]; done.
  - apply quiet_noted; [done | apply mild_calm, calm_call].
  - by apply mild_ctrl.
Qed.

(** The contact after a poll that succeeded. *)
Definition reached (c c' : Contact) : Prop := c' = mkContact None (recovery c) (attempt c) \/ c' = mkContact None false None.

Lemma end_recovery_contact h : contact (on_controller end_recovery h) = contact h \/
  contact (on_controller end_recovery h) = mkContact (down (contact h)) false None.
Proof. destruct h as [? ? ? [? ? ? [] [] ? ? ? ? ? ? ? ?] ? ? ?]; cbn; auto. Qed.

Lemma reconcile_spec tasks h : exists l, trace (snd (reconcileAfterReconnect config tasks h)) = trace h ++ l /\ Forall mild l /\
  (contact (snd (reconcileAfterReconnect config tasks h)) = contact h \/
   fst (reconcileAfterReconnect config tasks h) = Ok tt /\
   contact (snd (reconcileAfterReconnect config tasks h)) = mkContact (down (contact h)) false None).
Proof.
  unfold reconcileAfterReconnect, ctrl, bind_eff, gets. destruct (negb _).
  { exists []. rewrite app_nil_r. split_and!; [done.. | by left]. }
  destruct (mild_interrupted tasks h) as [E (l & T & F)]. exists l.
  destruct (fail_interrupted config tasks h) as [[[] | e] h1]; cbn [snd] in *; [| by split_and!; [.. | left]].
  split_and!; [exact T | exact F |]. change (snd (set_ctrl end_recovery h1)) with (on_controller end_recovery h1).
  destruct (end_recovery_contact h1) as [-> | ->]; rewrite E; [by left | by right].
Qed.

Lemma poll_spec h : exists l, trace (snd (poll_once config h)) = trace h ++ l /\ Forall mild l /\
  match fst (poll_once config h) with
  | Ok _ => reached (contact h) (contact (snd (poll_once config h)))
  | Throw _ => contact (snd (poll_once config h)) = contact h
  end.
Proof.
  assert (E0 : poll_once config h = match gather config h with
    | (Ok tasks, h1) => match (if isCoreDown (controller h1) || coreLossRecovery (controller h1)
                               then reconcileAfterReconnect config tasks else ret tt) h1 with
                        | (Ok _, h2) => set_ctrl (fun c => c <| lastTasks := toAuthoritative tasks |> <| coreDownSince := None |>) h2
                        | (Throw e, h2) => (Throw e, h2)
                        end
    | (Throw e, h1) => (Throw e, h1)
    end) by done.
  rewrite E0. clear E0. destruct (mild_calm _ calm_gather h) as [E (l & T & F)].
  destruct (gather config h) as [[tasks | e] h1]; cbn [snd] in *; [| by exists l].
  assert (Last : forall h2, contact (snd (set_ctrl (fun c => c <| lastTasks := toAuthoritative tasks |> <| coreDownSince := None |>) h2)) =
    mkContact None (recovery (contact h2)) (attempt (contact h2))) by done.
  destruct (isCoreDown _ || _).
  - destruct (reconcile_spec tasks h1) as (l' & T' & F' & K). rewrite T, <- app_assoc in T'. exists (l ++ l').
    destruct (reconcileAfterReconnect config tasks h1) as [[[] | e] h2]; cbn [fst snd] in *.
    + split_and!; [exact T' | by apply Forall_app |]. rewrite Last.
      destruct K as [-> | [_ ->]]; rewrite E; [by left | by right].
    + split_and!; [exact T' | by apply Forall_app |]. destruct K as [-> | [[=] _]]. exact E.
  - exists l. split_and!; [exact T | exact F |]. cbn [ret fst]. left. by rewrite <- E.
Qed.

Lemma tracks_reached c c' l t : reached c c' -> tracks c l -> tracks c' (l ++ [he_polled t true]).
Proof.
  intros [-> | ->] [A B C D]; (split; [intros _; apply touch_back | done | | done]).
  - intros t' Ht. apply recovered_snoc; auto.
  - done.
Qed.

Lemma good_poll phase at_ : keeps (good_after phase) (pollCore config at_).
Proof.
  intros h G. unfold pollCore, try_catch, ended, noted, noted_at.
  destruct (poll_spec h) as (l & T & F & K). destruct (poll_once config h) as [[[] | e] h1]; cbn [fst snd] in *.
  - eapply (good_trace phase h _ (l ++ [he_polled at_ true])); [| by cbn; rewrite T, app_assoc | exact G].
    assert (Q : invariant (h <| trace := trace h1 |>)) by (apply (inv_mild h); [split; [done | by exists l] | apply G]).
    destruct Q as [A B]. split; [by apply legal_snoc |]. exact (tracks_reached _ _ _ at_ K B).
  - apply (good_lost phase h1 _ (he_polled at_ false)); try done.
    apply (good_quiet phase h); [split; [exact K | by exists l] | exact G].
Qed.

(** *** Recovery *)

Lemma observe_same s at_ c : coreDownSince (observe_recovery s at_ c) = coreDownSince c /\
  coreLossRecovery (observe_recovery s at_ c) = coreLossRecovery c /\
  lastCoreLossRecoveryAttemptMs (observe_recovery s at_ c) = lastCoreLossRecoveryAttemptMs c.
Proof. unfold observe_recovery. destruct (coreLossRecovery c && _ && _ && _ && _); [| done]. by destruct (bool_decide _ || _). Qed.

Lemma observe_contact s at_ h : contact (on_controller (observe_recovery s at_) h) = contact h.
Proof. destruct (observe_same s at_ (controller h)) as (E1 & E2 & E3). unfold contact. cbn. by rewrite E1, E2, E3. Qed.

Lemma due_called_for s at_ h : invariant h -> ~ settled (contact h) -> recovery_due config s at_ h = true ->
  recovery_called_for s (activeCommand (taskEngine h)) at_ (trace h).
Proof.
  unfold recovery_due, shouldRequestCoreLossRecovery. intros [_ [A B C D]] Ns [[H _]%andb_true_iff Hl]%andb_true_iff.
  destruct (_ || coreLossRecoveryRelinquished _); [done |].
  destruct (bool_decide (_ = Some (js "flight.land"))) eqn:L; [done |]. apply bool_decide_eq_false in L.
  destruct (bool_decide (_ = Some (js "flight.return_to_launch"))) eqn:Q; [done |]. apply bool_decide_eq_false in Q. cbn [orb] in H.
  destruct (guided s) eqn:G; [| done]. destruct (hasFreshControlTelemetry s at_) eqn:F; [| done]. cbn [negb orb] in H.
  split_and!; try done.
  destruct (coreLossRecovery (controller h)) eqn:Cr.
  - right. destruct (attempt (contact h)) as [t |] eqn:At; [| by destruct (D Cr)]. exists t. split; [by apply C |].
    change (lastCoreLossRecoveryAttemptMs (controller h)) with (attempt (contact h)) in Hl. rewrite At in Hl. by apply negb_true_iff.
  - left. change (coreDownSince (controller h)) with (down (contact h)) in H. destruct (down (contact h)) as [t |] eqn:Dn.
    + exists t. split; [by apply B | exact H].
    + by destruct Ns.
Qed.

(** The request: the attempt is noted, then the command is sent, whatever
    becomes of it. *)
Lemma good_request phase s command at_ h : recovery_called_for s command at_ (trace h) -> good phase h ->
  good phase (snd (bind_eff (set_ctrl (fun c => c <| lastCoreLossRecoveryAttemptMs := Some at_ |> <| coreLossRecovery := true |>))
    (fun _ => try_catch (controller_send config (he_recovery s command at_)
       (returnToLaunchCommand (vehicleSystemId config) (vehicleComponentId config))) (fun _ => ret tt)) h)).
Proof.
  intros K G. unfold controller_send, ended, noted, noted_at, try_catch, bind_eff. cbn [set_ctrl modify].
  set (h1 := on_controller _ h). destruct (calm_send config (returnToLaunchCommand (vehicleSystemId config) (vehicleComponentId config)) h1)
    as [_ [E (l & T & F)]].
  destruct (link_send _ _ h1) as [r h2]. cbn [snd] in *. set (e := he_recovery s command at_ (is_ok r)).
  assert (Ec : contact h2 = mkContact (down (contact h)) true (Some at_)) by (rewrite E; done).
  assert (Et : trace h2 = trace h ++ l) by exact T.
  assert (M : invariant (record e h2)).
  { assert (Fm : Forall mild l) by (eapply Forall_impl; [| exact F]; by intros []).
    destruct (inv_mild h (h <| trace := trace h2 |>)) as [A [B1 B2 B3 B4]]; [split; [done | by exists l] | apply G |].
    split; [apply legal_snoc; [exact A |]; cbn; rewrite Et |].
    - destruct K as (K1 & K2 & K3 & K4 & K5). split_and!; try done. destruct K5 as [(t & (a & x & b & -> & Hx & Fb) & Ht) | (t & (a & x & b & -> & Hx & Fb) & Ht)];
        [left | right]; exists t; (split; [| exact Ht]); exists a, x, (b ++ l); rewrite <- app_assoc; (split; [done |]); (split; [done |]);
        apply Forall_app; (split; [done |]); (eapply Forall_impl; [| exact Fm]); by intros [].
    - change (contact (record e h2)) with (contact h2). rewrite Ec. cbn [trace record]. split.
      + by intros [_ [=]].
      + intros t Ht. apply since_snoc; [by apply B2 | done].
      + intros t [= <-]. by apply recovered_now.
      + done. }
  assert (P : good phase (record e h2)) by (eapply (good_trace phase h _ (l ++ [e])); [exact M | cbn; by rewrite Et, app_assoc | exact G]).
  by destruct r.
Qed.

Lemma good_watch phase s at_ h : ~ settled (contact h) -> good phase h -> good phase (snd (watchCoreLossRecovery config s at_ h)).
Proof.
  intros Ns G. unfold watchCoreLossRecovery. unfold bind_eff at 1. cbn [set_ctrl modify].
  set (h1 := on_controller (observe_recovery s at_) h).
  assert (E1 : contact h1 = contact h) by apply observe_contact.
  assert (G1 : good phase h1) by (apply (good_trace phase h _ []); [apply (inv_same h); [done.. | apply G] | by rewrite app_nil_r | exact G]).
  rewrite <- E1 in Ns. clearbody h1. clear G E1. unfold bind_eff at 1. unfold gets at 1.
  destruct (recovery_due config s at_ h1) eqn:Hd; [| exact G1]. cbn [negb].
  unfold bind_eff at 1. unfold gets at 1. apply good_request; [| exact G1]. apply due_called_for; [apply G1 | done..].
Qed.

(** *** A round *)

Lemma engine_harmless e : engine_or_shutdown e -> harmless e = true.
Proof. by destruct e. Qed.

Lemma legal_engine_run l l' : Forall engine_or_shutdown l' -> in_touch l -> told_ready l -> all_legal l ->
  all_legal (l ++ l') /\ in_touch (l ++ l').
Proof.
  intros F. induction l' as [| e l' IH] using rev_ind; intros Ht Hr Hl; [by rewrite app_nil_r |].
  apply Forall_app in F as [F Fe]. apply Forall_inv in Fe. destruct (IH F Ht Hr Hl) as [A B].
  destruct (harmless_spec e (engine_harmless e Fe)) as (E1 & _ & E3).
  rewrite app_assoc. split; [apply legal_snoc; [done |] | by apply touch_snoc].
  destruct e; try done. split; [done | by apply told_more].
Qed.

Lemma good_round s at_ h : settled (contact h) -> good true h -> good true (snd (execute_round config s at_ h)).
Proof.
  intros Hs G. unfold execute_round, try_catch, ended, noted, noted_at, bind_eff. cbn [ctrl gets].
  destruct (ingest_quiet config (lastTasks (controller h)) s at_ h) as [E (l & T & F)].
  change (controller_host config) with (asset_engine_host config).
  destruct (ingest config (lastTasks (controller h)) s at_ h) as [r h1]. cbn [snd] in *.
  assert (M : good true h1).
  { destruct G as [[A B] C]. eapply (good_trace true h _ l); [| exact T | by split].
    destruct (legal_engine_run (trace h) l F (tr_settled _ _ B Hs) (C eq_refl) A) as [A' _].
    split; rewrite T; [done |]. rewrite E. apply tracks_all; [| done]. eapply Forall_impl; [apply engine_harmless | exact F]. }
  destruct r as [[] | e].
  - eapply (good_trace true h1); [| reflexivity | exact M]. by eapply (inv_event h1 _ (he_ingested at_ true)); [| | | | apply M].
  - by apply (good_lost true h1 _ (he_ingested at_ false)).
Qed.

Lemma good_control : keeps (good_after true) (control config).
Proof.
  intros h G. unfold control, now, current, ctrl, bind_eff, gets. cbn [fst snd].
  destruct (coreLossRecovery (controller h)) eqn:R; [apply good_watch; [intros [_ K]; unfold contact in K; cbn in K; congruence | exact G] |].
  destruct (isCoreDown (controller h)) eqn:D; cbn [negb].
  - apply good_watch; [| exact G]. intros [K _]. unfold contact in K. cbn in K. unfold isCoreDown in D. by rewrite K in D.
  - apply good_round; [| exact G]. split; [| exact R]. unfold contact. cbn. unfold isCoreDown in D. by destruct (coreDownSince (controller h)).
Qed.

(** *** The loops *)

Lemma good_sleep phase : keeps (good_after phase) (sleep config).
Proof. unfold sleep. keeps_shape. apply good_calm, calm_call. Qed.

Lemma good_healthy phase : keeps (good_after phase) assertLinkHealthy.
Proof.
  unfold assertLinkHealthy. apply keeps_bind; [apply _ | by apply keeps_gets, _ |]. intros l.
  destruct (link_status <$> l) as [[] |]; cbn; by keeps_shape.
Qed.

Lemma good_every phase at_ last interval work : keeps (good_after phase) work -> keeps (good_after phase) (every at_ last interval work).
Proof. intros H. unfold every. by keeps_shape. Qed.

Lemma good_turn clocks : keeps (good_after true) (run_turn config clocks).
Proof.
  unfold run_turn, now, current. keeps_shape; try (apply good_every); keeps_shape;
    [apply good_healthy | apply good_heartbeat | apply good_poll | apply good_report | apply good_control | apply good_sleep].
Qed.

Lemma good_run n clocks : keeps (good_after true) (run config n clocks).
Proof.
  revert clocks. induction n as [| n IH]; intros clocks; cbn [run]; [by apply keeps_ret, _ |]. unfold ctrl. keeps_shape.
  - apply good_turn.
  - apply IH.
Qed.

(** *** Getting ready *)

Lemma failing_nil b name text : failing b name text = [] -> b = false.
Proof. by destruct b. Qed.

Lemma ready_verified s at_ : rd_ready (checkFlightReadiness config s at_) = true -> verified_vehicle s at_.
Proof.
  intros H%bool_decide_eq_true. unfold readiness_failures in H.
  apply app_nil in H as [Hl [Hp [Hf [Hb He]%app_nil]%app_nil]%app_nil].
  apply failing_nil in Hp, Hf, He. apply orb_false_iff in He as [He1%negb_false_iff He2%bool_decide_eq_false].
  apply bool_decide_eq_false in Hf. unfold link_failures in Hl. destruct (identity s) as [i |] eqn:Hi; [| done].
  apply app_nil in Hl as [L1 [L2 [L3 L4]%app_nil]%app_nil]. apply failing_nil in L1, L2, L3, L4.
  apply orb_false_iff in L2 as [L2 L2']. apply negb_false_iff, Z.eqb_eq in L2, L2', L3, L4.
  unfold checkBatteryReadiness in Hb. unfold verified_vehicle. split_and!; try done.
  - by exists i.
  - destruct (lastHeartbeatMs s) as [last |]; [by exists last | done].
  - destruct (observation s) as [o |]; [by exists o | done].
  - destruct (batteryRemainingPercent s) as [p |]; [| done]. destruct (p < minBatteryPercent config)%num eqn:E; [done | by exists p].
Qed.

(** Telling Core, and what follows when it was told. *)
Lemma good_ready s at_ h : verified_vehicle s at_ -> good false h ->
  good false (snd (ended (he_ready s at_) (call config) h)) /\
  (fst (ended (he_ready s at_) (call config) h) = Ok tt -> told_ready (trace (snd (ended (he_ready s at_) (call config) h)))).
Proof.
  intros V G. unfold ended, noted, noted_at. pose proof (good_calm false _ (calm_call config) h G) as G1.
  destruct (call config h) as [r h1]. cbn [fst snd] in *. split.
  - eapply (good_trace false h1); [| reflexivity | done]. by eapply (inv_event h1 _ (he_ready s at_ (is_ok r))); [| | | | apply G1].
  - intros ->. exists s, at_. cbn. apply elem_of_app. right. by left.
Qed.

Lemma bind_cases {A B} (m : eff AssetHost A) (k : A -> eff AssetHost B) h (Q : result B * AssetHost -> Prop) :
  (forall a h1, m h = (Ok a, h1) -> Q (k a h1)) -> (forall e h1, m h = (Throw e, h1) -> Q (Throw e, h1)) -> Q (bind_eff m k h).
Proof. unfold bind_eff. intros H1 H2. destruct (m h) as [[a | e] h1]; auto. Qed.

(** What the wait leaves: a good host, told to be ready if it is over while the
    host runs. *)
Definition waited (x : result bool * AssetHost) : Prop :=
  good false (snd x) /\ (fst x = Ok true -> running (controller (snd x)) = false \/ told_ready (trace (snd x))).

Lemma good_after_fst {A} (m : eff AssetHost A) h r h1 : keeps (good_after false) m -> m h = (r, h1) -> good false h -> good false h1.
Proof. intros H E G. specialize (H h G). by rewrite E in H. Qed.

Lemma wait_spec n h : good false h -> waited (waitForInitialState config n h).
Proof.
  revert h. induction n as [| n IH]; intros h G; cbn [waitForInitialState]; [by split |].
  apply bind_cases; [| done]. intros going h0 [= <- <-]. destruct (running (controller h)) eqn:Hrun; cbn [negb]; [| split; [done | by left]].
  apply bind_cases; [| intros e h1 E; split; [by eapply good_after_fst; [apply good_healthy | exact E |] | done]].
  intros [] h1 E1. apply (good_after_fst _ _ _ _ (good_healthy false) E1) in G. clear E1 Hrun h.
  apply bind_cases; [| done]. intros s ? [= <- <-]. apply bind_cases; [| done]. intros at_ ? [= <- <-].
  set (s := vehicle_snapshot h1). set (t := nowMs h1). apply bind_cases; [| done]. intros [] h2 E2.
  eapply good_after_fst in G as G2; [| | exact E2].
  2: { apply good_ctrl. intros [? ? ? [? ? ? ? ? ? [] ? ? ? ? ? ?] ? ? ?]; cbn; [done |]. by destruct (landed_and_disarmed _ _). }
  clear E2 G. apply bind_cases; [| done]. intros open_ ? [= <- <-].
  destruct (gate config s t (controller h2)) eqn:Hg.
  - apply andb_true_iff in Hg as [[Hg _]%andb_true_iff _]. apply ready_verified in Hg. destruct (good_ready s t h2 Hg G2) as [G3 T3].
    apply bind_cases; [| intros e h3 E; rewrite E in G3; by split]. intros [] h3 E. rewrite E in G3, T3. cbn [fst snd] in *.
    specialize (T3 eq_refl). split; [| intros _; right; exact T3].
    by apply (good_ctrl false (fun c => c <| ready := true |>)).
  - apply bind_cases; [| intros e h3 E; split; [by eapply good_after_fst; [apply good_report | exact E |] | done]].
    intros [] h3 E3. apply (good_after_fst _ _ _ _ (good_report false s) E3) in G2.
    apply bind_cases; [| intros e h4 E; split; [by eapply good_after_fst; [apply good_sleep | exact E |] | done]].
    intros [] h4 E4. apply (good_after_fst _ _ _ _ (good_sleep false) E4) in G2. by apply IH.
Qed.

Lemma good_param n : keeps (good_after false) (verifyGcsFailsafe config n).
Proof.
  unfold verifyGcsFailsafe, controller_send, ended, noted, now. keeps_shape.
  - apply good_noted; [done | apply calm_send].
  - generalize (a0 + PARAM_VERIFY_TIMEOUT_MS)%num as deadline. induction n as [| n IH]; intros deadline; cbn [await_param]; [by apply keeps_ret, _ |].
    unfold ctrl, now. keeps_shape; [apply good_healthy | apply good_sleep | apply IH].
Qed.

Lemma good_phase h : good true h -> good false h.
Proof. by intros [A _]. Qed.

Lemma good_start n : keeps (good_after false) (start config n).
Proof.
  unfold start, while_running, ctrl, ended, noted. apply keeps_bind; [apply _ | by apply good_ctrl | intros _].
  apply keeps_bind; [apply _ | apply good_calm, calm_call | intros _].
  apply keeps_bind; [apply _ | by apply good_calm, calm_modify | intros _].
  apply keeps_bind; [apply _ | by apply keeps_gets, _ | intros going]. destruct (negb going); [by apply good_calm, calm_modify |].
  apply keeps_bind; [apply _ | by apply good_calm, calm_modify | intros _].
  apply keeps_bind; [apply _ | by apply good_noted; [| apply calm_call] | intros _].
  apply keeps_bind; [apply _ | by apply keeps_gets, _ | intros going']. destruct going'; [| by apply keeps_ret, _].
  apply keeps_bind; [apply _ | apply good_param | intros verified]. destruct (negb verified); [by apply keeps_ret, _ |].
  apply keeps_bind; [apply _ | by apply keeps_gets, _ | intros going'']. destruct going''; [| by apply keeps_ret, _].
  intros h G. pose proof (wait_spec n h G) as W. apply bind_cases; [| intros e h1 E; rewrite E in W; apply W].
  intros over h1 E. rewrite E in W. destruct W as [G1 W]. cbn [fst snd] in *. destruct over; [| exact G1].
  specialize (W eq_refl). cbn [negb]. unfold bind_eff, gets. destruct (running (controller h1)) eqn:R; [| exact G1].
  destruct W as [[=] | W]. apply good_phase, good_run. split; [apply G1 | by intros _].
Qed.

Lemma good_main n : keeps (good_after false) (main config n).
Proof.
  unfold main. apply keeps_caught; [apply _ | apply good_start | intros e].
  apply good_calm. intros h. apply calm_request.
Qed.

Lemma good_new start_ awaits : good false (newHost start_ awaits).
Proof.
  split; [| done]. split; [by intros [] ? ? |]. split; [intros _; apply touch_nil | by intros ? [=].. | done].
Qed.

Lemma main_legal n start_ awaits : all_legal (trace (snd (main config n (newHost start_ awaits)))).
Proof. apply (good_main n (newHost start_ awaits)), good_new. Qed.

(** C7: the engine of the process only works for a verified vehicle and in
    touch with Core: before anything it does -- a command, a start, a report --
    Core was told that the vehicle is ready, at a time when it was the
    configured one, freshly heard and located, charged, and its launch point
    verified; and since Core was last found out of reach, and since a recovery
    was last requested, a poll of Core succeeded. *)
Theorem work_only_when_verified_and_in_touch n start_ awaits l1 e l2 :
  trace (snd (main config n (newHost start_ awaits))) = l1 ++ he_engine e :: l2 ->
  in_touch l1 /\ exists s t, he_ready s t true ∈ l1 /\ verified_vehicle s t.
Proof.
  intros E. destruct (main_legal n start_ awaits _ _ _ E) as [Ht (s & t & H)]. split; [exact Ht |]. exists s, t. split; [exact H |].
  apply list_elem_of_split in H as (a & b & ->). rewrite <- app_assoc in E. exact (main_legal n start_ awaits _ _ _ E).
Qed.

(** C8: the controller asks the aircraft to return only when it has to: in
    Guided mode, with fresh telemetry, not while it is landing or returning,
    and only after Core was out of reach for the whole grace period, with no
    poll that succeeded since it was lost, or to repeat a request made a second
    ago or earlier. *)
Theorem recovery_only_when_due n start_ awaits l1 s command at_ ok l2 :
  trace (snd (main config n (newHost start_ awaits))) = l1 ++ he_recovery s command at_ ok :: l2 ->
  recovery_called_for s command at_ l1.
Proof. intros E. exact (main_legal n start_ awaits _ _ _ E). Qed.

(** ** The engine in the process *)

(** What the process does to the engine is a run of it. *)
Abbreviation steps := (rtc (step config)).

Lemma steps_calm {A} (m : eff AssetHost A) : keeps calm m -> keeps steps m.
Proof. intros H h. destruct (calm_history _ _ (H h)) as [E T]. apply rtc_once. by apply step_world. Qed.

Lemma steps_same f : (forall h, taskEngine (f h) = taskEngine h /\ trace (f h) = trace h) -> keeps steps (modify f).
Proof. intros H h. destruct (H h) as [E T]. apply rtc_once, step_world; [exact E |]. unfold history. cbn. unfold host_history. by rewrite T. Qed.

Lemma steps_noted {A} (event : num -> result A -> HostEvent) (m : eff AssetHost A) :
  (forall t r, engine_event (event t r) = None) -> keeps steps m -> keeps steps (noted_at event m).
Proof.
  intros He Hm h. specialize (Hm h). unfold noted_at. destruct (m h) as [r h1]. etrans; [exact Hm |]. apply rtc_once, step_world; [done |].
  unfold history. cbn. unfold host_history. cbn. rewrite omap_app. cbn. by rewrite He, app_nil_r.
Qed.

Lemma steps_ctrl f : keeps steps (set_ctrl f).
Proof. by apply steps_same. Qed.
Lemma steps_await : keeps steps (awaited config).
Proof. apply steps_calm, calm_awaited. Qed.
Lemma steps_call : keeps steps (call config).
Proof. apply steps_calm, calm_call. Qed.
Lemma steps_send m : keeps steps (link_send config m).
Proof. apply steps_calm, calm_send. Qed.
Lemma steps_gets {A} (f : AssetHost -> A) : keeps steps (gets f).
Proof. apply keeps_gets, _. Qed.
Lemma steps_ret {A} (a : A) : keeps steps (ret a).
Proof. apply keeps_ret, _. Qed.
Lemma steps_throw {A} e : keeps steps (throw (A := A) e).
Proof. apply keeps_raise, _. Qed.

Lemma steps_ingest tasks s at_ : keeps steps (ingest config tasks s at_).
Proof. intros h. apply rtc_once. by apply (step_round _ _ _ tasks (mkControl s at_)). Qed.
Lemma steps_abandon rehold : keeps steps (abandonActiveForRecovery (host := host) rehold).
Proof. intros h. apply rtc_once. by apply (step_abandon _ _ _ rehold). Qed.

#[local] Hint Resolve steps_ctrl steps_await steps_call steps_send steps_gets steps_ret steps_throw steps_ingest steps_abandon : keeps.

Ltac stepping :=
  unfold while_running, every, sleep, ctrl, now, current, controller_send, ended, noted, core_task;
  repeat match goal with
  | |- keeps _ (bind_eff _ _) => apply keeps_bind; [apply _ | | intros ?]
  | |- keeps _ (try_catch _ _) => apply keeps_caught; [apply _ | | intros ?]
  | |- keeps _ (noted_at _ _) => apply steps_noted; [done |]
  | |- keeps _ (modify _) => by apply steps_same
  | |- keeps _ (if ?b then _ else _) => destruct b
  | |- keeps _ (match ?x with _ => _ end) => destruct x
  | |- _ => solve [auto 2 with keeps]
  end.

Lemma steps_report s : keeps steps (reportTelemetry config s).
Proof. unfold reportTelemetry, core_lost. stepping. Qed.
Lemma steps_poll at_ : keeps steps (pollCore config at_).
Proof. unfold pollCore, poll_once, gather, reconcileAfterReconnect, fail_interrupted, core_lost. stepping. Qed.
Lemma steps_watch s at_ : keeps steps (watchCoreLossRecovery config s at_).
Proof. unfold watchCoreLossRecovery. stepping. Qed.
Lemma steps_healthy : keeps steps assertLinkHealthy.
Proof. unfold assertLinkHealthy. stepping. Qed.
#[local] Hint Resolve steps_report steps_poll steps_watch steps_healthy : keeps.

Lemma steps_run n clocks : keeps steps (run config n clocks).
Proof.
  revert clocks. induction n as [| n IH]; intros clocks; cbn [run]; [apply steps_ret |].
  unfold run_turn, control, execute_round, sendGcsHeartbeat, core_lost. stepping.
Qed.

Lemma steps_wait n : keeps steps (waitForInitialState config n).
Proof. induction n as [| n IH]; cbn [waitForInitialState]; [apply steps_ret |]. stepping. Qed.

Lemma steps_param n deadline : keeps steps (await_param config n deadline).
Proof. induction n as [| n IH]; cbn [await_param]; [apply steps_ret |]. stepping. Qed.
#[local] Hint Resolve steps_run steps_wait steps_param : keeps.

Lemma steps_main n : keeps steps (main config n).
Proof.
  unfold main. apply keeps_caught; [apply _ | unfold start, verifyGcsFailsafe; stepping | intros e].
  apply steps_calm. intros h. apply calm_request.
Qed.

(** C10: the process asks Core to start a task at most once: from its start on,
    whatever Core, the link, the pilot and the aircraft do, and whatever failed,
    was lost, taken over or recovered in between, no task id is asked for
    twice. *)
Theorem tasks_start_once n start_ awaits : NoDup (started (host_history (snd (main config n (newHost start_ awaits))))).
Proof. apply (runs_start_once (laws := laws) config (newHost start_ awaits)); [done | apply (steps_main n (newHost start_ awaits))]. Qed.
End facts.
