(* ===== verification/AssetSample.v ===== *)
(** * A flight of the sample Asset

    A script of a process from its start: the vehicle is verified on the ground,
    armed by its pilot, takes off for a task, and loses Core in the air. *)

From Stdlib Require Import ZArith Lia String.
From stdpp Require Import base list option relations.
From S2P Require Import Prelude JsMap Json Contract JsState Doubles AssetConfig Vehicle MavCommands TaskEngine TaskEngineMoves TaskEngineFacts AssetHost AssetController AssetControllerFacts.

Open Scope string_scope.
Open Scope list_scope.
Open Scope Z_scope.

#[global] Existing Instance sample_dialect.

(** Functions that suffice for short distances. *)
#[global] Instance sample_math : MathFunctions := {
  Math_sin x := x; Math_cos _ := n_of_Z 1; Math_asin x := x; Math_pow x _ := (x * x)%num;
  Math_hypot x y z := n_sqrt (x * x + y * y + z * z)%num
}.

(** A message at a time. *)
Definition hears (at_ : Z) (m : ReceivedData) : num * Incoming := (n_of_Z at_, in_message (mkReceived 7 1 m)).
Definition beat (at_ base mode_ : Z) : num * Incoming := hears at_ (rx_heartbeat 2 3 base mode_).
Definition position (at_ alt rel : Z) : num * Incoming := hears at_ (rx_global_position 470000000 80000000 alt rel 0 0 0 65535).

(** An await that takes until [at_]. *)
Definition answers (at_ : Z) (l : list (num * Incoming)) (tasks : list TaskResource) : Await := mkAwait l (n_of_Z at_) None tasks.
Definition fails (at_ : Z) (l : list (num * Incoming)) : Await := mkAwait l (n_of_Z at_) (Some (PlainError "fetch failed")) [].

Definition sample_takeoff (s : TaskStatus) : TaskResource :=
  mkResource (js "task-1") (js "flight.takeoff") s None (JObject [(js "altitude_m", n_json (n_of_Z 450))]).

Definition sample_telemetry_at (at_ base alt rel : Z) : list (num * Incoming) :=
  [beat at_ base 4; position at_ alt rel].

(** Opening, registering, the parameter, and three positions on the ground. *)
Definition sample_startup : list Await :=
  [answers 100 [] []; answers 200 [] []; answers 300 [] [];
   answers 400 [beat 350 0 4; hears 360 (rx_param_value FS_GCS_PARAM (n_of_Z 1)); hears 370 (rx_sys_status 80)] [];
   answers 1400 (sample_telemetry_at 500 0 430000 0 ++ sample_telemetry_at 1000 0 430000 0 ++ sample_telemetry_at 1300 0 430000 0) [];
   answers 1500 [] []].

(** The first turn, where Core has a take-off and the pilot has armed: a
    heartbeat, the poll, a check-in, the grant, the command, and the pause. *)
Definition sample_flight : list Await :=
  [answers 1600 [] []; answers 1700 (sample_telemetry_at 1650 128 430000 0) [sample_takeoff pending]; answers 1800 [] [];
   answers 1900 [] [sample_takeoff in_progress]; answers 2000 [] []; answers 2100 (sample_telemetry_at 2050 128 440000 10000) []].

(** Core is lost: the poll and the check-in fail, and when the aircraft is next
    heard, the grace period is over. *)
Definition sample_loss : list Await :=
  [answers 2700 (sample_telemetry_at 2650 128 450000 20000) [];
   answers 2750 [] []; fails 2800 []; fails 2850 [];
   answers 40000 (sample_telemetry_at 39900 128 450000 20000) [];
   answers 40010 [] []; fails 40020 []; fails 40030 []; answers 40040 [] []; answers 40100 [] []].

(** The process, with at most four turns of each of its loops. *)
Definition flown : AssetHost := snd (main sample_config 4 (newHost (n_of_Z 0) (sample_startup ++ sample_flight ++ sample_loss))).

(** What happened before, at and after a place in its trace. *)
Definition before (n : nat) : list HostEvent := take n (trace flown).
Definition at_place (n : nat) : HostEvent := nth n (trace flown) (he_begin false).
Definition after (n : nat) : list HostEvent := drop (S n) (trace flown).

Lemma work_only_when_verified_and_in_touch_witness :
  at_place 6 = he_engine (ev_started (js "task-1") true) /\
  in_touch (before 6) /\ exists s t, he_ready s t true ∈ before 6 /\ verified_vehicle sample_config s t.
Proof.
  split; [vm_compute; reflexivity |].
  apply (work_only_when_verified_and_in_touch sample_config 4 (n_of_Z 0) (sample_startup ++ sample_flight ++ sample_loss) (before 6)
    (ev_started (js "task-1") true) (after 6)). vm_compute. reflexivity.
Defined.

Definition lost_snapshot : VehicleSnapshot := match at_place 17 with he_recovery s _ _ _ => s | _ => emptySnapshot end.

Lemma recovery_only_when_due_witness :
  at_place 17 = he_recovery lost_snapshot (Some (js "flight.takeoff")) (n_of_Z 40030) true /\
  recovery_called_for sample_config lost_snapshot (Some (js "flight.takeoff")) (n_of_Z 40030) (before 17).
Proof.
  split; [vm_compute; reflexivity |].
  apply (recovery_only_when_due sample_config 4 (n_of_Z 0) (sample_startup ++ sample_flight ++ sample_loss) (before 17)
    lost_snapshot (Some (js "flight.takeoff")) (n_of_Z 40030) true (after 17)). vm_compute. reflexivity.
Defined.

(** ** Rounds of the engine

    A host that heard the vehicle, verified on the ground or flying, with an
    engine and the awaits of the round. *)

#[local] Instance sample_host : EngineHost AssetHost := asset_engine_host sample_config.
#[local] Instance sample_laws : EngineHostLaws AssetHost := asset_engine_laws sample_config.

Definition heard (l : list (num * Incoming)) (e : TaskEngine) (awaits : list Await) : AssetHost :=
  ((foldl (arrive sample_config) ((newHost (n_of_Z 0) []) <| link := Some (mkLink false None true) |>) l)
     <| taskEngine := e |> <| script := awaits |>).

Definition on_ground : list (num * Incoming) :=
  beat 350 0 4 :: hears 370 (rx_sys_status 80) ::
  sample_telemetry_at 500 0 430000 0 ++ sample_telemetry_at 1000 0 430000 0 ++ sample_telemetry_at 1300 0 430000 0 ++
  sample_telemetry_at 1650 128 430000 0.

Definition given_in (h : AssetHost) : ControlState := mkControl (vehicle_snapshot h) (nowMs h).

(** A round of the engine in a host that has these tasks. *)
Definition round_of (tasks : list TaskResource) (h : AssetHost) : result unit * AssetHost :=
  ingest sample_config (toAuthoritative tasks) (cs_snapshot (given_in h)) (cs_nowMs (given_in h)) h.

Definition granted : list Await := [answers 1900 [] [sample_takeoff in_progress]; answers 2000 [] []].

Definition ready_to_take_off : AssetHost := heard on_ground newEngine granted.

Definition takeoff_events : list EngineEvent := host_history (snd (round_of [sample_takeoff pending] ready_to_take_off)).

Lemma commands_authorized_witness :
  exists m, nth 2 takeoff_events ev_unread = ev_sent m true /\
    authorized sample_config (toAuthoritative [sample_takeoff pending]) (given_in ready_to_take_off) (take 2 takeoff_events) m /\ flies m.
Proof.
  eexists (takeoffCommand 7 1 (n_of_Z 20)). split; [vm_compute; reflexivity |].
  apply (commands_authorized sample_config (toAuthoritative [sample_takeoff pending]) (given_in ready_to_take_off) ready_to_take_off
    (take 2 takeoff_events) _ true []). vm_compute. reflexivity.
Defined.

(** The round leaves the take-off active, within its limits. *)
Definition task_watched : ActiveExecution :=
  default (new_execution (mkTask [] [] pending None []) (given_in ready_to_take_off))
    (active (taskEngine (snd (round_of [sample_takeoff pending] ready_to_take_off)))).

Lemma active_within_limits_witness :
  taskId (task task_watched) = js "task-1" /\ exists l, within sample_config task_watched (latest (given_in ready_to_take_off) l).
Proof.
  split; [vm_compute; reflexivity |].
  destruct (active_within_limits sample_config ready_to_take_off ready_to_take_off (toAuthoritative [sample_takeoff pending])
    (given_in ready_to_take_off) task_watched) as (l & _ & W);
    [split; vm_compute; reflexivity | apply rtc_refl | vm_compute; reflexivity | vm_compute; reflexivity |].
  by exists l.
Defined.

(** A go-to without a place is turned down, and Core cannot be told: the report
    stays due. *)
Definition sample_nowhere : TaskResource := mkResource (js "task-2") (js "flight.goto") pending None JNull.
Definition unheard : AssetHost := heard on_ground newEngine [fails 1900 []].

Lemma outcomes_are_kept_witness :
  exists l, history (snd (round_of [sample_nowhere] unheard)) = history unheard ++ l /\
    accounted (toAuthoritative [sample_nowhere]) (engine (snd (round_of [sample_nowhere] unheard))) l (js "task-2").
Proof.
  refine (outcomes_are_kept sample_config (toAuthoritative [sample_nowhere]) (given_in unheard) unheard (js "task-2") _).
  left. split; [apply (bool_decide_eq_true_1 _); vm_compute; reflexivity | apply (bool_decide_eq_false_1 _); vm_compute; reflexivity].
Defined.

(** After a takeover the position is held before the take-off starts. *)
Definition taken_over : AssetHost := heard on_ground (newEngine <| reholdOnGuided := true |>) (answers 1800 [] [] :: granted).

Lemma hold_comes_first_witness :
  exists o, ev_sent (hold_at sample_config o) true ∈ take 2 (host_history (snd (round_of [sample_takeoff pending] taken_over))).
Proof.
  apply (hold_comes_first sample_config (toAuthoritative [sample_takeoff pending]) (given_in taken_over) taken_over _ (js "task-1") true
    (drop 3 (host_history (snd (round_of [sample_takeoff pending] taken_over))))); [left; vm_compute; reflexivity |].
  vm_compute. reflexivity.
Defined.

(** A landing whose aircraft stands on the ground is reported complete. *)
Definition sample_landing : TaskResource := mkResource (js "task-3") (js "flight.land") in_progress None JNull.
Definition landed : AssetHost :=
  let h := heard (on_ground ++ sample_telemetry_at 1700 0 430000 0) newEngine [answers 1900 [] []] in
  h <| taskEngine := newEngine <| active := Some (new_execution (mkTask (js "task-3") (js "flight.land") in_progress None []) (given_in h)) |> |>.

Lemma complete_means_arrived_witness :
  due_complete (engine landed) (js "task-3") \/
  exists l1 l2 t, history (snd (round_of [sample_landing] landed)) = history landed ++ l1 ++ l2 /\ taskId t = js "task-3" /\
    own_task sample_config (toAuthoritative [sample_landing]) (engine landed) l1 t /\ arrived sample_config t (latest (given_in landed) l1).
Proof.
  apply (complete_means_arrived sample_config (toAuthoritative [sample_landing]) (given_in landed) landed (js "task-3")).
  right. exists true. apply (list_elem_of_lookup_2 _ 0). vm_compute. reflexivity.
Defined.
