(* ===== verification/JoinWire.v ===== *)
(** * Join messages ([joining.ts], the wire)

    What an Asset and a Gateway say to each other before they share a channel:
    discovery, challenge, response as canonical JSON, and the acceptance in a
    compact form of its own. *)

From Stdlib Require Import ZArith Lia String.
From stdpp Require Import base list option.
From S2P Require Import Prelude JsMap BinaryIO Wtf8 Json Utf8Text JsonText BinaryCodec CompactValue CompactSize JsonRoundtrip CompactCodec Base64 LinkTypes Frame FrameJson Contract StateDelta DeltaFacts.

Open Scope string_scope.
Open Scope list_scope.
Open Scope Z_scope.

(** ** The platform

    [Buffer.from] of a base64url text skips what is not of the alphabet; only
    what it makes of texts that [toString] wrote is relied on. *)
Class NodeBuffer := { from_base64url : list Z -> list Z }.
Class NodeBufferLaws {node : NodeBuffer} : Prop := {
  base64url_read bs : is_bytes bs -> from_base64url (base64url_encode bs) = bs
}.

(** ** Hexadecimal digests *)

Definition hex_value (c : Z) : option Z :=
  if (48 <=? c) && (c <=? 57) then Some (c - 48) else if (97 <=? c) && (c <=? 102) then Some (c - 87) else None.
Definition hex_digit (n : Z) : Z := if n <? 10 then n + 48 else n + 87.

Fixpoint hex_bytes (s : list Z) : option (list Z) :=
  match s with
  | [] => Some []
  | a :: b :: r => x ← hex_value a; y ← hex_value b; l ← hex_bytes r; Some (x * 16 + y :: l)
  | _ => None
  end.
Definition hex_text (bs : list Z) : list Z := flat_map (fun b => [hex_digit (b / 16); hex_digit (b mod 16)]) bs.

(** [/^sha256:([0-9a-f]{64})$/] *)
Definition digestBytes (revision : list Z) : result (list Z) :=
  from_option
    (if bool_decide (take 7 revision = js "sha256:") && (length revision =? 71)%nat then hex_bytes (drop 7 revision) else None)
    (TypeError "radio contract revision must be a SHA-256 digest").

(** [Buffer.compare(Buffer.from(digest), digestBytes(revision)) === 0] *)
Definition same_digest (r digest : list Z) : bool :=
  match digestBytes r with Ok bytes => bool_decide (digest = bytes) | Throw _ => false end.

(** ** Channel keys in base64 *)

Definition to_url (c : Z) : Z := if c =? 43 then 45 else if c =? 47 then 95 else c.
Definition of_url (c : Z) : Z := if c =? 45 then 43 else if c =? 95 then 47 else c.

Definition padding (n : nat) : list Z := match (n mod 3)%nat with 1%nat => [61; 61] | 2%nat => [61] | _ => [] end.

(** [Buffer.from(bytes).toString("base64")] *)
Definition base64_text (bs : list Z) : list Z := map of_url (base64url_encode bs) ++ padding (length bs).

(** [/^[A-Za-z0-9+/]+={0,2}$/] and the digits before the padding. *)
Fixpoint base64_digits (s : list Z) : option (list Z) :=
  match s with
  | [] | [61] | [61; 61] => Some []
  | c :: r =>
      if (c =? 45) || (c =? 95) then None
      else match base64_value (to_url c), base64_digits r with Some _, Some l => Some (to_url c :: l) | _, _ => None end
  end.

Definition isChannelKeyBytes (value : list Z) : bool := (zlen value =? 16) || (zlen value =? 32).

Definition channelKeyBytes (value : list Z) : result (list Z) :=
  match base64_digits value with
  | None | Some [] => Throw (TypeError "channel key must be base64")
  | Some digits =>
      let bytes := base64url_decode digits in
      guard! isChannelKeyBytes bytes else TypeError "channel key must contain 16 or 32 bytes" in Ok bytes
  end.

(** ** The messages *)

Record DiscoveryBeacon := mkBeacon {
  b_join_attempt_id : list Z; b_radio_node_id : Z; b_asset_id : list Z; b_service_session : list Z
}.

Record PrivateChannelMembership := mkChannel { channel_index : Z; channel_name : list Z; channel_key_base64 : list Z }.

Record JoinAcceptance := mkAcceptance {
  a_join_attempt_id : list Z; a_gateway_node_id : list Z; a_source_generation : Z; a_radio_contract_revision : list Z;
  a_channel : PrivateChannelMembership
}.

Inductive JoinWireMessage :=
  | join_discovery (b : DiscoveryBeacon)
  | join_challenge (attempt challenge proof : list Z)
  | join_response (attempt response : list Z)
  | join_accept (a : JoinAcceptance).

#[export] Instance DiscoveryBeacon_eq_dec : EqDecision DiscoveryBeacon.
Proof. solve_decision. Defined.

Definition join_attempt_id (m : JoinWireMessage) : list Z :=
  match m with
  | join_discovery b => b_join_attempt_id b
  | join_challenge attempt _ _ | join_response attempt _ => attempt
  | join_accept a => a_join_attempt_id a
  end.

Definition JOIN_MARKER : string := "AJ1".
Definition REQUIRED_CAPABILITIES : Z := 7.
Definition COMPACT_ACCEPTANCE_MARKER : Z := 0xa4.
Definition COMPACT_ACCEPTANCE_VERSION : Z := 1.
Definition COMPACT_ACCEPTANCE_TYPE : Z := 1.
Definition COMPACT_ACCEPTANCE_DIGEST_BYTES : Z := 32.
Definition ATLAS : list Z := js "ATLAS".
Definition revision : list Z := js RADIO_CONTRACT_REVISION.

(** [typeof value === "string" && value.length > 0] *)
Definition filled (s : list Z) : bool := negb (bool_decide (s = [])).

(** Text that a message can carry. *)
Definition said (s : list Z) : Prop := is_jsstr s /\ filled s = true.

Section wire.
Context {node : NodeBuffer}.

(** ** Writing *)

Definition encodeRevision (r : list Z) : result (list Z) := let! bs := digestBytes r in Ok (base64url_encode bs).

Definition decodeRevision (v : option json) : option (list Z) :=
  match v with
  | Some (JString s) =>
      let bytes := from_base64url s in
      if zlen bytes =? 32 then Some (js "sha256:" ++ hex_text bytes) else None
  | _ => None
  end.

Definition lengthPrefixedBytes (value : list Z) : result (list Z) :=
  let! len := encodeUnsignedVarint (zlen value) "compact join value must be a safe nonnegative integer" in
  Ok (concatBytes [len; value]).

Definition lengthPrefixedUTF8 (value : list Z) : result (list Z) :=
  let bytes := Buffer_from value in
  let! back := TextDecoder_decode bytes in
  guard! bool_decide (back = value) else TypeError "join acceptance strings must contain valid UTF-8" in
  lengthPrefixedBytes bytes.

Definition acceptance_fields (a : JoinAcceptance) : bool :=
  filled (a_join_attempt_id a) && filled (a_gateway_node_id a) &&
  isSafeInteger (a_source_generation a) && negb (a_source_generation a <? 1) &&
  bool_decide (a_radio_contract_revision a = revision) &&
  isSafeInteger (channel_index (a_channel a)) && negb (channel_index (a_channel a) <? 1) && negb (7 <? channel_index (a_channel a)) &&
  bool_decide (channel_name (a_channel a) = ATLAS).

Definition encodeCompactJoinAcceptance (a : JoinAcceptance) : result (list Z) :=
  guard! acceptance_fields a else TypeError "Join acceptance fields are invalid" in
  let! digest := digestBytes (a_radio_contract_revision a) in
  let! key := channelKeyBytes (channel_key_base64 (a_channel a)) in
  let! attempt := lengthPrefixedUTF8 (a_join_attempt_id a) in
  let! gw := lengthPrefixedUTF8 (a_gateway_node_id a) in
  let! generation := encodeUnsignedVarint (a_source_generation a) "compact join value must be a safe nonnegative integer" in
  let! index := encodeUnsignedVarint (channel_index (a_channel a)) "compact join value must be a safe nonnegative integer" in
  let! name := lengthPrefixedUTF8 (channel_name (a_channel a)) in
  let! key := lengthPrefixedBytes key in
  Ok (concatBytes [[COMPACT_ACCEPTANCE_MARKER; COMPACT_ACCEPTANCE_VERSION; COMPACT_ACCEPTANCE_TYPE];
                   attempt; gw; generation; digest; index; name; key]).

Definition text_member (key : string) (s : list Z) : list Z * json := (js key, JString s).

Definition compactJoinMessage (m : JoinWireMessage) : result json :=
  let marked := fun kind members => Ok (JObject (text_member "m" (js JOIN_MARKER) :: text_member "t" (js kind) :: members)) in
  match m with
  | join_discovery b =>
      let! r := encodeRevision revision in
      marked "d" [text_member "a" (b_join_attempt_id b); (js "n", json_int (b_radio_node_id b)); text_member "e" (b_asset_id b);
                  text_member "s" (b_service_session b); (js "l", json_int LINK_PROTOCOL_REVISION); text_member "r" r;
                  (js "c", json_int REQUIRED_CAPABILITIES)]
  | join_challenge attempt challenge proof => marked "c" [text_member "a" attempt; text_member "p" challenge; text_member "g" proof]
  | join_response attempt response => marked "r" [text_member "a" attempt; text_member "p" response]
  | join_accept _ => Throw (TypeError "Unsupported join message type")
  end.

Definition encodeJoinMessage (m : JoinWireMessage) (maxPayloadBytes : Z) : result (list Z) :=
  guard! isSafeInteger maxPayloadBytes && negb (maxPayloadBytes <? 1)
    else RangeError "join message payload budget must be a positive integer" in
  let! encoded := match m with
                  | join_accept a => encodeCompactJoinAcceptance a
                  | _ => let! v := compactJoinMessage m in encodeCanonicalJSON v
                  end in
  guard! zlen encoded <=? maxPayloadBytes else RangeError "join message exceeds one Meshtastic packet" in Ok encoded.

(** ** Reading *)

Definition decodeCompactJoinAcceptance (payload : list Z) : option JoinAcceptance :=
  let '(marker, r) := readByte (mkReader payload 0) in
  let '(version, r) := readByte r in
  let '(type, r) := readByte r in
  if negb (bool_decide (marker = Some COMPACT_ACCEPTANCE_MARKER)) || negb (bool_decide (version = Some COMPACT_ACCEPTANCE_VERSION)) ||
     negb (bool_decide (type = Some COMPACT_ACCEPTANCE_TYPE)) then None
  else
    let '(attempt, r) := readUTF8 r in
    let '(gw, r) := readUTF8 r in
    let '(generation, r) := readUnsignedVarint r in
    let '(digest, r) := readBytes COMPACT_ACCEPTANCE_DIGEST_BYTES r in
    let '(index, r) := readUnsignedVarint r in
    let '(name, r) := readUTF8 r in
    let '(key, r) := readLengthPrefixedBytes r in
    match attempt, gw, generation, digest, index, name, key with
    | Some attempt, Some gw, Some generation, Some digest, Some index, Some name, Some key =>
        if negb (reader_done r) || negb (filled attempt) || negb (filled gw) || (generation <? 1) || (index <? 1) || (7 <? index) ||
           negb (bool_decide (name = ATLAS)) || negb (isChannelKeyBytes key) || negb (same_digest revision digest)
        then None
        else Some (mkAcceptance attempt gw generation revision (mkChannel index name (base64_text key)))
    | _, _, _, _, _, _, _ => None
    end.

(** A member that is a string with something in it. *)
Definition filled_text (v : option json) : option (list Z) :=
  match json_string v with Some s => if filled s then Some s else None | None => None end.

(** [value === n] *)
Definition is_number (v : option json) (n : Z) : bool := bool_decide (json_integer v = Some n).
Definition is_revision (v : option json) : bool := bool_decide (decodeRevision v = Some revision).

Definition json_discovery (m : list (list Z * json)) : option JoinWireMessage :=
  match filled_text (prop m "a"), json_integer (prop m "n"), filled_text (prop m "e"), filled_text (prop m "s") with
  | Some a, Some n, Some e, Some s =>
      if negb (is_number (prop m "l") LINK_PROTOCOL_REVISION) || negb (is_revision (prop m "r")) ||
         negb (is_number (prop m "c") REQUIRED_CAPABILITIES)
      then None else Some (join_discovery (mkBeacon a n e s))
  | _, _, _, _ => None
  end.

Definition json_acceptance (m : list (list Z * json)) : option JoinWireMessage :=
  match filled_text (prop m "a"), filled_text (prop m "h"), json_integer (prop m "g"), json_integer (prop m "i"), filled_text (prop m "k") with
  | Some a, Some h, Some g, Some i, Some k =>
      if (0 <? g) && is_revision (prop m "r") && (0 <? i) && (i <=? 7) && is_text (prop m "n") "ATLAS" && is_ok (channelKeyBytes k)
      then Some (join_accept (mkAcceptance a h g revision (mkChannel i ATLAS k))) else None
  | _, _, _, _, _ => None
  end.

Definition decodeJoinMessage (payload : list Z) : option JoinWireMessage :=
  if bool_decide (nthZ payload 0 = Some COMPACT_ACCEPTANCE_MARKER) then join_accept <$> decodeCompactJoinAcceptance payload
  else
    match decodeJSON payload with
    | Ok (JObject m) =>
        if negb (is_text (prop m "m") JOIN_MARKER) then None
        else if is_text (prop m "t") "d" then json_discovery m
        else if is_text (prop m "t") "c" then
          match filled_text (prop m "a"), filled_text (prop m "p"), filled_text (prop m "g") with
          | Some a, Some p, Some g => Some (join_challenge a p g)
          | _, _, _ => None
          end
        else if is_text (prop m "t") "r" then
          match filled_text (prop m "a"), filled_text (prop m "p") with
          | Some a, Some p => Some (join_response a p)
          | _, _ => None
          end
        else if is_text (prop m "t") "a" then json_acceptance m
        else None
    | _ => None
    end.
End wire.

(** * Join messages survive the wire ([joining.ts])

    Reading inverts writing on every join message; the channel key comes back
    in the one base64 text of its bytes. *)

(** ** Channel keys *)

(** A digit of either alphabet is neither padding nor of the other's own. *)
Lemma of_url_digit c : base64_value c <> None ->
  of_url c <> 45 /\ of_url c <> 95 /\ of_url c <> 61 /\ to_url (of_url c) = c.
Proof.
  intros Hc. unfold of_url, to_url.
  destruct (Z.eqb_spec c 45); [by subst |]. destruct (Z.eqb_spec c 95); [by subst |].
  destruct (Z.eqb_spec c 43); [by subst |]. destruct (Z.eqb_spec c 47); [by subst |].
  repeat split; try done. by intros ->.
Qed.

Lemma base64_digits_text ds pad : Forall (fun c => base64_value c <> None) ds -> pad = [] \/ pad = [61] \/ pad = [61; 61] ->
  base64_digits (map of_url ds ++ pad) = Some ds.
Proof.
  intros Hds Hpad. induction Hds as [| c ds Hc _ IH]; [by destruct Hpad as [-> | [-> | ->]] |].
  cbn [map app]. destruct (of_url_digit c Hc) as (H1 & H2 & H3 & H4).
  assert (Hstep : base64_digits (of_url c :: map of_url ds ++ pad) =
    (if (of_url c =? 45) || (of_url c =? 95) then None
     else match base64_value (to_url (of_url c)), base64_digits (map of_url ds ++ pad) with
          | Some _, Some l => Some (to_url (of_url c) :: l) | _, _ => None end)).
  { clear - H3. cbn [base64_digits]. generalize dependent (of_url c). intros k Hk. generalize (map of_url ds ++ pad). intros l.
    destruct k as [| p |]; try done. repeat (destruct p as [p | p |]; try done). }
  rewrite Hstep, IH, H4. destruct (Z.eqb_spec (of_url c) 45), (Z.eqb_spec (of_url c) 95); try done. by destruct (base64_value c).
Qed.

Lemma base64_values_digits s values : base64_values s = Some values -> Forall (fun c => base64_value c <> None) s.
Proof.
  revert values. induction s as [| c s IH]; intros values H; [constructor |]. cbn in H.
  destruct (base64_value c) eqn:E; [| done]. destruct (base64_values s); [| done]. constructor; [by rewrite E | by eapply IH].
Qed.

Lemma channelKey_text key : is_bytes key -> isChannelKeyBytes key = true -> channelKeyBytes (base64_text key) = Ok key.
Proof.
  intros Hb Hk. unfold channelKeyBytes, base64_text.
  destruct (base64_roundtrip_fuel (S (length key)) key ltac:(lia) Hb) as (values & E & _).
  rewrite base64_digits_text; [| by eapply base64_values_digits |].
  - rewrite base64url_roundtrip, Hk by done. destruct (base64url_encode key) eqn:Ee; [| done].
    destruct key as [| a [| b [| c r]]]; discriminate.
  - unfold padding. destruct (length key mod 3)%nat as [| [| [| ?]]]; auto.
Qed.

Lemma base64_value_range c v : base64_value c = Some v -> 0 <= v < 64.
Proof.
  unfold base64_value. intros H.
  repeat match type of H with (if ?b then _ else _) = _ => destruct b eqn:?; reflect_tests; [injection H as <-; lia |] end. done.
Qed.

Lemma base64_bytes_bytes n values : (length values < n)%nat -> Forall (fun v => 0 <= v < 64) values -> is_bytes (base64_bytes values).
Proof.
  revert values. induction n as [| n IH]; intros values Hn Hv; [lia |].
  destruct values as [| w [| x [| y [| z r]]]]; cbn [base64_bytes]; try (by constructor);
    repeat match goal with H : Forall _ (_ :: _) |- _ => apply list.Forall_cons in H as [? ?] end;
    repeat (apply List.Forall_cons; [unfold is_byte; Z.to_euclidean_division_equations; lia |]); try apply List.Forall_nil.
  apply IH; [cbn in Hn; lia | done].
Qed.

Lemma channelKey_bytes s key : channelKeyBytes s = Ok key -> is_bytes key /\ isChannelKeyBytes key = true.
Proof.
  unfold channelKeyBytes. destruct (base64_digits s) as [[| c ds] |]; try done. intros H. inv_result. split; [| done].
  unfold base64url_decode. destruct (base64_values (c :: ds)) as [values |] eqn:E; [| constructor].
  apply (base64_bytes_bytes (S (length values))); [lia |]. clear - E. revert E. generalize (c :: ds). intros s. revert values.
  induction s as [| d s IH]; intros values E; cbn in E; [injection E as <-; constructor |].
  destruct (base64_value d) eqn:Ed; [| done]. destruct (base64_values s) eqn:Es; [| done]. injection E as <-.
  constructor; [by eapply base64_value_range | by apply IH].
Qed.

(** ** The acceptance *)

Lemma lengthPrefixedBytes_ok value bs : lengthPrefixedBytes value = Ok bs ->
  zlen value <= MAX_SAFE_INTEGER /\ bs = varint_digits 8 (zlen value) ++ value.
Proof.
  unfold lengthPrefixedBytes. intros H. inv_result.
  match goal with H : encodeUnsignedVarint _ _ = Ok _ |- _ => apply encodeUnsignedVarint_ok in H as [Hl ->] end.
  rewrite concatBytes_concat. cbn [concat]. rewrite app_nil_r. split; [lia | done].
Qed.

Lemma readUTF8_join value bs r rest : JoinWire.lengthPrefixedUTF8 value = Ok bs -> readRemaining r = bs ++ rest -> rest <> [] ->
  exists r', readUTF8 r = (Some value, r') /\ readRemaining r' = rest.
Proof.
  unfold JoinWire.lengthPrefixedUTF8. intros H Hr Hne. inv_result. reflect_tests. subst.
  apply lengthPrefixedBytes_ok in H as [Hl ->]. rewrite <- app_assoc in Hr.
  destruct (readLengthPrefixed_written r (Buffer_from value) rest Hl ltac:(by intros [_ ?]%app_eq_nil) Hr) as (r' & E' & R' & _).
  exists r'. unfold readUTF8. rewrite E'. split; [by rewrite E | done].
Qed.

(** The digest of the contract the development reads. *)
Definition revision_digest : list Z := Eval vm_compute in default [] (hex_bytes (drop 7 revision)).

Lemma digest_of_revision : digestBytes revision = Ok revision_digest.
Proof. by vm_compute. Qed.
Lemma revision_digest_text : js "sha256:" ++ hex_text revision_digest = revision.
Proof. by vm_compute. Qed.
Lemma revision_digest_bytes : is_bytes revision_digest.
Proof. apply (bool_decide_unpack (Forall is_byte _)). by vm_compute. Qed.

(** The membership as the Asset reads it: the key in its one base64 text. *)
Definition canonical_key (s : list Z) : list Z := match channelKeyBytes s with Ok key => base64_text key | Throw _ => s end.

Definition received_acceptance (a : JoinAcceptance) : JoinAcceptance :=
  mkAcceptance (a_join_attempt_id a) (a_gateway_node_id a) (a_source_generation a) (a_radio_contract_revision a)
    (mkChannel (channel_index (a_channel a)) (channel_name (a_channel a)) (canonical_key (channel_key_base64 (a_channel a)))).

Definition received (m : JoinWireMessage) : JoinWireMessage :=
  match m with join_accept a => join_accept (received_acceptance a) | _ => m end.

(** What is left to read still holds the key. *)
Ltac join_rest Hne := let H := fresh in intros H; repeat apply app_eq_nil in H as [_ H]; by apply Hne.

Lemma acceptance_read a bs : encodeCompactJoinAcceptance a = Ok bs ->
  decodeCompactJoinAcceptance bs = Some (received_acceptance a) /\ nthZ bs 0 = Some COMPACT_ACCEPTANCE_MARKER.
Proof.
  unfold encodeCompactJoinAcceptance. intros H. inv_result. unfold acceptance_fields in Hg. reflect_tests.
  repeat match goal with H : encodeUnsignedVarint _ _ = Ok _ |- _ => apply encodeUnsignedVarint_ok in H as [? ->] end.
  match goal with H : lengthPrefixedBytes _ = Ok _ |- _ => apply lengthPrefixedBytes_ok in H as [Hk ->] end.
  rewrite concatBytes_concat. cbn [concat]. rewrite app_nil_r. set (P := [_; _; _] ++ _).
  match goal with H : digestBytes _ = Ok _, E : a_radio_contract_revision a = _ |- _ =>
    rewrite E, digest_of_revision in H; apply ok_inj in H; subst end.
  match goal with H : channelKeyBytes _ = Ok ?k |- _ => destruct (channelKey_bytes _ _ H) as [Hkb Hks]; rename k into key; rename H into Hkey end.
  split; [| unfold P; by rewrite (nthZ_lookup _ 0 : nthZ _ 0 = _)].
  assert (R0 : readRemaining (mkReader P 0) = P) by done.
  unfold decodeCompactJoinAcceptance.
  destruct (readByte_cons (mkReader P 0) _ _ R0) as [-> R1]. destruct (readByte_cons _ _ _ R1) as [-> R2].
  destruct (readByte_cons _ _ _ R2) as [-> R3]. rewrite !bool_decide_true by done. cbn [negb orb].
  assert (Hne : key <> []) by (by intros ->).
  match goal with H : JoinWire.lengthPrefixedUTF8 (a_join_attempt_id a) = Ok _ |- _ =>
    destruct (readUTF8_join _ _ _ _ H R3) as (r4 & -> & R4); [join_rest Hne |] end.
  match goal with H : JoinWire.lengthPrefixedUTF8 (a_gateway_node_id a) = Ok _ |- _ =>
    destruct (readUTF8_join _ _ _ _ H R4) as (r5 & -> & R5); [join_rest Hne |] end.
  destruct (readUnsignedVarint_digits r5 (a_source_generation a) _ ltac:(done) R5) as (r6 & -> & R6 & _).
  destruct (fun Hs Hn => readBytes_written r6 revision_digest _ Hs Hn R6) as (r7 & E7 & R7 & _ & _); [by vm_compute | join_rest Hne |].
  change COMPACT_ACCEPTANCE_DIGEST_BYTES with (zlen revision_digest). rewrite E7.
  destruct (readUnsignedVarint_digits r7 (channel_index (a_channel a)) _ ltac:(done) R7) as (r8 & -> & R8 & _).
  match goal with H : JoinWire.lengthPrefixedUTF8 (channel_name (a_channel a)) = Ok _ |- _ =>
    destruct (readUTF8_join _ _ _ _ H R8) as (r9 & -> & R9); [join_rest Hne |] end.
  rewrite <- (app_nil_r key), app_nil_r in R9 at 1.
  destruct (readLengthPrefixed_written r9 key [] Hk ltac:(by rewrite app_nil_r) ltac:(by rewrite app_nil_r)) as (r10 & -> & _ & Hd).
  rewrite Hd by done. unfold received_acceptance, canonical_key. rewrite Hkey.
  repeat match goal with H : ?b = true |- context [?b] => rewrite H end.
  unfold same_digest. rewrite digest_of_revision, !bool_decide_true by done.
  destruct (Z.ltb_spec (a_source_generation a) 1), (Z.ltb_spec (channel_index (a_channel a)) 1), (Z.ltb_spec 7 (channel_index (a_channel a))); try lia.
  cbn [negb orb]. repeat f_equal; congruence.
Qed.

(** ** The messages in JSON *)

Definition sayable (m : JoinWireMessage) : Prop :=
  match m with
  | join_discovery b =>
      said (b_join_attempt_id b) /\ said (b_asset_id b) /\ said (b_service_session b) /\ 0 <= b_radio_node_id b <= MAX_SAFE_INTEGER
  | join_challenge attempt challenge proof => said attempt /\ said challenge /\ said proof
  | join_response attempt response => said attempt /\ said response
  | join_accept _ => True
  end.

Lemma members_read ms bs : jwf ms -> Forall (fun p => is_jsstr (fst p) /\ wf_json (snd p)) ms -> encodeCanonicalJSON (JObject ms) = Ok bs ->
  exists m', decodeJSON bs = Ok (JObject m') /\ nthZ bs 0 = Some 123 /\
    (forall k s, prop ms k = Some (JString s) -> json_string (prop m' k) = Some s) /\
    (forall k n, 0 <= n <= MAX_SAFE_INTEGER -> prop ms k = Some (json_int n) -> json_integer (prop m' k) = Some n).
Proof.
  intros Hm Hf He. pose proof (wf_object ms Hm Hf) as Hw.
  destruct (decode_canonical _ bs Hw He) as (w & Hd & Hc & Hww).
  destruct (canon_lookup w (map (map_snd unsigned_zero) ms) Hww) as (m' & -> & Hget); [unfold jwf; by rewrite jkeys_map_snd | exact Hc |].
  exists m'. split; [done |]. split; [by apply (canonical_head (JObject ms) bs (ex_intro _ ms eq_refl)) |].
  assert (Hk : forall k v, prop ms k = Some v -> canon <$> prop m' k = Some (canon (unsigned_zero v))).
  { unfold prop. intros k v E. by rewrite Hget, jget_unsigned, E. }
  split; [intros k s E; apply lookup_string | intros k n Hn E; apply lookup_integer; [done |]]; by rewrite (Hk k _ E).
Qed.

Lemma filled_read m k s : filled s = true -> json_string (prop m k) = Some s -> filled_text (prop m k) = Some s.
Proof. unfold filled_text. intros Hf ->. by rewrite Hf. Qed.

Lemma is_text_read v s : json_string v = Some (js s) -> is_text v s = true.
Proof. unfold is_text. intros ->. by apply bool_decide_true. Qed.
Lemma is_text_unlike v s t : json_string v = Some (js s) -> js s <> js t -> is_text v t = false.
Proof. unfold is_text. intros -> ?. by apply bool_decide_false. Qed.

Lemma json_string_inv v s : json_string v = Some s -> v = Some (JString s).
Proof. destruct v as [[] |]; cbn; congruence. Qed.

Section wire.
Context {node : NodeBuffer} {laws : NodeBufferLaws}.

Lemma encodeRevision_own : encodeRevision revision = Ok (base64url_encode revision_digest).
Proof using. unfold encodeRevision. by rewrite digest_of_revision. Qed.

Lemma revision_read v : json_string v = Some (base64url_encode revision_digest) -> is_revision v = true.
Proof using laws.
  intros ->%json_string_inv. unfold is_revision, decodeRevision. rewrite base64url_read by apply revision_digest_bytes.
  change (zlen revision_digest =? 32) with true. apply bool_decide_true. by rewrite revision_digest_text.
Qed.

(** The members of a message: keys of the source, values that can be read back. *)
Lemma member_text_ok k s : is_jsstr s -> is_jsstr (fst (text_member k s)) /\ wf_json (snd (text_member k s)).
Proof using. split; [apply js_units | by constructor]. Qed.
Lemma member_int_ok k n : 0 <= n <= MAX_SAFE_INTEGER -> is_jsstr (fst (js k, json_int n)) /\ wf_json (snd (js k, json_int n)).
Proof using. split; [apply js_units | by apply json_int_wf]. Qed.

Ltac wire_members :=
  repeat (apply List.Forall_cons; [first [apply member_text_ok; first [done | apply js_units | apply base64url_units, revision_digest_bytes]
                                         | by apply member_int_ok] |]); apply List.Forall_nil.
Ltac wire_keys := apply (bool_decide_unpack (NoDup _)); by vm_compute.

Lemma discovery_read b bs v : sayable (join_discovery b) -> compactJoinMessage (join_discovery b) = Ok v -> encodeCanonicalJSON v = Ok bs ->
  decodeJoinMessage bs = Some (join_discovery b).
Proof using laws.
  intros ((J1 & F1) & (J2 & F2) & (J3 & F3) & Hn) Hv E. unfold compactJoinMessage in Hv. rewrite encodeRevision_own in Hv. apply ok_inj in Hv. subst v.
  destruct (fun A B => members_read _ bs A B E) as (m & Hd & Hh & Hs & Hi); [wire_keys | wire_members |].
  unfold decodeJoinMessage. rewrite Hh, bool_decide_false, Hd by done.
  rewrite (is_text_read _ JOIN_MARKER) by (by apply Hs). rewrite (is_text_read _ "d") by (by apply Hs). cbn [negb].
  unfold json_discovery. rewrite (filled_read _ _ (b_join_attempt_id b)), (filled_read _ _ (b_asset_id b)), (filled_read _ _ (b_service_session b))
    by (done || by apply Hs). rewrite (Hi "n" (b_radio_node_id b)) by done.
  unfold is_number. rewrite (Hi "l" LINK_PROTOCOL_REVISION), (Hi "c" REQUIRED_CAPABILITIES), revision_read by (done || by apply Hs).
  rewrite !bool_decide_true by done. by destruct b.
Qed.

Lemma challenge_read attempt challenge proof bs v : sayable (join_challenge attempt challenge proof) ->
  compactJoinMessage (join_challenge attempt challenge proof) = Ok v -> encodeCanonicalJSON v = Ok bs ->
  decodeJoinMessage bs = Some (join_challenge attempt challenge proof).
Proof using.
  intros ((J1 & F1) & (J2 & F2) & (J3 & F3)) Hv E. apply ok_inj in Hv. subst v.
  destruct (fun A B => members_read _ bs A B E) as (m & Hd & Hh & Hs & _); [wire_keys | wire_members |].
  unfold decodeJoinMessage. rewrite Hh, bool_decide_false, Hd by done.
  rewrite (is_text_read _ JOIN_MARKER) by (by apply Hs). rewrite (is_text_unlike _ "c" "d") by first [by apply Hs | done].
  rewrite (is_text_read _ "c") by (by apply Hs). cbn [negb].
  by rewrite (filled_read _ _ attempt), (filled_read _ _ challenge), (filled_read _ _ proof) by (done || by apply Hs).
Qed.

Lemma response_read attempt response bs v : sayable (join_response attempt response) ->
  compactJoinMessage (join_response attempt response) = Ok v -> encodeCanonicalJSON v = Ok bs ->
  decodeJoinMessage bs = Some (join_response attempt response).
Proof using.
  intros ((J1 & F1) & (J2 & F2)) Hv E. apply ok_inj in Hv. subst v.
  destruct (fun A B => members_read _ bs A B E) as (m & Hd & Hh & Hs & _); [wire_keys | wire_members |].
  unfold decodeJoinMessage. rewrite Hh, bool_decide_false, Hd by done.
  rewrite (is_text_read _ JOIN_MARKER) by (by apply Hs).
  rewrite (is_text_unlike _ "r" "d"), (is_text_unlike _ "r" "c") by first [by apply Hs | done].
  rewrite (is_text_read _ "r") by (by apply Hs). cbn [negb].
  by rewrite (filled_read _ _ attempt), (filled_read _ _ response) by (done || by apply Hs).
Qed.

Lemma join_message_read m max bs : sayable m -> encodeJoinMessage m max = Ok bs -> decodeJoinMessage bs = Some (received m).
Proof using laws.
  intros Hm H. unfold encodeJoinMessage in H. inv_result. destruct m as [b | attempt challenge proof | attempt response | a].
  - apply bind_ok in E as (v & Hv & E). by eapply discovery_read.
  - apply bind_ok in E as (v & Hv & E). by eapply challenge_read.
  - apply bind_ok in E as (v & Hv & E). by eapply response_read.
  - destruct (acceptance_read a bs E) as [Hd Hh]. unfold decodeJoinMessage. by rewrite Hh, bool_decide_true, Hd by done.
Qed.

(** C24: a join message that says something arrives as it was said. For an
    announcement, a challenge or a response none of whose texts is empty, with
    a radio number that is a safe integer ([sayable]; the receiver drops the
    others), and for every acceptance that can be written: what
    [encodeJoinMessage] writes fits the budget it was given, and
    [decodeJoinMessage] reads back the same message, but that the channel key of
    an acceptance comes back in the one canonical base64 text of its 16 or 32
    bytes ([received]). *)
Theorem join_message_roundtrip m max bs :
  sayable m -> encodeJoinMessage m max = Ok bs -> zlen bs <= max /\ decodeJoinMessage bs = Some (received m).
Proof using laws.
  intros Hm H. split; [| by apply (join_message_read m max)]. unfold encodeJoinMessage in H. inv_result. by apply Z.leb_le.
Qed.
End wire.
