(* ===== verification/Membership.v ===== *)
(** * The Gateway's membership file ([membership.ts])

    The file that says who the Gateway is, which private channel it runs, and
    the last source generation it gave every Asset.  The file is modelled by
    the value [JSON.parse] reads out of it (the indentation [write] asks for is
    not), and the system calls that fail during an operation are its input. *)

From Stdlib Require Import ZArith Lia String Sorted.
From stdpp Require Import base list option.
From S2P Require Import Prelude JsMap BinaryIO Wtf8 Json JsonText CompactValue CompactSize JsonRoundtrip Base64 LinkTypes Frame FrameJson JsonEq Contract PatchFacts JoinWire.

Open Scope string_scope.
Open Scope list_scope.
Open Scope Z_scope.

Inductive membership_file := file_missing | file_corrupt | file_holds (v : json).

(** The calls to the file system, in the order the source makes them. *)
Inductive io_step :=
  | io_read | io_mkdir | io_open | io_writeFile | io_sync | io_close | io_rename | io_sync_directory | io_rm.

#[export] Instance io_step_eq_dec : EqDecision io_step.
Proof. solve_decision. Defined.

Definition io_error : js_error := PlainError "file system".

(** [JSON.parse(JSON.stringify(v))]: zero loses its sign, numbers that are not
    finite become [null]. *)
Fixpoint reparsed (v : json) : json :=
  match v with
  | JNumber bits => if f64_isFinite bits then JNumber (printed_bits bits) else JNull
  | JArray l => JArray (map reparsed l)
  | JObject m => JObject (own_properties (map (map_snd reparsed) m))
  | _ => v
  end.

(** ** What a membership is *)

Definition isChannelKey (v : option json) : bool :=
  match json_string v with Some s => is_ok (channelKeyBytes s) | None => false end.

Definition asset_generations (m : fields) : fields :=
  match prop m "asset_generations" with Some (JObject g) => g | _ => [] end.

Definition generation_entry (p : list Z * json) : bool := filled (fst p) && integer_in 1 (Some (snd p)).

Definition validateMembership (value : json) : result fields :=
  match value with
  | JObject m =>
      guard! is_nonempty (prop m "gateway_node_id") && integer_in 0 (prop m "gateway_generation") &&
             integer_between 1 7 (prop m "channel_index") && is_text (prop m "channel_name") "ATLAS" &&
             isChannelKey (prop m "channel_key_base64") &&
             match prop m "asset_generations" with Some (JObject _) => true | _ => false end
        else TypeError "Gateway membership fields are invalid" in
      guard! forallb generation_entry (asset_generations m) else TypeError "Gateway Asset source generations are invalid" in
      Ok m
  | _ => Throw (TypeError "Gateway membership must be an object")
  end.

(** [n + 1] of a safe integer; one past the last of them is the double [2^53]. *)
Definition json_next (n : Z) : json := JNumber (if n =? MAX_SAFE_INTEGER then 1076 * 2 ^ 52 else f64_of_integer (n + 1)).

Section store.
(** Which calls fail. *)
Context (fails : io_step -> bool).

Definition io (step : io_step) : result unit := if fails step then Throw io_error else Ok tt.

(** [try { r } finally { f }] *)
Definition and_finally {A} (r : result A) (f : result unit) : result A := match f with Ok _ => r | Throw e => Throw e end.

Definition load (f : membership_file) : result fields :=
  guard! negb (fails io_read) && match f with file_missing => false | _ => true end
    else PlainError "Gateway membership is missing or unreadable" in
  match f with
  | file_holds v => validateMembership v
  | _ => Throw (PlainError "Gateway membership is corrupt")
  end.

(** [JSON.stringify(membership)], as it will be parsed. *)
Definition written (m : fields) : membership_file := file_holds (reparsed (JObject m)).

(** A temporary file takes the place of the membership when it is complete. *)
Definition write (m : fields) (f : membership_file) : result unit * membership_file :=
  match (let! _ := validateMembership (JObject m) in let! _ := io io_mkdir in io io_open) with
  | Throw e => (Throw e, f)
  | Ok _ =>
      let filled_in := and_finally (let! _ := io io_writeFile in io io_sync) (io io_close) in
      match (let! _ := filled_in in io io_rename) with
      | Throw e => (and_finally (Throw e) (io io_rm), f)
      | Ok _ => (and_finally (io io_sync_directory) (io io_rm), written m)
      end
  end.

(** ** Operations

    [initialize], and the two that run under the mutation lock: [mutate] runs
    one of them after the other, so each is one step on the file.  When
    [initialize] can neither write its file nor remove it, [whole] says
    whether what it wrote can be parsed. *)

Definition initialize (input : fields) (whole : bool) (f : membership_file) : result unit * membership_file :=
  let m := jset (js "asset_generations") (JObject []) (jset (js "gateway_generation") (json_int 0) input) in
  match (let! _ := validateMembership (JObject m) in let! _ := io io_mkdir in io io_open) with
  | Throw e => (Throw e, f)
  | Ok _ =>
      match f with
      | file_missing =>
          match (let! _ := io io_writeFile in let! _ := io io_sync in io io_close) with
          | Throw e => (Throw e, if fails io_rm then (if fails io_writeFile && negb whole then file_corrupt else written m) else file_missing)
          | Ok _ => (io io_sync_directory, written m)
          end
      | _ => (Throw (PlainError "Gateway membership already exists"), f)
      end
  end.

Definition activateGateway (f : membership_file) : result fields * membership_file :=
  match load f with
  | Throw e => (Throw e, f)
  | Ok m =>
      let generation := default 0 (json_integer (prop m "gateway_generation")) in
      let m := jset (js "gateway_generation") (json_next generation) m in
      let '(r, f) := write m f in ((let! _ := r in Ok m), f)
  end.

(** [{ membership, source_generation, prepared }] *)
Definition admitAsset {A} (assetID : list Z) (prepare : fields -> Z -> result A) (f : membership_file)
    : result (fields * Z * A) * membership_file :=
  match (let! _ := validateLinkNode (mkNode asset assetID) in load f) with
  | Throw e => (Throw e, f)
  | Ok m =>
      let knownAsset := jhas assetID (asset_generations m) in
      if negb knownAsset && (LINK_SOURCE_IDENTITY_LIMIT <=? jsize (asset_generations m))
      then (Throw (PlainError "Source admission rejected: capacity"), f)
      else
        let previousGeneration := default 0 (json_integer (jget assetID (asset_generations m))) in
        let sourceGeneration := previousGeneration + 1 in
        match prepare m sourceGeneration with
        | Throw e => (Throw e, f)
        | Ok prepared =>
            let m := jset (js "asset_generations") (JObject (jset assetID (json_next previousGeneration) (asset_generations m))) m in
            let '(r, f) := write m f in ((let! _ := r in Ok (m, sourceGeneration, prepared)), f)
        end
  end.
End store.

(** * Source generations only grow ([membership.ts])

    Whatever calls to the file system fail and in whatever order operations
    come, no Asset is given a source generation twice. *)

(** ** What is parsed is what was written *)

Lemma reparsed_parsed v : finite_json v = true -> reparsed v = parsed v.
Proof.
  induction v as [| | b | | l IH | m IH] using json_ind'; intros Hf; try done; cbn [reparsed parsed finite_json] in *.
  - unfold f64_isFinite in *. by rewrite Hf.
  - f_equal. apply map_Forall_ext. apply Forall_elem. intros w Hw. apply (proj1 (Forall_elem _ _) IH w Hw).
    by apply (proj1 (Forall_elem _ _) (finite_elements l Hf)).
  - do 2 f_equal. apply map_Forall_ext. apply Forall_elem. intros p Hp. unfold map_snd. f_equal.
    apply (proj1 (Forall_elem _ _) IH p Hp). by apply (proj1 (Forall_elem _ _) (finite_members m Hf)).
Qed.

Lemma reparsed_text v : wf_json v -> finite_json v = true -> JSON_parse (stringify v) = Ok (reparsed v).
Proof. intros. rewrite reparsed_parsed by done. by apply JSON_parse_stringify. Qed.

Lemma printed_bits_range bits : 0 <= bits < 2 ^ 64 -> 0 <= printed_bits bits < 2 ^ 64.
Proof. unfold printed_bits. intros. destruct (_ =? _); lia. Qed.

Lemma reparsed_wf v : wf_json v -> wf_json (reparsed v).
Proof.
  induction v as [| | b | | l IH | m IH] using json_ind'; intros Hw; try done; inversion Hw as [| | ? Hb | | ? Hl | ? Hm Hf]; subst; cbn [reparsed].
  - destruct (f64_isFinite b); constructor. by apply printed_bits_range.
  - constructor. apply Forall_map, Forall_elem. intros w Hin. apply (proj1 (Forall_elem _ _) IH w Hin), (proj1 (Forall_elem _ _) Hl w Hin).
  - apply wf_object.
    + unfold jwf. rewrite (jkeys_perm _ _ (own_properties_perm _)), jkeys_map_snd. exact Hm.
    + rewrite own_properties_perm. apply Forall_map, Forall_elem. intros [k w] Hin. cbn.
      destruct (proj1 (Forall_elem _ _) Hf _ Hin). split; [done |]. by apply (proj1 (Forall_elem _ _) IH _ Hin).
Qed.

(** Reading a member of what was written. *)
Lemma prop_reparsed m k : jwf m ->
  exists m', reparsed (JObject m) = JObject m' /\ jget k m' = reparsed <$> jget k m.
Proof.
  intros Hm. eexists. split; [reflexivity |].
  rewrite <- (jget_perm k (map (map_snd reparsed) m)); [| unfold jwf; by rewrite jkeys_map_snd | by rewrite own_properties_perm].
  clear Hm. induction m as [| [k' v] m IH]; [done |]. cbn. by case_decide.
Qed.

Lemma json_integer_reparsed v : json_integer (reparsed <$> v) = json_integer v.
Proof.
  destruct v as [[| | b | | |] |]; try done. cbn [fmap option_fmap option_map reparsed].
  destruct (f64_isFinite b) eqn:E; [apply f64_safe_printed |]. symmetry. cbn.
  unfold f64_isFinite in E. apply negb_false_iff, Z.eqb_eq in E.
  unfold f64_safe_integer, f64_magnitude, f64_significand, f64_scale. rewrite E. cbn [Z.eqb Pos.eqb Z.leb Z.sub Z.compare].
  pose proof (Z.mod_pos_bound b (2 ^ 52) ltac:(lia)). change (0 <=? 2047 - 1075) with true. unfold f64_mantissa.
  destruct (Z.leb_spec ((2 ^ 52 + b mod 2 ^ 52) * 2 ^ (2047 - 1075)) MAX_SAFE_INTEGER) as [H1 |]; [| done].
  assert (2 ^ 52 * 2 <= (2 ^ 52 + b mod 2 ^ 52) * 2 ^ (2047 - 1075)) by (apply Z.mul_le_mono_nonneg; lia).
  unfold MAX_SAFE_INTEGER in H1. lia.
Qed.

(** ** The generations a file holds *)

Definition members (f : membership_file) : fields := match f with file_holds (JObject m) => m | _ => [] end.
Definition generation_of (a : list Z) (f : membership_file) : Z := default 0 (json_integer (jget a (asset_generations (members f)))).
Definition gateway_generation (f : membership_file) : Z := default 0 (json_integer (prop (members f) "gateway_generation")).
Definition file_ok (f : membership_file) : Prop := match f with file_holds v => wf_json v | _ => True end.

Lemma asset_generations_wf m : wf_json (JObject m) -> wf_json (JObject (asset_generations m)).
Proof.
  intros Hw. unfold asset_generations. destruct (prop m "asset_generations") as [[| | | | | g] |] eqn:E; try (by constructor; [apply jwf_nil | constructor]).
  apply wf_object_iff in Hw as [_ Hw]. by apply (Hw (js "asset_generations")).
Qed.

Lemma written_members m k : jwf m -> jget k (members (written m)) = reparsed <$> jget k m.
Proof. intros Hm. unfold written, members. by destruct (prop_reparsed m k Hm) as (m' & -> & ->). Qed.

Lemma written_gateway m : jwf m -> gateway_generation (written m) = default 0 (json_integer (prop m "gateway_generation")).
Proof. intros Hm. unfold gateway_generation, prop. by rewrite written_members, json_integer_reparsed. Qed.

Lemma written_generation a m : wf_json (JObject m) ->
  generation_of a (written m) = default 0 (json_integer (jget a (asset_generations m))).
Proof.
  intros Hw. pose proof (asset_generations_wf m Hw) as Hg. unfold generation_of.
  apply wf_object_iff in Hw as [Hm _]. apply wf_object_iff in Hg as [Hg _].
  rewrite <- (json_integer_reparsed (jget a (asset_generations m))). do 2 f_equal.
  unfold asset_generations at 1, prop. rewrite written_members by done. unfold asset_generations, prop in *.
  destruct (jget (js "asset_generations") m) as [[| | b | | | g] |]; cbn [fmap option_fmap option_map]; try done.
  - cbn [reparsed]. by destruct (f64_isFinite b).
  - destruct (prop_reparsed g a Hg) as (g' & Hg' & <-). by rewrite Hg'.
Qed.

Lemma written_ok m : wf_json (JObject m) -> file_ok (written m).
Proof. apply reparsed_wf. Qed.

(** ** What a membership that passed the checks holds *)

Lemma json_integer_safe v n : json_integer v = Some n -> n <= MAX_SAFE_INTEGER.
Proof.
  destruct v as [[] |]; cbn; try done. unfold f64_safe_integer. destruct (f64_magnitude bits) as [k |] eqn:E; [| done].
  destruct (Z.leb_spec k MAX_SAFE_INTEGER); [| done]. intros [= <-]. destruct (f64_negative bits); [| done].
  assert (0 <= k); [| unfold MAX_SAFE_INTEGER; lia]. unfold f64_magnitude in E.
  assert (0 <= f64_significand bits) by (unfold f64_significand, f64_mantissa; pose proof (Z.mod_pos_bound bits (2 ^ 52) ltac:(lia)); destruct (f64_exponent bits =? 0); lia).
  destruct (0 <=? f64_scale bits); [injection E as <-; apply Z.mul_nonneg_nonneg; [done | by apply Z.pow_nonneg] |].
  destruct (_ =? 0); [| done]. injection E as <-. destruct (Z.eq_dec (2 ^ (- f64_scale bits)) 0) as [-> | ?]; [by rewrite Z.div_0_r |].
  apply Z.div_pos; [done |]. pose proof (Z.pow_nonneg 2 (- f64_scale bits)). lia.
Qed.

(** A counter one past a safe integer is seen to be past it. *)
Lemma json_next_safe n : 0 <= n < MAX_SAFE_INTEGER -> json_integer (Some (json_next n)) = Some (n + 1).
Proof.
  intros Hn. cbn. destruct (Z.eqb_spec n MAX_SAFE_INTEGER); [lia |]. by apply f64_safe_of_integer; lia.
Qed.

Lemma json_next_inv n k : 0 <= n <= MAX_SAFE_INTEGER -> json_integer (Some (json_next n)) = Some k -> k = n + 1 /\ n < MAX_SAFE_INTEGER.
Proof.
  intros Hn H. destruct (decide (n = MAX_SAFE_INTEGER)) as [-> | Hne]; [by vm_compute in H |].
  rewrite json_next_safe in H by lia. injection H as <-. lia.
Qed.

Lemma json_next_wf n : 0 <= n <= MAX_SAFE_INTEGER -> wf_json (json_next n).
Proof.
  intros Hn. unfold json_next. destruct (Z.eqb_spec n MAX_SAFE_INTEGER); [constructor; lia |]. apply (json_int_wf (n + 1)). lia.
Qed.

Lemma integer_in_some low v : integer_in low v = true -> exists n, json_integer v = Some n /\ low <= n <= MAX_SAFE_INTEGER.
Proof.
  unfold integer_in. destruct (json_integer v) as [n |] eqn:E; [| done]. intros H%Z.leb_le. exists n.
  split; [done |]. split; [done | by apply (json_integer_safe v)].
Qed.

Record valid_membership (m : fields) : Prop := {
  vm_gateway : exists g, json_integer (prop m "gateway_generation") = Some g /\ 0 <= g <= MAX_SAFE_INTEGER;
  vm_assets a v : jget a (asset_generations m) = Some v -> exists g, json_integer (Some v) = Some g /\ 1 <= g <= MAX_SAFE_INTEGER
}.

Lemma validateMembership_ok v m : validateMembership v = Ok m -> v = JObject m /\ valid_membership m.
Proof.
  unfold validateMembership. destruct v as [| | | | | m']; try done. intros H. inv_result. split; [done |].
  reflect_tests. split; [by apply integer_in_some |]. intros a v Hv%jget_elem_of.
  match goal with H : forallb _ _ = true |- _ => rewrite forallb_forall in H; apply list_elem_of_In, H in Hv end.
  unfold generation_entry in Hv. reflect_tests. by apply integer_in_some.
Qed.

Lemma load_ok fails f m : load fails f = Ok m -> f = file_holds (JObject m) /\ valid_membership m.
Proof. unfold load. intros H. inv_result. destruct f; try done. by apply validateMembership_ok in H as [-> ?]. Qed.

Lemma write_cases fails m f r f' : write fails m f = (r, f') ->
  (f' = f /\ is_ok r = false) \/ (f' = written m /\ valid_membership m).
Proof.
  unfold write. destruct (validateMembership (JObject m)) as [? | e] eqn:Ev; cbn [bind_result].
  2: { intros [= <- <-]. by left. }
  apply validateMembership_ok in Ev as [[= <-] Hv]. unfold io, and_finally.
  destruct (fails io_mkdir), (fails io_open), (fails io_writeFile), (fails io_sync), (fails io_close), (fails io_rename),
    (fails io_sync_directory), (fails io_rm); cbn -[written]; intros H; injection H as <- <-; first [by left | by right].
Qed.

(** ** Operations one after the other *)

Inductive store_op :=
  | op_initialize (input : fields) (whole : bool)
  | op_activate
  | op_admit (assetID : list Z) (prepare : fields -> Z -> result unit).

Definition op_ok (op : store_op) : Prop :=
  match op with op_initialize input _ => wf_json (JObject input) | op_activate => True | op_admit a _ => is_jsstr a end.

Inductive store_outcome := gave_nothing | gave_file | gave_activation (g : Z) | gave_admission (a : list Z) (g : Z).

(** One operation, with the calls that fail during it. *)
Definition store_step (x : store_op * (io_step -> bool)) (f : membership_file) : store_outcome * membership_file :=
  let '(op, fails) := x in
  match op with
  | op_initialize input whole =>
      let '(r, f) := initialize fails input whole f in (match r with Ok _ => gave_file | Throw _ => gave_nothing end, f)
  | op_activate =>
      let '(r, f) := activateGateway fails f in
      (match r with Ok m => gave_activation (default 0 (json_integer (prop m "gateway_generation"))) | Throw _ => gave_nothing end, f)
  | op_admit a prepare =>
      let '(r, f) := admitAsset fails a prepare f in (match r with Ok (_, g, _) => gave_admission a g | Throw _ => gave_nothing end, f)
  end.

Fixpoint store_run (ops : list (store_op * (io_step -> bool))) (f : membership_file) : list store_outcome :=
  match ops with
  | [] => []
  | x :: ops => let '(o, f) := store_step x f in o :: store_run ops f
  end.

(** What a step does to the generations: nothing it did is taken back, and a
    generation that is handed out is one past the last. *)
Record moves_on (o : store_outcome) (f f' : membership_file) : Prop := {
  mo_ok : file_ok f';
  mo_assets a : generation_of a f <= generation_of a f';
  mo_gateway : gateway_generation f <= gateway_generation f';
  mo_admitted a g : o = gave_admission a g -> g = generation_of a f + 1 /\ g = generation_of a f' /\ g <= MAX_SAFE_INTEGER;
  mo_activated g : o = gave_activation g -> g = gateway_generation f + 1 /\ g = gateway_generation f' /\ g <= MAX_SAFE_INTEGER
}.

Lemma moves_nowhere f : file_ok f -> moves_on gave_nothing f f.
Proof. by split. Qed.

Lemma activate_moves fails f : file_ok f -> uncurry (fun o f' => moves_on o f f') (store_step (op_activate, fails) f).
Proof.
  intros Hf. unfold store_step, activateGateway. destruct (load fails f) as [m | e] eqn:El; [| by apply moves_nowhere].
  apply load_ok in El as [-> [(g & Hg & Hr) Ha]]. rewrite Hg. cbn [default from_option id].
  set (m1 := jset _ _ m). destruct (write fails m1 _) as [r f'] eqn:Ew. cbn [uncurry].
  assert (Hw1 : wf_json (JObject m1)) by (apply wf_object_jset; [done | apply js_units | by apply json_next_wf]).
  apply write_cases in Ew as [[-> Hr1] | [-> Hv1]]; [destruct r; [done | by apply moves_nowhere] |].
  assert (Hm1 : prop m1 "gateway_generation" = Some (json_next g)) by apply jget_jset_eq.
  destruct Hv1 as [(k & Hk & Hkr) _]. rewrite Hm1 in Hk. apply json_next_inv in Hk as [-> Hmax]; [| done].
  assert (Hgw : gateway_generation (written m1) = g + 1).
  { rewrite written_gateway, Hm1, json_next_safe by (lia || (apply wf_object_iff in Hw1; apply Hw1)). done. }
  assert (Hold : gateway_generation (file_holds (JObject m)) = g) by (unfold gateway_generation; cbn [members]; by rewrite Hg).
  assert (Hasset : forall a, generation_of a (written m1) = generation_of a (file_holds (JObject m))).
  { intros a. rewrite written_generation by done. unfold m1, asset_generations, prop. by rewrite jget_jset_ne. }
  split; [by apply written_ok | intros a; by rewrite Hasset | lia | by destruct r |].
  intros g'. destruct r; [| done]. cbn [bind_result]. rewrite Hm1, json_next_safe by lia. intros [= <-]. cbn. lia.
Qed.

Lemma generation_known m a : valid_membership m ->
  let g := default 0 (json_integer (jget a (asset_generations m))) in 0 <= g <= MAX_SAFE_INTEGER.
Proof.
  intros Hv. cbn zeta. destruct (jget a (asset_generations m)) as [v |] eqn:E; [| done].
  destruct (vm_assets m Hv a v E) as (g & -> & Hg). change (default 0 (Some g)) with g. lia.
Qed.

(** Admitting with any preparation moves one generation on, or none. *)
Lemma admit_moves {A} fails a (prepare : fields -> Z -> result A) f : file_ok f -> is_jsstr a ->
  uncurry (fun r f' => moves_on (match r with Ok (_, g, _) => gave_admission a g | Throw _ => gave_nothing end) f f') (admitAsset fails a prepare f).
Proof.
  intros Hf Hs. unfold admitAsset. destruct (validateLinkNode _) as [? | e]; cbn [bind_result]; [| by apply moves_nowhere].
  destruct (load fails f) as [m | e] eqn:El; [| by apply moves_nowhere]. apply load_ok in El as [-> Hv].
  destruct (negb _ && _); [by apply moves_nowhere |]. destruct (prepare m _) as [p | e]; [| by apply moves_nowhere].
  pose proof (generation_known m a Hv) as Hr. set (g := default 0 _) in *. cbn zeta in Hr.
  set (gens := jset a (json_next g) (asset_generations m)). set (m1 := jset _ (JObject gens) m).
  destruct (write fails m1 _) as [r f'] eqn:Ew. cbn [uncurry].
  assert (Hw1 : wf_json (JObject m1)).
  { apply wf_object_jset; [done | apply js_units | apply wf_object_jset; [by apply asset_generations_wf | done | by apply json_next_wf]]. }
  apply write_cases in Ew as [[-> Hr1] | [-> Hv1]]; [destruct r; [done | by apply moves_nowhere] |].
  assert (Hgens : asset_generations m1 = gens) by (unfold asset_generations at 1, m1, prop; by rewrite jget_jset_eq).
  assert (Hnew : jget a (asset_generations m1) = Some (json_next g)) by (rewrite Hgens; apply jget_jset_eq).
  destruct (vm_assets m1 Hv1 a _ Hnew) as (k & Hk & _). apply json_next_inv in Hk as [-> Hmax]; [| done].
  assert (Hold : generation_of a (file_holds (JObject m)) = g) by done.
  assert (Hga : generation_of a (written m1) = g + 1) by (by rewrite written_generation, Hnew, json_next_safe by (done || lia)).
  assert (Hgb : forall b, b <> a -> generation_of b (written m1) = generation_of b (file_holds (JObject m))).
  { intros b Hb. rewrite written_generation, Hgens by done. unfold gens. by rewrite jget_jset_ne. }
  assert (Hgw : gateway_generation (written m1) = gateway_generation (file_holds (JObject m))).
  { rewrite written_gateway by (apply wf_object_iff in Hw1; apply Hw1). unfold m1, prop. by rewrite jget_jset_ne. }
  split; [by apply written_ok | | lia | | by destruct r].
  - intros b. destruct (decide (b = a)) as [-> | Hb]; [lia | by rewrite Hgb].
  - intros b g'. destruct r; [| done]. cbn [bind_result]. intros [= <- <-]. lia.
Qed.

Lemma initialize_moves fails input whole f : file_ok f -> wf_json (JObject input) ->
  uncurry (fun o f' => moves_on o f f') (store_step (op_initialize input whole, fails) f).
Proof.
  intros Hf Hi. unfold store_step, initialize. set (m := jset _ (JObject []) _).
  assert (Hw : wf_json (JObject m)).
  { repeat (apply wf_object_jset; [| apply js_units |]); [done | by apply json_int_wf | constructor; [apply jwf_nil | constructor]]. }
  assert (Hnew : f = file_missing -> forall o, o = gave_file \/ o = gave_nothing -> moves_on o f (written m)).
  { intros -> o Ho. assert (Hg : forall a, generation_of a (written m) = 0).
    { intros a. rewrite written_generation by done. unfold m, asset_generations, prop. by rewrite jget_jset_eq. }
    assert (Hgw : gateway_generation (written m) = 0).
    { rewrite written_gateway by (apply wf_object_iff in Hw; apply Hw). unfold m, prop. by rewrite jget_jset_ne, jget_jset_eq. }
    split; [by apply written_ok | intros a; by rewrite Hg | by rewrite Hgw | |]; by destruct Ho as [-> | ->]. }
  destruct (let! _ := validateMembership (JObject m) in _) as [? | e]; [| by apply moves_nowhere].
  destruct f as [| | v]; try (by apply moves_nowhere).
  destruct (let! _ := io fails io_writeFile in _) as [? | e]; cbn [uncurry].
  - destruct (io fails io_sync_directory); apply Hnew; auto.
  - destruct (fails io_rm); [| by apply moves_nowhere]. destruct (fails io_writeFile && negb whole); [by split | by apply Hnew; auto].
Qed.

Lemma step_moves x f : op_ok (fst x) -> file_ok f -> uncurry (fun o f' => moves_on o f f') (store_step x f).
Proof.
  destruct x as [[input whole | | a prepare] fails]; cbn [fst op_ok]; intros Ho Hf.
  - by apply initialize_moves.
  - by apply activate_moves.
  - pose proof (admit_moves fails a prepare f Hf Ho) as H. unfold store_step.
    destruct (admitAsset fails a prepare f) as [[[[m g] u] |] f']; exact H.
Qed.

(** ** Any history of the store *)

Definition admissions (a : list Z) (os : list store_outcome) : list Z :=
  omap (fun o => match o with gave_admission b g => if decide (b = a) then Some g else None | _ => None end) os.
Definition activations (os : list store_outcome) : list Z := omap (fun o => match o with gave_activation g => Some g | _ => None end) os.

Lemma grow_step f gs : Forall (fun g => f < g) gs -> StronglySorted Z.lt gs -> StronglySorted Z.lt (f :: gs).
Proof. intros Hf Hs. by constructor. Qed.

Lemma above_earlier k k' (gs : list Z) : k <= k' -> Forall (fun g => k' < g) gs -> Forall (fun g => k < g) gs.
Proof. intros Hk H. eapply Forall_weaken; [exact H |]. cbn. lia. Qed.

Lemma run_grows ops : forall f, Forall (fun x => op_ok (fst x)) ops -> file_ok f ->
  (forall a, StronglySorted Z.lt (generation_of a f :: admissions a (store_run ops f))) /\
  StronglySorted Z.lt (gateway_generation f :: activations (store_run ops f)).
Proof.
  induction ops as [| x ops IH]; intros f Ho Hf; [split; [intros a |]; repeat constructor |].
  apply list.Forall_cons in Ho as [Hx Ho]. pose proof (step_moves x f Hx Hf) as M.
  cbn [store_run]. destruct (store_step x f) as [o f'] eqn:E. cbn [uncurry] in M. destruct (IH f' Ho (mo_ok _ _ _ M)) as [IHa IHg].
  split.
  - intros a. pose proof (IHa a) as S. apply StronglySorted_inv in S as [S1 S2]. pose proof (mo_assets _ _ _ M a) as Hle.
    pose proof (above_earlier _ _ _ Hle S2) as S3. unfold admissions in *. cbn [omap list_omap].
    destruct o as [| | | b g]; try (by apply grow_step). case_decide as Hb; [subst b | by apply grow_step].
    destruct (mo_admitted _ _ _ M a g eq_refl) as (-> & Hg & _). rewrite Hg. apply grow_step; [| by apply grow_step].
    constructor; [lia | done].
  - apply StronglySorted_inv in IHg as [S1 S2]. pose proof (above_earlier _ _ _ (mo_gateway _ _ _ M) S2) as S3.
    unfold activations in *. cbn [omap list_omap]. destruct o as [| | g |]; try (by apply grow_step).
    destruct (mo_activated _ _ _ M g eq_refl) as (-> & Hg & _). rewrite Hg. apply grow_step; [| by apply grow_step].
    constructor; [lia | done].
Qed.

(** C6: no source generation is handed out twice. Over any history of
    initializing the membership, activating the Gateway and admitting Assets,
    with any of the calls to the file system failing at any step (before or
    after the new file took the old one's place), the generations handed out to
    one Asset strictly increase, and so do those of the Gateway; the counters
    never wrap, since an unsafe one is refused. *)
Theorem generations_only_grow ops f :
  Forall (fun x => op_ok (fst x)) ops -> file_ok f ->
  (forall a, StronglySorted Z.lt (admissions a (store_run ops f))) /\ StronglySorted Z.lt (activations (store_run ops f)).
Proof.
  intros Ho Hf. destruct (run_grows ops f Ho Hf) as [Ha Hg].
  split; [intros a; exact (proj1 (StronglySorted_inv (Ha a))) | exact (proj1 (StronglySorted_inv Hg))].
Qed.
