(* ===== verification/JoinPolicy.v ===== *)
(** * Who may join ([joining.ts], the authentication policies)

    What the two ends of a join ask of an authentication policy, and the two
    policies of the source.  Challenges are random; HMAC-SHA256 is Node's. *)

From Stdlib Require Import ZArith Lia String.
From stdpp Require Import base list option.
From S2P Require Import Prelude JsMap BinaryIO Wtf8 Json Utf8Text JsonText CompactValue Base64 LinkTypes Frame Contract JoinWire.

Open Scope string_scope.
Open Scope list_scope.
Open Scope Z_scope.

(** [GatewayAuthenticationPolicy] and [AssetAuthenticationPolicy], less the
    drawing of a challenge. *)
Class AuthenticationPolicy := {
  prove : DiscoveryBeacon -> list Z -> list Z;
  verify : DiscoveryBeacon -> list Z -> list Z -> bool;
  answer : list Z -> list Z;
  verifyGateway : DiscoveryBeacon -> list Z -> list Z -> bool
}.

(** What the services rely on: ends that share a policy recognize each other,
    in words that fit a message. *)
Class PolicyLaws (policy : AuthenticationPolicy) : Prop := {
  honest_asset b c : verify b c (answer c) = true;
  honest_gateway b c : verifyGateway b c (prove b c) = true;
  answer_said c : said c -> said (answer c);
  proof_said b c : said c -> said (prove b c)
}.

(** ** Cooperating ends echo the challenge *)

Definition CooperativeAuthenticationPolicy : AuthenticationPolicy := {|
  prove _ challenge := challenge;
  verify _ challenge response := bool_decide (challenge = response);
  answer challenge := challenge;
  verifyGateway _ challenge proof := bool_decide (challenge = proof)
|}.

#[export] Instance cooperative_laws : PolicyLaws CooperativeAuthenticationPolicy.
Proof. split; cbn; intros; try done; by apply bool_decide_true. Qed.

(** ** Ends that share a key *)

(** [createHmac("sha256", key).update(text).digest()] *)
Class Hmac := { hmac_sha256 : list Z -> list Z -> list Z }.
Class HmacLaws {hmac : Hmac} : Prop := {
  digest_length key text : zlen (hmac_sha256 key text) = 32;
  digest_bytes key text : is_bytes (hmac_sha256 key text)
}.

(** [fields.join("\0")] *)
Definition gatewayProofInput (b : DiscoveryBeacon) (challenge : list Z) : list Z :=
  b_join_attempt_id b ++ [0] ++ stringify (json_int (b_radio_node_id b)) ++ [0] ++ b_asset_id b ++ [0] ++
  b_service_session b ++ [0] ++ challenge.

Section shared_key.
Context {hmac : Hmac} {node : NodeBuffer}.

Definition signature (key : list Z) (party input : list Z) : list Z :=
  hmac_sha256 key (js "atlas-meshtastic-link-join" ++ [0] ++ party ++ [0] ++ Buffer_from input).

(** [actual.byteLength === expected.byteLength && timingSafeEqual(actual, expected)] *)
Definition same_signature (text expected : list Z) : bool :=
  let actual := from_base64url text in (zlen actual =? zlen expected) && bool_decide (actual = expected).

Definition PreSharedKeyAuthenticationPolicy (key : list Z) : result AuthenticationPolicy :=
  guard! negb (zlen key <? 32) else TypeError "join authentication key must contain at least 32 bytes" in
  Ok {|
    prove b challenge := base64url_encode (signature key (js "gateway") (gatewayProofInput b challenge));
    verify _ challenge response := same_signature response (signature key (js "asset") challenge);
    answer challenge := base64url_encode (signature key (js "asset") challenge);
    verifyGateway b challenge proof := same_signature proof (signature key (js "gateway") (gatewayProofInput b challenge))
  |}.

Context {laws : NodeBufferLaws} {hmac_laws : HmacLaws}.

Lemma signed_said key party input : said (base64url_encode (signature key party input)).
Proof.
  unfold signature. set (text := _ ++ _). pose proof (digest_bytes key text) as Hb. pose proof (digest_length key text) as Hl.
  split; [by apply base64url_units |]. destruct (hmac_sha256 key text) as [| a [| b [| c r]]]; done.
Qed.

Lemma own_signature key party input : same_signature (base64url_encode (signature key party input)) (signature key party input) = true.
Proof.
  unfold same_signature. rewrite base64url_read by apply digest_bytes. rewrite Z.eqb_refl. by apply bool_decide_true.
Qed.

Lemma shared_key_laws key policy : PreSharedKeyAuthenticationPolicy key = Ok policy -> PolicyLaws policy.
Proof.
  unfold PreSharedKeyAuthenticationPolicy. intros H. inv_result.
  split; cbn; intros; first [apply own_signature | apply signed_said].
Qed.
End shared_key.
