(* ===== verification/JoinGateway.v ===== *)
(** * The Gateway's end of a join ([joining.ts], [GatewayJoinService])

    Every packet starts an asynchronous [receive], which runs until it awaits
    something: the authentication policy, the membership store, the callback
    for admissions, the radio.  What is left to do then waits under a number,
    and goes on when the answer comes; in between anything else may happen. *)

From Stdlib Require Import ZArith Lia String.
From stdpp Require Import base list option.
From S2P Require Import Prelude JsMap BinaryIO Wtf8 Json Utf8Text CompactValue Base64 LinkTypes Frame Contract JsState JoinWire Membership.

Open Scope string_scope.
Open Scope list_scope.
Open Scope Z_scope.

Definition MAX_PENDING_JOINS : Z := 256.
Definition PENDING_JOIN_RETENTION_MS : Z := 2 * 60000.
Definition MAX_COMPLETED_JOINS : Z := 256.
Definition COMPLETED_JOIN_RETENTION_MS : Z := 5 * 60000.

(** ** The radio, as far as joining uses it *)

Record JoinPacket := mkJoinPacket {
  jp_payload : list Z; jp_received_at : Z; jp_radio_source : option Z; jp_channel : Z; jp_public_key_encrypted : bool
}.

Record JoinSendOptions := mkJoinOptions {
  jo_channel : Z; jo_destination_radio_node : option Z; jo_require_public_key : bool
}.

(** [radio.maxPayloadBytes?.(options) ?? radio.max_payload_bytes] *)
Class JoinRadio := { max_payload_bytes : Z; radio_maxPayloadBytes : option (JoinSendOptions -> Z) }.

Definition joinPayloadBudget {radio : JoinRadio} (options : JoinSendOptions) : Z :=
  match radio_maxPayloadBytes with Some f => f options | None => max_payload_bytes end.

(** ** State *)

Record PendingJoin := mkPending {
  pj_beacon : DiscoveryBeacon; pj_challenge : list Z; pj_gatewayProof : list Z; pj_radioNodeID : Z; pj_expiresAt : Z
}.

Record CompletedJoin := mkCompleted {
  cj_beacon : DiscoveryBeacon; cj_radioNodeID : Z; cj_acceptance : JoinAcceptance; cj_payload : list Z; cj_expiresAt : Z
}.

(** What an operation that waits has still to do, by what it waits for.  Where
    the source awaits a function of its own that has returned or thrown
    already, its result is [known]. *)
Inductive operation :=
  | w_challenge (beacon : DiscoveryBeacon) (packet : JoinPacket)
  | w_prove (beacon : DiscoveryBeacon) (packet : JoinPacket) (challenge : list Z)
  | w_sending (known : option (result unit))
  | w_verify (attempt response : list Z) (packet : JoinPacket) (p : PendingJoin)
  | w_admit (attempt : list Z) (packet : JoinPacket) (p : PendingJoin)
  | w_announce (attempt : list Z) (packet : JoinPacket) (p : PendingJoin) (acceptance : JoinAcceptance) (payload : list Z)
  | w_acceptance (attempt : list Z) (known : option (result unit))
  | w_rejected (e : js_error).

(** What happened, the newest first. *)
Inductive entry :=
  | heard (packet : JoinPacket)
  | drew (beacon : DiscoveryBeacon) (challenge : list Z)
  | proved (beacon : DiscoveryBeacon) (challenge proof : list Z)
  | judged (beacon : DiscoveryBeacon) (challenge response : list Z) (accepted : bool)
  | enrolled (assetID : list Z) (generation : Z)
  | announced (assetID : list Z) (generation : Z) (session : list Z)
  | transmitted (message : JoinWireMessage) (payload : list Z) (options : JoinSendOptions)
  | reported (e : js_error).

Record gateway_join := mkGatewayJoin {
  pending : list (list Z * PendingJoin);
  completed : list (list Z * CompletedJoin);
  processing : list (list Z);
  pendingChallenges : list (list Z);
  activeOperations : list (Z * operation);
  operations_started : Z;
  closed : bool;
  membership : membership_file;
  history : list entry
}.

#[export] Instance gateway_join_rebuild : Rebuild gateway_join :=
  fun s => mkGatewayJoin (pending s) (completed s) (processing s) (pendingChallenges s) (activeOperations s) (operations_started s)
    (closed s) (membership s) (history s).

Definition new_gateway_join (file : membership_file) : gateway_join := mkGatewayJoin [] [] [] [] [] 0 false file [].

Definition record (e : entry) : eff gateway_join unit := modify (fun s => s <| history ::= cons e |>).

(** [set.has(x)], [set.add(x)], [set.delete(x)] *)
Definition set_has (x : list Z) (l : list (list Z)) : bool := existsb (fun y => bool_decide (y = x)) l.
Definition set_add (x : list Z) (l : list (list Z)) : list (list Z) := if set_has x l then l else l ++ [x].
Definition set_delete (x : list Z) (l : list (list Z)) : list (list Z) := List.filter (fun y => negb (bool_decide (y = x))) l.

Definition sameJoin (left_ right_ : DiscoveryBeacon) (leftRadioNodeID rightRadioNodeID : Z) : bool :=
  bool_decide (b_join_attempt_id left_ = b_join_attempt_id right_) && bool_decide (b_asset_id left_ = b_asset_id right_) &&
  bool_decide (b_service_session left_ = b_service_session right_) && (b_radio_node_id left_ =? b_radio_node_id right_) &&
  (leftRadioNodeID =? rightRadioNodeID).

Section gateway.
Context {node : NodeBuffer} {radio : JoinRadio} (rendezvousChannel : Z).

Definition addressed (destination : Z) : JoinSendOptions := mkJoinOptions rendezvousChannel (Some destination) true.

(** Both return what is known of the promise they return. *)
Definition sendChallenge (attempt challenge proof : list Z) (destination : Z) : eff gateway_join (option (result unit)) :=
  do! closed := gets closed in
  if closed then ret (Some (Ok tt))
  else
    let message := join_challenge attempt challenge proof in
    match encodeJoinMessage message (joinPayloadBudget (addressed destination)) with
    | Throw e => ret (Some (Throw e))
    | Ok payload => do! _ := record (transmitted message payload (addressed destination)) in ret None
    end.

Definition sendAcceptancePayload (acceptance : JoinAcceptance) (payload : list Z) (destination : Z)
    : eff gateway_join (option (result unit)) :=
  do! closed := gets closed in
  if closed then ret (Some (Ok tt))
  else do! _ := record (transmitted (join_accept acceptance) payload (addressed destination)) in ret None.

Definition pruneCompleted (now : Z) (s : gateway_join) : gateway_join :=
  s <| completed ::= fun m => jevict MAX_COMPLETED_JOINS (jretain (fun _ c => negb (cj_expiresAt c <=? now)) m) |>.

Definition prunePending (now : Z) (s : gateway_join) : gateway_join :=
  s <| pending ::= jretain (fun attempt p => negb ((pj_expiresAt p <=? now) && negb (set_has attempt (processing s)))) |>.

(** Until the first [await] of [receive], which leaves what waits. *)
Definition receive_discovery (message : DiscoveryBeacon) (packet : JoinPacket) (source : Z) : eff gateway_join (option operation) :=
  let attempt := b_join_attempt_id message in
  do! _ := lift (validateLinkNode (mkNode asset (b_asset_id message))) in
  do! _ := modify (pruneCompleted (jp_received_at packet)) in
  if negb (b_radio_node_id message =? source) then ret None
  else
    do! s := gets (fun s => s) in
    match jget attempt (completed s) with
    | Some c =>
        if sameJoin (cj_beacon c) message (cj_radioNodeID c) source
        then do! known := sendAcceptancePayload (cj_acceptance c) (cj_payload c) source in ret (Some (w_sending known))
        else ret None
    | None =>
        match jget attempt (pending s) with
        | Some p =>
            if sameJoin (pj_beacon p) message (pj_radioNodeID p) source
            then do! known := sendChallenge attempt (pj_challenge p) (pj_gatewayProof p) source in ret (Some (w_sending known))
            else ret None
        | None =>
            if set_has attempt (pendingChallenges s) then ret None
            else if MAX_PENDING_JOINS <=? jsize (pending s) + zlen (pendingChallenges s) then ret None
            else
              do! _ := modify (fun s => s <| pendingChallenges ::= set_add attempt |>) in
              ret (Some (w_challenge message packet))
        end
    end.

Definition receive_response (attempt response : list Z) (packet : JoinPacket) (source : Z) : eff gateway_join (option operation) :=
  if negb (jp_public_key_encrypted packet) then ret None
  else
    do! s := gets (fun s => s) in
    match jget attempt (pending s) with
    | Some p =>
        if negb (pj_radioNodeID p =? source) || set_has attempt (processing s) then ret None
        else
          do! _ := modify (fun s => s <| processing ::= set_add attempt |>) in
          ret (Some (w_verify attempt response packet p))
    | None => ret None
    end.

Definition receive (packet : JoinPacket) : eff gateway_join (option operation) :=
  do! closed := gets closed in
  match jp_radio_source packet with
  | Some source =>
      if closed || negb (jp_channel packet =? rendezvousChannel) then ret None
      else
        match decodeJoinMessage (jp_payload packet) with
        | None => ret None
        | Some message =>
            do! _ := modify (prunePending (jp_received_at packet)) in
            match message with
            | join_discovery beacon => receive_discovery beacon packet source
            | join_response attempt response => receive_response attempt response packet source
            | _ => ret None
            end
        end
  | None => ret None
  end.

(** ** Going on *)

(** What an awaited call comes back with; the store's calls to the file system
    are made when its turn comes. *)
Inductive reply :=
  | reply_text (r : result (list Z))
  | reply_bool (r : result bool)
  | reply_unit (r : result unit)
  | reply_store (fails : io_step -> bool).

(** [try { m } finally { cleanup }], when [m] comes to its end. *)
Definition closing {A} (ended : A -> bool) (cleanup : gateway_join -> gateway_join) (m : eff gateway_join A) : eff gateway_join A :=
  fun s => match m s with
           | (Ok a, s') => (Ok a, if ended a then cleanup s' else s')
           | (Throw e, s') => (Throw e, cleanup s')
           end.

Definition forget_challenge (attempt : list Z) (s : gateway_join) : gateway_join := s <| pendingChallenges ::= set_delete attempt |>.
Definition end_processing (attempt : list Z) (s : gateway_join) : gateway_join :=
  s <| pending ::= jdel attempt |> <| processing ::= set_delete attempt |>.

Definition is_end (w : option operation) : bool := match w with None => true | Some _ => false end.

(** After the challenge: the proof is asked for. *)
Definition challenged (beacon : DiscoveryBeacon) (packet : JoinPacket) (r : result (list Z)) : eff gateway_join (option operation) :=
  closing is_end (forget_challenge (b_join_attempt_id beacon))
    (do! challenge := lift r in
     do! _ := record (drew beacon challenge) in
     do! closed := gets closed in
     ret (if closed then None else Some (w_prove beacon packet challenge))).

(** After the proof: the join is pending, and the challenge goes out. *)
Definition proven (beacon : DiscoveryBeacon) (packet : JoinPacket) (source : Z) (challenge : list Z) (r : result (list Z))
    : eff gateway_join (option operation) :=
  let attempt := b_join_attempt_id beacon in
  do! proof :=
    closing (fun _ => true) (forget_challenge attempt)
      (do! proof := lift r in
       do! _ := record (proved beacon challenge proof) in
       do! closed := gets closed in
       if closed then ret None
       else
         do! _ := modify (fun s => s <| pending ::= jset attempt
                    (mkPending beacon challenge proof source (jp_received_at packet + PENDING_JOIN_RETENTION_MS)) |>) in
         ret (Some proof)) in
  match proof with
  | None => ret None
  | Some proof =>
      do! _ := modify (fun s => s <| pending ::= jevict MAX_PENDING_JOINS |>) in
      do! known := sendChallenge attempt challenge proof source in ret (Some (w_sending known))
  end.

(** After the verdict on the response. *)
Definition judgement (attempt response : list Z) (packet : JoinPacket) (p : PendingJoin) (r : result bool)
    : eff gateway_join (option operation) :=
  closing is_end (end_processing attempt)
    (do! accepted := lift r in
     do! _ := record (judged (pj_beacon p) (pj_challenge p) response accepted) in
     do! closed := gets closed in
     ret (if negb accepted || closed then None else Some (w_admit attempt packet p))).

(** What the store prepares while it admits the Asset. *)
Definition prepare_acceptance (attempt : list Z) (source : Z) (m : fields) (sourceGeneration : Z) : result (JoinAcceptance * list Z) :=
  let acceptance := mkAcceptance attempt (text_of (prop m "gateway_node_id")) sourceGeneration revision
    (mkChannel (default 0 (json_integer (prop m "channel_index"))) (text_of (prop m "channel_name")) (text_of (prop m "channel_key_base64"))) in
  let! payload := encodeJoinMessage (join_accept acceptance) (joinPayloadBudget (addressed source)) in
  Ok (acceptance, payload).

Definition enroll (attempt : list Z) (packet : JoinPacket) (p : PendingJoin) (source : Z) (fails : io_step -> bool)
    : eff gateway_join (option operation) :=
  closing is_end (end_processing attempt)
    (do! admitted := (fun s =>
       let '(r, file) := admitAsset fails (b_asset_id (pj_beacon p)) (prepare_acceptance attempt source) (membership s) in
       (r, s <| membership := file |>)) in
     let '(_, generation, (acceptance, payload)) := admitted in
     do! _ := record (enrolled (b_asset_id (pj_beacon p)) generation) in
     do! closed := gets closed in
     if closed then ret None
     else
       do! _ := record (announced (b_asset_id (pj_beacon p)) generation (b_service_session (pj_beacon p))) in
       ret (Some (w_announce attempt packet p acceptance payload))).

(** After the callback for admissions. *)
Definition complete (attempt : list Z) (packet : JoinPacket) (p : PendingJoin) (source : Z) (acceptance : JoinAcceptance) (payload : list Z)
    (r : result unit) : eff gateway_join (option operation) :=
  closing is_end (end_processing attempt)
    (do! _ := lift r in
     do! closed := gets closed in
     if closed then ret None
     else
       do! _ := modify (fun s => s <| completed ::= jset attempt
                  (mkCompleted (pj_beacon p) (pj_radioNodeID p) acceptance payload (jp_received_at packet + COMPLETED_JOIN_RETENTION_MS)) |>) in
       do! _ := modify (pruneCompleted (jp_received_at packet)) in
       do! known := sendAcceptancePayload acceptance payload source in
       ret (Some (w_acceptance attempt known))).

(** An operation goes on with the reply it waits for; of another kind of reply
    nothing comes. *)
Definition continue (w : operation) (a : reply) : option (eff gateway_join (option operation)) :=
  match w, a with
  | w_challenge beacon packet, reply_text r => Some (challenged beacon packet r)
  | w_prove beacon packet challenge, reply_text r =>
      source ← jp_radio_source packet; Some (proven beacon packet source challenge r)
  | w_sending known, reply_unit r => Some (do! _ := lift (default r known) in ret None)
  | w_verify attempt response packet p, reply_bool r => Some (judgement attempt response packet p r)
  | w_admit attempt packet p, reply_store fails => source ← jp_radio_source packet; Some (enroll attempt packet p source fails)
  | w_announce attempt packet p acceptance payload, reply_unit r =>
      source ← jp_radio_source packet; Some (complete attempt packet p source acceptance payload r)
  | w_acceptance attempt known, reply_unit r =>
      Some (closing is_end (end_processing attempt) (do! _ := lift (default r known) in ret None))
  | w_rejected e, reply_unit _ =>
      Some (do! closed := gets closed in do! _ := (if closed then ret tt else record (reported e)) in ret None)
  | _, _ => None
  end.

(** [run(operation)]: the promise is active until it settles. *)
Definition settle (number : Z) (m : eff gateway_join (option operation)) (s : gateway_join) : gateway_join :=
  match m s with
  | (Ok None, s) => s
  | (Ok (Some w), s) => s <| activeOperations ::= jset number w |>
  | (Throw e, s) => s <| activeOperations ::= jset number (w_rejected e) |>
  end.

(** ** What happens to the service *)

Inductive event :=
  | packet_heard (packet : JoinPacket)
  | replied (number : Z) (a : reply)
  | close_asked
  | close_settled.

Definition step (e : event) (s : gateway_join) : gateway_join :=
  match e with
  | packet_heard packet =>
      if closed s then s
      else
        settle (operations_started s) (receive packet)
          (s <| history ::= cons (heard packet) |> <| operations_started ::= fun n => n + 1 |>)
  | replied number a =>
      match jget number (activeOperations s) with
      | Some w =>
          match continue w a with
          | Some m => settle number m (s <| activeOperations ::= jdel number |>)
          | None => s
          end
      | None => s
      end
  | close_asked =>
      if closed s then s
      else s <| closed := true |> <| pending := [] |> <| completed := [] |> <| pendingChallenges := [] |>
  | close_settled => if closed s && bool_decide (jkeys (activeOperations s) = []) then s <| processing := [] |> else s
  end.

Definition run (es : list event) (s : gateway_join) : gateway_join := fold_left (fun s e => step e s) es s.
End gateway.
