(* ===== verification/JoinGatewayFacts.v ===== *)
(** * What the Gateway's end of a join guarantees ([joining.ts])

    Over any interleaving of packets, replies and closing: the membership
    leaves only for a radio that answered its own challenge over an encrypted
    packet, and the tables of the service stay within their bounds. *)

From Stdlib Require Import ZArith Lia String.
From stdpp Require Import base list option.
From S2P Require Import Prelude JsMap BinaryIO Wtf8 Json Utf8Text CompactValue Base64 LinkTypes Frame Contract JsState JoinWire Membership JoinGateway.

Open Scope string_scope.
Open Scope list_scope.
Open Scope Z_scope.

Section gateway.
Context {node : NodeBuffer} {radio : JoinRadio} (rendezvousChannel : Z).

Abbreviation addressed := (addressed rendezvousChannel).

(** ** What must have happened before *)

(** A radio said that it carries the Asset of the beacon. *)
Definition heard_discovery (past : list entry) (beacon : DiscoveryBeacon) (source : Z) : Prop :=
  exists packet, heard packet ∈ past /\ decodeJoinMessage (jp_payload packet) = Some (join_discovery beacon) /\
    jp_radio_source packet = Some source /\ b_radio_node_id beacon = source.

(** A challenge was drawn for it. *)
Definition invited (past : list entry) (attempt : list Z) (p : PendingJoin) : Prop :=
  b_join_attempt_id (pj_beacon p) = attempt /\ heard_discovery past (pj_beacon p) (pj_radioNodeID p) /\
  drew (pj_beacon p) (pj_challenge p) ∈ past.

(** The same radio answered, in a packet encrypted for the Gateway. *)
Definition answered (past : list entry) (attempt response : list Z) (packet : JoinPacket) (p : PendingJoin) : Prop :=
  invited past attempt p /\ heard packet ∈ past /\ decodeJoinMessage (jp_payload packet) = Some (join_response attempt response) /\
  jp_public_key_encrypted packet = true /\ jp_radio_source packet = Some (pj_radioNodeID p).

(** The policy accepted the answer to that challenge. *)
Definition approved (past : list entry) (attempt : list Z) (packet : JoinPacket) (p : PendingJoin) : Prop :=
  exists response, answered past attempt response packet p /\ judged (pj_beacon p) (pj_challenge p) response true ∈ past.

(** The store gave the Asset the generation the acceptance carries. *)
Definition granted (past : list entry) (attempt : list Z) (destination : Z) (acceptance : JoinAcceptance) (payload : list Z) : Prop :=
  exists packet p, approved past attempt packet p /\ pj_radioNodeID p = destination /\
    enrolled (b_asset_id (pj_beacon p)) (a_source_generation acceptance) ∈ past /\ a_join_attempt_id acceptance = attempt /\
    encodeJoinMessage (join_accept acceptance) (joinPayloadBudget (addressed destination)) = Ok payload.

Definition cause (e : entry) (past : list entry) : Prop :=
  match e with
  | enrolled assetID _ => exists attempt packet p, approved past attempt packet p /\ b_asset_id (pj_beacon p) = assetID
  | announced assetID generation _ => enrolled assetID generation ∈ past
  | transmitted (join_challenge attempt challenge _) _ options =>
      exists p, invited past attempt p /\ pj_challenge p = challenge /\ options = addressed (pj_radioNodeID p)
  | transmitted (join_accept acceptance) payload options =>
      exists destination, options = addressed destination /\ granted past (a_join_attempt_id acceptance) destination acceptance payload
  | transmitted _ _ _ => False
  | _ => True
  end.

Fixpoint caused (past : list entry) : Prop :=
  match past with [] => True | e :: past => cause e past /\ caused past end.

Definition justified (past : list entry) (w : operation) : Prop :=
  match w with
  | w_challenge beacon packet => exists source, jp_radio_source packet = Some source /\ heard_discovery past beacon source
  | w_prove beacon packet challenge =>
      exists source, jp_radio_source packet = Some source /\ heard_discovery past beacon source /\ drew beacon challenge ∈ past
  | w_verify attempt response packet p => answered past attempt response packet p
  | w_admit attempt packet p => approved past attempt packet p
  | w_announce attempt packet p acceptance payload =>
      approved past attempt packet p /\ granted past attempt (pj_radioNodeID p) acceptance payload
  | w_sending _ | w_acceptance _ _ | w_rejected _ => True
  end.

(** The past is not forgotten. *)
Lemma discovery_later past past' beacon source : past ⊆ past' -> heard_discovery past beacon source -> heard_discovery past' beacon source.
Proof using. intros H (packet & ? & ?). exists packet. auto. Qed.
Lemma invited_later past past' attempt p : past ⊆ past' -> invited past attempt p -> invited past' attempt p.
Proof using. intros H (? & ? & ?). split; [done |]. split; [by eapply discovery_later | auto]. Qed.
Lemma answered_later past past' attempt response packet p : past ⊆ past' -> answered past attempt response packet p -> answered past' attempt response packet p.
Proof using. intros H (? & ? & ?). split; [by eapply invited_later | auto]. Qed.
Lemma approved_later past past' attempt packet p : past ⊆ past' -> approved past attempt packet p -> approved past' attempt packet p.
Proof using. intros H (response & ? & ?). exists response. split; [by eapply answered_later | auto]. Qed.
Lemma granted_later past past' attempt destination acceptance payload :
  past ⊆ past' -> granted past attempt destination acceptance payload -> granted past' attempt destination acceptance payload.
Proof using. intros H (packet & p & ? & ? & ? & ?). exists packet, p. split; [by eapply approved_later | auto]. Qed.
Lemma justified_later past past' w : past ⊆ past' -> justified past w -> justified past' w.
Proof using.
  intros H. destruct w; cbn; try done.
  - intros (source & ? & ?). exists source. split; [done | by eapply discovery_later].
  - intros (source & ? & ? & ?). exists source. split; [done |]. split; [by eapply discovery_later | auto].
  - by apply answered_later.
  - by apply approved_later.
  - intros [? ?]. split; [by eapply approved_later | by eapply granted_later].
Qed.

(** ** The invariant *)

Record sound (s : gateway_join) : Prop := {
  so_pending id p : (id, p) ∈ pending s -> invited (history s) id p;
  so_completed id c : (id, c) ∈ completed s -> granted (history s) id (cj_radioNodeID c) (cj_acceptance c) (cj_payload c);
  so_active n w : (n, w) ∈ activeOperations s -> justified (history s) w;
  so_history : caused (history s)
}.

(** A step that forgets and does not invent. *)
Lemma sound_less s s' : sound s -> history s' = history s -> pending s' ⊆ pending s -> completed s' ⊆ completed s ->
  activeOperations s' ⊆ activeOperations s -> sound s'.
Proof using.
  intros [H1 H2 H3 H4] Hh Hp Hc Ha. split; rewrite Hh; [intros id p Hx; apply H1, Hp, Hx | intros id c Hx; apply H2, Hc, Hx | intros n w Hx; eapply H3, Ha, Hx | done].
Qed.

Lemma sound_record e s : sound s -> cause e (history s) -> sound (s <| history ::= cons e |>).
Proof using.
  intros [H1 H2 H3 H4] He. assert (Hl : history s ⊆ e :: history s) by (intros x; by right). split; cbn.
  - intros id p Hp. eapply invited_later; [exact Hl | auto].
  - intros id c Hc. eapply granted_later; [exact Hl | auto].
  - intros n w Hw. eapply justified_later; [exact Hl | eauto].
  - done.
Qed.

(** An operation run on sound states leaves what it waits for justified. *)
Definition lands (x : result (option operation) * gateway_join) : Prop :=
  sound (snd x) /\ match fst x with Ok (Some w) => justified (history (snd x)) w | _ => True end.

Definition careful (P : gateway_join -> Prop) (m : eff gateway_join (option operation)) : Prop :=
  forall s, sound s -> P s -> lands (m s).

Lemma jdel_subset {K V} `{EqDecision K} (k : K) (m : list (K * V)) : jdel k m ⊆ m.
Proof using. intros x. apply elem_of_jdel_weak. Qed.
Lemma jretain_subset {V} (f : list Z -> V -> bool) (m : list (list Z * V)) : jretain f m ⊆ m.
Proof using. intros x. rewrite elem_of_jretain. tauto. Qed.
Lemma jevict_subset {V} n (m : list (list Z * V)) : jevict n m ⊆ m.
Proof using. intros x. apply jevict_elem. Qed.

Lemma pruneCompleted_sound now s : sound s -> sound (pruneCompleted now s).
Proof using.
  intros H. apply (sound_less s); try done. cbn. intros x Hx%jevict_subset. by apply jretain_subset in Hx.
Qed.
Lemma prunePending_sound now s : sound s -> sound (prunePending now s).
Proof using. intros H. apply (sound_less s); try done. cbn. apply jretain_subset. Qed.

(** ** The sends *)

Lemma sendChallenge_sound attempt challenge proof destination s :
  sound s -> (exists p, invited (history s) attempt p /\ pj_challenge p = challenge /\ pj_radioNodeID p = destination) ->
  sound (snd (sendChallenge rendezvousChannel attempt challenge proof destination s)) /\
  exists known, fst (sendChallenge rendezvousChannel attempt challenge proof destination s) = Ok known.
Proof using.
  intros H (p & Hp & <- & <-). unfold sendChallenge, bind_eff, gets, ret, record, modify. cbn.
  destruct (closed s); [by split; [| eexists] |]. destruct (encodeJoinMessage _ _) as [payload | e]; cbn; [| by split; [| eexists]].
  split; [| by eexists]. apply sound_record; [done |]. by exists p.
Qed.

Lemma sendAcceptance_sound attempt acceptance payload destination s :
  sound s -> granted (history s) attempt destination acceptance payload ->
  sound (snd (sendAcceptancePayload rendezvousChannel acceptance payload destination s)) /\
  exists known, fst (sendAcceptancePayload rendezvousChannel acceptance payload destination s) = Ok known.
Proof using.
  intros H Hg. unfold sendAcceptancePayload, bind_eff, gets, ret, record, modify. cbn.
  destruct (closed s); [by split; [| eexists] |]. cbn. split; [| by eexists]. apply sound_record; [done |].
  exists destination. split; [done |]. pose proof Hg as (_ & _ & _ & _ & _ & -> & _). done.
Qed.

(** ** Starting on a packet *)

Lemma repeat_sound (P : gateway_join -> Prop) (m : eff gateway_join (option (result unit))) :
  (forall s, sound s -> P s -> sound (snd (m s)) /\ exists known, fst (m s) = Ok known) ->
  careful P (do! known := m in ret (Some (w_sending known))).
Proof using.
  intros Hm s Hs HP. destruct (Hm s Hs HP) as [H1 [known H2]]. unfold bind_eff. destruct (m s) as [r s']. cbn in *. by subst r.
Qed.

Lemma receive_discovery_careful beacon packet source :
  careful (fun s => heard packet ∈ history s /\ decodeJoinMessage (jp_payload packet) = Some (join_discovery beacon) /\ jp_radio_source packet = Some source)
    (receive_discovery rendezvousChannel beacon packet source).
Proof using.
  unfold receive_discovery. intros s Hs (Hh & Hd & Hr). unfold bind_eff at 1, lift. destruct (validateLinkNode _); [| done].
  unfold bind_eff at 1, modify at 1. apply pruneCompleted_sound with (now := jp_received_at packet) in Hs.
  set (s1 := pruneCompleted _ s) in *. assert (Hh1 : heard packet ∈ history s1) by exact Hh. clearbody s1. clear Hh s.
  destruct (Z.eqb_spec (b_radio_node_id beacon) source) as [Hn |]; cbn [negb]; [| done].
  unfold bind_eff at 1, gets at 1. destruct (jget _ (completed s1)) as [c |] eqn:Ec.
  { destruct (sameJoin _ _ _ _) eqn:Es; [| done]. apply (repeat_sound (fun s => s = s1)); [intros ? Hs1 -> | done | done].
    apply jget_elem_of in Ec. eapply sendAcceptance_sound; [done |].
    apply (so_completed _ Hs1) in Ec. unfold sameJoin in Es. reflect_tests. match goal with H : cj_radioNodeID c = _ |- _ => rewrite <- H end. exact Ec. }
  destruct (jget _ (pending s1)) as [p |] eqn:Ep.
  { destruct (sameJoin _ _ _ _) eqn:Es; [| done]. apply (repeat_sound (fun s => s = s1)); [intros ? Hs1 -> | done | done].
    apply jget_elem_of in Ep. apply sendChallenge_sound; [done |]. exists p. unfold sameJoin in Es. reflect_tests.
    split; [by apply (so_pending _ Hs1) | done]. }
  destruct (set_has _ _); [done |]. destruct (_ <=? _); [done |]. unfold bind_eff, modify, ret. cbn [fst snd]. split.
  - by apply (sound_less s1).
  - exists source. split; [done |]. exists packet. done.
Qed.

Lemma receive_response_careful attempt response packet source :
  careful (fun s => heard packet ∈ history s /\ decodeJoinMessage (jp_payload packet) = Some (join_response attempt response) /\ jp_radio_source packet = Some source)
    (receive_response attempt response packet source).
Proof using.
  unfold receive_response. intros s Hs (Hh & Hd & Hr). destruct (jp_public_key_encrypted packet) eqn:Ee; cbn [negb]; [| done].
  unfold bind_eff at 1, gets at 1. destruct (jget attempt (pending s)) as [p |] eqn:Ep; [| done].
  destruct (Z.eqb_spec (pj_radioNodeID p) source) as [Hn |]; cbn [negb orb]; [| done]. destruct (set_has _ _); [done |].
  unfold bind_eff, modify, ret. cbn [fst snd]. split; [by apply (sound_less s) |].
  apply jget_elem_of, (so_pending _ Hs) in Ep. cbn. unfold answered. by rewrite Hn.
Qed.

Lemma receive_careful packet : careful (fun s => heard packet ∈ history s) (receive rendezvousChannel packet).
Proof using.
  unfold receive. intros s Hs Hh. unfold bind_eff at 1, gets at 1. destruct (jp_radio_source packet) as [source |] eqn:Er; [| done].
  destruct (_ || _); [done |]. destruct (decodeJoinMessage (jp_payload packet)) as [m |] eqn:Ed; [| done].
  unfold bind_eff at 1, modify at 1. apply prunePending_sound with (now := jp_received_at packet) in Hs.
  set (s1 := prunePending _ s) in *. destruct m; try done.
  - by apply receive_discovery_careful.
  - by apply receive_response_careful.
Qed.

(** ** Going on *)

Lemma forget_sound attempt s : sound s -> sound (forget_challenge attempt s).
Proof using. intros H. by apply (sound_less s). Qed.
Lemma end_processing_sound attempt s : sound s -> sound (end_processing attempt s).
Proof using. intros H. apply (sound_less s); try done. apply jdel_subset. Qed.

Lemma closing_lands cleanup m s : (forall s, sound s -> sound (cleanup s)) -> lands (m s) -> lands (closing is_end cleanup m s).
Proof using.
  intros Hc [H1 H2]. unfold closing. destruct (m s) as [[[w |] | e] s']; cbn [fst snd is_end] in *; split; cbn; auto.
Qed.

Lemma challenged_careful beacon packet r source :
  careful (fun s => jp_radio_source packet = Some source /\ heard_discovery (history s) beacon source) (challenged beacon packet r).
Proof using.
  intros s Hs [Hr Hd]. apply closing_lands; [apply forget_sound |]. destruct r as [challenge | e]; [| done].
  unfold bind_eff at 1 2, lift, record, modify, gets, bind_eff, ret. apply (sound_record (drew beacon challenge)) in Hs; [| done].
  split; [done |]. cbn [fst snd]. destruct (closed _); [done |]. exists source. split; [done |]. split; [| by left].
  eapply discovery_later; [| exact Hd]. intros x. by right.
Qed.

Lemma proven_careful beacon packet source challenge r :
  careful (fun s => heard_discovery (history s) beacon source /\ drew beacon challenge ∈ history s) (proven rendezvousChannel beacon packet source challenge r).
Proof using.
  intros s Hs [Hd Hc]. unfold proven, closing. destruct r as [proof | e].
  2: { cbn. split; [by apply forget_sound | done]. }
  apply (sound_record (proved beacon challenge proof)) in Hs; [| done].
  assert (Hi : forall p, pj_beacon p = beacon -> pj_challenge p = challenge -> pj_radioNodeID p = source ->
    invited (proved beacon challenge proof :: history s) (b_join_attempt_id beacon) p).
  { intros p Hp1 Hp2 Hp3. unfold invited. rewrite Hp1, Hp2, Hp3. split; [done |]. split; [| by right].
    eapply discovery_later; [| exact Hd]. intros x. by right. }
  unfold bind_eff, lift, record, modify, gets, ret. cbn [closed assign rebuild gateway_join_rebuild].
  destruct (closed s); cbn [fst snd].
  { split; [| done]. by apply (sound_less _ _ Hs). }
  set (p := mkPending _ _ _ _ _). match goal with |- context [sendChallenge _ _ _ _ _ ?x] => set (s1 := x) end.
  assert (Hs1 : sound s1).
  { apply (sound_less (s <| history ::= cons (proved beacon challenge proof) |> <| pending ::= jset (b_join_attempt_id beacon) p |>)); try done; [| apply jevict_subset].
    destruct Hs as [S1 S2 S3 S4]. split; try done. intros id q [[= -> ->] | Hq]%elem_of_jset; [by apply Hi | by apply S1]. }
  destruct (sendChallenge_sound (b_join_attempt_id beacon) challenge proof source s1 Hs1) as [H1 [known H2]].
  { exists p. split; [by apply Hi | done]. }
  destruct (sendChallenge _ _ _ _ _ s1) as [r' s2]. cbn [fst snd] in *. by subst r'.
Qed.

Lemma judgement_careful attempt response packet p r :
  careful (fun s => answered (history s) attempt response packet p) (judgement attempt response packet p r).
Proof using.
  intros s Hs Ha. apply closing_lands; [apply end_processing_sound |]. destruct r as [accepted | e]; [| done].
  unfold bind_eff, lift, record, modify, gets, ret. apply (sound_record (judged (pj_beacon p) (pj_challenge p) response accepted)) in Hs; [| done].
  split; [done |]. cbn [fst snd]. destruct accepted; [| done]. cbn [negb orb]. destruct (closed _); [done |].
  exists response. split; [| by left]. eapply answered_later; [| exact Ha]. intros x. by right.
Qed.

(** What the store returns when it admits. *)
Lemma admitAsset_prepared {A} fails a (prepare : fields -> Z -> result A) f m g x f' :
  admitAsset fails a prepare f = (Ok (m, g, x), f') -> exists m0, prepare m0 g = Ok x.
Proof using.
  unfold admitAsset. destruct (let! _ := validateLinkNode _ in load fails f) as [m0 | e]; [| done].
  destruct (negb _ && _); [done |]. destruct (prepare m0 _) as [y | e] eqn:E; [| done].
  destruct (write fails _ f) as [[[] | e] f1]; [| done]. intros [= _ <- -> _]. by exists m0.
Qed.

Lemma admit_careful attempt packet p source fails :
  careful (fun s => approved (history s) attempt packet p /\ jp_radio_source packet = Some source) (enroll rendezvousChannel attempt packet p source fails).
Proof using.
  intros s Hs [Ha Hr]. apply closing_lands; [apply end_processing_sound |]. unfold bind_eff at 1.
  destruct (admitAsset fails _ _ (membership s)) as [[[[m g] [acceptance payload]] | e] file] eqn:Ea.
  2: { split; [| done]. by apply (sound_less s). }
  apply admitAsset_prepared in Ea as [m0 Hp]. unfold prepare_acceptance in Hp. inv_result. subst.
  assert (Hsource : pj_radioNodeID p = source) by (destruct Ha as (response & (_ & _ & _ & _ & Hsrc) & _); congruence).
  set (acceptance := mkAcceptance _ _ _ _ _) in *.
  assert (Hs1 : sound (s <| membership := file |>)) by (by apply (sound_less s)).
  apply (sound_record (enrolled (b_asset_id (pj_beacon p)) g)) in Hs1; [| by exists attempt, packet, p].
  unfold bind_eff at 1, record at 1, modify at 1. set (s1 := _ <| history ::= _ |>) in *.
  assert (Hp1 : history s1 = enrolled (b_asset_id (pj_beacon p)) g :: history s) by done.
  unfold bind_eff at 1, gets at 1. destruct (closed s1); [done |].
  unfold bind_eff, record, modify, ret. apply (sound_record (announced (b_asset_id (pj_beacon p)) g (b_service_session (pj_beacon p)))) in Hs1; [| rewrite Hp1; by left].
  split; [done |]. cbn [fst snd justified]. assert (Hl : forall x y, history s ⊆ x :: y :: history s) by (intros x y z; do 2 right; done).
  set (h := history _). assert (Hh : h = announced (b_asset_id (pj_beacon p)) g (b_service_session (pj_beacon p)) :: enrolled (b_asset_id (pj_beacon p)) g :: history s) by done.
  clearbody h. subst h. assert (Hap : approved (announced (b_asset_id (pj_beacon p)) g (b_service_session (pj_beacon p)) ::
    enrolled (b_asset_id (pj_beacon p)) g :: history s) attempt packet p) by (eapply approved_later; [apply Hl | exact Ha]).
  split; [done |]. exists packet, p. split; [done |]. split; [done |]. split; [right; by left |]. split; [done |]. by rewrite Hsource.
Qed.

Lemma complete_careful attempt packet p source acceptance payload r :
  careful (fun s => granted (history s) attempt (pj_radioNodeID p) acceptance payload /\ pj_radioNodeID p = source)
    (complete rendezvousChannel attempt packet p source acceptance payload r).
Proof using.
  intros s Hs [Hg <-]. apply closing_lands; [apply end_processing_sound |]. destruct r as [[] | e]; [| done].
  unfold bind_eff at 1 2, lift, gets. destruct (closed s); [done |].
  unfold bind_eff at 1 2, modify. set (s1 := pruneCompleted _ _).
  assert (Hs1 : sound s1).
  { apply pruneCompleted_sound. destruct Hs as [S1 S2 S3 S4]. split; try done. intros id c [[= -> ->] | Hc]%elem_of_jset; [exact Hg | by apply S2]. }
  destruct (sendAcceptance_sound attempt acceptance payload (pj_radioNodeID p) s1 Hs1 Hg) as [H1 [known H2]].
  unfold bind_eff. destruct (sendAcceptancePayload _ _ _ _ s1) as [r' s2]. cbn [fst snd] in *. by subst r'.
Qed.

Lemma continue_careful w a m : continue rendezvousChannel w a = Some m -> careful (fun s => justified (history s) w) m.
Proof using.
  destruct w, a; cbn [continue]; try done; intros E; try (apply bind_Some in E as (source & Er & E)); injection E as <-; intros s Hs Hj.
  - destruct Hj as (source & ? & ?). by eapply challenged_careful.
  - destruct Hj as (source' & ? & ? & ?). assert (source' = source) as -> by congruence. by apply proven_careful.
  - unfold bind_eff, lift. by destruct (default r known) as [[] |].
  - by apply judgement_careful.
  - by apply admit_careful.
  - destruct Hj as [(response & (_ & _ & _ & _ & Hsrc) & _) Hg]. apply complete_careful; [done |]. split; [done | congruence].
  - apply closing_lands; [apply end_processing_sound |]. unfold bind_eff, lift. by destruct (default r known) as [[] |].
  - unfold bind_eff at 1, gets. destruct (closed s); [done |]. unfold bind_eff, record, modify, ret. split; [| done]. by apply sound_record.
Qed.

Lemma settle_sound number m s : lands (m s) -> sound (settle number m s).
Proof using.
  intros [H1 H2]. unfold settle. destruct (m s) as [[[w |] | e] s']; cbn [fst snd] in *; [| done |];
    destruct H1 as [S1 S2 S3 S4]; (split; try done); intros n w' [[= -> ->] | Hw]%elem_of_jset; try done; by eapply S3.
Qed.

Lemma step_sound e s : sound s -> sound (step rendezvousChannel e s).
Proof using.
  intros Hs. destruct e as [packet | number a | |]; cbn [step].
  - destruct (closed s); [done |]. apply settle_sound, receive_careful; [| by left].
    apply (sound_record (heard packet)) in Hs; [| done]. by apply (sound_less _ _ Hs).
  - destruct (jget number (activeOperations s)) as [w |] eqn:Ew; [| done]. destruct (continue _ w a) as [m |] eqn:Ec; [| done].
    apply settle_sound. eapply continue_careful; [exact Ec | |].
    + apply (sound_less s); try done. apply jdel_subset.
    + apply jget_elem_of in Ew. exact (so_active _ Hs _ _ Ew).
  - destruct (closed s); [done |]. apply (sound_less s); try done; cbn; apply list_subseteq_nil.
  - destruct (_ && _); [by apply (sound_less s) | done].
Qed.

Lemma run_sound es : forall s, sound s -> sound (run rendezvousChannel es s).
Proof using.
  induction es as [| e es IH]; intros s Hs; [done |]. by apply IH, step_sound.
Qed.

Lemma new_sound file : sound (new_gateway_join file).
Proof using. split; cbn; try done; intros; by match goal with H : _ ∈ [] |- _ => apply elem_of_nil in H end. Qed.

Lemma caused_split past e : forall later, caused (later ++ e :: past) -> cause e past.
Proof using. induction later as [| x later IH]; cbn; [by intros [? ?] | by intros [_ ?%IH]]. Qed.
End gateway.

(** C2: the membership goes only to an Asset that was admitted. Whatever
    packets come, in whatever order the policy, the store, the callback and the
    radio answer, and whichever of their calls fail: when the service sends an
    acceptance, with the key of the private channel, it sends it to one radio
    under that radio's public key, and before that the same radio announced the
    Asset of the join, a challenge was drawn for that announcement, the radio
    answered in a packet encrypted for the Gateway, the policy accepted the
    answer to that challenge, and the store gave the Asset the source
    generation in the acceptance. *)
Theorem acceptance_only_when_admitted {node : NodeBuffer} {radio : JoinRadio} channel file es acceptance payload options later past :
  history (run channel es (new_gateway_join file)) = later ++ transmitted (join_accept acceptance) payload options :: past ->
  exists destination packet p response discovery,
    options = mkJoinOptions channel (Some destination) true /\
    encodeJoinMessage (join_accept acceptance) (joinPayloadBudget options) = Ok payload /\
    heard discovery ∈ past /\ decodeJoinMessage (jp_payload discovery) = Some (join_discovery (pj_beacon p)) /\
    jp_radio_source discovery = Some destination /\ b_radio_node_id (pj_beacon p) = destination /\
    b_join_attempt_id (pj_beacon p) = a_join_attempt_id acceptance /\
    drew (pj_beacon p) (pj_challenge p) ∈ past /\
    heard packet ∈ past /\ jp_radio_source packet = Some destination /\ jp_public_key_encrypted packet = true /\
    decodeJoinMessage (jp_payload packet) = Some (join_response (a_join_attempt_id acceptance) response) /\
    judged (pj_beacon p) (pj_challenge p) response true ∈ past /\
    enrolled (b_asset_id (pj_beacon p)) (a_source_generation acceptance) ∈ past.
Proof.
  intros H. pose proof (so_history _ _ (run_sound channel es _ (new_sound channel file))) as Hc. rewrite H in Hc.
  apply caused_split in Hc as (destination & -> & packet & p & (response & ((Hat & (discovery & ? & ? & ? & ?) & ?) & ? & ? & ? & ?) & ?) & <- & ? & ? & ?).
  exists (pj_radioNodeID p), packet, p, response, discovery. done.
Qed.

(** * The Gateway's tables of joins are bounded ([joining.ts])

    However many radios announce themselves, [GatewayJoinService] keeps at most
    256 joins that are drawing a challenge or waiting for an answer and at most
    256 that are done, and handles one answer at a time for each join. *)

(** ** Sets of identities *)

Lemma set_has_elem x l : set_has x l = true <-> x ∈ l.
Proof.
  unfold set_has. rewrite existsb_exists. setoid_rewrite bool_decide_eq_true. split.
  - intros (y & Hy & ->). by apply list_elem_of_In.
  - intros Hx. exists x. by split; [apply list_elem_of_In |].
Qed.

Lemma set_has_not x l : set_has x l = false <-> x ∉ l.
Proof. rewrite <- set_has_elem. destruct (set_has x l); split; done. Qed.

Lemma set_delete_absent x l : x ∉ l -> set_delete x l = l.
Proof.
  intros Hx. unfold set_delete. induction l as [| y l IH]; [done |]. cbn. apply not_elem_of_cons in Hx as [H1 H2].
  rewrite bool_decide_false by done. cbn. by rewrite IH.
Qed.

(** Deleting the one occurrence. *)
Lemma set_delete_perm x l l' : NoDup l -> l ≡ₚ x :: l' -> set_delete x l ≡ₚ l'.
Proof.
  intros Hn Hp. assert (Hn' : NoDup (x :: l')) by (by rewrite <- Hp). apply list.NoDup_cons in Hn' as [Hx _].
  assert (Hd : set_delete x (x :: l') = l') by (unfold set_delete; cbn; rewrite bool_decide_true by done; cbn; by apply set_delete_absent).
  rewrite <- Hd. unfold set_delete. clear Hn Hx Hd. induction Hp as [| y l1 l2 _ IH | y z l1 | l1 l2 l3 _ IH1 _ IH2]; [done | | | by etrans]; cbn.
  - destruct (negb _); [by constructor | done].
  - destruct (negb _), (negb _); first [done | by constructor].
Qed.

Lemma set_delete_subset x l : set_delete x l ⊆ l.
Proof. intros y Hy. apply list_elem_of_In in Hy. unfold set_delete in Hy. apply filter_In in Hy as [Hy _]. by apply list_elem_of_In. Qed.

Lemma set_delete_nodup x l : NoDup l -> NoDup (set_delete x l).
Proof.
  induction 1 as [| y l Hy _ IH]; [constructor |]. unfold set_delete. cbn. destruct (negb _); [| done].
  constructor; [| done]. intros H. by apply Hy, (set_delete_subset x).
Qed.

Lemma set_delete_gone x l : x ∉ set_delete x l.
Proof.
  intros H. apply list_elem_of_In in H. unfold set_delete in H. apply filter_In in H as [_ H].
  rewrite bool_decide_true in H; done.
Qed.

(** ** The invariant *)

(** The join an operation draws a challenge for, and the one whose answer it
    handles. *)
Definition drawing (w : operation) : option (list Z) :=
  match w with w_challenge beacon _ | w_prove beacon _ _ => Some (b_join_attempt_id beacon) | _ => None end.
Definition answering (w : operation) : option (list Z) :=
  match w with
  | w_verify attempt _ _ _ | w_admit attempt _ _ | w_announce attempt _ _ _ _ | w_acceptance attempt _ => Some attempt
  | _ => None
  end.

(** Of a state in which the operations [ws] run besides those that wait. *)
Record fits (ws : list operation) (s : gateway_join) : Prop := {
  fi_pending : jwf (pending s);
  fi_completed : jwf (completed s);
  fi_room : jsize (pending s) + zlen (pendingChallenges s) <= MAX_PENDING_JOINS;
  fi_done : jsize (completed s) <= MAX_COMPLETED_JOINS;
  fi_drawing : if closed s then pendingChallenges s = [] else pendingChallenges s ≡ₚ omap drawing (ws ++ jvalues (activeOperations s));
  fi_once : NoDup (pendingChallenges s);
  fi_processing : processing s ≡ₚ omap answering (ws ++ jvalues (activeOperations s));
  fi_single : NoDup (processing s);
  fi_kept : closed s = false -> processing s ⊆ jkeys (pending s)
}.

(** Operations that hold the same joins stand for one another. *)
Lemma fits_same ws ws' s : omap drawing ws = omap drawing ws' -> omap answering ws = omap answering ws' -> fits ws s -> fits ws' s.
Proof.
  intros Hd Ha [H1 H2 H3 H4 H5 H6 H7 H8 H9]. split; try done.
  - rewrite omap_app, <- Hd, <- omap_app. done.
  - rewrite omap_app, <- Ha, <- omap_app. done.
Qed.

Lemma fits_record ws e s : fits ws s -> fits ws (s <| history ::= cons e |>).
Proof. intros [H1 H2 H3 H4 H5 H6 H7 H8 H9]. by split. Qed.

Lemma forget_fits w a s : fits [w] s -> drawing w = Some a -> answering w = None -> fits [] (forget_challenge a s).
Proof.
  intros [H1 H2 H3 H4 H5 H6 H7 H8 H9] Hd Ha. cbn in H5, H7. rewrite Hd in H5. rewrite Ha in H7.
  unfold forget_challenge. split; cbn; try done.
  - assert (zlen (set_delete a (pendingChallenges s)) <= zlen (pendingChallenges s)); [| lia].
    unfold zlen. apply inj_le. apply list.submseteq_length, NoDup_submseteq; [by apply set_delete_nodup | apply set_delete_subset].
  - destruct (closed s); [by rewrite H5 | by apply set_delete_perm].
  - by apply set_delete_nodup.
Qed.

Lemma end_processing_fits w a s : fits [w] s -> drawing w = None -> answering w = Some a -> fits [] (end_processing a s).
Proof.
  intros [H1 H2 H3 H4 H5 H6 H7 H8 H9] Hd Ha. cbn in H5, H7. rewrite Hd in H5. rewrite Ha in H7.
  unfold end_processing. split; cbn; try done.
  - by apply jdel_wf.
  - pose proof (jsize_jdel_le a (pending s)). lia.
  - by apply set_delete_perm.
  - by apply set_delete_nodup.
  - intros Hc x Hx. assert (x <> a) by (intros ->; by apply set_delete_gone in Hx).
    apply set_delete_subset, (H9 Hc) in Hx. apply jhas_elem. apply jhas_elem in Hx. rewrite jhas_jdel by done.
    rewrite Hx, bool_decide_false by done. done.
Qed.

(** A challenge that is drawn makes its join pending in the room it held. *)
Lemma pending_fits w a p s : fits [w] s -> drawing w = Some a -> answering w = None -> closed s = false ->
  fits [] (forget_challenge a s <| pending ::= jset a p |>).
Proof.
  intros Hf Hd Ha Hc. pose proof (forget_fits w a s Hf Hd Ha) as [F1 F2 F3 F4 F5 F6 F7 F8 F9].
  destruct Hf as [H1 H2 H3 H4 H5 H6 H7 H8 H9]. cbn in H5. rewrite Hd, Hc in H5. unfold forget_challenge in *. cbn in *.
  pose proof (set_delete_perm _ _ _ H6 H5) as Hp. apply zlen_perm in H5. rewrite zlen_cons in H5.
  split; cbn; try done.
  - by apply jset_wf.
  - change (List.filter _ _) with (set_delete a (pendingChallenges s)). rewrite (zlen_perm _ _ Hp).
    pose proof (jsize_jset_le a p (pending s)). lia.
  - intros _ x Hx. change (x ∈ jkeys (jset a p (pending s))). apply elem_of_jkeys_jset. right. by apply F9.
Qed.

Lemma pruneCompleted_fits ws now s : fits ws s -> fits ws (pruneCompleted now s).
Proof.
  intros [H1 H2 H3 H4 H5 H6 H7 H8 H9]. split; cbn; try done.
  - by apply jevict_wf, jretain_wf.
  - rewrite jsize_jevict by done. lia.
Qed.

Lemma completed_fits ws a c now s : fits ws s -> fits ws (pruneCompleted now (s <| completed ::= jset a c |>)).
Proof.
  intros [H1 H2 H3 H4 H5 H6 H7 H8 H9]. split; cbn; try done.
  - apply jevict_wf, (jretain_wf (fun _ c => negb (cj_expiresAt c <=? now))). by apply jset_wf.
  - rewrite jsize_jevict by done. lia.
Qed.

Lemma prunePending_fits ws now s : fits ws s -> fits ws (prunePending now s).
Proof.
  intros [H1 H2 H3 H4 H5 H6 H7 H8 H9]. split; cbn; try done.
  - by apply jretain_wf.
  - pose proof (jsize_jretain (fun attempt p => negb ((pj_expiresAt p <=? now) && negb (set_has attempt (processing s)))) (pending s)). lia.
  - intros Hc x Hx. apply (H9 Hc) in Hx as Hk. apply jhas_elem, jhas_true. apply jhas_elem, jhas_true in Hk as [p Hp].
    exists p. rewrite jget_jretain, Hp by done. apply set_has_elem in Hx. by rewrite Hx, andb_false_r.
Qed.

Lemma store_fits ws file s : fits ws s -> fits ws (s <| membership := file |>).
Proof. intros [H1 H2 H3 H4 H5 H6 H7 H8 H9]. by split. Qed.

(** ** Operations *)

(** Where an operation gets to: the other operations wait as before. *)
Definition settles (s : gateway_join) (x : result (option operation) * gateway_join) : Prop :=
  activeOperations (snd x) = activeOperations s /\ operations_started (snd x) = operations_started s /\
  fits (match fst x with Ok (Some w) => [w] | _ => [] end) (snd x).

Definition tidy (w : operation) (m : eff gateway_join (option operation)) : Prop := forall s, fits [w] s -> settles s (m s).

Section gateway.
Context {node : NodeBuffer} {radio : JoinRadio} (rendezvousChannel : Z).

(** A send only adds to the history. *)
Definition only_records (m : eff gateway_join (option (result unit))) : Prop :=
  forall s, exists known, fst (m s) = Ok known /\ (snd (m s) = s \/ exists e, snd (m s) = s <| history ::= cons e |>).

Lemma sendChallenge_records attempt challenge proof destination : only_records (sendChallenge rendezvousChannel attempt challenge proof destination).
Proof using.
  intros s. unfold sendChallenge, bind_eff, gets, record, modify, ret. destruct (closed s); [eexists; by split; [| left] |].
  destruct (encodeJoinMessage _ _); eexists; split; first [done | by left | right; by eexists].
Qed.

Lemma sendAcceptance_records acceptance payload destination : only_records (sendAcceptancePayload rendezvousChannel acceptance payload destination).
Proof using.
  intros s. unfold sendAcceptancePayload, bind_eff, gets, record, modify, ret. destruct (closed s); [eexists; by split; [| left] |].
  eexists. split; [done |]. right. by eexists.
Qed.

Lemma after_sending (m : eff gateway_join (option (result unit))) (next : option (result unit) -> operation) s :
  only_records m -> (forall known, fits [next known] s) -> settles s ((do! known := m in ret (Some (next known))) s).
Proof using.
  intros Hm Hf. destruct (Hm s) as (known & H1 & H2). unfold bind_eff. destruct (m s) as [r s']. cbn [fst snd] in *. subst r.
  unfold ret, settles. cbn [fst snd]. destruct H2 as [-> | [e ->]]; [done |]. split; [done |]. split; [done |]. by apply fits_record.
Qed.

Lemma settles_idle s w : fits [] s -> drawing w = None -> answering w = None -> fits [w] s.
Proof using. intros Hf Hd Ha. apply (fits_same []); [by cbn; rewrite Hd | by cbn; rewrite Ha | done]. Qed.

(** A join of its own for each challenge, and for each answer. *)
Lemma drawing_fits beacon packet s : fits [] s -> closed s = false -> set_has (b_join_attempt_id beacon) (pendingChallenges s) = false ->
  jsize (pending s) + zlen (pendingChallenges s) < MAX_PENDING_JOINS ->
  fits [w_challenge beacon packet] (s <| pendingChallenges ::= set_add (b_join_attempt_id beacon) |>).
Proof using.
  intros [H1 H2 H3 H4 H5 H6 H7 H8 H9] Hc Hn Hroom. cbn in *. rewrite Hc in H5. unfold set_add.
  split; cbn; unfold set_add; rewrite ?Hn, ?Hc; try done.
  - rewrite zlen_app, zlen_cons, zlen_nil. lia.
  - rewrite (Permutation_app_comm _ [_]). by constructor.
  - apply list.NoDup_app. split; [done |]. split; [| repeat constructor; apply not_elem_of_nil].
    intros x Hx Hx'. apply list_elem_of_singleton in Hx' as ->. by apply set_has_not in Hn.
  - intros _. by apply H9.
Qed.

Lemma answering_fits attempt response packet p s : fits [] s -> set_has attempt (processing s) = false -> attempt ∈ jkeys (pending s) ->
  fits [w_verify attempt response packet p] (s <| processing ::= set_add attempt |>).
Proof using.
  intros [H1 H2 H3 H4 H5 H6 H7 H8 H9] Hn Hk. cbn in *. split; cbn; unfold set_add; rewrite ?Hn; try done.
  - rewrite (Permutation_app_comm _ [_]). by constructor.
  - apply list.NoDup_app. split; [done |]. split; [| repeat constructor; apply not_elem_of_nil].
    intros x Hx Hx'. apply list_elem_of_singleton in Hx' as ->. by apply set_has_not in Hn.
  - intros Hc x [Hx | ->%list_elem_of_singleton]%elem_of_app; [by apply (H9 Hc) | done].
Qed.

Lemma receive_discovery_tidy beacon packet source s : fits [] s -> closed s = false -> settles s (receive_discovery rendezvousChannel beacon packet source s).
Proof using.
  intros Hf Hc. unfold receive_discovery, bind_eff at 1, lift. destruct (validateLinkNode _); [| done].
  unfold bind_eff at 1, modify at 1. apply (pruneCompleted_fits _ (jp_received_at packet)) in Hf.
  assert (Hs : forall x, settles (pruneCompleted (jp_received_at packet) s) x -> settles s x) by done. apply Hs. clear Hs.
  set (s1 := pruneCompleted _ s) in *. assert (Hc1 : closed s1 = false) by done. clearbody s1. clear Hc s.
  destruct (negb _); [done |]. unfold bind_eff at 1, gets at 1. destruct (jget _ (completed s1)) as [c |].
  { destruct (sameJoin _ _ _ _); [| done]. apply after_sending; [apply sendAcceptance_records | intros known; by apply settles_idle]. }
  destruct (jget _ (pending s1)) as [p |].
  { destruct (sameJoin _ _ _ _); [| done]. apply after_sending; [apply sendChallenge_records | intros known; by apply settles_idle]. }
  destruct (set_has _ (pendingChallenges s1)) eqn:Eh; [done |]. destruct (Z.leb_spec MAX_PENDING_JOINS (jsize (pending s1) + zlen (pendingChallenges s1))); [done |].
  split; [done |]. split; [done |]. by apply drawing_fits.
Qed.

Lemma receive_response_tidy attempt response packet source s : fits [] s -> settles s (receive_response attempt response packet source s).
Proof using.
  intros Hf. unfold receive_response. destruct (negb _); [done |]. unfold bind_eff at 1, gets at 1.
  destruct (jget attempt (pending s)) as [p |] eqn:Ep; [| done]. destruct (negb _ || _) eqn:Eb; [done |]. reflect_tests.
  split; [done |]. split; [done |]. apply answering_fits; [done | done |]. by eapply jget_key.
Qed.

Lemma receive_tidy packet s : fits [] s -> settles s (receive rendezvousChannel packet s).
Proof using.
  intros Hf. unfold receive, bind_eff at 1, gets at 1. destruct (jp_radio_source packet) as [source |]; [| done].
  destruct (closed s) eqn:Ec; [done |]. destruct (negb _); [done |]. cbn [orb]. destruct (decodeJoinMessage _) as [m |]; [| done].
  unfold bind_eff at 1, modify at 1. apply (prunePending_fits _ (jp_received_at packet)) in Hf.
  destruct m; first [exact (receive_discovery_tidy _ _ _ _ Hf Ec) | exact (receive_response_tidy _ _ _ _ _ Hf) | done].
Qed.

Lemma closing_tidy cleanup w (m : eff gateway_join (option operation)) s :
  (forall s', fits [w] s' -> fits [] (cleanup s') /\ activeOperations (cleanup s') = activeOperations s' /\ operations_started (cleanup s') = operations_started s') ->
  activeOperations (snd (m s)) = activeOperations s -> operations_started (snd (m s)) = operations_started s -> fits [w] (snd (m s)) ->
  (forall w', fst (m s) = Ok (Some w') -> drawing w' = drawing w /\ answering w' = answering w) ->
  settles s (closing is_end cleanup m s).
Proof using.
  intros Hc H1 H2 H3 H4. unfold closing, settles. destruct (m s) as [[[w' |] | e] s']; cbn [fst snd is_end] in *.
  - destruct (H4 w' eq_refl) as [Hd Ha]. split; [done |]. split; [done |]. apply (fits_same [w]); [| | done]; cbn; by rewrite ?Hd, ?Ha.
  - destruct (Hc s' H3) as (? & -> & ->). done.
  - destruct (Hc s' H3) as (? & -> & ->). done.
Qed.

(** What a part of an answer's handling leaves: the answer is still in hand. *)
Definition in_hand (attempt : list Z) (w : operation) (s : gateway_join) (x : result (option operation) * gateway_join) : Prop :=
  activeOperations (snd x) = activeOperations s /\ operations_started (snd x) = operations_started s /\ fits [w] (snd x) /\
  match fst x with Ok (Some w') => drawing w' = None /\ answering w' = Some attempt | _ => True end.

Lemma ending_tidy attempt w (m : eff gateway_join (option operation)) s : drawing w = None -> answering w = Some attempt ->
  in_hand attempt w s (m s) -> settles s (closing is_end (end_processing attempt) m s).
Proof using.
  intros Hd Ha (H1 & H2 & H3 & H4). apply (closing_tidy _ w); try done.
  - intros s' Hf. split; [by apply (end_processing_fits w) | done].
  - intros w' E. rewrite E in H4. by rewrite Hd, Ha.
Qed.

Lemma challenged_tidy beacon packet r : tidy (w_challenge beacon packet) (challenged beacon packet r).
Proof using.
  intros s Hf. apply (closing_tidy _ (w_challenge beacon packet)).
  - intros s' Hs. split; [by eapply forget_fits | done].
  - by destruct r.
  - by destruct r.
  - destruct r; [by apply fits_record | done].
  - intros w'. destruct r as [challenge |]; [| done]. unfold bind_eff, lift, record, modify, gets, ret. cbn. destruct (closed s); [done |]. by intros [= <-].
Qed.

Lemma proven_tidy beacon packet source challenge r : tidy (w_prove beacon packet challenge) (proven rendezvousChannel beacon packet source challenge r).
Proof using.
  intros s Hf. unfold proven. unfold bind_eff at 1. unfold closing. destruct r as [proof | e].
  2: { split; [done |]. split; [done |]. by eapply forget_fits. }
  apply (fits_record _ (proved beacon challenge proof)) in Hf. unfold bind_eff at 1 2 3, lift, record, modify, gets, ret.
  set (s1 := s <| history ::= _ |>) in *. assert (Hs : forall x, settles s1 x -> settles s x) by done. apply Hs. clear Hs. clearbody s1. clear s.
  destruct (closed s1) eqn:Ec.
  { split; [done |]. split; [done |]. by eapply forget_fits. }
  unfold bind_eff at 1. set (s2 := forget_challenge _ _).
  set (p := mkPending _ _ _ _ _) in *.
  assert (H2 : fits [] s2) by exact (pending_fits (w_prove beacon packet challenge) _ p s1 Hf eq_refl eq_refl Ec).
  assert (Hs : forall x, settles s2 x -> settles s1 x) by done. apply Hs.
  assert (Hev : s2 <| pending ::= jevict MAX_PENDING_JOINS |> = s2).
  { destruct s2 as [pe co pr pc ac nu cl me hi] eqn:E2. unfold assign. cbn. f_equal. apply jevict_noop.
    pose proof (fi_room _ _ H2) as Hroom. cbn in Hroom. pose proof (zlen_nonneg pc). lia. }
  unfold bind_eff at 1. rewrite Hev. apply after_sending; [apply sendChallenge_records | intros known; by apply settles_idle].
Qed.

Lemma judgement_tidy attempt response packet p r : tidy (w_verify attempt response packet p) (judgement attempt response packet p r).
Proof using.
  intros s Hf. apply (ending_tidy _ (w_verify attempt response packet p)); [done | done |].
  destruct r as [accepted |]; [| done]. unfold bind_eff, lift, record, modify, gets, ret.
  apply (fits_record _ (judged (pj_beacon p) (pj_challenge p) response accepted)) in Hf.
  split; [done |]. split; [done |]. split; [done |]. cbn. by destruct (_ || _).
Qed.

Lemma admit_tidy attempt packet p source fails : tidy (w_admit attempt packet p) (enroll rendezvousChannel attempt packet p source fails).
Proof using.
  intros s Hf. apply (ending_tidy _ (w_admit attempt packet p)); [done | done |].
  unfold bind_eff at 1. destruct (admitAsset _ _ _ _) as [[[[mm g] [acceptance payload]] | e] file]; apply (store_fits _ file) in Hf; [| done].
  unfold bind_eff at 1 2, record at 1, modify at 1, gets. apply (fits_record _ (enrolled (b_asset_id (pj_beacon p)) g)) in Hf.
  destruct (closed _); [done |]. unfold bind_eff, record, modify, ret.
  apply (fits_record _ (announced (b_asset_id (pj_beacon p)) g (b_service_session (pj_beacon p)))) in Hf. done.
Qed.

Lemma complete_tidy attempt packet p source acceptance payload r :
  tidy (w_announce attempt packet p acceptance payload) (complete rendezvousChannel attempt packet p source acceptance payload r).
Proof using.
  intros s Hf. apply (ending_tidy _ (w_announce attempt packet p acceptance payload)); [done | done |].
  unfold bind_eff at 1, lift. destruct r as [[] |]; [| done]. unfold bind_eff at 1, gets. destruct (closed s); [done |].
  unfold bind_eff at 1 2, modify. set (s1 := pruneCompleted _ _).
  assert (H1 : fits [w_announce attempt packet p acceptance payload] s1) by (by apply completed_fits).
  destruct (sendAcceptance_records acceptance payload source s1) as (known & E1 & E2). unfold bind_eff.
  destruct (sendAcceptancePayload _ _ _ _ s1) as [r' s2]. cbn [fst snd] in *. subst r'.
  destruct E2 as [-> | [e ->]]; (split; [done |]; split; [done |]; split; [first [done | by apply fits_record] | done]).
Qed.

Lemma continue_tidy w a m : continue rendezvousChannel w a = Some m -> tidy w m.
Proof using.
  destruct w, a; cbn [continue]; try done; intros E; try (apply bind_Some in E as (source & Er & E)); injection E as <-.
  - apply challenged_tidy.
  - apply proven_tidy.
  - intros s Hf. unfold bind_eff, lift. assert (fits [] s) by (by apply (fits_same [w_sending known])). by destruct (default r known) as [[] |].
  - apply judgement_tidy.
  - apply admit_tidy.
  - apply complete_tidy.
  - intros s Hf. apply (ending_tidy _ (w_acceptance attempt known)); [done | done |]. unfold bind_eff, lift. by destruct (default r known) as [[] |].
  - intros s Hf. assert (Hf0 : fits [] s) by (by apply (fits_same [w_rejected e])). unfold bind_eff at 1, gets. destruct (closed s); [done |].
    split; [done |]. split; [done |]. by apply fits_record.
Qed.

(** ** The service *)

Definition numbered (s : gateway_join) : Prop :=
  jwf (activeOperations s) /\ Forall (fun k => k < operations_started s) (jkeys (activeOperations s)).

Lemma wait_fits number w s : fits [w] s -> number ∉ jkeys (activeOperations s) -> fits [] (s <| activeOperations ::= jset number w |>).
Proof using.
  intros [H1 H2 H3 H4 H5 H6 H7 H8 H9] Hn.
  assert (Hp : jvalues (jset number w (activeOperations s)) ≡ₚ w :: jvalues (activeOperations s)).
  { rewrite jset_absent by done. unfold jvalues. rewrite map_app. apply Permutation_app_comm. }
  split; cbn; try done.
  - destruct (closed s); [done |]. by rewrite Hp.
  - by rewrite Hp.
Qed.

Lemma wait_numbered number w s : numbered s -> number ∉ jkeys (activeOperations s) -> number < operations_started s ->
  numbered (s <| activeOperations ::= jset number w |>).
Proof using.
  intros [Hw Hk] Hn Hl. split; cbn; [by apply jset_wf |]. apply Forall_elem. intros k [-> | Hk']%elem_of_jkeys_jset; [done |].
  by apply (proj1 (Forall_elem _ _) Hk).
Qed.

Lemma settle_fits number m s : number ∉ jkeys (activeOperations s) -> number < operations_started s -> numbered s ->
  settles s (m s) -> fits [] (settle number m s) /\ numbered (settle number m s).
Proof using.
  intros Hn Hl Hk (Ha & Ho & Hf). unfold settle. destruct (m s) as [r s']. cbn [fst snd] in *.
  assert (Hk' : numbered s') by (unfold numbered; by rewrite Ha, Ho). rewrite <- Ha in Hn. rewrite <- Ho in Hl.
  destruct r as [[w |] | e]; [| done |]; (split; [apply wait_fits; [| done] | by apply wait_numbered]); [done | by apply (fits_same [])].
Qed.

Lemma step_fits e s : fits [] s /\ numbered s -> fits [] (step rendezvousChannel e s) /\ numbered (step rendezvousChannel e s).
Proof using.
  intros [Hf [Hw Hk]]. destruct e as [packet | number a | |]; cbn [step].
  - destruct (closed s); [done |]. set (s1 := s <| history ::= _ |> <| operations_started ::= _ |>).
    assert (Hf1 : fits [] s1) by (destruct Hf as [H1 H2 H3 H4 H5 H6 H7 H8 H9]; by split).
    apply settle_fits; [| | | by apply receive_tidy].
    + intros Hin. apply (proj1 (Forall_elem _ _) Hk) in Hin. lia.
    + change (operations_started s1) with (operations_started s + 1). lia.
    + split; [done |]. eapply Forall_weaken; [exact Hk |]. cbn. lia.
  - destruct (jget number (activeOperations s)) as [w |] eqn:Ew; [| done]. destruct (continue _ w a) as [m |] eqn:Ec; [| done].
    set (s1 := s <| activeOperations ::= jdel number |>).
    assert (Hn : number ∉ jkeys (activeOperations s1)) by (apply jget_None; by apply jget_jdel_eq).
    assert (Hk1 : Forall (fun k => k < operations_started s) (jkeys (activeOperations s1))).
    { apply Forall_elem. intros k Hin. apply (proj1 (Forall_elem _ _) Hk). by apply elem_of_jkeys_jdel_weak in Hin. }
    apply settle_fits; [done | | by split; [apply jdel_wf |] | eapply continue_tidy; [exact Ec |]].
    + apply (proj1 (Forall_elem _ _) Hk). by eapply jget_key.
    + assert (Hp : jvalues (activeOperations s) ≡ₚ w :: jvalues (activeOperations s1)).
      { clear - Ew. cbn. revert Ew. generalize (activeOperations s). intros l. induction l as [| [k v] l IH]; [done |].
        cbn. case_decide; [by intros [= ->] |]. intros H'. cbn. rewrite (IH H'). apply perm_swap. }
      destruct Hf as [H1 H2 H3 H4 H5 H6 H7 H8 H9]. split; try done.
      * change (closed s1) with (closed s). destruct (closed s); [done |]. cbn [app] in *. by rewrite <- Hp.
      * cbn [app] in *. by rewrite <- Hp.
  - destruct (closed s); [done |]. split; [| done]. destruct Hf as [H1 H2 H3 H4 H5 H6 H7 H8 H9]. split; cbn; try done; apply NoDup_nil_2 || constructor.
  - destruct (closed s) eqn:Ec; cbn [andb]; [| done]. destruct (bool_decide_reflect (jkeys (activeOperations s) = [])) as [E |]; [| done].
    split; [| done]. destruct Hf as [H1 H2 H3 H4 H5 H6 H7 H8 H9]. rewrite Ec in H5.
    assert (Hnil : activeOperations s = []) by (destruct (activeOperations s); [done | discriminate E]).
    split; cbn; rewrite ?Ec, ?Hnil; try done; constructor.
Qed.

Lemma run_fits es : forall s, fits [] s /\ numbered s -> fits [] (run rendezvousChannel es s) /\ numbered (run rendezvousChannel es s).
Proof using. induction es as [| e es IH]; intros s Hs; [done |]. by apply IH, step_fits. Qed.

Lemma new_fits file : fits [] (new_gateway_join file) /\ numbered (new_gateway_join file).
Proof using. split; [| by split; constructor]. split; cbn; try done; constructor. Qed.

Lemma fits_in_hand s : fits [] s ->
  NoDup (omap answering (jvalues (activeOperations s))) /\
  (closed s = false -> omap answering (jvalues (activeOperations s)) ⊆ jkeys (pending s) /\
     zlen (omap answering (jvalues (activeOperations s))) <= MAX_PENDING_JOINS).
Proof using.
  intros [H1 H2 H3 H4 H5 H6 H7 H8 H9]. cbn [app] in H7. set (l := omap answering _) in *.
  assert (Hn : NoDup l) by (by rewrite <- H7). split; [done |]. intros Hc.
  assert (Hs : l ⊆ jkeys (pending s)) by (intros x Hx; rewrite <- H7 in Hx; by apply (H9 Hc)).
  split; [done |]. pose proof (zlen_nonneg (pendingChallenges s)).
  assert (zlen l <= jsize (pending s)); [| lia]. unfold jsize, zlen. apply inj_le. rewrite <- (length_map fst).
  by apply list.submseteq_length, NoDup_submseteq.
Qed.

(** C21: the tables of joins are bounded, and no join is handled twice at once.
    After any events, at most 256 joins draw their challenge or wait for an
    answer and at most 256 finished ones are remembered; the answers in hand
    are those of distinct joins, each still in the table of waiting ones until
    the service is closed, so at most 256 admissions run at a time however many
    radios there are. *)
Theorem joins_stay_within_bounds file es :
  let s := run rendezvousChannel es (new_gateway_join file) in
  let in_hand := omap answering (jvalues (activeOperations s)) in
  jsize (pending s) + zlen (pendingChallenges s) <= MAX_PENDING_JOINS /\ jsize (completed s) <= MAX_COMPLETED_JOINS /\
  NoDup in_hand /\ (closed s = false -> in_hand ⊆ jkeys (pending s) /\ zlen in_hand <= MAX_PENDING_JOINS).
Proof using.
  cbn zeta. destruct (run_fits es _ (new_fits file)) as [Hf _].
  split; [apply (fi_room _ _ Hf) |]. split; [apply (fi_done _ _ Hf) |]. by apply fits_in_hand.
Qed.
End gateway.
