(* ===== verification/JoinAsset.v ===== *)
(** * The Asset's end of a join ([joining.ts], [AssetJoinService])

    The Asset announces itself until it is told a membership, and installs what
    the Gateway it verified sends it.  As at the Gateway's end, what is left of
    an asynchronous operation waits under a number for its reply. *)

From Stdlib Require Import ZArith Lia String.
From stdpp Require Import base list option.
From S2P Require Import Prelude JsMap BinaryIO Wtf8 Json Utf8Text CompactValue Base64 LinkTypes Frame Contract JsState Doubles JoinWire Membership JoinPolicy JoinGateway.

Open Scope string_scope.
Open Scope list_scope.
Open Scope Z_scope.

Inductive AssetJoinStatus :=
  | discovering
  | authenticating
  | joined (gateway_node_id : list Z) (source_generation : Z)
  | stopped.

#[export] Instance AssetJoinStatus_eq_dec : EqDecision AssetJoinStatus.
Proof. solve_decision. Defined.

Inductive asset_operation :=
  | aw_discovery (retryDelay : Z)
  | aw_verify (challenge proof : list Z) (source : Z)
  | aw_answer (challenge : list Z) (source : Z)
  | aw_response
  | aw_install (acceptance : JoinAcceptance)
  | aw_rejected (e : js_error).

(** What happened, the newest first. *)
Inductive asset_entry :=
  | as_heard (packet : JoinPacket)
  | as_verified (challenge proof : list Z) (genuine : bool)
  | as_answered (challenge response : list Z)
  | as_sent (message : JoinWireMessage) (payload : list Z) (options : JoinSendOptions)
  | as_armed (timer delay : Z)
  | as_cancelled (timer : Z)
  | as_install (channel : PrivateChannelMembership)
  | as_started (status : AssetJoinStatus)
  | as_status (status : AssetJoinStatus)
  | as_error (e : js_error)
  | as_disconnected (e : js_error).

(** How a service was made. *)
Record AssetJoinOptions := mkAssetJoin {
  ao_assetID : list Z;
  ao_radioNodeID : Z;
  ao_serviceSession : list Z;
  ao_rendezvousChannel : option Z;
  ao_joinAttemptID : list Z;
  ao_startedAt : Z;
  ao_status_listener_throws : AssetJoinStatus -> bool
}.

Record asset_join := mkAssetState {
  subscribed : bool;
  retryTimer : option Z;
  timers : list Z;
  timers_made : Z;
  gatewayRadioNodeID : option Z;
  installingMembership : bool;
  currentStatus : AssetJoinStatus;
  as_activeOperations : list (Z * asset_operation);
  as_operations_started : Z;
  as_history : list asset_entry
}.

#[export] Instance asset_join_rebuild : Rebuild asset_join :=
  fun s => mkAssetState (subscribed s) (retryTimer s) (timers s) (timers_made s) (gatewayRadioNodeID s) (installingMembership s)
    (currentStatus s) (as_activeOperations s) (as_operations_started s) (as_history s).

Definition note (e : asset_entry) : eff asset_join unit := modify (fun s => s <| as_history ::= cons e |>).

Section asset.
Context {node : NodeBuffer} {radio : JoinRadio} (options : AssetJoinOptions).

(** [constructor]; the attempt's identity is a random UUID without its dashes. *)
Definition new_asset_join : result asset_join :=
  let! _ := validateLinkNode (mkNode asset (ao_assetID options)) in
  guard! filled (ao_assetID options) && filled (ao_serviceSession options) && isSafeInteger (ao_radioNodeID options)
    else TypeError "Asset joining requires stable Asset, radio, and service session identities" in
  Ok (mkAssetState true None [] 0 None false discovering [] 0 []).

Definition ao_channel : Z := default 0 (ao_rendezvousChannel options).

Definition isWaitingToJoin (s : asset_join) : bool :=
  match currentStatus s with discovering | authenticating => true | _ => false end.
Definition isStopped (s : asset_join) : bool := bool_decide (currentStatus s = stopped).

Definition updateStatus (status : AssetJoinStatus) : eff asset_join unit :=
  do! _ := modify (fun s => s <| currentStatus := status |>) in
  do! _ := note (as_status status) in
  if ao_status_listener_throws options status then throw (PlainError "status listener") else ret tt.

Definition cancelRetry : eff asset_join unit :=
  do! timer := gets retryTimer in
  match timer with
  | Some h =>
      do! _ := modify (fun s => s <| timers ::= List.filter (fun t => negb (t =? h)) |>) in
      note (as_cancelled h)
  | None => ret tt
  end.

Definition stop : eff asset_join unit :=
  do! is_stopped := gets isStopped in
  if is_stopped then ret tt
  else
    do! _ := cancelRetry in
    do! _ := modify (fun s => s <| subscribed := false |>) in
    updateStatus stopped.

Definition asset_beacon : DiscoveryBeacon :=
  mkBeacon (ao_joinAttemptID options) (ao_radioNodeID options) (ao_assetID options) (ao_serviceSession options).

(** [Math.round((this.random() - 0.5) * 1_000)] *)
Definition retry_jitter (random : num) : Z :=
  default 0 (n_integer (n_round (n_mul (n_sub random (n_lit 1 2)) (n_of_Z 1000)))).

Definition schedule_retry (delay : Z) (s : asset_join) : asset_join :=
  if isWaitingToJoin s then
    s <| timers ::= cons (timers_made s) |> <| retryTimer := Some (timers_made s) |> <| timers_made ::= fun n => n + 1 |>
      <| as_history ::= cons (as_armed (timers_made s) delay) |>
  else s.

(** [try { m } finally { cleanup }], when [m] comes to its end. *)
Definition asset_closing (cleanup : asset_join -> asset_join) (m : eff asset_join (option asset_operation))
    : eff asset_join (option asset_operation) :=
  fun s => match m s with
           | (Ok (Some w), s') => (Ok (Some w), s')
           | (r, s') => (r, cleanup s')
           end.

Definition transmit (message : JoinWireMessage) (to_ : JoinSendOptions) : eff asset_join unit :=
  do! payload := lift (encodeJoinMessage message (joinPayloadBudget to_)) in
  note (as_sent message payload to_).

Definition sendDiscovery (now : Z) (random : num) : eff asset_join (option asset_operation) :=
  do! waiting := gets isWaitingToJoin in
  if negb waiting then ret None
  else
    let elapsed := now - ao_startedAt options in
    let baseDelay := if elapsed <? 30000 then 5000 else 30000 in
    let jitter := if elapsed <? 30000 then retry_jitter random else 0 in
    asset_closing (schedule_retry (baseDelay + jitter))
      (do! _ := transmit (join_discovery asset_beacon) (mkJoinOptions ao_channel None false) in
       ret (Some (aw_discovery (baseDelay + jitter)))).

Definition asset_receive (packet : JoinPacket) : eff asset_join (option asset_operation) :=
  do! s := gets (fun s => s) in
  match jp_radio_source packet with
  | None => ret None
  | Some source =>
      if negb (jp_channel packet =? ao_channel) || negb (jp_public_key_encrypted packet) || negb (isWaitingToJoin s) then ret None
      else
        match decodeJoinMessage (jp_payload packet) with
        | None => ret None
        | Some message =>
            if negb (bool_decide (join_attempt_id message = ao_joinAttemptID options)) then ret None
            else
              match message with
              | join_challenge _ challenge proof => ret (Some (aw_verify challenge proof source))
              | join_accept acceptance =>
                  if negb (bool_decide (gatewayRadioNodeID s = Some source)) then ret None
                  else if negb (bool_decide (a_radio_contract_revision acceptance = revision)) then ret None
                  else if installingMembership s then ret None
                  else
                    do! _ := modify (fun s => s <| installingMembership := true |>) in
                    do! _ := note (as_install (a_channel acceptance)) in
                    ret (Some (aw_install acceptance))
              | _ => ret None
              end
        end
  end.

(** ** Going on *)

(** After the proof of the Gateway was looked at. *)
Definition verified (challenge proof : list Z) (source : Z) (r : result bool) : eff asset_join (option asset_operation) :=
  do! genuine := lift r in
  do! _ := note (as_verified challenge proof genuine) in
  do! is_stopped := gets isStopped in
  if negb genuine || is_stopped then ret None
  else
    do! _ := modify (fun s => s <| gatewayRadioNodeID := Some source |>) in
    do! _ := updateStatus authenticating in
    ret (Some (aw_answer challenge source)).

(** After the policy answered the challenge. *)
Definition respond (challenge : list Z) (source : Z) (r : result (list Z)) : eff asset_join (option asset_operation) :=
  do! response := lift r in
  do! _ := note (as_answered challenge response) in
  do! is_stopped := gets isStopped in
  if is_stopped then ret None
  else
    do! _ := transmit (join_response (ao_joinAttemptID options) response) (mkJoinOptions ao_channel (Some source) true) in
    ret (Some aw_response).

Definition end_install (s : asset_join) : asset_join := s <| installingMembership := false |>.

(** After the membership was installed. *)
Definition installed (acceptance : JoinAcceptance) (r : result unit) : eff asset_join (option asset_operation) :=
  asset_closing end_install
    (do! _ := lift r in
     do! is_stopped := gets isStopped in
     if is_stopped then ret None
     else
       do! _ := cancelRetry in
       do! _ := updateStatus (joined (a_gateway_node_id acceptance) (a_source_generation acceptance)) in
       ret None).

Inductive asset_reply :=
  | as_text (r : result (list Z))
  | as_bool (r : result bool)
  | as_unit (r : result unit).

Definition asset_continue (w : asset_operation) (a : asset_reply) : option (eff asset_join (option asset_operation)) :=
  match w, a with
  | aw_discovery delay, as_unit r => Some (asset_closing (schedule_retry delay) (do! _ := lift r in ret None))
  | aw_verify challenge proof source, as_bool r => Some (verified challenge proof source r)
  | aw_answer challenge source, as_text r => Some (respond challenge source r)
  | aw_response, as_unit r => Some (do! _ := lift r in ret None)
  | aw_install acceptance, as_unit r => Some (installed acceptance r)
  | aw_rejected e, as_unit _ =>
      Some (do! is_stopped := gets isStopped in do! _ := (if is_stopped then ret tt else note (as_error e)) in ret None)
  | _, _ => None
  end.

(** [run(operation)]: the promise is active until it settles. *)
Definition asset_settle (number : Z) (m : eff asset_join (option asset_operation)) (s : asset_join) : asset_join :=
  match m s with
  | (Ok None, s) => s
  | (Ok (Some w), s) => s <| as_activeOperations ::= jset number w |>
  | (Throw e, s) => s <| as_activeOperations ::= jset number (aw_rejected e) |>
  end.

Definition asset_run_operation (m : eff asset_join (option asset_operation)) (s : asset_join) : asset_join :=
  asset_settle (as_operations_started s) m (s <| as_operations_started ::= fun n => n + 1 |>).

(** ** What happens to the service *)

Inductive asset_event :=
  | as_start (now : Z) (random : num)
  | as_packet (packet : JoinPacket)
  | as_reply (number : Z) (a : asset_reply)
  | as_timer (timer : Z) (now : Z) (random : num)
  | as_stop
  | as_disconnect (e : js_error).

Definition asset_step (e : asset_event) (s : asset_join) : asset_join :=
  match e with
  | as_start now random =>
      if isStopped s then s
      else
        let s := s <| as_history ::= cons (as_started (currentStatus s)) |> in
        if ao_status_listener_throws options (currentStatus s) then s else asset_run_operation (sendDiscovery now random) s
  | as_packet packet =>
      if subscribed s then asset_run_operation (asset_receive packet) (s <| as_history ::= cons (as_heard packet) |>) else s
  | as_reply number a =>
      match jget number (as_activeOperations s) with
      | Some w =>
          match asset_continue w a with
          | Some m => asset_settle number m (s <| as_activeOperations ::= jdel number |>)
          | None => s
          end
      | None => s
      end
  | as_timer timer now random =>
      if existsb (Z.eqb timer) (timers s) then
        asset_run_operation (sendDiscovery now random) (s <| timers ::= List.filter (fun t => negb (t =? timer)) |>)
      else s
  | as_stop => snd (stop s)
  | as_disconnect e =>
      if subscribed s && isWaitingToJoin s then
        match stop s with
        | (Ok _, s) => s <| as_history ::= cons (as_disconnected e) |>
        | (Throw _, s) => s
        end
      else s
  end.

Definition asset_run (es : list asset_event) (s : asset_join) : asset_join := fold_left (fun s e => asset_step e s) es s.
End asset.
