(* ===== verification/JoinAssetFacts.v ===== *)
(** * What the Asset's end of a join guarantees ([joining.ts])

    The Asset installs a membership only from a radio it recognized as its
    Gateway's, one at a time, and until it has joined it goes on announcing
    itself. *)

From Stdlib Require Import ZArith Lia String.
From stdpp Require Import base list option.
From S2P Require Import Prelude JsMap BinaryIO Wtf8 Json Utf8Text CompactValue Base64 LinkTypes Frame Contract JsState Doubles JoinWire Membership JoinPolicy JoinGateway JoinAsset.

Open Scope string_scope.
Open Scope list_scope.
Open Scope Z_scope.

Section asset.
Context {node : NodeBuffer} {radio : JoinRadio} (options : AssetJoinOptions).

(** ** What must have happened before *)

(** A packet of the join, encrypted for the Asset, from one radio. *)
Definition received (past : list asset_entry) (message : JoinWireMessage) (source : Z) : Prop :=
  exists packet, as_heard packet ∈ past /\ decodeJoinMessage (jp_payload packet) = Some message /\
    join_attempt_id message = ao_joinAttemptID options /\ jp_public_key_encrypted packet = true /\ jp_radio_source packet = Some source.

(** The radio sent a challenge with a proof the policy took for the Gateway's. *)
Definition recognized (past : list asset_entry) (source : Z) (challenge : list Z) : Prop :=
  exists proof, received past (join_challenge (ao_joinAttemptID options) challenge proof) source /\ as_verified challenge proof true ∈ past.

Definition unverified (e : asset_entry) : Prop := match e with as_verified _ _ true => False | _ => True end.

(** The last challenge the policy took for the Gateway's came from the radio. *)
Definition last_recognized (past : list asset_entry) (source : Z) : Prop :=
  exists since challenge proof before, past = since ++ as_verified challenge proof true :: before /\ Forall unverified since /\
    received before (join_challenge (ao_joinAttemptID options) challenge proof) source.

Definition offered (past : list asset_entry) (acceptance : JoinAcceptance) : Prop :=
  exists source challenge, received past (join_accept acceptance) source /\ recognized past source challenge /\
    a_radio_contract_revision acceptance = revision.

Definition asset_cause (e : asset_entry) (past : list asset_entry) : Prop :=
  match e with
  | as_install channel => exists acceptance source, received past (join_accept acceptance) source /\ last_recognized past source /\
      a_radio_contract_revision acceptance = revision /\ a_channel acceptance = channel
  | as_status (joined gateway_node_id generation) =>
      exists acceptance, offered past acceptance /\ as_install (a_channel acceptance) ∈ past /\
        a_gateway_node_id acceptance = gateway_node_id /\ a_source_generation acceptance = generation
  | as_sent (join_response attempt response) _ to_ =>
      exists source challenge, recognized past source challenge /\ as_answered challenge response ∈ past /\
        attempt = ao_joinAttemptID options /\ to_ = mkJoinOptions (ao_channel options) (Some source) true
  | as_sent (join_discovery beacon) _ to_ => beacon = asset_beacon options /\ to_ = mkJoinOptions (ao_channel options) None false
  | as_sent _ _ _ => False
  | _ => True
  end.

Fixpoint asset_caused (past : list asset_entry) : Prop :=
  match past with [] => True | e :: past => asset_cause e past /\ asset_caused past end.

Definition asset_justified (past : list asset_entry) (w : asset_operation) : Prop :=
  match w with
  | aw_verify challenge proof source => received past (join_challenge (ao_joinAttemptID options) challenge proof) source
  | aw_answer challenge source => recognized past source challenge
  | aw_install acceptance => offered past acceptance /\ as_install (a_channel acceptance) ∈ past
  | _ => True
  end.

Lemma received_later past past' message source : past ⊆ past' -> received past message source -> received past' message source.
Proof using. intros H (packet & ? & ?). exists packet. auto. Qed.
Lemma recognized_later past past' source challenge : past ⊆ past' -> recognized past source challenge -> recognized past' source challenge.
Proof using. intros H (proof & ? & ?). exists proof. split; [by eapply received_later | auto]. Qed.
Lemma last_recognized_cons e past source : unverified e -> last_recognized past source -> last_recognized (e :: past) source.
Proof using.
  intros He (since & challenge & proof & before & -> & Hs & H). exists (e :: since), challenge, proof, before. split; [done |]. by split; [constructor |].
Qed.
Lemma last_recognized_ever past source : last_recognized past source -> exists challenge, recognized past source challenge.
Proof using.
  intros (since & challenge & proof & before & -> & _ & H). exists challenge, proof. split; [| apply elem_of_app; right; by left].
  eapply received_later; [| exact H]. intros x Hx. apply elem_of_app. right. by right.
Qed.
Lemma offered_later past past' acceptance : past ⊆ past' -> offered past acceptance -> offered past' acceptance.
Proof using.
  intros H (source & challenge & ? & ? & ?). exists source, challenge. split; [by eapply received_later |]. split; [by eapply recognized_later | done].
Qed.
Lemma asset_justified_later past past' w : past ⊆ past' -> asset_justified past w -> asset_justified past' w.
Proof using.
  intros H. destruct w; cbn; try done; [by apply received_later | by apply recognized_later |].
  intros [? ?]. split; [by eapply offered_later | auto].
Qed.

(** ** The invariant *)

Record asset_sound (s : asset_join) : Prop := {
  aso_gateway source : isStopped s = false -> gatewayRadioNodeID s = Some source -> last_recognized (as_history s) source;
  aso_active n w : (n, w) ∈ as_activeOperations s -> asset_justified (as_history s) w;
  aso_history : asset_caused (as_history s)
}.

Lemma asset_sound_same s s' : asset_sound s -> as_history s' = as_history s -> gatewayRadioNodeID s' = gatewayRadioNodeID s ->
  as_activeOperations s' ⊆ as_activeOperations s -> (isStopped s' = false -> isStopped s = false) -> asset_sound s'.
Proof using. intros [H1 H2 H3] Hh Hg Ha Hst. split; rewrite ?Hh, ?Hg; [auto | intros n w Hw; eapply H2, Ha, Hw | done]. Qed.

Lemma asset_sound_note e s : asset_sound s -> asset_cause e (as_history s) -> unverified e -> asset_sound (s <| as_history ::= cons e |>).
Proof using.
  intros [H1 H2 H3] He Hu. assert (Hl : as_history s ⊆ e :: as_history s) by (intros x; by right). split; cbn.
  - intros source Hst Hs. apply last_recognized_cons; [done | by apply H1].
  - intros n w Hw. eapply asset_justified_later; [exact Hl | eauto].
  - done.
Qed.

Definition asset_lands (x : result (option asset_operation) * asset_join) : Prop :=
  asset_sound (snd x) /\ match fst x with Ok (Some w) => asset_justified (as_history (snd x)) w | _ => True end.

(** Parts that return nothing keep the invariant, and the past. *)
Definition sound_part (m : eff asset_join unit) : Prop :=
  forall s, asset_sound s -> asset_sound (snd (m s)) /\ as_history s ⊆ as_history (snd (m s)).

Lemma updateStatus_sound status s : asset_sound s -> asset_cause (as_status status) (as_history s) ->
  isStopped s = false \/ status = stopped ->
  asset_sound (snd (updateStatus options status s)) /\ as_history s ⊆ as_history (snd (updateStatus options status s)).
Proof using.
  intros Hs Hc Hst. unfold updateStatus, bind_eff, note, modify. set (s1 := s <| currentStatus := status |> <| as_history ::= _ |>).
  assert (H1 : asset_sound s1) by (apply asset_sound_note; [| done | done]; apply (asset_sound_same s); try done; by destruct Hst as [| ->]).
  assert (H2 : as_history s ⊆ as_history s1) by (intros x; by right).
  by destruct (ao_status_listener_throws options status).
Qed.

Lemma cancelRetry_sound : sound_part cancelRetry.
Proof using.
  intros s Hs. unfold cancelRetry, bind_eff, gets. destruct (retryTimer s) as [h |]; [| done]. unfold note, modify.
  split; [| intros x; by right]. apply asset_sound_note; [by apply (asset_sound_same s) | done | done].
Qed.

Lemma cancelRetry_stopped s : isStopped (snd (cancelRetry s)) = isStopped s.
Proof using. unfold cancelRetry, bind_eff, gets. by destruct (retryTimer s). Qed.

Lemma stop_sound s : asset_sound s -> asset_sound (snd (stop options s)).
Proof using.
  intros Hs. unfold stop, bind_eff at 1, gets. destruct (isStopped s); [done |]. unfold bind_eff at 1.
  destruct (cancelRetry_sound s Hs) as [H1 _]. destruct (cancelRetry s) as [[[] | e] s1]; [| done]. cbn [snd] in H1.
  unfold bind_eff at 1, modify. apply updateStatus_sound; [by apply (asset_sound_same s1) | done | by right].
Qed.

Lemma schedule_retry_sound delay s : asset_sound s -> asset_sound (schedule_retry delay s).
Proof using.
  intros Hs. unfold schedule_retry. destruct (isWaitingToJoin s); [| done]. apply asset_sound_note; [by apply (asset_sound_same s) | done | done].
Qed.

Lemma asset_closing_lands cleanup m s : (forall s, asset_sound s -> asset_sound (cleanup s)) -> asset_lands (m s) ->
  asset_lands (asset_closing cleanup m s).
Proof using.
  intros Hc [H1 H2]. unfold asset_closing. destruct (m s) as [[[w |] | e] s']; cbn [fst snd] in *; split; cbn; auto.
Qed.

Lemma transmit_lands message to_ w s : asset_sound s -> (forall payload, asset_cause (as_sent message payload to_) (as_history s)) ->
  asset_justified [] w -> asset_lands ((do! _ := transmit message to_ in ret (Some w)) s).
Proof using.
  intros Hs Hc Hw. unfold transmit, bind_eff, lift. destruct (encodeJoinMessage _ _) as [payload | e]; [| done].
  unfold note, modify, ret. split; [by apply asset_sound_note; [| apply Hc |] |]. eapply asset_justified_later; [apply list_subseteq_nil | exact Hw].
Qed.

Lemma sendDiscovery_lands now random s : asset_sound s -> asset_lands (sendDiscovery options now random s).
Proof using.
  intros Hs. unfold sendDiscovery, bind_eff at 1, gets. destruct (negb _); [done |].
  apply asset_closing_lands; [intros; by apply schedule_retry_sound |]. by apply transmit_lands.
Qed.

Lemma asset_receive_lands packet s : asset_sound s -> as_heard packet ∈ as_history s -> asset_lands (asset_receive options packet s).
Proof using.
  intros Hs Hh. unfold asset_receive, bind_eff at 1, gets. destruct (jp_radio_source packet) as [source |] eqn:Er; [| done].
  destruct (_ || _) eqn:Eb; [done |]. reflect_tests. assert (Hst : isStopped s = false) by (unfold isWaitingToJoin, isStopped in *; by destruct (currentStatus s)). destruct (decodeJoinMessage (jp_payload packet)) as [message |] eqn:Ed; [| done].
  destruct (bool_decide_reflect (join_attempt_id message = ao_joinAttemptID options)) as [Ha |]; cbn [negb]; [| done].
  assert (Hr : received (as_history s) message source) by (by exists packet).
  destruct message as [| attempt challenge proof | | acceptance]; try done.
  { split; [done |]. cbn in Ha. by subst attempt. }
  destruct (bool_decide_reflect (gatewayRadioNodeID s = Some source)) as [Hg |]; cbn [negb]; [| done].
  destruct (bool_decide_reflect (a_radio_contract_revision acceptance = revision)) as [Hv |]; cbn [negb]; [| done].
  destruct (installingMembership s); [done |]. pose proof (aso_gateway _ Hs source Hst Hg) as Hl.
  destruct (last_recognized_ever _ _ Hl) as [challenge Hc].
  assert (Ho : offered (as_history s) acceptance) by (by exists source, challenge).
  unfold bind_eff, modify, note, ret. split.
  - apply asset_sound_note; [by apply (asset_sound_same s) | by exists acceptance, source | done].
  - cbn. split; [eapply offered_later; [| exact Ho]; intros x; by right | by left].
Qed.

Lemma verified_lands challenge proof source r s : asset_sound s ->
  received (as_history s) (join_challenge (ao_joinAttemptID options) challenge proof) source -> asset_lands (verified options challenge proof source r s).
Proof using.
  intros Hs Hr. unfold verified. destruct r as [[] | e]; [| | done]; unfold bind_eff at 1 2, lift, note at 1, modify at 1.
  2: { unfold bind_eff at 1, gets. split; [by apply asset_sound_note | done]. }
  set (s1 := s <| as_history ::= _ |>). assert (Hl : as_history s ⊆ as_history s1) by (intros x; by right).
  unfold bind_eff at 1, gets. cbn [negb orb]. destruct (isStopped s1) eqn:Est.
  - split; [| done]. destruct Hs as [_ H2 H3]. split; [intros src Hst; change (isStopped s1 = false) in Hst; congruence | | done].
    intros n w Hw. eapply asset_justified_later; [exact Hl | by eapply H2].
  - assert (Hrec : recognized (as_history s1) source challenge) by (exists proof; split; [by eapply received_later | by left]).
    unfold bind_eff at 1, modify. set (s2 := s1 <| gatewayRadioNodeID := _ |>).
    assert (Hs2 : asset_sound s2).
    { destruct Hs as [_ H2 H3]. split; [intros src _ [= <-]; by exists [], challenge, proof, (as_history s) | | done].
      intros n w Hw. eapply asset_justified_later; [exact Hl | by eapply H2]. }
    destruct (updateStatus_sound authenticating s2 Hs2 I (or_introl Est)) as [H3 H4]. unfold bind_eff.
    destruct (updateStatus options authenticating s2) as [[[] | e] s3]; cbn [fst snd] in *; [| done].
    split; [done |]. cbn. by eapply recognized_later.
Qed.

Lemma respond_lands challenge source r s : asset_sound s -> recognized (as_history s) source challenge -> asset_lands (respond options challenge source r s).
Proof using.
  intros Hs Hr. unfold respond. destruct r as [response | e]; [| done]. unfold bind_eff at 1 2, lift, note at 1, modify at 1.
  apply (asset_sound_note (as_answered challenge response)) in Hs; [| done | done]. set (s1 := s <| as_history ::= _ |>) in *.
  unfold bind_eff at 1, gets. destruct (isStopped s1); [done |]. apply transmit_lands; [done | | done].
  intros payload. exists source, challenge. split; [eapply recognized_later; [| exact Hr]; intros x; by right |]. split; [by left | done].
Qed.

Lemma installed_lands acceptance r s : asset_sound s -> offered (as_history s) acceptance -> as_install (a_channel acceptance) ∈ as_history s ->
  asset_lands (installed options acceptance r s).
Proof using.
  intros Hs Ho Hi. apply asset_closing_lands; [intros s' Hs'; by apply (asset_sound_same s') |].
  destruct r as [[] | e]; [| done]. unfold bind_eff at 1 2, lift, gets. destruct (isStopped s) eqn:Est; [done |].
  unfold bind_eff at 1. destruct (cancelRetry_sound s Hs) as [H1 H2]. pose proof (cancelRetry_stopped s) as Hst.
  destruct (cancelRetry s) as [[[] | e] s1]; cbn [fst snd] in *; [| done].
  destruct (updateStatus_sound (joined (a_gateway_node_id acceptance) (a_source_generation acceptance)) s1 H1) as [H3 _].
  { exists acceptance. split; [by eapply offered_later |]. split; [by apply H2 | done]. }
  { left. by rewrite Hst. }
  unfold bind_eff. by destruct (updateStatus options _ s1) as [[[] | e] s2].
Qed.

Lemma asset_continue_lands w a m s : asset_continue options w a = Some m -> asset_sound s -> asset_justified (as_history s) w -> asset_lands (m s).
Proof using.
  destruct w, a; cbn [asset_continue]; try done; intros [= <-] Hs Hj.
  - apply asset_closing_lands; [intros; by apply schedule_retry_sound |]. unfold bind_eff, lift. by destruct r as [[] |].
  - by apply verified_lands.
  - by apply respond_lands.
  - unfold bind_eff, lift. by destruct r as [[] |].
  - destruct Hj. by apply installed_lands.
  - unfold bind_eff at 1, gets. destruct (isStopped s); [done |]. unfold bind_eff, note, modify, ret. split; [| done]. by apply asset_sound_note.
Qed.

Lemma asset_settle_sound number m s : asset_lands (m s) -> asset_sound (asset_settle number m s).
Proof using.
  intros [H1 H2]. unfold asset_settle. destruct (m s) as [[[w |] | e] s']; cbn [fst snd] in *; [| done |];
    destruct H1 as [S1 S2 S3]; (split; try done); intros n w' [[= -> ->] | Hw]%elem_of_jset; try done; by eapply S2.
Qed.

Lemma asset_operation_sound m s : asset_sound s -> (forall s', asset_sound s' -> as_history s' = as_history s -> asset_lands (m s')) ->
  asset_sound (asset_run_operation m s).
Proof using. intros Hs Hm. apply asset_settle_sound, Hm; [by apply (asset_sound_same s) | done]. Qed.

Lemma asset_step_sound e s : asset_sound s -> asset_sound (asset_step options e s).
Proof using.
  intros Hs. destruct e as [now random | packet | number a | timer now random | | e]; cbn [asset_step].
  - destruct (isStopped s); [done |]. apply (asset_sound_note (as_started (currentStatus s))) in Hs; [| done | done].
    destruct (ao_status_listener_throws options _); [done |]. apply asset_operation_sound; [done |].
    intros s' Hs' _. by apply sendDiscovery_lands.
  - destruct (subscribed s); [| done]. apply (asset_sound_note (as_heard packet)) in Hs; [| done | done].
    apply asset_operation_sound; [done |]. intros s' Hs' Hh. apply asset_receive_lands; [done |]. rewrite Hh. by left.
  - destruct (jget number (as_activeOperations s)) as [w |] eqn:Ew; [| done]. destruct (asset_continue options w a) as [m |] eqn:Ec; [| done].
    apply asset_settle_sound. eapply asset_continue_lands; [exact Ec | |].
    + apply (asset_sound_same s); try done. intros x. apply elem_of_jdel_weak.
    + apply jget_elem_of in Ew. exact (aso_active _ Hs _ _ Ew).
  - destruct (existsb _ _); [| done]. apply asset_operation_sound; [by apply (asset_sound_same s) |].
    intros s' Hs' _. by apply sendDiscovery_lands.
  - by apply stop_sound.
  - destruct (_ && _); [| done]. apply stop_sound in Hs. destruct (stop options s) as [[[] | e'] s']; [| done]. by apply asset_sound_note.
Qed.

Lemma asset_run_sound es : forall s, asset_sound s -> asset_sound (asset_run options es s).
Proof using. induction es as [| e es IH]; intros s Hs; [done |]. by apply IH, asset_step_sound. Qed.

Lemma new_asset_sound s : new_asset_join options = Ok s -> asset_sound s.
Proof using.
  unfold new_asset_join. intros H. inv_result. subst. split; cbn; try done. intros n w Hw. by apply elem_of_nil in Hw.
Qed.

Lemma asset_caused_split past e : forall later, asset_caused (later ++ e :: past) -> asset_cause e past.
Proof using. induction later as [| x later IH]; cbn; [by intros [? ?] | by intros [_ ?%IH]]. Qed.
End asset.

(** C5: the Asset installs only what its Gateway sent it. Whatever packets and
    replies come in whatever order: when the service hands a membership to be
    installed, a packet of this join, encrypted for the Asset, offered it under
    the radio contract the Asset was built for, and the radio it came from is
    the one the policy recognized last: the last proof that was found genuine
    ([since] holds no other) is of a challenge for this join that this radio
    had sent before, encrypted for the Asset too. *)
Theorem installs_only_from_verified_gateway {node : NodeBuffer} {radio : JoinRadio} options s0 es channel later past :
  new_asset_join options = Ok s0 ->
  as_history (asset_run options es s0) = later ++ as_install channel :: past ->
  exists source acceptance offer invitation challenge proof since before,
    a_channel acceptance = channel /\ a_radio_contract_revision acceptance = revision /\
    as_heard offer ∈ past /\ decodeJoinMessage (jp_payload offer) = Some (join_accept acceptance) /\
    a_join_attempt_id acceptance = ao_joinAttemptID options /\ jp_public_key_encrypted offer = true /\ jp_radio_source offer = Some source /\
    past = since ++ as_verified challenge proof true :: before /\ (forall c p, as_verified c p true ∉ since) /\
    as_heard invitation ∈ before /\ decodeJoinMessage (jp_payload invitation) = Some (join_challenge (ao_joinAttemptID options) challenge proof) /\
    jp_public_key_encrypted invitation = true /\ jp_radio_source invitation = Some source.
Proof.
  intros Hn H. pose proof (aso_history _ _ (asset_run_sound options es s0 (new_asset_sound options s0 Hn))) as Hc. rewrite H in Hc.
  apply asset_caused_split in Hc as (acceptance & source & (offer & ? & ? & ? & ? & ?) &
    (since & challenge & proof & before & -> & Hs & (invitation & ? & ? & ? & ? & ?)) & ? & <-).
  exists source, acceptance, offer, invitation, challenge, proof, since, before. split_and!; try done.
  intros c p Hin. rewrite Forall_elem in Hs. exact (Hs _ Hin).
Qed.

(** * The Asset goes on announcing itself ([joining.ts])

    Until an Asset has joined or was stopped, a discovery message of it is under
    way or the timer of the next one is armed. *)

Section asset.
Context {node : NodeBuffer} {radio : JoinRadio} (options : AssetJoinOptions).

Definition never_joined (past : list asset_entry) : Prop := forall g n, as_status (joined g n) ∉ past.

Definition armed (s : asset_join) : Prop := exists h, retryTimer s = Some h /\ h ∈ timers s.
Definition announcing (s : asset_join) : Prop := exists n d, (n, aw_discovery d) ∈ as_activeOperations s.
Definition tries (s : asset_join) : Prop := isWaitingToJoin s = true -> never_joined (as_history s) -> armed s \/ announcing s.

Definition joined_noted (s : asset_join) : Prop := forall g n, currentStatus s = joined g n -> as_status (joined g n) ∈ as_history s.
Definition as_numbered (s : asset_join) : Prop :=
  jwf (as_activeOperations s) /\ Forall (fun k => k < as_operations_started s) (jkeys (as_activeOperations s)).

(** Where a part of an operation gets to. *)
Record gets_to (s : asset_join) (x : result (option asset_operation) * asset_join) : Prop := {
  gt_active : as_activeOperations (snd x) = as_activeOperations s;
  gt_started : as_operations_started (snd x) = as_operations_started s;
  gt_noted : joined_noted (snd x);
  gt_tries : isWaitingToJoin (snd x) = true -> never_joined (as_history (snd x)) ->
    armed (snd x) \/ announcing s \/ exists d, fst x = Ok (Some (aw_discovery d))
}.

Lemma never_joined_cons e past : never_joined (e :: past) -> never_joined past.
Proof using. intros H g n Hin. by apply (H g n), list_elem_of_further. Qed.

(** Nothing but the past and what is not the retry's changed. *)
Lemma gets_same s r s' : tries s -> joined_noted s -> as_activeOperations s' = as_activeOperations s ->
  as_operations_started s' = as_operations_started s -> timers s' = timers s -> retryTimer s' = retryTimer s ->
  currentStatus s' = currentStatus s -> as_history s ⊆ as_history s' -> gets_to s (r, s').
Proof using.
  intros Ht Hn Ha Ho Htm Hr Hc Hh. split; cbn [fst snd]; try done.
  - intros g n E. apply Hh, Hn. congruence.
  - unfold isWaitingToJoin, armed. rewrite Hc, Htm, Hr. intros Hw Hj.
    destruct (Ht Hw) as [? | ?]; [| by left | by right; left]. intros g n Hin. by apply (Hj g n), Hh.
Qed.

Lemma schedule_retry_gets delay (r : result (option asset_operation)) s : joined_noted s -> gets_to s (r, schedule_retry delay s).
Proof using.
  intros Hn. unfold schedule_retry. destruct (isWaitingToJoin s) eqn:Ew.
  - split; cbn [fst snd]; try done.
    + intros g n E. right. by apply Hn.
    + intros _ _. left. exists (timers_made s). by split; [| left].
  - split; cbn [fst snd]; [done | done | done |]. by rewrite Ew.
Qed.

Lemma sendDiscovery_gets now random s : joined_noted s -> gets_to s (sendDiscovery options now random s).
Proof using.
  intros Hn. unfold sendDiscovery, bind_eff at 1, gets. destruct (isWaitingToJoin s) eqn:Ew; cbn [negb].
  2: { split; cbn [fst snd ret]; try done. by rewrite Ew. }
  unfold asset_closing, transmit, bind_eff, lift. destruct (encodeJoinMessage _ _) as [payload | e].
  - unfold note, modify, ret. split; cbn [fst snd]; try done.
    + intros g n E. right. by apply Hn.
    + intros _ _. right. right. by eexists.
  - by apply schedule_retry_gets.
Qed.

Lemma asset_receive_gets packet s : tries s -> joined_noted s -> gets_to s (asset_receive options packet s).
Proof using.
  intros Ht Hn. assert (Hs : forall r, gets_to s (r, s)) by (intros; by apply gets_same).
  unfold asset_receive, bind_eff at 1, gets. destruct (jp_radio_source packet); [| apply Hs].
  destruct (_ || _); [apply Hs |]. destruct (decodeJoinMessage _) as [m |]; [| apply Hs]. destruct (negb _); [apply Hs |].
  destruct m; try apply Hs. destruct (negb _); [apply Hs |]. destruct (negb _); [apply Hs |]. destruct (installingMembership s); [apply Hs |].
  unfold bind_eff, modify, note, ret. apply gets_same; try done. intros x. by right.
Qed.

Lemma verified_gets challenge proof source r s : tries s -> joined_noted s -> gets_to s (verified options challenge proof source r s).
Proof using.
  intros Ht Hn. unfold verified. destruct r as [genuine | e]; [| by apply gets_same]. unfold bind_eff at 1 2, lift, note at 1, modify at 1.
  unfold bind_eff at 1, gets. set (s1 := s <| as_history ::= _ |>).
  destruct (negb genuine || isStopped s1) eqn:Eb; [apply gets_same; try done; intros x; by right |]. reflect_tests.
  assert (Hst : currentStatus s <> stopped) by (unfold isStopped in *; by reflect_tests).
  unfold bind_eff, updateStatus, bind_eff, modify, note. set (s2 := s1 <| gatewayRadioNodeID := Some source |> <| currentStatus := authenticating |> <| as_history ::= cons (as_status authenticating) |>).
  assert (Hg : forall r, gets_to s (r, s2)).
  { intros r. split; cbn [fst snd]; try done. intros _ Hj.
    assert (Hj0 : never_joined (as_history s)) by (by apply never_joined_cons, never_joined_cons in Hj).
    assert (Hw : isWaitingToJoin s = true).
    { unfold isWaitingToJoin. destruct (currentStatus s) as [| | g n |] eqn:E; try done. exfalso. by apply (Hj0 g n), Hn. }
    destruct (Ht Hw Hj0) as [H' | H']; [by left | by right; left]. }
  destruct (ao_status_listener_throws options authenticating); apply Hg.
Qed.

Lemma respond_gets challenge source r s : tries s -> joined_noted s -> gets_to s (respond options challenge source r s).
Proof using.
  intros Ht Hn. unfold respond. destruct r as [response | e]; [| by apply gets_same]. unfold bind_eff at 1 2, lift, note at 1, modify at 1.
  unfold bind_eff at 1, gets. set (s1 := s <| as_history ::= _ |>). destruct (isStopped s1); [apply gets_same; try done; intros x; by right |].
  unfold transmit, bind_eff, lift. destruct (encodeJoinMessage _ _); unfold note, modify, ret; apply gets_same; try done; intros x Hx; by repeat right.
Qed.

(** Once the status is neither of the waiting ones, no retry is owed. *)
Lemma gets_settled s r s' : as_activeOperations s' = as_activeOperations s -> as_operations_started s' = as_operations_started s ->
  joined_noted s' -> isWaitingToJoin s' = false -> gets_to s (r, s').
Proof using. intros Ha Ho Hn Hw. split; cbn [fst snd]; try done. by rewrite Hw. Qed.

Lemma cancelRetry_keeps s : exists s', cancelRetry s = (Ok tt, s') /\ as_activeOperations s' = as_activeOperations s /\
  as_operations_started s' = as_operations_started s /\ currentStatus s' = currentStatus s /\ as_history s ⊆ as_history s'.
Proof using.
  unfold cancelRetry, bind_eff, gets. destruct (retryTimer s); eexists; (split; [reflexivity |]); repeat split; try done. intros x. by right.
Qed.

Lemma installed_gets acceptance r s : tries s -> joined_noted s -> gets_to s (installed options acceptance r s).
Proof using.
  intros Ht Hn. unfold installed, asset_closing, end_install. destruct r as [[] | e]; [| by apply gets_same].
  unfold bind_eff at 1 2, lift, gets. destruct (isStopped s); [by apply gets_same |]. unfold bind_eff at 1.
  destruct (cancelRetry_keeps s) as (s1 & -> & Ha & Ho & _ & Hh). unfold updateStatus, bind_eff, modify, note, ret, throw.
  destruct (ao_status_listener_throws options _); (apply gets_settled; [done | done | | done]);
    intros g n E; cbn in *; injection E as <- <-; by left.
Qed.

Lemma asset_continue_gets w a m s : asset_continue options w a = Some m -> (tries s \/ exists d, w = aw_discovery d) -> joined_noted s -> gets_to s (m s).
Proof using.
  destruct w, a; cbn [asset_continue]; try done; intros [= <-] Ht Hn.
  - unfold asset_closing, bind_eff, lift. destruct r as [[] |]; by apply schedule_retry_gets.
  - destruct Ht as [Ht | [? [=]]]. by apply verified_gets.
  - destruct Ht as [Ht | [? [=]]]. by apply respond_gets.
  - destruct Ht as [Ht | [? [=]]]. unfold bind_eff, lift. destruct r as [[] |]; by apply gets_same.
  - destruct Ht as [Ht | [? [=]]]. by apply installed_gets.
  - destruct Ht as [Ht | [? [=]]]. unfold bind_eff, gets, note, modify, ret. destruct (isStopped s); apply gets_same; try done. intros x. by right.
Qed.

(** ** The service *)

Record tireless (s : asset_join) : Prop := { ti_numbered : as_numbered s; ti_noted : joined_noted s; ti_tries : tries s }.

Lemma settle_tireless number m s : as_numbered s -> number ∉ jkeys (as_activeOperations s) -> number < as_operations_started s ->
  gets_to s (m s) -> tireless (asset_settle number m s).
Proof using.
  intros [Hw Hk] Hn Hl [Ga Go Gn Gt]. unfold asset_settle. destruct (m s) as [r s']. cbn [fst snd] in *.
  assert (Hw' : forall w, as_numbered (s' <| as_activeOperations ::= jset number w |>)).
  { intros w. split; cbn; rewrite Ga; [by apply jset_wf |]. rewrite Go. apply Forall_elem. intros k [-> | Hk']%elem_of_jkeys_jset; [done |].
    by apply (proj1 (Forall_elem _ _) Hk). }
  assert (Hold : forall w n d, (n, aw_discovery d) ∈ as_activeOperations s -> (n, aw_discovery d) ∈ jset number w (as_activeOperations s')).
  { intros w n d Hin. rewrite Ga, jset_absent by done. apply elem_of_app. by left. }
  destruct r as [[w |] | e].
  - split; [apply Hw' | exact Gn |]. intros Hwait Hj. destruct (Gt Hwait Hj) as [H | [(n & d & H) | [d [= ->]]]]; [by left | right; exists n, d; by apply Hold |].
    right. exists number, d. cbn. rewrite Ga, jset_absent by done. apply elem_of_app. right. by left.
  - split; [by unfold as_numbered; rewrite Ga, Go | exact Gn |]. intros Hwait Hj.
    destruct (Gt Hwait Hj) as [H | [(n & d & H) | [d [=]]]]; [by left |]. right. exists n, d. by rewrite Ga.
  - split; [apply Hw' | exact Gn |]. intros Hwait Hj. destruct (Gt Hwait Hj) as [H | [(n & d & H) | [d [=]]]]; [by left | right; exists n, d; by apply Hold].
Qed.

Lemma operation_tireless m s : as_numbered s -> (forall s', as_activeOperations s' = as_activeOperations s -> retryTimer s' = retryTimer s ->
    timers s' = timers s -> currentStatus s' = currentStatus s -> as_history s' = as_history s -> gets_to s' (m s')) ->
  tireless (asset_run_operation m s).
Proof using.
  intros [Hw Hk] Hm. apply settle_tireless; [| | | by apply Hm].
  - split; [done |]. eapply Forall_weaken; [exact Hk |]. cbn. lia.
  - intros Hin. apply (proj1 (Forall_elem _ _) Hk) in Hin. lia.
  - cbn. lia.
Qed.

Lemma stop_tireless s : tireless s -> tireless (snd (stop options s)).
Proof using.
  intros [Hk Hn Ht]. unfold stop, bind_eff at 1, gets. destruct (isStopped s); [done |]. unfold bind_eff at 1.
  destruct (cancelRetry_keeps s) as (s1 & -> & Ha & Ho & _ & Hh). unfold bind_eff, modify, updateStatus, bind_eff, modify, note, throw, ret.
  destruct (ao_status_listener_throws options stopped); cbn [snd]; split; try done; by unfold as_numbered; cbn; rewrite Ha, Ho.
Qed.

Lemma asset_step_tireless e s : tireless s -> tireless (asset_step options e s).
Proof using.
  intros Hs. pose proof Hs as [Hk Hn Ht]. destruct e as [now random | packet | number a | timer now random | | e]; cbn [asset_step].
  - destruct (isStopped s); [done |]. set (s1 := s <| as_history ::= _ |>).
    assert (Hn1 : joined_noted s1) by (intros g n E; right; by apply Hn).
    destruct (ao_status_listener_throws options _).
    + split; [done | done |]. intros Hw Hj. exact (Ht Hw (never_joined_cons _ _ Hj)).
    + apply operation_tireless; [done |]. intros s' _ _ _ Hc Hh. apply sendDiscovery_gets. intros g n. rewrite Hc, Hh. apply Hn1.
  - destruct (subscribed s); [| done]. apply operation_tireless; [done |]. intros s' Ha Hr Htm Hc Hh.
    apply asset_receive_gets; [| intros g n; rewrite Hc, Hh; right; by apply Hn].
    unfold tries, isWaitingToJoin, armed, announcing. rewrite Hr, Htm, Hc, Hh, Ha. intros Hw Hj. exact (Ht Hw (never_joined_cons _ _ Hj)).
  - destruct (jget number (as_activeOperations s)) as [w |] eqn:Ew; [| done]. destruct (asset_continue options w a) as [m |] eqn:Ec; [| done].
    destruct Hk as [Hw Hk]. set (s1 := s <| as_activeOperations ::= jdel number |>). apply settle_tireless.
    + split; [by apply jdel_wf |]. apply Forall_elem. intros k Hin. apply (proj1 (Forall_elem _ _) Hk). by apply elem_of_jkeys_jdel_weak in Hin.
    + apply jget_None. by apply jget_jdel_eq.
    + apply (proj1 (Forall_elem _ _) Hk). by eapply jget_key.
    + eapply asset_continue_gets; [exact Ec | | exact Hn].
      assert ((exists d, w = aw_discovery d) \/ ~ (exists d, w = aw_discovery d)) as [Hd | Hd] by (destruct w; first [by left; eexists | by right; intros [? [=]]]); [by right | left].
      intros Hwait Hj. destruct (Ht Hwait Hj) as [H | (n & d & Hin)]; [by left | right]. exists n, d.
      apply jget_elem_of. cbn. apply jget_of_elem in Hin; [| done].
      rewrite jget_jdel_ne; [done |]. intros ->. apply Hd. exists d. congruence.
  - destruct (existsb _ _); [| done]. apply operation_tireless; [done |]. intros s' _ _ _ Hc Hh.
    apply sendDiscovery_gets. intros g n. rewrite Hc, Hh. apply Hn.
  - by apply stop_tireless.
  - destruct (_ && _); [| done]. apply stop_tireless in Hs. destruct (stop options s) as [[[] | e'] s']; [| done].
    destruct Hs as [Hk' Hn' Ht']. cbn [snd] in *. split; [done | intros g n E; right; by apply Hn' |].
    intros Hw Hj. exact (Ht' Hw (never_joined_cons _ _ Hj)).
Qed.

Lemma asset_run_tireless es : forall s, tireless s -> tireless (asset_run options es s).
Proof using. induction es as [| e es IH]; intros s Hs; [done |]. by apply IH, asset_step_tireless. Qed.

Lemma start_tireless s now random : new_asset_join options = Ok s -> ao_status_listener_throws options discovering = false ->
  tireless (asset_step options (as_start now random) s).
Proof using.
  unfold new_asset_join. intros H Hl. inv_result. subst. unfold asset_step. replace (isStopped _) with false by done. cbn zeta iota.
  replace (ao_status_listener_throws options _) with false by (symmetry; exact Hl).
  apply operation_tireless; [split; cbn; constructor |]. intros s' _ _ _ Hc _. apply sendDiscovery_gets.
  intros g n. rewrite Hc. done.
Qed.

(** C22: an Asset that is to join does not fall silent. Once the service has
    started, whatever it hears and however its sends, its policy and the
    installation end: as long as it was not stopped and never joined, a
    discovery message is on its way to the radio or the timer of the next one
    is armed. *)
Theorem goes_on_announcing s0 now random es :
  new_asset_join options = Ok s0 -> ao_status_listener_throws options discovering = false ->
  let s := asset_run options (as_start now random :: es) s0 in
  isWaitingToJoin s = true -> never_joined (as_history s) -> armed s \/ announcing s.
Proof using.
  intros Hn Hl. cbn zeta. exact (ti_tries _ (asset_run_tireless es _ (start_tireless s0 now random Hn Hl))).
Qed.
End asset.
