(* ===== verification/JoinExchange.v ===== *)
(** * The two ends of a join meet ([joining.ts], [membership.ts])

    An Asset and a Gateway that share a policy, whose radios carry what they
    are given: one exchange of four messages ends with the Asset in possession
    of the membership and of the source generation the Gateway's store gave
    it. *)

From Stdlib Require Import ZArith Lia String.
From stdpp Require Import base list option.
From S2P Require Import Prelude JsMap BinaryIO Wtf8 Json Utf8Text CompactValue Base64 LinkTypes Frame Contract JsState Doubles JoinWire Membership JoinPolicy JoinGateway JoinGatewayFacts JoinAsset.

Open Scope string_scope.
Open Scope list_scope.
Open Scope Z_scope.

#[local] Arguments joinPayloadBudget : simpl never.
#[local] Arguments addressed : simpl never.
#[local] Arguments asset_beacon : simpl never.
#[local] Arguments ao_channel : simpl never.
#[local] Arguments encodeJoinMessage : simpl never.
#[local] Arguments decodeJoinMessage : simpl never.

Section exchange.
Context {node : NodeBuffer} {node_laws : NodeBufferLaws} {radio : JoinRadio} {policy : AuthenticationPolicy} {laws : PolicyLaws policy}.

(** The Asset, the Gateway's radio, the Gateway's file and the challenge
    drawn. *)
Context (options : AssetJoinOptions) (gatewayRadio : Z) (file : membership_file) (challenge : list Z).

Abbreviation channel := (ao_channel options).
Abbreviation attempt := (ao_joinAttemptID options).
Abbreviation assetRadio := (ao_radioNodeID options).
Abbreviation beacon := (asset_beacon options).

(** A packet as the other radio receives it. *)
Definition arrives (payload : list Z) (source at_ : Z) (encrypted : bool) : JoinPacket :=
  mkJoinPacket payload at_ (Some source) channel encrypted.

(** ** The Gateway's side *)

Definition waiting_join (proof : list Z) (at_ : Z) : PendingJoin :=
  mkPending beacon challenge proof assetRadio (at_ + PENDING_JOIN_RETENTION_MS).

Definition invite (discovery : list Z) (at_ : Z) : list event :=
  [packet_heard (arrives discovery assetRadio at_ false); replied 0 (reply_text (Ok challenge));
   replied 0 (reply_text (Ok (prove beacon challenge))); replied 0 (reply_unit (Ok tt))].

(** A reply to the only operation that waits. *)
Lemma replied_step ch n a w todo pe co pr pc nu cl me hi : continue ch w a = Some todo ->
  step ch (replied n a) (mkGatewayJoin pe co pr pc [(n, w)] nu cl me hi) = settle n todo (mkGatewayJoin pe co pr pc [] nu cl me hi).
Proof using. intros Hm. unfold step. cbn [activeOperations jget]. rewrite decide_True by done. rewrite Hm. unfold assign. cbn. by rewrite decide_True. Qed.

Lemma set_delete_own (x : list Z) : set_delete x [x] = [].
Proof using. unfold set_delete. cbn. by rewrite bool_decide_true. Qed.

Lemma gateway_invites discovery invitation at_ :
  valid_node_id (ao_assetID options) = true -> decodeJoinMessage discovery = Some (join_discovery beacon) ->
  encodeJoinMessage (join_challenge attempt challenge (prove beacon challenge)) (joinPayloadBudget (addressed channel assetRadio)) = Ok invitation ->
  run channel (invite discovery at_) (new_gateway_join file) =
    mkGatewayJoin [(attempt, waiting_join (prove beacon challenge) at_)] [] [] [] [] 1 false file
      [transmitted (join_challenge attempt challenge (prove beacon challenge)) invitation (addressed channel assetRadio);
       proved beacon challenge (prove beacon challenge); drew beacon challenge; heard (arrives discovery assetRadio at_ false)].
Proof using.
  intros Hid Hd He. unfold run, invite. cbn [fold_left]. set (packet := arrives discovery assetRadio at_ false).
  assert (H1 : step channel (packet_heard packet) (new_gateway_join file) =
    mkGatewayJoin [] [] [] [attempt] [(0, w_challenge beacon packet)] 1 false file [heard packet]).
  { unfold step. cbn [closed new_gateway_join]. unfold settle, receive, bind_eff at 1, gets at 1. cbn [jp_radio_source packet arrives jp_channel].
    cbn [closed assign rebuild gateway_join_rebuild]. rewrite Z.eqb_refl. cbn [negb orb]. change (jp_payload packet) with discovery. rewrite Hd.
    unfold bind_eff at 1, modify at 1, receive_discovery.
    unfold validateLinkNode. cbn [LinkTypes.id]. change (b_asset_id beacon) with (ao_assetID options). change (b_radio_node_id beacon) with assetRadio. rewrite Hid. unfold bind_eff, lift, modify, gets, ret. rewrite Z.eqb_refl. reflexivity. }
  rewrite H1. clear H1. rewrite (replied_step _ _ _ _ (challenged beacon packet (Ok challenge))) by done.
  change (settle 0 (challenged beacon packet (Ok challenge)) _) with
    (mkGatewayJoin [] [] [] [attempt] [(0, w_prove beacon packet challenge)] 1 false file [drew beacon challenge; heard packet]).
  rewrite (replied_step _ _ _ _ (proven channel beacon packet assetRadio challenge (Ok (prove beacon challenge)))) by done.
  unfold settle at 1, proven, closing, bind_eff, lift, record, modify, gets, ret, forget_challenge. change (b_join_attempt_id beacon) with attempt.
  unfold sendChallenge, bind_eff, gets, record, modify, ret, assign. cbn [closed rebuild gateway_join_rebuild fst snd]. rewrite He.
  cbn [pending completed processing pendingChallenges activeOperations operations_started closed membership history jset].
  rewrite set_delete_own. rewrite (replied_step _ _ _ _ (do! _ := lift (Ok tt) in ret None)) by done. reflexivity.
Qed.

Definition grant (response : list Z) (at_ : Z) (number : Z) (fails : io_step -> bool) : list event :=
  [packet_heard (arrives response assetRadio at_ true);
   replied number (reply_bool (Ok (verify beacon challenge (answer challenge)))); replied number (reply_store fails);
   replied number (reply_unit (Ok tt)); replied number (reply_unit (Ok tt))].

Lemma gateway_grants response fails m' g acceptance payload file' proof invited_at at_ past :
  decodeJoinMessage response = Some (join_response attempt (answer challenge)) -> at_ < invited_at + PENDING_JOIN_RETENTION_MS ->
  admitAsset fails (ao_assetID options) (prepare_acceptance channel attempt assetRadio) file = (Ok (m', g, (acceptance, payload)), file') ->
  run channel (grant response at_ 1 fails) (mkGatewayJoin [(attempt, waiting_join proof invited_at)] [] [] [] [] 1 false file past) =
    mkGatewayJoin []
      [(attempt, mkCompleted beacon assetRadio acceptance payload (at_ + COMPLETED_JOIN_RETENTION_MS))] [] [] [] 2 false file'
      ([transmitted (join_accept acceptance) payload (addressed channel assetRadio);
        announced (ao_assetID options) g (ao_serviceSession options); enrolled (ao_assetID options) g;
        judged beacon challenge (answer challenge) true; heard (arrives response assetRadio at_ true)] ++ past).
Proof using laws.
  intros Hd Ht Ha. unfold run, grant. cbn [fold_left]. set (packet := arrives response assetRadio at_ true). set (p := waiting_join proof invited_at).
  assert (H1 : step channel (packet_heard packet) (mkGatewayJoin [(attempt, p)] [] [] [] [] 1 false file past) =
    mkGatewayJoin [(attempt, p)] [] [attempt] [] [(1, w_verify attempt (answer challenge) packet p)] 2 false file (heard packet :: past)).
  { unfold step. cbn [closed]. unfold settle, receive, bind_eff at 1, gets at 1. cbn [jp_radio_source packet arrives jp_channel].
    cbn [closed assign rebuild gateway_join_rebuild]. rewrite Z.eqb_refl. cbn [negb orb]. change (jp_payload packet) with response. rewrite Hd.
    unfold bind_eff at 1, modify at 1, receive_response. change (jp_public_key_encrypted packet) with true. cbn [negb].
    unfold prunePending, assign, jretain, bind_eff, gets, modify, ret. cbn [rebuild gateway_join_rebuild pending List.filter fst snd processing set_has existsb negb andb].
    change (pj_expiresAt p) with (invited_at + PENDING_JOIN_RETENTION_MS). change (jp_received_at packet) with at_.
    destruct (Z.leb_spec (invited_at + PENDING_JOIN_RETENTION_MS) at_); [lia |]. cbn [andb negb jget]. rewrite decide_True by done.
    change (pj_radioNodeID p) with assetRadio. rewrite Z.eqb_refl. reflexivity. }
  rewrite H1. clear H1. rewrite (replied_step _ _ _ _ (judgement attempt (answer challenge) packet p (Ok (verify beacon challenge (answer challenge))))) by done.
  rewrite honest_asset.
  change (settle 1 (judgement _ _ _ _ _) _) with
    (mkGatewayJoin [(attempt, p)] [] [attempt] [] [(1, w_admit attempt packet p)] 2 false file (judged beacon challenge (answer challenge) true :: heard packet :: past)).
  rewrite (replied_step _ _ _ _ (enroll channel attempt packet p assetRadio fails)) by done.
  set (past1 := judged beacon challenge (answer challenge) true :: heard packet :: past).
  assert (H2 : settle 1 (enroll channel attempt packet p assetRadio fails) (mkGatewayJoin [(attempt, p)] [] [attempt] [] [] 2 false file past1) =
    mkGatewayJoin [(attempt, p)] [] [attempt] [] [(1, w_announce attempt packet p acceptance payload)] 2 false file'
      (announced (ao_assetID options) g (ao_serviceSession options) :: enrolled (ao_assetID options) g :: past1)).
  { unfold settle, enroll, closing, bind_eff. change (b_asset_id (pj_beacon p)) with (ao_assetID options). cbn [membership]. rewrite Ha. reflexivity. }
  rewrite H2. clear H2. rewrite (replied_step _ _ _ _ (complete channel attempt packet p assetRadio acceptance payload (Ok tt))) by done.
  assert (H3 : settle 1 (complete channel attempt packet p assetRadio acceptance payload (Ok tt))
      (mkGatewayJoin [(attempt, p)] [] [attempt] [] [] 2 false file' (announced (ao_assetID options) g (ao_serviceSession options) :: enrolled (ao_assetID options) g :: past1)) =
    mkGatewayJoin [(attempt, p)] [(attempt, mkCompleted beacon assetRadio acceptance payload (at_ + COMPLETED_JOIN_RETENTION_MS))] [attempt] []
      [(1, w_acceptance attempt None)] 2 false file'
      (transmitted (join_accept acceptance) payload (addressed channel assetRadio) :: announced (ao_assetID options) g (ao_serviceSession options) :: enrolled (ao_assetID options) g :: past1)).
  { unfold settle, complete, closing, bind_eff, lift, gets, modify, ret. cbn [closed]. unfold pruneCompleted, assign, jretain.
    cbn [rebuild gateway_join_rebuild completed jset List.filter fst snd cj_expiresAt].
    change (jp_received_at packet) with at_. destruct (Z.leb_spec (at_ + COMPLETED_JOIN_RETENTION_MS) at_); [unfold COMPLETED_JOIN_RETENTION_MS in *; lia |]. reflexivity. }
  rewrite H3. clear H3.
  rewrite (replied_step _ _ _ _ (closing is_end (end_processing attempt) (do! _ := lift (Ok tt) in ret None))) by done.
  unfold settle, closing, bind_eff, lift, ret, is_end, end_processing, assign. cbn [rebuild gateway_join_rebuild pending processing jdel].
  rewrite decide_True by done. rewrite set_delete_own. reflexivity.
Qed.

(** ** The Asset's side *)

Lemma asset_replied_step n a w todo su rt ti tm gr im cs st hi : asset_continue options w a = Some todo ->
  asset_step options (as_reply n a) (mkAssetState su rt ti tm gr im cs [(n, w)] st hi) = asset_settle n todo (mkAssetState su rt ti tm gr im cs [] st hi).
Proof using. intros Hm. unfold asset_step. cbn [as_activeOperations jget]. rewrite decide_True by done. rewrite Hm. unfold assign. cbn. by rewrite decide_True. Qed.

(** The delay before the next discovery, drawn at the start. *)
Definition first_delay (now : Z) (random : num) : Z :=
  (if now - ao_startedAt options <? 30000 then 5000 else 30000) + (if now - ao_startedAt options <? 30000 then retry_jitter random else 0).

Definition announce (now : Z) (random : num) : list asset_event := [as_start now random; as_reply 0 (as_unit (Ok tt))].

Lemma asset_announces s0 discovery now random :
  new_asset_join options = Ok s0 -> (forall status, ao_status_listener_throws options status = false) ->
  encodeJoinMessage (join_discovery beacon) (joinPayloadBudget (mkJoinOptions channel None false)) = Ok discovery ->
  asset_run options (announce now random) s0 =
    mkAssetState true (Some 0) [0] 1 None false discovering [] 1
      [as_armed 0 (first_delay now random); as_sent (join_discovery beacon) discovery (mkJoinOptions channel None false); as_started discovering].
Proof using.
  intros Hn Hl He. unfold new_asset_join in Hn. inv_result. unfold asset_run, announce. cbn [fold_left].
  assert (H1 : asset_step options (as_start now random) (mkAssetState true None [] 0 None false discovering [] 0 []) =
    mkAssetState true None [] 0 None false discovering [(0, aw_discovery (first_delay now random))] 1
      [as_sent (join_discovery beacon) discovery (mkJoinOptions channel None false); as_started discovering]).
  { unfold asset_step. change (isStopped _) with false. cbv iota zeta. rewrite Hl. unfold asset_run_operation, asset_settle, sendDiscovery, bind_eff at 1, gets.
    change (isWaitingToJoin _) with true. cbn [negb]. unfold asset_closing, transmit, bind_eff, lift. rewrite He. reflexivity. }
  rewrite H1. by rewrite (asset_replied_step _ _ _ (asset_closing (schedule_retry (first_delay now random)) (do! _ := lift (Ok tt) in ret None))) by done.
Qed.

Definition identify (invitation : list Z) (at_ : Z) : list asset_event :=
  [as_packet (arrives invitation gatewayRadio at_ true);
   as_reply 1 (as_bool (Ok (verifyGateway beacon challenge (prove beacon challenge))));
   as_reply 1 (as_text (Ok (answer challenge))); as_reply 1 (as_unit (Ok tt))].

Lemma asset_identifies invitation response at_ past :
  (forall status, ao_status_listener_throws options status = false) ->
  decodeJoinMessage invitation = Some (join_challenge attempt challenge (prove beacon challenge)) ->
  encodeJoinMessage (join_response attempt (answer challenge)) (joinPayloadBudget (mkJoinOptions channel (Some gatewayRadio) true)) = Ok response ->
  asset_run options (identify invitation at_) (mkAssetState true (Some 0) [0] 1 None false discovering [] 1 past) =
    mkAssetState true (Some 0) [0] 1 (Some gatewayRadio) false authenticating [] 2
      ([as_sent (join_response attempt (answer challenge)) response (mkJoinOptions channel (Some gatewayRadio) true);
        as_answered challenge (answer challenge); as_status authenticating; as_verified challenge (prove beacon challenge) true;
        as_heard (arrives invitation gatewayRadio at_ true)] ++ past).
Proof using laws.
  intros Hl Hd He. unfold asset_run, identify. cbn [fold_left]. set (packet := arrives invitation gatewayRadio at_ true). set (proof := prove beacon challenge) in *.
  assert (H1 : asset_step options (as_packet packet) (mkAssetState true (Some 0) [0] 1 None false discovering [] 1 past) =
    mkAssetState true (Some 0) [0] 1 None false discovering [(1, aw_verify challenge proof gatewayRadio)] 2 (as_heard packet :: past)).
  { unfold asset_step. cbn [subscribed]. unfold asset_run_operation, asset_settle, asset_receive, bind_eff at 1, gets. cbn [jp_radio_source packet arrives jp_channel].
    rewrite Z.eqb_refl. change (jp_public_key_encrypted packet) with true. change (isWaitingToJoin _) with true. cbn [negb orb].
    change (jp_payload packet) with invitation. rewrite Hd. cbn [join_attempt_id]. rewrite bool_decide_true by done. reflexivity. }
  rewrite H1. clear H1. rewrite (asset_replied_step _ _ _ (verified options challenge proof gatewayRadio (Ok (verifyGateway beacon challenge proof)))) by done.
  unfold proof at 2. rewrite honest_gateway.
  assert (H2 : asset_settle 1 (verified options challenge proof gatewayRadio (Ok true)) (mkAssetState true (Some 0) [0] 1 None false discovering [] 2 (as_heard packet :: past)) =
    mkAssetState true (Some 0) [0] 1 (Some gatewayRadio) false authenticating [(1, aw_answer challenge gatewayRadio)] 2
      (as_status authenticating :: as_verified challenge proof true :: as_heard packet :: past)).
  { unfold asset_settle, verified, bind_eff, lift, note, modify, gets. change (isStopped _) with false. cbn [negb orb].
    unfold updateStatus, bind_eff, note, modify. rewrite Hl. reflexivity. }
  rewrite H2. clear H2. rewrite (asset_replied_step _ _ _ (respond options challenge gatewayRadio (Ok (answer challenge)))) by done.
  set (past1 := as_status authenticating :: as_verified challenge proof true :: as_heard packet :: past).
  assert (H3 : asset_settle 1 (respond options challenge gatewayRadio (Ok (answer challenge))) (mkAssetState true (Some 0) [0] 1 (Some gatewayRadio) false authenticating [] 2 past1) =
    mkAssetState true (Some 0) [0] 1 (Some gatewayRadio) false authenticating [(1, aw_response)] 2
      (as_sent (join_response attempt (answer challenge)) response (mkJoinOptions channel (Some gatewayRadio) true) :: as_answered challenge (answer challenge) :: past1)).
  { unfold asset_settle, respond, bind_eff, lift, note, modify, gets. change (isStopped _) with false. unfold transmit, bind_eff, lift. rewrite He. reflexivity. }
  rewrite H3. clear H3. by rewrite (asset_replied_step _ _ _ (do! _ := lift (Ok tt) in ret None)) by done.
Qed.

Definition accept (offer : list Z) (at_ : Z) : list asset_event := [as_packet (arrives offer gatewayRadio at_ true); as_reply 2 (as_unit (Ok tt))].

Lemma asset_accepts offer acceptance at_ past :
  (forall status, ao_status_listener_throws options status = false) ->
  decodeJoinMessage offer = Some (join_accept acceptance) -> a_join_attempt_id acceptance = attempt -> a_radio_contract_revision acceptance = revision ->
  asset_run options (accept offer at_) (mkAssetState true (Some 0) [0] 1 (Some gatewayRadio) false authenticating [] 2 past) =
    mkAssetState true (Some 0) [] 1 (Some gatewayRadio) false (joined (a_gateway_node_id acceptance) (a_source_generation acceptance)) [] 3
      ([as_status (joined (a_gateway_node_id acceptance) (a_source_generation acceptance)); as_cancelled 0; as_install (a_channel acceptance);
        as_heard (arrives offer gatewayRadio at_ true)] ++ past).
Proof using.
  intros Hl Hd Ha Hr. unfold asset_run, accept. cbn [fold_left]. set (packet := arrives offer gatewayRadio at_ true).
  assert (H1 : asset_step options (as_packet packet) (mkAssetState true (Some 0) [0] 1 (Some gatewayRadio) false authenticating [] 2 past) =
    mkAssetState true (Some 0) [0] 1 (Some gatewayRadio) true authenticating [(2, aw_install acceptance)] 3 (as_install (a_channel acceptance) :: as_heard packet :: past)).
  { unfold asset_step. cbn [subscribed]. unfold asset_run_operation, asset_settle, asset_receive, bind_eff at 1, gets. cbn [jp_radio_source packet arrives jp_channel].
    rewrite Z.eqb_refl. change (jp_public_key_encrypted packet) with true. change (isWaitingToJoin _) with true. cbn [negb orb].
    change (jp_payload packet) with offer. rewrite Hd. cbn [join_attempt_id]. rewrite !bool_decide_true by done. reflexivity. }
  rewrite H1. clear H1. rewrite (asset_replied_step _ _ _ (installed options acceptance (Ok tt))) by done.
  unfold asset_settle, installed, asset_closing, bind_eff, lift, gets. change (isStopped _) with false.
  unfold cancelRetry, bind_eff, gets, modify, note, updateStatus, bind_eff, modify, note. cbn [retryTimer]. rewrite Hl. reflexivity.
Qed.

(** ** The exchange *)

Lemma prepared_acceptance a source m0 g acceptance payload :
  prepare_acceptance channel a source m0 g = Ok (acceptance, payload) ->
  a_join_attempt_id acceptance = a /\ a_source_generation acceptance = g /\ a_radio_contract_revision acceptance = revision /\
  encodeJoinMessage (join_accept acceptance) (joinPayloadBudget (addressed channel source)) = Ok payload.
Proof using. unfold prepare_acceptance. intros H. inv_result. by subst. Qed.

(** C1: one exchange joins. Let an Asset and a Gateway share a policy, let the
    radios carry the four messages, each within its budget, and let the store
    admit the Asset within two minutes of its announcement: the Asset's
    announcement is answered by a challenge, the challenge by a response, the
    response by the acceptance, and the Asset ends joined, its membership
    installed, with the source generation that the store has just given it, one
    past the last; nothing is left waiting at either end. *)
Theorem one_exchange_joins s0 now random discovery invitation response acceptance payload m' g file' fails t1 t2 t3 t4 :
  new_asset_join options = Ok s0 -> (forall status, ao_status_listener_throws options status = false) ->
  sayable (join_discovery beacon) -> said challenge -> file_ok file ->
  encodeJoinMessage (join_discovery beacon) (joinPayloadBudget (mkJoinOptions channel None false)) = Ok discovery ->
  encodeJoinMessage (join_challenge attempt challenge (prove beacon challenge)) (joinPayloadBudget (addressed channel assetRadio)) = Ok invitation ->
  encodeJoinMessage (join_response attempt (answer challenge)) (joinPayloadBudget (mkJoinOptions channel (Some gatewayRadio) true)) = Ok response ->
  admitAsset fails (ao_assetID options) (prepare_acceptance channel attempt assetRadio) file = (Ok (m', g, (acceptance, payload)), file') ->
  t3 < t1 + PENDING_JOIN_RETENTION_MS ->
  let a1 := asset_run options (announce now random) s0 in
  let g1 := run channel (invite discovery t1) (new_gateway_join file) in
  let a2 := asset_run options (identify invitation t2) a1 in
  let g2 := run channel (grant response t3 1 fails) g1 in
  let a3 := asset_run options (accept payload t4) a2 in
  as_sent (join_discovery beacon) discovery (mkJoinOptions channel None false) ∈ as_history a1 /\
  transmitted (join_challenge attempt challenge (prove beacon challenge)) invitation (addressed channel assetRadio) ∈ history g1 /\
  as_sent (join_response attempt (answer challenge)) response (mkJoinOptions channel (Some gatewayRadio) true) ∈ as_history a2 /\
  transmitted (join_accept acceptance) payload (addressed channel assetRadio) ∈ history g2 /\
  currentStatus a3 = joined (a_gateway_node_id acceptance) g /\
  as_install (a_channel (received_acceptance acceptance)) ∈ as_history a3 /\
  g = generation_of (ao_assetID options) file + 1 /\ generation_of (ao_assetID options) (membership g2) = g /\
  activeOperations g2 = [] /\ as_activeOperations a3 = [] /\ timers a3 = [].
Proof using laws node_laws.
  intros Hn Hl Hb Hc Hf Hd Hi Hr Ha Ht. cbn zeta. pose proof Hb as ((Hat & Hat') & (Has & _) & _).
  assert (Hid : valid_node_id (ao_assetID options) = true).
  { unfold new_asset_join, validateLinkNode in Hn. cbn [LinkTypes.id] in Hn. by destruct (valid_node_id (ao_assetID options)). }
  pose proof (answer_said challenge Hc) as Ha1. pose proof (proof_said beacon challenge Hc) as Hp1.
  pose proof (join_message_read _ _ _ Hb Hd) as Rd.
  pose proof (join_message_read (join_challenge attempt challenge (prove beacon challenge)) _ _ (conj (conj Hat Hat') (conj Hc Hp1)) Hi) as Ri.
  pose proof (join_message_read (join_response attempt (answer challenge)) _ _ (conj (conj Hat Hat') Ha1) Hr) as Rr.
  destruct (admitAsset_prepared _ _ _ _ _ _ _ _ Ha) as [m0 Hm0].
  destruct (prepared_acceptance _ _ _ _ _ _ Hm0) as (E1 & E2 & E3 & E4).
  pose proof (join_message_read (join_accept acceptance) _ _ I E4) as Ra. cbn [received] in Rd, Ri, Rr, Ra.
  pose proof (admit_moves fails (ao_assetID options) (prepare_acceptance channel attempt assetRadio) file Hf Has) as Hm. rewrite Ha in Hm. cbn [uncurry] in Hm.
  destruct (mo_admitted _ _ _ Hm _ _ eq_refl) as (Hg & Hg' & _).
  rewrite (asset_announces s0 discovery now random Hn Hl Hd).
  rewrite (gateway_invites discovery invitation t1 Hid Rd Hi).
  rewrite (asset_identifies invitation response t2 _ Hl Ri Hr).
  rewrite (gateway_grants response fails m' g acceptance payload file' _ t1 t3 _ Rr Ht Ha).
  rewrite (asset_accepts payload (received_acceptance acceptance) t4 _ Hl Ra E1 E3).
  cbn [as_history history currentStatus membership activeOperations as_activeOperations timers app].
  split; [right; left |]. split; [left |]. split; [left |]. split; [left |].
  split; [cbn [received_acceptance a_gateway_node_id a_source_generation]; by rewrite E2 |]. split; [right; right; left |]. done.
Qed.
End exchange.
