(* ===== verification/JoinSample.v ===== *)
(** * A join, evaluated

    An Asset and a Gateway that cooperate, with the payload budget of the
    radio: the theorems on joining at concrete inputs, and a join that a late
    verdict undoes. *)

From Stdlib Require Import ZArith Lia String Sorted.
From stdpp Require Import base list option.
From S2P Require Import Prelude JsMap BinaryIO Wtf8 Json Utf8Text CompactValue Base64 LinkTypes Frame FrameJson Contract PatchFacts JsState Doubles JoinWire Membership JoinPolicy JoinGateway JoinGatewayFacts JoinAsset JoinAssetFacts JoinExchange.

Open Scope string_scope.
Open Scope list_scope.
Open Scope Z_scope.

(** ** Surroundings *)

#[export] Instance sample_node : NodeBuffer := {| from_base64url := base64url_decode |}.
#[export] Instance sample_node_laws : NodeBufferLaws.
Proof. split. exact base64url_roundtrip. Qed.
#[export] Instance sample_radio : JoinRadio := {| max_payload_bytes := 231; radio_maxPayloadBytes := None |}.
#[export] Instance sample_policy : AuthenticationPolicy := CooperativeAuthenticationPolicy.

Definition no_failure (step : io_step) : bool := false.
Definition sync_failure (step : io_step) : bool := bool_decide (step = io_sync_directory).

Definition sample_options : AssetJoinOptions :=
  mkAssetJoin (js "drone-7") 7 (js "session-1") None (js "0123456789abcdef0123456789abcdef") 1000 (fun _ => false).

Definition sample_membership : fields :=
  [(js "gateway_node_id", JString (js "base")); (js "channel_index", json_int 1); (js "channel_name", JString (js "ATLAS"));
   (js "channel_key_base64", JString (js "AAAAAAAAAAAAAAAAAAAAAA=="))].

Definition sample_file : membership_file :=
  Eval vm_compute in snd (initialize no_failure sample_membership true file_missing).

Definition sample_challenge : list Z := js "fedcba9876543210fedcba9876543210".

Definition payload_of (r : result (list Z)) : list Z := match r with Ok l => l | Throw _ => [] end.

Definition sample_discovery : list Z := Eval vm_compute in payload_of (encodeJoinMessage (join_discovery (asset_beacon sample_options)) 231).
Definition sample_invitation : list Z :=
  Eval vm_compute in payload_of (encodeJoinMessage (join_challenge (ao_joinAttemptID sample_options) sample_challenge sample_challenge) 231).
Definition sample_response : list Z :=
  Eval vm_compute in payload_of (encodeJoinMessage (join_response (ao_joinAttemptID sample_options) sample_challenge) 231).

Definition sample_acceptance : JoinAcceptance :=
  mkAcceptance (ao_joinAttemptID sample_options) (js "base") 1 revision (mkChannel 1 ATLAS (js "AAAAAAAAAAAAAAAAAAAAAA==")).
Definition sample_payload : list Z := Eval vm_compute in payload_of (encodeJoinMessage (join_accept sample_acceptance) 231).

Lemma sample_said s : is_jsstr (js s) /\ filled (js s) = true -> said (js s).
Proof. done. Qed.

Lemma sample_beacon_sayable : sayable (join_discovery (asset_beacon sample_options)).
Proof. repeat split; try apply js_units; vm_compute; congruence. Qed.

Lemma sample_membership_wf : wf_json (JObject sample_membership).
Proof.
  apply wf_object; [apply (bool_decide_unpack (NoDup _)); by vm_compute |].
  repeat constructor; try apply js_units; by vm_compute.
Qed.

Lemma sample_file_ok : file_ok sample_file.
Proof.
  change sample_file with (snd (store_step (op_initialize sample_membership true, no_failure) file_missing)).
  exact (mo_ok _ _ _ (initialize_moves no_failure sample_membership true file_missing I sample_membership_wf)).
Qed.

(** ** Witnesses *)

Lemma join_message_roundtrip_witness :
  sayable (join_accept sample_acceptance) /\ encodeJoinMessage (join_accept sample_acceptance) 231 = Ok sample_payload /\
  zlen sample_payload <= 231 /\ decodeJoinMessage sample_payload = Some (JoinWire.received (join_accept sample_acceptance)).
Proof.
  assert (E : encodeJoinMessage (join_accept sample_acceptance) 231 = Ok sample_payload) by (by vm_compute).
  split; [exact I |]. split; [exact E |]. exact (join_message_roundtrip (join_accept sample_acceptance) 231 sample_payload I E).
Defined.

(** A failure after the rename keeps the generation, which is not used again. *)
Definition sample_ops : list (store_op * (io_step -> bool)) :=
  let admit_drone := op_admit (js "drone-7") (fun _ _ => Ok tt) in
  [(op_initialize sample_membership true, no_failure); (op_activate, no_failure); (admit_drone, no_failure);
   (admit_drone, sync_failure); (admit_drone, no_failure)].

Lemma generations_only_grow_witness :
  store_run sample_ops file_missing = [gave_file; gave_activation 1; gave_admission (js "drone-7") 1; gave_nothing; gave_admission (js "drone-7") 3] /\
  (forall a, StronglySorted Z.lt (admissions a (store_run sample_ops file_missing))) /\ StronglySorted Z.lt (activations (store_run sample_ops file_missing)).
Proof.
  split; [by vm_compute |]. apply (generations_only_grow sample_ops file_missing); [| exact I].
  unfold sample_ops. apply List.Forall_cons; [exact sample_membership_wf |]. apply List.Forall_cons; [exact I |].
  repeat (apply List.Forall_cons; [apply js_units |]). apply List.Forall_nil.
Defined.

Definition sample_gateway_events : list event :=
  invite sample_options sample_challenge sample_discovery 1000 ++ grant sample_options sample_challenge sample_response 2000 1 no_failure.

(** What had happened at the Gateway when the acceptance went out. *)
Definition sample_past : list entry := Eval vm_compute in tail (history (run 0 sample_gateway_events (new_gateway_join sample_file))).

Lemma acceptance_only_when_admitted_witness :
  history (run 0 sample_gateway_events (new_gateway_join sample_file)) =
    [] ++ transmitted (join_accept sample_acceptance) sample_payload (mkJoinOptions 0 (Some 7) true) :: sample_past /\
  exists packet p response, decodeJoinMessage (jp_payload packet) = Some (join_response (a_join_attempt_id sample_acceptance) response) /\
    judged (pj_beacon p) (pj_challenge p) response true ∈ sample_past /\
    enrolled (b_asset_id (pj_beacon p)) (a_source_generation sample_acceptance) ∈ sample_past.
Proof.
  assert (E : history (run 0 sample_gateway_events (new_gateway_join sample_file)) =
    [] ++ transmitted (join_accept sample_acceptance) sample_payload (mkJoinOptions 0 (Some 7) true) :: sample_past) by (vm_compute; reflexivity).
  split; [exact E |].
  destruct (acceptance_only_when_admitted 0 sample_file sample_gateway_events sample_acceptance sample_payload (mkJoinOptions 0 (Some 7) true) [] sample_past E)
    as (destination & packet & p & response & discovery & _ & _ & _ & _ & _ & _ & _ & _ & _ & _ & _ & H1 & H2 & H3).
  exists packet, p, response. split; [exact H1 |]. split; [exact H2 | exact H3].
Defined.

Definition sample_asset : asset_join := mkAssetState true None [] 0 None false discovering [] 0 [].
Definition sample_start : num := n_lit 1 4.

Lemma sample_asset_new : new_asset_join sample_options = Ok sample_asset.
Proof. by vm_compute. Qed.

(** The events of the Asset in the exchange of [sample_gateway]. *)
Definition sample_asset_events : list asset_event :=
  announce 1000 sample_start ++ identify sample_options 99 sample_challenge sample_invitation 1500 ++ accept sample_options 99 sample_payload 2500.

Definition sample_asset_past : list asset_entry :=
  Eval vm_compute in drop 3 (as_history (asset_run sample_options sample_asset_events sample_asset)).

Lemma installs_only_from_verified_gateway_witness :
  as_history (asset_run sample_options sample_asset_events sample_asset) =
    [as_status (joined (js "base") 1); as_cancelled 0] ++ as_install (a_channel sample_acceptance) :: sample_asset_past /\
  exists source acceptance invitation challenge proof since before, a_channel acceptance = a_channel sample_acceptance /\
    sample_asset_past = since ++ as_verified challenge proof true :: before /\ jp_radio_source invitation = Some source /\
    as_heard invitation ∈ before.
Proof.
  assert (E : as_history (asset_run sample_options sample_asset_events sample_asset) =
    [as_status (joined (js "base") 1); as_cancelled 0] ++ as_install (a_channel sample_acceptance) :: sample_asset_past) by (vm_compute; reflexivity).
  split; [exact E |].
  destruct (installs_only_from_verified_gateway sample_options sample_asset sample_asset_events (a_channel sample_acceptance)
    [as_status (joined (js "base") 1); as_cancelled 0] sample_asset_past sample_asset_new E)
    as (source & acceptance & offer & invitation & challenge & proof & since & before & H1 & _ & _ & _ & _ & _ & _ & H2 & _ & H3 & _ & _ & H4).
  exists source, acceptance, invitation, challenge, proof, since, before. split; [exact H1 |]. split; [exact H2 |]. split; [exact H4 | exact H3].
Defined.

(** The first of its sends failed: the timer of the next is armed. *)
Lemma goes_on_announcing_witness :
  let s := asset_run sample_options (as_start 1000 sample_start :: [as_reply 0 (as_unit (Throw (PlainError "radio")))]) sample_asset in
  isWaitingToJoin s = true /\ (armed s \/ announcing s) /\ timers s = [0].
Proof.
  cbn zeta. split; [vm_compute; reflexivity |]. split; [| vm_compute; reflexivity].
  apply (goes_on_announcing sample_options sample_asset 1000 sample_start [as_reply 0 (as_unit (Throw (PlainError "radio")))]).
  - exact sample_asset_new.
  - reflexivity.
  - vm_compute. reflexivity.
  - intros g n H. vm_compute in H.
    repeat (apply elem_of_cons in H as [H | H]; [discriminate H |]). by apply elem_of_nil in H.
Defined.

Definition sample_admission : result (fields * Z * (JoinAcceptance * list Z)) * membership_file :=
  Eval vm_compute in admitAsset no_failure (ao_assetID sample_options) (prepare_acceptance 0 (ao_joinAttemptID sample_options) 7) sample_file.

Lemma one_exchange_joins_witness :
  let a3 := asset_run sample_options (accept sample_options 99 sample_payload 2500)
    (asset_run sample_options (identify sample_options 99 sample_challenge sample_invitation 1500)
      (asset_run sample_options (announce 1000 sample_start) sample_asset)) in
  currentStatus a3 = joined (js "base") 1 /\ 1 = generation_of (js "drone-7") sample_file + 1.
Proof.
  cbn zeta.
  destruct (one_exchange_joins sample_options 99 sample_file sample_challenge sample_asset 1000 sample_start sample_discovery sample_invitation sample_response
    sample_acceptance sample_payload (match fst sample_admission with Ok (m, _, _) => m | Throw _ => [] end) 1 (snd sample_admission) no_failure 1000 1500 2000 2500)
    as (_ & _ & _ & _ & H1 & _ & H2 & _).
  - exact sample_asset_new.
  - reflexivity.
  - exact sample_beacon_sayable.
  - split; [apply js_units | vm_compute; reflexivity].
  - exact sample_file_ok.
  - vm_compute. reflexivity.
  - vm_compute. reflexivity.
  - vm_compute. reflexivity.
  - vm_compute. reflexivity.
  - vm_compute. reflexivity.
  - split; [exact H1 | exact H2].
Defined.

(** ** A join that is undone

    The Gateway repeats its challenge, as it does when it hears an announcement
    again, and the verdict on the second one comes after the first has led to
    the membership: the status goes back to [authenticating], with no timer
    armed. *)
Definition hasty_join : list asset_event :=
  announce 1000 sample_start ++
  [as_packet (arrives sample_options sample_invitation 99 1500 true); as_packet (arrives sample_options sample_invitation 99 1501 true);
   as_reply 1 (as_bool (Ok true)); as_reply 1 (as_text (Ok sample_challenge)); as_reply 1 (as_unit (Ok tt));
   as_packet (arrives sample_options sample_payload 99 2500 true); as_reply 3 (as_unit (Ok tt))].

Lemma late_verdict_undoes_join :
  let s := asset_run sample_options hasty_join sample_asset in
  let s' := asset_step sample_options (as_reply 2 (as_bool (Ok true))) s in
  currentStatus s = joined (js "base") 1 /\ currentStatus s' = authenticating /\ timers s' = [].
Proof. vm_compute. done. Qed.
