(* ===== verification/Profile.v ===== *)
(** * Radio profiles ([profile.ts])

    The settings Atlas owns on a radio: which profiles are accepted, how a
    radio's configuration differs from one, and the manager that brings a radio
    to its profile and its private channel.  The manager runs its operations
    one after the other; the radio is reached through an adapter. *)

From Stdlib Require Import ZArith Lia String.
From stdpp Require Import base list option.
From S2P Require Import Prelude JsMap BinaryIO Wtf8 Json CompactValue Base64 LinkTypes Frame Contract JsState JoinWire.

Open Scope string_scope.
Open Scope list_scope.
Open Scope Z_scope.

Definition PUBLIC_RENDEZVOUS_CHANNEL_NAME : string := "ATLAS-RDV".

(** ** Profiles

    Every other member of the type [RadioProfile] is a literal. *)
Inductive ModemPreset := SHORT_FAST | SHORT_TURBO.

Record RadioProfile := mkProfile {
  rp_tested : list Z; rp_modem_preset : ModemPreset; rp_frequency_slot : Z; rp_private_index : Z
}.

Definition preset_name (p : ModemPreset) : string := match p with SHORT_FAST => "SHORT_FAST" | SHORT_TURBO => "SHORT_TURBO" end.

Record RadioChannel := mkRadioChannel {
  rc_index : Z; rc_name : list Z; rc_role : list Z; rc_key_base64 : list Z; rc_uplink : bool; rc_downlink : bool
}.

Record ActualRadioConfiguration := mkActual {
  ac_hardware_model : list Z;
  ac_firmware_version : list Z;
  ac_region : list Z;
  ac_use_preset : bool;
  ac_modem_preset : list Z;
  ac_hop_limit : Z;
  ac_device_role : list Z;
  ac_rebroadcast_mode : list Z;
  ac_frequency_slot : Z;
  ac_override_frequency : Z;
  ac_tx_power : Z;
  ac_power_saving : bool;
  ac_remote_administration : bool;
  ac_managed_mode : bool;
  ac_native_position : bool;
  ac_native_telemetry : bool;
  ac_mqtt : bool;
  ac_public_channel : RadioChannel;
  ac_private_channel : Z * list Z
}.

(** ** Firmware *)

Fixpoint take_digits (s : list Z) : list Z * list Z :=
  match s with
  | c :: r => if (48 <=? c) && (c <=? 57) then let '(d, r) := take_digits r in (c :: d, r) else ([], s)
  | [] => ([], [])
  end.

Definition decimal_value (ds : list Z) : Z := fold_left (fun v d => v * 10 + (d - 48)) ds 0.

Definition is_line_end (c : Z) : bool := (c =? 10) || (c =? 13) || (c =? 0x2028) || (c =? 0x2029).

(** Three decimal numbers between dots, then nothing or a dot or a dash and the
    rest of the line. *)
Definition version_parts (s : list Z) : result (list Z) :=
  let invalid := Throw (TypeError "invalid Meshtastic firmware version") in
  let '(a, r) := take_digits s in
  match a, r with
  | _ :: _, 46 :: r =>
      let '(b, r) := take_digits r in
      match b, r with
      | _ :: _, 46 :: r =>
          let '(c, r) := take_digits r in
          match c with
          | _ :: _ =>
              let parts := Ok [decimal_value a; decimal_value b; decimal_value c] in
              match r with
              | [] => parts
              | x :: r => if ((x =? 46) || (x =? 45)) && negb (existsb is_line_end r) then parts else invalid
              end
          | [] => invalid
          end
      | _, _ => invalid
      end
  | _, _ => invalid
  end.

(** The sign of the first difference; parts are compared as integers. *)
Fixpoint compare_parts (l r : list Z) : Z :=
  match l, r with
  | a :: l, b :: r => if a - b =? 0 then compare_parts l r else a - b
  | _, _ => 0
  end.

Definition compareVersions (left_ right_ : list Z) : result Z :=
  let! l := version_parts left_ in let! r := version_parts right_ in Ok (compare_parts l r).

Definition MINIMUM_FIRMWARE : list Z := js "2.7.15".

Definition assertSupportedFirmware (actual tested : list Z) : result unit :=
  let! order := compareVersions actual MINIMUM_FIRMWARE in
  guard! negb (order <? 0) else PlainError "Meshtastic firmware is older than required 2.7.15" in
  guard! bool_decide (actual = tested) else PlainError "Meshtastic firmware is not the tested deployment release" in
  Ok tt.

(** ** Accepted profiles *)

Definition is_false (v : option json) : bool := match v with Some (JBool false) => true | _ => false end.
Definition is_integer (v : option json) (n : Z) : bool := bool_decide (json_integer v = Some n).
Definition object_of (v : option json) : option fields := match v with Some (JObject m) => Some m | _ => None end.

Definition validateRadioProfile (profile : json) : result RadioProfile :=
  match profile with
  | JObject p =>
      match object_of (prop p "firmware"), object_of (prop p "public_channel"), object_of (prop p "private_channel") with
      | Some firmware, Some public, Some private_ =>
          guard! is_text (prop p "region") "US" else TypeError "the accepted initial Radio profile region is US" in
          guard! is_text (prop p "modem_preset") "SHORT_FAST" || is_text (prop p "modem_preset") "SHORT_TURBO"
            else TypeError "the accepted modem presets are SHORT_FAST and explicit SHORT_TURBO experiments" in
          guard! is_integer (prop p "hop_limit") 3 && is_text (prop p "device_role") "CLIENT" && is_text (prop p "rebroadcast_mode") "LOCAL_ONLY"
            else TypeError "the common profile requires hop limit 3, CLIENT, and LOCAL_ONLY" in
          guard! integer_in 1 (prop p "frequency_slot") else TypeError "the US frequency slot must be selected explicitly" in
          guard! is_integer (prop p "tx_power") 0 && is_false (prop p "power_saving") && is_false (prop p "remote_administration") &&
                 is_false (prop p "managed_mode") && is_false (prop p "native_position") && is_false (prop p "native_telemetry") &&
                 is_false (prop p "mqtt")
            else TypeError "Radio profile enables behavior excluded by the accepted architecture" in
          guard! is_integer (prop public "index") 0 && is_text (prop public "name") PUBLIC_RENDEZVOUS_CHANNEL_NAME &&
                 is_text (prop public "role") "PRIMARY" && is_text (prop public "key_base64") "AQ==" && is_false (prop public "uplink") &&
                 is_false (prop public "downlink") && integer_between 1 7 (prop private_ "index") && is_text (prop private_ "name") "ATLAS"
            else TypeError "Radio profile channel layout is invalid" in
          match is_text (prop firmware "minimum") "2.7.15", json_string (prop firmware "tested") with
          | true, Some tested =>
              let! _ := assertSupportedFirmware tested tested in
              Ok (mkProfile tested (if is_text (prop p "modem_preset") "SHORT_FAST" then SHORT_FAST else SHORT_TURBO)
                   (default 0 (json_integer (prop p "frequency_slot"))) (default 0 (json_integer (prop private_ "index"))))
          | _, _ => Throw (TypeError "Radio profile firmware gate is invalid")
          end
      | _, _, _ => Throw (TypeError "Radio profile must contain firmware and channel settings")
      end
  | _ => Throw (TypeError "Radio profile must contain firmware and channel settings")
  end.

(** The object such a profile is. *)
Definition profile_json (p : RadioProfile) : json :=
  let text s := JString (js s) in
  JObject
    [(js "firmware", JObject [(js "minimum", text "2.7.15"); (js "tested", JString (rp_tested p))]);
     (js "region", text "US"); (js "modem_preset", text (preset_name (rp_modem_preset p))); (js "hop_limit", json_int 3);
     (js "device_role", text "CLIENT"); (js "rebroadcast_mode", text "LOCAL_ONLY"); (js "frequency_slot", json_int (rp_frequency_slot p));
     (js "tx_power", json_int 0); (js "power_saving", JBool false); (js "remote_administration", JBool false); (js "managed_mode", JBool false);
     (js "native_position", JBool false); (js "native_telemetry", JBool false); (js "mqtt", JBool false);
     (js "public_channel", JObject [(js "index", json_int 0); (js "name", text PUBLIC_RENDEZVOUS_CHANNEL_NAME); (js "role", text "PRIMARY");
        (js "key_base64", text "AQ=="); (js "uplink", JBool false); (js "downlink", JBool false)]);
     (js "private_channel", JObject [(js "index", json_int (rp_private_index p)); (js "name", text "ATLAS")])].

Definition createUSShortFastProfile (frequencySlot : Z) (testedFirmware : list Z) : result RadioProfile :=
  validateRadioProfile (profile_json (mkProfile testedFirmware SHORT_FAST frequencySlot 1)).

(** ** Differences *)

Inductive setting := set_text (s : list Z) | set_number (n : Z) | set_flag (b : bool).
#[export] Instance setting_eq_dec : EqDecision setting.
Proof. solve_decision. Defined.

Record ConfigurationDifference := mkDifference { df_path : string; df_desired : setting; df_actual : setting }.

Definition compareOwned (path : string) (desired actual : setting) : list ConfigurationDifference :=
  if bool_decide (desired = actual) then [] else [mkDifference path desired actual].

Definition profileDifferences (desired : RadioProfile) (actual : ActualRadioConfiguration) : list ConfigurationDifference :=
  let text s := set_text (js s) in
  let public := ac_public_channel actual in
  compareOwned "region" (text "US") (set_text (ac_region actual)) ++
  compareOwned "use_preset" (set_flag true) (set_flag (ac_use_preset actual)) ++
  compareOwned "modem_preset" (text (preset_name (rp_modem_preset desired))) (set_text (ac_modem_preset actual)) ++
  compareOwned "hop_limit" (set_number 3) (set_number (ac_hop_limit actual)) ++
  compareOwned "device_role" (text "CLIENT") (set_text (ac_device_role actual)) ++
  compareOwned "rebroadcast_mode" (text "LOCAL_ONLY") (set_text (ac_rebroadcast_mode actual)) ++
  compareOwned "frequency_slot" (set_number (rp_frequency_slot desired)) (set_number (ac_frequency_slot actual)) ++
  compareOwned "override_frequency" (set_number 0) (set_number (ac_override_frequency actual)) ++
  (if negb (ac_tx_power actual =? 0) && negb (bool_decide (ac_region actual = js "US") && (ac_tx_power actual =? 30))
   then compareOwned "tx_power" (set_number 0) (set_number (ac_tx_power actual)) else []) ++
  compareOwned "power_saving" (set_flag false) (set_flag (ac_power_saving actual)) ++
  compareOwned "remote_administration" (set_flag false) (set_flag (ac_remote_administration actual)) ++
  compareOwned "managed_mode" (set_flag false) (set_flag (ac_managed_mode actual)) ++
  compareOwned "native_position" (set_flag false) (set_flag (ac_native_position actual)) ++
  compareOwned "native_telemetry" (set_flag false) (set_flag (ac_native_telemetry actual)) ++
  compareOwned "mqtt" (set_flag false) (set_flag (ac_mqtt actual)) ++
  compareOwned "public_channel.index" (set_number 0) (set_number (rc_index public)) ++
  compareOwned "public_channel.name" (text PUBLIC_RENDEZVOUS_CHANNEL_NAME) (set_text (rc_name public)) ++
  compareOwned "public_channel.role" (text "PRIMARY") (set_text (rc_role public)) ++
  compareOwned "public_channel.key_base64" (text "AQ==") (set_text (rc_key_base64 public)) ++
  compareOwned "public_channel.uplink" (set_flag false) (set_flag (rc_uplink public)) ++
  compareOwned "public_channel.downlink" (set_flag false) (set_flag (rc_downlink public)).

#[export] Instance PrivateChannelMembership_eq_dec : EqDecision PrivateChannelMembership.
Proof. solve_decision. Defined.

Definition sameMembership (left_ right_ : PrivateChannelMembership) : bool :=
  (channel_index left_ =? channel_index right_) && bool_decide (channel_name left_ = channel_name right_) &&
  bool_decide (channel_key_base64 left_ = channel_key_base64 right_).

(** ** The manager

    An operation is given the profile the manager held when it was called, and
    runs when those called before it have ended. *)

(** [RadioConfigurationAdapter], on a radio in state [D]. *)
Class RadioAdapter (D : Type) := {
  readConfiguration : D -> result ActualRadioConfiguration * D;
  readPrivateMembership : Z -> D -> result (option PrivateChannelMembership) * D;
  applyConfiguration : RadioProfile -> list ConfigurationDifference -> D -> result unit * D;
  clearPrivateMembership : Z -> D -> result unit * D;
  installPrivateMembership : PrivateChannelMembership -> D -> result unit * D
}.

Record ConfigurationEvidence := mkEvidence {
  ev_profile_fingerprint : list Z;
  ev_selected_profile : RadioProfile;
  ev_before : ActualRadioConfiguration;
  ev_requested_changes : list ConfigurationDifference;
  ev_after : option ActualRadioConfiguration;
  ev_verified : bool;
  ev_applied_at : Z;
  ev_error : option js_error
}.

Section manager.
Context {D : Type} {adapter : RadioAdapter D}.

(** The radio, and what the manager keeps besides. *)
Record profile_manager := mkManager { device : D; desired : RadioProfile; lastEvidence : option ConfigurationEvidence }.

#[export] Instance profile_manager_rebuild : Rebuild profile_manager := fun s => mkManager (device s) (desired s) (lastEvidence s).

Definition on_radio {A} (f : D -> result A * D) : eff profile_manager A := fun s => let '(r, d) := f (device s) in (r, s <| device := d |>).

(** [try { m } catch { undefined }], and with what was thrown. *)
Definition attempt_ {A} (m : eff profile_manager A) : eff profile_manager (result A) := fun s => let '(r, s') := m s in (Ok r, s').

(** [createHash("sha256").update(text).digest("hex")] *)
Context (sha256_hex : list Z -> list Z).

Definition profileFingerprint (p : RadioProfile) : result (list Z) :=
  let! text := canonicalJSON (profile_json p) in Ok (js "sha256:" ++ sha256_hex text).

Definition replaceProfile (p : RadioProfile) : eff profile_manager unit :=
  do! current := gets desired in
  if negb (rp_private_index p =? rp_private_index current)
  then throw (TypeError "changing the private-channel slot requires a Link service restart")
  else modify (fun s => s <| desired := p |>).

Definition diff (p : RadioProfile) : eff profile_manager (list ConfigurationDifference) :=
  do! actual := on_radio readConfiguration in ret (profileDifferences p actual).

Definition inspect (p : RadioProfile) : eff profile_manager (ActualRadioConfiguration * list ConfigurationDifference * option ConfigurationEvidence) :=
  do! actual := on_radio readConfiguration in
  do! evidence := gets lastEvidence in
  ret (actual, profileDifferences p actual, evidence).

Definition did_not_converge (remaining : list ConfigurationDifference) : js_error :=
  PlainError (String.append "radio configuration did not converge: " (String.concat ", " (map df_path remaining))).

Definition set_evidence (e : ConfigurationEvidence) : eff profile_manager unit := modify (fun s => s <| lastEvidence := Some e |>).

(** The evidence is one object: an error found after it was kept is seen in
    what was kept. *)
Definition applySelectedProfile (p : RadioProfile) (now : Z) : eff profile_manager ConfigurationEvidence :=
  do! before := on_radio readConfiguration in
  let requestedChanges := profileDifferences p before in
  do! outcome := attempt_
    (do! _ := lift (assertSupportedFirmware (ac_firmware_version before) (rp_tested p)) in
     do! _ := (if (0 <? zlen requestedChanges) then on_radio (applyConfiguration p requestedChanges) else ret tt) in
     on_radio readConfiguration) in
  match outcome with
  | Throw e =>
      do! after := attempt_ (on_radio readConfiguration) in
      do! fingerprint := lift (profileFingerprint p) in
      do! _ := set_evidence (mkEvidence fingerprint p before requestedChanges (try_result after) false now (Some e)) in
      throw e
  | Ok after =>
      let remaining := profileDifferences p after in
      do! fingerprint := lift (profileFingerprint p) in
      let verified := zlen remaining =? 0 in
      let error := if verified then None else Some (did_not_converge remaining) in
      let evidence := mkEvidence fingerprint p before requestedChanges (Some after) verified now error in
      do! _ := set_evidence evidence in
      match error with Some e => throw e | None => ret evidence end
  end.

Definition installMembership (membership : PrivateChannelMembership) (p : RadioProfile) : eff profile_manager unit :=
  if negb (channel_index membership =? rp_private_index p) || negb (bool_decide (channel_name membership = ATLAS))
  then throw (PlainError "membership does not match the selected Radio profile private channel slot")
  else
    do! _ := on_radio (installPrivateMembership membership) in
    do! installed := on_radio (readPrivateMembership (channel_index membership)) in
    match installed with
    | Some c => if sameMembership c membership then ret tt else throw (PlainError "private-channel membership did not match radio readback")
    | None => throw (PlainError "private-channel membership did not match radio readback")
    end.





Definition prepareGateway (membership : PrivateChannelMembership) (p : RadioProfile) (now : Z) : eff profile_manager unit :=
  do! _ := applySelectedProfile p now in
  installMembership membership p.

Definition installAssetMembership (membership : PrivateChannelMembership) (p : RadioProfile) : eff profile_manager unit :=
  installMembership membership p.
End manager.

(** * What the profile manager guarantees ([profile.ts])

    An operation that returns leaves a radio that was read back as asked: every
    owned setting at its value, and the private channels empty or as given. *)

(** ** No difference *)





Section manager.
Context {D : Type} {adapter : RadioAdapter D} (sha256_hex : list Z -> list Z).

Lemma on_radio_ok {A} (f : D -> result A * D) (s : profile_manager) a s' : on_radio f s = (Ok a, s') ->
  f (device s) = (Ok a, device s') /\ lastEvidence s' = lastEvidence s.
Proof using. unfold on_radio. destruct (f (device s)) as [r d]. by intros [= -> <-]. Qed.




(** A refused application says so in the evidence it leaves, if the radio could
    be read at all. *)
Lemma refused_evidence p now s e s' : applySelectedProfile sha256_hex p now s = (Throw e, s') ->
  lastEvidence s' = lastEvidence s \/ exists ev, lastEvidence s' = Some ev /\ ev_verified ev = false /\ ev_error ev = Some e.
Proof using.
  unfold applySelectedProfile, bind_eff at 1. unfold on_radio at 1. destruct (readConfiguration (device s)) as [[before | e0] d0].
  2: { intros [= <- <-]. by left. }
  set (s1 := s <| device := d0 |>). unfold bind_eff at 1, attempt_ at 1.
  destruct (bind_eff (lift _) _ s1) as [r s2] eqn:E.
  assert (Hl : lastEvidence s2 = lastEvidence s).
  { unfold bind_eff, lift, on_radio in E. destruct (assertSupportedFirmware _ _); [| by injection E as <- <-].
    destruct (0 <? _); unfold ret in E; [destruct (applyConfiguration _ _ _) as [[] d1] |]; try (by injection E as <- <-);
      destruct (readConfiguration _) as [r2 d2]; by injection E as <- <-. }
  destruct r as [after | e1].
  - unfold bind_eff, lift. destruct (profileFingerprint _ _); [| intros [= <- <-]; by left]. unfold set_evidence, modify.
    destruct (_ =? _); [done |]. intros [= <- <-]. right. by eexists.
  - unfold bind_eff at 1, attempt_, on_radio. destruct (readConfiguration (device s2)) as [after d3].
    unfold bind_eff, lift. destruct (profileFingerprint _ _); [| intros [= <- <-]; by left]. unfold set_evidence, modify, throw.
    intros [= <- <-]. right. by eexists.
Qed.

(** ** The private channels *)

(** Reading a membership leaves the memberships. *)
Class RadioAdapterLaws : Prop := {
  read_keeps i j d : fst (readPrivateMembership j (snd (readPrivateMembership i d))) = fst (readPrivateMembership j d)
}.
Context {laws : RadioAdapterLaws}.

Definition slot_holds (s : profile_manager) (i : Z) : result (option PrivateChannelMembership) := fst (readPrivateMembership i (device s)).







(** The membership a Gateway or a joined Asset has is what was read back. *)
Lemma installed_is_read_back membership p s s' : installMembership membership p s = (Ok tt, s') ->
  channel_index membership = rp_private_index p /\ channel_name membership = ATLAS /\ slot_holds s' (channel_index membership) = Ok (Some membership).
Proof using laws.
  unfold installMembership, slot_holds. destruct (negb _ || _) eqn:Eb; [done |]. reflect_tests. intros Hrun.
  apply bind_eff_inv in Hrun as ([] & s1 & H1 & Hrun). apply bind_eff_inv in Hrun as (held & s2 & H2 & Hrun). apply on_radio_ok in H2 as [H2 _].
  destruct held as [c |]; [| done]. destruct (sameMembership c membership) eqn:Es; [| done]. injection Hrun as <-.
  unfold sameMembership in Es. reflect_tests. assert (c = membership) as -> by (destruct c, membership; cbn in *; congruence).
  split; [done |]. split; [done |]. pose proof (read_keeps (channel_index membership) (channel_index membership) (device s1)) as Hr. by rewrite H2 in Hr.
Qed.
End manager.

(** * A radio prepared, evaluated

    A radio that does what it is told, with settings of its own and a channel
    left from another membership. *)

(** ** The radio *)

Definition bench_radio : Type := ActualRadioConfiguration * list PrivateChannelMembership.

Definition obeying (p : RadioProfile) (a : ActualRadioConfiguration) : ActualRadioConfiguration :=
  mkActual (ac_hardware_model a) (ac_firmware_version a) (js "US") true (js (preset_name (rp_modem_preset p))) 3 (js "CLIENT") (js "LOCAL_ONLY")
    (rp_frequency_slot p) 0 30 false false false false false false
    (mkRadioChannel 0 (js PUBLIC_RENDEZVOUS_CHANNEL_NAME) (js "PRIMARY") (js "AQ==") false false) (ac_private_channel a).

Definition in_slot (index : Z) (m : PrivateChannelMembership) : bool := channel_index m =? index.

#[export] Instance bench_adapter : RadioAdapter bench_radio := {|
  readConfiguration := fun d => (Ok (fst d), d);
  readPrivateMembership := fun index d => (Ok (List.find (in_slot index) (snd d)), d);
  applyConfiguration := fun p _ d => (Ok tt, (obeying p (fst d), snd d));
  clearPrivateMembership := fun index d => (Ok tt, (fst d, List.filter (fun m => negb (in_slot index m)) (snd d)));
  installPrivateMembership := fun m d =>
    (Ok tt, (fst d, m :: List.filter (fun o => negb (in_slot (channel_index m) o)) (snd d)))
|}.

#[export] Instance bench_laws : RadioAdapterLaws.
Proof. split. done. Qed.

Definition bench_hex (text : list Z) : list Z := js "00".

(** ** A profile and what the radio had *)

Definition bench_profile : RadioProfile := mkProfile (js "2.7.15.567b8ea") SHORT_FAST 9 1.

Lemma bench_profile_valid : validateRadioProfile (profile_json bench_profile) = Ok bench_profile.
Proof. vm_compute. reflexivity. Qed.

Definition bench_before : ActualRadioConfiguration :=
  mkActual (js "T1000E") (js "2.7.15.567b8ea") (js "EU_868") true (js "LONG_FAST") 5 (js "CLIENT") (js "ALL") 0 0 27
    true true false true true false (mkRadioChannel 0 (js "LongFast") (js "PRIMARY") (js "AQ==") true true) (1, js "ATLAS").




(** A radio with an older firmware is not written to. *)
Lemma old_firmware_refused :
  let s := mkManager ((bench_before, []) : bench_radio) (mkProfile (js "2.7.16") SHORT_FAST 9 1) None in
  let '(r, s') := applySelectedProfile bench_hex (desired s) 1000 s in
  r = Throw (PlainError "Meshtastic firmware is not the tested deployment release") /\ device s' = device s.
Proof. vm_compute. done. Qed.

(** ** Versions *)

Lemma versions_compare :
  compareVersions (js "2.10.0") (js "2.7.15") = Ok 3 /\ compareVersions (js "2.7.15-rc1") (js "2.7.15.abc") = Ok 0 /\
  version_parts (js "v2.7.15") = Throw (TypeError "invalid Meshtastic firmware version").
Proof. vm_compute. done. Qed.
