(* ===== verification/Telemetry.v ===== *)
(** * Telemetry on a phase of its own ([telemetry-publisher.ts])

    The publisher takes a sample of its application at the points of a grid of
    times and publishes it, one at a time.  [sample], [publish] and [onError]
    are the application's: they may return, throw, or promise, and may start
    and stop the publisher and take time before they do.  The clock reads what
    it reads, also earlier than before, and a timer may fire at any time.  Times
    are integers, as the clocks of [clock.ts] give them. *)

From Stdlib Require Import ZArith Lia String.
From stdpp Require Import base list option sets.
From S2P Require Import Prelude JsMap JsState Json SdkSubscriptions.

Open Scope string_scope.
Open Scope list_scope.
Open Scope Z_scope.

(** ** The grid *)

Definition validateNodeID (nodeID : list Z) : result unit :=
  guard! negb (bool_decide (SdkSubscriptions.trim nodeID = [])) else TypeError "telemetry node ID must not be empty" in Ok tt.

Definition validatePeriod (periodMs : Z) : result unit :=
  guard! isSafeInteger periodMs && negb (periodMs <? 1) else RangeError "telemetry period must be a positive safe integer" in Ok tt.

(** Modulo [2^32]: [Math.imul] and [^] see the bits alone, [>>> 0] reads them
    without a sign. *)
Definition stableHash (value : list Z) : Z :=
  fold_left (fun hash unit => (Z.lxor hash unit * 16777619) mod 2 ^ 32) value 2166136261.

Definition telemetryPhaseMs (nodeID : list Z) (periodMs : Z) : result Z :=
  let! _ := validateNodeID nodeID in
  let! _ := validatePeriod periodMs in
  Ok (stableHash nodeID mod periodMs).

Definition nextEmissionAt (now phaseMs periodMs : Z) : Z :=
  if now <=? phaseMs then phaseMs else phaseMs + ((now - phaseMs) / periodMs + 1) * periodMs.

Definition nextEmissionAfter (targetAt now periodMs : Z) : Z :=
  let next := targetAt + periodMs in
  if next <=? now then next + ((now - next) / periodMs + 1) * periodMs else next.

(** ** The application *)

Section telemetry.
Context {P : Type}.

(** What it does before it answers, and the answer.  A promise is kept later. *)
Inductive telemetry_call := call_start | call_stop | call_clock (now : Z).

Inductive telemetry_outcome (A : Type) :=
  | gives (a : A)
  | promised
  | throws (e : js_error)
  | then_throws (e : js_error).
Arguments gives {A} a.
Arguments promised {A}.
Arguments throws {A} e.
Arguments then_throws {A} e.

Record telemetry_application := mkApplication {
  app_sample : list telemetry_call * telemetry_outcome P;
  app_publish : P -> list telemetry_call * telemetry_outcome unit;
  app_onError : list telemetry_call
}.

(** ** The publisher *)

(** What a promise goes on with. *)
Inductive telemetry_awaited :=
  | aw_sample (generation sampledAt : Z)
  | aw_publish (generation : Z).

(** What happened, the newest first. *)
Inductive telemetry_entry :=
  | tm_started (generation : Z)
  | tm_stopped
  | tm_armed (delay target : Z)
  | tm_sampled (generation sampledAt : Z)
  | tm_published (generation sampledAt now : Z) (publication : P)
  | tm_error (e : js_error).

Record telemetry := mkTelemetry {
  tm_now : Z;
  tm_timers : list (Z * (Z * Z));
  tm_timers_made : Z;
  timer : option Z;
  generation : Z;
  pendingGeneration : option Z;
  runningState : bool;
  tm_promises : list (Z * telemetry_awaited);
  tm_promises_made : Z;
  tm_history : list telemetry_entry
}.

#[export] Instance telemetry_rebuild : Rebuild telemetry :=
  fun s => mkTelemetry (tm_now s) (tm_timers s) (tm_timers_made s) (timer s) (generation s) (pendingGeneration s) (runningState s)
    (tm_promises s) (tm_promises_made s) (tm_history s).

Context (phaseMs periodMs : Z).

Definition newPublisher (now : Z) : telemetry := mkTelemetry now [] 0 None 0 None false [] 0 [].

Definition tell (e : telemetry_entry) (s : telemetry) : telemetry := s <| tm_history ::= cons e |>.

Definition isCurrent (g : Z) (s : telemetry) : bool := runningState s && (generation s =? g).

Definition schedule (g targetAt : Z) (s : telemetry) : telemetry :=
  if negb (isCurrent g s) then s
  else
    tell (tm_armed (Z.max 0 (targetAt - tm_now s)) targetAt)
      (s <| tm_timers ::= jset (tm_timers_made s) (g, targetAt) |> <| timer := Some (tm_timers_made s) |> <| tm_timers_made ::= fun n => n + 1 |>).

Definition start (s : telemetry) : telemetry :=
  if runningState s then s
  else
    let g := generation s + 1 in
    let s := tell (tm_started g) (s <| runningState := true |> <| generation := g |>) in
    schedule g (nextEmissionAt (tm_now s) phaseMs periodMs) s.

Definition cancel_timer (h : Z) (s : telemetry) : telemetry := s <| tm_timers ::= jdel h |>.

Definition stop (s : telemetry) : telemetry :=
  if negb (runningState s) && bool_decide (timer s = None) then s
  else
    let s := tell tm_stopped (s <| runningState := false |> <| generation ::= fun g => g + 1 |>) in
    let s := match timer s with Some h => cancel_timer h s | None => s end in
    s <| timer := None |>.

Definition obey (c : telemetry_call) (s : telemetry) : telemetry :=
  match c with call_start => start s | call_stop => stop s | call_clock now => s <| tm_now := now |> end.
Definition obey_all (cs : list telemetry_call) (s : telemetry) : telemetry := fold_left (fun s c => obey c s) cs s.

Definition complete (g : Z) (s : telemetry) : telemetry :=
  if bool_decide (pendingGeneration s = Some g) then s <| pendingGeneration := None |> else s.

(** [reportError] catches what [onError] throws. *)
Definition fail_ (app : telemetry_application) (g : Z) (e : js_error) (s : telemetry) : telemetry :=
  complete g (if isCurrent g s then obey_all (app_onError app) (tell (tm_error e) s) else s).

Definition await_promise (w : telemetry_awaited) (s : telemetry) : telemetry :=
  s <| tm_promises ::= jset (tm_promises_made s) w |> <| tm_promises_made ::= fun n => n + 1 |>.

Definition publishSample (app : telemetry_application) (g sampledAt : Z) (publication : P) (s : telemetry) : telemetry :=
  if negb (isCurrent g s) then complete g s
  else if periodMs <=? tm_now s - sampledAt then complete g s
  else
    let s := tell (tm_published g sampledAt (tm_now s) publication) s in
    let '(cs, out) := app_publish app publication in
    let s := obey_all cs s in
    match out with
    | gives _ => complete g s
    | promised => await_promise (aw_publish g) s
    | throws e | then_throws e => fail_ app g e s
    end.

Definition emit (app : telemetry_application) (g : Z) (s : telemetry) : telemetry :=
  if negb (isCurrent g s) || negb (bool_decide (pendingGeneration s = None)) then s
  else
    let sampledAt := tm_now s in
    let s := tell (tm_sampled g sampledAt) (s <| pendingGeneration := Some g |>) in
    let '(cs, out) := app_sample app in
    let s := obey_all cs s in
    match out with
    | gives publication => publishSample app g sampledAt publication s
    | promised => await_promise (aw_sample g sampledAt) s
    | throws e | then_throws e => fail_ app g e s
    end.

(** The callback that [schedule] gives the clock. *)
Definition fired (app : telemetry_application) (g targetAt : Z) (s : telemetry) : telemetry :=
  if negb (isCurrent g s) then s
  else emit app g (schedule g (nextEmissionAfter targetAt (tm_now s) periodMs) (s <| timer := None |>)).

(** ** What happens to it *)

Inductive settlement :=
  | sample_settles (r : result P)
  | publish_settles (r : result unit).

Inductive telemetry_event :=
  | ev_call (c : telemetry_call)
  | ev_fire (timer : Z) (app : telemetry_application)
  | ev_settle (promise : Z) (r : settlement) (app : telemetry_application).

Definition tm_step (e : telemetry_event) (s : telemetry) : telemetry :=
  match e with
  | ev_call c => obey c s
  | ev_fire h app =>
      match jget h (tm_timers s) with
      | Some (g, targetAt) => fired app g targetAt (cancel_timer h s)
      | None => s
      end
  | ev_settle i r app =>
      let rest := s <| tm_promises ::= jdel i |> in
      match jget i (tm_promises s), r with
      | Some (aw_sample g sampledAt), sample_settles (Ok publication) => publishSample app g sampledAt publication rest
      | Some (aw_publish g), publish_settles (Ok _) => complete g rest
      | Some (aw_sample g _), sample_settles (Throw e) | Some (aw_publish g), publish_settles (Throw e) => fail_ app g e rest
      | _, _ => s
      end
  end.

Definition tm_run (es : list telemetry_event) (s : telemetry) : telemetry := fold_left (fun s e => tm_step e s) es s.
End telemetry.
Arguments gives {A} a.
Arguments promised {A}.
Arguments throws {A} e.
Arguments then_throws {A} e.
Arguments telemetry_application : clear implicits.
Arguments telemetry_entry : clear implicits.
Arguments telemetry : clear implicits.
Arguments settlement : clear implicits.
Arguments telemetry_event : clear implicits.

(** ** The grid, exactly *)

(** The times at which samples are due. *)
Definition on_grid (phaseMs periodMs t : Z) : Prop := exists k, 0 <= k /\ t = phaseMs + k * periodMs.

Lemma phase_in_period nodeID periodMs phase : telemetryPhaseMs nodeID periodMs = Ok phase -> 0 <= phase < periodMs.
Proof.
  unfold telemetryPhaseMs, validateNodeID, validatePeriod. repeat case_match; try done. cbn. intros [= <-]. reflect_tests.
  apply Z.mod_pos_bound. lia.
Qed.

(** The first point of the grid that is not past. *)
Lemma next_at_first now phaseMs periodMs : 0 < periodMs ->
  let next := nextEmissionAt now phaseMs periodMs in
  on_grid phaseMs periodMs next /\ now <= next /\ forall t, on_grid phaseMs periodMs t -> now < t -> next <= t.
Proof.
  intros Hp. unfold nextEmissionAt. destruct (Z.leb_spec now phaseMs) as [Hn | Hn]; cbn zeta.
  - split; [exists 0; lia |]. split; [done |]. intros t (k & Hk & ->) Ht. nia.
  - pose proof (Z.div_pos (now - phaseMs) periodMs ltac:(lia) Hp). pose proof (Z.mul_succ_div_gt (now - phaseMs) periodMs Hp).
    pose proof (Z.mul_div_le (now - phaseMs) periodMs Hp).
    split; [exists ((now - phaseMs) / periodMs + 1); lia |]. split; [lia |].
    intros t (k & Hk & ->) Ht. assert ((now - phaseMs) / periodMs < k) by (apply Z.div_lt_upper_bound; lia). nia.
Qed.

(** The first point of the grid after the last one and after the time it is. *)
Lemma next_after_first target now phaseMs periodMs : 0 < periodMs -> on_grid phaseMs periodMs target ->
  let next := nextEmissionAfter target now periodMs in
  on_grid phaseMs periodMs next /\ target < next /\ now < next /\ forall t, on_grid phaseMs periodMs t -> target < t -> now < t -> next <= t.
Proof.
  intros Hp (j & Hj & ->). unfold nextEmissionAfter. set (n := _ + periodMs). destruct (Z.leb_spec n now) as [Hn | Hn]; cbn zeta.
  - pose proof (Z.div_pos (now - n) periodMs ltac:(lia) Hp). pose proof (Z.mul_succ_div_gt (now - n) periodMs Hp).
    pose proof (Z.mul_div_le (now - n) periodMs Hp).
    split; [exists (j + 1 + ((now - n) / periodMs + 1)); lia |]. split; [lia |]. split; [lia |].
    intros t (k & Hk & ->) _ Ht. assert ((now - n) / periodMs < k - j - 1) by (apply Z.div_lt_upper_bound; unfold n in *; nia). unfold n in *. nia.
  - split; [exists (j + 1); lia |]. split; [lia |]. split; [lia |]. intros t (k & Hk & ->) Ht _. assert (j < k) by nia. unfold n. nia.
Qed.

(** ** What runs keep *)

(** The generation that runs, by the last start or stop of a history. *)
Fixpoint era {P} (past : list (telemetry_entry P)) : option Z :=
  match past with
  | tm_started g :: _ => Some g
  | tm_stopped :: _ => None
  | _ :: past => era past
  | [] => None
  end.

Section facts.
Context {P : Type} (phaseMs periodMs : Z) (Hperiod : 0 < periodMs).
Implicit Types (s : telemetry P) (app : telemetry_application P).

(** What may be said of each entry by those before it. *)
Definition entry_ok (e : telemetry_entry P) (past : list (telemetry_entry P)) : Prop :=
  match e with
  | tm_armed delay target => 0 <= delay /\ on_grid phaseMs periodMs target
  | tm_sampled g _ => era past = Some g
  | tm_published g sampledAt now _ => now - sampledAt < periodMs /\ era past = Some g /\ tm_sampled g sampledAt ∈ past
  | _ => True
  end.

Definition history_ok (h : list (telemetry_entry P)) : Prop := forall later e past, h = later ++ e :: past -> entry_ok e past.

Lemma history_ok_cons e h : history_ok h -> entry_ok e h -> history_ok (e :: h).
Proof. intros Hh He [| x later] e' past; cbn; intros [= -> ->]; [done | by eapply Hh]. Qed.

(** One timer is armed while the publisher runs, at a point of the grid, and
    none otherwise. *)
Definition armed_once s : Prop :=
  if runningState s then exists h target, tm_timers s = [(h, (generation s, target))] /\ timer s = Some h /\ on_grid phaseMs periodMs target
  else tm_timers s = [] /\ timer s = None.

Record sound s : Prop := {
  so_armed : armed_once s;
  so_era : era (tm_history s) = if runningState s then Some (generation s) else None;
  so_history : history_ok (tm_history s)
}.

(** What is kept of the promises, with all that was told. *)
Definition after s s' : Prop :=
  pendingGeneration s' = pendingGeneration s /\ tm_promises s' = tm_promises s /\ tm_history s ⊆ tm_history s'.

Lemma after_refl s : after s s.
Proof. done. Qed.
Lemma after_trans s1 s2 s3 : after s1 s2 -> after s2 s3 -> after s1 s3.
Proof. intros (? & ? & ?) (? & ? & ?). split; [congruence |]. split; [congruence | set_solver]. Qed.

Lemma schedule_sound g target s : runningState s = true -> generation s = g -> tm_timers s = [] -> on_grid phaseMs periodMs target ->
  era (tm_history s) = Some g -> history_ok (tm_history s) -> sound (schedule g target s) /\ after s (schedule g target s).
Proof.
  intros Hr Hg Ht Hn He Hh. unfold schedule, isCurrent. rewrite Hr, Hg, Z.eqb_refl. cbn. split.
  - split; unfold armed_once; cbn; rewrite ?Hr, ?Hg, ?Ht; [by eexists _, _ | done |]. apply history_ok_cons; [done |]. cbn. split; [lia | done].
  - split; [done |]. split; [done |]. cbn. set_solver.
Qed.

Lemma start_sound s : sound s -> sound (start phaseMs periodMs s) /\ after s (start phaseMs periodMs s).
Proof.
  intros H. pose proof H as [Ha He Hh]. unfold start. destruct (runningState s) eqn:Hr; [by split |]. unfold armed_once in Ha. rewrite Hr in Ha. destruct Ha as [Ha Ha'].
  edestruct (schedule_sound (generation s + 1) (nextEmissionAt (tm_now s) phaseMs periodMs)
    (tell (tm_started (generation s + 1)) (s <| runningState := true |> <| generation := generation s + 1 |>))) as [H1 H2]; cbn; try done.
  - by apply next_at_first.
  - by apply history_ok_cons.
  - split; [done |]. eapply after_trans; [| exact H2]. split; [done |]. split; [done |]. cbn. set_solver.
Qed.

Lemma telemetry_stop_sound s : sound s -> sound (stop s) /\ after s (stop s).
Proof.
  intros [Ha He Hh]. unfold stop. unfold armed_once in Ha. destruct (runningState s) eqn:Hr; cbn [negb andb].
  - destruct Ha as (h & target & Ht & Hm & _). cbn. rewrite Hm. cbn. split.
    + split; unfold armed_once; cbn; [rewrite Ht; cbn; by rewrite decide_True | done |]. by apply history_ok_cons.
    + split; [done |]. split; [done |]. cbn. set_solver.
  - destruct Ha as [Ht Hm]. rewrite Hm. cbn. split; [| done]. split; [unfold armed_once; by rewrite Hr | by rewrite Hr | done].
Qed.

Lemma obey_sound c s : sound s -> sound (obey phaseMs periodMs c s) /\ after s (obey phaseMs periodMs c s).
Proof. intros H. destruct c; cbn; [by apply start_sound | by apply telemetry_stop_sound |]. split; [| done]. by destruct H; split. Qed.

Lemma obey_all_sound cs : forall s, sound s -> sound (obey_all phaseMs periodMs cs s) /\ after s (obey_all phaseMs periodMs cs s).
Proof.
  induction cs as [| c cs IH]; intros s H; cbn; [by split |]. destruct (obey_sound c s H) as [H1 H2].
  destruct (IH _ H1) as [H3 H4]. split; [done | by eapply after_trans].
Qed.

(** A sample or publication is in hand: nothing else is. *)
Definition in_hand g s : Prop := sound s /\ pendingGeneration s = Some g /\ tm_promises s = [].

(** What a promise needs of what was told. *)
Definition awaited_ok (w : telemetry_awaited) s : Prop :=
  match w with
  | aw_sample g sampledAt => pendingGeneration s = Some g /\ tm_sampled g sampledAt ∈ tm_history s
  | aw_publish g => pendingGeneration s = Some g
  end.

(** Between events: one promise is waited for, or none. *)
Definition at_rest s : Prop :=
  sound s /\ match tm_promises s with
             | [] => pendingGeneration s = None
             | [(i, w)] => awaited_ok w s
             | _ => False
             end.

Lemma in_hand_after g s s' : in_hand g s -> sound s' -> after s s' -> in_hand g s'.
Proof. intros (_ & H1 & H2) H (H3 & H4 & _). split; [done |]. split; congruence. Qed.

Lemma complete_rests g s : in_hand g s -> at_rest (complete g s).
Proof.
  intros ([Ha He Hh] & H1 & H2). unfold complete. rewrite H1, bool_decide_true by done. split; [by split | by cbn; rewrite H2].
Qed.

Lemma fail_rests app g e s : in_hand g s -> at_rest (fail_ phaseMs periodMs app g e s).
Proof.
  intros H. unfold fail_. apply complete_rests. case_match; [| done].
  assert (Ht : in_hand g (tell (tm_error e) s)).
  { destruct H as ([Ha He Hh] & H1 & H2). split; [| done]. split; [done | done |]. by apply history_ok_cons. }
  destruct (obey_all_sound (app_onError app) _ (proj1 Ht)) as [H1 H2]. by eapply in_hand_after.
Qed.

Lemma await_rests g w s : in_hand g s -> awaited_ok w s -> at_rest (await_promise w s).
Proof. intros ([Ha He Hh] & H1 & H2) Hw. split; [by split |]. cbn. by rewrite H2. Qed.

Lemma current_era g s : sound s -> isCurrent g s = true -> era (tm_history s) = Some g.
Proof. intros [_ He _] H. unfold isCurrent in H. apply andb_true_iff in H as [Hr Hg]. reflect_tests. rewrite He, Hr. by f_equal. Qed.

Lemma publishSample_rests app g sampledAt publication s :
  in_hand g s -> tm_sampled g sampledAt ∈ tm_history s -> at_rest (publishSample phaseMs periodMs app g sampledAt publication s).
Proof.
  intros H Hs. unfold publishSample. destruct (isCurrent g s) eqn:Hc; cbn [negb]; [| by apply complete_rests].
  destruct (Z.leb_spec periodMs (tm_now s - sampledAt)); [by apply complete_rests |].
  assert (Ht : in_hand g (tell (tm_published g sampledAt (tm_now s) publication) s)).
  { pose proof (current_era _ _ (proj1 H) Hc). destruct H as ([Ha He Hh] & Hp & Hq). split; [| done]. split; [done | done |].
    apply history_ok_cons; [done |]. cbn. by split. }
  destruct (app_publish app publication) as [cs out]. destruct (obey_all_sound cs _ (proj1 Ht)) as [Hn H2].
  apply (in_hand_after _ _ _ Ht Hn) in H2. destruct out; [by apply complete_rests | | by apply fail_rests ..].
  eapply await_rests; [exact H2 | apply H2].
Qed.

Lemma emit_rests app g s : at_rest s -> at_rest (emit phaseMs periodMs app g s).
Proof.
  intros H. unfold emit. destruct (isCurrent g s) eqn:Hc; cbn [negb orb]; [| done].
  case_bool_decide as Hp; cbn [negb]; [| done]. destruct H as [[Ha He Hh] Hw].
  assert (Hr : tm_promises s = []).
  { destruct (tm_promises s) as [| [i []] [|]]; cbn in Hw; try done; destruct_and?; congruence. }
  assert (Ht : in_hand g (tell (tm_sampled g (tm_now s)) (s <| pendingGeneration := Some g |>))).
  { split; [| done]. split; [done | done |]. apply history_ok_cons; [done |]. apply current_era; [by split | done]. }
  destruct (app_sample app) as [cs out]. destruct (obey_all_sound cs _ (proj1 Ht)) as [H1 H2].
  assert (Hs : tm_sampled g (tm_now s) ∈ tm_history (obey_all phaseMs periodMs cs (tell (tm_sampled g (tm_now s)) (s <| pendingGeneration := Some g |>)))).
  { apply H2. cbn. set_solver. }
  apply (in_hand_after _ _ _ Ht H1) in H2. destruct out; [by apply publishSample_rests | | by apply fail_rests ..].
  eapply await_rests; [exact H2 | split; [apply H2 | exact Hs]].
Qed.

Lemma fired_rests app h g target s : at_rest s -> tm_timers s = [(h, (g, target))] -> at_rest (fired phaseMs periodMs app g target (cancel_timer h s)).
Proof.
  intros [[Ha He Hh] Hw] Ht. unfold armed_once in Ha. destruct (runningState s) eqn:Hr; [| by destruct Ha as [Ha _]; rewrite Ha in Ht].
  destruct Ha as (h' & target' & Ht' & Hm & Hg). rewrite Ht in Ht'. injection Ht' as <- -> ->.
  assert (Hc : isCurrent (generation s) (cancel_timer h s) = true) by (unfold isCurrent; cbn; by rewrite Hr, Z.eqb_refl).
  unfold fired. rewrite Hc. cbn [negb]. apply emit_rests.
  edestruct (schedule_sound (generation s) (nextEmissionAfter target' (tm_now (cancel_timer h s)) periodMs)
    ((cancel_timer h s) <| timer := None |>)) as [H1 H2]; try done.
  - cbn. rewrite Ht. cbn. by rewrite decide_True.
  - by apply next_after_first.
  - split; [exact H1 |]. destruct H2 as (Hp & Hq & Hi). rewrite Hq. change (tm_promises (_ <| timer := None |>)) with (tm_promises s).
    destruct (tm_promises s) as [| [i []] [|]]; cbn [awaited_ok] in *; try done; rewrite Hp; try done. split; [apply Hw | apply Hi, Hw].
Qed.

Lemma settles_in_hand i w s : at_rest s -> jget i (tm_promises s) = Some w ->
  in_hand (match w with aw_sample g _ | aw_publish g => g end) (s <| tm_promises ::= jdel i |>) /\ awaited_ok w s.
Proof.
  intros [[Ha He Hh] Hw] Hj. destruct (tm_promises s) as [| [j v] [|]] eqn:Hp; [done | | done].
  cbn in Hj. destruct (decide (i = j)) as [<- |]; [| done]. injection Hj as ->. split; [| done].
  split; [by split |]. cbn. rewrite Hp. cbn. rewrite decide_True by done. destruct w; cbn in Hw; tauto.
Qed.

Lemma obey_rests c s : at_rest s -> at_rest (obey phaseMs periodMs c s).
Proof.
  intros [H Hw]. destruct (obey_sound c s H) as [H1 (Hp & Hq & Hi)]. split; [done |]. rewrite Hq.
  destruct (tm_promises s) as [| [i []] [|]]; cbn in *; rewrite ?Hp; try done. destruct Hw. split; auto.
Qed.

Lemma only_timer h v s : armed_once s -> jget h (tm_timers s) = Some v -> tm_timers s = [(h, v)].
Proof.
  intros Ha Hj. unfold armed_once in Ha. destruct (runningState s).
  - destruct Ha as (h' & t & Ha & _). rewrite Ha in Hj. rewrite Ha. cbn in Hj. destruct (decide (h = h')) as [<- |]; congruence.
  - destruct Ha as [Ha _]. by rewrite Ha in Hj.
Qed.

Lemma step_rests e s : at_rest s -> at_rest (tm_step phaseMs periodMs e s).
Proof.
  intros H. destruct e as [c | h app | i r app]; cbn [tm_step].
  - by apply obey_rests.
  - destruct (jget h (tm_timers s)) as [[g target] |] eqn:Hj; [| done].
    apply (only_timer _ _ _ (so_armed _ (proj1 H))) in Hj.
    by apply fired_rests.
  - destruct (jget i (tm_promises s)) as [w |] eqn:Hj; [| done]. destruct (settles_in_hand _ _ _ H Hj) as [H1 H2].
    destruct w as [g sampledAt | g], r as [[]|[]]; try done; try (by apply fail_rests); [| by apply complete_rests].
    apply publishSample_rests; [done | apply H2].
Qed.

Lemma run_rests es : forall s, at_rest s -> at_rest (tm_run phaseMs periodMs es s).
Proof. induction es as [| e es IH]; intros s H; [done |]. apply IH. by apply step_rests. Qed.

Lemma new_rests now : at_rest (newPublisher now).
Proof. split; [| done]. split; [done | done |]. by intros [] ? ?. Qed.

(** Nothing told is forgotten. *)
Definition grows (f : telemetry P -> telemetry P) : Prop := forall s, tm_history s ⊆ tm_history (f s).

Lemma grows_compose f1 f2 : grows f1 -> grows f2 -> grows (fun s => f2 (f1 s)).
Proof. intros H1 H2 s. etrans; [apply H1 | apply H2]. Qed.

Lemma tell_grows e : grows (tell e).
Proof. intros s. cbn. set_solver. Qed.

Lemma obey_grows c : grows (obey phaseMs periodMs c).
Proof.
  intros s. destruct c; cbn; [unfold start, schedule | unfold stop |]; repeat case_match; cbn; set_solver.
Qed.

Lemma obey_all_grows cs : grows (obey_all phaseMs periodMs cs).
Proof. induction cs as [| c cs IH]; intros s; cbn; [done |]. etrans; [apply (obey_grows c) | apply IH]. Qed.

Lemma complete_grows g : grows (complete g).
Proof. intros s. unfold complete. by case_match. Qed.

Lemma fail_grows app g e : grows (fail_ phaseMs periodMs app g e).
Proof.
  intros s. unfold fail_. etrans; [| apply complete_grows]. case_match; [| done]. etrans; [apply (tell_grows (tm_error e)) | apply obey_all_grows].
Qed.

Lemma publishSample_grows app g sampledAt publication : grows (publishSample phaseMs periodMs app g sampledAt publication).
Proof.
  intros s. unfold publishSample. case_match; [apply complete_grows |]. case_match; [apply complete_grows |].
  destruct (app_publish app publication) as [cs out]. etrans; [apply tell_grows |]. etrans; [apply (obey_all_grows cs) |].
  destruct out; [apply complete_grows | done | apply fail_grows ..].
Qed.

Lemma emit_samples app g s : isCurrent g s = true ->
  tm_history s ⊆ tm_history (emit phaseMs periodMs app g s) /\
  (pendingGeneration s = None -> tm_sampled g (tm_now s) ∈ tm_history (emit phaseMs periodMs app g s)).
Proof.
  intros Hc. unfold emit. rewrite Hc. cbn [negb orb]. case_bool_decide as Hp; cbn [negb]; [| done].
  destruct (app_sample app) as [cs out]. set (s1 := tell _ _).
  assert (H : tm_history s1 ⊆ tm_history (match out with
      | gives publication => publishSample phaseMs periodMs app g (tm_now s) publication (obey_all phaseMs periodMs cs s1)
      | promised => await_promise (aw_sample g (tm_now s)) (obey_all phaseMs periodMs cs s1)
      | throws e | then_throws e => fail_ phaseMs periodMs app g e (obey_all phaseMs periodMs cs s1) end)).
  { etrans; [apply (obey_all_grows cs) |]. destruct out; [apply publishSample_grows | done | apply fail_grows ..]. }
  split; [etrans; [| exact H] | intros _; apply H]; unfold s1; cbn; set_solver.
Qed.

(** C25: telemetry is sampled and published one at a time, fresh, and only
    while the publisher runs. Whatever the application does in its callbacks
    and whenever timers fire and promises are kept or broken: at most one
    sample or publication is waited for, and its generation blocks the next;
    exactly one timer is armed while the publisher runs, for a point of its
    grid, and none once it is stopped; and every publication was sampled less
    than a period before, by the generation that is running when it goes out,
    so nothing is published after a stop. *)
Theorem telemetry_one_at_a_time now es :
  let s := tm_run phaseMs periodMs es (newPublisher now) in
  (tm_promises s = [] /\ pendingGeneration s = None \/ exists i w, tm_promises s = [(i, w)] /\ pendingGeneration s <> None) /\
  armed_once s /\
  forall later past g sampledAt at_ publication, tm_history s = later ++ tm_published g sampledAt at_ publication :: past ->
    at_ - sampledAt < periodMs /\ era past = Some g /\ tm_sampled g sampledAt ∈ past.
Proof.
  cbn zeta. destruct (run_rests es _ (new_rests now)) as [[Ha _ Hh] Hw]. split; [| split; [done |]].
  - destruct (tm_promises _) as [| [i w] [|]]; [by left | | done]. right. exists i, w. split; [done |].
    destruct w; cbn in Hw; destruct_and?; congruence.
  - intros later past g sampledAt at_ publication E. exact (Hh _ _ _ E).
Qed.

(** C26: telemetry goes on. In every state of a run, while the publisher runs, a
    timer is armed, and when it fires the next one is armed for the first
    point of the grid that lies after the last one and after the time it is;
    if nothing is waited for, a sample is taken there and then. *)
Theorem telemetry_goes_on now es app :
  let s := tm_run phaseMs periodMs es (newPublisher now) in
  runningState s = true ->
  exists h target, tm_timers s = [(h, (generation s, target))] /\ on_grid phaseMs periodMs target /\
    let s' := tm_step phaseMs periodMs (ev_fire h app) s in
    exists next, tm_armed (next - tm_now s) next ∈ tm_history s' /\
    on_grid phaseMs periodMs next /\ target < next /\ tm_now s < next /\
    (forall t, on_grid phaseMs periodMs t -> target < t -> tm_now s < t -> next <= t) /\
    (pendingGeneration s = None -> tm_sampled (generation s) (tm_now s) ∈ tm_history s').
Proof.
  cbn zeta. pose proof (run_rests es _ (new_rests now)) as [[Ha _ _] _]. set (s := tm_run _ _ _ _) in *. intros Hr.
  unfold armed_once in Ha. rewrite Hr in Ha. destruct Ha as (h & target & Ht & Hm & Hg). exists h, target. split; [done |]. split; [done |].
  destruct (next_after_first target (tm_now s) phaseMs periodMs Hperiod Hg) as (Hgrid & Hlt & Hn & Hf). cbn zeta.
  exists (nextEmissionAfter target (tm_now s) periodMs).
  cbn [tm_step]. rewrite Ht. cbn [jget]. rewrite decide_True by done.
  assert (Hc : isCurrent (generation s) (cancel_timer h s) = true) by (unfold isCurrent; cbn; by rewrite Hr, Z.eqb_refl).
  unfold fired. rewrite Hc. cbn [negb]. change (tm_now (cancel_timer h s)) with (tm_now s).
  unfold schedule. change (isCurrent _ (_ <| timer := None |>)) with (isCurrent (generation s) (cancel_timer h s)). rewrite Hc. cbn [negb].
  set (s1 := tell _ _). assert (H1 : isCurrent (generation s) s1 = true) by exact Hc.
  destruct (emit_samples app _ _ H1) as [H2 H3]. split; [| by repeat split].
  apply H2. unfold s1. cbn. rewrite Z.max_r by lia. by left.
Qed.
End facts.

(** ** A publisher, evaluated *)

Definition slow_application : telemetry_application Z := mkApplication ([call_clock 1100], promised) (fun _ => ([], gives tt)) [].

(** Started in the middle of a period, sampled at 1100 when the timer of 1060
    fires, and published when the promise is kept a little later. *)
Definition sampled_run : list (telemetry_event Z) :=
  [ev_call call_start; ev_call (call_clock 1090); ev_fire 0 slow_application; ev_settle 0 (sample_settles (Ok 7)) slow_application].

Lemma sampled_run_publishes :
  let s := tm_run 60 1000 sampled_run (newPublisher 500) in
  tm_history s = [tm_published 1 1090 1100 7; tm_sampled 1 1090; tm_armed 970 2060; tm_armed 560 1060; tm_started 1] /\
  pendingGeneration s = None.
Proof. vm_compute. done. Qed.

Lemma telemetry_one_at_a_time_witness :
  let s := tm_run 60 1000 sampled_run (newPublisher 500) in
  armed_once 60 1000 s /\ 1100 - 1090 < 1000.
Proof.
  cbn zeta. destruct (telemetry_one_at_a_time 60 1000 ltac:(lia) 500 sampled_run) as (_ & H1 & H2). split; [exact H1 |].
  apply (H2 [] [tm_sampled 1 1090; tm_armed 970 2060; tm_armed 560 1060; tm_started 1] 1 1090 1100 7). vm_compute. reflexivity.
Defined.

Lemma telemetry_goes_on_witness :
  let s := tm_run 60 1000 (take 2 sampled_run) (newPublisher 500) in
  tm_sampled 1 1090 ∈ tm_history (tm_step 60 1000 (ev_fire 0 slow_application) s).
Proof.
  cbn zeta.
  destruct (telemetry_goes_on 60 1000 ltac:(lia) 500 (take 2 sampled_run) slow_application ltac:(vm_compute; reflexivity)) as (h & target & Ht & _ & next & _ & _ & _ & _ & _ & H).
  vm_compute in Ht. injection Ht as <- <-. apply H. vm_compute. reflexivity.
Defined.

(** The phase of a node: the FNV-1a hash of its identity within the period. *)
Lemma hash_vectors : stableHash (js "") = 2166136261 /\ stableHash (js "a") = 3826002220 /\ stableHash (js "foobar") = 3214735720.
Proof. vm_compute. done. Qed.

