(* ===== verification/SyncEngine.v ===== *)
(** * The SDK's sync engine ([sdk/src/sync-engine.ts] and its parts)

    The engine keeps a resource cache in step with Core: it loads everything
    once, follows a feed of events, asks for what it missed, and connects again
    when it lost the feed.  Its methods are asynchronous and overlap.  Each
    call of an asynchronous function is a task with a promise; it runs until it
    awaits a promise, and what it has still to do then waits as a frame until
    the promise is settled.  Which of the tasks that can go on goes on next is
    not fixed here: any order is allowed, that of the language among them.

    The HTTP transport and the feed connection answer requests; an application
    calls the engine, also from the callbacks it is told of changes by. *)

From Stdlib Require Import ZArith Lia String.
From stdpp Require Import base list option.
From S2P Require Import Prelude JsMap JsState Json Frame Contract SdkSubscriptions ResourceCache.

Open Scope string_scope.
Open Scope list_scope.
Open Scope Z_scope.

(** ** What it deals with *)

(** [AtlasAPIError] with its status and code, or any other error. *)
Inductive failure := api_error (status : Z) (code : list Z) | thrown (e : js_error).

Inductive SyncErrorCode :=
  | initial_sync_failed | feed_connection_failed | feed_event_failed | feed_connection_closed | recovery_request_failed.
#[export] Instance SyncErrorCode_eq_dec : EqDecision SyncErrorCode.
Proof. solve_decision. Defined.

Definition isFeedErrorCode (code : option SyncErrorCode) : bool :=
  match code with Some (feed_connection_failed | feed_event_failed | feed_connection_closed) => true | _ => false end.

Inductive SyncHealth := idle | healthy | degraded.
#[export] Instance SyncHealth_eq_dec : EqDecision SyncHealth.
Proof. solve_decision. Defined.

Definition MAX_BUFFERED_FEED_EVENTS : Z := 100.
Definition MAX_BUFFERED_FEED_BYTES : Z := 8 * 1024 * 1024.

(** Validated responses.  Of each stream the full dataset is paged in, whether
    there is more and the cursor of the next page. *)
Record FullDatasetResponse := mkDataset {
  fd_version : Z; fd_entities : list json; fd_tasks : list json; fd_objects : list json;
  fd_more : list (list Z * (bool * option (list Z)))
}.

Record ChangedSinceResponse := mkChanges {
  cs_version : Z; cs_events : list FeedEvent; cs_has_more : bool; cs_next_cursor : option (list Z)
}.

Definition event_version (e : FeedEvent) : Z := match e with feed_upsert u => ue_version u | feed_delete _ _ version => version end.

Definition FullDatasetCursors : Type := list (list Z * option (list Z)).

Definition nextFullDatasetCursors (response : FullDatasetResponse) : FullDatasetCursors :=
  omap (fun p : list Z * (bool * option (list Z)) => if fst (snd p) then Some (fst p, snd (snd p)) else None) (fd_more response).

Definition hasMoreFullDataset (cursors : FullDatasetCursors) : bool := negb (bool_decide (cursors = [])).

(** The cursors seen so far, by stream. *)
Definition assertPaginationProgress (cursors : FullDatasetCursors) (seen : list (list Z * list (option (list Z))))
    : result (list (list Z * list (option (list Z)))) :=
  fold_left (fun r (p : list Z * option (list Z)) =>
    let! seen := r in
    let values := default [] (jget (fst p) seen) in
    guard! negb (bool_decide (snd p ∈ values)) else PlainError "Atlas full-dataset pagination repeated a cursor" in
    Ok (jset (fst p) (values ++ [snd p]) seen)) cursors (Ok seen).

(** Versions rise from one event to the next. *)
Fixpoint globally_ordered (last : Z) (events : list FeedEvent) : result Z :=
  match events with
  | [] => Ok last
  | e :: events =>
      if event_version e <=? last then Throw (TypeError "Atlas changed-since events are not globally ordered")
      else globally_ordered (event_version e) events
  end.

(** ** Requests and what promises are settled with *)

Inductive request :=
  | rq_revision
  | rq_full (cursors : FullDatasetCursors)
  | rq_changes (since : Z) (cursor : option (list Z))
  | rq_connect (generation attempt : Z)
  | rq_read (t : ResourceType) (id : list Z)
  | rq_write (t : ResourceType)
  | rq_delete (t : ResourceType) (id : list Z).

Inductive settled_value :=
  | v_unit
  | v_bool (b : bool)
  | v_version (version : option Z)
  | v_text (text : list Z)
  | v_dataset (response : FullDatasetResponse)
  | v_changes (response : ChangedSinceResponse)
  | v_resource (resource : json) (version : Z).

Inductive outcome := fulfilled (v : settled_value) | rejected (f : failure).

(** A response fits what was asked for. *)
Definition fits (r : request) (o : outcome) : bool :=
  match o with
  | rejected _ => true
  | fulfilled v =>
      match r, v with
      | rq_revision, v_text _ | rq_full _, v_dataset _ | rq_changes _ _, v_changes _ | rq_connect _ _, v_unit
      | rq_read _ _, v_resource _ _ | rq_write _, v_resource _ _ | rq_delete _ _, v_unit => true
      | _, _ => false
      end
  end.

(** ** Tasks *)

(** [fetchAndInstallHydratedSnapshot] between two pages. *)
Record hydrating := mkHydrating {
  hy_generation : Z; hy_operation : option Z; hy_cursors : FullDatasetCursors; hy_version : option Z;
  hy_seen : list (list Z * list (option (list Z))); hy_entities : list json; hy_tasks : list json; hy_objects : list json
}.

(** [recoverSince], with [RecoveryRunner.run] between two pages; [again] after
    the fallback to a hydration. *)
Record recovery_run := mkRecovering {
  rc_generation : Z; rc_operation : Z; rc_asked : Z; rc_again : bool;
  rc_since : Z; rc_version : option Z; rc_cursor : option (list Z); rc_last : Z; rc_seen : list (list Z)
}.

(** [connectAndRecoverFeedForGeneration]; the buffer and the ownership are
    objects. *)
Record connecting := mkConnecting {
  cn_generation : Z; cn_attempt : Z; cn_since : Z; cn_buffer : Z; cn_ownership : option Z
}.

Record reading := mkReading { rd_operation : PointReadOperation; rd_type : ResourceType; rd_id : list Z; rd_fresh : bool }.

Record writing := mkWriting { wr_type : ResourceType; wr_expected : option (list Z); wr_create : bool; wr_checked_in : bool }.

Inductive awaited := on_promise (p : Z) | on_nothing.

Inductive frame :=
  | fr_follow
  | fr_start (generation promise : Z)
  | fr_handshake (generation : option Z)
  | fr_hydrated (generation : Z)
  | fr_recovered (generation : Z)
  | fr_feed_started (generation : Z)
  | fr_dataset (h : hydrating)
  | fr_clear_hydration (promise : Z)
  | fr_changes (r : recovery_run)
  | fr_run_failed (r : recovery_run) (f : failure)
  | fr_expired (r : recovery_run)
  | fr_recovery_end (r : recovery_run) (result : (option Z * bool) + failure)
  | fr_clear_recovery (generation promise : Z)
  | fr_connect (k : connecting)
  | fr_connect_failed (k : connecting) (f : failure)
  | fr_feed_recovery (k : connecting)
  | fr_feed_drain (k : connecting)
  | fr_connect_end (k : connecting) (result : bool + failure)
  | fr_public_connect (generation attempt : Z)
  | fr_consume (event : FeedEvent) (generation attempt : Z)
  | fr_consume_gap (event : FeedEvent) (generation attempt : Z)
  | fr_reconnect_catch (generation attempt ownership : Z)
  | fr_poll_catch (generation operation : Z)
  | fr_read (r : reading)
  | fr_write (w : writing)
  | fr_delete (t : ResourceType) (id : list Z) (ref : Z)
  | fr_reconciled.

(** How an asynchronous function leaves off: it awaits, or its promise is
    settled. *)
Inductive leaving := waits (a : awaited) (f : frame) | ends (o : outcome).

(** ** State *)

Record ActiveHydration := mkActive { ah_generation : Z; ah_operation : option Z; ah_promise : Z }.

Record FeedRecoveryBuffer := mkBuffer { fb_generation : Z; fb_attempt : Z; fb_events : list (FeedEvent * nat); fb_bytes : nat }.

(** The calls an application may make, also in a callback. *)
Inductive engine_call :=
  | call_start | call_stop | call_handshake | call_changedSince | call_connectFeed | call_connectAndRecover
  | call_subscribe (filter : AtlasSubscription) | call_unsubscribe (filter : AtlasSubscription)
  | call_read (t : ResourceType) (id : list Z) (fresh : bool)
  | call_write (w : writing)
  | call_delete (t : ResourceType) (id : list Z).

(** What happened, the newest first. *)
Inductive sync_entry :=
  | h_generation (g : Z)
  | h_operation (op : Z)
  | h_attempt (a : Z)
  | h_requested (r : request)
  | h_hydrated (g : Z) (op : option Z) (version : Z)
  | h_recovered (g op : Z) (e : FeedEvent)
  | h_consumed (g a : Z) (e : FeedEvent)
  | h_told (callback : list Z) (e : AtlasWatchEvent)
  | h_snapshot (callback : list Z) (s : SyncSnapshot)
  | h_subscription (subscribes : bool) (filter : AtlasSubscription)
  | h_feed_closed.

Record engine := mkEngine {
  feed_connected : bool;
  lifecycleGeneration : Z;
  feedConnectionAttempt : Z;
  startSyncPromise : option Z;
  recoveryOperation : Z;
  activeRecovery : option (Z * Z * Z);
  reconnectTimer : option Z;
  subscriptions : list AtlasSubscription;
  watchers : list (list Z * list (list Z));
  snapshotWatchers : list (list Z);
  activeHydration : option ActiveHydration;
  feedRecoveryBuffer : option Z;
  syncRunning : bool;
  health : SyncHealth;
  pollTimer : option Z;
  reconnecting : bool;
  reconnectAfterRecovery : bool;
  lastErrorCode : option SyncErrorCode;
  feedCursor : Z;
  cache : ResourceCache;
  (* objects: promises and what awaits them, buffers, ownerships *)
  next_object : Z;
  tasks : list (Z * (awaited * frame));
  settled : list (Z * outcome);
  requests : list (Z * request);
  connections : list (Z * (Z * Z));
  buffers : list (Z * FeedRecoveryBuffer);
  ownerships : list (Z * Z);
  (* what the callbacks of the application will do, one list of calls each *)
  reactions : list (list engine_call);
  sync_history : list sync_entry
}.

#[export] Instance engine_rebuild : Rebuild engine :=
  fun s => mkEngine (feed_connected s) (lifecycleGeneration s) (feedConnectionAttempt s) (startSyncPromise s) (recoveryOperation s)
    (activeRecovery s) (reconnectTimer s) (subscriptions s) (watchers s) (snapshotWatchers s) (activeHydration s)
    (feedRecoveryBuffer s) (syncRunning s) (health s) (pollTimer s) (reconnecting s) (reconnectAfterRecovery s) (lastErrorCode s)
    (feedCursor s) (cache s) (next_object s) (tasks s) (settled s) (requests s) (connections s) (buffers s) (ownerships s)
    (reactions s) (sync_history s).

Section engine.
(** Whether there is a WebSocket implementation, the polling interval, the
    revision the SDK was generated for, and a test of generated code. *)
Context (available : bool) (pollIntervalMs : Z) (ATLAS_PROTOCOL_REVISION : list Z) (isObjectDetailResource : json -> bool).

Definition newSyncEngine (initialSync : bool) (c : ResourceCache) : engine :=
  mkEngine false 0 0 None 0 None None (if initialSync then [filter_all] else []) [] [] None None false idle None false false None 0 c
    0 [] [] [] [] [] [] [] [].

Abbreviation T := (eff engine).

Definition upd (f : engine -> engine) : T unit := modify f.
Definition record (e : sync_entry) : T unit := upd (fun s => s <| sync_history ::= cons e |>).

Definition on_cache {A} (m : eff ResourceCache A) : T A := fun s => let '(r, c) := m (cache s) in (r, s <| cache := c |>).

(** ** Promises *)

Definition fresh : T Z := fun s => (Ok (next_object s), s <| next_object ::= fun n => n + 1 |>).

Definition ask (r : request) : T Z :=
  do! id := fresh in
  do! _ := upd (fun s => s <| requests ::= jset id r |>) in
  do! _ := record (h_requested r) in ret id.

Definition leave (id : Z) (m : T leaving) : T unit := fun s =>
  match m s with
  | (Ok (waits a f), s) => (Ok tt, s <| tasks ::= jset id (a, f) |>)
  | (Ok (ends o), s) => (Ok tt, s <| settled ::= jset id o |>)
  | (Throw e, s) => (Ok tt, s <| settled ::= jset id (rejected (thrown e)) |>)
  end.

(** A call of an asynchronous function: its promise, when it first awaits. *)
Definition async (m : T leaving) : T Z := do! id := fresh in do! _ := leave id m in ret id.

(** [promise.then(f, f)] and [promise.catch(f)] *)
Definition react_to (p : Z) (f : frame) : T unit := do! _ := async (ret (waits (on_promise p) f)) in ret tt.

(** An [await] of what is settled already. *)
Definition hop (f : frame) : T leaving := ret (waits on_nothing f).

(** ** Lifecycle and recovery *)

Definition isCurrent (g : Z) (s : engine) : bool := lifecycleGeneration s =? g.
Definition isCurrentFeedConnection (g a : Z) (s : engine) : bool := isCurrent g s && (feedConnectionAttempt s =? a).
Definition isCurrentOperation (g op : Z) (s : engine) : bool := isCurrent g s && (recoveryOperation s =? op).
Definition isCurrentHydration (h : hydrating) (s : engine) : bool :=
  match hy_operation h with Some op => isCurrentOperation (hy_generation h) op s | None => isCurrent (hy_generation h) s end.

Definition next_generation : T Z :=
  do! g := gets (fun s => lifecycleGeneration s + 1) in
  do! _ := upd (fun s => s <| lifecycleGeneration := g |>) in do! _ := record (h_generation g) in ret g.

Definition beginFeedConnectionAttempt : T Z :=
  do! a := gets (fun s => feedConnectionAttempt s + 1) in
  do! _ := upd (fun s => s <| feedConnectionAttempt := a |>) in do! _ := record (h_attempt a) in ret a.

Definition invalidateRecovery : T Z :=
  do! op := gets (fun s => recoveryOperation s + 1) in
  do! _ := upd (fun s => s <| recoveryOperation := op |> <| activeRecovery := None |>) in do! _ := record (h_operation op) in ret op.

Definition clearReconnectTimer : T unit := upd (fun s => s <| reconnectTimer := None |>).

Definition set_health (h : SyncHealth) : T unit := upd (fun s => s <| health := h |>).
Definition set_error (code : option SyncErrorCode) : T unit := upd (fun s => s <| lastErrorCode := code |>).
Definition clear_error_if (test : option SyncErrorCode -> bool) : T unit :=
  upd (fun s => if test (lastErrorCode s) then s <| lastErrorCode := None |> else s).
Definition is_error (code : SyncErrorCode) (c : option SyncErrorCode) : bool := bool_decide (c = Some code).

Definition markSynchronized : T unit :=
  upd (fun s => s <| health := if negb (syncRunning s) then idle else if feed_connected s || (0 <? pollIntervalMs) then healthy else degraded |>).

Definition scheduleReconnect : T unit :=
  upd (fun s =>
    if negb (syncRunning s) || negb available || negb (bool_decide (reconnectTimer s = None)) then s
    else if reconnecting s then s <| reconnectAfterRecovery := true |>
    else s <| health := degraded |> <| reconnectTimer := Some (lifecycleGeneration s) |>).

Definition degrade_and_reconnect : T unit := do! _ := set_health degraded in scheduleReconnect.

(** The next page is asked for. *)
Definition run_page (r : recovery_run) : T leaving :=
  do! current := gets (isCurrentOperation (rc_generation r) (rc_operation r)) in
  if negb current then hop (fr_recovery_end r (inl (rc_version r, true)))
  else do! id := ask (rq_changes (rc_since r) (rc_cursor r)) in ret (waits (on_promise id) (fr_changes r)).

Definition run_from (g op asked since : Z) (again : bool) : T leaving :=
  run_page (mkRecovering g op asked again since None None since []).

Definition recoverSince (g since op : Z) : T leaving :=
  do! current := gets (isCurrentOperation g op) in
  if negb current then ret (ends (fulfilled (v_bool false)))
  else
    do! running := gets syncRunning in
    do! _ := (if running then set_health degraded else ret tt) in
    run_from g op since since false.

Definition changedSinceForGeneration (g since : Z) : T Z :=
  do! current := gets (isCurrent g) in
  if negb current then async (ret (ends (fulfilled (v_bool false))))
  else
    do! active := gets activeRecovery in
    let recover :=
      do! op := invalidateRecovery in
      do! p := async (recoverSince g since op) in
      do! _ := upd (fun s => s <| activeRecovery := Some (p, g, since) |>) in
      do! _ := react_to p (fr_clear_recovery g p) in ret p in
    match active with
    | Some (p, g', since') => if (g' =? g) && (since' =? since) then ret p else recover
    | None => recover
    end.

(** ** Hydration *)

Definition hydrate_page (h : hydrating) : T leaving :=
  do! current := gets (isCurrentHydration h) in
  if negb current then ret (ends (fulfilled (v_version None)))
  else do! id := ask (rq_full (hy_cursors h)) in ret (waits (on_promise id) (fr_dataset h)).

Definition loadHydratedSnapshot (g : Z) (op : option Z) : T Z :=
  do! active := gets activeHydration in
  let load :=
    do! p := async (hydrate_page (mkHydrating g op [] None [] [] [] [])) in
    do! _ := upd (fun s => s <| activeHydration := Some (mkActive g op p) |>) in
    do! _ := react_to p (fr_clear_hydration p) in ret p in
  match active with
  | Some h => if (ah_generation h =? g) && (bool_decide (ah_operation h = None) || bool_decide (ah_operation h = op)) then ret (ah_promise h) else load
  | None => load
  end.

(** ** The feed *)

(** [feed.connect]: the manager gives up its socket until the new one is ready. *)
Definition ask_connection (g a : Z) : T Z :=
  do! id := ask (rq_connect g a) in
  do! _ := upd (fun s => s <| connections ::= jset id (g, a) |> <| feed_connected := false |>) in ret id.

Definition close_feed : T unit := do! _ := upd (fun s => s <| feed_connected := false |>) in record h_feed_closed.

Definition connectAndRecoverFeedForGeneration (g : Z) (ownership : option Z) : T leaving :=
  do! s := gets (fun s => s) in
  if negb (isCurrent g s) then ret (ends (fulfilled v_unit))
  else if reconnecting s then do! _ := upd (fun s => s <| reconnectAfterRecovery := true |>) in ret (ends (fulfilled v_unit))
  else
    do! _ := upd (fun s => s <| reconnecting := true |> <| reconnectAfterRecovery := false |>) in
    do! _ := clearReconnectTimer in
    do! a := beginFeedConnectionAttempt in
    do! buffer := fresh in
    do! since := gets feedCursor in
    do! _ := upd (fun s => s <| buffers ::= jset buffer (mkBuffer g a [] 0) |> <| feedRecoveryBuffer := Some buffer |>) in
    do! id := ask_connection g a in
    ret (waits (on_promise id) (fr_connect (mkConnecting g a since buffer ownership))).

Definition connectFeed : T leaving :=
  do! g := gets lifecycleGeneration in
  do! a := beginFeedConnectionAttempt in
  do! id := ask_connection g a in
  ret (waits (on_promise id) (fr_public_connect g a)).

(** ** Starting and stopping *)

Definition handshake (g : option Z) : T leaving := do! id := ask rq_revision in ret (waits (on_promise id) (fr_handshake g)).

Definition start : T leaving :=
  do! s := gets (fun s => s) in
  if syncRunning s then ret (ends (fulfilled v_unit))
  else
    match startSyncPromise s with
    | Some p => ret (waits (on_promise p) fr_follow)
    | None =>
        do! g := next_generation in
        do! _ := invalidateRecovery in
        do! _ := clearReconnectTimer in
        do! _ := upd (fun s => s <| reconnecting := false |> <| reconnectAfterRecovery := false |> <| lastErrorCode := None |>) in
        do! p := async (handshake (Some g)) in
        do! _ := upd (fun s => s <| startSyncPromise := Some p |>) in
        ret (waits (on_promise p) (fr_start g p))
    end.

Definition stop : T unit :=
  do! _ := next_generation in
  do! _ := upd (fun s => s <| startSyncPromise := None |> <| pollTimer := None |>) in
  do! _ := clearReconnectTimer in
  do! _ := upd (fun s => s <| reconnecting := false |> <| reconnectAfterRecovery := false |> <| syncRunning := false |>) in
  do! _ := invalidateRecovery in
  do! _ := upd (fun s => s <| lastErrorCode := None |> <| feedRecoveryBuffer := None |>) in
  do! _ := close_feed in
  set_health idle.

Definition same_key (key : list Z) (filter : AtlasSubscription) : bool :=
  match subscriptionKey filter with Ok k => bool_decide (k = key) | Throw _ => false end.

(** The subscriptions kept are normalized, so that their keys do not throw. *)
Definition subscribe (filter : AtlasSubscription) : T unit :=
  do! normalized := lift (normalizeSubscription filter) in
  do! key := lift (subscriptionKey normalized) in
  do! _ := upd (fun s => if existsb (same_key key) (subscriptions s) then s else s <| subscriptions ::= fun l => l ++ [normalized] |>) in
  record (h_subscription true normalized).

Fixpoint drop_first {A} (test : A -> bool) (l : list A) : list A :=
  match l with [] => [] | x :: l => if test x then l else x :: drop_first test l end.

Definition unsubscribe (filter : AtlasSubscription) : T unit :=
  do! normalized := lift (normalizeSubscription filter) in
  do! key := lift (subscriptionKey normalized) in
  do! _ := upd (fun s => s <| subscriptions ::= drop_first (same_key key) |>) in
  record (h_subscription false normalized).

(** ** Reading, writing, deleting *)

Definition canServeFromCache (t : ResourceType) (id : list Z) : T bool :=
  do! s := gets (fun s => s) in
  if negb (syncRunning s) || negb (bool_decide (startSyncPromise s = None)) || negb (bool_decide (health s = healthy)) then ret false
  else
    lift (fold_left (fun r filter => let! found := r in if found : bool then Ok true else covers filter (filter_id t id)) (subscriptions s) (Ok false)).

Definition cached (t : ResourceType) (id : list Z) (s : engine) : option json :=
  match t with object => objectDetail isObjectDetailResource (cache s) id | _ => ResourceCache.value (cache s) t id end.

(** [beginPointRead] and the request. *)
Definition readPoint (t : ResourceType) (id : list Z) (fresh : bool) : T leaving :=
  do! op := on_cache (beginPointRead t id) in
  do! p := ask (rq_read t id) in
  ret (waits (on_promise p) (fr_read (mkReading op t id fresh))).

(** [readEntity], [readTask], [readObject] *)
Definition read (t : ResourceType) (id : list Z) (fresh : bool) : T leaving :=
  do! found := gets (cached t id) in
  do! served := (if fresh then ret false else canServeFromCache t id) in
  match found with
  | Some v => if served : bool then ret (ends (fulfilled (v_resource v 0))) else readPoint t id fresh
  | None => readPoint t id fresh
  end.

(** [writeTask], [writeResource], [checkInEntity] *)
Definition write (w : writing) : T leaving :=
  do! p := ask (rq_write (wr_type w)) in ret (waits (on_promise p) (fr_write w)).

Definition deleteResource (t : ResourceType) (id : list Z) : T leaving :=
  do! ref := on_cache (beginLocalDelete t id) in
  do! p := ask (rq_delete t id) in
  ret (waits (on_promise p) (fr_delete t id ref)).

(** What a call does before it returns its promise. *)
Definition perform (c : engine_call) : T unit :=
  do! _ := match c with
           | call_start => async start
           | call_stop => do! _ := stop in ret 0
           | call_handshake => async (handshake None)
           | call_changedSince => do! g := gets lifecycleGeneration in do! since := gets feedCursor in changedSinceForGeneration g since
           | call_connectFeed => async connectFeed
           | call_connectAndRecover => async (do! g := gets lifecycleGeneration in connectAndRecoverFeedForGeneration g None)
           | call_subscribe filter => async (do! _ := subscribe filter in ret (ends (fulfilled v_unit)))
           | call_unsubscribe filter => async (do! _ := unsubscribe filter in ret (ends (fulfilled v_unit)))
           | call_read t id fresh => async (read t id fresh)
           | call_write w => async (write w)
           | call_delete t id => async (deleteResource t id)
           end in ret tt.

(** ** Telling the application *)

(** A callback makes its calls; what it throws is reported and goes no further. *)
Definition call_back : T unit :=
  do! rs := gets reactions in
  match rs with
  | [] => ret tt
  | calls :: rest => do! _ := upd (fun s => s <| reactions := rest |>) in for_each perform calls
  end.

(** The callbacks kept for a filter refuse resources of another type. *)
Definition tell (filter : AtlasSubscription) (e : AtlasWatchEvent) (resource : option json) (callback : list Z) : T unit :=
  match resource with
  | Some v => match assertResourceMatchesSubscription filter v with
              | Ok _ => do! _ := record (h_told callback e) in call_back
              | Throw _ => ret tt
              end
  | None => do! _ := record (h_told callback e) in call_back
  end.

Definition notify (e : AtlasWatchEvent) (resource : option json) : T unit :=
  do! ws := gets watchers in
  for_each (fun w : list Z * list (list Z) =>
    do! filter := lift (parseSubscriptionKey (fst w)) in
    do! matches := lift (matchesSubscription filter e) in
    if matches : bool then for_each (tell filter e resource) (snd w) else ret tt) ws.

Definition notifySnapshot : T unit :=
  do! ws := gets snapshotWatchers in
  if bool_decide (ws = []) then ret tt
  else
    do! s := on_cache ResourceCache.snapshot in
    for_each (fun callback => do! _ := record (h_snapshot callback s) in call_back) ws.

Definition deliverChange (change : option ResourceChange) : T unit :=
  match change with
  | None => ret tt
  | Some (e, resource) => do! _ := notify e resource in notifySnapshot
  end.

Definition applyFeedEvent (e : FeedEvent) : T unit :=
  do! change := on_cache (ResourceCache.applyFeedEvent e) in
  do! _ := upd (fun s => s <| feedCursor ::= Z.max (event_version e) |>) in
  deliverChange change.

(** ** Going on: hydration and recovery *)

Definition reject (f : failure) : T leaving := ret (ends (rejected f)).
Definition end_unit : T leaving := ret (ends (fulfilled v_unit)).

Definition got_dataset (h : hydrating) (response : FullDatasetResponse) : T leaving :=
  do! current := gets (isCurrentHydration h) in
  if negb current then ret (ends (fulfilled (v_version None)))
  else
    let changed := match hy_version h with Some v => negb (fd_version response =? v) | None => false end in
    if changed then throw (PlainError "Atlas full-dataset pagination changed version watermark")
    else
      let cursors := nextFullDatasetCursors response in
      do! seen := lift (assertPaginationProgress cursors (hy_seen h)) in
      let h := mkHydrating (hy_generation h) (hy_operation h) cursors (Some (fd_version response)) seen
                 (hy_entities h ++ fd_entities response) (hy_tasks h ++ fd_tasks response) (hy_objects h ++ fd_objects response) in
      if hasMoreFullDataset cursors then hydrate_page h
      else
        do! _ := on_cache (replaceHydratedResources (hy_entities h) (hy_tasks h) (hy_objects h)) in
        do! _ := upd (fun s => s <| feedCursor := fd_version response |>) in
        do! _ := record (h_hydrated (hy_generation h) (hy_operation h) (fd_version response)) in
        do! _ := notifySnapshot in
        ret (ends (fulfilled (v_version (Some (fd_version response))))).

(** Applies the events while the operation is the current one; whether it was
    to the end. *)
Fixpoint apply_events (r : recovery_run) (events : list FeedEvent) : T bool :=
  match events with
  | [] => ret true
  | e :: events =>
      do! current := gets (isCurrentOperation (rc_generation r) (rc_operation r)) in
      if negb current then ret false
      else
        do! _ := record (h_recovered (rc_generation r) (rc_operation r) e) in
        do! _ := applyFeedEvent e in apply_events r events
  end.

Definition requireCursor (cursor : option (list Z)) : result (list Z) :=
  match cursor with Some (c :: s) => Ok (c :: s) | _ => Throw (PlainError "Atlas response set has_more without next_cursor") end.

Definition take_page (r : recovery_run) (response : ChangedSinceResponse) : T leaving :=
  do! current := gets (isCurrentOperation (rc_generation r) (rc_operation r)) in
  if negb current then hop (fr_recovery_end r (inl (rc_version r, true)))
  else
    let changed := match rc_version r with Some v => negb (cs_version response =? v) | None => false end in
    if changed then throw (TypeError "Atlas changed-since pagination changed response version")
    else
      do! last := lift (globally_ordered (rc_last r) (cs_events response)) in
      do! whole := apply_events r (cs_events response) in
      if negb whole then hop (fr_recovery_end r (inl (Some (cs_version response), true)))
      else
        do! cursor := lift (if cs_has_more response then let! c := requireCursor (cs_next_cursor response) in Ok (Some c) else Ok None) in
        match cursor with
        | None => hop (fr_recovery_end r (inl (Some (cs_version response), false)))
        | Some c =>
            if bool_decide (c ∈ rc_seen r) then throw (PlainError "Atlas changed-since pagination repeated cursor")
            else
              run_page (mkRecovering (rc_generation r) (rc_operation r) (rc_asked r) (rc_again r) (rc_since r)
                          (Some (cs_version response)) (Some c) last (rc_seen r ++ [c]))
        end.

(** [try { m } catch], the failure going on at its next turn. *)
Definition or_else (m : T leaving) (k : failure -> T leaving) : T leaving := fun s =>
  match m s with (Throw e, s) => k (thrown e) s | r => r end.

Definition got_changes (r : recovery_run) (response : ChangedSinceResponse) : T leaving :=
  or_else (take_page r response) (fun f => hop (fr_run_failed r f)).

Definition CURSOR_EXPIRED : list Z := js "CURSOR_EXPIRED".

Definition run_failed (r : recovery_run) (f : failure) : T leaving :=
  match f with
  | api_error _ code =>
      if negb (rc_again r) && bool_decide (code = CURSOR_EXPIRED)
      then do! p := loadHydratedSnapshot (rc_generation r) (Some (rc_operation r)) in ret (waits (on_promise p) (fr_expired r))
      else hop (fr_recovery_end r (inr f))
  | thrown _ => hop (fr_recovery_end r (inr f))
  end.

Definition expired_hydrated (r : recovery_run) (version : option Z) : T leaving :=
  do! current := gets (isCurrentOperation (rc_generation r) (rc_operation r)) in
  match version with
  | Some v =>
      if current : bool then run_from (rc_generation r) (rc_operation r) (rc_asked r) v true
      else hop (fr_recovery_end r (inl (version, true)))
  | None => hop (fr_recovery_end r (inl (None, true)))
  end.

Definition recovery_end (r : recovery_run) (result : (option Z * bool) + failure) : T leaving :=
  do! current := gets (isCurrentOperation (rc_generation r) (rc_operation r)) in
  match result with
  | inl (version, superseded) =>
      if negb current || superseded then ret (ends (fulfilled (v_bool false)))
      else
        do! _ := upd (fun s => s <| feedCursor ::= Z.max (default (rc_asked r) version) |>) in
        do! _ := markSynchronized in
        do! _ := clear_error_if (is_error recovery_request_failed) in
        ret (ends (fulfilled (v_bool true)))
  | inr f =>
      do! _ := (if negb current then ret tt
                else
                  do! _ := set_error (Some recovery_request_failed) in
                  do! running := gets syncRunning in
                  if running : bool then degrade_and_reconnect else ret tt) in
      reject f
  end.

(** ** Going on: the feed *)

(** What [connectFeedForGeneration] does with a connection that failed. *)
Definition connection_failed (g a : Z) : T unit :=
  do! current := gets (isCurrentFeedConnection g a) in
  if negb current then ret tt
  else
    do! _ := set_error (Some feed_connection_failed) in
    do! running := gets syncRunning in
    if running : bool then degrade_and_reconnect else ret tt.

Definition consumeFeedEvent (e : FeedEvent) (g a : Z) : T leaving :=
  do! active := gets activeHydration in
  ret (waits (match active with Some h => on_promise (ah_promise h) | None => on_nothing end) (fr_consume e g a)).

Definition consume (e : FeedEvent) (g a : Z) : T leaving :=
  do! _ := record (h_consumed g a e) in do! _ := applyFeedEvent e in end_unit.

Definition consume_next (e : FeedEvent) (g a : Z) : T leaving :=
  do! s := gets (fun s => s) in
  if negb (isCurrentFeedConnection g a s) || (event_version e <=? feedCursor s) then end_unit
  else if feedCursor s + 1 <? event_version e then
    do! _ := set_health degraded in
    do! p := changedSinceForGeneration g (feedCursor s) in
    ret (waits (on_promise p) (fr_consume_gap e g a))
  else consume e g a.

Definition consume_gap (e : FeedEvent) (g a : Z) (recovered : bool) : T leaving :=
  do! current := gets (isCurrentFeedConnection g a) in
  if negb recovered || negb current then end_unit else consume e g a.

Definition of_buffer (ref : Z) (s : engine) : FeedRecoveryBuffer := default (mkBuffer 0 0 [] 0) (jget ref (buffers s)).

(** The loop over what was buffered. *)
Definition drain (k : connecting) : T leaving :=
  do! s := gets (fun s => s) in
  let b := of_buffer (cn_buffer k) s in
  match fb_events b, isCurrentFeedConnection (cn_generation k) (cn_attempt k) s with
  | (e, bytes) :: events, true =>
      do! _ := upd (fun s => s <| buffers ::= jset (cn_buffer k) (mkBuffer (fb_generation b) (fb_attempt b) events (fb_bytes b - bytes)) |>) in
      do! p := async (consumeFeedEvent e (cn_generation k) (cn_attempt k)) in
      ret (waits (on_promise p) (fr_feed_drain k))
  | _, false => hop (fr_connect_end k (inl false))
  | [], true =>
      do! _ := upd (fun s => if bool_decide (feedRecoveryBuffer s = Some (cn_buffer k)) then s <| feedRecoveryBuffer := None |> else s) in
      do! _ := markSynchronized in
      do! _ := clear_error_if isFeedErrorCode in
      hop (fr_connect_end k (inl true))
  end.

Definition recoverConnectedFeed (k : connecting) : T leaving :=
  do! current := gets (isCurrentFeedConnection (cn_generation k) (cn_attempt k)) in
  if negb current then hop (fr_connect_end k (inl false))
  else
    do! p := changedSinceForGeneration (cn_generation k) (cn_since k) in
    do! _ := match cn_ownership k with
             | Some o => upd (fun s => s <| ownerships ::= jset o (recoveryOperation s) |>)
             | None => ret tt
             end in
    ret (waits (on_promise p) (fr_feed_recovery k)).

Definition feed_recovered (k : connecting) (recovered : bool) : T leaving :=
  do! current := gets (isCurrentFeedConnection (cn_generation k) (cn_attempt k)) in
  if negb recovered || negb current then hop (fr_connect_end k (inl false))
  else do! _ := set_health degraded in drain k.

(** The failure of the connection reaches [connectFeedForRecovery]. *)
Definition connect_failed (k : connecting) (f : failure) : T leaving :=
  do! current := gets (isCurrentFeedConnection (cn_generation k) (cn_attempt k)) in
  do! _ := (if current : bool then do! _ := invalidateRecovery in ret tt else ret tt) in
  hop (fr_connect_end k (inr f)).

Definition finishFeedRecoveryAttempt (k : connecting) (recoveryCompleted : bool) : T unit :=
  do! s := gets (fun s => s) in
  do! _ := (if bool_decide (feedRecoveryBuffer s = Some (cn_buffer k)) && negb (syncRunning s) && negb recoveryCompleted
            then do! _ := upd (fun s => s <| feedRecoveryBuffer := None |>) in close_feed else ret tt) in
  do! _ := upd (fun s =>
    if bool_decide (feedRecoveryBuffer s = Some (cn_buffer k)) &&
       (recoveryCompleted || negb (isCurrentFeedConnection (cn_generation k) (cn_attempt k) s))
    then s <| feedRecoveryBuffer := None |> else s) in
  do! current := gets (isCurrent (cn_generation k)) in
  if negb current then ret tt
  else
    do! _ := upd (fun s => s <| reconnecting := false |>) in
    do! after := gets reconnectAfterRecovery in
    if negb after then ret tt
    else do! _ := upd (fun s => s <| reconnectAfterRecovery := false |>) in scheduleReconnect.

Definition connect_end (k : connecting) (result : bool + failure) : T leaving :=
  do! _ := finishFeedRecoveryAttempt k (match result with inl b => b | inr _ => false end) in
  match result with inl _ => end_unit | inr f => reject f end.

(** ** Going on: starting *)

Definition assertRevision (actual : list Z) : result unit :=
  guard! bool_decide (actual = ATLAS_PROTOCOL_REVISION) else PlainError "Atlas protocol revision mismatch" in Ok tt.

Definition shaken (g : option Z) (revision : list Z) : T leaving :=
  do! _ := lift (assertRevision revision) in
  match g with
  | None => end_unit
  | Some g =>
      do! current := gets (isCurrent g) in
      if negb current then end_unit
      else do! p := loadHydratedSnapshot g None in ret (waits (on_promise p) (fr_hydrated g))
  end.

(** The end of [startSyncFromStopped]. *)
Definition start_polling (g : Z) : T leaving :=
  do! current := gets (isCurrent g) in
  do! _ := (if current && (0 <? pollIntervalMs) then upd (fun s => s <| pollTimer := Some g |>) else ret tt) in end_unit.

Definition hydrate_ended (g : Z) : T leaving :=
  do! current := gets (isCurrent g) in
  if negb current then end_unit
  else
    do! _ := upd (fun s => s <| syncRunning := true |>) in
    do! _ := markSynchronized in
    if available then do! p := async (connectAndRecoverFeedForGeneration g None) in ret (waits (on_promise p) (fr_feed_started g))
    else start_polling g.

Definition hydrated (g : Z) (version : option Z) : T leaving :=
  match version with
  | None => hydrate_ended g
  | Some v => do! p := changedSinceForGeneration g v in ret (waits (on_promise p) (fr_recovered g))
  end.

Definition first_recovered (g : Z) (recovered : bool) : T leaving :=
  do! current := gets (isCurrent g) in
  if current && negb recovered then throw (PlainError "Atlas initial recovery was superseded") else hydrate_ended g.

Definition feed_started (g : Z) (o : outcome) : T leaving :=
  match o with
  | fulfilled _ => start_polling g
  | rejected _ =>
      do! current := gets (isCurrent g) in
      if negb current then end_unit else do! _ := degrade_and_reconnect in start_polling g
  end.

Definition start_ended (g p : Z) (o : outcome) : T leaving :=
  do! current := gets (isCurrent g) in
  do! _ := match o with
           | rejected _ => upd (fun s => if current && bool_decide (lastErrorCode s = None) then s <| lastErrorCode := Some initial_sync_failed |> else s)
           | fulfilled _ => ret tt
           end in
  do! _ := upd (fun s => if bool_decide (startSyncPromise s = Some p) then s <| startSyncPromise := None |> else s) in
  match o with fulfilled _ => end_unit | rejected f => reject f end.

(** ** Going on: reading, writing, deleting *)

Definition assertExpectedResourceID (t : ResourceType) (expected : list Z) (resource : json) : result unit :=
  let! actual := resourceID t resource in
  guard! bool_decide (actual = expected) else TypeError "Atlas response id does not match requested id" in Ok tt.

Definition isResourceNotFound (f : failure) (t : ResourceType) : bool :=
  match f with
  | api_error status code => (status =? 404) && bool_decide (code = (match t with entity => js "ENTITY_NOT_FOUND" | _ => js "OBJECT_NOT_FOUND" end))
  | thrown _ => false
  end.

Definition notify_if (changed : bool) : T unit := if changed then notifySnapshot else ret tt.

Definition read_options (r : reading) (version : Z) : ResourceReadOptions :=
  match rd_type r with
  | task => mkOptions false (Some version) (rd_fresh r)
  | entity => no_options
  | object => mkOptions true None false
  end.

Definition got_resource (r : reading) (v : json) (version : Z) : T leaving :=
  do! changed := on_cache (applyPointRead (rd_operation r) v (read_options r version)) in
  do! _ := notify_if changed in ret (ends (fulfilled (v_resource v version))).

(** A task's failed read is not settled with the cache. *)
Definition read_failed (r : reading) (f : failure) : T leaving :=
  match rd_type r with
  | task => reject f
  | _ =>
      do! gone := (if isResourceNotFound f (rd_type r) then on_cache (applyPointNotFound (rd_operation r)) else ret false) in
      do! changed := (if gone : bool then ret true else on_cache (completePointRead (rd_operation r))) in
      do! _ := notify_if changed in reject f
  end.

Definition read_answered (r : reading) (o : outcome) : option (T leaving) :=
  match o with
  | rejected f => Some (read_failed r f)
  | fulfilled (v_resource v version) =>
      Some match assertExpectedResourceID (rd_type r) (rd_id r) v with
           | Ok _ => got_resource r v version
           | Throw e => read_failed r (thrown e)
           end
  | _ => None
  end.

(** The version of a task is the response's, that of others is embedded. *)
Definition got_written (w : writing) (v : json) (version : Z) : T leaving :=
  do! id := (if wr_checked_in w then ret (text_of (member_of (Some v) "entity_id")) else lift (resourceID (wr_type w) v)) in
  do! _ := lift (match wr_expected w with
                 | Some expected => guard! bool_decide (id = expected) else TypeError "Atlas response id does not match requested id" in Ok tt
                 | None => Ok tt
                 end) in
  let version := match wr_type w with task => version | t => embeddedResourceVersion t v end in
  do! change := on_cache (applyWrite (mkUpsert (wr_create w) (wr_type w) id version v) (bool_decide (wr_type w = object))) in
  do! _ := deliverChange change in ret (ends (fulfilled (v_resource v version))).

Definition reconcileLocalDelete (t : ResourceType) (id : list Z) (ref : Z) : T leaving :=
  do! needed := gets (fun s => needsLocalDeleteReconcile (cache s) ref) in
  if negb needed then end_unit
  else do! p := async (readPoint t id false) in ret (waits (on_promise p) fr_reconciled).

Definition deleted (t : ResourceType) (id : list Z) (ref : Z) (how : DeleteOutcome) : T leaving :=
  do! change := on_cache (finishLocalDelete ref how) in
  do! _ := deliverChange change in reconcileLocalDelete t id ref.

Definition delete_answered (t : ResourceType) (id : list Z) (ref : Z) (o : outcome) : T leaving :=
  match o with
  | fulfilled _ => deleted t id ref outcome_deleted
  | rejected f =>
      if isResourceNotFound f t then deleted t id ref outcome_not_found
      else do! _ := on_cache (cancelLocalDelete ref) in reject f
  end.

(** ** One turn of a task *)

(** What [.then(clear, clear)] does. *)
Definition clear_recovery (g p : Z) : T leaving :=
  do! _ := upd (fun s =>
    match activeRecovery s with
    | Some (p', _, _) => if isCurrent g s && (p' =? p) then s <| activeRecovery := None |> else s
    | None => s
    end) in end_unit.

Definition clear_hydration (p : Z) : T leaving :=
  do! _ := upd (fun s =>
    match activeHydration s with Some h => if ah_promise h =? p then s <| activeHydration := None |> else s | None => s end) in end_unit.

Definition reconnect_caught (g a ownership : Z) : T leaving :=
  do! s := gets (fun s => s) in
  if negb (isCurrentFeedConnection g a s) then end_unit
  else
    match jget ownership (ownerships s) with
    | Some op => if negb (recoveryOperation s =? op) then end_unit else do! _ := degrade_and_reconnect in end_unit
    | None => do! _ := degrade_and_reconnect in end_unit
    end.

Definition poll_caught (g op : Z) : T leaving :=
  do! current := gets (isCurrentOperation g op) in
  do! _ := (if current : bool then set_health degraded else ret tt) in end_unit.

(** A task goes on with what it waited for; [None] when that does not fit. *)
Definition resume (f : frame) (o : outcome) : option (T leaving) :=
  match f, o with
  | fr_follow, o => Some (ret (ends o))
  | fr_start g p, o => Some (start_ended g p o)
  | fr_handshake g, fulfilled (v_text revision) => Some (shaken g revision)
  | fr_hydrated g, fulfilled (v_version version) => Some (hydrated g version)
  | fr_recovered g, fulfilled (v_bool recovered) => Some (first_recovered g recovered)
  | fr_feed_started g, o => Some (feed_started g o)
  | fr_dataset h, fulfilled (v_dataset response) => Some (got_dataset h response)
  | fr_clear_hydration p, _ => Some (clear_hydration p)
  | fr_changes r, fulfilled (v_changes response) => Some (got_changes r response)
  | fr_changes r, rejected f => Some (hop (fr_run_failed r f))
  | fr_run_failed r f, _ => Some (run_failed r f)
  | fr_expired r, fulfilled (v_version version) => Some (expired_hydrated r version)
  | fr_expired r, rejected f => Some (hop (fr_recovery_end r (inr f)))
  | fr_recovery_end r result, _ => Some (recovery_end r result)
  | fr_clear_recovery g p, _ => Some (clear_recovery g p)
  | fr_connect k, fulfilled _ => Some (recoverConnectedFeed k)
  | fr_connect k, rejected f => Some (do! _ := connection_failed (cn_generation k) (cn_attempt k) in hop (fr_connect_failed k f))
  | fr_connect_failed k f, _ => Some (connect_failed k f)
  | fr_feed_recovery k, fulfilled (v_bool recovered) => Some (feed_recovered k recovered)
  | fr_feed_drain k, fulfilled _ => Some (drain k)
  | fr_feed_recovery k, rejected f | fr_feed_drain k, rejected f => Some (hop (fr_connect_end k (inr f)))
  | fr_connect_end k result, _ => Some (connect_end k result)
  | fr_public_connect g a, fulfilled _ =>
      Some (do! current := gets (isCurrentFeedConnection g a) in
            do! _ := (if current : bool then clear_error_if (is_error feed_connection_failed) else ret tt) in end_unit)
  | fr_public_connect g a, rejected f => Some (do! _ := connection_failed g a in reject f)
  | fr_consume e g a, fulfilled _ => Some (consume_next e g a)
  | fr_consume_gap e g a, fulfilled (v_bool recovered) => Some (consume_gap e g a recovered)
  | fr_reconnect_catch g a ownership, rejected _ => Some (reconnect_caught g a ownership)
  | fr_poll_catch g op, rejected _ => Some (poll_caught g op)
  | fr_reconnect_catch _ _ _, fulfilled _ | fr_poll_catch _ _, fulfilled _ | fr_reconciled, _ => Some end_unit
  | fr_read r, o => read_answered r o
  | fr_write w, fulfilled (v_resource v version) => Some (got_written w v version)
  | fr_delete t id ref, o => Some (delete_answered t id ref o)
  | fr_handshake _, rejected f | fr_hydrated _, rejected f | fr_recovered _, rejected f | fr_dataset _, rejected f
  | fr_consume _ _ _, rejected f | fr_consume_gap _ _ _, rejected f | fr_write _, rejected f => Some (reject f)
  | _, _ => None
  end.

(** ** What happens to the engine *)

Definition onEvent (g a : Z) (e : FeedEvent) (serializedBytes : nat) : T leaving :=
  do! s := gets (fun s => s) in
  if negb (isCurrentFeedConnection g a s) then end_unit
  else
    match feedRecoveryBuffer s with
    | Some ref =>
        let b := of_buffer ref s in
        if (fb_generation b =? g) && (fb_attempt b =? a) then
          if (MAX_BUFFERED_FEED_EVENTS <=? zlen (fb_events b)) ||
             ((0 <? zlen (fb_events b)) && (MAX_BUFFERED_FEED_BYTES <? Z.of_nat (fb_bytes b + serializedBytes)))
          then throw (PlainError "feed recovery buffer exceeded its budget")
          else
            do! _ := upd (fun s => s <| buffers ::= jset ref (mkBuffer g a (fb_events b ++ [(e, serializedBytes)]) (fb_bytes b + serializedBytes)) |>) in
            end_unit
        else consumeFeedEvent e g a
    | None => consumeFeedEvent e g a
    end.

Definition onEventError (g a : Z) : T unit :=
  do! current := gets (isCurrentFeedConnection g a) in
  if negb current then ret tt
  else
    do! _ := beginFeedConnectionAttempt in
    do! code := gets lastErrorCode in
    do! _ := (if is_error recovery_request_failed code then ret tt else set_error (Some feed_event_failed)) in
    do! running := gets syncRunning in
    if negb running then ret tt else do! _ := invalidateRecovery in degrade_and_reconnect.

Definition onClose (g a : Z) : T unit :=
  do! current := gets (isCurrentFeedConnection g a) in
  if negb current then ret tt
  else
    do! _ := beginFeedConnectionAttempt in
    do! running := gets syncRunning in
    if negb running then ret tt
    else do! _ := invalidateRecovery in do! _ := set_error (Some feed_connection_closed) in degrade_and_reconnect.

(** The callback of the reconnect timer. *)
Definition reconnect : T unit :=
  do! timer := gets reconnectTimer in
  match timer with
  | None => ret tt
  | Some g =>
      do! _ := clearReconnectTimer in
      do! ownership := fresh in
      do! p := async (connectAndRecoverFeedForGeneration g (Some ownership)) in
      do! a := gets feedConnectionAttempt in
      react_to p (fr_reconnect_catch g a ownership)
  end.

(** The callback of the polling interval. *)
Definition poll : T unit :=
  do! timer := gets pollTimer in
  match timer with
  | None => ret tt
  | Some g =>
      do! active := gets activeRecovery in
      do! p := match active with
               | Some (p, _, _) => ret p
               | None => do! since := gets feedCursor in changedSinceForGeneration g since
               end in
      do! op := gets recoveryOperation in
      react_to p (fr_poll_catch g op)
  end.

Definition watch (filter : AtlasSubscription) (callback : list Z) : T unit :=
  do! normalized := lift (normalizeSubscription filter) in
  do! key := lift (subscriptionKey normalized) in
  upd (fun s => s <| watchers ::= fun w => jset key (default [] (jget key w) ++ [callback]) w |>).

Definition unwatch (filter : AtlasSubscription) (callback : list Z) : T unit :=
  do! key := lift (subscriptionKey filter) in
  upd (fun s => s <| watchers ::= fun w =>
    match jget key w with
    | Some callbacks =>
        match drop_first (fun c => bool_decide (c = callback)) callbacks with [] => jdel key w | rest => jset key rest w end
    | None => w
    end |>).

Inductive engine_event :=
  | ev_call (c : engine_call)
  | ev_watch (filter : AtlasSubscription) (callback : list Z)
  | ev_unwatch (filter : AtlasSubscription) (callback : list Z)
  | ev_watch_snapshot (callback : list Z)
  | ev_unwatch_snapshot (callback : list Z)
  | ev_reply (id : Z) (o : outcome)
  | ev_turn (id : Z)
  | ev_feed_event (connection : Z) (e : FeedEvent) (serializedBytes : nat)
  | ev_feed_error (connection : Z)
  | ev_feed_close (connection : Z)
  | ev_connected (connected : bool)
  | ev_reconnect
  | ev_poll
  | ev_will_react (calls : list engine_call).

(** Requests are answered once; a failed connection has no callbacks left. *)
Definition reply (id : Z) (o : outcome) (s : engine) : engine :=
  match jget id (requests s) with
  | Some r =>
      if fits r o then
        let s := s <| requests ::= jdel id |> <| settled ::= jset id o |> in
        match o with rejected _ => s <| connections ::= jdel id |> | fulfilled _ => s end
      else s
  | None => s
  end.

Definition turn (id : Z) (s : engine) : engine :=
  match jget id (tasks s) with
  | Some (a, f) =>
      match (match a with on_nothing => Some (fulfilled v_unit) | on_promise p => jget p (settled s) end) with
      | Some o => match resume f o with Some m => snd (leave id m (s <| tasks ::= jdel id |>)) | None => s end
      | None => s
      end
  | None => s
  end.

Definition of_connection (id : Z) (f : Z -> Z -> T unit) (s : engine) : engine :=
  match jget id (connections s) with Some (g, a) => snd (f g a s) | None => s end.

Definition engine_step (e : engine_event) (s : engine) : engine :=
  match e with
  | ev_call c => snd (perform c s)
  | ev_watch filter callback => snd (watch filter callback s)
  | ev_unwatch filter callback => snd (unwatch filter callback s)
  | ev_watch_snapshot callback => s <| snapshotWatchers ::= fun l => l ++ [callback] |>
  | ev_unwatch_snapshot callback => s <| snapshotWatchers ::= drop_first (fun c => bool_decide (c = callback)) |>
  | ev_reply id o => reply id o s
  | ev_turn id => turn id s
  | ev_feed_event id e bytes => of_connection id (fun g a => do! _ := async (onEvent g a e bytes) in ret tt) s
  | ev_feed_error id => of_connection id onEventError s
  | ev_feed_close id => of_connection id onClose (s <| feed_connected := false |>)
  | ev_connected connected => s <| feed_connected := connected |>
  | ev_reconnect => snd (reconnect s)
  | ev_poll => snd (poll s)
  | ev_will_react calls => s <| reactions ::= fun l => l ++ [calls] |>
  end.

Definition engine_run (es : list engine_event) (s : engine) : engine := fold_left (fun s e => engine_step e s) es s.
End engine.
