(* ===== verification/SyncEngineFacts.v ===== *)
(** * The sync engine: what its runs keep

    Tasks of the engine overlap and the application calls it at any time, also
    from its callbacks.  What is shown here holds in every state of every run:
    work of an older lifecycle, recovery or connection never reaches the cache
    ([sync_only_current_work]), one connection at a time is recovered and an
    engine that runs is never left without a feed, a timer or a connection on
    its way ([sync_never_falls_silent]), and what is held back while a feed is
    recovered is bounded ([sync_buffers_bounded]). *)

From Stdlib Require Import ZArith Lia String.
From stdpp Require Import base list option sets.
From S2P Require Import Prelude JsMap JsState Json Frame Contract SdkSubscriptions ResourceCache SyncEngine.

Open Scope string_scope.
Open Scope list_scope.
Open Scope Z_scope.

(** ** Frames *)

(** A task that waits for its connection. *)
Definition connects (f : frame) : option (Z * Z) :=
  match f with
  | fr_connect k => Some (cn_generation k, cn_attempt k)
  | fr_public_connect g a => Some (g, a)
  | _ => None
  end.

(** A task that connects and recovers a feed, at any of its awaits. *)
Definition chains (f : frame) : option Z :=
  match f with
  | fr_connect k | fr_connect_failed k _ | fr_feed_recovery k | fr_feed_drain k | fr_connect_end k _ => Some (cn_generation k)
  | _ => None
  end.

Definition plain (f : frame) : Prop := connects f = None /\ chains f = None.

Abbreviation tasks_of := (list (Z * (awaited * frame))).
Implicit Types (ts : tasks_of) (ps : list (Z * outcome)) (rs : list (Z * request)) (cs : list (Z * (Z * Z))).

(** ** The objects *)

(** What a task waits for a connection of has one, or was refused it. *)
Definition link_ok (p g a : Z) ps cs : Prop := jget p cs = Some (g, a) \/ exists f, jget p ps = Some (rejected f).

(** The ids [held] are of tasks that run at the moment. *)
Record objects (held : list Z) (next : Z) ts ps rs cs : Prop := {
  ob_tasks : jwf ts;
  ob_requests : jwf rs;
  ob_connections : jwf cs;
  ob_held : NoDup held /\ forall id, id ∈ held -> id < next /\ jget id ts = None /\ jget id rs = None /\ jget id cs = None /\
              forall id' f, jget id' ts = Some (on_promise id, f) -> connects f = None;
  ob_next : forall id, next <= id -> jget id ts = None /\ jget id ps = None /\ jget id rs = None /\ jget id cs = None;
  ob_apart : forall id, jget id ts <> None -> jget id rs = None /\ jget id cs = None;
  ob_unsettled : forall id, jget id rs <> None -> jget id ps = None;
  ob_waits : forall id p f g a, jget id ts = Some (on_promise p, f) -> connects f = Some (g, a) ->
               p < next /\ jget p ts = None /\ link_ok p g a ps cs;
  ob_waits_some : forall id w f, jget id ts = Some (w, f) -> connects f <> None -> exists p, w = on_promise p;
  ob_asked : forall p g a, jget p rs <> None -> jget p cs = Some (g, a) ->
               exists id f, jget id ts = Some (on_promise p, f) /\ connects f = Some (g, a)
}.

Lemma objects_fresh held next ts ps rs cs :
  objects held next ts ps rs cs -> objects (next :: held) (next + 1) ts ps rs cs.
Proof.
  intros [Ht Hr Hj [Hd Hh] Hn Ha Hu Hw Hs Hk].
  assert (Hnew : forall id' f, jget id' ts = Some (on_promise next, f) -> connects f = None).
  { intros id' f E. destruct (connects f) as [[g a] |] eqn:Ec; [| done]. destruct (Hw _ _ _ _ _ E Ec); lia. }
  destruct (Hn next ltac:(lia)) as (? & ? & ? & ?).
  split; try done.
  - split; [constructor; [intros Hin; destruct (Hh _ Hin); lia | done] |].
    intros id [-> | Hin]%elem_of_cons; [by repeat split_and!; [lia | ..] |]. destruct (Hh _ Hin) as (? & ? & ? & ? & ?).
    by repeat split_and!; [lia | ..].
  - intros id Hi. apply Hn. lia.
  - intros id p f g a E Ec. destruct (Hw _ _ _ _ _ E Ec) as (? & ? & ?). split_and!; [lia | done | done].
Qed.

Lemma objects_drop id held next ts ps rs cs : objects (id :: held) next ts ps rs cs -> objects held next ts ps rs cs.
Proof.
  intros [Ht Hr Hj [Hd Hh] Hn Ha Hu Hw Hs Hk]. split; try done. apply list.NoDup_cons in Hd as [_ Hd]. split; [done |].
  intros i Hi. apply Hh. by right.
Qed.

Lemma objects_settle id o held next ts ps rs cs :
  objects (id :: held) next ts ps rs cs -> objects held next ts (jset id o ps) rs cs.
Proof.
  intros H. pose proof (objects_drop _ _ _ _ _ _ _ H) as [Ht Hr Hj Hh Hn Ha Hu Hw Hs Hk].
  destruct (proj2 (ob_held _ _ _ _ _ _ H) id ltac:(by left)) as (Hi & _ & Hir & _ & Hiw). split; try done.
  - intros i Hle. rewrite jget_jset_ne by lia. by apply Hn.
  - intros i Hne. rewrite jget_jset_ne by congruence. by apply Hu.
  - intros i p f g a E Ec. destruct (Hw _ _ _ _ _ E Ec) as (? & ? & Hl). split_and!; [done | done |].
    assert (p <> id) by (intros ->; apply Hiw in E; congruence). unfold link_ok. by rewrite jget_jset_ne.
Qed.

(** Its id is nobody's but the task's. *)
Lemma held_fresh id held next ts ps rs cs : objects (id :: held) next ts ps rs cs -> id ∉ held.
Proof. intros H. by destruct (proj1 (list.NoDup_cons _ _) (proj1 (ob_held _ _ _ _ _ _ H))). Qed.

Lemma objects_wait id w f held next ts ps rs cs :
  connects f = None -> objects (id :: held) next ts ps rs cs -> objects held next (jset id (w, f) ts) ps rs cs.
Proof.
  intros Hf H. pose proof (held_fresh _ _ _ _ _ _ _ H) as Hni.
  pose proof (objects_drop _ _ _ _ _ _ _ H) as [Ht Hr Hj [Hd Hh] Hn Ha Hu Hw Hs Hk].
  destruct (proj2 (ob_held _ _ _ _ _ _ H) id ltac:(by left)) as (Hi & Hit & Hir & Hic & Hiw).
  assert (Hold : forall i w' f', jget i (jset id (w, f) ts) = Some (w', f') -> connects f' <> None -> jget i ts = Some (w', f')).
  { intros i w' f'. rewrite jget_jset. case_decide; [intros [= -> ->]; congruence | done]. }
  split; try done.
  - by apply jset_wf.
  - split; [done |]. intros i Hin. destruct (Hh i Hin) as (? & ? & ? & ? & Hc).
    split_and!; [done | | done | done |]; [rewrite jget_jset_ne by (intros ->; done); done |].
    intros i' f' E. destruct (connects f') eqn:Ec; [| done]. rewrite <- Ec. eapply Hc, Hold; [exact E | congruence].
  - intros i Hle. rewrite jget_jset_ne by lia. by apply Hn.
  - intros i. rewrite jget_jset. case_decide; [by subst |]. apply Ha.
  - intros i p f' g a E Ec. apply Hold in E; [| congruence]. destruct (Hw _ _ _ _ _ E Ec) as (? & ? & ?). split_and!; [done | | done].
    rewrite jget_jset_ne; [done |]. intros ->. apply Hiw in E. congruence.
  - intros i w' f' E Ec. eapply Hs; [by apply Hold | done].
  - intros p g a Hp Hc. destruct (Hk p g a Hp Hc) as (i & f' & E & Ec). exists i, f'. split; [| done].
    rewrite jget_jset_ne; [done |]. intros ->. congruence.
Qed.

Lemma objects_ask p r held next ts ps rs cs :
  objects (p :: held) next ts ps rs cs -> jget p ps = None -> objects held next ts ps (jset p r rs) cs.
Proof.
  intros H Hps. pose proof (held_fresh _ _ _ _ _ _ _ H) as Hni.
  pose proof (objects_drop _ _ _ _ _ _ _ H) as [Ht Hr Hj [Hd Hh] Hn Ha Hu Hw Hs Hk].
  destruct (proj2 (ob_held _ _ _ _ _ _ H) p ltac:(by left)) as (Hi & Hit & Hir & Hic & Hiw). split; try done.
  - by apply jset_wf.
  - split; [done |]. intros i Hin. destruct (Hh i Hin) as (? & ? & ? & ? & Hc).
    split_and!; [done | done | | done | done]. rewrite jget_jset_ne; [done | by intros ->].
  - intros i Hle. rewrite jget_jset_ne by lia. by apply Hn.
  - intros i Hit'. destruct (Ha _ Hit'). rewrite jget_jset_ne by congruence. by split.
  - intros i. rewrite jget_jset. case_decide; [by subst |]. apply Hu.
  - intros p' g a. rewrite jget_jset. case_decide; [subst; congruence |]. apply Hk.
Qed.

(** A connection asked for, and the task that waits for it. *)
Lemma objects_connect id p r f g a held next ts ps rs cs :
  connects f = Some (g, a) -> objects (p :: id :: held) next ts ps rs cs -> jget p ps = None ->
  objects held next (jset id (on_promise p, f) ts) ps (jset p r rs) (jset p (g, a) cs).
Proof.
  intros Hf H Hps.
  pose proof (held_fresh _ _ _ _ _ _ _ H) as Hpn. pose proof (held_fresh _ _ _ _ _ _ _ (objects_drop _ _ _ _ _ _ _ H)) as Hin.
  apply not_elem_of_cons in Hpn as [Hpi Hpn].
  destruct (proj2 (ob_held _ _ _ _ _ _ H) p ltac:(by left)) as (Hp & Hpt & Hpr & Hpc & Hpw).
  destruct (proj2 (ob_held _ _ _ _ _ _ H) id ltac:(by right; left)) as (Hi & Hit & Hir & Hic & Hiw).
  destruct (objects_drop _ _ _ _ _ _ _ (objects_drop _ _ _ _ _ _ _ H)) as [Ht Hr Hj [Hd Hh] Hn Ha Hu Hw Hs Hk].
  split.
  - by apply jset_wf.
  - by apply jset_wf.
  - by apply jset_wf.
  - split; [done |]. intros i Hi'. destruct (Hh i Hi') as (? & ? & ? & ? & Hc). assert (i <> p) by (by intros ->). assert (i <> id) by (by intros ->).
    rewrite !jget_jset_ne by done. split_and!; [done .. |]. intros i' f'. rewrite jget_jset. case_decide; [intros [= -> _]; done |]. apply Hc.
  - intros i Hle. rewrite !jget_jset_ne by lia. by apply Hn.
  - intros i. rewrite !jget_jset. repeat case_decide; subst; try done; try congruence. apply Ha.
  - intros i. rewrite jget_jset. case_decide; [by subst |]. apply Hu.
  - intros i p' f' g' a'. rewrite !jget_jset. case_decide as Hd1.
    + intros [= <- <-] Ec. rewrite (decide_False (P := p = id)) by done. split_and!; [done | done |]. left.
      rewrite jget_jset_eq. congruence.
    + intros E Ec. destruct (Hw _ _ _ _ _ E Ec) as (? & ? & Hl).
      assert (p' <> p) by (intros ->; apply Hpw in E; congruence). assert (p' <> id) by (intros ->; apply Hiw in E; congruence).
      rewrite decide_False by done. split_and!; [done | done |]. unfold link_ok. by rewrite jget_jset_ne.
  - intros i w f'. rewrite jget_jset. case_decide; [intros [= <- <-] _; by eexists | apply Hs].
  - intros p' g' a'. rewrite !jget_jset. case_decide as Hd1.
    + subst. intros _ [= <- <-]. exists id, f. split; [| done]. by rewrite jget_jset_eq.
    + intros Hp' Hc. destruct (Hk p' g' a' Hp' Hc) as (i & f' & E & Ec). exists i, f'. split; [| done].
      rewrite jget_jset_ne; [done |]. intros ->. congruence.
Qed.

(** A task goes on, with what it waited for. *)
Lemma objects_turn id w f held next ts ps rs cs :
  objects held next ts ps rs cs -> jget id ts = Some (w, f) -> (forall p, w = on_promise p -> jget p ps <> None) ->
  objects (id :: held) next (jdel id ts) ps rs cs.
Proof.
  intros H E Hset. pose proof H as [Ht Hr Hj [Hd Hh] Hn Ha Hu Hw Hs Hk].
  assert (Hi : id < next). { destruct (Z.lt_ge_cases id next); [done |]. destruct (Hn id); congruence. }
  assert (Hsub : forall i v, jget i (jdel id ts) = Some v -> jget i ts = Some v /\ i <> id).
  { intros i v. rewrite jget_jdel by done. by case_decide. }
  assert (Hnone : forall i, jget i ts = None -> jget i (jdel id ts) = None).
  { intros i. rewrite jget_jdel by done. by case_decide. }
  split; try done.
  - by apply jdel_wf.
  - assert (Hni : id ∉ held) by (intros Hin; destruct (Hh _ Hin) as (? & ? & _); congruence).
    split; [by constructor |]. intros i [-> | Hin]%elem_of_cons.
    + destruct (Ha id ltac:(congruence)). split_and!; [done | by rewrite jget_jdel, decide_True | done | done |].
      intros i' f' [E' _]%Hsub. destruct (connects f') as [[g a] |] eqn:Ec; [| done]. destruct (Hw _ _ _ _ _ E' Ec) as (_ & ? & _). congruence.
    + destruct (Hh _ Hin) as (? & ? & ? & ? & Hc). split_and!; [done | by apply Hnone | done | done |].
      intros i' f' [E' _]%Hsub. by eapply Hc.
  - intros i Hle. destruct (Hn i Hle) as (? & ?). split; [by apply Hnone | done].
  - intros i Hi'. apply Ha. intros E'. by apply Hi', Hnone.
  - intros i p f' g a [E' _]%Hsub Ec. destruct (Hw _ _ _ _ _ E' Ec) as (? & ? & ?). split_and!; [done | by apply Hnone | done].
  - intros i w' f' [E' _]%Hsub. by eapply Hs.
  - intros p g a Hp Hc. destruct (Hk p g a Hp Hc) as (i & f' & E' & Ec). exists i, f'. split; [| done].
    rewrite jget_jdel_ne; [done |]. intros ->. rewrite E in E'. injection E' as -> ->. by apply (Hset p), Hu.
Qed.

(** A request is answered. *)
Lemma objects_reply p o held next ts ps rs cs :
  objects held next ts ps rs cs -> jget p rs <> None ->
  objects held next ts (jset p o ps) (jdel p rs) (match o with rejected _ => jdel p cs | fulfilled _ => cs end).
Proof.
  intros [Ht Hr Hj [Hd Hh] Hn Ha Hu Hw Hs Hk] Hp.
  assert (Hrs : forall i, jget i (jdel p rs) <> None -> i <> p /\ jget i rs <> None) by (intros i; rewrite jget_jdel by done; by case_decide).
  assert (Hc : forall i, i <> p -> jget i (match o with rejected _ => jdel p cs | fulfilled _ => cs end) = jget i cs).
  { intros i Hi. destruct o; [done | by apply jget_jdel_ne]. }
  assert (Hcn : forall i, jget i cs = None -> jget i (match o with rejected _ => jdel p cs | fulfilled _ => cs end) = None).
  { intros i. destruct o; [done |]. rewrite jget_jdel by done. by case_decide. }
  split.
  - done.
  - by apply jdel_wf.
  - destruct o; [done | by apply jdel_wf].
  - split; [done |]. intros i Hin. destruct (Hh i Hin) as (? & ? & ? & ? & ?). assert (i <> p) by congruence.
    rewrite jget_jdel_ne, Hc by done. done.
  - intros i Hi. destruct (Hn i Hi) as (? & ? & ? & ?). assert (i <> p) by congruence. rewrite jget_jset_ne, jget_jdel_ne, Hc by done. done.
  - intros i Hi. destruct (Ha i Hi). assert (i <> p) by congruence. rewrite jget_jdel_ne, Hc by done. done.
  - intros i [Hi Hi']%Hrs. rewrite jget_jset_ne by done. by apply Hu.
  - intros i p' f g a E Ec. destruct (Hw _ _ _ _ _ E Ec) as (? & ? & Hl). split_and!; [done | done |]. unfold link_ok.
    destruct (decide (p' = p)) as [-> | Hne]; [| by rewrite jget_jset_ne, Hc].
    rewrite jget_jset_eq. destruct o as [v | f']; [| by right; eexists]. left. destruct Hl as [Hl | [f' Hl]]; [done |].
    rewrite Hu in Hl; done.
  - done.
  - intros p' g a [Hi Hi']%Hrs. rewrite Hc by done. by apply Hk.
Qed.

(** ** One recovery of a feed *)

Definition chain (G : Z) ts (id : Z) : Prop := exists w f, jget id ts = Some (w, f) /\ chains f = Some G.

(** A feed is being recovered by one task, or by the one that runs at the
    moment ([inhand]). *)
Record chained (inhand : bool) (G : Z) (recovers : bool) ts : Prop := {
  ch_past : forall id w f g, jget id ts = Some (w, f) -> chains f = Some g -> g <= G;
  ch_one : match recovers, inhand with
           | true, true | false, false => forall id, ~ chain G ts id
           | true, false => exists id, forall id', chain G ts id' <-> id' = id
           | false, true => False
           end
}.

Lemma chained_wait inhand G recovers ts id w f :
  jget id ts = None -> chains f = None -> chained inhand G recovers ts -> chained inhand G recovers (jset id (w, f) ts).
Proof.
  intros Hi Hf [Hp Ho].
  assert (Hc : forall id', chain G (jset id (w, f) ts) id' <-> chain G ts id').
  { intros id'. unfold chain. rewrite jget_jset. case_decide; [subst | done]. rewrite Hi. split; intros (? & ? & ? & ?); congruence. }
  split.
  - intros i w' f' g. rewrite jget_jset. case_decide; [intros [= -> ->]; congruence | apply Hp].
  - destruct recovers, inhand; try done; [by setoid_rewrite Hc | | by setoid_rewrite Hc]. destruct Ho as [i Ho]. exists i. intros i'. by rewrite Hc.
Qed.

(** The task that recovers the feed waits again. *)
Lemma chained_again G ts id w f :
  jget id ts = None -> chains f = Some G -> chained true G true ts -> chained false G true (jset id (w, f) ts).
Proof.
  intros Hi Hf [Hp Ho]. split.
  - intros i w' f' g. rewrite jget_jset. case_decide; [intros [= -> ->] E; rewrite Hf in E; injection E; lia | apply Hp].
  - exists id. intros id'. unfold chain. rewrite jget_jset. case_decide; [subst | split; [intros Hc | done]].
    + split; [done |]. intros _. by exists w, f.
    + by apply (Ho id') in Hc.
Qed.

Lemma chained_past inhand G recovers ts id w f g :
  jget id ts = None -> chains f = Some g -> g < G -> chained inhand G recovers ts -> chained inhand G recovers (jset id (w, f) ts).
Proof.
  intros Hi Hf Hg [Hp Ho].
  assert (Hc : forall id', chain G (jset id (w, f) ts) id' <-> chain G ts id').
  { intros id'. unfold chain. rewrite jget_jset. case_decide; [subst | done]. rewrite Hi. split; intros (w' & f' & E & Ec); [| done].
    injection E as -> ->. rewrite Hf in Ec. injection Ec. lia. }
  split.
  - intros i w' f' g'. rewrite jget_jset. case_decide; [intros [= -> ->] E; rewrite Hf in E; injection E; lia | apply Hp].
  - destruct recovers, inhand; try done; [by setoid_rewrite Hc | | by setoid_rewrite Hc]. destruct Ho as [i Ho]. exists i. intros i'. by rewrite Hc.
Qed.

(** Such a task goes on: it runs. *)
Lemma chained_turn G recovers ts id w f :
  jwf ts -> jget id ts = Some (w, f) -> chained false G recovers ts ->
  chained (bool_decide (chains f = Some G)) G recovers (jdel id ts).
Proof.
  intros Hwf E [Hp Ho].
  assert (Hc : forall i, chain G (jdel id ts) i <-> i <> id /\ chain G ts i).
  { intros i. unfold chain. rewrite jget_jdel by done. case_decide; [split; [by intros (? & ? & ? & _) | by intros []] | split; [by split | by intros []]]. }
  split.
  - intros i w' f' g. rewrite jget_jdel by done. case_decide; [done | apply Hp].
  - case_bool_decide as Hf.
    + assert (Hid : chain G ts id) by (by exists w, f). destruct recovers; [| by apply (Ho id) in Hid].
      destruct Ho as [i Ho]. apply Ho in Hid as ->. intros i' [? ?%Ho]%Hc. done.
    + destruct recovers; [| intros i [_ ?]%Hc; by apply (Ho i)]. destruct Ho as [i Ho]. exists i. intros i'. rewrite Hc, Ho.
      split; [by intros [] |]. intros ->. split; [| done]. intros ->. destruct (proj2 (Ho id) eq_refl) as (w' & f' & E' & Ef). congruence.
Qed.

Lemma chained_begins G ts : chained false G false ts -> chained true G true ts.
Proof. by intros [Hp Ho]. Qed.

Lemma chained_ends G ts : chained true G true ts -> chained false G false ts.
Proof. by intros [Hp Ho]. Qed.

(** A lifecycle of its own. *)
Lemma chained_generation inhand G recovers ts : chained inhand G recovers ts -> chained false (G + 1) false ts.
Proof.
  intros [Hp _]. split; [intros id w f g E Ef; specialize (Hp _ _ _ _ E Ef); lia |].
  intros id (w & f & E & Ef). specialize (Hp _ _ _ _ E Ef). lia.
Qed.

(** ** What was current *)

Fixpoint latest (which : sync_entry -> option Z) (past : list sync_entry) : Z :=
  match past with
  | [] => 0
  | e :: past => match which e with Some n => n | None => latest which past end
  end.

Definition generation_of (past : list sync_entry) : Z := latest (fun e => match e with h_generation g => Some g | _ => None end) past.
Definition operation_of (past : list sync_entry) : Z := latest (fun e => match e with h_operation op => Some op | _ => None end) past.
Definition attempt_of (past : list sync_entry) : Z := latest (fun e => match e with h_attempt a => Some a | _ => None end) past.

(** What reaches the cache is the work of the lifecycle, the recovery and the
    connection that are current. *)
Definition entry_ok (e : sync_entry) (past : list sync_entry) : Prop :=
  match e with
  | h_hydrated g op _ => generation_of past = g /\ match op with Some op => operation_of past = op | None => True end
  | h_recovered g op _ => generation_of past = g /\ operation_of past = op
  | h_consumed g a _ => generation_of past = g /\ attempt_of past = a
  | _ => True
  end.

Record traced (G op A : Z) (h : list sync_entry) : Prop := {
  tr_generation : generation_of h = G;
  tr_operation : operation_of h = op;
  tr_attempt : attempt_of h = A;
  tr_ok : forall later e past, h = later ++ e :: past -> entry_ok e past
}.

Definition generation_after (e : sync_entry) (G : Z) : Z := match e with h_generation g => g | _ => G end.
Definition operation_after (e : sync_entry) (op : Z) : Z := match e with h_operation op => op | _ => op end.
Definition attempt_after (e : sync_entry) (A : Z) : Z := match e with h_attempt a => a | _ => A end.

Lemma traced_cons G op A h e : traced G op A h -> entry_ok e h ->
  traced (generation_after e G) (operation_after e op) (attempt_after e A) (e :: h).
Proof.
  intros [Hg Ho Ha Hh] He. split; try (by destruct e).
  intros [| x later] e' past; cbn; intros [= -> ->]; [done | by eapply Hh].
Qed.

(** ** What is held back *)

Definition bytes_of (events : list (FeedEvent * nat)) : nat := foldr (fun e n => (snd e + n)%nat) 0%nat events.

Definition bounded (b : FeedRecoveryBuffer) : Prop :=
  zlen (fb_events b) <= MAX_BUFFERED_FEED_EVENTS /\ fb_bytes b = bytes_of (fb_events b) /\
  (Z.of_nat (fb_bytes b) <= MAX_BUFFERED_FEED_BYTES \/ zlen (fb_events b) = 1).

Definition buffered (bs : list (Z * FeedRecoveryBuffer)) : Prop := forall ref b, jget ref bs = Some b -> bounded b.

Lemma buffered_set ref b bs : buffered bs -> bounded b -> buffered (jset ref b bs).
Proof. intros H Hb ref' b'. rewrite jget_jset. case_decide; [by intros [= <-] | apply H]. Qed.

Lemma bounded_empty g a : bounded (mkBuffer g a [] 0).
Proof. split; [done |]. split; [done |]. by left. Qed.

Lemma bytes_of_app l1 l2 : bytes_of (l1 ++ l2) = (bytes_of l1 + bytes_of l2)%nat.
Proof. unfold bytes_of. induction l1; cbn; lia. Qed.

(** ** A feed, or one on its way *)

(** The connection of the current attempt is open, or asked for. *)
Definition linked (G A : Z) ts cs : Prop :=
  (exists p, jget p cs = Some (G, A)) \/
  exists id p f, jget id ts = Some (on_promise p, f) /\ connects f = Some (G, A).

Definition live (running : bool) (timer : option Z) (recovers again : bool) (G A : Z) ts cs : Prop :=
  running = true -> timer <> None \/ recovers && again = true \/ linked G A ts cs.

Lemma linked_wait G A ts cs id w f : jget id ts = None -> linked G A ts cs -> linked G A (jset id (w, f) ts) cs.
Proof.
  intros Hi [H | (i & p & f' & E & Ec)]; [by left |]. right. exists i, p, f'. rewrite jget_jset_ne; [done |]. intros ->. congruence.
Qed.

(** ** The invariant *)

Section facts.
Context (available : bool) (pollIntervalMs : Z) (ATLAS_PROTOCOL_REVISION : list Z) (isObjectDetailResource : json -> bool).
Implicit Types (s : engine).

Abbreviation T := (eff engine).

(** All but the last part. *)
Record invariant (inhand : bool) (held : list Z) s : Prop := {
  in_objects : objects held (next_object s) (tasks s) (settled s) (requests s) (connections s);
  in_chained : chained inhand (lifecycleGeneration s) (reconnecting s) (tasks s);
  in_timed : forall g, reconnectTimer s = Some g -> g = lifecycleGeneration s;
  in_traced : traced (lifecycleGeneration s) (recoveryOperation s) (feedConnectionAttempt s) (sync_history s);
  in_buffered : buffered (buffers s)
}.

Definition feeding s : Prop :=
  available = true ->
  live (syncRunning s) (reconnectTimer s) (reconnecting s) (reconnectAfterRecovery s) (lifecycleGeneration s) (feedConnectionAttempt s)
    (tasks s) (connections s).

Definition sound (inhand : bool) (held : list Z) s : Prop := invariant inhand held s /\ feeding s.

(** What a step of a task keeps, with those tasks running that run. *)
Definition safe (inhand : bool) {A} (m : T A) : Prop := forall held s, sound inhand held s -> sound inhand held (snd (m s)).

(** What a task keeps that runs to its next await, or to its end. *)
Definition leaves (inhand : bool) (m : T leaving) : Prop :=
  forall id held s, sound inhand (id :: held) s -> sound inhand held (snd (leave id m s)).

Lemma safe_ret b {A} (a : A) : safe b (ret a).
Proof. by intros held s. Qed.
Lemma safe_throw b {A} e : safe b (throw (A := A) e).
Proof. by intros held s. Qed.
Lemma safe_lift b {A} (r : result A) : safe b (lift r).
Proof. by intros held s. Qed.
Lemma safe_gets b {A} (f : engine -> A) : safe b (gets f).
Proof. by intros held s. Qed.

Lemma safe_bind b {A B} (m : T A) (k : A -> T B) : safe b m -> (forall a, safe b (k a)) -> safe b (bind_eff m k).
Proof.
  intros Hm Hk held s H. unfold bind_eff. specialize (Hm held s H). destruct (m s) as [[a | e] s']; [by apply Hk | done].
Qed.

Lemma safe_for_each b {A} (f : A -> T unit) l : (forall x, safe b (f x)) -> safe b (for_each f l).
Proof. intros H. induction l; [apply safe_ret | apply safe_bind; [done | by intros _]]. Qed.

(** A test, with what it found. *)
Lemma safe_known b {A B} (f : engine -> A) (k : A -> T B) :
  (forall held s, sound b held s -> sound b held (snd (k (f s) s))) -> safe b (bind_eff (gets f) k).
Proof. intros H held s Hs. by apply H. Qed.

Lemma sound_drop b id held s : sound b (id :: held) s -> sound b held s.
Proof. intros [[Ho ? ? ? ?] ?]. split; [| done]. split; try done. by eapply objects_drop. Qed.

Lemma sound_fresh b held s : sound b held s -> sound b (next_object s :: held) (s <| next_object ::= fun n => n + 1 |>).
Proof. intros [[Ho ? ? ? ?] ?]. split; [| done]. split; try done. by apply objects_fresh. Qed.

Lemma sound_settle b id o held s : sound b (id :: held) s -> sound b held (s <| settled ::= jset id o |>).
Proof. intros [[Ho ? ? ? ?] ?]. split; [| done]. split; try done. by apply objects_settle. Qed.

Lemma held_absent b id held s : invariant b (id :: held) s -> jget id (tasks s) = None.
Proof. intros [Ho ? ? ? ?]. by destruct (proj2 (ob_held _ _ _ _ _ _ Ho) id ltac:(by left)) as (_ & ? & _). Qed.

Lemma sound_wait b id w f held s : plain f -> sound b (id :: held) s -> sound b held (s <| tasks ::= jset id (w, f) |>).
Proof.
  intros [Hc Hf] H. pose proof (held_absent _ _ _ _ (proj1 H)) as Hi. destruct H as [[Ho ? ? ? ?] Hl]. split; [split; try done |].
  - by apply objects_wait.
  - by apply chained_wait.
  - intros Ha Hr. destruct (Hl Ha Hr) as [? | [? | Hk]]; [by left | by right; left | right; right]. by apply linked_wait.
Qed.

Lemma leaves_ends b o : leaves b (ret (ends o)).
Proof. intros id held s H. exact (sound_settle b id o held s H). Qed.
Lemma leaves_throw b e : leaves b (throw e).
Proof. intros id held s H. exact (sound_settle b id (rejected (thrown e)) held s H). Qed.
Lemma leaves_waits b w f : plain f -> leaves b (ret (waits w f)).
Proof. intros Hf id held s H. exact (sound_wait b id w f held s Hf H). Qed.
Lemma leaves_hop b f : plain f -> leaves b (hop f).
Proof. apply leaves_waits. Qed.

Lemma leaves_bind b {A} (m : T A) (k : A -> T leaving) : safe b m -> (forall a, leaves b (k a)) -> leaves b (bind_eff m k).
Proof.
  intros Hm Hk id held s H. unfold leave, bind_eff. specialize (Hm _ _ H). destruct (m s) as [[a | e] s'] eqn:E; [| by apply sound_settle].
  exact (Hk a id held s' Hm).
Qed.

Lemma leaves_known b {A} (f : engine -> A) (k : A -> T leaving) :
  (forall id held s, sound b (id :: held) s -> sound b held (snd (leave id (k (f s)) s))) -> leaves b (bind_eff (gets f) k).
Proof. intros H id held s Hs. exact (H id held s Hs). Qed.

Lemma async_leave m s : async m s = (Ok (next_object s), snd (leave (next_object s) m (s <| next_object ::= fun n => n + 1 |>))).
Proof. unfold async, bind_eff, fresh, leave. by destruct (m _) as [[[]|] ?]. Qed.

Lemma safe_async b m : leaves b m -> safe b (async m).
Proof.
  intros Hm held s H. rewrite async_leave. exact (Hm _ _ _ (sound_fresh _ _ _ H)).
Qed.

Lemma safe_react b p f : plain f -> safe b (react_to p f).
Proof. intros Hf. apply safe_bind; [by apply safe_async, leaves_waits | intros; apply safe_ret]. Qed.

Lemma safe_fresh b : safe b fresh.
Proof. intros held s H. by eapply sound_drop, sound_fresh. Qed.

(** Entries that say nothing of what is current. *)
Definition neutral (e : sync_entry) : Prop :=
  match e with
  | h_generation _ | h_operation _ | h_attempt _ | h_hydrated _ _ _ | h_recovered _ _ _ | h_consumed _ _ _ => False
  | _ => True
  end.

Lemma sound_entry b held s e :
  generation_after e (lifecycleGeneration s) = lifecycleGeneration s -> operation_after e (recoveryOperation s) = recoveryOperation s ->
  attempt_after e (feedConnectionAttempt s) = feedConnectionAttempt s -> entry_ok e (sync_history s) ->
  sound b held s -> sound b held (s <| sync_history ::= cons e |>).
Proof.
  intros Hg Ho Ha He [[? ? ? Ht ?] ?]. split; [| done]. split; try done. cbn.
  apply (traced_cons _ _ _ _ e) in Ht; [| done]. by rewrite Hg, Ho, Ha in Ht.
Qed.

Lemma safe_record b e : neutral e -> safe b (record e).
Proof. intros He held s H. destruct e; try done; by apply sound_entry. Qed.

Lemma safe_ask b r : safe b (ask r).
Proof.
  intros held s H. pose proof H as [[Ho _ _ _ _] _]. destruct (ob_next _ _ _ _ _ _ Ho (next_object s) ltac:(lia)) as (_ & Hps & _).
  apply sound_fresh in H as [[Ho' ? ? ? ?] ?]. apply sound_entry; [done .. |]. split; [| done]. split; try done. by apply objects_ask.
Qed.

Lemma safe_on_cache b {A} (m : eff ResourceCache A) : safe b (on_cache m).
Proof. intros held s [[]]. unfold on_cache. destruct (m (cache s)). by split; [split |]. Qed.
End facts.

(** A change of what the invariant does not see. *)
Ltac unseen :=
  let Hi := fresh in let Hf := fresh in
  intros ? ? [[] Hf]; cbn; repeat case_match; (split; [split |]; assumption).

Create HintDb sync.
#[export] Hint Resolve safe_ret safe_throw safe_lift safe_gets safe_fresh safe_ask safe_on_cache leaves_ends leaves_throw : sync.
#[export] Hint Extern 2 (safe _ _ (record _)) => apply safe_record; exact I : sync.
#[export] Hint Extern 2 (safe _ _ (upd _)) => solve [unseen] : sync.
#[export] Hint Extern 2 (leaves _ _ (ret (waits _ _))) => apply leaves_waits; by split : sync.
#[export] Hint Extern 2 (leaves _ _ (hop _)) => apply leaves_hop; by split : sync.
#[export] Hint Extern 2 (safe _ _ (react_to _ _)) => apply safe_react; by split : sync.

(** Along the shape of a program. *)
Ltac shape :=
  repeat match goal with
  | |- safe _ _ (bind_eff _ _) => apply safe_bind; [| intro]
  | |- leaves _ _ (bind_eff _ _) => apply leaves_bind; [| intro]
  | |- safe _ _ (async _) => apply safe_async
  | |- safe _ _ (for_each _ _) => apply safe_for_each; intro
  | |- safe _ _ (if ?b then _ else _) => destruct b
  | |- leaves _ _ (if ?b then _ else _) => destruct b
  | |- safe _ _ (match ?x with _ => _ end) => destruct x
  | |- leaves _ _ (match ?x with _ => _ end) => destruct x
  | |- leaves _ _ (let _ := _ in _) => cbv zeta
  | |- safe _ _ (let _ := _ in _) => cbv zeta
  end; auto with sync.

Section operations.
Context (available : bool) (pollIntervalMs : Z) (ATLAS_PROTOCOL_REVISION : list Z) (isObjectDetailResource : json -> bool).
Implicit Types (s : engine).
Abbreviation safe := (safe available).
Abbreviation leaves := (leaves available).
Abbreviation sound := (sound available).

(** Restoring a feed, or a timer for one. *)
Lemma scheduleReconnect_sound b held s : invariant b held s -> sound b held (snd (scheduleReconnect available s)).
Proof.
  intros [? ? Ht ? ?]. unfold scheduleReconnect. cbn. destruct (syncRunning s) eqn:Hr; cbn [negb orb].
  2: { split; [by split |]. intros _. unfold live. by rewrite Hr. }
  destruct available eqn:Hv; cbn [negb orb]; [| by split; [split |]].
  case_bool_decide as Hn; cbn [negb]; [| by split; [split |]; [done .. |]; intros _ _; left].
  destruct (reconnecting s) eqn:Hc; (split; [split; cbn; try done |]).
  - intros _ _. by right; left.
  - intros g [= <-]. done.
  - intros _ _. by left.
Qed.

Lemma schedule_safe b : safe b (scheduleReconnect available).
Proof. intros held s [H _]. by apply scheduleReconnect_sound. Qed.
#[local] Hint Resolve schedule_safe : sync.

Lemma degrade_safe b : safe b (degrade_and_reconnect available).
Proof. unfold degrade_and_reconnect, set_health. shape. Qed.
#[local] Hint Resolve degrade_safe : sync.

Lemma invalidate_safe b : safe b invalidateRecovery.
Proof.
  intros held s [[? ? ? Ht ?] ?]. unfold invalidateRecovery. cbn. split; [| done]. split; try done. cbn.
  by apply (traced_cons _ _ _ _ (h_operation (recoveryOperation s + 1))) in Ht.
Qed.
#[local] Hint Resolve invalidate_safe : sync.

Lemma run_page_leaves b r : leaves b (run_page r).
Proof. unfold run_page. shape. Qed.
#[local] Hint Resolve run_page_leaves : sync.

Lemma recoverSince_leaves b g since op : leaves b (recoverSince g since op).
Proof. unfold recoverSince, run_from, set_health. shape. Qed.
#[local] Hint Resolve recoverSince_leaves : sync.

Lemma changedSince_safe b g since : safe b (changedSinceForGeneration g since).
Proof. unfold changedSinceForGeneration. shape. Qed.
#[local] Hint Resolve changedSince_safe : sync.

Lemma hydrate_page_leaves b h : leaves b (hydrate_page h).
Proof. unfold hydrate_page. shape. Qed.
#[local] Hint Resolve hydrate_page_leaves : sync.

Lemma load_safe b g op : safe b (loadHydratedSnapshot g op).
Proof. unfold loadHydratedSnapshot. shape. Qed.
#[local] Hint Resolve load_safe : sync.

(** *** Connections *)

Lemma attempt_invariant b held s : invariant b held s -> invariant b held (snd (beginFeedConnectionAttempt s)).
Proof.
  intros [? ? ? Ht ?]. split; try done. by apply (traced_cons _ _ _ _ (h_attempt (feedConnectionAttempt s + 1))) in Ht.
Qed.

(** A task that asks for a connection and waits for it. *)
Lemma link_sound b b' id held s f :
  invariant b (id :: held) s -> connects f = Some (lifecycleGeneration s, feedConnectionAttempt s) ->
  (forall w, chained b' (lifecycleGeneration s) (reconnecting s) (jset id (w, f) (tasks s))) ->
  sound b' held (snd (leave id (do! p := ask_connection (lifecycleGeneration s) (feedConnectionAttempt s) in ret (waits (on_promise p) f)) s)).
Proof.
  intros [Ho ? ? Ht ?] Hf Hc. destruct (ob_next _ _ _ _ _ _ Ho (next_object s) ltac:(lia)) as (_ & Hps & _).
  split; [split; cbn; try done |].
  - apply objects_connect; [done | by apply objects_fresh | done].
  - by apply (traced_cons _ _ _ _ (h_requested (rq_connect (lifecycleGeneration s) (feedConnectionAttempt s)))) in Ht.
  - intros _ _. right. right. left. exists (next_object s). apply jget_jset_eq.
Qed.

Lemma connectFeed_leaves b : leaves b connectFeed.
Proof.
  intros id held s H. destruct H as [H _]. pose proof (held_absent _ _ _ _ H) as Hi. pose proof (attempt_invariant _ _ _ H) as H'.
  apply (link_sound b b id held _ (fr_public_connect (lifecycleGeneration s) (feedConnectionAttempt s + 1)) H' eq_refl).
  intros w. apply chained_wait; [done | done | apply H'].
Qed.

Lemma again_safe b : safe b (upd (fun s => s <| reconnectAfterRecovery := true |>)).
Proof.
  intros held s [[] Hf]. split; [by split |]. intros Ha Hr. destruct (Hf Ha Hr) as [? | [Hb | ?]]; [by left | | by right; right].
  right. left. by apply andb_true_iff in Hb as [Hb _]; cbn; rewrite Hb.
Qed.

(** A step that returns, and what is known after it. *)
Lemma leave_after {A} (Q : A -> engine -> Prop) (R : engine -> Prop) id (m : eff engine A) k s :
  (exists a s1, m s = (Ok a, s1) /\ Q a s1) -> (forall a s1, Q a s1 -> R (snd (leave id (k a) s1))) ->
  R (snd (leave id (bind_eff m k) s)).
Proof. intros (a & s1 & E & H) Hk. unfold leave at 1, bind_eff. rewrite E. exact (Hk a s1 H). Qed.

(** A recovery of the feed under way. *)
Definition opening g held s : Prop := invariant true held s /\ lifecycleGeneration s = g /\ reconnecting s = true.
Definition opened g a held s : Prop := opening g held s /\ feedConnectionAttempt s = a.

Lemma again_restores b held s : invariant b held s -> reconnecting s = true -> sound b held (s <| reconnectAfterRecovery := true |>).
Proof. intros [] Hr. split; [by split |]. intros _ _. right. left. cbn. by rewrite Hr. Qed.

(** It restores the feed of the current lifecycle. *)
Lemma connectAndRecover_restores g o id held s :
  invariant false (id :: held) s -> (isCurrent g s = false -> feeding available s) ->
  sound false held (snd (leave id (connectAndRecoverFeedForGeneration g o) s)).
Proof.
  intros H Hf. unfold connectAndRecoverFeedForGeneration.
  apply (leave_after (fun a s1 => a = s /\ s1 = s)); [by eexists _, _ |]. intros ? ? [-> ->].
  destruct (isCurrent g s) eqn:Hg; cbn [negb]; [| apply leaves_ends; by split; auto].
  destruct (reconnecting s) eqn:Hr.
  { apply (leave_after (fun _ => sound false (id :: held))); [eexists _, _; split; [done | by apply again_restores] |].
    intros _ s1. apply leaves_ends. }
  unfold isCurrent in Hg. apply Z.eqb_eq in Hg.
  apply (leave_after (fun _ => opening g (id :: held))).
  { eexists _, _. split; [done |]. destruct H as [? Hc ? ? ?]. rewrite Hr, Hg in Hc. split; [| done].
    split; try done. cbn. rewrite Hg. by apply chained_begins. }
  intros _ s1 (H1 & G1 & R1). apply (leave_after (fun _ => opening g (id :: held))).
  { eexists _, _. split; [done |]. destruct H1. by split; [split |]. }
  clear dependent s s1. intros _ s (H & G & R). apply (leave_after (fun a => opened g a (id :: held))).
  { eexists _, _. split; [done |]. split; [| done]. split; [| done]. by apply attempt_invariant. }
  clear dependent s. intros a s [(H & G & R) Ha]. apply (leave_after (fun _ => opened g a (id :: held))).
  { eexists _, _. split; [done |]. split; [| done]. split; [| done]. destruct H. split; try done. by eapply objects_drop, objects_fresh. }
  clear dependent s. intros buffer s [(H & G & R) Ha]. apply (leave_after (fun _ => opened g a (id :: held))); [by eexists _, _ |].
  clear dependent s. intros since s [(H & G & R) Ha]. apply (leave_after (fun _ => opened g a (id :: held))).
  { eexists _, _. split; [done |]. split; [| done]. split; [| done]. destruct H. split; try done. apply buffered_set; [done | apply bounded_empty]. }
  clear dependent s. intros _ s [(H & <- & R) <-]. apply (link_sound true false id held s (fr_connect _)); [done | done |].
  intros w. rewrite R. apply chained_again; [by eapply held_absent | done |].
  pose proof (in_chained _ _ _ H) as Hc. by rewrite R in Hc.
Qed.

Lemma connectAndRecover_leaves g o : leaves false (connectAndRecoverFeedForGeneration g o).
Proof. intros id held s [H Hf]. by apply connectAndRecover_restores. Qed.

(** A call of it. *)
Lemma connectAndRecover_called g o held s :
  invariant false held s -> (isCurrent g s = false -> feeding available s) ->
  exists p s1, async (connectAndRecoverFeedForGeneration g o) s = (Ok p, s1) /\ sound false held s1.
Proof.
  intros H Hf. assert (H1 : invariant false (next_object s :: held) (s <| next_object ::= fun n => n + 1 |>)).
  { destruct H. split; try done. by apply objects_fresh. }
  eexists _, _. split; [apply async_leave |]. by apply connectAndRecover_restores.
Qed.
#[local] Hint Resolve connectFeed_leaves connectAndRecover_leaves : sync.

(** *** Starting and stopping *)

Lemma handshake_leaves b g : leaves b (handshake g).
Proof. unfold handshake. shape. Qed.
#[local] Hint Resolve handshake_leaves : sync.

(** Where a lifecycle begins or ends: no recovery is of the new one. *)
Record resetting held s : Prop := {
  re_objects : objects held (next_object s) (tasks s) (settled s) (requests s) (connections s);
  re_chained : chained false (lifecycleGeneration s) false (tasks s);
  re_traced : traced (lifecycleGeneration s) (recoveryOperation s) (feedConnectionAttempt s) (sync_history s);
  re_buffered : buffered (buffers s)
}.

Lemma reset_next b held s : invariant b held s -> exists g s1, next_generation s = (Ok g, s1) /\ resetting held s1 /\ syncRunning s1 = syncRunning s.
Proof.
  intros [? ? ? Ht ?]. eexists _, _. split; [done |]. split; [| done]. split; cbn; try done; [by eapply chained_generation |].
  by apply (traced_cons _ _ _ _ (h_generation (lifecycleGeneration s + 1))) in Ht.
Qed.

Lemma reset_operation held s :
  resetting held s -> exists op s1, invalidateRecovery s = (Ok op, s1) /\ resetting held s1 /\ syncRunning s1 = syncRunning s.
Proof.
  intros [? ? Ht ?]. eexists _, _. split; [done |]. split; [| done]. split; cbn; try done.
  by apply (traced_cons _ _ _ _ (h_operation (recoveryOperation s + 1))) in Ht.
Qed.

Lemma reset_sound held s : resetting held s -> reconnecting s = false -> reconnectTimer s = None -> syncRunning s = false -> sound false held s.
Proof. intros [? ? ? ?] Hc Ht Hr. split; [split; [done | by rewrite Hc | by rewrite Ht | done | done] |]. intros _. unfold live. by rewrite Hr. Qed.

Lemma start_leaves : leaves false start.
Proof.
  intros id held s H. unfold start.
  apply (leave_after (fun a s1 => a = s /\ s1 = s)); [by eexists _, _ |]. intros ? ? [-> ->].
  destruct (syncRunning s) eqn:Hr; [by apply leaves_ends |].
  destruct (startSyncPromise s) as [p |]; [by apply leaves_waits |].
  apply (leave_after (fun _ s => resetting (id :: held) s /\ syncRunning s = false)); [rewrite <- Hr; by eapply reset_next, (proj1 H) |].
  clear dependent s. intros g s [H Hr]. apply (leave_after (fun _ s => resetting (id :: held) s /\ syncRunning s = false)).
  { rewrite <- Hr. by apply reset_operation. }
  clear dependent s. intros _ s [H Hr]. apply (leave_after (fun _ s => (resetting (id :: held) s /\ syncRunning s = false) /\ reconnectTimer s = None)).
  { eexists _, _. split; [done |]. destruct H. by split. }
  clear dependent s. intros _ s [[H Hr] Ht]. apply (leave_after (fun _ => sound false (id :: held))).
  { eexists _, _. split; [done |]. apply reset_sound; destruct H; done. }
  clear dependent s. intros _ s. revert id held s. change (leaves false (do! p := async (handshake (Some g)) in
    do! _ := upd (fun s => s <| startSyncPromise := Some p |>) in ret (waits (on_promise p) (fr_start g p)))). shape.
Qed.
#[local] Hint Resolve start_leaves : sync.

(** The same, of a program that is not about to leave. *)
Lemma step_after {A B} (Q : A -> engine -> Prop) (R : engine -> Prop) (m : eff engine A) (k : A -> eff engine B) s :
  (exists a s1, m s = (Ok a, s1) /\ Q a s1) -> (forall a s1, Q a s1 -> R (snd (k a s1))) -> R (snd (bind_eff m k s)).
Proof. intros (a & s1 & E & H) Hk. unfold bind_eff. rewrite E. by apply Hk. Qed.

Lemma stop_safe : safe false stop.
Proof.
  intros held s H. unfold stop. apply (step_after (fun _ => resetting held)).
  { destruct (reset_next _ _ _ (proj1 H)) as (g & s1 & E & Hs & _). by exists g, s1. }
  clear dependent s. intros _ s H. apply (step_after (fun _ => resetting held)); [eexists _, _; by destruct H |].
  clear dependent s. intros _ s H. apply (step_after (fun _ s => resetting held s /\ reconnectTimer s = None)); [eexists _, _; by destruct H |].
  clear dependent s. intros _ s [H Ht]. apply (step_after (fun _ => sound false held)).
  { eexists _, _. split; [done |]. apply reset_sound; destruct H; done. }
  clear dependent s. intros _ s. revert held s. change (safe false (do! _ := invalidateRecovery in
    do! _ := upd (fun s => s <| lastErrorCode := None |> <| feedRecoveryBuffer := None |>) in do! _ := close_feed in set_health idle)).
  unfold close_feed, set_health. shape.
Qed.
#[local] Hint Resolve stop_safe : sync.

(** *** The application *)

Lemma subscribe_safe b filter : safe b (subscribe filter).
Proof. unfold subscribe. shape. Qed.
Lemma unsubscribe_safe b filter : safe b (unsubscribe filter).
Proof. unfold unsubscribe. shape. Qed.

Lemma readPoint_leaves b t id fresh : leaves b (readPoint t id fresh).
Proof. unfold readPoint. shape. Qed.
#[local] Hint Resolve subscribe_safe unsubscribe_safe readPoint_leaves : sync.

Lemma read_leaves b t id fresh : leaves b (read isObjectDetailResource t id fresh).
Proof. unfold read, canServeFromCache. shape. Qed.
Lemma write_leaves b w : leaves b (write w).
Proof. unfold write. shape. Qed.
Lemma delete_leaves b t id : leaves b (deleteResource t id).
Proof. unfold deleteResource. shape. Qed.
#[local] Hint Resolve read_leaves write_leaves delete_leaves : sync.

Lemma perform_safe c : safe false (perform isObjectDetailResource c).
Proof. unfold perform. destruct c; shape. Qed.
#[local] Hint Resolve perform_safe : sync.

Lemma call_back_safe : safe false (call_back isObjectDetailResource).
Proof. unfold call_back. shape. Qed.
#[local] Hint Resolve call_back_safe : sync.

Lemma notify_safe e resource : safe false (notify isObjectDetailResource e resource).
Proof. unfold notify, tell. shape. Qed.
Lemma notifySnapshot_safe : safe false (notifySnapshot isObjectDetailResource).
Proof. unfold notifySnapshot. shape. Qed.
#[local] Hint Resolve notify_safe notifySnapshot_safe : sync.

Lemma deliverChange_safe change : safe false (deliverChange isObjectDetailResource change).
Proof. unfold deliverChange. shape. Qed.
#[local] Hint Resolve deliverChange_safe : sync.

Lemma applyFeedEvent_safe e : safe false (applyFeedEvent isObjectDetailResource e).
Proof. unfold applyFeedEvent. shape. Qed.
#[local] Hint Resolve applyFeedEvent_safe : sync.

(** *** Hydration and recovery *)

(** What a task keeps that found [P], up to the entry that needs it. *)
Definition leaves_if (P : engine -> Prop) (m : eff engine leaving) : Prop :=
  forall id held s, sound false (id :: held) s -> P s -> sound false held (snd (leave id m s)).

Lemma leaves_if_bind P {A} (m : eff engine A) k :
  safe false m -> (forall s, P s -> P (snd (m s))) -> (forall a, leaves_if P (k a)) -> leaves_if P (bind_eff m k).
Proof.
  intros Hm HP Hk id held s H Hs. unfold leave, bind_eff. specialize (Hm _ _ H). specialize (HP _ Hs).
  destruct (m s) as [[a | e] s'] eqn:E; [| by apply sound_settle]. exact (Hk a id held s' Hm HP).
Qed.

Lemma leaves_if_any P m : leaves false m -> leaves_if P m.
Proof. intros Hm id held s H _. by apply Hm. Qed.

(** An entry of work that is current. *)
Definition working (e : sync_entry) s : Prop :=
  match e with
  | h_hydrated g op _ => lifecycleGeneration s = g /\ match op with Some op => recoveryOperation s = op | None => True end
  | h_recovered g op _ => lifecycleGeneration s = g /\ recoveryOperation s = op
  | h_consumed g a _ => lifecycleGeneration s = g /\ feedConnectionAttempt s = a
  | _ => False
  end.

Lemma working_sound b held s e : working e s -> sound b held s -> sound b held (snd (record e s)).
Proof.
  intros He H. pose proof H as [[_ _ _ [Hg Ho Ha _] _] _].
  apply sound_entry; try done; destruct e; try done; cbn in *; rewrite ?Hg, ?Ho, ?Ha; done.
Qed.

Lemma leaves_if_record (P : engine -> Prop) e k : (forall s, P s -> working e s) -> leaves false k -> leaves_if P (do! _ := record e in k).
Proof. intros He Hk id held s H Hs. apply (Hk id held (snd (record e s))), working_sound, H. by apply He. Qed.

Ltac if_known P :=
  match goal with
  | H : sound _ _ ?s |- sound _ _ (snd (leave ?id ?m ?s)) => refine ((_ : leaves_if P m) id _ s H _); [clear dependent s id | assumption]
  end.

Lemma got_dataset_leaves h response : leaves false (got_dataset isObjectDetailResource h response).
Proof.
  unfold got_dataset. apply leaves_known. intros id held s H. destruct (isCurrentHydration h s) eqn:Hc; cbn [negb]; [| by apply leaves_ends].
  if_known (fun s => isCurrentHydration h s = true). cbv zeta.
  match goal with |- leaves_if _ (if ?b then _ else _) => destruct b end; [apply leaves_if_any, leaves_throw |].
  apply leaves_if_bind; [auto with sync | done |]. intros seen.
  destruct (hasMoreFullDataset _); [apply leaves_if_any; auto with sync |]. cbn [hy_entities hy_tasks hy_objects hy_generation hy_operation].
  apply leaves_if_bind; [auto with sync | by intros s Hs; unfold on_cache; destruct (replaceHydratedResources _ _ _ _) |]. intros _.
  apply leaves_if_bind; [auto with sync | done |]. intros _.
  apply leaves_if_record; [| shape]. intros s. unfold isCurrentHydration, isCurrentOperation, isCurrent. cbn.
  destruct (hy_operation h); intros Hs; reflect_tests; done.
Qed.
#[local] Hint Resolve got_dataset_leaves : sync.

Lemma apply_events_safe r events : safe false (apply_events isObjectDetailResource r events).
Proof.
  induction events as [| e events IH]; cbn [apply_events]; [shape |]. apply safe_known. intros held s H.
  destruct (isCurrentOperation _ _ s) eqn:Hc; cbn [negb]; [| done].
  apply (safe_bind _ _ (applyFeedEvent isObjectDetailResource e) (fun _ => apply_events isObjectDetailResource r events)
    (applyFeedEvent_safe e) (fun _ => IH) held (snd (record (h_recovered (rc_generation r) (rc_operation r) e) s))).
  apply working_sound; [| done]. unfold isCurrentOperation, isCurrent in Hc. cbn. by reflect_tests.
Qed.
#[local] Hint Resolve apply_events_safe : sync.

Lemma take_page_leaves r response : leaves false (take_page isObjectDetailResource r response).
Proof. unfold take_page. shape. Qed.

(** A failure that is caught where it happens. *)
Lemma leaves_or_else b m k : leaves b m -> (forall f, leaves b (k f)) -> (forall held s, sound b held s -> sound b held (snd (m s))) -> leaves b (or_else m k).
Proof.
  intros Hm Hk Hs id held s H. specialize (Hm id held s H). specialize (Hs _ _ H). unfold leave, or_else in *.
  destruct (m s) as [[l | e] s']; [exact Hm | exact (Hk (thrown e) id held s' Hs)].
Qed.

Lemma take_page_safe r response : safe false (take_page isObjectDetailResource r response).
Proof. unfold take_page, run_page, hop. shape. Qed.

Lemma got_changes_leaves r response : leaves false (got_changes isObjectDetailResource r response).
Proof. apply leaves_or_else; [apply take_page_leaves | intros; shape | apply take_page_safe]. Qed.

Lemma run_failed_leaves r f : leaves false (run_failed r f).
Proof. unfold run_failed. shape. Qed.

Lemma expired_leaves r version : leaves false (expired_hydrated r version).
Proof. unfold expired_hydrated, run_from. shape. Qed.

Lemma recovery_end_leaves r result : leaves false (recovery_end available pollIntervalMs r result).
Proof. unfold recovery_end, markSynchronized, clear_error_if, set_error, reject. shape. Qed.
#[local] Hint Resolve got_changes_leaves run_failed_leaves expired_leaves recovery_end_leaves : sync.

(** *** The feed *)

Lemma consumeFeedEvent_leaves b e g a : leaves b (consumeFeedEvent e g a).
Proof. unfold consumeFeedEvent. shape. Qed.
#[local] Hint Resolve consumeFeedEvent_leaves : sync.

Lemma consume_known e g a : leaves_if (fun s => isCurrentFeedConnection g a s = true) (consume isObjectDetailResource e g a).
Proof.
  apply leaves_if_record; [| unfold end_unit; shape]. intros s. unfold isCurrentFeedConnection, isCurrent. intros Hs. by reflect_tests.
Qed.

Lemma consume_next_leaves e g a : leaves false (consume_next isObjectDetailResource e g a).
Proof.
  apply leaves_known. intros id held s H. destruct (isCurrentFeedConnection g a s) eqn:Hc; cbn [negb orb]; [| by apply leaves_ends].
  destruct (_ <=? _); [by apply leaves_ends |]. destruct (_ <? _); [| by apply consume_known].
  refine ((_ : leaves false _) id held s H). unfold set_health. shape.
Qed.

Lemma consume_gap_leaves e g a recovered : leaves false (consume_gap isObjectDetailResource e g a recovered).
Proof.
  apply leaves_known. intros id held s H. destruct recovered; cbn [negb orb]; [| by apply leaves_ends].
  destruct (isCurrentFeedConnection g a s) eqn:Hc; cbn [negb]; [by apply consume_known | by apply leaves_ends].
Qed.
#[local] Hint Resolve consume_next_leaves consume_gap_leaves : sync.

(** The task that recovers the feed of generation [g], which is of the current
    lifecycle or of a past one. *)
Definition goes_on (g : Z) (m : eff engine leaving) : Prop :=
  forall id held s, g <= lifecycleGeneration s -> sound (bool_decide (g = lifecycleGeneration s)) (id :: held) s -> sound false held (snd (leave id m s)).

(** What such a task does between its awaits. *)
Definition quiet {A} (m : eff engine A) : Prop :=
  forall s, exists a s', m s = (Ok a, s') /\ lifecycleGeneration s' = lifecycleGeneration s.

Lemma goes_on_bind g {A} (m : eff engine A) k :
  quiet m -> (forall b, safe b m) -> (forall a, goes_on g (k a)) -> goes_on g (bind_eff m k).
Proof.
  intros Hq Hm Hk id held s Hg H. destruct (Hq s) as (a & s' & E & G). unfold leave, bind_eff.
  specialize (Hm _ _ _ H). rewrite E in *. refine (Hk a id held s' _ _); by rewrite G.
Qed.

Lemma goes_on_waits g w f : chains f = Some g -> connects f = None -> goes_on g (ret (waits w f)).
Proof.
  intros Hf Hc id held s Hg [H Hl]. pose proof (held_absent _ _ _ _ H) as Hi. destruct H as [? Hch ? ? ?]. split; [split; try done |].
  - by apply objects_wait.
  - case_bool_decide as Hd.
    + subst g. destruct (reconnecting s) eqn:Hr; [| by destruct Hch]. cbn. rewrite Hr. by apply chained_again.
    + cbn. apply chained_past with g; [done | done | lia | done].
  - intros Ha Hr. destruct (Hl Ha Hr) as [? | [? | Hk]]; [by left | by right; left | right; right]. by apply linked_wait.
Qed.

Lemma goes_on_hop g f : chains f = Some g -> connects f = None -> goes_on g (hop f).
Proof. apply goes_on_waits. Qed.

Lemma quiet_gets {A} (f : engine -> A) : quiet (gets f).
Proof. intros s. by eexists _, _. Qed.
Lemma quiet_ret {A} (a : A) : quiet (ret a).
Proof. intros s. by eexists _, _. Qed.
Lemma quiet_upd f : (forall s, lifecycleGeneration (f s) = lifecycleGeneration s) -> quiet (upd f).
Proof. intros H s. eexists _, _. split; [done | apply H]. Qed.
Lemma quiet_bind {A B} (m : eff engine A) (k : A -> eff engine B) : quiet m -> (forall a, quiet (k a)) -> quiet (bind_eff m k).
Proof.
  intros Hm Hk s. destruct (Hm s) as (a & s1 & E & G). destruct (Hk a s1) as (b & s2 & E2 & G2). exists b, s2. unfold bind_eff.
  rewrite E. split; [done | congruence].
Qed.
Lemma quiet_async m : quiet m -> quiet (async m).
Proof.
  intros Hm. apply quiet_bind; [intros s; by eexists _, _ | intros id]. apply quiet_bind; [| intros; apply quiet_ret].
  intros s. destruct (Hm s) as (l & s1 & E & G). unfold leave. rewrite E. destruct l; by eexists _, _.
Qed.
Lemma quiet_ask r : quiet (ask r).
Proof. intros s. by eexists _, _. Qed.
Lemma quiet_invalidate : quiet invalidateRecovery.
Proof. intros s. by eexists _, _. Qed.
Lemma quiet_react p f : quiet (react_to p f).
Proof. apply quiet_bind; [apply quiet_async, quiet_ret | intros; apply quiet_ret]. Qed.

Ltac quietly :=
  repeat match goal with
  | |- quiet (bind_eff _ _) => apply quiet_bind; [| intro]
  | |- quiet (gets _) => apply quiet_gets
  | |- quiet (ret _) => apply quiet_ret
  | |- quiet (hop _) => apply quiet_ret
  | |- quiet (upd _) => apply quiet_upd; intros; repeat case_match; reflexivity
  | |- quiet (ask _) => apply quiet_ask
  | |- quiet (record _) => apply quiet_upd; reflexivity
  | |- quiet (async _) => apply quiet_async
  | |- quiet (react_to _ _) => apply quiet_react
  | |- quiet invalidateRecovery => apply quiet_invalidate
  | |- quiet (let _ := _ in _) => cbv zeta
  | |- quiet (if ?b then _ else _) => destruct b
  | |- quiet (match ?x with _ => _ end) => destruct x
  end.

Lemma quiet_changedSince g since : quiet (changedSinceForGeneration g since).
Proof. unfold changedSinceForGeneration, recoverSince, run_from, run_page, set_health. quietly. Qed.

Lemma quiet_schedule : quiet (scheduleReconnect available).
Proof. unfold scheduleReconnect. quietly. Qed.

Lemma quiet_failed g a : quiet (connection_failed available g a).
Proof. unfold connection_failed, degrade_and_reconnect, set_error, set_health. quietly; apply quiet_schedule. Qed.

Lemma of_buffer_bounded ref s : buffered (buffers s) -> bounded (of_buffer ref s).
Proof. intros H. unfold of_buffer. destruct (jget ref (buffers s)) eqn:E; [by apply (H ref) | apply bounded_empty]. Qed.

Lemma bounded_shift g a b e n events : bounded b -> fb_events b = (e, n) :: events -> bounded (mkBuffer g a events (fb_bytes b - n)).
Proof.
  intros (Hl & Hb & Hm) E. rewrite E, ?zlen_cons in *. cbn in Hb. pose proof (zlen_nonneg events). unfold bounded. cbn.
  split; [lia |]. split; [lia |]. destruct Hm as [Hm | Hm]; [left; lia |].
  destruct events as [| e' events]; [| rewrite zlen_cons in *; pose proof (zlen_nonneg events); lia]. left. cbn in Hb. assert (fb_bytes b - n = 0)%nat as -> by lia. done.
Qed.

Lemma buffer_sound b held s ref buffer : bounded buffer -> sound b held s -> sound b held (s <| buffers ::= jset ref buffer |>).
Proof. intros Hb [[] ?]. split; [| done]. split; try done. by apply buffered_set. Qed.

Lemma drain_goes_on k : goes_on (cn_generation k) (drain pollIntervalMs k).
Proof.
  intros id held s Hg H. unfold drain. apply (leave_after (fun a s1 => a = s /\ s1 = s)); [by eexists _, _ |]. intros ? ? [-> ->].
  assert (He : forall r, goes_on (cn_generation k) (hop (fr_connect_end k r))) by (intros; by apply goes_on_hop).
  pose proof (of_buffer_bounded (cn_buffer k) s (in_buffered _ _ _ (proj1 H))) as Hb.
  destruct (fb_events (of_buffer (cn_buffer k) s)) as [| [e bytes] events] eqn:E, (isCurrentFeedConnection _ _ s); [| by apply He | | by apply He].
  - revert id held s Hg H E Hb. unfold markSynchronized, clear_error_if.
    intros id held s Hg H _ _. refine (goes_on_bind _ _ _ _ _ _ id held s Hg H); [quietly | intros; shape | intros _].
    do 2 (apply goes_on_bind; [quietly | intros; shape | intros _]). apply He.
  - apply (bounded_shift (fb_generation (of_buffer (cn_buffer k) s)) (fb_attempt (of_buffer (cn_buffer k) s)) _ _ _ _ Hb) in E.
    apply (leave_after (fun _ s1 => sound (bool_decide (cn_generation k = lifecycleGeneration s1)) (id :: held) s1 /\ cn_generation k <= lifecycleGeneration s1)).
    { eexists _, _. split; [done |]. split; [by apply buffer_sound | done]. }
    clear dependent s. intros _ s [H Hg]. revert id held s Hg H. apply goes_on_bind; [unfold consumeFeedEvent; quietly | intros; shape | intros p].
    by apply goes_on_waits.
Qed.

Lemma recoverConnectedFeed_goes_on k : goes_on (cn_generation k) (recoverConnectedFeed k).
Proof.
  unfold recoverConnectedFeed. apply goes_on_bind; [quietly | intros; shape | intros current].
  destruct current; cbn [negb]; [| by apply goes_on_hop].
  apply goes_on_bind; [apply quiet_changedSince | intros; shape | intros p].
  apply goes_on_bind; [quietly | intros; shape | intros _]. by apply goes_on_waits.
Qed.

Lemma feed_recovered_goes_on k recovered : goes_on (cn_generation k) (feed_recovered pollIntervalMs k recovered).
Proof.
  unfold feed_recovered, set_health. apply goes_on_bind; [quietly | intros; shape | intros current].
  destruct (_ || _); [by apply goes_on_hop |]. apply goes_on_bind; [quietly | intros; shape | intros _]. apply drain_goes_on.
Qed.

Lemma connect_failed_goes_on k f : goes_on (cn_generation k) (connect_failed k f).
Proof.
  unfold connect_failed. apply goes_on_bind; [quietly | intros; shape | intros current].
  apply goes_on_bind; [quietly | intros; shape | intros _]. by apply goes_on_hop.
Qed.

(** *** The end of a recovery *)

(** It returns, and no recovery is under way. *)
Definition over g (m : eff engine unit) : Prop :=
  forall held s, g <= lifecycleGeneration s -> sound (bool_decide (g = lifecycleGeneration s)) held s ->
  exists s', m s = (Ok tt, s') /\ sound false held s'.

Lemma over_bind g {A} (m : eff engine A) k : quiet m -> (forall b, safe b m) -> (forall a, over g (k a)) -> over g (bind_eff m k).
Proof.
  intros Hq Hm Hk held s Hg H. destruct (Hq s) as (a & s' & E & G). specialize (Hm _ _ _ H). unfold bind_eff. rewrite E in *.
  apply Hk; by rewrite G.
Qed.

Lemma finish_over k recoveryCompleted : over (cn_generation k) (finishFeedRecoveryAttempt available k recoveryCompleted).
Proof.
  unfold finishFeedRecoveryAttempt, close_feed. apply over_bind; [quietly | intros; shape | intros s0].
  apply over_bind; [quietly | intros; shape | intros _]. apply over_bind; [quietly | intros; shape | intros _].
  intros held s Hg H. unfold bind_eff, gets at 1, isCurrent. rewrite (Z.eqb_sym _ (cn_generation k)).
  case_bool_decide as Hd; [rewrite Hd, Z.eqb_refl | rewrite (proj2 (Z.eqb_neq _ _)) by done]; cbn [negb]; [| by eexists].
  destruct H as [[? Hc ? ? ?] Hf]. destruct (reconnecting s) eqn:Hr; [| by destruct Hc].
  assert (Hs : invariant false held (s <| reconnecting := false |>)) by (split; try done; by apply chained_ends).
  cbn. destruct (reconnectAfterRecovery s) eqn:Ha; cbn [negb].
  - assert (Hs' : invariant false held (s <| reconnecting := false |> <| reconnectAfterRecovery := false |>)) by (by destruct Hs).
    eexists. split; [reflexivity |]. exact (scheduleReconnect_sound _ _ _ Hs').
  - eexists. split; [reflexivity |]. split; [by destruct Hs |]. intros Hv Hrun. destruct (Hf Hv Hrun) as [? | [Hb | ?]]; [by left | | by right; right].
    rewrite Ha, Hr in Hb. done.
Qed.

Lemma connect_end_goes_on k result : goes_on (cn_generation k) (connect_end available k result).
Proof.
  intros id held s Hg H. unfold connect_end.
  destruct (finish_over k (match result with inl b => b | inr _ => false end) _ _ Hg H) as (s' & E & H').
  apply (leave_after (fun _ => sound false (id :: held))); [by exists (), s' |]. clear dependent s s'. intros _ s H.
  destruct result; by apply leaves_ends.
Qed.

(** A connection that failed; the task that waited for it was all there was
    of the feed. *)
Lemma failed_sound b g a held s :
  invariant b held s -> (isCurrentFeedConnection g a s = false -> feeding available s) -> sound b held (snd (connection_failed available g a s)).
Proof.
  intros H Hf. unfold connection_failed. unfold bind_eff at 1, gets at 1. destruct (isCurrentFeedConnection g a s) eqn:Hc; cbn [negb]; [| by split; auto].
  unfold bind_eff at 1, set_error, upd, modify. cbn beta iota.
  set (s1 := s <| lastErrorCode := _ |>). assert (H1 : invariant b held s1) by (by destruct H).
  unfold bind_eff at 1, gets at 1. destruct (syncRunning s1) eqn:Hr.
  - unfold degrade_and_reconnect, set_health, bind_eff, upd, modify. apply scheduleReconnect_sound. by destruct H1.
  - split; [done |]. intros _ Hrun. change (syncRunning s1 = true) in Hrun. congruence.
Qed.

(** *** The other tasks *)

Lemma reject_leaves b f : leaves b (reject f).
Proof. apply leaves_ends. Qed.
Lemma end_unit_leaves b : leaves b end_unit.
Proof. apply leaves_ends. Qed.
#[local] Hint Resolve reject_leaves end_unit_leaves : sync.

Lemma start_polling_leaves g : leaves false (start_polling pollIntervalMs g).
Proof. unfold start_polling. shape. Qed.
#[local] Hint Resolve start_polling_leaves : sync.

Lemma shaken_leaves g revision : leaves false (shaken ATLAS_PROTOCOL_REVISION g revision).
Proof. unfold shaken. shape. Qed.

(** It runs from now on: a feed is connected, if there can be one. *)
Lemma hydrate_ended_leaves g : leaves false (hydrate_ended available pollIntervalMs g).
Proof.
  intros id held s H. unfold hydrate_ended.
  apply (leave_after (fun a s1 => a = isCurrent g s /\ s1 = s)); [by eexists _, _ |]. intros ? ? [-> ->].
  destruct (isCurrent g s) eqn:Hg; cbn [negb]; [| by apply leaves_ends].
  apply (leave_after (fun _ s => invariant false (id :: held) s /\ isCurrent g s = true)).
  { eexists _, _. split; [done |]. by destruct H as [[] _]. }
  clear dependent s. intros _ s [H Hg]. apply (leave_after (fun _ s => invariant false (id :: held) s /\ isCurrent g s = true)).
  { eexists _, _. split; [done |]. by destruct H. }
  clear dependent s. intros _ s [H Hg]. destruct available eqn:Hv.
  - apply (leave_after (fun _ => sound false (id :: held))).
    + apply connectAndRecover_called; [done | congruence].
    + intros p s1 H1. rewrite <- Hv. by apply leaves_waits.
  - rewrite <- Hv at 1. apply start_polling_leaves. split; [done |]. intros Hv'. congruence.
Qed.
#[local] Hint Resolve shaken_leaves hydrate_ended_leaves : sync.

Lemma hydrated_leaves g version : leaves false (hydrated available pollIntervalMs g version).
Proof. unfold hydrated. shape. Qed.
Lemma first_recovered_leaves g recovered : leaves false (first_recovered available pollIntervalMs g recovered).
Proof. unfold first_recovered. shape. Qed.
Lemma feed_started_leaves g o : leaves false (feed_started available pollIntervalMs g o).
Proof. unfold feed_started. shape. Qed.
Lemma start_ended_leaves g p o : leaves false (start_ended g p o).
Proof. unfold start_ended. shape. Qed.

Lemma got_resource_leaves r v version : leaves false (got_resource isObjectDetailResource r v version).
Proof. unfold got_resource, notify_if. shape. Qed.
Lemma read_failed_leaves r f : leaves false (read_failed isObjectDetailResource r f).
Proof. unfold read_failed, notify_if. shape. Qed.
Lemma got_written_leaves w v version : leaves false (got_written isObjectDetailResource w v version).
Proof. unfold got_written. shape. Qed.
Lemma deleted_leaves t id ref how : leaves false (deleted isObjectDetailResource t id ref how).
Proof. unfold deleted, reconcileLocalDelete. shape. Qed.
#[local] Hint Resolve hydrated_leaves first_recovered_leaves feed_started_leaves start_ended_leaves : sync.
#[local] Hint Resolve got_resource_leaves read_failed_leaves got_written_leaves deleted_leaves : sync.

Lemma delete_answered_leaves t id ref o : leaves false (delete_answered isObjectDetailResource t id ref o).
Proof. unfold delete_answered. shape. Qed.
Lemma clear_recovery_leaves g p : leaves false (clear_recovery g p).
Proof. unfold clear_recovery. shape. Qed.
Lemma clear_hydration_leaves p : leaves false (clear_hydration p).
Proof. unfold clear_hydration. shape. Qed.
Lemma reconnect_caught_leaves g a o : leaves false (reconnect_caught available g a o).
Proof. unfold reconnect_caught. shape. Qed.
Lemma poll_caught_leaves g op : leaves false (poll_caught g op).
Proof. unfold poll_caught, set_health. shape. Qed.
#[local] Hint Resolve delete_answered_leaves clear_recovery_leaves clear_hydration_leaves reconnect_caught_leaves poll_caught_leaves : sync.

(** *** What the feed and the timers call *)

Lemma onEvent_leaves g a e bytes : leaves false (onEvent g a e bytes).
Proof.
  apply leaves_known. intros id held s H. destruct (isCurrentFeedConnection g a s); cbn [negb]; [| by apply leaves_ends].
  destruct (feedRecoveryBuffer s) as [ref |]; [| by apply consumeFeedEvent_leaves].
  pose proof (of_buffer_bounded ref s (in_buffered _ _ _ (proj1 H))) as Hb. set (b := of_buffer ref s) in *. cbv zeta.
  destruct (_ && _); [| by apply consumeFeedEvent_leaves].
  destruct (_ || _) eqn:Hfull; [by apply leaves_throw |]. apply orb_false_iff in Hfull as [Hn Hm].
  apply (leave_after (fun _ => sound false (id :: held))); [| intros; by apply leaves_ends].
  eexists _, _. split; [done |]. apply buffer_sound; [| done]. destruct Hb as (_ & Hs & _). unfold bounded. cbn.
  rewrite zlen_app, bytes_of_app, <- Hs. cbn. change (zlen [(e, bytes)]) with 1. rewrite Nat.add_0_r. reflect_tests.
  split; [lia |]. split; [done |]. pose proof (zlen_nonneg (fb_events b)).
  destruct Hm as [Hm | Hm]; reflect_tests; [right; lia | by left].
Qed.

Lemma degrade_restores b held s : invariant b held s -> sound b held (snd (degrade_and_reconnect available s)).
Proof. intros H. unfold degrade_and_reconnect, set_health, bind_eff, upd, modify. apply scheduleReconnect_sound. by destruct H. Qed.

Lemma invalidate_invariant b held s : invariant b held s -> invariant b held (snd (invalidateRecovery s)).
Proof. intros [? ? ? Ht ?]. split; try done. by apply (traced_cons _ _ _ _ (h_operation (recoveryOperation s + 1))) in Ht. Qed.

(** A feed that is given up: another is connected, while the engine runs. *)
Lemma given_up held s (m : eff engine unit) :
  invariant false held s -> (syncRunning s = true -> sound false held (snd (m s))) ->
  sound false held (snd ((do! running := gets syncRunning in if negb running then ret tt else m) s)).
Proof.
  intros H Hm. unfold bind_eff, gets. destruct (syncRunning s) eqn:Hr; [by apply Hm |]. split; [done |]. intros _ Hrun. cbn in Hrun. congruence.
Qed.

Lemma onEventError_safe g a : safe false (onEventError available g a).
Proof.
  apply safe_known. intros held s H. destruct (isCurrentFeedConnection g a s); cbn [negb]; [| done].
  apply (step_after (fun _ => invariant false held)); [eexists _, _; split; [done | by apply attempt_invariant, H] |].
  clear dependent s. intros _ s H. apply (step_after (fun _ => invariant false held)); [by eexists _, _ |].
  clear dependent s. intros code s H. apply (step_after (fun _ => invariant false held)).
  { destruct (is_error _ _); eexists _, _; (split; [done |]); by destruct H. }
  clear dependent s. intros _ s H. apply given_up; [done |]. intros _.
  apply (step_after (fun _ => invariant false held)); [eexists _, _; split; [done | by apply invalidate_invariant] |].
  intros _ s1. apply degrade_restores.
Qed.

Lemma onClose_safe g a : safe false (onClose available g a).
Proof.
  apply safe_known. intros held s H. destruct (isCurrentFeedConnection g a s); cbn [negb]; [| done].
  apply (step_after (fun _ => invariant false held)); [eexists _, _; split; [done | by apply attempt_invariant, H] |].
  clear dependent s. intros _ s H. apply given_up; [done |]. intros _.
  apply (step_after (fun _ => invariant false held)); [eexists _, _; split; [done | by apply invalidate_invariant] |].
  clear dependent s. intros _ s H. apply (step_after (fun _ => invariant false held)); [eexists _, _; split; [done |]; by destruct H |].
  intros _ s1. apply degrade_restores.
Qed.

Lemma reconnect_safe : safe false reconnect.
Proof.
  apply safe_known. intros held s H. destruct (reconnectTimer s) as [g |] eqn:Ht; [| done].
  assert (Hg : isCurrent g s = true) by (rewrite (in_timed _ _ _ (proj1 H) g Ht); apply Z.eqb_refl).
  apply (step_after (fun _ s => invariant false held s /\ isCurrent g s = true)).
  { eexists _, _. split; [done |]. by destruct H as [[] _]. }
  clear dependent s. intros _ s [H Hg]. apply (step_after (fun _ s => invariant false held s /\ isCurrent g s = true)).
  { eexists _, _. split; [done |]. destruct H. split; [| done]. split; try done. by eapply objects_drop, objects_fresh. }
  clear dependent s. intros ownership s [H Hg]. apply (step_after (fun _ => sound false held)).
  { apply connectAndRecover_called; [done | congruence]. }
  intros p s1. refine ((_ : safe false (do! a := _ in _)) held s1). shape.
Qed.

Lemma poll_safe : safe false poll.
Proof. unfold poll. shape. Qed.
#[local] Hint Resolve onEvent_leaves onEventError_safe onClose_safe reconnect_safe poll_safe : sync.

(** *** Turns *)

Abbreviation resume := (resume available pollIntervalMs ATLAS_PROTOCOL_REVISION isObjectDetailResource).
Abbreviation turn := (turn available pollIntervalMs ATLAS_PROTOCOL_REVISION isObjectDetailResource).
Abbreviation engine_step := (engine_step available pollIntervalMs ATLAS_PROTOCOL_REVISION isObjectDetailResource).
Abbreviation engine_run := (engine_run available pollIntervalMs ATLAS_PROTOCOL_REVISION isObjectDetailResource).

Lemma resume_plain f o m : plain f -> resume f o = Some m -> leaves false m.
Proof.
  intros [Hc Hf]. destruct f; try done; destruct o as [[] |]; cbn; try done; unfold read_answered; repeat case_match; intros [= <-]; shape.
Qed.

Lemma resume_chain f g o m : chains f = Some g -> connects f = None -> resume f o = Some m -> goes_on g m.
Proof.
  intros Hf Hc. destruct f; try done; injection Hf as <-; cbn.
  - intros [= <-]. apply connect_failed_goes_on.
  - destruct o as [[] |]; try done; intros [= <-]; [apply feed_recovered_goes_on | by apply goes_on_hop].
  - destruct o as [[] |]; try done; intros [= <-]; first [apply drain_goes_on | by apply goes_on_hop].
  - intros [= <-]. apply connect_end_goes_on.
Qed.

Lemma linked_turn G A ts cs id w f : jwf ts -> jget id ts = Some (w, f) -> connects f <> Some (G, A) -> linked G A ts cs -> linked G A (jdel id ts) cs.
Proof.
  intros Hwf E Hc [H | (i & p & f' & E' & Ec)]; [by left | right]. exists i, p, f'. split; [| done].
  rewrite jget_jdel_ne; [done |]. intros ->. congruence.
Qed.

(** A task about to go on: what is lost is that it waited. *)
Lemma turn_begins id w f s :
  sound false [] s -> jget id (tasks s) = Some (w, f) -> (forall p, w = on_promise p -> jget p (settled s) <> None) ->
  let s1 := s <| tasks ::= jdel id |> in
  invariant (bool_decide (chains f = Some (lifecycleGeneration s))) [id] s1 /\
  (connects f <> Some (lifecycleGeneration s, feedConnectionAttempt s) -> feeding available s1).
Proof.
  intros [[Ho Hc ? ? ?] Hf] E Hw s1. pose proof (ob_tasks _ _ _ _ _ _ Ho) as Hwf. split.
  - split; try done; cbn; [by eapply objects_turn | by eapply chained_turn].
  - intros Hne Hv Hr. destruct (Hf Hv Hr) as [? | [? | Hk]]; [by left | by right; left | right; right]. by eapply linked_turn.
Qed.

(** The task whose connection was made has it, and one refused is given up. *)
Lemma connect_turn id p f o g a m s :
  sound false [] s -> jget id (tasks s) = Some (on_promise p, f) -> jget p (settled s) = Some o -> connects f = Some (g, a) ->
  resume f o = Some m -> sound false [] (snd (leave id m (s <| tasks ::= jdel id |>))).
Proof.
  intros H E Ep Ec Em. destruct (turn_begins id _ f s H E) as [H1 Hf1]; [intros p' [= <-]; congruence |].
  set (s1 := s <| tasks ::= jdel id |>) in *. pose proof (proj1 H) as [Ho Hch _ _ _].
  destruct (ob_waits _ _ _ _ _ _ Ho _ _ _ _ _ E Ec) as (_ & _ & Hl).
  assert (Hlink : forall v, o = fulfilled v -> feeding available s1).
  { intros v ->. destruct (decide ((g, a) = (lifecycleGeneration s, feedConnectionAttempt s))) as [Hd | Hd]; [| apply Hf1; congruence].
    destruct Hl as [Hl | [f' Hl]]; [| congruence]. intros _ _. right. right. left. exists p. cbn. by rewrite Hl, Hd. }
  assert (Hpast : isCurrentFeedConnection g a s1 = false -> feeding available s1).
  { intros Hc. apply Hf1. rewrite Ec. intros [= -> ->]. unfold isCurrentFeedConnection, isCurrent in Hc. cbn in Hc. rewrite !Z.eqb_refl in Hc. done. }
  destruct f; try done; cbn in Ec; injection Ec as <- <-; cbn in H1.
  - assert (Hg : cn_generation k <= lifecycleGeneration s) by (by eapply (ch_past _ _ _ _ Hch id)).
    assert (Hb : bool_decide (Some (cn_generation k) = Some (lifecycleGeneration s)) = bool_decide (cn_generation k = lifecycleGeneration s)).
    { apply bool_decide_ext. split; [by intros [=] | by intros ->]. }
    rewrite Hb in H1. destruct o as [v | f']; injection Em as <-.
    + apply recoverConnectedFeed_goes_on; [done |]. split; [done | by eapply Hlink].
    + apply (leave_after (fun _ s2 => sound (bool_decide (cn_generation k = lifecycleGeneration s2)) [id] s2 /\ cn_generation k <= lifecycleGeneration s2)).
      * destruct (quiet_failed (cn_generation k) (cn_attempt k) s1) as (u & s2 & E2 & G2). exists u, s2. split; [done |].
        rewrite G2. split; [| done]. pose proof (failed_sound _ _ _ _ _ H1 Hpast) as H2. by rewrite E2 in H2.
      * intros _ s2 [H2 Hg2]. by apply (goes_on_hop (cn_generation k)).
  - destruct o as [v | f']; injection Em as <-.
    + refine ((_ : leaves false _) id [] s1 _); [unfold clear_error_if; shape |]. split; [done | by eapply Hlink].
    + apply (leave_after (fun _ => sound false [id])); [| intros; by apply leaves_ends].
      destruct (quiet_failed generation attempt s1) as (u & s2 & E2 & G2). exists u, s2. split; [done |].
      pose proof (failed_sound _ _ _ _ _ H1 Hpast) as H2. by rewrite E2 in H2.
Qed.

Lemma turn_sound id s : sound false [] s -> sound false [] (turn id s).
Proof.
  intros H. unfold turn. destruct (jget id (tasks s)) as [[w f] |] eqn:E; [| done].
  destruct (match w with on_promise p => _ | on_nothing => _ end) as [o |] eqn:Eo; [| done].
  destruct (resume f o) as [m |] eqn:Em; [| done].
  pose proof (proj1 H) as [Ho Hch _ _ _].
  destruct (connects f) as [[g a] |] eqn:Ec.
  - destruct (ob_waits_some _ _ _ _ _ _ Ho id w f E) as [p ->]; [congruence |]. by eapply connect_turn.
  - destruct (turn_begins id w f s H E) as [H1 Hf1]; [intros p ->; congruence |]. rewrite Ec in Hf1. specialize (Hf1 ltac:(done)).
    destruct (chains f) as [g |] eqn:Ef.
    + refine (resume_chain f g o m Ef Ec Em id [] _ _ _); [by eapply (ch_past _ _ _ _ Hch id) |]. split; [| done].
      revert H1. replace (bool_decide (Some g = _)) with (bool_decide (g = lifecycleGeneration s)); [done |].
      apply bool_decide_ext. split; [by intros -> | by intros [=]].
    + refine (resume_plain f o m (conj Ec Ef) Em id [] _ _). by split.
Qed.

(** *** Runs *)

Lemma reply_sound id o s : sound false [] s -> sound false [] (reply id o s).
Proof.
  intros H. unfold reply. destruct (jget id (requests s)) as [r |] eqn:Er; [| done]. destruct (fits r o); [| done].
  destruct H as [[Ho ? ? ? ?] Hf]. pose proof (objects_reply id o _ _ _ _ _ _ Ho ltac:(congruence)) as Ho'.
  destruct o as [v | f]; [split; [by split | done] |]. split; [by split |]. intros Ha Hr.
  destruct (Hf Ha Hr) as [? | [? | Hk]]; [by left | by right; left |]. right. right. destruct Hk as [[p Hp] | Hk]; [| by right].
  destruct (decide (p = id)) as [-> | Hne].
  - right. destruct (ob_asked _ _ _ _ _ _ Ho id _ _ ltac:(congruence) Hp) as (i & f' & E & Ec). by exists i, id, f'.
  - left. exists p. cbn. by rewrite jget_jdel_ne.
Qed.

Lemma of_connection_sound id (f : Z -> Z -> eff engine unit) s : (forall g a, safe false (f g a)) -> sound false [] s -> sound false [] (of_connection id f s).
Proof. intros Hf H. unfold of_connection. destruct (jget id (connections s)) as [[g a] |]; [by apply Hf | done]. Qed.

Lemma engine_step_sound e s : sound false [] s -> sound false [] (engine_step e s).
Proof.
  intros H.
  assert (Hany : forall s', invariant false [] s' -> feeding available s' -> sound false [] s') by (by split).
  destruct e; cbn [SyncEngine.engine_step].
  - by apply perform_safe.
  - refine ((_ : safe false (watch _ _)) [] s H). unfold watch. shape.
  - refine ((_ : safe false (unwatch _ _)) [] s H). unfold unwatch. shape.
  - by destruct H as [[] ?]; split; [split |].
  - by destruct H as [[] ?]; split; [split |].
  - by apply reply_sound.
  - by apply turn_sound.
  - apply of_connection_sound; [| done]. intros. shape.
  - apply of_connection_sound; [| done]. intros. apply onEventError_safe.
  - apply of_connection_sound; [intros; apply onClose_safe | by destruct H as [[] ?]; split; [split |]].
  - by destruct H as [[] ?]; split; [split |].
  - by apply reconnect_safe.
  - by apply poll_safe.
  - by destruct H as [[] ?]; split; [split |].
Qed.

Lemma new_engine_sound initialSync c : sound false [] (newSyncEngine initialSync c).
Proof.
  split; [| by intros _ [=]]. split; cbn.
  - split; try done; try (by constructor). split; [constructor | by intros ? ?%elem_of_nil].
  - split; [done |]. by intros id (w & f & E & _).
  - done.
  - split; [done .. |]. by intros [].
  - done.
Qed.

Lemma engine_run_sound es : forall s, sound false [] s -> sound false [] (engine_run es s).
Proof. induction es as [| e es IH]; intros s H; [done |]. apply IH. by apply engine_step_sound. Qed.
End operations.

(** ** The properties *)

Section properties.
Context (available : bool) (pollIntervalMs : Z) (ATLAS_PROTOCOL_REVISION : list Z) (isObjectDetailResource : json -> bool).
Abbreviation engine_step := (engine_step available pollIntervalMs ATLAS_PROTOCOL_REVISION isObjectDetailResource).
Abbreviation engine_run := (engine_run available pollIntervalMs ATLAS_PROTOCOL_REVISION isObjectDetailResource).

(** A connection of generation [g] is asked for, with the attempt after [a]. *)
Definition asking (g a : Z) (again : bool) (s : engine) : Prop :=
  reconnecting s = true /\ (again = false -> exists p, jget p (requests s) = Some (rq_connect g (a + 1))).

Lemma leave_asks id g s o :
  isCurrent g s = true ->
  asking g (feedConnectionAttempt s) (reconnecting s) (snd (leave id (connectAndRecoverFeedForGeneration g o) s)).
Proof.
  intros Hg. unfold connectAndRecoverFeedForGeneration.
  apply (leave_after (fun a s1 => a = s /\ s1 = s)); [by eexists _, _ |]. intros ? ? [-> ->]. rewrite Hg. cbn [negb].
  destruct (reconnecting s) eqn:Hr; [by split |]. set (A := feedConnectionAttempt s).
  apply (leave_after (fun _ s => reconnecting s = true /\ feedConnectionAttempt s = A)); [by eexists _, _ |].
  clear Hg Hr. clearbody A. clear s. intros _ s H. apply (leave_after (fun _ s => reconnecting s = true /\ feedConnectionAttempt s = A)); [by eexists _, _ |].
  clear dependent s. intros _ s [Hr HA]. apply (leave_after (fun a s => reconnecting s = true /\ a = A + 1)).
  { eexists _, _. split; [done |]. by rewrite <- HA. }
  clear dependent s. intros a s [Hr ->]. apply (leave_after (fun _ s => reconnecting s = true)); [by eexists _, _ |].
  clear dependent s. intros buffer s Hr. apply (leave_after (fun _ s => reconnecting s = true)); [by eexists _, _ |].
  clear dependent s. intros since s Hr. apply (leave_after (fun _ s => reconnecting s = true)); [by eexists _, _ |].
  clear dependent s. intros _ s Hr. split; [exact Hr |]. intros _. exists (next_object s). apply jget_jset_eq.
Qed.

Lemma reconnect_asks g s :
  reconnectTimer s = Some g -> isCurrent g s = true -> asking g (feedConnectionAttempt s) (reconnecting s) (snd (reconnect s)).
Proof.
  intros Ht Hg. unfold reconnect. apply (step_after (fun t s1 => t = Some g /\ s1 = s)); [by rewrite <- Ht; eexists _, _ |].
  intros ? ? [-> ->]. apply (step_after (fun _ s1 => isCurrent g s1 = true /\ feedConnectionAttempt s1 = feedConnectionAttempt s /\ reconnecting s1 = reconnecting s));
    [by eexists _, _ |]. intros _ s1 (G1 & A1 & R1). rewrite <- A1, <- R1. clear dependent s.
  apply (step_after (fun _ s2 => isCurrent g s2 = true /\ feedConnectionAttempt s2 = feedConnectionAttempt s1 /\ reconnecting s2 = reconnecting s1));
    [by eexists _, _ |]. intros ownership s (G & A & R). rewrite <- A, <- R. clear dependent s1.
  apply (step_after (fun _ => asking g (feedConnectionAttempt s) (reconnecting s))).
  - pose proof (leave_asks (next_object s) g (s <| next_object ::= fun n => n + 1 |>) (Some ownership)) as H.
    eexists _, _. split; [apply async_leave | exact (H G)].
  - generalize (feedConnectionAttempt s) (reconnecting s). clear s G. intros a again p s H.
    apply (step_after (fun _ s1 => asking g a again s1)); [by eexists _, _ |]. intros a' s1 H1. exact H1.
Qed.

(** C4: only current work reaches the engine's cache. Whatever is called,
    answered and delivered, in whatever order the tasks go on: every dataset
    that is installed, every event that a recovery applies and every event
    consumed from the feed is of the lifecycle that is current at that moment,
    of the recovery that is current (a hydration at the start of a lifecycle
    belongs to none) and of the connection that is current: nothing that was
    superseded, stopped or disconnected is applied afterwards. *)
Theorem sync_only_current_work initialSync c es later e past :
  sync_history (engine_run es (newSyncEngine initialSync c)) = later ++ e :: past -> entry_ok e past.
Proof. intros E. by eapply (tr_ok _ _ _ _ (in_traced _ _ _ (proj1 (engine_run_sound _ _ _ _ es _ (new_engine_sound available initialSync c))))). Qed.

(** C3: an engine that runs never falls silent. In every state of every run,
    the flag [reconnecting] tells exactly whether a task of the current
    lifecycle connects and recovers the feed, and there is never more than
    one; while the engine runs, the connection of the current attempt is open
    or asked for, or a timer will connect again, or the recovery under way
    does so when it ends; and the timer, when it fires, asks for a
    connection of its own unless a recovery is under way. *)
Theorem sync_never_falls_silent initialSync c es :
  let s := engine_run es (newSyncEngine initialSync c) in
  let g := lifecycleGeneration s in
  (if reconnecting s then exists id, forall id', chain g (tasks s) id' <-> id' = id else forall id, ~ chain g (tasks s) id) /\
  (available = true -> syncRunning s = true ->
   reconnectTimer s = Some g \/ reconnecting s && reconnectAfterRecovery s = true \/ linked g (feedConnectionAttempt s) (tasks s) (connections s)) /\
  (forall g', reconnectTimer s = Some g' ->
   let s' := engine_step ev_reconnect s in
   reconnecting s' = true /\ (reconnecting s = false -> exists p, jget p (requests s') = Some (rq_connect g (feedConnectionAttempt s + 1)))).
Proof.
  cbn zeta. pose proof (engine_run_sound available pollIntervalMs ATLAS_PROTOCOL_REVISION isObjectDetailResource es _ (new_engine_sound available initialSync c)) as [[_ [_ Hc] Ht _ _] Hf].
  set (s := SyncEngine.engine_run _ _ _ _ _ _) in *. split; [by destruct (reconnecting s) |]. split.
  - intros Hv Hr. destruct (Hf Hv Hr) as [H | H]; [left | by right]. destruct (reconnectTimer s) as [g |] eqn:E; [| done]. by rewrite (Ht g).
  - intros g' E. rewrite <- (Ht _ E). by apply reconnect_asks; [| rewrite (Ht _ E); apply Z.eqb_refl].
Qed.

(** What is held back is bounded. While a feed is recovered its events
    wait in a buffer: in every state of every run each buffer holds at most
    100 events, knows the bytes of what it holds exactly, and holds at most
    8 MiB unless a single event is larger. *)
Theorem sync_buffers_bounded initialSync c es ref b :
  jget ref (buffers (engine_run es (newSyncEngine initialSync c))) = Some b ->
  zlen (fb_events b) <= 100 /\ fb_bytes b = bytes_of (fb_events b) /\ (Z.of_nat (fb_bytes b) <= 8388608 \/ zlen (fb_events b) = 1).
Proof. intros E. exact (in_buffered _ _ _ (proj1 (engine_run_sound _ _ _ _ es _ (new_engine_sound available initialSync c))) ref b E). Qed.

(** *** A recovery that was superseded *)

(** What a feed that is held back leaves alone. *)
Definition standing (s : engine) :=
  (lifecycleGeneration s, feedConnectionAttempt s, tasks s, requests s, connections s, feedRecoveryBuffer s, reconnectTimer s,
   reconnecting s, syncRunning s, health s, lastErrorCode s, feedCursor s, cache s).

Definition delivered (connection : Z) (fs : list (FeedEvent * nat)) : list engine_event :=
  map (fun f => ev_feed_event connection (fst f) (snd f)) fs.

(** The feed of the connection goes into a buffer that has room. *)
Record held_back (connection ref g a : Z) (s : engine) : Prop := {
  hb_connection : jget connection (connections s) = Some (g, a);
  hb_current : isCurrentFeedConnection g a s = true;
  hb_buffer : feedRecoveryBuffer s = Some ref
}.

Lemma held_back_standing connection ref g a s s' : standing s' = standing s -> held_back connection ref g a s -> held_back connection ref g a s'.
Proof.
  unfold standing. intros [= E1 E2 _ _ E3 E4 _ _ _ _ _ _ _] [H1 H2 H3]. split; [by rewrite E3 | | by rewrite E4].
  unfold isCurrentFeedConnection, isCurrent in *. by rewrite E1, E2.
Qed.

Lemma held_back_step connection ref g a e n events bytes s :
  held_back connection ref g a s -> jget ref (buffers s) = Some (mkBuffer g a events bytes) ->
  zlen events < 100 -> Z.of_nat (bytes + n) <= 8388608 ->
  let s' := engine_step (ev_feed_event connection e n) s in
  standing s' = standing s /\ jget ref (buffers s') = Some (mkBuffer g a (events ++ [(e, n)]) (bytes + n)).
Proof.
  intros [Hc Hcur Hb] Hj Hn Hm. cbn zeta.
  assert (E : engine_step (ev_feed_event connection e n) s = s <| next_object ::= fun m => m + 1 |>
    <| buffers ::= jset ref (mkBuffer g a (events ++ [(e, n)]) (bytes + n)) |> <| settled ::= jset (next_object s) (fulfilled v_unit) |>).
  { cbn [SyncEngine.engine_step]. unfold of_connection. rewrite Hc. unfold bind_eff at 1. rewrite async_leave. cbn [snd fst ret].
    unfold leave, onEvent, bind_eff, gets at 1. cbn beta iota. set (s1 := s <| next_object ::= _ |>).
    change (isCurrentFeedConnection g a s1) with (isCurrentFeedConnection g a s). rewrite Hcur. cbn [negb].
    change (feedRecoveryBuffer s1) with (feedRecoveryBuffer s). rewrite Hb. unfold of_buffer.
    change (buffers s1) with (buffers s). rewrite Hj. cbn [default from_option id fb_generation fb_attempt fb_events fb_bytes]. rewrite !Z.eqb_refl. cbn [andb].
    change MAX_BUFFERED_FEED_EVENTS with 100. change MAX_BUFFERED_FEED_BYTES with 8388608.
    rewrite (proj2 (Z.leb_gt 100 (zlen events)) Hn), (proj2 (Z.ltb_ge 8388608 (Z.of_nat (bytes + n))) Hm).
    rewrite andb_false_r. reflexivity. }
  rewrite E. split; [done |]. cbn. by rewrite jget_jset_eq.
Qed.

Lemma held_back_all connection ref g a fs : forall events bytes s,
  held_back connection ref g a s -> jget ref (buffers s) = Some (mkBuffer g a events bytes) ->
  zlen events + zlen fs <= 100 -> Z.of_nat (bytes + bytes_of fs) <= 8388608 ->
  let s' := engine_run (delivered connection fs) s in
  standing s' = standing s /\ jget ref (buffers s') = Some (mkBuffer g a (events ++ fs) (bytes + bytes_of fs)).
Proof.
  induction fs as [| [e n] fs IH]; intros events bytes s H Hj Hn Hm; cbn zeta; [by rewrite app_nil_r, Nat.add_0_r |]. rewrite zlen_cons in Hn.
  change (bytes_of ((e, n) :: fs)) with (n + bytes_of fs)%nat in *. pose proof (zlen_nonneg fs).
  destruct (held_back_step connection ref g a e n events bytes s H Hj ltac:(lia) ltac:(lia)) as [E1 E2].
  destruct (IH (events ++ [(e, n)]) (bytes + n)%nat (engine_step (ev_feed_event connection e n) s)) as [E3 E4].
  - by apply (held_back_standing _ _ _ _ s).
  - exact E2.
  - rewrite zlen_app. change (zlen [(e, n)]) with 1. lia.
  - lia.
  - change (engine_run (delivered connection ((e, n) :: fs)) s) with (engine_run (delivered connection fs) (engine_step (ev_feed_event connection e n) s)).
    rewrite E3, E1. split; [done |]. rewrite E4. by rewrite (cons_middle (e, n) events fs), app_assoc, Nat.add_assoc.
Qed.

(** The task that recovered the feed ends, and leaves the buffer. *)
Definition left_behind (id : Z) (k : connecting) (s : engine) : engine :=
  s <| tasks := jdel id (jset id (on_nothing, fr_connect_end k (inl false)) (jdel id (tasks s))) |> <| reconnecting := false |>
    <| settled ::= jset id (fulfilled v_unit) |>.

Lemma superseded_leaves id p k s :
  jget id (tasks s) = Some (on_promise p, fr_feed_recovery k) -> jget p (settled s) = Some (fulfilled (v_bool false)) ->
  isCurrentFeedConnection (cn_generation k) (cn_attempt k) s = true -> syncRunning s = true -> reconnectAfterRecovery s = false ->
  engine_run [ev_turn id; ev_turn id] s = left_behind id k s.
Proof.
  intros Ht Hp Hc Hr Ha. unfold SyncEngine.engine_run. cbn [fold_left].
  assert (E : engine_step (ev_turn id) s = s <| tasks := jset id (on_nothing, fr_connect_end k (inl false)) (jdel id (tasks s)) |>).
  { cbn [SyncEngine.engine_step]. unfold turn. rewrite Ht, Hp. cbn [resume]. unfold leave, feed_recovered, bind_eff, gets. reflexivity. }
  rewrite E. set (s1 := s <| tasks := _ |>). cbn [SyncEngine.engine_step]. unfold turn.
  assert (E1 : jget id (tasks s1) = Some (on_nothing, fr_connect_end k (inl false))) by apply jget_jset_eq. rewrite E1. cbn [resume].
  set (s2 := s1 <| tasks ::= jdel id |>). unfold leave, connect_end, finishFeedRecoveryAttempt, bind_eff at 1 2 3, gets at 1.
  change (syncRunning s2) with (syncRunning s). rewrite Hr. rewrite andb_false_r. cbn [andb].
  unfold ret at 1, bind_eff at 1, upd at 1, modify at 1. change (isCurrentFeedConnection (cn_generation k) (cn_attempt k) s2) with (isCurrentFeedConnection (cn_generation k) (cn_attempt k) s).
  rewrite Hc. rewrite andb_false_r. unfold bind_eff, gets.
  assert (Hg : isCurrent (cn_generation k) s2 = true) by (unfold isCurrentFeedConnection in Hc; by apply andb_true_iff in Hc as [Hc _]).
  rewrite Hg. cbn [negb]. unfold upd, modify. change (reconnectAfterRecovery (s2 <| reconnecting := false |>)) with (reconnectAfterRecovery s).
  rewrite Ha. reflexivity.
Qed.

(** C27: a recovery that is superseded while its connection stays current
    leaves the feed held back. In any run, take the task that waits for the
    recovery that follows a connection, and let that recovery be answered
    [false], as one superseded is, while the connection is the current one,
    its buffer in place and no reconnection asked for. When the task has gone
    on to its end nothing recovers the feed any more and nothing was scheduled
    that will; yet every event the connection then delivers, while the buffer
    has room, only joins the buffer: health, error, cursor and cache stay as
    they were, so an engine that was healthy still says so. *)
Theorem superseded_recovery_holds_back initialSync c es id p k connection b fs :
  let s := engine_run es (newSyncEngine initialSync c) in
  jget id (tasks s) = Some (on_promise p, fr_feed_recovery k) -> jget p (settled s) = Some (fulfilled (v_bool false)) ->
  isCurrentFeedConnection (cn_generation k) (cn_attempt k) s = true ->
  jget connection (connections s) = Some (cn_generation k, cn_attempt k) ->
  feedRecoveryBuffer s = Some (cn_buffer k) -> jget (cn_buffer k) (buffers s) = Some b ->
  fb_generation b = cn_generation k -> fb_attempt b = cn_attempt k ->
  syncRunning s = true -> reconnectAfterRecovery s = false ->
  zlen (fb_events b) + zlen fs <= 100 -> Z.of_nat (fb_bytes b + bytes_of fs) <= 8388608 ->
  let s' := engine_run ([ev_turn id; ev_turn id] ++ delivered connection fs) s in
  (reconnecting s' = false /\ (forall id', ~ chain (lifecycleGeneration s') (tasks s') id') /\ reconnectTimer s' = reconnectTimer s) /\
  (health s' = health s /\ lastErrorCode s' = lastErrorCode s /\ feedCursor s' = feedCursor s /\ cache s' = cache s) /\
  feedRecoveryBuffer s' = Some (cn_buffer k) /\ (exists b', jget (cn_buffer k) (buffers s') = Some b' /\ fb_events b' = fb_events b ++ fs).
Proof.
  intros s Ht Hp Hc Hj Hb Hbuf Hbg Hba Hr Ha Hn Hm s'.
  assert (E : s' = engine_run (delivered connection fs) (left_behind id k s)).
  { unfold s', SyncEngine.engine_run. rewrite fold_left_app. f_equal. by apply superseded_leaves with p. }
  destruct (held_back_all connection (cn_buffer k) (cn_generation k) (cn_attempt k) fs (fb_events b) (fb_bytes b) (left_behind id k s)) as [E1 E2];
    [by split | by destruct b; cbn in *; subst | done | done |].
  cbn zeta in E1, E2. rewrite <- E in E1, E2. unfold standing in E1. injection E1 as _ _ _ _ _ E3 E4 E5 _ E6 E7 E8 E9.
  pose proof (engine_run_sound available pollIntervalMs ATLAS_PROTOCOL_REVISION isObjectDetailResource
    ([ev_turn id; ev_turn id] ++ delivered connection fs) s (engine_run_sound _ _ _ _ es _ (new_engine_sound available initialSync c))) as [[_ [_ Hch] _ _ _] _].
  change (SyncEngine.engine_run _ _ _ _ _ s) with s' in Hch. rewrite E5 in Hch. cbn in Hch.
  split; [by split_and! |]. split; [by split_and! |]. split; [by rewrite E3 |]. eexists. split; [exact E2 | done].
Qed.
End properties.

(** ** Runs, evaluated *)

Definition dataset (version : Z) : outcome := fulfilled (v_dataset (mkDataset version [] [] [] [])).
Definition changes (version : Z) (events : list FeedEvent) (cursor : option (list Z)) : outcome :=
  fulfilled (v_changes (mkChanges version events (bool_decide (cursor <> None)) cursor)).
Definition event (version : Z) : FeedEvent := feed_delete entity (js "a1") version.

(** The engine starts: the revision, all resources, what changed since, the
    connection; then the recovery that follows the connection is asked for. *)
Definition starting : list engine_event :=
  [ev_call call_start; ev_reply 2 (fulfilled (v_text (js "r"))); ev_turn 1;
   ev_reply 4 (dataset 5); ev_turn 3; ev_turn 5; ev_turn 1;
   ev_reply 7 (changes 5 [] None); ev_turn 6; ev_turn 6; ev_turn 8; ev_turn 1;
   ev_connected true; ev_reply 11 (fulfilled v_unit); ev_turn 9].

(** An event arrives on the feed meanwhile, and waits until the recovery
    ends. *)
Definition started : list engine_event :=
  starting ++ [ev_feed_event 11 (event 6) 100; ev_reply 13 (changes 5 [] None); ev_turn 12; ev_turn 12; ev_turn 14; ev_turn 9;
               ev_turn 16; ev_turn 9; ev_turn 9; ev_turn 1; ev_turn 0].

(** The application asks for changes itself, between two pages of the
    recovery. *)
Definition superseded_run : list engine_event :=
  starting ++ [ev_reply 13 (changes 7 [event 6] (Some (js "c"))); ev_turn 12; ev_call call_changedSince;
               ev_reply 17 (changes 7 [event 7] None); ev_turn 16; ev_turn 16; ev_turn 18;
               ev_reply 15 (changes 7 [] None); ev_turn 12; ev_turn 12; ev_turn 14; ev_turn 9; ev_turn 9; ev_turn 1; ev_turn 0].

Definition sample_step : engine_event -> engine -> engine := engine_step true 0 (js "r") (fun _ => true).
Definition sample_run : list engine_event -> engine -> engine := engine_run true 0 (js "r") (fun _ => true).
Definition started_engine : engine := sample_run started (newSyncEngine true new_cache).
Definition superseded_engine : engine := sample_run superseded_run (newSyncEngine true new_cache).

Lemma started_is_healthy :
  tasks started_engine = [] /\ health started_engine = healthy /\ feedCursor started_engine = 6 /\ feedRecoveryBuffer started_engine = None /\
  List.hd_error (sync_history started_engine) = Some (h_consumed 1 1 (event 6)).
Proof. vm_compute. done. Qed.

(** ** Witnesses *)

Lemma sync_only_current_work_witness : operation_of (skipn 1 (sync_history superseded_engine)) = 4.
Proof.
  exact (proj2 (sync_only_current_work true 0 (js "r") (fun _ => true) true new_cache superseded_run [] (h_recovered 1 4 (event 7))
    (skipn 1 (sync_history superseded_engine)) ltac:(vm_compute; reflexivity))).
Defined.

(** The connection fails: the timer is set, and asks for another. *)
Definition refused : list engine_event :=
  take 12 starting ++ [ev_reply 11 (rejected (thrown (PlainError "closed"))); ev_turn 9; ev_turn 9; ev_turn 9].

Lemma sync_never_falls_silent_witness :
  let s := sample_run refused (newSyncEngine true new_cache) in
  reconnectTimer s = Some 1 /\ exists p, jget p (requests (sample_step ev_reconnect s)) = Some (rq_connect 1 2).
Proof.
  cbn zeta. split; [vm_compute; reflexivity |].
  destruct (sync_never_falls_silent true 0 (js "r") (fun _ => true) true new_cache refused) as (_ & _ & H).
  destruct (H 1 ltac:(vm_compute; reflexivity)) as [_ H1]. exact (H1 ltac:(vm_compute; reflexivity)).
Defined.

Lemma sync_buffers_bounded_witness : zlen [(event 6, 100%nat)] <= 100.
Proof.
  exact (proj1 (sync_buffers_bounded true 0 (js "r") (fun _ => true) true new_cache (starting ++ [ev_feed_event 11 (event 6) 100]) 10
    (mkBuffer 1 1 [(event 6, 100%nat)] 100) ltac:(vm_compute; reflexivity))).
Defined.

(** [superseded_run] before the task of the first recovery goes on. *)
Definition superseded_prefix : list engine_event := take (length superseded_run - 4) superseded_run.
Definition superseded_before : engine := sample_run superseded_prefix (newSyncEngine true new_cache).
Definition waiting_feed : connecting := mkConnecting 1 1 5 10 None.

Lemma superseded_recovery_holds_back_witness :
  let fs := [(event 8, 100%nat); (event 9, 100%nat)] in
  let s' := sample_run ([ev_turn 9; ev_turn 9] ++ delivered 11 fs) superseded_before in
  health superseded_before = healthy /\ health s' = healthy /\ feedCursor s' = feedCursor superseded_before /\
  exists b', jget 10 (buffers s') = Some b' /\ fb_events b' = fs.
Proof.
  cbn zeta. assert (E : health superseded_before = healthy) by (vm_compute; reflexivity).
  destruct (superseded_recovery_holds_back true 0 (js "r") (fun _ => true) true new_cache superseded_prefix 9 12 waiting_feed 11
    (mkBuffer 1 1 [] 0) [(event 8, 100%nat); (event 9, 100%nat)]) as (_ & (H1 & _ & H2 & _) & _ & H3);
    try (vm_compute; reflexivity); try (vm_compute; congruence).
  split; [exact E |]. split; [rewrite <- E; exact H1 |]. split; [exact H2 | exact H3].
Defined.
